(* ===== verification/_CoqProject ===== *)
-Q . S2P
Prelude.v
Decimal.v
GoText.v
GoTime.v
Values.v
ValueLaws.v
Ranges.v
Lists.v
ListLaws.v
Numbers.v
NumberLaws.v
TenDecimal.v
GoTimeText.v
NumberText.v
Durations.v
Temporal.v
TemporalLaws.v
TemporalText.v
StateStore.v
StateStoreLaws.v
Schema.v
Dictionaries.v
Strings.v
StringLaws.v
Tables.v
TableLaws.v
TableJoin.v
Calendars.v
CalendarLaws.v
Operators.v
Registry.v
Normalise.v
Patch.v
Lowering.v
LoweringLaws.v
NormaliseLaws.v
Messages.v
Wire.v
Programs.v
KvStore.v
KvIndex.v
Bbolt.v
BboltLaws.v
PrefixStore.v
Badger.v
Pebble.v
Sql.v
SqlLaws.v
SqlBackend.v
Sqlite.v
SqlOnce.v
Mysql.v
Mariadb.v
Turso.v
Postgres.v
Mssql.v
Nats.v
NatsLaws.v
SqlSample.v
RegistryPump.v
Broker.v
BrokerJobs.v
BrokerEvents.v
BrokerApi.v
RedisServer.v
Redis.v
RedisLaws.v
Documents.v
Dynamo.v
Firestore.v
AzureTables.v
DecisionNode.v
UnaryTest.v
DecisionTable.v
DecisionTableLaws.v
DecisionTask.v
DecisionTaskLaws.v
DecisionExpression.v
DecisionExpressionLaws.v
Engine.v
