(* ===== verification/Prelude.v ===== *)
(** * blkit: a verification library for the blkit business-logic SDK

    blkit (package [bl], [src/core]) lets a Go program state business decisions
    in a FEEL-like expression language and run them as processes.  Its parts:

    - the _values_ of the language (numbers, texts, dates, durations, lists,
      dictionaries, tables, ranges, calendars) and the operators and functions
      on them;
    - _decision nodes_: expressions, tables and native functions with typed
      inputs and outputs, wired into graphs by decision tasks;
    - _schemas and contracts_, which check the data that enters and leaves;
    - the _state store_, which keeps the versions of a run's variables;
    - the _message broker_, which carries start, cancel and terminate requests
      from clients to workers and lifecycle events back, over a versioned and
      optionally encrypted wire format.

    An expression is compiled by the third-party library expr-lang/expr; a
    compiled program is run against an environment of named values.  Decision
    tables compile one program per cell, decision expressions one per output;
    a decision task runs its nodes in topological order.  Workers evaluate
    processes, write through the store and report through the broker.

    ** Files

    Shared:

    - [Prelude]: Go errors ([errors.go]) and the result monad, machine
      integers, [sort.SliceStable], association lists, shared tactics.
    - [Decimal], [TenDecimal]: the interface of shopspring/decimal
      ([DecimalOps], [DecimalText]) with its documented laws ([DecimalLaws],
      [DecimalTextLaws]), an instance on rationals and one on a coefficient and
      a power of ten, as the package has it.
    - [GoText], [GoTime], [GoTimeText]: what the code uses of Go's
      [strings], [unicode/utf8] and [time].

    Values and their functions:

    - [Values], [ValueLaws]: the value types, equality, comparison, the
      three-valued connectives, null and type tests ([value.go], [operators.go],
      [boolean.go], [null.go], [typetest.go]).
    - [Numbers], [NumberLaws], [NumberText]: [number.go].
    - [Durations]: [days_time_duration.go],
      [years_months_duration.go], [duration_parse.go].
    - [Temporal], [TemporalLaws], [TemporalText]: [date.go],
      [time.go], [datetime.go], [temporal.go].
    - [Ranges]: [range.go], [interval.go].
    - [Lists], [ListLaws]: [list.go].
    - [Dictionaries]: [dictionary.go].
    - [Strings], [StringLaws]: [string.go].
    - [Tables], [TableLaws], [TableJoin]: [table.go], [table_methods.go].
    - [Calendars], [CalendarLaws]: [calendar.go], [ical.go].
    - [Operators]: the arithmetic of [operators.go],
      [overloads.go], [components.go].

    The expression language:

    - [Registry]: the functions an expression can call, with
      their signatures ([func.go] and the option lists of each type), and the
      meaning of loops and quantifiers.
    - [Normalise], [NormaliseLaws]: the rewriting of a source
      into the language of the expression library ([normalise.go],
      [comprehensions.go]).
    - [Patch]: the rewriting of the parsed tree ([patch.go]) and
      the shape it guarantees.
    - [Lowering], [LoweringLaws]: the meaning of expressions,
      the machine as an interface, the theorem that the rewritten tree computes
      the meaning, a machine, and the forms where the rewriting departs from the
      documentation.
    - [Engine]: compiling and evaluating
      expressions, unary tests and functions of the host ([engine.go], [udf.go],
      [unarytest.go]).

    Data, runs and messages:

    - [Schema]: [schema.go], [data_contract.go].
    - [StateStore], [StateStoreLaws]: [state_store.go],
      [in_memory_state_store.go].
    - [KvStore], [KvIndex]: ordered key-value engines with
      transactions, the records they hold, and concrete ones.
    - [Bbolt], [BboltLaws]: [stores/bbolt].
    - [PrefixStore], [Badger], [Pebble]: [stores/badger] and
      [stores/pebble], which share their key layout.
    - [Sql], [SqlLaws], [SqlBackend], [SqlOnce], [SqlSample]: the
      SQL the stores use, with its meaning on tables; the relation between
      tables and logs; stores whose engine can fail; an engine in memory.
    - [Sqlite], [Turso], [Mysql], [Mariadb], [Postgres], [Mssql]: the stores of
      [stores/sqlite], [stores/turso], [stores/mysql], [stores/mariadb],
      [stores/postgres] and [stores/mssql].
    - [Nats], [NatsLaws]: [stores/nats], on a key-value bucket.
    - [Messages]: [message_broker.go], [process_status.go].
    - [Wire]: [message_broker_wire.go], [payload_cipher.go].
    - [RegistryPump], [Broker], [BrokerJobs], [BrokerEvents],
      [BrokerApi]: [in_memory_message_broker.go]; its state and operations, a
      concrete run, and the theorems on jobs, on events and on calls.
    - [Programs]: programs that send requests to a server, their interleaving,
      the logic [wp] for invariants of the server, and runs.
    - [RedisServer], [Redis], [RedisLaws]: [brokers/redis/broker.go]; the
      commands of the server as a step relation, and a server in memory; the
      broker's methods as programs; its theorems, and the failures and races it
      does not survive.
    - [Documents]: tables of documents with conditional writes and deletions, the
      updates of a watcher, and what the registry stores have in common.
    - [Dynamo], [Firestore], [AzureTables]: the registry stores of the AWS, Google
      and Azure brokers ([registrystore.go] of [brokers/aws-sqs-sns],
      [brokers/google-pubsub] and [brokers/azure-service-bus]), with their
      theorems and the races they lose.

    Decisions:

    - [DecisionNode]: [decision_node.go], [decision_native_fn.go], and the loop
      of both topological sorts.
    - [UnaryTest]: [unarytest.go].
    - [DecisionTable], [DecisionTableLaws]: [decision_table.go].
    - [DecisionTask], [DecisionTaskLaws]: [decision_task.go],
      [reference_data.go].
    - [DecisionExpression], [DecisionExpressionLaws]:
      [decision_expression.go], [check.go].

    Definitions keep the names of the Go functions they translate.  A function
    that can fail returns [result]; a Go [int] is a [Z] wrapped by [int64] where
    it can overflow; a Go map is a [gmap] unless its order matters.

    ** What the theorems show

    - Values: the connectives are strong Kleene logic; comparison is a total
      preorder on each domain, on which the ordering operators agree; equality
      is symmetric.  Range membership and overlap mean what they say on points.
      The arithmetic operators follow a table of signatures.
    - Numbers: division is exact up to 34 decimal places (its documentation says
      significant digits), modulo is the floor
      modulo, the rounding modes are those of their names; [number] reads back
      what a number prints, and so do the durations.
    - Dates and times: within the years a [time.Time] can hold and in a location of
      one offset, adding months keeps the day or takes the last of the month; components are those of the Gregorian calendar; adding a duration
      and subtracting it cancel; text is read back; weekday counts count.
    - Dictionaries are finite maps, texts sequences of code points; [split] and
      [stringJoin] are inverse.
    - Tables: every operation makes well-formed tables; sorting is stable and
      correct; joins are the relational joins where the text of the key cells
      decides equality; groups partition the rows.
    - Calendars: in a location of one offset the business-day searches end on the
      nearest business day; on naive dates adding and subtracting business days
      are inverse, and the count between agrees.
    - Expressions: every registered name resolves to its implementation; loops
      and quantifiers range over all combinations; the rewriting of a source
      ends, keeps string literals, and its first pass is idempotent.  The
      rewritten tree has the lowered form whatever the source, and the machine
      computes on it the meaning of the source, on the fragment [supported]
      describes; a source compiles exactly under the documented conditions; a
      function of the host computes its body, typed on both sides.
    - Lists: sorting is stable, correct and fails exactly on incomparable
      elements; [min]/[max] return the first extreme element; [all]/[any] are
      the Kleene connectives; [seq] is the arithmetic progression and always
      terminates; positional edits undo one another.
    - Schemas: construction accepts exactly the well-formed schemas, validation
      exactly the values that conform.
    - Stores: the in-memory, bbolt, Badger and Pebble stores refine one log of
      accepted operations ([StateStoreBackend], [ImplementsSpec],
      [LogBackend], [RepresentsLog]).  The SQL stores do so on engines that
      fail at any statement ([FaultyBackend], [ExplainsLog]): what returned nil
      took effect, what returned an error did so entirely or not at all, every
      error is the engine's, and a deadlocked batch that is retried is applied
      once.  The NATS store has no batches: what a failed call leaves is an
      initial part of its operations ([outcomes]), and both reads answer from
      the records in order of arrival although flips reorder the bucket.
      Otherwise batches are atomic; the current
      version is the latest committed one; histories are complete and sorted.
    - Wire: decoding inverts encoding, with and without a cipher, and rejects
      what it cannot read.
    - Broker: an accepted job is queued, in flight or settled, never lost or
      duplicated; queues are first in first out and redelivery goes to the
      front; the first terminal outcome wins, reaches every subscriber and
      closes its channel; a slow subscriber is told that it missed events, unless
      they are the last (final_gap_unmarked); a
      waiting fetcher is woken; a failed call changes nothing.  The registry
      pump loses and reorders nothing and delivers everything.
    - Redis broker: under any interleaving of the requests of any number of
      processes, with lost requests, lost replies, requests that the client
      repeats and crashes, the terminal events of an instance are copies of one
      while its flag does not expire ([redis_first_outcome]), and a job whose entry was added stays deliverable
      until its instance is reported on or cancelled ([redis_job_kept]); process
      keys survive their encoding.
    - Registry stores: under the same interleavings and losses, a due timer is
      claimed by at most one caller ([dynamo_timer_claimed_once] and its
      counterparts), and a worker whose deadline no clock has reached keeps its
      registration and is in every snapshot ([dynamo_live_worker_served] and its
      counterparts); the updates that a watcher is sent lead from each poll to
      the next ([dynamo_watch_tracks], [firestore_watch_tracks],
      [azure_diff_tracks]); what is registered is read back
      ([dynamo_registrations_roundtrip], [firestore_registrations_roundtrip]).
    - Decisions: a table is accepted exactly when it is defined, and computes
      the outcome of its hit policy; the orders of tasks and expressions are
      topological and exist exactly for acyclic graphs; evaluation computes the
      solution of the equations the wiring or the entries state, whatever order
      Go ranges over its maps in.

    Some theorems record where the code departs from its documentation (a
    finished instance's record can be overwritten, nulls never agree under the
    Any policy, a dependency inside a method argument is missed, and others);
    each says so in its comment.

    ** Concurrency

    The broker and the store hold one mutex for the length of a call, so a call
    is one step and a history is a sequence of steps, with timers, the sweeper
    and redelivery as steps of their own.  The registry pump, whose goroutine
    works outside the lock, is a step relation with one step per lock or channel
    operation.  The Redis broker and the registry stores share a server with other
    processes: their methods are programs ([Prog]), a step is one request, one critical section or
    one read of the clock, and a script or transaction is one request, which the
    client may carry out again when its reply is lost (the client libraries do so
    by default; the model bounds no number of times).  A program keeps an invariant
    of the server when each of its requests does ([wp]); permits ([Permits]) say who
    may publish an outcome and which, or count what was claimed.  A waiting fetcher is
    a step that needs a wake-up.  Objects that
    Go shares by pointer (queued jobs, subscribers, registrations) have
    addresses in the broker's state.

    ** Fuel

    Recursion is structural except in the loops below.  Kahn's loop is given
    [kahn_fuel], the length of its queue plus the number of edges: each edge
    enqueues at most one node.  The rewriting of a unary test recurses into
    [not(...)], a shorter text each time, and is given the length of the text
    ([normalise_test_fuel] shows that more changes nothing).  The loop of
    [seq] is given [seq_fuel], two more than the number of steps between its
    ends, and is proved to finish within it.  The passes of [normalise] take
    fuel as an argument and say so when it runs out; [rewriting_ends] bounds
    what they need by the source.  The business-day searches take fuel too,
    because the code need not end: [next_business_day_nearest] shows that the
    distance to a business day is enough, [next_business_day_endless] that a
    calendar without one exhausts any.

    ** Parameters

    Code outside the repository is an argument: decimal arithmetic
    ([DecimalOps], [DecimalText]), the functions of package math ([GoMath]),
    time zones ([TimeZones]), Unicode tables ([GoUnicode]), regular expressions
    ([Regexp]), recurrence rules ([rrule]), CBOR ([Cbor]), authenticated
    encryption ([AEAD]), the key-value engines ([OrderedKV], [Counter]), the SQL
    engines and their types ([SqlEngine], [SqlTypes]), the key-value bucket of
    NATS ([KvBucket]), the Redis server (any that [redis_step] allows), the
    tables of the registry stores (any that [doc_step] allows) and JSON ([StoreJson]), with the laws their documentation states; the traversal of syntax trees
    ([Walker]: post-order) and the machine that runs them ([Machine]); the two
    parsers (the plain one of [check.go] and the one configured for an environment)
    and the type checker of expressions ([PlainParse], [Parse], [Check]), and where only
    compilation matters compiled programs, as functions; the clock, random
    bytes and the iteration order of Go maps.  Each class of laws has a concrete
    instance, at which the theorems are instantiated.

    ** Not modelled

    Markdown rendering.  The brokers of [src/brokers] other than Redis (NATS, AWS,
    Azure and Google) translate the broker interface to message services, whose
    behaviour is theirs; of the last three the registry stores are modelled.  Of
    the Redis broker and the registry stores, the tickers, time-outs and back-off
    delays of loops (a round is modelled, when it runs is not), connecting, and
    the copies of the registry pump ([RegistryPump] models the original).  The
    registry stores read a listing in one step (so the loop over the pages of a
    DynamoDB scan is one request), and the errors of their services are any errors.
    A hit policy and an aggregation are a Go int: hit policies other than the
    constants are one constructor, aggregations are the four constants.  Seconds and
    years of [time.Time] do not wrap in [goDate]: the theorems on dates that need it
    bound the instants ([min_unix], [max_unix], [max_year] of [GoTime]). *)

From stdpp Require Export base list gmap strings pretty.
From Stdlib Require Export ZArith Lia.
From Stdlib Require Import Sorted Permutation.

#[global] Open Scope Z_scope.

(** ** Errors and the result of a fallible Go function *)

(** The error values of [core/errors.go], [core/message_broker.go],
    [core/message_broker_wire.go], [core/payload_cipher.go] and
    [core/data_contract.go].  [ErrorText] stands for an anonymous
    [fmt.Errorf] error with its text, [WrapError] for one that wraps another
    with [%w], [CtxErr] for [ctx.Err()]. *)
Inductive GoError : Type :=
| ParseError (source : string) (detail : string)
| TypeError (op detail : string)
| RegexError (pattern detail : string)
| CalendarRangeError (detail : string)
| SchemaError (path detail : string)
| DataContractValidationError (path detail : string)
| ErrUnknownProcess
| ErrUnknownStartID
| ErrCancelNotAllowed
| ErrTerminateNotAllowed
| ErrUnknownWorker
| ErrBrokerClosed
| UnknownEnvelopeVersionError (v : Z)
| UnknownKeyIDError (keyID : string)
| ErrorText (text : string)
| WrapError (text : string) (inner : GoError)
| CtxErr.

#[global] Instance GoError_eq_dec : EqDecision GoError.
Proof. solve_decision. Defined.

(** [errors.As] / [errors.Is]: the error at the end of a chain of [%w] wraps. *)
Fixpoint error_root (e : GoError) : GoError :=
  match e with
  | WrapError _ inner => error_root inner
  | _ => e
  end.

(** [%q] of a string that needs no escapes. *)
Definition quote (s : string) : string :=
  String (Ascii.ascii_of_nat 34) (s +:+ String (Ascii.ascii_of_nat 34) EmptyString).

(** The [Error()] methods. *)
Fixpoint error_text (e : GoError) : string :=
  match e with
  | ParseError source detail =>
      if String.eqb detail "" then "parse error in " +:+ quote source
      else "parse error in " +:+ quote source +:+ ": " +:+ detail
  | TypeError op detail =>
      if String.eqb detail "" then "type error in " +:+ op
      else "type error in " +:+ op +:+ ": " +:+ detail
  | RegexError pattern detail => "regex error in " +:+ quote pattern +:+ ": " +:+ detail
  | CalendarRangeError detail => "calendar range error: " +:+ detail
  | SchemaError path detail =>
      if String.eqb path "" then "schema error: " +:+ detail
      else "schema error at " +:+ path +:+ ": " +:+ detail
  | DataContractValidationError path detail =>
      if String.eqb path "" then "data contract violation: " +:+ detail
      else "data contract violation at " +:+ path +:+ ": " +:+ detail
  | ErrUnknownProcess => "message broker: unknown process"
  | ErrUnknownStartID => "message broker: unknown start id"
  | ErrCancelNotAllowed => "message broker: process does not allow external cancel"
  | ErrTerminateNotAllowed => "message broker: process does not allow external terminate"
  | ErrUnknownWorker => "message broker: unknown worker"
  | ErrBrokerClosed => "message broker: closed"
  | UnknownEnvelopeVersionError v => "message broker: unknown envelope version " +:+ pretty v
  | UnknownKeyIDError keyID => "payload cipher: unknown key id " +:+ quote keyID
  | ErrorText text => text
  | WrapError text inner => text +:+ ": " +:+ error_text inner
  | CtxErr => "context canceled"
  end.

(** A Go [(A, error)] pair whose error is checked before the value is used. *)
Inductive result (A : Type) : Type :=
| Ok (a : A)
| Err (e : GoError).
Arguments Ok {A} a.
Arguments Err {A} e.

Definition result_bind {A B} (r : result A) (f : A -> result B) : result B :=
  match r with
  | Ok a => f a
  | Err e => Err e
  end.

Definition is_ok {A} (r : result A) : bool :=
  match r with Ok _ => true | Err _ => false end.

Declare Scope blkit_scope.
Delimit Scope blkit_scope with blkit.
Notation "'let!' x ':=' r 'in' k" := (result_bind r (fun x => k))
  (at level 10, x name, r at level 100, k at level 200) : blkit_scope.
#[global] Open Scope blkit_scope.

(** [for _, x := range xs { y, err := f(x); if err != nil { return err }; ... }] *)
Fixpoint result_map {A B} (f : A -> result B) (l : list A) : result (list B) :=
  match l with
  | [] => Ok []
  | x :: l' => let! y := f x in let! ys := result_map f l' in Ok (y :: ys)
  end.

(** ** Tactics *)

(** Case analysis on the discriminee of a [match] or an [if], in the goal or in
    a hypothesis, remembering the equation. *)
Ltac dmatch :=
  match goal with
  | |- context [match ?x with _ => _ end] => destruct x eqn:?
  | H : context [match ?x with _ => _ end] |- _ => destruct x eqn:?
  end.

(** Turn boolean comparisons on [Z] into propositions. *)
Ltac zbool :=
  repeat match goal with
  | H : (_ <? _) = true |- _ => apply Z.ltb_lt in H
  | H : (_ <? _) = false |- _ => apply Z.ltb_ge in H
  | H : (_ <=? _) = true |- _ => apply Z.leb_le in H
  | H : (_ <=? _) = false |- _ => apply Z.leb_gt in H
  | H : (_ =? _) = true |- _ => apply Z.eqb_eq in H
  | H : (_ =? _) = false |- _ => apply Z.eqb_neq in H
  | H : (_ && _)%bool = true |- _ => apply andb_true_iff in H; destruct H
  | H : (_ || _)%bool = false |- _ => apply orb_false_iff in H; destruct H
  end.

(** Close an equation by evaluating its left side, without normalising types. *)
Ltac vm_eq := match goal with |- @eq ?T _ ?y => vm_cast_no_check (@eq_refl T y) end.

Create HintDb blkit.

(** ** The result monad *)

Lemma result_map_ok {A B} (f : A -> result B) (l : list A) (ys : list B) :
  result_map f l = Ok ys <-> Forall2 (fun x y => f x = Ok y) l ys.
Proof.
  revert ys; induction l as [|x l IH]; intros ys; simpl.
  - split; intros H; inv H; constructor.
  - destruct (f x) as [y|e] eqn:Hf; simpl.
    + destruct (result_map f l) as [zs|e] eqn:Hm; simpl.
      * split; intros H; inv H.
        -- constructor; [done|]. by apply IH.
        -- rewrite Hf in H2; inv H2. f_equal. f_equal.
           apply IH in H4. congruence.
      * split; intros H; inv H. apply IH in H4. congruence.
    + split; intros H; inv H. congruence.
Qed.

Lemma bool_eqb_sym a b : Bool.eqb a b = Bool.eqb b a.
Proof. by destruct a, b. Qed.

(** ** Machine integers *)

(** The value of an [int]/[int64] computation: two's-complement wrap-around at
    64 bits. *)
Definition int64 (z : Z) : Z := (z + 2 ^ 63) mod 2 ^ 64 - 2 ^ 63.

(** The value of a [uint64] computation. *)
Definition uint64 (z : Z) : Z := z mod 2 ^ 64.

(** Conversion to [int32]. *)
Definition int32 (z : Z) : Z := (z + 2 ^ 31) mod 2 ^ 32 - 2 ^ 31.

Lemma int64_id z : - 2 ^ 63 <= z < 2 ^ 63 -> int64 z = z.
Proof. unfold int64. intros H. rewrite Z.mod_small; lia. Qed.

Lemma int32_id z : - 2 ^ 31 <= z < 2 ^ 31 -> int32 z = z.
Proof. unfold int32. intros H. rewrite Z.mod_small; lia. Qed.

Lemma uint64_range z : 0 <= uint64 z < 2 ^ 64.
Proof. apply Z.mod_pos_bound. lia. Qed.
Lemma uint64_id z : 0 <= z < 2 ^ 64 -> uint64 z = z.
Proof. unfold uint64. intros H. rewrite Z.mod_small; lia. Qed.

Lemma int64_range z : - 2 ^ 63 <= int64 z < 2 ^ 63.
Proof. unfold int64. pose proof (Z.mod_pos_bound (z + 2 ^ 63) (2 ^ 64)). lia. Qed.

#[export] Hint Resolve int64_id int32_id uint64_id int64_range : blkit.

(** ** Go's stable sort *)

Section StableSort.
Context {A : Type}.

(** The inner loop of Go's [insertionSort]: the new element moves left past
    every element it is [less] than.  The sorted prefix is kept reversed. *)
Fixpoint go_insert (less : A -> A -> bool) (x : A) (rprefix : list A) : list A :=
  match rprefix with
  | [] => [x]
  | p :: ps => if less x p then p :: go_insert less x ps else x :: p :: ps
  end.

(** [sort.SliceStable] as insertion sort: the algorithm of the Go library on a
    block, and the unique stable result when [less] is a strict weak order. *)
Definition slice_stable (less : A -> A -> bool) (l : list A) : list A :=
  reverse (fold_left (fun rp x => go_insert less x rp) l []).

(** A strict weak order, as a boolean function. *)
Class StrictWeakOrder (less : A -> A -> bool) : Prop := {
  swo_irrefl x : less x x = false;
  swo_asym x y : less x y = true -> less y x = false;
  swo_ntrans x y z : less x y = false -> less y z = false -> less x z = false
}.

Lemma go_insert_perm less x rp : go_insert less x rp ≡ₚ x :: rp.
Proof.
  induction rp as [|p ps IH]; simpl; [done|].
  destruct (less x p); [|done]. rewrite IH. by constructor.
Qed.

Lemma go_insert_fold_perm less l rp :
  fold_left (fun rp x => go_insert less x rp) l rp ≡ₚ l ++ rp.
Proof.
  revert rp; induction l as [|x l IH]; intros rp; simpl; [done|].
  rewrite IH, go_insert_perm. by rewrite Permutation_middle.
Qed.

(** The sort rearranges its input. *)
Lemma slice_stable_perm less l : slice_stable less l ≡ₚ l.
Proof.
  unfold slice_stable. rewrite reverse_Permutation, go_insert_fold_perm.
  by rewrite app_nil_r.
Qed.

(** [sorted less l]: no element is [less] than an earlier one. *)
Definition sorted (less : A -> A -> bool) : list A -> Prop :=
  StronglySorted (fun a b => less b a = false).

Lemma go_insert_sorted less `{!StrictWeakOrder less} x rp :
  StronglySorted (fun a b => less a b = false) rp ->
  StronglySorted (fun a b => less a b = false) (go_insert less x rp).
Proof.
  induction 1 as [|p ps Hs IH Hall]; simpl.
  - repeat constructor.
  - destruct (less x p) eqn:E.
    + constructor; [done|]. rewrite go_insert_perm.
      constructor; [by apply swo_asym|done].
    + constructor; [by constructor|]. constructor; [done|].
      eapply Forall_impl; [exact Hall|]. simpl. eauto using swo_ntrans.
Qed.

Lemma go_insert_fold_sorted less `{!StrictWeakOrder less} l rp :
  StronglySorted (fun a b => less a b = false) rp ->
  StronglySorted (fun a b => less a b = false)
    (fold_left (fun rp x => go_insert less x rp) l rp).
Proof.
  revert rp; induction l as [|x l IH]; intros rp H; simpl; [done|].
  apply IH. by apply go_insert_sorted.
Qed.

Lemma StronglySorted_snoc (R : A -> A -> Prop) l x :
  StronglySorted R l -> Forall (fun y => R y x) l -> StronglySorted R (l ++ [x]).
Proof.
  induction 1 as [|y l Hs IH Hall]; intros Hx; simpl; [repeat constructor|].
  inv Hx. constructor; [auto|]. rewrite Forall_app. auto.
Qed.

Lemma StronglySorted_reverse (R : A -> A -> Prop) l :
  StronglySorted R l -> StronglySorted (flip R) (reverse l).
Proof.
  induction 1 as [|x l Hs IH Hall]; simpl; [constructor|].
  rewrite reverse_cons. apply StronglySorted_snoc; [done|].
  by rewrite reverse_Permutation.
Qed.

(** The sort orders its input. *)
Lemma slice_stable_sorted less `{!StrictWeakOrder less} l :
  sorted less (slice_stable less l).
Proof.
  exact (StronglySorted_reverse _ _
    (go_insert_fold_sorted less l [] (SSorted_nil _))).
Qed.

(** Sorting a sorted list changes nothing. *)
Lemma slice_stable_id less l : sorted less l -> slice_stable less l = l.
Proof.
  intros H. unfold slice_stable. rewrite <- (reverse_involutive l) at 2. f_equal.
  assert (Hgen : forall rp, (forall p x, p ∈ rp -> x ∈ l -> less x p = false) ->
    fold_left (fun rp x => go_insert less x rp) l rp = reverse l ++ rp).
  { induction H as [|x l Hs IH Hall]; intros rp Hrp; simpl; [done|]. rewrite reverse_cons, <- app_assoc. simpl.
    rewrite <- IH.
    - f_equal. destruct rp as [|p rp]; simpl; [done|]. by rewrite Hrp by set_solver.
    - intros p y Hp Hy. rewrite Forall_forall in Hall.
      destruct rp as [|q rp]; simpl in Hp.
      + apply list_elem_of_singleton in Hp as ->. by apply Hall.
      + apply elem_of_cons in Hp as [->|Hp]; [by apply Hall|apply Hrp; set_solver]. }
  rewrite Hgen, app_nil_r; [done|]. intros p x []%elem_of_nil.
Qed.

Lemma go_insert_ext (less less' : A -> A -> bool) x rp :
  (forall p, p ∈ rp -> less x p = less' x p) -> go_insert less x rp = go_insert less' x rp.
Proof.
  induction rp as [|p rp IH]; intros H; simpl; [done|]. rewrite (H p) by set_solver.
  destruct (less' x p); [|done]. f_equal. apply IH. intros q Hq. apply H. set_solver.
Qed.

(** Only comparisons of an element with an earlier one matter. *)
Lemma slice_stable_ext (less less' : A -> A -> bool) l :
  StronglySorted (fun p x => less x p = less' x p) l -> slice_stable less l = slice_stable less' l.
Proof.
  intros H. unfold slice_stable. f_equal.
  assert (Hgen : forall rp, (forall p x, p ∈ rp -> x ∈ l -> less x p = less' x p) ->
    fold_left (fun rp x => go_insert less x rp) l rp = fold_left (fun rp x => go_insert less' x rp) l rp).
  { induction H as [|x l Hs IH Hall]; intros rp Hrp; simpl; [done|].
    rewrite (go_insert_ext less less' x rp) by (intros p Hp; apply Hrp; [done|set_solver]).
    apply IH. intros p y Hp Hy. rewrite go_insert_perm in Hp. rewrite Forall_forall in Hall.
    apply elem_of_cons in Hp as [->|Hp]; [by apply Hall|]. apply Hrp; [done|set_solver]. }
  apply Hgen. intros p x Hp. by apply elem_of_nil in Hp.
Qed.

Lemma go_insert_filter less (P : A -> bool) x rp :
  (forall y z, P y = true -> P z = true -> less y z = false) ->
  List.filter P (go_insert less x rp) = List.filter P (x :: rp).
Proof.
  intros HP. induction rp as [|p ps IH]; simpl; [done|].
  destruct (less x p) eqn:E; simpl; [|done].
  rewrite IH. simpl. destruct (P p) eqn:Hp, (P x) eqn:Hx; try done.
  exfalso. rewrite (HP x p) in E; done.
Qed.

Lemma go_insert_fold_filter less (P : A -> bool) l rp :
  (forall y z, P y = true -> P z = true -> less y z = false) ->
  List.filter P (fold_left (fun rp x => go_insert less x rp) l rp) =
  reverse (List.filter P l) ++ List.filter P rp.
Proof.
  intros HP. revert rp; induction l as [|x l IH]; intros rp; [done|].
  cbn [fold_left]. rewrite IH, go_insert_filter by done. simpl.
  destruct (P x); [|done]. by rewrite reverse_cons, <- app_assoc.
Qed.

Lemma filter_rev (P : A -> bool) l :
  List.filter P (reverse l) = reverse (List.filter P l).
Proof.
  induction l as [|x l IH]; [done|].
  rewrite reverse_cons, List.filter_app, IH. simpl.
  destruct (P x); [by rewrite reverse_cons|by rewrite app_nil_r].
Qed.

(** The sort is stable: within any class of mutually unordered elements the
    original order is kept. *)
Lemma slice_stable_stable less (P : A -> bool) l :
  (forall y z, P y = true -> P z = true -> less y z = false) ->
  List.filter P (slice_stable less l) = List.filter P l.
Proof.
  intros HP. unfold slice_stable. rewrite filter_rev, go_insert_fold_filter by done.
  simpl. by rewrite app_nil_r, reverse_involutive.
Qed.

End StableSort.
