(* ===== verification/Decimal.v ===== *)
(** * The decimal numbers blkit computes with

    blkit's numbers and durations are values of the third-party package
    [github.com/shopspring/decimal], whose code is not part of the repository.
    It enters the model as a parameter: the class [DecimalOps] lists the
    operations blkit calls, [DecimalLaws] states the documented behaviour the
    theorems rely on, in terms of the rational number a decimal represents.
    [QDecimal] is an executable instance, used by the witnesses. *)

From Stdlib Require Export QArith Qround.
From Stdlib Require Import SpecFloat Qabs Qpower Lqa.
From S2P Require Import Prelude.
#[global] Open Scope Z_scope.

(** ** Rounding a rational number to an integer *)

(** Toward zero. *)
Definition Qtrunc (q : Q) : Z := Z.quot (Qnum q) (Zpos (Qden q)).

(** Away from zero. *)
Definition Qaway (q : Q) : Z :=
  if Qle_bool 0 q then Qceiling q else Qfloor q.

(** To the nearest integer, a half away from zero. *)
Definition Qround_half_up (q : Q) : Z :=
  if Qle_bool 0 q then Qfloor (q + (1 # 2)) else Qceiling (q - (1 # 2)).

(** To the nearest integer, a half to the even neighbour. *)
Definition Qround_half_even (q : Q) : Z :=
  let f := Qfloor q in
  match Qcompare (q - inject_Z f) (1 # 2) with
  | Lt => f
  | Gt => f + 1
  | Eq => if Z.even f then f else f + 1
  end.

Definition pow10 (p : Z) : Q := Qpower (inject_Z 10) p.

(** Rounding to an integer multiple of [10 ^ -p]. *)
Definition Qscaled (f : Q -> Z) (q : Q) (p : Z) : Q :=
  (inject_Z (f (q * pow10 p)) / pow10 p)%Q.

(** The sign Go's [Cmp] methods return. *)
Definition cmp_int (c : comparison) : Z :=
  match c with Lt => -1 | Eq => 0 | Gt => 1 end.

(** ** The operations of the package that blkit calls *)

(** [decimal.DivisionPrecision], which [number.go] sets to [numericPrecision]. *)
Definition numericPrecision : Z := 34.

Class DecimalOps : Type := {
  Decimal : Type;
  dval : Decimal -> Q;                          (* the number represented *)
  dNewFromInt : Z -> Decimal;
  dNewFromUint64 : Z -> Decimal;
  dNewFromFloat : spec_float -> Decimal;
  dNew : Z -> Z -> Decimal;                     (* value, exp *)
  dAdd : Decimal -> Decimal -> Decimal;
  dSub : Decimal -> Decimal -> Decimal;
  dMul : Decimal -> Decimal -> Decimal;
  dNeg : Decimal -> Decimal;
  dAbs : Decimal -> Decimal;
  dCmp : Decimal -> Decimal -> Z;
  dEqual : Decimal -> Decimal -> bool;
  dLessThan : Decimal -> Decimal -> bool;
  dGreaterThan : Decimal -> Decimal -> bool;
  dSign : Decimal -> Z;
  dIsZero : Decimal -> bool;
  dIntPart : Decimal -> Z;
  dMod : Decimal -> Decimal -> Decimal;
  dDiv : Decimal -> Decimal -> Decimal;
  dDivRound : Decimal -> Decimal -> Z -> Decimal;
  dTruncate : Decimal -> Z -> Decimal;
  dFloor : Decimal -> Decimal;
  dRound : Decimal -> Z -> Decimal;
  dRoundUp : Decimal -> Z -> Decimal;
  dRoundDown : Decimal -> Z -> Decimal;
  dRoundBank : Decimal -> Z -> Decimal;
  dRoundFloor : Decimal -> Z -> Decimal;
  dRoundCeil : Decimal -> Z -> Decimal
}.

(** What the package documents of them. *)
Class DecimalLaws (DO : DecimalOps) : Prop := {
  dval_NewFromInt z : (dval (dNewFromInt z) == inject_Z z)%Q;
  dval_NewFromUint64 z : (dval (dNewFromUint64 z) == inject_Z z)%Q;
  dval_New v e : (dval (dNew v e) == inject_Z v * pow10 e)%Q;
  dval_Add a b : (dval (dAdd a b) == dval a + dval b)%Q;
  dval_Sub a b : (dval (dSub a b) == dval a - dval b)%Q;
  dval_Mul a b : (dval (dMul a b) == dval a * dval b)%Q;
  dval_Neg a : (dval (dNeg a) == - dval a)%Q;
  dval_Abs a : (dval (dAbs a) == Qabs (dval a))%Q;
  dCmp_spec a b : dCmp a b = cmp_int (Qcompare (dval a) (dval b));
  dEqual_spec a b : dEqual a b = Qeq_bool (dval a) (dval b);
  dLessThan_spec a b : dLessThan a b = negb (Qle_bool (dval b) (dval a));
  dGreaterThan_spec a b : dGreaterThan a b = negb (Qle_bool (dval a) (dval b));
  dSign_spec a : dSign a = cmp_int (Qcompare (dval a) 0);
  dIsZero_spec a : dIsZero a = Qeq_bool (dval a) 0;
  dIntPart_spec a :
    - 2 ^ 63 <= Qtrunc (dval a) < 2 ^ 63 -> dIntPart a = Qtrunc (dval a);
  dval_Mod a b : ~ (dval b == 0)%Q ->
    (dval (dMod a b) == dval a - dval b * inject_Z (Qtrunc (dval a / dval b)))%Q;
  dval_DivRound a b p : 0 <= p -> ~ (dval b == 0)%Q ->
    (dval (dDivRound a b p) == Qscaled Qround_half_up (dval a / dval b) p)%Q;
  dval_Div a b : ~ (dval b == 0)%Q ->
    (dval (dDiv a b) == Qscaled Qround_half_up (dval a / dval b) numericPrecision)%Q;
  dval_Truncate a p : 0 <= p -> (dval (dTruncate a p) == Qscaled Qtrunc (dval a) p)%Q;
  dval_Floor a : (dval (dFloor a) == inject_Z (Qfloor (dval a)))%Q;
  dval_Round a p : (dval (dRound a p) == Qscaled Qround_half_up (dval a) p)%Q;
  dval_RoundUp a p : (dval (dRoundUp a p) == Qscaled Qaway (dval a) p)%Q;
  dval_RoundDown a p : (dval (dRoundDown a p) == Qscaled Qtrunc (dval a) p)%Q;
  dval_RoundBank a p : (dval (dRoundBank a p) == Qscaled Qround_half_even (dval a) p)%Q;
  dval_RoundFloor a p : (dval (dRoundFloor a p) == Qscaled Qfloor (dval a) p)%Q;
  dval_RoundCeil a p : (dval (dRoundCeil a p) == Qscaled Qceiling (dval a) p)%Q
}.

(** ** An instance: exact rationals *)

(** The value of a finite binary float. *)
Definition Q_of_spec_float (f : spec_float) : Q :=
  match f with
  | S754_finite s m e =>
      (inject_Z (if s then Zneg m else Zpos m) * Qpower (inject_Z 2) e)%Q
  | _ => 0%Q
  end.

#[global] Instance QDecimal : DecimalOps := {
  Decimal := Q;
  dval q := q;
  dNewFromInt := inject_Z;
  dNewFromUint64 := inject_Z;
  dNewFromFloat := Q_of_spec_float;
  dNew v e := (inject_Z v * pow10 e)%Q;
  dAdd := Qplus;
  dSub := Qminus;
  dMul := Qmult;
  dNeg := Qopp;
  dAbs := Qabs;
  dCmp a b := cmp_int (Qcompare a b);
  dEqual := Qeq_bool;
  dLessThan a b := negb (Qle_bool b a);
  dGreaterThan a b := negb (Qle_bool a b);
  dSign a := cmp_int (Qcompare a 0);
  dIsZero a := Qeq_bool a 0;
  dIntPart a := int64 (Qtrunc a);
  dMod a b := (a - b * inject_Z (Qtrunc (a / b)))%Q;
  dDiv a b := Qscaled Qround_half_up (a / b) numericPrecision;
  dDivRound a b := Qscaled Qround_half_up (a / b);
  dTruncate := Qscaled Qtrunc;
  dFloor a := inject_Z (Qfloor a);
  dRound := Qscaled Qround_half_up;
  dRoundUp := Qscaled Qaway;
  dRoundDown := Qscaled Qtrunc;
  dRoundBank := Qscaled Qround_half_even;
  dRoundFloor := Qscaled Qfloor;
  dRoundCeil := Qscaled Qceiling
}.

#[global] Instance QDecimal_laws : DecimalLaws QDecimal.
Proof. split; intros; simpl; try reflexivity. by apply int64_id. Qed.

(** ** Consequences used by the components *)

Section Laws.
Context {DO : DecimalOps} {DL : DecimalLaws DO}.

Lemma dCmp_cases a b :
  (dCmp a b = -1 /\ (dval a < dval b)%Q) \/
  (dCmp a b = 0 /\ (dval a == dval b)%Q) \/
  (dCmp a b = 1 /\ (dval b < dval a)%Q).
Proof.
  rewrite dCmp_spec. destruct (Qcompare_spec (dval a) (dval b)); simpl; auto.
Qed.

Lemma dCmp_antisym a b : dCmp a b = - dCmp b a.
Proof.
  destruct (dCmp_cases a b) as [[-> ?]|[[-> ?]|[-> ?]]],
    (dCmp_cases b a) as [[-> ?]|[[-> ?]|[-> ?]]]; try done; exfalso; lra.
Qed.

Lemma dCmp_trans a b c : dCmp a b <= 0 -> dCmp b c <= 0 -> dCmp a c <= 0.
Proof.
  destruct (dCmp_cases a b) as [[-> ?]|[[-> ?]|[-> ?]]],
    (dCmp_cases b c) as [[-> ?]|[[-> ?]|[-> ?]]],
    (dCmp_cases a c) as [[-> ?]|[[-> ?]|[-> ?]]]; try lia; exfalso; lra.
Qed.

Lemma dEqual_cmp a b : dEqual a b = (dCmp a b =? 0).
Proof.
  rewrite dEqual_spec.
  destruct (dCmp_cases a b) as [[-> H]|[[-> H]|[-> H]]];
    destruct (Qeq_bool (dval a) (dval b)) eqn:E; try done;
    first [apply Qeq_bool_iff in E | apply Qeq_bool_neq in E]; exfalso; lra.
Qed.

Lemma dIsZero_true a : dIsZero a = true <-> (dval a == 0)%Q.
Proof. rewrite dIsZero_spec. apply Qeq_bool_iff. Qed.

End Laws.
