(* ===== verification/GoText.v ===== *)
(** * Go's [strings] package, as far as blkit uses it

    Strings are byte strings; white space and letter case are those of ASCII. *)

From S2P Require Import Prelude.
#[global] Open Scope Z_scope.

Definition char_quote : Ascii.ascii := Ascii.ascii_of_nat 34.
Definition char_backslash : Ascii.ascii := Ascii.ascii_of_nat 92.

Definition is_char (c : Ascii.ascii) (n : nat) : bool := Nat.eqb (Ascii.nat_of_ascii c) n.

(** [unicode.IsSpace] on ASCII. *)
Definition isSpace (c : Ascii.ascii) : bool :=
  let n := Z.of_nat (Ascii.nat_of_ascii c) in ((9 <=? n) && (n <=? 13)) || (n =? 32).

Fixpoint trim_left (s : string) : string :=
  match s with
  | EmptyString => EmptyString
  | String c s' => if isSpace c then trim_left s' else s
  end.

Fixpoint trim_right (s : string) : string :=
  match s with
  | EmptyString => EmptyString
  | String c s' =>
      match trim_right s' with
      | EmptyString => if isSpace c then EmptyString else String c EmptyString
      | t => String c t
      end
  end.

(** [strings.TrimSpace] on ASCII text. *)
Definition TrimSpace (s : string) : string := trim_right (trim_left s).

(** [strings.HasPrefix]; [strip_prefix] returns what follows the prefix. *)
Fixpoint strip_prefix (p s : string) : option string :=
  match p, s with
  | EmptyString, _ => Some s
  | String a p', String b s' => if Ascii.eqb a b then strip_prefix p' s' else None
  | _, EmptyString => None
  end.
Definition HasPrefix (s p : string) : bool := match strip_prefix p s with Some _ => true | None => false end.

(** [strings.Contains] *)
Fixpoint Contains (s p : string) : bool :=
  HasPrefix s p || match s with EmptyString => false | String _ s' => Contains s' p end.

(** [strings.ReplaceAll] with a non-empty [old]; [skip] counts the bytes of a
    match still to be passed over. *)
Fixpoint replace_from (old new : string) (skip : nat) (s : string) : string :=
  match s with
  | EmptyString => EmptyString
  | String c s' =>
      match skip with
      | S k => replace_from old new k s'
      | O => if HasPrefix s old then new +:+ replace_from old new (String.length old - 1) s'
             else String c (replace_from old new 0 s')
      end
  end.
Definition ReplaceAll (s old new : string) : string := replace_from old new 0 s.

(** [strings.HasSuffix] of a single byte, and the text before it. *)
Fixpoint strip_last (s : string) : option (string * Ascii.ascii) :=
  match s with
  | EmptyString => None
  | String c s' =>
      match strip_last s' with
      | None => Some (EmptyString, c)
      | Some (t, d) => Some (String c t, d)
      end
  end.

Lemma trim_left_length s : (String.length (trim_left s) <= String.length s)%nat.
Proof. induction s as [|c s IH]; simpl; [lia|]. destruct (isSpace c); simpl; lia. Qed.

Lemma trim_right_length s : (String.length (trim_right s) <= String.length s)%nat.
Proof.
  induction s as [|c s IH]; simpl; [lia|].
  destruct (trim_right s); simpl in *; [destruct (isSpace c); simpl; lia|lia].
Qed.

Lemma TrimSpace_length s : (String.length (TrimSpace s) <= String.length s)%nat.
Proof.
  unfold TrimSpace. pose proof (trim_right_length (trim_left s)). pose proof (trim_left_length s). lia.
Qed.

Lemma string_app_nil_r (a : string) : a +:+ EmptyString = a.
Proof. induction a as [|x a IH]; [done|]. exact (f_equal (String x) IH). Qed.

(** [strings.ToUpper] on ASCII text *)
Definition upper_char (c : Ascii.ascii) : Ascii.ascii :=
  let n := Ascii.nat_of_ascii c in
  if (97 <=? n)%nat && (n <=? 122)%nat then Ascii.ascii_of_nat (n - 32) else c.
Fixpoint ToUpper (s : string) : string :=
  match s with
  | EmptyString => EmptyString
  | String c s' => String (upper_char c) (ToUpper s')
  end.

Lemma string_app_assoc (a b c : string) : (a +:+ b) +:+ c = a +:+ (b +:+ c).
Proof. induction a as [|x a IH]; [done|]. exact (f_equal (String x) IH). Qed.

(** * Go strings as code points

    A Go string is a sequence of bytes; [range], [[]rune(s)] and the [utf8]
    package read it as UTF-8, a byte that does not belong to an encoding as
    [U+FFFD].  [decode] gives the code points with the bytes each was read from. *)

From Stdlib Require Import Strings.Ascii.

Definition byte_of (c : ascii) : Z := Z.of_nat (nat_of_ascii c).
Definition char_of (z : Z) : ascii := ascii_of_nat (Z.to_nat z).

Lemma byte_range c : 0 <= byte_of c < 256.
Proof. unfold byte_of. pose proof (nat_ascii_bounded c). lia. Qed.
Lemma byte_char z : 0 <= z < 256 -> byte_of (char_of z) = z.
Proof. intros H. unfold byte_of, char_of. rewrite nat_ascii_embedding; lia. Qed.
Lemma char_byte c : char_of (byte_of c) = c.
Proof. unfold byte_of, char_of. by rewrite Nat2Z.id, ascii_nat_embedding. Qed.

Definition RuneError : Z := 65533.

(** [min <= z <= max] *)
Definition within (min z max : Z) : bool := (min <=? z) && (z <=? max).
Definition cont (z : Z) : bool := within 128 z 191.

(** The second byte a first byte of three or four allows. *)
Definition second3 (b0 b1 : Z) : bool :=
  within (if b0 =? 224 then 160 else 128) b1 (if b0 =? 237 then 159 else 191).
Definition second4 (b0 b1 : Z) : bool :=
  within (if b0 =? 240 then 144 else 128) b1 (if b0 =? 244 then 143 else 191).

Definition str1 (a : ascii) : string := String a EmptyString.

(** The code points of a string, each with its bytes. *)
Fixpoint decode (s : string) : list (Z * string) :=
  match s with
  | EmptyString => []
  | String a s1 =>
      let b0 := byte_of a in
      if b0 <? 128 then (b0, str1 a) :: decode s1
      else
        match s1 with
        | EmptyString => [(RuneError, str1 a)]
        | String b s2 =>
            let b1 := byte_of b in
            if within 194 b0 223 && cont b1 then ((b0 - 192) * 64 + (b1 - 128), String a (str1 b)) :: decode s2
            else
              match s2 with
              | EmptyString => (RuneError, str1 a) :: decode s1
              | String c s3 =>
                  let b2 := byte_of c in
                  if within 224 b0 239 && second3 b0 b1 && cont b2
                  then ((b0 - 224) * 4096 + (b1 - 128) * 64 + (b2 - 128), String a (String b (str1 c))) :: decode s3
                  else
                    match s3 with
                    | EmptyString => (RuneError, str1 a) :: decode s1
                    | String d s4 =>
                        let b3 := byte_of d in
                        if within 240 b0 244 && second4 b0 b1 && cont b2 && cont b3
                        then ((b0 - 240) * 262144 + (b1 - 128) * 4096 + (b2 - 128) * 64 + (b3 - 128),
                              String a (String b (String c (str1 d)))) :: decode s4
                        else (RuneError, str1 a) :: decode s1
                    end
              end
        end
  end.

(** [[]rune(s)] *)
Definition runes (s : string) : list Z := map fst (decode s).
(** [utf8.RuneCountInString] *)
Definition RuneCount (s : string) : Z := Z.of_nat (length (decode s)).

(** A code point that has an encoding. *)
Definition scalar (r : Z) : bool := within 0 r 1114111 && negb (within 55296 r 57343).

(** [string(r)]: another number is written as [U+FFFD]. *)
Definition encode1 (r0 : Z) : string :=
  let r := if scalar r0 then r0 else RuneError in
  if r <? 128 then str1 (char_of r)
  else if r <? 2048 then String (char_of (192 + r / 64)) (str1 (char_of (128 + r mod 64)))
  else if r <? 65536 then
    String (char_of (224 + r / 4096)) (String (char_of (128 + r / 64 mod 64)) (str1 (char_of (128 + r mod 64))))
  else
    String (char_of (240 + r / 262144)) (String (char_of (128 + r / 4096 mod 64))
      (String (char_of (128 + r / 64 mod 64)) (str1 (char_of (128 + r mod 64))))).

Definition concat_strings (ss : list string) : string := foldr (fun s acc => s +:+ acc) "" ss.

(** [string(runes)] *)
Definition of_runes (rs : list Z) : string := concat_strings (map encode1 rs).

(** [utf8.ValidString] *)
Definition Valid (s : string) : bool := forallb (fun p => String.eqb (snd p) (encode1 (fst p))) (decode s).

(** ** Decoding and encoding *)

Lemma cons_app a s : String a s = str1 a +:+ s.
Proof. done. Qed.

Lemma string_cons_app a s t : String a s +:+ t = String a (s +:+ t).
Proof. done. Qed.

Ltac decode_case :=
  match goal with
  | |- context [if ?b then _ else _] => destruct b eqn:?
  | |- context [match ?s with EmptyString => _ | String _ _ => _ end] => is_var s; destruct s
  end.

Lemma concat_cons s ss : concat_strings (s :: ss) = s +:+ concat_strings ss.
Proof. done. Qed.

(** The bytes of the code points are the bytes of the string. *)
Lemma decode_concat s : concat_strings (map snd (decode s)) = s.
Proof.
  remember (String.length s) as n eqn:E. revert s E. induction (lt_wf n) as [n _ IH]. intros s E.
  assert (Hs : forall t, (String.length t < String.length s)%nat -> concat_strings (map snd (decode t)) = t)
    by (intros t Ht; apply (IH (String.length t)); [lia|done]).
  destruct s as [|a s1]; [done|]. cbn [decode]. cbv zeta.
  repeat decode_case; cbn [map snd]; rewrite concat_cons; unfold str1; rewrite ?string_cons_app;
    change (EmptyString +:+ ?t) with t; repeat f_equal; try done; apply Hs; cbn [String.length]; lia.
Qed.

Lemma of_runes_runes s : Valid s = true -> of_runes (runes s) = s.
Proof.
  intros H. rewrite <- (decode_concat s) at 2. unfold of_runes, runes. f_equal. rewrite map_map. apply map_ext_in.
  intros p Hp. unfold Valid in H. rewrite forallb_forall in H. specialize (H p Hp). symmetry. by apply String.eqb_eq.
Qed.

Lemma scalar_spec r : scalar r = true <-> 0 <= r <= 1114111 /\ ~ (55296 <= r <= 57343).
Proof. unfold scalar, within. rewrite andb_true_iff, negb_true_iff, andb_true_iff, andb_false_iff, !Z.leb_le, !Z.leb_gt. lia. Qed.

Ltac byte_facts :=
  rewrite ?byte_char by (Z.div_mod_to_equations; lia).

Ltac true_test :=
  match goal with
  | |- context [if ?b then _ else _] =>
      replace b with true by (symmetry; unfold within, cont, second3, second4, within; repeat case_match; Z.div_mod_to_equations; lia)
  end.
Ltac false_test :=
  match goal with
  | |- context [if ?b then _ else _] =>
      replace b with false by (symmetry; unfold within, cont, second3, second4, within; repeat case_match; Z.div_mod_to_equations; lia)
  end.

(** The encoding of a code point is read back as one. *)
Lemma decode_encode1 r s : scalar r = true -> decode (encode1 r +:+ s) = (r, encode1 r) :: decode s.
Proof.
  intros Hr. unfold encode1. rewrite Hr. apply scalar_spec in Hr as [Hr Hsur].
  destruct (Z.ltb_spec r 128); [|destruct (Z.ltb_spec r 2048); [|destruct (Z.ltb_spec r 65536)]];
    unfold str1; rewrite ?string_cons_app; change (EmptyString +:+ s) with s; cbn [decode]; cbv zeta; byte_facts.
  - by true_test.
  - false_test. true_test. f_equal. f_equal. Z.div_mod_to_equations. lia.
  - false_test. false_test. true_test. f_equal. f_equal. Z.div_mod_to_equations. lia.
  - do 3 false_test. true_test. f_equal. f_equal. Z.div_mod_to_equations. lia.
Qed.

Lemma decode_of_runes rs s :
  forallb scalar rs = true -> decode (of_runes rs +:+ s) = map (fun r => (r, encode1 r)) rs ++ decode s.
Proof.
  induction rs as [|r rs IH]; [done|]. cbn [forallb]. intros [Hr Hrs]%andb_true_iff. unfold of_runes in *.
  cbn [map]. rewrite concat_cons, string_app_assoc, decode_encode1, IH by done. done.
Qed.

(** What [string] writes, [[]rune] reads back. *)
Lemma runes_of_runes rs : forallb scalar rs = true -> runes (of_runes rs) = rs /\ Valid (of_runes rs) = true.
Proof.
  intros H. pose proof (decode_of_runes rs "" H) as E. rewrite string_app_nil_r, app_nil_r in E. unfold runes, Valid. rewrite E.
  split; [rewrite map_map; apply map_id|]. rewrite forallb_forall. intros p (r & <- & _)%in_map_iff. apply String.eqb_refl.
Qed.

(** Code points read from a string are scalar. *)
Lemma decode_scalar s : Forall (fun p => scalar (fst p) = true) (decode s).
Proof.
  remember (String.length s) as n eqn:E. revert s E. induction (lt_wf n) as [n _ IH]. intros s E.
  assert (Hs : forall t, (String.length t < String.length s)%nat -> Forall (fun p => scalar (fst p) = true) (decode t))
    by (intros t Ht; apply (IH (String.length t)); [lia|done]).
  destruct s as [|a s1]; [by constructor|]. pose proof (byte_range a). cbn [decode]. cbv zeta.
  repeat decode_case; (constructor; [cbn [fst]; try reflexivity; apply scalar_spec|
    first [constructor|apply Hs; cbn [String.length]; lia]]);
  unfold within, cont, second3, second4, within in *; repeat case_match; lia.
Qed.

Lemma runes_scalar s : forallb scalar (runes s) = true.
Proof.
  unfold runes. rewrite forallb_forall. intros r (p & <- & Hp)%in_map_iff. pose proof (decode_scalar s) as H.
  rewrite List.Forall_forall in H. by apply H.
Qed.

(** A string is valid exactly when it is the encoding of code points. *)
Lemma Valid_iff s : Valid s = true <-> exists rs, forallb scalar rs = true /\ s = of_runes rs.
Proof.
  split.
  - intros H. exists (runes s). split; [apply runes_scalar|by rewrite of_runes_runes].
  - intros (rs & H & ->). by apply runes_of_runes.
Qed.

Lemma of_runes_app a b : of_runes (a ++ b) = of_runes a +:+ of_runes b.
Proof.
  unfold of_runes. induction a as [|x a IH]; [done|]. cbn [map app]. by rewrite !concat_cons, IH, string_app_assoc.
Qed.

Lemma decode_app_valid s t : Valid s = true -> decode (s +:+ t) = decode s ++ decode t.
Proof.
  intros (rs & H & ->)%Valid_iff. rewrite decode_of_runes by done. f_equal.
  pose proof (decode_of_runes rs "" H) as E. by rewrite string_app_nil_r, app_nil_r in E.
Qed.

Lemma runes_app s t : Valid s = true -> runes (s +:+ t) = runes s ++ runes t.
Proof. intros H. unfold runes. by rewrite decode_app_valid, map_app. Qed.

Lemma Valid_app s t : Valid s = true -> Valid t = true -> Valid (s +:+ t) = true.
Proof. intros Hs Ht. unfold Valid in *. rewrite decode_app_valid by done. by rewrite forallb_app, Hs, Ht. Qed.

Lemma runes_length s : Z.of_nat (length (runes s)) = RuneCount s.
Proof. unfold runes, RuneCount. by rewrite length_map. Qed.

(** Each code point was read from at least one byte. *)
Lemma decode_nonempty s p : List.In p (decode s) -> snd p <> "".
Proof.
  remember (String.length s) as n eqn:E. revert s E. induction (lt_wf n) as [n _ IH]. intros s E Hp.
  assert (Hs : forall t, (String.length t < String.length s)%nat -> List.In p (decode t) -> snd p <> "")
    by (intros t Ht; apply (IH (String.length t)); [lia|done]).
  destruct s as [|a s1]; [done|]. cbn [decode] in Hp. cbv zeta in Hp.
  repeat match type of Hp with
  | context [if ?b then _ else _] => destruct b
  | context [match ?s with EmptyString => _ | String _ _ => _ end] => is_var s; destruct s
  end; (destruct Hp as [<-|Hp]; [done|]); try done; (eapply Hs; [|exact Hp]); cbn [String.length]; lia.
Qed.
