(* ===== verification/GoTime.v ===== *)
(** * Go's [time] package, as far as blkit uses it

    An instant with a location; civil dates in the proleptic Gregorian calendar;
    [time.Date] with its normalisation of out-of-range components; [AddDate],
    [Add], [Weekday], [YearDay], [ISOWeek], [Compare], [Equal].  Years and
    seconds are unbounded integers: the model describes the dates for which Go's
    64-bit arithmetic does not wrap ([min_unix] to [max_unix]).  Monotonic clock readings are not kept. *)

From S2P Require Import Prelude.
#[global] Open Scope Z_scope.

(** ** Civil calendar *)

(** Days since 1970-01-01 of a civil date.  [m] is in [1..12]; [d] may be any
    integer, the count simply continues before or after the month. *)
Definition days_from_civil (y m d : Z) : Z :=
  let y' := if m <=? 2 then y - 1 else y in
  let era := y' / 400 in
  let yoe := y' - era * 400 in
  let doy := (153 * (if 2 <? m then m - 3 else m + 9) + 2) / 5 + (d - 1) in
  let doe := yoe * 365 + yoe / 4 - yoe / 100 + doy in
  era * 146097 + doe - 719468.

(** The civil date of a day number. *)
Definition civil_from_days (n : Z) : Z * Z * Z :=
  let z := n + 719468 in
  let era := z / 146097 in
  let doe := z - era * 146097 in
  let yoe := (doe - doe / 1460 + doe / 36524 - doe / 146096) / 365 in
  let doy := doe - (365 * yoe + yoe / 4 - yoe / 100) in
  let mp := (5 * doy + 2) / 153 in
  let d := doy - (153 * mp + 2) / 5 + 1 in
  let m := if mp <? 10 then mp + 3 else mp - 9 in
  (yoe + era * 400 + (if m <=? 2 then 1 else 0), m, d).

Definition is_leap (y : Z) : bool :=
  (y mod 4 =? 0) && (negb (y mod 100 =? 0) || (y mod 400 =? 0)).

Definition days_in_month (y m : Z) : Z :=
  if m =? 2 then (if is_leap y then 29 else 28)
  else if (m =? 4) || (m =? 6) || (m =? 9) || (m =? 11) then 30 else 31.

Definition valid_civil (y m d : Z) : Prop :=
  1 <= m <= 12 /\ 1 <= d <= days_in_month y m.

(** ** Locations *)

(** A [time.Location]: its name, the offset (seconds east of UTC) in force
    before the first transition, and the transitions in ascending order, each
    with its instant and the offset from then on. *)
Record Location : Type := mkLocation {
  loc_name : string;
  loc_base : Z;
  loc_trans : list (Z * Z)
}.

#[global] Instance Location_eq_dec : EqDecision Location.
Proof. solve_decision. Defined.

Definition UTC : Location := mkLocation "UTC" 0 [].

(** [time.FixedZone(name, offset)] *)
Definition FixedZone (name : string) (offset : Z) : Location :=
  mkLocation name offset [].

(** The zone in force at an instant: offset, first second and, unless it is the
    last zone, first second after it. *)
Fixpoint lookup_trans (off start : Z) (tr : list (Z * Z)) (sec : Z) : Z * Z * option Z :=
  match tr with
  | [] => (off, start, None)
  | (at_, off') :: tr' =>
      if sec <? at_ then (off, start, Some at_) else lookup_trans off' at_ tr' sec
  end.

(** The [lookup] method of a location; the first zone starts at the smallest [int64]. *)
Definition loc_lookup (l : Location) (sec : Z) : Z * Z * option Z :=
  lookup_trans (loc_base l) (- 2 ^ 63) (loc_trans l) sec.

Definition loc_offset (l : Location) (sec : Z) : Z := fst (fst (loc_lookup l sec)).

(** A location whose offset never changes. *)
Definition fixed_loc (l : Location) : Prop := loc_trans l = [].

(** ** Instants *)

(** A [time.Time]: seconds since the Unix epoch, nanoseconds within the second,
    location. *)
Record Time : Type := mkTime {
  t_unix : Z;
  t_nsec : Z;
  t_loc : Location
}.

#[global] Instance Time_eq_dec : EqDecision Time.
Proof. solve_decision. Defined.

Definition wf_time (t : Time) : Prop := 0 <= t_nsec t < 10 ^ 9.

(** The zero [time.Time]: January 1, year 1, 00:00:00 UTC. *)
Definition zeroTime : Time := mkTime (-62135596800) 0 UTC.

Definition IsZero (t : Time) : bool := (t_unix t =? -62135596800) && (t_nsec t =? 0).

(** Local seconds: the wall clock as seconds since the local epoch. *)
Definition t_abs (t : Time) : Z := t_unix t + loc_offset (t_loc t) (t_unix t).

Definition t_days (t : Time) : Z := t_abs t / 86400.

Definition t_secs_of_day (t : Time) : Z := t_abs t mod 86400.

(** [t.Date()] *)
Definition t_date (t : Time) : Z * Z * Z := civil_from_days (t_days t).

Definition Year (t : Time) : Z := fst (fst (t_date t)).
Definition Month (t : Time) : Z := snd (fst (t_date t)).
Definition Day (t : Time) : Z := snd (t_date t).
Definition Hour (t : Time) : Z := t_secs_of_day t / 3600.
Definition Minute (t : Time) : Z := t_secs_of_day t mod 3600 / 60.
Definition Second (t : Time) : Z := t_secs_of_day t mod 60.

(** [t.YearDay()]: 1 for January 1st. *)
Definition YearDay (t : Time) : Z := t_days t - days_from_civil (Year t) 1 1 + 1.

(** [t.Weekday()]: Sunday is 0; 1970-01-01 was a Thursday. *)
Definition weekday_of_days (n : Z) : Z := (n + 4) mod 7.
Definition Weekday (t : Time) : Z := weekday_of_days (t_days t).

(** [t.ISOWeek()]: the year and week of the Thursday of the same ISO week. *)
Definition ISOWeek (t : Time) : Z * Z :=
  let shift := if 4 - Weekday t =? 4 then -3 else 4 - Weekday t in
  let thursday := t_days t + shift in
  let y := fst (fst (civil_from_days thursday)) in
  (y, (thursday - days_from_civil y 1 1) / 7 + 1).

(** Instant of a local wall clock ([time.Date] after normalisation): look the
    zone up as if the wall clock were UTC, and again if that zone does not
    contain the resulting instant. *)
Definition local_to_unix (loc : Location) (abs : Z) : Z :=
  let '(off, start, end_) := loc_lookup loc abs in
  if off =? 0 then abs
  else
    let utc := abs - off in
    let inside := (start <=? utc) && match end_ with None => true | Some e => utc <? e end in
    if inside then utc else abs - loc_offset loc utc.

(** [time.Date(year, month, day, hour, min, sec, nsec, loc)]: months outside
    [1..12] roll into the year, and nanoseconds, seconds, minutes and hours roll
    into the next unit up to the day. *)
Definition goDate (year month day hour min sec nsec : Z) (loc : Location) : Time :=
  let year' := year + (month - 1) / 12 in
  let month' := (month - 1) mod 12 + 1 in
  let days := days_from_civil year' month' day in
  let total := days * 86400 + hour * 3600 + min * 60 + sec + nsec / 10 ^ 9 in
  mkTime (local_to_unix loc total) (nsec mod 10 ^ 9) loc.

(** [t.AddDate(years, months, days)] *)
Definition AddDate (t : Time) (years months days : Z) : Time :=
  let '(y, m, d) := t_date t in
  goDate (y + years) (m + months) (d + days)
    (Hour t) (Minute t) (Second t) (t_nsec t) (t_loc t).

(** [t.Add(d)], [d] in nanoseconds. *)
Definition TimeAdd (t : Time) (d : Z) : Time :=
  mkTime (t_unix t + (t_nsec t + d) / 10 ^ 9) ((t_nsec t + d) mod 10 ^ 9) (t_loc t).

(** [t.Compare(u)] *)
Definition TimeCompare (t u : Time) : Z :=
  if t_unix t <? t_unix u then -1
  else if t_unix u <? t_unix t then 1
  else if t_nsec t <? t_nsec u then -1
  else if t_nsec u <? t_nsec t then 1
  else 0.

Definition TimeEqual (t u : Time) : bool := (t_unix t =? t_unix u) && (t_nsec t =? t_nsec u).
Definition TimeAfter (t u : Time) : bool := 0 <? TimeCompare t u.
Definition TimeBefore (t u : Time) : bool := TimeCompare t u <? 0.

(** [t.UnixMilli()], [time.UnixMilli(ms)] *)
Definition UnixMilli (t : Time) : Z := t_unix t * 1000 + t_nsec t / 10 ^ 6.
Definition of_milli (loc : Location) (ms : Z) : Time := mkTime (ms / 1000) (ms mod 1000 * 10 ^ 6) loc.

Lemma UnixMilli_of_milli loc ms : UnixMilli (of_milli loc ms) = ms.
Proof. unfold UnixMilli, of_milli. cbn [t_unix t_nsec]. rewrite Z.div_mul by done. pose proof (Z.div_mod ms 1000). lia. Qed.

(** ** Order of instants *)

Lemma TimeAdd_earlier t d : 0 <= t_nsec t < 10 ^ 9 -> d <= 0 -> TimeCompare (TimeAdd t d) t <= 0.
Proof.
  intros Hn Hd. unfold TimeCompare, TimeAdd. cbn [t_unix t_nsec].
  pose proof (Z.div_mod (t_nsec t + d) (10 ^ 9) ltac:(lia)). pose proof (Z.mod_pos_bound (t_nsec t + d) (10 ^ 9) ltac:(lia)).
  assert ((t_nsec t + d) / 10 ^ 9 <= 0) by (apply Z.lt_succ_r, Z.div_lt_upper_bound; lia). repeat dmatch; zbool; lia.
Qed.

Lemma TimeCompare_antisym t u : TimeCompare t u = - TimeCompare u t.
Proof. unfold TimeCompare. repeat dmatch; zbool; lia. Qed.

Lemma TimeCompare_trans t u v :
  TimeCompare t u <= 0 -> TimeCompare u v <= 0 -> TimeCompare t v <= 0.
Proof. unfold TimeCompare. repeat dmatch; zbool; lia. Qed.

Lemma TimeCompare_range t u : -1 <= TimeCompare t u <= 1.
Proof. unfold TimeCompare. repeat dmatch; lia. Qed.

Lemma TimeCompare_eq t u :
  TimeCompare t u = 0 <-> t_unix t = t_unix u /\ t_nsec t = t_nsec u.
Proof. unfold TimeCompare. repeat dmatch; zbool; lia. Qed.

Lemma TimeEqual_compare t u : TimeEqual t u = (TimeCompare t u =? 0).
Proof.
  unfold TimeEqual. apply eq_true_iff_eq.
  rewrite andb_true_iff, !Z.eqb_eq. symmetry. apply TimeCompare_eq.
Qed.

(** ** The civil calendar is a bijection *)

(** First day (March 1st) of a civil year that starts in March. *)
Definition year_start (y : Z) : Z := 365 * y + y / 4 - y / 100 + y / 400.
Definition yoe_of (doe : Z) : Z := (doe - doe / 1460 + doe / 36524 - doe / 146096) / 365.

Lemma yoe_of_mono a b : 0 <= a -> a <= b -> b < 146097 -> yoe_of a <= yoe_of b.
Proof.
  intros Ha Hab Hb. unfold yoe_of. apply Z.div_le_mono; [lia|].
  Z.div_mod_to_equations. lia.
Qed.

Definition yoe_ok (k : nat) : bool :=
  let y := Z.of_nat k in
  (yoe_of (year_start y) =? y) &&
  (yoe_of (year_start (y + 1) - 1) =? y).

Lemma yoe_ok_all : forallb yoe_ok (seq 0 400) = true.
Proof. vm_compute. reflexivity. Qed.

Lemma year_start_lt a b : a < b -> year_start a < year_start b.
Proof. unfold year_start. intros. Z.div_mod_to_equations. lia. Qed.

Lemma year_start_era era yoe :
  year_start (400 * era + yoe) = 146097 * era + year_start yoe.
Proof. unfold year_start. Z.div_mod_to_equations. lia. Qed.

(** The year of the era is recovered from the day of the era. *)
Lemma yoe_of_correct yoe doe :
  0 <= yoe < 400 -> year_start yoe <= doe -> doe < year_start (yoe + 1) ->
  yoe_of doe = yoe.
Proof.
  intros Hy Hlo Hhi.
  pose proof (proj1 (forallb_forall _ _) yoe_ok_all (Z.to_nat yoe)
    ltac:(apply in_seq; lia)) as Hok.
  unfold yoe_ok in Hok. rewrite Z2Nat.id in Hok by lia. zbool.
  assert (0 <= year_start yoe) by
    (destruct (Z.eq_dec yoe 0) as [->|]; [done|];
     pose proof (year_start_lt 0 yoe); change (year_start 0) with 0 in *; lia).
  assert (year_start (yoe + 1) <= 146097) by
    (destruct (Z.eq_dec yoe 399) as [->|]; [done|];
     pose proof (year_start_lt (yoe + 1) 400);
     change (year_start 400) with 146097 in *; lia).
  pose proof (yoe_of_mono (year_start yoe) doe).
  pose proof (yoe_of_mono doe (year_start (yoe + 1) - 1)). lia.
Qed.

(** The day of the March-based year of month [m], day [d]. *)
Definition doy_of (m d : Z) : Z :=
  (153 * (if 2 <? m then m - 3 else m + 9) + 2) / 5 + (d - 1).

Definition march_year (y m : Z) : Z := if m <=? 2 then y - 1 else y.

Lemma days_from_civil_eq y m d :
  days_from_civil y m d = year_start (march_year y m) + doy_of m d - 719468.
Proof.
  unfold days_from_civil, march_year, doy_of, year_start.
  Z.div_mod_to_equations. lia.
Qed.

Lemma is_leap_year_start y :
  year_start (y + 1) - year_start y = if is_leap (y + 1) then 366 else 365.
Proof.
  unfold year_start, is_leap.
  destruct (Z.eqb_spec ((y + 1) mod 4) 0), (Z.eqb_spec ((y + 1) mod 100) 0),
    (Z.eqb_spec ((y + 1) mod 400) 0); simpl; Z.div_mod_to_equations; lia.
Qed.

Definition civil_of_march (Y doy : Z) : Z * Z * Z :=
  let mp := (5 * doy + 2) / 153 in
  let m := if mp <? 10 then mp + 3 else mp - 9 in
  (Y + (if m <=? 2 then 1 else 0), m, doy - (153 * mp + 2) / 5 + 1).

(** [civil_from_days] in terms of the March-based year. *)
Lemma civil_from_days_march Y doy :
  0 <= doy < year_start (Y + 1) - year_start Y ->
  civil_from_days (year_start Y + doy - 719468) = civil_of_march Y doy.
Proof.
  intros Hdoy.
  set (e := Y / 400). set (yoe := Y mod 400).
  assert (HY : Y = 400 * e + yoe) by (subst e yoe; Z.div_mod_to_equations; lia).
  assert (Hyoe : 0 <= yoe < 400) by (subst yoe; Z.div_mod_to_equations; lia).
  clearbody e yoe. subst Y.
  replace (400 * e + yoe + 1) with (400 * e + (yoe + 1)) in Hdoy by lia.
  rewrite !year_start_era in *.
  assert (Hlo : 0 <= year_start yoe) by
    (unfold year_start; Z.div_mod_to_equations; lia).
  assert (Hhi : year_start (yoe + 1) <= 146097) by
    (unfold year_start; Z.div_mod_to_equations; lia).
  unfold civil_from_days.
  replace (146097 * e + year_start yoe + doy - 719468 + 719468)
    with (year_start yoe + doy + e * 146097) by lia.
  rewrite Z.div_add, (Z.div_small (year_start yoe + doy)) by lia.
  replace (year_start yoe + doy + e * 146097 - (0 + e) * 146097)
    with (year_start yoe + doy) by lia.
  pose proof (yoe_of_correct yoe (year_start yoe + doy) Hyoe ltac:(lia) ltac:(lia)) as Hc.
  unfold yoe_of in Hc. rewrite Hc.
  assert (Hys : 365 * yoe + yoe / 4 - yoe / 100 = year_start yoe) by
    (unfold year_start; rewrite (Z.div_small yoe 400); lia).
  rewrite Hys. replace (year_start yoe + doy - year_start yoe) with doy by lia.
  unfold civil_of_march. do 3 f_equal. lia.
Qed.

Lemma doy_of_bound y m d :
  valid_civil y m d ->
  0 <= doy_of m d < year_start (march_year y m + 1) - year_start (march_year y m).
Proof.
  intros [Hm Hd]. rewrite is_leap_year_start. unfold march_year, doy_of, days_in_month in *.
  assert (m = 1 \/ m = 2 \/ m = 3 \/ m = 4 \/ m = 5 \/ m = 6 \/ m = 7 \/ m = 8 \/
    m = 9 \/ m = 10 \/ m = 11 \/ m = 12) as Hcases by lia.
  destruct (is_leap (y - 1 + 1)) eqn:E1; replace (y - 1 + 1) with y in E1 by lia;
  rewrite E1 in Hd; destruct (is_leap (y + 1)) eqn:E2;
  repeat destruct Hcases as [->|Hcases]; try subst m; simpl in *;
  try rewrite E2; replace (y - 1 + 1) with y by lia; try rewrite E1;
  Z.div_mod_to_equations; lia.
Qed.

Lemma doy_of_month_index y m d :
  valid_civil y m d -> (5 * doy_of m d + 2) / 153 = (if 2 <? m then m - 3 else m + 9).
Proof.
  intros [Hm Hd]. unfold doy_of, days_in_month in *. destruct (is_leap y);
  assert (m = 1 \/ m = 2 \/ m = 3 \/ m = 4 \/ m = 5 \/ m = 6 \/ m = 7 \/ m = 8 \/
    m = 9 \/ m = 10 \/ m = 11 \/ m = 12) as Hcases by lia;
  repeat destruct Hcases as [->|Hcases]; try subst m; simpl in *;
  Z.div_mod_to_equations; lia.
Qed.

Lemma civil_of_march_doy y m d :
  valid_civil y m d -> civil_of_march (march_year y m) (doy_of m d) = (y, m, d).
Proof.
  intros Hv. unfold civil_of_march. rewrite (doy_of_month_index _ _ _ Hv).
  destruct Hv as [Hm Hd]. unfold march_year, doy_of.
  destruct (Z.ltb_spec 2 m); repeat dmatch; zbool; try lia;
    f_equal; [f_equal| |f_equal|]; lia.
Qed.

(** The day number of a valid civil date determines the date. *)
Theorem civil_from_days_from_civil y m d :
  valid_civil y m d -> civil_from_days (days_from_civil y m d) = (y, m, d).
Proof.
  intros Hv. rewrite days_from_civil_eq, civil_from_days_march by by apply doy_of_bound.
  by apply civil_of_march_doy.
Qed.

Lemma year_start_exists (z : Z) :
  exists Y, year_start Y <= z < year_start (Y + 1).
Proof.
  assert (forall n : nat, forall z, 0 <= z -> z < year_start (Z.of_nat n) ->
    exists Y, year_start Y <= z < year_start (Y + 1)) as Hpos.
  { induction n as [|n IH]; intros w Hw Hlt; [change (year_start (Z.of_nat 0)) with 0 in Hlt; lia|].
    destruct (Z.lt_ge_cases w (year_start (Z.of_nat n))) as [H|H]; [by apply IH|].
    exists (Z.of_nat n). split; [done|]. replace (Z.of_nat n + 1) with (Z.of_nat (S n)) by lia. done. }
  set (e := z / 146097).
  destruct (Hpos 400%nat (z mod 146097)) as [Y HY];
    [Z.div_mod_to_equations; lia|change (year_start (Z.of_nat 400)) with 146097; Z.div_mod_to_equations; lia|].
  exists (400 * e + Y). replace (400 * e + Y + 1) with (400 * e + (Y + 1)) by lia.
  rewrite !year_start_era. subst e. Z.div_mod_to_equations. lia.
Qed.

Lemma civil_of_march_valid Y doy y m d :
  0 <= doy < year_start (Y + 1) - year_start Y ->
  civil_of_march Y doy = (y, m, d) ->
  valid_civil y m d /\ march_year y m = Y /\ doy_of m d = doy.
Proof.
  intros Hdoy H. rewrite is_leap_year_start in Hdoy. unfold civil_of_march in H.
  set (mp := (5 * doy + 2) / 153) in *.
  assert (0 <= doy <= 365) by (destruct (is_leap (Y + 1)); lia).
  assert (Hmp : 153 * mp <= 5 * doy + 2 < 153 * mp + 153) by
    (subst mp; Z.div_mod_to_equations; lia).
  assert (mp = 0 \/ mp = 1 \/ mp = 2 \/ mp = 3 \/ mp = 4 \/ mp = 5 \/ mp = 6 \/ mp = 7 \/
    mp = 8 \/ mp = 9 \/ mp = 10 \/ mp = 11) as Hcases by lia.
  clearbody mp.
  repeat destruct Hcases as [->|Hcases]; try subst mp; vm_compute Z.ltb in H; simpl in H;
  inv H; unfold valid_civil, march_year, doy_of, days_in_month; simpl;
  try (destruct (is_leap (Y + 1))); repeat split; try lia; Z.div_mod_to_equations; lia.
Qed.

(** Every day number is the day number of the civil date it yields. *)
Theorem days_from_civil_from_days n y m d :
  civil_from_days n = (y, m, d) -> valid_civil y m d /\ days_from_civil y m d = n.
Proof.
  intros H. destruct (year_start_exists (n + 719468)) as [Y HY].
  replace n with (year_start Y + (n + 719468 - year_start Y) - 719468) in H by lia.
  rewrite civil_from_days_march in H by lia.
  apply civil_of_march_valid in H as (Hv & Hy & Hd); [|lia].
  split; [done|]. rewrite days_from_civil_eq, Hy, Hd. lia.
Qed.

(** ** Wall clocks in a location with one offset *)

Lemma loc_offset_fixed l s : fixed_loc l -> loc_offset l s = loc_base l.
Proof. unfold fixed_loc, loc_offset, loc_lookup. intros ->. done. Qed.

Lemma local_to_unix_fixed l a :
  fixed_loc l -> - 2 ^ 63 <= a - loc_base l -> local_to_unix l a = a - loc_base l.
Proof.
  intros Hf Ha. unfold local_to_unix, loc_lookup. rewrite Hf. simpl lookup_trans. cbv zeta beta iota.
  destruct (Z.eqb_spec (loc_base l) 0) as [->|_]; [lia|].
  rewrite andb_true_r. rewrite loc_offset_fixed by done. by destruct (_ <=? _).
Qed.

Lemma t_abs_fixed t : fixed_loc (t_loc t) -> t_abs t = t_unix t + loc_base (t_loc t).
Proof. intros H. unfold t_abs. by rewrite loc_offset_fixed. Qed.

Lemma t_abs_split t : t_abs t = t_days t * 86400 + Hour t * 3600 + Minute t * 60 + Second t.
Proof.
  unfold t_days, Hour, Minute, Second, t_secs_of_day. Z.div_mod_to_equations. lia.
Qed.

Lemma days_from_civil_day y m d n :
  days_from_civil y m (d + n) = days_from_civil y m d + n.
Proof. unfold days_from_civil. lia. Qed.

Lemma t_date_days t y m d : t_date t = (y, m, d) ->
  valid_civil y m d /\ days_from_civil y m d = t_days t.
Proof. apply days_from_civil_from_days. Qed.

(** Go's [int64] bound on the seconds an instant may have; every instant of the
    model is above it in the arithmetic below. *)
Definition min_unix : Z := - 2 ^ 63.

(** A [time.Time] keeps its seconds since the year 1 in an [int64]: the latest
    instant, and the last year that ends before it. *)
Definition max_unix : Z := 2 ^ 63 - 1 - 62135596800.
Definition max_year : Z := 292277024626.

(** Moving by whole days shifts the instant by whole days of 86400 seconds. *)
Lemma AddDate_days_fixed t n :
  wf_time t -> fixed_loc (t_loc t) -> min_unix <= t_unix t + n * 86400 ->
  AddDate t 0 0 n = mkTime (t_unix t + n * 86400) (t_nsec t) (t_loc t).
Proof.
  intros Hwf Hf Hmin. unfold AddDate, min_unix in *.
  destruct (t_date t) as [[y m] d] eqn:Hd.
  apply t_date_days in Hd as [[Hm _] Hdays].
  unfold goDate. rewrite !Z.add_0_r. rewrite Z.div_small, Z.mod_small by lia.
  rewrite Z.add_0_r. replace (m - 1 + 1) with m by lia.
  rewrite days_from_civil_day, Hdays.
  unfold wf_time in Hwf. rewrite (Z.div_small (t_nsec t)), (Z.mod_small (t_nsec t)) by lia.
  pose proof (t_abs_split t) as Hs. rewrite t_abs_fixed in Hs by done.
  rewrite local_to_unix_fixed by (done || lia). f_equal. lia.
Qed.

(** ... and the weekday by as many days. *)
Lemma t_days_shift t n :
  fixed_loc (t_loc t) ->
  t_days (mkTime (t_unix t + n * 86400) (t_nsec t) (t_loc t)) = t_days t + n.
Proof.
  intros Hf. unfold t_days. rewrite !t_abs_fixed by done. simpl.
  replace (t_unix t + n * 86400 + loc_base (t_loc t))
    with (t_unix t + loc_base (t_loc t) + n * 86400) by lia.
  by rewrite Z.div_add.
Qed.

(** The wall clock [goDate] was given is the wall clock of its result. *)
Lemma goDate_abs_fixed y m d h mi s ns l :
  fixed_loc l -> 1 <= m <= 12 -> 0 <= ns < 10 ^ 9 ->
  min_unix <= days_from_civil y m d * 86400 + h * 3600 + mi * 60 + s - loc_base l ->
  t_abs (goDate y m d h mi s ns l) = days_from_civil y m d * 86400 + h * 3600 + mi * 60 + s.
Proof.
  intros Hf Hm Hns Hmin. unfold min_unix in *. rewrite t_abs_fixed by done. unfold goDate. simpl.
  rewrite (Z.div_small (m - 1)), (Z.mod_small (m - 1)) by lia.
  rewrite (Z.div_small ns) by lia.
  replace (m - 1 + 1) with m by lia. rewrite !Z.add_0_r.
  rewrite local_to_unix_fixed by (done || lia). lia.
Qed.

Lemma goDate_days_fixed y m d h mi s ns l :
  fixed_loc l -> 1 <= m <= 12 -> 0 <= ns < 10 ^ 9 ->
  0 <= h < 24 -> 0 <= mi < 60 -> 0 <= s < 60 ->
  min_unix <= days_from_civil y m d * 86400 + h * 3600 + mi * 60 + s - loc_base l ->
  t_days (goDate y m d h mi s ns l) = days_from_civil y m d /\
  t_secs_of_day (goDate y m d h mi s ns l) = h * 3600 + mi * 60 + s.
Proof.
  intros. unfold t_days, t_secs_of_day. rewrite goDate_abs_fixed by done.
  Z.div_mod_to_equations. lia.
Qed.
