(* ===== verification/Values.v ===== *)
(** * Values of the expression language

    Models [core/value.go], [core/null.go], [core/boolean.go],
    [core/operators.go] (comparison, equality and logical operators),
    [core/typetest.go] and the value types with their [Type], [Equal] and
    [IsNull] methods. *)

From Stdlib Require Import SpecFloat.
From Stdlib Require String.
From S2P Require Import Prelude Decimal GoTime.
#[global] Open Scope Z_scope.

(** ** Type tags ([engine.go], [Type]) *)

Inductive Ty : Type :=
| TypeNull | TypeNumber | TypeString | TypeBoolean | TypeDate | TypeTime
| TypeDateTime | TypeDaysTimeDuration | TypeYearsMonthsDuration | TypeList
| TypeDictionary | TypeRange | TypeTable | TypeCalendar | TypeRegex
| TypeGroupedTable | TypeSortKey | TypeAny.

#[global] Instance Ty_eq_dec : EqDecision Ty.
Proof. solve_decision. Defined.

Definition Ty_eqb (a b : Ty) : bool := bool_decide (a = b).

Lemma Ty_eqb_eq a b : Ty_eqb a b = true <-> a = b.
Proof. apply bool_decide_eq_true. Qed.

(** [typeName] *)
Definition typeName (t : Ty) : string :=
  match t with
  | TypeNull => "null"
  | TypeNumber => "number"
  | TypeString => "string"
  | TypeBoolean => "boolean"
  | TypeDate => "date"
  | TypeTime => "time"
  | TypeDateTime => "datetime"
  | TypeDaysTimeDuration => "dtDuration"
  | TypeYearsMonthsDuration => "ymDuration"
  | TypeList => "list"
  | TypeDictionary => "dictionary"
  | TypeRange => "range"
  | TypeTable => "table"
  | TypeCalendar => "calendar"
  | TypeRegex => "regex"
  | TypeAny => "any"
  | TypeGroupedTable | TypeSortKey => "unknown"
  end.

(** [nameToType], the map behind [instance of]. *)
Definition nameToType : list (string * Ty) :=
  [("null", TypeNull); ("number", TypeNumber); ("string", TypeString);
   ("boolean", TypeBoolean); ("date", TypeDate); ("time", TypeTime);
   ("datetime", TypeDateTime); ("dtDuration", TypeDaysTimeDuration);
   ("ymDuration", TypeYearsMonthsDuration); ("list", TypeList);
   ("dictionary", TypeDictionary); ("range", TypeRange); ("table", TypeTable);
   ("calendar", TypeCalendar); ("regex", TypeRegex); ("any", TypeAny)]%string.

(** ** Association lists: the [keys] slice with its map *)

Definition assoc {V} (k : string) (l : list (string * V)) : option V :=
  match List.find (fun p => String.eqb (fst p) k) l with
  | Some p => Some (snd p)
  | None => None
  end.

Lemma assoc_In {V} (k : string) (l : list (string * V)) v : assoc k l = Some v -> In (k, v) l.
Proof.
  unfold assoc. destruct (List.find _ l) as [[k' v']|] eqn:E; [|done].
  apply find_some in E as [Hin Hk]. apply String.eqb_eq in Hk. simpl in *.
  intros [= <-]. by subst.
Qed.

Lemma assoc_None {V} (k : string) (l : list (string * V)) : assoc k l = None <-> ~ In k (map fst l).
Proof.
  unfold assoc. induction l as [|[k' v'] l IH]; simpl; [tauto|].
  destruct (String.eqb_spec k' k) as [->|Hne]; simpl.
  - split; [done|]. intros H. exfalso. apply H. by left.
  - rewrite IH. split; [intros H [?|?]; auto|intros H ?; apply H; auto].
Qed.

Lemma assoc_Some_In {V} (k : string) (l : list (string * V)) v :
  List.NoDup (map fst l) -> In (k, v) l -> assoc k l = Some v.
Proof.
  unfold assoc. induction l as [|[k' v'] l IH]; simpl; [done|].
  intros Hnd [Heq|Hin]; inversion_clear Hnd; simplify_eq.
  - by rewrite String.eqb_refl.
  - destruct (String.eqb_spec k' k) as [->|Hne]; [|by apply IH].
    exfalso. apply H. apply in_map_iff. by exists (k, v).
Qed.

Lemma assoc_In_fst {V} (k : string) (l : list (string * V)) v :
  assoc k l = Some v -> In k (map fst l).
Proof. intros H. apply assoc_In in H. apply in_map_iff. by exists (k, v). Qed.

(** Byte-wise comparison of Go strings. *)
Definition string_cmp (a b : string) : Z := cmp_int (String.compare a b).

Section Values.
Context {DO : DecimalOps}.

(** ** The value types *)

(** One constructor per [Bl*] struct.  A dictionary is its entries in the order
    of its [keys] slice; a table row is a dictionary; a regular expression is its
    source, which determines the compiled automaton. *)
Inductive BlValue : Type :=
| BlNull
| BlBoolean (b : bool)
| BlNumber (d : Decimal)
| BlString (s : string)
| BlDate (t : Time) (naive : bool)
| BlTime (t : Time) (naive : bool)
| BlDateTime (t : Time) (naive : bool)
| BlDaysTimeDuration (secs : Decimal)
| BlYearsMonthsDuration (months : Decimal)
| BlList (items : list BlValue)
| BlDictionary (entries : list (string * BlValue))
| BlRange (start end_ : BlValue) (startIncluded endIncluded : bool)
| BlTable (columns : list string) (rows : list (list (string * BlValue)))
| BlCalendarEntry (name : option string) (value : BlValue)
| BlCalendar (entries : list (option string * BlValue)) (validFrom validTo : BlValue)
| BlRegex (source : string)
| BlFunc (params : list string) (body : string)
| BlSortKey (column : string) (descending : bool) (order : option (list BlValue)).

(** The [Type()] methods. *)
Definition type_of (v : BlValue) : Ty :=
  match v with
  | BlNull => TypeNull
  | BlBoolean _ => TypeBoolean
  | BlNumber _ => TypeNumber
  | BlString _ => TypeString
  | BlDate _ _ => TypeDate
  | BlTime _ _ => TypeTime
  | BlDateTime _ _ => TypeDateTime
  | BlDaysTimeDuration _ => TypeDaysTimeDuration
  | BlYearsMonthsDuration _ => TypeYearsMonthsDuration
  | BlList _ => TypeList
  | BlDictionary _ => TypeDictionary
  | BlRange _ _ _ _ => TypeRange
  | BlTable _ _ => TypeTable
  | BlCalendarEntry _ _ => TypeAny
  | BlCalendar _ _ _ => TypeCalendar
  | BlRegex _ => TypeRegex
  | BlFunc _ _ => TypeAny
  | BlSortKey _ _ _ => TypeSortKey
  end.

(** [%T] of a value. *)
Definition goTypeName (v : BlValue) : string :=
  match v with
  | BlNull => "core.BlNull"
  | BlBoolean _ => "core.BlBoolean"
  | BlNumber _ => "core.BlNumber"
  | BlString _ => "core.BlString"
  | BlDate _ _ => "core.BlDate"
  | BlTime _ _ => "core.BlTime"
  | BlDateTime _ _ => "core.BlDateTime"
  | BlDaysTimeDuration _ => "core.BlDaysTimeDuration"
  | BlYearsMonthsDuration _ => "core.BlYearsMonthsDuration"
  | BlList _ => "core.BlList"
  | BlDictionary _ => "core.BlDictionary"
  | BlRange _ _ _ _ => "core.BlRange"
  | BlTable _ _ => "core.BlTable"
  | BlCalendarEntry _ _ => "core.BlCalendarEntry"
  | BlCalendar _ _ _ => "core.BlCalendar"
  | BlRegex _ => "core.BlRegex"
  | BlFunc _ _ => "core.BlFunc"
  | BlSortKey _ _ _ => "core.BlSortKey"
  end.

(** [argTypeError] *)
Definition argTypeError (v : BlValue) : GoError :=
  TypeError "call" ("unexpected argument type " +:+ goTypeName v).

(** The [IsNull()] methods. *)
Definition IsNull (v : BlValue) : bool := match v with BlNull => true | _ => false end.

(** [eqTrue] *)
Definition eqTrue (v : BlValue) : bool := match v with BlBoolean b => b | _ => false end.

(** [BlTime.wallSeconds] *)
Definition wallSeconds (t : Time) : Z := Hour t * 3600 + Minute t * 60 + Second t.

(** [BlDateTime.wall]: the layout prints date, clock and nanoseconds, and two
    renderings agree exactly when these components do. *)
Definition wall (t : Time) : Z * Z * Z * (Z * Z * Z) * Z :=
  (t_date t, (Hour t, Minute t, Second t), t_nsec t).

(** [sameStringSet] *)
Definition sameStringSet (a b : list string) : bool :=
  (length a =? length b)%nat && forallb (fun x => bool_decide (x ∈ a)) b.

(** [strings.Join] *)
Fixpoint strings_Join (ss : list string) (sep : string) : string :=
  match ss with
  | [] => ""
  | [s] => s
  | s :: ss' => s +:+ sep +:+ strings_Join ss' sep
  end.

(** The [Equal] methods. *)
Fixpoint Equal (a b : BlValue) {struct a} : BlValue :=
  let fix items_eq (xs ys : list BlValue) {struct xs} : bool :=
    match xs, ys with
    | x :: xs', y :: ys' => if eqTrue (Equal x y) then items_eq xs' ys' else false
    | _, _ => true
    end in
  let fix dict_eq (es os : list (string * BlValue)) {struct es} : bool :=
    match es with
    | [] => true
    | (k, x) :: es' =>
        match assoc k os with
        | None => false
        | Some y => if eqTrue (Equal x y) then dict_eq es' os else false
        end
    end in
  match a with
  | BlNull => BlBoolean false
  | BlBoolean x => match b with BlBoolean y => BlBoolean (Bool.eqb x y) | _ => BlBoolean false end
  | BlNumber x => match b with BlNumber y => BlBoolean (dEqual x y) | _ => BlBoolean false end
  | BlString x => match b with BlString y => BlBoolean (String.eqb x y) | _ => BlBoolean false end
  | BlDate x n =>
      match b with
      | BlDate y m =>
          if negb (Bool.eqb n m) then BlNull
          else if n then BlBoolean ((Year x =? Year y) && (YearDay x =? YearDay y))
          else BlBoolean (TimeEqual x y)
      | _ => BlBoolean false
      end
  | BlTime x n =>
      match b with
      | BlTime y m =>
          if negb (Bool.eqb n m) then BlNull
          else if n then BlBoolean (wallSeconds x =? wallSeconds y)
          else BlBoolean (TimeEqual x y)
      | _ => BlBoolean false
      end
  | BlDateTime x n =>
      match b with
      | BlDateTime y m =>
          if negb (Bool.eqb n m) then BlNull
          else if n then BlBoolean (bool_decide (wall x = wall y))
          else BlBoolean (TimeEqual x y)
      | _ => BlBoolean false
      end
  | BlDaysTimeDuration x =>
      match b with BlDaysTimeDuration y => BlBoolean (dEqual x y) | _ => BlBoolean false end
  | BlYearsMonthsDuration x =>
      match b with BlYearsMonthsDuration y => BlBoolean (dEqual x y) | _ => BlBoolean false end
  | BlList xs =>
      match b with
      | BlList ys =>
          if negb (length xs =? length ys)%nat then BlBoolean false
          else BlBoolean (items_eq xs ys)
      | _ => BlBoolean false
      end
  | BlDictionary es =>
      match b with
      | BlDictionary os =>
          if negb (length es =? length os)%nat then BlBoolean false
          else BlBoolean (dict_eq es os)
      | _ => BlBoolean false
      end
  | BlRange s e si ei =>
      match b with
      | BlRange s' e' si' ei' =>
          let startEq := (IsNull s && IsNull s') || eqTrue (Equal s s') in
          let endEq := (IsNull e && IsNull e') || eqTrue (Equal e e') in
          BlBoolean (startEq && endEq && Bool.eqb si si' && Bool.eqb ei ei')
      | _ => BlBoolean false
      end
  | BlTable cols rows =>
      match b with
      | BlTable cols' rows' =>
          let fix rows_eq (rs qs : list (list (string * BlValue))) {struct rs} : bool :=
            match rs, qs with
            | r :: rs', q :: qs' =>
                if (length r =? length q)%nat && dict_eq r q then rows_eq rs' qs' else false
            | _, _ => true
            end in
          if negb (sameStringSet cols cols') || negb (length rows =? length rows')%nat
          then BlBoolean false
          else BlBoolean (rows_eq rows rows')
      | _ => BlBoolean false
      end
  | BlCalendarEntry n v =>
      match b with
      | BlCalendarEntry m w => BlBoolean (bool_decide (n = m) && eqTrue (Equal v w))
      | _ => BlBoolean false
      end
  | BlCalendar es _ _ =>
      match b with
      | BlCalendar os _ _ =>
          let fix entries_eq (xs ys : list (option string * BlValue)) {struct xs} : bool :=
            match xs, ys with
            | (n, v) :: xs', (m, w) :: ys' =>
                if bool_decide (n = m) && eqTrue (Equal v w) then entries_eq xs' ys' else false
            | _, _ => true
            end in
          if negb (length es =? length os)%nat then BlBoolean false
          else BlBoolean (entries_eq es os)
      | _ => BlBoolean false
      end
  | BlRegex s => match b with BlRegex s' => BlBoolean (String.eqb s s') | _ => BlBoolean false end
  | BlFunc ps body =>
      match b with
      | BlFunc ps' body' =>
          BlBoolean (String.eqb body body' &&
                     String.eqb (strings_Join ps ",") (strings_Join ps' ","))
      | _ => BlBoolean false
      end
  | BlSortKey _ _ _ => BlBoolean false
  end.

(** ** Null propagation ([value.go], [null.go]) *)

(** [propagatesNull] *)
Definition propagatesNull (args : list BlValue) : bool := existsb IsNull args.

(** [isNullFn] *)
Definition isNullFn (v : BlValue) : BlValue := BlBoolean (IsNull v).

(** [getOrElseFn] *)
Definition getOrElseFn (v fallback : BlValue) : BlValue := if IsNull v then fallback else v.

(** ** Comparison ([operators.go]) *)

(** [compareValues]: [None] for incomparable operands. *)
Definition compareValues (a b : BlValue) : option Z :=
  match a, b with
  | BlNumber x, BlNumber y => Some (dCmp x y)
  | BlString x, BlString y => Some (string_cmp x y)
  | BlDate x n, BlDate y m => if Bool.eqb n m then Some (TimeCompare x y) else None
  | BlDateTime x n, BlDateTime y m => if Bool.eqb n m then Some (TimeCompare x y) else None
  | BlTime x n, BlTime y m => if Bool.eqb n m then Some (TimeCompare x y) else None
  | BlDaysTimeDuration x, BlDaysTimeDuration y => Some (dCmp x y)
  | BlYearsMonthsDuration x, BlYearsMonthsDuration y => Some (dCmp x y)
  | _, _ => None
  end.

(** [opOrder] *)
Definition opOrder (a b : BlValue) (pick : Z -> bool) : BlValue :=
  if propagatesNull [a; b] then BlNull
  else match compareValues a b with
       | None => BlNull
       | Some c => BlBoolean (pick c)
       end.

Definition opLt (a b : BlValue) : BlValue := opOrder a b (fun c => c <? 0).
Definition opLe (a b : BlValue) : BlValue := opOrder a b (fun c => c <=? 0).
Definition opGt (a b : BlValue) : BlValue := opOrder a b (fun c => 0 <? c).
Definition opGe (a b : BlValue) : BlValue := opOrder a b (fun c => 0 <=? c).

(** [opEq] *)
Definition opEq (a b : BlValue) : BlValue :=
  if IsNull a || IsNull b then BlBoolean false else Equal a b.

(** [opNe] *)
Definition opNe (a b : BlValue) : BlValue :=
  if IsNull a || IsNull b then BlBoolean false
  else match Equal a b with
       | BlBoolean e => BlBoolean (negb e)
       | _ => BlBoolean false
       end.

(** ** Three-valued logic ([boolean.go]) *)

(** [boolOrNull] *)
Definition boolOrNull (v : BlValue) : option bool :=
  match v with BlBoolean b => Some b | _ => None end.

(** [blAndFn] *)
Definition blAndFn (a b : BlValue) : BlValue :=
  match boolOrNull a, boolOrNull b with
  | Some false, _ => BlBoolean false
  | _, Some false => BlBoolean false
  | Some av, Some bv => BlBoolean (av && bv)
  | _, _ => BlNull
  end.

(** [blOrFn] *)
Definition blOrFn (a b : BlValue) : BlValue :=
  match boolOrNull a, boolOrNull b with
  | Some true, _ => BlBoolean true
  | _, Some true => BlBoolean true
  | Some av, Some bv => BlBoolean (av || bv)
  | _, _ => BlNull
  end.

(** [notFn] *)
Definition notFn (x : BlValue) : BlValue :=
  match x with BlBoolean b => BlBoolean (negb b) | _ => BlNull end.

(** [opIsFalse], [opIsTrue], [opTruthy] *)
Definition opIsFalse (v : BlValue) : bool := match v with BlBoolean b => negb b | _ => false end.
Definition opIsTrue (v : BlValue) : bool := match v with BlBoolean b => b | _ => false end.
Definition opTruthy (v : BlValue) : bool := match v with BlBoolean b => b | _ => false end.

(** What the patcher's [lowerLogical] emits for [a and b] and [a or b]: the
    right operand, an unevaluated computation, runs only when the left one does
    not decide the result. *)
Definition lowerAnd (left : BlValue) (right : unit -> result BlValue) : result BlValue :=
  if opIsFalse left then Ok left
  else let! r := right tt in Ok (blAndFn left r).

Definition lowerOr (left : BlValue) (right : unit -> result BlValue) : result BlValue :=
  if opIsTrue left then Ok left
  else let! r := right tt in Ok (blOrFn left r).

(** ** Type tests ([typetest.go]) *)

(** [instanceOfFn] *)
Definition instanceOfFn (v nameArg : BlValue) : result BlValue :=
  match nameArg with
  | BlString name =>
      match assoc name nameToType with
      | None => Err (TypeError "instance of" ("unknown type " +:+ name))
      | Some TypeAny => Ok (BlBoolean (negb (IsNull v)))
      | Some want => Ok (BlBoolean (Ty_eqb (type_of v) want))
      end
  | _ => Err (TypeError "call" "unexpected argument type")
  end.

(** [hasKeyFn] *)
Definition hasKeyFn (d nameArg : BlValue) : result BlValue :=
  match d with
  | BlDictionary es =>
      match nameArg with
      | BlString name =>
          Ok (BlBoolean match assoc name es with Some _ => true | None => false end)
      | _ => Err (TypeError "call" "unexpected argument type")
      end
  | _ => Ok (BlBoolean false)
  end.

(** ** The host bridge ([value.go]) *)

(** The dynamic types of a Go [any] that [wrap] distinguishes.  All signed
    (unsigned) integer kinds share a constructor, both float kinds too, since
    [wrap] widens them; a map lists its entries in the order Go's [range] visits
    them; [HOther] is any other Go type, by name. *)
Inductive HostValue : Type :=
| HNil
| HBl (v : BlValue)
| HBool (b : bool)
| HString (s : string)
| HInt (z : Z)
| HUint (z : Z)
| HFloat (f : spec_float)
| HDecimal (d : Decimal)
| HTime (t : Time)
| HDuration (nanos : Z)
| HSlice (xs : list HostValue)
| HMap (kvs : list (string * HostValue))
| HOther (goType : string).

(** [BlDictionary.set]: overwrite in place, or append the key. *)
Fixpoint dict_set (es : list (string * BlValue)) (k : string) (v : BlValue)
  : list (string * BlValue) :=
  match es with
  | [] => [(k, v)]
  | (k', v') :: es' => if String.eqb k' k then (k', v) :: es' else (k', v') :: dict_set es' k v
  end.

(** [numberFromFloat] *)
Definition numberFromFloat (f : spec_float) : result BlValue :=
  match f with
  | S754_nan | S754_infinity _ => Err (TypeError "Number" "NaN/Inf not representable")
  | _ => Ok (BlNumber (dNewFromFloat f))
  end.

(** [wrap] *)
Fixpoint wrap (v : HostValue) : result BlValue :=
  let fix wrap_items (xs : list HostValue) : result (list BlValue) :=
    match xs with
    | [] => Ok []
    | x :: xs' => let! w := wrap x in let! ws := wrap_items xs' in Ok (w :: ws)
    end in
  let fix wrap_entries (kvs : list (string * HostValue)) (d : list (string * BlValue))
    {struct kvs} : result (list (string * BlValue)) :=
    match kvs with
    | [] => Ok d
    | (k, e) :: kvs' => let! w := wrap e in wrap_entries kvs' (dict_set d k w)
    end in
  match v with
  | HNil => Ok BlNull
  | HBl x => Ok x
  | HBool b => Ok (BlBoolean b)
  | HString s => Ok (BlString s)
  | HInt z => Ok (BlNumber (dNewFromInt z))
  | HUint z => Ok (BlNumber (dNewFromUint64 z))
  | HFloat f => numberFromFloat f
  | HDecimal d => Ok (BlNumber d)
  | HTime t => Ok (BlDateTime t false)
  | HDuration n => Ok (BlDaysTimeDuration (dNew n (-9)))
  | HSlice xs => let! items := wrap_items xs in Ok (BlList items)
  | HMap kvs => let! d := wrap_entries kvs [] in Ok (BlDictionary d)
  | HOther ty => Err (TypeError "wrap" ("unsupported host input type " +:+ ty))
  end.

(** [unwrap] *)
Fixpoint unwrap (v : BlValue) : HostValue :=
  match v with
  | BlNull => HNil
  | BlBoolean b => HBool b
  | BlString s => HString s
  | BlNumber d => HDecimal d
  | BlList xs => HSlice (map unwrap xs)
  | BlDictionary es => HMap (map (fun p => (fst p, unwrap (snd p))) es)
  | _ => HBl v
  end.

(** [asBl] *)
Definition asBl (v : HostValue) : BlValue :=
  match v with
  | HNil => BlNull
  | HBl b => b
  | _ => match wrap v with Ok w => w | Err _ => BlNull end
  end.

End Values.

(** ** Induction over nested values *)

Section ValueInd.
Context {DO : DecimalOps}.
Variable P : BlValue -> Prop.
Hypothesis P_null : P BlNull.
Hypothesis P_bool : forall b, P (BlBoolean b).
Hypothesis P_number : forall d, P (BlNumber d).
Hypothesis P_string : forall s, P (BlString s).
Hypothesis P_date : forall t n, P (BlDate t n).
Hypothesis P_time : forall t n, P (BlTime t n).
Hypothesis P_datetime : forall t n, P (BlDateTime t n).
Hypothesis P_dt : forall d, P (BlDaysTimeDuration d).
Hypothesis P_ym : forall d, P (BlYearsMonthsDuration d).
Hypothesis P_list : forall l, Forall P l -> P (BlList l).
Hypothesis P_dict : forall es, Forall (fun p => P (snd p)) es -> P (BlDictionary es).
Hypothesis P_range : forall s e si ei, P s -> P e -> P (BlRange s e si ei).
Hypothesis P_table : forall cs rs,
  Forall (Forall (fun p => P (snd p))) rs -> P (BlTable cs rs).
Hypothesis P_entry : forall n v, P v -> P (BlCalendarEntry n v).
Hypothesis P_cal : forall es f t,
  Forall (fun p => P (snd p)) es -> P f -> P t -> P (BlCalendar es f t).
Hypothesis P_regex : forall s, P (BlRegex s).
Hypothesis P_func : forall ps b, P (BlFunc ps b).
Hypothesis P_sortkey : forall c d o, P (BlSortKey c d o).

Fixpoint BlValue_nested_ind (v : BlValue) : P v :=
  let fix on_list (l : list BlValue) : Forall P l :=
    match l with
    | [] => Forall_nil_2 P
    | x :: l' => Forall_cons_2 P x l' (BlValue_nested_ind x) (on_list l')
    end in
  let fix on_pairs {K} (l : list (K * BlValue)) : Forall (fun p => P (snd p)) l :=
    match l with
    | [] => Forall_nil_2 _
    | p :: l' =>
        Forall_cons_2 (fun p => P (snd p)) p l'
          (match p return P (snd p) with (_, x) => BlValue_nested_ind x end) (on_pairs l')
    end in
  let fix on_rows (l : list (list (string * BlValue)))
    : Forall (Forall (fun p => P (snd p))) l :=
    match l with
    | [] => Forall_nil_2 _
    | r :: l' => Forall_cons_2 (Forall (fun p => P (snd p))) r l' (on_pairs r) (on_rows l')
    end in
  match v with
  | BlNull => P_null
  | BlBoolean b => P_bool b
  | BlNumber d => P_number d
  | BlString s => P_string s
  | BlDate t n => P_date t n
  | BlTime t n => P_time t n
  | BlDateTime t n => P_datetime t n
  | BlDaysTimeDuration d => P_dt d
  | BlYearsMonthsDuration d => P_ym d
  | BlList l => P_list l (on_list l)
  | BlDictionary es => P_dict es (on_pairs es)
  | BlRange s e si ei => P_range s e si ei (BlValue_nested_ind s) (BlValue_nested_ind e)
  | BlTable cs rs => P_table cs rs (on_rows rs)
  | BlCalendarEntry n w => P_entry n w (BlValue_nested_ind w)
  | BlCalendar es f t =>
      P_cal es f t (on_pairs es) (BlValue_nested_ind f) (BlValue_nested_ind t)
  | BlRegex s => P_regex s
  | BlFunc ps b => P_func ps b
  | BlSortKey c d o => P_sortkey c d o
  end.

End ValueInd.

(** ** String order *)

Lemma ascii_compare_cases a b :
  (Ascii.compare a b = Lt /\ (Ascii.N_of_ascii a < Ascii.N_of_ascii b)%N) \/
  (Ascii.compare a b = Eq /\ a = b) \/
  (Ascii.compare a b = Gt /\ (Ascii.N_of_ascii b < Ascii.N_of_ascii a)%N).
Proof.
  unfold Ascii.compare. destruct (N.compare_spec (Ascii.N_of_ascii a) (Ascii.N_of_ascii b)); auto.
  right; left. split; [done|].
  rewrite <- (Ascii.ascii_N_embedding a), <- (Ascii.ascii_N_embedding b). by f_equal.
Qed.

Lemma string_compare_trans_le a b c :
  String.compare a b <> Gt -> String.compare b c <> Gt -> String.compare a c <> Gt.
Proof.
  revert b c; induction a as [|x a IH]; intros [|y b] [|z c]; simpl; try done.
  destruct (ascii_compare_cases x y) as [[-> ?]|[[-> ->]|[-> ?]]],
    (ascii_compare_cases y z) as [[-> ?]|[[-> ->]|[-> ?]]]; try done;
  try match goal with |- context [Ascii.compare ?u ?w] =>
    destruct (ascii_compare_cases u w) as [[-> ?]|[[-> ?]|[-> ?]]] end;
  try done; subst; try lia; eauto.
Qed.

Lemma string_cmp_antisym a b : string_cmp a b = - string_cmp b a.
Proof.
  unfold string_cmp. rewrite (String.compare_antisym a b).
  by destruct (String.compare b a).
Qed.

Lemma string_cmp_trans a b c :
  string_cmp a b <= 0 -> string_cmp b c <= 0 -> string_cmp a c <= 0.
Proof.
  unfold string_cmp. pose proof (string_compare_trans_le a b c).
  destruct (String.compare a b), (String.compare b c), (String.compare a c);
    simpl in *; try lia; exfalso; by apply H.
Qed.

Lemma string_cmp_eq a b : string_cmp a b = 0 <-> a = b.
Proof.
  unfold string_cmp. split; [|intros ->].
  - destruct (String.compare a b) eqn:E; simpl; try lia.
    intros _. by apply String.compare_eq_iff.
  - destruct (String.compare b b) eqn:E; [done| |];
    pose proof (String.compare_antisym b b) as Ha; rewrite E in Ha; done.
Qed.
