(* ===== verification/ValueLaws.v ===== *)
(** * Laws of the value system

    Three-valued logic refines strong Kleene logic; the comparison behind the
    ordering operators is a total preorder on each domain; equality is symmetric,
    and agrees with comparison except on naive times with fractions of a second. *)

From Stdlib Require Import SpecFloat.
From S2P Require Import Prelude Decimal GoTime Values.
#[global] Open Scope Z_scope.

(** ** Strong Kleene logic *)

Inductive K3 : Type := KF | KU | KT.

Definition k3_and (a b : K3) : K3 :=
  match a, b with KF, _ | _, KF => KF | KT, KT => KT | _, _ => KU end.
Definition k3_or (a b : K3) : K3 :=
  match a, b with KT, _ | _, KT => KT | KF, KF => KF | _, _ => KU end.
Definition k3_not (a : K3) : K3 := match a with KF => KT | KU => KU | KT => KF end.

Section Logic.
Context {DO : DecimalOps}.

(** The truth value of an operand: anything but a boolean is unknown. *)
Definition k3_of (v : BlValue) : K3 :=
  match v with BlBoolean true => KT | BlBoolean false => KF | _ => KU end.

Definition k3_val (k : K3) : BlValue :=
  match k with KF => BlBoolean false | KT => BlBoolean true | KU => BlNull end.

Lemma k3_of_val k : k3_of (k3_val k) = k.
Proof. by destruct k. Qed.

Lemma blAndFn_k3 a b : blAndFn a b = k3_val (k3_and (k3_of a) (k3_of b)).
Proof. unfold blAndFn. destruct a as [|[]| | | | | | | | | | | | | | | |], b as [|[]| | | | | | | | | | | | | | | |]; done. Qed.

Lemma blOrFn_k3 a b : blOrFn a b = k3_val (k3_or (k3_of a) (k3_of b)).
Proof. unfold blOrFn. destruct a as [|[]| | | | | | | | | | | | | | | |], b as [|[]| | | | | | | | | | | | | | | |]; done. Qed.

Lemma notFn_k3 a : notFn a = k3_val (k3_not (k3_of a)).
Proof. by destruct a as [|[]| | | | | | | | | | | | | | | |]. Qed.

Lemma lowerAnd_eq a b : lowerAnd a (fun _ => Ok b) = Ok (blAndFn a b).
Proof. by destruct a as [|[]| | | | | | | | | | | | | | | |]. Qed.

Lemma lowerOr_eq a b : lowerOr a (fun _ => Ok b) = Ok (blOrFn a b).
Proof. by destruct a as [|[]| | | | | | | | | | | | | | | |]. Qed.

(** C23. The connectives implement strong Kleene logic on all operands, and the
    short-circuit form the patcher emits computes the same value; when the left
    operand decides, the right operand is not run, not even if it would fail. *)
Theorem logic_refines_kleene (a b : BlValue) :
  k3_of (blAndFn a b) = k3_and (k3_of a) (k3_of b) /\
  k3_of (blOrFn a b) = k3_or (k3_of a) (k3_of b) /\
  k3_of (notFn a) = k3_not (k3_of a) /\
  lowerAnd a (fun _ => Ok b) = Ok (blAndFn a b) /\
  lowerOr a (fun _ => Ok b) = Ok (blOrFn a b) /\
  (forall e, k3_of a = KF <-> lowerAnd a (fun _ => Err e) = Ok (BlBoolean false)) /\
  (forall e, k3_of a = KT <-> lowerOr a (fun _ => Err e) = Ok (BlBoolean true)).
Proof.
  rewrite blAndFn_k3, blOrFn_k3, notFn_k3, !k3_of_val, lowerAnd_eq, lowerOr_eq.
  rewrite <- blAndFn_k3, <- blOrFn_k3.
  repeat split; destruct a as [|[]| | | | | | | | | | | | | | | |]; try done.
Qed.

(** De Morgan duality, commutativity and associativity of the connectives. *)
Theorem logic_algebra (a b c : BlValue) :
  notFn (blAndFn a b) = blOrFn (notFn a) (notFn b) /\
  notFn (blOrFn a b) = blAndFn (notFn a) (notFn b) /\
  blAndFn a b = blAndFn b a /\ blOrFn a b = blOrFn b a /\
  blAndFn a (blAndFn b c) = blAndFn (blAndFn a b) c /\
  blOrFn a (blOrFn b c) = blOrFn (blOrFn a b) c /\
  blAndFn a (blOrFn b c) = blOrFn (blAndFn a b) (blAndFn a c).
Proof.
  rewrite !notFn_k3, !blAndFn_k3, !blOrFn_k3, !k3_of_val.
  destruct (k3_of a), (k3_of b), (k3_of c); repeat split.
Qed.

End Logic.

(** ** Comparison *)

Section Comparison.
Context {DO : DecimalOps}.

Lemma compareValues_type a b c :
  compareValues a b = Some c -> type_of a = type_of b /\ IsNull a = false /\ IsNull b = false.
Proof. destruct a, b; simpl; try done. Qed.

Context {DL : DecimalLaws DO}.

Lemma compareValues_swap a b :
  compareValues b a = option_map Z.opp (compareValues a b).
Proof.
  destruct a, b; simpl; try done;
    rewrite ?(dCmp_antisym d0 d), ?(dCmp_antisym secs0 secs), ?(dCmp_antisym months0 months);
    try (f_equal; apply string_cmp_antisym); try done;
    destruct naive, naive0; simpl; f_equal; apply TimeCompare_antisym.
Qed.

Lemma compareValues_refl a b c : compareValues a b = Some c -> compareValues a a = Some 0.
Proof.
  destruct a; destruct b; simpl; try done; intros _;
    rewrite ?eqb_reflx; f_equal;
    first [pose proof (dCmp_antisym d d) | pose proof (dCmp_antisym secs secs)
          | pose proof (dCmp_antisym months months) | pose proof (string_cmp_antisym s s)
          | pose proof (TimeCompare_antisym t t)]; lia.
Qed.

Lemma compareValues_trans a b c x y :
  compareValues a b = Some x -> compareValues b c = Some y -> x <= 0 -> y <= 0 ->
  exists z, compareValues a c = Some z /\ z <= 0.
Proof.
  destruct a, b; simpl; try done; destruct c; simpl; try done; intros H1 H2;
  repeat match goal with n : bool |- _ => destruct n; try done end; simpl in *;
  simplify_eq; intros; (eexists; split; [reflexivity|]);
  eauto using dCmp_trans, string_cmp_trans, TimeCompare_trans.
Qed.

(** [compareValues] is a total preorder on every domain of comparable values:
    reversing the operands reverses the sign, every comparable value equals
    itself, and the order is transitive. *)
Theorem compareValues_order :
  (forall a b, compareValues b a = option_map Z.opp (compareValues a b)) /\
  (forall a b c, compareValues a b = Some c -> compareValues a a = Some 0) /\
  (forall a b c x y, compareValues a b = Some x -> compareValues b c = Some y ->
     x <= 0 -> y <= 0 -> exists z, compareValues a c = Some z /\ z <= 0).
Proof.
  eauto using compareValues_swap, compareValues_refl, compareValues_trans.
Qed.

(** The four ordering operators: all null on a null or incomparable operand,
    and otherwise booleans that are each other's negation and converse. *)
Theorem order_operators (a b : BlValue) :
  (compareValues a b = None /\
   opLt a b = BlNull /\ opLe a b = BlNull /\ opGt a b = BlNull /\ opGe a b = BlNull) \/
  (exists lt gt : bool,
     opLt a b = BlBoolean lt /\ opGe a b = BlBoolean (negb lt) /\
     opGt a b = BlBoolean gt /\ opLe a b = BlBoolean (negb gt) /\
     opGt b a = BlBoolean lt /\ opLt b a = BlBoolean gt /\ (lt && gt)%bool = false).
Proof.
  destruct (compareValues a b) as [c|] eqn:Hc.
  - right. exists (c <? 0), (0 <? c).
    assert (Hn : propagatesNull [a; b] = false /\ propagatesNull [b; a] = false).
    { apply compareValues_type in Hc as (_ & Ha & Hb). simpl. by rewrite Ha, Hb. }
    destruct Hn as [Hn Hn']. unfold opLt, opLe, opGt, opGe, opOrder.
    rewrite Hn, Hn', (compareValues_swap a b), Hc. simpl.
    repeat split; f_equal; lia.
  - left. split; [done|]. unfold opLt, opLe, opGt, opGe, opOrder. rewrite Hc.
    by destruct (propagatesNull [a; b]).
Qed.

End Comparison.

(** ** Equality *)

Section Equality.
Context {DO : DecimalOps}.

(** Well-formed values: the keys of every dictionary (and so of every table row)
    are distinct, as [BlDictionary.set] keeps them, and so are the columns of a
    table. *)
Fixpoint wf_value (v : BlValue) : Prop :=
  let fix wf_entries {K} (es : list (K * BlValue)) : Prop :=
    match es with [] => True | (_, x) :: es' => wf_value x /\ wf_entries es' end in
  match v with
  | BlList xs => (fix go xs := match xs with [] => True | x :: xs' => wf_value x /\ go xs' end) xs
  | BlDictionary es => NoDup (map fst es) /\ wf_entries es
  | BlRange s e _ _ => wf_value s /\ wf_value e
  | BlTable cols rows =>
      NoDup cols /\
      (fix go rs := match rs with
                    | [] => True
                    | r :: rs' => (NoDup (map fst r) /\ wf_entries r) /\ go rs'
                    end) rows
  | BlCalendarEntry _ x => wf_value x
  | BlCalendar es _ _ => wf_entries es
  | _ => True
  end.

Lemma Equal_bool_or_null a b :
  (exists r, Equal a b = BlBoolean r) \/ Equal a b = BlNull.
Proof.
  destruct a, b; simpl; eauto; repeat match goal with
  | |- context [if ?x then _ else _] => destruct x
  end; eauto.
Qed.

(** Pairwise and key-wise equality, as [Equal] computes them on lists, entries
    and rows. *)
Fixpoint items_eqb (xs ys : list BlValue) : bool :=
  match xs, ys with
  | x :: xs', y :: ys' => if eqTrue (Equal x y) then items_eqb xs' ys' else false
  | _, _ => true
  end.
Fixpoint dict_eqb (es os : list (string * BlValue)) : bool :=
  match es with
  | [] => true
  | (k, x) :: es' =>
      match assoc k os with
      | None => false
      | Some y => if eqTrue (Equal x y) then dict_eqb es' os else false
      end
  end.
Definition row_eqb (r q : list (string * BlValue)) : bool :=
  (length r =? length q)%nat && dict_eqb r q.
Fixpoint rows_eqb (rs qs : list (list (string * BlValue))) : bool :=
  match rs, qs with
  | r :: rs', q :: qs' => if row_eqb r q then rows_eqb rs' qs' else false
  | _, _ => true
  end.
Fixpoint entries_eqb (xs ys : list (option string * BlValue)) : bool :=
  match xs, ys with
  | (n, v) :: xs', (m, w) :: ys' =>
      if bool_decide (n = m) && eqTrue (Equal v w) then entries_eqb xs' ys' else false
  | _, _ => true
  end.

Lemma Equal_list xs ys :
  Equal (BlList xs) (BlList ys) = BlBoolean ((length xs =? length ys)%nat && items_eqb xs ys).
Proof. simpl. by destruct (length xs =? length ys)%nat. Qed.

Lemma Equal_dict es os : Equal (BlDictionary es) (BlDictionary os) = BlBoolean (row_eqb es os).
Proof. unfold row_eqb. simpl. by destruct (length es =? length os)%nat. Qed.

Lemma Equal_table cs rs cs' rs' :
  Equal (BlTable cs rs) (BlTable cs' rs') =
  BlBoolean (sameStringSet cs cs' && (length rs =? length rs')%nat && rows_eqb rs rs').
Proof.
  simpl. destruct (sameStringSet cs cs'), (length rs =? length rs')%nat; done.
Qed.

Lemma Equal_calendar es f t os f' t' :
  Equal (BlCalendar es f t) (BlCalendar os f' t') =
  BlBoolean ((length es =? length os)%nat && entries_eqb es os).
Proof. simpl. by destruct (length es =? length os)%nat. Qed.

Lemma wf_list xs : wf_value (BlList xs) <-> Forall wf_value xs.
Proof.
  induction xs as [|x xs IH]; simpl; [split; constructor|].
  rewrite Forall_cons. simpl in IH. by rewrite IH.
Qed.

Definition wf_entry_list {K} (es : list (K * BlValue)) : Prop :=
  Forall (fun p => wf_value (snd p)) es.

Lemma wf_dict es : wf_value (BlDictionary es) <-> NoDup (map fst es) /\ wf_entry_list es.
Proof.
  simpl. apply and_iff_compat_l. unfold wf_entry_list.
  induction es as [|[k x] es IH]; simpl; [split; constructor|].
  rewrite Forall_cons. by rewrite IH.
Qed.

Lemma wf_calendar es f t : wf_value (BlCalendar es f t) <-> wf_entry_list es.
Proof.
  simpl. unfold wf_entry_list.
  induction es as [|[k x] es IH]; simpl; [split; constructor|].
  rewrite Forall_cons. by rewrite IH.
Qed.

Lemma wf_table cs rs :
  wf_value (BlTable cs rs) <-> NoDup cs /\ Forall (fun r => wf_value (BlDictionary r)) rs.
Proof.
  simpl. apply and_iff_compat_l.
  induction rs as [|r rs IH]; simpl; [split; constructor|].
  rewrite Forall_cons. by rewrite IH.
Qed.

Lemma dict_eqb_true es os :
  dict_eqb es os = true <->
  forall k x, In (k, x) es -> exists y, assoc k os = Some y /\ eqTrue (Equal x y) = true.
Proof.
  induction es as [|[k x] es IH]; simpl; [split; [done|done]|].
  destruct (assoc k os) as [y|] eqn:Ha.
  - destruct (eqTrue (Equal x y)) eqn:He.
    + rewrite IH. split; [|auto]. intros H k' x' [Heq|Hin]; [|auto].
      simplify_eq. eauto.
    + split; [done|]. intros H. destruct (H k x) as (y' & Hy & He'); [by left|]. congruence.
  - split; [done|]. intros H. destruct (H k x) as (y & Hy & _); [by left|]. congruence.
Qed.

Definition eq_sym_at (x : BlValue) : Prop :=
  forall y, wf_value y -> Equal x y = Equal y x.

Lemma row_eqb_sym es os :
  NoDup (map fst es) -> NoDup (map fst os) ->
  (forall p q, In p es -> In q os -> Equal (snd p) (snd q) = Equal (snd q) (snd p)) ->
  row_eqb es os = true -> row_eqb os es = true.
Proof.
  unfold row_eqb. intros He Ho Hsym. rewrite NoDup_ListNoDup in He, Ho.
  rewrite !andb_true_iff, !Nat.eqb_eq, !dict_eqb_true. intros [Hlen H].
  split; [done|]. intros k y Hin.
  assert (Hincl : incl (map fst os) (map fst es)).
  { apply NoDup_length_incl; [done|by rewrite !length_map; lia|].
    intros k' Hk'. apply in_map_iff in Hk' as ([k'' x] & <- & Hx).
    destruct (H _ _ Hx) as (z & Hz & _). by apply assoc_In_fst in Hz. }
  assert (Hk : In k (map fst es)) by (apply Hincl, in_map_iff; by exists (k, y)).
  apply in_map_iff in Hk as ([k'' x] & Heq & Hx). simpl in Heq; subst k''.
  exists x. split; [by apply assoc_Some_In|].
  destruct (H _ _ Hx) as (z & Hz & Htrue). rewrite (assoc_Some_In _ _ y) in Hz by done.
  simplify_eq. pose proof (Hsym (k, x) (k, z) Hx Hin) as Hs. simpl in Hs. by rewrite <- Hs.
Qed.

Lemma items_eqb_sym xs ys :
  Forall eq_sym_at xs -> Forall wf_value ys -> items_eqb xs ys = items_eqb ys xs.
Proof.
  intros H. revert ys. induction H as [|x xs Hx _ IH]; intros [|y ys] Hy; simpl; try done.
  inv Hy. rewrite (Hx y) by done. by rewrite IH.
Qed.

Lemma entries_eqb_sym xs ys :
  Forall (fun p => eq_sym_at (snd p)) xs -> wf_entry_list ys ->
  entries_eqb xs ys = entries_eqb ys xs.
Proof.
  intros H. revert ys. induction H as [|[n x] xs Hx _ IH]; intros [|[m y] ys] Hy; simpl; try done.
  inv Hy. simpl in *. rewrite (Hx y) by done. rewrite IH by done.
  by rewrite (bool_decide_ext (n = m) (m = n)) by done.
Qed.

Lemma rows_eqb_sym rs qs :
  Forall (fun r => forall q, wf_value (BlDictionary q) -> row_eqb r q = row_eqb q r) rs ->
  Forall (fun q => wf_value (BlDictionary q)) qs -> rows_eqb rs qs = rows_eqb qs rs.
Proof.
  intros H. revert qs. induction H as [|r rs Hr _ IH]; intros [|q qs] Hq; simpl; try done.
  inv Hq. rewrite (Hr q) by done. by rewrite IH.
Qed.

Lemma sameStringSet_sym a b : NoDup a -> NoDup b -> sameStringSet a b = sameStringSet b a.
Proof.
  assert (forall a b, NoDup b -> sameStringSet a b = true -> sameStringSet b a = true) as H.
  { intros u v Hv. unfold sameStringSet. rewrite !andb_true_iff, !Nat.eqb_eq, !forallb_forall.
    intros [Hl Hi]. split; [done|]. intros x Hx. apply bool_decide_eq_true_2.
    apply list_elem_of_In. apply NoDup_ListNoDup in Hv.
    apply (NoDup_length_incl Hv) in Hx; [done|by rewrite Hl|].
    intros z Hz. apply Hi, bool_decide_eq_true in Hz. by apply list_elem_of_In. }
  intros Ha Hb. apply eq_true_iff_eq. split; auto.
Qed.

Context {DL : DecimalLaws DO}.

Lemma dEqual_sym a b : dEqual a b = dEqual b a.
Proof. rewrite !dEqual_cmp, (dCmp_antisym a b). lia. Qed.

Lemma row_eqb_sym_wf es os :
  wf_value (BlDictionary es) -> Forall (fun p => wf_value (snd p) -> eq_sym_at (snd p)) es ->
  wf_value (BlDictionary os) -> row_eqb es os = row_eqb os es.
Proof.
  rewrite !wf_dict. unfold wf_entry_list. rewrite !Forall_forall. intros [Hn Hw] H [Hn' Hw'].
  assert (Hs : forall p q, In p es -> In q os ->
    Equal (snd p) (snd q) = Equal (snd q) (snd p)).
  { intros p q Hp Hq. rewrite <- list_elem_of_In in Hp, Hq. apply H; auto. }
  apply eq_true_iff_eq. split; apply row_eqb_sym; auto. intros. symmetry. auto.
Qed.

Lemma Equal_sym_wf a : wf_value a -> eq_sym_at a.
Proof.
  induction a using BlValue_nested_ind; intros Hwf w Hb; destruct w; try done;
    rewrite ?Equal_list, ?Equal_dict, ?Equal_table, ?Equal_calendar.
  - simpl. by rewrite bool_eqb_sym.
  - simpl. by rewrite dEqual_sym.
  - simpl. by rewrite String.eqb_sym.
  - simpl. rewrite (bool_eqb_sym naive n). destruct (Bool.eqb n naive) eqn:E; [|done].
    apply eqb_prop in E; subst. destruct naive; simpl; f_equal; unfold TimeEqual; lia.
  - simpl. rewrite (bool_eqb_sym naive n). destruct (Bool.eqb n naive) eqn:E; [|done].
    apply eqb_prop in E; subst. destruct naive; simpl; f_equal; unfold TimeEqual; lia.
  - simpl. rewrite (bool_eqb_sym naive n). destruct (Bool.eqb n naive) eqn:E; [|done].
    apply eqb_prop in E; subst. destruct naive; simpl; f_equal; [by apply bool_decide_ext|].
    unfold TimeEqual; lia.
  - simpl. by rewrite dEqual_sym.
  - simpl. by rewrite dEqual_sym.
  - rewrite wf_list in Hwf, Hb. f_equal. rewrite Nat.eqb_sym. f_equal.
    apply items_eqb_sym; [|done]. rewrite Forall_forall in *. auto.
  - f_equal. by apply row_eqb_sym_wf.
  - destruct Hwf as [Hs He], Hb as [Hs' He']. simpl. f_equal.
    rewrite (IHa1 Hs _ Hs'), (IHa2 He _ He'), (andb_comm (IsNull a1)), (andb_comm (IsNull a2)).
    by rewrite (bool_eqb_sym si), (bool_eqb_sym ei).
  - rewrite wf_table in Hwf, Hb. destruct Hwf as [Hc Hr], Hb as [Hc' Hr']. f_equal.
    rewrite sameStringSet_sym, (Nat.eqb_sym (length rs)) by done. f_equal.
    apply rows_eqb_sym; [|done]. rewrite Forall_forall in *. intros r Hin q Hq.
    apply row_eqb_sym_wf; auto.
  - simpl. f_equal. rewrite (IHa Hwf w Hb). f_equal. by apply bool_decide_ext.
  - rewrite wf_calendar in Hwf, Hb. f_equal. rewrite Nat.eqb_sym. f_equal.
    apply entries_eqb_sym; [|done]. unfold wf_entry_list in *. rewrite Forall_forall in *. auto.
  - simpl. by rewrite String.eqb_sym.
  - simpl. by rewrite (String.eqb_sym body), (String.eqb_sym (strings_Join ps _)).
Qed.

(** Equality is symmetric on well-formed values: [a = b] and [b = a] give the
    same result, also when that result is null. *)
Theorem Equal_symmetric a b :
  wf_value a -> wf_value b -> Equal a b = Equal b a.
Proof. intros Ha Hb. by apply Equal_sym_wf. Qed.

End Equality.

(** ** Equality and comparison *)

Section EqualCompare.
Context {DO : DecimalOps} {DL : DecimalLaws DO}.

(** What the constructors of naive values establish: the wall clock is kept as
    UTC; a date is a midnight; a time of day lies on January 1st of year 0, and
    here has no fraction of a second. *)
Definition canonical (v : BlValue) : Prop :=
  match v with
  | BlDate t true => t_loc t = UTC /\ t_nsec t = 0 /\ t_unix t mod 86400 = 0
  | BlDateTime t true => t_loc t = UTC
  | BlTime t true => t_loc t = UTC /\ t_nsec t = 0 /\ t_days t = days_from_civil 0 1 1
  | _ => True
  end.

Lemma t_abs_UTC t : t_loc t = UTC -> t_abs t = t_unix t.
Proof. intros H. rewrite t_abs_fixed by (by rewrite H). rewrite H. simpl. lia. Qed.

Lemma wallSeconds_eq t : wallSeconds t = t_secs_of_day t.
Proof. unfold wallSeconds, Hour, Minute, Second. Z.div_mod_to_equations. lia. Qed.

Lemma t_days_of_date t u : t_date t = t_date u -> t_days t = t_days u.
Proof.
  intros H. destruct (t_date u) as [[y m] d] eqn:E.
  apply t_date_days in H as [_ H], E as [_ E]. congruence.
Qed.

Lemma t_days_of_yearday t u :
  Year t = Year u -> YearDay t = YearDay u -> t_days t = t_days u.
Proof. unfold YearDay. intros ->. lia. Qed.

Lemma date_eq_unix t u :
  t_loc t = UTC -> t_loc u = UTC -> t_unix t mod 86400 = 0 -> t_unix u mod 86400 = 0 ->
  ((Year t =? Year u) && (YearDay t =? YearDay u))%bool = (t_unix t =? t_unix u).
Proof.
  intros Ht Hu Hmt Hmu. apply eq_true_iff_eq. rewrite andb_true_iff, !Z.eqb_eq. split.
  - intros [Hy Hd]. pose proof (t_days_of_yearday t u Hy Hd) as H.
    unfold t_days in H. rewrite !t_abs_UTC in H by done. Z.div_mod_to_equations. lia.
  - intros H. assert (Hdays : t_days t = t_days u) by (unfold t_days; rewrite !t_abs_UTC by done; by rewrite H).
    unfold YearDay, Year, t_date. by rewrite Hdays.
Qed.

Lemma wall_eq_unix t u :
  t_loc t = UTC -> t_loc u = UTC ->
  wall t = wall u <-> t_unix t = t_unix u /\ t_nsec t = t_nsec u.
Proof.
  intros Ht Hu. unfold wall. split.
  - intros H. apply pair_equal_spec in H as [H Hn]. apply pair_equal_spec in H as [Hd H].
    apply pair_equal_spec in H as [H Hs]. apply pair_equal_spec in H as [Hh Hm].
    split; [|done].
    apply t_days_of_date in Hd. pose proof (t_abs_split t). pose proof (t_abs_split u).
    rewrite !t_abs_UTC in * by done. lia.
  - intros [H Hn]. assert (Ha : t_abs t = t_abs u) by (by rewrite !t_abs_UTC).
    unfold t_date, Hour, Minute, Second, t_secs_of_day, t_days. by rewrite Ha, Hn.
Qed.

Lemma TimeCompare_whole t u :
  t_nsec t = t_nsec u -> (TimeCompare t u =? 0) = (t_unix t =? t_unix u).
Proof.
  intros H. apply eq_true_iff_eq. rewrite !Z.eqb_eq, TimeCompare_eq. tauto.
Qed.

(** On comparable operands [=] holds exactly when the comparison is zero,
    provided naive values are canonical. *)
Theorem Equal_compareValues a b c :
  compareValues a b = Some c -> canonical a -> canonical b ->
  Equal a b = BlBoolean (c =? 0).
Proof.
  destruct a, b; simpl; try done; intros H Ha Hb;
  repeat match goal with n : bool |- _ => destruct n; try done end; simpl in *; simplify_eq;
  rewrite ?dEqual_cmp, ?TimeEqual_compare; try done; f_equal.
  - apply eq_true_iff_eq. rewrite String.eqb_eq, Z.eqb_eq. symmetry. apply string_cmp_eq.
  - destruct Ha as (Hl & Hn & Hm), Hb as (Hl' & Hn' & Hm').
    rewrite TimeCompare_whole by congruence. by apply date_eq_unix.
  - destruct Ha as (Hl & Hn & Hd), Hb as (Hl' & Hn' & Hd').
    rewrite TimeCompare_whole by congruence. rewrite !wallSeconds_eq.
    unfold t_days, t_secs_of_day in *. rewrite !t_abs_UTC in * by done.
    apply eq_true_iff_eq. rewrite !Z.eqb_eq. Z.div_mod_to_equations. lia.
  - rewrite bool_decide_decide. destruct (decide (wall t = wall t0)) as [H|H];
      rewrite wall_eq_unix in H by done; symmetry.
    + apply Z.eqb_eq. by apply TimeCompare_eq.
    + apply Z.eqb_neq. by rewrite TimeCompare_eq.
Qed.

(** Two naive times half a second apart are both equal and ordered: [BlTime.Equal]
    compares whole seconds, [compareValues] whole instants. *)
Theorem naive_time_fraction_anomaly :
  let t0 := goDate 0 1 1 10 0 0 0 UTC in
  let t1 := goDate 0 1 1 10 0 0 500000000 UTC in
  opEq (BlTime t0 true) (BlTime t1 true) = BlBoolean true /\
  opLt (BlTime t0 true) (BlTime t1 true) = BlBoolean true.
Proof. vm_compute. done. Qed.

(** [=] is null, and [!=] false, on two dates of which one is naive and the other
    is not, although both operands are present. *)
Theorem mixed_naive_equality_null t u :
  opEq (BlDate t true) (BlDate u false) = BlNull /\
  opNe (BlDate t true) (BlDate u false) = BlBoolean false.
Proof. done. Qed.

End EqualCompare.

(** ** Witnesses *)

(** A number of the rational instance. *)
Definition qnum (q : Q) : BlValue (DO := QDecimal) := @BlNumber QDecimal q.

Lemma compareValues_order_witness :
  compareValues (DO := QDecimal) (qnum 1%Q) (qnum 2%Q) = Some (-1) /\
  exists z, compareValues (DO := QDecimal) (qnum 1%Q) (qnum 3%Q) = Some z /\ z <= 0.
Proof.
  split; [reflexivity|].
  apply (proj2 (proj2 (compareValues_order (DO := QDecimal)))
    (qnum 1%Q) (qnum 2%Q) (qnum 3%Q) (-1) (-1)); (reflexivity || lia).
Defined.

Lemma order_operators_witness :
  exists lt gt : bool,
     opLt (DO := QDecimal) (qnum 1%Q) (qnum 2%Q) = BlBoolean lt /\
     opGt (DO := QDecimal) (qnum 2%Q) (qnum 1%Q) = BlBoolean lt /\ (lt && gt)%bool = false.
Proof.
  destruct (order_operators (DO := QDecimal) (qnum 1%Q) (qnum 2%Q))
    as [[H _]|(lt & gt & H1 & _ & _ & _ & H5 & _ & H7)]; [discriminate H|].
  exists lt, gt. auto.
Defined.

Lemma Equal_symmetric_witness :
  Equal (DO := QDecimal) (BlList [qnum 1%Q; BlString "a"]) (BlList [qnum (2 # 2)%Q; BlString "a"])
  = Equal (BlList [qnum (2 # 2)%Q; BlString "a"]) (BlList [qnum 1%Q; BlString "a"]).
Proof. apply (Equal_symmetric (DO := QDecimal)); simpl; tauto. Defined.

Lemma Equal_compareValues_witness :
  Equal (DO := QDecimal) (BlDate (goDate 2024 2 29 0 0 0 0 UTC) true)
    (BlDate (goDate 2024 3 1 0 0 0 0 UTC) true) = BlBoolean false.
Proof.
  apply (Equal_compareValues (DO := QDecimal) _ _ (-1));
    [vm_compute; reflexivity|vm_compute; auto|vm_compute; auto].
Defined.
