(* ===== verification/Ranges.v ===== *)
(** * Ranges and interval algebra

    Models [core/range.go] and [core/interval.go]: range construction, emptiness,
    membership, and the twelve interval predicates on ranges and points. *)

From Stdlib Require Import Lqa.
From S2P Require Import Prelude Decimal GoTime Values ValueLaws.
#[global] Open Scope Z_scope.

Section Ranges.
Context {DO : DecimalOps}.

(** ** Ranges ([range.go]) *)

(** The fields of a [BlRange]. *)
Record RangeV : Type := mkRangeV {
  r_start : BlValue;
  r_end : BlValue;
  r_startIncluded : bool;
  r_endIncluded : bool
}.

Definition range_value (r : RangeV) : BlValue :=
  BlRange (r_start r) (r_end r) (r_startIncluded r) (r_endIncluded r).

(** The type assertion [v.(BlRange)]. *)
Definition as_range (v : BlValue) : option RangeV :=
  match v with
  | BlRange s e si ei => Some (mkRangeV s e si ei)
  | _ => None
  end.

(** [Range] *)
Definition Range (start end_ : BlValue) (startIncluded endIncluded : bool) : result RangeV :=
  if IsNull start && startIncluded
  then Err (TypeError "Range" "closed boundary on unbounded start")
  else if IsNull end_ && endIncluded
  then Err (TypeError "Range" "closed boundary on unbounded end")
  else if negb (IsNull start) && negb (IsNull end_) &&
          match compareValues start end_ with None => true | Some _ => false end
  then Err (TypeError "Range" "cross-type or non-comparable endpoints")
  else Ok (mkRangeV start end_ startIncluded endIncluded).

(** [isEmptyRange] *)
Definition isEmptyRange (r : RangeV) : bool :=
  if IsNull (r_start r) || IsNull (r_end r) then false
  else match compareValues (r_start r) (r_end r) with
       | None => false
       | Some c =>
           if 0 <? c then true
           else (c =? 0) && (negb (r_startIncluded r) || negb (r_endIncluded r))
       end.

(** The two bound checks of [contains]: [None] is Go's [ok = false], [Some true]
    means the point passes the bound. *)
Definition start_check (r : RangeV) (point : BlValue) : option bool :=
  if IsNull (r_start r) then Some true
  else match compareValues point (r_start r) with
       | None => None
       | Some c => Some (negb ((c <? 0) || ((c =? 0) && negb (r_startIncluded r))))
       end.
Definition end_check (r : RangeV) (point : BlValue) : option bool :=
  if IsNull (r_end r) then Some true
  else match compareValues point (r_end r) with
       | None => None
       | Some c => Some (negb ((0 <? c) || ((c =? 0) && negb (r_endIncluded r))))
       end.

(** [contains] *)
Definition contains (r : RangeV) (point : BlValue) : option bool :=
  if isEmptyRange r then None
  else match start_check r point with
       | None => None
       | Some false => Some false
       | Some true => end_check r point
       end.

(** [newRangeFn], on its four arguments. *)
Definition newRangeFn (args : list BlValue) : result BlValue :=
  match args with
  | [start; end_; si; ei] =>
      let! r := Range start end_ (eqTrue si) (eqTrue ei) in Ok (range_value r)
  | _ => Err (TypeError "newRange" "expected 4 args")
  end.

(** [rangeComponent] *)
Definition rangeComponent (r : RangeV) (name : string) : option BlValue :=
  if String.eqb name "start" then Some (r_start r)
  else if String.eqb name "end" then Some (r_end r)
  else if String.eqb name "startIncluded" then Some (BlBoolean (r_startIncluded r))
  else if String.eqb name "endIncluded" then Some (BlBoolean (r_endIncluded r))
  else None.

Definition membership (r : RangeV) (point : BlValue) : BlValue :=
  match contains r point with None => BlNull | Some b => BlBoolean b end.

(** [includesFn] and [duringFn] *)
Definition includesFn (range point : BlValue) : result BlValue :=
  match as_range range with
  | None => Err (argTypeError range)
  | Some r => Ok (membership r point)
  end.
Definition duringFn (point range : BlValue) : result BlValue :=
  match as_range range with
  | None => Err (argTypeError range)
  | Some r => Ok (membership r point)
  end.

(** [rangeIsEmptyFn] *)
Definition rangeIsEmptyFn (r : RangeV) : BlValue := BlBoolean (isEmptyRange r).

(** ** Intervals ([interval.go]) *)

Record interval : Type := mkInterval {
  lo : BlValue;
  hi : BlValue;
  loInc : bool;
  hiInc : bool;
  empty : bool
}.

(** [toInterval] *)
Definition toInterval (v : BlValue) : option interval :=
  match as_range v with
  | Some r => Some (mkInterval (r_start r) (r_end r) (r_startIncluded r) (r_endIncluded r)
                      (isEmptyRange r))
  | None => if IsNull v then None else Some (mkInterval v v true true false)
  end.

(** [cmpBound] *)
Definition cmpBound (a b : BlValue) : option Z := compareValues a b.

(** [loStrictlyLeft] *)
Definition loStrictlyLeft (a b : interval) : bool :=
  if IsNull (lo a) then negb (IsNull (lo b))
  else if IsNull (lo b) then false
  else match cmpBound (lo a) (lo b) with
       | None => false
       | Some c => if negb (c =? 0) then c <? 0 else loInc a && negb (loInc b)
       end.

(** [loEqual] *)
Definition loEqual (a b : interval) : bool :=
  if IsNull (lo a) || IsNull (lo b) then IsNull (lo a) && IsNull (lo b)
  else match cmpBound (lo a) (lo b) with
       | None => false
       | Some c => (c =? 0) && Bool.eqb (loInc a) (loInc b)
       end.

(** [hiEqual] *)
Definition hiEqual (a b : interval) : bool :=
  if IsNull (hi a) || IsNull (hi b) then IsNull (hi a) && IsNull (hi b)
  else match cmpBound (hi a) (hi b) with
       | None => false
       | Some c => (c =? 0) && Bool.eqb (hiInc a) (hiInc b)
       end.

(** [hiBeforeLo] *)
Definition hiBeforeLo (a b : interval) : bool :=
  if IsNull (hi a) || IsNull (lo b) then false
  else match cmpBound (hi a) (lo b) with
       | None => false
       | Some c =>
           if c <? 0 then true
           else if c =? 0 then negb (hiInc a) || negb (loInc b)
           else false
       end.

(** [hiMeetsLo] *)
Definition hiMeetsLo (a b : interval) : bool :=
  if IsNull (hi a) || IsNull (lo b) then false
  else match cmpBound (hi a) (lo b) with
       | None => false
       | Some c => (c =? 0) && hiInc a && loInc b
       end.

(** [hiWithinHi] *)
Definition hiWithinHi (a b : interval) : bool :=
  if IsNull (hi b) then true
  else if IsNull (hi a) then false
  else match cmpBound (hi a) (hi b) with
       | None => false
       | Some c => if negb (c =? 0) then c <? 0 else negb (hiInc a) || hiInc b
       end.

(** [intervalsOverlap] *)
Definition intervalsOverlap (a b : interval) : bool :=
  negb (hiBeforeLo a b) && negb (hiBeforeLo b a).

(** [binPred] *)
Definition binPred (f : interval -> interval -> bool) (av bv : BlValue) : BlValue :=
  if IsNull av || IsNull bv then BlNull
  else match toInterval av, toInterval bv with
       | Some a, Some b => if empty a || empty b then BlNull else BlBoolean (f a b)
       | _, _ => BlNull
       end.

Definition beforeFn := binPred hiBeforeLo.
Definition afterFn := binPred (fun a b => hiBeforeLo b a).
Definition meetsFn := binPred hiMeetsLo.
Definition metByFn := binPred (fun a b => hiMeetsLo b a).
(** [calOverlapsFn]: some entry of the calendar overlaps the range. *)
Definition calOverlapsFn (entries : list (option string * BlValue)) (r : RangeV) : BlValue :=
  match toInterval (range_value r) with
  | None => BlBoolean false
  | Some ri =>
      BlBoolean (existsb (fun e => match toInterval (snd e) with
                                   | Some ei => intervalsOverlap ei ri
                                   | None => false
                                   end) entries)
  end.

(** [overlapsFn]; the first argument may be a calendar. *)
Definition overlapsFn (av bv : BlValue) : result BlValue :=
  match av with
  | BlCalendar entries _ _ =>
      match as_range bv with
      | None => Err (argTypeError bv)
      | Some r => Ok (calOverlapsFn entries r)
      end
  | _ => Ok (binPred intervalsOverlap av bv)
  end.
Definition overlapsBeforeFn := binPred (fun a b => intervalsOverlap a b && loStrictlyLeft a b).
Definition overlapsAfterFn := binPred (fun a b => intervalsOverlap a b && loStrictlyLeft b a).
Definition startsFn := binPred (fun a b => loEqual a b && hiWithinHi a b).
Definition startedByFn := binPred (fun a b => loEqual a b && hiWithinHi b a).
Definition finishesFn := binPred (fun a b => hiEqual a b && negb (loStrictlyLeft a b)).
Definition finishedByFn := binPred (fun a b => hiEqual a b && negb (loStrictlyLeft b a)).
Definition coincidesFn := binPred (fun a b => loEqual a b && hiEqual a b).

End Ranges.

(** ** Intervals as sets of points *)

Section Points.
Context {DO : DecimalOps}.

(** [p] respects the lower (upper) bound of an interval; an unbounded end is
    respected by every point. *)
Definition lo_ok (a : interval) (p : BlValue) : Prop :=
  IsNull (lo a) = true \/
  exists c, compareValues p (lo a) = Some c /\ (0 < c \/ c = 0 /\ loInc a = true).
Definition hi_ok (a : interval) (p : BlValue) : Prop :=
  IsNull (hi a) = true \/
  exists c, compareValues p (hi a) = Some c /\ (c < 0 \/ c = 0 /\ hiInc a = true).

Definition mem (p : BlValue) (a : interval) : Prop := lo_ok a p /\ hi_ok a p.

Definition range_interval (r : RangeV) : interval :=
  mkInterval (r_start r) (r_end r) (r_startIncluded r) (r_endIncluded r) (isEmptyRange r).

Definition incomparable (p bound : BlValue) : Prop :=
  IsNull bound = false /\ compareValues p bound = None.

Lemma start_check_true r p : start_check r p = Some true <-> lo_ok (range_interval r) p.
Proof.
  unfold start_check, lo_ok. simpl. destruct (IsNull (r_start r)); [split; auto|].
  destruct (compareValues p (r_start r)) as [c|].
  - split.
    + intros [= H]. right. exists c. split; [done|].
      apply negb_true_iff, orb_false_iff in H as [H1 H2].
      destruct (r_startIncluded r); [lia|]. rewrite andb_true_r in H2. lia.
    + intros [H|(c' & [= <-] & H)]; [done|]. f_equal.
      apply negb_true_iff, orb_false_iff. destruct (r_startIncluded r); simpl.
      * rewrite andb_false_r. lia.
      * rewrite andb_true_r. destruct H as [?|[_ ?]]; [lia|done].
  - split; [done|]. intros [H|(c & [=] & _)]. done.
Qed.

Lemma end_check_true r p : end_check r p = Some true <-> hi_ok (range_interval r) p.
Proof.
  unfold end_check, hi_ok. simpl. destruct (IsNull (r_end r)); [split; auto|].
  destruct (compareValues p (r_end r)) as [c|].
  - split.
    + intros [= H]. right. exists c. split; [done|].
      apply negb_true_iff, orb_false_iff in H as [H1 H2].
      destruct (r_endIncluded r); [lia|]. rewrite andb_true_r in H2. lia.
    + intros [H|(c' & [= <-] & H)]; [done|]. f_equal.
      apply negb_true_iff, orb_false_iff. destruct (r_endIncluded r); simpl.
      * rewrite andb_false_r. lia.
      * rewrite andb_true_r. destruct H as [?|[_ ?]]; [lia|done].
  - split; [done|]. intros [H|(c & [=] & _)]. done.
Qed.

Lemma start_check_None r p : start_check r p = None <-> incomparable p (r_start r).
Proof.
  unfold start_check, incomparable. destruct (IsNull (r_start r)); [naive_solver|].
  destruct (compareValues p (r_start r)); naive_solver.
Qed.

Lemma end_check_None r p : end_check r p = None <-> incomparable p (r_end r).
Proof.
  unfold end_check, incomparable. destruct (IsNull (r_end r)); [naive_solver|].
  destruct (compareValues p (r_end r)); naive_solver.
Qed.

(** Membership decides exactly the points between the bounds: it answers true
    for the points of a non-empty range, false only for points outside, and null
    only for an empty range or a point that cannot be compared with a bound. *)
Theorem contains_spec (r : RangeV) (p : BlValue) :
  (contains r p = Some true <-> isEmptyRange r = false /\ mem p (range_interval r)) /\
  (contains r p = Some false -> ~ mem p (range_interval r)) /\
  (contains r p = None ->
     isEmptyRange r = true \/ incomparable p (r_start r) \/ incomparable p (r_end r)).
Proof.
  unfold mem. rewrite <- start_check_true, <- end_check_true,
    <- start_check_None, <- end_check_None.
  unfold contains. destruct (isEmptyRange r), (start_check r p) as [[]|];
    repeat split; try naive_solver.
Qed.

Lemma compareValues_None_sym a b : compareValues a b = None -> compareValues b a = None.
Proof. destruct a, b; simpl; try done; by destruct naive, naive0. Qed.

(** [calendar.spec.md] (Cross-kind matching): an entry of another kind than the
    query counts as no match.  The code reports an overlap: bounds that cannot be
    compared are never before one another. *)
Theorem mismatched_entry_overlaps (name : option string) (v : BlValue) (r : RangeV) :
  as_range v = None -> IsNull v = false ->
  incomparable v (r_start r) -> incomparable v (r_end r) ->
  calOverlapsFn [(name, v)] r = BlBoolean true.
Proof.
  intros Hv Hn [Hs Hsc] [He Hec]. unfold calOverlapsFn. simpl. unfold toInterval at 1. rewrite Hv, Hn.
  unfold intervalsOverlap, hiBeforeLo, cmpBound. simpl. rewrite Hn, Hs, He, Hsc, (compareValues_None_sym _ _ Hec). done.
Qed.

End Points.

(** ** Order of points across intervals *)

Section IntervalOrder.
Context {DO : DecimalOps} {DL : DecimalLaws DO}.

Lemma compare_le_lt a b c x y :
  compareValues a b = Some x -> compareValues b c = Some y -> x <= 0 -> y <= 0 ->
  exists z, compareValues a c = Some z /\ z <= 0 /\ (x < 0 \/ y < 0 -> z < 0).
Proof.
  intros Hab Hbc Hx Hy.
  destruct (compareValues_trans a b c x y) as (z & Hac & Hz); try done.
  exists z. split_and!; [done..|]. intros Hs.
  destruct (Z.eq_dec z 0) as [->|]; [|lia]. exfalso.
  assert (Hca : compareValues c a = Some 0) by (by rewrite (compareValues_swap a c), Hac).
  assert (Hba : compareValues b a = Some (- x)) by (by rewrite (compareValues_swap a b), Hab).
  assert (Hcb : compareValues c b = Some (- y)) by (by rewrite (compareValues_swap b c), Hbc).
  destruct (compareValues_trans c a b 0 x) as (u & Hu & Hu'); try done; try lia.
  destruct (compareValues_trans b c a y 0) as (w & Hw & Hw'); try done; try lia.
  rewrite Hcb in Hu. rewrite Hba in Hw. simplify_eq. lia.
Qed.

(** A point that passes an upper bound lies below every point that passes a
    lower bound to the right of it. *)
Lemma hi_lo_order a b p q :
  hiBeforeLo a b = true -> hi_ok a p -> lo_ok b q ->
  exists c, compareValues p q = Some c /\ c < 0.
Proof.
  unfold hiBeforeLo, cmpBound. intros H Hp Hq.
  destruct (IsNull (hi a)) eqn:Ha; [done|]. destruct (IsNull (lo b)) eqn:Hb; [done|].
  simpl in H. destruct (compareValues (hi a) (lo b)) as [c|] eqn:Hc; [|done].
  destruct Hp as [?|(cp & Hp & Hp')]; [congruence|].
  destruct Hq as [?|(cq & Hq & Hq')]; [congruence|].
  assert (Hlq : compareValues (lo b) q = Some (- cq)) by (by rewrite (compareValues_swap q), Hq).
  assert (Hc0 : c <= 0) by (repeat dmatch; zbool; lia || done).
  destruct (compare_le_lt p (hi a) (lo b) cp c) as (x & Hx & Hx0 & Hxs); try done; try lia.
  destruct (compare_le_lt p (lo b) q x (- cq)) as (z & Hz & Hz0 & Hzs); try done; try lia.
  exists z. split; [done|]. apply Hzs.
  destruct (Z.ltb_spec c 0); [left; apply Hxs; lia|].
  assert (c = 0) by lia. subst c. simpl in H.
  destruct (hiInc a), (loInc b); try done; simpl in H.
  - right. destruct Hq' as [?|[_ ?]]; [lia|done].
  - left. apply Hxs. destruct Hp' as [?|[_ ?]]; [lia|done].
  - left. apply Hxs. destruct Hp' as [?|[_ ?]]; [lia|done].
Qed.

(** [before] puts every point of one interval below every point of the other;
    so intervals that share a point are reported as overlapping. *)
Theorem before_separates (a b : interval) (p q : BlValue) :
  hiBeforeLo a b = true -> mem p a -> mem q b ->
  exists c, compareValues p q = Some c /\ c < 0.
Proof. intros H [_ Hp] [Hq _]. eauto using hi_lo_order. Qed.

Lemma shared_point_overlap a b p c :
  mem p a -> mem p b -> compareValues p p = Some c -> intervalsOverlap a b = true.
Proof.
  intros [Hla Hha] [Hlb Hhb] Hc. apply compareValues_refl in Hc.
  unfold intervalsOverlap. apply andb_true_iff.
  split; apply negb_true_iff, not_true_iff_false; intros H;
    [destruct (hi_lo_order a b p p) as (z & Hz & ?)|destruct (hi_lo_order b a p p) as (z & Hz & ?)];
    try done; rewrite Hc in Hz; simplify_eq; lia.
Qed.

(** A range recognised as empty has no points. *)
Theorem empty_range_no_points (r : RangeV) (p : BlValue) :
  isEmptyRange r = true -> ~ mem p (range_interval r).
Proof.
  unfold isEmptyRange. intros H [Hlo Hhi].
  destruct (IsNull (r_start r)) eqn:Hs; [done|]. destruct (IsNull (r_end r)) eqn:He; [done|].
  simpl in H. destruct (compareValues (r_start r) (r_end r)) as [c|] eqn:Hc; [|done].
  destruct Hlo as [?|(cl & Hl & Hl')]; [simpl in *; congruence|].
  destruct Hhi as [?|(ch & Hh & Hh')]; [simpl in *; congruence|]. simpl in *.
  assert (Hls : compareValues (r_start r) p = Some (- cl)) by (by rewrite (compareValues_swap p), Hl).
  destruct (compare_le_lt (r_start r) p (r_end r) (- cl) ch) as (z & Hz & Hz0 & Hzs); try done; try lia.
  rewrite Hc in Hz. simplify_eq.
  destruct (Z.ltb_spec 0 z); [lia|]. zbool. subst.
  destruct (r_startIncluded r), (r_endIncluded r); try done; simpl in *;
    destruct Hl' as [?|[_ ?]], Hh' as [?|[_ ?]]; try done; lia.
Qed.

End IntervalOrder.

(** ** Numeric intervals: overlap is a common point *)

Section Numeric.
Context {DO : DecimalOps} {DL : DecimalLaws DO}.

(** A numeric bound: none, or a number and whether it is included. *)
Definition bound : Type := option (Decimal * bool).

Definition lower_ok (l : bound) (x : Q) : Prop :=
  match l with None => True | Some (d, i) => (dval d < x)%Q \/ (dval d == x)%Q /\ i = true end.
Definition upper_ok (h : bound) (x : Q) : Prop :=
  match h with None => True | Some (d, i) => (x < dval d)%Q \/ (x == dval d)%Q /\ i = true end.
Definition compat (l h : bound) : Prop :=
  match l, h with
  | Some (d, i), Some (e, j) => (dval d < dval e)%Q \/ (dval d == dval e)%Q /\ i = true /\ j = true
  | _, _ => True
  end.

Lemma tighter_lower la lb :
  exists l, (l = la \/ l = lb) /\ forall x, lower_ok l x -> lower_ok la x /\ lower_ok lb x.
Proof.
  destruct la as [[d i]|]; [|exists lb; split; [auto|done]].
  destruct lb as [[e j]|]; [|exists (Some (d, i)); split; [auto|done]].
  destruct (dCmp_cases d e) as [[_ H]|[[_ H]|[_ H]]].
  - exists (Some (e, j)). split; [auto|]. simpl. intros x Hx. split; [|done]. left.
    destruct Hx as [?|[? _]]; lra.
  - destruct i.
    + exists (Some (e, j)). split; [auto|]. simpl. intros x Hx. split; [|done].
      destruct Hx as [?|[? _]]; [left|right; split; [|done]]; lra.
    + exists (Some (d, false)). split; [auto|]. simpl. intros x Hx. split; [done|].
      destruct Hx as [?|[_ ?]]; [left; lra|done].
  - exists (Some (d, i)). split; [auto|]. simpl. intros x Hx. split; [done|]. left.
    destruct Hx as [?|[? _]]; lra.
Qed.

Lemma tighter_upper ha hb :
  exists h, (h = ha \/ h = hb) /\ forall x, upper_ok h x -> upper_ok ha x /\ upper_ok hb x.
Proof.
  destruct ha as [[d i]|]; [|exists hb; split; [auto|done]].
  destruct hb as [[e j]|]; [|exists (Some (d, i)); split; [auto|done]].
  destruct (dCmp_cases d e) as [[_ H]|[[_ H]|[_ H]]].
  - exists (Some (d, i)). split; [auto|]. simpl. intros x Hx. split; [done|]. left.
    destruct Hx as [?|[? _]]; lra.
  - destruct i.
    + exists (Some (e, j)). split; [auto|]. simpl. intros x Hx. split; [|done].
      destruct Hx as [?|[? _]]; [left|right; split; [|done]]; lra.
    + exists (Some (d, false)). split; [auto|]. simpl. intros x Hx. split; [done|].
      destruct Hx as [?|[_ ?]]; [left; lra|done].
  - exists (Some (e, j)). split; [auto|]. simpl. intros x Hx. split; [|done]. left.
    destruct Hx as [?|[? _]]; lra.
Qed.

(** The midpoint of two decimals is a decimal. *)
Lemma midpoint_exists (d e : Decimal) : exists m, (2 * dval m == dval d + dval e)%Q.
Proof.
  exists (dMul (dAdd d e) (dNew 5 (-1))). rewrite dval_Mul, dval_Add, dval_New.
  change (inject_Z 5 * pow10 (-1))%Q with (5 * (1 # 10))%Q. lra.
Qed.

Lemma compat_point l h : compat l h -> exists d, lower_ok l (dval d) /\ upper_ok h (dval d).
Proof.
  destruct l as [[d i]|], h as [[e j]|]; simpl.
  - intros H. destruct (midpoint_exists d e) as [m Hm]. exists m.
    destruct H as [H|(H & -> & ->)]; [split; left; lra|split; right; split; try done; lra].
  - intros _. exists (dAdd d (dNewFromInt 1)). rewrite dval_Add, dval_NewFromInt.
    split; [left|done]. change (inject_Z 1) with 1%Q. lra.
  - intros _. exists (dSub e (dNewFromInt 1)). rewrite dval_Sub, dval_NewFromInt.
    split; [done|left]. change (inject_Z 1) with 1%Q. lra.
  - intros _. by exists (dNewFromInt 0).
Qed.

Lemma common_point la lb ha hb :
  compat la ha -> compat la hb -> compat lb ha -> compat lb hb ->
  exists d, (lower_ok la (dval d) /\ lower_ok lb (dval d)) /\
            (upper_ok ha (dval d) /\ upper_ok hb (dval d)).
Proof.
  intros. destruct (tighter_lower la lb) as (l & Hl & Hl').
  destruct (tighter_upper ha hb) as (h & Hh & Hh').
  assert (Hlh : compat l h) by (destruct Hl as [->| ->], Hh as [->| ->]; done).
  destruct (compat_point l h Hlh) as (d & ? & ?). exists d. auto.
Qed.

(** The numeric bound of an interval end. *)
Definition is_bound (v : BlValue) (inc : bool) (b : bound) : Prop :=
  (v = BlNull /\ b = None) \/ exists d, v = BlNumber d /\ b = Some (d, inc).

Record numeric_interval (a : interval) (l h : bound) : Prop := {
  ni_lo : is_bound (lo a) (loInc a) l;
  ni_hi : is_bound (hi a) (hiInc a) h;
  ni_nonempty : compat l h
}.

Lemma lower_ok_iff a l h d : numeric_interval a l h ->
  lo_ok a (BlNumber d) <-> lower_ok l (dval d).
Proof.
  intros [[[Hv ->]|(e & Hv & ->)] _ _]; unfold lo_ok; rewrite Hv; simpl; [tauto|].
  destruct (dCmp_cases d e) as [[-> H]|[[-> H]|[-> H]]]; split.
  - intros [?|(c & [= <-] & ?)]; [done|lia].
  - intros [?|[? _]]; exfalso; lra.
  - intros [?|(c & [= <-] & [?|[_ ?]])]; [done|lia|]. right. split; [lra|done].
  - intros [?|[_ ?]]; [exfalso; lra|]. right. eauto.
  - intros _. left. lra.
  - intros _. right. exists 1. split; [done|lia].
Qed.

Lemma upper_ok_iff a l h d : numeric_interval a l h ->
  hi_ok a (BlNumber d) <-> upper_ok h (dval d).
Proof.
  intros [_ [[Hv ->]|(e & Hv & ->)] _]; unfold hi_ok; rewrite Hv; simpl; [tauto|].
  destruct (dCmp_cases d e) as [[-> H]|[[-> H]|[-> H]]]; split.
  - intros _. left. lra.
  - intros _. right. exists (-1). split; [done|lia].
  - intros [?|(c & [= <-] & [?|[_ ?]])]; [done|lia|]. right. split; [lra|done].
  - intros [?|[_ ?]]; [exfalso; lra|]. right. eauto.
  - intros [?|(c & [= <-] & ?)]; [done|lia].
  - intros [?|[? _]]; exfalso; lra.
Qed.

Lemma not_before_compat a la ha b lb hb :
  numeric_interval a la ha -> numeric_interval b lb hb ->
  hiBeforeLo a b = false -> compat lb ha.
Proof.
  intros [_ Ha _] [Hb _ _]. unfold hiBeforeLo, cmpBound.
  destruct Ha as [[-> ->]|(e & -> & ->)], Hb as [[-> ->]|(d & -> & ->)]; simpl; try done.
  destruct (dCmp_cases e d) as [[-> H]|[[-> H]|[-> H]]]; simpl; try done; intros Hb.
  - right. split; [lra|]. by destruct (hiInc a), (loInc b).
  - left. lra.
Qed.

(** C37. For non-empty numeric intervals, bounded or not, [overlaps] holds exactly
    when some number lies in both. *)
Theorem overlaps_iff_common_point a la ha b lb hb :
  numeric_interval a la ha -> numeric_interval b lb hb ->
  intervalsOverlap a b = true <-> exists d, mem (BlNumber d) a /\ mem (BlNumber d) b.
Proof.
  intros Ha Hb. split.
  - unfold intervalsOverlap. rewrite andb_true_iff, !negb_true_iff. intros [H1 H2].
    destruct (common_point la lb ha hb) as (d & [? ?] & [? ?]);
      [apply Ha|by eapply not_before_compat|by eapply not_before_compat|apply Hb|].
    exists d. unfold mem.
    rewrite !(lower_ok_iff a la ha), !(upper_ok_iff a la ha), !(lower_ok_iff b lb hb),
      !(upper_ok_iff b lb hb) by done. auto.
  - intros (d & H1 & H2). eapply shared_point_overlap; eauto.
Qed.

(** Of two non-empty numeric intervals exactly one of before, after and overlaps
    holds. *)
Theorem before_after_overlaps_partition a la ha b lb hb :
  numeric_interval a la ha -> numeric_interval b lb hb ->
  (hiBeforeLo a b = true /\ hiBeforeLo b a = false /\ intervalsOverlap a b = false) \/
  (hiBeforeLo a b = false /\ hiBeforeLo b a = true /\ intervalsOverlap a b = false) \/
  (hiBeforeLo a b = false /\ hiBeforeLo b a = false /\ intervalsOverlap a b = true).
Proof.
  intros Ha Hb. unfold intervalsOverlap.
  destruct (hiBeforeLo a b) eqn:H1, (hiBeforeLo b a) eqn:H2; simpl; auto. exfalso.
  destruct (compat_point la ha) as (d & Hd1 & Hd2); [apply Ha|].
  destruct (compat_point lb hb) as (e & He1 & He2); [apply Hb|].
  apply (lower_ok_iff a la ha) in Hd1; [|done]. apply (upper_ok_iff a la ha) in Hd2; [|done].
  apply (lower_ok_iff b lb hb) in He1; [|done]. apply (upper_ok_iff b lb hb) in He2; [|done].
  destruct (hi_lo_order a b _ _ H1 Hd2 He1) as (c & Hc & Hc0).
  destruct (hi_lo_order b a _ _ H2 He2 Hd1) as (c' & Hc' & Hc0').
  rewrite compareValues_swap, Hc in Hc'. simplify_eq/=. lia.
Qed.

Lemma loEqual_lower a la ha b lb hb x :
  numeric_interval a la ha -> numeric_interval b lb hb ->
  loEqual a b = true -> lower_ok la x <-> lower_ok lb x.
Proof.
  intros [Ha _ _] [Hb _ _]. unfold loEqual, cmpBound.
  destruct Ha as [[-> ->]|(d & -> & ->)], Hb as [[-> ->]|(e & -> & ->)]; simpl; try done.
  destruct (dCmp_cases d e) as [[-> H]|[[-> H]|[-> H]]]; simpl; try done.
  intros Hi%eqb_prop. rewrite Hi. by rewrite H.
Qed.

Lemma hiEqual_upper a la ha b lb hb x :
  numeric_interval a la ha -> numeric_interval b lb hb ->
  hiEqual a b = true -> upper_ok ha x <-> upper_ok hb x.
Proof.
  intros [_ Ha _] [_ Hb _]. unfold hiEqual, cmpBound.
  destruct Ha as [[-> ->]|(d & -> & ->)], Hb as [[-> ->]|(e & -> & ->)]; simpl; try done.
  destruct (dCmp_cases d e) as [[-> H]|[[-> H]|[-> H]]]; simpl; try done.
  intros Hi%eqb_prop. rewrite Hi. by rewrite H.
Qed.

Lemma hiWithinHi_upper a la ha b lb hb x :
  numeric_interval a la ha -> numeric_interval b lb hb ->
  hiWithinHi a b = true -> upper_ok ha x -> upper_ok hb x.
Proof.
  intros [_ Ha _] [_ Hb _]. unfold hiWithinHi, cmpBound.
  destruct Ha as [[-> ->]|(d & -> & ->)], Hb as [[-> ->]|(e & -> & ->)]; simpl; try done.
  destruct (dCmp_cases d e) as [[-> H]|[[-> H]|[-> H]]]; simpl; try done.
  - intros _ [?|[? _]]; left; lra.
  - destruct (hiInc a), (hiInc b); simpl; try done; intros _ [?|[? ?]];
      (left; lra) || (right; split; [lra|done]) || done.
Qed.

Lemma not_left_lower a la ha b lb hb x :
  numeric_interval a la ha -> numeric_interval b lb hb ->
  loStrictlyLeft a b = false -> lower_ok la x -> lower_ok lb x.
Proof.
  intros [Ha _ _] [Hb _ _]. unfold loStrictlyLeft, cmpBound.
  destruct Ha as [[-> ->]|(d & -> & ->)], Hb as [[-> ->]|(e & -> & ->)]; simpl; try done.
  destruct (dCmp_cases d e) as [[-> H]|[[-> H]|[-> H]]]; simpl; try done.
  - destruct (loInc a), (loInc b); simpl; try done; intros _ [?|[? ?]];
      (left; lra) || (right; split; [lra|done]) || done.
  - intros _ [?|[? _]]; left; lra.
Qed.

(** [starts], [finishes] and [coincides] are inclusions of point sets: an
    interval that starts or finishes another lies inside it, and intervals that
    coincide have the same points. *)
Theorem starts_finishes_coincide_sets a la ha b lb hb d :
  numeric_interval a la ha -> numeric_interval b lb hb ->
  ((loEqual a b && hiWithinHi a b)%bool = true -> mem (BlNumber d) a -> mem (BlNumber d) b) /\
  ((hiEqual a b && negb (loStrictlyLeft a b))%bool = true ->
     mem (BlNumber d) a -> mem (BlNumber d) b) /\
  ((loEqual a b && hiEqual a b)%bool = true -> mem (BlNumber d) a <-> mem (BlNumber d) b).
Proof.
  intros Ha Hb. unfold mem.
  rewrite !(lower_ok_iff a la ha), !(upper_ok_iff a la ha), !(lower_ok_iff b lb hb),
    !(upper_ok_iff b lb hb) by done.
  rewrite !andb_true_iff, negb_true_iff.
  split_and!; intros [H1 H2].
  - intros [? ?]. split; [by rewrite <- (loEqual_lower a la ha b lb hb)|].
    by eapply (hiWithinHi_upper a la ha b lb hb).
  - intros [? ?]. split; [by eapply (not_left_lower a la ha b lb hb)|].
    by rewrite <- (hiEqual_upper a la ha b lb hb).
  - by rewrite (loEqual_lower a la ha b lb hb), (hiEqual_upper a la ha b lb hb).
Qed.

End Numeric.

(** ** Witnesses *)

Definition qrange (l h : Q) (li hi_ : bool) : RangeV (DO := QDecimal) :=
  mkRangeV (qnum l) (qnum h) li hi_.

Lemma before_separates_witness :
  exists c, compareValues (qnum 1%Q) (qnum 5%Q) = Some c /\ c < 0.
Proof.
  apply (before_separates (DO := QDecimal) (range_interval (qrange 1 2 true true))
    (range_interval (qrange 4 6 true false)));
    [reflexivity|split; right; eexists; (split; [lazy; reflexivity|])..];
    (left; lia) || (right; done).
Defined.

Lemma empty_range_no_points_witness :
  ~ mem (qnum 1%Q) (range_interval (qrange 2 1 true true)).
Proof. apply (empty_range_no_points (DO := QDecimal)). reflexivity. Defined.

Lemma qrange_numeric (l h : Q) (li hi_ : bool) :
  (l < h)%Q ->
  numeric_interval (DO := QDecimal) (range_interval (qrange l h li hi_))
    (Some (l : @Decimal QDecimal, li)) (Some (h : @Decimal QDecimal, hi_)).
Proof. intros H. split; [right; by exists l|right; by exists h|by left]. Defined.

Lemma overlaps_iff_common_point_witness :
  exists d, mem (DO := QDecimal) (BlNumber d) (range_interval (qrange 1 3 true false)) /\
            mem (BlNumber d) (range_interval (qrange 2 4 true true)).
Proof.
  apply (overlaps_iff_common_point (DO := QDecimal) _ _ _ _ _ _
    (qrange_numeric 1 3 true false eq_refl) (qrange_numeric 2 4 true true eq_refl)).
  reflexivity.
Defined.

Lemma before_after_overlaps_partition_witness :
  hiBeforeLo (range_interval (qrange 1 2 true false)) (range_interval (qrange 2 4 true true)) = true.
Proof.
  destruct (before_after_overlaps_partition (DO := QDecimal) _ _ _ _ _ _
    (qrange_numeric 1 2 true false eq_refl) (qrange_numeric 2 4 true true eq_refl))
    as [(H & _)|[(_ & H & _)|(_ & _ & H)]]; [exact H|discriminate H|discriminate H].
Defined.

Lemma starts_finishes_coincide_sets_witness :
  mem (qnum 2%Q) (range_interval (qrange 1 4 true true)).
Proof.
  apply (proj1 (starts_finishes_coincide_sets (DO := QDecimal) _ _ _ _ _ _ 2%Q
    (qrange_numeric 1 3 true false eq_refl) (qrange_numeric 1 4 true true eq_refl)));
    [reflexivity|split; right; eexists; (split; [lazy; reflexivity|])]; left; lia.
Defined.
