(* ===== verification/Lists.v ===== *)
(** * The list library

    Models [core/list.go]: membership, rearrangement, sorting, positional edits,
    sequences and aggregation of lists.  A function of a [BlList] takes its
    items; an argument the library may omit is an option.  [int] values are
    64-bit and wrap. *)

From Stdlib Require Import Qround.
From S2P Require Import Prelude Decimal GoTime Values.
#[global] Open Scope Z_scope.

Section Lists.
Context {DO : DecimalOps}.

(** [num], [numFromInt] ([number.go]) *)
Definition num (d : Decimal) : BlValue := BlNumber d.
Definition numFromInt (i : Z) : BlValue := BlNumber (dNewFromInt i).

(** The type assertion [v.(BlList)]. *)
Definition as_list (v : BlValue) : result (list BlValue) :=
  match v with BlList items => Ok items | _ => Err (argTypeError v) end.
(** The type assertion [v.(BlNumber)]. *)
Definition as_number (v : BlValue) : result Decimal :=
  match v with BlNumber d => Ok d | _ => Err (argTypeError v) end.
(** The type assertion [v.(BlString)]. *)
Definition as_string (v : BlValue) : result string :=
  match v with BlString s => Ok s | _ => Err (argTypeError v) end.

(** ** Membership *)

(** [countFn], [listIsEmptyFn] *)
Definition countFn (items : list BlValue) : BlValue := numFromInt (Z.of_nat (length items)).
Definition listIsEmptyFn (items : list BlValue) : BlValue := BlBoolean (Nat.eqb (length items) 0).

(** [containsValue], [listContainsFn] *)
Definition containsValue (items : list BlValue) (e : BlValue) : bool := existsb (fun x => eqTrue (Equal x e)) items.
Definition listContainsFn (items : list BlValue) (e : BlValue) : BlValue := BlBoolean (containsValue items e).

(** [listIndexOfFn]; [i] is the index of the next item. *)
Fixpoint positions (i : Z) (items : list BlValue) (m : BlValue) : list BlValue :=
  match items with
  | [] => []
  | x :: items' =>
      if eqTrue (Equal x m) then numFromInt (i + 1) :: positions (i + 1) items' m else positions (i + 1) items' m
  end.
Definition listIndexOfFn (items : list BlValue) (m : BlValue) : BlValue := BlList (positions 0 items m).

(** ** Rearrangement *)

(** [listReverseFn] *)
Definition listReverseFn (items : list BlValue) : BlValue := BlList (reverse items).

(** [flattenFn] *)
Fixpoint flatten_value (v : BlValue) : list BlValue :=
  match v with
  | BlList items =>
      (fix rec (items : list BlValue) : list BlValue :=
         match items with
         | [] => []
         | e :: items' => flatten_value e ++ rec items'
         end) items
  | _ => [v]
  end.
Definition flattenFn (items : list BlValue) : BlValue := BlList (concat (map flatten_value items)).

(** [distinctFn] *)
Definition add_distinct (out : list BlValue) (e : BlValue) : list BlValue :=
  if containsValue out e then out else out ++ [e].
Definition distinctFn (items : list BlValue) : BlValue := BlList (fold_left add_distinct items []).

(** [duplicateValuesFn] *)
Fixpoint duplicates (out items : list BlValue) : list BlValue :=
  match items with
  | [] => out
  | e :: items' => duplicates (if containsValue items' e && negb (containsValue out e) then out ++ [e] else out) items'
  end.
Definition duplicateValuesFn (items : list BlValue) : BlValue := BlList (duplicates [] items).

(** ** Sorting *)

(** [sort.SliceStable] with a comparison that may fail: the callback records an
    error and the result is discarded, so the sort can stop there. *)
Fixpoint insert_checked {A} (less : A -> A -> option bool) (x : A) (rprefix : list A) : option (list A) :=
  match rprefix with
  | [] => Some [x]
  | p :: ps =>
      match less x p with
      | None => None
      | Some true => option_map (cons p) (insert_checked less x ps)
      | Some false => Some (x :: p :: ps)
      end
  end.
Fixpoint sort_from {A} (less : A -> A -> option bool) (rprefix items : list A) : option (list A) :=
  match items with
  | [] => Some (reverse rprefix)
  | x :: items' =>
      match insert_checked less x rprefix with
      | None => None
      | Some rp => sort_from less rp items'
      end
  end.

(** The comparison of the plain sort. *)
Definition sort_less (desc : bool) (a b : BlValue) : option bool :=
  match compareValues a b with
  | None => None
  | Some c => Some (if desc then 0 <? c else c <? 0)
  end.

(** The index of [v] in the explicit order. *)
Fixpoint rank (explicit : list BlValue) (v : BlValue) : nat :=
  match explicit with
  | [] => 0
  | e :: explicit' => if eqTrue (Equal e v) then 0 else S (rank explicit' v)
  end.

(** The comparison of the sort by an explicit order. *)
Definition explicit_less (explicit : list BlValue) (a b : BlValue) : bool :=
  let ra := rank explicit a in
  let rb := rank explicit b in
  if negb (Nat.eqb ra rb) then Nat.ltb ra rb
  else match compareValues a b with Some c => c <? 0 | None => false end.

Definition sort_plain (desc : bool) (items : list BlValue) : result BlValue :=
  match sort_from (sort_less desc) [] items with
  | Some out => Ok (BlList out)
  | None => Err (TypeError "sort" "non-comparable elements")
  end.

(** [sortFn]; [nil_items] says whether an empty explicit order is a nil slice,
    which counts as none.  The explicit comparison is a strict weak order when
    elements of equal rank can be compared; on other lists of more than twenty
    items (one block of the library's insertion sort) the library may order
    the incomparable elements differently from [slice_stable]. *)
Definition sortFn (nil_items : bool) (l : BlValue) (order : option BlValue) : result BlValue :=
  let! items := as_list l in
  match order with
  | None => sort_plain false items
  | Some (BlString s) =>
      if String.eqb s "asc" then sort_plain false items
      else if String.eqb s "desc" then sort_plain true items
      else Err (TypeError "sort" "order must be asc/desc")
  | Some (BlList explicit) =>
      if Nat.eqb (length explicit) 0 && nil_items then sort_plain false items
      else Ok (BlList (slice_stable (explicit_less explicit) items))
  | Some o => Err (argTypeError o)
  end.

(** ** Positions *)

(** [sublistFn] *)
Definition sublistFn (l start : BlValue) (length_ : option BlValue) : result BlValue :=
  let! items := as_list l in
  let! sd := as_number start in
  let n := Z.of_nat (length items) in
  let st := dIntPart sd in
  let st := if st <? 0 then n + st + 1 else st in
  let st := if st <? 1 then 1 else st in
  if n <? st then Ok (BlList [])
  else
    let! end_ := match length_ with
                 | None => Ok n
                 | Some len =>
                     let! ld := as_number len in
                     let e := int64 (st - 1 + dIntPart ld) in
                     Ok (if n <? e then n else e)
                 end in
    let end_ := if end_ <? st - 1 then st - 1 else end_ in
    Ok (BlList (take (Z.to_nat (end_ - (st - 1))) (drop (Z.to_nat (st - 1)) items))).

(** [appendFn], [prependFn] *)
Definition appendFn (l : BlValue) (es : list BlValue) : result BlValue :=
  let! items := as_list l in Ok (BlList (items ++ es)).
Definition prependFn (l : BlValue) (es : list BlValue) : result BlValue :=
  let! items := as_list l in Ok (BlList (es ++ items)).

(** [concatenateFn] *)
Definition concatenateFn (args : list BlValue) : result BlValue :=
  let! ls := result_map as_list args in Ok (BlList (concat ls)).

(** [unionFn] *)
Fixpoint union_from (out : list BlValue) (args : list BlValue) : result (list BlValue) :=
  match args with
  | [] => Ok out
  | a :: args' => let! items := as_list a in union_from (fold_left add_distinct items out) args'
  end.
Definition unionFn (args : list BlValue) : result BlValue :=
  let! out := union_from [] args in Ok (BlList out).

(** [intersectionFn]: the inner loop stops at the first list without the element. *)
Fixpoint in_all (e : BlValue) (args : list BlValue) : result bool :=
  match args with
  | [] => Ok true
  | a :: args' => let! items := as_list a in if containsValue items e then in_all e args' else Ok false
  end.
Fixpoint intersect_from (out items args : list BlValue) : result (list BlValue) :=
  match items with
  | [] => Ok out
  | e :: items' =>
      let! inAll := in_all e args in
      intersect_from (if inAll && negb (containsValue out e) then out ++ [e] else out) items' args
  end.
Definition intersectionFn (args : list BlValue) : result BlValue :=
  match args with
  | [] => Ok (BlList [])
  | first :: rest =>
      let! items := as_list first in
      let! out := intersect_from [] items rest in
      Ok (BlList out)
  end.

(** [removeFn] *)
Definition removeFn (l pos : BlValue) : result BlValue :=
  let! items := as_list l in
  let! pd := as_number pos in
  let p := dIntPart pd in
  if (p <? 1) || (Z.of_nat (length items) <? p) then Ok l
  else Ok (BlList (take (Z.to_nat (p - 1)) items ++ drop (Z.to_nat p) items)).

(** [listReplaceFn] *)
Definition listReplaceFn (l pos v : BlValue) : result BlValue :=
  let! items := as_list l in
  let! pd := as_number pos in
  let p := dIntPart pd in
  if (p <? 1) || (Z.of_nat (length items) <? p) then Ok l
  else Ok (BlList (<[Z.to_nat (p - 1) := v]> items)).

(** [insertAt], [insertBeforeFn], [insertAfterFn] *)
Definition insertAt (offset : Z) (l pos v : BlValue) : result BlValue :=
  let! items := as_list l in
  let! pd := as_number pos in
  let p := int64 (int64 (dIntPart pd - 1) + offset) in
  if (p <? 0) || (Z.of_nat (length items) <? p) then Err (TypeError "insert" "position out of range")
  else
    let ins := match v with BlList sub => sub | _ => [v] end in
    Ok (BlList (take (Z.to_nat p) items ++ ins ++ drop (Z.to_nat p) items)).
Definition insertBeforeFn := insertAt 0.
Definition insertAfterFn := insertAt 1.

(** ** Strings and sequences *)

Fixpoint string_items (err : GoError) (items : list BlValue) : result (list string) :=
  match items with
  | [] => Ok []
  | BlString s :: items' => let! ss := string_items err items' in Ok (s :: ss)
  | _ :: _ => Err err
  end.

(** [stringJoinFn], with one, two or four arguments. *)
Definition stringJoinFn (l : BlValue) (sep : option BlValue) (affixes : option (BlValue * BlValue)) : result BlValue :=
  let! items := as_list l in
  let! sep := match sep with None => Ok EmptyString | Some s => as_string s end in
  let! ps := match affixes with
             | None => Ok (EmptyString, EmptyString)
             | Some (BlString pre, BlString suf) => Ok (pre, suf)
             | Some _ => Err (TypeError "stringJoin" "prefix/suffix must be strings")
             end in
  let! parts := string_items (TypeError "stringJoin" "elements must be strings") items in
  Ok (BlString (fst ps +:+ strings_Join parts sep +:+ snd ps)).

(** The loop of [seqFn]. *)
Fixpoint seq_loop (fuel : nat) (asc : bool) (cur end_ step : Decimal) : option (list BlValue) :=
  match fuel with
  | O => None
  | S fuel' =>
      if (if asc then dCmp cur end_ <=? 0 else negb (dCmp cur end_ <? 0))
      then option_map (cons (num cur)) (seq_loop fuel' asc (if asc then dAdd cur step else dSub cur step) end_ step)
      else Some []
  end.

(** One iteration per element and one to stop. *)
Definition seq_fuel (start end_ step : Decimal) : nat :=
  Z.to_nat (Qfloor (Qabs.Qabs (dval end_ - dval start) / dval step)) + 2.

(** [seqFn] *)
Definition seqFn (start end_ : BlValue) (step : option BlValue) : result BlValue :=
  match start, end_ with
  | BlNumber s, BlNumber e =>
      let! st := match step with
                 | None => Ok (dNewFromInt 1)
                 | Some v =>
                     let! d := as_number v in
                     if dIsZero d then Err (TypeError "seq" "step must be non-zero") else Ok (dAbs d)
                 end in
      match seq_loop (seq_fuel s e st) (dCmp s e <=? 0) s e st with
      | Some out => Ok (BlList out)
      | None => Err (ErrorText "does not terminate")
      end
  | _, _ => Err (TypeError "seq" "start/end must be numbers")
  end.

(** ** Aggregation *)

(** [nonNull] *)
Definition nonNull (items : list BlValue) : list BlValue := List.filter (fun e => negb (IsNull e)) items.

(** The loops of [sumFn]; [get] is the type assertion of the kind summed. *)
Fixpoint sum_loop (get : BlValue -> option Decimal) (err : GoError) (acc : Decimal) (items : list BlValue)
  : result Decimal :=
  match items with
  | [] => Ok acc
  | e :: items' => match get e with
                   | Some d => sum_loop get err (dAdd acc d) items'
                   | None => Err err
                   end
  end.
Definition get_number (v : BlValue) : option Decimal := match v with BlNumber d => Some d | _ => None end.
Definition get_dt (v : BlValue) : option Decimal := match v with BlDaysTimeDuration d => Some d | _ => None end.
Definition get_ym (v : BlValue) : option Decimal := match v with BlYearsMonthsDuration d => Some d | _ => None end.

(** [sumFn] *)
Definition sumFn (l : list BlValue) : result BlValue :=
  let items := nonNull l in
  match items with
  | [] => Ok BlNull
  | BlNumber _ :: _ =>
      let! acc := sum_loop get_number (TypeError "sum" "list mixes numbers with other types") (dNewFromInt 0) items in
      Ok (num acc)
  | BlDaysTimeDuration _ :: _ =>
      let! acc := sum_loop get_dt (TypeError "sum" "list mixes duration kinds or other types") (dNewFromInt 0) items in
      Ok (BlDaysTimeDuration acc)
  | BlYearsMonthsDuration _ :: _ =>
      let! acc := sum_loop get_ym (TypeError "sum" "list mixes duration kinds or other types") (dNewFromInt 0) items in
      Ok (BlYearsMonthsDuration acc)
  | _ => Err (TypeError "sum" "sum is defined for numbers and durations only")
  end.

(** [productFn] *)
Fixpoint product_loop (acc : Decimal) (items : list BlValue) : result Decimal :=
  match items with
  | [] => Ok acc
  | BlNumber d :: items' => product_loop (dMul acc d) items'
  | _ :: _ => Err (TypeError "product" "product is defined for numbers only")
  end.
Definition productFn (l : list BlValue) : result BlValue :=
  match nonNull l with
  | [] => Ok BlNull
  | items => let! acc := product_loop (dNewFromInt 1) items in Ok (num acc)
  end.

(** [extremum], [minFn], [maxFn] *)
Fixpoint extremum_loop (wantMin : bool) (best : BlValue) (items : list BlValue) : result BlValue :=
  match items with
  | [] => Ok best
  | e :: items' =>
      match compareValues e best with
      | None => Err (TypeError "min/max" "list mixes incomparable element types")
      | Some c => extremum_loop wantMin (if (if wantMin then c <? 0 else 0 <? c) then e else best) items'
      end
  end.
Definition extremum (l : list BlValue) (wantMin : bool) : result BlValue :=
  match nonNull l with
  | [] => Ok BlNull
  | best :: items => extremum_loop wantMin best items
  end.
Definition minFn (l : list BlValue) : result BlValue := extremum l true.
Definition maxFn (l : list BlValue) : result BlValue := extremum l false.

(** [meanFn] *)
Definition meanFn (l : list BlValue) : result BlValue :=
  let items := nonNull l in
  match items with
  | [] => Ok BlNull
  | _ =>
      let! s := sumFn l in
      let n := dNewFromInt (Z.of_nat (length items)) in
      Ok match s with
         | BlNumber d => num (dDivRound d n numericPrecision)
         | BlDaysTimeDuration d => BlDaysTimeDuration (dDivRound d n numericPrecision)
         | BlYearsMonthsDuration d => BlYearsMonthsDuration (dDivRound d n numericPrecision)
         | _ => BlNull
         end
  end.

(** [medianFn] *)
Definition medianFn (l : list BlValue) : result BlValue :=
  match nonNull l with
  | [] => Ok BlNull
  | items =>
      let! sorted := sortFn false (BlList items) None in
      let! si := as_list sorted in
      let n := length si in
      if Nat.odd n then Ok (default BlNull (si !! Nat.div n 2))
      else meanFn [default BlNull (si !! (Nat.div n 2 - 1)%nat); default BlNull (si !! Nat.div n 2)]
  end.

(** [modeFn]: the distinct values with their counts, the best of them sorted when
    they can be. *)
Fixpoint count_value (entries : list (BlValue * Z)) (e : BlValue) : list (BlValue * Z) :=
  match entries with
  | [] => [(e, 1)]
  | (v, c) :: entries' => if eqTrue (Equal v e) then (v, c + 1) :: entries' else (v, c) :: count_value entries' e
  end.
Definition modeFn (l : list BlValue) : BlValue :=
  let entries := fold_left count_value (nonNull l) [] in
  let maxCount := fold_left (fun m en => if m <? snd en then snd en else m) entries 0 in
  if maxCount <=? 1 then BlList []
  else
    let out := map fst (List.filter (fun en => snd en =? maxCount) entries) in
    match sortFn false (BlList out) None with
    | Ok sorted => sorted
    | Err _ => BlList out
    end.

(** [quantifyList], [allFn], [anyFn] *)
Fixpoint quantify_loop (wantAll sawNull : bool) (items : list BlValue) : BlValue :=
  match items with
  | [] => if sawNull then BlNull else BlBoolean wantAll
  | BlBoolean b :: items' =>
      if wantAll && negb b then BlBoolean false
      else if negb wantAll && b then BlBoolean true
      else quantify_loop wantAll sawNull items'
  | BlNull :: items' => quantify_loop wantAll true items'
  | _ :: _ => BlNull
  end.
Definition quantifyList (items : list BlValue) (wantAll : bool) : BlValue := quantify_loop wantAll false items.
Definition allFn (items : list BlValue) : BlValue := quantifyList items true.
Definition anyFn (items : list BlValue) : BlValue := quantifyList items false.

(** [zipStringJoinFn] *)
Fixpoint zip_lists (n : option nat) (items : list BlValue) : result (list (list BlValue)) :=
  match items with
  | [] => Ok []
  | BlList l :: items' =>
      match n with
      | Some m => if negb (Nat.eqb (length l) m)
                  then Err (TypeError "zipStringJoin" "inner lists must be the same length")
                  else let! ls := zip_lists n items' in Ok (l :: ls)
      | None => let! ls := zip_lists (Some (length l)) items' in Ok (l :: ls)
      end
  | _ :: _ => Err (TypeError "zipStringJoin" "elements must be lists")
  end.
Definition zipStringJoinFn (outer : BlValue) (delim : option BlValue) : result BlValue :=
  let! items := as_list outer in
  match items with
  | [] => Ok (BlList [])
  | _ =>
      let! lists := zip_lists None items in
      let delim := match delim with Some (BlString d) => d | _ => EmptyString end in
      let n := match lists with l :: _ => length l | [] => 0%nat end in
      let! out := result_map (fun r =>
                    let! parts := string_items (TypeError "zipStringJoin" "elements must be strings")
                                    (omap (fun l => l !! r) lists) in
                    Ok (BlString (strings_Join parts delim))) (List.seq 0 n) in
      Ok (BlList out)
  end.

End Lists.
