(* ===== verification/ListLaws.v ===== *)
(** * Laws of the list library

    Sorting is a stable sort that fails exactly on incomparable elements; [min]
    and [max] return the first extreme element; [all] and [any] are the Kleene
    connectives over a list; sequences are arithmetic progressions; positional
    edits undo one another. *)

From Stdlib Require Import Sorting.Sorted Lqa Qround Qabs.
From S2P Require Import Prelude Decimal GoTime Values ValueLaws Lists.
#[global] Open Scope Z_scope.

Section Sorting.
Context {DO : DecimalOps} {DL : DecimalLaws DO}.

(** [a] may stand before [b] in a list sorted up or down. *)
Definition in_order (desc : bool) (a b : BlValue) : Prop :=
  exists c, compareValues a b = Some c /\ if desc then 0 <= c else c <= 0.

Definition comparable (a b : BlValue) : Prop := is_Some (compareValues a b).

Lemma comparable_sym a b : comparable a b -> comparable b a.
Proof. intros [c Hc]. unfold comparable. rewrite compareValues_swap, Hc. by eexists. Qed.

Lemma comparable_trans a b c : comparable a b -> comparable b c -> comparable a c.
Proof.
  intros [x Hx] [y Hy]. unfold comparable. revert Hx Hy.
  destruct a, b; simpl; try done; destruct c; simpl; try done;
    repeat match goal with n : bool |- _ => destruct n; try done end; simpl; eauto.
Qed.

Lemma in_order_trans desc a b c : in_order desc a b -> in_order desc b c -> in_order desc a c.
Proof.
  intros (x & Hx & Hxs) (y & Hy & Hys). destruct desc.
  - assert (Hy' : compareValues c b = Some (- y)) by (by rewrite compareValues_swap, Hy).
    assert (Hx' : compareValues b a = Some (- x)) by (by rewrite compareValues_swap, Hx).
    destruct (compareValues_trans c b a _ _ Hy' Hx') as (z & Hz & Hzs); [lia|lia|].
    exists (- z). split; [by rewrite compareValues_swap, Hz|lia].
  - destruct (compareValues_trans a b c _ _ Hx Hy Hxs Hys) as (z & Hz & Hzs). by exists z.
Qed.

Lemma sort_less_true desc a b : sort_less desc a b = Some true -> in_order desc a b /\ ~ in_order desc b a.
Proof.
  unfold sort_less, in_order. rewrite (compareValues_swap a b). destruct (compareValues a b) as [c|]; [|done]. simpl.
  intros [= H]. split; [exists c; split; [done|]; destruct desc; lia|].
  intros (x & [= <-] & Hx). destruct desc; lia.
Qed.

Lemma sort_less_false desc a b : sort_less desc a b = Some false -> in_order desc b a.
Proof.
  unfold sort_less, in_order. rewrite (compareValues_swap a b). destruct (compareValues a b) as [c|]; [|done]. simpl.
  intros [= H]. exists (- c). split; [done|]. destruct desc; lia.
Qed.

Lemma sort_less_comparable desc a b : comparable a b <-> is_Some (sort_less desc a b).
Proof. unfold comparable, sort_less. destruct (compareValues a b); split; intros [? ?]; try done; by eexists. Qed.

Lemma insert_checked_perm {A} (less : A -> A -> option bool) x rp r : insert_checked less x rp = Some r -> r ≡ₚ x :: rp.
Proof.
  revert r. induction rp as [|p ps IH]; intros r; simpl; [by intros [= <-]|].
  destruct (less x p) as [[]|]; [| |done].
  - destruct (insert_checked less x ps) as [r'|]; [|done]. intros [= <-]. rewrite (IH r' eq_refl). constructor.
  - by intros [= <-].
Qed.

Lemma insert_checked_sorted desc x rp r :
  StronglySorted (fun a b => in_order desc b a) rp -> insert_checked (sort_less desc) x rp = Some r ->
  StronglySorted (fun a b => in_order desc b a) r.
Proof.
  intros Hs. revert r. induction Hs as [|p ps Hs IH Hall]; intros r; simpl; [intros [= <-]; repeat constructor|].
  destruct (sort_less desc x p) as [[]|] eqn:E; [| |done].
  - destruct (insert_checked (sort_less desc) x ps) as [r'|] eqn:Ei; [|done]. intros [= <-].
    constructor; [by apply IH|]. rewrite (insert_checked_perm _ _ _ _ Ei). constructor; [by apply sort_less_true|done].
  - intros [= <-]. constructor; [by constructor|]. apply sort_less_false in E. constructor; [done|].
    eapply Forall_impl; [exact Hall|]. simpl. intros y Hy. by eapply in_order_trans.
Qed.

(** Elements that compare equal to [v]. *)
Definition ties (v y : BlValue) : bool := match compareValues v y with Some c => c =? 0 | None => false end.

Lemma ties_unordered desc v x p : ties v x = true -> ties v p = true -> sort_less desc x p <> Some true.
Proof.
  unfold ties. intros Hx Hp Hl. apply sort_less_true in Hl as [_ Hn]. apply Hn.
  destruct (compareValues v x) as [cx|] eqn:Ex; [|done]. destruct (compareValues v p) as [cp|] eqn:Ep; [|done].
  apply Z.eqb_eq in Hx, Hp. subst.
  apply in_order_trans with v.
  - exists 0. split; [by rewrite compareValues_swap, Ep|destruct desc; lia].
  - exists 0. split; [done|destruct desc; lia].
Qed.

Lemma insert_checked_stable desc v x rp r :
  insert_checked (sort_less desc) x rp = Some r -> List.filter (ties v) r = List.filter (ties v) (x :: rp).
Proof.
  revert r. induction rp as [|p ps IH]; intros r; simpl; [by intros [= <-]|].
  destruct (sort_less desc x p) as [[]|] eqn:E; [| |done].
  - destruct (insert_checked (sort_less desc) x ps) as [r'|] eqn:Ei; [|done]. intros [= <-]. simpl.
    rewrite (IH r' eq_refl). simpl. destruct (ties v p) eqn:Hp, (ties v x) eqn:Hx; try done.
    exfalso. by apply (ties_unordered desc v x p).
  - by intros [= <-].
Qed.

Definition all_comparable (l : list BlValue) : Prop := forall a b, a ∈ l -> b ∈ l -> comparable a b.

Lemma insert_checked_some desc x rp :
  (forall p, p ∈ rp -> comparable x p) -> is_Some (insert_checked (sort_less desc) x rp).
Proof.
  induction rp as [|p ps IH]; intros H; simpl; [by eexists|].
  destruct (proj1 (sort_less_comparable desc x p) (H p ltac:(set_solver))) as [[] ->]; [|by eexists].
  destruct IH as [r ->]; [intros; apply H; set_solver|]. by eexists.
Qed.

Lemma insert_checked_none desc x p ps :
  is_Some (insert_checked (sort_less desc) x (p :: ps)) -> comparable x p.
Proof.
  simpl. intros [r Hr]. apply (sort_less_comparable desc). destruct (sort_less desc x p); [by eexists|done].
Qed.

Lemma sort_from_spec desc rp items out :
  StronglySorted (fun a b => in_order desc b a) rp ->
  sort_from (sort_less desc) rp items = Some out ->
  out ≡ₚ items ++ rp /\ StronglySorted (in_order desc) out /\
  forall v, List.filter (ties v) out = List.filter (ties v) (reverse rp ++ items).
Proof.
  revert rp. induction items as [|x items IH]; intros rp Hs; cbn [sort_from].
  - intros [= <-]. split_and!; [by rewrite reverse_Permutation|by apply (StronglySorted_reverse _ _ Hs)|].
    intros v. by rewrite app_nil_r.
  - destruct (insert_checked (sort_less desc) x rp) as [rp'|] eqn:Ei; [|done]. intros H.
    destruct (IH rp' (insert_checked_sorted _ _ _ _ Hs Ei) H) as (Hp & Hsorted & Hst). split_and!; [|done|].
    + rewrite Hp, (insert_checked_perm _ _ _ _ Ei). simpl. by rewrite Permutation_middle.
    + intros v. rewrite Hst, !List.filter_app, !filter_rev, (insert_checked_stable _ v _ _ _ Ei). simpl.
      destruct (ties v x); [|done]. by rewrite reverse_cons, <- app_assoc.
Qed.

Lemma sort_from_some desc rp items :
  all_comparable (rp ++ items) -> is_Some (sort_from (sort_less desc) rp items).
Proof.
  revert rp. induction items as [|x items IH]; intros rp H; cbn [sort_from]; [by eexists|].
  destruct (insert_checked_some desc x rp) as [rp' Hrp]; [intros p Hp; apply H; set_solver|]. rewrite Hrp.
  apply IH. intros a b. rewrite !elem_of_app, (insert_checked_perm _ _ _ _ Hrp). intros Ha Hb. apply H; set_solver.
Qed.

Lemma sort_from_comparable desc rp items :
  (length rp <= 1)%nat \/ all_comparable rp ->
  is_Some (sort_from (sort_less desc) rp items) -> (length (rp ++ items) <= 1)%nat \/ all_comparable (rp ++ items).
Proof.
  revert rp. induction items as [|x items IH]; intros rp Hrp; cbn [sort_from]; [by rewrite app_nil_r|].
  intros Hs. destruct (insert_checked (sort_less desc) x rp) as [rp'|] eqn:Ei; [|by destruct Hs].
  pose proof (insert_checked_perm _ _ _ _ Ei) as Hp.
  assert (Hrp' : (length rp' <= 1)%nat \/ all_comparable rp').
  { destruct rp as [|p ps]; [left; rewrite Hp; simpl; lia|]. right.
    assert (Hxp : comparable x p) by (eapply (insert_checked_none desc); rewrite Ei; by eexists).
    assert (Hpp : comparable p p) by (eapply comparable_trans; [by apply comparable_sym|done]).
    assert (Hall : forall q, q ∈ x :: p :: ps -> comparable q p).
    { intros q Hq. apply elem_of_cons in Hq as [->|Hq]; [done|]. apply elem_of_cons in Hq as [->|Hq]; [done|].
      destruct Hrp as [Hl|Hc]; [destruct ps; [by apply elem_of_nil in Hq|simpl in Hl; lia]|]. apply Hc; set_solver. }
    intros a b Ha Hb. rewrite Hp in Ha, Hb. eapply comparable_trans; [by apply Hall|]. by apply comparable_sym, Hall. }
  specialize (IH rp' Hrp' Hs). destruct IH as [Hl|Hc].
  - left. rewrite length_app in *. simpl. pose proof (Permutation_length Hp) as Hlen. simpl in Hlen. lia.
  - right. intros a b. rewrite !elem_of_app, !elem_of_cons. intros Ha Hb.
    apply Hc; rewrite elem_of_app, Hp, elem_of_cons; tauto.
Qed.

(** [sort] is a stable sort: it succeeds exactly when there are fewer than two
    elements or all of them can be compared with each other; the result has the
    same elements, in ascending or descending order, and elements that compare
    equal keep their order. *)
Theorem sort_stable_correct (desc nil_items : bool) (items : list BlValue) :
  let result := sortFn nil_items (BlList items) (Some (BlString (if desc then "desc" else "asc"))) in
  (is_ok result = true <-> (length items <= 1)%nat \/ all_comparable items) /\
  (is_ok result = false -> result = Err (TypeError "sort" "non-comparable elements")) /\
  forall v, result = Ok v -> exists out, v = BlList out /\ out ≡ₚ items /\
    StronglySorted (in_order desc) out /\ forall w, List.filter (ties w) out = List.filter (ties w) items.
Proof.
  intros r. assert (Hr : r = sort_plain desc items) by (subst r; by destruct desc). clearbody r. subst r. unfold sort_plain.
  destruct (sort_from (sort_less desc) [] items) as [out|] eqn:E; simpl; split_and!; try done.
  - split; [intros _|done]. apply (sort_from_comparable desc [] items); [left; simpl; lia|by eexists].
  - intros v [= <-]. exists out. destruct (sort_from_spec desc [] items out) as (Hp & Hs & Hst); [constructor|done|].
    rewrite app_nil_r in Hp. done.
  - split; [done|]. intros [Hl|Hc].
    + destruct items as [|x [|y items]]; simpl in *; [done|done|lia].
    + destruct (sort_from_some desc [] items Hc) as [out Ho]. congruence.
Qed.

End Sorting.

(** ** Extremes *)

Section Extremes.
Context {DO : DecimalOps} {DL : DecimalLaws DO}.

(** [x] comes strictly before [y] in the direction wanted. *)
Definition strictly (wantMin : bool) (x y : BlValue) : Prop :=
  exists c, compareValues x y = Some c /\ if wantMin then c < 0 else 0 < c.

(** The first extreme element of a list. *)
Definition first_extreme (wantMin : bool) (l : list BlValue) (v : BlValue) : Prop :=
  exists a b, l = a ++ v :: b /\ Forall (strictly wantMin v) a /\ Forall (in_order (negb wantMin) v) b.

Lemma strictly_in_order wantMin x y : strictly wantMin x y -> in_order (negb wantMin) x y.
Proof. intros (c & Hc & H). exists c. split; [done|]. destruct wantMin; simpl; lia. Qed.

Lemma strictly_trans_l wantMin x y z : strictly wantMin x y -> in_order (negb wantMin) y z -> strictly wantMin x z.
Proof.
  intros Hxy Hyz. pose proof (in_order_trans _ _ _ _ (strictly_in_order _ _ _ Hxy) Hyz) as (c & Hc & Hs).
  exists c. split; [done|]. destruct (Z.eq_dec c 0) as [->|Hne]; [|destruct wantMin; simpl in *; lia]. exfalso.
  destruct Hxy as (a & Ha & Has).
  assert (Hzx : in_order (negb wantMin) z x) by (exists 0; split; [by rewrite compareValues_swap, Hc|destruct wantMin; simpl; lia]).
  destruct (in_order_trans _ _ _ _ Hyz Hzx) as (b & Hb & Hbs).
  rewrite compareValues_swap, Ha in Hb. injection Hb as <-. destruct wantMin; simpl in *; lia.
Qed.

Lemma extremum_loop_spec wantMin seen best items v :
  first_extreme wantMin seen best -> extremum_loop wantMin best items = Ok v -> first_extreme wantMin (seen ++ items) v.
Proof.
  revert seen best. induction items as [|e items IH]; intros seen best Hb; simpl; [intros [= <-]; by rewrite app_nil_r|].
  destruct (compareValues e best) as [c|] eqn:Ec; [|done]. intros H.
  replace (seen ++ e :: items) with ((seen ++ [e]) ++ items) by (by rewrite <- app_assoc).
  refine (IH _ _ _ H). destruct Hb as (a & b & -> & Ha & Hb).
  destruct (if wantMin then c <? 0 else 0 <? c) eqn:Es.
  - assert (He : strictly wantMin e best) by (exists c; split; [done|destruct wantMin; lia]).
    exists (a ++ best :: b), []. split_and!; [done| |constructor]. rewrite Forall_app, Forall_cons. split_and!; [|done|].
    + eapply Forall_impl; [exact Ha|]. intros y Hy. eapply strictly_trans_l; [exact He|]. by apply strictly_in_order.
    + eapply Forall_impl; [exact Hb|]. intros y Hy. by eapply strictly_trans_l.
  - exists a, (b ++ [e]). split_and!; [by rewrite <- app_assoc|done|]. apply Forall_app. split; [done|].
    constructor; [|constructor]. exists (- c). split; [by rewrite compareValues_swap, Ec|destruct wantMin; simpl; lia].
Qed.

Lemma extremum_loop_ok wantMin best items :
  is_ok (extremum_loop wantMin best items) = true <-> forall e, e ∈ items -> comparable e best.
Proof.
  revert best. induction items as [|e items IH]; intros best; simpl.
  - split; [intros _ e He; by apply elem_of_nil in He|done].
  - destruct (compareValues e best) as [c|] eqn:Ec.
    + rewrite IH. assert (Hcb : comparable e best) by (by eexists).
      assert (Hsame : forall x, comparable x (if (if wantMin then c <? 0 else 0 <? c) then e else best) <-> comparable x best).
      { intros x. destruct (if wantMin then c <? 0 else 0 <? c); [|done].
        split; intros H; [by eapply comparable_trans|]. eapply comparable_trans; [exact H|]. by apply comparable_sym. }
      setoid_rewrite Hsame. setoid_rewrite elem_of_cons. naive_solver.
    + split; [done|]. intros H. destruct (H e ltac:(set_solver)) as [c Hc]. congruence.
Qed.

(** [min] and [max] over the elements that are not null: null when there are
    none; an error exactly when some element cannot be compared with the first;
    otherwise the first element that is least, or greatest. *)
Theorem extremum_correct (l : list BlValue) (wantMin : bool) :
  match nonNull l with
  | [] => extremum l wantMin = Ok BlNull
  | first :: rest =>
      (is_ok (extremum l wantMin) = true <-> forall e, e ∈ rest -> comparable e first) /\
      forall v, extremum l wantMin = Ok v -> first_extreme wantMin (nonNull l) v
  end.
Proof.
  unfold extremum. destruct (nonNull l) as [|first rest]; [done|]. split; [apply extremum_loop_ok|].
  intros v Hv. apply (extremum_loop_spec wantMin [first]) in Hv; [done|]. exists [], []. split_and!; constructor.
Qed.

End Extremes.

(** ** Quantifiers *)

Section Quantifiers.
Context {DO : DecimalOps}.

Definition truth_value (v : BlValue) : Prop := v = BlNull \/ exists b, v = BlBoolean b.

Lemma quantify_loop_all sawNull items :
  Forall truth_value items ->
  quantify_loop true sawNull items = k3_val (k3_and (if sawNull then KU else KT) (foldr (fun v k => k3_and (k3_of v) k) KT items)).
Proof.
  intros H. revert sawNull. induction H as [|v items Hv _ IH]; intros sawNull; [by destruct sawNull|].
  destruct Hv as [->|[[] ->]]; simpl; rewrite ?IH; destruct sawNull, (foldr _ KT items); done.
Qed.

Lemma quantify_loop_any sawNull items :
  Forall truth_value items ->
  quantify_loop false sawNull items = k3_val (k3_or (if sawNull then KU else KF) (foldr (fun v k => k3_or (k3_of v) k) KF items)).
Proof.
  intros H. revert sawNull. induction H as [|v items Hv _ IH]; intros sawNull; [by destruct sawNull|].
  destruct Hv as [->|[[] ->]]; simpl; rewrite ?IH; destruct sawNull, (foldr _ KF items); done.
Qed.

(** On booleans and nulls [all] is the conjunction and [any] the disjunction of
    the elements in Kleene logic, and each is the dual of the other. *)
Theorem quantifiers_refine_kleene (items : list BlValue) :
  Forall truth_value items ->
  allFn items = k3_val (foldr (fun v k => k3_and (k3_of v) k) KT items) /\
  anyFn items = k3_val (foldr (fun v k => k3_or (k3_of v) k) KF items) /\
  anyFn (map notFn items) = notFn (allFn items).
Proof.
  intros H. unfold allFn, anyFn, quantifyList.
  assert (Hm : Forall truth_value (map notFn items)).
  { apply Forall_map. eapply Forall_impl; [exact H|]. intros v [->|[b ->]]; [by left|right; by eexists]. }
  rewrite quantify_loop_all, !quantify_loop_any by done. split_and!.
  - by destruct (foldr _ KT items).
  - by destruct (foldr _ KF items).
  - rewrite notFn_k3, k3_of_val. clear Hm. induction H as [|v items Hv _ IH]; [done|].
    cbn [map foldr]. destruct Hv as [->|[[] ->]]; simpl in *;
      destruct (foldr (fun v k => k3_and (k3_of v) k) KT items), (foldr (fun v k => k3_or (k3_of v) k) KF (map notFn items)); done.
Qed.

End Quantifiers.

(** ** Sequences *)

Section Sequences.
Context {DO : DecimalOps} {DL : DecimalLaws DO}.

(** How far the end still is. *)
Definition distance (asc : bool) (cur end_ : Decimal) : Q :=
  if asc then (dval end_ - dval cur)%Q else (dval cur - dval end_)%Q.
(** The element [k] steps on. *)
Definition nth_term (asc : bool) (start step : Q) (k : nat) : Q :=
  if asc then (start + inject_Z (Z.of_nat k) * step)%Q else (start - inject_Z (Z.of_nat k) * step)%Q.

Lemma seq_continues (asc : bool) (cur end_ : Decimal) :
  (if asc then dCmp cur end_ <=? 0 else negb (dCmp cur end_ <? 0)) = true <-> (0 <= distance asc cur end_)%Q.
Proof.
  unfold distance. destruct (dCmp_cases cur end_) as [[-> H]|[[-> H]|[-> H]]]; destruct asc; simpl;
    split; try done; intros; lra.
Qed.

Lemma seq_loop_spec (asc : bool) (end_ step : Decimal) (m : nat) (cur : Decimal) fuel :
  (0 < dval step)%Q ->
  (inject_Z (Z.of_nat m) * dval step <= distance asc cur end_ < inject_Z (Z.of_nat m + 1) * dval step)%Q ->
  (m + 2 <= fuel)%nat ->
  exists ds, seq_loop fuel asc cur end_ step = Some (map BlNumber ds) /\ length ds = S m /\
    forall k d, ds !! k = Some d -> (dval d == nth_term asc (dval cur) (dval step) k)%Q.
Proof.
  intros Hst. revert cur fuel. induction m as [|m IH]; intros cur fuel [Hlo Hhi] Hf;
    (destruct fuel as [|fuel]; [lia|]); cbn [seq_loop].
  - assert (Hc : (0 <= distance asc cur end_)%Q) by (change (inject_Z (Z.of_nat 0)) with 0%Q in Hlo; lra).
    rewrite (proj2 (seq_continues asc cur end_) Hc). destruct fuel as [|fuel]; [lia|]. cbn [seq_loop].
    destruct (if asc then _ else negb _) eqn:E in |- *.
    + exfalso. apply seq_continues in E. change (inject_Z (Z.of_nat 0 + 1)) with 1%Q in Hhi.
      unfold distance in *. destruct asc; rewrite ?dval_Add, ?dval_Sub in E; lra.
    + exists [cur]. split_and!; [done|done|]. intros [|k] d; [|done]. intros [= <-]. unfold nth_term.
      change (inject_Z (Z.of_nat 0)) with 0%Q. destruct asc; lra.
  - assert (Hsplit : forall z, (inject_Z (z + 1) * dval step == inject_Z z * dval step + dval step)%Q).
    { intros z. rewrite inject_Z_plus. change (inject_Z 1) with 1%Q. ring. }
    rewrite Nat2Z.inj_succ in Hlo, Hhi. unfold Z.succ in Hlo, Hhi. rewrite Hsplit in Hlo. rewrite (Hsplit (Z.of_nat m + 1)), Hsplit in Hhi.
    assert (Hm : (0 <= inject_Z (Z.of_nat m))%Q) by (change 0%Q with (inject_Z 0); rewrite <- Zle_Qle; lia).
    pose proof (Qmult_le_0_compat _ _ Hm (Qlt_le_weak _ _ Hst)) as Hms.
    assert (Hc : (0 <= distance asc cur end_)%Q) by lra.
    rewrite (proj2 (seq_continues asc cur end_) Hc).
    set (next := if asc then dAdd cur step else dSub cur step).
    assert (Hd : (distance asc next end_ == distance asc cur end_ - dval step)%Q).
    { unfold distance, next. destruct asc; rewrite ?dval_Add, ?dval_Sub; ring. }
    destruct (IH next fuel) as (ds & -> & Hl & Hds); [|lia|].
    { rewrite Hd, Hsplit. split; lra. }
    exists (cur :: ds). split_and!; [done|simpl; lia|]. intros [|k] d.
    + intros [= <-]. unfold nth_term. change (inject_Z (Z.of_nat 0)) with 0%Q. destruct asc; lra.
    + intros Hk. rewrite (Hds k d Hk). unfold nth_term, next. rewrite Nat2Z.inj_succ. unfold Z.succ. rewrite inject_Z_plus.
      change (inject_Z 1) with 1%Q. destruct asc; rewrite ?dval_Add, ?dval_Sub; ring.
Qed.

Lemma seq_run (s e st : Decimal) :
  (0 < dval st)%Q ->
  exists ds, seq_loop (seq_fuel s e st) (dCmp s e <=? 0) s e st = Some (map BlNumber ds) /\
    Z.of_nat (length ds) = Qfloor (Qabs (dval e - dval s) / dval st) + 1 /\
    forall k d, ds !! k = Some d -> (dval d == nth_term (dCmp s e <=? 0) (dval s) (dval st) k)%Q.
Proof.
  intros Hst. set (asc := dCmp s e <=? 0).
  assert (Hdist : (distance asc s e == Qabs (dval e - dval s))%Q).
  { pose proof (Qabs_pos (dval e - dval s)) as Hp. pose proof (Qabs_neg (dval e - dval s)) as Hn.
    revert Hp Hn. generalize (Qabs (dval e - dval s)). intros a Hp Hn. unfold distance, asc.
    destruct (dCmp_cases s e) as [[-> H]|[[-> H]|[-> H]]]; cbn.
    - rewrite Hp by lra. reflexivity.
    - rewrite Hp by lra. reflexivity.
    - rewrite Hn by lra. ring. }
  set (q := (Qabs (dval e - dval s) / dval st)%Q).
  assert (Hq : (q * dval st == Qabs (dval e - dval s))%Q) by (unfold q; field; lra).
  assert (Hq0 : (0 <= q)%Q).
  { unfold q. apply Qle_shift_div_l; [done|]. pose proof (Qabs_nonneg (dval e - dval s)). lra. }
  assert (Hf0 : 0 <= Qfloor q) by (rewrite Zle_Qle; apply Qle_trans with (inject_Z (Qfloor 0)); [done|]; rewrite <- Zle_Qle; by apply Qfloor_resp_le).
  pose proof (Qfloor_le q) as Hlo. pose proof (Qlt_floor q) as Hhi.
  destruct (seq_loop_spec asc e st (Z.to_nat (Qfloor q)) s (seq_fuel s e st) Hst) as (ds & Hl & Hlen & Hds).
  - rewrite Z2Nat.id by done. rewrite Hdist, <- Hq. split; [apply Qmult_le_compat_r; [done|lra]|by apply Qmult_lt_compat_r].
  - unfold seq_fuel. fold q. lia.
  - exists ds. split_and!; [done|rewrite Hlen; lia|done].
Qed.

(** [seq] returns the arithmetic progression from its start towards its end, in
    steps of one or of the size of the step given, as far as the end allows;
    it always terminates. *)
Theorem seq_progression (s e : Decimal) (step : option BlValue) (st : Decimal) :
  step = None /\ st = dNewFromInt 1 \/ (exists d, step = Some (BlNumber d) /\ dIsZero d = false /\ st = dAbs d) ->
  exists ds, seqFn (BlNumber s) (BlNumber e) step = Ok (BlList (map BlNumber ds)) /\
    Z.of_nat (length ds) = Qfloor (Qabs (dval e - dval s) / dval st) + 1 /\
    forall k d, ds !! k = Some d -> (dval d == nth_term (dCmp s e <=? 0) (dval s) (dval st) k)%Q.
Proof.
  intros Hstep. assert (Hst : (0 < dval st)%Q).
  { destruct Hstep as [[_ ->]|(d & _ & Hz & ->)].
    - rewrite dval_NewFromInt. reflexivity.
    - rewrite dval_Abs. assert (Hne : ~ (dval d == 0)%Q) by (intros H; apply dIsZero_true in H; congruence).
      destruct (Qlt_le_dec (dval d) 0) as [Hlt|Hle]; [rewrite Qabs_neg by lra; lra|].
      rewrite Qabs_pos by done. apply Qle_lteq in Hle as [H|H]; [done|]. exfalso. apply Hne. by symmetry. }
  destruct (seq_run s e st Hst) as (ds & Hl & Hlen & Hds). exists ds. split_and!; [|done|done].
  destruct Hstep as [[-> ->]|(d & -> & Hz & ->)]; cbn [seqFn as_number result_bind].
  - by rewrite Hl.
  - by rewrite Hz; cbn [result_bind]; rewrite Hl.
Qed.

End Sequences.

(** ** Distinct values and positional edits *)

Section Edits.
Context {DO : DecimalOps}.

Definition same (a b : BlValue) : bool := eqTrue (Equal a b).

Lemma containsValue_spec items e : containsValue items e = true <-> exists x, x ∈ items /\ same x e = true.
Proof.
  unfold containsValue. rewrite existsb_exists. by setoid_rewrite list_elem_of_In.
Qed.

(** What [distinct] has kept so far of the items seen. *)
Record kept (seen out : list BlValue) : Prop := {
  kept_order : out `sublist_of` seen;
  kept_apart i j a b : (i < j)%nat -> out !! i = Some a -> out !! j = Some b -> same a b = false;
  kept_all e : e ∈ seen -> e ∈ out \/ exists x, x ∈ out /\ same x e = true
}.

Lemma add_distinct_kept seen out e : kept seen out -> kept (seen ++ [e]) (add_distinct out e).
Proof.
  intros [Ho Ha Hall]. unfold add_distinct. destruct (containsValue out e) eqn:Hc.
  - split; [by apply sublist_inserts_r|done|]. intros x Hx. apply elem_of_app in Hx as [Hx|Hx]; [by apply Hall|].
    apply list_elem_of_singleton in Hx as ->. right. by apply containsValue_spec.
  - split.
    + by apply sublist_app.
    + intros i j a b Hij Hi Hj. apply lookup_app_Some in Hj as [Hj|[Hlen Hj]].
      * rewrite lookup_app_l in Hi by (apply lookup_lt_Some in Hj; lia). by eapply Ha.
      * destruct (j - length out)%nat eqn:E; [|done]. injection Hj as <-.
        rewrite lookup_app_l in Hi by lia. destruct (same a e) eqn:Hs; [|done]. exfalso.
        assert (containsValue out e = true); [|congruence]. apply containsValue_spec. exists a.
        split; [by eapply list_elem_of_lookup_2|done].
    + intros x Hx. apply elem_of_app in Hx as [Hx|Hx]; [|left; set_solver].
      destruct (Hall x Hx) as [H|(y & Hy & Hs)]; [left; set_solver|right; exists y; split; [set_solver|done]].
Qed.

Lemma distinct_kept seen out items :
  kept seen out -> kept (seen ++ items) (fold_left add_distinct items out).
Proof.
  revert seen out. induction items as [|e items IH]; intros seen out H; simpl; [by rewrite app_nil_r|].
  replace (seen ++ e :: items) with ((seen ++ [e]) ++ items) by (by rewrite <- app_assoc).
  by apply IH, add_distinct_kept.
Qed.

(** [distinct] keeps first occurrences: the result is a sublist of the items in
    their order, no element equals an earlier one, and every item is kept or
    equals one that was. *)
Theorem distinct_first_occurrences (items : list BlValue) :
  exists out, distinctFn items = BlList out /\ kept items out.
Proof.
  exists (fold_left add_distinct items []). split; [done|]. apply (distinct_kept [] [] items).
  split; [done|by intros i j a b _ ?|]. intros e He. by apply elem_of_nil in He.
Qed.

(** A position a library call can be given: an integer that fits its machine
    width. *)
Definition at_position (v : BlValue) (p : Z) : Prop := exists d, v = BlNumber d /\ dIntPart d = p.

(** Inserting a value before a position and removing it again gives the list
    back; the value inserted is the one found at the position; replacing it by
    another is inserting the other. *)
Theorem insert_remove_roundtrip (items : list BlValue) (pos v : BlValue) (p : Z) :
  at_position pos p -> 1 <= p <= Z.of_nat (length items) + 1 -> Z.of_nat (length items) + 1 < 2 ^ 63 ->
  (forall sub, v <> BlList sub) ->
  exists out, insertBeforeFn (BlList items) pos v = Ok (BlList out) /\
    removeFn (BlList out) pos = Ok (BlList items) /\
    (forall len, at_position len 1 -> sublistFn (BlList out) pos (Some len) = Ok (BlList [v])) /\
    forall w, (forall sub, w <> BlList sub) ->
      listReplaceFn (BlList out) pos w = insertBeforeFn (BlList items) pos w.
Proof.
  intros (d & -> & Hd) Hp Hlen Hv.
  assert (Hins : forall w, (forall sub, w <> BlList sub) -> insertBeforeFn (BlList items) (BlNumber d) w =
            Ok (BlList (take (Z.to_nat (p - 1)) items ++ w :: drop (Z.to_nat (p - 1)) items))).
  { intros w Hw. unfold insertBeforeFn, insertAt. simpl. rewrite Hd, Z.add_0_r, !int64_id by (rewrite ?int64_id; lia).
    replace ((p - 1 <? 0) || (Z.of_nat (length items) <? p - 1)) with false by lia.
    destruct w; try done. by destruct (Hw items0). }
  set (out := take (Z.to_nat (p - 1)) items ++ v :: drop (Z.to_nat (p - 1)) items).
  assert (Hl : Z.of_nat (length out) = Z.of_nat (length items) + 1).
  { unfold out. rewrite length_app. cbn [length]. rewrite length_take, length_drop. lia. }
  assert (Ht : length (take (Z.to_nat (p - 1)) items) = Z.to_nat (p - 1)) by (rewrite length_take; lia).
  exists out. split_and!; [by apply Hins| | |].
  - unfold removeFn. cbn [as_list as_number result_bind]. rewrite Hd, Hl.
    replace ((p <? 1) || (Z.of_nat (length items) + 1 <? p)) with false by lia. unfold out.
    rewrite take_app_le, take_ge by (rewrite Ht; lia).
    replace (Z.to_nat p) with (length (take (Z.to_nat (p - 1)) items) + 1)%nat by (rewrite Ht; lia).
    rewrite drop_app_add. cbn [drop]. by rewrite drop_0, take_drop.
  - intros len (d1 & -> & H1). unfold sublistFn. cbn [as_list as_number result_bind]. rewrite Hd, Hl, H1.
    replace (p <? 0) with false by lia. replace (p <? 1) with false by lia.
    replace (Z.of_nat (length items) + 1 <? p) with false by lia. cbn [result_bind]. rewrite int64_id by lia.
    replace (Z.of_nat (length items) + 1 <? p - 1 + 1) with false by lia. cbn [result_bind].
    replace (p - 1 + 1 <? p - 1) with false by lia.
    replace (Z.to_nat (p - 1 + 1 - (p - 1))) with 1%nat by lia.
    unfold out. by rewrite drop_app_length'.
  - intros w Hw. rewrite (Hins w Hw). unfold listReplaceFn. cbn [as_list as_number result_bind]. rewrite Hd, Hl.
    replace ((p <? 1) || (Z.of_nat (length items) + 1 <? p)) with false by lia. unfold out.
    rewrite insert_app_r_alt by lia. by rewrite Ht, Nat.sub_diag.
Qed.

End Edits.

(** ** Concrete instances *)

Definition qints (l : list Z) : list BlValue := map (fun z => BlNumber (DO := QDecimal) (inject_Z z)) l.
Definition qz (z : Z) : @Decimal QDecimal := inject_Z z.

Lemma sort_stable_correct_witness :
  exists out, sortFn (DO := QDecimal) false (BlList (qints [3; 1; 2])) (Some (BlString "asc")) = Ok (BlList out) /\
    out ≡ₚ qints [3; 1; 2] /\ StronglySorted (in_order false) out.
Proof.
  destruct (sort_stable_correct (DO := QDecimal) false false (qints [3; 1; 2])) as (_ & _ & H).
  destruct (H (BlList (qints [1; 2; 3]))) as (out & E & Hp & Hs & _); [vm_eq|].
  exists out. rewrite <- E. split; [vm_eq|auto].
Defined.

Lemma extremum_correct_witness :
  first_extreme (DO := QDecimal) true (qints [3; 1; 2; 1]) (BlNumber (DO := QDecimal) (qz 1)).
Proof.
  exact (proj2 (extremum_correct (DO := QDecimal) (BlNull :: qints [3; 1; 2; 1]) true) _ eq_refl).
Defined.

Lemma quantifiers_refine_kleene_witness :
  allFn (DO := QDecimal) [BlBoolean true; BlNull] = BlNull /\ anyFn (DO := QDecimal) [BlBoolean true; BlNull] = BlBoolean true.
Proof.
  destruct (quantifiers_refine_kleene (DO := QDecimal) [BlBoolean true; BlNull]) as (H1 & H2 & _).
  - constructor; [right; by exists true|]. constructor; [by left|constructor].
  - rewrite H1, H2. split; reflexivity.
Defined.

Lemma seq_progression_witness :
  exists ds, seqFn (DO := QDecimal) (BlNumber (qz 1)) (BlNumber (qz 6)) (Some (BlNumber (qz (-2))))
    = Ok (BlList (map BlNumber ds)) /\ Z.of_nat (length ds) = 3.
Proof.
  destruct (seq_progression (DO := QDecimal) (qz 1) (qz 6) (Some (BlNumber (qz (-2)))) (dAbs (qz (-2))))
    as (ds & H & Hl & _).
  - right. exists (qz (-2)). split_and!; reflexivity.
  - exists ds. split; [exact H|]. rewrite Hl. reflexivity.
Defined.

Lemma insert_remove_roundtrip_witness :
  exists out, insertBeforeFn (DO := QDecimal) (BlList (qints [10; 20])) (BlNumber (qz 2)) (BlString "x") = Ok (BlList out) /\
    removeFn (DO := QDecimal) (BlList out) (BlNumber (qz 2)) = Ok (BlList (qints [10; 20])).
Proof.
  destruct (insert_remove_roundtrip (DO := QDecimal) (qints [10; 20]) (BlNumber (qz 2)) (BlString "x") 2)
    as (out & H1 & H2 & _); [by exists (qz 2)|simpl; lia|simpl; lia|done|]. by exists out.
Defined.

(** ** A length that overflows *)

(** [sublistFn] adds the length to the start in machine integers: for the
    largest length the end wraps round below the start and the result is empty,
    although a shorter length past the end of the list gives the whole tail. *)
Theorem sublist_length_overflow :
  sublistFn (BlList (qints [10; 20; 30])) (BlNumber (qz 2)) (Some (BlNumber (qz 100))) = Ok (BlList (qints [20; 30])) /\
  sublistFn (BlList (qints [10; 20; 30])) (BlNumber (qz 2)) (Some (BlNumber (qz (2 ^ 63 - 1)))) = Ok (BlList []).
Proof. split; vm_eq. Qed.
