(* ===== verification/Numbers.v ===== *)
(** * The number library

    Models [core/number.go]: the constructors of numbers, the arithmetic
    operators and the numeric built-in functions, with the wrappers of
    [core/value.go] that assert their argument types.  Text conversion,
    [PowWithPrecision] and the conversions to and from [float64] of the decimal
    package are parameters ([DecimalText]), as are the [math] and [math/big]
    functions whose results are rounded ([GoMath]). *)

From Stdlib Require Import SpecFloat Qabs Qpower Lqa.
From S2P Require Import Prelude Decimal GoText GoTime Values Lists.
#[global] Open Scope Z_scope.

(** ** Parameters *)

Class DecimalText (DO : DecimalOps) : Type := {
  dNewFromString : string -> option Decimal;
  dString : Decimal -> string;
  dPowWithPrecision : Decimal -> Decimal -> Z -> option Decimal;
  dFloat64 : Decimal -> spec_float
}.

(** An unsigned decimal text: digits, and digits after a point. *)
Definition is_digit (c : Ascii.ascii) : bool :=
  let n := Z.of_nat (Ascii.nat_of_ascii c) in (48 <=? n) && (n <=? 57).

Fixpoint all_digits (s : string) : bool :=
  match s with
  | EmptyString => true
  | String c s' => is_digit c && all_digits s'
  end.

(** [\d+(\.\d+)?], with [int] set once a digit was read *)
Fixpoint is_decimal_from (int : bool) (s : string) : bool :=
  match s with
  | EmptyString => int
  | String c s' =>
      if is_digit c then is_decimal_from true s'
      else int && is_char c 46 && negb (String.eqb s' "") && all_digits s'
  end.
Definition is_decimal : string -> bool := is_decimal_from false.

(** What the package documents of its text form: plain notation, and reading it
    back gives the number. *)
Class DecimalTextLaws (DO : DecimalOps) (DT : DecimalText DO) : Prop := {
  dString_plain d : (0 <= dval d)%Q -> is_decimal (dString d) = true;
  dString_negative d : (dval d < 0)%Q -> dString d = "-" +:+ dString (dNeg d);
  dString_read d : exists d', dNewFromString (dString d) = Some d' /\ (dval d' == dval d)%Q;
  dNewFromString_zero : exists d, dNewFromString "0" = Some d /\ (dval d == 0)%Q
}.

Class GoMath : Type := {
  mathExp : spec_float -> spec_float;
  mathLog : spec_float -> spec_float;
  mathSqrt : spec_float -> spec_float;
  bigSqrtText : string -> Z -> option string     (* big.ParseFloat, Sqrt, Text('f', n) *)
}.

(** [/] and the comparisons of [float64] *)
Definition fdiv (a b : spec_float) : spec_float := SFdiv 53 1024 a b.
Definition fmul (a b : spec_float) : spec_float := SFmul 53 1024 a b.
Definition fadd (a b : spec_float) : spec_float := SFadd 53 1024 a b.
Definition fleb (a b : spec_float) : bool := SFleb a b.
Definition feqb (a b : spec_float) : bool := SFeqb a b.
(** [float64(z)] *)
Definition float_of_int (z : Z) : spec_float := binary_normalize 53 1024 z 0 false.

(** ** Argument types ([value.go]) *)

Section Typed.
Context {DO : DecimalOps} {A B C : Type}.

(** A type assertion is a partial function from values. *)
Definition typed1err (pa : BlValue -> option A) (f : A -> result BlValue) (a : BlValue) : result BlValue :=
  match pa a with
  | None => Err (argTypeError a)
  | Some x => f x
  end.

Definition typed2err (pa : BlValue -> option A) (pb : BlValue -> option B) (f : A -> B -> result BlValue)
    (a b : BlValue) : result BlValue :=
  match pa a with
  | None => Err (argTypeError a)
  | Some x =>
      match pb b with
      | None => Err (argTypeError b)
      | Some y => f x y
      end
  end.

Definition typed1 (pa : BlValue -> option A) (f : A -> BlValue) (a : BlValue) : result BlValue :=
  match pa a with
  | None => Err (argTypeError a)
  | Some x => Ok (f x)
  end.

Definition typed2 (pa : BlValue -> option A) (pb : BlValue -> option B) (f : A -> B -> BlValue)
    (a b : BlValue) : result BlValue :=
  match pa a with
  | None => Err (argTypeError a)
  | Some x =>
      match pb b with
      | None => Err (argTypeError b)
      | Some y => Ok (f x y)
      end
  end.

Definition typed3 (pa : BlValue -> option A) (pb : BlValue -> option B) (pc : BlValue -> option C)
    (f : A -> B -> C -> BlValue) (a b c : BlValue) : result BlValue :=
  match pa a with
  | None => Err (argTypeError a)
  | Some x =>
      match pb b with
      | None => Err (argTypeError b)
      | Some y =>
          match pc c with
          | None => Err (argTypeError c)
          | Some z => Ok (f x y z)
          end
      end
  end.
End Typed.

Section Numbers.
Context {DO : DecimalOps} {DT : DecimalText DO} {GM : GoMath}.

(** The trailing arguments of a variadic function. *)
Definition arg (args : list BlValue) (i : nat) : BlValue := default BlNull (args !! i).

(** ** Construction *)

(** The characters [numericStrip] keeps. *)
Definition numeric_char (c : Ascii.ascii) : bool :=
  let n := Z.of_nat (Ascii.nat_of_ascii c) in
  ((48 <=? n) && (n <=? 57)) || (n =? 101) || (n =? 69) || (n =? 43) || (n =? 45) || (n =? 46).

Fixpoint numericStrip (s : string) : string :=
  match s with
  | EmptyString => EmptyString
  | String c s' => if numeric_char c then String c (numericStrip s') else numericStrip s'
  end.

Definition numberFromString (s : string) : result BlValue :=
  let cleaned := numericStrip (TrimSpace s) in
  if String.eqb cleaned "" then Err (TypeError "Number" ("cannot parse " +:+ s))
  else match dNewFromString cleaned with
       | None => Err (TypeError "Number" ("cannot parse " +:+ s))
       | Some d => Ok (BlNumber d)
       end.

(** [Number], by the kind of host value: the integer types are widened to
    [int64] and [uint64], [float32] to [float64]. *)
Inductive NumberInput : Type :=
| NumInt (z : Z)
| NumUint (z : Z)
| NumFloat (f : spec_float)
| NumBool (b : bool)
| NumDecimal (d : Decimal)
| NumString (s : string).

Definition Number (v : NumberInput) : result BlValue :=
  match v with
  | NumInt z => Ok (BlNumber (dNewFromInt z))
  | NumUint z => Ok (BlNumber (dNewFromUint64 z))
  | NumFloat f => numberFromFloat f
  | NumBool b => Ok (BlNumber (dNewFromInt (if b then 1 else 0)))
  | NumDecimal d => Ok (BlNumber d)
  | NumString s => numberFromString s
  end.

(** ** Operators *)

Definition addNumbers (a b : Decimal) : BlValue := num (dAdd a b).
Definition subNumbers (a b : Decimal) : BlValue := num (dSub a b).
Definition mulNumbers (a b : Decimal) : BlValue := num (dMul a b).

Definition divNumbers (a b : Decimal) : BlValue :=
  if dIsZero b then BlNull
  else num (dTruncate (dDivRound a b (numericPrecision + 2)) numericPrecision).

Definition powNumber (base exp : Decimal) : BlValue :=
  if (dSign base <? 0) && negb (dEqual exp (dTruncate exp 0)) then BlNull
  else if dIsZero base && (dSign exp <? 0) then BlNull
  else match dPowWithPrecision base exp (numericPrecision + 6) with
       | None => BlNull
       | Some res =>
           if dEqual exp (dTruncate exp 0) then num (dTruncate res numericPrecision)
           else num (dRound res (numericPrecision - 2))
       end.

Definition negNumber (n : Decimal) : BlValue := num (dNeg n).

(** ** Rounding *)

(** [int32(scale.d.IntPart())] *)
Definition scale_of (scale : Decimal) : Z := int32 (dIntPart scale).

Definition roundHalfUpFn (n scale : Decimal) : BlValue := num (dRound n (scale_of scale)).
Definition roundFn (n scale : Decimal) : BlValue := roundHalfUpFn n scale.
Definition roundUpFn (n scale : Decimal) : BlValue := num (dRoundUp n (scale_of scale)).
Definition roundDownFn (n scale : Decimal) : BlValue := num (dRoundDown n (scale_of scale)).
Definition roundHalfEvenFn (n scale : Decimal) : BlValue := num (dRoundBank n (scale_of scale)).

Definition roundHalfDownFn (n scale : Decimal) : BlValue :=
  let s := scale_of scale in
  let truncated := dTruncate n s in
  let remainder := dAbs (dSub n truncated) in
  let half := dNew 5 (int32 (- s - 1)) in
  if 0 <? dCmp remainder half then num (dRoundUp n s) else num truncated.

(** ** Library functions *)

Definition absFn (n : Decimal) : BlValue := num (dAbs n).

Definition moduloFn (a b : Decimal) : BlValue :=
  if dIsZero b then BlNull
  else
    let m := dMod a b in
    num (if negb (dIsZero m) && negb (dSign m =? dSign b) then dAdd m b else m).

(** [strings.TrimRight] with one character *)
Fixpoint trim_right_char (c : Ascii.ascii) (s : string) : string :=
  match s with
  | EmptyString => EmptyString
  | String d s' =>
      match trim_right_char c s' with
      | EmptyString => if Ascii.eqb d c then EmptyString else String d EmptyString
      | t => String d t
      end
  end.

Definition trimTrailingZeros (s : string) : string :=
  if negb (Contains s ".") then s
  else trim_right_char (Ascii.ascii_of_nat 46) (trim_right_char (Ascii.ascii_of_nat 48) s).

Definition decimalSqrt (d : Decimal) : Decimal :=
  match bigSqrtText (dString d) numericPrecision with
  | None => dNewFromFloat (mathSqrt (dFloat64 d))
  | Some text =>
      match dNewFromString (trimTrailingZeros text) with
      | None => dNewFromFloat (mathSqrt (dFloat64 d))
      | Some out => out
      end
  end.

Definition sqrtFn (n : Decimal) : BlValue :=
  if dSign n <? 0 then BlNull
  else if dIsZero n then num (dNewFromInt 0)
  else num (decimalSqrt n).

Definition expFn (n : Decimal) : BlValue := num (dNewFromFloat (mathExp (dFloat64 n))).

Definition lnFn (n : Decimal) : BlValue :=
  if dSign n <=? 0 then BlNull else num (dNewFromFloat (mathLog (dFloat64 n))).

Definition oddFn (n : Decimal) : BlValue :=
  if negb (dEqual n (dTruncate n 0)) then BlBoolean false
  else BlBoolean (dEqual (dAbs (dMod n (dNewFromInt 2))) (dNewFromInt 1)).

Definition evenFn (n : Decimal) : BlValue :=
  if negb (dEqual n (dTruncate n 0)) then BlBoolean false
  else BlBoolean (dIsZero (dMod n (dNewFromInt 2))).

Definition isPositiveFn (n : Decimal) : BlValue := BlBoolean (0 <? dSign n).
Definition isNegativeFn (n : Decimal) : BlValue := BlBoolean (dSign n <? 0).
Definition isZeroFn (n : Decimal) : BlValue := BlBoolean (dIsZero n).

Definition clampFn (n lo hi : Decimal) : BlValue :=
  if dGreaterThan lo hi then BlNull
  else if dLessThan n lo then num lo
  else if dGreaterThan n hi then num hi
  else num n.

(** ** Variadic functions *)

Definition optScale (args : list BlValue) : result (Decimal * Z) :=
  match arg args 0 with
  | BlNumber n =>
      if (1 <? length args)%nat then
        match arg args 1 with
        | BlNumber s => Ok (n, int32 (dIntPart s))
        | _ => Err (argTypeError (arg args 1))
        end
      else Ok (n, 0)
  | _ => Err (argTypeError (arg args 0))
  end.

Definition floorFn (args : list BlValue) : result BlValue :=
  let! ns := optScale args in Ok (num (dRoundFloor (fst ns) (snd ns))).
Definition ceilingFn (args : list BlValue) : result BlValue :=
  let! ns := optScale args in Ok (num (dRoundCeil (fst ns) (snd ns))).

Definition logFn (args : list BlValue) : result BlValue :=
  match arg args 0 with
  | BlNumber n =>
      if dSign n <=? 0 then Ok BlNull
      else
        let log_base base := Ok (num (dNewFromFloat (fdiv (mathLog (dFloat64 n)) (mathLog base)))) in
        if (1 <? length args)%nat then
          match arg args 1 with
          | BlNumber b =>
              let bf := dFloat64 b in
              if fleb bf (float_of_int 0) || feqb bf (float_of_int 1) then Ok BlNull else log_base bf
          | _ => Err (argTypeError (arg args 1))
          end
        else log_base (float_of_int 10)
  | _ => Err (argTypeError (arg args 0))
  end.

(** [strings.ReplaceAll] with an empty [old] puts [new] around every character. *)
Fixpoint interleave (new s : string) : string :=
  match s with
  | EmptyString => new
  | String c s' => new +:+ String c (interleave new s')
  end.
Definition replace_all (s old new : string) : string :=
  if String.eqb old "" then interleave new s else ReplaceAll s old new.

Definition numberFn (args : list BlValue) : result BlValue :=
  match arg args 0 with
  | BlString s =>
      if (length args =? 1)%nat then
        match numberFromString s with Ok n => Ok n | Err _ => Ok BlNull end
      else
        match arg args 1 with
        | BlString groupSep =>
            match arg args 2 with
            | BlString decSep =>
                let cleaned := replace_all s groupSep "" in
                let cleaned := if String.eqb decSep "." then cleaned else replace_all cleaned decSep "." in
                match dNewFromString (TrimSpace cleaned) with
                | None => Ok BlNull
                | Some d => Ok (num d)
                end
            | _ => Err (argTypeError (arg args 2))
            end
        | _ => Err (argTypeError (arg args 1))
        end
  | _ => Err (argTypeError (arg args 0))
  end.

(** ** Registration *)

(** A registered function: name, accepted arities (none listed: any number of
    arguments), implementation.  The expression engine checks the arity before it
    calls. *)
Record Builtin : Type := mkBuiltin {
  fn_name : string;
  fn_arities : list nat;
  fn_impl : list BlValue -> result BlValue
}.

Definition fn1 (f : BlValue -> result BlValue) (args : list BlValue) : result BlValue := f (arg args 0).
Definition fn2 (f : BlValue -> BlValue -> result BlValue) (args : list BlValue) : result BlValue :=
  f (arg args 0) (arg args 1).
Definition fn3 (f : BlValue -> BlValue -> BlValue -> result BlValue) (args : list BlValue) : result BlValue :=
  f (arg args 0) (arg args 1) (arg args 2).

Definition numberOptions : list Builtin :=
  [mkBuiltin "floor" [1; 2] floorFn;
   mkBuiltin "ceiling" [1; 2] ceilingFn;
   mkBuiltin "modulo" [2] (fn2 (typed2 get_number get_number moduloFn));
   mkBuiltin "sqrt" [1] (fn1 (typed1 get_number sqrtFn));
   mkBuiltin "exp" [1] (fn1 (typed1 get_number expFn));
   mkBuiltin "ln" [1] (fn1 (typed1 get_number lnFn));
   mkBuiltin "log" [1; 2] logFn;
   mkBuiltin "odd" [1] (fn1 (typed1 get_number oddFn));
   mkBuiltin "even" [1] (fn1 (typed1 get_number evenFn));
   mkBuiltin "isPositive" [1] (fn1 (typed1 get_number isPositiveFn));
   mkBuiltin "isZero" [1] (fn1 (typed1 get_number isZeroFn));
   mkBuiltin "clamp" [3] (fn3 (typed3 get_number get_number get_number clampFn));
   mkBuiltin "number" [1; 3] numberFn]%nat.

End Numbers.
