(* ===== verification/NumberLaws.v ===== *)
(** * What the number library computes

    The operators and functions of [Numbers] against rational arithmetic:
    division and its precision, floor modulo, the rounding modes, parity,
    clamping; and the results the documentation promises to be null. *)

From Stdlib Require Import SpecFloat Qabs Qpower Lqa.
From S2P Require Import Prelude Decimal GoText GoTime Values Lists Numbers.
#[global] Open Scope Z_scope.

(** ** Rounding rationals *)

#[global] Instance inject_Z_proper : Proper (eq ==> Qeq) inject_Z.
Proof. by intros z ? <-. Qed.

Lemma pow10_pos p : (0 < pow10 p)%Q.
Proof. apply Qpower_0_lt. reflexivity. Qed.

Lemma pow10_nonzero p : ~ (pow10 p == 0)%Q.
Proof. pose proof (pow10_pos p). lra. Qed.

Lemma Qtrunc_floor q : (0 <= q)%Q -> Qtrunc q = Qfloor q.
Proof.
  intros H. destruct q as [n d]. unfold Qtrunc, Qfloor, Qle in *. simpl in *. apply Z.quot_div_nonneg; lia.
Qed.

Lemma Qtrunc_opp q : Qtrunc (- q) = - Qtrunc q.
Proof. destruct q as [n d]. unfold Qtrunc. simpl. apply Z.quot_opp_l. lia. Qed.

#[global] Instance Qtrunc_proper : Proper (Qeq ==> eq) Qtrunc.
Proof.
  intros q r H. destruct (Qlt_le_dec q 0) as [Hq|Hq].
  - assert (E : forall x, Qtrunc x = - Qtrunc (- x)) by (intros x; rewrite Qtrunc_opp; lia).
    rewrite (E q), (E r). apply (f_equal Z.opp). rewrite !Qtrunc_floor by lra. by rewrite H.
  - rewrite !Qtrunc_floor by lra. by rewrite H.
Qed.

Lemma Qfloor_bounds q : (inject_Z (Qfloor q) <= q)%Q /\ (q < inject_Z (Qfloor q) + 1)%Q.
Proof.
  split; [apply Qfloor_le|]. pose proof (Qlt_floor q) as H. rewrite inject_Z_plus in H. exact H.
Qed.

(** Truncation moves toward zero by less than one. *)
Lemma Qtrunc_bounds q :
  (Qabs (q - inject_Z (Qtrunc q)) < 1)%Q /\ (Qabs (inject_Z (Qtrunc q)) <= Qabs q)%Q /\
  (0 <= q * inject_Z (Qtrunc q))%Q.
Proof.
  assert (Hpos : forall r, (0 <= r)%Q -> (0 <= r - inject_Z (Qtrunc r) < 1)%Q /\ (0 <= inject_Z (Qtrunc r))%Q).
  { intros r Hr. rewrite Qtrunc_floor by done. destruct (Qfloor_bounds r). split; [lra|].
    change 0%Q with (inject_Z 0). rewrite <- Zle_Qle. change 0 with (Qfloor 0). by apply Qfloor_resp_le. }
  destruct (Qlt_le_dec q 0) as [H|H].
  - destruct (Hpos (- q)%Q ltac:(lra)) as [H1 H2]. rewrite Qtrunc_opp, inject_Z_opp in H1, H2.
    rewrite (Qabs_neg (q - _)), (Qabs_neg q), (Qabs_neg (inject_Z _)) by lra.
    split_and!; [lra|lra|]. assert (0 <= (- q) * (- inject_Z (Qtrunc q)))%Q by (apply Qmult_le_0_compat; lra). lra.
  - destruct (Hpos q H) as [H1 H2]. rewrite (Qabs_pos (q - _)), (Qabs_pos q), (Qabs_pos (inject_Z _)) by lra.
    split_and!; [lra|lra|]. apply Qmult_le_0_compat; lra.
Qed.

Lemma Qround_half_up_error q : (Qabs (inject_Z (Qround_half_up q) - q) <= 1 # 2)%Q.
Proof.
  unfold Qround_half_up. destruct (Qle_bool 0 q).
  - destruct (Qfloor_bounds (q + (1 # 2))). apply Qabs_Qle_condition. lra.
  - pose proof (Qle_ceiling (q - (1 # 2))) as H1. pose proof (Qceiling_lt (q - (1 # 2))) as H2.
    replace (Qceiling (q - (1 # 2)) - 1)%Z with (Qceiling (q - (1 # 2)) + -1)%Z in H2 by lia.
    rewrite inject_Z_plus in H2. change (inject_Z (-1)) with (-1)%Q in H2. apply Qabs_Qle_condition. lra.
Qed.

#[global] Instance Qround_half_up_proper : Proper (Qeq ==> eq) Qround_half_up.
Proof.
  intros q r H. unfold Qround_half_up. assert (E : Qle_bool 0 q = Qle_bool 0 r) by (by rewrite H).
  rewrite E. destruct (Qle_bool 0 r); by rewrite H.
Qed.

(** Scaled rounding: the error of the rounding, scaled. *)
Lemma Qscaled_diff f q p : (Qscaled f q p - q == (inject_Z (f (q * pow10 p)%Q) - q * pow10 p) / pow10 p)%Q.
Proof. unfold Qscaled. field. apply pow10_nonzero. Qed.

Lemma Qabs_div_pow10 x p : (Qabs (x / pow10 p) == Qabs x / pow10 p)%Q.
Proof.
  unfold Qdiv. rewrite Qabs_Qmult. rewrite (Qabs_pos (/ pow10 p)); [reflexivity|].
  apply Qlt_le_weak, Qinv_lt_0_compat, pow10_pos.
Qed.

Lemma Qdiv_lt_compat x y p : (x < y)%Q -> (x / pow10 p < y / pow10 p)%Q.
Proof. intros H. apply Qmult_lt_compat_r; [apply Qinv_lt_0_compat, pow10_pos|done]. Qed.
Lemma Qdiv_le_compat x y p : (x <= y)%Q -> (x / pow10 p <= y / pow10 p)%Q.
Proof. intros H. apply Qmult_le_compat_r; [done|apply Qlt_le_weak, Qinv_lt_0_compat, pow10_pos]. Qed.

Lemma Qscaled_trunc_error q p : (Qabs (q - Qscaled Qtrunc q p) < 1 / pow10 p)%Q.
Proof.
  rewrite Qabs_Qminus, Qscaled_diff, Qabs_div_pow10, Qabs_Qminus. apply Qdiv_lt_compat. apply Qtrunc_bounds.
Qed.

Lemma Qscaled_half_up_error q p : (Qabs (Qscaled Qround_half_up q p - q) <= (1 # 2) / pow10 p)%Q.
Proof. rewrite Qscaled_diff, Qabs_div_pow10. apply Qdiv_le_compat, Qround_half_up_error. Qed.

(** Rounding leaves multiples of the unit alone. *)
Lemma Qround_exact z : Qround_half_up (inject_Z z) = z /\ Qtrunc (inject_Z z) = z.
Proof.
  split; [|unfold Qtrunc; simpl; apply Z.quot_1_r].
  pose proof (Qround_half_up_error (inject_Z z)) as H. apply Qabs_Qle_condition in H as [H1 H2].
  set (w := Qround_half_up (inject_Z z)) in *.
  assert (inject_Z w < inject_Z (z + 1))%Q as A by (rewrite inject_Z_plus; change (inject_Z 1) with 1%Q; lra).
  assert (inject_Z (z - 1) < inject_Z w)%Q as B.
  { replace (z - 1) with (z + -1) by lia. rewrite inject_Z_plus. change (inject_Z (-1)) with (-1)%Q. lra. }
  rewrite <- Zlt_Qlt in A, B. lia.
Qed.

Lemma pow10_mult a b : (pow10 (a + b) == pow10 a * pow10 b)%Q.
Proof. unfold pow10. apply Qpower_plus. intros H. discriminate H. Qed.

Lemma pow10_Z p : 0 <= p -> (pow10 p == inject_Z (10 ^ p))%Q.
Proof. intros Hp. unfold pow10. by rewrite <- Zpower_Qpower. Qed.

(** *** Floor, truncation and the half *)

Lemma Qfloor_unique q z : (inject_Z z <= q)%Q -> (q < inject_Z z + 1)%Q -> Qfloor q = z.
Proof.
  intros H1 H2. destruct (Qfloor_bounds q) as [H3 H4]. change 1%Q with (inject_Z 1) in H2, H4.
  rewrite <- inject_Z_plus in H2, H4. set (f := Qfloor q) in *.
  assert (inject_Z z < inject_Z (f + 1))%Q as A by lra. assert (inject_Z f < inject_Z (z + 1))%Q as B by lra.
  rewrite <- Zlt_Qlt in A, B. lia.
Qed.

Lemma Qceiling_unique q z : (inject_Z z - 1 < q)%Q -> (q <= inject_Z z)%Q -> Qceiling q = z.
Proof. intros H1 H2. unfold Qceiling. rewrite (Qfloor_unique _ (- z)); rewrite ?inject_Z_opp; lia || lra. Qed.

(** The floor is the truncation, less one below zero between integers. *)
Lemma Qfloor_trunc q : Qfloor q = if Qle_bool (inject_Z (Qtrunc q)) q then Qtrunc q else Qtrunc q - 1.
Proof.
  destruct (Qtrunc_bounds q) as (H & _ & _). apply Qabs_Qlt_condition in H as [H1 H2].
  destruct (Qle_bool (inject_Z (Qtrunc q)) q) eqn:E.
  - apply Qle_bool_iff in E. apply Qfloor_unique; lra.
  - assert (Hlt : (q < inject_Z (Qtrunc q))%Q).
    { apply Qnot_le_lt. intros Hle. apply Qle_bool_iff in Hle. congruence. }
    replace (Qtrunc q - 1) with (Qtrunc q + -1) by lia.
    apply Qfloor_unique; rewrite inject_Z_plus; change (inject_Z (-1)) with (-1)%Q; lra.
Qed.

(** To the nearest integer, a half toward zero. *)
Definition Qround_half_down (q : Q) : Z :=
  if Qle_bool 0 q then Qceiling (q - (1 # 2)) else Qfloor (q + (1 # 2)).

Lemma Qround_half_down_cases q :
  Qround_half_down q = if Qle_bool (Qabs (q - inject_Z (Qtrunc q))) (1 # 2) then Qtrunc q else Qaway q.
Proof.
  destruct (Qtrunc_bounds q) as (_ & Hle & Hs). unfold Qround_half_down, Qaway. destruct (Qle_bool 0 q) eqn:E.
  - apply Qle_bool_iff in E. rewrite Qtrunc_floor by done. destruct (Qfloor_bounds q) as [H1 H2].
    rewrite Qabs_pos by lra. destruct (Qle_bool _ (1 # 2)) eqn:E2.
    + apply Qle_bool_iff in E2. apply Qceiling_unique; lra.
    + assert ((1 # 2) < q - inject_Z (Qfloor q))%Q by (apply Qnot_le_lt; intros Hl; apply Qle_bool_iff in Hl; congruence).
      transitivity (Qfloor q + 1); [|symmetry]; apply Qceiling_unique; rewrite inject_Z_plus; change (inject_Z 1) with 1%Q; lra.
  - assert (Hq : (q < 0)%Q) by (apply Qnot_le_lt; intros Hl; apply Qle_bool_iff in Hl; congruence).
    assert (Ht : Qtrunc q = Qceiling q) by (unfold Qceiling; rewrite <- Qtrunc_floor, Qtrunc_opp by lra; lia).
    rewrite Ht. pose proof (Qle_ceiling q) as H1. pose proof (Qceiling_lt q) as H2.
    replace (Qceiling q - 1)%Z with (Qceiling q + -1)%Z in H2 by lia.
    rewrite inject_Z_plus in H2. change (inject_Z (-1)) with (-1)%Q in H2. rewrite Qabs_neg by lra.
    destruct (Qle_bool _ (1 # 2)) eqn:E2.
    + apply Qle_bool_iff in E2. apply Qfloor_unique; lra.
    + assert ((1 # 2) < - (q - inject_Z (Qceiling q)))%Q by (apply Qnot_le_lt; intros Hl; apply Qle_bool_iff in Hl; congruence).
      replace (Qfloor q) with (Qceiling q + -1)
        by (symmetry; apply Qfloor_unique; rewrite inject_Z_plus; change (inject_Z (-1)) with (-1)%Q; lra).
      apply Qfloor_unique; rewrite inject_Z_plus; change (inject_Z (-1)) with (-1)%Q; lra.
Qed.

Section Laws.
Context {DO : DecimalOps} {DL : DecimalLaws DO} {DT : DecimalText DO} {GM : GoMath}.

(** ** Division *)

Lemma divNumbers_value a b r : ~ (dval b == 0)%Q -> divNumbers a b = BlNumber r ->
  (dval r == Qscaled Qtrunc (Qscaled Qround_half_up (dval a / dval b) 36) 34)%Q.
Proof.
  intros Hb. unfold divNumbers. destruct (dIsZero b) eqn:E; [by apply dIsZero_true in E|].
  intros [= <-]. rewrite dval_Truncate by (unfold numericPrecision; lia). unfold Qscaled at 1.
  rewrite dval_DivRound by (done || (unfold numericPrecision; lia)). reflexivity.
Qed.

(** Cutting a count of hundredths leaves at most 99 of them. *)
Lemma trunc_hundredths (Y : Z) :
  (Qabs (inject_Z Y / 100 - inject_Z (Qtrunc (inject_Z Y / 100))) <= 99 # 100)%Q.
Proof.
  destruct (Qtrunc_bounds (inject_Z Y / 100)) as [H _]. set (T := Qtrunc _) in *.
  assert (E : (inject_Z Y / 100 - inject_Z T == (Y - 100 * T) # 100)%Q).
  { unfold Qeq, Qminus, Qplus, Qopp, Qdiv, Qmult, inject_Z, Qinv. simpl. lia. }
  rewrite E in H |- *. revert H. unfold Qlt, Qle, Qabs. simpl. lia.
Qed.

(** Rounding to 36 places and cutting to 34 stays within the unit of the 34th. *)
Lemma quotient_error x :
  (Qabs (x - Qscaled Qtrunc (Qscaled Qround_half_up x 36) 34) < 1 / pow10 34)%Q.
Proof.
  pose proof (Qscaled_half_up_error x 36) as H2. set (y := Qscaled Qround_half_up x 36) in *.
  set (Y := Qround_half_up (x * pow10 36)).
  assert (P : (0 < pow10 34)%Q) by apply pow10_pos.
  assert (E36 : (pow10 36 == 100 * pow10 34)%Q) by (rewrite (pow10_mult 34 2), Qmult_comm; reflexivity).
  assert (Ey : (y * pow10 34 == inject_Z Y / 100)%Q).
  { unfold y, Qscaled. fold Y. rewrite E36. field. apply pow10_nonzero. }
  assert (Et : (y - Qscaled Qtrunc y 34 == (inject_Z Y / 100 - inject_Z (Qtrunc (inject_Z Y / 100))) / pow10 34)%Q).
  { unfold Qscaled at 1. rewrite Ey, <- Ey. field. apply pow10_nonzero. }
  assert (H1 : (Qabs (y - Qscaled Qtrunc y 34) <= (99 # 100) / pow10 34)%Q).
  { rewrite Et, Qabs_div_pow10. apply Qdiv_le_compat, trunc_hundredths. }
  assert (Es : (x - Qscaled Qtrunc y 34 == (x - y) + (y - Qscaled Qtrunc y 34))%Q) by ring.
  rewrite Es. eapply Qle_lt_trans; [apply Qabs_triangle|]. rewrite (Qabs_Qminus x y).
  eapply Qle_lt_trans; [apply Qplus_le_compat; [exact H2|exact H1]|].
  assert (Eb : ((1 # 2) / pow10 36 + (99 # 100) / pow10 34 == (199 # 200) / pow10 34)%Q) by (rewrite E36; field; apply pow10_nonzero).
  rewrite Eb. unfold Qdiv. apply Qmult_lt_compat_r; [by apply Qinv_lt_0_compat|reflexivity].
Qed.

(** C27. Division by zero is null; any other quotient is a number of 34 decimal
    places that is less than one unit of the 34th place away from the exact
    quotient, and equal to it when that has at most 34 decimal places.  The code
    rounds to 36 places and then cuts to 34; its comment and the specification say
    34 significant digits (division_keeps_decimal_places). *)
Theorem division_precision (a b : Decimal) :
  ((dval b == 0)%Q -> divNumbers a b = BlNull) /\
  (~ (dval b == 0)%Q -> exists r, divNumbers a b = BlNumber r /\
     (exists z, (dval r == inject_Z z / pow10 34)%Q) /\
     (Qabs (dval a / dval b - dval r) < 1 / pow10 34)%Q /\
     forall z, (dval a / dval b == inject_Z z / pow10 34)%Q -> (dval r == dval a / dval b)%Q).
Proof.
  split; [intros H; unfold divNumbers; by rewrite (proj2 (dIsZero_true b) H)|].
  intros Hb. destruct (divNumbers a b) as [| |r| | | | | | | | | | | | | | |] eqn:E;
    try (unfold divNumbers in E; destruct (dIsZero b) eqn:Z; [by apply dIsZero_true in Z|discriminate E]).
  exists r. split; [done|]. split; [eexists; exact (divNumbers_value a b r Hb E)|].
  rewrite (divNumbers_value a b r Hb E).
  set (x := (dval a / dval b)%Q). set (y := Qscaled Qround_half_up x 36). split.
  - apply quotient_error.
  - intros z Hz. assert (Hy : (y == inject_Z z / pow10 34)%Q).
    { unfold y, Qscaled. assert (E36 : (x * pow10 36 == inject_Z (z * 100))%Q).
      { rewrite Hz, (pow10_mult 34 2), inject_Z_mult. change (pow10 2) with (inject_Z 100). field. apply pow10_nonzero. }
      rewrite E36, (proj1 (Qround_exact _)), (pow10_mult 34 2), inject_Z_mult. change (pow10 2) with (inject_Z 100).
      field. apply pow10_nonzero. }
    rewrite (divNumbers_value a b r Hb E). fold x y. unfold Qscaled at 1. assert (E34 : (y * pow10 34 == inject_Z z)%Q) by (rewrite Hy; field; apply pow10_nonzero).
    by rewrite E34, (proj2 (Qround_exact _)), Hz.
Qed.

(** ** Floor modulo *)

Lemma dSign_cases a :
  (dSign a = -1 /\ (dval a < 0)%Q) \/ (dSign a = 0 /\ (dval a == 0)%Q) \/ (dSign a = 1 /\ (0 < dval a)%Q).
Proof. rewrite dSign_spec. destruct (Qcompare_spec (dval a) 0); simpl; auto. Qed.

(** [modulo] is the remainder of floor division: its sign is the divisor's. *)
Theorem modulo_is_floor_modulo (a b : Decimal) :
  ((dval b == 0)%Q -> moduloFn a b = BlNull) /\
  (~ (dval b == 0)%Q -> exists r, moduloFn a b = BlNumber r /\
     (dval r == dval a - dval b * inject_Z (Qfloor (dval a / dval b)))%Q).
Proof.
  split; [intros H; unfold moduloFn; by rewrite (proj2 (dIsZero_true b) H)|].
  intros Hb. unfold moduloFn. destruct (dIsZero b) eqn:Z; [by apply dIsZero_true in Z|]. clear Z.
  eexists. split; [reflexivity|].
  pose proof (dval_Mod a b Hb) as Hm. set (x := (dval a / dval b)%Q) in *.
  assert (Ha : (dval a == dval b * x)%Q) by (unfold x; field; done).
  set (t := (x - inject_Z (Qtrunc x))%Q).
  assert (Hmt : (dval (dMod a b) == dval b * t)%Q) by (rewrite Hm, Ha; unfold t; ring).
  rewrite Qfloor_trunc. destruct (Qle_bool (inject_Z (Qtrunc x)) x) eqn:E.
  - apply Qle_bool_iff in E. assert (Ht : (0 <= t)%Q) by (unfold t; lra).
    assert (Hkeep : negb (dIsZero (dMod a b)) && negb (dSign (dMod a b) =? dSign b) = false).
    { destruct (dIsZero (dMod a b)) eqn:Z; [done|]. cbn [negb andb]. apply negb_false_iff, Z.eqb_eq.
      assert (Hnz : ~ (dval (dMod a b) == 0)%Q) by (rewrite <- dIsZero_true; by rewrite Z).
      assert (0 < t)%Q.
      { destruct (Qle_lt_or_eq _ _ Ht) as [?|E0]; [done|]. exfalso. apply Hnz. rewrite Hmt, <- E0. ring. }
      destruct (dSign_cases (dMod a b)) as [[-> H1]|[[-> H1]|[-> H1]]], (dSign_cases b) as [[-> H2]|[[-> H2]|[-> H2]]]; try done.
      - exfalso. rewrite Hmt in H1. assert (0 < dval b * t)%Q by (by apply Qmult_lt_0_compat). lra.
      - exfalso. rewrite Hmt in H1. assert (0 < (- dval b) * t)%Q by (apply Qmult_lt_0_compat; lra). lra. }
    rewrite Hkeep, Hmt, Ha. unfold t. ring.
  - assert (Ht : (t < 0)%Q).
    { unfold t. assert (x < inject_Z (Qtrunc x))%Q by (apply Qnot_le_lt; intros Hl; apply Qle_bool_iff in Hl; congruence). lra. }
    assert (Hadd : negb (dIsZero (dMod a b)) && negb (dSign (dMod a b) =? dSign b) = true).
    { destruct (dSign_cases b) as [[Sb H2]|[[Sb H2]|[Sb H2]]]; [| done |].
      - assert (0 < (- dval b) * (- t))%Q by (apply Qmult_lt_0_compat; lra).
        assert (Hp : (0 < dval (dMod a b))%Q) by (rewrite Hmt; lra).
        destruct (dIsZero (dMod a b)) eqn:Z; [apply dIsZero_true in Z; lra|].
        destruct (dSign_cases (dMod a b)) as [[S1 H1]|[[S1 H1]|[S1 H1]]]; [lra|lra|]. by rewrite S1, Sb.
      - assert (0 < dval b * (- t))%Q by (apply Qmult_lt_0_compat; lra).
        assert (Hp : (dval (dMod a b) < 0)%Q) by (rewrite Hmt; lra).
        destruct (dIsZero (dMod a b)) eqn:Z; [apply dIsZero_true in Z; lra|].
        destruct (dSign_cases (dMod a b)) as [[S1 H1]|[[S1 H1]|[S1 H1]]]; [|lra|lra]. by rewrite S1, Sb. }
    rewrite Hadd, dval_Add, Hmt, Ha. replace (Qtrunc x - 1) with (Qtrunc x + -1) by lia.
    rewrite inject_Z_plus. unfold t. change (inject_Z (-1)) with (-1)%Q. ring.
Qed.

(** ** Rounding *)

(** The test of [roundHalfDown]: is the part cut off more than half a unit? *)
Lemma half_down_test n s :
  0 <= s < 2 ^ 31 ->
  (0 <? dCmp (dAbs (dSub n (dTruncate n s))) (dNew 5 (int32 (- s - 1)))) =
  negb (Qle_bool (Qabs (dval n * pow10 s - inject_Z (Qtrunc (dval n * pow10 s)))) (1 # 2)).
Proof.
  intros Hs. set (x := (dval n * pow10 s)%Q).
  assert (Hr : (dval (dAbs (dSub n (dTruncate n s))) == Qabs (x - inject_Z (Qtrunc x)) / pow10 s)%Q).
  { rewrite dval_Abs, dval_Sub, dval_Truncate, Qabs_Qminus, Qscaled_diff, Qabs_div_pow10 by lia.
    fold x. by rewrite Qabs_Qminus. }
  assert (Hh : (dval (dNew 5 (int32 (- s - 1))) == (1 # 2) / pow10 s)%Q).
  { rewrite dval_New, int32_id by lia. replace (- s - 1) with (- s + -1) by lia.
    rewrite (pow10_mult (- s) (-1)). unfold pow10 at 1. rewrite Qpower_opp. change (pow10 (-1)) with (1 # 10).
    change (inject_Z 10 ^ s)%Q with (pow10 s). change (inject_Z 5) with 5%Q. field. apply pow10_nonzero. }
  pose proof (pow10_pos s) as Hp.
  destruct (Qle_bool (Qabs (x - inject_Z (Qtrunc x))) (1 # 2)) eqn:E; cbn [negb].
  - apply Qle_bool_iff in E. apply (Qdiv_le_compat _ _ s) in E. rewrite <- Hr, <- Hh in E.
    destruct (dCmp_cases (dAbs (dSub n (dTruncate n s))) (dNew 5 (int32 (- s - 1)))) as [[-> ?]|[[-> ?]|[-> ?]]]; [done|done|lra].
  - assert (E' : ((1 # 2) < Qabs (x - inject_Z (Qtrunc x)))%Q)
      by (apply Qnot_le_lt; intros Hl; apply Qle_bool_iff in Hl; congruence).
    apply (Qdiv_lt_compat _ _ s) in E'. rewrite <- Hr, <- Hh in E'.
    destruct (dCmp_cases (dAbs (dSub n (dTruncate n s))) (dNew 5 (int32 (- s - 1)))) as [[-> ?]|[[-> ?]|[-> ?]]]; [lra|lra|done].
Qed.

(** The rounding functions at a scale of [s] decimal places: up is away from
    zero, down is toward zero, and the half modes go to the nearest multiple of
    the unit, ties away from zero, toward zero or to the even neighbour. *)
Theorem rounding_modes (n scale : Decimal) :
  0 <= scale_of scale < 2 ^ 31 ->
  let at_scale f := fun v => exists r, v = BlNumber r /\ (dval r == Qscaled f (dval n) (scale_of scale))%Q in
  at_scale Qaway (roundUpFn n scale) /\ at_scale Qtrunc (roundDownFn n scale) /\
  at_scale Qround_half_up (roundHalfUpFn n scale) /\ at_scale Qround_half_up (roundFn n scale) /\
  at_scale Qround_half_down (roundHalfDownFn n scale) /\ at_scale Qround_half_even (roundHalfEvenFn n scale).
Proof.
  intros Hs at_scale. unfold at_scale.
  split_and!; try (eexists; split; [reflexivity|]);
    [apply dval_RoundUp|apply dval_RoundDown|apply dval_Round|apply dval_Round| |apply dval_RoundBank].
  unfold roundHalfDownFn. cbv zeta. rewrite half_down_test by done. unfold Qscaled.
  rewrite Qround_half_down_cases. destruct (Qle_bool _ (1 # 2)); cbn [negb];
    (eexists; split; [reflexivity|]); [rewrite dval_Truncate by lia; reflexivity|apply dval_RoundUp].
Qed.

(** ** Parity, signs, clamping *)

Lemma whole_test n : dEqual n (dTruncate n 0) = Qeq_bool (dval n) (inject_Z (Qtrunc (dval n))).
Proof.
  rewrite dEqual_spec. apply eq_true_iff_eq. rewrite !Qeq_bool_iff, dval_Truncate by lia.
  unfold Qscaled. change (pow10 0) with 1%Q.
  assert (E : (dval n * 1 == dval n)%Q) by ring. rewrite E.
  assert (E' : (inject_Z (Qtrunc (dval n)) / 1 == inject_Z (Qtrunc (dval n)))%Q) by field. by rewrite E'.
Qed.

Lemma Qtrunc_Z z : Qtrunc (inject_Z z) = z.
Proof. apply Qround_exact. Qed.

Lemma mod_two n z : (dval n == inject_Z z)%Q -> (dval (dMod n (dNewFromInt 2)) == inject_Z (Z.rem z 2))%Q.
Proof.
  intros H. rewrite dval_Mod by (rewrite dval_NewFromInt; discriminate). rewrite (dval_NewFromInt 2), H.
  change (inject_Z z / inject_Z 2)%Q with (inject_Z z * (1 # 2))%Q.
  assert (E : Qtrunc (inject_Z z * (1 # 2)) = Z.quot z 2) by (unfold Qtrunc; simpl; by rewrite Z.mul_1_r).
  rewrite E. unfold Qminus. rewrite <- inject_Z_mult, <- inject_Z_opp, <- inject_Z_plus.
  by replace (Z.rem z 2) with (z + - (2 * Z.quot z 2)) by (pose proof (Z.quot_rem' z 2); lia).
Qed.

(** On whole numbers [odd] and [even] are parity; other numbers are neither. *)
Theorem parity (n : Decimal) :
  (forall z, (dval n == inject_Z z)%Q -> oddFn n = BlBoolean (Z.odd z) /\ evenFn n = BlBoolean (Z.even z)) /\
  ((forall z, ~ (dval n == inject_Z z)%Q) -> oddFn n = BlBoolean false /\ evenFn n = BlBoolean false).
Proof.
  unfold oddFn, evenFn. rewrite whole_test. split.
  - intros z Hz. assert (E : Qeq_bool (dval n) (inject_Z (Qtrunc (dval n))) = true).
    { apply Qeq_bool_iff. rewrite Hz at 2. by rewrite Qtrunc_Z. }
    rewrite E. cbn [negb]. pose proof (mod_two n z Hz) as Hm.
    assert (E1 : dEqual (dAbs (dMod n (dNewFromInt 2))) (dNewFromInt 1) = Qeq_bool (Qabs (inject_Z (Z.rem z 2))) 1).
    { rewrite dEqual_spec. apply eq_true_iff_eq. rewrite !Qeq_bool_iff, dval_Abs, dval_NewFromInt, Hm. reflexivity. }
    assert (E2 : dIsZero (dMod n (dNewFromInt 2)) = Qeq_bool (inject_Z (Z.rem z 2)) 0).
    { rewrite dIsZero_spec. apply eq_true_iff_eq. rewrite !Qeq_bool_iff, Hm. reflexivity. }
    rewrite E1, E2. clear E1 E2.
    pose proof (Z.rem_bound_abs z 2 ltac:(lia)) as Hb. pose proof (Z.quot_rem' z 2) as Hq.
    assert (Hc : Z.rem z 2 = -1 \/ Z.rem z 2 = 0 \/ Z.rem z 2 = 1) by lia.
    destruct Hc as [Hc|[Hc|Hc]]; rewrite Hc in *.
    + replace z with (2 * (Z.quot z 2 - 1) + 1) by lia. by rewrite Z.odd_odd, Z.even_odd.
    + replace z with (2 * Z.quot z 2) by lia. by rewrite Z.odd_even, Z.even_even.
    + replace z with (2 * Z.quot z 2 + 1) by lia. by rewrite Z.odd_odd, Z.even_odd.
  - intros H. assert (E : Qeq_bool (dval n) (inject_Z (Qtrunc (dval n))) = false).
    { apply not_true_iff_false. rewrite Qeq_bool_iff. apply H. }
    by rewrite E.
Qed.

Lemma dLessThan_true a b : dLessThan a b = true <-> (dval a < dval b)%Q.
Proof.
  rewrite dLessThan_spec, negb_true_iff, <- not_true_iff_false, Qle_bool_iff. split; [apply Qnot_le_lt|].
  intros ? ?. lra.
Qed.
Lemma dGreaterThan_true a b : dGreaterThan a b = true <-> (dval b < dval a)%Q.
Proof.
  rewrite dGreaterThan_spec, negb_true_iff, <- not_true_iff_false, Qle_bool_iff. split; [apply Qnot_le_lt|].
  intros ? ?. lra.
Qed.

(** [clamp] is null for an inverted range, and otherwise the nearest number of
    the range. *)
Theorem clamp_nearest (n lo hi : Decimal) :
  ((dval hi < dval lo)%Q -> clampFn n lo hi = BlNull) /\
  ((dval lo <= dval hi)%Q -> exists r, clampFn n lo hi = BlNumber r /\ (dval lo <= dval r <= dval hi)%Q /\
     forall x, (dval lo <= x <= dval hi)%Q -> (Qabs (dval n - dval r) <= Qabs (dval n - x))%Q).
Proof.
  unfold clampFn. split.
  - intros H. by rewrite (proj2 (dGreaterThan_true lo hi) H).
  - intros H. destruct (dGreaterThan lo hi) eqn:E; [apply dGreaterThan_true in E; lra|].
    destruct (dLessThan n lo) eqn:E1; [|destruct (dGreaterThan n hi) eqn:E2].
    + apply dLessThan_true in E1. exists lo. split_and!; [done|lra|lra|]. intros x Hx. rewrite !Qabs_neg by lra. lra.
    + apply dGreaterThan_true in E2. exists hi. split_and!; [done|lra|lra|]. intros x Hx. rewrite !Qabs_pos by lra. lra.
    + rewrite <- not_true_iff_false, dLessThan_true in E1. rewrite <- not_true_iff_false, dGreaterThan_true in E2.
      exists n. split_and!; [done|lra|lra|]. intros x Hx. assert (E0 : (dval n - dval n == 0)%Q) by ring. rewrite E0.
      apply Qabs_nonneg.
Qed.

(** The results documented as null: roots and logarithms outside their domain,
    complex powers, negative powers of zero. *)
Theorem outside_the_domain_is_null (n e : Decimal) :
  ((dval n < 0)%Q -> sqrtFn n = BlNull) /\
  ((dval n <= 0)%Q -> lnFn n = BlNull /\ logFn [BlNumber n] = Ok BlNull) /\
  ((dval n < 0)%Q -> (forall z, ~ (dval e == inject_Z z)%Q) -> powNumber n e = BlNull) /\
  ((dval n == 0)%Q -> (dval e < 0)%Q -> powNumber n e = BlNull).
Proof.
  unfold sqrtFn, lnFn, logFn, powNumber. split_and!.
  - intros H. destruct (dSign_cases n) as [[-> ?]|[[-> ?]|[-> ?]]]; [done|lra|lra].
  - intros H. change (arg [BlNumber n] 0) with (BlNumber n). destruct (dSign_cases n) as [[-> ?]|[[-> ?]|[-> ?]]]; [done|done|lra].
  - intros H He. rewrite whole_test. assert (E : Qeq_bool (dval e) (inject_Z (Qtrunc (dval e))) = false).
    { apply not_true_iff_false. rewrite Qeq_bool_iff. apply He. }
    rewrite E. destruct (dSign_cases n) as [[-> ?]|[[-> ?]|[-> ?]]]; [done|lra|lra].
  - intros H He. rewrite (proj2 (dIsZero_true n) H).
    destruct (dSign_cases e) as [[-> ?]|[[-> ?]|[-> ?]]]; [|lra|lra]. by destruct (_ && _).
Qed.

End Laws.
