(* ===== verification/TenDecimal.v ===== *)
(** * Decimals as a coefficient and a power of ten

    An executable instance of [DecimalOps], [DecimalText] and their laws: a
    number is [coef * 10 ^ exp], printed and read in plain notation.  The
    witnesses of the theorems about text run on it. *)

From Stdlib Require Import SpecFloat Qabs Qpower Lqa.
From S2P Require Import Prelude Decimal GoText GoTime Values Lists Numbers NumberLaws.
#[global] Open Scope Z_scope.

Record ten : Type := mkTen { coef : Z; texp : Z }.

Definition tval (d : ten) : Q := (inject_Z (coef d) * pow10 (texp d))%Q.

(** The coefficient at a smaller exponent. *)
Definition at_exp (d : ten) (e : Z) : Z := coef d * 10 ^ (texp d - e).

Definition ten_add (a b : ten) : ten :=
  let e := Z.min (texp a) (texp b) in mkTen (at_exp a e + at_exp b e) e.
Definition ten_neg (a : ten) : ten := mkTen (- coef a) (texp a).
Definition ten_mul (a b : ten) : ten := mkTen (coef a * coef b) (texp a + texp b).
Definition ten_sub (a b : ten) : ten := ten_add a (ten_neg b).

(** A rational rounded to [p] decimal places. *)
Definition ten_scaled (f : Q -> Z) (q : Q) (p : Z) : ten := mkTen (f (q * pow10 p)%Q) (- p).
Definition ten_int (z : Z) : ten := mkTen z 0.

Definition ten_of_float (f : spec_float) : ten :=
  match f with
  | S754_finite s m e =>
      let z := if s then Zneg m else Zpos m in
      if 0 <=? e then mkTen (z * 2 ^ e) 0 else mkTen (z * 5 ^ (- e)) e
  | _ => ten_int 0
  end.

#[local] Instance tenDecimal : DecimalOps := {
  Decimal := ten;
  dval := tval;
  dNewFromInt := ten_int;
  dNewFromUint64 := ten_int;
  dNewFromFloat := ten_of_float;
  dNew := mkTen;
  dAdd := ten_add;
  dSub := ten_sub;
  dMul := ten_mul;
  dNeg := ten_neg;
  dAbs a := mkTen (Z.abs (coef a)) (texp a);
  dCmp a b := cmp_int (Qcompare (tval a) (tval b));
  dEqual a b := Qeq_bool (tval a) (tval b);
  dLessThan a b := negb (Qle_bool (tval b) (tval a));
  dGreaterThan a b := negb (Qle_bool (tval a) (tval b));
  dSign a := cmp_int (Qcompare (tval a) 0);
  dIsZero a := Qeq_bool (tval a) 0;
  dIntPart a := int64 (Qtrunc (tval a));
  dMod a b := ten_sub a (ten_mul b (ten_int (Qtrunc (tval a / tval b))));
  dDiv a b := ten_scaled Qround_half_up (tval a / tval b) numericPrecision;
  dDivRound a b := ten_scaled Qround_half_up (tval a / tval b);
  dTruncate a := ten_scaled Qtrunc (tval a);
  dFloor a := ten_int (Qfloor (tval a));
  dRound a := ten_scaled Qround_half_up (tval a);
  dRoundUp a := ten_scaled Qaway (tval a);
  dRoundDown a := ten_scaled Qtrunc (tval a);
  dRoundBank a := ten_scaled Qround_half_even (tval a);
  dRoundFloor a := ten_scaled Qfloor (tval a);
  dRoundCeil a := ten_scaled Qceiling (tval a)
}.

Lemma tval_int z : (tval (ten_int z) == inject_Z z)%Q.
Proof. unfold tval, ten_int. cbn [coef texp]. change (pow10 0) with 1%Q. ring. Qed.

Lemma tval_at d e : e <= texp d -> (tval d == inject_Z (at_exp d e) * pow10 e)%Q.
Proof.
  intros H. unfold tval, at_exp. rewrite inject_Z_mult, <- pow10_Z by lia.
  replace (texp d) with ((texp d - e) + e) at 1 by lia. rewrite pow10_mult. ring.
Qed.

Lemma tval_add a b : (tval (ten_add a b) == tval a + tval b)%Q.
Proof.
  unfold ten_add. set (e := Z.min (texp a) (texp b)). rewrite (tval_at a e), (tval_at b e) by (unfold e; lia).
  unfold tval. cbn [coef texp]. rewrite inject_Z_plus. ring.
Qed.

Lemma tval_neg a : (tval (ten_neg a) == - tval a)%Q.
Proof. unfold tval, ten_neg. cbn [coef texp]. rewrite inject_Z_opp. ring. Qed.

Lemma tval_sub a b : (tval (ten_sub a b) == tval a - tval b)%Q.
Proof. unfold ten_sub. by rewrite tval_add, tval_neg. Qed.

Lemma tval_mul a b : (tval (ten_mul a b) == tval a * tval b)%Q.
Proof. unfold tval, ten_mul. cbn [coef texp]. rewrite inject_Z_mult, pow10_mult. ring. Qed.

Lemma tval_scaled f q p : (tval (ten_scaled f q p) == Qscaled f q p)%Q.
Proof. unfold tval, ten_scaled, Qscaled, pow10. cbn [coef texp]. rewrite Qpower_opp. reflexivity. Qed.

Lemma tval_abs a : (tval (mkTen (Z.abs (coef a)) (texp a)) == Qabs (tval a))%Q.
Proof.
  unfold tval. cbn [coef texp]. rewrite Qabs_Qmult, (Qabs_pos (pow10 _)) by (apply Qlt_le_weak, pow10_pos).
  reflexivity.
Qed.

#[local] Instance tenDecimal_laws : DecimalLaws tenDecimal.
Proof.
  split; intros; cbn [tenDecimal dval dNewFromInt dNewFromUint64 dNew dAdd dSub dMul dNeg dAbs dMod dDiv dDivRound
    dTruncate dFloor dRound dRoundUp dRoundDown dRoundBank dRoundFloor dRoundCeil dIntPart];
    rewrite ?tval_int, ?tval_scaled; try reflexivity.
  - apply tval_add.
  - apply tval_sub.
  - apply tval_mul.
  - apply tval_neg.
  - apply tval_abs.
  - by apply int64_id.
  - by rewrite tval_sub, tval_mul, tval_int.
Qed.

(** ** Digits *)

Definition digit (z : Z) : Ascii.ascii := Ascii.ascii_of_nat (48 + Z.to_nat z).
Definition digit_val (c : Ascii.ascii) : Z := Z.of_nat (Ascii.nat_of_ascii c) - 48.

Lemma digit_char z : 0 <= z < 10 -> is_digit (digit z) = true /\ digit_val (digit z) = z.
Proof.
  intros H. unfold is_digit, digit_val, digit. rewrite Ascii.nat_ascii_embedding by lia.
  rewrite Nat2Z.inj_add, Z2Nat.id by lia. rewrite andb_true_iff, !Z.leb_le. lia.
Qed.

(** [k] digits of [z mod 10 ^ k] *)
Fixpoint digits_fixed (k : nat) (z : Z) : string :=
  match k with
  | O => EmptyString
  | S k' => String (digit (z / 10 ^ Z.of_nat k' mod 10)) (digits_fixed k' z)
  end.

(** The digits of [z], without leading zeros. *)
Fixpoint nat_text (fuel : nat) (z : Z) (acc : string) : string :=
  match fuel with
  | O => String (digit (z mod 10)) acc
  | S fuel' => if z <? 10 then String (digit z) acc else nat_text fuel' (z / 10) (String (digit (z mod 10)) acc)
  end.
Definition int_text (z : Z) : string := nat_text (Z.to_nat z) z EmptyString.

(** The number a string of digits stands for, continuing [acc]. *)
Fixpoint digits_val (acc : Z) (s : string) : Z :=
  match s with
  | EmptyString => acc
  | String c s' => digits_val (acc * 10 + digit_val c) s'
  end.

Lemma digits_val_acc acc s : digits_val acc s = acc * 10 ^ Z.of_nat (String.length s) + digits_val 0 s.
Proof.
  revert acc. induction s as [|c s IH]; intros acc; cbn [digits_val String.length]; [lia|].
  rewrite IH, (IH (0 * 10 + _)), Nat2Z.inj_succ, Z.pow_succ_r by lia. ring.
Qed.

Lemma length_digits_fixed k z : String.length (digits_fixed k z) = k.
Proof. induction k as [|k IH]; simpl; [done|]. by rewrite IH. Qed.

Lemma all_digits_fixed k z : all_digits (digits_fixed k z) = true.
Proof.
  induction k as [|k IH]; cbn [digits_fixed all_digits]; [done|].
  by rewrite (proj1 (digit_char _ (Z.mod_pos_bound _ 10 ltac:(lia)))), IH.
Qed.

Lemma digits_val_fixed k z : 0 <= z -> digits_val 0 (digits_fixed k z) = z mod 10 ^ Z.of_nat k.
Proof.
  intros Hz. induction k as [|k IH]; cbn [digits_fixed digits_val].
  - change (10 ^ Z.of_nat 0) with 1. by rewrite Z.mod_1_r.
  - rewrite digits_val_acc, length_digits_fixed, IH, (proj2 (digit_char _ (Z.mod_pos_bound _ 10 ltac:(lia)))).
    rewrite Nat2Z.inj_succ, Z.pow_succ_r by lia. pose proof (Z.pow_pos_nonneg 10 (Z.of_nat k) ltac:(lia) ltac:(lia)).
    rewrite (Z.mul_comm 10), Z.rem_mul_r by lia. ring.
Qed.

Lemma nat_text_spec fuel z acc :
  0 <= z <= Z.of_nat fuel ->
  digits_val 0 (nat_text fuel z acc) = digits_val z acc /\ (all_digits acc = true -> all_digits (nat_text fuel z acc) = true) /\
  (exists c s, nat_text fuel z acc = String c s /\ is_digit c = true).
Proof.
  revert z acc. induction fuel as [|fuel IH]; intros z acc Hz; cbn [nat_text].
  - destruct (digit_char (z mod 10)) as [H1 H2]; [apply Z.mod_pos_bound; lia|]. cbn [digits_val all_digits].
    rewrite H1, H2. replace (z mod 10) with z by (rewrite Z.mod_small; lia). split_and!; [done|done|].
    eexists _, _. split; [done|]. apply digit_char. lia.
  - destruct (Z.ltb_spec z 10).
    + destruct (digit_char z) as [H1 H2]; [lia|]. cbn [digits_val all_digits]. rewrite H1, H2. split_and!; [done|done|]. by eexists _, _.
    + assert (Hq : 0 <= z / 10 <= Z.of_nat fuel).
      { split; [apply Z.div_pos; lia|]. pose proof (Z.div_lt z 10). lia. }
      destruct (IH (z / 10) (String (digit (z mod 10)) acc) Hq) as (E & Ha & Hc).
      destruct (digit_char (z mod 10)) as [H1 H2]; [apply Z.mod_pos_bound; lia|].
      split_and!; [|intros H'; apply Ha; cbn [all_digits]; by rewrite H1|done].
      rewrite E. cbn [digits_val]. rewrite H2. f_equal. pose proof (Z.div_mod z 10). lia.
Qed.

(** ** Printing and reading *)

(** Trailing zeros of a fraction are dropped. *)
Definition fraction_text (k : nat) (z : Z) : string := trim_right_char (Ascii.ascii_of_nat 48) (digits_fixed k z).

Definition ten_string (d : ten) : string :=
  let '(c, k) := if 0 <=? texp d then (coef d * 10 ^ texp d, O) else (coef d, Z.to_nat (- texp d)) in
  let z := Z.abs c in
  let frac := fraction_text k z in
  (if c <? 0 then "-" else "") +:+ int_text (z / 10 ^ Z.of_nat k) +:+ (if String.eqb frac "" then "" else "." +:+ frac).

(** Digits, a point once, digits: the coefficient, the places after the point. *)
Fixpoint read_plain (s : string) (point : bool) (acc : Z) (places : Z) (some_digit : bool) : option (Z * Z) :=
  match s with
  | EmptyString => if some_digit then Some (acc, places) else None
  | String c s' =>
      if is_digit c then read_plain s' point (acc * 10 + digit_val c) (if point then places + 1 else places) true
      else if is_char c 46 && negb point then read_plain s' true acc places some_digit
      else None
  end.

Definition ten_read (s : string) : option ten :=
  match s with
  | EmptyString => None
  | String c s' =>
      let '(sign, body) := if is_char c 45 then (-1, s') else if is_char c 43 then (1, s') else (1, s) in
      match read_plain body false 0 0 false with
      | None => None
      | Some (z, k) => Some (mkTen (sign * z) (- k))
      end
  end.

Lemma read_digits s t point acc places b :
  all_digits s = true ->
  read_plain (s +:+ t) point acc places b =
  read_plain t point (digits_val acc s) (if point then places + Z.of_nat (String.length s) else places)
    (b || negb (String.eqb s "")).
Proof.
  revert acc places b. induction s as [|c s IH]; intros acc places b H; cbn [String.append digits_val String.length all_digits read_plain] in *.
  - rewrite orb_false_r. by destruct point; rewrite ?Z.add_0_r.
  - apply andb_true_iff in H as [Hc Hs]. change (String c s +:+ t) with (String c (s +:+ t)). cbn [read_plain].
    rewrite Hc, IH by done. cbn [orb String.eqb negb].
    rewrite orb_true_r. destruct point; [|done]. f_equal. lia.
Qed.

Lemma trim_zeros s :
  all_digits s = true ->
  all_digits (trim_right_char (Ascii.ascii_of_nat 48) s) = true /\
  exists j : nat, String.length s = (String.length (trim_right_char (Ascii.ascii_of_nat 48) s) + j)%nat /\
    forall acc, digits_val acc s = digits_val acc (trim_right_char (Ascii.ascii_of_nat 48) s) * 10 ^ Z.of_nat j.
Proof.
  induction s as [|c s IH]; intros H; cbn [trim_right_char all_digits] in *.
  - split; [done|]. exists 0%nat. split; [done|]. intros acc. change (10 ^ Z.of_nat 0) with 1. lia.
  - apply andb_true_iff in H as [Hc Hs]. destruct (IH Hs) as (Ha & j & Hl & Hv).
    destruct (trim_right_char (Ascii.ascii_of_nat 48) s) as [|c' s'] eqn:E.
    + destruct (Ascii.eqb_spec c (Ascii.ascii_of_nat 48)) as [->|Hne].
      * split; [done|]. exists (S j). cbn [String.length] in *. split; [lia|]. intros acc. cbn [digits_val].
        rewrite Hv. cbn [digits_val]. rewrite Nat2Z.inj_succ, Z.pow_succ_r by lia. change (digit_val (Ascii.ascii_of_nat 48)) with 0. ring.
      * split; [cbn [all_digits]; by rewrite Hc|]. exists j. cbn [String.length digits_val] in *. split; [lia|]. intros acc. by rewrite Hv.
    + split; [cbn [all_digits] in *; by rewrite Hc|]. exists j. cbn [String.length digits_val] in *. split; [lia|]. intros acc. by rewrite Hv.
Qed.

(** The parts of the text of [z / 10 ^ k]. *)
Lemma text_parts (k : nat) z :
  0 <= z ->
  exists (j : nat), let ip := int_text (z / 10 ^ Z.of_nat k) in let frac := fraction_text k z in
    all_digits ip = true /\ (exists c s, ip = String c s /\ is_digit c = true) /\ all_digits frac = true /\
    k = (String.length frac + j)%nat /\ z = digits_val (digits_val 0 ip) frac * 10 ^ Z.of_nat j.
Proof.
  intros Hz. pose proof (Z.pow_pos_nonneg 10 (Z.of_nat k) ltac:(lia) ltac:(lia)) as Hp.
  assert (Hq : 0 <= z / 10 ^ Z.of_nat k) by (apply Z.div_pos; lia).
  destruct (nat_text_spec (Z.to_nat (z / 10 ^ Z.of_nat k)) (z / 10 ^ Z.of_nat k) EmptyString) as (E & Ha & Hc); [lia|].
  destruct (trim_zeros (digits_fixed k z) (all_digits_fixed k z)) as (Hd & j & Hl & Hv).
  exists j. split_and!; [by apply Ha|done|done|rewrite length_digits_fixed in Hl; exact Hl|].
  fold (int_text (z / 10 ^ Z.of_nat k)) in E. cbn [digits_val] in E. rewrite E.
  fold (fraction_text k z) in Hv. rewrite <- Hv, digits_val_acc, length_digits_fixed, digits_val_fixed by done.
  pose proof (Z.div_mod z (10 ^ Z.of_nat k)). lia.
Qed.

(** The text is read back as the number it was printed from. *)
Definition ten_parts (d : ten) : Z * nat :=
  if 0 <=? texp d then (coef d * 10 ^ texp d, O) else (coef d, Z.to_nat (- texp d)).

Lemma ten_parts_val d : (tval d == inject_Z (fst (ten_parts d)) / inject_Z (10 ^ Z.of_nat (snd (ten_parts d))))%Q.
Proof.
  unfold ten_parts, tval. destruct (Z.leb_spec 0 (texp d)); cbn [fst snd].
  - rewrite inject_Z_mult, pow10_Z by lia. change (inject_Z (10 ^ Z.of_nat 0)) with 1%Q. field.
  - rewrite Z2Nat.id by lia. rewrite <- pow10_Z by lia. replace (texp d) with (- (- texp d)) at 1 by lia.
    unfold pow10. rewrite Qpower_opp. field. apply (pow10_nonzero (- texp d)).
Qed.

Lemma ten_string_parts d :
  let '(c, k) := ten_parts d in
  ten_string d = (if c <? 0 then "-" else "") +:+ int_text (Z.abs c / 10 ^ Z.of_nat k) +:+
    (if String.eqb (fraction_text k (Z.abs c)) "" then "" else "." +:+ fraction_text k (Z.abs c)).
Proof. unfold ten_string, ten_parts. by destruct (0 <=? texp d). Qed.

(** Reading an unsigned text. *)
Lemma read_unsigned k z :
  0 <= z ->
  exists w j, read_plain (int_text (z / 10 ^ Z.of_nat k) +:+
      (if String.eqb (fraction_text k z) "" then "" else "." +:+ fraction_text k z)) false 0 0 false =
    Some (w, Z.of_nat k - j) /\ 0 <= j /\ z = w * 10 ^ j.
Proof.
  intros Hz. destruct (text_parts k z Hz) as (j & Hi & (c & s & Hc & _) & Hf & Hk & Hv). cbv zeta in *.
  exists (digits_val (digits_val 0 (int_text (z / 10 ^ Z.of_nat k))) (fraction_text k z)), (Z.of_nat j).
  split_and!; [|lia|done]. rewrite read_digits by done.
  assert (Hne : String.eqb (int_text (z / 10 ^ Z.of_nat k)) "" = false) by (by rewrite Hc).
  rewrite Hne. cbn [orb negb]. destruct (fraction_text k z) as [|a f] eqn:E.
  - cbn [String.eqb read_plain digits_val String.length] in *. f_equal. f_equal. lia.
  - cbn [String.eqb]. set (acc := digits_val 0 (int_text (z / 10 ^ Z.of_nat k))).
    change (read_plain ("." +:+ String a f) false acc 0 true) with (read_plain (String a f) true acc 0 true).
    pose proof (read_digits (String a f) EmptyString true acc 0 true Hf) as R.
    assert (Happ : String a f +:+ EmptyString = String a f) by (apply string_app_nil_r). rewrite Happ in R. rewrite R.
    cbn [read_plain orb]. f_equal. f_equal. lia.
Qed.

Lemma ten_string_read d : exists d', ten_read (ten_string d) = Some d' /\ (tval d' == tval d)%Q.
Proof.
  pose proof (ten_string_parts d) as Ht. pose proof (ten_parts_val d) as Hval. destruct (ten_parts d) as [c k]. cbn [fst snd] in Hval.
  destruct (read_unsigned k (Z.abs c) ltac:(lia)) as (w & j & Hr & Hj & Hw).
  set (body := int_text (Z.abs c / 10 ^ Z.of_nat k) +:+ _) in *.
  assert (Hres : forall sg, c = sg * Z.abs c -> (tval (mkTen (sg * w) (- (Z.of_nat k - j))) == tval d)%Q).
  { intros sg Hsg. rewrite Hval, Hsg, Hw. unfold tval. cbn [coef texp]. rewrite !inject_Z_mult.
    rewrite <- !pow10_Z by lia. replace (- (Z.of_nat k - j)) with (j + - Z.of_nat k) by lia. rewrite pow10_mult.
    unfold pow10 at 2. rewrite Qpower_opp. change (inject_Z 10 ^ Z.of_nat k)%Q with (pow10 (Z.of_nat k)). field. apply pow10_nonzero. }
  rewrite Ht. destruct (Z.ltb_spec c 0).
  - exists (mkTen (-1 * w) (- (Z.of_nat k - j))). split; [|apply Hres; lia].
    change ("-" +:+ body) with (String (Ascii.ascii_of_nat 45) body). unfold ten_read.
    change (is_char (Ascii.ascii_of_nat 45) 45) with true. cbn [fst snd]. by rewrite Hr.
  - exists (mkTen (1 * w) (- (Z.of_nat k - j))). split; [|apply Hres; lia].
    change ("" +:+ body) with body. destruct (text_parts k (Z.abs c) ltac:(lia)) as (j' & _ & (a & s & Ha & Hd) & _).
    cbv zeta in Ha. unfold body in Hr |- *. rewrite Ha in Hr |- *.
    set (rest := if String.eqb _ _ then _ else _) in *.
    change (String a s +:+ rest) with (String a (s +:+ rest)) in *. unfold ten_read.
    assert (Hs : is_char a 45 = false /\ is_char a 43 = false).
    { unfold is_char, is_digit in *. apply andb_true_iff in Hd as [Hd _]. apply Z.leb_le in Hd.
      split; apply Nat.eqb_neq; lia. }
    destruct Hs as [-> ->]. by rewrite Hr.
Qed.

Lemma ten_parts_sign d : fst (ten_parts d) < 0 <-> (tval d < 0)%Q.
Proof.
  rewrite ten_parts_val. set (c := fst (ten_parts d)). set (p := 10 ^ Z.of_nat (snd (ten_parts d))).
  assert (Hp : (0 < inject_Z p)%Q).
  { change 0%Q with (inject_Z 0). rewrite <- Zlt_Qlt. apply Z.pow_pos_nonneg; lia. }
  rewrite Zlt_Qlt. change (inject_Z 0) with 0%Q. split; intros H.
  - apply (Qmult_lt_r _ _ (inject_Z p) Hp). unfold Qdiv. rewrite <- Qmult_assoc, (Qmult_comm (/ _)), Qmult_inv_r by lra. lra.
  - apply (Qmult_lt_r _ _ (inject_Z p) Hp) in H. unfold Qdiv in H.
    rewrite <- Qmult_assoc, (Qmult_comm (/ _)), Qmult_inv_r in H by lra. lra.
Qed.

Lemma decimal_from_digits s t : all_digits s = true -> is_decimal_from true (s +:+ t) = is_decimal_from true t.
Proof.
  induction s as [|c s IH]; intros H; [done|]. cbn [all_digits] in H. apply andb_true_iff in H as [Hc Hs].
  change (String c s +:+ t) with (String c (s +:+ t)). cbn [is_decimal_from]. rewrite Hc. by apply IH.
Qed.

Lemma ten_string_plain d : (0 <= tval d)%Q -> is_decimal (ten_string d) = true.
Proof.
  intros H. pose proof (ten_string_parts d) as Ht. pose proof (ten_parts_sign d) as Hs.
  destruct (ten_parts d) as [c k]. cbn [fst] in Hs.
  assert (Hc : (c <? 0) = false) by (apply Z.ltb_ge; destruct (Z.lt_ge_cases c 0); [apply Hs in H0; lra|done]).
  rewrite Ht, Hc. destruct (text_parts k (Z.abs c) ltac:(lia)) as (j & Hi & (a & s & Ha & Hd) & Hf & _). cbv zeta in *.
  rewrite Ha in *. set (frac := fraction_text k (Z.abs c)) in *.
  change ("" +:+ String a s +:+ (if String.eqb frac "" then "" else "." +:+ frac))
    with (String a (s +:+ (if String.eqb frac "" then "" else "." +:+ frac))).
  unfold is_decimal. cbn [is_decimal_from]. rewrite Hd. cbn [all_digits] in Hi. apply andb_true_iff in Hi as [_ Hi].
  rewrite decimal_from_digits by done. destruct frac as [|b f]; [done|].
  cbn [String.eqb]. change ("." +:+ String b f) with (String (Ascii.ascii_of_nat 46) (String b f)).
  cbn [is_decimal_from]. change (is_digit (Ascii.ascii_of_nat 46)) with false. cbn [andb String.eqb negb].
  change (is_char (Ascii.ascii_of_nat 46) 46) with true. done.
Qed.

Lemma ten_string_negative d : (tval d < 0)%Q -> ten_string d = "-" +:+ ten_string (ten_neg d).
Proof.
  intros H. pose proof (ten_string_parts d) as Ht. pose proof (ten_string_parts (ten_neg d)) as Hn.
  apply ten_parts_sign in H. assert (E : ten_parts (ten_neg d) = (- fst (ten_parts d), snd (ten_parts d))).
  { unfold ten_parts, ten_neg. cbn [texp coef]. destruct (0 <=? texp d); cbn [fst snd]; f_equal; lia. }
  rewrite E in Hn. destruct (ten_parts d) as [c k]. cbn [fst snd] in *.
  rewrite Ht, Hn, Z.abs_opp. replace (c <? 0) with true by lia. replace (- c <? 0) with false by lia. done.
Qed.

#[local] Instance tenText : DecimalText tenDecimal := {
  dNewFromString := ten_read : string -> option (@Decimal tenDecimal);
  dString := ten_string : @Decimal tenDecimal -> string;
  dPowWithPrecision base e p :=
    if 0 <=? texp e then Some (mkTen (coef base ^ (coef e * 10 ^ texp e)) (texp base * (coef e * 10 ^ texp e))) else None;
  dFloat64 _ := S754_zero false
}.

#[local] Instance tenText_laws : DecimalTextLaws tenDecimal tenText.
Proof. split; [exact ten_string_plain|exact ten_string_negative|exact ten_string_read|by exists (mkTen 0 0)]. Qed.
