(* ===== verification/GoTimeText.v ===== *)
(** * Go's [time.Parse] and [Format] on the layouts blkit uses

    A layout is a list of chunks.  [Local] is the host's time zone and
    [LoadLocation] the time zone database: parameters.  Errors are not told
    apart. *)

From Stdlib Require Import Strings.Ascii.
From S2P Require Import Prelude Decimal GoText GoTime Values Lists Numbers NumberLaws TenDecimal.
#[global] Open Scope Z_scope.

Class TimeZones : Type := {
  LoadLocation : string -> option Location;
  Local : Location
}.

Inductive Chunk : Type :=
| stdLongYear            (* 2006 *)
| stdZeroMonth           (* 01 *)
| stdZeroDay             (* 02 *)
| stdHour                (* 15 *)
| stdZeroMinute          (* 04 *)
| stdZeroSecond          (* 05 *)
| stdFracSecond9         (* .999999999 *)
| stdISO8601ColonTZ      (* Z07:00 *)
| Lit (c : Ascii.ascii).

Definition layoutDate : list Chunk :=
  [stdLongYear; Lit "-"%char; stdZeroMonth; Lit "-"%char; stdZeroDay].
Definition layoutTime : list Chunk :=
  [stdHour; Lit ":"%char; stdZeroMinute; Lit ":"%char; stdZeroSecond].
Definition layoutTimeFrac : list Chunk := layoutTime ++ [stdFracSecond9].
Definition layoutDateTime : list Chunk := layoutDate ++ Lit "T"%char :: layoutTime.
Definition layoutDateTimeFrac : list Chunk := layoutDate ++ Lit "T"%char :: layoutTimeFrac.

(** ** Parsing *)

Inductive ParsedZone : Type := ZNone | ZUTC | ZOffset (off : Z).

Record Parsed : Type := mkParsed {
  pd_year : Z; pd_month : Z; pd_day : Z;
  pd_hour : Z; pd_min : Z; pd_sec : Z; pd_nsec : Z;
  pd_zone : ParsedZone
}.

(** A missing month or day is the first. *)
Definition parsed0 : Parsed := mkParsed 0 1 1 0 0 0 0 ZNone.

(** [getnum]: two digits, or one unless [fixed]. *)
Definition getnum (fixed : bool) (s : string) : option (Z * string) :=
  match s with
  | String c s' =>
      if negb (is_digit c) then None
      else match s' with
           | String d s'' =>
               if is_digit d then Some (digit_val c * 10 + digit_val d, s'')
               else if fixed then None else Some (digit_val c, s')
           | EmptyString => if fixed then None else Some (digit_val c, EmptyString)
           end
  | EmptyString => None
  end.

(** The digits after the point, of which nine count. *)
Fixpoint nano_val (k : nat) (s : string) : Z :=
  match k with
  | O => 0
  | S k' =>
      match s with
      | EmptyString => 0
      | String c s' => digit_val c * 10 ^ Z.of_nat k' + nano_val k' s'
      end
  end.

Fixpoint skip_digits (s : string) : string :=
  match s with
  | EmptyString => EmptyString
  | String c s' => if is_digit c then skip_digits s' else s
  end.
Fixpoint lead_digits (s : string) : string :=
  match s with
  | EmptyString => EmptyString
  | String c s' => if is_digit c then String c (lead_digits s') else EmptyString
  end.

Definition parse_year (s : string) : option (Z * string) :=
  match s with
  | String a (String b (String c (String d s'))) =>
      if is_digit a && is_digit b && is_digit c && is_digit d
      then Some (digits_val 0 (String a (String b (String c (String d EmptyString)))), s')
      else None
  | _ => None
  end.

Definition parse_zone (s : string) : option (ParsedZone * string) :=
  match s with
  | String c s' =>
      if is_char c 90 then Some (ZUTC, s')
      else match getnum true s' with
           | Some (hr, String colon s'') =>
               match getnum true s'' with
               | Some (mm, rest) =>
                   if negb (is_char colon 58) || (24 <? hr) || (60 <? mm) then None
                   else if is_char c 43 then Some (ZOffset ((hr * 60 + mm) * 60), rest)
                   else if is_char c 45 then Some (ZOffset (- ((hr * 60 + mm) * 60)), rest)
                   else None
               | None => None
               end
           | _ => None
           end
  | EmptyString => None
  end.

(** A number within bounds. *)
Definition bounded (lo hi : Z) (r : option (Z * string)) : option (Z * string) :=
  match r with
  | Some (z, s) => if (z <? lo) || (hi <? z) then None else Some (z, s)
  | None => None
  end.

Definition parse_chunk (c : Chunk) (s : string) (p : Parsed) : option (Parsed * string) :=
  let '(mkParsed y mo d h mi sec ns z) := p in
  match c with
  | stdLongYear => match parse_year s with Some (y, s) => Some (mkParsed y mo d h mi sec ns z, s) | None => None end
  | stdZeroMonth => match bounded 1 12 (getnum true s) with Some (mo, s) => Some (mkParsed y mo d h mi sec ns z, s) | None => None end
  | stdZeroDay => match getnum true s with Some (d, s) => Some (mkParsed y mo d h mi sec ns z, s) | None => None end
  | stdHour => match bounded 0 23 (getnum false s) with Some (h, s) => Some (mkParsed y mo d h mi sec ns z, s) | None => None end
  | stdZeroMinute => match bounded 0 59 (getnum true s) with Some (mi, s) => Some (mkParsed y mo d h mi sec ns z, s) | None => None end
  | stdZeroSecond => match bounded 0 59 (getnum true s) with Some (sec, s) => Some (mkParsed y mo d h mi sec ns z, s) | None => None end
  | stdFracSecond9 =>
      match s with
      | String dot (String c s') =>
          if (is_char dot 46 || is_char dot 44) && is_digit c
          then Some (mkParsed y mo d h mi sec (nano_val 9 (lead_digits (String c s'))) z, skip_digits (String c s'))
          else Some (p, s)
      | _ => Some (p, s)
      end
  | stdISO8601ColonTZ => match parse_zone s with Some (z, s) => Some (mkParsed y mo d h mi sec ns z, s) | None => None end
  | Lit a => match s with String b s' => if Ascii.eqb a b then Some (p, s') else None | EmptyString => None end
  end.

Fixpoint parse_chunks (l : list Chunk) (s : string) (p : Parsed) : option Parsed :=
  match l with
  | [] => match s with EmptyString => Some p | String _ _ => None end
  | c :: l' =>
      match parse_chunk c s p with
      | Some (p', s') => parse_chunks l' s' p'
      | None => None
      end
  end.

(** The instant of what was parsed; a numeric offset names the host's zone when
    that has the offset then. *)
Definition parsed_time `{!TimeZones} (p : Parsed) (loc : Location) : option Time :=
  let '(mkParsed y mo d h mi sec ns z) := p in
  if (d <? 1) || (days_in_month y mo <? d) then None
  else Some
    match z with
    | ZUTC => goDate y mo d h mi sec ns UTC
    | ZOffset off =>
        let t := goDate y mo d h mi sec ns UTC in
        let unix := t_unix t - off in
        mkTime unix (t_nsec t) (if loc_offset Local unix =? off then Local else FixedZone "" off)
    | ZNone => goDate y mo d h mi sec ns loc
    end.

(** [time.ParseInLocation(layout, s, loc)] *)
Definition ParseInLocation `{!TimeZones} (layout : list Chunk) (s : string) (loc : Location) : option Time :=
  match parse_chunks layout s parsed0 with
  | Some p => parsed_time p loc
  | None => None
  end.

(** [time.Parse(layout, s)] *)
Definition time_Parse `{!TimeZones} (layout : list Chunk) (s : string) : option Time := ParseInLocation layout s UTC.

(** ** Formatting *)

(** [appendInt(x, width)] for four and two digits *)
Definition year_text (y : Z) : string :=
  if y <? 0 then "-" +:+ (if - y <? 10000 then digits_fixed 4 (- y) else int_text (- y))
  else if y <? 10000 then digits_fixed 4 y else int_text y.
Definition two (z : Z) : string := digits_fixed 2 z.

(** [.999999999]: no trailing zeros, nothing at all for zero. *)
Definition frac_text (ns : Z) : string :=
  if ns =? 0 then "" else "." +:+ trim_right_char "0"%char (digits_fixed 9 ns).

(** [Z07:00] *)
Definition zone_text (off : Z) : string :=
  if off =? 0 then "Z"
  else
    let zone := Z.quot off 60 in
    (if zone <? 0 then "-" else "+") +:+ two (Z.quot (Z.abs zone) 60) +:+ ":" +:+ two (Z.rem (Z.abs zone) 60).

Definition format_chunk (t : Time) (c : Chunk) : string :=
  match c with
  | stdLongYear => year_text (Year t)
  | stdZeroMonth => two (Month t)
  | stdZeroDay => two (Day t)
  | stdHour => two (Hour t)
  | stdZeroMinute => two (Minute t)
  | stdZeroSecond => two (Second t)
  | stdFracSecond9 => frac_text (t_nsec t)
  | stdISO8601ColonTZ => zone_text (loc_offset (t_loc t) (t_unix t))
  | Lit a => String a EmptyString
  end.

(** [t.Format(layout)] *)
Fixpoint Format (t : Time) (l : list Chunk) : string :=
  match l with
  | [] => EmptyString
  | c :: l' => format_chunk t c +:+ Format t l'
  end.
