(* ===== verification/NumberText.v ===== *)
(** * Numbers and their text

    [number("...")] against the text form of numbers, and concrete instances of
    the theorems of [NumberLaws]. *)

From Stdlib Require Import SpecFloat Qabs Qpower Lqa.
From S2P Require Import Prelude Decimal GoText GoTime Values Lists Numbers NumberLaws TenDecimal.
#[global] Open Scope Z_scope.

Fixpoint all_numeric (s : string) : bool :=
  match s with
  | EmptyString => true
  | String c s' => numeric_char c && all_numeric s'
  end.

Lemma digit_numeric c : is_digit c = true -> numeric_char c = true.
Proof. unfold is_digit, numeric_char. by intros ->. Qed.

Lemma all_digits_numeric s : all_digits s = true -> all_numeric s = true.
Proof.
  induction s as [|c s IH]; [done|]. cbn [all_digits all_numeric]. intros [H1 H2]%andb_true_iff.
  by rewrite digit_numeric, IH.
Qed.

Lemma decimal_numeric b s : is_decimal_from b s = true -> all_numeric s = true.
Proof.
  revert b. induction s as [|c s IH]; intros b; [done|]. cbn [is_decimal_from all_numeric].
  destruct (is_digit c) eqn:E; [intros H; by rewrite (digit_numeric c E), (IH true)|].
  intros [[[_ Hc]%andb_true_iff _]%andb_true_iff Hs]%andb_true_iff. rewrite (all_digits_numeric s Hs), andb_true_r.
  unfold is_char in Hc. apply Nat.eqb_eq in Hc. unfold numeric_char. rewrite Hc. done.
Qed.


(** White space is not numeric, so that trimming before stripping changes nothing. *)
Lemma space_not_numeric c : isSpace c = true -> numeric_char c = false.
Proof.
  unfold isSpace, numeric_char. intros H. set (n := Z.of_nat (Ascii.nat_of_ascii c)) in *. cbv zeta in *.
  assert (9 <= n <= 13 \/ n = 32) by lia. lia.
Qed.

Lemma strip_trim_left s : numericStrip (trim_left s) = numericStrip s.
Proof.
  induction s as [|c s IH]; [done|]. cbn [trim_left]. destruct (isSpace c) eqn:E; [|done].
  rewrite IH. cbn [numericStrip]. by rewrite (space_not_numeric c E).
Qed.

Lemma strip_trim_right s : numericStrip (trim_right s) = numericStrip s.
Proof.
  induction s as [|c s IH]; [done|]. cbn [trim_right numericStrip]. destruct (trim_right s) as [|c' s'].
  - rewrite <- IH. destruct (isSpace c) eqn:E; [by rewrite (space_not_numeric c E)|]. cbn [numericStrip].
    by destruct (numeric_char c).
  - rewrite <- IH. reflexivity.
Qed.

Lemma strip_TrimSpace s : numericStrip (TrimSpace s) = numericStrip s.
Proof. unfold TrimSpace. by rewrite strip_trim_right, strip_trim_left. Qed.

Section Laws.
Context {DO : DecimalOps} {DL : DecimalLaws DO} {DT : DecimalText DO} {TL : DecimalTextLaws DO DT} {GM : GoMath}.

Lemma dString_numeric d : all_numeric (dString d) = true /\ dString d <> EmptyString.
Proof.
  assert (Hpos : forall e, (0 <= dval e)%Q -> all_numeric (dString e) = true /\ dString e <> EmptyString).
  { intros e He. pose proof (dString_plain e He) as H. split; [by eapply decimal_numeric|].
    intros E. by rewrite E in H. }
  destruct (Qlt_le_dec (dval d) 0) as [H|H]; [|by apply Hpos]. rewrite dString_negative by done.
  destruct (Hpos (dNeg d)) as [H1 _]; [rewrite dval_Neg; lra|].
  change ("-" +:+ dString (dNeg d)) with (String (Ascii.ascii_of_nat 45) (dString (dNeg d))). split; [|done].
  cbn [all_numeric]. rewrite H1. done.
Qed.

(** A number's text is made of digits, a point, signs and the letter of an
    exponent; every other byte may be written anywhere in it. *)
Definition number_chars : list Ascii.ascii := String.list_ascii_of_string "0123456789.+-eE".

(** [written t s]: [s] is [t] with other bytes in between. *)
Inductive written : string -> string -> Prop :=
| written_end : written EmptyString EmptyString
| written_char c t s : written t s -> written (String c t) (String c s)
| written_other c t s : c ∉ number_chars -> written t s -> written t (String c s).

Lemma other_not_numeric c : c ∉ number_chars -> numeric_char c = false.
Proof.
  intros Hc. destruct (numeric_char c) eqn:E; [|done]. destruct Hc. revert E.
  destruct c as [[] [] [] [] [] [] [] []]; vm_compute; intros E; try discriminate E;
    repeat first [by apply list_elem_of_here | apply list_elem_of_further].
Qed.

Lemma written_strip t s : written t s -> all_numeric t = true -> numericStrip s = t.
Proof.
  induction 1 as [|c t s _ IH|c t s Hc _ IH]; intros Ht; [done| |].
  - cbn [all_numeric] in Ht. apply andb_true_iff in Ht as [Hc Ht]. cbn [numericStrip]. by rewrite Hc, IH.
  - cbn [numericStrip]. by rewrite other_not_numeric, IH.
Qed.

Lemma written_refl t : written t t.
Proof. induction t; by constructor. Qed.

Lemma number_of_written d s :
  written (dString d) s -> exists d', numberFn [BlString s] = Ok (BlNumber d') /\ (dval d' == dval d)%Q.
Proof.
  intros Hw. destruct (dString_numeric d) as [Ha _]. pose proof (written_strip _ _ Hw Ha) as Hs. clear Hw Ha.
  destruct (dString_numeric d) as [_ Hne]. destruct (dString_read d) as (d' & Hr & Hv). exists d'. split; [|done].
  change (numberFn [BlString s]) with (match numberFromString s with Ok n => Ok n | Err _ => Ok BlNull end).
  unfold numberFromString. rewrite strip_TrimSpace, Hs. destruct (String.eqb_spec (dString d) ""); [done|]. by rewrite Hr.
Qed.

(** C28. [number] reads back the text of every number, negative ones and fractions
    included, whatever other characters (grouping commas, currency signs, blanks,
    letters but e and E) are written before, between and after those of the text. *)
Theorem number_text_roundtrip (d : Decimal) (s : string) :
  written (dString d) s ->
  exists d', numberFn [BlString s] = Ok (BlNumber d') /\ (dval d' == dval d)%Q.
Proof. apply number_of_written. Qed.

Lemma number_of_text d : exists d', numberFn [BlString (dString d)] = Ok (BlNumber d') /\ (dval d' == dval d)%Q.
Proof. apply number_of_written, written_refl. Qed.

End Laws.

(** ** Concrete instances *)

#[global] Instance sampleMath : GoMath := {|
  mathExp f := f;
  mathLog f := f;
  mathSqrt f := f;
  bigSqrtText _ _ := None
|}.

Lemma number_text_roundtrip_witness :
  exists d', numberFn (DT := tenText) [BlString " -$1,234.5 "] = Ok (BlNumber d') /\ (tval d' == (-12345) # 10)%Q.
Proof.
  destruct (number_text_roundtrip (DL := tenDecimal_laws) (TL := tenText_laws) (mkTen (-12345) (-1)) " -$1,234.5 ") as (d' & Hr & Hv).
  { change (dString _) with "-1234.5"%string.
    repeat first [apply written_end | apply written_char | apply written_other; [vm_compute; set_solver|]]. }
  exists d'. split; [exact Hr|]. etransitivity; [exact Hv|]. reflexivity.
Defined.

Lemma rounding_modes_witness :
  exists up down even, roundHalfUpFn (DO := QDecimal) (5 # 2) 0%Q = BlNumber up /\
    roundHalfDownFn (DO := QDecimal) (5 # 2) 0%Q = BlNumber down /\
    roundHalfEvenFn (DO := QDecimal) (7 # 2) 0%Q = BlNumber even /\ (up == 3)%Q /\ (down == 2)%Q /\ (even == 4)%Q.
Proof.
  destruct (rounding_modes (DL := QDecimal_laws) (5 # 2) 0%Q) as (_ & _ & (u & Hu & Eu) & _ & (d & Hd & Ed) & _);
    [vm_compute; intuition congruence|].
  destruct (rounding_modes (DL := QDecimal_laws) (7 # 2) 0%Q) as (_ & _ & _ & _ & _ & (e & He & Ee));
    [vm_compute; intuition congruence|].
  exists u, d, e. split_and!; [exact Hu|exact Hd|exact He|rewrite Eu|rewrite Ed|rewrite Ee]; reflexivity.
Defined.

Lemma division_precision_witness :
  exists r, divNumbers (DO := QDecimal) 1%Q 8%Q = BlNumber r /\ (r == 1 # 8)%Q.
Proof.
  destruct (division_precision (DL := QDecimal_laws) 1%Q 8%Q) as [_ H]. destruct H as (r & Hr & _ & _ & He); [discriminate|].
  exists r. split; [exact Hr|]. apply (He (125 * 10 ^ 31)). reflexivity.
Defined.

(** Division keeps 34 decimal places, not 34 significant digits: a third of 10^30
    has 64 digits, and a quotient below half a unit of the 36th place is zero. *)
Theorem division_keeps_decimal_places :
  match divNumbers (DO := QDecimal) (inject_Z (10 ^ 30)) 3%Q with
  | BlNumber r => (r == inject_Z ((10 ^ 64 - 1) / 3) / inject_Z (10 ^ 34))%Q
  | _ => False
  end.
Proof. vm_compute. reflexivity. Qed.

Theorem division_drops_small_quotients :
  match divNumbers (DO := QDecimal) 1%Q (inject_Z (10 ^ 40)) with
  | BlNumber r => (r == 0)%Q
  | _ => False
  end.
Proof. vm_compute. reflexivity. Qed.

(** [number] drops every character that cannot be part of a number, so text
    around digits is accepted. *)
Theorem number_ignores_letters {DO : DecimalOps} {DT : DecimalText DO} :
  numberFromString "abc12" = match dNewFromString "12" with
                             | Some d => Ok (BlNumber d)
                             | None => Err (TypeError "Number" "cannot parse abc12")
                             end.
Proof. reflexivity. Qed.
