(* ===== verification/Durations.v ===== *)
(** * Durations

    Models [core/days_time_duration.go], [core/years_months_duration.go] and
    [core/duration_parse.go]: construction, ISO 8601 parsing and formatting,
    arithmetic, components and rounding of the two duration types, with the
    rounding modes of [core/overloads.go].  A days-time duration is a decimal
    number of seconds, a years-months duration a decimal number of months. *)

From Stdlib Require Import SpecFloat Qabs Qpower Lqa.
From S2P Require Import Prelude Decimal GoText GoTime Values Lists Numbers.
#[global] Open Scope Z_scope.

(** ** The grammar ([duration_parse.go]) *)

(** The longest prefix of digits. *)
Fixpoint take_digits (s : string) : string * string :=
  match s with
  | EmptyString => (EmptyString, EmptyString)
  | String c s' =>
      if is_digit c then let '(ds, rest) := take_digits s' in (String c ds, rest) else (EmptyString, s)
  end.

(** [\d+(?:\.\d+)?] *)
Definition take_number (s : string) : option (string * string) :=
  let '(ds, rest) := take_digits s in
  if String.eqb ds "" then None
  else match rest with
       | String c rest' =>
           if is_char c 46 then
             let '(fs, rest'') := take_digits rest' in
             if String.eqb fs "" then Some (ds, rest) else Some (ds +:+ String c fs, rest'')
           else Some (ds, rest)
       | EmptyString => Some (ds, rest)
       end.

(** [(?:(\d+(?:\.\d+)?)L)?]: the number of the group, empty when it is absent. *)
Definition opt_field (letter : nat) (s : string) : string * string :=
  match take_number s with
  | Some (n, String c rest) => if is_char c letter then (n, rest) else (EmptyString, s)
  | _ => (EmptyString, s)
  end.

(** [isoDurationRe]: the sign and the six groups. *)
Definition isoDurationRe (s : string) : option (string * list string) :=
  let '(sign, s) :=
    match s with
    | String c s' => if is_char c 43 || is_char c 45 then (String c EmptyString, s') else (EmptyString, s)
    | EmptyString => (EmptyString, s)
    end in
  match s with
  | String c s =>
      if negb (is_char c 80) then None
      else
        let '(y, s) := opt_field 89 s in
        let '(mo, s) := opt_field 77 s in
        let '(d, s) := opt_field 68 s in
        let '(h, mi, sec, s) :=
          match s with
          | String c s' =>
              if is_char c 84 then
                let '(h, s') := opt_field 72 s' in
                let '(mi, s') := opt_field 77 s' in
                let '(sec, s') := opt_field 83 s' in
                (h, mi, sec, s')
              else (EmptyString, EmptyString, EmptyString, s)
          | EmptyString => (EmptyString, EmptyString, EmptyString, s)
          end in
        match s with
        | EmptyString => Some (sign, [y; mo; d; h; mi; sec])
        | String _ _ => None
        end
  | EmptyString => None
  end.

Section Durations.
Context {DO : DecimalOps} {DT : DecimalText DO}.

(** The parts of a duration: a value is present when its group was. *)
Record isoDurationParts : Type := mkParts {
  p_negative : bool;
  p_years : option Decimal;
  p_monthsDate : option Decimal;
  p_days : option Decimal;
  p_hours : option Decimal;
  p_minutesTime : option Decimal;
  p_seconds : option Decimal
}.

(** [set]: [None] when the number does not parse. *)
Definition set_part (raw : string) : option (option Decimal) :=
  if String.eqb raw "" then Some None
  else match dNewFromString raw with
       | None => None
       | Some d => Some (Some d)
       end.

Definition parseISODuration (s : string) : option isoDurationParts :=
  let up := ToUpper (TrimSpace s) in
  match isoDurationRe up with
  | Some (sign, [y; mo; d; h; mi; sec]) =>
      if String.eqb up "P" || String.eqb up "PT" then None
      else if forallb (fun raw => String.eqb raw "") [y; mo; d; h; mi; sec] then None
      else match set_part y, set_part mo, set_part d, set_part h, set_part mi, set_part sec with
           | Some y, Some mo, Some d, Some h, Some mi, Some sec =>
               Some (mkParts (String.eqb sign "-") y mo d h mi sec)
           | _, _, _, _, _, _ => None
           end
  | _ => None
  end.

Definition has {A} (o : option A) : bool := match o with Some _ => true | None => false end.
Definition dZero : Decimal := dNewFromInt 0.

Definition decSecondsPerDay : Decimal := dNewFromInt 86400.
Definition decSecondsPerHour : Decimal := dNewFromInt 3600.
Definition decSecondsPerMinute : Decimal := dNewFromInt 60.
Definition decMonthsPerYear : Decimal := dNewFromInt 12.

(** ** Days-time durations *)

Definition dtDur (secs : Decimal) : BlValue := BlDaysTimeDuration secs.

(** [d*86400 + h*3600 + m*60 + s] *)
Definition dt_total (d h m s : Decimal) : Decimal :=
  dAdd (dAdd (dAdd (dMul d decSecondsPerDay) (dMul h decSecondsPerHour)) (dMul m decSecondsPerMinute)) s.

Definition dtDurationFn (s : string) : result BlValue :=
  match parseISODuration s with
  | None => Err (ParseError s "invalid duration")
  | Some p =>
      if has (p_years p) || has (p_monthsDate p)
      then Err (ParseError s "year/month designators not allowed in dtDuration")
      else
        let total := dt_total (default dZero (p_days p)) (default dZero (p_hours p))
                       (default dZero (p_minutesTime p)) (default dZero (p_seconds p)) in
        Ok (dtDur (if p_negative p then dNeg total else total))
  end.

(** A component that is written unless it is zero. *)
Definition component (d : Decimal) (letter : string) : string :=
  if dIsZero d then "" else dString d +:+ letter.

Definition formatDTDuration (secs : Decimal) : string :=
  if dIsZero secs then "PT0S"
  else
    let '(sign, a) := if dSign secs <? 0 then ("-", dNeg secs) else ("", secs) in
    let days := dFloor (dDiv a decSecondsPerDay) in
    let rem := dSub a (dMul days decSecondsPerDay) in
    let hours := dFloor (dDiv rem decSecondsPerHour) in
    let rem := dSub rem (dMul hours decSecondsPerHour) in
    let minutes := dFloor (dDiv rem decSecondsPerMinute) in
    let seconds := dSub rem (dMul minutes decSecondsPerMinute) in
    sign +:+ "P" +:+ component days "D" +:+
      (if negb (dIsZero hours) || negb (dIsZero minutes) || negb (dIsZero seconds)
       then "T" +:+ component hours "H" +:+ component minutes "M" +:+ component seconds "S"
       else "").

(** Components *)
Definition dt_Days (secs : Decimal) : Z := dIntPart (dTruncate (dDiv secs decSecondsPerDay) 0).
Definition dt_Hours (secs : Decimal) : Z :=
  dIntPart (dTruncate (dDiv (dMod (dAbs secs) decSecondsPerDay) decSecondsPerHour) 0) * dSign secs.
Definition dt_Minutes (secs : Decimal) : Z :=
  dIntPart (dTruncate (dDiv (dMod (dAbs secs) decSecondsPerHour) decSecondsPerMinute) 0) * dSign secs.
Definition dt_Seconds (secs : Decimal) : Decimal :=
  let rem := dMod (dAbs secs) decSecondsPerMinute in if dSign secs <? 0 then dNeg rem else rem.

(** Operators *)
Definition addDTDuration (a b : Decimal) : BlValue := dtDur (dAdd a b).
Definition subDTDuration (a b : Decimal) : BlValue := dtDur (dSub a b).
Definition negDTDuration (d : Decimal) : BlValue := dtDur (dNeg d).
Definition scaleDTDuration (d n : Decimal) : BlValue := dtDur (dMul d n).
Definition divDTDuration (d n : Decimal) : BlValue :=
  if dIsZero n then BlNull
  else dtDur (dTruncate (dDivRound d n (numericPrecision + 2)) numericPrecision).

Definition durationTotalMinutesFn (d : Decimal) : BlValue := num (dDivRound d decSecondsPerMinute numericPrecision).
Definition durationTotalHoursFn (d : Decimal) : BlValue := num (dDivRound d decSecondsPerHour numericPrecision).
Definition durationTotalDaysFn (d : Decimal) : BlValue := num (dDivRound d decSecondsPerDay numericPrecision).

Definition absDTFn (d : Decimal) : BlValue := dtDur (dAbs d).
Definition isNegativeDTFn (d : Decimal) : BlValue := BlBoolean (dSign d <? 0).

(** ** Rounding to a step *)

(** The modes of [overloads.go] *)
Definition roundHalfUpMode (q : Decimal) : Decimal := dRound q 0.
Definition roundUpMode (q : Decimal) : Decimal := dRoundUp q 0.
Definition roundDownMode (q : Decimal) : Decimal := dRoundDown q 0.
Definition roundHalfEvenMode (q : Decimal) : Decimal := dRoundBank q 0.
Definition roundHalfDownMode (q : Decimal) : Decimal :=
  let truncated := dTruncate q 0 in
  let remainder := dAbs (dSub q truncated) in
  if 0 <? dCmp remainder (dNew 5 (-1)) then dRoundUp q 0 else truncated.

Definition roundDTApply (mode : Decimal -> Decimal) (d step : Decimal) : result BlValue :=
  if dSign step <=? 0 then Err (TypeError "round" "step must be positive")
  else Ok (dtDur (dMul (mode (dDivRound d step (numericPrecision + 4))) step)).

Definition roundDTFn := roundDTApply roundHalfUpMode.
Definition roundUpDTFn := roundDTApply roundUpMode.
Definition roundDownDTFn := roundDTApply roundDownMode.
Definition roundHalfUpDTFn := roundDTApply roundHalfUpMode.
Definition roundHalfDownDTFn := roundDTApply roundHalfDownMode.
Definition roundHalfEvenDTFn := roundDTApply roundHalfEvenMode.

(** ** Years-months durations *)

Definition ymDur (months : Decimal) : BlValue := BlYearsMonthsDuration months.

Definition ymDurationFn (s : string) : result BlValue :=
  match parseISODuration s with
  | None => Err (ParseError s "invalid duration")
  | Some p =>
      if has (p_days p) || has (p_hours p) || has (p_minutesTime p) || has (p_seconds p)
      then Err (ParseError s "day/time designators not allowed in ymDuration")
      else
        let total := dAdd (dMul (default dZero (p_years p)) decMonthsPerYear) (default dZero (p_monthsDate p)) in
        Ok (ymDur (if p_negative p then dNeg total else total))
  end.

Definition formatYMDuration (months : Decimal) : string :=
  if dIsZero months then "P0Y0M"
  else
    let '(sign, a) := if dSign months <? 0 then ("-", dNeg months) else ("", months) in
    let years := dFloor (dDiv a decMonthsPerYear) in
    let rem := dSub a (dMul years decMonthsPerYear) in
    sign +:+ "P" +:+ component years "Y" +:+ component rem "M".

Definition ym_Years (months : Decimal) : Z := dIntPart (dTruncate (dDiv months decMonthsPerYear) 0).
Definition ym_Months (months : Decimal) : Decimal :=
  let rem := dMod (dAbs months) decMonthsPerYear in if dSign months <? 0 then dNeg rem else rem.

Definition addYMDuration (a b : Decimal) : BlValue := ymDur (dAdd a b).
Definition subYMDuration (a b : Decimal) : BlValue := ymDur (dSub a b).
Definition negYMDuration (d : Decimal) : BlValue := ymDur (dNeg d).
Definition scaleYMDuration (d n : Decimal) : BlValue := ymDur (dMul d n).
Definition divYMDuration (d n : Decimal) : BlValue :=
  if dIsZero n then BlNull
  else ymDur (dTruncate (dDivRound d n (numericPrecision + 2)) numericPrecision).

Definition durationTotalYearsFn (d : Decimal) : BlValue := num (dDivRound d decMonthsPerYear numericPrecision).

Definition absYMFn (d : Decimal) : BlValue := ymDur (dAbs d).
Definition isNegativeYMFn (d : Decimal) : BlValue := BlBoolean (dSign d <? 0).

Definition roundYMApply (mode : Decimal -> Decimal) (d step : Decimal) : result BlValue :=
  if dSign step <=? 0 then Err (TypeError "round" "step must be positive")
  else Ok (ymDur (dMul (mode (dDivRound d step (numericPrecision + 4))) step)).

Definition roundYMFn := roundYMApply roundHalfUpMode.
Definition roundUpYMFn := roundYMApply roundUpMode.
Definition roundDownYMFn := roundYMApply roundDownMode.
Definition roundHalfUpYMFn := roundYMApply roundHalfUpMode.
Definition roundHalfDownYMFn := roundYMApply roundHalfDownMode.
Definition roundHalfEvenYMFn := roundYMApply roundHalfEvenMode.

(** ** Host construction *)

(** The arguments of [DHMS] and [YM]; integer types are widened. *)
Inductive ComponentInput : Type :=
| CInt (z : Z)
| CUint (z : Z)
| CFloat (f : spec_float)
| CDecimal (d : Decimal)          (* decimal.Decimal or BlNumber *)
| CString (s : string).           (* string or BlString *)

Definition toDecimal (v : ComponentInput) : result Decimal :=
  match v with
  | CInt z => Ok (dNewFromInt z)
  | CUint z => Ok (dNewFromUint64 z)
  | CFloat (S754_nan | S754_infinity _) => Err (TypeError "component" "NaN/Inf")
  | CFloat f => Ok (dNewFromFloat f)
  | CDecimal d => Ok d
  | CString s =>
      match dNewFromString s with
      | None => Err (ErrorText ("can't convert " +:+ s +:+ " to decimal"))
      | Some d => Ok d
      end
  end.

Definition dtDurationFromComponents (days hours minutes seconds : ComponentInput) : result BlValue :=
  let! d := toDecimal days in
  let! h := toDecimal hours in
  let! m := toDecimal minutes in
  let! s := toDecimal seconds in
  Ok (dtDur (dt_total d h m s)).

Definition ymDurationFromComponents (years months : ComponentInput) : result BlValue :=
  let! y := toDecimal years in
  let! m := toDecimal months in
  Ok (ymDur (dAdd (dMul y decMonthsPerYear) m)).

(** [startsWithP] *)
Fixpoint startsWithP (s : string) : bool :=
  match s with
  | EmptyString => false
  | String c s' => if is_char c 43 || is_char c 45 then startsWithP s' else is_char c 80 || is_char c 112
  end.

Definition dtDurationFromString (s : string) : result BlValue :=
  let trimmed := TrimSpace s in
  if startsWithP trimmed then dtDurationFn trimmed
  else match dNewFromString trimmed with
       | None => Err (TypeError "DTDuration" ("cannot parse " +:+ s))
       | Some d => Ok (dtDur d)
       end.

Definition ymDurationFromString (s : string) : result BlValue :=
  let trimmed := TrimSpace s in
  if startsWithP trimmed then ymDurationFn trimmed
  else match dNewFromString trimmed with
       | None => Err (TypeError "YMDuration" ("cannot parse " +:+ s))
       | Some d => Ok (ymDur d)
       end.

(** [time.Duration.Seconds], of a number of nanoseconds *)
Definition duration_Seconds (ns : Z) : spec_float :=
  fadd (float_of_int (Z.quot ns (10 ^ 9))) (fdiv (float_of_int (Z.rem ns (10 ^ 9))) (float_of_int (10 ^ 9))).

Definition dtDurationFromFloat (f : spec_float) : result BlValue :=
  match f with
  | S754_nan | S754_infinity _ => Err (TypeError "DTDuration" "NaN/Inf")
  | _ => Ok (dtDur (dNewFromFloat f))
  end.
Definition ymDurationFromFloat (f : spec_float) : result BlValue :=
  match f with
  | S754_nan | S754_infinity _ => Err (TypeError "YMDuration" "NaN/Inf")
  | _ => Ok (ymDur (dNewFromFloat f))
  end.

(** [DTDuration] and [YMDuration], by the kind of host value. *)
Inductive DTDurationInput : Type :=
| DTComponent (c : ComponentInput)
| DTNative (nanoseconds : Z)
| DTDHMS (days hours minutes seconds : ComponentInput).

Definition DTDuration (v : DTDurationInput) : result BlValue :=
  match v with
  | DTComponent (CString s) => dtDurationFromString s
  | DTComponent (CInt z) => Ok (dtDur (dNewFromInt z))
  | DTComponent (CUint z) => Ok (dtDur (dNewFromUint64 z))
  | DTComponent (CFloat f) => dtDurationFromFloat f
  | DTComponent (CDecimal d) => Ok (dtDur d)
  | DTNative ns => Ok (dtDur (dNewFromFloat (duration_Seconds ns)))
  | DTDHMS d h m s => dtDurationFromComponents d h m s
  end.

Inductive YMDurationInput : Type :=
| YMComponent (c : ComponentInput)
| YMParts (years months : ComponentInput).

Definition YMDuration (v : YMDurationInput) : result BlValue :=
  match v with
  | YMComponent (CString s) => ymDurationFromString s
  | YMComponent (CInt z) => Ok (ymDur (dNewFromInt z))
  | YMComponent (CUint z) => Ok (ymDur (dNewFromUint64 z))
  | YMComponent (CFloat f) => ymDurationFromFloat f
  | YMComponent (CDecimal d) => Ok (ymDur d)
  | YMParts y m => ymDurationFromComponents y m
  end.

End Durations.

(** * Durations and their text

    Formatting splits a duration exactly into its components, and parsing gives
    the duration back, as long as it has at most 29 decimal places; the last
    section shows what happens beyond.  Rounding to a step goes to a multiple of
    the step. *)

From Stdlib Require Import SpecFloat Qabs Qpower Lqa.
From S2P Require Import NumberLaws TenDecimal NumberText.

(** [field] with non-zero powers of ten. *)
Ltac qfield := field; repeat split; first [apply pow10_nonzero|lra].

(** ** Exact division *)

(** Numbers with at most 29 decimal places. *)
Definition places29 (q : Q) : Prop := exists z, (q == inject_Z z / pow10 29)%Q.

Lemma Qround_half_up_ge q z : (inject_Z z <= q)%Q -> z <= Qround_half_up q.
Proof.
  intros H. unfold Qround_half_up. destruct (Qle_bool 0 q).
  - rewrite <- (Qfloor_Z z). apply Qfloor_resp_le. lra.
  - rewrite <- (Qceiling_Z z) at 1. assert (Hlt : (inject_Z (z - 1) < inject_Z (Qceiling (q - (1 # 2))))%Q).
    { pose proof (Qle_ceiling (q - (1 # 2))). replace (z - 1) with (z + -1) by lia.
      rewrite inject_Z_plus. change (inject_Z (-1)) with (-1)%Q. lra. }
    rewrite <- Zlt_Qlt in Hlt. rewrite Qceiling_Z. lia.
Qed.

(** Rounding a quotient at the 34th place does not carry it over the next integer. *)
Lemma div_floor_exact a n :
  0 < n < 10 ^ 5 -> (0 <= a)%Q -> places29 a ->
  Qfloor (Qscaled Qround_half_up (a / inject_Z n) 34) = Qfloor (a / inject_Z n).
Proof.
  intros Hn Ha [m Hm]. set (x := (a / inject_Z n)%Q). set (f := Qfloor x). destruct (Qfloor_bounds x) as [H1 H2]. fold f in H1, H2.
  assert (Hn0 : (0 < inject_Z n)%Q) by (change 0%Q with (inject_Z 0); rewrite <- Zlt_Qlt; lia).
  assert (Hx : (x == inject_Z m / (inject_Z n * pow10 29))%Q).
  { unfold x. rewrite Hm. qfield. }
  assert (Hd : (0 < inject_Z n * pow10 29)%Q) by (apply Qmult_lt_0_compat; [done|apply pow10_pos]).
  assert (Hgap : (x + 1 / (inject_Z n * pow10 29) <= inject_Z f + 1)%Q).
  { assert (Hmlt : m + 1 <= (f + 1) * n * 10 ^ 29).
    { apply Z.le_succ_l. rewrite Zlt_Qlt, !inject_Z_mult, inject_Z_plus, <- (pow10_Z 29) by lia.
      change (inject_Z 1) with 1%Q. apply (Qmult_lt_r _ _ (/ (inject_Z n * pow10 29))); [by apply Qinv_lt_0_compat|].
      fold (Qdiv (inject_Z m) (inject_Z n * pow10 29)). rewrite <- Hx.
      assert (E : ((inject_Z f + 1) * inject_Z n * pow10 29 * / (inject_Z n * pow10 29) == inject_Z f + 1)%Q)
        by qfield.
      by rewrite E. }
    rewrite Hx. assert (E : (inject_Z m / (inject_Z n * pow10 29) + 1 / (inject_Z n * pow10 29) ==
      inject_Z (m + 1) / (inject_Z n * pow10 29))%Q) by (rewrite inject_Z_plus; qfield).
    rewrite E. apply Qle_shift_div_r; [done|]. rewrite (pow10_Z 29) by lia. rewrite <- inject_Z_mult.
    change 1%Q with (inject_Z 1). rewrite <- inject_Z_plus, <- inject_Z_mult, <- Zle_Qle. lia. }
  assert (Hy : (Qscaled Qround_half_up x 34 <= x + (1 # 2) / pow10 34)%Q).
  { pose proof (Qscaled_half_up_error x 34) as H. apply Qabs_Qle_condition in H. lra. }
  apply Qfloor_unique.
  - unfold Qscaled. apply Qle_shift_div_l; [apply pow10_pos|]. rewrite (pow10_Z 34) by lia. rewrite <- inject_Z_mult.
    rewrite <- Zle_Qle. apply Qround_half_up_ge. rewrite inject_Z_mult. apply Qmult_le_compat_r; [done|].
    change 0%Q with (inject_Z 0). rewrite <- Zle_Qle. lia.
  - assert (Hsmall : ((1 # 2) / pow10 34 < 1 / (inject_Z n * pow10 29))%Q); [|lra].
    apply Qlt_shift_div_l; [done|]. rewrite (pow10_mult 29 5).
    assert (E : ((1 # 2) / (pow10 29 * pow10 5) * (inject_Z n * pow10 29) == inject_Z n * (1 # 2) / pow10 5)%Q)
      by qfield.
    rewrite E. apply Qlt_shift_div_r; [apply pow10_pos|]. rewrite (pow10_Z 5) by lia.
    assert (inject_Z n < inject_Z (10 ^ 5))%Q by (rewrite <- Zlt_Qlt; lia). lra.
Qed.

Lemma places29_sub_mul a z n : places29 a -> places29 (a - inject_Z z * inject_Z n).
Proof.
  intros [m Hm]. exists (m - z * n * 10 ^ 29). rewrite Hm. replace (m - z * n * 10 ^ 29) with (m + - (z * n * 10 ^ 29)) by lia.
  rewrite inject_Z_plus, inject_Z_opp, !inject_Z_mult, <- (pow10_Z 29) by lia. qfield.
Qed.

Lemma places29_opp a : places29 a -> places29 (- a).
Proof. intros [m Hm]. exists (- m). rewrite Hm, inject_Z_opp. qfield. Qed.

#[global] Instance places29_proper : Proper (Qeq ==> iff) places29.
Proof. intros a b E. unfold places29. by setoid_rewrite E. Qed.

(** ** Reading numbers and fields *)

Lemma string_app_cons c s t : String c s +:+ t = String c (s +:+ t).
Proof. done. Qed.

Definition not_digit_first (t : string) : Prop := match t with EmptyString => True | String c _ => is_digit c = false end.

Lemma take_digits_app s t : all_digits s = true -> not_digit_first t -> take_digits (s +:+ t) = (s, t).
Proof.
  intros Hs Ht. induction s as [|c s IH].
  - change (EmptyString +:+ t) with t. destruct t as [|c t]; cbn [take_digits]; [done|]. cbn in Ht. by rewrite Ht.
  - cbn [all_digits] in Hs. apply andb_true_iff in Hs as [Hc Hs]. rewrite string_app_cons. cbn [take_digits].
    by rewrite Hc, IH.
Qed.

Lemma decimal_shape b t :
  is_decimal_from b t = true ->
  exists ds, all_digits ds = true /\ (b = false -> ds <> EmptyString) /\
    (t = ds \/ exists fs, fs <> EmptyString /\ all_digits fs = true /\ t = ds +:+ String (Ascii.ascii_of_nat 46) fs).
Proof.
  revert b. induction t as [|c t IH]; intros b H; cbn [is_decimal_from] in H.
  - exists EmptyString. split_and!; [done|by intros ->|by left].
  - destruct (is_digit c) eqn:Hc.
    + destruct (IH true H) as (ds & Hd & _ & Hs). exists (String c ds). cbn [all_digits]. rewrite Hc.
      split_and!; [done|done|]. destruct Hs as [->|(fs & ? & ? & ->)]; [by left|right; by exists fs].
    + apply andb_true_iff in H as [H Ht]. apply andb_true_iff in H as [H Hne]. apply andb_true_iff in H as [-> Hp].
      exists EmptyString. split_and!; [done|done|]. right. exists t. split_and!; [by destruct t|done|].
      unfold is_char in Hp. apply Nat.eqb_eq in Hp. change (EmptyString +:+ ?x) with x.
      rewrite <- (Ascii.ascii_nat_embedding c), Hp. done.
Qed.

Lemma take_number_decimal t c r :
  is_decimal t = true -> is_digit c = false -> is_char c 46 = false -> take_number (t +:+ String c r) = Some (t, String c r).
Proof.
  intros Ht Hc Hp. destruct (decimal_shape false t Ht) as (ds & Hd & Hne & Hs). specialize (Hne eq_refl).
  assert (Hnb : String.eqb ds "" = false) by (by destruct ds). unfold take_number.
  destruct Hs as [->|(fs & Hf & Hfd & ->)].
  - rewrite take_digits_app by done. by rewrite Hnb, Hp.
  - rewrite string_app_assoc, string_app_cons. rewrite take_digits_app by done. rewrite Hnb.
    change (is_char (Ascii.ascii_of_nat 46) 46) with true. cbv iota. rewrite take_digits_app by done.
    by destruct fs.
Qed.

Definition letter (n : nat) : Prop := n = 89%nat \/ n = 77%nat \/ n = 68%nat \/ n = 72%nat \/ n = 83%nat \/ n = 84%nat.

Lemma letter_char n : letter n -> is_digit (Ascii.ascii_of_nat n) = false /\ is_char (Ascii.ascii_of_nat n) 46 = false /\
  forall m, letter m -> is_char (Ascii.ascii_of_nat n) m = (n =? m)%nat.
Proof. unfold letter. intros [->|[->|[->|[->|[->| ->]]]]]; (split_and!; [done|done|]; intros m [->|[->|[->|[->|[->| ->]]]]]; done). Qed.

(** A field is absent at [s]. *)
Definition no_field (l : nat) (s : string) : Prop := opt_field l s = (EmptyString, s).

Lemma no_field_nil l : no_field l EmptyString.
Proof. done. Qed.

Lemma no_field_T l r : no_field l (String (Ascii.ascii_of_nat 84) r).
Proof. done. Qed.

(** Text that neither trimming nor upper-casing changes. *)
Fixpoint settled_text (s : string) : bool :=
  match s with
  | EmptyString => true
  | String c s' => negb (isSpace c) && Ascii.eqb (upper_char c) c && settled_text s'
  end.

Lemma settled_app s t : settled_text (s +:+ t) = settled_text s && settled_text t.
Proof.
  induction s as [|c s IH]; [done|]. rewrite string_app_cons. cbn [settled_text]. by rewrite IH, andb_assoc.
Qed.

Lemma settled_trim s : settled_text s = true -> TrimSpace s = s /\ ToUpper s = s.
Proof.
  assert (Hr : forall s, settled_text s = true -> trim_right s = s /\ ToUpper s = s).
  { clear s. induction s as [|c s IH]; [done|]. cbn [settled_text trim_right ToUpper].
    intros [[H1 H2]%andb_true_iff H3]%andb_true_iff. destruct (IH H3) as [E1 E2]. rewrite E1, E2.
    apply Ascii.eqb_eq in H2. rewrite H2. apply negb_true_iff in H1. rewrite H1. by destruct s. }
  intros H. destruct (Hr s H) as [E1 E2]. split; [|done]. unfold TrimSpace.
  destruct s as [|c s]; [done|]. cbn [settled_text] in H. cbn [trim_left].
  apply andb_true_iff in H as [[H1 _]%andb_true_iff _]. apply negb_true_iff in H1. by rewrite H1.
Qed.

Lemma settled_char c : (46 <=? Ascii.nat_of_ascii c)%nat && (Ascii.nat_of_ascii c <=? 57)%nat = true ->
  negb (isSpace c) && Ascii.eqb (upper_char c) c = true.
Proof.
  intros H. apply andb_true_iff in H as [H1%Nat.leb_le H2%Nat.leb_le]. unfold isSpace, upper_char.
  replace (97 <=? Ascii.nat_of_ascii c)%nat with false by (symmetry; apply Nat.leb_gt; lia). cbn [andb].
  rewrite Ascii.eqb_refl, andb_true_r. lia.
Qed.

Lemma settled_digits s : all_digits s = true -> settled_text s = true.
Proof.
  induction s as [|c s IH]; [done|]. cbn [all_digits settled_text]. intros [Hc Hs]%andb_true_iff.
  rewrite (IH Hs), andb_true_r. apply settled_char. apply andb_true_iff in Hc as [H1%Z.leb_le H2%Z.leb_le].
  apply andb_true_iff. split; apply Nat.leb_le; lia.
Qed.

Lemma settled_decimal t : is_decimal t = true -> settled_text t = true.
Proof.
  intros H. destruct (decimal_shape false t H) as (ds & Hd & _ & [->|(fs & _ & Hf & ->)]); [by apply settled_digits|].
  rewrite settled_app, (settled_digits ds Hd). cbn [settled_text]. by rewrite (settled_digits fs Hf).
Qed.

Section Laws.
Context {DO : DecimalOps} {DL : DecimalLaws DO} {DT : DecimalText DO} {TL : DecimalTextLaws DO DT}.

(** One step of the decomposition: whole units and what is left of [a]. *)
Lemma unit_split a u n :
  (dval u == inject_Z n)%Q -> 0 < n < 10 ^ 5 -> (0 <= dval a)%Q -> places29 (dval a) ->
  let w := dFloor (dDiv a u) in let r := dSub a (dMul w u) in
  (0 <= dval w)%Q /\ (0 <= dval r < inject_Z n)%Q /\ places29 (dval r) /\ (dval a == dval w * inject_Z n + dval r)%Q.
Proof.
  intros Hu Hn Ha Hp w r. assert (Hn0 : (0 < inject_Z n)%Q) by (change 0%Q with (inject_Z 0); rewrite <- Zlt_Qlt; lia).
  assert (Hw : (dval w == inject_Z (Qfloor (dval a / inject_Z n)))%Q).
  { unfold w. rewrite dval_Floor. apply inject_Z_proper. rewrite <- (div_floor_exact (dval a) n) by done.
    apply Qfloor_comp. rewrite dval_Div by (rewrite Hu; lra). unfold Qscaled. by rewrite Hu. }
  destruct (Qfloor_bounds (dval a / inject_Z n)) as [H1 H2]. set (f := Qfloor (dval a / inject_Z n)) in *.
  assert (Hr : (dval r == dval a - inject_Z f * inject_Z n)%Q) by (unfold r; by rewrite dval_Sub, dval_Mul, Hw, Hu).
  assert (Hax : (dval a == dval a / inject_Z n * inject_Z n)%Q) by qfield.
  split_and!.
  - rewrite Hw. change 0%Q with (inject_Z 0). rewrite <- Zle_Qle. change 0 with (Qfloor 0). apply Qfloor_resp_le.
    apply Qle_shift_div_l; [done|]. lra.
  - rewrite Hr. assert (inject_Z f * inject_Z n <= dval a / inject_Z n * inject_Z n)%Q by (apply Qmult_le_compat_r; lra). lra.
  - rewrite Hr. assert (dval a / inject_Z n * inject_Z n < (inject_Z f + 1) * inject_Z n)%Q by (by apply Qmult_lt_compat_r). lra.
  - rewrite Hr. by apply places29_sub_mul.
  - rewrite Hr, Hw. ring.
Qed.
(** ** Components *)

(** The number of a component, as the grammar returns it. *)
Definition component_raw (d : Decimal) : string := if dIsZero d then "" else dString d.

Lemma opt_field_component l d r :
  letter l -> (0 <= dval d)%Q -> no_field l r ->
  opt_field l (component d (String (Ascii.ascii_of_nat l) EmptyString) +:+ r) = (component_raw d, r).
Proof.
  intros Hl Hd Hr. unfold component, component_raw. destruct (dIsZero d); [exact Hr|].
  destruct (letter_char l Hl) as (H1 & H2 & H3). unfold opt_field. rewrite string_app_assoc, string_app_cons.
  change (EmptyString +:+ r) with r. rewrite take_number_decimal by (done || by apply dString_plain).
  by rewrite H3, Nat.eqb_refl by done.
Qed.

Lemma no_field_component l l' d r :
  letter l -> letter l' -> l <> l' -> (0 <= dval d)%Q -> no_field l r ->
  no_field l (component d (String (Ascii.ascii_of_nat l') EmptyString) +:+ r).
Proof.
  intros Hl Hl' Hne Hd Hr. unfold component, no_field. destruct (dIsZero d); [exact Hr|].
  destruct (letter_char l' Hl') as (H1 & H2 & H3). unfold opt_field. rewrite string_app_assoc, string_app_cons.
  change (EmptyString +:+ r) with r. rewrite take_number_decimal by (done || by apply dString_plain).
  rewrite H3 by done. by replace (l' =? l)%nat with false by (symmetry; apply Nat.eqb_neq; lia).
Qed.

Lemma set_component d : (0 <= dval d)%Q ->
  exists o, set_part (component_raw d) = Some o /\ (dval (default dZero o) == dval d)%Q /\ has o = negb (dIsZero d).
Proof.
  intros Hd. unfold component_raw, set_part. destruct (dIsZero d) eqn:Z.
  - exists None. split_and!; [done| |done]. cbn [default]. unfold dZero. rewrite dval_NewFromInt.
    apply dIsZero_true in Z. by rewrite Z.
  - assert (Hne : String.eqb (dString d) "" = false).
    { pose proof (dString_plain d Hd) as H. by destruct (dString d). }
    rewrite Hne. destruct (dString_read d) as (d' & -> & Hv). by exists (Some d').
Qed.

Lemma settled_component d l : letter l -> (0 <= dval d)%Q ->
  settled_text (component d (String (Ascii.ascii_of_nat l) EmptyString)) = true.
Proof.
  intros Hl Hd. unfold component. destruct (dIsZero d); [done|]. rewrite settled_app, settled_decimal by (by apply dString_plain).
  cbn [andb]. destruct Hl as [->|[->|[->|[->|[->| ->]]]]]; done.
Qed.

(** ** Days-time durations *)

(** The time part of the text. *)
Definition time_text (h m s : Decimal) : string :=
  if negb (dIsZero h) || negb (dIsZero m) || negb (dIsZero s)
  then "T" +:+ component h "H" +:+ component m "M" +:+ component s "S" else "".

Lemma no_field_time l h m s : no_field l (time_text h m s).
Proof. unfold time_text. by destruct (_ || _). Qed.

Lemma iso_dt sg d h m s :
  sg = "" \/ sg = "-" -> (0 <= dval d)%Q -> (0 <= dval h)%Q -> (0 <= dval m)%Q -> (0 <= dval s)%Q ->
  isoDurationRe (sg +:+ "P" +:+ component d "D" +:+ time_text h m s) =
    Some (sg, [""; ""; component_raw d; component_raw h; component_raw m; component_raw s]).
Proof.
  intros Hsg Hd Hh Hm Hs. set (rest := component d "D" +:+ time_text h m s).
  assert (Hl : letter 89 /\ letter 77 /\ letter 68 /\ letter 72 /\ letter 83) by (unfold letter; lia).
  destruct Hl as (LY & LM & LD & LH & LS).
  assert (HY : opt_field 89 rest = ("", rest))
    by (apply (no_field_component 89 68 d); [done|done|lia|done|apply no_field_time]).
  assert (HM : opt_field 77 rest = ("", rest))
    by (apply (no_field_component 77 68 d); [done|done|lia|done|apply no_field_time]).
  assert (HD : opt_field 68 rest = (component_raw d, time_text h m s))
    by (apply (opt_field_component 68 d); [done|done|apply no_field_time]).
  assert (HT : match time_text h m s with
    | EmptyString => component_raw h = "" /\ component_raw m = "" /\ component_raw s = ""
    | String c t => is_char c 84 = true /\ opt_field 72 t = (component_raw h, component m "M" +:+ component s "S") /\
        opt_field 77 (component m "M" +:+ component s "S") = (component_raw m, component s "S") /\
        opt_field 83 (component s "S") = (component_raw s, "")
    end).
  { unfold time_text. destruct (negb (dIsZero h) || negb (dIsZero m) || negb (dIsZero s)) eqn:Z.
    - change ("T" +:+ ?x) with (String (Ascii.ascii_of_nat 84) x). split_and!; [done| | |].
      + apply (opt_field_component 72 h); [done|done|].
        apply (no_field_component 72 77 m); [done|done|lia|done|].
        rewrite <- (string_app_nil_r (component s "S")). apply (no_field_component 72 83 s); [done|done|lia|done|apply no_field_nil].
      + apply (opt_field_component 77 m); [done|done|].
        rewrite <- (string_app_nil_r (component s "S")). apply (no_field_component 77 83 s); [done|done|lia|done|apply no_field_nil].
      + rewrite <- (string_app_nil_r (component s "S")). apply (opt_field_component 83 s); [done|done|apply no_field_nil].
    - apply orb_false_iff in Z as [[Z1 Z2]%orb_false_iff Z3]. apply negb_false_iff in Z1, Z2, Z3.
      unfold component_raw. by rewrite Z1, Z2, Z3. }
  assert (Hcore : isoDurationRe (sg +:+ "P" +:+ rest) =
    let '(y, s0) := opt_field 89 rest in let '(mo, s0) := opt_field 77 s0 in let '(d0, s0) := opt_field 68 s0 in
    let '(h0, mi, sec, s0) :=
      match s0 with
      | String c s' =>
          if is_char c 84 then
            let '(h0, s') := opt_field 72 s' in let '(mi, s') := opt_field 77 s' in let '(sec, s') := opt_field 83 s' in
            (h0, mi, sec, s')
          else ("", "", "", s0)
      | EmptyString => ("", "", "", s0)
      end in
    match s0 with EmptyString => Some (sg, [y; mo; d0; h0; mi; sec]) | String _ _ => None end)
    by (destruct Hsg as [-> | ->]; reflexivity).
  rewrite Hcore, HY, HM, HD. destruct (time_text h m s) as [|c t].
  - by destruct HT as (-> & -> & ->).
  - destruct HT as (-> & -> & -> & ->). done.
Qed.

Lemma bare_iso :
  isoDurationRe "P" = Some ("", [""; ""; ""; ""; ""; ""]) /\ isoDurationRe "PT" = Some ("", [""; ""; ""; ""; ""; ""]).
Proof. done. Qed.

(** The text of non-negative components, not all zero, gives them back. *)
Lemma dt_text_parse sg d h m s :
  sg = "" \/ sg = "-" -> (0 <= dval d)%Q -> (0 <= dval h)%Q -> (0 <= dval m)%Q -> (0 <= dval s)%Q ->
  negb (dIsZero d && dIsZero h && dIsZero m && dIsZero s) = true ->
  exists r, dtDurationFn (sg +:+ "P" +:+ component d "D" +:+ time_text h m s) = Ok (BlDaysTimeDuration r) /\
    (dval r == (if String.eqb sg "-" then -1 else 1) * (dval d * 86400 + dval h * 3600 + dval m * 60 + dval s))%Q.
Proof.
  intros Hsg Hd Hh Hm Hs Hnz. set (txt := sg +:+ "P" +:+ component d "D" +:+ time_text h m s).
  assert (Hset : settled_text txt = true).
  { unfold txt. rewrite !settled_app. assert (settled_text sg = true) as -> by (by destruct Hsg as [-> | ->]).
    assert (settled_text (component d "D") = true) as -> by (apply (settled_component d 68); [unfold letter; lia|done]).
    assert (settled_text (component h "H") = true) as Sh by (apply (settled_component h 72); [unfold letter; lia|done]).
    assert (settled_text (component m "M") = true) as Sm by (apply (settled_component m 77); [unfold letter; lia|done]).
    assert (settled_text (component s "S") = true) as Ss by (apply (settled_component s 83); [unfold letter; lia|done]).
    unfold time_text. destruct (_ || _); [|done]. by rewrite !settled_app, Sh, Sm, Ss. }
  destruct (settled_trim txt Hset) as [E1 E2]. unfold dtDurationFn, parseISODuration. rewrite E1, E2.
  pose proof (iso_dt sg d h m s Hsg Hd Hh Hm Hs) as Hiso. fold txt in Hiso. rewrite Hiso.
  assert (Hraw : forall x, (0 <= dval x)%Q -> String.eqb (component_raw x) "" = dIsZero x).
  { intros x Hx. unfold component_raw. destruct (dIsZero x); [done|]. pose proof (dString_plain x Hx). by destruct (dString x). }
  assert (Hall : forallb (fun raw => String.eqb raw "") [""; ""; component_raw d; component_raw h; component_raw m; component_raw s] = false).
  { cbn [forallb]. rewrite !Hraw by done. apply negb_true_iff in Hnz. cbn [String.eqb andb].
    rewrite andb_true_r, !andb_assoc. exact Hnz. }
  assert (Hno : String.eqb txt "P" || String.eqb txt "PT" = false).
  { destruct bare_iso as [B1 B2]. apply orb_false_iff.
    split; apply String.eqb_neq; intros E; rewrite E in Hiso; rewrite ?B1, ?B2 in Hiso;
      injection Hiso as <- Ed Eh Em Es; rewrite <- Ed, <- Eh, <- Em, <- Es in Hall; done. }
  rewrite Hno, Hall. change (set_part "") with (Some (@None Decimal)).
  destruct (set_component d Hd) as (od & -> & Vd & _), (set_component h Hh) as (oh & -> & Vh & _),
    (set_component m Hm) as (om & -> & Vm & _), (set_component s Hs) as (os & -> & Vs & _).
  cbn [has p_years p_monthsDate p_days p_hours p_minutesTime p_seconds p_negative orb].
  eexists. split; [reflexivity|]. 
  assert (Ht : (dval (dt_total (default dZero od) (default dZero oh) (default dZero om) (default dZero os)) ==
    dval d * 86400 + dval h * 3600 + dval m * 60 + dval s)%Q).
  { unfold dt_total, decSecondsPerDay, decSecondsPerHour, decSecondsPerMinute.
    rewrite !dval_Add, !dval_Mul, !dval_NewFromInt, Vd, Vh, Vm, Vs. reflexivity. }
  destruct (String.eqb sg "-"); rewrite ?dval_Neg, Ht; ring.
Qed.

Lemma zero_text_parse : exists r, dtDurationFn "PT0S" = Ok (BlDaysTimeDuration r) /\ (dval r == 0)%Q.
Proof.
  destruct dNewFromString_zero as (z & Hz & Vz). unfold dtDurationFn, parseISODuration.
  change (isoDurationRe (ToUpper (TrimSpace "PT0S"))) with (Some ("", [""; ""; ""; ""; ""; "0"])).
  change (String.eqb (ToUpper (TrimSpace "PT0S")) "P" || String.eqb (ToUpper (TrimSpace "PT0S")) "PT") with false.
  cbn [forallb String.eqb andb]. change (set_part "") with (Some (@None Decimal)).
  assert (Hs : set_part "0" = Some (Some z)) by (unfold set_part; change (String.eqb "0" "") with false; by rewrite Hz).
  rewrite Hs. eexists. split; [reflexivity|]. cbn [default p_days p_hours p_minutesTime p_seconds p_negative].
  unfold dt_total, decSecondsPerDay, decSecondsPerHour, decSecondsPerMinute, dZero.
  rewrite !dval_Add, !dval_Mul, !dval_NewFromInt, Vz. reflexivity.
Qed.

(** The sign and the magnitude a text starts from. *)
Lemma sign_split x :
  ~ (dval x == 0)%Q -> places29 (dval x) ->
  exists sg a, (if dSign x <? 0 then ("-", dNeg x) else ("", x)) = (sg, a) /\
    (sg = "" \/ sg = "-") /\ (0 < dval a)%Q /\ places29 (dval a) /\
    (dval x == (if String.eqb sg "-" then -1 else 1) * dval a)%Q.
Proof.
  intros Hnz Hp. destruct (dSign_cases x) as [[-> H]|[[-> H]|[-> H]]]; [|done|].
  - exists "-", (dNeg x). split_and!; [done|by right| | |]; rewrite dval_Neg; [lra|by apply places29_opp|].
    change (String.eqb "-" "-") with true. cbv iota. ring.
  - exists "", x. split_and!; [done|by left|done|done|]. change (String.eqb "" "-") with false. cbv iota. ring.
Qed.

(** A days-time duration of at most 29 decimal places is read back from its text. *)
Theorem dt_duration_roundtrip (secs : Decimal) :
  places29 (dval secs) ->
  exists r, dtDurationFn (formatDTDuration secs) = Ok (BlDaysTimeDuration r) /\ (dval r == dval secs)%Q.
Proof.
  intros Hp. unfold formatDTDuration. destruct (dIsZero secs) eqn:Z.
  { destruct zero_text_parse as (r & Hr & Vr). exists r. split; [done|]. apply dIsZero_true in Z. lra. }
  assert (Hnz : ~ (dval secs == 0)%Q) by (rewrite <- dIsZero_true; by rewrite Z).
  destruct (sign_split secs Hnz Hp) as (sg & a & -> & Hsg & Ha & Hpa & Hv).
  destruct (unit_split a decSecondsPerDay 86400) as (Hd & Hr1 & Pr1 & E1); [apply dval_NewFromInt|lia|lra|done|].
  cbv zeta in *. set (d := dFloor (dDiv a decSecondsPerDay)) in *. set (r1 := dSub a (dMul d decSecondsPerDay)) in *.
  destruct (unit_split r1 decSecondsPerHour 3600) as (Hh & Hr2 & Pr2 & E2); [apply dval_NewFromInt|lia|lra|done|].
  cbv zeta in *. set (h := dFloor (dDiv r1 decSecondsPerHour)) in *. set (r2 := dSub r1 (dMul h decSecondsPerHour)) in *.
  destruct (unit_split r2 decSecondsPerMinute 60) as (Hm & Hr3 & _ & E3); [apply dval_NewFromInt|lia|lra|done|].
  cbv zeta in *. set (m := dFloor (dDiv r2 decSecondsPerMinute)) in *. set (s := dSub r2 (dMul m decSecondsPerMinute)) in *.
  change (inject_Z 86400) with 86400%Q in *. change (inject_Z 3600) with 3600%Q in *. change (inject_Z 60) with 60%Q in *.
  fold (time_text h m s). destruct (dt_text_parse sg d h m s) as (r & Hr & Vr); [done|done|done|done|lra| |].
  - apply negb_true_iff, not_true_iff_false. intros [[[Zd Zh]%andb_true_iff Zm]%andb_true_iff Zs]%andb_true_iff.
    apply dIsZero_true in Zd, Zh, Zm, Zs. lra.
  - exists r. split; [exact Hr|]. rewrite Vr, Hv. apply Qmult_comp; [reflexivity|]. lra.
Qed.

(** ** Years-months durations *)

Lemma iso_ym sg y m :
  sg = "" \/ sg = "-" -> (0 <= dval y)%Q -> (0 <= dval m)%Q ->
  isoDurationRe (sg +:+ "P" +:+ component y "Y" +:+ component m "M") =
    Some (sg, [component_raw y; component_raw m; ""; ""; ""; ""]).
Proof.
  intros Hsg Hy Hm. set (rest := component y "Y" +:+ component m "M").
  assert (Hl : letter 89 /\ letter 77 /\ letter 68) by (unfold letter; lia). destruct Hl as (LY & LM & LD).
  assert (HY : opt_field 89 rest = (component_raw y, component m "M")).
  { apply (opt_field_component 89 y); [done|done|]. rewrite <- (string_app_nil_r (component m "M")).
    apply (no_field_component 89 77 m); [done|done|lia|done|apply no_field_nil]. }
  assert (HM : opt_field 77 (component m "M") = (component_raw m, "")).
  { rewrite <- (string_app_nil_r (component m "M")). apply (opt_field_component 77 m); [done|done|apply no_field_nil]. }
  assert (Hcore : isoDurationRe (sg +:+ "P" +:+ rest) =
    let '(y0, s0) := opt_field 89 rest in let '(mo, s0) := opt_field 77 s0 in let '(d0, s0) := opt_field 68 s0 in
    let '(h0, mi, sec, s0) :=
      match s0 with
      | String c s' =>
          if is_char c 84 then
            let '(h0, s') := opt_field 72 s' in let '(mi, s') := opt_field 77 s' in let '(sec, s') := opt_field 83 s' in
            (h0, mi, sec, s')
          else ("", "", "", s0)
      | EmptyString => ("", "", "", s0)
      end in
    match s0 with EmptyString => Some (sg, [y0; mo; d0; h0; mi; sec]) | String _ _ => None end)
    by (destruct Hsg as [-> | ->]; reflexivity).
  rewrite Hcore, HY, HM. done.
Qed.

Lemma component_raw_empty x : (0 <= dval x)%Q -> String.eqb (component_raw x) "" = dIsZero x.
Proof.
  intros Hx. unfold component_raw. destruct (dIsZero x); [done|]. pose proof (dString_plain x Hx). by destruct (dString x).
Qed.

Lemma ym_text_parse sg y m :
  sg = "" \/ sg = "-" -> (0 <= dval y)%Q -> (0 <= dval m)%Q -> negb (dIsZero y && dIsZero m) = true ->
  exists r, ymDurationFn (sg +:+ "P" +:+ component y "Y" +:+ component m "M") = Ok (BlYearsMonthsDuration r) /\
    (dval r == (if String.eqb sg "-" then -1 else 1) * (dval y * 12 + dval m))%Q.
Proof.
  intros Hsg Hy Hm Hnz. set (txt := sg +:+ "P" +:+ component y "Y" +:+ component m "M").
  assert (Hset : settled_text txt = true).
  { unfold txt. rewrite !settled_app. assert (settled_text sg = true) as -> by (by destruct Hsg as [-> | ->]).
    assert (settled_text (component y "Y") = true) as -> by (apply (settled_component y 89); [unfold letter; lia|done]).
    assert (settled_text (component m "M") = true) as -> by (apply (settled_component m 77); [unfold letter; lia|done]). done. }
  destruct (settled_trim txt Hset) as [E1 E2]. unfold ymDurationFn, parseISODuration. rewrite E1, E2.
  pose proof (iso_ym sg y m Hsg Hy Hm) as Hiso. fold txt in Hiso. rewrite Hiso.
  assert (Hall : forallb (fun raw => String.eqb raw "") [component_raw y; component_raw m; ""; ""; ""; ""] = false).
  { cbn [forallb]. rewrite !component_raw_empty by done. apply negb_true_iff in Hnz. cbn [String.eqb andb].
    rewrite andb_true_r. exact Hnz. }
  assert (Hno : String.eqb txt "P" || String.eqb txt "PT" = false).
  { destruct bare_iso as [B1 B2]. apply orb_false_iff.
    split; apply String.eqb_neq; intros E; rewrite E in Hiso; rewrite ?B1, ?B2 in Hiso;
      injection Hiso as <- Ey Em; rewrite <- Ey, <- Em in Hall; done. }
  rewrite Hno, Hall. change (set_part "") with (Some (@None Decimal)).
  destruct (set_component y Hy) as (oy & -> & Vy & _), (set_component m Hm) as (om & -> & Vm & _).
  cbn [has p_years p_monthsDate p_days p_hours p_minutesTime p_seconds p_negative orb].
  eexists. split; [reflexivity|].
  assert (Ht : (dval (dAdd (dMul (default dZero oy) decMonthsPerYear) (default dZero om)) == dval y * 12 + dval m)%Q).
  { unfold decMonthsPerYear. rewrite dval_Add, dval_Mul, dval_NewFromInt, Vy, Vm. reflexivity. }
  destruct (String.eqb sg "-"); rewrite ?dval_Neg, Ht; ring.
Qed.

Lemma zero_ym_parse : exists r, ymDurationFn "P0Y0M" = Ok (BlYearsMonthsDuration r) /\ (dval r == 0)%Q.
Proof.
  destruct dNewFromString_zero as (z & Hz & Vz). unfold ymDurationFn, parseISODuration.
  change (isoDurationRe (ToUpper (TrimSpace "P0Y0M"))) with (Some ("", ["0"; "0"; ""; ""; ""; ""])).
  change (String.eqb (ToUpper (TrimSpace "P0Y0M")) "P" || String.eqb (ToUpper (TrimSpace "P0Y0M")) "PT") with false.
  cbn [forallb String.eqb andb]. change (set_part "") with (Some (@None Decimal)).
  assert (Hs : set_part "0" = Some (Some z)) by (unfold set_part; change (String.eqb "0" "") with false; by rewrite Hz).
  rewrite Hs. eexists. split; [reflexivity|]. cbn [default p_years p_monthsDate p_negative].
  unfold decMonthsPerYear. rewrite dval_Add, dval_Mul, dval_NewFromInt, Vz. reflexivity.
Qed.

(** A years-months duration of at most 29 decimal places is read back from its text. *)
Theorem ym_duration_roundtrip (months : Decimal) :
  places29 (dval months) ->
  exists r, ymDurationFn (formatYMDuration months) = Ok (BlYearsMonthsDuration r) /\ (dval r == dval months)%Q.
Proof.
  intros Hp. unfold formatYMDuration. destruct (dIsZero months) eqn:Z.
  { destruct zero_ym_parse as (r & Hr & Vr). exists r. split; [done|]. apply dIsZero_true in Z. lra. }
  assert (Hnz : ~ (dval months == 0)%Q) by (rewrite <- dIsZero_true; by rewrite Z).
  destruct (sign_split months Hnz Hp) as (sg & a & -> & Hsg & Ha & Hpa & Hv).
  destruct (unit_split a decMonthsPerYear 12) as (Hy & Hr1 & _ & E1); [apply dval_NewFromInt|lia|lra|done|].
  cbv zeta in *. set (y := dFloor (dDiv a decMonthsPerYear)) in *. set (m := dSub a (dMul y decMonthsPerYear)) in *.
  change (inject_Z 12) with 12%Q in *.
  destruct (ym_text_parse sg y m) as (r & Hr & Vr); [done|done|lra| |].
  - apply negb_true_iff, not_true_iff_false. intros [Zy Zm]%andb_true_iff. apply dIsZero_true in Zy, Zm. lra.
  - exists r. split; [exact Hr|]. rewrite Vr, Hv. apply Qmult_comp; [reflexivity|]. lra.
Qed.

(** ** Components *)

Lemma abs_unit_split a u n :
  (dval u == inject_Z n)%Q -> 0 < n < 10 ^ 5 -> (0 <= dval a)%Q -> places29 (dval a) ->
  (dval (dTruncate (dDiv a u) 0) == inject_Z (Qfloor (dval a / inject_Z n)))%Q.
Proof.
  intros Hu Hn Ha Hp. assert (Hn0 : (0 < inject_Z n)%Q) by (change 0%Q with (inject_Z 0); rewrite <- Zlt_Qlt; lia).
  assert (Hq : (0 <= dval a / inject_Z n)%Q) by (apply Qle_shift_div_l; [done|lra]).
  assert (Hdiv : (dval (dDiv a u) == Qscaled Qround_half_up (dval a / inject_Z n) 34)%Q).
  { rewrite dval_Div by (rewrite Hu; lra). unfold Qscaled. by rewrite Hu. }
  assert (Hpos : (0 <= dval (dDiv a u))%Q).
  { rewrite Hdiv. unfold Qscaled. apply Qle_shift_div_l; [apply pow10_pos|]. rewrite Qmult_0_l.
    change 0%Q with (inject_Z 0). rewrite <- Zle_Qle. apply Qround_half_up_ge. change (inject_Z 0) with 0%Q.
    apply Qmult_le_0_compat; [done|apply Qlt_le_weak, pow10_pos]. }
  rewrite dval_Truncate by lia. unfold Qscaled at 1. change (pow10 0) with 1%Q.
  assert (E1 : (dval (dDiv a u) * 1 == dval (dDiv a u))%Q) by ring. rewrite E1, Qtrunc_floor by done.
  rewrite Hdiv, div_floor_exact by done. field.
Qed.

Lemma mod_floor a u n :
  (dval u == inject_Z n)%Q -> 0 < n -> (0 <= dval a)%Q ->
  (dval (dMod a u) == dval a - inject_Z n * inject_Z (Qfloor (dval a / inject_Z n)))%Q.
Proof.
  intros Hu Hn Ha. assert (Hn0 : (0 < inject_Z n)%Q) by (change 0%Q with (inject_Z 0); rewrite <- Zlt_Qlt; lia).
  rewrite dval_Mod by (rewrite Hu; lra). rewrite Hu, Qtrunc_floor; [reflexivity|]. apply Qle_shift_div_l; [done|lra].
Qed.

Lemma floor_div_bounds a n :
  0 < n -> (inject_Z n * inject_Z (Qfloor (a / inject_Z n)) <= a)%Q /\
  (a < inject_Z n * inject_Z (Qfloor (a / inject_Z n)) + inject_Z n)%Q.
Proof.
  intros Hn. assert (Hn0 : (0 < inject_Z n)%Q) by (change 0%Q with (inject_Z 0); rewrite <- Zlt_Qlt; lia).
  destruct (Qfloor_bounds (a / inject_Z n)) as [H1 H2]. assert (E : (a == a / inject_Z n * inject_Z n)%Q) by qfield.
  split.
  - assert (inject_Z (Qfloor (a / inject_Z n)) * inject_Z n <= a / inject_Z n * inject_Z n)%Q by (apply Qmult_le_compat_r; lra). lra.
  - assert (a / inject_Z n * inject_Z n < (inject_Z (Qfloor (a / inject_Z n)) + 1) * inject_Z n)%Q by (by apply Qmult_lt_compat_r). lra.
Qed.

Lemma floor_div_unique a n z :
  0 < n -> (inject_Z n * inject_Z z <= a)%Q -> (a < inject_Z n * inject_Z z + inject_Z n)%Q -> Qfloor (a / inject_Z n) = z.
Proof.
  intros Hn H1 H2. assert (Hn0 : (0 < inject_Z n)%Q) by (change 0%Q with (inject_Z 0); rewrite <- Zlt_Qlt; lia).
  apply Qfloor_unique; [apply Qle_shift_div_l; [done|lra]|apply Qlt_shift_div_r; [done|lra]].
Qed.

Lemma Qround_half_up_opp q : Qround_half_up (- q) = - Qround_half_up q.
Proof.
  unfold Qround_half_up, Qceiling. destruct (Qle_bool 0 (- q)) eqn:E1, (Qle_bool 0 q) eqn:E2.
  - apply Qle_bool_iff in E1, E2. assert (E : (q == 0)%Q) by lra. rewrite (Qfloor_comp (- q + (1 # 2)) (1 # 2)) by lra.
    rewrite (Qfloor_comp (q + (1 # 2)) (1 # 2)) by lra. done.
  - rewrite Z.opp_involutive. apply Qfloor_comp. ring.
  - f_equal. apply Qfloor_comp. ring.
  - exfalso. assert (A : (~ 0 <= - q)%Q) by (intros H; apply Qle_bool_iff in H; congruence).
    assert (B : (~ 0 <= q)%Q) by (intros H; apply Qle_bool_iff in H; congruence). lra.
Qed.

(** The parts of a non-negative number of seconds. *)
Lemma seconds_parts A :
  (0 <= A)%Q ->
  let D := Qfloor (A / 86400) in let H := Qfloor ((A - 86400 * inject_Z D) / 3600) in
  let M := Qfloor ((A - 3600 * inject_Z (Qfloor (A / 3600))) / 60) in let S := (A - 60 * inject_Z (Qfloor (A / 60)))%Q in
  (A == inject_Z D * 86400 + inject_Z H * 3600 + inject_Z M * 60 + S)%Q /\
  0 <= D /\ 0 <= H < 24 /\ 0 <= M < 60 /\ (0 <= S < 60)%Q.
Proof.
  intros HA D H M S.
  destruct (floor_div_bounds A 86400 ltac:(lia)) as [D1 D2]. change (inject_Z 86400) with 86400%Q in *. fold D in D1, D2.
  destruct (floor_div_bounds (A - 86400 * inject_Z D) 3600 ltac:(lia)) as [H1 H2]. change (inject_Z 3600) with 3600%Q in *. fold H in H1, H2.
  assert (EH : Qfloor (A / 3600) = 24 * D + H).
  { apply (floor_div_unique A 3600); [lia|..]; rewrite inject_Z_plus, inject_Z_mult;
      change (inject_Z 3600) with 3600%Q; change (inject_Z 24) with 24%Q; lra. }
  unfold M. rewrite EH. clear M. destruct (floor_div_bounds (A - 3600 * inject_Z (24 * D + H)) 60 ltac:(lia)) as [M1 M2].
  change (inject_Z 60) with 60%Q in *.
  set (M' := Qfloor ((A - 3600 * inject_Z (24 * D + H)) / 60)) in *.
  rewrite inject_Z_plus, inject_Z_mult in M1, M2. change (inject_Z 24) with 24%Q in *.
  assert (ES : Qfloor (A / 60) = 1440 * D + 60 * H + M').
  { apply (floor_div_unique A 60); [lia|..]; rewrite !inject_Z_plus, !inject_Z_mult; change (inject_Z 60) with 60%Q;
      change (inject_Z 1440) with 1440%Q; lra. }
  unfold S. rewrite ES, !inject_Z_plus, !inject_Z_mult. change (inject_Z 60) with 60%Q. change (inject_Z 1440) with 1440%Q.
  assert (Hbound : forall z lo hi, (inject_Z lo - 1 < inject_Z z)%Q -> (inject_Z z < inject_Z hi)%Q -> lo <= z < hi).
  { intros z lo hi B1 B2. rewrite <- Zlt_Qlt in B2. split; [|done]. assert (inject_Z (lo + -1) < inject_Z z)%Q as B3
      by (rewrite inject_Z_plus; change (inject_Z (-1)) with (-1)%Q; lra). rewrite <- Zlt_Qlt in B3. lia. }
  split_and!; try lra.
  - apply (Hbound D 0 (D + 1)); rewrite ?inject_Z_plus; change (inject_Z 0) with 0%Q; change (inject_Z 1) with 1%Q; lra.
  - apply (Hbound H 0 24); change (inject_Z 0) with 0%Q; change (inject_Z 24) with 24%Q; lra.
  - apply (Hbound H 0 24); change (inject_Z 0) with 0%Q; change (inject_Z 24) with 24%Q; lra.
  - apply (Hbound M' 0 60); change (inject_Z 0) with 0%Q; change (inject_Z 60) with 60%Q; lra.
  - apply (Hbound M' 0 60); change (inject_Z 0) with 0%Q; change (inject_Z 60) with 60%Q; lra.
Qed.

Lemma dIntPart_int x z : (dval x == inject_Z z)%Q -> - 2 ^ 63 <= z < 2 ^ 63 -> dIntPart x = z.
Proof. intros Hx Hz. assert (E : Qtrunc (dval x) = z) by (by rewrite Hx, Qtrunc_Z). by rewrite dIntPart_spec, E by (by rewrite E). Qed.

(** The whole units of a signed amount, toward zero. *)
Lemma signed_units x u n :
  (dval u == inject_Z n)%Q -> 0 < n < 10 ^ 5 -> places29 (dval x) ->
  (dval (dTruncate (dDiv x u) 0) == inject_Z (dSign x * Qfloor (Qabs (dval x) / inject_Z n)))%Q.
Proof.
  intros Hu Hn Hp. destruct (dSign_cases x) as [[Hs H]|[[Hs H]|[Hs H]]]; rewrite Hs.
  - assert (Hneg : (dval (dTruncate (dDiv x u) 0) == - dval (dTruncate (dDiv (dNeg x) u) 0))%Q).
    { assert (Hu0 : ~ (dval u == 0)%Q) by (rewrite Hu; intros E; unfold Qeq in E; simpl in E; lia).
      rewrite !dval_Truncate by lia. unfold Qscaled. change (pow10 0) with 1%Q.
      assert (E : (dval (dDiv (dNeg x) u) == - dval (dDiv x u))%Q).
      { rewrite !dval_Div by done. unfold Qscaled.
        assert (Ex : (dval (dNeg x) / dval u * pow10 numericPrecision == - (dval x / dval u * pow10 numericPrecision))%Q)
          by (rewrite dval_Neg; field; done).
        rewrite Ex, Qround_half_up_opp, inject_Z_opp. field. apply pow10_nonzero. }
      assert (E' : (dval (dDiv (dNeg x) u) * 1 == - (dval (dDiv x u) * 1))%Q) by (rewrite E; ring).
      rewrite E', Qtrunc_opp, inject_Z_opp. field. }
    rewrite Hneg, (abs_unit_split (dNeg x) u n); [|done|done|rewrite dval_Neg; lra|rewrite dval_Neg; by apply places29_opp].
    replace (-1 * Qfloor (Qabs (dval x) / inject_Z n)) with (- Qfloor (Qabs (dval x) / inject_Z n)) by lia.
    rewrite inject_Z_opp. apply Qopp_comp, inject_Z_proper, Qfloor_comp. rewrite dval_Neg, Qabs_neg by lra. reflexivity.
  - rewrite (abs_unit_split x u n) by (done || lra). apply inject_Z_proper.
    assert (E : (dval x / inject_Z n == 0)%Q) by (rewrite H; reflexivity). by rewrite (Qfloor_comp _ _ E).
  - rewrite (abs_unit_split x u n) by (done || lra). apply inject_Z_proper. rewrite Z.mul_1_l. apply Qfloor_comp.
    rewrite Qabs_pos by lra. reflexivity.
Qed.

(** Whole small units of what is left after the whole large units. *)
Lemma remainder_units a A u1 n1 u2 n2 :
  (dval a == A)%Q -> (0 <= A)%Q -> places29 A -> (dval u1 == inject_Z n1)%Q -> 0 < n1 ->
  (dval u2 == inject_Z n2)%Q -> 0 < n2 < 10 ^ 5 ->
  (dval (dTruncate (dDiv (dMod a u1) u2) 0) ==
   inject_Z (Qfloor ((A - inject_Z n1 * inject_Z (Qfloor (A / inject_Z n1))) / inject_Z n2)))%Q.
Proof.
  intros Ha HA Hp H1 Hn1 H2 Hn2. pose proof (mod_floor a u1 n1 H1 Hn1 ltac:(by rewrite Ha)) as Hm. rewrite Ha in Hm.
  rewrite (abs_unit_split _ _ n2); [|done|done| |].
  - apply inject_Z_proper, Qfloor_comp. by rewrite Hm.
  - rewrite Hm. destruct (floor_div_bounds A n1 Hn1). lra.
  - rewrite Hm. assert (E : (A - inject_Z n1 * inject_Z (Qfloor (A / inject_Z n1)) ==
      A - inject_Z (Qfloor (A / inject_Z n1)) * inject_Z n1)%Q) by ring.
    rewrite E. by apply places29_sub_mul.
Qed.

(** The components of a days-time duration add up to it, carry its sign and stay
    below the next unit. *)
Theorem dt_components (secs : Decimal) :
  places29 (dval secs) -> (Qabs (dval secs) < inject_Z (2 ^ 63))%Q ->
  (dval secs == inject_Z (dt_Days secs) * 86400 + inject_Z (dt_Hours secs) * 3600 +
     inject_Z (dt_Minutes secs) * 60 + dval (dt_Seconds secs))%Q /\
  Z.abs (dt_Hours secs) < 24 /\ Z.abs (dt_Minutes secs) < 60 /\ (Qabs (dval (dt_Seconds secs)) < 60)%Q /\
  0 <= dSign secs * dt_Days secs /\ 0 <= dSign secs * dt_Hours secs /\ 0 <= dSign secs * dt_Minutes secs.
Proof.
  intros Hp Hb. set (A := Qabs (dval secs)) in *. assert (HA : (0 <= A)%Q) by apply Qabs_nonneg.
  destruct (seconds_parts A HA) as (HS & HD & HH & HM & Hsec). cbv zeta in *.
  set (D := Qfloor (A / 86400)) in *. set (H := Qfloor ((A - 86400 * inject_Z D) / 3600)) in *.
  set (M := Qfloor ((A - 3600 * inject_Z (Qfloor (A / 3600))) / 60)) in *.
  set (S := (A - 60 * inject_Z (Qfloor (A / 60)))%Q) in *.
  assert (HpA : places29 A) by (unfold A; destruct (Qlt_le_dec (dval secs) 0);
    [rewrite Qabs_neg by lra; by apply places29_opp|by rewrite Qabs_pos]).
  assert (HaA : (dval (dAbs secs) == A)%Q) by apply dval_Abs.
  assert (HQ : (0 <= inject_Z D /\ 0 <= inject_Z H /\ 0 <= inject_Z M)%Q)
    by (change 0%Q with (inject_Z 0); rewrite <- !Zle_Qle; lia).
  assert (HDmax : D < 2 ^ 63).
  { assert (inject_Z D < inject_Z (2 ^ 63))%Q as X by lra. by rewrite <- Zlt_Qlt in X. }
  assert (EH : dIntPart (dTruncate (dDiv (dMod (dAbs secs) decSecondsPerDay) decSecondsPerHour) 0) = H).
  { apply dIntPart_int; [|lia]. rewrite (remainder_units (dAbs secs) A _ 86400 _ 3600); try done; (apply dval_NewFromInt || lia). }
  assert (EM : dIntPart (dTruncate (dDiv (dMod (dAbs secs) decSecondsPerHour) decSecondsPerMinute) 0) = M).
  { apply dIntPart_int; [|lia]. rewrite (remainder_units (dAbs secs) A _ 3600 _ 60); try done; (apply dval_NewFromInt || lia). }
  assert (ED : dt_Days secs = dSign secs * D).
  { unfold dt_Days. apply dIntPart_int; [apply (signed_units secs _ 86400); [apply dval_NewFromInt|lia|done]|].
    destruct (dSign_cases secs) as [[-> _]|[[-> _]|[-> _]]]; lia. }
  assert (ES : (dval (dt_Seconds secs) == inject_Z (dSign secs) * S)%Q).
  { unfold dt_Seconds. pose proof (mod_floor (dAbs secs) decSecondsPerMinute 60 (dval_NewFromInt _) ltac:(lia) ltac:(by rewrite HaA)) as Hm.
    rewrite HaA in Hm. change (inject_Z 60) with 60%Q in Hm.
    cbv zeta. destruct (dSign_cases secs) as [[-> Hs]|[[-> Hs]|[-> Hs]]]; cbn [Z.ltb Z.compare].
    - rewrite dval_Neg, Hm. change (inject_Z (-1)) with (-1)%Q. unfold S. ring.
    - assert (E0 : (A == 0)%Q) by (unfold A; rewrite Hs; reflexivity). rewrite Hm. fold S. change (inject_Z 0) with 0%Q.
      lra.
    - rewrite Hm. change (inject_Z 1) with 1%Q. unfold S. ring. }
  rewrite ED, ES. unfold dt_Hours, dt_Minutes. rewrite EH, EM, !inject_Z_mult.
  assert (Hv : (dval secs == inject_Z (dSign secs) * A)%Q).
  { unfold A. destruct (dSign_cases secs) as [[-> Hs]|[[-> Hs]|[-> Hs]]];
      [rewrite Qabs_neg by lra; change (inject_Z (-1)) with (-1)%Q; ring|rewrite Hs; reflexivity|rewrite Qabs_pos by lra; change (inject_Z 1) with 1%Q; ring]. }
  split_and!.
  - rewrite Hv, HS at 1. ring.
  - destruct (dSign_cases secs) as [[-> _]|[[-> _]|[-> _]]]; lia.
  - destruct (dSign_cases secs) as [[-> _]|[[-> _]|[-> _]]]; lia.
  - destruct (dSign_cases secs) as [[-> _]|[[-> _]|[-> _]]]; apply Qabs_Qlt_condition;
      [change (inject_Z (-1)) with (-1)%Q|change (inject_Z 0) with 0%Q|change (inject_Z 1) with 1%Q]; lra.
  - destruct (dSign_cases secs) as [[-> _]|[[-> _]|[-> _]]]; lia.
  - destruct (dSign_cases secs) as [[-> _]|[[-> _]|[-> _]]]; lia.
  - destruct (dSign_cases secs) as [[-> _]|[[-> _]|[-> _]]]; lia.
Qed.

(** Rounding a duration to a step: an error unless the step is positive, and
    otherwise a multiple of the step; the half modes stay within half a step,
    the directed modes within one step (up to the 38th place of the quotient). *)
Theorem duration_rounding (d step : Decimal) :
  ((dval step <= 0)%Q -> forall mode, roundDTApply mode d step = Err (TypeError "round" "step must be positive")) /\
  ((0 < dval step)%Q ->
     let q := Qscaled Qround_half_up (dval d / dval step) 38 in
     let to f v := exists r, v = Ok (BlDaysTimeDuration r) /\ (dval r == inject_Z (f q) * dval step)%Q in
     to Qround_half_up (roundDTFn d step) /\ to Qaway (roundUpDTFn d step) /\ to Qtrunc (roundDownDTFn d step) /\
     to Qround_half_down (roundHalfDownDTFn d step) /\ to Qround_half_even (roundHalfEvenDTFn d step)).
Proof.
  split.
  - intros H mode. unfold roundDTApply. destruct (dSign_cases step) as [[-> ?]|[[-> ?]|[-> ?]]]; [done|done|lra].
  - intros H q to. assert (Hq : (dval (dDivRound d step (numericPrecision + 4)) == q)%Q).
    { rewrite dval_DivRound by (lra || (unfold numericPrecision; lia)). reflexivity. }
    assert (Hto : forall f mode, Proper (Qeq ==> eq) f -> (forall x, (dval (mode x) == Qscaled f (dval x) 0)%Q) ->
      to f (roundDTApply mode d step)).
    { intros f mode Hf Hmode. unfold to, roundDTApply.
      destruct (dSign_cases step) as [[-> ?]|[[-> ?]|[-> ?]]]; [lra|lra|]. cbn [Z.leb Z.compare]. eexists. split; [reflexivity|].
      rewrite dval_Mul, Hmode. unfold Qscaled. change (pow10 0) with 1%Q.
      assert (E : (dval (dDivRound d step (numericPrecision + 4)) * 1 == q)%Q) by (rewrite Hq; ring).
      rewrite (Hf _ _ E). apply Qmult_comp; [field|reflexivity]. }
    split_and!.
    + apply Hto; [apply _|intros x; apply dval_Round].
    + apply Hto; [intros x y E; unfold Qaway; assert (Eb : Qle_bool 0 x = Qle_bool 0 y) by (by rewrite E);
        rewrite Eb; destruct (Qle_bool 0 y); by rewrite E|intros x; apply dval_RoundUp].
    + apply Hto; [apply _|intros x; apply dval_RoundDown].
    + apply Hto.
      * intros x y E. unfold Qround_half_down. assert (Eb : Qle_bool 0 x = Qle_bool 0 y) by (by rewrite E).
        rewrite Eb. destruct (Qle_bool 0 y); by rewrite E.
      * intros x. unfold roundHalfDownMode. cbv zeta. pose proof (half_down_test x 0 ltac:(lia)) as Ht.
        change (int32 (- 0 - 1)) with (-1) in Ht. rewrite Ht. unfold Qscaled. rewrite Qround_half_down_cases.
        destruct (Qle_bool _ (1 # 2)); cbn [negb]; [rewrite dval_Truncate by lia; reflexivity|apply dval_RoundUp].
    + apply Hto; [|intros x; apply dval_RoundBank]. intros x y E. unfold Qround_half_even.
      rewrite (Qfloor_comp _ _ E). assert (Ec : (x - inject_Z (Qfloor y) ?= 1 # 2)%Q = (y - inject_Z (Qfloor y) ?= 1 # 2)%Q)
        by (by rewrite E). by rewrite Ec.
Qed.

End Laws.

(** ** Concrete durations *)

(** A day, two hours, three minutes and four and a half seconds, and back. *)
Definition sampleSecs : ten := mkTen 937845 (-1).

Lemma sample_places : places29 (tval sampleSecs).
Proof. exists (937845 * 10 ^ 28). vm_compute. reflexivity. Qed.

Lemma dt_duration_roundtrip_witness :
  formatDTDuration (DT := tenText) sampleSecs = "P1DT2H3M4.5S" /\
  exists r, dtDurationFn (DT := tenText) "P1DT2H3M4.5S" = Ok (BlDaysTimeDuration r) /\ (tval r == tval sampleSecs)%Q.
Proof.
  assert (E : formatDTDuration (DT := tenText) sampleSecs = "P1DT2H3M4.5S") by (vm_compute; reflexivity).
  split; [exact E|].
  destruct (dt_duration_roundtrip (DL := tenDecimal_laws) (TL := tenText_laws) sampleSecs sample_places) as (r & Hr & Vr).
  rewrite E in Hr. exists r. split; [exact Hr|exact Vr].
Defined.

Lemma ym_duration_roundtrip_witness :
  formatYMDuration (DT := tenText) (mkTen (-14) 0) = "-P1Y2M" /\
  exists r, ymDurationFn (DT := tenText) "-P1Y2M" = Ok (BlYearsMonthsDuration r) /\ (tval r == -14)%Q.
Proof.
  assert (E : formatYMDuration (DT := tenText) (mkTen (-14) 0) = "-P1Y2M") by (vm_compute; reflexivity).
  split; [exact E|].
  destruct (ym_duration_roundtrip (DL := tenDecimal_laws) (TL := tenText_laws) (mkTen (-14) 0)) as (r & Hr & Vr).
  { exists (-14 * 10 ^ 29). vm_compute. reflexivity. }
  rewrite E in Hr. exists r. split; [exact Hr|]. etransitivity; [exact Vr|]. reflexivity.
Defined.

Lemma dt_components_witness :
  (tval sampleSecs == inject_Z (dt_Days (DO := tenDecimal) sampleSecs) * 86400 + inject_Z (dt_Hours (DO := tenDecimal) sampleSecs) * 3600 +
     inject_Z (dt_Minutes (DO := tenDecimal) sampleSecs) * 60 + tval (dt_Seconds (DO := tenDecimal) sampleSecs))%Q /\
  dt_Hours (DO := tenDecimal) sampleSecs = 2.
Proof.
  destruct (dt_components (DL := tenDecimal_laws) sampleSecs sample_places) as (H & _); [vm_compute; reflexivity|].
  split; [exact H|vm_compute; reflexivity].
Defined.

(** ** Beyond 29 decimal places *)

(** A duration a hair below a day: the quotient by a day rounds to one, and the
    text has a negative minute, which the parser refuses. *)
Definition almostDay : ten := mkTen (86400 * 10 ^ 31 - 1) (-31).

Theorem dt_text_of_almost_a_day :
  formatDTDuration (DT := tenText) almostDay = "P1DT-1M59.9999999999999999999999999999999S" /\
  dtDurationFn (DT := tenText) (formatDTDuration (DT := tenText) almostDay) =
    Err (ParseError "P1DT-1M59.9999999999999999999999999999999S" "invalid duration").
Proof. split; [vm_compute; reflexivity|vm_eq]. Qed.
