(* ===== verification/Temporal.v ===== *)
(** * Dates, times and datetimes

    Models [core/temporal.go], [core/date.go], [core/time.go] and
    [core/datetime.go]: construction from text and components, arithmetic with
    durations, components, calendar navigation and the differences between
    dates.  A value carries its [time.Time] and whether it is naive.  [int] is
    an unbounded integer, as in [GoTime]. *)

From Stdlib Require Import SpecFloat.
From S2P Require Import Prelude Decimal GoText GoTime Values Lists Numbers NumberLaws TenDecimal GoTimeText Durations.
#[global] Open Scope Z_scope.

(** ** Zones ([temporal.go]) *)

(** [[^\]]+] up to a final [\]] *)
Fixpoint zone_rest (s : string) : option string :=
  match s with
  | EmptyString => None
  | String c s' =>
      if is_char c 93 then match s' with EmptyString => Some EmptyString | String _ _ => None end
      else match zone_rest s' with Some z => Some (String c z) | None => None end
  end.

(** [splitZoneSuffix]: the text before the suffix and the zone. *)
Fixpoint splitZoneSuffix (s : string) : option (string * string) :=
  match s with
  | EmptyString => None
  | String c s' =>
      match (if is_char c 91 then zone_rest s' else None) with
      | Some (String a z) => Some (EmptyString, String a z)
      | _ =>
          match splitZoneSuffix s' with
          | Some (body, z) => Some (String c body, z)
          | None => None
          end
      end
  end.

Definition renderZoneSuffix (t : Time) (naive : bool) : string :=
  if naive then ""
  else if Contains (loc_name (t_loc t)) "/" then "[" +:+ loc_name (t_loc t) +:+ "]"
  else Format t [stdISO8601ColonTZ].

Definition zoneName (t : Time) (naive : bool) : string :=
  if naive then "" else if Contains (loc_name (t_loc t)) "/" then loc_name (t_loc t) else "".

(** [t.In(loc)] *)
Definition In (t : Time) (loc : Location) : Time := mkTime (t_unix t) (t_nsec t) loc.

Definition weekdayNames : list (string * Z) :=
  [("Monday", 1); ("Tuesday", 2); ("Wednesday", 3); ("Thursday", 4); ("Friday", 5); ("Saturday", 6); ("Sunday", 0)].
Definition weekdayFromName (s : string) : option Z := assoc s weekdayNames.

(** ** Dates ([date.go]) *)

Definition midnight (t : Time) : Time := goDate (Year t) (Month t) (Day t) 0 0 0 0 (t_loc t).

(** The last day of a month: day 0 of the next. *)
Definition lastDayOf (year month : Z) (loc : Location) : Z := Day (goDate year (month + 1) 0 0 0 0 0 loc).

Section Temporal.
Context {DO : DecimalOps} {DT : DecimalText DO} {TZ : TimeZones}.

Definition decimalSecondsBetween (from to : Time) : Decimal :=
  dAdd (dNewFromInt (t_unix to - t_unix from)) (dNew (t_nsec to - t_nsec from) (-9)).

Definition offsetDuration (t : Time) (naive : bool) : BlValue :=
  if naive then BlNull else dtDur (dNewFromInt (loc_offset (t_loc t) (t_unix t))).

Definition date_String (t : Time) (naive : bool) : string := Format t layoutDate +:+ renderZoneSuffix t naive.

Definition parseDate (s : string) : result BlValue :=
  match splitZoneSuffix s with
  | Some (body, zone) =>
      match LoadLocation zone with
      | None => Err (TypeError "date" ("unknown zone " +:+ zone))
      | Some loc =>
          match ParseInLocation layoutDate body loc with
          | None => Err (ParseError s "parsing time")
          | Some t => Ok (BlDate t false)
          end
      end
  | None =>
      match time_Parse (layoutDate ++ [stdISO8601ColonTZ]) s with
      | Some t => Ok (BlDate (midnight t) false)
      | None =>
          match time_Parse layoutDate s with
          | None => Err (ParseError s "parsing time")
          | Some t => Ok (BlDate (goDate (Year t) (Month t) (Day t) 0 0 0 0 UTC) true)
          end
      end
  end.

(** The zone of a component bundle: an offset in nanoseconds, a zone name. *)
Definition component_loc (op : string) (offset : option Z) (zone : string) : result (Location * bool) :=
  if negb (String.eqb zone "") then
    match LoadLocation zone with
    | None => Err (TypeError op "unknown zone")
    | Some l => Ok (l, false)
    end
  else match offset with
       | Some ns => Ok (FixedZone "" (Z.quot ns (10 ^ 9)), false)
       | None => Ok (UTC, true)
       end.

Definition offset_zone_clash (offset : option Z) (zone : string) : bool :=
  match offset with Some _ => true | None => false end && negb (String.eqb zone "").

(** [dateFromComponents]: the exclusion of offset and zone, the ranges, the
    zone, and the roll-over check, in this order. *)
Definition dateFromComponents (year month day : Z) (offset : option Z) (zone : string) : result BlValue :=
  if offset_zone_clash offset zone then Err (TypeError "Date" "offset and zone are mutually exclusive")
  else if (month <? 1) || (12 <? month) || (day <? 1) || (31 <? day) then Err (TypeError "Date" "invalid month/day")
  else
    let! ln := component_loc "Date" offset zone in
    let t := goDate year month day 0 0 0 0 (fst ln) in
    if negb (Month t =? month) || negb (Day t =? day) then Err (TypeError "Date" "invalid day for month")
    else Ok (BlDate t (snd ln)).

Definition dateFn (args : list BlValue) : result BlValue :=
  match args with
  | [a] =>
      match a with
      | BlString s => parseDate s
      | BlDateTime t n => Ok (BlDate (midnight t) n)
      | _ => Err (argTypeError a)
      end
  | [y; m; d] =>
      match y, m, d with
      | BlNumber y, BlNumber m, BlNumber d =>
          dateFromComponents (dIntPart y) (dIntPart m) (dIntPart d) None ""
      | _, _, _ => Err (TypeError "date" "expected numeric components")
      end
  | _ => Err (TypeError "date" "wrong arity")
  end.

(** [addMonthsClamped]; [base/12] and [base%12] truncate, in [int]. *)
Definition addMonthsClamped (t : Time) (months : Decimal) : Time :=
  let totalMonths := dIntPart (dTruncate months 0) in
  let '(y, m, d) := t_date t in
  let base := int64 (m - 1 + totalMonths) in
  let ny := int64 (y + Z.quot base 12) in
  let nm := Z.rem base 12 + 1 in
  let '(ny, nm) := if nm <=? 0 then (int64 (ny - 1), nm + 12) else (ny, nm) in
  let last := lastDayOf ny nm (t_loc t) in
  goDate ny nm (if last <? d then last else d) (Hour t) (Minute t) (Second t) (t_nsec t) (t_loc t).

Definition addDateYM (t : Time) (n : bool) (dur : Decimal) : BlValue := BlDate (addMonthsClamped t dur) n.
Definition addDateDT (t : Time) (n : bool) (dur : Decimal) : BlValue :=
  BlDate (AddDate t 0 0 (dIntPart (dTruncate (dDiv dur decSecondsPerDay) 0))) n.
Definition subDateYM (t : Time) (n : bool) (dur : Decimal) : BlValue := addDateYM t n (dNeg dur).
Definition subDateDT (t : Time) (n : bool) (dur : Decimal) : BlValue := addDateDT t n (dNeg dur).

Definition subDates (a : Time) (an : bool) (b : Time) (bn : bool) : BlValue :=
  if negb (Bool.eqb an bn) then BlNull else dtDur (decimalSecondsBetween b a).

(** ** Times ([time.go]) *)

Definition normaliseTimeDate (t : Time) : Time := goDate 0 1 1 (Hour t) (Minute t) (Second t) (t_nsec t) (t_loc t).
Definition timeOnly (t : Time) : Time := goDate 0 1 1 (Hour t) (Minute t) (Second t) (t_nsec t) (t_loc t).

Definition time_String (t : Time) (naive : bool) : string :=
  Format t (if t_nsec t =? 0 then layoutTime else layoutTimeFrac) +:+ renderZoneSuffix t naive.

Definition parseTime (s : string) : result BlValue :=
  match splitZoneSuffix s with
  | Some (body, zone) =>
      match LoadLocation zone with
      | None => Err (TypeError "time" ("unknown zone " +:+ zone))
      | Some loc =>
          match ParseInLocation layoutTimeFrac body loc with
          | None => Err (ParseError s "parsing time")
          | Some t => Ok (BlTime (normaliseTimeDate t) false)
          end
      end
  | None =>
      match time_Parse (layoutTimeFrac ++ [stdISO8601ColonTZ]) s with
      | Some t => Ok (BlTime (normaliseTimeDate t) false)
      | None =>
          match time_Parse layoutTimeFrac s with
          | None => Err (ParseError s "parsing time")
          | Some t => Ok (BlTime (goDate 0 1 1 (Hour t) (Minute t) (Second t) (t_nsec t) UTC) true)
          end
      end
  end.

Definition timeFromComponents (hour minute second nanosecond : Z) (offset : option Z) (zone : string) : result BlValue :=
  if offset_zone_clash offset zone then Err (TypeError "Time" "offset and zone are mutually exclusive")
  else if (hour <? 0) || (23 <? hour) || (minute <? 0) || (59 <? minute) || (second <? 0) || (59 <? second)
  then Err (TypeError "Time" "invalid hour/minute/second")
  else
    let! ln := component_loc "Time" offset zone in
    Ok (BlTime (goDate 0 1 1 hour minute second nanosecond (fst ln)) (snd ln)).

Definition timeFn (args : list BlValue) : result BlValue :=
  let components h m s off :=
    match h, m, s with
    | BlNumber h, BlNumber m, BlNumber s =>
        let! off := off in timeFromComponents (dIntPart h) (dIntPart m) (dIntPart s) 0 off ""
    | _, _, _ => Err (TypeError "time" "expected numeric components")
    end in
  match args with
  | [a] =>
      match a with
      | BlString s => parseTime s
      | BlDateTime t n => Ok (BlTime (timeOnly t) n)
      | _ => Err (argTypeError a)
      end
  | [h; m; s] => components h m s (Ok None)
  | [h; m; s; o] =>
      components h m s
        match o with
        | BlDaysTimeDuration off => Ok (Some (int64 (dIntPart off * 10 ^ 9)))
        | _ => Err (argTypeError o)
        end
  | _ => Err (TypeError "time" "wrong arity")
  end.

Definition addTimeDur (t : Time) (n : bool) (dur : Decimal) : BlValue :=
  let secs := Z.rem (dIntPart dur) 86400 in
  BlTime (normaliseTimeDate (TimeAdd t (secs * 10 ^ 9))) n.
Definition subTimeDur (t : Time) (n : bool) (dur : Decimal) : BlValue := addTimeDur t n (dNeg dur).

(** ** Datetimes ([datetime.go]) *)

Definition datetime_String (t : Time) (naive : bool) : string :=
  Format t (if t_nsec t =? 0 then layoutDateTime else layoutDateTimeFrac) +:+ renderZoneSuffix t naive.

Definition parseDateTime (s : string) : result BlValue :=
  match splitZoneSuffix s with
  | Some (body, zone) =>
      match LoadLocation zone with
      | None => Err (TypeError "datetime" ("unknown zone " +:+ zone))
      | Some loc =>
          match ParseInLocation layoutDateTimeFrac body loc with
          | None => Err (ParseError s "parsing time")
          | Some t => Ok (BlDateTime t false)
          end
      end
  | None =>
      match time_Parse (layoutDateTimeFrac ++ [stdISO8601ColonTZ]) s with
      | Some t => Ok (BlDateTime t false)
      | None =>
          match time_Parse layoutDateTimeFrac s with
          | None => Err (ParseError s "parsing time")
          | Some t => Ok (BlDateTime (In t UTC) true)
          end
      end
  end.

Definition dateTimeFromComponents (year month day hour minute second : Z) (offset : option Z) (zone : string)
  : result BlValue :=
  if offset_zone_clash offset zone then Err (TypeError "DateTime" "offset and zone are mutually exclusive")
  else if (month <? 1) || (12 <? month) || (day <? 1) || (31 <? day) || (hour <? 0) || (23 <? hour)
  then Err (TypeError "DateTime" "invalid components")
  else
    let! ln := component_loc "DateTime" offset zone in
    let t := goDate year month day hour minute second 0 (fst ln) in
    if negb (Month t =? month) || negb (Day t =? day) then Err (TypeError "DateTime" "invalid day for month")
    else Ok (BlDateTime t (snd ln)).

Definition datetimeFn (args : list BlValue) : result BlValue :=
  match args with
  | [a] => match a with BlString s => parseDateTime s | _ => Err (argTypeError a) end
  | [d; t] =>
      match d, t with
      | BlDate d dn, BlTime t tn =>
          let naive := dn && tn in
          let loc := if naive then UTC else t_loc t in
          Ok (BlDateTime (goDate (Year d) (Month d) (Day d) (Hour t) (Minute t) (Second t) (t_nsec t) loc) naive)
      | _, _ => Err (TypeError "datetime" "expected (date, time)")
      end
  | _ => Err (TypeError "datetime" "wrong arity")
  end.

Definition addDateTimeYM (t : Time) (n : bool) (dur : Decimal) : BlValue := BlDateTime (addMonthsClamped t dur) n.
Definition addDateTimeDT (t : Time) (n : bool) (dur : Decimal) : BlValue :=
  let nanos := dIntPart (dTruncate (dMul dur (dNew 1 9)) 0) in BlDateTime (TimeAdd t nanos) n.
Definition subDateTimeYM (t : Time) (n : bool) (dur : Decimal) : BlValue := addDateTimeYM t n (dNeg dur).
Definition subDateTimeDT (t : Time) (n : bool) (dur : Decimal) : BlValue := addDateTimeDT t n (dNeg dur).
Definition subDateTimes (a : Time) (an : bool) (b : Time) (bn : bool) : BlValue :=
  if negb (Bool.eqb an bn) then BlNull else dtDur (decimalSecondsBetween b a).

(** [cmpDates], [cmpTimes], [cmpDateTimes] *)
Definition cmpTemporals (a : Time) (an : bool) (b : Time) (bn : bool) (pick : Z -> bool) : BlValue :=
  if negb (Bool.eqb an bn) then BlNull else BlBoolean (pick (TimeCompare a b)).

(** ** Components *)

Definition weekdayName (wd : Z) : string :=
  match find (fun p => snd p =? wd) weekdayNames with Some p => fst p | None => "" end.

Definition monthNames : list string :=
  ["January"; "February"; "March"; "April"; "May"; "June"; "July"; "August"; "September"; "October"; "November"; "December"].
Definition monthName (m : Z) : string := default "" (monthNames !! Z.to_nat (m - 1)).

(** [s[:3]] *)
Definition short (s : string) : string := String.substring 0 3 s.

(** [decimal.NewFromInt(i).String()] *)
Definition int_string (i : Z) : string := dString (dNewFromInt i).

Definition calendarProp (t : Time) (name : string) : option BlValue :=
  assoc name
    [("year", numFromInt (Year t));
     ("month", numFromInt (Month t));
     ("day", numFromInt (Day t));
     ("dayName", BlString (weekdayName (Weekday t)));
     ("dayNameShort", BlString (short (weekdayName (Weekday t))));
     ("dayOfYear", numFromInt (YearDay t));
     ("weekOfYear", numFromInt ((YearDay t - 1) / 7 + 1));
     ("isoWeekOfYear", numFromInt (snd (ISOWeek t)));
     ("isoYearWeek", BlString (int_string (fst (ISOWeek t)) +:+ "W" +:+ int_string (snd (ISOWeek t))));
     ("monthName", BlString (monthName (Month t)));
     ("monthNameShort", BlString (short (monthName (Month t))));
     ("quarter", numFromInt ((Month t - 1) / 3 + 1));
     ("yearQuarter", BlString (int_string (Year t) +:+ "Q" +:+ int_string ((Month t - 1) / 3 + 1)))].

(** The components dates, times and datetimes share. *)
Definition zoneProp (t : Time) (naive : bool) (name : string) : option BlValue :=
  if String.eqb name "offset" then Some (offsetDuration t naive)
  else if String.eqb name "timezone" then
    Some (if String.eqb (zoneName t naive) "" then BlNull else BlString (zoneName t naive))
  else None.

Definition clockProp (t : Time) (name : string) : option BlValue :=
  assoc name [("hour", numFromInt (Hour t)); ("minute", numFromInt (Minute t)); ("second", numFromInt (Second t))].

Definition dateComponent (t : Time) (naive : bool) (name : string) : option BlValue :=
  match zoneProp t naive name with Some v => Some v | None => calendarProp t name end.
Definition timeComponent (t : Time) (naive : bool) (name : string) : option BlValue :=
  match clockProp t name with Some v => Some v | None => zoneProp t naive name end.
Definition datetimeComponent (t : Time) (naive : bool) (name : string) : option BlValue :=
  match clockProp t name with
  | Some v => Some v
  | None => match zoneProp t naive name with Some v => Some v | None => calendarProp t name end
  end.

(** ** Navigation *)

Definition temporalParts (v : BlValue) : option (Time * bool * bool) :=
  match v with
  | BlDate t n => Some (t, n, false)
  | BlDateTime t n => Some (t, n, true)
  | _ => None
  end.

Definition rebuildTemporal (t : Time) (naive isDateTime : bool) : BlValue :=
  if isDateTime then BlDateTime t naive else BlDate (midnight t) naive.

Definition dateUnary (impl : Time -> Time) (v : BlValue) : result BlValue :=
  match temporalParts v with
  | None => Err (argTypeError v)
  | Some (t, naive, dtk) => Ok (rebuildTemporal (impl t) naive dtk)
  end.

Definition datePredicate (impl : Time -> bool) (v : BlValue) : result BlValue :=
  match temporalParts v with
  | None => Err (argTypeError v)
  | Some (t, _, _) => Ok (BlBoolean (impl t))
  end.

Definition isWeekendTime (t : Time) : bool := (Weekday t =? 6) || (Weekday t =? 0).

Definition firstDayOfMonthTime (t : Time) : Time :=
  goDate (Year t) (Month t) 1 (Hour t) (Minute t) (Second t) (t_nsec t) (t_loc t).
Definition lastDayOfMonthTime (t : Time) : Time :=
  goDate (Year t) (Month t + 1) 0 (Hour t) (Minute t) (Second t) (t_nsec t) (t_loc t).
Definition lastDayOfPrevMonthTime (t : Time) : Time := lastDayOfMonthTime (AddDate (firstDayOfMonthTime t) 0 0 (-1)).
Definition firstDayOfNextMonthTime (t : Time) : Time := AddDate (lastDayOfMonthTime t) 0 0 1.

(** The loops of [nextWeekdayTime], [prevWeekdayTime] and [dowNav]: step by days
    until the test holds.  [None]: the fuel ran out. *)
Fixpoint step_until (fuel : nat) (step : Z) (test : Time -> bool) (t : Time) : option Time :=
  match fuel with
  | O => None
  | S fuel' =>
      let t := AddDate t 0 0 step in
      if test t then Some t else step_until fuel' step test t
  end.

Definition nextWeekdayTime (t : Time) : option Time := step_until 7 1 (fun t => negb (isWeekendTime t)) t.
Definition prevWeekdayTime (t : Time) : option Time := step_until 7 (-1) (fun t => negb (isWeekendTime t)) t.

(** A loop that does not end has no result. *)
Definition looping (r : option (result BlValue)) : result BlValue :=
  match r with Some v => v | None => Err (ErrorText "no result") end.

(** [dateUnary] of a function that loops. *)
Definition dateUnaryLoop (impl : Time -> option Time) (v : BlValue) : result BlValue :=
  match temporalParts v with
  | None => Err (argTypeError v)
  | Some (t, naive, dtk) => looping (option_map (fun t => Ok (rebuildTemporal t naive dtk)) (impl t))
  end.

Definition dowNav (forward : bool) (v dow : BlValue) : result BlValue :=
  match temporalParts v with
  | None => Err (argTypeError v)
  | Some (t, naive, dtk) =>
      match dow with
      | BlString s =>
          match weekdayFromName s with
          | None => Err (TypeError "dayOfWeek" ("unknown day name " +:+ s))
          | Some wd =>
              looping (option_map (fun t => Ok (rebuildTemporal t naive dtk))
                (step_until 7 (if forward then 1 else -1) (fun t => Weekday t =? wd) t))
          end
      | _ => Err (argTypeError dow)
      end
  end.

(** The loop that counts the days of a span that pass a test. *)
Fixpoint count_days (test : Time -> bool) (fuel : nat) (a b : Time) (count : Z) : option Z :=
  if TimeAfter a b then Some count
  else match fuel with
       | O => None
       | S fuel' => count_days test fuel' (AddDate a 0 0 1) b (if test a then count + 1 else count)
       end.
(** The loop of [weekdaysBetweenFn]. *)
Definition count_weekdays : nat -> Time -> Time -> Z -> option Z := count_days (fun a => negb (isWeekendTime a)).

(** Enough for steps of at least half a day. *)
Definition days_fuel (a b : Time) : nat := S (Z.to_nat ((t_unix b - t_unix a) / 43200 + 1)).

Definition weekdaysBetweenFn (v1 v2 : BlValue) : result BlValue :=
  match temporalParts v1, temporalParts v2 with
  | Some (t1, _, _), Some (t2, _, _) =>
      let a := midnight t1 in
      let b := midnight t2 in
      let '(a, b) := if TimeAfter a b then (b, a) else (a, b) in
      looping (option_map (fun n => Ok (numFromInt n)) (count_weekdays (days_fuel a b) a b 0))
  | _, _ => Err (TypeError "weekdaysBetween" "expected temporals")
  end.

Definition daysBetweenFn (v1 v2 : BlValue) (third : option BlValue) : result BlValue :=
  match temporalParts v1, temporalParts v2 with
  | Some (t1, _, dt1), Some (t2, _, _) =>
      let includeTime := match third with Some (BlBoolean b) => dt1 && b | _ => false end in
      let '(t1, t2) := if includeTime then (t1, t2) else (midnight t1, midnight t2) in
      let days := dDivRound (decimalSecondsBetween t1 t2) decSecondsPerDay numericPrecision in
      Ok (num (if includeTime then days else dRound days 0))
  | _, _ => Err (TypeError "daysBetween" "expected temporals")
  end.

Definition wholeMonthsBetween (a b : Time) : Z :=
  let months := (Year b - Year a) * 12 + (Month b - Month a) in
  if (0 <? months) && (Day b <? Day a) then months - 1
  else if (months <? 0) && (Day a <? Day b) then months + 1
  else months.

Definition ymDurationBetweenAny (v1 v2 : BlValue) : result BlValue :=
  match temporalParts v1, temporalParts v2 with
  | Some (t1, _, _), Some (t2, _, _) => Ok (ymDur (dNewFromInt (wholeMonthsBetween t1 t2)))
  | _, _ => Err (TypeError "ymDurationBetween" "expected temporals")
  end.
Definition dtDurationBetweenAny (v1 v2 : BlValue) : result BlValue :=
  match temporalParts v1, temporalParts v2 with
  | Some (t1, _, _), Some (t2, _, _) => Ok (dtDur (decimalSecondsBetween t1 t2))
  | _, _ => Err (TypeError "dtDurationBetween" "expected temporals")
  end.

(** [weekdaysInMonth]: the loop over the days from the first. *)
Fixpoint month_days (fuel : nat) (d : Time) (month wd : Z) : option (list Time) :=
  match fuel with
  | O => None
  | S fuel' =>
      if negb (Month d =? month) then Some []
      else match month_days fuel' (AddDate d 0 0 1) month wd with
           | Some out => Some (if Weekday d =? wd then d :: out else out)
           | None => None
           end
  end.

Definition weekdaysInMonth (t : Time) (wd : Z) : option (list Time) :=
  let first := firstDayOfMonthTime t in month_days 64 first (Month first) wd.

(** The day a function picks among them; [absent] when there is none. *)
Definition dowInMonth (v dow : BlValue) (err : GoError) (pick : list Time -> option Time) (absent : result BlValue)
  : result BlValue :=
  match temporalParts v, dow with
  | Some (t, naive, dtk), BlString s =>
      match weekdayFromName s with
      | None => Err err
      | Some wd =>
          match weekdaysInMonth t wd with
          | None => Err (ErrorText "no result")
          | Some days =>
              match pick days with
              | Some d => Ok (rebuildTemporal d naive dtk)
              | None => absent
              end
          end
      end
  | _, _ => Err err
  end.

(** [days[0]] panics on an empty list. *)
Definition index_panic : result BlValue := Err (ErrorText "index out of range").

Definition firstDOWInMonthFn (v dow : BlValue) : result BlValue :=
  dowInMonth v dow (TypeError "firstDayOfWeekInMonth" "expected (date, dayName)") head index_panic.
Definition lastDOWInMonthFn (v dow : BlValue) : result BlValue :=
  dowInMonth v dow (TypeError "lastDayOfWeekInMonth" "expected (date, dayName)") last index_panic.

Definition nthDOWInMonthFn (v n dow : BlValue) : result BlValue :=
  let err := TypeError "nthDayOfWeekInMonth" "expected (date, n, dayName)" in
  match temporalParts v, n, dow with
  | Some _, BlNumber n, BlString s =>
      match weekdayFromName s with
      | None => Err (TypeError "nthDayOfWeekInMonth" ("unknown day name " +:+ s))
      | Some _ =>
          let nn := dIntPart n in
          if nn =? 0 then Err (TypeError "nthDayOfWeekInMonth" "n must be non-zero")
          else dowInMonth v dow err
                 (fun days =>
                    let idx := if 0 <? nn then nn - 1 else Z.of_nat (length days) + nn in
                    if (idx <? 0) || (Z.of_nat (length days) <=? idx) then None else days !! Z.to_nat idx) (Ok BlNull)
      end
  | _, _, _ => Err err
  end.

(** ** Differences in units *)

Definition secsFloat (a b : Time) : spec_float := dFloat64 (decimalSecondsBetween a b).

Definition calendarUnits (t1 t2 : Time) (years : bool) : spec_float :=
  let full := wholeMonthsBetween t1 t2 in
  let '(full, step) := if years then (Z.quot full 12, 12) else (full, 1) in
  let anchor := addMonthsClamped t1 (dNewFromInt (full * step)) in
  let next := addMonthsClamped t1 (dNewFromInt ((full + 1) * step)) in
  let residual := secsFloat anchor t2 in
  let window := secsFloat anchor next in
  if feqb window (float_of_int 0) then float_of_int full
  else fadd (float_of_int full) (fdiv residual window).

Definition unitsBetween (t1 t2 : Time) (basis : string) (years : bool) : result spec_float :=
  let actualDays := float_of_int (dIntPart (dDiv (decimalSecondsBetween t1 t2) decSecondsPerDay)) in
  if String.eqb basis "calendar" then Ok (calendarUnits t1 t2 years)
  else if String.eqb basis "actual/365" || String.eqb basis "actual/actual" then
    Ok (if years then fdiv actualDays (float_of_int 365)
        else fdiv (fmul actualDays (float_of_int 12)) (float_of_int 365))
  else if String.eqb basis "actual/360" then
    Ok (fdiv actualDays (float_of_int (if years then 360 else 30)))
  else if String.eqb basis "30/360" || String.eqb basis "30E/360" then
    let d1 := Z.min (Day t1) 30 in
    let d2 := Z.min (Day t2) 30 in
    let days360 := float_of_int ((Year t2 - Year t1) * 360 + (Month t2 - Month t1) * 30 + (d2 - d1)) in
    Ok (fdiv days360 (float_of_int (if years then 360 else 30)))
  else Err (TypeError "between" ("unknown basis " +:+ basis)).

Definition diffUnits (v1 v2 : BlValue) (third : option BlValue) (years : bool) : result BlValue :=
  match temporalParts v1, temporalParts v2 with
  | Some (t1, _, _), Some (t2, _, _) =>
      let basis := match third with Some (BlString b) => b | _ => "calendar" end in
      let t1 := midnight t1 in
      let t2 := midnight t2 in
      let '(t1, t2, sign) := if TimeAfter t1 t2 then (t2, t1, -1) else (t1, t2, 1) in
      let! val := unitsBetween t1 t2 basis years in
      Ok (num (dNewFromFloat (fmul (float_of_int sign) val)))
  | _, _ => Err (TypeError "between" "expected temporals")
  end.

(** ** Zones and financial years *)

Definition stripToNaive (v : BlValue) : result BlValue :=
  match temporalParts v with
  | None => Err (argTypeError v)
  | Some (w, _, dtk) =>
      Ok (rebuildTemporal (goDate (Year w) (Month w) (Day w) (Hour w) (Minute w) (Second w) (t_nsec w) UTC) true dtk)
  end.

Definition withOffsetFn (v off : BlValue) : result BlValue :=
  match off with
  | BlDaysTimeDuration secs =>
      let loc := FixedZone "" (dIntPart secs) in
      match v with
      | BlTime t n => Ok (if n then BlNull else BlTime (In t loc) false)
      | BlDateTime t n => Ok (if n then BlNull else BlDateTime (In t loc) false)
      | _ => Err (argTypeError v)
      end
  | _ => Err (argTypeError off)
  end.

Definition withTimezoneFn (t : Time) (naive : bool) (zone : string) : BlValue :=
  if naive then BlNull
  else match LoadLocation zone with
       | None => BlNull
       | Some loc => BlDateTime (In t loc) false
       end.

Definition fyStartMonths : list (string * Z) :=
  [("AU", 7); ("UK", 4); ("US", 10); ("IN", 4); ("JP", 4); ("CA", 4); ("NZ", 4)].

Definition fyBasisMonth (basis : BlValue) : option Z :=
  match basis with
  | BlNumber b => let m := dIntPart b in if (m <? 1) || (12 <? m) then None else Some m
  | BlString b => assoc b fyStartMonths
  | _ => None
  end.

Definition financialYearOf (t : Time) (startMonth : Z) : Z :=
  if startMonth <=? Month t then if startMonth =? 1 then Year t else Year t + 1 else Year t.

(** [%d] *)
Definition fmt_d (z : Z) : string := if z <? 0 then "-" +:+ int_text (- z) else int_text z.

Definition financialYearFn (v basis : BlValue) : result BlValue :=
  match temporalParts v with
  | None => Err (argTypeError v)
  | Some (t, _, _) =>
      match fyBasisMonth basis with
      | None => Err (TypeError "financialYear" "invalid basis")
      | Some startMonth => Ok (BlString ("FY" +:+ fmt_d (financialYearOf t startMonth)))
      end
  end.

Definition financialYearQuarterFn (v basis : BlValue) : result BlValue :=
  match temporalParts v with
  | None => Err (argTypeError v)
  | Some (t, _, _) =>
      match fyBasisMonth basis with
      | None => Err (TypeError "financialYearQuarter" "invalid basis")
      | Some startMonth =>
          let monthsIn := (Month t - startMonth + 12) mod 12 in
          let q := monthsIn / 3 + 1 in
          Ok (BlString ("FY" +:+ fmt_d (financialYearOf t startMonth) +:+ "Q" +:+ fmt_d q))
      end
  end.

(** ** Registration *)

Definition get_date (v : BlValue) : option (Time * bool) := match v with BlDate t n => Some (t, n) | _ => None end.
Definition get_time (v : BlValue) : option (Time * bool) := match v with BlTime t n => Some (t, n) | _ => None end.
Definition get_datetime (v : BlValue) : option (Time * bool) := match v with BlDateTime t n => Some (t, n) | _ => None end.
Definition get_string (v : BlValue) : option string := match v with BlString s => Some s | _ => None end.

Definition on1 {A} (f : Time -> bool -> A -> BlValue) (p : Time * bool) (a : A) : BlValue := f (fst p) (snd p) a.
Definition on2 (f : Time -> bool -> Time -> bool -> BlValue) (p q : Time * bool) : BlValue := f (fst p) (snd p) (fst q) (snd q).

Definition dateOptions : list Builtin :=
  [mkBuiltin "addDateYM" [2] (fn2 (typed2 get_date get_ym (on1 addDateYM)));
   mkBuiltin "addDateDT" [2] (fn2 (typed2 get_date get_dt (on1 addDateDT)));
   mkBuiltin "subDateYM" [2] (fn2 (typed2 get_date get_ym (on1 subDateYM)));
   mkBuiltin "subDateDT" [2] (fn2 (typed2 get_date get_dt (on1 subDateDT)));
   mkBuiltin "subDates" [2] (fn2 (typed2 get_date get_date (on2 subDates)));
   mkBuiltin "date" [1; 3] dateFn]%nat.

Definition timeOptions : list Builtin :=
  [mkBuiltin "addTimeDur" [2] (fn2 (typed2 get_time get_dt (on1 addTimeDur)));
   mkBuiltin "subTimeDur" [2] (fn2 (typed2 get_time get_dt (on1 subTimeDur)));
   mkBuiltin "time" [1; 3; 4] timeFn]%nat.

Definition third (args : list BlValue) : option BlValue := args !! 2%nat.

(** All but [now], which reads the clock. *)
Definition datetimeOptions : list Builtin :=
  [mkBuiltin "addDateTimeYM" [2] (fn2 (typed2 get_datetime get_ym (on1 addDateTimeYM)));
   mkBuiltin "addDateTimeDT" [2] (fn2 (typed2 get_datetime get_dt (on1 addDateTimeDT)));
   mkBuiltin "subDateTimeYM" [2] (fn2 (typed2 get_datetime get_ym (on1 subDateTimeYM)));
   mkBuiltin "subDateTimeDT" [2] (fn2 (typed2 get_datetime get_dt (on1 subDateTimeDT)));
   mkBuiltin "subDateTimes" [2] (fn2 (typed2 get_datetime get_datetime (on2 subDateTimes)));
   mkBuiltin "datetime" [1; 2] datetimeFn;
   mkBuiltin "withOffset" [2] (fn2 withOffsetFn);
   mkBuiltin "withTimezone" [2] (fn2 (typed2 get_datetime get_string (on1 withTimezoneFn)));
   mkBuiltin "isWeekday" [1] (fn1 (datePredicate (fun t => negb (isWeekendTime t))));
   mkBuiltin "isWeekend" [1] (fn1 (datePredicate isWeekendTime));
   mkBuiltin "firstDayOfMonth" [1] (fn1 (dateUnary firstDayOfMonthTime));
   mkBuiltin "lastDayOfMonth" [1] (fn1 (dateUnary lastDayOfMonthTime));
   mkBuiltin "lastDayOfPrevMonth" [1] (fn1 (dateUnary lastDayOfPrevMonthTime));
   mkBuiltin "firstDayOfNextMonth" [1] (fn1 (dateUnary firstDayOfNextMonthTime));
   mkBuiltin "nextWeekday" [1] (fn1 (dateUnaryLoop nextWeekdayTime));
   mkBuiltin "prevWeekday" [1] (fn1 (dateUnaryLoop prevWeekdayTime));
   mkBuiltin "nextDayOfWeek" [2] (fn2 (dowNav true));
   mkBuiltin "prevDayOfWeek" [2] (fn2 (dowNav false));
   mkBuiltin "firstDayOfWeekInMonth" [2] (fn2 firstDOWInMonthFn);
   mkBuiltin "lastDayOfWeekInMonth" [2] (fn2 lastDOWInMonthFn);
   mkBuiltin "nthDayOfWeekInMonth" [3] (fn3 nthDOWInMonthFn);
   mkBuiltin "weekdaysBetween" [2] (fn2 weekdaysBetweenFn);
   mkBuiltin "daysBetween" [2; 3] (fun args => daysBetweenFn (arg args 0) (arg args 1) (third args));
   mkBuiltin "monthsBetween" [2; 3] (fun args => diffUnits (arg args 0) (arg args 1) (third args) false);
   mkBuiltin "yearsBetween" [2; 3] (fun args => diffUnits (arg args 0) (arg args 1) (third args) true);
   mkBuiltin "ymDurationBetween" [2] (fn2 ymDurationBetweenAny);
   mkBuiltin "dtDurationBetween" [2] (fn2 dtDurationBetweenAny);
   mkBuiltin "withoutOffset" [1] (fn1 stripToNaive);
   mkBuiltin "withoutTimezone" [1] (fn1 stripToNaive);
   mkBuiltin "withoutOffsetOrTimezone" [1] (fn1 stripToNaive);
   mkBuiltin "financialYear" [2] (fn2 financialYearFn);
   mkBuiltin "financialYearQuarter" [2] (fn2 financialYearQuarterFn)]%nat.

End Temporal.
