(* ===== verification/TemporalLaws.v ===== *)
(** * The calendar arithmetic of dates and datetimes

    Theorems about [Temporal] for values in a location of one offset (UTC or a
    numeric offset): months clamp to the last day, components make the date they
    name, navigation ends at the nearest day it looks for, counts agree with a
    count over day numbers, durations added to an instant can be taken away. *)

From Stdlib Require Import SpecFloat Qabs Qpower Lqa.
From S2P Require Import Prelude Decimal GoText GoTime Values Lists Numbers NumberLaws TenDecimal GoTimeText NumberText Durations Temporal.
#[global] Open Scope Z_scope.

(** ** Months *)

Definition next_month (y m : Z) : Z * Z := if m =? 12 then (y + 1, 1) else (y, m + 1).

Lemma month_cases m : 1 <= m <= 12 ->
  m = 1 \/ m = 2 \/ m = 3 \/ m = 4 \/ m = 5 \/ m = 6 \/ m = 7 \/ m = 8 \/ m = 9 \/ m = 10 \/ m = 11 \/ m = 12.
Proof. lia. Qed.

(** A month ends where the next begins. *)
Lemma month_length y m :
  1 <= m <= 12 ->
  let '(y', m') := next_month y m in days_from_civil y' m' 1 = days_from_civil y m 1 + days_in_month y m.
Proof.
  intros Hm. pose proof (is_leap_year_start (y - 1)) as Hl. replace (y - 1 + 1) with y in Hl by lia.
  unfold next_month, days_in_month.
  destruct (month_cases m Hm) as [->|[->|[->|[->|[->|[->|[->|[->|[->|[->|[->| ->]]]]]]]]]]]; simpl;
    rewrite !days_from_civil_eq; unfold march_year, doy_of; simpl;
    replace (y + 1 - 1) with y by lia; try (destruct (is_leap y)); Z.div_mod_to_equations; lia.
Qed.

Lemma days_in_month_bounds y m : 28 <= days_in_month y m <= 31.
Proof. unfold days_in_month. repeat dmatch; lia. Qed.

(** [goDate] rolls a thirteenth month into the next year. *)
Lemma goDate_month y m d h mi s ns l :
  1 <= m <= 12 -> goDate y (m + 1) d h mi s ns l = let '(y', m') := next_month y m in goDate y' m' d h mi s ns l.
Proof.
  intros Hm. unfold next_month. destruct (Z.eqb_spec m 12) as [->|H]; [|done]. unfold goDate.
  change ((12 + 1 - 1) / 12) with 1. change ((1 - 1) / 12) with 0. change ((12 + 1 - 1) mod 12) with 0.
  change ((1 - 1) mod 12) with 0. by rewrite Z.add_0_r.
Qed.

(** The year of a day number is determined by its month and day. *)
Lemma days_from_civil_year y' y m d : days_from_civil y' m d = days_from_civil y m d -> y' = y.
Proof.
  rewrite !days_from_civil_eq. unfold march_year. intros Ed.
  destruct (Z.lt_trichotomy y' y) as [Hlt|[?|Hlt]]; [|done|].
  - pose proof (year_start_lt (if m <=? 2 then y' - 1 else y') (if m <=? 2 then y - 1 else y)). destruct (m <=? 2); lia.
  - pose proof (year_start_lt (if m <=? 2 then y - 1 else y) (if m <=? 2 then y' - 1 else y')). destruct (m <=? 2); lia.
Qed.

#[global] Instance valid_civil_dec y m d : Decision (valid_civil y m d).
Proof. unfold valid_civil. apply _. Defined.

Section Fixed.
Variable l : Location.
Hypothesis Hl : fixed_loc l.

(** The last second before midnight of day [n] is in the range of instants. *)
Definition in_range (n : Z) : Prop := min_unix + 86400 <= n * 86400 - loc_base l.

Lemma lastDayOf_days y m :
  1 <= m <= 12 -> in_range (days_from_civil y m 1 + 27) -> lastDayOf y m l = days_in_month y m.
Proof.
  intros Hm Hr. unfold lastDayOf, in_range in *. rewrite goDate_month by done. pose proof (month_length y m Hm) as Hn.
  pose proof (days_in_month_bounds y m) as Hb.
  destruct (next_month y m) as [y' m'] eqn:En.
  assert (Hm' : 1 <= m' <= 12) by (unfold next_month in En; destruct (Z.eqb_spec m 12); injection En; lia).
  assert (Hdays : days_from_civil y' m' 0 = days_from_civil y m (days_in_month y m)).
  { replace 0 with (1 + -1) by lia. rewrite days_from_civil_day, Hn.
    replace (days_in_month y m) with (1 + (days_in_month y m - 1)) at 2 by lia. rewrite days_from_civil_day. lia. }
  assert (Hge : days_from_civil y m 1 + 27 <= days_from_civil y' m' 0).
  { rewrite Hdays. replace (days_in_month y m) with (1 + (days_in_month y m - 1)) by lia. rewrite days_from_civil_day. lia. }
  destruct (goDate_days_fixed y' m' 0 0 0 0 0 l) as [Hd _]; [done|done|lia|lia|lia|lia|unfold min_unix in *; lia|].
  unfold Day, t_date. rewrite Hd, Hdays, civil_from_days_from_civil; [done|]. split; [done|lia].
Qed.

(** ** The parts of an instant *)

Definition at_loc (t : Time) : Prop := wf_time t /\ t_loc t = l.

Lemma goDate_parts y m d h mi s ns :
  valid_civil y m d -> 0 <= h < 24 -> 0 <= mi < 60 -> 0 <= s < 60 -> 0 <= ns < 10 ^ 9 ->
  in_range (days_from_civil y m d) ->
  let t := goDate y m d h mi s ns l in
  t_date t = (y, m, d) /\ Hour t = h /\ Minute t = mi /\ Second t = s /\ t_nsec t = ns /\ at_loc t.
Proof.
  intros Hv Hh Hmi Hs Hns Hr t. unfold in_range in Hr.
  destruct (goDate_days_fixed y m d h mi s ns l) as [Hd Hsec]; [done|apply Hv|done|done|done|done|unfold min_unix in *; lia|].
  fold t in Hd, Hsec. assert (Ens : t_nsec t = ns) by (unfold t, goDate; simpl; apply Z.mod_small; lia).
  split_and!; [unfold t_date; rewrite Hd; by apply civil_from_days_from_civil| | | |done|].
  - unfold Hour. rewrite Hsec. Z.div_mod_to_equations. lia.
  - unfold Minute. rewrite Hsec. Z.div_mod_to_equations. lia.
  - unfold Second. rewrite Hsec. Z.div_mod_to_equations. lia.
  - split; [|done]. unfold wf_time. rewrite Ens. lia.
Qed.

Lemma clock_bounds t : 0 <= Hour t < 24 /\ 0 <= Minute t < 60 /\ 0 <= Second t < 60.
Proof.
  unfold Hour, Minute, Second, t_secs_of_day. pose proof (Z.mod_pos_bound (t_abs t) 86400 ltac:(lia)).
  split_and!; Z.div_mod_to_equations; lia.
Qed.

(** Two instants of the location with the same civil date and clock are equal. *)
Lemma parts_unique t u :
  at_loc t -> at_loc u -> t_date t = t_date u -> Hour t = Hour u -> Minute t = Minute u -> Second t = Second u ->
  t_nsec t = t_nsec u -> t = u.
Proof.
  intros [Ht Lt] [Hu Lu] Hd Hh Hm Hs Hn. pose proof (t_abs_split t) as At. pose proof (t_abs_split u) as Au.
  assert (Hdays : t_days t = t_days u).
  { destruct (t_date u) as [[y m] d] eqn:E. apply t_date_days in Hd as [_ H1], E as [_ H2]. lia. }
  rewrite t_abs_fixed in At by (by rewrite Lt). rewrite t_abs_fixed in Au by (by rewrite Lu).
  rewrite Lt in At. rewrite Lu in Au.
  destruct t as [tu tn tl], u as [uu un ul]. simpl in *. subst. f_equal. lia.
Qed.

(** The roll-over check of the component constructors accepts the days the
    month has. *)
Lemma roll_over y m d h mi s :
  1 <= m <= 12 -> 1 <= d <= 31 -> 0 <= h < 24 -> 0 <= mi < 60 -> 0 <= s < 60 ->
  in_range (days_from_civil y m d) ->
  let t := goDate y m d h mi s 0 l in
  negb (Month t =? m) || negb (Day t =? d) = negb (bool_decide (valid_civil y m d)).
Proof.
  intros Hm Hd Hh Hmi Hs Hr t. unfold in_range in Hr.
  destruct (goDate_days_fixed y m d h mi s 0 l) as [Hdays _]; [done|done|lia|lia|lia|lia|unfold min_unix in *; lia|].
  fold t in Hdays. clearbody t. unfold Month, Day, t_date. rewrite Hdays.
  destruct (civil_from_days (days_from_civil y m d)) as [[y' m'] d'] eqn:Ec. cbn [fst snd].
  case_bool_decide as Hv.
  - rewrite civil_from_days_from_civil in Ec by done. injection Ec as <- <- <-. by rewrite !Z.eqb_refl.
  - destruct (Z.eqb_spec m' m) as [->|?]; [|done]. destruct (Z.eqb_spec d' d) as [->|?]; [|done]. exfalso. apply Hv.
    destruct (days_from_civil_from_days _ _ _ _ Ec) as [Hv' Ed]. by rewrite (days_from_civil_year y' y m d Ed) in Hv'.
Qed.

(** ** Stepping by days *)

(** [t] moved by [k] whole days. *)
Definition shift (t : Time) (k : Z) : Time := mkTime (t_unix t + k * 86400) (t_nsec t) (t_loc t).

Lemma shift_at_loc t k : at_loc t -> at_loc (shift t k).
Proof. intros [Hw Hloc]. split; [exact Hw|exact Hloc]. Qed.

Lemma shift_shift t j k : shift (shift t j) k = shift t (j + k).
Proof. unfold shift. simpl. f_equal. lia. Qed.

Lemma AddDate_shift t k : at_loc t -> min_unix <= t_unix t + k * 86400 -> AddDate t 0 0 k = shift t k.
Proof. intros [Hw Hloc] Hr. apply AddDate_days_fixed; [done|by rewrite Hloc|done]. Qed.

Lemma shift_days t k : at_loc t -> t_days (shift t k) = t_days t + k.
Proof. intros [_ Hloc]. apply t_days_shift. by rewrite Hloc. Qed.

Lemma shift_weekday t k : at_loc t -> Weekday (shift t k) = weekday_of_days (t_days t + k).
Proof. intros H. unfold Weekday. by rewrite shift_days. Qed.

(** Among seven days in a row each weekday is one. *)
Lemma weekday_within n w : 0 <= w < 7 -> exists k, 1 <= k <= 7 /\ weekday_of_days (n + k) = w.
Proof.
  intros Hw. exists ((w - (n + 4) - 1) mod 7 + 1). unfold weekday_of_days. split; [Z.div_mod_to_equations; lia|].
  Z.div_mod_to_equations. lia.
Qed.

Lemma weekday_within_back n w : 0 <= w < 7 -> exists k, 1 <= k <= 7 /\ weekday_of_days (n - k) = w.
Proof.
  intros Hw. destruct (weekday_within (n - 8) w Hw) as (k & Hk & E). exists (8 - k). split; [lia|].
  rewrite <- E. f_equal. lia.
Qed.

(** The search of a day steps to the nearest one that passes, when one is within
    reach of the fuel. *)
Lemma step_until_nearest fuel step (test : Time -> bool) t n :
  at_loc t -> (forall k, 0 <= k <= Z.of_nat fuel -> min_unix <= t_unix t + step * k * 86400) ->
  1 <= n <= Z.of_nat fuel -> test (shift t (step * n)) = true ->
  exists k, 1 <= k <= n /\ step_until fuel step test t = Some (shift t (step * k)) /\
    test (shift t (step * k)) = true /\ forall j, 1 <= j < k -> test (shift t (step * j)) = false.
Proof.
  revert t n. induction fuel as [|fuel IH]; intros t n Ht Hr Hn Hp; [lia|]. cbn [step_until]. cbv zeta.
  rewrite AddDate_shift; [|done|specialize (Hr 1 ltac:(lia)); lia].
  assert (E1 : shift t step = shift t (step * 1)) by (f_equal; lia).
  destruct (test (shift t step)) eqn:Et.
  - exists 1. split; [lia|]. rewrite <- E1. split_and!; [done|done|lia].
  - assert (n <> 1) by (intros ->; rewrite <- E1 in Hp; congruence).
    assert (Es : forall k, shift (shift t step) (step * k) = shift t (step * (k + 1))) by (intros; rewrite shift_shift; f_equal; lia).
    destruct (IH (shift t step) (n - 1)) as (k & Hk & Ek & Hok & Hmin).
    + by apply shift_at_loc.
    + intros k Hk. specialize (Hr (k + 1) ltac:(lia)). unfold shift. cbn [t_unix]. lia.
    + lia.
    + rewrite Es. by replace (n - 1 + 1) with n by lia.
    + exists (k + 1). split; [lia|]. rewrite Es in Ek, Hok. split_and!; [done|done|].
      intros j Hj. destruct (Z.eq_dec j 1) as [->|?]; [by rewrite <- E1|].
      specialize (Hmin (j - 1) ltac:(lia)). rewrite Es in Hmin. by replace (j - 1 + 1) with j in Hmin by lia.
Qed.

(** [t] is a week and more above the least instant. *)
Definition week_above (t : Time) : Prop := min_unix + 604800 <= t_unix t.

Lemma week_steps t s : week_above t -> s = 1 \/ s = -1 ->
  forall k, 0 <= k <= 7 -> min_unix <= t_unix t + s * k * 86400.
Proof. unfold week_above. intros H [->| ->] k Hk; lia. Qed.

(** Stepping to a weekday ends within a week, on the nearest day that has it. *)
Lemma step_to_weekday t (forward : bool) (ok : Z -> bool) w :
  at_loc t -> week_above t -> 0 <= w < 7 -> ok w = true ->
  let s := if forward then 1 else -1 in
  exists k, 1 <= k <= 7 /\ step_until 7 s (fun t => ok (Weekday t)) t = Some (shift t (s * k)) /\
    ok (weekday_of_days (t_days t + s * k)) = true /\
    forall j, 1 <= j < k -> ok (weekday_of_days (t_days t + s * j)) = false.
Proof.
  intros Ht Hr Hw Hok s. assert (Hs : s = 1 \/ s = -1) by (destruct forward; tauto).
  assert (exists n, 1 <= n <= 7 /\ weekday_of_days (t_days t + s * n) = w) as (n & Hn & En).
  { destruct Hs as [->| ->].
    - destruct (weekday_within (t_days t) w Hw) as (n & ? & <-). exists n. split; [done|f_equal; lia].
    - destruct (weekday_within_back (t_days t) w Hw) as (n & ? & <-). exists n. split; [done|f_equal; lia]. }
  destruct (step_until_nearest 7 s (fun t => ok (Weekday t)) t n) as (k & Hk & E & Hp & Hmin).
  - done.
  - intros k Hk. by apply week_steps.
  - lia.
  - cbv beta. rewrite shift_weekday by done. by rewrite En.
  - cbv beta in Hp. rewrite shift_weekday in Hp by done. exists k. split_and!; [lia|lia|exact E|exact Hp|].
    intros j Hj. specialize (Hmin j Hj). cbv beta in Hmin. by rewrite shift_weekday in Hmin.
Qed.

(** ** Midnight *)

Lemma midnight_eq t : at_loc t -> in_range (t_days t) -> midnight t = mkTime (t_days t * 86400 - loc_base l) 0 l.
Proof.
  intros Ht Hr. unfold midnight. destruct Ht as [Hw Hloc]. rewrite Hloc. unfold Year, Month, Day.
  destruct (t_date t) as [[y m] d] eqn:Ed. apply t_date_days in Ed as [Hv Hd]. cbn [fst snd].
  rewrite <- Hd in Hr. destruct (goDate_parts y m d 0 0 0 0) as (Et & Eh & Em & Es & En & Ha); [done|lia|lia|lia|lia|done|].
  cbv zeta in *. set (u := goDate y m d 0 0 0 0 l) in *. clearbody u.
  pose proof (t_abs_split u) as Hu. rewrite Eh, Em, Es in Hu. apply t_date_days in Et as [_ Et]. rewrite <- Et, Hd in Hu.
  destruct Ha as [_ Hl']. rewrite t_abs_fixed in Hu by (by rewrite Hl'). rewrite Hl' in Hu.
  destruct u as [uu un ul]. simpl in *. subst. f_equal. lia.
Qed.

(** ** Adding months *)

Section Decimals.
Context {DO : DecimalOps} {DL : DecimalLaws DO}.

(** Truncated division, then the correction of a month below one, is floor
    division of the month count. *)
Lemma month_shift y m k :
  let base := m - 1 + k in
  (if Z.rem base 12 + 1 <=? 0 then (y + Z.quot base 12 - 1, Z.rem base 12 + 1 + 12)
   else (y + Z.quot base 12, Z.rem base 12 + 1)) = ((12 * y + base) / 12, (12 * y + base) mod 12 + 1).
Proof.
  intros base. pose proof (Z.quot_rem' base 12) as Hq. pose proof (Z.rem_bound_abs base 12 ltac:(lia)) as Hb.
  assert (Hc : forall q r, 0 <= r < 12 -> 12 * y + base = 12 * q + r -> (12 * y + base) / 12 = q /\ (12 * y + base) mod 12 = r).
  { intros q r Hr E. split; [symmetry; by apply (Z.div_unique _ _ _ r); [left|]|symmetry; by apply (Z.mod_unique _ _ q); [left|]]. }
  destruct (Z.leb_spec (Z.rem base 12 + 1) 0) as [H|H].
  - destruct (Hc (y + Z.quot base 12 - 1) (Z.rem base 12 + 12)) as [-> ->]; [lia|lia|]. f_equal; lia.
  - destruct (Hc (y + Z.quot base 12) (Z.rem base 12)) as [-> ->]; [lia|lia|]. f_equal; lia.
Qed.

(** Within the years of a [time.Time] the month arithmetic does not wrap. *)
Lemma month_shift_int64 y m k :
  1 <= m <= 12 -> - max_year <= y <= max_year -> - max_year <= (12 * y + (m - 1 + k)) / 12 <= max_year ->
  let base := m - 1 + k in
  int64 base = base /\ int64 (y + Z.quot base 12) = y + Z.quot base 12 /\
  int64 (y + Z.quot base 12 - 1) = y + Z.quot base 12 - 1.
Proof.
  intros Hm Hy Hn base. fold base in Hn. unfold max_year in *.
  pose proof (Z.quot_rem' base 12) as Hq. pose proof (Z.rem_bound_abs base 12 ltac:(lia)) as Hr.
  assert (Hb : - 8000000000000 <= base <= 8000000000000) by (Z.div_mod_to_equations; lia).
  split_and!; apply int64_id; lia.
Qed.

(** C29. In a location of one offset (UTC, a naive value, a numeric offset), and
    within the years a [time.Time] can hold, adding months moves the month count,
    keeps the clock, and takes the last day of a month that is too short for the
    day.  (Where the offset changes, the clock of the result can fall into a gap.) *)
Theorem add_months_clamps (t : Time) (months : Decimal) :
  at_loc t ->
  let k := dIntPart (dTruncate months 0) in
  let n := 12 * Year t + (Month t - 1 + k) in
  - max_year <= Year t <= max_year -> - max_year <= n / 12 <= max_year ->
  in_range (days_from_civil (n / 12) (n mod 12 + 1) 1) ->
  let r := addMonthsClamped t months in
  t_date r = (n / 12, n mod 12 + 1, Z.min (Day t) (days_in_month (n / 12) (n mod 12 + 1))) /\
  Hour r = Hour t /\ Minute r = Minute t /\ Second r = Second t /\ t_nsec r = t_nsec t /\ at_loc r.
Proof.
  intros Ht k n HY Hmax Hr r. destruct Ht as [Hw Hloc]. unfold r, addMonthsClamped.
  destruct (t_date t) as [[y m] d] eqn:Ed. pose proof (t_date_days t y m d Ed) as [[Hm Hd] _].
  assert (En : n = 12 * y + (m - 1 + k)) by (unfold n, Year, Month; by rewrite Ed).
  assert (EDay : Day t = d) by (unfold Day; by rewrite Ed). fold k. cbv zeta.
  assert (EY : Year t = y) by (unfold Year; by rewrite Ed). rewrite EY in HY.
  destruct (month_shift_int64 y m k Hm HY) as (E1 & E2 & E3); [by rewrite <- En|]. rewrite E1, E2, E3. clear E1 E2 E3.
  pose proof (month_shift y m k) as Hs. cbv zeta in Hs. rewrite <- En in Hs.
  destruct (if Z.rem (m - 1 + k) 12 + 1 <=? 0 then _ else _) as [ny nm] eqn:E in |- *.
  assert (Enm : (ny, nm) = (n / 12, n mod 12 + 1)).
  { rewrite <- Hs, <- E. destruct (Z.rem (m - 1 + k) 12 + 1 <=? 0); f_equal; lia. }
  injection Enm as -> ->. pose proof (Z.mod_pos_bound n 12 ltac:(lia)) as Hn. rewrite Hloc.
  pose proof (days_in_month_bounds (n / 12) (n mod 12 + 1)) as Hb.
  rewrite lastDayOf_days; [|lia|unfold in_range in *; lia].
  replace (if days_in_month (n / 12) (n mod 12 + 1) <? d then days_in_month (n / 12) (n mod 12 + 1) else d)
    with (Z.min d (days_in_month (n / 12) (n mod 12 + 1))) by (destruct (Z.ltb_spec (days_in_month (n / 12) (n mod 12 + 1)) d); lia).
  rewrite EDay. destruct (clock_bounds t) as (B1 & B2 & B3). unfold wf_time in Hw.
  apply goDate_parts; [split; lia|exact B1|exact B2|exact B3|exact Hw|].
  unfold in_range in *. replace (Z.min d _) with (1 + (Z.min d (days_in_month (n / 12) (n mod 12 + 1)) - 1)) by lia.
  rewrite days_from_civil_day. lia.
Qed.

(** ** Navigation and counts *)

Definition weekday_day (n : Z) : bool := negb ((weekday_of_days n =? 6) || (weekday_of_days n =? 0)).

(** [nextWeekday], [prevWeekday], [nextDayOfWeek] and [prevDayOfWeek] end, within
    seven days, on the nearest later or earlier day they look for. *)
Theorem weekday_navigation (t : Time) (n dtk forward : bool) (name : string) (wd : Z) :
  at_loc t -> week_above t -> weekdayFromName name = Some wd ->
  let v := if dtk then BlDateTime t n else BlDate t n in
  let s := if forward then 1 else -1 in
  (exists k, 1 <= k <= 7 /\
    dateUnaryLoop (if forward then nextWeekdayTime else prevWeekdayTime) v = Ok (rebuildTemporal (shift t (s * k)) n dtk) /\
    weekday_day (t_days t + s * k) = true /\
    forall j, 1 <= j < k -> weekday_day (t_days t + s * j) = false) /\
  (exists k, 1 <= k <= 7 /\
    dowNav forward v (BlString name) = Ok (rebuildTemporal (shift t (s * k)) n dtk) /\
    weekday_of_days (t_days t + s * k) = wd /\
    forall j, 1 <= j < k -> weekday_of_days (t_days t + s * j) <> wd).
Proof.
  intros Ht Hr Hn v s. assert (Hv : temporalParts v = Some (t, n, dtk)) by (by destruct dtk).
  assert (Hwd : 0 <= wd < 7).
  { apply assoc_In in Hn. cbn in Hn. repeat destruct Hn as [[= _ <-]|Hn]; [lia..|done]. }
  split.
  - destruct (step_to_weekday t forward (fun w => negb ((w =? 6) || (w =? 0))) 1) as (k & Hk & E & Hp & Hmin); [done|done|lia|done|].
    cbv zeta in E, Hp, Hmin. fold s in E, Hp, Hmin. exists k. split_and!; [lia|lia| |exact Hp|exact Hmin].
    assert (E' : (if forward then nextWeekdayTime else prevWeekdayTime) t = Some (shift t (s * k))).
    { rewrite <- E. unfold s, nextWeekdayTime, prevWeekdayTime, isWeekendTime. destruct forward; exact eq_refl. }
    unfold dateUnaryLoop. rewrite Hv, E'. exact eq_refl.
  - destruct (step_to_weekday t forward (fun w => w =? wd) wd) as (k & Hk & E & Hp & Hmin); [done|done|lia|apply Z.eqb_refl|].
    cbv zeta in E, Hp, Hmin. fold s in E, Hp, Hmin. exists k. split_and!; [lia|lia| |by apply Z.eqb_eq|].
    + unfold dowNav. rewrite Hv, Hn. fold s. rewrite E. exact eq_refl.
    + intros j Hj. apply Z.eqb_neq. by apply Hmin.
Qed.

(** The loop over days counts the day numbers it passes that have the property
    the test looks for. *)
Lemma count_days_filter (test : Time -> bool) (ok : Z -> bool) fuel a b c :
  at_loc a -> at_loc b -> t_nsec a = t_nsec b -> (exists m, t_unix b - t_unix a = m * 86400) -> min_unix <= t_unix a ->
  t_unix b - t_unix a < Z.of_nat fuel * 86400 -> (forall k, 0 <= k -> test (shift a k) = ok (t_days a + k)) ->
  count_days test fuel a b c =
    Some (c + Z.of_nat (length (filter (fun n => ok n = true) (seqZ (t_days a) (t_days b - t_days a + 1))))).
Proof.
  revert a c. induction fuel as [|fuel IH]; intros a c Ha Hb Hns [m Hm] Hr Hf Ht; cbn [count_days].
  all: assert (Hab : TimeAfter a b = (t_unix b <? t_unix a))
    by (unfold TimeAfter, TimeCompare; rewrite Hns; repeat dmatch; lia); rewrite Hab.
  all: assert (Hd : t_days b = t_days a + m)
    by (unfold t_days; rewrite !t_abs_fixed by (by rewrite ?(proj2 Ha), ?(proj2 Hb)); rewrite (proj2 Ha), (proj2 Hb);
        replace (t_unix b + loc_base l) with (t_unix a + loc_base l + m * 86400) by lia; by rewrite Z.div_add).
  all: destruct (Z.ltb_spec (t_unix b) (t_unix a)) as [Hlt|Hge].
  1, 3: rewrite (seqZ_nil _ (t_days b - t_days a + 1)) by lia; cbn; f_equal; lia.
  1: lia.
  rewrite AddDate_shift by (done || lia). rewrite IH.
  - rewrite shift_days by done. rewrite (seqZ_cons (t_days a)) by lia.
    replace (Z.pred (t_days b - t_days a + 1)) with (t_days b - (t_days a + 1) + 1) by lia. unfold Z.succ.
    rewrite filter_cons. pose proof (Ht 0 ltac:(lia)) as H0. rewrite Z.add_0_r in H0.
    assert (Hs0 : shift a 0 = a) by (destruct a; unfold shift; cbn; f_equal; lia). rewrite Hs0 in H0. rewrite H0.
    destruct (ok (t_days a)); rewrite ?decide_True, ?decide_False by done; cbn [length]; f_equal; lia.
  - by apply shift_at_loc.
  - done.
  - done.
  - exists (m - 1). unfold shift. cbn [t_unix]. lia.
  - unfold shift. cbn [t_unix]. lia.
  - unfold shift. cbn [t_unix]. lia.
  - intros k Hk. rewrite shift_shift, shift_days, Ht by (done || lia). f_equal. lia.
Qed.

(** The midnight of a day number. *)
Definition mid (n : Z) : Time := mkTime (n * 86400 - loc_base l) 0 l.

Lemma mid_at_loc n : at_loc (mid n).
Proof. split; [unfold wf_time; simpl; lia|done]. Qed.
Lemma mid_days n : t_days (mid n) = n.
Proof.
  unfold t_days. rewrite t_abs_fixed by done. unfold mid. cbn [t_unix t_loc].
  replace (n * 86400 - loc_base l + loc_base l) with (n * 86400) by lia. by apply Z.div_mul.
Qed.
Lemma mid_after m n : TimeAfter (mid m) (mid n) = (n <? m).
Proof. unfold TimeAfter, TimeCompare, mid. cbn [t_unix t_nsec]. repeat dmatch; lia. Qed.
Lemma mid_shift n k : shift (mid n) k = mid (n + k).
Proof. unfold shift, mid. cbn [t_unix t_nsec t_loc]. f_equal. lia. Qed.
Lemma midnight_mid n : in_range n -> midnight (mid n) = mid n.
Proof. intros Hr. rewrite midnight_eq; rewrite ?mid_days; [done|apply mid_at_loc|done]. Qed.

(** The counting loops over a span of days, whichever end comes first. *)
Lemma count_span (test : Time -> bool) (ok : Z -> bool) a b :
  in_range a -> in_range b -> (forall n, Z.min a b <= n -> test (mid n) = ok n) ->
  let lo := Z.min a b in
  let hi := Z.max a b in
  (let '(x, y) := if TimeAfter (mid a) (mid b) then (mid b, mid a) else (mid a, mid b) in count_days test (days_fuel x y) x y 0) =
    Some (Z.of_nat (length (filter (fun n => ok n = true) (seqZ lo (hi - lo + 1))))).
Proof.
  intros Ra Rb Hok lo hi. rewrite mid_after.
  assert (Hsw : (if b <? a then (mid b, mid a) else (mid a, mid b)) = (mid lo, mid hi)).
  { unfold lo, hi. destruct (Z.ltb_spec b a); f_equal; f_equal; lia. }
  rewrite Hsw. rewrite (count_days_filter test ok (days_fuel (mid lo) (mid hi))).
  - by rewrite !mid_days.
  - apply mid_at_loc.
  - apply mid_at_loc.
  - done.
  - exists (hi - lo). unfold mid. cbn [t_unix]. lia.
  - unfold mid, in_range, lo in *. cbn [t_unix]. destruct (Z.min_spec a b) as [[_ ->]|[_ ->]]; lia.
  - unfold days_fuel, mid. cbn [t_unix]. unfold lo, hi. Z.div_mod_to_equations. lia.
  - intros k Hk. rewrite mid_shift, mid_days. apply Hok. unfold lo. lia.
Qed.

(** [weekdaysBetween] counts the days from Monday to Friday of the closed span
    of days between its arguments, in whichever order they are given. *)
Theorem weekdays_between_counts (a b : Time) (na nb : bool) :
  at_loc a -> at_loc b -> in_range (t_days a) -> in_range (t_days b) ->
  let lo := Z.min (t_days a) (t_days b) in
  let hi := Z.max (t_days a) (t_days b) in
  weekdaysBetweenFn (BlDate a na) (BlDate b nb) =
    Ok (numFromInt (Z.of_nat (length (filter (fun n => weekday_day n = true) (seqZ lo (hi - lo + 1)))))).
Proof.
  intros Ha Hb Ra Rb lo hi. unfold weekdaysBetweenFn, temporalParts. cbv zeta beta iota. rewrite !midnight_eq by done.
  fold (mid (t_days a)) (mid (t_days b)).
  pose proof (count_span (fun a => negb (isWeekendTime a)) weekday_day (t_days a) (t_days b) Ra Rb) as Hc. cbv zeta in Hc.
  destruct (if TimeAfter _ _ then _ else _) as [x y]. unfold count_weekdays. rewrite Hc; [done|].
  intros n _. unfold weekday_day, isWeekendTime, Weekday. by rewrite mid_days.
Qed.

End Decimals.
End Fixed.

(** ** Dates from components *)

Lemma component_loc_naive {TZ : TimeZones} op : component_loc op None "" = Ok (UTC, true).
Proof. reflexivity. Qed.
Lemma no_zone_clash : offset_zone_clash None "" = false.
Proof. reflexivity. Qed.
Lemma fixed_UTC : fixed_loc UTC.
Proof. reflexivity. Qed.

(** [date(y, m, d)] makes the date it names, and refuses what is not a date. *)
Theorem date_components {DO : DecimalOps} {TZ : TimeZones} (y m d : Z) :
  in_range UTC (days_from_civil y (Z.max 1 (Z.min m 12)) d) ->
  if bool_decide (valid_civil y m d)
  then exists t, dateFromComponents y m d None "" = Ok (BlDate t true) /\ t_date t = (y, m, d)
  else exists e, dateFromComponents y m d None "" = Err e.
Proof.
  intros Hr. unfold dateFromComponents. rewrite no_zone_clash, component_loc_naive. cbn [result_bind fst snd].
  destruct ((m <? 1) || (12 <? m) || (d <? 1) || (31 <? d)) eqn:E.
  - rewrite bool_decide_eq_false_2; [by eexists|]. intros [? ?]. pose proof (days_in_month_bounds y m). lia.
  - assert (Hm : 1 <= m <= 12) by lia. assert (Hd : 1 <= d <= 31) by lia. clear E. rewrite Z.min_l, Z.max_r in Hr by lia.
    pose proof (roll_over UTC fixed_UTC y m d 0 0 0 Hm Hd) as Hro. cbv zeta in Hro. rewrite Hro by (lia || exact Hr). clear Hro.
    case_bool_decide as Hv; cbn [negb]; [|by eexists].
    eexists. split; [reflexivity|].
    apply (goDate_parts UTC fixed_UTC); (lia || assumption).
Qed.

(** ** Durations added to instants *)

Section Instants.
Context {DO : DecimalOps} {DL : DecimalLaws DO}.

Lemma TimeAdd_nanos t d :
  t_unix (TimeAdd t d) * 10 ^ 9 + t_nsec (TimeAdd t d) = t_unix t * 10 ^ 9 + t_nsec t + d /\ wf_time (TimeAdd t d).
Proof. unfold TimeAdd, wf_time. simpl. Z.div_mod_to_equations. lia. Qed.

Lemma TimeAdd_back t d : wf_time t -> TimeAdd (TimeAdd t d) (- d) = t.
Proof.
  intros Hw. pose proof (TimeAdd_nanos t d) as [E1 H1]. pose proof (TimeAdd_nanos (TimeAdd t d) (- d)) as [E2 H2].
  destruct t as [u n l]. unfold wf_time in *. assert (El : t_loc (TimeAdd (TimeAdd (mkTime u n l) d) (- d)) = l) by done.
  destruct (TimeAdd (TimeAdd (mkTime u n l) d) (- d)) as [u' n' l']. simpl in *. subst l'. f_equal; lia.
Qed.

(** A duration of whole nanoseconds, in the range of [time.Duration]. *)
Definition nanos_of (dur : Decimal) (ns : Z) : Prop :=
  (dval dur * inject_Z (10 ^ 9) == inject_Z ns)%Q /\ - 2 ^ 63 < ns < 2 ^ 63.

Lemma dval_truncate_Z x z : (dval x == inject_Z z)%Q -> (dval (dTruncate x 0) == inject_Z z)%Q.
Proof.
  intros E. rewrite dval_Truncate by lia. unfold Qscaled. change (pow10 0) with 1%Q.
  assert (E1 : (dval x * 1 == inject_Z z)%Q) by (rewrite E; ring). rewrite E1, Qtrunc_Z. field.
Qed.

Lemma nanos_IntPart dur ns : nanos_of dur ns -> dIntPart (dTruncate (dMul dur (dNew 1 9)) 0) = ns.
Proof.
  intros [E Hr]. apply dIntPart_int; [|lia]. apply dval_truncate_Z. rewrite dval_Mul, dval_New, <- E.
  change (pow10 9) with (inject_Z (10 ^ 9)). ring.
Qed.

Lemma nanos_neg dur ns : nanos_of dur ns -> nanos_of (dNeg dur) (- ns).
Proof. intros [E Hr]. split; [|lia]. rewrite dval_Neg, inject_Z_opp, <- E. ring. Qed.

(** A datetime plus a duration, minus the duration, is the datetime; the
    difference of the two is the duration. *)
Theorem datetime_plus_duration (t : Time) (n : bool) (dur : Decimal) (ns : Z) :
  wf_time t -> nanos_of dur ns ->
  exists r, addDateTimeDT t n dur = BlDateTime r n /\ t_loc r = t_loc t /\
    t_unix r * 10 ^ 9 + t_nsec r = t_unix t * 10 ^ 9 + t_nsec t + ns /\
    subDateTimeDT r n dur = BlDateTime t n /\
    exists d, subDateTimes r n t n = BlDaysTimeDuration d /\ (dval d == dval dur)%Q.
Proof.
  intros Hw Hns. exists (TimeAdd t ns). pose proof (TimeAdd_nanos t ns) as [E Hw']. split_and!.
  - unfold addDateTimeDT. by rewrite (nanos_IntPart dur ns).
  - done.
  - done.
  - unfold subDateTimeDT, addDateTimeDT. rewrite (nanos_IntPart _ _ (nanos_neg _ _ Hns)). by rewrite TimeAdd_back.
  - unfold subDateTimes. rewrite eqb_reflx. eexists. split; [reflexivity|]. unfold decimalSecondsBetween.
    rewrite dval_Add, dval_NewFromInt, dval_New. destruct Hns as [Hns _].
    change (pow10 (-9)) with (1 # 1000000000)%Q.
    assert (Eq : (inject_Z (t_unix (TimeAdd t ns) - t_unix t) * inject_Z (10 ^ 9) + inject_Z (t_nsec (TimeAdd t ns) - t_nsec t) ==
                  dval dur * inject_Z (10 ^ 9))%Q).
    { rewrite Hns, <- inject_Z_mult, <- inject_Z_plus. apply inject_Z_injective. lia. }
    change (inject_Z (10 ^ 9)) with (1000000000 # 1)%Q in Eq. lra.
Qed.

(** The clock after a whole number of seconds, modulo a day. *)
Theorem time_wraps_at_midnight (t : Time) (n : bool) (dur : Decimal) (secs : Z) :
  wf_time t -> t_loc t = UTC -> t_date t = (0, 1, 1) -> (dval dur == inject_Z secs)%Q -> - 2 ^ 63 <= secs < 2 ^ 63 ->
  exists r, addTimeDur t n dur = BlTime r n /\ t_date r = (0, 1, 1) /\ t_loc r = UTC /\ t_nsec r = t_nsec t /\
    t_secs_of_day r = (t_secs_of_day t + secs) mod 86400.
Proof.
  intros Hw Hl Hd Hs Hr. unfold addTimeDur. rewrite (dIntPart_int dur secs) by done. cbv zeta.
  set (k := Z.rem secs 86400). set (u := TimeAdd t (k * 10 ^ 9)).
  assert (Eu : t_unix u = t_unix t + k /\ t_nsec u = t_nsec t /\ t_loc u = UTC).
  { unfold u, TimeAdd, wf_time in *. cbn [t_unix t_nsec t_loc]. rewrite Z.div_add, Z.mod_add, Z.div_small, Z.mod_small by lia.
    split_and!; [lia|done|done]. }
  destruct Eu as (Eu & En & El). clearbody u. exists (normaliseTimeDate u). split; [done|]. unfold normaliseTimeDate. rewrite El, En.
  pose proof (clock_bounds u) as (B1 & B2 & B3).
  destruct (goDate_parts UTC fixed_UTC 0 1 1 (Hour u) (Minute u) (Second u) (t_nsec t)) as (G1 & G2 & G3 & G4 & G5 & G6);
    [split; [lia|vm_compute; split; discriminate]|exact B1|exact B2|exact B3|exact Hw|vm_compute; discriminate|].
  split_and!; [exact G1|apply G6|exact G5|].
  set (r := goDate 0 1 1 (Hour u) (Minute u) (Second u) (t_nsec t) UTC) in *. clearbody r.
  assert (Hsod : t_secs_of_day r = t_secs_of_day u).
  { unfold t_secs_of_day. rewrite (t_abs_split r), (t_abs_split u), G2, G3, G4.
    rewrite <- !Z.add_assoc, !(Z.add_comm (_ * 86400)), !Z.mod_add by lia. done. }
  rewrite Hsod. unfold t_secs_of_day. rewrite !t_abs_fixed by (rewrite ?El, ?Hl; exact fixed_UTC). rewrite El, Hl, Eu.
  change (loc_base UTC) with 0. rewrite !Z.add_0_r. rewrite Z.add_mod_idemp_l by lia.
  replace (t_unix t + secs) with (t_unix t + k + Z.quot secs 86400 * 86400) by (unfold k; pose proof (Z.quot_rem' secs 86400); lia).
  by rewrite Z.mod_add by lia.
Qed.

End Instants.
