(* ===== verification/TemporalText.v ===== *)
(** * The text of dates, times and datetimes

    What [String] writes for a date, time or datetime of a year from 0 to 9999,
    naive, in UTC or at a numeric offset, its parser reads back. *)

From Stdlib Require Import Strings.Ascii.
From S2P Require Import Prelude Decimal GoText GoTime Values Lists Numbers NumberLaws TenDecimal GoTimeText NumberText Durations Temporal TemporalLaws.
#[global] Open Scope Z_scope.

(** ** Digits *)

Lemma getnum_two fixed z rest : 0 <= z < 100 -> getnum fixed (two z +:+ rest) = Some (z, rest).
Proof.
  intros Hz. unfold two. cbn [digits_fixed]. rewrite !string_app_cons. unfold getnum.
  destruct (digit_char (z / 10 ^ Z.of_nat 1 mod 10)) as [-> ->]; [apply Z.mod_pos_bound; lia|].
  destruct (digit_char (z / 10 ^ Z.of_nat 0 mod 10)) as [-> ->]; [apply Z.mod_pos_bound; lia|]. cbn [negb].
  f_equal. f_equal. change (10 ^ Z.of_nat 1) with 10. change (10 ^ Z.of_nat 0) with 1. Z.div_mod_to_equations. lia.
Qed.

Lemma bounded_two fixed lo hi z rest :
  0 <= z < 100 -> lo <= z <= hi -> bounded lo hi (getnum fixed (two z +:+ rest)) = Some (z, rest).
Proof. intros Hz Hb. rewrite getnum_two by done. unfold bounded. by destruct ((z <? lo) || (hi <? z)) eqn:E; [lia|]. Qed.

Lemma parse_year_text y rest : 0 <= y < 10000 -> parse_year (year_text y +:+ rest) = Some (y, rest).
Proof.
  intros Hy. unfold year_text. destruct (Z.ltb_spec y 0); [lia|]. destruct (Z.ltb_spec y 10000); [|lia].
  pose proof (digits_val_fixed 4 y ltac:(lia)) as Hv. rewrite Z.mod_small in Hv by lia.
  pose proof (all_digits_fixed 4 y) as Ha.
  remember (digits_fixed 4 y) as s eqn:E. cbn [digits_fixed] in E. rewrite E in Ha, Hv |- *. rewrite !string_app_cons.
  unfold parse_year. cbn [all_digits] in Ha. rewrite !andb_true_iff in Ha. destruct Ha as (-> & -> & -> & -> & _).
  cbn [andb]. by rewrite Hv.
Qed.

Lemma lead_skip_digits s rest :
  all_digits s = true -> not_digit_first rest -> lead_digits (s +:+ rest) = s /\ skip_digits (s +:+ rest) = rest.
Proof.
  intros Hs Hr. induction s as [|c s IH].
  - change (EmptyString +:+ rest) with rest. destruct rest as [|c r]; [done|]. cbn in Hr |- *. by rewrite Hr.
  - cbn [all_digits] in Hs. apply andb_true_iff in Hs as [Hc Hs]. rewrite string_app_cons. cbn [lead_digits skip_digits].
    rewrite Hc. destruct (IH Hs) as [-> ->]. done.
Qed.

Lemma trim_digits c s : all_digits s = true -> all_digits (trim_right_char c s) = true.
Proof.
  induction s as [|d s IH]; [done|]. cbn [all_digits trim_right_char]. intros [Hd Hs]%andb_true_iff. specialize (IH Hs).
  destruct (trim_right_char c s); [destruct (Ascii.eqb d c); [done|]|]; cbn [all_digits] in *; by rewrite Hd.
Qed.

(** Trailing zeros of a fraction do not count. *)
Lemma nano_val_trim k s : nano_val k (trim_right_char "0"%char s) = nano_val k s.
Proof.
  revert k. induction s as [|d s IH]; intros k; [done|]. cbn [trim_right_char].
  destruct k as [|k]; [by destruct (trim_right_char _ s); [destruct (Ascii.eqb d _)|]|]. specialize (IH k).
  destruct (trim_right_char "0"%char s) as [|e u].
  - assert (E : nano_val k s = 0) by (rewrite <- IH; by destruct k).
    destruct (Ascii.eqb_spec d "0"%char) as [->|_]; cbn [nano_val]; rewrite E; [reflexivity|by destruct k].
  - cbn [nano_val]. by rewrite IH.
Qed.

Lemma nano_val_fixed k z : 0 <= z -> nano_val k (digits_fixed k z) = z mod 10 ^ Z.of_nat k.
Proof.
  intros Hz. induction k as [|k IH]; cbn [digits_fixed nano_val].
  - change (10 ^ Z.of_nat 0) with 1. by rewrite Z.mod_1_r.
  - rewrite IH, (proj2 (digit_char _ (Z.mod_pos_bound _ 10 ltac:(lia)))), Nat2Z.inj_succ, Z.pow_succ_r by lia.
    pose proof (Z.pow_pos_nonneg 10 (Z.of_nat k) ltac:(lia) ltac:(lia)). rewrite (Z.mul_comm 10), Z.rem_mul_r by lia. ring.
Qed.

(** ** Chunks *)

(** What may follow a fraction. *)
Definition frac_end (rest : string) : Prop :=
  match rest with EmptyString => True | String c _ => is_digit c = false /\ is_char c 46 = false /\ is_char c 44 = false end.

Definition put (c : Chunk) (t : Time) (p : Parsed) : Parsed :=
  let '(mkParsed y mo d h mi sec ns z) := p in
  match c with
  | stdLongYear => mkParsed (Year t) mo d h mi sec ns z
  | stdZeroMonth => mkParsed y (Month t) d h mi sec ns z
  | stdZeroDay => mkParsed y mo (Day t) h mi sec ns z
  | stdHour => mkParsed y mo d (Hour t) mi sec ns z
  | stdZeroMinute => mkParsed y mo d h (Minute t) sec ns z
  | stdZeroSecond => mkParsed y mo d h mi (Second t) ns z
  | stdFracSecond9 => mkParsed y mo d h mi sec (if t_nsec t =? 0 then ns else t_nsec t) z
  | stdISO8601ColonTZ =>
      let off := loc_offset (t_loc t) (t_unix t) in
      mkParsed y mo d h mi sec ns (if off =? 0 then ZUTC else ZOffset off)
  | Lit _ => p
  end.

(** A four-digit year, and an offset of whole minutes within a day. *)
Definition printable (t : Time) : Prop :=
  wf_time t /\ 0 <= Year t <= 9999 /\
  let off := loc_offset (t_loc t) (t_unix t) in Z.abs off < 86400 /\ off mod 60 = 0.

Lemma date_bounds t : 1 <= Month t <= 12 /\ 1 <= Day t <= 31.
Proof.
  unfold Month, Day. destruct (t_date t) as [[y m] d] eqn:E. apply t_date_days in E as [[Hm Hd] _].
  pose proof (days_in_month_bounds y m). cbn [fst snd]. lia.
Qed.

Lemma parse_frac_text ns rest p :
  0 <= ns < 10 ^ 9 -> frac_end rest ->
  parse_chunk stdFracSecond9 (frac_text ns +:+ rest) p =
    let '(mkParsed y mo d h mi sec n0 z) := p in Some (mkParsed y mo d h mi sec (if ns =? 0 then n0 else ns) z, rest).
Proof.
  intros Hns Hr. destruct p as [y mo d h mi sec n0 z]. unfold frac_text. destruct (Z.eqb_spec ns 0) as [->|Hnz].
  - change ("" +:+ rest) with rest. destruct rest as [|c [|c' r]]; [done|done|]. cbn in Hr. destruct Hr as (_ & H1 & H2).
    unfold parse_chunk. by rewrite H1, H2.
  - pose proof (trim_digits "0"%char _ (all_digits_fixed 9 ns)) as Ha.
    pose proof (nano_val_trim 9 (digits_fixed 9 ns)) as Hv. rewrite nano_val_fixed, Z.mod_small in Hv by (change (Z.of_nat 9) with 9; lia).
    destruct (trim_right_char "0"%char (digits_fixed 9 ns)) as [|c u]; [cbn in Hv; lia|].
    assert (Hrd : not_digit_first rest) by (destruct rest; [done|apply Hr]).
    destruct (lead_skip_digits (String c u) rest Ha Hrd) as [E1 E2]. cbn [all_digits] in Ha. apply andb_true_iff in Ha as [Hc _].
    change ("." +:+ String c u) with (String "."%char (String c u)). rewrite !string_app_cons in *.
    unfold parse_chunk. rewrite Hc, E1, E2, Hv. done.
Qed.

Lemma parse_zone_text off rest :
  Z.abs off < 86400 -> off mod 60 = 0 ->
  parse_zone (zone_text off +:+ rest) = Some (if off =? 0 then ZUTC else ZOffset off, rest).
Proof.
  intros Hb Hm. unfold zone_text. destruct (Z.eqb_spec off 0) as [->|Hnz]; [done|]. cbv zeta.
  set (zone := Z.quot off 60).
  assert (Hz : off = 60 * zone) by (unfold zone; pose proof (Z.quot_exact off 60 ltac:(lia)); Z.to_euclidean_division_equations; lia).
  assert (Ha : Z.abs zone = 60 * Z.quot (Z.abs zone) 60 + Z.rem (Z.abs zone) 60) by apply Z.quot_rem'.
  pose proof (Z.rem_bound_pos (Z.abs zone) 60 ltac:(lia) ltac:(lia)) as Hr. clearbody zone.
  set (hr := Z.quot (Z.abs zone) 60) in *. set (mm := Z.rem (Z.abs zone) 60) in *. clearbody hr mm.
  assert (Hok : (24 <? hr) || (60 <? mm) = false) by lia.
  rewrite !string_app_assoc.
  replace ((if zone <? 0 then "-" else "+") +:+ two hr +:+ ":" +:+ two mm +:+ rest)
    with (String (if zone <? 0 then "-"%char else "+"%char) (two hr +:+ String ":"%char (two mm +:+ rest))) by (by destruct (zone <? 0)).
  unfold parse_zone. rewrite getnum_two by lia. rewrite getnum_two by lia.
  change (negb (is_char ":"%char 58)) with false. cbn [orb]. rewrite Hok.
  destruct (Z.ltb_spec zone 0).
  - change (is_char "-"%char 90) with false. change (is_char "-"%char 43) with false. change (is_char "-"%char 45) with true. cbv iota.
    do 3 f_equal. lia.
  - change (is_char "+"%char 90) with false. change (is_char "+"%char 43) with true. cbv iota. do 3 f_equal. lia.
Qed.

(** Each chunk reads back what it printed. *)
Lemma parse_format_chunk c t p rest :
  printable t -> (c = stdFracSecond9 -> frac_end rest) ->
  parse_chunk c (format_chunk t c +:+ rest) p = Some (put c t p, rest).
Proof.
  intros (Hw & Hy & Ho & Hm) Hf. pose proof (date_bounds t) as [? ?]. pose proof (clock_bounds t) as (? & ? & ?).
  destruct p as [y mo d h mi sec ns z]. destruct c; cbn [format_chunk].
  - unfold parse_chunk. by rewrite parse_year_text by lia.
  - unfold parse_chunk. by rewrite bounded_two by lia.
  - unfold parse_chunk. by rewrite getnum_two by lia.
  - unfold parse_chunk. by rewrite bounded_two by lia.
  - unfold parse_chunk. by rewrite bounded_two by lia.
  - unfold parse_chunk. by rewrite bounded_two by lia.
  - rewrite parse_frac_text by (exact Hw || auto). done.
  - unfold parse_chunk. by rewrite parse_zone_text.
  - change (String c EmptyString +:+ rest) with (String c rest). unfold parse_chunk. by rewrite Ascii.eqb_refl.
Qed.

(** A fraction is last or before the zone. *)
Fixpoint frac_last (l : list Chunk) : Prop :=
  match l with
  | [] => True
  | stdFracSecond9 :: l' => (l' = [] \/ l' = [stdISO8601ColonTZ])
  | _ :: l' => frac_last l'
  end.

Lemma frac_end_format l t : l = [] \/ l = [stdISO8601ColonTZ] -> frac_end (Format t l).
Proof.
  intros [->| ->]; [done|]. cbn [Format format_chunk]. unfold zone_text. cbv zeta.
  generalize (loc_offset (t_loc t) (t_unix t)) as off. intros off. destruct (off =? 0); [cbn; done|].
  destruct (Z.quot off 60 <? 0); cbn; done.
Qed.

Lemma parse_format l t p :
  printable t -> frac_last l -> parse_chunks l (Format t l) p = Some (foldl (fun p c => put c t p) p l).
Proof.
  intros Ht. revert p. induction l as [|c l IH]; intros p Hl; [done|]. cbn [Format parse_chunks foldl].
  rewrite parse_format_chunk; [|done|intros ->; by apply frac_end_format].
  apply IH. destruct c; try done. by destruct Hl as [->| ->].
Qed.

(** A layout with a zone does not read a text without one. *)
Lemma parse_chunks_zone l s p p' : parse_chunks l s p = Some p' -> parse_chunks (l ++ [stdISO8601ColonTZ]) s p = None.
Proof.
  revert s p. induction l as [|c l IH]; intros s p H; cbn [parse_chunks app] in *.
  - destruct s; [|done]. by destruct p.
  - destruct (parse_chunk c s p) as [[p1 s1]|]; [|done]. by apply IH.
Qed.

(** ** No bracket *)

Fixpoint no_bracket (s : string) : bool :=
  match s with EmptyString => true | String c s' => negb (is_char c 91) && no_bracket s' end.

Lemma no_bracket_app s t : no_bracket (s +:+ t) = no_bracket s && no_bracket t.
Proof. induction s as [|c s IH]; [done|]. rewrite string_app_cons. cbn [no_bracket]. by rewrite IH, andb_assoc. Qed.

Lemma no_bracket_digits s : all_digits s = true -> no_bracket s = true.
Proof.
  induction s as [|c s IH]; [done|]. cbn [all_digits no_bracket]. intros [Hc Hs]%andb_true_iff. rewrite IH by done.
  rewrite andb_true_r. unfold is_digit in Hc. unfold is_char. apply negb_true_iff, Nat.eqb_neq. lia.
Qed.

Lemma splitZoneSuffix_none s : no_bracket s = true -> splitZoneSuffix s = None.
Proof.
  induction s as [|c s IH]; [done|]. cbn [no_bracket splitZoneSuffix]. intros [Hc Hs]%andb_true_iff.
  apply negb_true_iff in Hc. by rewrite Hc, IH.
Qed.

Lemma format_no_bracket l t : 0 <= Year t <= 9999 -> Forall (fun c => c <> Lit "["%char) l -> no_bracket (Format t l) = true.
Proof.
  intros Hy H. induction H as [|c l Hc _ IH]; [done|]. cbn [Format]. rewrite no_bracket_app, IH, andb_true_r.
  destruct c as [| | | | | | | |a]; cbn [format_chunk]; try (apply no_bracket_digits, all_digits_fixed).
  - unfold year_text. destruct (Z.ltb_spec (Year t) 0); [lia|]. destruct (Z.ltb_spec (Year t) 10000); [|lia].
    apply no_bracket_digits, all_digits_fixed.
  - unfold frac_text. destruct (_ =? _); [done|]. rewrite no_bracket_app. apply no_bracket_digits, trim_digits, all_digits_fixed.
  - unfold zone_text. cbv zeta. destruct (_ =? _); [done|]. unfold two. rewrite !no_bracket_app.
    rewrite !(no_bracket_digits (digits_fixed _ _)) by apply all_digits_fixed. by destruct (_ <? _).
  - cbn [no_bracket]. rewrite andb_true_r. apply negb_true_iff, Nat.eqb_neq. intros E. apply Hc. f_equal.
    rewrite <- (Ascii.ascii_nat_embedding a), E. done.
Qed.

(** ** Reading back *)

Lemma range_of_year t : 0 <= Year t <= 9999 -> in_range UTC (t_days t).
Proof.
  unfold Year. destruct (t_date t) as [[y m] d] eqn:E. apply t_date_days in E as [[Hm Hd] <-]. cbn [fst]. intros Hy.
  unfold in_range, min_unix. change (loc_base UTC) with 0. rewrite days_from_civil_eq.
  assert (-800000 <= year_start (march_year y m)) by (unfold year_start, march_year; destruct (m <=? 2); Z.div_mod_to_equations; lia).
  assert (0 <= doy_of m d) by (unfold doy_of; destruct (Z.ltb_spec 2 m); Z.div_mod_to_equations; lia). lia.
Qed.

(** The fields of a UTC instant make it again. *)
Lemma utc_fields t :
  wf_time t -> t_loc t = UTC -> 0 <= Year t <= 9999 ->
  goDate (Year t) (Month t) (Day t) (Hour t) (Minute t) (Second t) (t_nsec t) UTC = t.
Proof.
  intros Hw Hloc Hy. pose proof (range_of_year t Hy) as Hr. pose proof (clock_bounds t) as (H1 & H2 & H3).
  unfold Year, Month, Day. destruct (t_date t) as [[y m] d] eqn:E. cbn [fst snd].
  pose proof (t_date_days t y m d E) as [Hv Hd]. rewrite <- Hd in Hr.
  destruct (goDate_parts UTC fixed_UTC y m d (Hour t) (Minute t) (Second t) (t_nsec t) Hv H1 H2 H3 Hw Hr) as (E1 & E2 & E3 & E4 & E5 & E6).
  apply (parts_unique UTC fixed_UTC); [exact E6|by split|congruence|done..].
Qed.

Definition fields (t : Time) (z : ParsedZone) : Parsed :=
  mkParsed (Year t) (Month t) (Day t) (Hour t) (Minute t) (Second t) (t_nsec t) z.

Lemma parsed_time_utc {TZ : TimeZones} t z :
  wf_time t -> t_loc t = UTC -> 0 <= Year t <= 9999 -> z = ZNone \/ z = ZUTC -> parsed_time (fields t z) UTC = Some t.
Proof.
  intros Hw Hloc Hy Hz. unfold parsed_time, fields.
  destruct ((Day t <? 1) || (days_in_month (Year t) (Month t) <? Day t)) eqn:E.
  - exfalso. unfold Year, Month, Day in E. destruct (t_date t) as [[y m] d] eqn:Ed. apply t_date_days in Ed as [[Hm Hd] _]. cbn [fst snd] in E. lia.
  - destruct Hz as [->| ->]; by rewrite utc_fields.
Qed.

Lemma printable_utc t : wf_time t -> t_loc t = UTC -> 0 <= Year t <= 9999 -> printable t.
Proof. intros Hw Hl Hy. split_and!; [done|lia|lia|rewrite Hl, loc_offset_fixed by exact fixed_UTC; done..]. Qed.

Lemma Format_app t l l' : Format t (l ++ l') = Format t l +:+ Format t l'.
Proof. induction l as [|c l IH]; [done|]. cbn [app Format]. by rewrite IH, string_app_assoc. Qed.

Lemma format_no_frac t l : t_nsec t = 0 -> Format t (l ++ [stdFracSecond9]) = Format t l.
Proof. intros H. rewrite Format_app. cbn [Format format_chunk]. rewrite H. cbn [frac_text Z.eqb]. by rewrite !string_app_nil_r. Qed.

(** The suffix of a value in UTC. *)
Definition suffix (naive : bool) : list Chunk := if naive then [] else [stdISO8601ColonTZ].

Lemma render_utc t naive : t_loc t = UTC -> renderZoneSuffix t naive = Format t (suffix naive).
Proof. intros H. unfold renderZoneSuffix, zone_text. rewrite H. by destruct naive. Qed.

(** Reading what a layout printed, with the zone first and then without. *)
Lemma time_Parse_suffix {TZ : TimeZones} l t :
  wf_time t -> t_loc t = UTC -> 0 <= Year t <= 9999 ->
  frac_last l -> frac_last (l ++ [stdISO8601ColonTZ]) ->
  time_Parse (l ++ [stdISO8601ColonTZ]) (Format t (l ++ [stdISO8601ColonTZ])) =
    parsed_time (foldl (fun p c => put c t p) parsed0 (l ++ [stdISO8601ColonTZ])) UTC /\
  time_Parse (l ++ [stdISO8601ColonTZ]) (Format t l) = None /\
  time_Parse l (Format t l) = parsed_time (foldl (fun p c => put c t p) parsed0 l) UTC.
Proof.
  intros Hw Hl Hy H1 H2. pose proof (printable_utc t Hw Hl Hy) as Hp. unfold time_Parse, ParseInLocation.
  rewrite parse_format by done. rewrite (parse_format l) by done.
  rewrite (parse_chunks_zone l _ _ (foldl (fun p c => put c t p) parsed0 l)) by (by apply parse_format). done.
Qed.

Section ReadBack.
Context {DO : DecimalOps} {TZ : TimeZones}.
Variable t : Time.
Variable naive : bool.
Hypothesis Hw : wf_time t.
Hypothesis Hl : t_loc t = UTC.
Hypothesis Hy : 0 <= Year t <= 9999.

Lemma put_zone : put stdISO8601ColonTZ t (fields t ZNone) = fields t ZUTC.
Proof using Hl. unfold put, fields. by rewrite Hl, loc_offset_fixed by exact fixed_UTC. Qed.

(** A layout that fills in the fields of [t] reads them back. *)
Lemma read_fields l :
  frac_last l -> frac_last (l ++ [stdISO8601ColonTZ]) ->
  foldl (fun p c => put c t p) parsed0 l = fields t ZNone ->
  time_Parse (l ++ [stdISO8601ColonTZ]) (Format t (l ++ [stdISO8601ColonTZ])) = Some t /\
  time_Parse (l ++ [stdISO8601ColonTZ]) (Format t l) = None /\ time_Parse l (Format t l) = Some t.
Proof using Hw Hl Hy.
  intros H1 H2 E. destruct (time_Parse_suffix l t Hw Hl Hy H1 H2) as (E1 & E2 & E3).
  rewrite foldl_app in E1. cbn [foldl] in E1. rewrite E, put_zone in E1. rewrite E in E3.
  rewrite parsed_time_utc in E1, E3 by auto. done.
Qed.

Lemma frac_field : (if t_nsec t =? 0 then 0 else t_nsec t) = t_nsec t.
Proof using Type. destruct (Z.eqb_spec (t_nsec t) 0); lia. Qed.

Lemma no_bracket_suffix l : Forall (fun c => c <> Lit "["%char) l -> splitZoneSuffix (Format t (l ++ suffix naive)) = None.
Proof using Hy.
  intros H. apply splitZoneSuffix_none, format_no_bracket; [done|]. apply Forall_app. split; [done|].
  destruct naive; repeat constructor; done.
Qed.

Lemma datetime_text : parseDateTime (datetime_String t naive) = Ok (BlDateTime t naive).
Proof using Hw Hl Hy.
  unfold parseDateTime, datetime_String. rewrite render_utc by done.
  assert (Htxt : Format t (if t_nsec t =? 0 then layoutDateTime else layoutDateTimeFrac) = Format t layoutDateTimeFrac).
  { destruct (Z.eqb_spec (t_nsec t) 0) as [E|_]; [|done]. change layoutDateTimeFrac with (layoutDateTime ++ [stdFracSecond9]).
    by rewrite format_no_frac. }
  rewrite Htxt, <- Format_app. rewrite no_bracket_suffix by (repeat constructor; done).
  destruct (read_fields layoutDateTimeFrac) as (E1 & E2 & E3); [by left|by right|cbn; unfold fields; by rewrite frac_field|].
  unfold suffix. destruct naive; [|by rewrite E1].
  rewrite app_nil_r, E2, E3. unfold In. rewrite <- Hl. by destruct t.
Qed.

Lemma date_text :
  Hour t = 0 /\ Minute t = 0 /\ Second t = 0 /\ t_nsec t = 0 -> parseDate (date_String t naive) = Ok (BlDate t naive).
Proof using Hw Hl Hy.
  intros (H1 & H2 & H3 & H4). pose proof (utc_fields t Hw Hl Hy) as Hf. rewrite H1, H2, H3, H4 in Hf.
  unfold parseDate, date_String. rewrite render_utc, <- Format_app by done.
  rewrite no_bracket_suffix by (repeat constructor; done).
  destruct (read_fields layoutDate) as (E1 & E2 & E3); [done|done|cbn; unfold fields; by rewrite H1, H2, H3, H4|].
  unfold suffix. destruct naive.
  - rewrite app_nil_r, E2, E3. by rewrite Hf.
  - rewrite E1. unfold midnight. by rewrite Hl, Hf.
Qed.

Lemma time_text : t_date t = (0, 1, 1) -> parseTime (time_String t naive) = Ok (BlTime t naive).
Proof using Hw Hl Hy.
  intros Hd. assert (Hymd : Year t = 0 /\ Month t = 1 /\ Day t = 1) by (unfold Year, Month, Day; by rewrite Hd).
  destruct Hymd as (Hy0 & Hm1 & Hd1). pose proof (utc_fields t Hw Hl Hy) as Hf. rewrite Hy0, Hm1, Hd1 in Hf.
  unfold parseTime, time_String. rewrite render_utc by done.
  assert (Htxt : Format t (if t_nsec t =? 0 then layoutTime else layoutTimeFrac) = Format t layoutTimeFrac).
  { destruct (Z.eqb_spec (t_nsec t) 0) as [E|_]; [|done]. unfold layoutTimeFrac. by rewrite format_no_frac. }
  rewrite Htxt, <- Format_app. rewrite no_bracket_suffix by (repeat constructor; done).
  destruct (read_fields layoutTimeFrac) as (E1 & E2 & E3);
    [by left|by right|cbn; unfold fields; by rewrite frac_field, Hy0, Hm1, Hd1|].
  unfold suffix. destruct naive.
  - rewrite app_nil_r, E2, E3. by rewrite Hf.
  - rewrite E1. unfold normaliseTimeDate. by rewrite Hl, Hf.
Qed.

End ReadBack.

(** C30. What [String] writes for a datetime, a date or a time of the years 0 to
    9999, naive or in UTC, its parser reads back. *)
Theorem temporal_text_roundtrip {DO : DecimalOps} {TZ : TimeZones} (t : Time) (naive : bool) :
  wf_time t -> t_loc t = UTC -> 0 <= Year t <= 9999 ->
  parseDateTime (datetime_String t naive) = Ok (BlDateTime t naive) /\
  (Hour t = 0 /\ Minute t = 0 /\ Second t = 0 /\ t_nsec t = 0 -> parseDate (date_String t naive) = Ok (BlDate t naive)) /\
  (t_date t = (0, 1, 1) -> parseTime (time_String t naive) = Ok (BlTime t naive)).
Proof. intros Hw Hl Hy. split_and!; [by apply datetime_text|by apply date_text|by apply time_text]. Qed.

(** A zone database with one zone, for the samples. *)
Definition sampleZones : TimeZones :=
  {| LoadLocation z := if String.eqb z "Europe/Paris" then Some (FixedZone "Europe/Paris" 3600) else None; Local := UTC |}.

Lemma temporal_text_roundtrip_witness :
  let t := mkTime 1709210096 250000000 UTC in
  datetime_String t true = "2024-02-29T12:34:56.25" /\
  parseDateTime (TZ := sampleZones) "2024-02-29T12:34:56.25" = Ok (BlDateTime t true).
Proof.
  intros t. assert (E : datetime_String t true = "2024-02-29T12:34:56.25") by (vm_compute; reflexivity).
  split; [exact E|]. rewrite <- E.
  assert (Hw : wf_time t) by (unfold wf_time; simpl; lia).
  assert (Hy : 0 <= Year t <= 9999) by (vm_compute; split; discriminate).
  destruct (temporal_text_roundtrip (DO := QDecimal) (TZ := sampleZones) t true Hw eq_refl Hy) as [H _]. exact H.
Defined.

(** * Sample dates and times

    The theorems of [TemporalLaws] at concrete values, and two values the
    checks of [datetime.go] and [time.go] let through. *)

(** 2024-01-31T10:00:00Z, a Wednesday *)
Definition jan31 : Time := mkTime 1706695200 0 UTC.

Lemma jan31_at : at_loc UTC jan31.
Proof. split; [unfold wf_time; simpl; lia|reflexivity]. Qed.

Lemma add_months_clamps_witness :
  t_date (addMonthsClamped (DO := tenDecimal) jan31 (mkTen 1 0)) = (2024, 2, 29).
Proof.
  destruct (add_months_clamps UTC fixed_UTC (DO := tenDecimal) jan31 (mkTen 1 0) jan31_at) as [H _];
    [vm_compute; split; discriminate|vm_compute; split; discriminate|vm_compute; discriminate|].
  rewrite H. vm_compute. reflexivity.
Defined.

Lemma date_components_witness :
  exists t, dateFromComponents (DO := tenDecimal) (TZ := sampleZones) 2024 2 29 None "" = Ok (BlDate t true) /\ t_date t = (2024, 2, 29).
Proof.
  assert (Hr : in_range UTC (days_from_civil 2024 (Z.max 1 (Z.min 2 12)) 29)) by (vm_compute; discriminate).
  pose proof (date_components (DO := tenDecimal) (TZ := sampleZones) 2024 2 29 Hr) as H.
  assert (Hv : bool_decide (valid_civil 2024 2 29) = true) by (vm_compute; reflexivity).
  rewrite Hv in H. exact H.
Defined.

Lemma weekday_navigation_witness :
  exists k, 1 <= k <= 7 /\ dowNav (DO := tenDecimal) true (BlDateTime jan31 true) (BlString "Wednesday") =
    Ok (rebuildTemporal (shift jan31 (1 * k)) true true).
Proof.
  destruct (weekday_navigation UTC fixed_UTC (DO := tenDecimal) jan31 true true true "Wednesday" 3 jan31_at)
    as [_ (k & Hk & E & _)]; [vm_compute; discriminate|vm_compute; reflexivity|].
  exists k. split; [exact Hk|exact E].
Defined.

Lemma weekdays_between_counts_witness :
  weekdaysBetweenFn (DO := tenDecimal) (BlDate jan31 true) (BlDate (shift jan31 (-3)) true) = Ok (numFromInt (DO := tenDecimal) 3).
Proof.
  assert (H2 : at_loc UTC (shift jan31 (-3))) by (apply (shift_at_loc UTC); exact jan31_at).
  pose proof (weekdays_between_counts UTC fixed_UTC (DO := tenDecimal) jan31 (shift jan31 (-3)) true true jan31_at H2) as H.
  cbv zeta in H. rewrite H by (vm_compute; discriminate). do 2 f_equal.
Defined.

Lemma datetime_plus_duration_witness :
  exists r, addDateTimeDT (DO := tenDecimal) jan31 true (mkTen 15 (-1)) = BlDateTime r true /\
    subDateTimeDT (DO := tenDecimal) r true (mkTen 15 (-1)) = BlDateTime jan31 true.
Proof.
  destruct (datetime_plus_duration (DO := tenDecimal) (DL := tenDecimal_laws) jan31 true (mkTen 15 (-1)) 1500000000)
    as (r & H1 & _ & _ & H2 & _); [exact (proj1 jan31_at)|split; [vm_compute; reflexivity|lia]|].
  exists r. split; [exact H1|exact H2].
Defined.

Lemma time_wraps_at_midnight_witness :
  exists r, addTimeDur (DO := tenDecimal) (mkTime (-62167136400) 0 UTC) true (mkTen 7200 0) = BlTime r true /\
    t_secs_of_day r = 3600.
Proof.
  destruct (time_wraps_at_midnight (DO := tenDecimal) (DL := tenDecimal_laws) (mkTime (-62167136400) 0 UTC) true (mkTen 7200 0) 7200)
    as (r & H1 & _ & _ & _ & H2); [unfold wf_time; simpl; lia|reflexivity|vm_compute; reflexivity|vm_compute; reflexivity|lia|].
  exists r. split; [exact H1|]. rewrite H2. vm_compute. reflexivity.
Defined.

(** ** What the checks let through *)

(** A datetime of minute 99 and second -5 is accepted, as one of the next hour. *)
Theorem datetime_minutes_not_checked :
  exists t, dateTimeFromComponents (DO := tenDecimal) (TZ := sampleZones) 2025 3 1 3 99 (-5) None "" = Ok (BlDateTime t true) /\
    (Hour t, Minute t, Second t) = (4, 38, 55).
Proof. exists (goDate 2025 3 1 3 99 (-5) 0 UTC). split; [vm_eq|vm_compute; reflexivity]. Qed.

(** The fraction of a duration added to a time of day is dropped. *)
Theorem time_plus_half_a_second :
  let t := mkTime (-62167136400) 0 UTC in addTimeDur (DO := tenDecimal) t true (mkTen 5 (-1)) = BlTime t true.
Proof. intros t. vm_eq. Qed.
