(* ===== verification/StateStore.v ===== *)
(** * The state store

    Models the write contract of [core/state_store.go] and the in-memory backend
    of [core/in_memory_state_store.go].  The store is a map from run ids to runs;
    every method runs under the store's lock, so a history of calls is a sequence
    of these operations. *)

From Stdlib Require Import Sorted.
From stdpp Require Import pretty.
From S2P Require Import Prelude GoTime.
#[global] Open Scope Z_scope.

Abbreviation bytes := (list Byte.byte).

(** ** The write contract ([state_store.go]) *)

(** [ValueStatus]: a Go [int]; [ValueStatusOther] is any undeclared value. *)
Inductive ValueStatus : Type :=
| ValueStatusPending
| ValueStatusCommitted
| ValueStatusAborted
| ValueStatusOther (n : Z).

#[global] Instance ValueStatus_eq_dec : EqDecision ValueStatus.
Proof. solve_decision. Defined.

(** [ValueStatus.String] on the declared values. *)
Definition ValueStatus_String (s : ValueStatus) : string :=
  match s with
  | ValueStatusPending => "pending"
  | ValueStatusCommitted => "committed"
  | ValueStatusAborted => "aborted"
  | ValueStatusOther n => "ValueStatus(" +:+ pretty n +:+ ")"
  end.

(** [ParseValueStatus] *)
Definition ParseValueStatus (s : string) : result ValueStatus :=
  if String.eqb s "pending" then Ok ValueStatusPending
  else if String.eqb s "committed" then Ok ValueStatusCommitted
  else if String.eqb s "aborted" then Ok ValueStatusAborted
  else Err (ErrorText ("unknown value status " +:+ s)).

Inductive WriteOpKind : Type :=
| OpValueWrite | OpStatusFlip | OpHistoryEntry | OpUnknown (n : Z).

Record ValueWrite : Type := mkValueWrite {
  vw_TaskID : string;
  vw_ExecutionID : string;
  vw_Field : string;
  vw_Value : bytes;
  vw_Timestamp : Time
}.

Record StatusFlip : Type := mkStatusFlip {
  sf_TaskID : string;
  sf_NewStatus : ValueStatus;
  sf_Timestamp : Time
}.

Record HistoryEntry : Type := mkHistoryEntry {
  he_Kind : string;
  he_NodeID : option string;
  he_ExecutionID : string;
  he_Payload : bytes;
  he_Timestamp : Time
}.

Record WriteOp : Type := mkWriteOp {
  op_RunID : string;
  op_Kind : WriteOpKind;
  op_ValueWrite : option ValueWrite;
  op_StatusFlip : option StatusFlip;
  op_HistoryEntry : option HistoryEntry
}.

Record ValueRecord : Type := mkValueRecord {
  vr_TaskID : string;
  vr_ExecutionID : string;
  vr_Field : string;
  vr_Value : bytes;
  vr_Status : ValueStatus;
  vr_Timestamp : Time;
  vr_Seq : Z
}.

Record HistoryRecord : Type := mkHistoryRecord {
  hr_Kind : string;
  hr_NodeID : option string;
  hr_ExecutionID : string;
  hr_Payload : bytes;
  hr_Timestamp : Time;
  hr_Seq : Z
}.

Record RunMetadata : Type := mkRunMetadata {
  rm_RunID : string;
  rm_ProcessID : string;
  rm_ProcessVersion : string;
  rm_Status : string;
  rm_PublishedAt : option Time;
  rm_StartedAt : option Time;
  rm_CompletedAt : option Time;
  rm_EvaluationCount : Z
}.

(** The zero [RunMetadata] with a run id. *)
Definition emptyMeta (runID : string) : RunMetadata :=
  mkRunMetadata runID "" "" "" None None None 0.

Record CurrentVersion : Type := mkCurrentVersion {
  cv_Meta : RunMetadata;
  cv_Values : gmap string (gmap string bytes)
}.

Record FullHistory : Type := mkFullHistory {
  fh_Meta : RunMetadata;
  fh_Values : list ValueRecord;
  fh_History : list HistoryRecord
}.

(** [ValidateWriteOp]: [None] is Go's nil error. *)
Definition ValidateWriteOp (op : WriteOp) : option GoError :=
  if String.eqb (op_RunID op) "" then Some (ErrorText "write op: empty RunID")
  else match op_Kind op with
  | OpValueWrite =>
      match op_ValueWrite op with
      | None => Some (ErrorText "write op: Kind OpValueWrite with nil ValueWrite")
      | Some w =>
          if String.eqb (vw_TaskID w) "" || String.eqb (vw_Field w) "" ||
             String.eqb (vw_ExecutionID w) ""
          then Some (ErrorText "value write: TaskID, ExecutionID and Field are required")
          else if IsZero (vw_Timestamp w)
          then Some (ErrorText "value write: zero Timestamp")
          else None
      end
  | OpStatusFlip =>
      match op_StatusFlip op with
      | None => Some (ErrorText "write op: Kind OpStatusFlip with nil StatusFlip")
      | Some f =>
          if String.eqb (sf_TaskID f) ""
          then Some (ErrorText "status flip: TaskID is required")
          else if negb (bool_decide (sf_NewStatus f = ValueStatusCommitted)) &&
                  negb (bool_decide (sf_NewStatus f = ValueStatusAborted))
          then Some (ErrorText ("status flip: NewStatus must be committed or aborted, got "
                                +:+ ValueStatus_String (sf_NewStatus f)))
          else None
      end
  | OpHistoryEntry =>
      match op_HistoryEntry op with
      | None => Some (ErrorText "write op: Kind OpHistoryEntry with nil HistoryEntry")
      | Some h =>
          if String.eqb (he_Kind h) ""
          then Some (ErrorText "history entry: Kind is required")
          else if IsZero (he_Timestamp h)
          then Some (ErrorText "history entry: zero Timestamp")
          else None
      end
  | OpUnknown n => Some (ErrorText ("write op: unknown kind " +:+ pretty n))
  end.

(** The order of [SortValueRecords] and [SortHistoryRecords]: time, then arrival. *)
Definition replay_less (t : Time) (s : Z) (t' : Time) (s' : Z) : bool :=
  if negb (TimeEqual t t') then TimeBefore t t' else s <? s'.

Definition value_less (a b : ValueRecord) : bool :=
  replay_less (vr_Timestamp a) (vr_Seq a) (vr_Timestamp b) (vr_Seq b).
Definition history_less (a b : HistoryRecord) : bool :=
  replay_less (hr_Timestamp a) (hr_Seq a) (hr_Timestamp b) (hr_Seq b).

(** [SortValueRecords], [SortHistoryRecords] *)
Definition SortValueRecords (recs : list ValueRecord) : list ValueRecord :=
  slice_stable value_less recs.
Definition SortHistoryRecords (recs : list HistoryRecord) : list HistoryRecord :=
  slice_stable history_less recs.

(** ** The in-memory backend ([in_memory_state_store.go]) *)

Record inMemoryRun : Type := mkRun {
  run_meta : RunMetadata;
  run_hasMeta : bool;
  run_values : list ValueRecord;
  run_history : list HistoryRecord;
  run_seq : Z
}.

Abbreviation Store := (gmap string inMemoryRun).

(** [NewInMemoryStateStore] *)
Definition NewInMemoryStateStore : Store := ∅.

(** The run method: the stored run, or a fresh one. *)
Definition get_run (s : Store) (runID : string) : inMemoryRun :=
  match s !! runID with
  | Some r => r
  | None => mkRun (emptyMeta runID) false [] [] 0
  end.

(** [Save] *)
Definition Save (s : Store) (meta : RunMetadata) : Store * option GoError :=
  if String.eqb (rm_RunID meta) "" then (s, Some (ErrorText "save: empty RunID"))
  else
    let r := get_run s (rm_RunID meta) in
    (<[rm_RunID meta := mkRun meta true (run_values r) (run_history r) (run_seq r)]> s, None).

(** The record a value write becomes. *)
Definition record_of_write (w : ValueWrite) (seq : Z) : ValueRecord :=
  mkValueRecord (vw_TaskID w) (vw_ExecutionID w) (vw_Field w) (vw_Value w)
    ValueStatusPending (vw_Timestamp w) seq.

Definition record_of_entry (h : HistoryEntry) (seq : Z) : HistoryRecord :=
  mkHistoryRecord (he_Kind h) (he_NodeID h) (he_ExecutionID h) (he_Payload h)
    (he_Timestamp h) seq.

(** The effect of a status flip on one record. *)
Definition flip_record (f : StatusFlip) (v : ValueRecord) : ValueRecord :=
  if String.eqb (vr_TaskID v) (sf_TaskID f) && bool_decide (vr_Status v = ValueStatusPending)
  then mkValueRecord (vr_TaskID v) (vr_ExecutionID v) (vr_Field v) (vr_Value v)
         (sf_NewStatus f) (vr_Timestamp v) (vr_Seq v)
  else v.

(** One iteration of the loop of [WriteBatch], on the run of the op. *)
Definition apply_op_run (r : inMemoryRun) (op : WriteOp) : inMemoryRun :=
  match op_Kind op with
  | OpValueWrite =>
      match op_ValueWrite op with
      | Some w =>
          let seq := uint64 (run_seq r + 1) in
          mkRun (run_meta r) (run_hasMeta r)
            (run_values r ++ [record_of_write w seq]) (run_history r) seq
      | None => r
      end
  | OpStatusFlip =>
      match op_StatusFlip op with
      | Some f =>
          mkRun (run_meta r) (run_hasMeta r)
            (map (flip_record f) (run_values r)) (run_history r) (run_seq r)
      | None => r
      end
  | OpHistoryEntry =>
      match op_HistoryEntry op with
      | Some h =>
          let seq := uint64 (run_seq r + 1) in
          mkRun (run_meta r) (run_hasMeta r) (run_values r)
            (run_history r ++ [record_of_entry h seq]) seq
      | None => r
      end
  | OpUnknown _ => r
  end.

Definition apply_op (s : Store) (op : WriteOp) : Store :=
  <[op_RunID op := apply_op_run (get_run s (op_RunID op)) op]> s.

(** The validation loop: the first error. *)
Fixpoint validate_all (ops : list WriteOp) : option GoError :=
  match ops with
  | [] => None
  | op :: ops' =>
      match ValidateWriteOp op with Some e => Some e | None => validate_all ops' end
  end.

(** [WriteBatch] *)
Definition WriteBatch (s : Store) (ops : list WriteOp) : Store * option GoError :=
  match validate_all ops with
  | Some e => (s, Some e)
  | None => (fold_left apply_op ops s, None)
  end.

(** [Flush] *)
Definition Flush (s : Store) (runID : string) : Store * option GoError := (s, None).

(** One step of the fold of [CurrentVersion]. *)
Definition fold_value (m : gmap string (gmap string bytes)) (v : ValueRecord)
  : gmap string (gmap string bytes) :=
  if negb (bool_decide (vr_Status v = ValueStatusCommitted)) then m
  else <[vr_TaskID v := <[vr_Field v := vr_Value v]> (default ∅ (m !! vr_TaskID v))]> m.

(** [CurrentVersion] *)
Definition CurrentVersion_ (s : Store) (runID : string) : option CurrentVersion :=
  match s !! runID with
  | None => None
  | Some r =>
      Some (mkCurrentVersion (run_meta r)
              (fold_left fold_value (SortValueRecords (run_values r)) ∅))
  end.

(** [FullHistory] *)
Definition FullHistory_ (s : Store) (runID : string) : option FullHistory :=
  match s !! runID with
  | None => None
  | Some r =>
      Some (mkFullHistory (run_meta r) (SortValueRecords (run_values r))
              (SortHistoryRecords (run_history r)))
  end.
