(* ===== verification/StateStoreLaws.v ===== *)
(** * Correctness of the state store

    The abstract specification of a backend is the log of accepted operations of
    each run: a write is committed or aborted by the first later flip of its task.
    [StateStoreBackend] is the interface every backend offers and
    [ImplementsSpec] the refinement it promises; the in-memory store discharges
    it, and the theorems on histories of calls are proved against the interface. *)

From Stdlib Require Import Sorted.
From S2P Require Import Prelude GoTime StateStore.
#[global] Open Scope Z_scope.

(** ** Replay order *)

Lemma replay_less_true t s t' s' :
  replay_less t s t' s' = true <->
  TimeCompare t t' < 0 \/ (TimeCompare t t' = 0 /\ s < s').
Proof.
  unfold replay_less, TimeBefore. rewrite TimeEqual_compare.
  destruct (Z.eqb_spec (TimeCompare t t') 0); simpl; lia.
Qed.

Lemma replay_less_swo {A} (ts : A -> Time) (sq : A -> Z) :
  StrictWeakOrder (fun a b => replay_less (ts a) (sq a) (ts b) (sq b)).
Proof.
  split.
  - intros x. apply not_true_iff_false. rewrite replay_less_true.
    pose proof (TimeCompare_antisym (ts x) (ts x)). lia.
  - intros x y H. apply replay_less_true in H. apply not_true_iff_false.
    rewrite replay_less_true. pose proof (TimeCompare_antisym (ts x) (ts y)). lia.
  - intros x y z. rewrite <- !not_true_iff_false, !replay_less_true.
    pose proof (TimeCompare_trans (ts z) (ts y) (ts x)).
    pose proof (TimeCompare_trans (ts x) (ts y) (ts z)).
    pose proof (TimeCompare_trans (ts y) (ts x) (ts z)).
    pose proof (TimeCompare_trans (ts x) (ts z) (ts y)).
    pose proof (TimeCompare_antisym (ts x) (ts y)). pose proof (TimeCompare_antisym (ts y) (ts z)).
    pose proof (TimeCompare_antisym (ts x) (ts z)). lia.
Qed.

#[global] Instance value_less_swo : StrictWeakOrder value_less.
Proof. exact (replay_less_swo vr_Timestamp vr_Seq). Qed.

#[global] Instance history_less_swo : StrictWeakOrder history_less.
Proof. exact (replay_less_swo hr_Timestamp hr_Seq). Qed.

(** ** The abstract log of a run *)

(** The outcome of a task's pending writes under the operations still to come:
    that of the first flip of the task, else pending. *)
Fixpoint first_flip (task : string) (log : list WriteOp) : ValueStatus :=
  match log with
  | [] => ValueStatusPending
  | op :: log' =>
      match op_Kind op, op_StatusFlip op with
      | OpStatusFlip, Some f =>
          if String.eqb task (sf_TaskID f) then sf_NewStatus f else first_flip task log'
      | _, _ => first_flip task log'
      end
  end.

(** The records a log leaves, each numbered by its arrival after [seq] earlier
    writes and entries. *)
Fixpoint spec_values (seq : Z) (log : list WriteOp) : list ValueRecord :=
  match log with
  | [] => []
  | op :: log' =>
      match op_Kind op, op_ValueWrite op, op_HistoryEntry op with
      | OpValueWrite, Some w, _ =>
          mkValueRecord (vw_TaskID w) (vw_ExecutionID w) (vw_Field w) (vw_Value w)
            (first_flip (vw_TaskID w) log') (vw_Timestamp w) (uint64 (seq + 1))
          :: spec_values (uint64 (seq + 1)) log'
      | OpHistoryEntry, _, Some _ => spec_values (uint64 (seq + 1)) log'
      | _, _, _ => spec_values seq log'
      end
  end.

Fixpoint spec_history (seq : Z) (log : list WriteOp) : list HistoryRecord :=
  match log with
  | [] => []
  | op :: log' =>
      match op_Kind op, op_ValueWrite op, op_HistoryEntry op with
      | OpValueWrite, Some _, _ => spec_history (uint64 (seq + 1)) log'
      | OpHistoryEntry, _, Some h =>
          record_of_entry h (uint64 (seq + 1)) :: spec_history (uint64 (seq + 1)) log'
      | _, _, _ => spec_history seq log'
      end
  end.

Fixpoint spec_seq (seq : Z) (log : list WriteOp) : Z :=
  match log with
  | [] => seq
  | op :: log' =>
      match op_Kind op, op_ValueWrite op, op_HistoryEntry op with
      | OpValueWrite, Some _, _ => spec_seq (uint64 (seq + 1)) log'
      | OpHistoryEntry, _, Some _ => spec_seq (uint64 (seq + 1)) log'
      | _, _, _ => spec_seq seq log'
      end
  end.

(** What the operations to come do to a record already stored. *)
Definition settle (log : list WriteOp) (v : ValueRecord) : ValueRecord :=
  if bool_decide (vr_Status v = ValueStatusPending)
  then mkValueRecord (vr_TaskID v) (vr_ExecutionID v) (vr_Field v) (vr_Value v)
         (first_flip (vr_TaskID v) log) (vr_Timestamp v) (vr_Seq v)
  else v.

Definition valid (op : WriteOp) : Prop := ValidateWriteOp op = None.

Lemma validate_all_valid ops : validate_all ops = None <-> Forall valid ops.
Proof.
  induction ops as [|op ops IH]; simpl; [split; [constructor|done]|].
  rewrite Forall_cons. unfold valid. destruct (ValidateWriteOp op); [naive_solver|].
  rewrite IH. naive_solver.
Qed.

Lemma valid_flip op f :
  valid op -> op_Kind op = OpStatusFlip -> op_StatusFlip op = Some f ->
  sf_NewStatus f = ValueStatusCommitted \/ sf_NewStatus f = ValueStatusAborted.
Proof.
  unfold valid, ValidateWriteOp. intros H Hk Hf. rewrite Hk, Hf in H.
  destruct (String.eqb (op_RunID op) ""); [done|].
  destruct (String.eqb (sf_TaskID f) ""); [done|].
  destruct (decide (sf_NewStatus f = ValueStatusCommitted)); [by left|].
  destruct (decide (sf_NewStatus f = ValueStatusAborted)); [by right|].
  rewrite !bool_decide_eq_false_2 in H by done. done.
Qed.

Lemma settle_nil v : settle [] v = v.
Proof.
  unfold settle. simpl. case_bool_decide as H; [|done]. destruct v; simpl in *. by subst.
Qed.

Lemma settle_flip op f log v :
  valid op -> op_Kind op = OpStatusFlip -> op_StatusFlip op = Some f ->
  settle log (flip_record f v) = settle (op :: log) v.
Proof.
  intros Hv Hk Hf. pose proof (valid_flip op f Hv Hk Hf) as Hs.
  unfold settle, flip_record; simpl; rewrite Hk, Hf.
  destruct (decide (vr_Status v = ValueStatusPending)) as [H|H].
  - rewrite H. destruct (String.eqb (vr_TaskID v) (sf_TaskID f)) eqn:E; simpl; [|by rewrite H].
    destruct Hs as [Hs|Hs]; by rewrite Hs.
  - rewrite !(bool_decide_eq_false_2 (vr_Status v = _)), andb_false_r by done.
    by rewrite bool_decide_eq_false_2.
Qed.

Lemma settle_skip op log v :
  (op_Kind op = OpStatusFlip -> op_StatusFlip op = None) -> settle (op :: log) v = settle log v.
Proof. unfold settle. simpl. intros H. destruct (op_Kind op); try done. by rewrite H. Qed.

(** Applying a log to a run settles its pending records, appends the records of
    the log and advances the arrival counter. *)
Lemma apply_log_run log r :
  Forall valid log ->
  fold_left apply_op_run log r =
  mkRun (run_meta r) (run_hasMeta r)
    (map (settle log) (run_values r) ++ spec_values (run_seq r) log)
    (run_history r ++ spec_history (run_seq r) log) (spec_seq (run_seq r) log).
Proof.
  revert r; induction log as [|op log IH]; intros r Hv; simpl.
  - destruct r as [m hm vs hs sq]. simpl. rewrite !app_nil_r. f_equal.
    rewrite <- (map_id vs) at 1. apply map_ext. intros. by rewrite settle_nil.
  - inv Hv. rewrite IH by done. clear IH. unfold apply_op_run.
    destruct (op_Kind op) eqn:Hk.
    + rewrite (map_ext (settle (op :: log)) (settle log)) by
        (intros; apply settle_skip; by rewrite Hk).
      destruct (op_ValueWrite op) as [w|]; simpl; [|done].
      f_equal. by rewrite map_app, <- app_assoc.
    + destruct (op_StatusFlip op) as [f|] eqn:Hf; simpl.
      * f_equal. f_equal. rewrite map_map. apply map_ext. intros v. by apply settle_flip.
      * rewrite (map_ext (settle (op :: log)) (settle log)) by
          (intros; apply settle_skip; by rewrite Hf). done.
    + rewrite (map_ext (settle (op :: log)) (settle log)) by
        (intros; apply settle_skip; by rewrite Hk).
      destruct (op_ValueWrite op), (op_HistoryEntry op) as [h|]; simpl; try done;
        f_equal; by rewrite <- app_assoc.
    + rewrite (map_ext (settle (op :: log)) (settle log)) by
        (intros; apply settle_skip; by rewrite Hk).
      destruct (op_ValueWrite op), (op_HistoryEntry op); done.
Qed.

(** ** The specification of a backend *)

(** The abstract store: per run, the metadata last saved and the log of accepted
    operations. *)
Abbreviation AbsStore := (gmap string (option RunMetadata * list WriteOp)).

Definition abs_run (a : AbsStore) (id : string) : option RunMetadata * list WriteOp :=
  default (None, []) (a !! id).

Definition spec_save (a : AbsStore) (m : RunMetadata) : AbsStore * option GoError :=
  if String.eqb (rm_RunID m) "" then (a, Some (ErrorText "save: empty RunID"))
  else (<[rm_RunID m := (Some m, snd (abs_run a (rm_RunID m)))]> a, None).

Definition spec_append (a : AbsStore) (op : WriteOp) : AbsStore :=
  let '(m, log) := abs_run a (op_RunID op) in <[op_RunID op := (m, log ++ [op])]> a.

(** A batch is accepted as a whole or refused with its first error. *)
Definition spec_write (a : AbsStore) (ops : list WriteOp) : AbsStore * option GoError :=
  match validate_all ops with
  | Some e => (a, Some e)
  | None => (fold_left spec_append ops a, None)
  end.

Definition spec_current (a : AbsStore) (id : string) : option CurrentVersion :=
  match a !! id with
  | None => None
  | Some (m, log) =>
      Some (mkCurrentVersion (default (emptyMeta id) m)
              (fold_left fold_value (SortValueRecords (spec_values 0 log)) ∅))
  end.

Definition spec_full (a : AbsStore) (id : string) : option FullHistory :=
  match a !! id with
  | None => None
  | Some (m, log) =>
      Some (mkFullHistory (default (emptyMeta id) m)
              (SortValueRecords (spec_values 0 log)) (SortHistoryRecords (spec_history 0 log)))
  end.

(** The methods of the [StateStore] interface that carry data. *)
Class StateStoreBackend (St : Type) : Type := {
  ss_new : St;
  ss_save : St -> RunMetadata -> St * option GoError;
  ss_write : St -> list WriteOp -> St * option GoError;
  ss_flush : St -> string -> St * option GoError;
  ss_current : St -> string -> option CurrentVersion;
  ss_full : St -> string -> option FullHistory
}.

(** What a backend promises: its states represent abstract stores, every method
    preserves that and answers as the specification does. *)
Class ImplementsSpec (St : Type) `{StateStoreBackend St} : Type := {
  ss_refines : St -> AbsStore -> Prop;
  ss_refines_new : ss_refines ss_new ∅;
  ss_refines_save s a m : ss_refines s a ->
    ss_refines (fst (ss_save s m)) (fst (spec_save a m)) /\
    snd (ss_save s m) = snd (spec_save a m);
  ss_refines_write s a ops : ss_refines s a ->
    ss_refines (fst (ss_write s ops)) (fst (spec_write a ops)) /\
    snd (ss_write s ops) = snd (spec_write a ops);
  ss_refines_flush s a id : ss_refines s a ->
    ss_refines (fst (ss_flush s id)) a /\ snd (ss_flush s id) = None;
  ss_refines_current s a id : ss_refines s a -> ss_current s id = spec_current a id;
  ss_refines_full s a id : ss_refines s a -> ss_full s id = spec_full a id
}.

(** A call of the interface that may change the store. *)
Inductive Call : Type :=
| CallSave (m : RunMetadata)
| CallWriteBatch (ops : list WriteOp)
| CallFlush (runID : string).

Definition do_call {St} `{StateStoreBackend St} (s : St) (c : Call) : St * option GoError :=
  match c with
  | CallSave m => ss_save s m
  | CallWriteBatch ops => ss_write s ops
  | CallFlush id => ss_flush s id
  end.

Definition spec_call (a : AbsStore) (c : Call) : AbsStore * option GoError :=
  match c with
  | CallSave m => spec_save a m
  | CallWriteBatch ops => spec_write a ops
  | CallFlush _ => (a, None)
  end.

(** A history of calls: the final store and the errors returned. *)
Fixpoint run_calls {St E} (step : St -> Call -> St * E) (s : St) (cs : list Call) : St * list E :=
  match cs with
  | [] => (s, [])
  | c :: cs' =>
      let '(s', e) := step s c in
      let '(s'', es) := run_calls step s' cs' in (s'', e :: es)
  end.

Section Client.
Context {St : Type} `{ImplementsSpec St}.

Lemma do_call_refines s a c : ss_refines s a ->
  ss_refines (fst (do_call s c)) (fst (spec_call a c)) /\
  snd (do_call s c) = snd (spec_call a c).
Proof.
  destruct c; simpl; auto using ss_refines_save, ss_refines_write, ss_refines_flush.
Qed.

Lemma run_calls_refines cs s a : ss_refines s a ->
  ss_refines (fst (run_calls do_call s cs)) (fst (run_calls spec_call a cs)) /\
  snd (run_calls do_call s cs) = snd (run_calls spec_call a cs).
Proof.
  revert s a; induction cs as [|c cs IH]; intros s a Hr; simpl; [done|].
  destruct (do_call_refines s a c Hr) as [Hr' He].
  destruct (do_call s c) as [s' e], (spec_call a c) as [a' e']. simpl in *. subst e'.
  destruct (IH s' a' Hr') as [Hr'' Hes].
  destruct (run_calls do_call s' cs), (run_calls spec_call a' cs). simpl in *. by subst.
Qed.

(** Clients observe the specification: after any history, both reads and all
    returned errors are those of the abstract log. *)
Lemma backend_observations cs id :
  let s := run_calls do_call ss_new cs in
  let a := run_calls spec_call ∅ cs in
  snd s = snd a /\ ss_current (fst s) id = spec_current (fst a) id /\
  ss_full (fst s) id = spec_full (fst a) id.
Proof.
  simpl. destruct (run_calls_refines cs ss_new ∅ ss_refines_new) as [Hr He].
  split_and!; [done|by apply ss_refines_current|by apply ss_refines_full].
Qed.

End Client.

(** ** The in-memory store implements the specification *)

#[global] Instance inMemoryBackend : StateStoreBackend Store := {
  ss_new := NewInMemoryStateStore;
  ss_save := Save;
  ss_write := WriteBatch;
  ss_flush := Flush;
  ss_current := CurrentVersion_;
  ss_full := FullHistory_
}.

(** The run a log leaves. *)
Definition log_run (id : string) (m : option RunMetadata) (log : list WriteOp) : inMemoryRun :=
  mkRun (default (emptyMeta id) m) (match m with Some _ => true | None => false end)
    (spec_values 0 log) (spec_history 0 log) (spec_seq 0 log).

Lemma log_run_fold id m log :
  Forall valid log -> log_run id m log = fold_left apply_op_run log (log_run id m []).
Proof. intros H. rewrite apply_log_run by done. done. Qed.

Lemma log_run_snoc id m log op :
  Forall valid log -> valid op -> log_run id m (log ++ [op]) = apply_op_run (log_run id m log) op.
Proof.
  intros Hl Ho. rewrite (log_run_fold id m (log ++ [op])) by (apply Forall_app; auto).
  by rewrite fold_left_app, <- log_run_fold.
Qed.

Lemma abs_run_insert a id id' r : abs_run (<[id := r]> a) id' = if bool_decide (id = id') then r else abs_run a id'.
Proof.
  unfold abs_run. case_bool_decide as E; [subst; by rewrite lookup_insert_eq|by rewrite lookup_insert_ne].
Qed.

Definition mem_refines (s : Store) (a : AbsStore) : Prop :=
  forall id,
    match s !! id, a !! id with
    | None, None => True
    | Some r, Some (m, log) => Forall valid log /\ r = log_run id m log
    | _, _ => False
    end.

Lemma mem_refines_get s a id : mem_refines s a ->
  Forall valid (snd (abs_run a id)) /\
  get_run s id = log_run id (fst (abs_run a id)) (snd (abs_run a id)).
Proof.
  intros H. specialize (H id). unfold get_run, abs_run.
  destruct (s !! id), (a !! id) as [[m log]|]; simpl; naive_solver.
Qed.

Lemma mem_refines_insert s a id r m log :
  mem_refines s a -> Forall valid log -> r = log_run id m log ->
  mem_refines (<[id := r]> s) (<[id := (m, log)]> a).
Proof.
  intros H Hv Hr id'. destruct (decide (id = id')) as [->|Hne].
  - by rewrite !lookup_insert_eq.
  - rewrite !lookup_insert_ne by done. apply H.
Qed.

Lemma mem_refines_append s a op :
  mem_refines s a -> valid op -> mem_refines (apply_op s op) (spec_append a op).
Proof.
  intros H Hv. destruct (mem_refines_get s a (op_RunID op) H) as [Hlog Hrun].
  unfold apply_op, spec_append. destruct (abs_run a (op_RunID op)) as [m log]. simpl in *.
  assert (Hall : Forall valid (log ++ [op])) by (apply Forall_app; auto).
  apply mem_refines_insert; [done..|].
  rewrite log_run_fold by done. by rewrite fold_left_app, <- log_run_fold, <- Hrun.
Qed.

Lemma mem_refines_fold ops s a :
  mem_refines s a -> Forall valid ops ->
  mem_refines (fold_left apply_op ops s) (fold_left spec_append ops a).
Proof.
  revert s a; induction ops as [|op ops IH]; intros s a H Hv; simpl; [done|].
  inv Hv. apply IH; auto using mem_refines_append.
Qed.

#[global, program] Instance inMemoryImplements : ImplementsSpec Store := {
  ss_refines := mem_refines
}.
Next Obligation. intros id. by rewrite !lookup_empty. Qed.
Next Obligation.
  intros s a m H. simpl. unfold Save, spec_save.
  destruct (String.eqb (rm_RunID m) ""); [done|]. simpl. split; [|done].
  destruct (mem_refines_get s a (rm_RunID m) H) as [Hlog Hrun].
  apply mem_refines_insert; [done..|]. by rewrite Hrun.
Qed.
Next Obligation.
  intros s a ops H. simpl. unfold WriteBatch, spec_write.
  destruct (validate_all ops) eqn:E; [done|]. simpl. split; [|done].
  apply mem_refines_fold; [done|]. by apply validate_all_valid.
Qed.
Next Obligation. intros s a id H. done. Qed.
Next Obligation.
  intros s a id H. specialize (H id). simpl. unfold CurrentVersion_, spec_current.
  destruct (s !! id), (a !! id) as [[m log]|]; try done. destruct H as [_ ->]. done.
Qed.
Next Obligation.
  intros s a id H. specialize (H id). simpl. unfold FullHistory_, spec_full.
  destruct (s !! id), (a !! id) as [[m log]|]; try done. destruct H as [_ ->]. done.
Qed.

(** C4. The in-memory store refines the log specification: after every history of
    [Save], [WriteBatch] and [Flush] calls it has returned the same errors and
    serves the same current version and full history as the abstract logs. *)
Theorem in_memory_store_refines_log (cs : list Call) (id : string) :
  let s := run_calls do_call NewInMemoryStateStore cs in
  let a := run_calls spec_call ∅ cs in
  snd s = snd a /\
  CurrentVersion_ (fst s) id = spec_current (fst a) id /\
  FullHistory_ (fst s) id = spec_full (fst a) id.
Proof. exact (backend_observations cs id). Qed.

(** ** Current version: the latest committed write wins *)

Definition writes_to (task field : string) (v : ValueRecord) : bool :=
  bool_decide (vr_Status v = ValueStatusCommitted) &&
  String.eqb (vr_TaskID v) task && String.eqb (vr_Field v) field.

Definition cell (m : gmap string (gmap string bytes)) (task field : string) : option bytes :=
  default ∅ (m !! task) !! field.

Lemma cell_empty task field : cell ∅ task field = None.
Proof. unfold cell. rewrite lookup_empty. apply lookup_empty. Qed.

Lemma cell_fold_value m v task field :
  cell (fold_value m v) task field =
  if writes_to task field v then Some (vr_Value v) else cell m task field.
Proof.
  unfold cell, fold_value, writes_to.
  case_bool_decide as Hc; simpl; [|done].
  destruct (String.eqb_spec (vr_TaskID v) task) as [<-|Ht]; simpl.
  - rewrite lookup_insert_eq. simpl.
    destruct (String.eqb_spec (vr_Field v) field) as [<-|Hf].
    + by rewrite lookup_insert_eq.
    + by rewrite lookup_insert_ne.
  - by rewrite lookup_insert_ne.
Qed.

Lemma cell_fold recs m task field :
  cell (fold_left fold_value recs m) task field =
  match last (List.filter (writes_to task field) recs) with
  | Some v => Some (vr_Value v)
  | None => cell m task field
  end.
Proof.
  revert m; induction recs as [|v recs IH]; intros m; simpl; [done|].
  rewrite IH, cell_fold_value. destruct (writes_to task field v) eqn:E; [|done].
  rewrite last_cons. by destruct (last (List.filter (writes_to task field) recs)).
Qed.

Lemma sorted_filter_last {A} (less : A -> A -> bool) (P : A -> bool) l x y :
  sorted less l -> StrictWeakOrder less ->
  last (List.filter P l) = Some x -> In y l -> P y = true -> less x y = false.
Proof.
  intros Hs Hswo. induction Hs as [|z l Hs IH Hall]; simpl; [done|].
  destruct (P z) eqn:Hz; intros Hlast Hin Hy.
  - destruct (List.filter P l) as [|w ws] eqn:Hf.
    + simpl in Hlast. simplify_eq. destruct Hin as [->|Hin]; [apply swo_irrefl|].
      assert (Hyf : In y (List.filter P l)) by (by apply filter_In). by rewrite Hf in Hyf.
    + rewrite last_cons_cons in Hlast. destruct Hin as [->|Hin]; [|by apply IH].
      rewrite Forall_forall in Hall. apply Hall.
      apply last_Some_elem_of in Hlast. rewrite <- Hf in Hlast.
      apply list_elem_of_In, filter_In in Hlast as [? _]. by apply list_elem_of_In.
  - destruct Hin as [->|Hin]; [congruence|]. by apply IH.
Qed.

(** The current version holds, for every task and field, the value of a
    committed write that no other committed write of that cell follows in replay
    order, and holds nothing for a cell with no committed write; pending and
    aborted writes never show. *)
Theorem current_version_latest_committed (s : Store) (id : string) (r : inMemoryRun) :
  s !! id = Some r ->
  exists cv, CurrentVersion_ s id = Some cv /\ cv_Meta cv = run_meta r /\
  forall task field,
    (cell (cv_Values cv) task field = None <->
       forall v, In v (run_values r) -> writes_to task field v = false) /\
    (forall b, cell (cv_Values cv) task field = Some b ->
       exists v, In v (run_values r) /\ writes_to task field v = true /\ vr_Value v = b /\
         forall v', In v' (run_values r) -> writes_to task field v' = true ->
           value_less v v' = false).
Proof.
  intros Hr. unfold CurrentVersion_. rewrite Hr. eexists. split; [done|]. split; [done|].
  intros task field. cbn [cv_Values]. rewrite cell_fold.
  rewrite cell_empty.
  pose proof (slice_stable_perm value_less (run_values r)) as Hperm.
  pose proof (slice_stable_sorted value_less (run_values r)) as Hsort.
  fold (SortValueRecords (run_values r)) in *.
  assert (Hin : forall v, In v (run_values r) <-> In v (SortValueRecords (run_values r))).
  { intros v. rewrite <- !list_elem_of_In. by rewrite Hperm. }
  destruct (last (List.filter (writes_to task field) (SortValueRecords (run_values r))))
    as [v|] eqn:Hl.
  - assert (Hv : In v (List.filter (writes_to task field) (SortValueRecords (run_values r)))) by
      (apply list_elem_of_In; by apply last_Some_elem_of).
    apply filter_In in Hv as [Hv1 Hv2]. split.
    + split; [done|]. intros H. apply Hin, H in Hv1. congruence.
    + intros b [= <-]. exists v. split_and!; [by apply Hin|done|done|].
      intros v' Hv' Hw. apply Hin in Hv'.
      eapply sorted_filter_last; eauto. apply value_less_swo.
  - split; [|done]. split; [|done]. intros _ v Hv. apply Hin in Hv.
    apply last_None in Hl. destruct (writes_to task field v) eqn:E; [|done].
    assert (In v (List.filter (writes_to task field) (SortValueRecords (run_values r)))) as H by
      (by apply filter_In). by rewrite Hl in H.
Qed.

(** ** Full history: everything, in replay order *)

(** The full history lists exactly the stored records, each once, by time and
    then by arrival. *)
Theorem full_history_complete_sorted (s : Store) (id : string) (r : inMemoryRun) :
  s !! id = Some r ->
  exists fh, FullHistory_ s id = Some fh /\ fh_Meta fh = run_meta r /\
    fh_Values fh ≡ₚ run_values r /\ sorted value_less (fh_Values fh) /\
    fh_History fh ≡ₚ run_history r /\ sorted history_less (fh_History fh).
Proof.
  intros Hr. unfold FullHistory_. rewrite Hr. eexists. split; [done|]. simpl.
  split_and!; try done; first [apply slice_stable_perm|apply slice_stable_sorted];
    apply _.
Qed.

(** ** Batches *)

Lemma lookup_apply_ops ops s id :
  fold_left apply_op ops s !! id =
  match List.filter (fun op => String.eqb (op_RunID op) id) ops with
  | [] => s !! id
  | log => Some (fold_left apply_op_run log (get_run s id))
  end.
Proof.
  revert s; induction ops as [|op ops IH]; intros s; simpl; [done|].
  rewrite IH. unfold apply_op at 1, get_run at 1.
  destruct (String.eqb_spec (op_RunID op) id) as [<-|Hne]; simpl.
  - destruct (List.filter _ ops) as [|op' log].
    + by rewrite lookup_insert_eq.
    + f_equal. unfold apply_op, get_run at 1. by rewrite lookup_insert_eq.
  - destruct (List.filter _ ops) as [|op' log].
    + by rewrite lookup_insert_ne.
    + unfold get_run, apply_op. by rewrite lookup_insert_ne.
Qed.

(** A batch with an invalid operation changes nothing and reports the first
    invalid one; a valid batch is the same as its parts applied in turn. *)
Theorem write_batch_atomic (s : Store) (ops more : list WriteOp) :
  (forall e, snd (WriteBatch s ops) = Some e ->
     fst (WriteBatch s ops) = s /\
     exists pre op post, ops = pre ++ op :: post /\ Forall valid pre /\
       ValidateWriteOp op = Some e) /\
  (snd (WriteBatch s ops) = None -> Forall valid ops) /\
  (snd (WriteBatch s (ops ++ more)) = None ->
     fst (WriteBatch s (ops ++ more)) = fst (WriteBatch (fst (WriteBatch s ops)) more)).
Proof.
  unfold WriteBatch. split_and!.
  - intros e. destruct (validate_all ops) as [e'|] eqn:E; [|done]. simpl. intros [= ->].
    split; [done|]. clear s more. induction ops as [|op ops IH]; simpl in E; [done|].
    destruct (ValidateWriteOp op) as [e'|] eqn:Hop.
    + simplify_eq. exists [], op, ops. auto.
    + destruct (IH E) as (pre & o & post & -> & Hpre & Ho).
      exists (op :: pre), o, post. auto.
  - rewrite <- validate_all_valid. by destruct (validate_all ops).
  - destruct (validate_all (ops ++ more)) eqn:E; [done|]. intros _.
    apply validate_all_valid, Forall_app in E as [H1%validate_all_valid H2%validate_all_valid].
    rewrite H1, H2. simpl. by rewrite fold_left_app.
Qed.

(** ** Writes are append-only and settle once *)

(** An accepted batch leaves other runs alone; in a run it touches, every record
    keeps its place and content, its status changes only from pending, the
    history grows at the end, and a record of a task that the batch does not flip
    keeps its status. *)
Theorem write_batch_append_only (s s' : Store) (ops : list WriteOp) (id : string) (r : inMemoryRun) :
  WriteBatch s ops = (s', None) -> s !! id = Some r ->
  exists r', s' !! id = Some r' /\ run_meta r' = run_meta r /\
    (exists hs, run_history r' = run_history r ++ hs) /\
    (Forall (fun op => op_RunID op <> id) ops -> r' = r) /\
    forall i v, run_values r !! i = Some v ->
      exists st, run_values r' !! i =
        Some (mkValueRecord (vr_TaskID v) (vr_ExecutionID v) (vr_Field v) (vr_Value v) st
                (vr_Timestamp v) (vr_Seq v)) /\
        (vr_Status v <> ValueStatusPending -> st = vr_Status v) /\
        (st = vr_Status v \/ st = ValueStatusCommitted \/ st = ValueStatusAborted).
Proof.
  unfold WriteBatch. destruct (validate_all ops) eqn:E; [done|]. intros [= <-] Hr.
  apply validate_all_valid in E. rewrite lookup_apply_ops. unfold get_run. rewrite Hr.
  set (log := List.filter _ ops).
  assert (Hlog : Forall valid log) by
    (apply Forall_forall; intros op Hop; apply list_elem_of_In, filter_In in Hop as [Hop _];
     rewrite Forall_forall in E; by apply E, list_elem_of_In).
  exists (fold_left apply_op_run log r). split.
  { by destruct log. }
  rewrite apply_log_run by done. simpl. split_and!; [done|by eexists| |].
  - intros Hne. assert (log = []) as ->.
    { subst log. clear E Hlog Hr. induction Hne as [|op ops Hop _ IH]; simpl; [done|].
      by destruct (String.eqb_spec (op_RunID op) id). }
    simpl. rewrite (map_ext _ (fun v => v)) by apply settle_nil. rewrite map_id, !app_nil_r. by destruct r.
  - intros i v Hv. rewrite lookup_app_l by
      (rewrite length_map; by eapply lookup_lt_Some).
    rewrite list_lookup_fmap, Hv. simpl. unfold settle.
    case_bool_decide as Hp.
    + exists (first_flip (vr_TaskID v) log). split_and!; [done|done|]. rewrite Hp.
      clear E Hr. induction Hlog as [|op l Hop _ IH]; simpl; [by left|].
      destruct (op_Kind op) eqn:Hk, (op_StatusFlip op) as [f|] eqn:Hf; try done.
      destruct (String.eqb _ _); [|done]. right. by eapply valid_flip.
    + exists (vr_Status v). destruct v; simpl in *; auto.
Qed.

(** ** Arrival numbers *)

Definition op_numbered (op : WriteOp) : bool :=
  match op_Kind op with OpValueWrite | OpHistoryEntry => true | _ => false end.

Lemma spec_seqs_above log seq :
  0 <= seq -> seq + Z.of_nat (length log) < 2 ^ 64 ->
  Forall (fun v => seq < vr_Seq v <= seq + Z.of_nat (length log)) (spec_values seq log) /\
  Forall (fun h => seq < hr_Seq h <= seq + Z.of_nat (length log)) (spec_history seq log) /\
  NoDup (map vr_Seq (spec_values seq log) ++ map hr_Seq (spec_history seq log)) /\
  StronglySorted (fun a b => vr_Seq a < vr_Seq b) (spec_values seq log).
Proof.
  revert seq; induction log as [|op log IH]; intros seq H0 Hlt; simpl.
  { split_and!; constructor. }
  rewrite length_cons in Hlt.
  assert (Hu : uint64 (seq + 1) = seq + 1) by (apply uint64_id; lia).
  destruct (IH (seq + 1)) as (IHv & IHh & IHn & IHs); [lia..|].
  destruct (IH seq) as (IHv' & IHh' & IHn' & IHs'); [lia..|].
  assert (Hv : Forall (fun v => seq + 1 < vr_Seq v <= seq + Z.of_nat (S (length log)))
    (spec_values (seq + 1) log)) by (eapply Forall_impl; [exact IHv|simpl; lia]).
  assert (Hh : Forall (fun h => seq + 1 < hr_Seq h <= seq + Z.of_nat (S (length log)))
    (spec_history (seq + 1) log)) by (eapply Forall_impl; [exact IHh|simpl; lia]).
  assert (Hfresh : seq + 1 ∉ map vr_Seq (spec_values (seq + 1) log) ++
                             map hr_Seq (spec_history (seq + 1) log)).
  { rewrite elem_of_app, !list_elem_of_fmap. rewrite !Forall_forall in *.
    intros [(v & Heq & Hin)|(h & Heq & Hin)]; [apply Hv in Hin|apply Hh in Hin]; lia. }
  assert (weaken : forall (A : Type) (f : A -> Z) l,
    Forall (fun x => seq < f x <= seq + Z.of_nat (length log)) l ->
    Forall (fun x => seq < f x <= seq + Z.of_nat (S (length log))) l) by
    (intros A f l H; eapply Forall_impl; [exact H|simpl; lia]).
  assert (weaken1 : forall (A : Type) (f : A -> Z) l,
    Forall (fun x => seq + 1 < f x <= seq + Z.of_nat (S (length log))) l ->
    Forall (fun x => seq < f x <= seq + Z.of_nat (S (length log))) l) by
    (intros A f l H; eapply Forall_impl; [exact H|simpl; lia]).
  destruct (op_Kind op), (op_ValueWrite op), (op_HistoryEntry op); rewrite ?Hu; simpl;
    split_and!; auto.
  all: first [constructor; simpl; [lia|by auto] | idtac].
  all: try (constructor; [done|]; eapply Forall_impl; [exact Hv|simpl; lia]).
  all: try (by constructor).
  all: rewrite <- Permutation_middle; by constructor.
Qed.

(** The operations submitted in a history. *)
Fixpoint total_ops (cs : list Call) : nat :=
  match cs with
  | [] => 0
  | CallWriteBatch ops :: cs' => length ops + total_ops cs'
  | _ :: cs' => total_ops cs'
  end.

Lemma spec_append_log ops a id :
  (length (snd (abs_run (fold_left spec_append ops a) id)) <=
   length (snd (abs_run a id)) + length ops)%nat.
Proof.
  revert a; induction ops as [|op ops IH]; intros a; simpl; [lia|].
  etransitivity; [apply IH|]. unfold spec_append, abs_run.
  destruct (default (None, []) (a !! op_RunID op)) as [m log] eqn:E.
  destruct (decide (op_RunID op = id)) as [<-|Hne].
  - rewrite lookup_insert_eq, E. simpl. rewrite length_app. simpl. lia.
  - rewrite lookup_insert_ne by done. lia.
Qed.

Lemma spec_call_log c a id :
  (length (snd (abs_run (fst (spec_call a c)) id)) <=
   length (snd (abs_run a id)) + match c with CallWriteBatch ops => length ops | _ => 0 end)%nat.
Proof.
  destruct c as [m|ops|rid]; simpl.
  - unfold spec_save. destruct (String.eqb (rm_RunID m) ""); simpl; [lia|].
    unfold abs_run. destruct (decide (rm_RunID m = id)) as [<-|Hne].
    + rewrite lookup_insert_eq. simpl. lia.
    + rewrite lookup_insert_ne by done. lia.
  - unfold spec_write. destruct (validate_all ops); simpl; [lia|]. apply spec_append_log.
  - lia.
Qed.

Lemma run_calls_log cs a id :
  (length (snd (abs_run (fst (run_calls spec_call a cs)) id)) <=
   length (snd (abs_run a id)) + total_ops cs)%nat.
Proof.
  revert a; induction cs as [|c cs IH]; intros a; simpl; [lia|].
  pose proof (spec_call_log c a id) as Hc.
  destruct (spec_call a c) as [a' e]. simpl in Hc. specialize (IH a').
  destruct (run_calls spec_call a' cs) as [a'' es]. simpl in *. destruct c; lia.
Qed.

(** Arrival numbers identify records: after any history of fewer than 2^64
    operations, no two records of a run, values and history entries together,
    share a number, and the value records are numbered in the order they were
    stored. *)
Theorem arrival_numbers_unique (cs : list Call) (id : string) (r : inMemoryRun) :
  Z.of_nat (total_ops cs) < 2 ^ 64 ->
  fst (run_calls do_call NewInMemoryStateStore cs) !! id = Some r ->
  NoDup (map vr_Seq (run_values r) ++ map hr_Seq (run_history r)) /\
  StronglySorted (fun a b => vr_Seq a < vr_Seq b) (run_values r).
Proof.
  intros Hlt Hr.
  pose proof (proj1 (run_calls_refines (St := Store) cs ss_new ∅ ss_refines_new)) as Href.
  pose proof (run_calls_log cs ∅ id) as Hlen.
  specialize (Href id). simpl in Href. rewrite Hr in Href.
  unfold abs_run in Hlen. rewrite lookup_empty in Hlen.
  destruct (fst (run_calls spec_call ∅ cs) !! id) as [[m log]|]; [|done].
  destruct Href as [_ ->]. simpl in *.
  destruct (spec_seqs_above log 0) as (_ & _ & ? & ?); [lia..|]. done.
Qed.

(** A flip settles its task: afterwards the run has no pending record of the
    task, the records that were pending have the new status, and all others are
    as before. *)
Theorem status_flip_settles (s s' : Store) (op : WriteOp) (f : StatusFlip) (r : inMemoryRun) :
  op_Kind op = OpStatusFlip -> op_StatusFlip op = Some f ->
  WriteBatch s [op] = (s', None) -> s !! op_RunID op = Some r ->
  exists r', s' !! op_RunID op = Some r' /\ length (run_values r') = length (run_values r) /\
  forall i v, run_values r !! i = Some v ->
    exists v', run_values r' !! i = Some v' /\
      (vr_TaskID v' = sf_TaskID f -> vr_Status v' <> ValueStatusPending) /\
      (vr_TaskID v = sf_TaskID f -> vr_Status v = ValueStatusPending ->
         vr_Status v' = sf_NewStatus f) /\
      (vr_TaskID v <> sf_TaskID f \/ vr_Status v <> ValueStatusPending -> v' = v).
Proof.
  intros Hk Hf. unfold WriteBatch. simpl.
  destruct (ValidateWriteOp op) eqn:Hv; [done|]. intros [= <-] Hr.
  pose proof (valid_flip op f Hv Hk Hf) as Hst.
  unfold apply_op, get_run. rewrite Hr, lookup_insert_eq. eexists. split; [done|].
  unfold apply_op_run. rewrite Hk, Hf. simpl. split; [by rewrite length_map|].
  intros i v Hi. exists (flip_record f v). split; [by rewrite list_lookup_fmap, Hi|].
  unfold flip_record. destruct (String.eqb_spec (vr_TaskID v) (sf_TaskID f)) as [Ht|Ht]; simpl;
    [|tauto].
  case_bool_decide as Hp; simpl; [|tauto]. split_and!; try done; [|tauto].
  intros _. destruct Hst as [->| ->]; done.
Qed.

(** Status names round-trip through their text form. *)
Theorem value_status_roundtrip (st : ValueStatus) :
  (forall n, st <> ValueStatusOther n) ->
  ParseValueStatus (ValueStatus_String st) = Ok st.
Proof. intros H. destruct st as [| | |n]; try done. by destruct (H n). Qed.

(** ** Witnesses *)

Definition t1 : Time := goDate 2024 5 1 12 0 0 0 UTC.
Definition t2 : Time := goDate 2024 5 1 13 0 0 0 UTC.
Definition write (field : string) (t : Time) : WriteOp :=
  mkWriteOp "run" OpValueWrite (Some (mkValueWrite "screen" "e1" field [Byte.x31] t)) None None.
Definition commit : WriteOp :=
  mkWriteOp "run" OpStatusFlip None (Some (mkStatusFlip "screen" ValueStatusCommitted t2)) None.
Definition run_of (ops : list WriteOp) : inMemoryRun :=
  fold_left apply_op_run ops (mkRun (emptyMeta "run") false [] [] 0).
Definition store_of (ops : list WriteOp) : Store := {["run" := run_of ops]}.

Lemma current_version_latest_committed_witness :
  exists cv, CurrentVersion_ (store_of [write "Score" t1; commit]) "run" = Some cv /\
    cv_Meta cv = emptyMeta "run".
Proof.
  destruct (current_version_latest_committed (store_of [write "Score" t1; commit]) "run"
    (run_of [write "Score" t1; commit]) ltac:(vm_compute; reflexivity)) as (cv & H & Hm & _).
  exists cv. split; [exact H|rewrite Hm; vm_compute; reflexivity].
Defined.

Lemma full_history_complete_sorted_witness :
  exists fh, FullHistory_ (store_of [write "A" t2; write "B" t1]) "run" = Some fh /\
    fh_Values fh ≡ₚ run_values (run_of [write "A" t2; write "B" t1]).
Proof.
  destruct (full_history_complete_sorted (store_of [write "A" t2; write "B" t1]) "run"
    (run_of [write "A" t2; write "B" t1]) ltac:(vm_compute; reflexivity))
    as (fh & H & _ & Hp & _).
  exists fh. auto.
Defined.

Lemma write_batch_atomic_witness :
  fst (WriteBatch ∅ [write "Score" t1; write "" t1]) = ∅.
Proof.
  apply (proj1 (write_batch_atomic ∅ [write "Score" t1; write "" t1] []) _ eq_refl).
Defined.

Lemma write_batch_append_only_witness :
  exists r', store_of [write "A" t1; write "B" t2] !! "run"%string = Some r' /\
    run_meta r' = emptyMeta "run".
Proof.
  destruct (write_batch_append_only (store_of [write "A" t1])
    (fst (WriteBatch (store_of [write "A" t1]) [write "B" t2])) [write "B" t2] "run"
    (run_of [write "A" t1])) as (r' & Hr & Hm & _);
    [vm_compute; reflexivity|vm_compute; reflexivity|].
  exists r'. split; [rewrite <- Hr; vm_compute; reflexivity|exact Hm].
Defined.

Lemma arrival_numbers_unique_witness :
  NoDup (map vr_Seq (run_values (run_of [write "A" t1; write "B" t2])) ++ []).
Proof.
  apply (arrival_numbers_unique [CallWriteBatch [write "A" t1; write "B" t2]] "run"
    (run_of [write "A" t1; write "B" t2])); [simpl; lia|vm_compute; reflexivity].
Defined.

Lemma status_flip_settles_witness :
  exists r', store_of [write "A" t1; commit] !! "run"%string = Some r' /\
    length (run_values r') = 1%nat.
Proof.
  destruct (status_flip_settles (store_of [write "A" t1])
    (fst (WriteBatch (store_of [write "A" t1]) [commit])) commit
    (mkStatusFlip "screen" ValueStatusCommitted t2) (run_of [write "A" t1]))
    as (r' & Hr & Hl & _); [reflexivity|reflexivity|vm_compute; reflexivity|vm_compute; reflexivity|].
  exists r'. split; [rewrite <- Hr; vm_compute; reflexivity|exact Hl].
Defined.

Lemma value_status_roundtrip_witness :
  ParseValueStatus (ValueStatus_String ValueStatusAborted) = Ok ValueStatusAborted.
Proof. apply value_status_roundtrip. intros n. discriminate. Defined.
