(* ===== verification/Schema.v ===== *)
(** * Schemas and data contracts

    Models [core/schema.go] (schema construction and validation) and
    [core/data_contract.go] (input and output contracts over host variables). *)

From S2P Require Import Prelude Decimal GoTime Values.
#[global] Open Scope Z_scope.

(** ** Schemas ([schema.go]) *)

(** A field's declared type: a Go [int], which may name no type. *)
Inductive FieldType : Type := FT (t : Ty) | FTUnknown (n : Z).

(** [Field]; a [BlSchema] is a list of fields. *)
Inductive Field : Type := mkField {
  f_Name : string;
  f_Type : FieldType;
  f_Optional : bool;
  f_Fields : list Field;
  f_Element : list FieldType
}.

Abbreviation BlSchema := (list Field).

(** [joinPath] *)
Definition joinPath (parent child : string) : string :=
  if String.eqb parent "" then child else parent +:+ "." +:+ child.

(** [path[i]] for a list element or table row, counted from 1. *)
Definition indexPath (path : string) (i : nat) : string :=
  path +:+ "[" +:+ pretty (Z.of_nat i + 1) +:+ "]".

(** The loop over the [Element] types of a list field. *)
Fixpoint check_elements (fp : string) (seen : list Ty) (ets : list FieldType) : option GoError :=
  match ets with
  | [] => None
  | et :: ets' =>
      match et with
      | FTUnknown _ | FT TypeNull => Some (SchemaError fp "invalid Element type")
      | FT t =>
          if bool_decide (t ∈ seen) then Some (SchemaError fp "duplicate Element type")
          else check_elements fp (t :: seen) ets'
      end
  end.

(** The loop of [validateWellFormed], given the checks on one named field. *)
Definition wf_fields_with (wf : Field -> string -> option GoError) (path : string) :=
  fix go (seen : list string) (fs : list Field) {struct fs} : option GoError :=
    match fs with
    | [] => None
    | f :: fs' =>
        if String.eqb (f_Name f) "" then Some (SchemaError path "empty field name")
        else if bool_decide (f_Name f ∈ seen)
        then Some (SchemaError path ("duplicate field name " +:+ quote (f_Name f)))
        else match wf f (joinPath path (f_Name f)) with
             | Some e => Some e
             | None => go (f_Name f :: seen) fs'
             end
    end.

(** The checks of [validateWellFormed] on a field's type and nesting. *)
Fixpoint wf_field (f : Field) (fp : string) {struct f} : option GoError :=
  match f with
  | mkField _ ty _ fields element =>
      match ty with
      | FTUnknown n => Some (SchemaError fp ("unknown type " +:+ pretty n))
      | FT TypeNull => Some (SchemaError fp "TypeNull is not a declarable shape")
      | FT TypeList =>
          match element with
          | [] => Some (SchemaError fp "list field requires Element types")
          | _ =>
              match check_elements fp [] element with
              | Some e => Some e
              | None =>
                  match fields with
                  | [] => None
                  | _ => Some (SchemaError fp "list field must not declare Fields")
                  end
              end
          end
      | FT TypeDictionary | FT TypeTable =>
          match element with
          | _ :: _ => Some (SchemaError fp "record field must not declare Element")
          | [] => wf_fields_with wf_field fp [] fields
          end
      | FT _ =>
          match fields, element with
          | [], [] => None
          | _, _ => Some (SchemaError fp "scalar field must not declare nesting")
          end
      end
  end.

(** [validateWellFormed] *)
Definition validateWellFormed (s : BlSchema) (path : string) : option GoError :=
  wf_fields_with wf_field path [] s.

(** [Schema] *)
Definition Schema (fields : list Field) : result BlSchema :=
  match validateWellFormed fields "" with
  | Some e => Err e
  | None => Ok fields
  end.

Section Validation.
Context {DO : DecimalOps}.

(** The loop over the declared fields in [validate]. *)
Definition check_fields (vf : Field -> BlValue -> string -> option GoError)
    (es : list (string * BlValue)) (path : string) :=
  fix go (fs : list Field) {struct fs} : option GoError :=
    match fs with
    | [] => None
    | f :: fs' =>
        let fp := joinPath path (f_Name f) in
        match assoc (f_Name f) es with
        | Some fv =>
            if IsNull fv
            then (if f_Optional f then go fs' else Some (SchemaError fp "required field missing"))
            else match vf f fv fp with Some e => Some e | None => go fs' end
        | None => if f_Optional f then go fs' else Some (SchemaError fp "required field missing")
        end
    end.

(** The loop over the keys of a closed [validate]. *)
Fixpoint check_keys (s : BlSchema) (path : string) (keys : list string) : option GoError :=
  match keys with
  | [] => None
  | k :: keys' =>
      if bool_decide (k ∈ map f_Name s) then check_keys s path keys'
      else Some (SchemaError (joinPath path k) "undeclared key")
  end.

(** [validate] on a dictionary's entries, given [validateField]. *)
Definition validate_entries (vf : Field -> BlValue -> string -> option GoError)
    (s : BlSchema) (es : list (string * BlValue)) (path : string) (closed : bool) : option GoError :=
  match check_fields vf es path s with
  | Some e => Some e
  | None => if closed then check_keys s path (map fst es) else None
  end.

Definition validate_with (vf : Field -> BlValue -> string -> option GoError)
    (s : BlSchema) (v : BlValue) (path : string) (closed : bool) : option GoError :=
  match v with
  | BlDictionary es => validate_entries vf s es path closed
  | _ => Some (SchemaError path ("expected dictionary, got " +:+ typeName (type_of v)))
  end.

(** The loop over the elements of a list value. *)
Fixpoint check_items (allowed : list FieldType) (path : string) (i : nat) (xs : list BlValue)
  : option GoError :=
  match xs with
  | [] => None
  | x :: xs' =>
      if existsb (fun ft => match ft with FT t => Ty_eqb t (type_of x) | FTUnknown _ => false end) allowed
      then check_items allowed path (S i) xs'
      else Some (SchemaError (indexPath path i)
                   ("element type " +:+ typeName (type_of x) +:+ " not allowed"))
  end.

(** The loop over the rows of a table value. *)
Fixpoint check_rows (vrow : list (string * BlValue) -> string -> option GoError)
    (path : string) (i : nat) (rows : list (list (string * BlValue))) : option GoError :=
  match rows with
  | [] => None
  | r :: rows' =>
      match vrow r (indexPath path i) with
      | Some e => Some e
      | None => check_rows vrow path (S i) rows'
      end
  end.

(** [validateField] *)
Fixpoint validateField (closed : bool) (f : Field) (v : BlValue) (path : string) {struct f}
  : option GoError :=
  match f with
  | mkField _ ty _ fields element =>
      match ty with
      | FT TypeAny => if IsNull v then Some (SchemaError path "required field is null") else None
      | FT TypeList =>
          match v with
          | BlList items => check_items element path 0 items
          | _ => Some (SchemaError path ("expected list, got " +:+ typeName (type_of v)))
          end
      | FT TypeDictionary => validate_with (validateField closed) fields v path closed
      | FT TypeTable =>
          match v with
          | BlTable _ rows =>
              check_rows (fun r p => validate_entries (validateField closed) fields r p closed)
                path 0 rows
          | _ => Some (SchemaError path ("expected table, got " +:+ typeName (type_of v)))
          end
      | FT t =>
          if Ty_eqb (type_of v) t then None
          else Some (SchemaError path
                 ("expected " +:+ typeName t +:+ ", got " +:+ typeName (type_of v)))
      | FTUnknown _ =>
          Some (SchemaError path ("expected unknown, got " +:+ typeName (type_of v)))
      end
  end.

(** [validate], [ValidateInput], [ValidateOutput] *)
Definition validate (s : BlSchema) (v : BlValue) (path : string) (closed : bool) : option GoError :=
  validate_with (validateField closed) s v path closed.
Definition ValidateInput (s : BlSchema) (v : BlValue) : option GoError := validate s v "" true.
Definition ValidateOutput (s : BlSchema) (v : BlValue) : option GoError := validate s v "" false.

(** ** Contracts ([data_contract.go]) *)

(** [InputContract] and [OutputContract] wrap a schema. *)
Record InputContract : Type := mkInputContract { ic_Fields : BlSchema }.
Record OutputContract : Type := mkOutputContract { oc_Fields : BlSchema }.

(** [NewInputContract], [NewOutputContract] *)
Definition NewInputContract (fields : list Field) : result InputContract :=
  let! s := Schema fields in Ok (mkInputContract s).
Definition NewOutputContract (fields : list Field) : result OutputContract :=
  let! s := Schema fields in Ok (mkOutputContract s).

(** [RequiredField], [OptionalField] *)
Definition RequiredField (name : string) (t : Ty) : Field := mkField name (FT t) false [] [].
Definition OptionalField (name : string) (t : Ty) : Field := mkField name (FT t) true [] [].

(** The conversion of an error into a [DataContractValidationError]. *)
Definition contract_error (e : GoError) : GoError :=
  match e with
  | SchemaError path detail => DataContractValidationError path detail
  | _ => DataContractValidationError "" (error_text e)
  end.

(** [validateContract]; a nil map is the empty one. *)
Definition validateContract (s : BlSchema) (vars : list (string * HostValue)) (closed : bool)
  : option GoError :=
  match wrap (HMap vars) with
  | Err e => Some (contract_error e)
  | Ok v =>
      match (if closed then ValidateInput s v else ValidateOutput s v) with
      | Some e => Some (contract_error e)
      | None => None
      end
  end.

Definition InputContract_Validate (c : InputContract) (input : list (string * HostValue)) : option GoError :=
  validateContract (ic_Fields c) input true.
Definition OutputContract_Validate (c : OutputContract) (output : list (string * HostValue)) : option GoError :=
  validateContract (oc_Fields c) output false.

End Validation.

(** ** Induction over nested fields *)

Section FieldInd.
Variable P : Field -> Prop.
Hypothesis P_field : forall n ty o fs el, Forall P fs -> P (mkField n ty o fs el).

Fixpoint Field_nested_ind (f : Field) : P f :=
  let fix on_list (l : list Field) : Forall P l :=
    match l with
    | [] => Forall_nil_2 P
    | x :: l' => Forall_cons_2 P x l' (Field_nested_ind x) (on_list l')
    end in
  match f with mkField n ty o fs el => P_field n ty o fs el (on_list fs) end.

End FieldInd.

Section SchemaLaws.
Context {DO : DecimalOps}.

(** ** What a schema promises about a value *)

Definition plain_type (t : Ty) : Prop :=
  t <> TypeAny /\ t <> TypeList /\ t <> TypeDictionary /\ t <> TypeTable.

(** [conforms closed f v]: the present, non-null value [v] has the shape of
    field [f]; [record_conforms] is the same of a record's entries, where an
    optional field may be absent or null, and [closed] forbids undeclared keys. *)
Inductive conforms (closed : bool) : Field -> BlValue -> Prop :=
| conforms_any n o fs el v :
    IsNull v = false -> conforms closed (mkField n (FT TypeAny) o fs el) v
| conforms_list n o fs el items :
    Forall (fun x => FT (type_of x) ∈ el) items ->
    conforms closed (mkField n (FT TypeList) o fs el) (BlList items)
| conforms_dict n o fs el es :
    Forall (fun f => entry_conforms closed f (assoc (f_Name f) es)) fs ->
    (closed = true -> forall k, k ∈ map fst es -> k ∈ map f_Name fs) ->
    conforms closed (mkField n (FT TypeDictionary) o fs el) (BlDictionary es)
| conforms_table n o fs el cs rows :
    Forall (fun es =>
      Forall (fun f => entry_conforms closed f (assoc (f_Name f) es)) fs /\
      (closed = true -> forall k, k ∈ map fst es -> k ∈ map f_Name fs)) rows ->
    conforms closed (mkField n (FT TypeTable) o fs el) (BlTable cs rows)
| conforms_plain n o fs el t v :
    plain_type t -> type_of v = t -> conforms closed (mkField n (FT t) o fs el) v
with entry_conforms (closed : bool) : Field -> option BlValue -> Prop :=
| entry_absent f : f_Optional f = true -> entry_conforms closed f None
| entry_null f v : f_Optional f = true -> IsNull v = true -> entry_conforms closed f (Some v)
| entry_present f v : IsNull v = false -> conforms closed f v -> entry_conforms closed f (Some v).

Definition record_conforms (closed : bool) (fs : list Field) (es : list (string * BlValue)) : Prop :=
  Forall (fun f => entry_conforms closed f (assoc (f_Name f) es)) fs /\
  (closed = true -> forall k, k ∈ map fst es -> k ∈ map f_Name fs).

(** No field of a structured type conforms as a plain one. *)
Ltac not_plain := by match goal with Hp : plain_type _ |- _ => destruct Hp as (? & ? & ? & ?) end.

Lemma check_keys_spec s path keys :
  check_keys s path keys = None <-> forall k, k ∈ keys -> k ∈ map f_Name s.
Proof.
  induction keys as [|k keys IH]; simpl; [set_solver|].
  case_bool_decide as Hk; [rewrite IH; set_solver|]. split; [done|set_solver].
Qed.

Lemma check_items_spec el path i items :
  check_items el path i items = None <-> Forall (fun x => FT (type_of x) ∈ el) items.
Proof.
  revert i; induction items as [|x items IH]; intros i; simpl; [by split|].
  rewrite Forall_cons.
  assert (Hx : existsb (fun ft => match ft with FT t => Ty_eqb t (type_of x) | FTUnknown _ => false end) el
               = true <-> FT (type_of x) ∈ el).
  { rewrite existsb_exists, list_elem_of_In. split.
    - intros ([t|z] & Hin & Ht); [|done]. apply Ty_eqb_eq in Ht. by subst.
    - intros Hin. exists (FT (type_of x)). split; [done|]. by apply Ty_eqb_eq. }
  destruct (existsb _ el).
  - rewrite IH. tauto.
  - split; [done|]. intros [H _]. apply Hx in H. done.
Qed.

Lemma check_rows_spec vrow path i rows (R : list (string * BlValue) -> Prop) :
  (forall r p, vrow r p = None <-> R r) ->
  check_rows vrow path i rows = None <-> Forall R rows.
Proof.
  intros HR. revert i; induction rows as [|r rows IH]; intros i; simpl; [by split|].
  rewrite Forall_cons, <- (IH (S i)), <- (HR r (indexPath path i)).
  destruct (vrow r _); [split; [done|tauto]|tauto].
Qed.

Lemma entry_conforms_Some closed f v :
  entry_conforms closed f (Some v) <->
  (if IsNull v then f_Optional f = true else conforms closed f v).
Proof.
  destruct (IsNull v) eqn:E; split.
  - intros H; inv H; congruence.
  - by constructor.
  - intros H; inv H; congruence.
  - by constructor.
Qed.

Lemma check_fields_spec closed vf es path fs :
  Forall (fun f => forall v p, vf f v p = None <-> conforms closed f v) fs ->
  check_fields vf es path fs = None <->
  Forall (fun f => entry_conforms closed f (assoc (f_Name f) es)) fs.
Proof.
  induction 1 as [|f fs Hf _ IH]; simpl; [by split|].
  rewrite Forall_cons. destruct (assoc (f_Name f) es) as [fv|].
  - rewrite entry_conforms_Some, <- IH. destruct (IsNull fv).
    + destruct (f_Optional f); [tauto|]. split; [done|]. by intros [? _].
    + rewrite <- (Hf fv (joinPath path (f_Name f))).
      destruct (vf f fv _); [split; [done|tauto]|tauto].
  - rewrite <- IH. destruct (f_Optional f) eqn:Ho.
    + split; [|tauto]. intros ?. split; [by constructor|done].
    + split; [done|]. intros [H _]. inv H. congruence.
Qed.

Lemma validate_entries_spec closed vf fs es path :
  Forall (fun f => forall v p, vf f v p = None <-> conforms closed f v) fs ->
  validate_entries vf fs es path closed = None <-> record_conforms closed fs es.
Proof.
  intros Hvf. unfold validate_entries, record_conforms.
  rewrite <- (check_fields_spec closed vf es path fs Hvf).
  destruct (check_fields vf es path fs); [split; [done|by intros [? _]]|].
  destruct closed; [rewrite check_keys_spec; naive_solver|naive_solver].
Qed.

Lemma validateField_spec closed f v path :
  validateField closed f v path = None <-> conforms closed f v.
Proof.
  revert v path. induction f as [n ty o fs el IH] using Field_nested_ind; intros v path.
  assert (Hrec : forall es p,
    validate_entries (validateField closed) fs es p closed = None <-> record_conforms closed fs es)
    by (intros; by apply validate_entries_spec).
  destruct ty as [t|z]; [|split; [done|intros H; by inv H]].
  assert (Hplain : forall q, plain_type q -> t = q ->
    (if Ty_eqb (type_of v) t then None
     else Some (SchemaError path ("expected " +:+ typeName t +:+ ", got " +:+ typeName (type_of v))))
    = None <-> conforms closed (mkField n (FT t) o fs el) v).
  { intros q Hp <-. destruct (Ty_eqb (type_of v) t) eqn:E.
    - apply Ty_eqb_eq in E. split; [|done]. intros _. by constructor.
    - split; [done|]. intros H.
      assert (type_of v = t) as Ht
        by (destruct Hp as (? & ? & ? & ?); inv H; done).
      apply Ty_eqb_eq in Ht. congruence. }
  destruct t; try (eapply Hplain; [|reflexivity]; repeat split; discriminate); simpl.
  - destruct v; try (split; [done|intros H; inv H; not_plain]).
    rewrite check_items_spec. split; [by constructor|]. intros H; inv H; [done|].
    not_plain.
  - destruct v; try (split; [done|intros H; inv H; not_plain]).
    simpl. rewrite Hrec. split; [intros []; by constructor|]. intros H; inv H; [by split|].
    not_plain.
  - destruct v; try (split; [done|intros H; inv H; not_plain]).
    rewrite (check_rows_spec _ path 0 _ (record_conforms closed fs)) by (intros; apply Hrec).
    split; [by constructor|]. intros H; inv H; [done|].
    not_plain.
  - destruct (IsNull v) eqn:E; split; try done.
    + intros H; inv H; [congruence|not_plain].
    + intros _. by constructor.
Qed.

Lemma validate_spec s es path closed :
  validate s (BlDictionary es) path closed = None <-> record_conforms closed s es.
Proof.
  apply validate_entries_spec, Forall_true. intros f v p. apply validateField_spec.
Qed.

(** A value that conforms to the closed reading conforms to the open one. *)
Lemma conforms_open f v : conforms true f v -> conforms false f v.
Proof.
  revert v. induction f as [n ty o fs el IH] using Field_nested_ind; intros v H.
  rewrite Forall_forall in IH.
  assert (Hes : forall es,
    Forall (fun f => entry_conforms true f (assoc (f_Name f) es)) fs ->
    Forall (fun f => entry_conforms false f (assoc (f_Name f) es)) fs).
  { intros es. rewrite !Forall_forall. intros Hall f Hf. specialize (Hall f Hf).
    inversion Hall; subst;
      [by apply entry_absent|by apply entry_null|apply entry_present; auto]. }
  inversion H; subst.
  - by apply conforms_any.
  - by apply conforms_list.
  - apply conforms_dict; [auto|done].
  - apply conforms_table. eapply Forall_impl; [eassumption|].
    intros es [? _]. split; [auto|done].
  - by apply conforms_plain.
Qed.

Lemma record_conforms_open fs es : record_conforms true fs es -> record_conforms false fs es.
Proof.
  intros [H _]. split; [|done]. eapply Forall_impl; [exact H|].
  intros f Hf. inversion Hf; subst;
    [by apply entry_absent|by apply entry_null|apply entry_present; auto using conforms_open].
Qed.

(** Only what a key looks up and which keys there are matter to a record. *)
Lemma record_conforms_ext closed fs es es' :
  (forall k, assoc k es = assoc k es') ->
  (forall k, k ∈ map fst es' -> k ∈ map fst es) ->
  record_conforms closed fs es -> record_conforms closed fs es'.
Proof.
  intros Ha Hk [H Hc]. split; [|by auto].
  eapply Forall_impl; [exact H|]. intros f. simpl. by rewrite Ha.
Qed.

(** ** Well-formedness *)

(** What [validateWellFormed] promises of a declared field. *)
Inductive well_formed : Field -> Prop :=
| wf_list n o el :
    el <> [] -> NoDup el -> Forall (fun e => exists t, e = FT t /\ t <> TypeNull) el ->
    well_formed (mkField n (FT TypeList) o [] el)
| wf_record n o t fs :
    t = TypeDictionary \/ t = TypeTable ->
    NoDup (map f_Name fs) -> (forall f, f ∈ fs -> f_Name f <> ""%string /\ well_formed f) ->
    well_formed (mkField n (FT t) o fs [])
| wf_scalar n o t :
    t <> TypeNull -> t <> TypeList -> t <> TypeDictionary -> t <> TypeTable ->
    well_formed (mkField n (FT t) o [] []).

Definition well_formed_schema (s : BlSchema) : Prop :=
  NoDup (map f_Name s) /\ (forall f, f ∈ s -> f_Name f <> ""%string /\ well_formed f).

Lemma check_elements_spec fp seen el :
  check_elements fp seen el = None <->
  NoDup el /\ Forall (fun e => exists t, e = FT t /\ t <> TypeNull /\ t ∉ seen) el.
Proof.
  revert seen; induction el as [|e el IH]; intros seen; simpl.
  { split; [intros _; split; constructor|done]. }
  rewrite NoDup_cons, Forall_cons.
  assert (Hgo : forall t, e = FT t -> t <> TypeNull ->
    (if bool_decide (t ∈ seen) then Some (SchemaError fp "duplicate Element type")
     else check_elements fp (t :: seen) el) = None <->
    (e ∉ el /\ NoDup el) /\ (exists t, e = FT t /\ t <> TypeNull /\ t ∉ seen) /\
    Forall (fun e => exists t, e = FT t /\ t <> TypeNull /\ t ∉ seen) el).
  { intros t -> Ht. case_bool_decide as Hs.
    - split; [done|]. intros (_ & (t' & [= <-] & _ & ?) & _). done.
    - rewrite IH, !Forall_forall. split.
      + intros [Hnd Hall]. repeat split; try done.
        * intros Hin. destruct (Hall _ Hin) as (? & [= <-] & _ & Hn). set_solver.
        * eauto.
        * intros x Hx. destruct (Hall _ Hx) as (t' & ? & ? & ?). exists t'. set_solver.
      + intros ((Hne & Hnd) & _ & Hall). split; [done|]. intros x Hx.
        destruct (Hall _ Hx) as (t' & -> & ? & ?). exists t'. split; [done|]. split; [done|].
        intros Hin. apply elem_of_cons in Hin as [->|?]; done. }
  destruct e as [t|z].
  - destruct t; try (by apply Hgo). split; [done|]. intros (_ & (t & [= <-] & ? & _) & _). done.
  - split; [done|]. by intros (_ & (t & ? & _) & _).
Qed.

Lemma wf_fields_spec wf path seen fs (R : Field -> Prop) :
  Forall (fun f => forall p, wf f p = None <-> R f) fs ->
  wf_fields_with wf path seen fs = None <->
  NoDup (map f_Name fs) /\
  forall f, f ∈ fs -> (f_Name f <> ""%string /\ R f) /\ f_Name f ∉ seen.
Proof.
  intros HR. revert seen. induction HR as [|f fs Hf _ IH]; intros seen; simpl.
  { split; [intros _; split; [constructor|set_solver]|done]. }
  rewrite NoDup_cons. destruct (String.eqb_spec (f_Name f) "") as [He|He].
  { split; [done|]. intros [_ H]. destruct (H f) as [[? _] _]; set_solver. }
  case_bool_decide as Hs.
  { split; [done|]. intros [_ H]. destruct (H f) as [_ ?]; set_solver. }
  specialize (Hf (joinPath path (f_Name f))). destruct (wf f _) as [e|].
  { split; [done|]. intros [_ H]. destruct (H f) as [[_ HRf] _]; [set_solver|].
    by apply Hf in HRf. }
  rewrite IH. split.
  - intros [Hnd Hall]. split; [split; [|done]|].
    + rewrite list_elem_of_fmap. intros (g & Heq & Hg). destruct (Hall g Hg) as [_ Hn].
      rewrite <- Heq in Hn. set_solver.
    + intros g Hg. apply elem_of_cons in Hg as [->|Hg]; [naive_solver|].
      destruct (Hall g Hg) as [? ?]. split; [done|]. set_solver.
  - intros [[Hn Hnd] Hall]. split; [done|]. intros g Hg.
    destruct (Hall g) as [? ?]; [set_solver|]. split; [done|].
    rewrite elem_of_cons. intros [Heq|?]; [|done].
    apply Hn. rewrite <- Heq. by apply list_elem_of_fmap_2.
Qed.

Lemma wf_field_spec f p : wf_field f p = None <-> well_formed f.
Proof.
  revert p. induction f as [n ty o fs el IH] using Field_nested_ind; intros p.
  destruct ty as [t|z]; [|split; [done|intros H; inversion H]].
  assert (Hrec : t = TypeDictionary \/ t = TypeTable ->
    match el with
    | _ :: _ => Some (SchemaError p "record field must not declare Element")
    | [] => wf_fields_with wf_field p [] fs
    end = None <-> well_formed (mkField n (FT t) o fs el)).
  { intros Ht. destruct el as [|e el].
    - rewrite (wf_fields_spec wf_field p [] fs well_formed IH). split.
      + intros [Hnd Hall]. apply wf_record; [done|done|]. intros f Hf. by apply Hall.
      + intros H. inversion H; subst; [by destruct Ht| |by destruct Ht].
        split; [done|]. intros f Hf. split; [auto|set_solver].
    - split; [done|]. intros H. inversion H; subst. by destruct Ht. }
  assert (Hsc : t <> TypeNull -> t <> TypeList -> t <> TypeDictionary -> t <> TypeTable ->
    match fs, el with [], [] => None | _, _ => Some (SchemaError p "scalar field must not declare nesting") end
    = None <-> well_formed (mkField n (FT t) o fs el)).
  { intros ????. split.
    - destruct fs, el; try done. intros _. by apply wf_scalar.
    - intros Hw. inversion Hw; subst; [done|naive_solver|done]. }
  destruct t; try (by apply Hsc); try (apply Hrec; tauto); simpl.
  - split; [done|]. intros H. inversion H; naive_solver.
  - split.
    + destruct el as [|e el]; [done|].
      destruct (check_elements p [] (e :: el)) eqn:Hc; [done|]. destruct fs; [|done]. intros _.
      apply check_elements_spec in Hc as [Hnd Hall]. apply wf_list; [done|done|].
      eapply Forall_impl; [exact Hall|]. naive_solver.
    + intros H. inversion H; subst; [|naive_solver|done].
      destruct el as [|e el]; [done|]. cut (check_elements p [] (e :: el) = None); [by intros ->|].
      apply check_elements_spec. split; [done|].
      eapply Forall_impl; [eassumption|]. intros x (t & ? & ?). exists t. set_solver.
Qed.

(** ** Wrapping a host map *)

Lemma assoc_dict_set es k v k' :
  assoc k' (dict_set es k v) = if String.eqb k k' then Some v else assoc k' es.
Proof.
  unfold assoc. induction es as [|[k1 v1] es IH]; simpl.
  - by destruct (String.eqb k k').
  - destruct (String.eqb_spec k1 k) as [->|Hne]; simpl.
    + by destruct (String.eqb_spec k k').
    + destruct (String.eqb_spec k1 k') as [->|?]; simpl; [|exact IH].
      destruct (String.eqb_spec k k'); congruence.
Qed.

(** The loop of [wrap] over the entries of a map. *)
Fixpoint wrap_map (kvs : list (string * HostValue)) (d : list (string * BlValue))
  : result (list (string * BlValue)) :=
  match kvs with
  | [] => Ok d
  | (k, e) :: kvs' => let! w := wrap e in wrap_map kvs' (dict_set d k w)
  end.

Lemma wrap_HMap kvs : wrap (HMap kvs) = let! d := wrap_map kvs [] in Ok (BlDictionary d).
Proof. reflexivity. Qed.

Definition wraps_to (h : HostValue) (v : BlValue) : Prop := wrap h = Ok v.

Lemma wrap_map_spec kvs d d' :
  List.NoDup (map fst kvs) -> wrap_map kvs d = Ok d' ->
  (forall k h, In (k, h) kvs -> exists v, wraps_to h v /\ assoc k d' = Some v) /\
  (forall k, ~ In k (map fst kvs) -> assoc k d' = assoc k d).
Proof.
  revert d; induction kvs as [|[k h] kvs IH]; intros d Hnd Hw; simpl in *.
  { inv Hw. split; [done|done]. }
  inversion Hnd as [|? ? Hk Hnd']; subst.
  destruct (wrap h) as [w|] eqn:Ew; [|done]. simpl in Hw.
  destruct (IH _ Hnd' Hw) as [H1 H2]. split.
  - intros k' h' [[= <- <-]|Hin]; [|by apply H1]. exists w. split; [done|].
    by rewrite (H2 k Hk), assoc_dict_set, String.eqb_refl.
  - intros k' Hk'. rewrite H2 by tauto. rewrite assoc_dict_set.
    destruct (String.eqb_spec k k'); [tauto|done].
Qed.

Lemma wrap_map_ok kvs d :
  (exists d', wrap_map kvs d = Ok d') <-> (forall k h, In (k, h) kvs -> exists v, wraps_to h v).
Proof.
  revert d; induction kvs as [|[k h] kvs IH]; intros d; simpl.
  { split; [done|eauto]. }
  destruct (wrap h) as [w|e] eqn:Ew; simpl.
  - rewrite IH. split; intros H k' h'; [intros [[= <- <-]|?]; [by exists w|eauto]|eauto].
  - split; [by intros [? ?]|]. intros H. destruct (H k h) as [v Hv]; [by left|].
    unfold wraps_to in Hv. congruence.
Qed.

Lemma wrap_map_perm kvs kvs' d :
  List.NoDup (map fst kvs) -> kvs ≡ₚ kvs' -> wrap_map kvs [] = Ok d ->
  exists d', wrap_map kvs' [] = Ok d' /\ forall k, assoc k d = assoc k d'.
Proof.
  intros Hnd Hp Hw.
  assert (Hnd' : List.NoDup (map fst kvs')) by (by rewrite <- Hp).
  assert (Hok : exists d', wrap_map kvs' [] = Ok d').
  { apply wrap_map_ok. intros k h Hin. rewrite <- Hp in Hin.
    assert (Hex : exists d, wrap_map kvs [] = Ok d) by eauto.
    rewrite wrap_map_ok in Hex. eauto. }
  destruct Hok as [d' Hw']. exists d'. split; [done|]. intros k.
  destruct (wrap_map_spec _ _ _ Hnd Hw) as [H1 H2].
  destruct (wrap_map_spec _ _ _ Hnd' Hw') as [H1' H2'].
  destruct (in_dec String.string_dec k (map fst kvs)) as [Hin|Hin].
  - apply in_map_iff in Hin as ([k0 h] & <- & Hin). simpl.
    destruct (H1 _ _ Hin) as (v & Hv & ->). rewrite Hp in Hin.
    destruct (H1' _ _ Hin) as (v' & Hv' & ->). unfold wraps_to in *. congruence.
  - rewrite (H2 k Hin). rewrite Hp in Hin. by rewrite (H2' k Hin).
Qed.

Lemma assoc_keys {V} k (es : list (string * V)) :
  k ∈ map fst es <-> assoc k es <> None.
Proof.
  rewrite list_elem_of_In. destruct (assoc k es) eqn:E.
  - split; [done|]. intros _. by eapply assoc_In_fst.
  - apply assoc_None in E. split; [done|]. by intros [].
Qed.

Lemma validateContract_accepts s kvs closed :
  validateContract s kvs closed = None <->
  exists d, wrap_map kvs [] = Ok d /\ record_conforms closed s d.
Proof.
  unfold validateContract, ValidateInput, ValidateOutput. rewrite wrap_HMap.
  destruct (wrap_map kvs []) as [d|e] eqn:E; simpl.
  - pose proof (validate_spec s d "" closed) as Hs. destruct closed; simpl in *;
      match goal with |- context [validate_entries ?vf ?s ?d ?p ?c] =>
        destruct (validate_entries vf s d p c) end; split; try done.
    all: try (intros (? & [= <-] & H); by apply Hs in H).
    all: intros _; exists d; split; [done|]; by apply Hs.
  - split; [done|]. by intros (? & ? & _).
Qed.

(** ** Claims *)

(** C9. Validation accepts exactly the values that conform to the schema: a
    dictionary in which every required field is present and of its declared
    shape, recursively through dictionaries and table rows, list elements are of
    a declared element type, and, for input, no undeclared key occurs at any
    depth.  A value that is not a dictionary is rejected. *)
Theorem validate_iff_conforms (s : BlSchema) (v : BlValue) :
  (ValidateInput s v = None <-> exists es, v = BlDictionary es /\ record_conforms true s es) /\
  (ValidateOutput s v = None <-> exists es, v = BlDictionary es /\ record_conforms false s es).
Proof.
  unfold ValidateInput, ValidateOutput.
  destruct v; try (split; (split; [done|by intros (? & ? & _)])).
  rewrite !validate_spec. naive_solver.
Qed.

(** [Schema] accepts exactly the well-formed declarations: at every level the
    field names are non-empty and distinct, list fields carry distinct known
    element types and no nesting, record fields carry nested fields only, and
    scalar fields carry neither. *)
Theorem schema_accepts_well_formed (fields : list Field) :
  Schema fields = Ok fields <-> well_formed_schema fields.
Proof.
  unfold Schema, validateWellFormed, well_formed_schema.
  pose proof (wf_fields_spec wf_field "" [] fields well_formed
    ltac:(apply Forall_true; intros f p; apply wf_field_spec)) as Hs.
  destruct (wf_fields_with wf_field "" [] fields); split; try done.
  - intros [Hnd Hall]. enough (Some g = None) by done. apply Hs.
    split; [done|]. intros f Hf. split; [auto|set_solver].
  - intros _. destruct Hs as [Hs _]. destruct (Hs eq_refl) as [? Hall].
    split; [done|]. intros f Hf. by apply Hall.
Qed.

(** The order in which Go visits the entries of the variable map does not
    affect whether a contract accepts it, and a map the closed (input) reading
    of a contract accepts is accepted by the open (output) reading. *)
Theorem contract_acceptance_order_free
    (s : BlSchema) (vars vars' : list (string * HostValue)) (closed : bool) :
  List.NoDup (map fst vars) -> vars ≡ₚ vars' ->
  (validateContract s vars closed = None <-> validateContract s vars' closed = None) /\
  (InputContract_Validate (mkInputContract s) vars = None ->
   OutputContract_Validate (mkOutputContract s) vars' = None).
Proof.
  assert (Hdir : forall c vs vs', List.NoDup (map fst vs) -> vs ≡ₚ vs' ->
    validateContract s vs c = None -> validateContract s vs' c = None).
  { intros c vs vs' Hnd Hp. rewrite !validateContract_accepts. intros (d & Hd & Hc).
    destruct (wrap_map_perm _ _ _ Hnd Hp Hd) as (d' & Hd' & Heq). exists d'. split; [done|].
    eapply record_conforms_ext; [exact Heq| |exact Hc].
    intros k. rewrite !assoc_keys. by rewrite Heq. }
  intros Hnd Hp. assert (Hnd' : List.NoDup (map fst vars')) by (by rewrite <- Hp).
  split; [split; eauto using Permutation_sym|].
  unfold InputContract_Validate, OutputContract_Validate. simpl. intros H.
  apply (Hdir false vars); [done..|]. revert H. rewrite !validateContract_accepts.
  intros (d & ? & ?). exists d. split; [done|]. by apply record_conforms_open.
Qed.

End SchemaLaws.

(** A contract over a person record, with the variables in two orders. *)
Lemma contract_acceptance_order_free_witness :
  let s := [RequiredField "name" TypeString; OptionalField "age" TypeNumber] in
  let vars := [("name"%string, HString "Ada"); ("age"%string, HInt 36)] in
  InputContract_Validate (mkInputContract s) (reverse vars) = None /\
  OutputContract_Validate (mkOutputContract s) (reverse vars) = None.
Proof.
  intros s vars.
  assert (Hnd : List.NoDup (map fst vars)).
  { repeat constructor; simpl; intros H; repeat destruct H as [H|H]; done. }
  assert (Hp : vars ≡ₚ reverse vars) by (by rewrite reverse_Permutation).
  assert (H0 : InputContract_Validate (mkInputContract s) vars = None) by (vm_compute; reflexivity).
  split.
  - exact (proj1 (proj1 (contract_acceptance_order_free s vars (reverse vars) true Hnd Hp)) H0).
  - exact (proj2 (contract_acceptance_order_free s vars (reverse vars) false Hnd Hp) H0).
Defined.
