(* ===== verification/Dictionaries.v ===== *)
(** * Dictionaries

    Models [core/dictionary.go].  A dictionary is the list of its entries in the
    order of the [keys] slice; [dmap] is the finite map it stands for, and the
    operations are those of finite maps. *)

From Stdlib Require Import SpecFloat.
From S2P Require Import Prelude Decimal GoText GoTime Values ValueLaws Lists Numbers Temporal Schema.
#[global] Open Scope Z_scope.

Section Dictionaries.
Context {DO : DecimalOps}.

Abbreviation dict := (list (string * BlValue)).

(** ** The operations *)

Definition newDictionary : dict := [].

(** [d.get(k)] *)
Definition get (d : dict) (k : string) : option BlValue := assoc k d.

(** [sort.Strings] *)
Definition string_less (a b : string) : bool := string_cmp a b <? 0.
Definition sortedKeys (d : dict) : list string := slice_stable string_less (map fst d).

(** [set] of entries one after another, the loop the functions share. *)
Definition set_all (es : dict) (d : dict) : dict := fold_left (fun d e => dict_set d (fst e) (snd e)) es d.

(** [Dictionary]: the entries of a Go map, set in the order of the sorted keys. *)
Definition Dictionary (entries : gmap string BlValue) : result dict :=
  match entries !! "" with
  | Some _ => Err (TypeError "Dictionary" "empty key")
  | None =>
      let keys := slice_stable string_less (map fst (map_to_list entries)) in
      Ok (set_all (omap (fun k => option_map (pair k) (entries !! k)) keys) newDictionary)
  end.

(** The walk of [getValueFn] along a path. *)
Fixpoint get_path (cur : BlValue) (path : list BlValue) : BlValue :=
  match path with
  | [] => cur
  | k :: path' =>
      match k, cur with
      | BlString ks, BlDictionary dd =>
          match get dd ks with
          | None => BlNull
          | Some v => get_path v path'
          end
      | _, _ => BlNull
      end
  end.

Definition getValueFn (d key : BlValue) : result BlValue :=
  match d with
  | BlDictionary es =>
      match key with
      | BlString k => Ok (default BlNull (get es k))
      | BlList items => Ok (get_path d items)
      | _ => Err (argTypeError key)
      end
  | _ => Err (argTypeError d)
  end.

Definition getEntriesFn (d : dict) : BlValue :=
  BlList (map (fun k => BlDictionary (dict_set (dict_set newDictionary "key" (BlString k)) "value" (default BlNull (get d k))))
              (sortedKeys d)).

Definition dictWith (d : dict) (key : string) (val : BlValue) : dict := dict_set (set_all d newDictionary) key val.

Fixpoint dictPutPath (d : dict) (path : list BlValue) (val : BlValue) : result dict :=
  match path with
  | [] => Ok d
  | BlString ks :: path' =>
      match path' with
      | [] => Ok (dictWith d ks val)
      | _ =>
          let innerDict := match get d ks with Some (BlDictionary i) => i | _ => newDictionary end in
          let! updated := dictPutPath innerDict path' val in
          Ok (dictWith d ks (BlDictionary updated))
      end
  | _ :: _ => Err (TypeError "dictionaryPut" "path keys must be strings")
  end.

Definition dictionaryPutFn (d key val : BlValue) : result BlValue :=
  match d with
  | BlDictionary es =>
      match key with
      | BlString k =>
          if String.eqb k "" then Err (TypeError "dictionaryPut" "empty key")
          else Ok (BlDictionary (dictWith es k val))
      | BlList items => let! out := dictPutPath es items val in Ok (BlDictionary out)
      | _ => Err (argTypeError key)
      end
  | _ => Err (argTypeError d)
  end.

Fixpoint dictionaryMerge (items : list BlValue) (out : dict) : dict :=
  match items with
  | [] => out
  | BlDictionary d :: items' => dictionaryMerge items' (set_all d out)
  | _ :: items' => dictionaryMerge items' out
  end.
Definition dictionaryMergeFn (items : list BlValue) : BlValue := BlDictionary (dictionaryMerge items newDictionary).

Definition listOfStrings (ss : list string) : BlValue := BlList (map BlString ss).
Definition keysFn (d : dict) : BlValue := listOfStrings (sortedKeys d).
Definition valuesFn (d : dict) : BlValue := BlList (map (fun k => default BlNull (get d k)) (sortedKeys d)).
Definition hasFn (d : dict) (key : string) : BlValue := BlBoolean (match get d key with Some _ => true | None => false end).
Definition dictSizeFn (d : dict) : BlValue := numFromInt (Z.of_nat (length d)).
Definition dictIsEmptyFn (d : dict) : BlValue := BlBoolean (length d =? 0)%nat.

Definition dictionaryRemove (d : dict) (key : string) : dict :=
  set_all (List.filter (fun e => negb (String.eqb (fst e) key)) d) newDictionary.
Definition dictionaryRemoveFn (d : dict) (key : string) : BlValue := BlDictionary (dictionaryRemove d key).

(** [mkDictFn]: keys and values alternate; a last key without a value is dropped. *)
Fixpoint mkDict (args : list BlValue) (d : dict) : result dict :=
  match args with
  | k :: v :: args' =>
      match k with
      | BlString s => mkDict args' (dict_set d s v)
      | _ => Err (argTypeError k)
      end
  | _ => Ok d
  end.
Definition mkDictFn (args : list BlValue) : result BlValue := let! d := mkDict args newDictionary in Ok (BlDictionary d).

Definition get_dict (v : BlValue) : option dict := match v with BlDictionary d => Some d | _ => None end.
Definition get_items (v : BlValue) : option (list BlValue) := match v with BlList l => Some l | _ => None end.

(** All but [__mkdict], whose arguments are not counted. *)
Definition dictionaryOptions : list Builtin :=
  [mkBuiltin "getValue" [2] (fn2 getValueFn);
   mkBuiltin "getEntries" [1] (fn1 (typed1 get_dict getEntriesFn));
   mkBuiltin "dictionaryPut" [3] (fn3 dictionaryPutFn);
   mkBuiltin "dictionaryMerge" [1] (fn1 (typed1 get_items dictionaryMergeFn));
   mkBuiltin "keys" [1] (fn1 (typed1 get_dict keysFn));
   mkBuiltin "values" [1] (fn1 (typed1 get_dict valuesFn));
   mkBuiltin "has" [2] (fn2 (typed2 get_dict get_string hasFn));
   mkBuiltin "size" [1] (fn1 (typed1 get_dict dictSizeFn));
   mkBuiltin "dictionaryRemove" [2] (fn2 (typed2 get_dict get_string dictionaryRemoveFn))]%nat.

(** ** Dictionaries as finite maps *)

Definition wf (d : dict) : Prop := NoDup (map fst d).

Definition dmap (d : dict) : gmap string BlValue := list_to_map d.

Lemma dmap_nil : dmap newDictionary = ∅.
Proof. done. Qed.

Lemma dmap_get d k : dmap d !! k = get d k.
Proof.
  unfold get, dmap. induction d as [|[k' v] d IH]; [done|]. rewrite list_to_map_cons, lookup_insert.
  unfold assoc in *. cbn [List.find fst]. destruct (String.eqb_spec k' k) as [->|Hne].
  - by rewrite decide_True.
  - by rewrite decide_False.
Qed.

Lemma get_set d k v k' : get (dict_set d k v) k' = if String.eqb k k' then Some v else get d k'.
Proof. apply assoc_dict_set. Qed.

Lemma dmap_set d k v : dmap (dict_set d k v) = <[k := v]> (dmap d).
Proof.
  apply map_eq. intros k'. rewrite lookup_insert, !dmap_get, get_set.
  destruct (String.eqb_spec k k') as [->|Hne]; [by rewrite decide_True|by rewrite decide_False].
Qed.

Lemma keys_set d k v : map fst (dict_set d k v) = if bool_decide (k ∈ map fst d) then map fst d else map fst d ++ [k].
Proof.
  induction d as [|[k' v'] d IH]; [done|]. cbn [dict_set map fst]. destruct (String.eqb_spec k' k) as [->|Hne].
  - rewrite bool_decide_true by set_solver. done.
  - cbn [map fst]. rewrite IH. repeat case_bool_decide; set_solver.
Qed.

Lemma wf_set d k v : wf d -> wf (dict_set d k v).
Proof.
  unfold wf. intros H. rewrite keys_set. case_bool_decide; [done|]. apply NoDup_app. split_and!; [done|set_solver|apply NoDup_singleton].
Qed.

Lemma wf_set_all es d : wf d -> wf (set_all es d).
Proof. revert d. induction es as [|[k v] es IH]; intros d H; [done|]. apply IH. by apply wf_set. Qed.

Lemma dmap_set_all es d : wf es -> dmap (set_all es d) = dmap es ∪ dmap d.
Proof.
  revert d. induction es as [|[k v] es IH]; intros d H; [unfold dmap; cbn; by rewrite (left_id_L ∅ (∪))|].
  apply NoDup_cons in H as [Hk H]. change (set_all ((k, v) :: es) d) with (set_all es (dict_set d k v)).
  rewrite IH, dmap_set by done. unfold dmap. rewrite list_to_map_cons, <- insert_union_r, insert_union_l; [done|].
  by apply not_elem_of_list_to_map_1.
Qed.

Lemma wf_nil : wf [].
Proof. apply NoDup_nil_2. Qed.

Lemma dmap_with d k v : wf d -> dmap (dictWith d k v) = <[k := v]> (dmap d) /\ wf (dictWith d k v).
Proof.
  intros H. unfold dictWith. split; [|apply wf_set, wf_set_all, wf_nil].
  by rewrite dmap_set, dmap_set_all, dmap_nil, (right_id_L ∅ (∪)).
Qed.

Lemma get_with d k v k' : wf d -> get (dictWith d k v) k' = if String.eqb k k' then Some v else get d k'.
Proof.
  intros H. rewrite <- dmap_get, (proj1 (dmap_with d k v H)), lookup_insert, dmap_get.
  destruct (String.eqb_spec k k') as [->|?]; [by rewrite decide_True|by rewrite decide_False].
Qed.

Lemma dmap_merge items out :
  Forall (fun v => match v with BlDictionary d => wf d | _ => True end) items ->
  dmap (dictionaryMerge items out) =
    foldl (fun m v => match v with BlDictionary d => dmap d ∪ m | _ => m end) (dmap out) items.
Proof.
  intros H. revert out. induction H as [|v items Hv _ IH]; intros out; [done|]. destruct v; cbn [dictionaryMerge foldl]; try apply IH.
  by rewrite IH, dmap_set_all.
Qed.

Lemma wf_filter (P : string * BlValue -> bool) d : wf d -> wf (List.filter P d).
Proof.
  unfold wf. induction d as [|e d IH]; [done|]. cbn [map List.filter]. intros [He Hd]%NoDup_cons.
  destruct (P e); [|by apply IH]. cbn [map]. apply NoDup_cons. split; [|by apply IH].
  intros Hin. apply He. apply list_elem_of_In, in_map_iff in Hin as (x & <- & Hx). apply filter_In in Hx as [Hx _].
  apply list_elem_of_In, in_map_iff. by exists x.
Qed.

Lemma get_filter d key k :
  get (List.filter (fun e => negb (String.eqb (fst e) key)) d) k = if String.eqb key k then None else get d k.
Proof.
  unfold get, assoc. induction d as [|[k' v] d IH]; [by destruct (String.eqb key k)|]. cbn [List.filter fst].
  destruct (String.eqb_spec k' key) as [->|Hne]; cbn [negb List.find fst].
  - rewrite IH. by destruct (String.eqb key k).
  - destruct (String.eqb_spec k' k) as [->|Hk]; [|done]. by destruct (String.eqb_spec key k) as [->|_].
Qed.

Lemma dmap_remove d key : wf d -> dmap (dictionaryRemove d key) = delete key (dmap d) /\ wf (dictionaryRemove d key).
Proof.
  intros H. unfold dictionaryRemove. split; [|apply wf_set_all, wf_nil].
  rewrite dmap_set_all by (by apply wf_filter). apply map_eq. intros k.
  rewrite dmap_nil, (right_id_L ∅ (∪)), dmap_get, get_filter, lookup_delete, dmap_get.
  destruct (String.eqb_spec key k) as [->|?]; [by rewrite decide_True|by rewrite decide_False].
Qed.

(** [sort.Strings] *)
#[export] Instance string_less_order : StrictWeakOrder string_less.
Proof.
  unfold string_less. split.
  - intros x. rewrite (proj2 (string_cmp_eq x x)) by done. done.
  - intros x y. rewrite (string_cmp_antisym x y). lia.
  - intros x y z. rewrite !Z.ltb_ge. intros H1 H2. rewrite string_cmp_antisym. rewrite string_cmp_antisym in H1, H2.
    pose proof (string_cmp_trans z y x ltac:(lia) ltac:(lia)). lia.
Qed.

Lemma sortedKeys_perm d : sortedKeys d ≡ₚ map fst d.
Proof. apply slice_stable_perm. Qed.

Lemma get_is_Some d k : is_Some (get d k) <-> k ∈ map fst d.
Proof.
  unfold get. rewrite list_elem_of_In. destruct (assoc k d) as [v|] eqn:E.
  - apply assoc_In_fst in E. split; [done|by eexists].
  - apply assoc_None in E. split; [by intros []|done].
Qed.

(** The keys and values of a dictionary: its map, listed in the order of its keys. *)
Lemma sorted_entries_map d :
  wf d -> sorted string_less (sortedKeys d) /\ NoDup (sortedKeys d) /\
  (forall k, k ∈ sortedKeys d <-> is_Some (dmap d !! k)).
Proof.
  intros H. split_and!; [apply slice_stable_sorted, _|by rewrite sortedKeys_perm|].
  intros k. by rewrite dmap_get, get_is_Some, sortedKeys_perm.
Qed.

Lemma dmap_size d : wf d -> size (dmap d) = length d.
Proof.
  induction d as [|[k v] d IH]; intros H; [done|]. apply NoDup_cons in H as [Hk H]. unfold dmap in *.
  rewrite list_to_map_cons, map_size_insert_None by (by apply not_elem_of_list_to_map_1). by rewrite IH.
Qed.

(** A dictionary is a finite map: reading a key looks it up, [dictionaryPut]
    inserts, [dictionaryRemove] deletes, [dictionaryMerge] is the union in which
    later dictionaries win, and the keys come out in code-point order, each once,
    with the values in the same order. *)
Theorem dictionary_refines_map (d : dict) (k : string) (v : BlValue) (items : list BlValue) :
  wf d -> Forall (fun v => match v with BlDictionary d => wf d | _ => True end) items ->
  getValueFn (BlDictionary d) (BlString k) = Ok (default BlNull (dmap d !! k)) /\
  hasFn d k = BlBoolean (bool_decide (is_Some (dmap d !! k))) /\
  (k <> "" -> exists d', dictionaryPutFn (BlDictionary d) (BlString k) v = Ok (BlDictionary d') /\
     wf d' /\ dmap d' = <[k := v]> (dmap d)) /\
  (exists d', dictionaryRemoveFn d k = BlDictionary d' /\ wf d' /\ dmap d' = delete k (dmap d)) /\
  (exists d', dictionaryMergeFn items = BlDictionary d' /\
     dmap d' = foldl (fun m v => match v with BlDictionary d => dmap d ∪ m | _ => m end) ∅ items) /\
  (exists ks vs, keysFn d = BlList (map BlString ks) /\ valuesFn d = BlList vs /\
     sorted string_less ks /\ NoDup ks /\ map Some vs = map (fun k => dmap d !! k) ks /\
     (forall k, k ∈ ks <-> is_Some (dmap d !! k))) /\
  dictSizeFn d = numFromInt (Z.of_nat (size (dmap d))) /\
  dictIsEmptyFn d = BlBoolean (size (dmap d) =? 0)%nat.
Proof.
  intros Hd Hi. rewrite dmap_size by done. destruct (sorted_entries_map d Hd) as (S1 & S2 & S3). split_and!; [| | | | | |done|done].
  - by rewrite dmap_get.
  - unfold hasFn. rewrite dmap_get. by destruct (get d k); [rewrite bool_decide_true by (by eexists)|rewrite bool_decide_false by (by intros [])].
  - intros Hk. exists (dictWith d k v). destruct (dmap_with d k v Hd) as [? ?]. unfold dictionaryPutFn.
    by destruct (String.eqb_spec k "").
  - exists (dictionaryRemove d k). destruct (dmap_remove d k Hd). done.
  - eexists. split; [reflexivity|]. rewrite dmap_merge by done. by rewrite dmap_nil.
  - eexists (sortedKeys d), _. split_and!; [reflexivity|reflexivity|done|done| |done].
    rewrite map_map. apply map_ext_in. intros a Ha. apply list_elem_of_In, S3 in Ha as [x Hx].
    rewrite dmap_get in Hx |- *. by rewrite Hx.
Qed.

(** ** Paths *)

Abbreviation path_of := (map BlString).

Lemma get_wf d k v : wf_value (BlDictionary d) -> get d k = Some v -> wf_value v.
Proof.
  rewrite wf_dict. intros [_ He] Hg. apply assoc_In in Hg. unfold wf_entry_list in He. rewrite List.Forall_forall in He.
  apply (He (k, v) Hg).
Qed.

(** The dictionary a path step continues in. *)
Definition inner (d : dict) (k : string) : dict := match get d k with Some (BlDictionary i) => i | _ => newDictionary end.

Lemma inner_wf d k : wf_value (BlDictionary d) -> wf_value (BlDictionary (inner d k)).
Proof.
  intros H. unfold inner. destruct (get d k) as [[]|] eqn:E; try (apply wf_dict; split; [apply NoDup_nil_2|apply Forall_nil_2]).
  by apply (get_wf d k).
Qed.

Lemma dictPutPath_cons d k k' p v :
  dictPutPath d (path_of (k :: k' :: p)) v =
    (let! updated := dictPutPath (inner d k) (path_of (k' :: p)) v in Ok (dictWith d k (BlDictionary updated))).
Proof. reflexivity. Qed.

(** Reading a path through the dictionary a step continues in. *)
Lemma get_path_inner d k q : q <> [] -> get_path (BlDictionary d) (path_of (k :: q)) = get_path (BlDictionary (inner d k)) (path_of q).
Proof.
  intros Hq. destruct q as [|b q]; [done|]. cbn [map get_path]. unfold inner. destruct (get d k) as [[]|]; done.
Qed.

Lemma dictPutPath_spec p k d v :
  wf_value (BlDictionary d) ->
  exists d', dictPutPath d (path_of (k :: p)) v = Ok d' /\
    get_path (BlDictionary d') (path_of (k :: p)) = v /\
    forall c a b p' q', k :: p = c ++ a :: p' -> a <> b ->
      get_path (BlDictionary d') (path_of (c ++ b :: q')) = get_path (BlDictionary d) (path_of (c ++ b :: q')).
Proof.
  revert k d. induction p as [|k' p IH]; intros k d Hwf; pose proof (proj1 (proj1 (wf_dict _) Hwf)) as Hd.
  - exists (dictWith d k v). split; [done|]. split.
    + cbn [map get_path]. by rewrite get_with, String.eqb_refl.
    + intros c a b p' q' E Hab. destruct c as [|c0 c]; [|by destruct c]. injection E as <- <-. cbn [app map get_path].
      rewrite get_with by done. by destruct (String.eqb_spec k b).
  - destruct (IH k' (inner d k) (inner_wf d k Hwf)) as (u & Eu & Hget & Hframe).
    rewrite dictPutPath_cons, Eu. cbn [result_bind]. eexists. split; [reflexivity|].
    assert (Hin : inner (dictWith d k (BlDictionary u)) k = u) by (unfold inner; by rewrite get_with, String.eqb_refl). split.
    + rewrite get_path_inner by done. by rewrite Hin.
    + intros c a b p' q' E Hab. destruct c as [|c0 c].
      * injection E as <- <-. cbn [app map get_path]. rewrite get_with by done. by destruct (String.eqb_spec k b).
      * injection E as <- E. cbn [app]. rewrite !get_path_inner by (by destruct c). rewrite Hin. by apply (Hframe c a b p').
Qed.

(** [dictionaryPut] on a path makes the path read the value, creating the
    dictionaries on the way, and leaves every path that branches off unchanged. *)
Theorem dictionary_put_path (d : dict) (k : string) (p : list string) (v : BlValue) :
  wf_value (BlDictionary d) ->
  exists d', dictionaryPutFn (BlDictionary d) (BlList (path_of (k :: p))) v = Ok (BlDictionary d') /\
    getValueFn (BlDictionary d') (BlList (path_of (k :: p))) = Ok v /\
    forall c a b p' q', k :: p = c ++ a :: p' -> a <> b ->
      getValueFn (BlDictionary d') (BlList (path_of (c ++ b :: q'))) = getValueFn (BlDictionary d) (BlList (path_of (c ++ b :: q'))).
Proof.
  intros H. destruct (dictPutPath_spec p k d v H) as (d' & E & G & F). exists d'. unfold dictionaryPutFn. rewrite E.
  split_and!; [done|unfold getValueFn; by rewrite G|]. intros c a b p' q' Ep Hab. unfold getValueFn. by rewrite (F c a b p' q' Ep Hab).
Qed.

End Dictionaries.

(** ** Samples *)

Definition sampleDict : list (string * BlValue) := [("b", BlBoolean true); ("a", BlString "x")].

Lemma dictionary_refines_map_witness :
  keysFn sampleDict = BlList [BlString "a"; BlString "b"] /\
  exists d', dictionaryRemoveFn sampleDict "b" = BlDictionary d' /\ dmap d' = delete "b" (dmap sampleDict).
Proof.
  split; [vm_eq|].
  assert (Hwf : wf sampleDict) by (unfold wf; apply (bool_decide_unpack _); vm_compute; exact I).
  destruct (dictionary_refines_map sampleDict "b" BlNull [] Hwf (Forall_nil_2 _)) as (_ & _ & _ & (d' & H1 & _ & H2) & _).
  exists d'. split; [exact H1|exact H2].
Defined.

Lemma dictionary_put_path_witness :
  exists d', dictionaryPutFn (BlDictionary sampleDict) (BlList [BlString "c"; BlString "d"]) (BlBoolean false) = Ok (BlDictionary d') /\
    getValueFn (BlDictionary d') (BlList [BlString "c"; BlString "d"]) = Ok (BlBoolean false).
Proof.
  assert (Hwf : wf_value (BlDictionary sampleDict)).
  { apply wf_dict. split; [apply (bool_decide_unpack _); vm_compute; exact I|repeat constructor]. }
  destruct (dictionary_put_path sampleDict "c" ["d"] (BlBoolean false) Hwf) as (d' & H1 & H2 & _). exists d'. split; [exact H1|exact H2].
Defined.

(** An empty key is refused as a key but accepted in a path and in a literal. *)
Theorem empty_key_in_path :
  dictionaryPutFn (BlDictionary []) (BlString "") BlNull = Err (TypeError "dictionaryPut" "empty key") /\
  dictionaryPutFn (BlDictionary []) (BlList [BlString ""]) BlNull = Ok (BlDictionary [("", BlNull)]) /\
  mkDictFn [BlString ""; BlNull] = Ok (BlDictionary [("", BlNull)]).
Proof. split_and!; reflexivity. Qed.
