(* ===== verification/Strings.v ===== *)
(** * Strings and the text of values

    Models [core/string.go] and the [String] methods of the value types.
    Positions and lengths count code points ([GoText]).  The case tables of the
    [unicode] package and the regular expressions of [regexp] are parameters;
    [split] on several literal delimiters, which [string.go] does with a regular
    expression, is written out.  [strings.Repeat] panics on a result that is too
    long; a panic ends the evaluation with an error. *)

From Stdlib Require Import Strings.Ascii SpecFloat.
From S2P Require Import Prelude Decimal GoText GoTime Values Lists Numbers GoTimeText Durations Temporal Dictionaries Ranges.
#[global] Open Scope Z_scope.

(** ** The [strings] package on any text *)

Class GoUnicode : Type := { unicode_ToUpper : Z -> Z; unicode_ToLower : Z -> Z }.

(** [unicode.IsSpace] *)
Definition rune_IsSpace (r : Z) : bool :=
  within 9 r 13 || existsb (Z.eqb r) [32; 133; 160; 5760; 8232; 8233; 8239; 8287; 12288] || within 8192 r 8202.

(** The bytes left when the code points that satisfy [f] are taken off an end. *)
Fixpoint drop_runes (f : Z -> bool) (ps : list (Z * string)) : list (Z * string) :=
  match ps with
  | [] => []
  | p :: ps' => if f (fst p) then drop_runes f ps' else ps
  end.
Definition raw (ps : list (Z * string)) : string := concat_strings (map snd ps).
Definition TrimLeftFunc (s : string) (f : Z -> bool) : string := raw (drop_runes f (decode s)).
Definition TrimRightFunc (s : string) (f : Z -> bool) : string := raw (rev (drop_runes f (rev (decode s)))).
Definition strings_TrimSpace (s : string) : string :=
  raw (rev (drop_runes rune_IsSpace (rev (drop_runes rune_IsSpace (decode s))))).

(** [strings.Index] *)
Fixpoint Index (s m : string) : option nat :=
  if HasPrefix s m then Some O
  else match s with
       | EmptyString => None
       | String _ s' => option_map S (Index s' m)
       end.

(** [s[:i]] and [s[i:]] *)
Definition slice_to (s : string) (i : nat) : string := String.substring 0 i s.
Fixpoint slice_from (s : string) (i : nat) : string :=
  match i, s with
  | O, _ => s
  | S i', String _ s' => slice_from s' i'
  | S _, EmptyString => EmptyString
  end.

Definition HasSuffix (s m : string) : bool :=
  (String.length m <=? String.length s)%nat && String.eqb (slice_from s (String.length s - String.length m)) m.

(** [strings.Repeat] *)
Fixpoint repeat_string (n : nat) (s : string) : string :=
  match n with O => "" | S n' => s +:+ repeat_string n' s end.
Definition strings_Repeat (s : string) (n : Z) : result string :=
  if n <? 0 then Err (ErrorText "strings: negative Repeat count")
  else if 2 ^ 63 <=? n * Z.of_nat (String.length s) then Err (ErrorText "strings: Repeat output length overflow")
  else Ok (if String.eqb s "" then "" else repeat_string (Z.to_nat n) s).

(** Splitting on the first of the delimiters that is found at a position: the
    part that is open and the parts after it. *)
Fixpoint split_at (delims : list string) (skip : nat) (s : string) : string * list string :=
  match s with
  | EmptyString => (EmptyString, [])
  | String c s' =>
      match skip with
      | S k => split_at delims k s'
      | O =>
          match List.find (HasPrefix s) delims with
          | Some d => let '(p, ps) := split_at delims (String.length d - 1) s' in (EmptyString, p :: ps)
          | None => let '(p, ps) := split_at delims O s' in (String c p, ps)
          end
      end
  end.
Definition split_on (delims : list string) (s : string) : list string :=
  let '(p, ps) := split_at delims O s in p :: ps.

(** [strings.Split]; an empty separator splits after each code point. *)
Definition strings_Split (s sep : string) : list string :=
  if String.eqb sep "" then map snd (decode s) else split_on [sep] s.

(** [regexp.QuoteMeta] *)
Definition meta_char (c : ascii) : bool := existsb (is_char c) [92; 46; 43; 42; 63; 40; 41; 124; 91; 93; 123; 125; 94; 36]%nat.
Fixpoint QuoteMeta (s : string) : string :=
  match s with
  | EmptyString => EmptyString
  | String c s' => if meta_char c then String char_backslash (String c (QuoteMeta s')) else String c (QuoteMeta s')
  end.

(** [sortLongestFirst], on the quoted delimiters. *)
Definition longer (a b : string) : bool := (String.length (QuoteMeta b) <? String.length (QuoteMeta a))%nat.
Definition sortLongestFirst (ds : list string) : list string := slice_stable longer ds.

(** The package [regexp]. *)
Class Regexp : Type := {
  Re : Type;
  re_Compile : string -> option Re;
  re_MatchString : Re -> string -> bool;
  re_ReplaceAllString : Re -> string -> string -> string;
  re_FindAllString : Re -> string -> list string
}.

(** ** The library *)

Section Strings.
Context {DO : DecimalOps} {DT : DecimalText DO} {GU : GoUnicode} {RX : Regexp}.

(** [String] from a Go string or from bytes. *)
Inductive StringInput : Type := InString (s : string) | InBytes (s : string).
Definition String_ (v : StringInput) : result BlValue :=
  match v with
  | InString s => Ok (BlString s)
  | InBytes s => if Valid s then Ok (BlString s) else Err (TypeError "String" "invalid UTF-8")
  end.

Definition concatStrings (a b : string) : BlValue := BlString (a +:+ b).
Definition stringLengthFn (s : string) : BlValue := numFromInt (RuneCount s).

Definition substringBeforeFn (s m : string) : BlValue :=
  BlString match Index s m with None => "" | Some i => slice_to s i end.
Definition substringAfterFn (s m : string) : BlValue :=
  BlString match Index s m with None => "" | Some i => slice_from s (i + String.length m) end.

Definition upperCaseFn (s : string) : BlValue := BlString (of_runes (map unicode_ToUpper (runes s))).
Definition lowerCaseFn (s : string) : BlValue := BlString (of_runes (map unicode_ToLower (runes s))).

Definition unicodeSpace (r : Z) : bool := existsb (Z.eqb r) [32; 9; 10; 13; 12; 11; 133; 160].
Definition trimFn (s : string) : BlValue := BlString (strings_TrimSpace s).
Definition trimLeadingFn (s : string) : BlValue := BlString (TrimLeftFunc s unicodeSpace).
Definition trimTrailingFn (s : string) : BlValue := BlString (TrimRightFunc s unicodeSpace).

Definition containsFn (s m : string) : BlValue := BlBoolean (Contains s m).
Definition startsWithFn (s m : string) : BlValue := BlBoolean (HasPrefix s m).
Definition endsWithFn (s m : string) : BlValue := BlBoolean (HasSuffix s m).
Definition isBlankFn (s : string) : BlValue := BlBoolean (String.eqb (strings_TrimSpace s) "").

Definition strIndexOfFn (s m : string) : BlValue :=
  match Index s m with
  | None => BlNull
  | Some i => numFromInt (RuneCount (slice_to s i) + 1)
  end.
Definition strIsEmptyFn (s : string) : BlValue := BlBoolean (String.eqb s "").

Definition charAtFn (s : string) (pos : Decimal) : BlValue :=
  let rs := runes s in
  let p := dIntPart pos in
  BlString (if (p <? 1) || (Z.of_nat (length rs) <? p) then "" else of_runes (take 1 (drop (Z.to_nat (p - 1)) rs))).

Definition strReverseFn (s : string) : BlValue := BlString (of_runes (rev (runes s))).

Definition repeatFn (s : string) (times : Decimal) : result BlValue :=
  let n := dIntPart times in
  if n <? 0 then Ok (BlString "") else let! r := strings_Repeat s n in Ok (BlString r).

(** [substringFn]; the end of the substring is computed in 64 bits. *)
Definition substringFn (s start : BlValue) (length_ : option BlValue) : result BlValue :=
  match s with
  | BlString s =>
      match start with
      | BlNumber start =>
          let rs := runes s in
          let n := Z.of_nat (length rs) in
          let st := dIntPart start in
          let st := if st <? 0 then n + st + 1 else st in
          let st := if st <? 1 then 1 else st in
          if n <? st then Ok (BlString "")
          else
            let! end_ :=
              match length_ with
              | None => Ok n
              | Some (BlNumber len) => let e := int64 (st - 1 + dIntPart len) in Ok (if n <? e then n else e)
              | Some v => Err (argTypeError v)
              end in
            let end_ := if end_ <? st - 1 then st - 1 else end_ in
            Ok (BlString (of_runes (take (Z.to_nat (end_ - (st - 1))) (drop (Z.to_nat (st - 1)) rs))))
      | _ => Err (argTypeError start)
      end
  | _ => Err (argTypeError s)
  end.

(** The delimiters of a list. *)
Fixpoint split_delims (items : list BlValue) : result (list string) :=
  match items with
  | [] => Ok []
  | e :: items' =>
      match e with
      | BlString d =>
          if String.eqb d "" then Err (TypeError "split" "delimiter must be non-empty string")
          else let! ds := split_delims items' in Ok (d :: ds)
      | _ => Err (TypeError "split" "delimiter must be non-empty string")
      end
  end.

Definition splitFn (s d : BlValue) : result BlValue :=
  match s with
  | BlString s =>
      match d with
      | BlString d => Ok (listOfStrings (strings_Split s d))
      | BlList items =>
          let! delims := split_delims items in
          Ok (if (length delims =? 0)%nat then BlList [BlString s]
              else listOfStrings (split_on (sortLongestFirst delims) s))
      | _ => Err (argTypeError d)
      end
  | _ => Err (argTypeError s)
  end.

Definition padFn (args : list BlValue) (leading : bool) : result BlValue :=
  let s := arg args 0 in
  let length_ := arg args 1 in
  match s with
  | BlString str =>
      match length_ with
      | BlNumber len =>
          let! pad :=
            match args !! 2%nat with
            | None => Ok " "
            | Some (BlString pc) =>
                if negb (RuneCount pc =? 1) then Err (TypeError "pad" "padChar must be a single code point") else Ok pc
            | Some v => Err (argTypeError v)
            end in
          let target := dIntPart len in
          let cur := RuneCount str in
          if target <=? cur then Ok s
          else
            let! fill := strings_Repeat pad (target - cur) in
            Ok (BlString (if leading then fill +:+ str else str +:+ fill))
      | _ => Err (argTypeError length_)
      end
  | _ => Err (argTypeError s)
  end.
Definition padLeadingFn (args : list BlValue) : result BlValue := padFn args true.
Definition padTrailingFn (args : list BlValue) : result BlValue := padFn args false.

(** *** Patterns *)

Definition Pattern (source : string) : result BlValue :=
  match re_Compile source with
  | None => Err (RegexError source "error parsing regexp")
  | Some _ => Ok (BlRegex source)
  end.

Definition patternArg (args : list BlValue) (fn : string) : result (string * string) :=
  match arg args 1 with
  | BlString p =>
      match args !! 2%nat with
      | None => Ok (p, "")
      | Some (BlString f) => Ok (p, f)
      | Some v => Err (argTypeError v)
      end
  | BlRegex source =>
      match args !! 2%nat with
      | Some _ => Err (TypeError fn "precompiled pattern cannot take flags")
      | None => Ok (source, "")
      end
  | v => Err (argTypeError v)
  end.

(** A pattern that was compiled when its value was made. *)
Definition compiled (source : string) (pat : string) : result Re :=
  match re_Compile pat with
  | None => Err (RegexError source "error parsing regexp")
  | Some re => Ok re
  end.

Definition matchesFn (args : list BlValue) : result BlValue :=
  let! sf := patternArg args "matches" in
  let '(source, flags) := sf in
  match arg args 0 with
  | BlString s =>
      let! anchored := compiled source ("^(?:" +:+ source +:+ ")$") in
      let! anchored :=
        if String.eqb flags "" then Ok anchored
        else compiled source ("(?" +:+ flags +:+ ")^(?:" +:+ source +:+ ")$") in
      Ok (BlBoolean (re_MatchString anchored s))
  | v => Err (argTypeError v)
  end.

Definition patternArgAt (args : list BlValue) (idx : nat) (hasFlags : bool) (fn : string) : result Re :=
  match arg args idx with
  | BlString p =>
      let! pat :=
        if hasFlags then
          match arg args (length args - 1) with
          | BlString f => Ok ("(?" +:+ f +:+ ")" +:+ p)
          | v => Err (argTypeError v)
          end
        else Ok p in
      compiled p pat
  | BlRegex source => if hasFlags then Err (TypeError fn "precompiled pattern cannot take flags") else compiled source source
  | v => Err (argTypeError v)
  end.

Definition replaceFn (args : list BlValue) : result BlValue :=
  match arg args 0 with
  | BlString s =>
      match arg args 2 with
      | BlString repl =>
          let! re := patternArgAt args 1 (length args =? 4)%nat "replace" in
          Ok (BlString (re_ReplaceAllString re s repl))
      | v => Err (argTypeError v)
      end
  | v => Err (argTypeError v)
  end.

Definition extractFn (args : list BlValue) : result BlValue :=
  match arg args 0 with
  | BlString s =>
      let! re := patternArgAt args 1 (length args =? 3)%nat "extract" in
      Ok (listOfStrings (re_FindAllString re s))
  | v => Err (argTypeError v)
  end.

(** ** The text of a value *)

Definition quote_rune (r : Z) : string :=
  if r =? 34 then String char_backslash (str1 char_quote)
  else if r =? 92 then String char_backslash (str1 char_backslash)
  else if r =? 10 then String char_backslash "n"
  else if r =? 13 then String char_backslash "r"
  else if r =? 9 then String char_backslash "t"
  else encode1 r.
Definition quoteString (s : string) : string :=
  String char_quote (concat_strings (map quote_rune (runes s)) +:+ str1 char_quote).

(** The [String] methods, and [literalString]. *)
Fixpoint to_string (v : BlValue) : string :=
  let literal (v : BlValue) : string := match v with BlString s => quoteString s | _ => to_string v end in
  let dict_string (d : list (string * BlValue)) : string :=
    let parts := map (fun e => (fst e, literal (snd e))) d in
    "{" +:+ strings_Join (map (fun k => k +:+ ": " +:+ default "" (assoc k parts)) (slice_stable string_less (map fst d))) ", " +:+ "}" in
  match v with
  | BlNull => "null"
  | BlBoolean b => if b then "true" else "false"
  | BlNumber d => dString d
  | BlString s => s
  | BlDate t n => date_String t n
  | BlTime t n => time_String t n
  | BlDateTime t n => datetime_String t n
  | BlDaysTimeDuration d => formatDTDuration d
  | BlYearsMonthsDuration d => formatYMDuration d
  | BlList items => "[" +:+ strings_Join (map literal items) ", " +:+ "]"
  | BlDictionary d => dict_string d
  | BlRange s e si ei =>
      (if si then "[" else "(") +:+ to_string s +:+ ".." +:+ to_string e +:+ (if ei then "]" else ")")
  | BlTable _ rows => "[" +:+ strings_Join (map dict_string rows) ", " +:+ "]"
  | BlCalendarEntry None v => to_string v
  | BlCalendarEntry (Some n) v => to_string v +:+ ": " +:+ n
  | BlCalendar es _ _ =>
      "calendar[" +:+ strings_Join
        (map (fun e => match e with (None, v) => to_string v | (Some n, v) => to_string v +:+ ": " +:+ n end) es) ", " +:+ "]"
  | BlRegex source => source
  | BlFunc ps body => "function(" +:+ strings_Join ps ", " +:+ ") " +:+ body
  | BlSortKey c _ _ => "sortKey(" +:+ c +:+ ")"
  end.
Definition literalString (v : BlValue) : string := match v with BlString s => quoteString s | _ => to_string v end.

Definition stringConvFn (v : BlValue) : BlValue := BlString (to_string v).

(** ** Registration *)

(** All but [contains], which also takes calendars. *)
(** [contains] is also a function of calendars: its dispatcher is a parameter here. *)
Definition stringOptions (containsDispatch : BlValue -> BlValue -> result BlValue) : list Builtin :=
  [mkBuiltin "stringLength" [1] (fn1 (typed1 get_string stringLengthFn));
   mkBuiltin "substring" [2; 3] (fun args => substringFn (arg args 0) (arg args 1) (third args));
   mkBuiltin "substringBefore" [2] (fn2 (typed2 get_string get_string substringBeforeFn));
   mkBuiltin "substringAfter" [2] (fn2 (typed2 get_string get_string substringAfterFn));
   mkBuiltin "upperCase" [1] (fn1 (typed1 get_string upperCaseFn));
   mkBuiltin "lowerCase" [1] (fn1 (typed1 get_string lowerCaseFn));
   mkBuiltin "trim" [1] (fn1 (typed1 get_string trimFn));
   mkBuiltin "trimLeading" [1] (fn1 (typed1 get_string trimLeadingFn));
   mkBuiltin "trimTrailing" [1] (fn1 (typed1 get_string trimTrailingFn));
   mkBuiltin "__contains" [2] (fn2 containsDispatch);
   mkBuiltin "__startsWith" [2] (fn2 (typed2 get_string get_string startsWithFn));
   mkBuiltin "__endsWith" [2] (fn2 (typed2 get_string get_string endsWithFn));
   mkBuiltin "__matches" [2; 3] matchesFn;
   mkBuiltin "replace" [3; 4] replaceFn;
   mkBuiltin "split" [2] (fn2 splitFn);
   mkBuiltin "extract" [2; 3] extractFn;
   mkBuiltin "pattern" [1] (fn1 (typed1err get_string Pattern));
   mkBuiltin "isBlank" [1] (fn1 (typed1 get_string isBlankFn));
   mkBuiltin "charAt" [2] (fn2 (typed2 get_string get_number charAtFn));
   mkBuiltin "padLeading" [2; 3] padLeadingFn;
   mkBuiltin "padTrailing" [2; 3] padTrailingFn;
   mkBuiltin "repeat" [2] (fn2 (typed2err get_string get_number repeatFn));
   mkBuiltin "string" [1] (fn1 (fun v => Ok (stringConvFn v)))]%nat.

End Strings.
