(* ===== verification/StringLaws.v ===== *)
(** * The string library counts code points

    Theorems about [Strings]: searching finds the first occurrence, splitting
    and joining with the separator are inverse, substrings, characters,
    reversal and padding are those of the list of code points. *)

From Stdlib Require Import Strings.Ascii SpecFloat.
From S2P Require Import Prelude Decimal GoText GoTime Values Lists Numbers NumberLaws TenDecimal GoTimeText Durations Temporal Dictionaries Strings.
#[global] Open Scope Z_scope.

(** ** Prefixes *)

Lemma strip_prefix_spec p s t : strip_prefix p s = Some t <-> s = p +:+ t.
Proof.
  revert s. induction p as [|a p IH]; intros s.
  - change ("" +:+ t) with t. destruct s; cbn; naive_solver.
  - rewrite string_cons_app. destruct s as [|b s]; cbn [strip_prefix]; [done|].
    destruct (Ascii.eqb_spec a b) as [->|Hne]; [rewrite IH; naive_solver|naive_solver].
Qed.

Lemma HasPrefix_spec s p : HasPrefix s p = true <-> exists t, s = p +:+ t.
Proof.
  unfold HasPrefix. destruct (strip_prefix p s) as [t|] eqn:E.
  - apply strip_prefix_spec in E. split; [by exists t|done].
  - split; [done|]. intros [t H]. apply strip_prefix_spec in H. congruence.
Qed.

Lemma length_app_string a b : String.length (a +:+ b) = (String.length a + String.length b)%nat.
Proof. induction a as [|c a IH]; [done|]. rewrite string_cons_app. cbn [String.length]. by rewrite IH. Qed.

Lemma app_inj_l (a b c : string) : a +:+ b = a +:+ c -> b = c.
Proof. induction a as [|x a IH]; [done|]. rewrite !string_cons_app. intros [= H]. by apply IH. Qed.

Lemma slice_from_app a b : slice_from (a +:+ b) (String.length a) = b.
Proof. induction a as [|c a IH]; [by destruct b|]. rewrite string_cons_app. exact IH. Qed.

Lemma slice_to_app a b : slice_to (a +:+ b) (String.length a) = a.
Proof. unfold slice_to. induction a as [|c a IH]; [by destruct b|]. rewrite string_cons_app. cbn. by rewrite IH. Qed.

Lemma slice_from_plus a b n : slice_from (a +:+ b) (String.length a + n) = slice_from b n.
Proof. induction a as [|c a IH]; [done|]. rewrite string_cons_app. exact IH. Qed.

(** ** Searching *)

(** [Index] finds an occurrence, and there is none before it. *)
Lemma Index_spec s m i :
  Index s m = Some i <->
  (exists a b, s = a +:+ m +:+ b /\ String.length a = i) /\
  (forall a b, s = a +:+ m +:+ b -> (i <= String.length a)%nat).
Proof.
  revert i. induction s as [|c s IH]; intros i; cbn [Index].
  - destruct (HasPrefix "" m) eqn:E.
    + apply HasPrefix_spec in E as [t E]. split.
      * intros [= <-]. split; [exists "", t; done|lia].
      * intros [[a [b [E' <-]]] _]. f_equal. destruct a; [done|]. by rewrite string_cons_app in E'.
    + split; [done|]. intros [[a [b [E' _]]] _]. destruct a; [|by rewrite string_cons_app in E'].
      assert (HasPrefix "" m = true) by (apply HasPrefix_spec; by exists b). congruence.
  - destruct (HasPrefix (String c s) m) eqn:E.
    + apply HasPrefix_spec in E as [t E]. split.
      * intros [= <-]. split; [exists "", t; done|lia].
      * intros [_ Hmin]. f_equal. specialize (Hmin "" t E). cbn in Hmin. lia.
    + assert (Hno : forall b, String c s <> m +:+ b).
      { intros b Hb. assert (HasPrefix (String c s) m = true) by (apply HasPrefix_spec; by exists b). congruence. }
      split.
      * destruct (Index s m) as [j|] eqn:Ej; [|done]. cbn. intros [= <-]. destruct (proj1 (IH j) eq_refl) as [[a [b [Es Hl]]] Hmin]. split.
        -- exists (String c a), b. rewrite string_cons_app. split; [by rewrite Es|cbn; lia].
        -- intros a' b' E'. destruct a' as [|x a']; [by destruct (Hno b')|]. rewrite string_cons_app in E'. injection E' as _ E'.
           specialize (Hmin a' b' E'). cbn. lia.
      * intros [[a [b [Es Hl]]] Hmin]. destruct a as [|x a]; [by destruct (Hno b)|]. rewrite string_cons_app in Es. injection Es as <- Es.
        cbn in Hl. subst i. assert (Index s m = Some (String.length a)) as ->; [|done]. apply IH. split; [by exists a, b|].
        intros a' b' E'. specialize (Hmin (String c a') b'). rewrite string_cons_app in Hmin. cbn in Hmin.
        rewrite E' in Hmin at 1. specialize (Hmin eq_refl). lia.
Qed.

Lemma Contains_spec s m : Contains s m = true <-> exists a b, s = a +:+ m +:+ b.
Proof.
  induction s as [|c s IH]; cbn [Contains].
  - rewrite orb_false_r, HasPrefix_spec. split; [intros [t E]; by exists "", t|].
    intros (a & b & E). destruct a; [by exists b|by rewrite string_cons_app in E].
  - rewrite orb_true_iff, HasPrefix_spec, IH. split.
    + intros [[t E]|(a & b & E)]; [by exists "", t|exists (String c a), b]. rewrite string_cons_app. by rewrite E.
    + intros (a & b & E). destruct a as [|x a]; [left; by exists b|right]. rewrite string_cons_app in E. injection E as _ E. by exists a, b.
Qed.

Lemma Index_none s m : Index s m = None <-> Contains s m = false.
Proof.
  induction s as [|c s IH]; cbn [Index Contains]; destruct (HasPrefix _ m); cbn [orb]; try done.
  rewrite <- IH. by destruct (Index s m).
Qed.

(** ** Splitting *)

Lemma find_prefix s ds d : List.find (HasPrefix s) ds = Some d -> List.In d ds /\ exists t, s = d +:+ t.
Proof. intros H. apply find_some in H as [H1 H2]. split; [done|]. by apply HasPrefix_spec. Qed.

Lemma slice_from_cons c s n : slice_from (String c s) (S n) = slice_from s n.
Proof. done. Qed.

(** Parts separated by delimiters, with none inside a part. *)
Inductive splits (ds : list string) : string -> list string -> Prop :=
| splits_last s : (forall d, List.In d ds -> Contains s d = false) -> splits ds s [s]
| splits_more a d s ps :
    List.In d ds -> splits ds s ps ->
    (forall a' d' b, List.In d' ds -> a +:+ d +:+ s = a' +:+ d' +:+ b -> (String.length a <= String.length a')%nat) ->
    splits ds (a +:+ d +:+ s) (a :: ps).

Lemma split_at_skip ds k s : split_at ds k s = split_at ds 0 (slice_from s k).
Proof.
  revert k. induction s as [|c s IH]; intros k; [by destruct k|]. destruct k as [|k]; [done|]. cbn [split_at slice_from]. apply IH.
Qed.

(** A byte at which no delimiter starts belongs to the first part. *)
Lemma splits_cons ds c s p ps :
  splits ds s (p :: ps) -> (forall d b, List.In d ds -> String c s <> d +:+ b) -> splits ds (String c s) (String c p :: ps).
Proof.
  intros H Hno. remember (p :: ps) as l eqn:El. destruct H as [s Hs|a d s ps' Hd Hs Hmin]; injection El as -> <-.
  - constructor. intros d Hd. cbn [Contains]. rewrite (Hs d Hd), orb_false_r. apply not_true_iff_false.
    rewrite HasPrefix_spec. intros [b Hb]. by apply (Hno d b).
  - rewrite <- string_cons_app. apply splits_more; [done|done|].
    intros a' d' b Hd' Eab. destruct a' as [|x a']; [exfalso; by apply (Hno d' b Hd')|].
    rewrite !string_cons_app in Eab. injection Eab as _ Eab. specialize (Hmin a' d' b Hd' Eab). cbn. lia.
Qed.

Lemma split_on_splits ds s : (forall d, List.In d ds -> d <> "") -> splits ds s (split_on ds s).
Proof.
  intros Hds. remember (String.length s) as n eqn:E. revert s E. induction (lt_wf n) as [n _ IH]. intros s E.
  destruct s as [|c s].
  - cbn. constructor. intros d Hd. apply not_true_iff_false. rewrite Contains_spec. intros (a & b & Eab).
    destruct a; [|by rewrite string_cons_app in Eab]. specialize (Hds d Hd). destruct d; [done|]. by rewrite string_cons_app in Eab.
  - unfold split_on. cbn [split_at]. destruct (List.find (HasPrefix (String c s)) ds) as [d|] eqn:Ef.
    + apply find_prefix in Ef as [Hd [t Et]]. rewrite split_at_skip.
      assert (Hs : slice_from s (String.length d - 1) = t).
      { specialize (Hds d Hd). destruct d as [|x d]; [done|]. rewrite string_cons_app in Et. injection Et as _ ->.
        cbn [String.length]. rewrite Nat.sub_succ, Nat.sub_0_r. apply slice_from_app. }
      rewrite Hs. assert (Hlen : (String.length t < n)%nat).
      { rewrite E, Et, length_app_string. specialize (Hds d Hd). destruct d; [done|]. cbn. lia. }
      specialize (IH (String.length t) Hlen t eq_refl). unfold split_on in IH. destruct (split_at ds 0 t) as [p ps].
      rewrite Et. change (d +:+ t) with ("" +:+ d +:+ t). apply splits_more; [done|done|cbn; lia].
    + specialize (IH (String.length s) ltac:(cbn in E; lia) s eq_refl). unfold split_on in IH. destruct (split_at ds 0 s) as [p ps] eqn:Ep.
      assert (Hno : forall d b, List.In d ds -> String c s <> d +:+ b).
      { intros d b Hd Hb. pose proof (find_none _ _ Ef d Hd) as Hn. cbv beta in Hn.
        assert (HasPrefix (String c s) d = true) by (apply HasPrefix_spec; by exists b). congruence. }
      by apply splits_cons.
Qed.

Lemma splits_nonempty ds s ps : splits ds s ps -> ps <> [].
Proof. by destruct 1. Qed.

Lemma splits_join d s ps : splits [d] s ps -> strings_Join ps d = s.
Proof.
  induction 1 as [s _|a d' s ps [->|[]] Hs IH _]; [done|]. pose proof (splits_nonempty _ _ _ Hs). destruct ps as [|p ps]; [done|].
  change (strings_Join (a :: p :: ps) d') with (a +:+ d' +:+ strings_Join (p :: ps) d'). by rewrite IH.
Qed.

Lemma splits_parts ds s ps :
  (forall d, List.In d ds -> d <> "") -> splits ds s ps -> Forall (fun p => forall d, List.In d ds -> Contains p d = false) ps.
Proof.
  intros Hds. induction 1 as [s Hs|a d s ps Hd Hs IH Hmin]; [by repeat constructor|]. constructor; [|done].
  intros d' Hd'. apply not_true_iff_false. rewrite Contains_spec. intros (x & y & ->).
  specialize (Hmin x d' (y +:+ d +:+ s) Hd'). rewrite !string_app_assoc in Hmin. specialize (Hmin eq_refl).
  rewrite !length_app_string in Hmin. specialize (Hds d' Hd'). destruct d'; [done|]. cbn [String.length] in Hmin. lia.
Qed.

Lemma join_empty ss : strings_Join ss "" = concat_strings ss.
Proof.
  induction ss as [|s ss IH]; [done|]. rewrite concat_cons, <- IH. destruct ss; cbn; [by rewrite string_app_nil_r|done].
Qed.

Section Library.
Context {DO : DecimalOps} {DL : DecimalLaws DO}.

Lemma stringJoin_strings ss sep :
  stringJoinFn (BlList (map BlString ss)) (Some (BlString sep)) None = Ok (BlString (strings_Join ss sep)).
Proof.
  unfold stringJoinFn. cbn [as_list result_bind as_string].
  assert (E : string_items (TypeError "stringJoin" "elements must be strings") (map BlString ss) = Ok ss).
  { induction ss as [|x ss IH]; [done|]. cbn [map string_items]. by rewrite IH. }
  rewrite E. cbn [result_bind fst snd]. change ("" +:+ ?x) with x. by rewrite string_app_nil_r.
Qed.

(** What [split] cuts at a separator, [stringJoin] puts together again; no part
    contains the separator. *)
Theorem split_then_join (s d : string) :
  exists ps, splitFn (BlString s) (BlString d) = Ok (BlList (map BlString ps)) /\
    stringJoinFn (BlList (map BlString ps)) (Some (BlString d)) None = Ok (BlString s) /\
    (d <> "" -> Forall (fun p => Contains p d = false) ps).
Proof.
  exists (strings_Split s d). split; [done|]. unfold strings_Split. destruct (String.eqb_spec d "") as [->|Hd].
  - split; [|done]. rewrite stringJoin_strings. by rewrite join_empty, decode_concat.
  - assert (Hds : forall d', List.In d' [d] -> d' <> "") by (intros d' [<-|[]]; done).
    pose proof (split_on_splits [d] s Hds) as Hs. split.
    + rewrite stringJoin_strings. by rewrite (splits_join d s).
    + intros _. eapply Forall_impl; [by eapply splits_parts|]. cbn. intros p Hp. apply Hp. by left.
Qed.

(** [contains], [indexOf], [substringBefore] and [substringAfter] agree on the
    first occurrence: the position counts the code points before it. *)
Theorem first_occurrence (s m : string) :
  if Contains s m
  then exists a b, s = a +:+ m +:+ b /\ (forall a' b', s = a' +:+ m +:+ b' -> (String.length a <= String.length a')%nat) /\
         containsFn s m = BlBoolean true /\ strIndexOfFn s m = numFromInt (RuneCount a + 1) /\
         substringBeforeFn s m = BlString a /\ substringAfterFn s m = BlString b
  else containsFn s m = BlBoolean false /\ strIndexOfFn s m = BlNull /\
         substringBeforeFn s m = BlString "" /\ substringAfterFn s m = BlString "".
Proof.
  unfold containsFn, strIndexOfFn, substringBeforeFn, substringAfterFn. destruct (Contains s m) eqn:Ec.
  - destruct (Index s m) as [i|] eqn:Ei; [|apply Index_none in Ei; congruence].
    apply Index_spec in Ei as [(a & b & -> & <-) Hmin]. exists a, b. rewrite slice_to_app, slice_from_plus, slice_from_app.
    split_and!; [done|exact Hmin|done..].
  - apply Index_none in Ec. by rewrite Ec.
Qed.

Lemma runes_take_drop i k s : runes (of_runes (take i (drop k (runes s)))) = take i (drop k (runes s)).
Proof.
  apply runes_of_runes, forallb_forall. intros r Hr. pose proof (runes_scalar s) as H. rewrite forallb_forall in H. apply H.
  apply list_elem_of_In in Hr. apply elem_of_take in Hr as (j & Hj & _). apply list_elem_of_In.
  rewrite lookup_drop in Hj. by apply list_elem_of_lookup_2 in Hj.
Qed.

(** The position a start stands for: from the end when negative, at least 1. *)
Definition start_at (n st : Z) : Z := Z.max 1 (if st <? 0 then n + st + 1 else st).

(** [substring] takes code points: from the start position, as many as asked for
    and are there. *)
Theorem substring_code_points (s : string) (start len : Decimal) :
  0 <= dIntPart len -> start_at (RuneCount s) (dIntPart start) - 1 + dIntPart len < 2 ^ 63 ->
  let p := start_at (RuneCount s) (dIntPart start) in
  exists r, substringFn (BlString s) (BlNumber start) (Some (BlNumber len)) = Ok (BlString r) /\
    runes r = take (Z.to_nat (dIntPart len)) (drop (Z.to_nat (p - 1)) (runes s)) /\
  exists r', substringFn (BlString s) (BlNumber start) None = Ok (BlString r') /\
    runes r' = drop (Z.to_nat (p - 1)) (runes s).
Proof.
  intros Hl Hov p. unfold substringFn. rewrite runes_length. cbv zeta.
  set (n := RuneCount s) in *.
  assert (Hn : Z.of_nat (length (runes s)) = n) by apply runes_length. clearbody n.
  replace (if (if dIntPart start <? 0 then n + dIntPart start + 1 else dIntPart start) <? 1 then 1
           else if dIntPart start <? 0 then n + dIntPart start + 1 else dIntPart start) with p
    by (unfold p, start_at; destruct (Z.ltb_spec (if dIntPart start <? 0 then n + dIntPart start + 1 else dIntPart start) 1); lia).
  assert (Hp : 1 <= p) by (unfold p, start_at; lia). fold p in Hov. clearbody p.
  destruct (Z.ltb_spec n p).
  - rewrite drop_ge by lia. rewrite take_nil. exists "". split_and!; [done|done|]. exists "". done.
  - cbn [result_bind]. rewrite int64_id by lia.
    replace (if (if n <? p - 1 + dIntPart len then n else p - 1 + dIntPart len) <? p - 1 then p - 1
             else if n <? p - 1 + dIntPart len then n else p - 1 + dIntPart len)
      with (Z.min n (p - 1 + dIntPart len))
      by (destruct (Z.ltb_spec n (p - 1 + dIntPart len)); [destruct (Z.ltb_spec n (p - 1))|destruct (Z.ltb_spec (p - 1 + dIntPart len) (p - 1))]; lia).
    destruct (Z.ltb_spec n (p - 1)) as [|_]; [lia|]. eexists. split; [reflexivity|]. rewrite runes_take_drop. split.
    + destruct (Z.le_ge_cases (p - 1 + dIntPart len) n).
      * do 2 f_equal. lia.
      * rewrite !take_ge; [done|rewrite length_drop; lia..].
    + eexists. split; [reflexivity|]. rewrite runes_take_drop, take_ge; [done|rewrite length_drop; lia].
Qed.

(** *** Reversal, characters, padding *)

Lemma runes_repeat n pad r : Valid pad = true -> runes pad = [r] -> runes (repeat_string n pad) = repeat r n /\ Valid (repeat_string n pad) = true.
Proof.
  intros Hv Hr. induction n as [|n [IH1 IH2]]; [done|]. cbn [repeat_string repeat]. rewrite runes_app, Hr, IH1 by done.
  split; [done|by apply Valid_app].
Qed.

Lemma repeat_nonempty s n : s <> "" -> 0 <= n -> n * Z.of_nat (String.length s) < 2 ^ 63 ->
  strings_Repeat s n = Ok (repeat_string (Z.to_nat n) s).
Proof.
  intros Hs Hn Hlen. unfold strings_Repeat. destruct (Z.ltb_spec n 0); [lia|]. destruct (Z.leb_spec (2 ^ 63) (n * Z.of_nat (String.length s))); [lia|].
  by destruct (String.eqb_spec s "").
Qed.

Lemma padFn_eq s target pad leading :
  RuneCount pad = 1 ->
  padFn [BlString s; BlNumber target; BlString pad] leading =
    if dIntPart target <=? RuneCount s then Ok (BlString s)
    else let! fill := strings_Repeat pad (dIntPart target - RuneCount s) in
         Ok (BlString (if leading then fill +:+ s else s +:+ fill)).
Proof.
  intros H. unfold padFn.
  change (arg [BlString s; BlNumber target; BlString pad] 0) with (BlString s).
  change (arg [BlString s; BlNumber target; BlString pad] 1) with (BlNumber target).
  change ([BlString s; BlNumber target; BlString pad] !! 2%nat) with (Some (BlString pad)). cbv beta iota. by rewrite H.
Qed.

(** On valid text, [reverse] reverses the code points and is its own inverse,
    [charAt] is the code point at a position, lengths add up, and padding fills
    up to the target length. *)
Theorem text_is_code_points (s t pad : string) (pos target : Decimal) :
  Valid s = true -> Valid pad = true -> RuneCount pad = 1 ->
  (dIntPart target - RuneCount s) * Z.of_nat (String.length pad) < 2 ^ 63 ->
  RuneCount (s +:+ t) = RuneCount s + RuneCount t /\
  (exists r, strReverseFn s = BlString r /\ runes r = rev (runes s) /\ strReverseFn r = BlString s) /\
  (exists r, charAtFn s pos = BlString r /\
     runes r = if 1 <=? dIntPart pos then take 1 (drop (Z.to_nat (dIntPart pos - 1)) (runes s)) else []) /\
  (exists r fill, padLeadingFn [BlString s; BlNumber target; BlString pad] = Ok (BlString r) /\
     padTrailingFn [BlString s; BlNumber target; BlString pad] = Ok (BlString (s +:+ fill)) /\
     r = fill +:+ s /\ runes fill = concat (repeat (runes pad) (Z.to_nat (dIntPart target - RuneCount s))) /\
     RuneCount r = Z.max (RuneCount s) (dIntPart target)).
Proof.
  intros Hs Hpad Hone Hfit. split_and!.
  - rewrite <- !runes_length, runes_app, length_app by done. lia.
  - exists (of_runes (rev (runes s))). assert (Hrev : forallb scalar (rev (runes s)) = true).
    { apply forallb_forall. intros x Hx. pose proof (runes_scalar s) as H. rewrite forallb_forall in H. apply H. by apply in_rev. }
    destruct (runes_of_runes _ Hrev) as [E _]. split_and!; [done|done|]. unfold strReverseFn. rewrite E, rev_involutive.
    by rewrite of_runes_runes.
  - eexists. split; [reflexivity|]. destruct (Z.leb_spec 1 (dIntPart pos)).
    + destruct (Z.ltb_spec (dIntPart pos) 1); [lia|]. cbn [orb]. destruct (Z.ltb_spec (Z.of_nat (length (runes s))) (dIntPart pos)).
      * by rewrite drop_ge by lia.
      * apply runes_take_drop.
    + by destruct (Z.ltb_spec (dIntPart pos) 1); [|lia].
  - assert (exists r, runes pad = [r]) as [r Hr].
    { rewrite <- runes_length in Hone. destruct (runes pad) as [|r [|]]; [done|by exists r|cbn in Hone; lia]. }
    assert (Hne : pad <> "") by (intros ->; done). unfold padLeadingFn, padTrailingFn. rewrite !padFn_eq by done.
    destruct (Z.leb_spec (dIntPart target) (RuneCount s)) as [Hle|Hlt].
    + exists s, "". rewrite string_app_nil_r. replace (Z.to_nat (dIntPart target - RuneCount s)) with O by lia.
      split_and!; [done|done|done|done|lia].
    + rewrite repeat_nonempty by (done || lia). cbn [result_bind]. eexists _, _. split_and!; [reflexivity|reflexivity|reflexivity| |].
      * rewrite (proj1 (runes_repeat _ pad r Hpad Hr)), Hr. generalize (Z.to_nat (dIntPart target - RuneCount s)). intros k.
        induction k as [|k IH]; [done|]. cbn [repeat concat app]. by rewrite <- IH.
      * destruct (runes_repeat (Z.to_nat (dIntPart target - RuneCount s)) pad r Hpad Hr) as [E1 E2].
        rewrite <- runes_length, runes_app, length_app, E1, repeat_length, Nat2Z.inj_add, runes_length by done. lia.
Qed.

(** *** Trimming *)

Lemma drop_runes_spec f ps :
  exists l, ps = l ++ drop_runes f ps /\ Forall (fun p => f (fst p) = true) l /\
    match drop_runes f ps with [] => True | p :: _ => f (fst p) = false end.
Proof.
  induction ps as [|p ps (l & E & Hl & Hh)]; [by exists []|]. cbn [drop_runes]. destruct (f (fst p)) eqn:Ef.
  - exists (p :: l). split_and!; [cbn; by rewrite <- E|by constructor|done].
  - exists []. split_and!; [done|constructor|done].
Qed.

(** [trim] cuts the white space off both ends, and nothing else. *)
Theorem trim_cuts_space (s : string) :
  exists a r b, decode s = a ++ r ++ b /\ trimFn s = BlString (raw r) /\
    Forall (fun p => rune_IsSpace (fst p) = true) (a ++ b) /\
    (forall p, head r = Some p \/ last r = Some p -> rune_IsSpace (fst p) = false) /\
    isBlankFn s = BlBoolean (bool_decide (r = [])).
Proof.
  destruct (drop_runes_spec rune_IsSpace (decode s)) as (a & Ea & Ha & Hh). set (m := drop_runes rune_IsSpace (decode s)) in *.
  destruct (drop_runes_spec rune_IsSpace (rev m)) as (b & Eb & Hb & Hl). set (r := drop_runes rune_IsSpace (rev m)) in *.
  assert (Em : m = rev r ++ rev b) by (rewrite <- (rev_involutive m), Eb; by rewrite rev_app_distr).
  exists a, (rev r), (rev b). split_and!.
  - by rewrite <- Em.
  - reflexivity.
  - apply Forall_app. split; [done|]. by apply Forall_rev.
  - intros p [Hp|Hp].
    + rewrite Em in Hh. destruct (rev r) as [|q l]; [done|]. by injection Hp as ->.
    + destruct r as [|q l]; [done|]. cbn [rev] in Hp. rewrite last_snoc in Hp. by injection Hp as ->.
  - unfold isBlankFn, strings_TrimSpace. fold m. fold r. f_equal. apply eq_true_iff_eq. rewrite String.eqb_eq, bool_decide_eq_true.
    split; [|by intros ->]. intros Hraw. destruct (rev r) as [|q l] eqn:Er; [done|]. exfalso.
    assert (Hq : List.In q (decode s)) by (rewrite Ea, Em; apply in_app_iff; right; apply in_app_iff; left; by left).
    assert (Hne : snd q <> "") by (by apply (decode_nonempty s)).
    unfold raw in Hraw. cbn [map] in Hraw. rewrite concat_cons in Hraw. by destruct (snd q).
Qed.

End Library.

(** ** Samples *)

#[local] Existing Instance tenDecimal.

(** A text of three code points in six bytes. *)
Definition sampleText : string := of_runes [97; 233; 8364].

Lemma substring_code_points_witness :
  exists r, substringFn (DO := tenDecimal) (BlString sampleText) (BlNumber (DO := tenDecimal) (mkTen 2 0)) (Some (BlNumber (DO := tenDecimal) (mkTen 5 0))) = Ok (BlString r) /\
    runes r = [233; 8364].
Proof.
  destruct (substring_code_points (DO := tenDecimal) sampleText (mkTen 2 0) (mkTen 5 0)) as (r & H1 & H2 & _);
    [vm_compute; discriminate|vm_compute; reflexivity|]. exists r. split; [exact H1|]. rewrite H2. vm_compute. reflexivity.
Defined.

Lemma text_is_code_points_witness :
  exists r, strReverseFn (DO := tenDecimal) sampleText = BlString r /\ runes r = [8364; 233; 97].
Proof.
  destruct (text_is_code_points (DO := tenDecimal) sampleText "" " " (mkTen 1 0) (mkTen 5 0)) as (_ & (r & H1 & H2 & _) & _);
    [vm_compute; reflexivity..|]. exists r. split; [exact H1|]. rewrite H2. vm_compute. reflexivity.
Defined.

(** A length near the largest integer wraps: the substring is empty instead of
    the rest of the text. *)
Theorem substring_length_overflow :
  substringFn (DO := tenDecimal) (BlString "abc") (BlNumber (DO := tenDecimal) (mkTen 2 0)) (Some (BlNumber (DO := tenDecimal) (mkTen (2 ^ 63 - 1) 0))) = Ok (BlString "") /\
  substringFn (DO := tenDecimal) (BlString "abc") (BlNumber (DO := tenDecimal) (mkTen 2 0)) (Some (BlNumber (DO := tenDecimal) (mkTen (2 ^ 63 - 2) 0))) = Ok (BlString "bc").
Proof. split; vm_eq. Qed.
