(* ===== verification/Tables.v ===== *)
(** * Tables

    Models [core/table.go] and [core/table_methods.go]: construction, row and
    column selection, the transformation methods, sorting by several keys,
    unions, joins and grouping.  A cell is read with [cell]: a row of a table
    has every column of the table, so the [nil] a missing key would give does
    not occur. *)

From Stdlib Require Import SpecFloat.
From S2P Require Import Prelude Decimal GoText GoTime Values ValueLaws Lists Numbers GoTimeText Durations Temporal Schema Dictionaries Strings.
#[global] Open Scope Z_scope.

Section Tables.
Context {DO : DecimalOps} {DT : DecimalText DO}.

Abbreviation dict := (list (string * BlValue)).

Record TableV : Type := mkTable { t_columns : list string; t_rows : list dict }.
Definition of_table (t : TableV) : BlValue := BlTable (t_columns t) (t_rows t).
Definition get_table (v : BlValue) : option TableV := match v with BlTable c r => Some (mkTable c r) | _ => None end.

Definition cell (r : dict) (c : string) : BlValue := default BlNull (get r c).

(** ** Construction *)

Definition sortedCopy (ss : list string) : list string := slice_stable string_less ss.

(** [knownType]: a [Type] of the model is one of the constants. *)
Fixpoint table_header (columns : list (string * Ty)) (seen : list string) : result unit :=
  match columns with
  | [] => Ok tt
  | (n, ty) :: columns' =>
      if String.eqb n "" then Err (TypeError "Table" "empty column name")
      else if bool_decide (n ∈ seen) then Err (TypeError "Table" ("duplicate column " +:+ n))
      else if Ty_eqb ty TypeNull then Err (TypeError "Table" "invalid column type")
      else table_header columns' (n :: seen)
  end.

(** One row: each cell is wrapped, checked and set. *)
Fixpoint table_row (columns : list (string * Ty)) (r : list HostValue) (d : dict) : result dict :=
  match columns, r with
  | (n, ty) :: columns', h :: r' =>
      let! v := wrap h in
      if negb (IsNull v) && negb (Ty_eqb (type_of v) ty) && negb (Ty_eqb ty TypeAny)
      then Err (TypeError "Table" ("cell type mismatch in column " +:+ n))
      else table_row columns' r' (dict_set d n v)
  | _, _ => Ok d
  end.

Fixpoint table_rows (columns : list (string * Ty)) (rows : list (list HostValue)) : result (list dict) :=
  match rows with
  | [] => Ok []
  | r :: rows' =>
      if negb (length r =? length columns)%nat then Err (TypeError "Table" "row length mismatch")
      else
        let! d := table_row columns r newDictionary in
        let! ds := table_rows columns rows' in
        Ok (d :: ds)
  end.

Definition Table (columns : list (string * Ty)) (rows : list (list HostValue)) : result TableV :=
  let! _ := table_header columns [] in
  let! built := table_rows columns rows in
  Ok (mkTable (sortedCopy (map fst columns)) built).

(** [tableFromDictsFn] *)
Fixpoint uniform_rows (cols : option (list string)) (items : list BlValue) : result (list string * list dict) :=
  match items with
  | [] => Ok (default [] cols, [])
  | BlDictionary d :: items' =>
      let keys := sortedKeys d in
      if match cols with Some c => negb (sameStringSet c keys) | None => false end
      then Err (TypeError "tableFromDicts" "non-uniform keys")
      else
        let! r := uniform_rows (Some (match cols with Some c => c | None => keys end)) items' in
        Ok (fst r, d :: snd r)
  | _ :: _ => Err (TypeError "tableFromDicts" "elements must be dictionaries")
  end.
Definition tableFromDictsFn (items : list BlValue) : result TableV :=
  match items with
  | [] => Ok (mkTable [] [])
  | _ => let! r := uniform_rows None items in Ok (mkTable (fst r) (snd r))
  end.

(** The header of [tableFn]. *)
Fixpoint header_names (items : list BlValue) (seen : list string) : result (list string) :=
  match items with
  | [] => Ok []
  | BlString s :: items' =>
      if String.eqb s "" then Err (TypeError "table" "column names must be non-empty strings")
      else if bool_decide (s ∈ seen) then Err (TypeError "table" ("duplicate column " +:+ s))
      else let! ns := header_names items' (s :: seen) in Ok (s :: ns)
  | _ :: _ => Err (TypeError "table" "column names must be non-empty strings")
  end.

(** The cells of one row; [types] holds the type of each column seen so far. *)
Fixpoint set_cells (names : list string) (cells : list BlValue) (types : list (string * Ty)) (d : dict)
  : result (list (string * Ty) * dict) :=
  match names, cells with
  | n :: names', v :: cells' =>
      if IsNull v then set_cells names' cells' types (dict_set d n v)
      else match assoc n types with
           | Some ty =>
               if Ty_eqb (type_of v) ty then set_cells names' cells' types (dict_set d n v)
               else Err (TypeError "table" ("non-uniform type in column " +:+ n))
           | None => set_cells names' cells' ((n, type_of v) :: types) (dict_set d n v)
           end
  | _, _ => Ok (types, d)
  end.

Fixpoint literal_rows (names : list string) (rows : list BlValue) (types : list (string * Ty)) : result (list dict) :=
  match rows with
  | [] => Ok []
  | r :: rows' =>
      match r with
      | BlList cells =>
          if negb (length cells =? length names)%nat
          then Err (TypeError "table" "each row must be a list matching the header length")
          else
            let! td := set_cells names cells types newDictionary in
            let! ds := literal_rows names rows' (fst td) in
            Ok (snd td :: ds)
      | _ => Err (TypeError "table" "each row must be a list matching the header length")
      end
  end.

Definition tableFn (args : list BlValue) : result TableV :=
  match args with
  | [] => Err (TypeError "table" "expected column names")
  | BlList header :: rows =>
      let! names := header_names header [] in
      let! ds := literal_rows names rows [] in
      Ok (mkTable (sortedCopy names) ds)
  | _ :: _ => Err (TypeError "table" "first argument must be a list of column names")
  end.

(** ** Reading *)

Definition hasColumn (t : TableV) (name : string) : bool := existsb (fun c => String.eqb c name) (t_columns t).
Definition hasColumnFn (t : TableV) (name : string) : BlValue := BlBoolean (hasColumn t name).

Definition tableComponent (t : TableV) (name : string) : BlValue :=
  if String.eqb name "nRows" then numFromInt (Z.of_nat (length (t_rows t)))
  else if String.eqb name "nCols" then numFromInt (Z.of_nat (length (t_columns t)))
  else if String.eqb name "colNames" then listOfStrings (t_columns t)
  else BlList (map (fun r => cell r name) (t_rows t)).

Definition subTable (t : TableV) (rows : list dict) : TableV := mkTable (t_columns t) rows.

(** The row a selector index stands for: 1-based, negative from the end. *)
Definition row_at (t : TableV) (i : Z) : option dict :=
  let n := Z.of_nat (length (t_rows t)) in
  let i := if i <? 0 then n + i + 1 else i in
  if (i <? 1) || (n <? i) then None else t_rows t !! Z.to_nat (i - 1).

Definition rowByIndex (t : TableV) (i : Z) : TableV :=
  subTable t (match row_at t i with Some r => [r] | None => [] end).

Definition toList (t : TableV) : BlValue :=
  match t_columns t with
  | [c] => BlList (map (fun r => cell r c) (t_rows t))
  | _ => BlList (map BlDictionary (t_rows t))
  end.
Definition toDict (t : TableV) : result BlValue :=
  match t_rows t with
  | [r] => Ok (BlDictionary r)
  | _ => Err (TypeError "toDict" "requires exactly one row")
  end.
Definition toValue (t : TableV) : result BlValue :=
  match t_rows t, t_columns t with
  | [r], [c] => Ok (cell r c)
  | _, _ => Err (TypeError "toValue" "requires exactly one row and one column")
  end.
Definition toRowList (t : TableV) : BlValue := BlList (map BlDictionary (t_rows t)).

(** ** Row and column selection *)

(** A row restricted to columns, each set in turn. *)
Definition pick_row (cols : list string) (r : dict) : dict :=
  fold_left (fun d c => dict_set d c (cell r c)) cols newDictionary.

(** First occurrences of the names. *)
Definition dedupe (names : list string) : list string :=
  fold_left (fun out c => if bool_decide (c ∈ out) then out else out ++ [c]) names [].

Definition selectColumns (t : TableV) (names : list string) : TableV :=
  mkTable (dedupe names) (map (pick_row names) (t_rows t)).

Fixpoint string_names (err : GoError) (items : list BlValue) : result (list string) :=
  match items with
  | [] => Ok []
  | BlString s :: items' => let! ss := string_names err items' in Ok (s :: ss)
  | _ :: _ => Err err
  end.

Definition columnSelector (sel : BlValue) : result (list string) :=
  match sel with
  | BlString c => Ok [c]
  | BlList items => string_names (TypeError "tableIndex" "column names must be strings") items
  | _ => Err (TypeError "tableIndex" "column selector must be a name or list of names")
  end.

(** The rows of an index list, each index once. *)
Fixpoint slice_rows (t : TableV) (items : list BlValue) (seen : list Z) : result (list dict) :=
  match items with
  | [] => Ok []
  | BlNumber d :: items' =>
      let n := Z.of_nat (length (t_rows t)) in
      let i := dIntPart d in
      let i := if i <? 0 then n + i + 1 else i in
      match (if (i <? 1) || (n <? i) || bool_decide (i ∈ seen) then None else t_rows t !! Z.to_nat (i - 1)) with
      | None => slice_rows t items' seen
      | Some r => let! rs := slice_rows t items' (i :: seen) in Ok (r :: rs)
      end
  | _ :: _ => Err (TypeError "slice" "index must be a number")
  end.

Definition tableSliceFn (t : TableV) (sel : BlValue) : result TableV :=
  match sel with
  | BlNumber d => Ok (rowByIndex t (dIntPart d))
  | BlList items => let! rows := slice_rows t (concat (map flatten_value items)) [] in Ok (subTable t rows)
  | _ => Err (TypeError "slice" "invalid row selector")
  end.

Definition tableColsFn (t sel : BlValue) : result BlValue :=
  match get_table t with
  | None => Err (argTypeError t)
  | Some t => let! names := columnSelector sel in Ok (of_table (selectColumns t names))
  end.

Definition tableIndexFn (t r c : BlValue) : result BlValue :=
  match get_table t with
  | None => Err (argTypeError t)
  | Some t =>
      let! rowsSub :=
        match r with
        | BlNumber d => Ok (rowByIndex t (dIntPart d))
        | BlList _ => tableSliceFn t r
        | _ => Err (TypeError "tableIndex" "row selector must be an index or list")
        end in
      let! names := columnSelector c in
      Ok (of_table (selectColumns rowsSub names))
  end.

(** [retableFn] on the values a filter kept. *)
Definition retableFn (orig : BlValue) (arr : list BlValue) : BlValue :=
  match get_table orig with
  | Some t => of_table (subTable t (omap get_dict arr))
  | None => BlList arr
  end.

(** ** Transformations *)

Definition selectFn (t : TableV) (names : list string) : result TableV :=
  match List.find (fun n => negb (hasColumn t n)) names with
  | Some n => Err (TypeError "select" ("unknown column " +:+ n))
  | None => Ok (mkTable names (map (pick_row names) (t_rows t)))
  end.

Definition rename_row (cols : list string) (from to : string) (r : dict) : dict :=
  fold_left (fun d c => dict_set d (if String.eqb c from then to else c) (cell r c)) cols newDictionary.

Definition renameFn (t : TableV) (from to : string) : result TableV :=
  if negb (hasColumn t from) then Err (TypeError "rename" ("unknown column " +:+ from))
  else if hasColumn t to then Err (TypeError "rename" ("column " +:+ to +:+ " already exists"))
  else Ok (mkTable (map (fun c => if String.eqb c from then to else c) (t_columns t))
                   (map (rename_row (t_columns t) from to) (t_rows t))).

(** [withColumnTableFn] on the values computed for the rows. *)
Fixpoint with_cells (cols : list string) (name : string) (rows : list dict) (vals : list BlValue) : list dict :=
  match rows with
  | [] => []
  | r :: rows' => dict_set (pick_row cols r) name (default BlNull (head vals)) :: with_cells cols name rows' (tail vals)
  end.
Definition withColumnTableFn (t name : BlValue) (vals : list BlValue) : result BlValue :=
  match get_table t with
  | None => Err (argTypeError t)
  | Some t =>
      match name with
      | BlString name =>
          Ok (of_table (mkTable (t_columns t ++ (if hasColumn t name then [] else [name]))
                                (with_cells (t_columns t) name (t_rows t) vals)))
      | _ => Err (argTypeError name)
      end
  end.

Definition row_eq (a b : dict) : bool := eqTrue (Equal (BlDictionary a) (BlDictionary b)).

Definition add_row (out : list dict) (r : dict) : list dict := if existsb (row_eq r) out then out else out ++ [r].
Definition tableDistinctFn (t : TableV) : TableV := subTable t (fold_left add_row (t_rows t) []).

(** *** Sorting *)

Definition ascFn (c : string) : BlValue := BlSortKey c false None.
Definition descFn (c : string) : BlValue := BlSortKey c true None.
Definition inOrderFn (c : string) (order : list BlValue) : BlValue := BlSortKey c false (Some order).

Record SortSpec : Type := mkSpec { k_column : string; k_descending : bool; k_order : option (list BlValue) }.

Fixpoint sort_specs (t : TableV) (keys : list BlValue) : result (list SortSpec) :=
  match keys with
  | [] => Ok []
  | k :: keys' =>
      let! sp := match k with
                 | BlString c => Ok (mkSpec c false None)
                 | BlSortKey c d o => Ok (mkSpec c d o)
                 | _ => Err (TypeError "sort" "invalid sort key")
                 end in
      if negb (hasColumn t (k_column sp)) then Err (TypeError "sort" ("unknown column " +:+ k_column sp))
      else let! sps := sort_specs t keys' in Ok (sp :: sps)
  end.

(** [ascCompare]: nulls last; [None] records the sort error. *)
Definition ascCompare (a b : BlValue) : option Z :=
  if IsNull a || IsNull b then Some (if IsNull a && IsNull b then 0 else if IsNull a then 1 else -1)
  else compareValues a b.

Definition cmpInt (a b : Z) : Z := if a <? b then -1 else if b <? a then 1 else 0.

(** [rankInOrder] is the rank of [Lists]. *)
Definition rankInOrder (v : BlValue) (order : list BlValue) : Z := Z.of_nat (rank order v).

Definition compareCells (a b : BlValue) (k : SortSpec) : option Z :=
  match k_order k with
  | Some order =>
      let ra := rankInOrder a order in
      let rb := rankInOrder b order in
      if negb (ra =? rb) then Some (cmpInt ra rb) else ascCompare a b
  | None => option_map (fun c => if k_descending k then - c else c) (ascCompare a b)
  end.

(** The comparison of two rows; [None] when two cells cannot be compared. *)
Fixpoint row_less (specs : list SortSpec) (a b : dict) : option bool :=
  match specs with
  | [] => Some false
  | k :: specs' =>
      match compareCells (cell a (k_column k)) (cell b (k_column k)) k with
      | None => None
      | Some c => if negb (c =? 0) then Some (c <? 0) else row_less specs' a b
      end
  end.

(** [tableSortFn]; on tables of more than twenty rows the library compares other
    pairs of rows than [sort_from], which matters only when an error of a later
    key is met on some pairs and not on others. *)
Definition tableSortFn (t : TableV) (keys : list BlValue) : result TableV :=
  match keys with
  | [] => Err (TypeError "sort" "at least one sort key required")
  | _ =>
      let! specs := sort_specs t keys in
      match sort_from (row_less specs) [] (t_rows t) with
      | None => Err (TypeError "sort" "non-comparable cells")
      | Some rows => Ok (subTable t rows)
      end
  end.

(** *** Unions *)

Definition missing_columns (cols : list string) (ts : list TableV) : list string :=
  fold_left (fun cols t => fold_left (fun cols c => if bool_decide (c ∈ cols) then cols else cols ++ [c]) (t_columns t) cols) ts cols.

Definition reconcileColumns (first : TableV) (rest : list TableV) (how : string) : result (list string) :=
  if String.eqb how "error" then
    if forallb (fun t => sameStringSet (t_columns first) (t_columns t)) rest then Ok (t_columns first)
    else Err (TypeError "union" "column sets differ")
  else if String.eqb how "all" then Ok (missing_columns (t_columns first) rest)
  else if String.eqb how "common" then
    Ok (List.filter (fun c => forallb (fun t => hasColumn t c) rest) (t_columns first))
  else Err (TypeError "union" ("unknown reconciliation mode " +:+ how)).

(** The tables of a call, and the mode a last string gives. *)
Fixpoint union_args (args : list BlValue) : result (list TableV * string) :=
  match args with
  | [] => Ok ([], "error")
  | v :: args' =>
      match v, args' with
      | BlString s, [] => Ok ([], s)
      | _, _ =>
          match get_table v with
          | None => Err (TypeError "union" "operands must be tables")
          | Some t => let! r := union_args args' in Ok (t :: fst r, snd r)
          end
      end
  end.

Definition unionTablesFn (args : list BlValue) : result TableV :=
  let! r := union_args args in
  match fst r with
  | [] => Ok (mkTable [] [])
  | first :: rest =>
      let! cols := reconcileColumns first rest (snd r) in
      Ok (mkTable cols (concat (map (fun t => map (pick_row cols) (t_rows t)) (first :: rest))))
  end.

Definition unionDispatch (args : list BlValue) : result BlValue :=
  match args with
  | BlTable _ _ :: _ => let! t := unionTablesFn args in Ok (of_table t)
  | _ => unionFn args
  end.

(** *** Joins *)

Definition mergeRow (cols : list string) (left right : dict) : dict :=
  fold_left (fun d c => dict_set d c (match get left c with Some v => v | None => cell right c end)) cols newDictionary.

Definition joinColumns (t other : TableV) (keys : list string) : result (list string) :=
  let isKey c := bool_decide (c ∈ keys) in
  let left := List.filter (fun c => negb (isKey c)) (t_columns t) in
  let right := List.filter (fun c => negb (isKey c)) (t_columns other) in
  match List.find (fun c => bool_decide (c ∈ left)) right with
  | Some c => Err (TypeError "join" ("ambiguous column " +:+ c))
  | None => Ok (keys ++ left ++ right)
  end.

Definition crossJoin (t other : TableV) : result TableV :=
  let! cols := joinColumns t other [] in
  Ok (mkTable cols (concat (map (fun lr => map (mergeRow cols lr) (t_rows other)) (t_rows t)))).

(** The text that stands for the key cells of a row, each followed by a zero byte. *)
Definition keyOf (keys : list string) (r : dict) : string :=
  concat_strings (map (fun k => to_string (cell r k) +:+ str1 (char_of 0)) keys).

Definition rowsKeyEqual (a b : dict) (keys : list string) : bool :=
  forallb (fun k => eqTrue (Equal (cell a k) (cell b k))) keys.

Definition rightJoin (t other : TableV) (keys cols : list string) : TableV :=
  mkTable cols
    (concat (map (fun rr =>
       match List.filter (fun lr => rowsKeyEqual lr rr keys) (t_rows t) with
       | [] => [mergeRow cols [] rr]
       | matches => map (fun lr => mergeRow cols lr rr) matches
       end) (t_rows other))).

Definition equiJoin (t other : TableV) (keys : list string) (how : string) : result TableV :=
  match List.find (fun k => negb (hasColumn t k) || negb (hasColumn other k)) keys with
  | Some k => Err (TypeError "join" ("key column " +:+ k +:+ " missing in one side"))
  | None =>
      let! cols := joinColumns t other keys in
      let matched :=
        concat (map (fun lr =>
          match List.filter (fun rr => String.eqb (keyOf keys rr) (keyOf keys lr)) (t_rows other) with
          | [] => if String.eqb how "left" || String.eqb how "outer" then [mergeRow cols lr []] else []
          | matches => map (mergeRow cols lr) matches
          end) (t_rows t)) in
      let unmatched :=
        if String.eqb how "right" || String.eqb how "outer"
        then map (mergeRow cols []) (List.filter (fun rr => negb (existsb (fun lr => rowsKeyEqual lr rr keys) (t_rows t))) (t_rows other))
        else [] in
      if String.eqb how "right" then Ok (rightJoin t other keys cols) else Ok (mkTable cols (matched ++ unmatched))
  end.

Definition joinFn (args : list BlValue) : result TableV :=
  if (length args <? 3)%nat then Err (TypeError "join" "expected (t, other, on[, how])")
  else
    match get_table (arg args 0), get_table (arg args 1) with
    | Some t, Some other =>
        let! how := match args !! 3%nat with
                    | None => Ok "inner"
                    | Some (BlString h) => Ok h
                    | Some _ => Err (TypeError "join" "how must be a string")
                    end in
        let! keys := match arg args 2 with
                     | BlString on => Ok [on]
                     | BlList items => string_names (TypeError "join" "keys must be strings") items
                     | _ => Err (TypeError "join" "on must be a column name or list")
                     end in
        if String.eqb how "cross" then
          if negb (length keys =? 0)%nat then Err (TypeError "join" "cross join takes no keys") else crossJoin t other
        else if (length keys =? 0)%nat then Err (TypeError "join" "empty key requires how=cross")
        else equiJoin t other keys how
    | _, _ => Err (TypeError "join" "operands must be tables")
    end.

(** ** Grouping *)

Fixpoint group_keys (t : TableV) (items : list BlValue) : result (list string) :=
  match items with
  | [] => Ok []
  | BlString s :: items' =>
      if negb (hasColumn t s) then Err (TypeError "groupBy" ("unknown column " +:+ s))
      else let! ks := group_keys t items' in Ok (s :: ks)
  | _ :: _ => Err (TypeError "groupBy" "keys must be strings")
  end.

(** The groups in the order of their first rows. *)
Fixpoint add_group (groups : list (string * list dict)) (k : string) (r : dict) : list (string * list dict) :=
  match groups with
  | [] => [(k, [r])]
  | (k', rs) :: groups' => if String.eqb k' k then (k', rs ++ [r]) :: groups' else (k', rs) :: add_group groups' k r
  end.
Definition group_rows (keys : list string) (rows : list dict) : list (string * list dict) :=
  fold_left (fun gs r => add_group gs (keyOf keys r) r) rows [].

Definition groupsFn (t keys : BlValue) : result (list TableV) :=
  match get_table t with
  | None => Err (argTypeError t)
  | Some t =>
      match keys with
      | BlList items => let! ks := group_keys t items in Ok (map (fun g => subTable t (snd g)) (group_rows ks (t_rows t)))
      | _ => Err (argTypeError keys)
      end
  end.

Definition groupKeyFn (t col : BlValue) : result BlValue :=
  match get_table t with
  | Some (mkTable _ (r :: _)) =>
      match col with
      | BlString c => Ok (cell r c)
      | _ => Err (argTypeError col)
      end
  | _ => Ok BlNull
  end.

Definition wrapTableFn (arr : list BlValue) : result BlValue := let! t := tableFromDictsFn arr in Ok (of_table t).

(** ** The methods *)

Definition table_result (r : result TableV) : result BlValue := let! t := r in Ok (of_table t).

Definition variadicTableSelect (args : list BlValue) : result BlValue :=
  match get_table (arg args 0) with
  | None => Err (argTypeError (arg args 0))
  | Some t =>
      let! names := string_names (TypeError "select" "column names must be strings") (tail args) in
      table_result (selectFn t names)
  end.

Definition variadicTableSort (args : list BlValue) : result BlValue :=
  match get_table (arg args 0) with
  | None => Err (argTypeError (arg args 0))
  | Some t => table_result (tableSortFn t (tail args))
  end.

Definition variadicTableRename (args : list BlValue) : result BlValue :=
  match get_table (arg args 0) with
  | None => Err (argTypeError (arg args 0))
  | Some t =>
      match args with
      | [_; from; to] =>
          match from, to with
          | BlString from, BlString to => table_result (renameFn t from to)
          | _, _ => Err (TypeError "rename" "from/to must be strings")
          end
      | _ => Err (TypeError "rename" "expected (from, to)")
      end
  end.

(** [__retable], [__withColumn], [__groups] and [__wraptable] take or return a Go
    slice that holds no list value: they are called with [retableFn],
    [withColumnTableFn], [groupsFn] and [wrapTableFn]. *)
Definition tableOptions : list Builtin :=
  [mkBuiltin "table" [] (fun args => table_result (tableFn args));
   mkBuiltin "tableFromDicts" [1] (fn1 (typed1err get_items (fun l => table_result (tableFromDictsFn l))));
   mkBuiltin "hasColumn" [2] (fn2 (typed2 get_table get_string hasColumnFn));
   mkBuiltin "tableIndex" [3] (fn3 tableIndexFn);
   mkBuiltin "tableCols" [2] (fn2 tableColsFn);
   mkBuiltin "__groupKey" [2] (fn2 groupKeyFn)]%nat.

Definition tableMethodOptions : list Builtin :=
  [mkBuiltin "asc" [1] (fn1 (typed1 get_string ascFn));
   mkBuiltin "desc" [1] (fn1 (typed1 get_string descFn));
   mkBuiltin "inOrder" [2] (fn2 (typed2 get_string get_items inOrderFn));
   mkBuiltin "join" [] (fun args => table_result (joinFn args));
   mkBuiltin "__tableSelect" [] variadicTableSelect;
   mkBuiltin "__tableRename" [] variadicTableRename;
   mkBuiltin "__tableDistinct" [1] (fn1 (typed1 get_table (fun t => of_table (tableDistinctFn t))));
   mkBuiltin "__tableSort" [] variadicTableSort;
   mkBuiltin "__tableSlice" [2] (fun args =>
     typed2err get_table (fun v => Some v) (fun t sel => table_result (tableSliceFn t sel)) (arg args 0) (arg args 1));
   mkBuiltin "__tableToList" [1] (fn1 (typed1 get_table toList));
   mkBuiltin "__tableToDict" [1] (fn1 (typed1err get_table toDict));
   mkBuiltin "__tableToValue" [1] (fn1 (typed1err get_table toValue))]%nat.

End Tables.
