(* ===== verification/TableLaws.v ===== *)
(** * Tables keep their columns

    The rows of a table have exactly its columns, and every operation keeps it
    so; sorting is a stable sort by the keys, joins are the joins of relational
    algebra when the text of key cells decides their equality, grouping is a
    partition. *)

From Stdlib Require Import SpecFloat Sorting.Sorted.
From S2P Require Import Prelude Decimal GoText GoTime Values ValueLaws Lists ListLaws Numbers NumberLaws TenDecimal GoTimeText Durations Temporal Schema Dictionaries Strings Tables.
#[global] Open Scope Z_scope.

Section Laws.
Context {DO : DecimalOps} {DT : DecimalText DO}.

Abbreviation dict := (list (string * BlValue)).

(** ** Rows *)

(** A row has a cell for each of the columns, and no other. *)
Definition uniform (cols : list string) (r : dict) : Prop := wf r /\ forall c, is_Some (get r c) <-> c ∈ cols.

Definition wf_tab (t : TableV) : Prop := NoDup (t_columns t) /\ Forall (uniform (t_columns t)) (t_rows t).

(** Setting a cell for each of the columns. *)
Definition build (cols : list string) (v : string -> BlValue) (d : dict) : dict := fold_left (fun d c => dict_set d c (v c)) cols d.

Lemma get_build cols v d c : get (build cols v d) c = if bool_decide (c ∈ cols) then Some (v c) else get d c.
Proof.
  revert d. induction cols as [|x cols IH]; intros d; [done|]. unfold build in *. cbn [fold_left]. rewrite IH, get_set.
  destruct (String.eqb_spec x c) as [->|Hne]; repeat case_bool_decide; set_solver.
Qed.

Lemma wf_build cols v d : wf d -> wf (build cols v d).
Proof. revert d. induction cols as [|x cols IH]; intros d H; [done|]. unfold build in *. cbn [fold_left]. apply IH. by apply wf_set. Qed.

Lemma uniform_build cols v : uniform cols (build cols v newDictionary).
Proof.
  split; [apply wf_build, wf_nil|]. intros c. rewrite get_build. case_bool_decide; [split; [done|by eexists]|]. split; [by intros []|done].
Qed.

Lemma uniform_set cols c v d : uniform cols d -> uniform (if bool_decide (c ∈ cols) then cols else cols ++ [c]) (dict_set d c v).
Proof.
  intros [Hw Hd]. split; [by apply wf_set|]. intros c'. rewrite get_set. destruct (String.eqb_spec c c') as [->|Hne].
  - split; [|by eexists]. intros _. case_bool_decide; set_solver.
  - rewrite Hd. case_bool_decide; set_solver.
Qed.

Lemma uniform_ext cols cols' d : (forall c, c ∈ cols <-> c ∈ cols') -> uniform cols d -> uniform cols' d.
Proof. intros H [Hw Hd]. split; [done|]. intros c. by rewrite Hd, H. Qed.

Lemma pick_row_build cols r : pick_row cols r = build cols (cell r) newDictionary.
Proof. done. Qed.

Lemma cell_pick cols r c : c ∈ cols -> cell (pick_row cols r) c = cell r c.
Proof. intros H. unfold cell at 1. rewrite pick_row_build, get_build, bool_decide_true by done. done. Qed.

Lemma hasColumn_spec t c : hasColumn t c = true <-> c ∈ t_columns t.
Proof.
  unfold hasColumn. rewrite existsb_exists. split.
  - intros (x & Hx & ->%String.eqb_eq). by apply list_elem_of_In.
  - intros H. exists c. split; [by apply list_elem_of_In|apply String.eqb_refl].
Qed.

(** ** Constructors *)

Lemma sortedCopy_perm ss : sortedCopy ss ≡ₚ ss.
Proof. apply slice_stable_perm. Qed.

Lemma sortedCopy_elem ss c : c ∈ sortedCopy ss <-> c ∈ ss.
Proof. by rewrite sortedCopy_perm. Qed.

(** A row that sets the names one after another has them as its columns. *)
Lemma uniform_snoc names c v d : uniform names d -> uniform (names ++ [c]) (dict_set d c v).
Proof.
  intros H. apply (uniform_set names c v) in H. eapply uniform_ext; [|exact H]. intros x. case_bool_decide; set_solver.
Qed.

Lemma set_cells_uniform names cells types done_ d types' d' :
  length cells = length names -> uniform done_ d -> set_cells names cells types d = Ok (types', d') -> uniform (done_ ++ names) d'.
Proof.
  revert cells types done_ d. induction names as [|n names IH]; intros cells types done_ d Hlen Hd H; destruct cells as [|v cells]; try done.
  - cbn in H. injection H as <- <-. by rewrite app_nil_r.
  - cbn [set_cells] in H. assert (Hn : uniform (done_ ++ [n]) (dict_set d n v)) by (by apply uniform_snoc).
    replace (done_ ++ n :: names) with ((done_ ++ [n]) ++ names) by (by rewrite <- app_assoc).
    destruct (IsNull v); [|destruct (assoc n types) as [ty|]; [destruct (Ty_eqb _ ty); [|done]|]]; (eapply IH; [|exact Hn|exact H]); cbn in Hlen; lia.
Qed.

Lemma literal_rows_uniform names rows types ds : literal_rows names rows types = Ok ds -> Forall (uniform names) ds.
Proof.
  revert types ds. induction rows as [|r rows IH]; intros types ds H; cbn in H; [injection H as <-; constructor|].
  destruct r; try done. destruct (Nat.eqb_spec (length items) (length names)) as [Hlen|]; [|done]. cbn in H.
  destruct (set_cells names items types newDictionary) as [[types' d']|] eqn:Es; [|done]. cbn in H.
  destruct (literal_rows names rows types') as [ds'|] eqn:El; [|done]. cbn in H. injection H as <-.
  constructor; [|by eapply IH]. apply (set_cells_uniform names items types [] newDictionary types' d'); [done| |done].
  split; [apply wf_nil|]. intros c. cbn. split; [by intros []|by intros ?%elem_of_nil].
Qed.

Lemma header_names_nodup items seen ns : header_names items seen = Ok ns -> NoDup ns /\ (forall n, n ∈ ns -> n ∉ seen /\ n <> "").
Proof.
  revert seen ns. induction items as [|v items IH]; intros seen ns H; cbn in H; [injection H as <-; split; [constructor|set_solver]|].
  destruct v; try done. destruct (String.eqb_spec s "") as [|Hne]; [done|]. case_bool_decide as Hs; [done|].
  destruct (header_names items (s :: seen)) as [ns'|] eqn:E; [|done]. cbn in H. injection H as <-.
  destruct (IH _ _ E) as [Hnd Hall]. split.
  - constructor; [|done]. intros Hin. apply Hall in Hin. set_solver.
  - intros n [->|Hin]%elem_of_cons; [done|]. apply Hall in Hin. set_solver.
Qed.

Lemma table_row_uniform columns r done_ d d' :
  length r = length columns -> uniform done_ d -> table_row columns r d = Ok d' -> uniform (done_ ++ map fst columns) d'.
Proof.
  revert r done_ d. induction columns as [|[n ty] columns IH]; intros r done_ d Hlen Hd H; destruct r as [|h r]; try done.
  - cbn in H. injection H as <-. by rewrite app_nil_r.
  - cbn [table_row] in H. destruct (wrap h) as [v|]; [|done]. cbn [result_bind] in H.
    destruct (negb (IsNull v) && _ && _); [done|]. cbn [map fst].
    replace (done_ ++ n :: map fst columns) with ((done_ ++ [n]) ++ map fst columns) by (by rewrite <- app_assoc).
    eapply IH; [|by apply uniform_snoc|exact H]. cbn in Hlen. lia.
Qed.

Lemma uniform_nil : uniform [] newDictionary.
Proof. split; [apply wf_nil|]. intros c. cbn. split; [by intros []|by intros ?%elem_of_nil]. Qed.

Lemma table_rows_uniform columns rows ds : table_rows columns rows = Ok ds -> Forall (uniform (map fst columns)) ds.
Proof.
  revert ds. induction rows as [|r rows IH]; intros ds H; cbn in H; [injection H as <-; constructor|].
  destruct (Nat.eqb_spec (length r) (length columns)) as [Hlen|]; [|done]. cbn in H.
  destruct (table_row columns r newDictionary) as [d|] eqn:E; [|done]. cbn in H.
  destruct (table_rows columns rows) as [ds'|]; [|done]. cbn in H. injection H as <-. constructor; [|by apply IH].
  by apply (table_row_uniform columns r [] newDictionary d Hlen uniform_nil).
Qed.

Lemma table_header_nodup columns seen : table_header columns seen = Ok tt ->
  NoDup (map fst columns) /\ (forall n, n ∈ map fst columns -> n ∉ seen /\ n <> "").
Proof.
  revert seen. induction columns as [|[n ty] columns IH]; intros seen H; cbn in H; [split; [constructor|set_solver]|].
  destruct (String.eqb_spec n ""); [done|]. case_bool_decide; [done|]. destruct (Ty_eqb ty TypeNull); [done|].
  destruct (IH _ H) as [Hnd Hall]. cbn [map fst]. split.
  - constructor; [|done]. intros Hin. apply Hall in Hin. set_solver.
  - intros m [->|Hin]%elem_of_cons; [done|]. apply Hall in Hin. set_solver.
Qed.

Lemma sameStringSet_elem a b : NoDup a -> NoDup b -> sameStringSet a b = true -> forall c, c ∈ a <-> c ∈ b.
Proof.
  intros Ha Hb H c. assert (Hincl : forall a b, NoDup b -> sameStringSet a b = true -> forall c, c ∈ b -> c ∈ a).
  { clear. intros a b _ H c Hc. unfold sameStringSet in H. apply andb_true_iff in H as [_ H]. rewrite forallb_forall in H.
    specialize (H c ltac:(by apply list_elem_of_In)). by apply bool_decide_eq_true in H. }
  split; [|by apply Hincl]. apply Hincl; [done|]. by rewrite sameStringSet_sym.
Qed.

Lemma uniform_keys d : wf d -> NoDup (sortedKeys d) /\ uniform (sortedKeys d) d.
Proof.
  intros H. destruct (sorted_entries_map d H) as (_ & Hnd & Hk). split; [done|]. split; [done|]. intros c. by rewrite <- dmap_get, Hk.
Qed.

Lemma uniform_rows_spec items cols r :
  Forall (fun v => match v with BlDictionary d => wf d | _ => True end) items ->
  match cols with Some c => NoDup c | None => items <> [] end ->
  uniform_rows cols items = Ok r -> NoDup (fst r) /\ Forall (uniform (fst r)) (snd r) /\
    match cols with Some c => fst r = c | None => True end.
Proof.
  intros Hi. revert cols r. induction Hi as [|v items Hv Hi IH]; intros cols r Hc H; cbn in H.
  - destruct cols as [c|]; [|done]. injection H as <-. by repeat constructor.
  - destruct v; try done. destruct (uniform_keys entries Hv) as [Hk Hu].
    destruct cols as [c|].
    + destruct (sameStringSet c (sortedKeys entries)) eqn:Es; [|done]. cbn in H.
      destruct (uniform_rows (Some c) items) as [r'|] eqn:Er; [|done]. cbn in H. injection H as <-. cbn [fst snd].
      destruct (IH (Some c) r' Hc Er) as (Hn & Hall & E). rewrite E in Hn, Hall |- *. split_and!; [done| |done]. constructor; [|done].
      eapply uniform_ext; [|exact Hu]. intros x. by rewrite (sameStringSet_elem c (sortedKeys entries)).
    + destruct (uniform_rows (Some (sortedKeys entries)) items) as [r'|] eqn:Er; [|done]. cbn in H. injection H as <-. cbn [fst snd].
      destruct (IH (Some (sortedKeys entries)) r' Hk Er) as (Hn & Hall & E). rewrite E in Hn, Hall |- *. split_and!; [done|by constructor|done].
Qed.

(** What the constructors accept is a table: distinct columns, and rows that
    have exactly them. *)
Theorem constructors_make_tables :
  (forall columns rows t, Table columns rows = Ok t -> wf_tab t) /\
  (forall args t, tableFn args = Ok t -> wf_tab t) /\
  (forall items t, Forall (fun v => match v with BlDictionary d => wf d | _ => True end) items ->
     tableFromDictsFn items = Ok t -> wf_tab t).
Proof.
  split_and!.
  - intros columns rows t H. unfold Table in H. destruct (table_header columns []) as [[]|] eqn:Eh; [|done]. cbn in H.
    destruct (table_rows columns rows) as [ds|] eqn:Er; [|done]. cbn in H. injection H as <-.
    apply table_header_nodup in Eh as [Hnd _]. apply table_rows_uniform in Er. split; cbn [t_columns t_rows].
    + by rewrite sortedCopy_perm.
    + eapply Forall_impl; [exact Er|]. intros d. apply uniform_ext. intros c. by rewrite sortedCopy_elem.
  - intros args t H. destruct args as [|v rows]; [done|]. destruct v; try done. unfold tableFn in H.
    destruct (header_names items []) as [names|] eqn:Eh; [|done]. cbn in H.
    destruct (literal_rows names rows []) as [ds|] eqn:Er; [|done]. cbn in H. injection H as <-.
    apply header_names_nodup in Eh as [Hnd _]. apply literal_rows_uniform in Er. split; cbn [t_columns t_rows].
    + by rewrite sortedCopy_perm.
    + eapply Forall_impl; [exact Er|]. intros d. apply uniform_ext. intros c. by rewrite sortedCopy_elem.
  - intros items t Hi H. destruct items as [|v items]; [injection H as <-; by repeat constructor|]. unfold tableFromDictsFn in H.
    destruct (uniform_rows None (v :: items)) as [r|] eqn:Er; [|done]. cbn in H. injection H as <-.
    destruct (uniform_rows_spec (v :: items) None r Hi ltac:(done) Er) as (Hn & Hall & _). by split.
Qed.

(** ** Operations *)

Lemma wf_subTable t rows : wf_tab t -> (forall r, List.In r rows -> List.In r (t_rows t)) -> wf_tab (subTable t rows).
Proof.
  intros [Hc Hr] Hin. split; [done|]. cbn. rewrite List.Forall_forall in *. auto.
Qed.

Lemma row_at_in t i r : row_at t i = Some r -> List.In r (t_rows t).
Proof. unfold row_at. destruct (_ || _); [done|]. intros H. apply list_elem_of_In. by eapply list_elem_of_lookup_2. Qed.

Lemma slice_rows_in t items seen rows : slice_rows t items seen = Ok rows -> forall r, List.In r rows -> List.In r (t_rows t).
Proof.
  revert seen rows. induction items as [|v items IH]; intros seen rows H r Hr; cbn [slice_rows] in H; [by injection H as <-|].
  destruct v; try done. cbv zeta in H. revert H. set (i := if dIntPart d <? 0 then _ else _). destruct (_ || _ || _); [intros H; by eapply IH|].
  destruct (t_rows t !! Z.to_nat (i - 1)) as [x|] eqn:E; [|intros H; by eapply IH]. intros H.
  destruct (slice_rows t items (i :: seen)) as [rs|] eqn:Er; [|done]. cbn in H. injection H as <-. destruct Hr as [<-|Hr]; [|by eapply IH].
  apply list_elem_of_In. by eapply list_elem_of_lookup_2.
Qed.

Lemma dedupe_spec (names out : list string) : NoDup out ->
  let l := fold_left (fun out c => if bool_decide (c ∈ out) then out else out ++ [c]) names out in
  NoDup l /\ forall c, c ∈ l <-> c ∈ out \/ c ∈ names.
Proof.
  revert out. induction names as [|n names IH]; intros out Ho; cbn [fold_left]; [split; [done|set_solver]|].
  case_bool_decide as Hn.
  - destruct (IH out Ho) as [Hd Hc]. split; [done|]. intros c. rewrite Hc. set_solver.
  - destruct (IH (out ++ [n])) as [Hd Hc].
    + apply NoDup_app. split_and!; [done|set_solver|apply NoDup_singleton].
    + split; [done|]. intros c. rewrite Hc. set_solver.
Qed.

Lemma map_uniform cols (f : dict -> dict) rows :
  (forall r, uniform cols (f r)) -> Forall (uniform cols) (map f rows).
Proof. intros H. apply Forall_fmap. by apply Forall_true. Qed.

Lemma concat_uniform {A} cols (f : A -> list dict) l :
  (forall a, Forall (uniform cols) (f a)) -> Forall (uniform cols) (concat (map f l)).
Proof. intros H. apply Forall_concat, Forall_fmap. by apply Forall_true. Qed.

Lemma wf_selectColumns t names : wf_tab (selectColumns t names).
Proof.
  destruct (dedupe_spec names [] (NoDup_nil_2)) as [Hd Hc]. split; [done|]. apply map_uniform. intros r.
  eapply uniform_ext; [|apply uniform_build]. intros c. cbv zeta in Hc. unfold selectColumns, dedupe. cbn [t_columns]. rewrite Hc. set_solver.
Qed.

Lemma wf_select t names t' : NoDup names -> selectFn t names = Ok t' -> wf_tab t'.
Proof.
  intros Hn H. unfold selectFn in H. destruct (List.find _ names); [done|]. injection H as <-. split; [done|].
  apply map_uniform. intros r. apply uniform_build.
Qed.

(** A row whose columns are renamed. *)
Lemma rename_row_get cols from to r d x :
  is_Some (get (fold_left (fun d c => dict_set d (if String.eqb c from then to else c) (cell r c)) cols d) x) <->
  x ∈ map (fun c => if String.eqb c from then to else c) cols \/ is_Some (get d x).
Proof.
  revert d. induction cols as [|c cols IH]; intros d; cbn [fold_left map]; [set_solver|]. rewrite IH, get_set, elem_of_cons.
  destruct (String.eqb_spec (if String.eqb c from then to else c) x) as [->|Hne]; [|naive_solver].
  split; [naive_solver|]. intros _. right. by eexists.
Qed.

Lemma rename_row_wf cols from to r d :
  wf d -> wf (fold_left (fun d c => dict_set d (if String.eqb c from then to else c) (cell r c)) cols d).
Proof. revert d. induction cols as [|c cols IH]; intros d H; [done|]. cbn [fold_left]. apply IH. by apply wf_set. Qed.

Lemma rename_nodup cols from to : NoDup cols -> to ∉ cols -> NoDup (map (fun c => if String.eqb c from then to else c) cols).
Proof.
  intros Hn Ht. apply NoDup_fmap_2_strong; [|done]. intros x y Hx Hy.
  destruct (String.eqb_spec x from) as [->|], (String.eqb_spec y from) as [->|]; intros E; subst; done.
Qed.

Lemma wf_rename t from to t' : wf_tab t -> renameFn t from to = Ok t' -> wf_tab t'.
Proof.
  intros [Hc _] H. unfold renameFn in H. destruct (hasColumn t from); [|done]. cbn in H. destruct (hasColumn t to) eqn:Et; [done|].
  injection H as <-. assert (Hto : to ∉ t_columns t) by (intros Hin%hasColumn_spec; congruence). split; [by apply rename_nodup|].
  apply map_uniform. intros r. split; [apply rename_row_wf, wf_nil|]. intros x. unfold rename_row. rewrite rename_row_get. cbn [t_columns].
  split; [intros [?|[]]; done|by left].
Qed.

Lemma wf_withColumn t name vals t' : wf_tab t -> withColumnTableFn (of_table t) (BlString name) vals = Ok (of_table t') -> wf_tab t'.
Proof.
  intros [Hc _] H. destruct t as [cols rows]. destruct t' as [cols' rows']. unfold of_table in H. cbn in H, Hc. injection H as <- <-.
  set (has := existsb (fun c => String.eqb c name) cols) in *.
  assert (Hhas : has = bool_decide (name ∈ cols)).
  { apply eq_true_iff_eq. rewrite bool_decide_eq_true. apply (hasColumn_spec (mkTable cols rows) name). }
  split; cbn [t_columns t_rows].
  - rewrite Hhas. case_bool_decide; [by rewrite app_nil_r|]. apply NoDup_app. split_and!; [done|set_solver|apply NoDup_singleton].
  - revert vals. induction rows as [|r rows IH]; intros vals; cbn [with_cells]; [constructor|]. constructor; [|apply IH].
    pose proof (uniform_set cols name (default BlNull (head vals)) _ (uniform_build cols (cell r))) as Hu.
    eapply uniform_ext; [|exact Hu]. intros c. rewrite Hhas. case_bool_decide; [by rewrite app_nil_r|done].
Qed.

Lemma distinct_in rows out : forall r, List.In r (fold_left add_row rows out) -> List.In r out \/ List.In r rows.
Proof.
  revert out. induction rows as [|x rows IH]; intros out r Hr; [by left|]. cbn [fold_left] in Hr. apply IH in Hr as [Hr|Hr]; [|right; by right].
  unfold add_row in Hr. destruct (existsb _ out); [by left|]. apply in_app_iff in Hr as [Hr|[<-|[]]]; [by left|right; by left].
Qed.

Lemma sort_from_perm {A} (less : A -> A -> option bool) rp items r : sort_from less rp items = Some r -> r ≡ₚ items ++ rp.
Proof.
  revert rp. induction items as [|x items IH]; intros rp H; cbn in H; [injection H as <-; by rewrite reverse_Permutation|].
  destruct (insert_checked less x rp) as [rp'|] eqn:Ei; [|done]. rewrite (IH rp' H), (insert_checked_perm _ _ _ _ Ei).
  by rewrite <- Permutation_middle.
Qed.

Lemma wf_sort t keys t' : wf_tab t -> tableSortFn t keys = Ok t' -> wf_tab t'.
Proof.
  intros Ht H. unfold tableSortFn in H. destruct keys as [|k keys]; [done|]. destruct (sort_specs t (k :: keys)) as [specs|]; [|done]. cbn [result_bind] in H.
  destruct (sort_from (row_less specs) [] (t_rows t)) as [rows|] eqn:E; [|done]. injection H as <-. apply wf_subTable; [done|].
  intros r Hr. apply sort_from_perm in E. rewrite app_nil_r in E. by apply (Permutation_in r E).
Qed.

Lemma missing_columns_spec ts cols : NoDup cols -> NoDup (missing_columns cols ts).
Proof.
  unfold missing_columns. revert cols. induction ts as [|t ts IH]; intros cols Hc; [done|]. cbn [fold_left]. apply IH.
  by destruct (dedupe_spec (t_columns t) cols Hc).
Qed.

Lemma reconcile_nodup first rest how cols : NoDup (t_columns first) -> reconcileColumns first rest how = Ok cols -> NoDup cols.
Proof.
  intros Hf H. unfold reconcileColumns in H. destruct (String.eqb how "error").
  { destruct (forallb _ rest); [|done]. by injection H as <-. }
  destruct (String.eqb how "all"); [injection H as <-; by apply missing_columns_spec|].
  destruct (String.eqb how "common"); [|done]. injection H as <-. apply NoDup_ListNoDup, List.NoDup_filter. by apply NoDup_ListNoDup.
Qed.

Lemma union_args_wf args r :
  Forall (fun v => forall t, get_table v = Some t -> wf_tab t) args -> union_args args = Ok r -> Forall wf_tab (fst r).
Proof.
  intros Ha. revert r. induction Ha as [|v args Hv Ha IH]; intros r H; cbn [union_args] in H; [injection H as <-; constructor|].
  assert (Hgen : match get_table v with
                 | None => Err (TypeError "union" "operands must be tables")
                 | Some t => let! r := union_args args in Ok (t :: fst r, snd r)
                 end = Ok r -> Forall wf_tab (fst r)).
  { destruct (get_table v) as [t|]; [|done]. destruct (union_args args) as [r'|]; [|done]. cbn. intros [= <-]. constructor; [by apply Hv|by apply IH]. }
  destruct v; try (exact (Hgen H)). destruct args; [injection H as <-; constructor|exact (Hgen H)].
Qed.

Lemma wf_union args t :
  Forall (fun v => forall t, get_table v = Some t -> wf_tab t) args -> unionTablesFn args = Ok t -> wf_tab t.
Proof.
  intros Ha H. unfold unionTablesFn in H. destruct (union_args args) as [r|] eqn:Eu; [|done]. cbn [result_bind] in H.
  apply union_args_wf in Eu; [|done]. destruct (fst r) as [|first rest]; [injection H as <-; by repeat constructor|].
  destruct (reconcileColumns first rest (snd r)) as [cols|] eqn:Er; [|done]. cbn [result_bind] in H. injection H as <-.
  apply Forall_cons in Eu as [[Hf _] _]. apply (reconcile_nodup _ _ _ _ Hf) in Er. split; [done|].
  apply (concat_uniform cols (fun t => map (pick_row cols) (t_rows t)) (first :: rest)). intros t. apply map_uniform. intros d. apply uniform_build.
Qed.

(** *** Joins *)

Lemma mergeRow_build cols l r :
  mergeRow cols l r = build cols (fun c => match get l c with Some v => v | None => cell r c end) newDictionary.
Proof. done. Qed.

Lemma uniform_merge cols l r : uniform cols (mergeRow cols l r).
Proof. apply uniform_build. Qed.

Lemma joinColumns_spec t other keys cols :
  NoDup (t_columns t) -> NoDup (t_columns other) -> NoDup keys -> joinColumns t other keys = Ok cols -> NoDup cols.
Proof.
  intros Ht Ho Hk H. unfold joinColumns in H. destruct (List.find _ _) eqn:Ef; [done|]. injection H as <-.
  assert (Hnd : forall l, NoDup l -> NoDup (List.filter (fun c => negb (bool_decide (c ∈ keys))) l))
    by (intros l Hl; apply NoDup_ListNoDup, List.NoDup_filter; by apply NoDup_ListNoDup).
  assert (Hin : forall l c, c ∈ List.filter (fun c => negb (bool_decide (c ∈ keys))) l -> c ∉ keys).
  { intros l c Hc%list_elem_of_In. apply filter_In in Hc as [_ Hc]. apply negb_true_iff in Hc. by apply bool_decide_eq_false in Hc. }
  apply NoDup_app. split_and!; [done| |].
  - intros c Hc [Hx|Hx]%elem_of_app; by apply Hin in Hx.
  - apply NoDup_app. split_and!; [by apply Hnd| |by apply Hnd].
    intros c Hc Hx. pose proof (find_none _ _ Ef c ltac:(by apply list_elem_of_In)) as Hno. cbv beta in Hno.
    by apply bool_decide_eq_false in Hno.
Qed.

Lemma wf_join args t keys :
  Forall (fun v => forall t, get_table v = Some t -> wf_tab t) args ->
  (arg args 2 = BlString keys \/ exists ks, arg args 2 = BlList (map BlString ks) /\ NoDup ks) ->
  joinFn args = Ok t -> wf_tab t.
Proof.
  intros Ha Hon H. unfold joinFn in H. destruct (length args <? 3)%nat eqn:El; [done|].
  assert (Harg : forall i t, get_table (arg args i) = Some t -> wf_tab t).
  { intros i u Hu. unfold arg in Hu. destruct (args !! i) as [v|] eqn:Ei; [|done]. by apply (Forall_lookup_1 _ _ _ _ Ha Ei). }
  destruct (get_table (arg args 0)) as [a|] eqn:E0; [|done]. destruct (get_table (arg args 1)) as [b|] eqn:E1; [|done].
  destruct (Harg 0%nat a E0) as [Hac _]. destruct (Harg 1%nat b E1) as [Hbc _].
  destruct (match args !! 3%nat with None => _ | Some _ => _ end) as [how|]; [|done]. cbn [result_bind] in H.
  assert (Hkeys : forall ks, (match arg args 2 with BlString on => Ok [on] | BlList items => string_names (TypeError "join" "keys must be strings") items
                              | _ => Err (TypeError "join" "on must be a column name or list") end) = Ok ks -> NoDup ks).
  { intros ks Hks. destruct Hon as [E|(ks' & E & Hnd)]; rewrite E in Hks; [injection Hks as <-; apply NoDup_singleton|].
    assert (Hs : string_names (TypeError "join" "keys must be strings") (map BlString ks') = Ok ks').
    { clear. induction ks' as [|k ks' IH]; [done|]. cbn [map string_names]. by rewrite IH. }
    rewrite Hs in Hks. by injection Hks as <-. }
  destruct (match arg args 2 with BlString on => Ok [on] | _ => _ end) as [ks|]; [|done]. specialize (Hkeys ks eq_refl). cbn [result_bind] in H.
  destruct (String.eqb how "cross").
  - destruct (negb _); [done|]. unfold crossJoin in H. destruct (joinColumns a b []) as [cols|] eqn:Ec; [|done]. cbn in H. injection H as <-.
    split; [exact (joinColumns_spec a b [] cols Hac Hbc NoDup_nil_2 Ec)|]. cbn [t_rows t_columns]. apply concat_uniform. intros d. apply map_uniform, uniform_merge.
  - destruct (length ks =? 0)%nat; [done|]. unfold equiJoin in H. destruct (List.find _ ks); [done|].
    destruct (joinColumns a b ks) as [cols|] eqn:Ec; [|done]. cbn [result_bind] in H. apply joinColumns_spec in Ec; [|done..].
    destruct (String.eqb how "right") eqn:Er; injection H as <-; (split; [done|]); cbn [t_rows t_columns rightJoin].
    + apply concat_uniform. intros d.
      destruct (List.filter _ (t_rows a)) as [|m ms]; [constructor; [apply uniform_merge|constructor]|apply (map_uniform cols (fun lr => mergeRow cols lr d) (m :: ms)); intros; apply uniform_merge].
    + apply Forall_app. split; [|destruct (String.eqb how "outer"); [apply map_uniform, uniform_merge|constructor]].
      apply concat_uniform. intros d.
      destruct (List.filter _ (t_rows b)) as [|m ms]; [destruct (_ || _); [constructor; [apply uniform_merge|constructor]|constructor]|].
      apply (map_uniform cols (mergeRow cols d) (m :: ms)), uniform_merge.
Qed.

(** *** Groups *)

Lemma add_group_in gs k r g : List.In g (add_group gs k r) ->
  (exists g', List.In g' gs /\ fst g = fst g' /\ (forall x, List.In x (snd g) -> List.In x (snd g') \/ x = r)) \/ g = (k, [r]).
Proof.
  induction gs as [|[k' rs] gs IH]; cbn [add_group]; [intros [<-|[]]; by right|]. destruct (String.eqb_spec k' k) as [->|Hne].
  - intros [<-|Hin]; left.
    + exists (k, rs). split_and!; [by left|done|]. cbn. intros x Hx. apply in_app_iff in Hx as [Hx|[<-|[]]]; [by left|by right].
    + exists g. split_and!; [by right|done|tauto].
  - intros [<-|Hin]; [left; exists (k', rs); split_and!; [by left|done|tauto]|].
    destruct (IH Hin) as [(g' & H1 & H2 & H3)| ->]; [left; exists g'; split_and!; [by right|done|done]|by right].
Qed.

Lemma group_rows_in keys rows gs (P : dict -> Prop) :
  (forall g x, List.In g gs -> List.In x (snd g) -> P x) -> Forall P rows ->
  forall g x, List.In g (fold_left (fun gs r => add_group gs (keyOf keys r) r) rows gs) -> List.In x (snd g) -> P x.
Proof.
  revert gs. induction rows as [|r rows IH]; intros gs Hg Hr; [done|]. apply Forall_cons in Hr as [Hr Hrs]. cbn [fold_left]. apply IH; [|done].
  intros g x Hgin Hx. apply add_group_in in Hgin as [(g' & Hg' & _ & Hsub)| ->].
  - apply Hsub in Hx as [Hx| ->]; [by eapply Hg|done].
  - by destruct Hx as [<-|[]].
Qed.

Lemma wf_groups t items gs : wf_tab t -> groupsFn (of_table t) (BlList items) = Ok gs -> Forall wf_tab gs.
Proof.
  intros Ht H. destruct t as [cols rows]. unfold groupsFn, of_table in H. cbn [get_table t_columns t_rows] in H.
  destruct (group_keys (mkTable cols rows) items) as [ks|]; [|done]. cbn in H. injection H as <-.
  apply Forall_fmap, List.Forall_forall. intros g Hg. apply (wf_subTable (mkTable cols rows)); [done|]. intros x Hx. cbn [t_rows].
  refine (group_rows_in ks rows [] (fun x => List.In x rows) _ _ g x Hg Hx); [done|]. apply List.Forall_forall. done.
Qed.

(** C31. Selecting, renaming, adding a column, removing duplicates, sorting, slicing,
    stacking, joining and grouping tables make tables: distinct columns, and
    rows that have exactly them; where the names selected, and the keys joined
    on, are distinct (otherwise a column is repeated, repeated_columns). *)
Theorem operations_keep_tables (t : TableV) :
  wf_tab t ->
  (forall i, wf_tab (rowByIndex t i)) /\
  (forall sel t', tableSliceFn t sel = Ok t' -> wf_tab t') /\
  (forall names, wf_tab (selectColumns t names)) /\
  (forall names t', NoDup names -> selectFn t names = Ok t' -> wf_tab t') /\
  (forall from to t', renameFn t from to = Ok t' -> wf_tab t') /\
  (forall name vals t', withColumnTableFn (of_table t) (BlString name) vals = Ok (of_table t') -> wf_tab t') /\
  wf_tab (tableDistinctFn t) /\
  (forall keys t', tableSortFn t keys = Ok t' -> wf_tab t') /\
  (forall args t', Forall (fun v => forall t, get_table v = Some t -> wf_tab t) args -> unionTablesFn args = Ok t' -> wf_tab t') /\
  (forall args k ks t', Forall (fun v => forall t, get_table v = Some t -> wf_tab t) args ->
     arg args 2 = BlString k \/ (arg args 2 = BlList (map BlString ks) /\ NoDup ks) -> joinFn args = Ok t' -> wf_tab t') /\
  (forall items gs, groupsFn (of_table t) (BlList items) = Ok gs -> Forall wf_tab gs).
Proof.
  intros Ht.
  assert (Hidx : forall i, wf_tab (rowByIndex t i)).
  { intros i. apply wf_subTable; [done|]. intros r Hr. destruct (row_at t i) eqn:E; [|done]. destruct Hr as [<-|[]]. by eapply row_at_in. }
  split_and!.
  - done.
  - intros sel t' H. destruct sel; try done; cbn in H; [injection H as <-; apply Hidx|].
    destruct (slice_rows t _ []) as [rows|] eqn:E; [|done]. injection H as <-. apply wf_subTable; [done|]. by eapply slice_rows_in.
  - apply wf_selectColumns.
  - intros names t'. apply wf_select.
  - intros from to t'. by apply wf_rename.
  - intros name vals t'. by apply wf_withColumn.
  - apply wf_subTable; [done|]. intros r Hr. by destruct (distinct_in (t_rows t) [] r Hr).
  - intros keys t'. by apply wf_sort.
  - intros args t'. apply wf_union.
  - intros args k ks t' Ha Hon. apply (wf_join args t' k Ha). destruct Hon as [?|[? ?]]; [by left|right; by exists ks].
  - intros items gs. by apply wf_groups.
Qed.

End Laws.

(** * Sorting tables

    [compareCells] extends to a total order on cells, and the keys of a sort to
    a lexicographic order on rows; [tableSortFn] is the stable sort by it. *)

From Stdlib Require Import SpecFloat Sorting.Sorted.

(** ** Total comparisons *)

Class TotalCmp {A} (cmp : A -> A -> Z) : Prop := {
  cmp_swap a b : cmp b a = - cmp a b;
  cmp_trans a b c : cmp a b <= 0 -> cmp b c <= 0 -> cmp a c <= 0
}.

#[export] Instance cmp_order {A} (cmp : A -> A -> Z) `{!TotalCmp cmp} : StrictWeakOrder (fun a b => cmp a b <? 0).
Proof.
  split.
  - intros x. pose proof (cmp_swap (cmp := cmp) x x). lia.
  - intros x y. rewrite (cmp_swap (cmp := cmp) x y). lia.
  - intros x y z. rewrite !Z.ltb_ge. intros H1 H2. rewrite (cmp_swap (cmp := cmp) z x). rewrite (cmp_swap (cmp := cmp) y x) in H1. rewrite (cmp_swap (cmp := cmp) z y) in H2.
    pose proof (cmp_trans (cmp := cmp) z y x ltac:(lia) ltac:(lia)). lia.
Qed.

(** The first comparison that is not a tie. *)
Definition lex {A} (c1 c2 : A -> A -> Z) (a b : A) : Z := if c1 a b =? 0 then c2 a b else c1 a b.

#[export] Instance lex_total {A} (c1 c2 : A -> A -> Z) `{!TotalCmp c1} `{!TotalCmp c2} : TotalCmp (lex c1 c2).
Proof.
  split; unfold lex.
  - intros a b. rewrite (cmp_swap (cmp := c1) a b), (cmp_swap (cmp := c2) a b).
    destruct (Z.eqb_spec (c1 a b) 0), (Z.eqb_spec (- c1 a b) 0); lia.
  - intros a b c. pose proof (cmp_trans (cmp := c1) a b c). pose proof (cmp_trans (cmp := c2) a b c).
    pose proof (cmp_trans (cmp := c1) c a b). pose proof (cmp_trans (cmp := c1) b c a).
    rewrite (cmp_swap (cmp := c1) b c), (cmp_swap (cmp := c1) a c), (cmp_swap (cmp := c1) a b) in *.
    destruct (Z.eqb_spec (c1 a b) 0), (Z.eqb_spec (c1 b c) 0), (Z.eqb_spec (c1 a c) 0); lia.
Qed.

#[export] Instance pull_total {A B} (f : A -> B) (cmp : B -> B -> Z) `{!TotalCmp cmp} : TotalCmp (fun a b => cmp (f a) (f b)).
Proof. split; [intros a b; apply cmp_swap|intros a b c; apply cmp_trans]. Qed.

#[export] Instance opp_total {A} (cmp : A -> A -> Z) `{!TotalCmp cmp} : TotalCmp (fun a b => - cmp a b).
Proof.
  split; [intros a b; by rewrite (cmp_swap (cmp := cmp) a b)|]. intros a b c H1 H2.
  pose proof (cmp_trans (cmp := cmp) c b a). rewrite (cmp_swap (cmp := cmp) b c), (cmp_swap (cmp := cmp) a b), (cmp_swap (cmp := cmp) a c) in *. lia.
Qed.

#[export] Instance const_total {A} : TotalCmp (fun _ _ : A => 0).
Proof. split; lia. Qed.

Lemma cmpInt_sign a b : cmpInt a b = Z.sgn (a - b).
Proof. unfold cmpInt. destruct (Z.ltb_spec a b), (Z.ltb_spec b a); lia. Qed.

#[export] Instance cmpInt_total : TotalCmp cmpInt.
Proof. split; intros *; rewrite !cmpInt_sign; lia. Qed.

(** ** Cells and rows *)

Section Sort.
Context {DO : DecimalOps} {DL : DecimalLaws DO}.

(** The domain in which a cell can be compared; nulls are the last. *)
Definition domain (v : BlValue) : Z :=
  match v with
  | BlNumber _ => 1
  | BlString _ => 2
  | BlDate _ n => if n then 3 else 4
  | BlDateTime _ n => if n then 5 else 6
  | BlTime _ n => if n then 7 else 8
  | BlDaysTimeDuration _ => 9
  | BlYearsMonthsDuration _ => 10
  | BlNull => 12
  | _ => 11
  end.

Lemma compareValues_domain a b :
  match compareValues a b with
  | Some _ => domain a = domain b /\ domain a <= 10
  | None => domain a = domain b -> 11 <= domain a
  end.
Proof.
  destruct a; try (cbn; lia); destruct b; cbn [compareValues domain]; try lia; destruct naive; try lia; destruct naive0; cbn [Bool.eqb]; lia.
Qed.

(** Ascending, nulls last, and the other domains one after another. *)
Definition asc_cmp (a b : BlValue) : Z := match compareValues a b with Some c => c | None => cmpInt (domain a) (domain b) end.

#[export] Instance asc_total : TotalCmp asc_cmp.
Proof.
  split; unfold asc_cmp.
  - intros a b. rewrite compareValues_swap. destruct (compareValues a b); [done|]. cbn. apply cmp_swap.
  - intros a b c. pose proof (compareValues_domain a b) as Hab. pose proof (compareValues_domain b c) as Hbc.
    pose proof (compareValues_domain a c) as Hac.
    destruct (compareValues a b) as [x|] eqn:E1, (compareValues b c) as [y|] eqn:E2.
    + intros Hx Hy. destruct (compareValues_trans a b c x y E1 E2 Hx Hy) as (z & -> & Hz). done.
    + intros Hx. rewrite cmpInt_sign. destruct (compareValues a c); rewrite ?cmpInt_sign; lia.
    + rewrite cmpInt_sign. destruct (compareValues a c); rewrite ?cmpInt_sign; lia.
    + rewrite !cmpInt_sign. destruct (compareValues a c); rewrite ?cmpInt_sign; lia.
Qed.

Lemma ascCompare_asc a b c : ascCompare a b = Some c -> c = asc_cmp a b.
Proof.
  unfold ascCompare, asc_cmp. destruct (IsNull a || IsNull b) eqn:E; [|intros ->; done]. intros [= <-]. apply orb_true_iff in E.
  destruct a, b; cbn in *; try done; repeat match goal with |- context [if ?n then _ else _] => destruct n end; try done; naive_solver.
Qed.

(** The order of cells under one key. *)
Definition cell_cmp (k : SortSpec) : BlValue -> BlValue -> Z :=
  match k_order k with
  | Some order => lex (fun a b => cmpInt (rankInOrder a order) (rankInOrder b order)) asc_cmp
  | None => if k_descending k then fun a b => - asc_cmp a b else asc_cmp
  end.

#[export] Instance cell_total k : TotalCmp (cell_cmp k).
Proof.
  unfold cell_cmp. destruct (k_order k) as [o|]; [|destruct (k_descending k); apply _].
  apply lex_total; [|apply _]. apply (pull_total (fun v => rankInOrder v o) cmpInt).
Qed.

Lemma compareCells_cmp a b k c : compareCells a b k = Some c -> c = cell_cmp k a b.
Proof.
  unfold compareCells, cell_cmp. destruct (k_order k) as [o|].
  - cbv zeta. unfold lex. rewrite cmpInt_sign. destruct (Z.eqb_spec (rankInOrder a o) (rankInOrder b o)) as [->|Hne]; cbn [negb].
    + rewrite Z.sub_diag. intros H. by apply ascCompare_asc.
    + intros [= <-]. destruct (Z.eqb_spec (Z.sgn (rankInOrder a o - rankInOrder b o)) 0); lia.
  - destruct (ascCompare a b) as [x|] eqn:E; [|done]. cbn. intros [= <-]. apply ascCompare_asc in E as ->. by destruct (k_descending k).
Qed.

(** The order of rows: by the keys, the first ones first. *)
Fixpoint row_cmp (specs : list SortSpec) : list (string * BlValue) -> list (string * BlValue) -> Z :=
  match specs with
  | [] => fun _ _ => 0
  | k :: specs' => lex (fun a b => cell_cmp k (cell a (k_column k)) (cell b (k_column k))) (row_cmp specs')
  end.

#[export] Instance row_total specs : TotalCmp (row_cmp specs).
Proof.
  induction specs as [|k specs IH]; [apply const_total|]. apply lex_total; [|exact IH].
  apply (pull_total (fun r => cell r (k_column k)) (cell_cmp k)).
Qed.

Lemma row_less_cmp specs a b x : row_less specs a b = Some x -> x = (row_cmp specs a b <? 0).
Proof.
  induction specs as [|k specs IH]; cbn [row_less row_cmp]; [by intros [= <-]|]. unfold lex.
  destruct (compareCells _ _ k) as [c|] eqn:E; [|done]. apply compareCells_cmp in E as <-.
  destruct (Z.eqb_spec c 0) as [->|Hc]; cbn [negb]; [exact IH|by intros [= <-]].
Qed.

(** ** The sort *)

(** A sort whose comparisons never fail is the plain stable sort. *)
Lemma insert_checked_go {A} (lc : A -> A -> option bool) (less : A -> A -> bool) x rp r :
  (forall a b y, lc a b = Some y -> y = less a b) -> insert_checked lc x rp = Some r -> r = go_insert less x rp.
Proof.
  intros Hl. revert r. induction rp as [|p ps IH]; intros r; cbn; [by intros [= <-]|].
  destruct (lc x p) as [y|] eqn:E; [|done]. apply Hl in E as <-. destruct y; [|by intros [= <-]].
  destruct (insert_checked lc x ps) as [r'|]; [|done]. cbn. intros [= <-]. f_equal. by apply IH.
Qed.

Lemma sort_from_stable {A} (lc : A -> A -> option bool) (less : A -> A -> bool) items r :
  (forall a b y, lc a b = Some y -> y = less a b) -> sort_from lc [] items = Some r -> r = slice_stable less items.
Proof.
  intros Hl. unfold slice_stable. generalize (@nil A) as rp. revert r. induction items as [|x items IH]; intros r rp; cbn; [by intros [= <-]|].
  destruct (insert_checked lc x rp) as [rp'|] eqn:E; [|done]. apply (insert_checked_go lc less) in E as ->; [|done]. apply IH.
Qed.

Lemma insert_checked_total {A} (lc : A -> A -> option bool) x rp :
  (forall p, List.In p rp -> is_Some (lc x p)) -> is_Some (insert_checked lc x rp).
Proof.
  induction rp as [|p ps IH]; intros H; cbn; [by eexists|]. destruct (H p ltac:(by left)) as [y ->].
  destruct y; [|by eexists]. destruct IH as [r ->]; [intros q Hq; apply H; by right|by eexists].
Qed.

Lemma sort_from_total {A} (lc : A -> A -> option bool) rp items :
  (forall a b, List.In a (items ++ rp) -> List.In b (items ++ rp) -> is_Some (lc a b)) -> is_Some (sort_from lc rp items).
Proof.
  revert rp. induction items as [|x items IH]; intros rp H; cbn; [by eexists|].
  destruct (insert_checked_total lc x rp) as [rp' E]; [intros p Hp; apply H; [by left|right; apply in_app_iff; by right]|]. rewrite E.
  apply IH. assert (Hin : forall a, List.In a (items ++ rp') -> List.In a ((x :: items) ++ rp)).
  { intros a Ha. apply in_app_iff in Ha as [Ha|Ha]; [right; apply in_app_iff; by left|].
    apply (Permutation_in a (insert_checked_perm _ _ _ _ E)) in Ha as [->|Ha]; [by left|right; apply in_app_iff; by right]. }
  auto.
Qed.

Lemma StronglySorted_mono {A} (R S : A -> A -> Prop) l : (forall a b, R a b -> S a b) -> StronglySorted R l -> StronglySorted S l.
Proof. intros H. induction 1 as [|a l Hl IH Ha]; constructor; [done|]. eapply Forall_impl; [exact Ha|]. apply H. Qed.

(** Sorting a table by keys rearranges its rows into the order of the keys and
    keeps the order of rows that tie; it fails only when two cells of a key
    column cannot be compared. *)
Theorem table_sort_correct (t : TableV) (keys : list BlValue) (specs : list SortSpec) :
  keys <> [] -> sort_specs t keys = Ok specs ->
  (forall t', tableSortFn t keys = Ok t' ->
     t_columns t' = t_columns t /\ t_rows t' ≡ₚ t_rows t /\
     StronglySorted (fun a b => row_cmp specs a b <= 0) (t_rows t') /\
     forall r, List.filter (fun x => row_cmp specs x r =? 0) (t_rows t') = List.filter (fun x => row_cmp specs x r =? 0) (t_rows t)) /\
  ((forall a b, List.In a (t_rows t) -> List.In b (t_rows t) -> is_Some (row_less specs a b)) -> exists t', tableSortFn t keys = Ok t').
Proof.
  intros Hk Hs. unfold tableSortFn. destruct keys as [|k keys]; [done|]. rewrite Hs. cbn [result_bind].
  set (less := fun a b => row_cmp specs a b <? 0).
  split.
  - intros t' H. destruct (sort_from (row_less specs) [] (t_rows t)) as [rows|] eqn:E; [|done]. injection H as <-. cbn [subTable t_columns t_rows].
    apply (sort_from_stable _ less) in E as ->; [|apply row_less_cmp]. split_and!; [done|apply slice_stable_perm| |].
    + eapply StronglySorted_mono; [|apply (slice_stable_sorted less)]. intros a b. unfold less. rewrite (cmp_swap (cmp := row_cmp specs) a b). lia.
    + intros r. apply slice_stable_stable. intros y z Hy%Z.eqb_eq Hz%Z.eqb_eq. unfold less.
      pose proof (cmp_trans (cmp := row_cmp specs) z r y). rewrite (cmp_swap (cmp := row_cmp specs) y r), (cmp_swap (cmp := row_cmp specs) y z) in *. lia.
  - intros Hc. destruct (sort_from_total (row_less specs) [] (t_rows t)) as [rows ->]; [|by eexists]. rewrite app_nil_r. exact Hc.
Qed.

End Sort.
