(* ===== verification/TableJoin.v ===== *)
(** * Joins, groups and distinct rows

    An equi-join is the join of relational algebra when the text of the key
    cells decides their equality, which the code relies on for all but right
    joins; a grouping lists the rows of each key; distinct rows are the first
    of their kind.  The samples show key cells whose text does not decide. *)

From Stdlib Require Import SpecFloat.
From S2P Require Import Prelude Decimal GoText GoTime Values ValueLaws Lists ListLaws Numbers NumberLaws TenDecimal GoTimeText Durations Temporal Schema Dictionaries Strings Tables TableLaws.
#[global] Open Scope Z_scope.

Section Join.
Context {DO : DecimalOps} {DT : DecimalText DO}.

Abbreviation dict := (list (string * BlValue)).

(** ** Joins *)

Inductive How : Type := Inner | Left | Right | Outer.
Definition how_text (h : How) : string := match h with Inner => "inner" | Left => "left" | Right => "right" | Outer => "outer" end.

(** The key cells of two rows are equal, as the language's equality has it. *)
Definition keys_match (keys : list string) (l r : dict) : Prop :=
  Forall (fun k => Equal (cell l k) (cell r k) = BlBoolean true) keys.

(** A row of the result comes from a left row, a right row, or both. *)
Abbreviation sides := (option dict * option dict)%type.

Section Relational.
Variable R : dict -> dict -> bool.       (* the rows match *)

(** The pairs for one row: its matches, or the row alone. *)
Definition left_part (pad : bool) (rights : list dict) (lr : dict) : list sides :=
  match List.filter (R lr) rights with
  | [] => if pad then [(Some lr, None)] else []
  | ms => map (fun rr => (Some lr, Some rr)) ms
  end.
Definition right_part (lefts : list dict) (rr : dict) : list sides :=
  match List.filter (fun lr => R lr rr) lefts with
  | [] => [(None, Some rr)]
  | ms => map (fun lr => (Some lr, Some rr)) ms
  end.

(** The join of relational algebra, in the order of its side. *)
Definition relational (h : How) (lefts rights : list dict) : list sides :=
  match h with
  | Inner => concat (map (left_part false rights) lefts)
  | Left => concat (map (left_part true rights) lefts)
  | Right => concat (map (right_part lefts) rights)
  | Outer => concat (map (left_part true rights) lefts) ++
             map (fun rr => (None, Some rr)) (List.filter (fun rr => negb (existsb (fun lr => R lr rr) lefts)) rights)
  end.
End Relational.

(** The row of two sides: it has exactly the columns of the join; a cell is the
    left row's if that has the column, else the right row's if that has it, else
    null. *)
Definition joined_row (cols : list string) (p : sides) (row : dict) : Prop :=
  uniform cols row /\
  forall c, c ∈ cols ->
    cell row c = match p.1 ≫= (fun l => get l c), p.2 ≫= (fun r => get r c) with
                 | Some v, _ => v
                 | None, Some v => v
                 | None, None => BlNull
                 end.

(** The columns of a table that are not keys. *)
Definition private (keys : list string) (t : TableV) : list string := filter (fun c => c ∉ keys) (t_columns t).
Definition join_columns (t other : TableV) (keys : list string) : list string := keys ++ private keys t ++ private keys other.

Lemma private_filter (keys l : list string) : List.filter (fun c => negb (bool_decide (c ∈ keys))) l = filter (fun c => c ∉ keys) l.
Proof.
  induction l as [|c l IH]; [done|]. cbn [List.filter]. rewrite filter_cons.
  case_bool_decide; [rewrite decide_False by tauto|rewrite decide_True by done]; cbn [negb]; by rewrite IH.
Qed.

Lemma joinColumns_private t other keys :
  (forall c, c ∈ t_columns t -> c ∈ t_columns other -> c ∈ keys) -> joinColumns t other keys = Ok (join_columns t other keys).
Proof.
  intros Hs. unfold joinColumns. cbv zeta. rewrite !private_filter.
  destruct (List.find _ _) as [c|] eqn:Ef; [|done]. apply find_some in Ef as [Hc Hb]. apply list_elem_of_In in Hc.
  apply bool_decide_eq_true in Hb. apply list_elem_of_filter in Hc as [Hk Hc], Hb as [_ Hb]. by destruct Hk; apply Hs.
Qed.

Definition merge_sides (cols : list string) (p : sides) : dict := mergeRow cols (default [] p.1) (default [] p.2).

Lemma merge_sides_joined cols p : joined_row cols p (merge_sides cols p).
Proof.
  split; [apply uniform_merge|]. intros c Hc. unfold cell at 1, merge_sides. rewrite mergeRow_build, get_build, bool_decide_true by done.
  cbn [default]. unfold cell. destruct p as [[l|] [r|]]; cbn;
    [destruct (get l c); [done|by destruct (get r c)]|by destruct (get l c)|by destruct (get r c)|done].
Qed.

Lemma rowsKeyEqual_match l r keys : rowsKeyEqual l r keys = true <-> keys_match keys l r.
Proof.
  unfold rowsKeyEqual, keys_match. rewrite forallb_forall, Forall_forall. setoid_rewrite list_elem_of_In.
  split; intros H k Hk; specialize (H k Hk); [|by rewrite H].
  destruct (Equal (cell l k) (cell r k)) as [|[]| | | | | | | | | | | | | | | |]; done.
Qed.

Lemma how_eqb h : String.eqb (how_text h) "cross" = false.
Proof. by destruct h. Qed.

Lemma joinFn_equiJoin (t other : TableV) (k : string) (ks : list string) (h : How) :
  let keys := k :: ks in
  joinFn [of_table t; of_table other; BlList (map BlString keys); BlString (how_text h)] = equiJoin t other keys (how_text h).
Proof.
  intros keys.
  assert (Hs : string_names (TypeError "join" "keys must be strings") (map BlString keys) = Ok keys).
  { clear. induction keys as [|x l IH]; [done|]. cbn [map string_names]. by rewrite IH. }
  unfold joinFn. cbn [length Nat.ltb Nat.leb]. change (arg [of_table t; of_table other; BlList (map BlString keys); BlString (how_text h)] 0) with (of_table t).
  change (arg [of_table t; of_table other; BlList (map BlString keys); BlString (how_text h)] 1) with (of_table other).
  change (arg [of_table t; of_table other; BlList (map BlString keys); BlString (how_text h)] 2) with (BlList (map BlString keys)).
  change ([of_table t; of_table other; BlList (map BlString keys); BlString (how_text h)] !! 3%nat) with (Some (BlString (how_text h))).
  unfold of_table. cbn [get_table result_bind]. rewrite Hs. cbn [result_bind]. rewrite how_eqb. by destruct t, other.
Qed.

Section Pairing.
Variables (t other : TableV) (keys : list string) (R : dict -> dict -> bool).
Hypothesis HR : forall lr rr, List.In lr (t_rows t) -> List.In rr (t_rows other) -> (R lr rr = true <-> keys_match keys lr rr).
Hypothesis Htext : forall lr rr, List.In lr (t_rows t) -> List.In rr (t_rows other) ->
  (keyOf keys rr = keyOf keys lr <-> keys_match keys lr rr).

Lemma filter_by_text lr : List.In lr (t_rows t) ->
  List.filter (fun rr => String.eqb (keyOf keys rr) (keyOf keys lr)) (t_rows other) = List.filter (R lr) (t_rows other).
Proof.
  intros Hlr. apply filter_ext_in. intros rr Hrr. apply eq_true_iff_eq. rewrite String.eqb_eq, HR by done. by apply Htext.
Qed.

Lemma rowsKeyEqual_R lr rr : List.In lr (t_rows t) -> List.In rr (t_rows other) -> rowsKeyEqual lr rr keys = R lr rr.
Proof. intros Hl Hr. apply eq_true_iff_eq. rewrite rowsKeyEqual_match, HR by done. done. Qed.

Lemma left_rows cols (pad : bool) :
  concat (map (fun lr =>
      match List.filter (fun rr => String.eqb (keyOf keys rr) (keyOf keys lr)) (t_rows other) with
      | [] => if pad then [mergeRow cols lr []] else []
      | matches => map (mergeRow cols lr) matches end) (t_rows t)) =
  map (merge_sides cols) (concat (map (left_part R pad (t_rows other)) (t_rows t))).
Proof.
  rewrite concat_map, map_map. f_equal. apply map_ext_in. intros lr Hlr. rewrite (filter_by_text lr Hlr). unfold left_part.
  destruct (List.filter (R lr) _) as [|m ms]; [by destruct pad|]. by rewrite map_map.
Qed.

Lemma right_rows cols :
  concat (map (fun rr =>
      match List.filter (fun lr => rowsKeyEqual lr rr keys) (t_rows t) with
      | [] => [mergeRow cols [] rr]
      | matches => map (fun lr => mergeRow cols lr rr) matches end) (t_rows other)) =
  map (merge_sides cols) (concat (map (right_part R (t_rows t)) (t_rows other))).
Proof.
  rewrite concat_map, map_map. f_equal. apply map_ext_in. intros rr Hrr. unfold right_part.
  rewrite (filter_ext_in _ (fun lr => R lr rr)) by (intros lr Hlr; by apply rowsKeyEqual_R).
  destruct (List.filter _ (t_rows t)) as [|m ms]; [done|]. by rewrite map_map.
Qed.

Lemma unmatched_rows cols :
  map (mergeRow cols []) (List.filter (fun rr => negb (existsb (fun lr => rowsKeyEqual lr rr keys) (t_rows t))) (t_rows other)) =
  map (merge_sides cols) (map (fun rr => (None, Some rr)) (List.filter (fun rr => negb (existsb (fun lr => R lr rr) (t_rows t))) (t_rows other))).
Proof.
  rewrite map_map. f_equal. apply filter_ext_in. intros rr Hrr. f_equal. apply eq_true_iff_eq. rewrite !existsb_exists.
  split; intros (lr & Hlr & E); exists lr; (split; [done|]); [by rewrite <- rowsKeyEqual_R|by rewrite rowsKeyEqual_R].
Qed.

Lemma equiJoin_rows h cols :
  (forall key, key ∈ keys -> key ∈ t_columns t /\ key ∈ t_columns other) -> joinColumns t other keys = Ok cols ->
  equiJoin t other keys (how_text h) = Ok (mkTable cols (map (merge_sides cols) (relational R h (t_rows t) (t_rows other)))).
Proof.
  intros Hin Hc. unfold equiJoin.
  replace (List.find (fun k => negb (hasColumn t k) || negb (hasColumn other k)) keys) with (@None string).
  2: { symmetry. destruct (List.find _ keys) as [x|] eqn:Ef; [|done]. apply find_some in Ef as [Hx Hf]. apply list_elem_of_In in Hx.
       destruct (Hin x Hx) as [H1 H2]. apply hasColumn_spec in H1, H2. rewrite H1, H2 in Hf. done. }
  rewrite Hc. cbn [result_bind]. cbv zeta. destruct h; cbn [how_text relational].
  - rewrite <- (left_rows cols false). cbn. by rewrite app_nil_r.
  - rewrite <- (left_rows cols true). cbn. by rewrite app_nil_r.
  - unfold rightJoin. cbn. by rewrite right_rows.
  - rewrite map_app, <- (left_rows cols true), <- unmatched_rows. reflexivity.
Qed.

End Pairing.

(** C32. Take tables that share their key columns and no other, and key cells whose
    text decides their equality (what becomes of other cells is join_matches_by_text).
    With [R] the test that the key cells of two rows are equal in the language, an
    inner, left, right or outer join succeeds; its columns are the keys, then the
    other columns of the left and of the right table; and its rows are, one by one
    and in the order of its side, those of the pairs of relational algebra: each
    cell is the left row's, or the right row's where the left has none, or null
    where that side is missing. *)
Theorem join_is_relational (t other : TableV) (k : string) (ks : list string) (h : How) (R : dict -> dict -> bool) :
  let keys := k :: ks in
  let cols := join_columns t other keys in
  (forall key, key ∈ keys -> key ∈ t_columns t /\ key ∈ t_columns other) ->
  (forall c, c ∈ t_columns t -> c ∈ t_columns other -> c ∈ keys) ->
  (forall lr rr, List.In lr (t_rows t) -> List.In rr (t_rows other) -> (R lr rr = true <-> keys_match keys lr rr)) ->
  (forall lr rr, List.In lr (t_rows t) -> List.In rr (t_rows other) -> (keyOf keys rr = keyOf keys lr <-> keys_match keys lr rr)) ->
  exists rows,
    joinFn [of_table t; of_table other; BlList (map BlString keys); BlString (how_text h)] = Ok (mkTable cols rows) /\
    Forall2 (joined_row cols) (relational R h (t_rows t) (t_rows other)) rows.
Proof.
  intros keys cols Hin Hshare HR Htext. unfold keys. rewrite joinFn_equiJoin. fold keys.
  rewrite (equiJoin_rows t other keys R HR Htext h cols Hin (joinColumns_private t other keys Hshare)).
  eexists. split; [reflexivity|]. apply Forall2_fmap_r, Forall_Forall2_diag, Forall_true. intros p. apply merge_sides_joined.
Qed.

(** ** Groups *)

Lemma dedupe_snoc l k : dedupe (l ++ [k]) = if bool_decide (k ∈ l) then dedupe l else dedupe l ++ [k].
Proof.
  unfold dedupe. rewrite fold_left_app. cbn [fold_left]. destruct (dedupe_spec l [] (NoDup_nil_2)) as [_ Hc]. cbv zeta in Hc.
  repeat case_bool_decide; try done; exfalso; set_solver.
Qed.

Lemma add_group_map (f : string -> list dict) D k r :
  NoDup D ->
  add_group (map (fun x => (x, f x)) D) k r =
    if bool_decide (k ∈ D) then map (fun x => (x, if String.eqb x k then f x ++ [r] else f x)) D
    else map (fun x => (x, f x)) D ++ [(k, [r])].
Proof.
  induction D as [|x D IH]; intros Hn; [done|]. apply NoDup_cons in Hn as [Hx Hn]. cbn [map add_group].
  destruct (String.eqb_spec x k) as [->|Hne].
  - rewrite bool_decide_true by set_solver. f_equal. apply map_ext_in. intros y Hy. destruct (String.eqb_spec y k) as [->|]; [|done].
    exfalso. apply Hx. by apply list_elem_of_In.
  - rewrite IH by done. repeat case_bool_decide; (reflexivity || set_solver).
Qed.

(** The groups are the rows of each key text, in the order of their first rows. *)
Lemma group_rows_spec keys rows :
  group_rows keys rows = map (fun k => (k, List.filter (fun r => String.eqb (keyOf keys r) k) rows)) (dedupe (map (keyOf keys) rows)).
Proof.
  induction rows as [|r rows IH] using rev_ind; [done|]. unfold group_rows in *. rewrite fold_left_app. cbn [fold_left]. rewrite IH.
  destruct (dedupe_spec (map (keyOf keys) rows) [] (NoDup_nil_2)) as [Hnd Hc]. cbv zeta in Hc, Hnd. fold (dedupe (map (keyOf keys) rows)) in Hc, Hnd.
  rewrite map_app. cbn [map]. rewrite dedupe_snoc, add_group_map by done. set (D := dedupe (map (keyOf keys) rows)) in *.
  assert (Hin : bool_decide (keyOf keys r ∈ D) = bool_decide (keyOf keys r ∈ map (keyOf keys) rows)).
  { apply bool_decide_ext. rewrite Hc. set_solver. }
  rewrite Hin. clear Hin. case_bool_decide as Hk.
  - apply map_ext. intros x. rewrite List.filter_app. cbn [List.filter]. rewrite (String.eqb_sym x (keyOf keys r)).
    destruct (String.eqb (keyOf keys r) x); [done|by rewrite app_nil_r].
  - rewrite map_app. cbn [map]. f_equal.
    + apply map_ext_in. intros x Hx. rewrite List.filter_app. cbn [List.filter]. destruct (String.eqb_spec (keyOf keys r) x) as [E|_]; [|by rewrite app_nil_r].
      exfalso. apply Hk. apply list_elem_of_In, Hc in Hx. rewrite E. set_solver.
    + do 2 f_equal. rewrite List.filter_app. cbn [List.filter]. rewrite String.eqb_refl.
      assert (Hnone : List.filter (fun r' => String.eqb (keyOf keys r') (keyOf keys r)) rows = []); [|by rewrite Hnone].
      clear IH D Hnd Hc. induction rows as [|y rows IH]; [done|]. cbn [List.filter].
      destruct (String.eqb_spec (keyOf keys y) (keyOf keys r)) as [E|_]; [exfalso; apply Hk; set_solver|]. apply IH. set_solver.
Qed.

(** The parts of a list by a key, taken together, are the list. *)
Lemma filter_partition {A} (key : A -> string) (l : list A) D :
  NoDup D -> (forall a, List.In a l -> key a ∈ D) -> concat (map (fun k => List.filter (fun a => String.eqb (key a) k) l) D) ≡ₚ l.
Proof.
  intros Hn. induction l as [|a l IH]; intros Hin.
  - assert (concat (map (fun k => List.filter (fun a => String.eqb (key a) k) ([] : list A)) D) = []) as ->; [|done].
    clear. induction D; [done|]. done.
  - specialize (IH ltac:(intros x Hx; apply Hin; by right)). specialize (Hin a ltac:(by left)). rewrite <- IH. clear IH.
    induction D as [|k D IHD]; [set_solver|]. apply NoDup_cons in Hn as [Hk Hn]. cbn [map concat List.filter].
    destruct (String.eqb_spec (key a) k) as [Ek|Hne].
    + rewrite (map_ext_in _ (fun k => List.filter (fun a => String.eqb (key a) k) l) D); [done|].
      intros y Hy. destruct (String.eqb_spec (key a) y) as [Ey|]; [|done]. exfalso. apply Hk. rewrite <- Ek, Ey. by apply list_elem_of_In.
    + rewrite IHD by (done || set_solver). by rewrite Permutation_middle.
Qed.

(** [groupBy] splits the rows into the groups of equal key text, each in the
    order of the table, the groups in the order of their first rows. *)
Theorem groups_partition (t : TableV) (ks : list string) :
  (forall k, k ∈ ks -> k ∈ t_columns t) ->
  exists gs, groupsFn (of_table t) (BlList (map BlString ks)) = Ok gs /\
    map t_rows gs = map (fun k => List.filter (fun r => String.eqb (keyOf ks r) k) (t_rows t)) (dedupe (map (keyOf ks) (t_rows t))) /\
    concat (map t_rows gs) ≡ₚ t_rows t /\
    Forall (fun g => t_columns g = t_columns t /\ t_rows g <> []) gs.
Proof.
  intros Hk. destruct t as [cols rows]. cbn [t_columns t_rows] in *.
  assert (Hg : group_keys (mkTable cols rows) (map BlString ks) = Ok ks).
  { induction ks as [|k ks IH]; [done|]. cbn [map group_keys]. rewrite (proj2 (hasColumn_spec (mkTable cols rows) k)) by (apply Hk; set_solver).
    cbn [negb]. rewrite IH by (intros; apply Hk; set_solver). done. }
  unfold groupsFn, of_table. cbn [get_table t_columns t_rows]. rewrite Hg. cbn [result_bind]. eexists. split; [reflexivity|].
  rewrite group_rows_spec, !map_map. cbn [snd subTable t_rows]. destruct (dedupe_spec (map (keyOf ks) rows) [] (NoDup_nil_2)) as [Hnd Hc].
  cbv zeta in Hnd, Hc. fold (dedupe (map (keyOf ks) rows)) in Hnd, Hc. split_and!; [done| |].
  - apply filter_partition; [done|]. intros r Hr. apply Hc. right. apply list_elem_of_In, in_map_iff. by exists r.
  - apply Forall_fmap, List.Forall_forall. intros k Hin. cbn. split; [done|]. apply list_elem_of_In, Hc in Hin as [Hin|Hin]; [set_solver|].
    apply list_elem_of_In, in_map_iff in Hin as (r & <- & Hr). intros E.
    assert (Hf : List.In r (List.filter (fun x => String.eqb (keyOf ks x) (keyOf ks r)) rows)) by (apply filter_In; split; [done|apply String.eqb_refl]).
    by rewrite E in Hf.
Qed.

(** ** Distinct rows *)

Lemma distinct_spec rows out :
  (forall i j a b, i < j -> out !! Z.to_nat i = Some a -> out !! Z.to_nat j = Some b -> 0 <= i -> row_eq b a = false) ->
  let l := fold_left add_row rows out in
  (forall i j a b, i < j -> l !! Z.to_nat i = Some a -> l !! Z.to_nat j = Some b -> 0 <= i -> row_eq b a = false) /\
  (exists tl, l = out ++ tl /\ sublist tl rows) /\
  (forall r, List.In r rows -> List.In r l \/ exists e, List.In e l /\ row_eq r e = true).
Proof.
  revert out. induction rows as [|r rows IH]; intros out Hout; cbn [fold_left].
  - split_and!; [done|exists []; by rewrite app_nil_r|done].
  - assert (Hadd : forall i j a b, i < j -> add_row out r !! Z.to_nat i = Some a -> add_row out r !! Z.to_nat j = Some b -> 0 <= i -> row_eq b a = false).
    { intros i j a b Hij Ha Hb Hi. unfold add_row in Ha, Hb. destruct (existsb (row_eq r) out) eqn:Ex; [by eapply Hout|].
      destruct (decide (Z.to_nat j < length out)%nat) as [Hj|Hj].
      - rewrite lookup_app_l in Ha, Hb by lia. by eapply Hout.
      - rewrite lookup_app_r in Hb by lia. apply list_lookup_singleton_Some in Hb as [Hb <-].
        rewrite lookup_app_l in Ha by lia. apply not_true_iff_false. intros Hr. apply not_true_iff_false in Ex. apply Ex.
        apply existsb_exists. exists a. split; [|done]. apply list_elem_of_In. by eapply list_elem_of_lookup_2. }
    destruct (IH (add_row out r) Hadd) as (H1 & (tl & Etl & Hsub) & H3). split_and!; [exact H1| |].
    + rewrite Etl. unfold add_row. destruct (existsb (row_eq r) out); [exists tl; split; [done|by apply sublist_cons]|].
      exists (r :: tl). rewrite <- app_assoc. split; [done|by apply sublist_skip].
    + intros x [<-|Hx]; [|by apply H3]. rewrite Etl. unfold add_row. destruct (existsb (row_eq r) out) eqn:Ex.
      * right. apply existsb_exists in Ex as (e & He & Hr). exists e. split; [apply in_app_iff; by left|done].
      * left. apply in_app_iff. left. apply in_app_iff. right. by left.
Qed.

(** [distinct] keeps a subsequence of the rows in which no row equals an earlier
    one, and every row that is dropped equals one that is kept. *)
Theorem distinct_rows (t : TableV) :
  let l := t_rows (tableDistinctFn t) in
  sublist l (t_rows t) /\
  (forall i j a b, i < j -> l !! Z.to_nat i = Some a -> l !! Z.to_nat j = Some b -> 0 <= i -> row_eq b a = false) /\
  (forall r, List.In r (t_rows t) -> List.In r l \/ exists e, List.In e l /\ row_eq r e = true).
Proof.
  destruct (distinct_spec (t_rows t) []) as (H1 & (tl & E & Hs) & H3); [done|]. cbv zeta in *. split_and!; [|exact H1|exact H3].
  unfold tableDistinctFn. cbn [subTable t_rows]. by rewrite E.
Qed.

End Join.

(** * Sample tables

    The theorems on tables at concrete tables, and joins in which the text of a
    key cell does not decide its equality. *)


#[local] Existing Instance tenDecimal.
#[local] Existing Instance tenText.

Definition n_ (z : Z) : BlValue := BlNumber (DO := tenDecimal) (mkTen z 0).
Definition s_ (s : string) : BlValue := BlString (DO := tenDecimal) s.

Definition people : TableV (DO := tenDecimal) :=
  mkTable ["id"; "name"] [[("id", n_ 2); ("name", s_ "b")]; [("id", n_ 1); ("name", s_ "a")]; [("id", n_ 2); ("name", s_ "c")]].
Definition orders : TableV (DO := tenDecimal) :=
  mkTable ["id"; "item"] [[("id", n_ 1); ("item", s_ "x")]; [("id", n_ 3); ("item", s_ "y")]].

Lemma wf_row_sample (cols : list string) (r : list (string * BlValue (DO := tenDecimal))) :
  map fst r = cols -> bool_decide (NoDup cols) = true -> uniform (DO := tenDecimal) cols r.
Proof.
  intros <- Hn. apply bool_decide_eq_true in Hn. split; [exact Hn|]. intros c. apply get_is_Some.
Qed.

Lemma people_wf : wf_tab (DO := tenDecimal) people.
Proof.
  split; [apply (bool_decide_unpack _); vm_compute; exact I|].
  repeat first [apply Forall_nil_2 | apply Forall_cons_2; [apply wf_row_sample; vm_compute; reflexivity|]].
Qed.

Lemma operations_keep_tables_witness : wf_tab (DO := tenDecimal) people /\ wf_tab (tableDistinctFn (DO := tenDecimal) people).
Proof.
  pose proof (operations_keep_tables (DO := tenDecimal) (DT := tenText) people people_wf) as (_ & _ & _ & _ & _ & _ & H & _).
  split; [exact people_wf|exact H].
Defined.

Lemma is_Some_test {A} (o : option A) : match o with Some _ => true | None => false end = true -> is_Some o.
Proof. destruct o; [by eexists|done]. Qed.

Definition byId : list (SortSpec (DO := tenDecimal)) := [mkSpec "id" false None].

Lemma table_sort_correct_witness :
  exists t', tableSortFn (DO := tenDecimal) people [s_ "id"] = Ok t' /\ t_rows t' ≡ₚ t_rows people.
Proof.
  assert (Hs : sort_specs (DO := tenDecimal) people [s_ "id"] = Ok byId) by vm_eq.
  destruct (table_sort_correct (DO := tenDecimal) (DL := tenDecimal_laws) people [s_ "id"] byId ltac:(discriminate) Hs) as [H1 H2].
  destruct H2 as [t' Ht'].
  - intros a b Ha Hb. cbn in Ha, Hb.
    repeat (destruct Ha as [<-|Ha]; [repeat (destruct Hb as [<-|Hb]; [apply is_Some_test; vm_eq|]); done|]); done.
  - exists t'. split; [exact Ht'|]. by destruct (H1 t' Ht') as (_ & Hp & _).
Defined.

Lemma join_is_relational_witness :
  exists rows, joinFn (DO := tenDecimal) (DT := tenText) [of_table people; of_table orders; BlList [s_ "id"]; s_ "left"] =
    Ok (mkTable ["id"; "name"; "item"] rows) /\ length rows = 3%nat.
Proof.
  destruct (join_is_relational (DO := tenDecimal) (DT := tenText) people orders "id" [] Left
    (fun l r => rowsKeyEqual l r ["id"])) as (rows & E & Hf).
  - intros key Hk. apply list_elem_of_singleton in Hk as ->. split; apply (bool_decide_unpack _); vm_compute; exact I.
  - intros c Hc. cbn in Hc. rewrite !elem_of_cons in Hc. destruct Hc as [->|[->|Hc]]; [by left| |by apply elem_of_nil in Hc].
    intros Hx. apply (bool_decide_pack _) in Hx. vm_compute in Hx. destruct Hx.
  - intros lr rr _ _. apply rowsKeyEqual_match.
  - intros lr rr Hl Hr. rewrite <- rowsKeyEqual_match. cbn in Hl, Hr.
    repeat (destruct Hl as [<-|Hl]; [repeat (destruct Hr as [<-|Hr]; [split; vm_compute; congruence|]); done|]); done.
  - exists rows. split; [exact E|]. apply Forall2_length in Hf. rewrite <- Hf. vm_compute. reflexivity.
Defined.

Lemma groups_partition_witness :
  exists gs, groupsFn (DO := tenDecimal) (DT := tenText) (of_table people) (BlList [s_ "id"]) = Ok gs /\ concat (map t_rows gs) ≡ₚ t_rows people.
Proof.
  destruct (groups_partition (DO := tenDecimal) (DT := tenText) people ["id"]) as (gs & H1 & _ & H2 & _).
  - intros k Hk. apply list_elem_of_singleton in Hk as ->. apply (bool_decide_unpack _); vm_compute; exact I.
  - exists gs. split; [exact H1|exact H2].
Defined.

(** ** Keys that differ and have the same text *)

Definition textIds : TableV (DO := tenDecimal) := mkTable ["id"; "item"] [[("id", s_ "1"); ("item", s_ "x")]].
(** What a function reads off the table a call returns. *)
Definition read {A} (f : TableV (DO := tenDecimal) -> A) (r : result TableV) : result A := let! t := r in Ok (f t).
Definition join_on (a b : TableV (DO := tenDecimal)) (how : string) : result TableV :=
  joinFn (DO := tenDecimal) (DT := tenText) [of_table a; of_table b; s_ "id"; s_ how].
Definition join_rows (a b : TableV (DO := tenDecimal)) (how : string) : result nat := read (fun t => length (t_rows t)) (join_on a b how).

Definition oneId : TableV (DO := tenDecimal) := mkTable ["id"; "name"] [[("id", n_ 1); ("name", s_ "a")]].

(** The number 1 and the text 1 match in an inner join and not in a right join;
    an outer join emits the right row both as matched and as unmatched. *)
Theorem join_matches_by_text :
  eqTrue (Equal (n_ 1) (s_ "1")) = false /\
  join_rows oneId textIds "inner" = Ok 1%nat /\
  read (fun t => map (fun r => cell r "name") (t_rows t)) (join_on oneId textIds "right") = Ok [BlNull] /\
  join_rows oneId textIds "outer" = Ok 2%nat.
Proof. split_and!; vm_eq. Qed.

(** Null keys, which equal nothing, match each other. *)
Theorem join_matches_null_keys :
  let a := mkTable ["id"; "name"] [[("id", BlNull (DO := tenDecimal)); ("name", s_ "a")]] in
  let b := mkTable ["id"; "item"] [[("id", BlNull (DO := tenDecimal)); ("item", s_ "x")]] in
  rowsKeyEqual (DO := tenDecimal) [("id", BlNull)] [("id", BlNull)] ["id"] = false /\ join_rows a b "inner" = Ok 1%nat.
Proof. split; vm_eq. Qed.

(** An unknown join type is taken for an inner join. *)
Theorem join_type_not_checked : join_rows people orders "full" = join_rows people orders "inner" /\ join_rows people orders "inner" = Ok 1%nat.
Proof. split; vm_eq. Qed.

(** Selecting a column twice, or joining on a key named twice, makes a table
    with a repeated column. *)
Theorem repeated_columns :
  read t_columns (selectFn (DO := tenDecimal) people ["id"; "id"]) = Ok ["id"; "id"] /\
  read t_columns (joinFn (DO := tenDecimal) (DT := tenText) [of_table people; of_table orders; BlList [s_ "id"; s_ "id"]]) =
    Ok ["id"; "id"; "name"; "item"].
Proof. split; vm_eq. Qed.
