(* ===== verification/Calendars.v ===== *)
(** * Calendars and business days

    Models [core/calendar.go].  A calendar is its entries, in chronological
    order, and its validity bounds.  The loops that look for a business day have
    no bound of their own: they take fuel, and [None] is a loop that has not
    ended.  [core/ical.go] is modelled from the events the iCalendar package
    parsed; the expansion of a recurrence rule is a parameter. *)

From Stdlib Require Import Strings.Ascii SpecFloat.
From S2P Require Import Prelude Decimal GoText GoTime Values ValueLaws Lists Ranges Numbers GoTimeText Durations Temporal Dictionaries Strings.
#[global] Open Scope Z_scope.

Section Calendars.
Context {DO : DecimalOps}.

Abbreviation entry := (option string * BlValue)%type.

Record CalendarV : Type := mkCalendar { c_entries : list entry; c_validFrom : BlValue; c_validTo : BlValue }.
Definition of_calendar (c : CalendarV) : BlValue := BlCalendar (c_entries c) (c_validFrom c) (c_validTo c).
Definition get_calendar (v : BlValue) : option CalendarV := match v with BlCalendar e f t => Some (mkCalendar e f t) | _ => None end.
Definition entry_value (e : entry) : BlValue := BlCalendarEntry (fst e) (snd e).

(** ** Construction *)

Fixpoint isTemporalEntryValue (v : BlValue) : bool :=
  match v with
  | BlDate _ _ | BlDateTime _ _ => true
  | BlRange s e _ _ => isTemporalEntryValue s || isTemporalEntryValue e || (IsNull s && IsNull e)
  | _ => false
  end.

Definition entryStart (e : entry) : BlValue := match snd e with BlRange s _ _ _ => s | v => v end.

(** The name that orders entries of one start; an unnamed entry has none. *)
Definition entryName (e : entry) : string := default "" (fst e).

Definition entry_less (a b : entry) : bool :=
  match compareValues (entryStart a) (entryStart b) with
  | Some c => if negb (c =? 0) then c <? 0 else string_less (entryName a) (entryName b)
  | None => string_less (entryName a) (entryName b)
  end.
Definition sortEntries (es : list entry) : list entry := slice_stable entry_less es.

(** [Calendar]; the options set the validity bounds, the last one wins. *)
Definition WithValidity (r : RangeV) (c : CalendarV) : CalendarV := mkCalendar (c_entries c) (r_start r) (r_end r).
Definition Calendar (entries : list entry) (opts : list RangeV) : result CalendarV :=
  if negb (forallb (fun e => isTemporalEntryValue (snd e)) entries)
  then Err (TypeError "Calendar" "entry must be a date, datetime, or range")
  else
    let c := fold_left (fun c r => WithValidity r c) opts (mkCalendar entries BlNull BlNull) in
    Ok (mkCalendar (sortEntries (c_entries c)) (c_validFrom c) (c_validTo c)).

(** ** Queries *)

Definition calendarCovers (e : entry) (point : BlValue) : bool :=
  match as_range (snd e) with
  | Some r => match contains r point with Some true => true | _ => false end
  | None => match compareValues (snd e) point with Some c => c =? 0 | None => false end
  end.

Definition entriesFn (c : CalendarV) : BlValue := BlList (map entry_value (c_entries c)).
Definition findFn (c : CalendarV) (name : string) : BlValue :=
  BlList (map entry_value (List.filter (fun e => match fst e with Some n => String.eqb n name | None => false end) (c_entries c))).
Definition calContains (c : CalendarV) (point : BlValue) : bool := existsb (fun e => calendarCovers e point) (c_entries c).
Definition calContainsFn (c : CalendarV) (point : BlValue) : BlValue := BlBoolean (calContains c point).
Definition entriesForFn (c : CalendarV) (point : BlValue) : BlValue :=
  BlList (map entry_value (List.filter (fun e => calendarCovers e point) (c_entries c))).

Definition entriesInFn (c : CalendarV) (r : RangeV) : BlValue :=
  match toInterval (range_value r) with
  | None => BlList []
  | Some ri =>
      BlList (map entry_value (List.filter (fun e => match toInterval (snd e) with
                                                     | Some ei => intervalsOverlap ei ri
                                                     | None => false
                                                     end) (c_entries c)))
  end.

Definition validFromFn (c : CalendarV) : BlValue := c_validFrom c.
Definition validToFn (c : CalendarV) : BlValue := c_validTo c.
Definition validRangeFn (c : CalendarV) : BlValue :=
  if IsNull (c_validFrom c) || IsNull (c_validTo c) then BlNull
  else match Range (c_validFrom c) (c_validTo c) true true with
       | Ok r => range_value r
       | Err _ => BlNull
       end.

Definition calCountFn (c : CalendarV) : BlValue := numFromInt (Z.of_nat (length (c_entries c))).
Definition calIsEmptyFn (c : CalendarV) : BlValue := BlBoolean (length (c_entries c) =? 0)%nat.

(** The entries strictly after, or before, a point, the nearest first. *)
Definition step_matches (c : CalendarV) (point : BlValue) (forward : bool) : list entry :=
  let ms := List.filter (fun e => match compareValues (entryStart e) point with
                                  | Some cmp => if forward then 0 <? cmp else cmp <? 0
                                  | None => false
                                  end) (c_entries c) in
  if forward then ms else rev ms.

Definition calStep (c point : BlValue) (third : option BlValue) (forward : bool) : result BlValue :=
  match get_calendar c with
  | None => Err (argTypeError c)
  | Some c =>
      let n := match third with Some (BlNumber d) => dIntPart d | _ => 1 end in
      let matches := step_matches c point forward in
      if (n <? 1) || (Z.of_nat (length matches) <? n) then Ok BlNull
      else Ok (match matches !! Z.to_nat (n - 1) with Some e => entry_value e | None => BlNull end)
  end.
Definition calNextFn (c point : BlValue) (third : option BlValue) : result BlValue := calStep c point third true.
Definition calPrevFn (c point : BlValue) (third : option BlValue) : result BlValue := calStep c point third false.

(** ** Dropping, keeping, merging *)

Section Patterns.
Context {RX : Regexp}.

Fixpoint entryMatchesTarget (e : entry) (target : BlValue) : bool :=
  match target with
  | BlString s => match fst e with Some n => String.eqb n s | None => false end
  | BlRegex source =>
      match fst e, re_Compile source with
      | Some n, Some re => re_MatchString re n
      | _, _ => false
      end
  | BlDate _ _ | BlDateTime _ _ => calendarCovers e target
  | BlRange _ _ _ _ =>
      match toInterval (snd e), toInterval target with
      | Some ei, Some ti => intervalsOverlap ei ti
      | _, _ => false
      end
  | BlList items =>
      (fix any (items : list BlValue) : bool :=
         match items with
         | [] => false
         | el :: items' => if entryMatchesTarget e el then true else any items'
         end) items
  | _ => false
  end.

Definition calDropKeep (c target : BlValue) (drop : bool) : result BlValue :=
  match get_calendar c with
  | None => Err (argTypeError c)
  | Some c =>
      Ok (of_calendar (mkCalendar (List.filter (fun e => negb (Bool.eqb (entryMatchesTarget e target) drop)) (c_entries c))
                                  (c_validFrom c) (c_validTo c)))
  end.
Definition calendarDropFn (c target : BlValue) : result BlValue := calDropKeep c target true.
Definition calendarKeepFn (c target : BlValue) : result BlValue := calDropKeep c target false.
End Patterns.

Fixpoint merge_entries (items : list BlValue) : result (list entry) :=
  match items with
  | [] => Ok []
  | BlCalendar es _ _ :: items' => let! rest := merge_entries items' in Ok (es ++ rest)
  | _ :: _ => Err (TypeError "calendarMerge" "elements must be calendars")
  end.
Definition calendarMergeFn (items : list BlValue) : result BlValue :=
  let! es := merge_entries items in Ok (of_calendar (mkCalendar (sortEntries es) BlNull BlNull)).

(** ** Business days *)

Definition isWeekendDay (t : Time) : bool := (Weekday t =? 6) || (Weekday t =? 0).
Definition isHoliday (c : CalendarV) (point : BlValue) : bool := calContains c point.

Definition isPublicHolidayFn (point c : BlValue) : result BlValue :=
  match get_calendar c with
  | None => Err (argTypeError c)
  | Some c => Ok (BlBoolean (isHoliday c point))
  end.

Definition isBusinessDayFn (v : BlValue) (c : option BlValue) : result BlValue :=
  match temporalParts v with
  | None => Err (argTypeError v)
  | Some (t, _, _) =>
      Ok (BlBoolean (negb (isWeekendDay t) &&
            match c with
            | Some cv => match get_calendar cv with Some c => negb (isHoliday c v) | None => true end
            | None => true
            end))
  end.

Definition outOfCalendarRange (cal : option CalendarV) (point : BlValue) : bool :=
  match cal with
  | None => false
  | Some c =>
      (negb (IsNull (c_validFrom c)) && match compareValues point (c_validFrom c) with Some x => x <? 0 | None => false end) ||
      (negb (IsNull (c_validTo c)) && match compareValues point (c_validTo c) with Some x => 0 <? x | None => false end)
  end.

Definition holiday_on (cal : option CalendarV) (point : BlValue) : bool :=
  match cal with Some c => isHoliday c point | None => false end.

(** The loop of [businessDayStep]. *)
Fixpoint business_search (fuel : nat) (t : Time) (naive dtk : bool) (cal : option CalendarV) (step : Z) (strict : bool)
  : option (result BlValue) :=
  match fuel with
  | O => None
  | S fuel' =>
      let t := AddDate t 0 0 step in
      let cur := rebuildTemporal t naive dtk in
      if strict && outOfCalendarRange cal cur
      then Some (Err (CalendarRangeError "business-day iteration past calendar validity bounds"))
      else if isWeekendDay t then business_search fuel' t naive dtk cal step strict
      else if holiday_on cal cur then business_search fuel' t naive dtk cal step strict
      else Some (Ok cur)
  end.

Definition businessDayStep (fuel : nat) (v : BlValue) (cal : option CalendarV) (forward strict : bool) : option (result BlValue) :=
  match temporalParts v with
  | None => Some (Ok BlNull)
  | Some (t, naive, dtk) => business_search fuel t naive dtk cal (if forward then 1 else -1) strict
  end.

(** [parseCalStrict] of the arguments from [from] on. *)
Definition parseCalStrict (args : list BlValue) (from : nat) : option CalendarV * bool :=
  (match args !! from with Some v => get_calendar v | None => None end,
   match args !! S from with Some (BlBoolean b) => b | _ => false end).

Definition businessDayNav (fuel : nat) (args : list BlValue) (forward : bool) : option (result BlValue) :=
  let '(cal, strict) := parseCalStrict args 1 in businessDayStep fuel (arg args 0) cal forward strict.
Definition nextBusinessDayFn (fuel : nat) (args : list BlValue) : option (result BlValue) := businessDayNav fuel args true.
Definition prevBusinessDayFn (fuel : nat) (args : list BlValue) : option (result BlValue) := businessDayNav fuel args false.

(** The loop of [businessDayAdd]; each step has its own fuel. *)
Fixpoint business_steps (count : nat) (fuel : nat) (cur : BlValue) (cal : option CalendarV) (forward strict : bool) : option (result BlValue) :=
  match count with
  | O => Some (Ok cur)
  | S count' =>
      match businessDayStep fuel cur cal forward strict with
      | None => None
      | Some (Err e) => Some (Err e)
      | Some (Ok next) => if IsNull next then Some (Ok BlNull) else business_steps count' fuel next cal forward strict
      end
  end.

(** [-count] wraps on the least integer, which then counts no step. *)
Definition businessDayAdd (fuel : nat) (args : list BlValue) (subtract : bool) : option (result BlValue) :=
  match arg args 1 with
  | BlNumber n =>
      let count := dIntPart n in
      let forward := negb subtract in
      let '(forward, count) := if count <? 0 then (negb forward, int64 (- count)) else (forward, count) in
      let '(cal, strict) := parseCalStrict args 2 in
      business_steps (Z.to_nat count) fuel (arg args 0) cal forward strict
  | v => Some (Err (argTypeError v))
  end.
Definition addBusinessDaysFn (fuel : nat) (args : list BlValue) : option (result BlValue) := businessDayAdd fuel args false.
Definition subtractBusinessDaysFn (fuel : nat) (args : list BlValue) : option (result BlValue) := businessDayAdd fuel args true.

(** The loop of [businessDaysBetweenFn]: it asks for the holiday of the naive date. *)
Definition count_business (fuel : nat) (a b : Time) (cal : option CalendarV) (count : Z) : option Z :=
  count_days (fun a => negb (isWeekendDay a) && negb (holiday_on cal (BlDate a true))) fuel a b count.

Definition businessDaysBetweenFn (args : list BlValue) : result BlValue :=
  match temporalParts (arg args 0), temporalParts (arg args 1) with
  | Some (t1, _, _), Some (t2, _, _) =>
      let '(cal, strict) := parseCalStrict args 2 in
      if strict && match cal with Some _ => true | None => false end &&
         (outOfCalendarRange cal (arg args 0) || outOfCalendarRange cal (arg args 1))
      then Err (CalendarRangeError "businessDaysBetween past calendar validity bounds")
      else
        let a := midnight t1 in
        let b := midnight t2 in
        let '(a, b) := if TimeAfter a b then (b, a) else (a, b) in
        looping (option_map (fun n => Ok (numFromInt n)) (count_business (days_fuel a b) a b cal 0))
  | _, _ => Err (TypeError "businessDaysBetween" "expected temporals")
  end.

(** [opIn] and [containsDispatch] *)
Definition opIn (x container : BlValue) : result BlValue :=
  match container with
  | BlList items => Ok (listContainsFn items x)
  | BlRange s e si ei => Ok (match contains (mkRangeV s e si ei) x with None => BlNull | Some b => BlBoolean b end)
  | BlCalendar es f t => Ok (calContainsFn (mkCalendar es f t) x)
  | _ => Err (TypeError "in" "right operand must be a list, range, or calendar")
  end.

Definition containsDispatch (v m : BlValue) : result BlValue :=
  match v with
  | BlString s => match m with BlString m => Ok (containsFn s m) | _ => Err (argTypeError m) end
  | BlCalendar es f t => Ok (calContainsFn (mkCalendar es f t) m)
  | _ => Err (TypeError "contains" "first argument must be a string or calendar")
  end.

(** The functions that loop get the fuel of the caller. *)
Definition calendarOptions {RX : Regexp} (fuel : nat) : list Builtin :=
  [mkBuiltin "entries" [1] (fn1 (typed1 get_calendar entriesFn));
   mkBuiltin "find" [2] (fn2 (typed2 get_calendar get_string findFn));
   mkBuiltin "entriesFor" [2] (fn2 (typed2 get_calendar (fun v => Some v) entriesForFn));
   mkBuiltin "entriesIn" [2] (fn2 (typed2 get_calendar as_range entriesInFn));
   mkBuiltin "validFrom" [1] (fn1 (typed1 get_calendar validFromFn));
   mkBuiltin "validTo" [1] (fn1 (typed1 get_calendar validToFn));
   mkBuiltin "validRange" [1] (fn1 (typed1 get_calendar validRangeFn));
   mkBuiltin "next" [2; 3] (fun args => calNextFn (arg args 0) (arg args 1) (third args));
   mkBuiltin "prev" [2; 3] (fun args => calPrevFn (arg args 0) (arg args 1) (third args));
   mkBuiltin "calendarDrop" [2] (fn2 calendarDropFn);
   mkBuiltin "calendarKeep" [2] (fn2 calendarKeepFn);
   mkBuiltin "calendarMerge" [1] (fn1 (typed1err get_items calendarMergeFn));
   mkBuiltin "isPublicHoliday" [] (fn2 isPublicHolidayFn);
   mkBuiltin "isBusinessDay" [] (fun args => isBusinessDayFn (arg args 0) (args !! 1%nat));
   mkBuiltin "nextBusinessDay" [] (fun args => looping (nextBusinessDayFn fuel args));
   mkBuiltin "prevBusinessDay" [] (fun args => looping (prevBusinessDayFn fuel args));
   mkBuiltin "addBusinessDays" [] (fun args => looping (addBusinessDaysFn fuel args));
   mkBuiltin "subtractBusinessDays" [] (fun args => looping (subtractBusinessDaysFn fuel args));
   mkBuiltin "businessDaysBetween" [] businessDaysBetweenFn]%nat.

(** ** Importing iCalendar events ([ical.go]) *)

Section Ical.
Context {TZ : TimeZones}.

(** A property of an event: its value and its parameters. *)
Record IANAProperty : Type := mkProperty { p_Value : string; p_VALUE : list string; p_TZID : list string }.
Record VEvent : Type := mkEvent { ev_DtStart : option IANAProperty; ev_DtEnd : option IANAProperty;
                                  ev_Summary : option IANAProperty; ev_Rrule : option IANAProperty }.

Definition layoutICalDate : list Chunk := [stdLongYear; stdZeroMonth; stdZeroDay].
(** A parsed time takes a fraction of a second although the layout has none. *)
Definition layoutICal : list Chunk :=
  layoutICalDate ++ [Lit "T"%char; stdHour; stdZeroMinute; stdZeroSecond; stdFracSecond9].

Definition parseICalValue (prop : IANAProperty) : result (BlValue * bool * Time) :=
  let v := p_Value prop in
  let isDate := existsb (String.eqb "DATE") (p_VALUE prop) || (String.length v =? 8)%nat in
  if isDate then
    match time_Parse layoutICalDate v with
    | None => Err (TypeError "ImportICal" ("bad DATE " +:+ v))
    | Some t => Ok (BlDate (goDate (Year t) (Month t) (Day t) 0 0 0 0 UTC) true, true, t)
    end
  else if HasSuffix v "Z" then
    match time_Parse (layoutICal ++ [Lit "Z"%char]) v with
    | None => Err (TypeError "ImportICal" ("bad DATE-TIME " +:+ v))
    | Some t => Ok (BlDateTime t false, false, t)
    end
  else
    let '(loc, naive) := match p_TZID prop with
                         | z :: _ => match LoadLocation z with Some l => (l, false) | None => (UTC, true) end
                         | [] => (UTC, true)
                         end in
    match ParseInLocation layoutICal v loc with
    | None => Err (TypeError "ImportICal" ("bad DATE-TIME " +:+ v))
    | Some t => Ok (BlDateTime t naive, false, t)
    end.

Definition temporalToTime (v : BlValue) (fallback : Time) : Time :=
  match v with BlDate t _ | BlDateTime t _ => t | _ => fallback end.

(** The instants of a recurrence rule from a start, between two instants. *)
Variable rrule : string -> Time -> result (Time -> Time -> list Time).

Definition expandRecurrence (rule : string) (start : Time) (isDate : bool) (name : option string) (window : RangeV) : result (list entry) :=
  let! between := rrule rule start in
  let winStart := temporalToTime (r_start window) start in
  let winEnd := temporalToTime (r_end window) (AddDate start 10 0 0) in
  Ok (map (fun occ => (name, if isDate then BlDate (goDate (Year occ) (Month occ) (Day occ) 0 0 0 0 UTC) true else BlDateTime occ false))
          (between winStart winEnd)).

Definition icalEventEntries (ev : VEvent) (window : option RangeV) : result (list entry) :=
  match ev_DtStart ev with
  | None => Ok []
  | Some startProp =>
      let name := match ev_Summary ev with
                  | Some p => if String.eqb (p_Value p) "" then None else Some (p_Value p)
                  | None => None
                  end in
      let! st := parseICalValue startProp in
      let '(startVal, isDate, startTime) := st in
      match ev_Rrule ev, window with
      | Some rprop, Some w => expandRecurrence (p_Value rprop) startTime isDate name w
      | _, _ =>
          match ev_DtEnd ev with
          | None => Ok [(name, startVal)]
          | Some endProp =>
              let! en := parseICalValue endProp in
              let '(endVal, endIsDate, _) := en in
              if eqTrue (Equal endVal startVal) then Ok [(name, startVal)]
              else
                let end_ := match endVal with
                            | BlDate t n => if endIsDate then BlDate (AddDate t 0 0 (-1)) n else endVal
                            | _ => endVal
                            end in
                let! rng := Range startVal end_ true true in
                Ok [(name, range_value rng)]
          end
      end
  end.

Fixpoint ical_entries (events : list VEvent) (window : option RangeV) : result (list entry) :=
  match events with
  | [] => Ok []
  | ev :: events' =>
      let! es := icalEventEntries ev window in
      let! rest := ical_entries events' window in
      Ok (es ++ rest)
  end.

(** [ImportICal] on the parsed document; [others] says whether it has components
    that are not events. *)
Definition ImportICal (events : list VEvent) (others : bool) (window validity : option RangeV) (strict : bool) : result CalendarV :=
  if strict && others then Err (TypeError "ImportICal" "non-VEVENT component in strict mode")
  else
    let! es := ical_entries events window in
    let! c := Calendar es [] in
    Ok (match validity with Some r => mkCalendar (c_entries c) (r_start r) (r_end r) | None => c end).

End Ical.
End Calendars.
