(* ===== verification/CalendarLaws.v ===== *)
(** * Business days and the order of a calendar

    Theorems about [Calendars] for values in a location of one offset: the
    business-day searches end on the nearest business day, with or without the
    strict range check; adding and then subtracting business days returns, and
    [businessDaysBetween] counts what was added; a calendar keeps its entries in
    the order of their starts. *)

From Stdlib Require Import Sorting.Sorted.
From S2P Require Import Prelude Decimal GoText GoTime Values ValueLaws Lists Ranges Numbers NumberLaws GoTimeText Durations Temporal TemporalLaws Dictionaries Strings Calendars TableLaws.
#[global] Open Scope Z_scope.

Lemma filter_none {A} (P : A -> Prop) `{!forall x, Decision (P x)} (l : list A) : (forall x, x ∈ l -> ~ P x) -> filter P l = [].
Proof.
  induction l as [|x l IH]; intros Hn; [done|]. rewrite filter_cons, decide_False by (apply Hn; left). apply IH. intros y Hy. apply Hn. by right.
Qed.

Section Business.
Context {DO : DecimalOps}.
Variable l : Location.
Hypothesis Hl : fixed_loc l.
Variable cal : option CalendarV.
Variables naive dtk : bool.

(** The value of an instant, and whether its day is a business day. *)
Definition temporal (t : Time) : BlValue := if dtk then BlDateTime t naive else BlDate t naive.
Definition business (t : Time) : bool := negb (isWeekendDay t) && negb (holiday_on cal (rebuildTemporal t naive dtk)).

(** A search that is not strict is the search of a day that passes a test. *)
Lemma business_search_until fuel t step :
  business_search fuel t naive dtk cal step false =
  option_map (fun t => Ok (rebuildTemporal t naive dtk)) (step_until fuel step business t).
Proof.
  revert t. induction fuel as [|fuel IH]; intros t; [done|]. cbn [business_search step_until andb]. cbv zeta. unfold business at 1.
  destruct (isWeekendDay _); cbn [negb andb]; [apply IH|]. destruct (holiday_on _ _); cbn [negb]; [apply IH|done].
Qed.

(** The strict search fails when it meets a day out of the bounds first. *)
Definition out_of_bounds (t : Time) : bool := outOfCalendarRange cal (rebuildTemporal t naive dtk).

Lemma business_search_strict fuel t step :
  business_search fuel t naive dtk cal step true =
  option_map (fun t => if out_of_bounds t then Err (CalendarRangeError "business-day iteration past calendar validity bounds")
                       else Ok (rebuildTemporal t naive dtk))
    (step_until fuel step (fun t => out_of_bounds t || business t) t).
Proof.
  revert t. induction fuel as [|fuel IH]; intros t; [done|]. cbn [business_search step_until andb]. cbv zeta.
  assert (Eo : outOfCalendarRange cal (rebuildTemporal (AddDate t 0 0 step) naive dtk) = out_of_bounds (AddDate t 0 0 step)) by done.
  rewrite Eo. destruct (out_of_bounds _) eqn:E; cbn [orb option_map]; [by rewrite E|]. unfold business at 1.
  destruct (isWeekendDay _); cbn [negb andb]; [apply IH|].
  destruct (holiday_on _ _); cbn [negb option_map]; [apply IH|]. by rewrite E.
Qed.

Lemma business_step_nearest fuel t (forward : bool) n :
  let s := if forward then 1 else -1 in
  at_loc l t -> (forall k, 0 <= k <= Z.of_nat fuel -> min_unix <= t_unix t + s * k * 86400) ->
  1 <= n <= Z.of_nat fuel -> business (shift t (s * n)) = true ->
  exists k, 1 <= k <= n /\
    businessDayStep fuel (temporal t) cal forward false = Some (Ok (rebuildTemporal (shift t (s * k)) naive dtk)) /\
    business (shift t (s * k)) = true /\ (forall j, 1 <= j < k -> business (shift t (s * j)) = false).
Proof.
  intros s Ht Hr Hn Hb. assert (Hp : temporalParts (temporal t) = Some (t, naive, dtk)) by (unfold temporal; by destruct dtk).
  unfold businessDayStep. rewrite Hp. fold s.
  destruct (step_until_nearest l Hl fuel s business t n) as (k & Hk & E & Hok & Hmin); [done|done|done|done|].
  exists k. rewrite business_search_until, E. split_and!; [lia|lia|done|done|exact Hmin].
Qed.

(** C25. For values in a location of one offset (naive values, UTC, numeric offsets)
    whose days on the way are instants a [time.Time] can hold, [nextBusinessDay] and
    [prevBusinessDay] end on the nearest business day, when one is within the fuel;
    the strict ones fail exactly when a day on the way is out of the bounds of the
    calendar.  In a zone that skips a day the search can stand still
    (skipped_day_not_passed). *)
Theorem next_business_day_nearest (fuel : nat) (t : Time) (forward : bool) (n : Z) :
  let s := if forward then 1 else -1 in
  at_loc l t -> (forall k, 0 <= k <= Z.of_nat fuel -> min_unix <= t_unix t + s * k * 86400 <= max_unix) ->
  1 <= n <= Z.of_nat fuel -> business (shift t (s * n)) = true ->
  exists k, 1 <= k <= n /\
    businessDayStep fuel (temporal t) cal forward false = Some (Ok (rebuildTemporal (shift t (s * k)) naive dtk)) /\
    business (shift t (s * k)) = true /\ (forall j, 1 <= j < k -> business (shift t (s * j)) = false) /\
    exists r, businessDayStep fuel (temporal t) cal forward true = Some r /\
      (r = Ok (rebuildTemporal (shift t (s * k)) naive dtk) /\ (forall j, 1 <= j <= k -> out_of_bounds (shift t (s * j)) = false) \/
       (exists e, r = Err e) /\ exists j, 1 <= j <= k /\ out_of_bounds (shift t (s * j)) = true).
Proof.
  intros s Ht Hrange Hn Hb.
  assert (Hr : forall k, 0 <= k <= Z.of_nat fuel -> min_unix <= t_unix t + s * k * 86400) by (intros; by apply Hrange).
  destruct (business_step_nearest fuel t forward n Ht Hr Hn Hb) as (k & Hk & E & Hok & Hmin).
  fold s in E, Hok, Hmin. exists k. split_and!; [lia|lia|exact E|exact Hok|exact Hmin|].
  assert (Hp : temporalParts (temporal t) = Some (t, naive, dtk)) by (unfold temporal; by destruct dtk).
  unfold businessDayStep. rewrite Hp. fold s. rewrite business_search_strict.
  destruct (step_until_nearest l Hl fuel s (fun t => out_of_bounds t || business t) t k) as (i & Hi & E' & Hoi & Hmini);
    [done|done|lia|by rewrite Hok, orb_true_r|]. cbv beta in Hoi, Hmini.
  rewrite E'. cbn [option_map]. eexists. split; [done|].
  destruct (out_of_bounds (shift t (s * i))) eqn:Eo; [right; split; [by eexists|exists i; split; [lia|exact Eo]]|left].
  assert (i = k) as ->.
  { cbn [orb] in Hoi. destruct (Z.eq_dec i k); [done|]. rewrite (Hmin i ltac:(lia)) in Hoi. done. }
  split; [done|]. intros j Hj. destruct (Z.eq_dec j k) as [->|]; [done|].
  specialize (Hmini j ltac:(lia)). by apply orb_false_elim in Hmini as [? _].
Qed.

End Business.

(** ** Naive dates *)

Section Dates.
Context {DO : DecimalOps}.
Variable cal : option CalendarV.
Variable fuel : nat.

Definition naive_date (n : Z) : BlValue := BlDate (mid UTC n) true.
(** The day number is a business day of the calendar. *)
Definition business_date (n : Z) : bool := weekday_day n && negb (holiday_on cal (naive_date n)).
(** A day from which a search stays in the range of instants. *)
Definition searchable (n : Z) : Prop := in_range UTC (n - Z.of_nat fuel).

Lemma business_mid n : in_range UTC n -> business cal true false (mid UTC n) = business_date n.
Proof.
  intros Hr. unfold business, business_date, rebuildTemporal, naive_date. rewrite midnight_mid by (exact fixed_UTC || done).
  f_equal. unfold weekday_day, isWeekendDay, Weekday. by rewrite mid_days by exact fixed_UTC.
Qed.

Lemma date_step d (forward : bool) n :
  let s := if forward then 1 else -1 in
  searchable d -> 1 <= n <= Z.of_nat fuel -> business_date (d + s * n) = true ->
  exists k, 1 <= k <= n /\ businessDayStep fuel (naive_date d) cal forward false = Some (Ok (naive_date (d + s * k))) /\
    business_date (d + s * k) = true /\ forall j, 1 <= j < k -> business_date (d + s * j) = false.
Proof.
  intros s Hr Hn Hb. unfold searchable, in_range in Hr. assert (Hs : s = 1 \/ s = -1) by (destruct forward; tauto).
  assert (Hin : forall k, 1 <= k <= Z.of_nat fuel -> in_range UTC (d + s * k)) by (intros k Hk; unfold in_range; destruct Hs; subst s; lia).
  assert (Hbm : forall k, 1 <= k <= Z.of_nat fuel -> business cal true false (shift (mid UTC d) (s * k)) = business_date (d + s * k)).
  { intros k Hk. rewrite mid_shift by exact fixed_UTC. by apply business_mid, Hin. }
  destruct (business_step_nearest UTC fixed_UTC cal true false fuel (mid UTC d) forward n) as (k & Hk & E & Hok & Hmin).
  - by apply mid_at_loc.
  - fold s. intros k Hk. unfold mid. cbn [t_unix]. destruct Hs; nia.
  - done.
  - fold s. by rewrite Hbm.
  - fold s in E, Hok, Hmin. rewrite Hbm in Hok by lia. exists k. split; [lia|]. split_and!; [|done|].
    + unfold temporal, naive_date in *. rewrite E. unfold rebuildTemporal. rewrite mid_shift, midnight_mid by (exact fixed_UTC || apply Hin; lia). done.
    + intros j Hj. rewrite <- Hbm by lia. by apply Hmin.
Qed.

Lemma business_steps_snoc n v u forward strict :
  business_steps n fuel v cal forward strict = Some (Ok u) -> IsNull u = false ->
  business_steps (S n) fuel v cal forward strict = business_steps 1 fuel u cal forward strict.
Proof.
  revert v. induction n as [|n IH]; intros v H Hu; [by injection H as ->|].
  cbn [business_steps] in H. change (business_steps (S (S n)) fuel v cal forward strict) with
    (match businessDayStep fuel v cal forward strict with
     | None => None | Some (Err e) => Some (Err e)
     | Some (Ok next) => if IsNull next then Some (Ok BlNull) else business_steps (S n) fuel next cal forward strict end).
  destruct (businessDayStep fuel v cal forward strict) as [[w|e]|]; [|done|done].
  destruct (IsNull w); [by injection H as <-|]. by apply IH.
Qed.

(** The days of a nearest step hold one business day. *)
Lemma one_business_day d k :
  1 <= k -> business_date (d + k) = true -> (forall j, 1 <= j < k -> business_date (d + j) = false) ->
  length (filter (fun n => business_date n = true) (seqZ (d + 1) k)) = 1%nat.
Proof.
  intros Hk Hb Hmin. replace k with (k - 1 + 1) at 1 by lia. rewrite seqZ_app, filter_app, length_app by lia.
  replace (d + 1 + (k - 1)) with (d + k) by lia. rewrite (seqZ_cons (d + k) 1) by lia. rewrite filter_cons, decide_True by done.
  change (seqZ (Z.succ (d + k)) (Z.pred 1)) with (@nil Z). cbn [length].
  enough (filter (fun n => business_date n = true) (seqZ (d + 1) (k - 1)) = []) as -> by done.
  apply filter_none. intros x Hx. apply elem_of_seqZ in Hx. replace x with (d + (x - d)) by lia. rewrite Hmin by lia. done.
Qed.

(** The days of a nearest step, taken back. *)
Lemma step_back d k :
  searchable d -> 1 <= k <= Z.of_nat fuel -> business_date d = true -> (forall j, 1 <= j < k -> business_date (d + j) = false) ->
  businessDayStep fuel (naive_date (d + k)) cal false false = Some (Ok (naive_date d)).
Proof.
  intros Hr Hk Hb Hmin. destruct (date_step (d + k) false k) as (i & Hi & E & Hbi & _);
    [unfold searchable, in_range in *; lia|done|by replace (d + k + -1 * k) with d by lia|].
  cbv beta iota in *. destruct (Z.eq_dec i k) as [->|Hne]; [by replace (d + k + -1 * k) with d in E by lia|].
  replace (d + k + -1 * i) with (d + (k - i)) in Hbi by lia. rewrite Hmin in Hbi by lia. done.
Qed.

(** Every day of a span has a business day within the fuel after it. *)
Definition dense (d len : Z) : Prop :=
  forall k, d <= k < d + len -> exists j, 1 <= j <= Z.of_nat fuel /\ business_date (k + j) = true.

(** Steps forward land on the business day they count, and steps back return. *)
Lemma steps_there_and_back n d :
  (0 < fuel)%nat -> searchable d -> dense d (Z.of_nat fuel * Z.of_nat n) ->
  exists e, d <= e /\ business_steps n fuel (naive_date d) cal true false = Some (Ok (naive_date e)) /\
    length (filter (fun n => business_date n = true) (seqZ (d + 1) (e - d))) = n /\
    (business_date d = true -> business_date e = true /\ business_steps n fuel (naive_date e) cal false false = Some (Ok (naive_date d))).
Proof.
  intros Hf. revert d. induction n as [|n IH]; intros d Hr Hd.
  { exists d. rewrite Z.sub_diag. split_and!; [lia|done|done|done]. }
  destruct (Hd d ltac:(nia)) as (j & Hj & Hbj).
  destruct (date_step d true j) as (k & Hk & E & Hbk & Hmin); [done|done|by rewrite Z.mul_1_l|]. cbv beta iota zeta in E, Hbk, Hmin.
  rewrite Z.mul_1_l in E, Hbk. assert (Hmin' : forall j, 1 <= j < k -> business_date (d + j) = false).
  { intros i Hi. specialize (Hmin i Hi). by rewrite Z.mul_1_l in Hmin. }
  destruct (IH (d + k)) as (e & He & Es & Hc & Hback); [unfold searchable, in_range in *; lia| |].
  { intros i Hi. apply Hd. nia. }
  exists e. split_and!; [lia| | |].
  - cbn [business_steps]. rewrite E. exact Es.
  - replace (e - d) with (k + (e - (d + k))) by lia. rewrite seqZ_app, filter_app, length_app, one_business_day by (done || lia).
    replace (d + 1 + k) with (d + k + 1) by lia. by rewrite Hc.
  - intros Hb. destruct (Hback Hbk) as [Hbe Hs]. split; [done|]. rewrite (business_steps_snoc n _ _ _ _ Hs) by done.
    cbn [business_steps]. rewrite step_back; [done|done|lia|done|done].
Qed.

(** The arguments of a call: a date, a whole number, and a calendar if one is given. *)
Definition with_calendar (args : list BlValue) : list BlValue := args ++ match cal with Some c => [of_calendar c] | None => [] end.

Lemma arg_with_calendar a b : arg (with_calendar [a; b]) 0 = a /\ arg (with_calendar [a; b]) 1 = b.
Proof. done. Qed.
Lemma parse_with_calendar a b : parseCalStrict (with_calendar [a; b]) 2 = (cal, false).
Proof. unfold parseCalStrict, with_calendar. by destruct cal as [[]|]. Qed.

(** C26. For a naive date that is a business day and a whole number [n], without the
    strict flag: adding [n] business days and subtracting them returns to the date,
    and the span between holds [n] business days and the day itself, given that
    every day of the span has a business day within the fuel after it and that the
    span stays in the range of instants.  For dates with a zone the count can
    differ (zoned_holiday_counted). *)
Theorem business_days_add_between (n : nat) (d : Z) (x : Decimal) :
  (0 < fuel)%nat -> searchable d -> dense d (Z.of_nat fuel * Z.of_nat n) -> business_date d = true -> dIntPart x = Z.of_nat n ->
  (d + Z.of_nat fuel * Z.of_nat n + 1) * 86400 <= max_unix ->
  exists e, d <= e /\ business_date e = true /\
    addBusinessDaysFn fuel (with_calendar [naive_date d; BlNumber x]) = Some (Ok (naive_date e)) /\
    subtractBusinessDaysFn fuel (with_calendar [naive_date e; BlNumber x]) = Some (Ok (naive_date d)) /\
    businessDaysBetweenFn (with_calendar [naive_date d; naive_date e]) = Ok (numFromInt (Z.of_nat n + 1)).
Proof.
  intros Hf Hr Hd Hb Hx _. destruct (steps_there_and_back n d Hf Hr Hd) as (e & He & Es & Hc & Hback).
  destruct (Hback Hb) as [Hbe Hs]. exists e. split_and!; [done|done| | |].
  - unfold addBusinessDaysFn, businessDayAdd. destruct (arg_with_calendar (naive_date d) (BlNumber x)) as [-> ->].
    rewrite parse_with_calendar, Hx. cbv zeta. rewrite (proj2 (Z.ltb_ge _ _)) by lia. cbn [negb]. by rewrite Nat2Z.id.
  - unfold subtractBusinessDaysFn, businessDayAdd. destruct (arg_with_calendar (naive_date e) (BlNumber x)) as [-> ->].
    rewrite parse_with_calendar, Hx. cbv zeta. rewrite (proj2 (Z.ltb_ge _ _)) by lia. cbn [negb]. by rewrite Nat2Z.id.
  - unfold businessDaysBetweenFn. destruct (arg_with_calendar (naive_date d) (naive_date e)) as [-> ->].
    rewrite parse_with_calendar. unfold naive_date at 1 2. cbn [temporalParts andb]. cbv iota zeta.
    assert (Ir : in_range UTC d /\ in_range UTC e) by (unfold searchable, in_range in *; lia). destruct Ir as [Id Ie].
    rewrite !midnight_mid by (exact fixed_UTC || done).
    pose proof (count_span UTC fixed_UTC (fun a => negb (isWeekendDay a) && negb (holiday_on cal (BlDate a true))) business_date d e Id Ie) as Hcs.
    cbv zeta in Hcs. destruct (if TimeAfter _ _ then _ else _) as [u v]. unfold count_business. rewrite Hcs.
    + rewrite Z.min_l, Z.max_r by lia. rewrite (seqZ_cons d) by lia. rewrite filter_cons, decide_True by done. cbn [length].
      replace (Z.pred (e - d + 1)) with (e - d) by lia. unfold Z.succ. rewrite Hc. cbn [option_map looping]. do 2 f_equal. lia.
    + intros m _. unfold business_date, weekday_day, isWeekendDay, Weekday, naive_date. by rewrite mid_days by exact fixed_UTC.
Qed.

End Dates.

(** ** The order of entries *)

Section Order.
Context {DO : DecimalOps} {DL : DecimalLaws DO}.
Abbreviation entry := (option string * BlValue)%type.

#[export] Instance string_cmp_total : TotalCmp string_cmp.
Proof. split; [intros a b; apply string_cmp_antisym|exact string_cmp_trans]. Qed.

(** Entries in the order of their starts, then of their names. *)
Definition entry_cmp : entry -> entry -> Z :=
  lex (fun a b => asc_cmp (entryStart a) (entryStart b)) (fun a b => string_cmp (entryName a) (entryName b)).

#[export] Instance entry_cmp_total : TotalCmp entry_cmp.
Proof. apply lex_total; [apply (pull_total entryStart asc_cmp)|apply (pull_total entryName string_cmp)]. Qed.

(** The starts of the entries are points of one time line. *)
Definition one_line (es : list entry) : Prop :=
  forall a b, a ∈ es -> b ∈ es -> is_Some (compareValues (entryStart a) (entryStart b)).
(** [a] starts no later than [b]. *)
Definition starts_by (a b : entry) : Prop := exists x, compareValues (entryStart a) (entryStart b) = Some x /\ x <= 0.

Lemma sortEntries_cmp es : one_line es -> sortEntries es = slice_stable (fun a b => entry_cmp a b <? 0) es.
Proof.
  intros H. apply slice_stable_ext. induction es as [|e es IH]; [constructor|]. constructor.
  - apply IH. intros a b Ha Hb. apply H; by right.
  - apply Forall_forall. intros x Hx. destruct (H x e) as [c Hc]; [by right|left|].
    unfold entry_less, entry_cmp, lex, asc_cmp. rewrite Hc. by destruct (Z.eqb_spec c 0) as [->|].
Qed.

Lemma sortEntries_sorted es : one_line es -> sortEntries es ≡ₚ es /\ StronglySorted starts_by (sortEntries es).
Proof.
  intros H. rewrite sortEntries_cmp by done. pose proof (slice_stable_perm (fun a b => entry_cmp a b <? 0) es) as Hp. split; [done|].
  pose proof (slice_stable_sorted (fun a b => entry_cmp a b <? 0) es) as Hs. revert Hs Hp.
  generalize (slice_stable (fun a b => entry_cmp a b <? 0) es) as rs. intros rs Hs Hp.
  assert (Hrs : one_line rs) by (intros a b Ha Hb; apply H; by rewrite <- Hp). clear Hp H.
  induction Hs as [|e rs Hs IH Hall]; constructor.
  - apply IH. intros a b Ha Hb. apply Hrs; by right.
  - rewrite Forall_forall in *. intros x Hx. specialize (Hall x Hx). cbv beta in Hall. destruct (Hrs e x) as [c Hc]; [left|by right|].
    exists c. split; [done|]. unfold entry_cmp, lex, asc_cmp in Hall. rewrite (compareValues_swap (entryStart e)), Hc in Hall. cbn in Hall.
    destruct (Z.eqb_spec (- c) 0); lia.
Qed.

Lemma sorted_filter {A} (R : A -> A -> Prop) (f : A -> bool) l : StronglySorted R l -> StronglySorted R (List.filter f l).
Proof.
  induction 1 as [|x l Hs IH Hall]; cbn; [constructor|]. destruct (f x); [|done]. constructor; [done|].
  rewrite Forall_forall in *. intros y Hy. apply Hall. rewrite list_elem_of_In in *. by apply filter_In in Hy as [? _].
Qed.

(** The entry starts after the point, or before it. *)
Definition beyond (forward : bool) (point : BlValue) (e : entry) : Prop :=
  exists x, compareValues (entryStart e) point = Some x /\ if forward then 0 < x else x < 0.

Lemma step_matches_beyond c point forward e : e ∈ step_matches c point forward <-> e ∈ c_entries c /\ beyond forward point e.
Proof.
  assert (Hf : e ∈ List.filter (fun e => match compareValues (entryStart e) point with
                                  | Some cmp => if forward then 0 <? cmp else cmp <? 0
                                  | None => false
                                  end) (c_entries c) <-> e ∈ c_entries c /\ beyond forward point e).
  { rewrite !list_elem_of_In, filter_In. unfold beyond. destruct (compareValues _ _) as [x|]; [|naive_solver].
    destruct forward; split; intros [? Hx]; (split; [done|]).
    - exists x. split; [done|lia].
    - destruct Hx as (y & [= <-] & ?). lia.
    - exists x. split; [done|lia].
    - destruct Hx as (y & [= <-] & ?). lia. }
  unfold step_matches. cbv zeta. destruct forward; [exact Hf|]. rewrite <- Hf, !list_elem_of_In. symmetry. apply in_rev.
Qed.

(** A calendar holds its entries in the order of their starts, and [next] and
    [prev] are the nearest entries that start after and before a point. *)
Theorem calendar_next_prev (es : list entry) (opts : list RangeV) :
  one_line es -> Forall (fun e => isTemporalEntryValue (snd e) = true) es ->
  exists c, Calendar es opts = Ok c /\ c_entries c ≡ₚ es /\ StronglySorted starts_by (c_entries c) /\
    forall point forward,
      (calStep (of_calendar c) point None forward = Ok BlNull /\ (forall e, e ∈ es -> ~ beyond forward point e)) \/
      (exists e, calStep (of_calendar c) point None forward = Ok (entry_value e) /\ e ∈ es /\ beyond forward point e /\
         forall e', e' ∈ es -> beyond forward point e' -> if forward then starts_by e e' else starts_by e' e).
Proof.
  intros H Ht. unfold Calendar. replace (forallb _ es) with true by (symmetry; apply forallb_forall; rewrite Forall_forall in Ht; intros e He; apply Ht; by apply list_elem_of_In).
  cbn [negb]. set (c0 := fold_left _ _ _).
  assert (Ec : c_entries c0 = es).
  { unfold c0. clear. generalize (mkCalendar es BlNull BlNull) as c, (eq_refl : c_entries (mkCalendar es BlNull BlNull) = es).
    induction opts as [|r opts IH]; intros c Hc; cbn [fold_left]; [done|]. by apply IH. }
  rewrite Ec. destruct (sortEntries_sorted es H) as [Hp Hs]. eexists. split; [done|]. set (c := mkCalendar _ _ _).
  split_and!; [exact Hp|exact Hs|]. intros point forward.
  assert (Hm : forall e, e ∈ step_matches c point forward <-> e ∈ es /\ beyond forward point e).
  { intros e. rewrite step_matches_beyond. unfold c. cbn [c_entries]. by rewrite Hp. }
  assert (Hn : StronglySorted (fun a b => if forward then starts_by a b else starts_by b a) (step_matches c point forward)).
  { unfold step_matches. cbv zeta. destruct forward; [by apply sorted_filter|].
    rewrite <- reverse_rev || rewrite rev_alt. apply (StronglySorted_reverse starts_by). by apply sorted_filter. }
  unfold calStep. change (get_calendar (of_calendar c)) with (Some c). cbv beta iota zeta.
  destruct (step_matches c point forward) as [|e ms] eqn:E.
  - left. split; [done|]. intros e He Hb. by apply (elem_of_nil e), Hm.
  - right. exists e. destruct (proj1 (Hm e) ltac:(left)) as [He Hb]. split_and!; [|done|done|].
    + cbn [length]. by rewrite (proj2 (Z.ltb_ge (Z.of_nat (S (length ms))) 1)) by lia.
    + intros e' He' Hb'. assert (Hin : e' ∈ e :: ms) by by apply Hm.
      apply elem_of_cons in Hin as [->|Hin].
      * destruct (H e e He He) as [x Hx]. assert (starts_by e e); [|by destruct forward].
        exists 0. split; [by eapply compareValues_refl|lia].
      * inv Hn. match goal with HF : Forall _ ms |- _ => rewrite Forall_forall in HF; exact (HF e' Hin) end.
Qed.

End Order.

(** * Calendars: concrete calls

    The theorems of [CalendarLaws] on a calendar with one holiday, and two calls
    whose results the documentation does not promise: a search that never ends
    and a count that misses a holiday. *)

From S2P Require Import TenDecimal.
#[local] Existing Instance tenDecimal.
#[local] Existing Instance tenDecimal_laws.

(** Friday 1 March 2024; the Monday after it is a holiday. *)
Definition friday : Z := 19783.
Definition holidays : CalendarV := mkCalendar [(Some "founders", naive_date (friday + 3))] BlNull BlNull.

Lemma next_business_day_nearest_witness :
  exists k, 1 <= k <= 4 /\
    businessDayStep 4 (temporal true false (mid UTC friday)) (Some holidays) true false =
      Some (Ok (rebuildTemporal (shift (mid UTC friday) (1 * k)) true false)).
Proof.
  destruct (next_business_day_nearest UTC fixed_UTC (Some holidays) true false 4 (mid UTC friday) true 4) as (k & Hk & E & _).
  - exact (mid_at_loc UTC friday).
  - intros k Hk. change (t_unix (mid UTC friday)) with 1709251200. unfold min_unix, max_unix. lia.
  - lia.
  - vm_compute. reflexivity.
  - exists k. split; [exact Hk|exact E].
Defined.

(** A check of every day of a span. *)
Lemma dense_check cal fuel d len :
  forallb (fun k => existsb (fun j => business_date cal (k + j)) (seqZ 1 (Z.of_nat fuel))) (seqZ d len) = true -> dense cal fuel d len.
Proof.
  rewrite forallb_forall. intros H k Hk. specialize (H k). rewrite <- list_elem_of_In, elem_of_seqZ in H.
  apply existsb_exists in H as (j & Hj & Hb); [|lia]. apply list_elem_of_In, elem_of_seqZ in Hj. exists j. split; [lia|done].
Qed.

Lemma business_days_add_between_witness :
  exists e, friday <= e /\
    businessDaysBetweenFn (with_calendar (Some holidays) [naive_date friday; naive_date e]) = Ok (numFromInt (Z.of_nat 5 + 1)).
Proof.
  destruct (business_days_add_between (Some holidays) 4 5 friday (dNewFromInt 5)) as (e & He & _ & _ & _ & E).
  - lia.
  - vm_compute. discriminate.
  - apply dense_check. vm_compute. reflexivity.
  - vm_compute. reflexivity.
  - vm_compute. reflexivity.
  - vm_compute. discriminate.
  - exists e. split; [exact He|exact E].
Defined.

Lemma calendar_next_prev_witness :
  exists c, Calendar [(None, naive_date 30); (Some "a", naive_date 10)] [] = Ok c /\ c_entries c ≡ₚ [(None, naive_date 30); (Some "a", naive_date 10)].
Proof.
  destruct (calendar_next_prev (DO := tenDecimal) [(None, naive_date 30); (Some "a", naive_date 10)] []) as (c & E & Hp & _).
  - intros a b Ha Hb. apply elem_of_cons in Ha as [->|Ha]; [|apply list_elem_of_singleton in Ha as ->];
      (apply elem_of_cons in Hb as [->|Hb]; [|apply list_elem_of_singleton in Hb as ->]); eexists; exact eq_refl.
  - repeat constructor.
  - exists c. split; [exact E|exact Hp].
Defined.

(** The next entry after the 20th day is the one of the 30th. *)
Example next_entry :
  (let! c := Calendar [(None, naive_date 30); (Some "a", naive_date 10)] [] in calNextFn (of_calendar c) (naive_date 20) None)
  = Ok (BlCalendarEntry None (naive_date 30)).
Proof. vm_eq. Qed.

(** ** A search that never ends *)

(** Every day from [d] on is a holiday. *)
Definition shutdown (d : Z) : CalendarV := mkCalendar [(None, BlRange (naive_date d) BlNull true false)] BlNull BlNull.

Lemma shutdown_holiday d n : d <= n -> holiday_on (Some (shutdown d)) (naive_date n) = true.
Proof.
  intros H. unfold holiday_on, isHoliday, calContains, shutdown. cbn [c_entries existsb]. rewrite orb_false_r.
  unfold calendarCovers. cbn [snd as_range]. unfold contains, isEmptyRange, start_check, end_check, naive_date.
  cbn. unfold TimeCompare, mid. cbn [t_unix t_nsec]. repeat dmatch; try done; lia.
Qed.

Lemma shutdown_search fuel d n :
  0 <= d <= n -> business_search fuel (mid UTC n) true false (Some (shutdown d)) 1 false = None.
Proof.
  revert n. induction fuel as [|fuel IH]; intros n H; [done|]. cbn [business_search andb]. cbv zeta.
  assert (Hr : in_range UTC (n + 1)) by (unfold in_range, min_unix; change (loc_base UTC) with 0; lia).
  rewrite (AddDate_shift UTC fixed_UTC) by (apply mid_at_loc || (unfold mid, min_unix; change (loc_base UTC) with 0; cbn [t_unix]; lia)).
  rewrite mid_shift by exact fixed_UTC. unfold rebuildTemporal. rewrite midnight_mid by (exact fixed_UTC || done).
  fold (naive_date (n + 1)). rewrite shutdown_holiday by lia. destruct (isWeekendDay _); apply IH; lia.
Qed.

(** [nextBusinessDay] does not end on a calendar with a holiday that has no end:
    no fuel is enough, although its result is documented to be a later date. *)
Theorem next_business_day_endless (fuel : nat) :
  nextBusinessDayFn fuel [naive_date friday; of_calendar (shutdown friday)] = None.
Proof. apply (shutdown_search fuel friday friday). unfold friday. lia. Qed.

(** ** A holiday that is not counted *)

(** Monday 4 March 2024 in UTC, as a date with a zone. *)
Definition zoned_monday : BlValue := BlDate (mid UTC (friday + 3)) false.
Definition zoned_holidays : BlValue := of_calendar (mkCalendar [(Some "founders", zoned_monday)] BlNull BlNull).

(** [businessDaysBetween] looks the days up as naive dates: a holiday with a zone
    is no business day for [isBusinessDay], and is counted as one. *)
Theorem zoned_holiday_counted :
  isBusinessDayFn zoned_monday (Some zoned_holidays) = Ok (BlBoolean false) /\
  businessDaysBetweenFn [zoned_monday; zoned_monday; zoned_holidays] = Ok (numFromInt 1).
Proof. split; vm_eq. Qed.

(** ** A day that the zone skips *)

(** Samoa went from UTC-10 to UTC+14 at the end of 29 December 2011: there was no
    30 December. *)
Definition Apia : Location := mkLocation "Pacific/Apia" (-36000) [(1325239200, 50400)].
Definition apia_29 : BlValue := BlDate (goDate 2011 12 29 0 0 0 0 Apia) false.

(** Midnight of the missing day is the midnight before it, so [AddDate] does not
    move: [nextBusinessDay] of the 29th is the 29th, not the day after. *)
Theorem skipped_day_not_passed :
  AddDate (goDate 2011 12 29 0 0 0 0 Apia) 0 0 1 = goDate 2011 12 29 0 0 0 0 Apia /\
  nextBusinessDayFn 10 [apia_29] = Some (Ok apia_29).
Proof. split; vm_eq. Qed.
