(* ===== verification/Operators.v ===== *)
(** * The operators and the functions of several types

    Models the arithmetic of [core/operators.go], the dispatchers of
    [core/overloads.go] and the component access of [core/components.go].  An
    expression is compiled to calls of these functions: each picks, by the types
    of its operands, the function of the type's own library. *)

From Stdlib Require Import SpecFloat.
From S2P Require Import Prelude Decimal GoText GoTime Values ValueLaws Lists Ranges Numbers NumberLaws GoTimeText Durations Temporal Dictionaries Strings Tables Calendars.
#[global] Open Scope Z_scope.

Section Operators.
Context {DO : DecimalOps} {DT : DecimalText DO} {TZ : TimeZones} {GU : GoUnicode} {GM : GoMath}.

(** The error of operands no case of the operator takes. *)
Definition operand_error (op : string) (a b : BlValue) : result BlValue :=
  Err (TypeError op (typeName (type_of a) +:+ " " +:+ op +:+ " " +:+ typeName (type_of b))).

(** ** Arithmetic *)

Definition opAdd (a b : BlValue) : result BlValue :=
  if propagatesNull [a; b] then Ok BlNull
  else match a, b with
       | BlNumber x, BlNumber y => Ok (addNumbers x y)
       | BlString x, BlString y => Ok (concatStrings x y)
       | BlDate t n, BlYearsMonthsDuration y => Ok (addDateYM t n y)
       | BlDate t n, BlDaysTimeDuration y => Ok (addDateDT t n y)
       | BlDateTime t n, BlYearsMonthsDuration y => Ok (addDateTimeYM t n y)
       | BlDateTime t n, BlDaysTimeDuration y => Ok (addDateTimeDT t n y)
       | BlTime t n, BlDaysTimeDuration y => Ok (addTimeDur t n y)
       | BlYearsMonthsDuration x, BlYearsMonthsDuration y => Ok (addYMDuration x y)
       | BlYearsMonthsDuration x, BlDate t n => Ok (addDateYM t n x)
       | BlYearsMonthsDuration x, BlDateTime t n => Ok (addDateTimeYM t n x)
       | BlDaysTimeDuration x, BlDaysTimeDuration y => Ok (addDTDuration x y)
       | BlDaysTimeDuration x, BlDate t n => Ok (addDateDT t n x)
       | BlDaysTimeDuration x, BlDateTime t n => Ok (addDateTimeDT t n x)
       | BlDaysTimeDuration x, BlTime t n => Ok (addTimeDur t n x)
       | _, _ => operand_error "+" a b
       end.

Definition opSub (a b : BlValue) : result BlValue :=
  if propagatesNull [a; b] then Ok BlNull
  else match a, b with
       | BlNumber x, BlNumber y => Ok (subNumbers x y)
       | BlDate t n, BlDate u m => Ok (subDates t n u m)
       | BlDate t n, BlYearsMonthsDuration y => Ok (subDateYM t n y)
       | BlDate t n, BlDaysTimeDuration y => Ok (subDateDT t n y)
       | BlDateTime t n, BlDateTime u m => Ok (subDateTimes t n u m)
       | BlDateTime t n, BlYearsMonthsDuration y => Ok (subDateTimeYM t n y)
       | BlDateTime t n, BlDaysTimeDuration y => Ok (subDateTimeDT t n y)
       | BlTime t n, BlDaysTimeDuration y => Ok (subTimeDur t n y)
       | BlYearsMonthsDuration x, BlYearsMonthsDuration y => Ok (subYMDuration x y)
       | BlDaysTimeDuration x, BlDaysTimeDuration y => Ok (subDTDuration x y)
       | _, _ => operand_error "-" a b
       end.

Definition opMul (a b : BlValue) : result BlValue :=
  if propagatesNull [a; b] then Ok BlNull
  else match a, b with
       | BlNumber x, BlNumber y => Ok (mulNumbers x y)
       | BlNumber x, BlDaysTimeDuration y => Ok (scaleDTDuration y x)
       | BlNumber x, BlYearsMonthsDuration y => Ok (scaleYMDuration y x)
       | BlDaysTimeDuration x, BlNumber y => Ok (scaleDTDuration x y)
       | BlYearsMonthsDuration x, BlNumber y => Ok (scaleYMDuration x y)
       | _, _ => operand_error "*" a b
       end.

Definition opDiv (a b : BlValue) : result BlValue :=
  if propagatesNull [a; b] then Ok BlNull
  else match a, b with
       | BlNumber x, BlNumber y => Ok (divNumbers x y)
       | BlDaysTimeDuration x, BlNumber y => Ok (divDTDuration x y)
       | BlYearsMonthsDuration x, BlNumber y => Ok (divYMDuration x y)
       | _, _ => operand_error "/" a b
       end.

Definition opPow (a b : BlValue) : result BlValue :=
  if propagatesNull [a; b] then Ok BlNull
  else match a, b with
       | BlNumber x, BlNumber y => Ok (powNumber x y)
       | _, _ => operand_error "**" a b
       end.

Definition opNeg (a : BlValue) : result BlValue :=
  if IsNull a then Ok BlNull
  else match a with
       | BlNumber x => Ok (negNumber x)
       | BlDaysTimeDuration x => Ok (negDTDuration x)
       | BlYearsMonthsDuration x => Ok (negYMDuration x)
       | _ => Err (TypeError "unary -" (typeName (type_of a)))
       end.

(** ** Functions of several types ([overloads.go]) *)

Definition isEmptyAny (v : BlValue) : result BlValue :=
  match v with
  | BlString s => Ok (strIsEmptyFn s)
  | BlList items => Ok (listIsEmptyFn items)
  | BlDictionary d => Ok (dictIsEmptyFn d)
  | BlRange s e si ei => Ok (rangeIsEmptyFn (mkRangeV s e si ei))
  | BlTable _ rows => Ok (BlBoolean (length rows =? 0)%nat)
  | BlCalendar es _ _ => Ok (BlBoolean (length es =? 0)%nat)
  | _ => Err (TypeError "isEmpty" "unsupported type")
  end.

Definition reverseAny (v : BlValue) : result BlValue :=
  match v with
  | BlString s => Ok (strReverseFn s)
  | BlList items => Ok (listReverseFn items)
  | _ => Err (TypeError "reverse" "unsupported type")
  end.

Definition indexOfAny (v m : BlValue) : result BlValue :=
  match v with
  | BlString s => match m with BlString m => Ok (strIndexOfFn s m) | _ => Err (argTypeError m) end
  | BlList items => Ok (listIndexOfFn items m)
  | _ => Err (TypeError "indexOf" "unsupported type")
  end.

Definition absAny (v : BlValue) : result BlValue :=
  match v with
  | BlNumber n => Ok (absFn n)
  | BlDaysTimeDuration d => Ok (absDTFn d)
  | BlYearsMonthsDuration d => Ok (absYMFn d)
  | _ => Err (TypeError "abs" "unsupported type")
  end.

Definition isNegativeAny (v : BlValue) : result BlValue :=
  match v with
  | BlNumber n => Ok (isNegativeFn n)
  | BlDaysTimeDuration d => Ok (isNegativeDTFn d)
  | BlYearsMonthsDuration d => Ok (isNegativeYMFn d)
  | _ => Err (TypeError "isNegative" "unsupported type")
  end.

(** A rounding of the three types, by the type of the first operand. *)
Definition roundDispatch (numeric : Decimal -> Decimal -> BlValue) (dt ym : Decimal -> Decimal -> result BlValue)
  (a s : BlValue) : result BlValue :=
  match a with
  | BlNumber x => match s with BlNumber s => Ok (numeric x s) | _ => Err (argTypeError s) end
  | BlDaysTimeDuration x => match s with BlDaysTimeDuration s => dt x s | _ => Err (argTypeError s) end
  | BlYearsMonthsDuration x => match s with BlYearsMonthsDuration s => ym x s | _ => Err (argTypeError s) end
  | _ => Err (TypeError "round" "unsupported type")
  end.
Definition roundAny : BlValue -> BlValue -> result BlValue := roundDispatch roundFn roundDTFn roundYMFn.
Definition roundUpAny : BlValue -> BlValue -> result BlValue := roundDispatch roundUpFn roundUpDTFn roundUpYMFn.
Definition roundDownAny : BlValue -> BlValue -> result BlValue := roundDispatch roundDownFn roundDownDTFn roundDownYMFn.
Definition roundHalfUpAny : BlValue -> BlValue -> result BlValue := roundDispatch roundHalfUpFn roundHalfUpDTFn roundHalfUpYMFn.
Definition roundHalfDownAny : BlValue -> BlValue -> result BlValue := roundDispatch roundHalfDownFn roundHalfDownDTFn roundHalfDownYMFn.
Definition roundHalfEvenAny : BlValue -> BlValue -> result BlValue := roundDispatch roundHalfEvenFn roundHalfEvenDTFn roundHalfEvenYMFn.

(** ** Components ([components.go]) *)

Definition dtDurationComponent (d : Decimal) (name : string) : option BlValue :=
  assoc name
    [("days", numFromInt (dt_Days d)); ("hours", numFromInt (dt_Hours d)); ("minutes", numFromInt (dt_Minutes d));
     ("seconds", num (dt_Seconds d)); ("totalSeconds", num d); ("totalMinutes", durationTotalMinutesFn d);
     ("totalHours", durationTotalHoursFn d); ("totalDays", durationTotalDaysFn d)].

Definition ymDurationComponent (d : Decimal) (name : string) : option BlValue :=
  assoc name
    [("years", numFromInt (ym_Years d)); ("months", num (ym_Months d)); ("totalMonths", num d);
     ("totalYears", durationTotalYearsFn d)].

(** [componentAccessFn] with a string for its second argument: a field of a list
    is the list of the fields of its elements. *)
Fixpoint componentAccess (recv : BlValue) (name : string) : BlValue :=
  match recv with
  | BlDictionary d => default BlNull (get d name)
  | BlDate t n => default BlNull (dateComponent t n name)
  | BlTime t n => default BlNull (timeComponent t n name)
  | BlDateTime t n => default BlNull (datetimeComponent t n name)
  | BlDaysTimeDuration d => default BlNull (dtDurationComponent d name)
  | BlYearsMonthsDuration d => default BlNull (ymDurationComponent d name)
  | BlRange s e si ei => default BlNull (rangeComponent (mkRangeV s e si ei) name)
  | BlTable cols rows => tableComponent (mkTable cols rows) name
  | BlList items =>
      BlList ((fix project (items : list BlValue) : list BlValue :=
                 match items with
                 | [] => []
                 | e :: items' => (if IsNull e then BlNull else componentAccess e name) :: project items'
                 end) items)
  | _ => BlNull
  end.

Definition componentAccessFn (recv name : BlValue) : result BlValue :=
  match name with
  | BlString name => Ok (if IsNull recv then BlNull else componentAccess recv name)
  | _ => Err (argTypeError name)
  end.

(** ** Registration *)

(** The functions that return a value; [__isFalse], [__isTrue] and [__truthy]
    return a Go [bool]. *)
Definition operatorRegistrations : list Builtin :=
  let ok2 f := fn2 (fun a b => Ok (f a b)) in
  [mkBuiltin "__add" [2] (fn2 opAdd);
   mkBuiltin "__sub" [2] (fn2 opSub);
   mkBuiltin "__mul" [2] (fn2 opMul);
   mkBuiltin "__div" [2] (fn2 opDiv);
   mkBuiltin "__pow" [2] (fn2 opPow);
   mkBuiltin "__neg" [1] (fn1 opNeg);
   mkBuiltin "__lt" [2] (ok2 opLt);
   mkBuiltin "__le" [2] (ok2 opLe);
   mkBuiltin "__gt" [2] (ok2 opGt);
   mkBuiltin "__ge" [2] (ok2 opGe);
   mkBuiltin "__eq" [2] (ok2 opEq);
   mkBuiltin "__ne" [2] (ok2 opNe);
   mkBuiltin "__in" [2] (fn2 opIn);
   mkBuiltin "__blAnd" [2] (ok2 blAndFn);
   mkBuiltin "__blOr" [2] (ok2 blOrFn);
   mkBuiltin "__val" [1] (fn1 Ok)]%nat.

Definition overloadOptions : list Builtin :=
  [mkBuiltin "abs" [1] (fn1 absAny);
   mkBuiltin "isNegative" [1] (fn1 isNegativeAny);
   mkBuiltin "round" [2] (fn2 roundAny);
   mkBuiltin "roundUp" [2] (fn2 roundUpAny);
   mkBuiltin "roundDown" [2] (fn2 roundDownAny);
   mkBuiltin "roundHalfUp" [2] (fn2 roundHalfUpAny);
   mkBuiltin "roundHalfDown" [2] (fn2 roundHalfDownAny);
   mkBuiltin "roundHalfEven" [2] (fn2 roundHalfEvenAny);
   mkBuiltin "componentAccess" [2] (fn2 componentAccessFn);
   mkBuiltin "isEmpty" [1] (fn1 isEmptyAny);
   mkBuiltin "reverse" [1] (fn1 reverseAny);
   mkBuiltin "indexOf" [2] (fn2 indexOfAny)]%nat.

End Operators.

(** * What the operators compute

    The arithmetic operators have a signature: it decides, from the types of the
    operands, whether they fail and the type of the result.  Null operands give
    null, and so do the operands for which an operation has no result.  Addition
    and multiplication commute, and subtraction undoes addition. *)

From Stdlib Require Import SpecFloat Lqa.
From S2P Require Import TenDecimal.

Section OperatorLaws.
Context {DO : DecimalOps} {DT : DecimalText DO} {TZ : TimeZones} {GU : GoUnicode} {GM : GoMath}.

(** ** Signatures *)

Inductive BinOp : Type := Add | Sub | Mul | Div | Pow.

Definition run (op : BinOp) : BlValue -> BlValue -> result BlValue :=
  match op with Add => opAdd | Sub => opSub | Mul => opMul | Div => opDiv | Pow => opPow end.

(** The type of the result, for the types of operands an operator takes. *)
Definition signature (op : BinOp) (a b : Ty) : option Ty :=
  match op, a, b with
  | _, TypeNumber, TypeNumber => Some TypeNumber
  | Add, TypeString, TypeString => Some TypeString
  | (Add | Sub), TypeDaysTimeDuration, TypeDaysTimeDuration => Some TypeDaysTimeDuration
  | (Add | Sub), TypeYearsMonthsDuration, TypeYearsMonthsDuration => Some TypeYearsMonthsDuration
  | (Add | Sub), (TypeDate | TypeDateTime), (TypeDaysTimeDuration | TypeYearsMonthsDuration) => Some a
  | (Add | Sub), TypeTime, TypeDaysTimeDuration => Some TypeTime
  | Add, (TypeDaysTimeDuration | TypeYearsMonthsDuration), (TypeDate | TypeDateTime) => Some b
  | Add, TypeDaysTimeDuration, TypeTime => Some TypeTime
  | Sub, TypeDate, TypeDate | Sub, TypeDateTime, TypeDateTime => Some TypeDaysTimeDuration
  | (Mul | Div), (TypeDaysTimeDuration | TypeYearsMonthsDuration), TypeNumber => Some a
  | Mul, TypeNumber, (TypeDaysTimeDuration | TypeYearsMonthsDuration) => Some b
  | _, _, _ => None
  end.

(** The operands of the signature for which there is no result: a division by
    zero, dates of which one has a zone, a power outside its domain. *)
Definition undefined (op : BinOp) (a b : BlValue) : bool :=
  match op, a, b with
  | Sub, BlDate _ n, BlDate _ m | Sub, BlDateTime _ n, BlDateTime _ m => negb (Bool.eqb n m)
  | Div, _, BlNumber d => dIsZero d
  | Pow, BlNumber x, BlNumber y => IsNull (powNumber x y)
  | _, _, _ => false
  end.

(** C22. The arithmetic operators follow their signatures: null operands give null,
    operands of other types an error, the undefined cases null, and everything
    else a value of the type the signature names. *)
Theorem operators_typed (op : BinOp) (a b : BlValue) :
  if IsNull a || IsNull b then run op a b = Ok BlNull
  else match signature op (type_of a) (type_of b) with
       | None => exists e, run op a b = Err e
       | Some ty => exists v, run op a b = Ok v /\ if undefined op a b then v = BlNull else type_of v = ty
       end.
Proof.
  destruct op; destruct a; try (destruct b; cbn [IsNull orb type_of signature run]; first [exact eq_refl|eexists; exact eq_refl]);
    destruct b; cbn [IsNull orb type_of signature run undefined]; try exact eq_refl; try (eexists; exact eq_refl);
    try (eexists; split; exact eq_refl); (eexists; split; [exact eq_refl|]).
  - unfold subDates. by destruct (Bool.eqb _ _).
  - unfold subDateTimes. by destruct (Bool.eqb _ _).
  - unfold divNumbers. by destruct (dIsZero _).
  - unfold divDTDuration. by destruct (dIsZero _).
  - unfold divYMDuration. by destruct (dIsZero _).
  - unfold powNumber. by repeat dmatch.
Qed.

(** ** Laws of arithmetic *)

Context {DL : DecimalLaws DO}.

(** Two results an expression cannot tell apart. *)
Definition same_result (r r' : result BlValue) : Prop :=
  match r, r' with
  | Ok v, Ok w => v = w \/ eqTrue (Equal v w) = true
  | Err _, Err _ => True
  | _, _ => False
  end.

Lemma decimals_equal x y : (dval x == dval y)%Q -> dEqual x y = true.
Proof. intros H. rewrite dEqual_spec. by apply Qeq_bool_iff. Qed.

(** Addition and multiplication commute, on all operands but strings; and
    subtracting what was added gives back a number or a duration. *)
Theorem arithmetic_laws (a b : BlValue) :
  (type_of a <> TypeString -> same_result (opAdd a b) (opAdd b a)) /\
  same_result (opMul a b) (opMul b a) /\
  (signature Add (type_of a) (type_of b) = Some (type_of b) -> type_of a = type_of b -> type_of a <> TypeString ->
   exists s, opAdd a b = Ok s /\ same_result (opSub s b) (Ok a)).
Proof.
  split_and!.
  - intros Hs. destruct a; try (by destruct Hs); destruct b;
      first [exact I|left; exact eq_refl|right; apply decimals_equal; rewrite !dval_Add; ring].
  - destruct a; destruct b; first [exact I|left; exact eq_refl|right; apply decimals_equal; rewrite !dval_Mul; ring].
  - intros Hg Ht Hs. destruct a; try done; destruct b; try done; cbn in Hg; try done;
      (eexists; split; [exact eq_refl|right; apply decimals_equal; rewrite !dval_Sub, !dval_Add; ring]).
Qed.

(** ** Components *)

(** A field of a list is the list of the fields, to any depth, and null where an
    element is null or has no such field. *)
Lemma component_of_list items name : componentAccess (BlList items) name = BlList (map (fun e => componentAccess e name) items).
Proof. cbn. f_equal. induction items as [|e items IH]; [done|]. cbn. f_equal; [by destruct e|exact IH]. Qed.

End OperatorLaws.
