(* ===== verification/Registry.v ===== *)
(** * The functions an expression can call

    Models [core/comprehensions.go] up to its source rewriting, [core/func.go],
    and the option assemblers that register the functions of every library with
    the expression engine ([typeRegistrations] and [baseOptions] of
    [core/engine.go]).  The evaluation of the body of a function value is the
    engine's: a parameter. *)

From Stdlib Require Import SpecFloat.
From S2P Require Import Prelude Decimal GoText GoTime Values ValueLaws Lists Ranges Numbers GoTimeText Durations Temporal Dictionaries Strings Tables Calendars Operators TenDecimal NumberText TemporalText TableJoin.
#[global] Open Scope Z_scope.

Section Registry.
Context {DO : DecimalOps} {DT : DecimalText DO} {TZ : TimeZones} {GU : GoUnicode} {GM : GoMath} {RX : Regexp}.

(** ** Iteration *)

(** [coerceRowList]: a list, the rows of a table, the entries of a calendar. *)
Definition coerceRowList (v : BlValue) : option (list BlValue) :=
  match v with
  | BlList items => Some items
  | BlTable _ rows => Some (map BlDictionary rows)
  | BlCalendar es _ _ => Some (map entry_value es)
  | _ => None
  end.

Definition itemsFn (v : BlValue) : result (list BlValue) :=
  match coerceRowList v with
  | Some items => Ok items
  | None => Err (TypeError "iterate" "not a list")
  end.
Definition wrapListFn (arr : list BlValue) : BlValue := BlList arr.

(** [isGoTrue] of a value the engine passes: a Go [bool] or a boolean. *)
Definition isGoTrue (v : bool + BlValue) : bool :=
  match v with inl b => b | inr (BlBoolean b) => b | inr _ => false end.
Definition anyTrueFn (arr : list (bool + BlValue)) : BlValue := BlBoolean (existsb isGoTrue arr).
Definition allTrueFn (arr : list (bool + BlValue)) : BlValue := BlBoolean (forallb isGoTrue arr).

(** [indexFn]: positions count from 1, negative ones from the end. *)
Definition indexFn (l idx : BlValue) : result BlValue :=
  match l with
  | BlTable cols rows =>
      match idx with
      | BlNumber d => Ok (of_table (rowByIndex (mkTable cols rows) (dIntPart d)))
      | BlList _ => table_result (tableSliceFn (mkTable cols rows) idx)
      | _ => Ok BlNull
      end
  | BlList items =>
      match idx with
      | BlNumber d =>
          let n := Z.of_nat (length items) in
          let i := dIntPart d in
          let i := if i <? 0 then n + i + 1 else i in
          Ok (if (i <? 1) || (n <? i) then BlNull else default BlNull (items !! Z.to_nat (i - 1)))
      | _ => Ok BlNull
      end
  | _ => Ok BlNull
  end.

(** [listArg]: a table or a calendar stands for its list. *)
Definition listArg (f : list BlValue -> result BlValue) (args : list BlValue) : result BlValue :=
  match args with
  | BlTable cols rows :: args' => f (toRowList (mkTable cols rows) :: args')
  | BlCalendar es vf vt :: args' => f (entriesFn (mkCalendar es vf vt) :: args')
  | _ => f args
  end.

(** ** Function values ([func.go]) *)

(** [mkFuncFn]: the parameters are the names between the commas, the blank ones
    dropped. *)
Definition mkFuncFn (paramsStr body : string) : BlValue :=
  BlFunc (List.filter (fun p => negb (String.eqb p "")) (map strings_TrimSpace (strings_Split paramsStr ","))) body.

(** The value of a source under bindings: [compileDynamic] and [runDynamic]. *)
Variable evaluate : string -> list (string * BlValue) -> result BlValue.

(** [BlFunc.Apply]; of two parameters of one name the later one is bound. *)
Definition Apply (params : list string) (body : string) (args : list BlValue) : result BlValue :=
  if negb (length args =? length params)%nat then Err (TypeError "apply" "argument count mismatch")
  else evaluate body (fold_left (fun vars p => dict_set vars (fst p) (snd p)) (combine params args) []).

Definition applyFn (args : list BlValue) : result BlValue :=
  match arg args 0 with
  | BlFunc params body => Apply params body (tail args)
  | _ => Err (TypeError "apply" "first argument must be a function")
  end.

Definition funcOptions : list Builtin :=
  [mkBuiltin "__mkfunc" [2] (fn2 (typed2 get_string get_string mkFuncFn));
   mkBuiltin "apply" [] applyFn]%nat.

(** ** Registrations *)

Definition ok1 (f : BlValue -> BlValue) : list BlValue -> result BlValue := fn1 (fun v => Ok (f v)).
Definition ok2 (f : BlValue -> BlValue -> BlValue) : list BlValue -> result BlValue := fn2 (fun a b => Ok (f a b)).

Definition booleanOptions : list Builtin := [mkBuiltin "__not" [1%nat] (ok1 notFn)].

Definition nullOptions : list Builtin :=
  [mkBuiltin "isNull" [1] (ok1 isNullFn);
   mkBuiltin "getOrElse" [2] (ok2 getOrElseFn)]%nat.

Definition isBoundFn (v : BlValue) : result BlValue := Ok (BlBoolean true).
Definition typeTestOptions : list Builtin :=
  [mkBuiltin "__instanceOf" [2] (fn2 instanceOfFn);
   mkBuiltin "__isBound" [1] (fn1 isBoundFn);
   mkBuiltin "__hasKey" [2] (fn2 hasKeyFn)]%nat.

Definition rangeOptions : list Builtin :=
  [mkBuiltin "newRange" [4] newRangeFn;
   mkBuiltin "includes" [2] (fn2 includesFn);
   mkBuiltin "during" [2] (fn2 duringFn)]%nat.

Definition intervalOptions : list Builtin :=
  [mkBuiltin "before" [2] (ok2 beforeFn);
   mkBuiltin "after" [2] (ok2 afterFn);
   mkBuiltin "meets" [2] (ok2 meetsFn);
   mkBuiltin "metBy" [2] (ok2 metByFn);
   mkBuiltin "overlaps" [2] (fn2 overlapsFn);
   mkBuiltin "overlapsBefore" [2] (ok2 overlapsBeforeFn);
   mkBuiltin "overlapsAfter" [2] (ok2 overlapsAfterFn);
   mkBuiltin "starts" [2] (ok2 startsFn);
   mkBuiltin "startedBy" [2] (ok2 startedByFn);
   mkBuiltin "finishes" [2] (ok2 finishesFn);
   mkBuiltin "finishedBy" [2] (ok2 finishedByFn);
   mkBuiltin "coincides" [2] (ok2 coincidesFn)]%nat.

Definition daysTimeDurationOptions : list Builtin :=
  [mkBuiltin "addDTDuration" [2] (fn2 (typed2 get_dt get_dt addDTDuration));
   mkBuiltin "subDTDuration" [2] (fn2 (typed2 get_dt get_dt subDTDuration));
   mkBuiltin "negDTDuration" [1] (fn1 (typed1 get_dt negDTDuration));
   mkBuiltin "scaleDTDuration" [2] (fn2 (typed2 get_dt get_number scaleDTDuration));
   mkBuiltin "divDTDuration" [2] (fn2 (typed2 get_dt get_number divDTDuration));
   mkBuiltin "dtDuration" [1] (fn1 (typed1err get_string dtDurationFn))]%nat.

Definition yearsMonthsDurationOptions : list Builtin :=
  [mkBuiltin "addYMDuration" [2] (fn2 (typed2 get_ym get_ym addYMDuration));
   mkBuiltin "subYMDuration" [2] (fn2 (typed2 get_ym get_ym subYMDuration));
   mkBuiltin "negYMDuration" [1] (fn1 (typed1 get_ym negYMDuration));
   mkBuiltin "scaleYMDuration" [2] (fn2 (typed2 get_ym get_number scaleYMDuration));
   mkBuiltin "divYMDuration" [2] (fn2 (typed2 get_ym get_number divYMDuration));
   mkBuiltin "ymDuration" [1] (fn1 (typed1err get_string ymDurationFn))]%nat.

(** [stddevFn]: the squares of the differences from the mean, summed. *)
Fixpoint square_sum (mean acc : Decimal) (items : list BlValue) : result Decimal :=
  match items with
  | [] => Ok acc
  | BlNumber d :: items' =>
      let diff := dSub d mean in square_sum mean (dAdd acc (dMul diff diff)) items'
  | _ :: _ => Err (TypeError "stddev" "stddev is defined for numbers only")
  end.
Definition stddevFn (l : list BlValue) : result BlValue :=
  let items := nonNull l in
  if (length items <? 2)%nat then Ok BlNull
  else
    let! m := meanFn l in
    match m with
    | BlNumber mean =>
        let! acc := square_sum mean dZero items in
        Ok (num (decimalSqrt (dDivRound acc (dNewFromInt (Z.of_nat (length items) - 1)) numericPrecision)))
    | _ => Err (TypeError "stddev" "stddev is defined for numbers only")
    end.

(** [mkListFn] *)
Definition mkListFn (args : list BlValue) : BlValue := BlList args.

(** [nil_items]: an empty explicit order of [sort] is a nil slice. *)
Definition listOptions (nil_items : bool) : list Builtin :=
  let agg f := listArg (fn1 (typed1err get_items f)) in
  let aggv f := listArg (fn1 (typed1 get_items f)) in
  [mkBuiltin "count" [1] (aggv countFn);
   mkBuiltin "listContains" [2] (fn2 (typed2 get_items (fun v => Some v) listContainsFn));
   mkBuiltin "sublist" [2; 3] (fun args => sublistFn (arg args 0) (arg args 1) (args !! 2));
   mkBuiltin "append" [] (fun args => appendFn (arg args 0) (tail args));
   mkBuiltin "prepend" [] (fun args => prependFn (arg args 0) (tail args));
   mkBuiltin "concatenate" [] concatenateFn;
   mkBuiltin "union" [] unionDispatch;
   mkBuiltin "intersection" [] intersectionFn;
   mkBuiltin "insertBefore" [3] (fn3 insertBeforeFn);
   mkBuiltin "insertAfter" [3] (fn3 insertAfterFn);
   mkBuiltin "remove" [2] (fn2 removeFn);
   mkBuiltin "listReplace" [3] (fn3 listReplaceFn);
   mkBuiltin "flatten" [1] (fn1 (typed1 get_items flattenFn));
   mkBuiltin "distinct" [1] (fn1 (typed1 get_items distinctFn));
   mkBuiltin "duplicateValues" [1] (fn1 (typed1 get_items duplicateValuesFn));
   mkBuiltin "sort" [1; 2] (fun args => sortFn nil_items (arg args 0) (args !! 1));
   mkBuiltin "stringJoin" [1; 2; 4] (fun args =>
     stringJoinFn (arg args 0) (args !! 1) match args with [_; _; pre; suf] => Some (pre, suf) | _ => None end);
   mkBuiltin "seq" [] (fun args => seqFn (arg args 0) (arg args 1) (args !! 2));
   mkBuiltin "zipStringJoin" [1; 2] (fun args => zipStringJoinFn (arg args 0) (args !! 1));
   mkBuiltin "sum" [1] (agg sumFn);
   mkBuiltin "product" [1] (agg productFn);
   mkBuiltin "min" [1] (agg minFn);
   mkBuiltin "max" [1] (agg maxFn);
   mkBuiltin "mean" [1] (agg meanFn);
   mkBuiltin "median" [1] (agg medianFn);
   mkBuiltin "stddev" [1] (agg stddevFn);
   mkBuiltin "mode" [1] (aggv modeFn);
   mkBuiltin "all" [1] (aggv allFn);
   mkBuiltin "any" [1] (aggv anyFn);
   mkBuiltin "__mklist" [] (fun args => Ok (mkListFn args))]%nat.

(** [__items], [__wraplist], [__anyTrue] and [__allTrue] take or return a Go
    slice: they are [itemsFn], [wrapListFn], [anyTrueFn] and [allTrueFn]. *)
Definition comprehensionOptions : list Builtin := [mkBuiltin "__index" [2%nat] (fn2 indexFn)].

(** [typeRegistrations], and the functions of [baseOptions]. *)
Definition typeRegistrations (fuel : nat) (nil_items : bool) : list (list Builtin) :=
  [numberOptions; stringOptions containsDispatch; booleanOptions; nullOptions; dateOptions; timeOptions; datetimeOptions;
   daysTimeDurationOptions; yearsMonthsDurationOptions; listOptions nil_items; dictionaryOptions; rangeOptions; intervalOptions;
   comprehensionOptions; tableOptions; tableMethodOptions; calendarOptions fuel; typeTestOptions; funcOptions; overloadOptions].
Definition baseOptions (fuel : nat) (nil_items : bool) : list Builtin :=
  concat (typeRegistrations fuel nil_items) ++ operatorRegistrations.

(** ** Comprehensions

    What the texts [buildForExpr] and [buildQuantifier] emit compute, for lists
    that do not depend on the variables: the engine's [map] runs the body for
    each element, and the variables are bound outside in. *)

Fixpoint for_value (lists : list (list BlValue)) (body : list BlValue -> BlValue) : BlValue :=
  match lists with
  | [] => body []
  | [l] => wrapListFn (map (fun x => body [x]) l)
  | l :: lists' => flattenFn (map (fun x => for_value lists' (fun xs => body (x :: xs))) l)
  end.

Fixpoint quantifier_value (combine : list (bool + BlValue) -> BlValue) (lists : list (list BlValue)) (cond : list BlValue -> BlValue) : BlValue :=
  match lists with
  | [] => cond []
  | l :: lists' => combine (map (fun x => inl (opTruthy (quantifier_value combine lists' (fun xs => cond (x :: xs))))) l)
  end.

End Registry.

(** * What the registered functions promise

    No two functions are registered under one name; the comprehensions run over
    every combination of elements, the rightmost fastest, and the index functions
    count from both ends.  A loop over two lists flattens the lists its body
    makes. *)

From Stdlib Require Import SpecFloat.
From S2P Require Import NumberLaws.

(** ** Names *)

Fixpoint repeats (l : list string) : bool :=
  match l with [] => false | x :: l' => existsb (String.eqb x) l' || repeats l' end.

Lemma repeats_NoDup l : repeats l = false -> NoDup l.
Proof.
  induction l as [|x l IH]; cbn; [constructor|]. intros [H1 H2]%orb_false_elim. constructor; [|by apply IH].
  intros Hx. apply not_true_iff_false in H1. apply H1, existsb_exists. exists x. split; [by apply list_elem_of_In|apply String.eqb_refl].
Qed.

Section Names.
Context {DO : DecimalOps} {DT : DecimalText DO} {TZ : TimeZones} {GU : GoUnicode} {GM : GoMath} {RX : Regexp}.
Variable evaluate : string -> list (string * BlValue) -> result BlValue.
Variables (fuel : nat) (nil_items : bool).

Definition builtins : list Builtin := baseOptions evaluate fuel nil_items.

(** The function of a name. *)
Definition resolve (name : string) : option Builtin := List.find (fun b => String.eqb (fn_name b) name) builtins.

Lemma find_unique (bs : list Builtin) b :
  NoDup (map fn_name bs) -> b ∈ bs -> List.find (fun c => String.eqb (fn_name c) (fn_name b)) bs = Some b.
Proof.
  induction bs as [|c bs IH]; intros Hd Hb; [by apply elem_of_nil in Hb|]. cbn in *. inv Hd.
  apply elem_of_cons in Hb as [->|Hb]; [by rewrite String.eqb_refl|].
  destruct (String.eqb_spec (fn_name c) (fn_name b)) as [E|_]; [|by apply IH].
  match goal with H : fn_name c ∉ _ |- _ => destruct H end. rewrite E, list_elem_of_In. apply in_map. by apply list_elem_of_In.
Qed.

(** Each registered function is the one its name resolves to: no name is
    registered twice. *)
Theorem names_resolve :
  NoDup (map fn_name builtins) /\ forall b, b ∈ builtins -> resolve (fn_name b) = Some b.
Proof.
  assert (H : NoDup (map fn_name builtins)) by (apply repeats_NoDup; exact (eq_refl false)).
  split; [exact H|]. intros b. by apply find_unique.
Qed.
End Names.

(** ** Comprehensions *)

Section Comprehensions.
Context {DO : DecimalOps}.

(** Every choice of one element of each list, the last list fastest. *)
Fixpoint combinations (lists : list (list BlValue)) : list (list BlValue) :=
  match lists with
  | [] => [[]]
  | l :: lists' => concat (map (fun x => map (cons x) (combinations lists')) l)
  end.

Definition is_list (v : BlValue) : bool := match v with BlList _ => true | _ => false end.

Lemma flatten_leaves vs : forallb (fun v => negb (is_list v)) vs = true -> flatten_value (BlList vs) = vs.
Proof.
  induction vs as [|v vs IH]; [done|]. cbn [forallb]. intros [Hv Hvs]%andb_prop. specialize (IH Hvs). cbn in *. rewrite IH. by destruct v.
Qed.

Lemma map_concat_map {A B C} (f : B -> C) (g : A -> list B) l : map f (concat (map g l)) = concat (map (fun x => map f (g x)) l).
Proof. induction l as [|x l IH]; [done|]. cbn. by rewrite map_app, IH. Qed.

Lemma combinations_cons l lists x xs : x ∈ l -> xs ∈ combinations lists -> (x :: xs) ∈ combinations (l :: lists).
Proof.
  intros Hx Hxs. cbn. rewrite list_elem_of_In, in_concat. exists (map (cons x) (combinations lists)).
  split; [apply in_map_iff; exists x; split; [done|by apply list_elem_of_In]|apply in_map; by apply list_elem_of_In].
Qed.

Lemma combinations_one l : combinations [l] = map (fun x => [x]) l.
Proof. cbn. induction l as [|x l IH]; [done|]. cbn in *. by rewrite IH. Qed.

Lemma for_value_combinations lists body :
  lists <> [] -> (forall xs, xs ∈ combinations lists -> is_list (body xs) = false) ->
  for_value lists body = BlList (map body (combinations lists)).
Proof.
  revert body. induction lists as [|l lists IH]; intros body Hne Hb; [done|]. destruct lists as [|l' lists].
  - rewrite combinations_one, map_map. reflexivity.
  - remember (l' :: lists) as rest eqn:Er. assert (Hr : rest <> []) by by subst.
    transitivity (flattenFn (map (fun x => for_value rest (fun xs => body (x :: xs))) l)); [by subst rest|].
    unfold flattenFn. cbn [combinations]. rewrite map_concat_map, map_map. do 2 f_equal. apply map_ext_in. intros x Hx. apply list_elem_of_In in Hx.
    rewrite IH; [|done|intros xs Hxs; by apply Hb, combinations_cons]. rewrite map_map. apply flatten_leaves.
    apply forallb_forall. intros v Hv. apply in_map_iff in Hv as (xs & <- & Hxs). apply list_elem_of_In in Hxs.
    by rewrite Hb by by apply combinations_cons.
Qed.

Lemma existsb_concat_map {A B} (f : B -> bool) (g : A -> list B) l : existsb f (concat (map g l)) = existsb (fun x => existsb f (g x)) l.
Proof. induction l as [|x l IH]; [done|]. cbn. by rewrite existsb_app, IH. Qed.
Lemma forallb_concat_map {A B} (f : B -> bool) (g : A -> list B) l : forallb f (concat (map g l)) = forallb (fun x => forallb f (g x)) l.
Proof. induction l as [|x l IH]; [done|]. cbn. by rewrite forallb_app, IH. Qed.
Lemma existsb_map {A B} (f : B -> bool) (g : A -> B) l : existsb f (map g l) = existsb (fun x => f (g x)) l.
Proof. induction l as [|x l IH]; [done|]. cbn. by rewrite IH. Qed.
Lemma forallb_map {A B} (f : B -> bool) (g : A -> B) l : forallb f (map g l) = forallb (fun x => f (g x)) l.
Proof. induction l as [|x l IH]; [done|]. cbn. by rewrite IH. Qed.
Lemma existsb_ext {A} (f g : A -> bool) l : (forall x, f x = g x) -> existsb f l = existsb g l.
Proof. intros H. induction l as [|x l IH]; [done|]. cbn. by rewrite H, IH. Qed.
Lemma forallb_ext {A} (f g : A -> bool) l : (forall x, f x = g x) -> forallb f l = forallb g l.
Proof. intros H. induction l as [|x l IH]; [done|]. cbn. by rewrite H, IH. Qed.

Lemma some_value lists cond :
  opTruthy (quantifier_value anyTrueFn lists cond) = existsb (fun xs => opTruthy (cond xs)) (combinations lists).
Proof.
  revert cond. induction lists as [|l lists IH]; intros cond; cbn [quantifier_value combinations]; [cbn; by rewrite orb_false_r|].
  unfold anyTrueFn at 1. cbn [opTruthy]. rewrite existsb_map, existsb_concat_map. apply existsb_ext. intros x. cbn [isGoTrue].
  by rewrite IH, existsb_map.
Qed.

Lemma every_value lists cond :
  opTruthy (quantifier_value allTrueFn lists cond) = forallb (fun xs => opTruthy (cond xs)) (combinations lists).
Proof.
  revert cond. induction lists as [|l lists IH]; intros cond; cbn [quantifier_value combinations]; [cbn; by rewrite andb_true_r|].
  unfold allTrueFn at 1. cbn [opTruthy]. rewrite forallb_map, forallb_concat_map. apply forallb_ext. intros x. cbn [isGoTrue].
  by rewrite IH, forallb_map.
Qed.

(** A loop whose body makes no lists has the value of its body for every
    combination, in order; [some] and [every] ask for a combination, and for all
    of them. *)
Theorem comprehension_combinations (lists : list (list BlValue)) (body : list BlValue -> BlValue) :
  lists <> [] ->
  ((forall xs, xs ∈ combinations lists -> is_list (body xs) = false) -> for_value lists body = BlList (map body (combinations lists))) /\
  quantifier_value anyTrueFn lists body = BlBoolean (existsb (fun xs => opTruthy (body xs)) (combinations lists)) /\
  quantifier_value allTrueFn lists body = BlBoolean (forallb (fun xs => opTruthy (body xs)) (combinations lists)).
Proof.
  intros Hne. split; [by apply for_value_combinations|]. rewrite <- some_value, <- every_value. by destruct lists.
Qed.

(** A loop over two lists whose body is a list does not collect the lists: their
    elements are flattened into the result. *)
Theorem for_flattens_results :
  for_value [[BlBoolean true]; [BlBoolean false]] BlList = BlList [BlBoolean true; BlBoolean false] /\
  for_value [[BlBoolean true]] BlList = BlList [BlList [BlBoolean true]].
Proof. split; reflexivity. Qed.

End Comprehensions.

Lemma comprehension_combinations_witness :
  for_value [[BlBoolean (DO := QDecimal) true; BlNull]; [BlBoolean false]] (fun xs => default BlNull (head xs)) = BlList [BlBoolean true; BlNull].
Proof.
  destruct (comprehension_combinations (DO := QDecimal) [[BlBoolean true; BlNull]; [BlBoolean false]] (fun xs => default BlNull (head xs))) as [H _].
  - discriminate.
  - apply H. intros xs Hxs. cbn in Hxs.
    apply elem_of_cons in Hxs as [->|Hxs]; [reflexivity|]. apply list_elem_of_singleton in Hxs as ->. reflexivity.
Defined.
