(* ===== verification/Normalise.v ===== *)
(** * Rewriting the source of an expression

    Models [core/normalise.go] and the source rewriting of
    [core/comprehensions.go]: the passes that turn the expression language into
    the one the engine parses.  A source is a string of bytes and a position is
    an index into it.  A slice beyond the end of the source panics; the passes
    that repeat a rewriting take fuel and are [Unfinished] without enough of it. *)

From Stdlib Require Import Strings.Ascii.
From S2P Require Import Prelude Decimal GoText GoTime Values Lists Numbers Strings.
#[global] Open Scope nat_scope.

(** ** Outcomes *)

Inductive outcome (A : Type) : Type :=
| Done (a : A)
| Panics
| Unfinished.
Arguments Done {A} _.
Arguments Panics {A}.
Arguments Unfinished {A}.

Definition outcome_bind {A B} (m : outcome A) (f : A -> outcome B) : outcome B :=
  match m with Done a => f a | Panics => Panics | Unfinished => Unfinished end.
Notation "'let?' x := m 'in' k" := (outcome_bind m (fun x => k)) (at level 200, x name, m at level 100, k at level 200).

Fixpoint outcome_map {A B} (f : A -> outcome B) (l : list A) : outcome (list B) :=
  match l with
  | [] => Done []
  | x :: l' => let? y := f x in let? ys := outcome_map f l' in Done (y :: ys)
  end.

(** ** Characters and slices *)

Definition quote_char : ascii := "034"%char.
Definition quote : string := String quote_char EmptyString.
Definition is_open (c : ascii) : bool := Ascii.eqb c "(" || Ascii.eqb c "[" || Ascii.eqb c "{".
Definition is_close (c : ascii) : bool := Ascii.eqb c ")" || Ascii.eqb c "]" || Ascii.eqb c "}".
Definition is_blank (c : ascii) : bool := Ascii.eqb c " " || Ascii.eqb c "009".
Definition between_chars (lo hi c : ascii) : bool := (nat_of_ascii lo <=? nat_of_ascii c) && (nat_of_ascii c <=? nat_of_ascii hi).
Definition is_digit (c : ascii) : bool := between_chars "0" "9" c.
Definition isIdentStart (c : ascii) : bool := Ascii.eqb c "_" || between_chars "a" "z" c || between_chars "A" "Z" c.
Definition isIdentByte (c : ascii) : bool := isIdentStart c || is_digit c.

(** [s[i:j]] for indices in range *)
Definition slice (s : string) (i j : nat) : string := String.substring i (j - i) s.
Definition after (s : string) (i : nat) : string := slice s i (String.length s).
(** [s[i]] satisfies the test; false past the end. *)
Definition char_is (f : ascii -> bool) (s : string) (i : nat) : bool :=
  match String.get i s with Some c => f c | None => false end.

(** ** Scanning

    The loops [for i := from; i < len(s); ] over a source: each round ends the
    scan or goes on from a later position. *)

Inductive round (St R : Type) : Type :=
| Stop (r : R)
| Go (i : nat) (st : St).
Arguments Stop {St R} _.
Arguments Go {St R} _ _.

Section Scan.
Context {St R : Type}.

Fixpoint scan_from (fuel : nat) (s : string) (i : nat) (st : St) (step : nat -> ascii -> St -> round St R) (final : nat -> St -> R) : R :=
  match fuel with
  | O => final i st
  | S fuel' =>
      match String.get i s with
      | None => final i st
      | Some c =>
          match step i c st with
          | Stop r => r
          | Go j st' => scan_from fuel' s j st' step final
          end
      end
  end.

(** Every round moves on: the length of the source is enough. *)
Definition scan (s : string) (from : nat) (st : St) (step : nat -> ascii -> St -> round St R) (final : nat -> St -> R) : R :=
  scan_from (S (String.length s)) s from st step final.

End Scan.

(** The position after the bytes from [i] on that satisfy the test. *)
Definition skip_while (f : ascii -> bool) (s : string) (i : nat) : nat :=
  scan s i tt (fun i c _ => if f c then Go (S i) tt else Stop i) (fun i _ => i).
Definition skip_blanks : string -> nat -> nat := skip_while is_blank.

(** [skipString]: past the closing quote; past the end when the last byte of an
    open literal is an escape. *)
Definition skipString (s : string) (i : nat) : nat :=
  scan s (S i) tt
    (fun i c _ => if Ascii.eqb c "\" then Go (i + 2) tt else if Ascii.eqb c quote_char then Stop (S i) else Go (S i) tt)
    (fun i _ => i).

(** [s[i:skipString(s, i)]] *)
Definition literal (s : string) (i : nat) : outcome string :=
  let end_ := skipString s i in if end_ <=? String.length s then Done (slice s i end_) else Panics.

(** A scan that skips string literals. *)
Definition code_scan {St R} (s : string) (from : nat) (st : St) (step : nat -> ascii -> St -> round St R) (final : nat -> St -> R) : R :=
  scan s from st (fun i c st => if Ascii.eqb c quote_char then Go (skipString s i) st else step i c st) final.

(** The bracket depth after a byte. *)
Definition deeper (c : ascii) (depth : Z) : Z := if is_open c then (depth + 1)%Z else if is_close c then (depth - 1)%Z else depth.

Definition matchKeyword (s : string) (i : nat) (kw : string) : bool :=
  let n := String.length kw in
  (i + n <=? String.length s) && String.eqb (slice s i (i + n)) kw &&
  negb ((0 <? i) && char_is isIdentByte s (i - 1)) && negb (char_is isIdentByte s (i + n)).

Definition indexTopLevelKeyword (s kw : string) (from : nat) : option nat :=
  code_scan s from 0%Z
    (fun i c depth =>
       let depth := deeper c depth in
       if (depth =? 0)%Z && matchKeyword s i kw then Stop (Some i) else Go (S i) depth)
    (fun _ _ => None).

Definition matchGroupEnd (s : string) (i : nat) : option nat :=
  code_scan s i 0%Z
    (fun j c depth =>
       let depth := deeper c depth in
       if is_close c && (depth =? 0)%Z then Stop (Some j) else Go (S j) depth)
    (fun _ _ => None).

Definition splitTopLevelCommas (s : string) : list string :=
  code_scan s 0 (0%Z, 0, [])
    (fun i c '(depth, start, parts) =>
       if is_open c || is_close c then Go (S i) (deeper c depth, start, parts)
       else if Ascii.eqb c "," && (depth =? 0)%Z then Go (S i) (depth, S i, parts ++ [slice s start i])
       else Go (S i) (depth, start, parts))
    (fun _ '(_, start, parts) => parts ++ [after s start]).

(** The first position at depth 0 that passes the test. *)
Definition index_top_level (f : nat -> ascii -> bool) (s : string) : option nat :=
  code_scan s 0 0%Z
    (fun i c depth =>
       if is_open c || is_close c then Go (S i) (deeper c depth)
       else if (depth =? 0)%Z && f i c then Stop (Some i) else Go (S i) depth)
    (fun _ _ => None).
Definition indexTopLevelComma : string -> option nat := index_top_level (fun _ c => Ascii.eqb c ",").
(** [indexTopLevelDotDot]; its loop stops before the last byte. *)
Definition indexTopLevelDotDot (s : string) : option nat :=
  index_top_level (fun i c => Ascii.eqb c "." && char_is (Ascii.eqb ".") s (S i)) s.

(** [indexTopLevelCallFrom], [indexTopLevelCall]: a name at depth 0 with an
    argument list. *)
Fixpoint index_call (fuel : nat) (s name : string) (from : nat) : option nat :=
  match fuel with
  | O => None
  | S fuel' =>
      match indexTopLevelKeyword s name from with
      | None => None
      | Some idx =>
          if char_is (Ascii.eqb "(") s (skip_blanks s (idx + String.length name)) then Some idx
          else index_call fuel' s name (idx + String.length name)
      end
  end.
Definition indexTopLevelCallFrom (s name : string) (from : nat) : option nat := index_call (S (String.length s)) s name from.
Definition indexTopLevelCall (s name : string) : option nat := indexTopLevelCallFrom s name 0.

Definition findKeywordCall (s name : string) (from : nat) : option nat :=
  code_scan s from tt
    (fun i c _ =>
       if matchKeyword s i name && char_is (Ascii.eqb "(") s (skip_blanks s (i + String.length name)) then Stop (Some i) else Go (S i) tt)
    (fun _ _ => None).

Definition matchingClose (open : ascii) : ascii :=
  if Ascii.eqb open "(" then ")"%char else if Ascii.eqb open "[" then "]"%char else if Ascii.eqb open "{" then "}"%char else "000"%char.

(** A copy of the source in which [step] rewrites what is not a string literal. *)
Definition copy_round (s : string) (step : nat -> ascii -> outcome (string * nat)) (i : nat) (c : ascii) (out : string)
  : round string (outcome string) :=
  match (if Ascii.eqb c quote_char then let? l := literal s i in Done (l, skipString s i) else step i c) with
  | Done (text, j) => Go j (out +:+ text)
  | Panics => Stop Panics
  | Unfinished => Stop Unfinished
  end.
Definition copy (s : string) (step : nat -> ascii -> outcome (string * nat)) : outcome string :=
  scan s 0 "" (copy_round s step) (fun _ out => Done out).
(** A byte that is copied. *)
Definition byte (i : nat) (c : ascii) : outcome (string * nat) := Done (String c "", S i).
(** An identifier of the source, rewritten. *)
Definition word (s : string) (i : nat) (f : string -> nat -> string) : outcome (string * nat) :=
  let k := skip_while isIdentByte s (S i) in Done (f (slice s i k) k, k).

(** ** The passes that copy *)

Definition eq_step (s : string) (i : nat) (c : ascii) : outcome (string * nat) :=
  if negb (Ascii.eqb c "=") then byte i c
  else if (0 <? i) && char_is (fun p => Ascii.eqb p "<" || Ascii.eqb p ">" || Ascii.eqb p "!" || Ascii.eqb p "=") s (i - 1)
  then Done ("=", S i)
  else if char_is (Ascii.eqb "=") s (S i) then Done ("==", i + 2)
  else Done ("==", S i).
Definition eqNorm (s : string) : outcome string := copy s (eq_step s).

Definition replaceIdentifier (s from to : string) : outcome string :=
  copy s (fun i c => if isIdentStart c then word s i (fun w _ => if String.eqb w from then to else w) else byte i c).

Definition callRenames : list (string * string) :=
  [("contains", "__contains"); ("startsWith", "__startsWith"); ("endsWith", "__endsWith"); ("matches", "__matches")].

(** [strings.ToLower] of an identifier *)
Definition lower_char (c : ascii) : ascii := if between_chars "A" "Z" c then ascii_of_nat (nat_of_ascii c + 32) else c.
Fixpoint lower_word (s : string) : string := match s with EmptyString => EmptyString | String c s' => String (lower_char c) (lower_word s') end.

Definition rewriteIdentifiers (s : string) : outcome string :=
  copy s (fun i c =>
    if isIdentStart c then
      word s i (fun w k =>
        let l := lower_word w in
        if String.eqb l "true" then "true"
        else if String.eqb l "false" then "false"
        else if String.eqb l "null" then "nil"
        else match assoc w callRenames with
             | Some repl => if char_is (Ascii.eqb "(") s (skip_blanks s k) then repl else w
             | None => w
             end)
    else byte i c).

Definition numberStartsHere (s : string) (i : nat) : bool :=
  (i =? 0) || negb (char_is (fun p => isIdentByte p || Ascii.eqb p ".") s (i - 1)).

(** [scanNumber]: the position after the literal, and whether it has a fraction
    or an exponent. *)
Definition scanNumber (s : string) (i : nat) : nat * bool :=
  let i := skip_while is_digit s i in
  let '(i, fractional) :=
    if char_is (Ascii.eqb ".") s i && char_is is_digit s (S i) then (skip_while is_digit s (S i), true) else (i, false) in
  if char_is (fun c => Ascii.eqb c "e" || Ascii.eqb c "E") s i then
    let j := if char_is (fun c => Ascii.eqb c "+" || Ascii.eqb c "-") s (S i) then i + 2 else S i in
    if char_is is_digit s j then (skip_while is_digit s j, true) else (i, fractional)
  else (i, fractional).

Definition captureDecimals (s : string) : outcome string :=
  copy s (fun i c =>
    if is_digit c && numberStartsHere s i then
      let '(next, fractional) := scanNumber s i in
      let tok := slice s i next in
      Done (if fractional then "number(" +:+ quote +:+ tok +:+ quote +:+ ")" else tok, next)
    else byte i c).

(** ** Ranges *)

Definition boolLit (v : bool) : string := if v then "true" else "false".

Fixpoint lowerRanges (fuel : nat) (s : string) : outcome string :=
  match fuel with
  | O => Unfinished
  | S fuel' =>
      copy s (fun i c =>
        if Ascii.eqb c "(" || Ascii.eqb c "[" then
          match matchGroupEnd s i with
          | None => byte i c
          | Some j =>
              let inner := slice s (S i) j in
              match indexTopLevelDotDot inner with
              | Some dd =>
                  let? left := lowerRanges fuel' (strings_TrimSpace (slice inner 0 dd)) in
                  let? right := lowerRanges fuel' (strings_TrimSpace (after inner (dd + 2))) in
                  Done ("newRange(" +:+ left +:+ ", " +:+ right +:+ ", " +:+ boolLit (Ascii.eqb c "[") +:+ ", " +:+
                        boolLit (char_is (Ascii.eqb "]") s j) +:+ ")", S j)
              | None =>
                  let? text := lowerRanges fuel' inner in
                  Done (String c text +:+ slice s j (S j), S j)
              end
          end
        else byte i c)
  end.

(** ** Groups *)

(** The end of the group opened at [i]: its own kind of bracket counts. *)
Definition group_end (s : string) (i : nat) (open close : ascii) : nat :=
  code_scan s (S i) 1%Z
    (fun j c depth =>
       if Ascii.eqb c open then Go (S j) (depth + 1)%Z
       else if Ascii.eqb c close then if (depth - 1 =? 0)%Z then Stop j else Go (S j) (depth - 1)%Z
       else Go (S j) depth)
    (fun j _ => j).

Definition mapTopLevelGroups (s : string) (fn : string -> outcome string) : outcome string :=
  copy s (fun i c =>
    if is_open c then
      let close := matchingClose c in
      let j := group_end s i c close in
      let? text := if j <=? String.length s then fn (slice s (S i) (Nat.min j (String.length s))) else Done "" in
      Done (String c text +:+ (if j <? String.length s then String close "" else ""), S j)
    else byte i c).

(** ** Named arguments *)

Definition namedArgParams : list (string * list string) :=
  [("substring", ["string"; "startPosition"; "length"]);
   ("substringBefore", ["string"; "match"]);
   ("substringAfter", ["string"; "match"]);
   ("padLeading", ["string"; "length"; "padChar"]);
   ("padTrailing", ["string"; "length"; "padChar"]);
   ("repeat", ["string"; "times"]);
   ("charAt", ["string"; "position"]);
   ("contains", ["string"; "match"]);
   ("startsWith", ["string"; "match"]);
   ("endsWith", ["string"; "match"]);
   ("matches", ["input"; "pattern"; "flags"]);
   ("replace", ["input"; "pattern"; "replacement"; "flags"]);
   ("split", ["string"; "delimiter"]);
   ("extract", ["string"; "pattern"; "flags"]);
   ("round", ["n"; "scale"]);
   ("roundUp", ["n"; "scale"]);
   ("roundDown", ["n"; "scale"]);
   ("roundHalfUp", ["n"; "scale"]);
   ("roundHalfDown", ["n"; "scale"]);
   ("roundHalfEven", ["n"; "scale"]);
   ("clamp", ["n"; "min"; "max"]);
   ("modulo", ["dividend"; "divisor"]);
   ("log", ["n"; "base"]);
   ("number", ["from"; "groupingSeparator"; "decimalSeparator"]);
   ("sublist", ["list"; "start"; "length"])].

Definition parseNamedArg (arg : string) : option (string * string) :=
  let t := strings_TrimSpace arg in
  let i := skip_while isIdentByte t 0 in
  if (i =? 0) || negb (char_is isIdentStart t 0) then None
  else
    let j := skip_blanks t i in
    if negb (char_is (Ascii.eqb ":") t j) then None
    else
      let value := strings_TrimSpace (after t (S j)) in
      if String.eqb value "" then None else Some (slice t 0 i, value).

(** The arguments by name, the last one of a name; [None] when one has no name. *)
Fixpoint named_args (args : list string) (named : list (string * string)) : option (list (string * string)) :=
  match args with
  | [] => Some named
  | a :: args' =>
      match parseNamedArg a with
      | None => None
      | Some (name, val) => named_args args' ((name, val) :: List.filter (fun p => negb (String.eqb (fst p) name)) named)
      end
  end.

Fixpoint rewriteNamedCall (fuel : nat) (s fn : string) (params : list string) (from : nat) : outcome string :=
  match fuel with
  | O => Unfinished
  | S fuel' =>
      match indexTopLevelCallFrom s fn from with
      | None => Done s
      | Some idx =>
          let j := skip_blanks s (idx + String.length fn) in
          match matchGroupEnd s j with
          | None => Done s
          | Some close =>
              match named_args (splitTopLevelCommas (slice s (S j) close)) [] with
              | Some named =>
                  let ordered := omap (fun p => assoc p named) params in
                  if length ordered =? length named then
                    let repl := fn +:+ "(" +:+ strings_Join ordered ", " +:+ ")" in
                    rewriteNamedCall fuel' (slice s 0 idx +:+ repl +:+ after s (S close)) fn params (idx + String.length repl)
                  else rewriteNamedCall fuel' s fn params (idx + String.length fn)
              | None => rewriteNamedCall fuel' s fn params (idx + String.length fn)
              end
          end
      end
  end.

(** [lowerNamedArgs]; [order] is the order in which the map is visited. *)
Fixpoint lowerNamedArgs (fuel : nat) (order : list (string * list string)) (s : string) : outcome string :=
  match order with
  | [] => Done s
  | (fn, params) :: order' => let? s := rewriteNamedCall fuel s fn params 0 in lowerNamedArgs fuel order' s
  end.

(** ** Inline functions *)

Definition funcBodyEnd (s : string) (from : nat) : nat :=
  code_scan s from 0%Z
    (fun i c depth =>
       if is_open c then Go (S i) (depth + 1)%Z
       else if is_close c then if (depth =? 0)%Z then Stop i else Go (S i) (depth - 1)%Z
       else if (depth =? 0)%Z && Ascii.eqb c "," then Stop i
       else Go (S i) depth)
    (fun _ _ => String.length s).

(** [escapeStringLiteral], code point by code point. *)
Definition escapeStringLiteral (s : string) : string :=
  concat_strings (map (fun r => if (r =? 92)%Z then "\\" else if (r =? 34)%Z then String "\" quote else of_runes [r]) (runes s)).

Fixpoint lowerInlineFunctions (fuel : nat) (s : string) : outcome string :=
  match fuel with
  | O => Unfinished
  | S fuel' =>
      match findKeywordCall s "function" 0 with
      | None => Done s
      | Some idx =>
          let open := skip_blanks s (idx + 8) in
          match matchGroupEnd s open with
          | None => Done s
          | Some paramClose =>
              let params := strings_TrimSpace (slice s (S open) paramClose) in
              let bodyEnd := funcBodyEnd s (S paramClose) in
              let body := strings_TrimSpace (slice s (S paramClose) bodyEnd) in
              if String.eqb body "" then Done s
              else
                let repl := "__mkfunc(" +:+ quote +:+ params +:+ quote +:+ ", " +:+ quote +:+ escapeStringLiteral body +:+ quote +:+ ")" in
                lowerInlineFunctions fuel' (slice s 0 idx +:+ repl +:+ after s bodyEnd)
          end
      end
  end.

Definition parseInlineFunction (s : string) : option (string * string) :=
  match Index s "(" with
  | None => None
  | Some open =>
      match matchGroupEnd s open with
      | None => None
      | Some close =>
          match splitTopLevelCommas (slice s (S open) close) with
          | [] => None
          | p :: _ =>
              let param := strings_TrimSpace p in
              let body := strings_TrimSpace (after s (S close)) in
              if String.eqb param "" || String.eqb body "" then None else Some (param, body)
          end
      end
  end.

(** What a call with an inline predicate becomes, if it is one. *)
Definition predicate_form (fn : string) (args : list string) : outcome (option string) :=
  match args with
  | l :: f :: rest =>
      if HasPrefix (strings_TrimSpace f) "function(" then
        match parseInlineFunction (strings_TrimSpace f) with
        | None => Done None
        | Some (param, body) =>
            let list := strings_TrimSpace l in
            if String.eqb fn "remove" then
              let? b := replaceIdentifier body param "item" in
              Done (Some ("(" +:+ list +:+ ")[not (" +:+ b +:+ ")]"))
            else match rest with
                 | [] => Done None
                 | r :: _ =>
                     let? b := replaceIdentifier body param "__lr" in
                     Done (Some ("(for __lr in " +:+ list +:+ " return (if " +:+ b +:+ " then " +:+
                                 strings_TrimSpace r +:+ " else __lr))"))
                 end
        end
      else Done None
  | _ => Done None
  end.

Fixpoint rewriteInlinePredicate (fuel : nat) (s fn : string) (from : nat) : outcome string :=
  match fuel with
  | O => Unfinished
  | S fuel' =>
      match indexTopLevelCallFrom s fn from with
      | None => Done s
      | Some idx =>
          let j := skip_blanks s (idx + String.length fn) in
          match matchGroupEnd s j with
          | None => Done s
          | Some close =>
              let? form := predicate_form fn (splitTopLevelCommas (slice s (S j) close)) in
              match form with
              | Some repl => rewriteInlinePredicate fuel' (slice s 0 idx +:+ repl +:+ after s (S close)) fn (idx + String.length repl)
              | None => rewriteInlinePredicate fuel' s fn (idx + String.length fn)
              end
          end
      end
  end.

Definition lowerInlinePredicates (fuel : nat) (s : string) : outcome string :=
  let? s := rewriteInlinePredicate fuel s "remove" 0 in rewriteInlinePredicate fuel s "listReplace" 0.

(** ** Sequences *)

(** The positions of the brackets open at a position, the innermost first. *)
Definition push_bracket (i : nat) (c : ascii) (stack : list (nat * ascii)) : list (nat * ascii) :=
  if is_open c then (i, c) :: stack else if is_close c then tail stack else stack.

Definition firstSequenceColon (s : string) : option nat :=
  code_scan s 0 []
    (fun i c stack =>
       if Ascii.eqb c ":" then
         match stack with
         | (_, b) :: _ => if Ascii.eqb b "{" then Go (S i) stack else Stop (Some i)
         | [] => Stop (Some i)
         end
       else Go (S i) (push_bracket i c stack))
    (fun _ _ => None).

Definition seqBoundaryKeywords : list string := ["and"; "or"; "in"; "between"; "return"; "satisfies"; "then"; "else"].
Definition seqKeywordAt (s : string) (i : nat) : option nat :=
  option_map String.length (List.find (matchKeyword s i) seqBoundaryKeywords).

Definition seqGroupStart (s : string) (colon : nat) : nat :=
  code_scan (slice s 0 colon) 0 [] (fun i c stack => Go (S i) (push_bracket i c stack))
    (fun _ stack => match stack with (i, _) :: _ => S i | [] => 0 end).

Definition is_relation (c : ascii) : bool := Ascii.eqb c "<" || Ascii.eqb c ">" || Ascii.eqb c "=" || Ascii.eqb c "!".

(** The loops end at the colon: [i < colon] is tested before each round. *)
Definition seqOperandLeft (s : string) (colon : nat) : nat :=
  let group := seqGroupStart s colon in
  code_scan s group (0%Z, group)
    (fun i c '(depth, start) =>
       if colon <=? i then Stop start
       else if is_open c || is_close c then Go (S i) (deeper c depth, start)
       else if (depth =? 0)%Z && (Ascii.eqb c "," || Ascii.eqb c ":") then Go (S i) (depth, S i)
       else if (depth =? 0)%Z && is_relation c then
         Go (S i) (depth, if (S i <? colon) && char_is (Ascii.eqb "=") s (S i) then i + 2 else S i)
       else if (depth =? 0)%Z then
         match seqKeywordAt s i with
         | Some n => Go (i + n) (depth, i + n)
         | None => Go (S i) (depth, start)
         end
       else Go (S i) (depth, start))
    (fun _ '(_, start) => start).

Definition seqOperandRight (s : string) (from : nat) : nat :=
  code_scan s from 0%Z
    (fun i c depth =>
       if is_open c then Go (S i) (depth + 1)%Z
       else if is_close c then if (depth =? 0)%Z then Stop i else Go (S i) (depth - 1)%Z
       else if (depth =? 0)%Z && (Ascii.eqb c "," || Ascii.eqb c ":" || is_relation c) then Stop i
       else if (depth =? 0)%Z then match seqKeywordAt s i with Some _ => Stop i | None => Go (S i) depth end
       else Go (S i) depth)
    (fun _ _ => String.length s).

(** The end of [s[:j]] without its trailing blanks, not before [lo]. *)
Fixpoint trim_end (s : string) (lo j : nat) : nat :=
  match j with
  | O => O
  | S j' => if (lo <? j) && char_is is_blank s j' then trim_end s lo j' else j
  end.

Fixpoint lowerSequence (fuel : nat) (s : string) : outcome string :=
  match fuel with
  | O => Unfinished
  | S fuel' =>
      match firstSequenceColon s with
      | None => Done s
      | Some colon =>
          let ls := Nat.min colon (skip_blanks s (seqOperandLeft s colon)) in
          let re := trim_end s (S colon) (seqOperandRight s (S colon)) in
          let left := strings_TrimSpace (slice s ls colon) in
          let right := strings_TrimSpace (slice s (S colon) re) in
          if String.eqb left "" || String.eqb right "" then Done s
          else lowerSequence fuel' (slice s 0 ls +:+ "seq(" +:+ left +:+ ", " +:+ right +:+ ", 1)" +:+ after s re)
      end
  end.

(** ** Table indices *)

Definition bracketKeywords : list string :=
  ["in"; "and"; "or"; "not"; "return"; "satisfies"; "then"; "else"; "if"; "instance"; "of"; "between"; "true"; "false"; "null"; "nil"].

(** The start of the bytes before position [j] that satisfy the test. *)
Fixpoint back_while (f : ascii -> bool) (s : string) (j : nat) : nat :=
  match j with
  | O => O
  | S j' => if char_is f s j' then back_while f s j' else j
  end.

Definition isIndexBracket (s : string) (i : nat) : bool :=
  let j := back_while is_blank s i in
  if j =? 0 then false
  else if char_is (fun c => Ascii.eqb c ")" || Ascii.eqb c "]" || Ascii.eqb c quote_char) s (j - 1) then true
  else if negb (char_is isIdentByte s (j - 1)) then false
  else negb (existsb (String.eqb (slice s (back_while isIdentByte s j) j)) bracketKeywords).

Definition firstTwoSlotBracket (s : string) : option nat :=
  code_scan s 0 tt
    (fun i c _ =>
       if Ascii.eqb c "[" && isIndexBracket s i then
         match matchGroupEnd s i with
         | Some close => match indexTopLevelComma (slice s (S i) close) with Some _ => Stop (Some i) | None => Go (S i) tt end
         | None => Go (S i) tt
         end
       else Go (S i) tt)
    (fun _ _ => None).

(** [matchOpenBackward], from the byte before [j] down; 0 without a match. *)
Fixpoint matchOpenBackward (s : string) (j : nat) (depth : Z) : nat :=
  match j with
  | O => O
  | S j' =>
      if char_is is_close s j' then matchOpenBackward s j' (depth + 1)%Z
      else if char_is is_open s j' then if (depth - 1 =? 0)%Z then j' else matchOpenBackward s j' (depth - 1)%Z
      else matchOpenBackward s j' depth
  end.

(** [scanReceiverStart]: the loop at the byte before [j]. *)
Fixpoint receiver_start (fuel : nat) (s : string) (j : nat) : nat :=
  match fuel, j with
  | O, _ | _, O => O
  | S fuel', S j' =>
      if char_is is_close s j' then receiver_start fuel' s (matchOpenBackward s j 0)
      else if char_is (fun c => isIdentByte c || Ascii.eqb c ".") s j' then receiver_start fuel' s j'
      else j
  end.
Definition scanReceiverStart (s : string) (bracket : nat) : nat := receiver_start (S bracket) s bracket.

Fixpoint lowerTableIndex (fuel : nat) (s : string) : outcome string :=
  match fuel with
  | O => Unfinished
  | S fuel' =>
      match firstTwoSlotBracket s with
      | None => Done s
      | Some bracket =>
          match matchGroupEnd s bracket with
          | None => Done s
          | Some close =>
              let inner := slice s (S bracket) close in
              match indexTopLevelComma inner with
              | None => Panics
              | Some comma =>
                  let recvStart := scanReceiverStart s bracket in
                  let? recv := lowerTableIndex fuel' (slice s recvStart bracket) in
                  let first := strings_TrimSpace (slice inner 0 comma) in
                  let? repl :=
                    if String.eqb first "" then
                      let? col := lowerTableIndex fuel' (strings_TrimSpace (after inner (S comma))) in
                      Done ("tableCols(" +:+ recv +:+ ", " +:+ col +:+ ")")
                    else
                      let? row := lowerTableIndex fuel' first in
                      let? col := lowerTableIndex fuel' (strings_TrimSpace (after inner (S comma))) in
                      Done ("tableIndex(" +:+ recv +:+ ", " +:+ row +:+ ", " +:+ col +:+ ")") in
                  lowerTableIndex fuel' (slice s 0 recvStart +:+ repl +:+ after s (S close))
              end
          end
      end
  end.

(** ** Operators of words *)

Definition leftOperandStart (s : string) (between : nat) : nat :=
  code_scan s 0 (0%Z, 0)
    (fun i c '(depth, start) =>
       if between <=? i then Stop start
       else if is_open c || is_close c then Go (S i) (deeper c depth, start)
       else if (depth =? 0)%Z && Ascii.eqb c "," then Go (S i) (depth, S i)
       else if (depth =? 0)%Z && matchKeyword s i "and" then Go (i + 2) (depth, i + 3)
       else if (depth =? 0)%Z && matchKeyword s i "or" then Go (i + 2) (depth, i + 2)
       else Go (S i) (depth, start))
    (fun _ '(_, start) => start).

Definition rightOperandEnd (s : string) (from : nat) : nat :=
  code_scan s from 0%Z
    (fun i c depth =>
       if is_open c then Go (S i) (depth + 1)%Z
       else if is_close c then if (depth =? 0)%Z then Stop i else Go (S i) (depth - 1)%Z
       else if (depth =? 0)%Z && (Ascii.eqb c "," || matchKeyword s i "and" || matchKeyword s i "or") then Stop i
       else Go (S i) depth)
    (fun _ _ => String.length s).

Fixpoint lowerInstanceOf (fuel : nat) (s : string) : outcome string :=
  match fuel with
  | O => Unfinished
  | S fuel' =>
      match indexTopLevelKeyword s "instance" 0 with
      | None => Done s
      | Some idx =>
          match indexTopLevelKeyword s "of" (idx + 8) with
          | None => Done s
          | Some ofIdx =>
              if idx + 8 + 3 <? ofIdx then Done s
              else
                let leftStart := leftOperandStart s idx in
                let left := strings_TrimSpace (slice s leftStart idx) in
                let tStart := skip_blanks s (ofIdx + 2) in
                let i := skip_while isIdentByte s tStart in
                let typeName := slice s tStart i in
                if String.eqb typeName "" then Done s
                else lowerInstanceOf fuel' (slice s 0 leftStart +:+ "__instanceOf(" +:+ left +:+ ", " +:+ quote +:+ typeName +:+
                                            quote +:+ ")" +:+ after s i)
          end
      end
  end.

Fixpoint lowerBetween (fuel : nat) (s : string) : outcome string :=
  match fuel with
  | O => Unfinished
  | S fuel' =>
      match indexTopLevelKeyword s "between" 0 with
      | None => Done s
      | Some idx =>
          let leftStart := leftOperandStart s idx in
          let left := strings_TrimSpace (slice s leftStart idx) in
          let aStart := idx + 7 in
          match indexTopLevelKeyword s "and" aStart with
          | None => Done s
          | Some andIdx =>
              let a := strings_TrimSpace (slice s aStart andIdx) in
              let bEnd := rightOperandEnd s (andIdx + 3) in
              let b := strings_TrimSpace (slice s (andIdx + 3) bEnd) in
              lowerBetween fuel' (slice s 0 leftStart +:+ "(" +:+ left +:+ " >= " +:+ a +:+ " and " +:+ left +:+ " <= " +:+ b +:+ ")" +:+
                                  after s bEnd)
          end
      end
  end.

(** ** Definedness *)

Definition isIdentifier (s : string) : bool :=
  negb (String.eqb s "") && negb (char_is is_digit s 0) && forallb isIdentByte (String.list_ascii_of_string s).

Definition isDottedIdentifierPath (s : string) : bool :=
  negb (String.eqb s "") && forallb (fun part => isIdentifier (strings_TrimSpace part)) (strings_Split s ".").

(** [strings.LastIndexByte], as the length up to and with the byte. *)
Definition splitTrailingKey (arg : string) : option (string * string) :=
  let dot := back_while (fun c => negb (Ascii.eqb c ".")) arg (String.length arg) in
  if (dot <=? 1) || (dot =? String.length arg) then None
  else
    let parent := strings_TrimSpace (slice arg 0 (dot - 1)) in
    let leaf := strings_TrimSpace (after arg dot) in
    if negb (isDottedIdentifierPath parent) || negb (isIdentifier leaf) then None else Some (parent, leaf).

Definition isDefinedReplacement (arg : string) : string :=
  if String.eqb arg "" then ""
  else match splitTrailingKey arg with
       | Some (parent, leaf) => "__hasKey(" +:+ parent +:+ ", " +:+ quote +:+ leaf +:+ quote +:+ ")"
       | None => "__isBound(" +:+ arg +:+ ")"
       end.

(** The loop of [lowerIsDefined], on a source whose groups are lowered. *)
Fixpoint lower_defined (fuel : nat) (s : string) : outcome string :=
  match fuel with
  | O => Unfinished
  | S fuel' =>
      match indexTopLevelCall s "isDefined" with
      | None => Done s
      | Some idx =>
          let j := skip_blanks s (idx + 9) in
          match matchGroupEnd s j with
          | None => Done s
          | Some end_ =>
              let repl := isDefinedReplacement (strings_TrimSpace (slice s (S j) end_)) in
              if String.eqb repl "" then Done s else lower_defined fuel' (slice s 0 idx +:+ repl +:+ after s (S end_))
          end
      end
  end.
Fixpoint lowerIsDefined (fuel : nat) (s : string) : outcome string :=
  match fuel with
  | O => Unfinished
  | S fuel' => let? s := mapTopLevelGroups s (lowerIsDefined fuel') in lower_defined fuel s
  end.

(** ** Conditionals and comprehensions *)

Fixpoint convertConditionals (fuel : nat) (s : string) : outcome string :=
  match fuel with
  | O => Unfinished
  | S fuel' =>
      let? s := mapTopLevelGroups s (convertConditionals fuel') in
      match indexTopLevelKeyword s "if" 0 with
      | None => Done s
      | Some ifIdx =>
          match indexTopLevelKeyword s "then" (ifIdx + 2) with
          | None => Done s
          | Some thenIdx =>
              match indexTopLevelKeyword s "else" (thenIdx + 4) with
              | None => Done s
              | Some elseIdx =>
                  let? cond := convertConditionals fuel' (strings_TrimSpace (slice s (ifIdx + 2) thenIdx)) in
                  let? thenB := convertConditionals fuel' (strings_TrimSpace (slice s (thenIdx + 4) elseIdx)) in
                  let? elseB := convertConditionals fuel' (strings_TrimSpace (after s (elseIdx + 4))) in
                  Done (slice s 0 ifIdx +:+ "(if " +:+ cond +:+ " { " +:+ thenB +:+ " } else { " +:+ elseB +:+ " })")
              end
          end
      end
  end.

Definition parse_iterator (part : string) : option (string * string) :=
  match indexTopLevelKeyword part "in" 0 with
  | None => None
  | Some inIdx =>
      let name := strings_TrimSpace (slice part 0 inIdx) in
      let list := strings_TrimSpace (after part (inIdx + 2)) in
      if String.eqb name "" || String.eqb list "" then None else Some (name, list)
  end.
Definition parseIterators (clause : string) : option (list (string * string)) := mapM parse_iterator (splitTopLevelCommas clause).

Section Comprehensions.
(** [lowerComprehensions] of the parts *)
Variable lower : string -> outcome string.

Fixpoint buildForExpr (iters : list (string * string)) (body : string) : outcome string :=
  let? body := lower body in
  match iters with
  | [] => Panics
  | [(name, list)] =>
      let? l := lower list in
      Done ("__wraplist(map(__items(" +:+ l +:+ "), let " +:+ name +:+ " = #; " +:+ body +:+ "))")
  | (name, list) :: iters' =>
      let? inner := buildForExpr iters' body in
      let? l := lower list in
      Done ("flatten(__wraplist(map(__items(" +:+ l +:+ "), let " +:+ name +:+ " = #; " +:+ inner +:+ ")))")
  end.

Fixpoint buildQuantifier (iters : list (string * string)) (cond combiner : string) : outcome string :=
  let? cond := lower cond in
  match iters with
  | [] => Panics
  | (name, list) :: iters' =>
      let? body := match iters' with
                   | [] => Done ("__truthy(" +:+ cond +:+ ")")
                   | _ => let? inner := buildQuantifier iters' cond combiner in Done ("__truthy(" +:+ inner +:+ ")")
                   end in
      let? l := lower list in
      Done (combiner +:+ "(map(__items(" +:+ l +:+ "), let " +:+ name +:+ " = #; " +:+ body +:+ "))")
  end.

(** [rewriteFor] and [rewriteQuantifier]: the clause between the keyword at
    [idx] and the second keyword, and the operand after it. *)
Definition rewrite_clause (s : string) (idx : nat) (kw kw2 : string) (build : list (string * string) -> string -> outcome string) : outcome (option string) :=
  match indexTopLevelKeyword s kw2 (idx + String.length kw) with
  | None => Done None
  | Some idx2 =>
      match parseIterators (slice s (idx + String.length kw) idx2) with
      | None => Done None
      | Some iters =>
          let bodyEnd := rightOperandEnd s (idx2 + String.length kw2) in
          let body := strings_TrimSpace (slice s (idx2 + String.length kw2) bodyEnd) in
          let? built := build iters body in
          let? post := lower (after s bodyEnd) in
          Done (Some (slice s 0 idx +:+ built +:+ post))
      end
  end.
Definition rewriteFor (s : string) (idx : nat) : outcome (option string) := rewrite_clause s idx "for" "return" buildForExpr.
Definition rewriteQuantifier (s : string) (idx : nat) (kw combiner : string) : outcome (option string) :=
  rewrite_clause s idx kw "satisfies" (fun iters cond => buildQuantifier iters cond combiner).
End Comprehensions.

(** The first of the rewritings that applies. *)
Definition try_rewrite (s : string) (kw : string) (rewrite : nat -> outcome (option string)) (next : outcome string) : outcome string :=
  match indexTopLevelKeyword s kw 0 with
  | None => next
  | Some idx => let? r := rewrite idx in match r with Some r => Done r | None => next end
  end.

Fixpoint lowerComprehensions (fuel : nat) (s : string) : outcome string :=
  match fuel with
  | O => Unfinished
  | S fuel' =>
      let lower := lowerComprehensions fuel' in
      let? s := mapTopLevelGroups s lower in
      try_rewrite s "for" (rewriteFor lower s)
        (try_rewrite s "some" (fun idx => rewriteQuantifier lower s idx "some" "__anyTrue")
          (try_rewrite s "every" (fun idx => rewriteQuantifier lower s idx "every" "__allTrue") (Done s)))
  end.

(** ** All passes *)

Definition normalise (fuel : nat) (order : list (string * list string)) (source : string) : outcome string :=
  let? s := eqNorm source in
  let? s := lowerNamedArgs fuel order s in
  let? s := lowerInlinePredicates fuel s in
  let? s := lowerInlineFunctions fuel s in
  let? s := lowerSequence fuel s in
  let? s := lowerTableIndex fuel s in
  let? s := lowerInstanceOf fuel s in
  let? s := lowerIsDefined fuel s in
  let? s := rewriteIdentifiers s in
  let? s := lowerRanges fuel s in
  let? s := lowerBetween fuel s in
  let? s := lowerComprehensions fuel s in
  let? s := convertConditionals fuel s in
  captureDecimals s.
