(* ===== verification/Patch.v ===== *)
(** * The rewriting of syntax trees

    Models [core/patch.go]: the visitor that rewrites a parsed expression into
    the calls the engine's functions answer, before it is type-checked and
    compiled.  The syntax trees and their traversal belong to the expression
    library: the node kinds are those [patch.go] names, and [ast.Walk] is the
    class [Walker], which says that it visits in post-order. *)

From Stdlib Require Import SpecFloat.
From S2P Require Import Prelude Decimal GoText GoTime Values Normalise.
#[global] Open Scope Z_scope.

Module Ast.
Section Ast.
Context {DO : DecimalOps}.

(** ** Nodes *)

(** [ast.Node]; a kind [patch.go] does not name is [OtherNode] with its children. *)
Inductive Node : Type :=
| IntegerNode (value : Z)
| FloatNode (value : spec_float)
| StringNode (value : string)
| BoolNode (value : bool)
| NilNode
| ConstantNode (value : BlValue)
| IdentifierNode (value : string)
| UnaryNode (operator : string) (node : Node)
| BinaryNode (operator : string) (left right : Node)
| ConditionalNode (ternary : bool) (cond exp1 exp2 : Node)
| MemberNode (node property : Node) (method : bool)
| CallNode (callee : Node) (arguments : list Node)
| BuiltinNode (name : string) (arguments : list Node)
| PredicateNode (node : Node)
| PointerNode
| VariableDeclaratorNode (name : string) (value expr : Node)
| ArrayNode (nodes : list Node)
| MapNode (pairs : list Node)
| PairNode (key value : Node)
| OtherNode (kind : string) (nodes : list Node).

(** The children of a node in the order of its fields. *)
Definition children (n : Node) : list Node :=
  match n with
  | UnaryNode _ a | PredicateNode a => [a]
  | BinaryNode _ a b | MemberNode a b _ | VariableDeclaratorNode _ a b | PairNode a b => [a; b]
  | ConditionalNode _ a b c => [a; b; c]
  | CallNode f args => f :: args
  | BuiltinNode _ ns | ArrayNode ns | MapNode ns | OtherNode _ ns => ns
  | _ => []
  end.

(** The node with other children, as many as it has. *)
Definition with_children (n : Node) (kids : list Node) : Node :=
  match n, kids with
  | UnaryNode op _, [a] => UnaryNode op a
  | PredicateNode _, [a] => PredicateNode a
  | BinaryNode op _ _, [a; b] => BinaryNode op a b
  | MemberNode _ _ m, [a; b] => MemberNode a b m
  | VariableDeclaratorNode x _ _, [a; b] => VariableDeclaratorNode x a b
  | PairNode _ _, [a; b] => PairNode a b
  | ConditionalNode t _ _ _, [a; b; c] => ConditionalNode t a b c
  | CallNode _ _, f :: args => CallNode f args
  | BuiltinNode b _, ns => BuiltinNode b ns
  | ArrayNode _, ns => ArrayNode ns
  | MapNode _, ns => MapNode ns
  | OtherNode k _, ns => OtherNode k ns
  | _, _ => n
  end.

Section Induction.
Variable P : Node -> Prop.
Hypothesis step : forall n, Forall P (children n) -> P n.

(** Induction with the hypothesis for every child. *)
Fixpoint Node_children_ind (n : Node) : P n :=
  let all := fix all (ns : list Node) : Forall P ns :=
    match ns with
    | [] => Forall_nil_2 P
    | m :: ns' => Forall_cons_2 P m ns' (Node_children_ind m) (all ns')
    end in
  step n
    match n return Forall P (children n) with
    | UnaryNode _ a => Forall_cons_2 P a [] (Node_children_ind a) (Forall_nil_2 P)
    | PredicateNode a => Forall_cons_2 P a [] (Node_children_ind a) (Forall_nil_2 P)
    | BinaryNode _ a b => Forall_cons_2 P a [b] (Node_children_ind a) (Forall_cons_2 P b [] (Node_children_ind b) (Forall_nil_2 P))
    | MemberNode a b _ => Forall_cons_2 P a [b] (Node_children_ind a) (Forall_cons_2 P b [] (Node_children_ind b) (Forall_nil_2 P))
    | VariableDeclaratorNode _ a b => Forall_cons_2 P a [b] (Node_children_ind a) (Forall_cons_2 P b [] (Node_children_ind b) (Forall_nil_2 P))
    | PairNode a b => Forall_cons_2 P a [b] (Node_children_ind a) (Forall_cons_2 P b [] (Node_children_ind b) (Forall_nil_2 P))
    | ConditionalNode _ a b c => Forall_cons_2 P a [b; c] (Node_children_ind a)
        (Forall_cons_2 P b [c] (Node_children_ind b) (Forall_cons_2 P c [] (Node_children_ind c) (Forall_nil_2 P)))
    | CallNode f args => Forall_cons_2 P f args (Node_children_ind f) (all args)
    | BuiltinNode _ ns | ArrayNode ns | MapNode ns | OtherNode _ ns => all ns
    | _ => Forall_nil_2 P
    end.
End Induction.

End Ast.
End Ast.
Import Ast.

(** ** Traversal *)

Section Walk.
Context {DO : DecimalOps}.

(** A visitor: [Visit] may replace the node, and has a state of its own. *)
Definition Visitor (S : Type) : Type := S -> Node -> S * Node.

(** One after the other, the state threaded. *)
Fixpoint each {S} (f : S -> Node -> S * Node) (s : S) (ns : list Node) : S * list Node :=
  match ns with
  | [] => (s, [])
  | n :: ns' => let '(s1, m) := f s n in let '(s2, ms) := each f s1 ns' in (s2, m :: ms)
  end.

End Walk.

(** [ast.Walk]: the children from the first to the last, each replaced by what
    its visits left, then the node itself. *)
Class Walker {DO : DecimalOps} : Type := {
  Walk : forall {S}, Visitor S -> S -> Node -> S * Node;
  Walk_postorder {S} (v : Visitor S) s n :
    Walk v s n = let '(s', kids) := each (Walk v) s (children n) in v s' (with_children n kids)
}.

Section Patch.
Context {DO : DecimalOps} {W : Walker}.

(** ** Node constructors *)

Definition ident (name : string) : Node := IdentifierNode name.
Definition constNode (v : BlValue) : Node := ConstantNode v.
Definition call (fn : string) (args : list Node) : Node := CallNode (ident fn) args.

(** ** Tables of names *)

(** [binaryDispatch] *)
Definition binaryDispatch : list (string * string) :=
  [("+", "__add"); ("-", "__sub"); ("*", "__mul"); ("/", "__div"); ("**", "__pow"); ("^", "__pow");
   ("<", "__lt"); ("<=", "__le"); (">", "__gt"); (">=", "__ge"); ("==", "__eq"); ("!=", "__ne")]%string.

(** [booleanOpNames] *)
Definition booleanOpNames : list string :=
  ["__lt"; "__le"; "__gt"; "__ge"; "__eq"; "__ne"; "__blAnd"; "__blOr"; "__not"; "__in"; "__truthy"]%string.

(** [tableMethodBackings] *)
Definition tableMethodBackings : list (string * string) :=
  [("select", "__tableSelect"); ("rename", "__tableRename"); ("distinct", "__tableDistinct"); ("sort", "__tableSort");
   ("slice", "__tableSlice"); ("toList", "__tableToList"); ("toDict", "__tableToDict"); ("toValue", "__tableToValue");
   ("union", "union"); ("join", "join")]%string.

(** [stringProperty] *)
Definition stringProperty (prop : Node) : option string :=
  match prop with
  | StringNode s => Some s
  | ConstantNode (BlString s) => Some s
  | IdentifierNode s => Some s
  | _ => None
  end.

(** [validIdentifier] *)
Definition validIdentifier (name : string) : bool :=
  match name with
  | EmptyString => false
  | String c rest => isIdentStart c && forallb isIdentByte (String.list_ascii_of_string rest)
  end.

(** ** Row expressions *)

(** [referencesItem] *)
Definition referencesItem (node : Node) : bool :=
  fst (Walk (fun found n => (match n with IdentifierNode v => found || String.eqb v "item" | _ => found end, n)) false node).

(** [isFilterPredicate] *)
Definition isFilterPredicate (node : Node) : bool :=
  referencesItem node ||
  match node with
  | ConditionalNode _ _ _ _ => true
  | CallNode (IdentifierNode f) _ => bool_decide (f ∈ booleanOpNames)
  | _ => false
  end.

(** [rewriteRowColumns] *)
Fixpoint rewriteRowColumns (node : Node) : Node :=
  match node with
  | IdentifierNode v =>
      if String.eqb v "item" then node else call "componentAccess" [ident "item"; constNode (BlString v)]
  | CallNode callee args => CallNode callee (map rewriteRowColumns args)
  | BuiltinNode name args => BuiltinNode name (map rewriteRowColumns args)
  | ConditionalNode t c e1 e2 => ConditionalNode t (rewriteRowColumns c) (rewriteRowColumns e1) (rewriteRowColumns e2)
  | MemberNode n p m => MemberNode (rewriteRowColumns n) p m
  | ArrayNode ns => ArrayNode (map rewriteRowColumns ns)
  | _ => node
  end.

(** The closure [{let item = #; body}]. *)
Definition row_closure (body : Node) : Node := PredicateNode (VariableDeclaratorNode "item" PointerNode body).

(** [lowerFilter] *)
Definition lowerFilter (recv pred : Node) (negate : bool) : Node :=
  let rewritten := rewriteRowColumns pred in
  let body := if negate then call "__truthy" [call "__not" [rewritten]] else call "__truthy" [rewritten] in
  let filtered := BuiltinNode "filter" [call "__items" [recv]; row_closure body] in
  call "__retable" [recv; filtered].

(** [lowerWithColumn] *)
Definition lowerWithColumn (recv nameNode exprNode : Node) : Node :=
  let mapped := BuiltinNode "map" [call "__items" [recv]; row_closure (rewriteRowColumns exprNode)] in
  call "__withColumn" [recv; nameNode; mapped].

(** The arguments [lowerGroupAgg] makes of the aggregates, in pairs; a last one
    alone is dropped. *)
Fixpoint agg_args (args : list Node) : list Node :=
  match args with
  | name :: e :: args' => name :: rewriteRowColumns e :: agg_args args'
  | _ => []
  end.

(** [lowerGroupAgg] *)
Definition lowerGroupAgg (recv : Node) (keys aggArgs : list Node) : Node :=
  let dictArgs := concat (map (fun k => [k; call "__groupKey" [ident "item"; k]]) keys) ++ agg_args aggArgs in
  let groups := call "__groups" [recv; call "__mklist" keys] in
  call "__wraptable" [BuiltinNode "map" [groups; row_closure (call "__mkdict" dictArgs)]].

(** ** Dictionary literals *)

(** The entries [lowerMap] collects: key, whether it is bound, value. *)
Definition map_entries (pairs : list Node) : list (string * bool * Node) :=
  omap (fun pr =>
    match pr with
    | PairNode k v => (fun name => (name, validIdentifier name, v)) <$> stringProperty k
    | _ => None
    end) pairs.

Definition dict_args (entries : list (string * bool * Node)) : list Node :=
  concat (map (fun '(key, isIdent, value) =>
    [constNode (BlString key); if isIdent : bool then ident key else value]) entries).

(** [lowerMap] *)
Definition lowerMap (pairs : list Node) : Node :=
  let entries := map_entries pairs in
  fold_right (fun '(key, isIdent, value) inner =>
    if isIdent : bool then VariableDeclaratorNode key value inner else inner)
    (call "__mkdict" (dict_args entries)) entries.

(** ** Operators *)

(** The name of the [n]-th short-circuit binding: [fmt.Sprintf("__sc%d", n)]. *)
Definition sc_name (n : Z) : string := "__sc" +:+ pretty n.

(** [lowerLogical]; the patcher's counter is passed along. *)
Definition lowerLogical (counter : Z) (left right : Node) (guardFn combineFn : string) : Z * Node :=
  let counter := counter + 1 in
  let name := sc_name counter in
  (counter,
   VariableDeclaratorNode name left
     (ConditionalNode true (call guardFn [ident name]) (call "__val" [ident name])
        (call combineFn [ident name; right]))).

(** [patchUnary] *)
Definition patchUnary (op : string) (n : Node) : Node :=
  if String.eqb op "-" then call "__neg" [n]
  else if String.eqb op "not" || String.eqb op "!" then call "__not" [n]
  else if String.eqb op "+" then n
  else UnaryNode op n.

(** [patchBinary] *)
Definition patchBinary (counter : Z) (op : string) (l r : Node) : Z * Node :=
  if String.eqb op "and" || String.eqb op "&&" then lowerLogical counter l r "__isFalse" "__blAnd"
  else if String.eqb op "or" || String.eqb op "||" then lowerLogical counter l r "__isTrue" "__blOr"
  else (counter,
        if String.eqb op "in" then call "__in" [l; r]
        else match assoc op binaryDispatch with
             | Some fn => call fn [l; r]
             | None => BinaryNode op l r
             end).

(** ** Members and calls *)

(** [patchMember] *)
Definition patchMember (n p : Node) (method : bool) : Node :=
  if method then MemberNode n p method
  else match stringProperty p with
       | Some name => call "componentAccess" [n; constNode (BlString name)]
       | None => if isFilterPredicate p then lowerFilter n p false else call "__index" [n; p]
       end.

(** The method name and the receiver of a callee [recv.name]. *)
Definition method_of (callee : Node) : option (Node * string) :=
  match callee with
  | MemberNode recv p _ => (fun name => (recv, name)) <$> stringProperty p
  | _ => None
  end.

(** The receiver [t.groupBy(keys)] of a call. *)
Definition group_receiver (recv : Node) : option (Node * list Node) :=
  match recv with
  | CallNode callee keys =>
      match method_of callee with
      | Some (t, name) => if String.eqb name "groupBy" then Some (t, keys) else None
      | None => None
      end
  | _ => None
  end.

(** [patchCall] *)
Definition patchCall (callee : Node) (args : list Node) : Node :=
  let unchanged := CallNode callee args in
  match method_of callee with
  | None => unchanged
  | Some (recv, name) =>
      match assoc name tableMethodBackings with
      | Some backing => call backing (recv :: args)
      | None =>
          if String.eqb name "filter" then match args with [p] => lowerFilter recv p false | _ => unchanged end
          else if String.eqb name "filterOut" then match args with [p] => lowerFilter recv p true | _ => unchanged end
          else if String.eqb name "withColumn" then
            match args with [nameNode; exprNode] => lowerWithColumn recv nameNode exprNode | _ => unchanged end
          else if String.eqb name "agg" then
            match group_receiver recv with Some (t, keys) => lowerGroupAgg t keys args | None => unchanged end
          else unchanged
      end
  end.

(** ** The visitor *)

(** [feelPatcher.Visit]: the counter and the node after the visit. *)
Definition Visit (counter : Z) (node : Node) : Z * Node :=
  match node with
  | IntegerNode v => (counter, constNode (BlNumber (dNewFromInt v)))
  | FloatNode f => (counter, constNode (BlNumber (dNewFromFloat f)))
  | StringNode s => (counter, constNode (BlString s))
  | BoolNode b => (counter, constNode (BlBoolean b))
  | NilNode => (counter, constNode BlNull)
  | UnaryNode op n => (counter, patchUnary op n)
  | BinaryNode op l r => patchBinary counter op l r
  | ConditionalNode t c e1 e2 => (counter, ConditionalNode t (call "__truthy" [c]) e1 e2)
  | MemberNode n p m => (counter, patchMember n p m)
  | CallNode callee args => (counter, patchCall callee args)
  | ArrayNode ns => (counter, call "__mklist" ns)
  | MapNode pairs => (counter, lowerMap pairs)
  | _ => (counter, node)
  end.

(** What [expr.Patch(newFeelPatcher())] makes of a tree: the walk of a visitor
    whose counter starts at 0. *)
Definition patch_from (counter : Z) (node : Node) : Z * Node := Walk Visit counter node.
Definition patch (node : Node) : Node := snd (patch_from 0 node).

End Patch.

(** ** A walk in post-order *)

Section PostOrder.
Context {DO : DecimalOps}.

Fixpoint post_order {S} (v : Visitor S) (s : S) (n : Node) : S * Node :=
  let all := fix all (s : S) (ns : list Node) : S * list Node :=
    match ns with
    | [] => (s, [])
    | m :: ns' => let '(s1, m') := post_order v s m in let '(s2, ms) := all s1 ns' in (s2, m' :: ms)
    end in
  match n with
  | UnaryNode op a => let '(s, a) := post_order v s a in v s (UnaryNode op a)
  | PredicateNode a => let '(s, a) := post_order v s a in v s (PredicateNode a)
  | BinaryNode op a b => let '(s, a) := post_order v s a in let '(s, b) := post_order v s b in v s (BinaryNode op a b)
  | MemberNode a b m => let '(s, a) := post_order v s a in let '(s, b) := post_order v s b in v s (MemberNode a b m)
  | VariableDeclaratorNode x a b =>
      let '(s, a) := post_order v s a in let '(s, b) := post_order v s b in v s (VariableDeclaratorNode x a b)
  | PairNode a b => let '(s, a) := post_order v s a in let '(s, b) := post_order v s b in v s (PairNode a b)
  | ConditionalNode t a b c =>
      let '(s, a) := post_order v s a in let '(s, b) := post_order v s b in let '(s, c) := post_order v s c in
      v s (ConditionalNode t a b c)
  | CallNode f args => let '(s, f) := post_order v s f in let '(s, args) := all s args in v s (CallNode f args)
  | BuiltinNode b ns => let '(s, ns) := all s ns in v s (BuiltinNode b ns)
  | ArrayNode ns => let '(s, ns) := all s ns in v s (ArrayNode ns)
  | MapNode ns => let '(s, ns) := all s ns in v s (MapNode ns)
  | OtherNode k ns => let '(s, ns) := all s ns in v s (OtherNode k ns)
  | _ => v s n
  end.

Lemma post_order_eq {S} (v : Visitor S) s n :
  post_order v s n = let '(s', kids) := each (post_order v) s (children n) in v s' (with_children n kids).
Proof.
  assert (Hall : forall ns s, (fix all (s : S) (ns : list Node) : S * list Node :=
      match ns with
      | [] => (s, [])
      | m :: ns' => let '(s1, m') := post_order v s m in let '(s2, ms) := all s1 ns' in (s2, m' :: ms)
      end) s ns = each (post_order v) s ns).
  { intros ns. induction ns as [|m ns IH]; intros s0; [done|]. cbn [each].
    destruct (post_order v s0 m) as [s1 m']. by rewrite IH. }
  destruct n; cbn [post_order children each];
    repeat match goal with |- context [post_order v ?s ?n] => destruct (post_order v s n) end; rewrite ?Hall;
    repeat match goal with |- context [each ?f ?s ?ns] => destruct (each f s ns) end; done.
Qed.

#[export] Instance post_order_walker : Walker := {
  Walk _ v s n := post_order v s n;
  Walk_postorder _ v s n := post_order_eq v s n
}.

End PostOrder.

(** * The shape of a rewritten tree

    What [patch] guarantees of the tree it hands to the type checker, whatever
    the source: no literal, operator or bracket of the expression library is
    left where the engine has a function of its own, the conditionals branch on
    a Go [bool], and the bindings it makes for [and] and [or] are not declared
    again inside their own scope. *)

Import Ast.

(** A property of every element of an explicit list. *)
Ltac foralls := repeat first [apply Forall_nil_2 | apply Forall_cons_2].

Section Shape.
Context {DO : DecimalOps}.

(** The operators the engine has functions for. *)
Definition patched_unary : list string := ["-"; "not"; "!"; "+"]%string.
Definition patched_binary : list string := ["and"; "&&"; "or"; "||"; "in"]%string ++ map fst binaryDispatch.
(** The functions that return a Go [bool]. *)
Definition guard_names : list string := ["__truthy"; "__isFalse"; "__isTrue"]%string.

(** Is this node one the lowered form allows? *)
Definition shape (n : Node) : bool :=
  match n with
  | IntegerNode _ | FloatNode _ | StringNode _ | BoolNode _ | NilNode | ArrayNode _ | MapNode _ => false
  | UnaryNode op _ => negb (bool_decide (op ∈ patched_unary))
  | BinaryNode op _ _ => negb (bool_decide (op ∈ patched_binary))
  | ConditionalNode _ (CallNode (IdentifierNode f) _) _ _ => bool_decide (f ∈ guard_names)
  | ConditionalNode _ _ _ _ => false
  | MemberNode _ _ method => method
  | _ => true
  end.

(** Every node has an allowed shape and every binding is one [L] allows. *)
Inductive good (L : string -> Node -> Node -> Prop) : Node -> Prop :=
| Good m :
    shape m = true ->
    (forall x e b, m = VariableDeclaratorNode x e b -> L x e b) ->
    Forall (good L) (children m) ->
    good L m.

Definition lowered : Node -> Prop := good (fun _ _ _ => True).

Inductive subterm (m : Node) : Node -> Prop :=
| subterm_refl : subterm m m
| subterm_child n k : k ∈ children n -> subterm m k -> subterm m n.

(** A binding of [x] occurs in the tree. *)
Definition declares (x : string) (n : Node) : Prop := exists e b, subterm (VariableDeclaratorNode x e b) n.

Section Good.
Context {L : string -> Node -> Node -> Prop}.

Lemma good_children m : good L m -> Forall (good L) (children m).
Proof. by inversion 1. Qed.

Lemma good_leaf m : shape m = true -> children m = [] -> good L m.
Proof. intros Hs Hc. constructor; [done| |by rewrite Hc]. intros x e b ->. done. Qed.

Lemma good_call f args : Forall (good L) args -> good L (call f args).
Proof. intros H. constructor; [done..|]. constructor; [|done]. by apply good_leaf. Qed.

Lemma good_builtin f args : Forall (good L) args -> good L (BuiltinNode f args).
Proof. by constructor. Qed.

Lemma good_let x e b : L x e b -> good L e -> good L b -> good L (VariableDeclaratorNode x e b).
Proof. intros HL He Hb. constructor; [done|by intros ??? [= <- <- <-]|]. by foralls. Qed.

Lemma good_conditional t f args e1 e2 :
  f ∈ guard_names -> Forall (good L) args -> good L e1 -> good L e2 -> good L (ConditionalNode t (call f args) e1 e2).
Proof.
  intros Hf Ha H1 H2. constructor; [by apply bool_decide_eq_true|done|].
  foralls; try done. by apply good_call.
Qed.

Lemma good_weaken (L' : string -> Node -> Node -> Prop) :
  (forall x e b, L x e b -> L' x e b) -> forall m, good L m -> good L' m.
Proof.
  intros HL. induction m as [m IH] using Node_children_ind. inversion 1 as [m' Hs Hl Hk]; subst.
  constructor; [done|by eauto|]. rewrite Forall_forall in *. auto.
Qed.

Lemma good_subterm m n : good L n -> subterm m n -> good L m.
Proof.
  intros Hg Hs. induction Hs as [|n k Hk Hs IH]; [done|]. apply IH. apply good_children in Hg.
  by rewrite Forall_forall in Hg; apply Hg.
Qed.

End Good.
End Shape.
Create HintDb lowered.
#[export] Hint Resolve good_call good_builtin good_let good_conditional good_leaf : lowered.
#[export] Hint Constructors Forall : lowered.

Section Rewriting.
Context {DO : DecimalOps} {L : string -> Node -> Node -> Prop}.

Lemma Forall_map_children (f : Node -> Node) (ns : list Node) :
  Forall (fun n => good L n -> good L (f n)) ns -> Forall (good L) ns -> Forall (good L) (map f ns).
Proof. induction 1; inversion 1; simpl; eauto with lowered. Qed.

(** Resolving columns keeps the form: bindings are not entered. *)
Lemma good_rewriteRowColumns n : good L n -> good L (rewriteRowColumns n).
Proof.
  induction n as [n IH] using Node_children_ind. intros Hg. pose proof (good_children _ Hg) as Hk.
  destruct n; try exact Hg; cbn [rewriteRowColumns children] in *.
  - destruct (String.eqb value "item"); [done|]. apply good_call. eauto 6 with lowered.
  - inversion Hg as [m Hs Hl _]; subst. inv IH. inv Hk.
    destruct n1 as [| | | | | | | | | | |[] args| | | | | | | |]; try discriminate.
    cbn in Hs. apply bool_decide_eq_true in Hs.
    repeat match goal with H : Forall _ (_ :: _) |- _ => inv H end.
    apply (good_conditional _ value); [done| |auto..].
    match goal with H : good L (CallNode _ args) -> _, H' : good L (CallNode _ args) |- _ => apply H, good_children in H' end.
    by match goal with H : Forall (good L) (children _) |- _ => inv H end.
  - inversion Hg as [m Hs _ _]; subst. inv IH. inv Hk.
    repeat match goal with H : Forall _ (_ :: _) |- _ => inv H end.
    constructor; [exact Hs|done|]. cbn. auto with lowered.
  - inversion Hg as [m Hs _ _]; subst. inv IH. inv Hk. constructor; [done..|]. cbn. constructor; [done|].
    by apply Forall_map_children.
  - apply good_builtin, Forall_map_children; done.
  - inversion Hg as [m Hs _ _]; subst. discriminate.
Qed.

Lemma good_row_closure body : (forall e b, L "item" e b) -> good L body -> good L (row_closure body).
Proof. intros HL Hb. constructor; [done..|]. foralls. apply good_let; [done|by apply good_leaf|done]. Qed.

Lemma good_lowerFilter recv p neg :
  (forall e b, L "item" e b) -> good L recv -> good L p -> good L (lowerFilter recv p neg).
Proof.
  intros HL Hr Hp. apply good_rewriteRowColumns in Hp. unfold lowerFilter. cbv zeta.
  apply good_call. foralls; [done|]. apply good_builtin. foralls; [by eauto with lowered|].
  apply good_row_closure; [done|]. destruct neg; eauto 8 with lowered.
Qed.

Lemma good_lowerWithColumn recv nm e :
  (forall e b, L "item" e b) -> good L recv -> good L nm -> good L e -> good L (lowerWithColumn recv nm e).
Proof.
  intros HL Hr Hn He. apply good_rewriteRowColumns in He. unfold lowerWithColumn. cbv zeta.
  apply good_call. foralls; [done..|]. apply good_builtin. foralls; [by eauto with lowered|].
  by apply good_row_closure.
Qed.

Lemma good_agg_args args : Forall (good L) args -> Forall (good L) (agg_args args).
Proof.
  revert args. fix IH 1. intros [|a [|b args]] H; [constructor..|]. inv H. match goal with H : Forall _ (_ :: _) |- _ => inv H end.
  constructor; [done|]. constructor; [by apply good_rewriteRowColumns|]. by apply IH.
Qed.

Lemma good_lowerGroupAgg recv keys args :
  (forall e b, L "item" e b) -> good L recv -> Forall (good L) keys -> Forall (good L) args ->
  good L (lowerGroupAgg recv keys args).
Proof.
  intros HL Hr Hk Ha. unfold lowerGroupAgg. cbv zeta. apply good_call. foralls. apply good_builtin.
  foralls; [by eauto 8 with lowered|]. apply good_row_closure; [done|]. apply good_call, Forall_app. split.
  - rewrite Forall_concat, Forall_map. eapply Forall_impl; [exact Hk|]. intros k Hg. eauto 10 with lowered.
  - by apply good_agg_args.
Qed.

(** The entries of a dictionary literal come from its pairs. *)
Lemma map_entries_spec pairs key b v :
  (key, b, v) ∈ map_entries pairs -> exists k, PairNode k v ∈ pairs /\ stringProperty k = Some key.
Proof.
  unfold map_entries. rewrite list_elem_of_omap. intros (pr & Hin & He). destruct pr; try discriminate.
  destruct (stringProperty pr1) as [name|] eqn:Es; [|discriminate]. cbn in He. inv He. eauto.
Qed.

Lemma good_lowerMap pairs :
  (forall k key v b, PairNode k v ∈ pairs -> stringProperty k = Some key -> L key v b) ->
  Forall (good L) pairs -> good L (lowerMap pairs).
Proof.
  intros HL Hp. unfold lowerMap. cbv zeta.
  assert (Hv : forall key b v, (key, b, v) ∈ map_entries pairs -> (forall i, L key v i) /\ good L v).
  { intros key b v Hin. apply map_entries_spec in Hin as (k & Hin & Hs). split; [eauto|].
    rewrite Forall_forall in Hp. apply Hp, good_children in Hin. inv Hin. by match goal with H : Forall _ [_] |- _ => inv H end. }
  assert (Ha : good L (call "__mkdict" (dict_args (map_entries pairs)))).
  { apply good_call. unfold dict_args. rewrite Forall_concat, Forall_map, Forall_forall. intros [[key b] v] Hin.
    apply Hv in Hin as [_ Hg]. destruct b; eauto 6 with lowered. }
  revert Ha. generalize (call "__mkdict" (dict_args (map_entries pairs))) as inner. intros inner Ha.
  induction (map_entries pairs) as [|[[key b] v] es IH]; [done|]. cbn. destruct (Hv key b v) as [HLk Hg]; [left|].
  assert (Hi := IH (fun key b v H => Hv key b v (list_elem_of_further _ _ _ H))). destruct b; [|done].
  by apply good_let.
Qed.

End Rewriting.

(** ** One visit *)

Section Visit.
Context {DO : DecimalOps} {W : Walker} {L : string -> Node -> Node -> Prop}.
Hypothesis L_item : forall e b, L "item" e b.

Lemma good_patchUnary op n : good L n -> good L (patchUnary op n).
Proof.
  intros Hn. unfold patchUnary.
  destruct (String.eqb_spec op "-"); [by eauto with lowered|].
  destruct (String.eqb_spec op "not"); cbn [orb]; [by eauto with lowered|].
  destruct (String.eqb_spec op "!"); [by eauto with lowered|]. destruct (String.eqb_spec op "+"); [done|]. constructor; [|done|by foralls]. cbn.
  rewrite bool_decide_eq_false_2; [done|]. unfold patched_unary. rewrite !elem_of_cons, elem_of_nil. naive_solver.
Qed.

(** The scope of the binding [lowerLogical] makes. *)
Definition logical_body (name guardFn combineFn : string) (right : Node) : Node :=
  ConditionalNode true (call guardFn [ident name]) (call "__val" [ident name]) (call combineFn [ident name; right]).

Lemma good_lowerLogical c l r guard combine :
  guard ∈ guard_names -> L (sc_name (c + 1)) l (logical_body (sc_name (c + 1)) guard combine r) ->
  good L l -> good L r -> good L (snd (lowerLogical c l r guard combine)).
Proof.
  intros Hg HL Hl Hr. cbn. apply good_let; [apply HL|done|]. apply good_conditional; [done|..]; eauto 6 with lowered.
Qed.

Lemma good_patchBinary c op l r :
  (forall guard combine, fst (patchBinary c op l r) = c + 1 ->
     L (sc_name (c + 1)) l (logical_body (sc_name (c + 1)) guard combine r)) ->
  good L l -> good L r -> good L (snd (patchBinary c op l r)).
Proof.
  intros HL Hl Hr. unfold patchBinary at 1.
  destruct (String.eqb op "and" || String.eqb op "&&") eqn:E1.
  { apply good_lowerLogical; [set_solver|apply HL; unfold patchBinary; by rewrite E1|done..]. }
  destruct (String.eqb op "or" || String.eqb op "||") eqn:E2.
  { apply good_lowerLogical; [set_solver|apply HL; unfold patchBinary; by rewrite E1, E2|done..]. }
  cbn [snd]. destruct (String.eqb op "in") eqn:E3; [by eauto with lowered|].
  destruct (assoc op binaryDispatch) eqn:E4; [by eauto with lowered|].
  constructor; [|done|by foralls]. cbn [shape]. rewrite bool_decide_eq_false_2; [done|]. intros Hin.
  unfold patched_binary in Hin. apply elem_of_app in Hin as [Hin|Hin].
  - apply orb_false_iff in E1 as [E1a E1b]. apply orb_false_iff in E2 as [E2a E2b].
    apply String.eqb_neq in E1a, E1b, E2a, E2b, E3. rewrite !elem_of_cons, elem_of_nil in Hin. naive_solver.
  - apply list_elem_of_In, in_map_iff in Hin as ((k & v) & <- & Hin). unfold assoc in E4.
    destruct (List.find _ binaryDispatch) eqn:Ef; [discriminate|].
    apply (List.find_none _ _ Ef) in Hin. cbn in Hin. by rewrite String.eqb_refl in Hin.
Qed.

Lemma good_patchMember n p m : good L n -> good L p -> good L (patchMember n p m).
Proof.
  intros Hn Hp. unfold patchMember. destruct m; [by constructor; [..|foralls]|].
  destruct (stringProperty p); [by eauto 8 with lowered|].
  destruct (isFilterPredicate p); [by apply good_lowerFilter|by eauto with lowered].
Qed.

Lemma method_of_spec callee recv name : method_of callee = Some (recv, name) -> exists p m, callee = MemberNode recv p m.
Proof.
  destruct callee; try discriminate. cbn. destruct (stringProperty callee2); [|discriminate]. intros [= -> ->]. eauto.
Qed.

Lemma good_method_of callee recv name : good L callee -> method_of callee = Some (recv, name) -> good L recv.
Proof. intros Hc (p & m & ->)%method_of_spec. apply good_children in Hc. by inv Hc. Qed.

Lemma good_patchCall callee args : good L callee -> Forall (good L) args -> good L (patchCall callee args).
Proof.
  intros Hc Ha. assert (Hu : good L (CallNode callee args)) by (constructor; [done..|by constructor]).
  unfold patchCall. cbv zeta. destruct (method_of callee) as [[recv name]|] eqn:Em; [|done].
  pose proof (good_method_of _ _ _ Hc Em) as Hr. clear Em.
  destruct (assoc name tableMethodBackings); [by apply good_call; constructor|].
  repeat (match goal with |- good L (if ?b then _ else _) => destruct b end); [..|done].
  - destruct args as [|p [|]]; [done| |done]. inv Ha. by apply good_lowerFilter.
  - destruct args as [|p [|]]; [done| |done]. inv Ha. by apply good_lowerFilter.
  - destruct args as [|nm [|e [|]]]; [done..| |done]. inv Ha.
    match goal with H : Forall _ [_] |- _ => inv H end. by apply good_lowerWithColumn.
  - destruct (group_receiver recv) as [[t keys]|] eqn:Eg; [|done]. destruct recv; try discriminate. cbn in Eg.
    destruct (method_of recv) as [[t' name']|] eqn:Em; [|discriminate]. destruct (String.eqb name' "groupBy"); [|discriminate].
    inv Eg. apply good_children in Hr. inv Hr. apply good_lowerGroupAgg; [done| |done..].
    match goal with H : good L recv |- _ => apply (good_method_of _ _ _ H Em) end.
Qed.

(** A visit of a node whose children are in lowered form leaves a tree in
    lowered form, for bindings [L] allows. *)
Lemma good_Visit c n :
  (forall op l r guard combine, n = BinaryNode op l r -> fst (Visit c n) = c + 1 ->
     L (sc_name (c + 1)) l (logical_body (sc_name (c + 1)) guard combine r)) ->
  (forall x e b, n = VariableDeclaratorNode x e b -> L x e b) ->
  (forall pairs k key v b, n = MapNode pairs -> PairNode k v ∈ pairs -> stringProperty k = Some key -> L key v b) ->
  Forall (good L) (children n) -> good L (snd (Visit c n)).
Proof.
  intros Hsc Hlet Hmap Hk. destruct n; cbn [Visit snd children] in *; try (by apply good_leaf); try (by constructor).
  - inv Hk. by apply good_patchUnary.
  - inv Hk. match goal with H : Forall _ [_] |- _ => inv H end. apply good_patchBinary; eauto.
  - inv Hk. repeat match goal with H : Forall _ (_ :: _) |- _ => inv H end.
    apply good_conditional; [set_solver|by foralls|done..].
  - inv Hk. match goal with H : Forall _ [_] |- _ => inv H end. by apply good_patchMember.
  - inv Hk. by apply good_patchCall.
  - by apply good_call.
  - apply good_lowerMap; eauto.
Qed.

End Visit.

(** ** Walking *)

Section Walking.
Context {DO : DecimalOps} {W : Walker}.

Lemma with_children_children n kids : length kids = length (children n) -> children (with_children n kids) = kids.
Proof.
  destruct n; cbn; try done; repeat (destruct kids as [|? kids]; cbn; try done).
Qed.

Section Between.
Variables (v : Visitor Z) (ok : Node -> Prop) (Q : Z -> Z -> Node -> Prop).

(** The walks of consecutive siblings. *)
Inductive walks : Z -> Z -> list Node -> Prop :=
| walks_nil c : walks c c []
| walks_cons c c1 c2 m ms : Q c c1 m -> walks c1 c2 ms -> walks c c2 (m :: ms).

Hypothesis ok_children : forall n, ok n -> Forall ok (children n).
Hypothesis visit_ok : forall c c' n kids,
  ok n -> walks c c' kids -> length kids = length (children n) ->
  Q c (fst (v c' (with_children n kids))) (snd (v c' (with_children n kids))).

Lemma Walk_between n c : ok n -> Q c (fst (Walk v c n)) (snd (Walk v c n)).
Proof.
  revert c. induction n as [n IH] using Node_children_ind. intros c Hn. rewrite Walk_postorder.
  assert (Hw : forall c, let '(c', kids) := each (Walk v) c (children n) in
    walks c c' kids /\ length kids = length (children n)).
  { pose proof (ok_children n Hn) as Hc. induction IH as [|m ms Hm _ IHms]; intros c0; cbn; [by split; constructor|].
    inv Hc. destruct (Walk v c0 m) as [c1 m'] eqn:Em. specialize (Hm c0). rewrite Em in Hm.
    match goal with H : Forall ok ms |- _ => specialize (IHms H c1) end. destruct (each (Walk v) c1 ms) as [c2 ms'].
    destruct IHms as [Hw Hl]. split; [|cbn; congruence]. eapply walks_cons; eauto. }
  specialize (Hw c). destruct (each (Walk v) c (children n)) as [c' kids]. destruct Hw as [Hw Hl].
  by apply visit_ok.
Qed.

End Between.

(** C19. [patch] leaves a tree in the engine's lowered form, whatever the source: no
    literal, list or dictionary literal, no bracket access, no operator the
    engine has a function for, and every conditional branches on a call that
    returns a Go [bool]. *)
Theorem patch_lowered (n : Node) : lowered (patch n).
Proof.
  apply (Walk_between Visit (fun _ => True) (fun _ _ m => lowered m)); [by intros; apply Forall_true| |done].
  intros c c' m kids _ Hw Hl. apply good_Visit; try done. rewrite with_children_children by done.
  clear Hl. induction Hw; by constructor.
Qed.

(** ** The bindings of [and] and [or] *)

(** Is this name one the patcher makes up? *)
Definition internal (name : string) : bool := HasPrefix name "__sc".

(** The source uses no such name, as a variable, a binding or a key. *)
Inductive quiet : Node -> Prop :=
| Quiet n :
    match n with
    | VariableDeclaratorNode x _ _ | StringNode x | IdentifierNode x | ConstantNode (BlString x) => internal x = false
    | _ => True
    end ->
    Forall quiet (children n) -> quiet n.

Lemma internal_sc_name k : internal (sc_name k) = true.
Proof. done. Qed.

Lemma sc_name_inj j k : sc_name j = sc_name k -> j = k.
Proof. unfold sc_name. intros H. apply (inj (String.append "__sc")) in H. by apply (inj pretty) in H. Qed.

Lemma declares_child x n : declares x n -> (exists e b, n = VariableDeclaratorNode x e b) \/ Exists (declares x) (children n).
Proof.
  intros (e & b & Hs). inversion Hs as [|n' k Hk Hs']; subst; [eauto|]. right. apply Exists_exists. exists k.
  split; [done|]. by exists e, b.
Qed.

(** The bindings made between two values of the counter; those inside one have a
    smaller number. *)
Definition between (c c' : Z) (x : string) (e b : Node) : Prop :=
  internal x = true ->
  exists k, x = sc_name k /\ c < k <= c' /\ forall j, declares (sc_name j) e \/ declares (sc_name j) b -> j < k.

Definition no_internal_key (m : Node) : Prop :=
  forall s, stringProperty m = Some s -> internal s = false.
Definition keys_ok (m : Node) : Prop :=
  no_internal_key m /\ forall k v, m = PairNode k v -> no_internal_key k.

Lemma between_weaken c0 c c' c1 x e b : c0 <= c -> c' <= c1 -> between c c' x e b -> between c0 c1 x e b.
Proof. intros ?? H Hx. destruct (H Hx) as (k & -> & ? & ?). exists k. split_and!; [done|lia..|done]. Qed.

Lemma good_between_declares c c' m j : good (between c c') m -> declares (sc_name j) m -> j <= c'.
Proof.
  intros Hg (e & b & Hs). apply (good_subterm _ _ Hg) in Hs. inversion Hs as [m' _ Hl _]; subst.
  destruct (Hl _ _ _ eq_refl) as (k & Hk & ? & _); [done|]. apply sc_name_inj in Hk. lia.
Qed.

Lemma declares_call x f args : declares x (call f args) -> Exists (declares x) args.
Proof.
  intros [(e & b & ?)|H]%declares_child; [discriminate|]. cbn in H. inv H; [|done].
  match goal with H : declares x (ident f) |- _ => apply declares_child in H as [(e & b & ?)|H]; [discriminate|inv H] end.
Qed.

Lemma declares_ident x y : ~ declares x (ident y).
Proof. intros [(e & b & ?)|H]%declares_child; [discriminate|inv H]. Qed.

Lemma declares_logical_body x name guard combine r : declares x (logical_body name guard combine r) -> declares x r.
Proof.
  intros [(e & b & ?)|H]%declares_child; [discriminate|]. cbn [children logical_body] in H.
  repeat match goal with
  | H : Exists _ (_ :: _) |- _ => inv H
  | H : Exists _ [] |- _ => inv H
  | H : declares _ (call _ _) |- _ => apply declares_call in H
  | H : declares _ (ident _) |- _ => by apply declares_ident in H
  end; done.
Qed.

Definition numbered (c c' : Z) (m : Node) : Prop := c <= c' /\ good (between c c') m /\ keys_ok m.

Lemma walks_numbered c c' kids :
  walks numbered c c' kids -> c <= c' /\ Forall (good (between c c')) kids /\ Forall keys_ok kids.
Proof.
  induction 1 as [c|c c1 c2 m ms (Hc & Hg & Hk) _ (Hc2 & Hgs & Hks)]; [split_and!; [lia|constructor..]|].
  split_and!; [lia| |by constructor]. constructor.
  - eapply good_weaken; [|exact Hg]. intros x e b. apply between_weaken; lia.
  - eapply Forall_impl; [exact Hgs|]. intros k Hk'. eapply good_weaken; [|exact Hk']. intros x e b. apply between_weaken; lia.
Qed.

Lemma stringProperty_keys m : stringProperty m = None -> (forall k v, m <> PairNode k v) -> keys_ok m.
Proof. intros Hs Hp. split; [intros s; by rewrite Hs|]. intros k v ->. by destruct (Hp k v). Qed.

Lemma lowerMap_keys pairs : keys_ok (lowerMap pairs).
Proof.
  unfold lowerMap. cbv zeta. generalize (dict_args (map_entries pairs)) as args. intros args.
  induction (map_entries pairs) as [|[[key b] v] es IH]; [by apply stringProperty_keys|].
  cbn. destruct b; [by apply stringProperty_keys|exact IH].
Qed.

Lemma patchCall_keys callee args : keys_ok (patchCall callee args).
Proof. apply stringProperty_keys; unfold patchCall; cbv zeta; repeat case_match; done. Qed.

Lemma quiet_children n : quiet n -> Forall quiet (children n).
Proof. by inversion 1. Qed.

Lemma Visit_numbered c c' n :
  c <= c' -> Forall (good (between c c')) (children n) -> Forall keys_ok (children n) ->
  (forall x e b, n = VariableDeclaratorNode x e b -> internal x = false) ->
  (forall s, stringProperty n = Some s -> internal s = false) ->
  numbered c (fst (Visit c' n)) (snd (Visit c' n)).
Proof.
  intros Hc Hg Hk Hlet Hs.
  assert (Hc' : c' <= fst (Visit c' n)).
  { destruct n; cbn; try lia. unfold patchBinary. repeat case_match; cbn; lia. }
  split_and!; [lia| |].
  - apply good_Visit.
    + intros e b Hi. discriminate.
    + intros op l r guard combine -> Hf _. cbn [children] in Hg. inv Hg. match goal with H : Forall _ [_] |- _ => inv H end.
      exists (c' + 1). split_and!; [done|lia..|]. intros j Hj.
      enough (j <= c') by lia. destruct Hj as [Hj|Hj%declares_logical_body]; eauto using good_between_declares.
    + intros x e b Hn Hx. by rewrite (Hlet _ _ _ Hn) in Hx.
    + intros pairs k key v b -> Hin Hkey Hx. rewrite Forall_forall in Hk. apply Hk in Hin as [_ Hin].
      by rewrite (Hin k v eq_refl key Hkey) in Hx.
    + eapply Forall_impl; [exact Hg|]. intros k Hgk. eapply good_weaken; [|exact Hgk]. intros x e b. apply between_weaken; lia.
  - destruct n; cbn [Visit snd];
      try (by apply stringProperty_keys); try (by apply lowerMap_keys); try (by apply patchCall_keys);
      try (split; [exact Hs|by intros]).
    + cbn in Hk. inv Hk. unfold patchUnary. repeat case_match; try done; by apply stringProperty_keys.
    + unfold patchBinary. repeat case_match; by apply stringProperty_keys.
    + apply stringProperty_keys; unfold patchMember; repeat case_match; done.
    + split; [exact Hs|]. intros k v [= <- <-]. cbn in Hk. inv Hk. by destruct H1.
Qed.

(** The bindings [patch] makes for [and] and [or] are numbered upwards from the
    inside out: none of them is declared again in its own value or scope, so the
    checker, which refuses a second declaration of a visible name, finds none.
    The source itself does not use the names. *)
Theorem patch_bindings_unshadowed (n : Node) (k : Z) (e b : Node) :
  quiet n -> subterm (VariableDeclaratorNode (sc_name k) e b) (patch n) ->
  0 < k /\ ~ declares (sc_name k) e /\ ~ declares (sc_name k) b.
Proof.
  intros Hq Hs.
  assert (Hn : numbered 0 (fst (patch_from 0 n)) (patch n)).
  { apply (Walk_between Visit quiet numbered); [apply quiet_children| |done].
    intros c c' m' kids Hm Hw Hl. apply walks_numbered in Hw as (Hc & Hg & Hk).
    inversion Hm as [m'' Hm' _]; subst.
    apply Visit_numbered; rewrite ?with_children_children by done; try done.
    - intros x e' b' E. destruct m'; cbn in *; repeat case_match; try discriminate; congruence.
    - intros s E. destruct m'; cbn in *; repeat case_match; simplify_eq; try done. }
  destruct Hn as (_ & Hg & _). apply (good_subterm _ _ Hg) in Hs. inversion Hs as [m' _ Hl _]; subst.
  destruct (Hl _ _ _ eq_refl) as (j & Hj & ? & Hlt); [done|]. apply sc_name_inj in Hj as <-.
  split; [lia|]. split; intros Hd; specialize (Hlt k); naive_solver lia.
Qed.

End Walking.
