(* ===== verification/Lowering.v ===== *)
(** * What the rewriting preserves

    A meaning of expressions as the language describes it ([feel]), the machine
    that runs a rewritten tree as an interface ([Machine]: what the expression
    library documents of bindings, conditionals, calls and [filter]), and the
    theorem that the machine computes on the tree [patch] makes the meaning of
    the source.  Errors are compared up to their text. *)

From Stdlib Require Import SpecFloat.
From S2P Require Import Prelude Decimal GoText GoTime Values ValueLaws Lists Ranges Numbers GoTimeText Durations Temporal Dictionaries Strings Tables Calendars Operators TenDecimal NumberText TemporalText TableJoin Registry Normalise Patch.
Import Ast.
#[global] Open Scope Z_scope.

(** ** Results up to the error *)

Definition same {A} (r1 r2 : result A) : Prop :=
  match r1, r2 with
  | Ok a, Ok b => a = b
  | Err _, Err _ => True
  | _, _ => False
  end.
Infix "≈" := same (at level 70) : blkit_scope.

#[global] Instance same_equivalence {A} : Equivalence (@same A).
Proof.
  split; [by intros []|by intros [] []|]. intros [] [] []; simpl; congruence || done.
Qed.

#[global] Instance result_bind_same {A B} :
  Proper (same ==> pointwise_relation A same ==> same) (@result_bind A B).
Proof. intros [a|e] [a'|e'] H f g Hf; simpl in *; try done. subst. apply Hf. Qed.

Lemma result_bind_assoc {A B C} (r : result A) (f : A -> result B) (g : B -> result C) :
  result_bind (result_bind r f) g = result_bind r (fun a => result_bind (f a) g).
Proof. by destruct r. Qed.

(** The elements a fallible test accepts. *)
Fixpoint result_filter {A} (test : A -> result bool) (l : list A) : result (list A) :=
  match l with
  | [] => Ok []
  | x :: l' => let! b := test x in let! kept := result_filter test l' in Ok (if b : bool then x :: kept else kept)
  end.

(** ** The functions a tree can call *)

Section Functions.
Context {DO : DecimalOps} {DT : DecimalText DO}.

(** The functions of values, by name: the engine's and the user's. *)
Variable registered : string -> option Builtin.

Definition arity_ok (b : Builtin) (n : nat) : bool :=
  match fn_arities b with [] => true | ns => existsb (Nat.eqb n) ns end.

Definition apply_builtin (b : Builtin) (vs : list BlValue) : result BlValue :=
  if arity_ok b (length vs) then fn_impl b vs else Err (TypeError (fn_name b) "argument count").

(** An argument of a parameter of type [BlValue]. *)
Definition bl_arg (h : HostValue) : result BlValue :=
  match h with HBl v => Ok v | _ => Err (TypeError "call" "argument type") end.
Definition bl_of (r : result BlValue) : result HostValue := let! v := r in Ok (HBl v).

(** The functions whose arguments or results are a Go [bool] or a Go slice. *)
Definition native_function (name : string) (args : list HostValue) : option (result HostValue) :=
  match args with
  | [a] =>
      if String.eqb name "__isFalse" then Some (let! v := bl_arg a in Ok (HBool (opIsFalse v)))
      else if String.eqb name "__isTrue" then Some (let! v := bl_arg a in Ok (HBool (opIsTrue v)))
      else if String.eqb name "__truthy" then Some (let! v := bl_arg a in Ok (HBool (opTruthy v)))
      else if String.eqb name "__items" then
        Some (let! v := bl_arg a in let! items := itemsFn v in Ok (HSlice (map HBl items)))
      else None
  | [a; HSlice xs] =>
      if String.eqb name "__retable" then
        Some (let! v := bl_arg a in let! items := result_map bl_arg xs in Ok (HBl (retableFn v items)))
      else None
  | _ => None
  end.

(** The value of a call; [None] where no function answers to the name. *)
Definition apply_function (name : string) (args : list HostValue) : option (result HostValue) :=
  match native_function name args with
  | Some r => Some r
  | None => (fun b => let! vs := result_map bl_arg args in bl_of (apply_builtin b vs)) <$> registered name
  end.

(** The functions [patch] emits calls of, on values. *)
Definition emitted : list Builtin :=
  operatorRegistrations ++ booleanOptions ++ comprehensionOptions ++
  [mkBuiltin "componentAccess" [2%nat] (fn2 componentAccessFn);
   mkBuiltin "__mklist" [] (fun args => Ok (mkListFn args));
   mkBuiltin "__mkdict" [] mkDictFn].

(** ** The machine *)

(** Running a compiled tree against named values. *)
Class Machine : Type := {
  run : list (string * HostValue) -> Node -> result HostValue;
  run_constant env v : run env (ConstantNode v) ≈ Ok (HBl v);
  run_identifier env x v : assoc x env = Some v -> run env (IdentifierNode x) ≈ Ok v;
  run_unbound env x : assoc x env = None -> is_ok (run env (IdentifierNode x)) = false;
  run_let env x e b : run env (VariableDeclaratorNode x e b) ≈ let! v := run env e in run ((x, v) :: env) b;
  run_conditional env t c e1 e2 :
    run env (ConditionalNode t c e1 e2) ≈
      let! v := run env c in
      match v with HBool b => run env (if b then e1 else e2) | _ => Err (TypeError "conditional" "not a bool") end;
  run_call env f args hs r :
    result_map (run env) args ≈ Ok hs -> apply_function f hs = Some r -> run env (call f args) ≈ r;
  run_call_error env f args : is_ok (result_map (run env) args) = false -> is_ok (run env (call f args)) = false;
  run_filter env xs body :
    run env (BuiltinNode "filter" [xs; row_closure body]) ≈
      let! s := run env xs in
      match s with
      | HSlice items =>
          let! kept := result_filter (fun x =>
            let! v := run (("item", x) :: env) body in
            match v with HBool b => Ok b | _ => Err (TypeError "filter" "not a bool") end) items in
          Ok (HSlice kept)
      | _ => Err (TypeError "filter" "not a slice")
      end
}.

(** ** The meaning of an expression *)

(** The binary operators but [and] and [or]. *)
Definition operator_meaning : list (string * (BlValue -> BlValue -> result BlValue)) :=
  let total f := fun a b => Ok (f a b) in
  [("+", opAdd); ("-", opSub); ("*", opMul); ("/", opDiv); ("**", opPow); ("^", opPow);
   ("<", total opLt); ("<=", total opLe); (">", total opGt); (">=", total opGe);
   ("==", total opEq); ("!=", total opNe); ("in", opIn)]%string.

Definition Scope : Type := string -> option BlValue.
Definition bind_name (scope : Scope) (x : string) (v : BlValue) : Scope :=
  fun y => if String.eqb x y then Some v else scope y.

(** Inside a row expression a name is a column of the row, [item] the row. *)
Definition row_scope (row : BlValue) : Scope :=
  fun x => Some (if String.eqb x "item" then row else if IsNull row then BlNull else componentAccess row x).

Context {W : Walker}.

(** Is what a bracket holds a condition on the elements, and not an index? *)
Fixpoint tests (p : Node) : bool :=
  match p with
  | UnaryNode op a => String.eqb op "not" || String.eqb op "!" || (String.eqb op "+" && tests a)
  | BinaryNode op _ _ => bool_decide (op ∈ ["<"; "<="; ">"; ">="; "=="; "!="; "in"]%string)
  | ConditionalNode _ _ _ _ => true
  | CallNode (IdentifierNode f) _ => bool_decide (f ∈ booleanOpNames)
  | _ => false
  end.
Definition is_predicate (p : Node) : bool := referencesItem p || tests p.

Fixpoint feel (n : Node) (scope : Scope) : result BlValue :=
  match n with
  | IntegerNode z => Ok (BlNumber (dNewFromInt z))
  | FloatNode f => Ok (BlNumber (dNewFromFloat f))
  | StringNode s => Ok (BlString s)
  | BoolNode b => Ok (BlBoolean b)
  | NilNode => Ok BlNull
  | ConstantNode v => Ok v
  | IdentifierNode x => match scope x with Some v => Ok v | None => Err (ErrorText ("unknown name " +:+ x)) end
  | UnaryNode op a =>
      let! v := feel a scope in
      if String.eqb op "-" then opNeg v else if String.eqb op "+" then Ok v else Ok (notFn v)
  | BinaryNode op l r =>
      let! a := feel l scope in
      if String.eqb op "and" || String.eqb op "&&" then lowerAnd a (fun _ => feel r scope)
      else if String.eqb op "or" || String.eqb op "||" then lowerOr a (fun _ => feel r scope)
      else let! b := feel r scope in
           match assoc op operator_meaning with Some f => f a b | None => Err (ErrorText "unknown operator") end
  | ConditionalNode _ c e1 e2 =>
      let! v := feel c scope in if opTruthy v then feel e1 scope else feel e2 scope
  | MemberNode a p _ =>
      let! v := feel a scope in
      match stringProperty p with
      | Some name => componentAccessFn v (BlString name)
      | None =>
          if is_predicate p then
            let! items := itemsFn v in
            let! kept := result_filter (fun x => let! r := feel p (row_scope x) in Ok (opTruthy r)) items in
            Ok (retableFn v kept)
          else let! i := feel p scope in indexFn v i
      end
  | CallNode (IdentifierNode f) args =>
      let! vs := (fix all (ns : list Node) : result (list BlValue) :=
        match ns with
        | [] => Ok []
        | m :: ns' => let! v := feel m scope in let! vs := all ns' in Ok (v :: vs)
        end) args in
      match registered f with Some b => apply_builtin b vs | None => Err (ErrorText ("unknown name " +:+ f)) end
  | ArrayNode ns =>
      let! vs := (fix all (ns : list Node) : result (list BlValue) :=
        match ns with
        | [] => Ok []
        | m :: ns' => let! v := feel m scope in let! vs := all ns' in Ok (v :: vs)
        end) ns in
      Ok (BlList vs)
  | MapNode pairs =>
      (fix entries (ps : list Node) (scope : Scope) (d : list (string * BlValue)) : result BlValue :=
         match ps with
         | [] => Ok (BlDictionary d)
         | PairNode k v :: ps' =>
             match stringProperty k with
             | Some key => let! x := feel v scope in entries ps' (bind_name scope key x) (dict_set d key x)
             | None => entries ps' scope d
             end
         | _ :: ps' => entries ps' scope d
         end) pairs scope newDictionary
  | _ => Err (ErrorText "not an expression of the language")
  end.

End Functions.

Arguments run {DO registered Machine} env n : rename.
Arguments run_constant {DO registered Machine} env v : rename.
Arguments run_identifier {DO registered Machine} env x v _ : rename.
Arguments run_unbound {DO registered Machine} env x _ : rename.
Arguments run_let {DO registered Machine} env x e b : rename.
Arguments run_conditional {DO registered Machine} env t c e1 e2 : rename.
Arguments run_call {DO registered Machine} env f args hs r _ _ : rename.
Arguments run_call_error {DO registered Machine} env f args _ : rename.
Arguments run_filter {DO registered Machine} env xs body : rename.
