(* ===== verification/LoweringLaws.v ===== *)
(** * The rewritten tree computes the meaning of the source

    The fragment the theorem covers ([supported]) and its proof: one induction
    over the source, for a tree in the scope of the variables and for a row
    expression after its columns were resolved. *)

From Stdlib Require Import SpecFloat.
From S2P Require Import Prelude Decimal GoText GoTime Values ValueLaws Lists Ranges Numbers GoTimeText Durations Temporal Dictionaries Strings Tables Calendars Operators TenDecimal NumberText TemporalText TableJoin Registry Normalise Patch Lowering.
Import Ast.
#[global] Open Scope Z_scope.

(** ** Results in sequence *)

Definition sequence {A} : list (result A) -> result (list A) := result_map id.

Lemma same_err {A} (r : result A) e : is_ok r = false -> r ≈ Err e.
Proof. by destruct r. Qed.

Lemma same_ok {A} (r : result A) a : r ≈ Ok a -> r = Ok a.
Proof. destruct r; simpl; [by intros ->|done]. Qed.

Lemma same_is_ok {A} (r1 r2 : result A) : r1 ≈ r2 -> is_ok r1 = is_ok r2.
Proof. by destruct r1, r2. Qed.

Section Laws.
Context {DO : DecimalOps} {DT : DecimalText DO}.
Context {W : Walker} {registered : string -> option Builtin} {M : Machine registered}.
Hypothesis registered_emitted : forall b, b ∈ emitted -> registered (fn_name b) = Some b.

(** ** The fragment *)

Definition native_names : list string := ["__isFalse"; "__isTrue"; "__truthy"; "__items"; "__retable"]%string.

(** What [stringProperty] takes for a key after the rewriting. *)
Fixpoint key_like (p : Node) : bool :=
  match p with
  | StringNode _ | ConstantNode (BlString _) | IdentifierNode _ => true
  | UnaryNode op a => String.eqb op "+" && key_like a
  | _ => false
  end.

Definition pair_key (pair : Node) : string :=
  match pair with PairNode (StringNode key) _ => key | _ => "" end.

(** The expressions of the theorem: in a row expression ([row]) no [and], [or],
    dictionary literal or further filter; no variable as an index; dictionary
    keys that are distinct identifiers. *)
Fixpoint supported (row : bool) (n : Node) : bool :=
  match n with
  | IntegerNode _ | FloatNode _ | StringNode _ | BoolNode _ | NilNode | ConstantNode _ => true
  | IdentifierNode x => negb (internal x)
  | UnaryNode op a => bool_decide (op ∈ patched_unary) && supported row a
  | BinaryNode op l r =>
      (if bool_decide (op ∈ ["and"; "&&"; "or"; "||"]%string) then negb row else bool_decide (is_Some (assoc op operator_meaning)))
      && supported row l && supported row r
  | ConditionalNode _ c e1 e2 => supported row c && supported row e1 && supported row e2
  | MemberNode a p m =>
      negb m && supported row a &&
      match p with
      | StringNode _ => true
      | _ => negb (key_like p) && supported true p && negb (row && is_predicate p)
      end
  | CallNode (IdentifierNode f) args =>
      bool_decide (is_Some (registered f)) && bool_decide (f ∉ native_names) && forallb (supported row) args
  | ArrayNode ns => forallb (supported row) ns
  | MapNode pairs =>
      negb row && bool_decide (NoDup (map pair_key pairs)) &&
      forallb (fun pr =>
        match pr with
        | PairNode (StringNode key) v => validIdentifier key && negb (internal key) && supported row v
        | _ => false
        end) pairs
  | _ => false
  end.

(** ** Calls *)

Lemma run_sequence env args rs :
  Forall2 (fun a r => run env a ≈ bl_of r) args rs -> result_map (run env) args ≈ let! vs := sequence rs in Ok (map HBl vs).
Proof.
  induction 1 as [|a r args rs Ha _ IH]; [done|]. cbn [result_map sequence id]. rewrite Ha. destruct r as [v|]; [|done].
  cbn. rewrite IH. unfold sequence. by destruct (result_map id rs).
Qed.

Lemma bl_args_values vs : result_map bl_arg (map HBl vs) = Ok vs.
Proof. induction vs as [|v vs IH]; [done|]. cbn. by rewrite IH. Qed.

Lemma native_function_values name vs : name ∉ native_names -> native_function name (map HBl vs) = None.
Proof.
  unfold native_names. rewrite !not_elem_of_cons. intros (H1 & H2 & H3 & H4 & H5 & _).
  destruct vs as [|v [|v' [|]]]; try done. cbn.
  by rewrite !(proj2 (String.eqb_neq _ _)) by done.
Qed.

Lemma run_values env f b args rs :
  registered f = Some b -> f ∉ native_names -> Forall2 (fun a r => run env a ≈ bl_of r) args rs ->
  run env (call f args) ≈ let! vs := sequence rs in bl_of (apply_builtin b vs).
Proof.
  intros Hf Hn Ha. apply run_sequence in Ha. destruct (sequence rs) as [vs|e]; cbn [result_bind] in *.
  - eapply run_call; [exact Ha|]. unfold apply_function. rewrite native_function_values by done.
    rewrite Hf. cbn. by rewrite bl_args_values.
  - apply same_err, run_call_error. by rewrite (same_is_ok _ _ Ha).
Qed.

(** The function [patch] emits under a name. *)
Definition emitted_by (name : string) : option Builtin := List.find (fun b => String.eqb (fn_name b) name) emitted.

Lemma run_emitted env name b args rs :
  emitted_by name = Some b -> name ∉ native_names -> Forall2 (fun a r => run env a ≈ bl_of r) args rs ->
  run env (call name args) ≈ let! vs := sequence rs in bl_of (apply_builtin b vs).
Proof.
  intros [Hb <-%String.eqb_eq]%List.find_some. apply run_values, registered_emitted. by apply list_elem_of_In.
Qed.

Lemma run_guard env f test a r :
  (forall h, native_function f [h] = Some (let! v := bl_arg h in Ok (HBool (test v)))) ->
  run env a ≈ bl_of r -> run env (call f [a]) ≈ let! v := r in Ok (HBool (test v)).
Proof.
  intros Hf Ha. destruct r as [v|e]; cbn in Ha |- *.
  - eapply run_call; [cbn; by rewrite Ha|]. unfold apply_function. by rewrite Hf.
  - apply same_err, run_call_error. cbn. by destruct (run env a).
Qed.

(** ** The walk, one node at a time *)

(** A tree a walk of the patcher leaves in the place of [n]. *)
Definition patches (n m : Node) : Prop := exists c, snd (patch_from c n) = m.

Lemma patches_inv n m :
  patches n m -> exists c kids, Forall2 patches (children n) kids /\ m = snd (Visit c (with_children n kids)).
Proof.
  intros (c & <-). unfold patch_from. rewrite Walk_postorder.
  assert (Hk : forall ns c, Forall2 patches ns (snd (each (Walk Visit) c ns))).
  { intros ns. induction ns as [|m ns IH]; intros c0; cbn; [done|].
    destruct (Walk Visit c0 m) as [c1 m'] eqn:Em. specialize (IH c1). destruct (each (Walk Visit) c1 ns) as [c2 ms]. cbn in *.
    constructor; [|done]. exists c0. unfold patch_from. by rewrite Em. }
  specialize (Hk (children n) c). destruct (each (Walk Visit) c (children n)) as [c' kids]. eauto.
Qed.

(** [patched H] turns what is known of a patched node into what is known of its
    patched children. *)
Ltac patched H :=
  let c := fresh "c" in
  apply patches_inv in H as (c & ? & H & ->); cbn [children] in H;
  repeat match goal with
  | H : Forall2 patches [] _ |- _ => inv H
  | H : Forall2 patches (_ :: _) _ |- _ => inv H
  end; cbn [with_children Visit snd].

(** ** Looking for [item] *)

Definition has_item (n : Node) : Prop := subterm (IdentifierNode "item") n.

Lemma has_item_children n : has_item n <-> n = IdentifierNode "item" \/ Exists has_item (children n).
Proof.
  split.
  - intros Hs. inversion Hs as [|n' k Hk Hs']; subst; [by left|]. right. apply Exists_exists. eauto.
  - intros [->|H]; [constructor|]. apply Exists_exists in H as (k & Hk & Hs). by eapply subterm_child.
Qed.

Lemma with_own_children n : with_children n (children n) = n.
Proof. by destruct n. Qed.

Lemma referencesItem_spec n : referencesItem n = true <-> has_item n.
Proof.
  unfold referencesItem. set (v := fun (found : bool) (n : Node) => _).
  assert (Hw : forall n s, snd (Walk v s n) = n /\ (fst (Walk v s n) = true <-> s = true \/ has_item n)).
  { clear n. induction n as [n IH] using Node_children_ind. intros s. rewrite Walk_postorder.
    assert (Hk : forall s, snd (each (Walk v) s (children n)) = children n /\
      (fst (each (Walk v) s (children n)) = true <-> s = true \/ Exists has_item (children n))).
    { clear s. induction IH as [|m ms Hm _ IHms]; intros s; cbn; [split; [done|]; rewrite Exists_nil; tauto|].
      destruct (Hm s) as [Hm1 Hm2]. destruct (Walk v s m) as [s1 m']. destruct (IHms s1) as [Hs1 Hs2].
      destruct (each (Walk v) s1 ms) as [s2 ms']. cbn in *. subst. split; [done|]. rewrite Exists_cons. tauto. }
    destruct (Hk s) as [Hk1 Hk2]. destruct (each (Walk v) s (children n)) as [s' kids]. cbn in Hk1, Hk2. subst kids.
    rewrite with_own_children, has_item_children. unfold v.
    destruct n; cbn in Hk2 |- *; try (split; [done|]; rewrite Hk2; naive_solver).
    split; [done|]. rewrite Exists_nil in *. rewrite orb_true_iff, String.eqb_eq, Hk2. naive_solver. }
  rewrite (proj2 (Hw n false)). naive_solver.
Qed.

Lemma has_item_call f args : f <> "item"%string -> has_item (call f args) <-> Exists has_item args.
Proof.
  intros Hf. rewrite has_item_children. cbn [children call]. rewrite Exists_cons, (has_item_children (ident f)). cbn.
  rewrite Exists_nil. unfold ident. split; [|tauto]. intros [H|[[H|[]]|H]]; [discriminate|congruence|done].
Qed.

Lemma has_item_leaf n : children n = [] -> n <> IdentifierNode "item" -> ~ has_item n.
Proof. intros Hc Hn. rewrite has_item_children, Hc, Exists_nil. tauto. Qed.

(** ** What a bracket holds *)

(** Is the patched tree at the top a comparison or a conditional? *)
Definition top_test (m : Node) : bool :=
  match m with
  | ConditionalNode _ _ _ _ => true
  | CallNode (IdentifierNode f) _ => bool_decide (f ∈ booleanOpNames)
  | _ => false
  end.

Lemma assoc_cases {V} k (l : list (string * V)) : is_Some (assoc k l) -> k ∈ map fst l.
Proof. intros [v Hv%assoc_In]. apply list_elem_of_In. by apply (in_map fst) in Hv. Qed.

(** An operator that is not [and] or [or] is a call of its function. *)
Lemma operator_call op f c l r :
  assoc op operator_meaning = Some f -> exists fn b,
    snd (patchBinary c op l r) = call fn [l; r] /\ emitted_by fn = Some b /\ fn ∉ native_names /\ fn <> "item"%string /\
    (forall x y, apply_builtin b [x; y] = f x y) /\
    bool_decide (fn ∈ booleanOpNames) = bool_decide (op ∈ ["<"; "<="; ">"; ">="; "=="; "!="; "in"]%string).
Proof.
  intros Hf. assert (Hin := assoc_cases op operator_meaning (mk_is_Some _ _ Hf)).
  cbn in Hin. rewrite !elem_of_cons, elem_of_nil in Hin.
  repeat destruct Hin as [->|Hin]; [..|done]; cbn in Hf; injection Hf as <-; do 2 eexists;
    (split; [reflexivity|]); (split; [reflexivity|]); (split; [by apply (bool_decide_unpack _)|]);
    (split; [done|]); (split; [done|reflexivity]).
Qed.

Lemma key_like_patched p m : patches p m -> key_like p = false -> stringProperty m = None.
Proof.
  revert m. induction p as [p IH] using Node_children_ind. intros m Hp Hk.
  destruct p; try discriminate; patched Hp; try done.
  - by destruct value.
  - inv IH. cbn [key_like] in Hk. unfold patchUnary. repeat case_match; try done. by auto.
  - unfold patchBinary. repeat case_match; done.
  - unfold patchMember. repeat case_match; done.
  - unfold patchCall. repeat case_match; done.
  - unfold lowerMap. cbv zeta. generalize (dict_args (map_entries x)) as args. intros args.
    induction (map_entries x) as [|[[key b] v] es IHe]; [done|]. cbn. by destruct b.
Qed.

Lemma isFilterPredicate_top m : isFilterPredicate m = referencesItem m || top_test m.
Proof. done. Qed.

Lemma predicate_agrees p m :
  (has_item m <-> has_item p) -> top_test m = tests p -> isFilterPredicate m = is_predicate p.
Proof.
  intros Hi Ht. rewrite isFilterPredicate_top, Ht. unfold is_predicate. f_equal.
  apply eq_true_iff_eq. by rewrite !referencesItem_spec.
Qed.

Lemma has_item_node n : (forall x, n <> IdentifierNode x) -> has_item n <-> Exists has_item (children n).
Proof. intros Hn. rewrite has_item_children. split; [|tauto]. intros [->|H]; [by destruct (Hn "item"%string)|done]. Qed.

Lemma member_cases row p :
  match p with StringNode _ => true | _ => negb (key_like p) && supported true p && negb (row && is_predicate p) end = true ->
  (exists s, p = StringNode s) \/ (key_like p = false /\ supported true p = true /\ (row && is_predicate p)%bool = false).
Proof.
  intros H. assert (Hs : (exists s, p = StringNode s) \/
    (negb (key_like p) && supported true p && negb (row && is_predicate p))%bool = true) by (destruct p; eauto).
  destruct Hs as [Hs|Hs]; [by left|right]. apply andb_true_iff in Hs as [[?%negb_true_iff ?]%andb_true_iff ?%negb_true_iff]. done.
Qed.

Lemma Exists_patched (Q : Node -> Node -> Prop) ns ms :
  Forall (fun n => forall m, patches n m -> supported true n = true -> (has_item m <-> has_item n) /\ Q n m) ns ->
  Forall2 patches ns ms -> forallb (supported true) ns = true -> Exists has_item ms <-> Exists has_item ns.
Proof.
  intros HP Hp. induction Hp as [|n m ns ms Hn _ IH]; cbn; [done|]. intros [Hs Hss]%andb_true_iff. inv HP.
  rewrite !Exists_cons, IH by done.
  match goal with H : forall m, patches n m -> _ |- _ => destruct (H m Hn Hs) as [? _] end. tauto.
Qed.

(** In a row expression the rewriting neither adds nor removes [item], and keeps
    a comparison at the top a comparison. *)
Lemma predicate_patched p m :
  patches p m -> supported true p = true -> (has_item m <-> has_item p) /\ top_test m = tests p.
Proof.
  revert m. induction p as [p IH] using Node_children_ind. intros m Hp Hs.
  destruct p; try discriminate; patched Hp; cbn [supported children] in Hs, IH;
    repeat match goal with
    | H : Forall _ (_ :: _) |- _ => inv H
    | H : (_ && _)%bool = true |- _ => apply andb_true_iff in H as [? ?]
    | H : forall m, patches ?n m -> _, H' : patches ?n _ |- _ => specialize (H _ H')
    | H : supported true ?n = true -> _, H' : supported true ?n = true |- _ => destruct (H H') as [? ?]; clear H
    end; try (split; [by rewrite !has_item_node by done|done]).
  - done.
  - rewrite (has_item_node (UnaryNode _ _)) by done. cbn [children tests]. rewrite Exists_cons, Exists_nil.
    match goal with H : bool_decide (operator ∈ _) = true |- _ => apply bool_decide_eq_true in H; unfold patched_unary in H;
      rewrite !elem_of_cons, elem_of_nil in H; destruct H as [->|[->|[->|[->|[]]]]]; cbn end;
      rewrite ?has_item_call, ?Exists_cons, ?Exists_nil by done; split; tauto || done.
  - match goal with H : (if ?b then _ else _) = true |- _ => destruct b; [done|]; apply bool_decide_eq_true in H as [f Hf] end.
    destruct (operator_call _ _ c y y0 Hf) as (fn & b & -> & _ & _ & Hi & _ & Ht). cbn [top_test call ident tests].
    rewrite has_item_call, (has_item_node (BinaryNode _ _ _)) by done. cbn [children]. rewrite !Exists_cons, !Exists_nil.
    split; [tauto|done].
  - rewrite !(has_item_node (ConditionalNode _ _ _ _)) by done. cbn [children top_test tests].
    rewrite !Exists_cons, has_item_call, !Exists_cons, !Exists_nil by done. split; [tauto|done].
  - rewrite (has_item_node (MemberNode _ _ _)) by done. cbn [children]. rewrite !Exists_cons, !Exists_nil.
    destruct method; [done|]. unfold patchMember.
    match goal with H : match p2 with _ => _ end = true |- _ => apply member_cases in H as [[s ->]|(Hk & Hs & Hr)] end.
    + match goal with H : patches (StringNode s) _ |- _ => patched H end. cbn. rewrite has_item_call, !Exists_cons, !Exists_nil by done.
      rewrite (has_item_node (StringNode s)), (has_item_node (constNode _)) by done. cbn. rewrite !Exists_nil. split; [tauto|done].
    + match goal with H : supported true p2 = true -> _ |- _ => destruct (H Hs) as [Hi Ht] end.
      rewrite (key_like_patched p2 y0), (predicate_agrees p2 y0) by done. cbn in Hr. rewrite Hr.
      rewrite has_item_call, !Exists_cons, !Exists_nil by done. split; [tauto|done].
  - destruct p; try discriminate.
    repeat match goal with H : (_ && _)%bool = true |- _ => apply andb_true_iff in H as [? ?] end.
    match goal with H : patches (IdentifierNode _) _ |- _ => patched H end. cbn [top_test patchCall method_of tests].
    rewrite !(has_item_node (CallNode _ _)) by done. cbn [children]. rewrite !Exists_cons. split; [|done].
    by rewrite (Exists_patched (fun p m => top_test m = tests p) arguments l').
  - split; [|done]. rewrite has_item_call, (has_item_node (ArrayNode _)) by done. by apply (Exists_patched (fun p m => top_test m = tests p)).
Qed.

(** ** Scopes *)

(** The tree that runs: a row expression runs with its columns resolved. *)
Definition resolved (row : bool) (m : Node) : Node := if row then rewriteRowColumns m else m.

(** The machine's variables agree with the scope; in a row expression only
    [item] is read. *)
Definition in_scope (row : bool) (env : list (string * HostValue)) (scope : Scope) : Prop :=
  if row then exists x, assoc "item" env = Some (HBl x) /\ scope = row_scope x
  else forall x, internal x = false -> assoc x env = HBl <$> scope x.

Definition means (n m : Node) : Prop :=
  forall row env scope, supported row n = true -> in_scope row env scope ->
    run env (resolved row m) ≈ bl_of (feel registered n scope).

Lemma resolved_call row f args : resolved row (call f args) = call f (map (resolved row) args).
Proof. destruct row; cbn; [done|]. by rewrite map_id. Qed.

Lemma resolved_conditional row t c e1 e2 :
  resolved row (ConditionalNode t c e1 e2) = ConditionalNode t (resolved row c) (resolved row e1) (resolved row e2).
Proof. by destruct row. Qed.

Lemma assoc_cons_eq {V} x (v : V) l : assoc x ((x, v) :: l) = Some v.
Proof. unfold assoc. cbn. by rewrite String.eqb_refl. Qed.

Lemma assoc_cons_ne {V} x y (v : V) l : x <> y -> assoc x ((y, v) :: l) = assoc x l.
Proof. intros H. unfold assoc. cbn. by rewrite (proj2 (String.eqb_neq y x)) by congruence. Qed.

Lemma in_scope_internal k h env scope : in_scope false env scope -> in_scope false ((sc_name k, h) :: env) scope.
Proof.
  intros H x Hx. rewrite assoc_cons_ne; [by apply H|]. intros ->. by rewrite internal_sc_name in Hx.
Qed.

Lemma in_scope_bind x v env scope :
  in_scope false env scope -> in_scope false ((x, HBl v) :: env) (bind_name scope x v).
Proof.
  intros H y Hy. unfold bind_name. destruct (String.eqb_spec x y) as [->|Hne]; [by rewrite assoc_cons_eq|].
  rewrite assoc_cons_ne by done. by apply H.
Qed.

Lemma in_scope_row x env : in_scope true (("item"%string, HBl x) :: env) (row_scope x).
Proof. exists x. by rewrite assoc_cons_eq. Qed.

Lemma means_constant row env v : run env (resolved row (constNode v)) ≈ bl_of (Ok v).
Proof. destruct row; apply run_constant. Qed.

Lemma means_emitted row env name b args rs :
  emitted_by name = Some b -> name ∉ native_names ->
  Forall2 (fun a r => run env (resolved row a) ≈ bl_of r) args rs ->
  run env (resolved row (call name args)) ≈ let! vs := sequence rs in bl_of (apply_builtin b vs).
Proof.
  intros Hb Hn Ha. rewrite resolved_call. apply run_emitted; [done..|]. by apply Forall2_fmap_l.
Qed.

Lemma means_identifier x : means (IdentifierNode x) (IdentifierNode x).
Proof.
  intros [] env scope Hx Hs; cbn [supported] in Hx; apply negb_true_iff in Hx; cbn [resolved feel rewriteRowColumns].
  - destruct Hs as (v & Hv & ->). unfold row_scope. destruct (String.eqb_spec x "item") as [->|Hne]; [by apply run_identifier|].
    etransitivity; [eapply (run_emitted _ "componentAccess"); [reflexivity|by apply (bool_decide_unpack _)|]|].
    + constructor; [apply (run_identifier _ _ _ Hv : _ ≈ bl_of (Ok v))|]. constructor; [apply (run_constant _ (BlString x) : _ ≈ bl_of (Ok (BlString x)))|constructor].
    + done.
  - specialize (Hs x Hx). destruct (scope x) as [v|]; cbn in *; [by apply run_identifier|]. by apply same_err, run_unbound.
Qed.

(** Calls of one and two values. *)
Lemma means_call1 row env name b a r :
  emitted_by name = Some b -> name ∉ native_names -> run env (resolved row a) ≈ bl_of r ->
  run env (resolved row (call name [a])) ≈ let! v := r in bl_of (apply_builtin b [v]).
Proof.
  intros Hb Hn Ha. rewrite (means_emitted row env name b [a] [r]); [|done..|by constructor; [|constructor]].
  by destruct r.
Qed.

Lemma means_call2 row env name b a1 a2 r1 r2 :
  emitted_by name = Some b -> name ∉ native_names ->
  run env (resolved row a1) ≈ bl_of r1 -> run env (resolved row a2) ≈ bl_of r2 ->
  run env (resolved row (call name [a1; a2])) ≈ let! v1 := r1 in let! v2 := r2 in bl_of (apply_builtin b [v1; v2]).
Proof.
  intros Hb Hn H1 H2. rewrite (means_emitted row env name b [a1; a2] [r1; r2]); [|done..|by repeat constructor].
  by destruct r1, r2.
Qed.

Lemma bl_of_bind {A} (r : result A) (f : A -> result BlValue) : bl_of (let! x := r in f x) = let! x := r in bl_of (f x).
Proof. by destruct r. Qed.

(** The value of an emitted call whose result is the meaning: [emit "name"]. *)
Ltac not_native := by apply (bool_decide_unpack _).

Lemma means_unary op a a' : means a a' -> means (UnaryNode op a) (patchUnary op a').
Proof.
  intros Ha row env scope Hs Hin. cbn [supported] in Hs. apply andb_true_iff in Hs as [Hop Hs].
  specialize (Ha row env scope Hs Hin). apply bool_decide_eq_true in Hop. unfold patched_unary in Hop.
  rewrite !elem_of_cons, elem_of_nil in Hop. cbn [feel].
  destruct Hop as [->|[->|[->|[->|[]]]]]; unfold patchUnary; cbn [String.eqb Ascii.eqb Bool.eqb orb];
    [(etransitivity; [eapply means_call1; [reflexivity|not_native|exact Ha]|])..|rewrite Ha];
    by destruct (feel registered a scope).
Qed.

Lemma not_logical op :
  bool_decide (op ∈ ["and"; "&&"; "or"; "||"]%string) = false ->
  (String.eqb op "and" || String.eqb op "&&")%bool = false /\ (String.eqb op "or" || String.eqb op "||")%bool = false.
Proof.
  intros Hop%bool_decide_eq_false. rewrite !not_elem_of_cons in Hop. destruct Hop as (?&?&?&?&_).
  rewrite !orb_false_iff, !String.eqb_neq. done.
Qed.

Lemma means_operator c op f l r l' r' :
  assoc op operator_meaning = Some f -> bool_decide (op ∈ ["and"; "&&"; "or"; "||"]%string) = false ->
  means l l' -> means r r' -> means (BinaryNode op l r) (snd (patchBinary c op l' r')).
Proof.
  intros Hf Hop Hl Hr row env scope Hs Hin. cbn [supported] in Hs. rewrite Hop in Hs.
  repeat match goal with H : (_ && _)%bool = true |- _ => apply andb_true_iff in H as [? ?] end.
  destruct (operator_call op f c l' r' Hf) as (fn & b & -> & Hb & Hn & _ & Hm & _).
  rewrite (means_call2 row env fn b l' r' (feel registered l scope) (feel registered r scope)); [|done|done|by apply Hl|by apply Hr].
  cbn [feel]. apply not_logical in Hop as [-> ->]. rewrite Hf.
  destruct (feel registered l scope); [|done]. cbn. destruct (feel registered r scope); [|done]. cbn. by rewrite Hm.
Qed.

(** The short-circuit form: the left operand once, the right one only where the
    left one does not decide. *)
Lemma run_logical c l r guard combine test b env rl rr :
  (forall h, native_function guard [h] = Some (let! v := bl_arg h in Ok (HBool (test v)))) ->
  emitted_by combine = Some b -> combine ∉ native_names ->
  run env l ≈ bl_of rl ->
  (forall h, run ((sc_name (c + 1), h) :: env) r ≈ bl_of rr) ->
  run env (snd (lowerLogical c l r guard combine)) ≈
    let! a := rl in if test a then Ok (HBl a) else let! v := rr in bl_of (apply_builtin b [a; v]).
Proof.
  intros Hg Hb Hn Hl Hr. cbn [lowerLogical snd]. rewrite run_let, Hl. destruct rl as [a|]; [|done]. cbn [bl_of result_bind].
  set (env' := (_, HBl a) :: env). rewrite run_conditional.
  assert (Hv : run env' (resolved false (ident (sc_name (c + 1)))) ≈ bl_of (Ok a)).
  { apply run_identifier, assoc_cons_eq. }
  rewrite (run_guard env' guard test (ident (sc_name (c + 1))) (Ok a)) by done. cbn [result_bind].
  destruct (test a).
  - etransitivity; [eapply (means_call1 false env' "__val"); [reflexivity|not_native|exact Hv]|]. done.
  - etransitivity; [eapply (means_call2 false env' combine); [done|done|exact Hv|exact (Hr _)]|]. done.
Qed.

Lemma means_logical c op l r l' r' :
  op ∈ ["and"; "&&"; "or"; "||"]%string ->
  means l l' -> means r r' -> means (BinaryNode op l r) (snd (patchBinary c op l' r')).
Proof.
  intros Hop Hl Hr row env scope Hs Hin. cbn [supported] in Hs. rewrite bool_decide_eq_true_2 in Hs by done.
  repeat match goal with H : (_ && _)%bool = true |- _ => apply andb_true_iff in H as [? ?] end.
  destruct row; [done|]. specialize (Hl false env scope ltac:(done) Hin). cbn [resolved] in *.
  assert (Hr' : forall h, run ((sc_name (c + 1), h) :: env) r' ≈ bl_of (feel registered r scope)).
  { intros h. apply (Hr false); [done|by apply in_scope_internal]. }
  rewrite !elem_of_cons, elem_of_nil in Hop. cbn [feel].
  destruct Hop as [->|[->|[->|[->|[]]]]]; cbn [patchBinary String.eqb Ascii.eqb Bool.eqb orb];
    (etransitivity; [eapply run_logical; [intros h; reflexivity|reflexivity|not_native|exact Hl|exact Hr']|]);
    destruct (feel registered l scope) as [a|]; try done; cbn [result_bind bl_of];
    cbn [String.eqb Ascii.eqb Bool.eqb orb]; unfold lowerAnd, lowerOr; match goal with |- context [if ?b then _ else _] => destruct b end; try done; by destruct (feel registered r scope).
Qed.

Lemma means_conditional t c e1 e2 c' e1' e2' :
  means c c' -> means e1 e1' -> means e2 e2' ->
  means (ConditionalNode t c e1 e2) (ConditionalNode t (call "__truthy" [c']) e1' e2').
Proof.
  intros Hc H1 H2 row env scope Hs Hin. cbn [supported] in Hs.
  repeat match goal with H : (_ && _)%bool = true |- _ => apply andb_true_iff in H as [? ?] end.
  rewrite resolved_conditional, run_conditional, resolved_call. cbn [map].
  rewrite (run_guard env "__truthy" opTruthy _ (feel registered c scope)); [|done|by apply Hc]. cbn [feel].
  destruct (feel registered c scope) as [v|]; [|done]. cbn [result_bind]. destruct (opTruthy v); [by apply H1|by apply H2].
Qed.

Lemma means_key a a' name : means a a' -> means (MemberNode a (StringNode name) false)
  (call "componentAccess" [a'; constNode (BlString name)]).
Proof.
  intros Ha row env scope Hs Hin. cbn [supported negb andb] in Hs. rewrite andb_true_r in Hs.
  etransitivity; [eapply (means_call2 row env "componentAccess" _ a' _ (feel registered a scope));
    [reflexivity|not_native|by apply Ha|apply means_constant]|].
  cbn [feel stringProperty]. by destruct (feel registered a scope).
Qed.

Lemma supported_weaken n : supported true n = true -> supported false n = true.
Proof.
  assert (Hall : forall ns, Forall (fun n => supported true n = true -> supported false n = true) ns ->
    forallb (supported true) ns = true -> forallb (supported false) ns = true).
  { induction 1; cbn; [done|]. intros [? ?]%andb_true_iff. apply andb_true_iff. auto. }
  induction n as [n IH] using Node_children_ind. destruct n; cbn [supported children] in *; try done.
  - inv IH. intros [? ?]%andb_true_iff. apply andb_true_iff. auto.
  - inv IH. match goal with H : Forall _ [_] |- _ => inv H end. intros [[Hop ?]%andb_true_iff ?]%andb_true_iff.
    rewrite !andb_true_iff. split_and!; [by destruct (bool_decide (operator ∈ _))|auto..].
  - inv IH. repeat match goal with H : Forall _ (_ :: _) |- _ => inv H end.
    intros [[? ?]%andb_true_iff ?]%andb_true_iff. rewrite !andb_true_iff. auto.
  - inv IH. intros [[? ?]%andb_true_iff Hp]%andb_true_iff. rewrite !andb_true_iff. split_and!; [done|auto|].
    cbn [andb]. apply member_cases in Hp as [[s ->]|(Hk & Hs & _)]; [done|]. rewrite Hk, Hs. by destruct n2.
  - inv IH. destruct n; try done. intros [[-> ->]%andb_true_iff Hl]%andb_true_iff. cbn. auto.
  - auto.
Qed.

Lemma means_index row env scope a p a' p' :
  means a a' -> means p p' -> supported row a = true -> supported row p = true -> in_scope row env scope ->
  run env (resolved row (call "__index" [a'; p'])) ≈
    bl_of (let! v := feel registered a scope in let! i := feel registered p scope in indexFn v i).
Proof.
  intros Ha Hp Hsa Hsp Hin.
  etransitivity; [eapply (means_call2 row env "__index" _ a' p'); [reflexivity|not_native|by apply Ha|by apply Hp]|].
  destruct (feel registered a scope); [|done]. by destruct (feel registered p scope).
Qed.

Lemma result_filter_values (test : BlValue -> result BlValue) (test' : HostValue -> result HostValue) items :
  (forall x, test' (HBl x) ≈ let! v := test x in Ok (HBool (opTruthy v))) ->
  result_filter (fun h => let! v := test' h in match v with HBool b => Ok b | _ => Err (TypeError "filter" "not a bool") end)
    (map HBl items) ≈
  let! kept := result_filter (fun x => let! r := test x in Ok (opTruthy r)) items in Ok (map HBl kept).
Proof.
  intros Ht. induction items as [|x items IH]; [done|]. cbn [map result_filter]. rewrite Ht.
  destruct (test x) as [v|]; [|done]. cbn [result_bind]. rewrite IH.
  destruct (result_filter _ items) as [kept|]; [|done]. cbn. by destruct (opTruthy v).
Qed.

Lemma run_items env a r :
  run env a ≈ bl_of r -> run env (call "__items" [a]) ≈ let! v := r in let! items := itemsFn v in Ok (HSlice (map HBl items)).
Proof.
  intros Ha. destruct r as [v|e]; cbn in Ha |- *.
  - eapply run_call; [cbn; by rewrite Ha|done].
  - apply same_err, run_call_error. cbn. by destruct (run env a).
Qed.

Lemma means_filter env scope a p a' p' :
  means a a' -> means p p' -> supported false a = true -> supported true p = true -> in_scope false env scope ->
  run env (lowerFilter a' p' false) ≈
    bl_of (let! v := feel registered a scope in
           let! items := itemsFn v in
           let! kept := result_filter (fun x => let! r := feel registered p (row_scope x) in Ok (opTruthy r)) items in
           Ok (retableFn v kept)).
Proof.
  intros Ha Hp Hsa Hsp Hin. specialize (Ha false env scope Hsa Hin). cbn [resolved] in Ha. unfold lowerFilter. cbv zeta.
  set (filtered := BuiltinNode "filter" _).
  assert (Hf : run env filtered ≈ let! v := feel registered a scope in let! items := itemsFn v in
    let! kept := result_filter (fun x => let! r := feel registered p (row_scope x) in Ok (opTruthy r)) items in
    Ok (HSlice (map HBl kept))).
  { unfold filtered. rewrite run_filter, (run_items env a' _ Ha). destruct (feel registered a scope) as [v|]; [|done].
    cbn [result_bind]. destruct (itemsFn v) as [items|]; [|done]. cbn [result_bind].
    rewrite (result_filter_values (fun x => feel registered p (row_scope x))).
    - by destruct (result_filter _ items).
    - intros x. apply run_guard; [done|]. apply (Hp true); [done|apply in_scope_row]. }
  destruct (feel registered a scope) as [v|e]; cbn [result_bind bl_of] in *.
  2: { apply same_err, run_call_error. cbn. by destruct (run env a'). }
  destruct (itemsFn v) as [items|e]; cbn [result_bind] in *.
  2: { apply same_err, run_call_error. cbn. destruct (run env a'); [|done]. cbn. by destruct (run env filtered). }
  destruct (result_filter _ items) as [kept|e]; cbn [result_bind] in *.
  - eapply run_call; [cbn; rewrite Ha; cbn; by rewrite Hf|]. cbn. by rewrite bl_args_values.
  - apply same_err, run_call_error. cbn. destruct (run env a'); [|done]. cbn. by destruct (run env filtered).
Qed.

Lemma means_member a p a' p' :
  means a a' -> means p p' -> patches p p' -> means (MemberNode a p false) (patchMember a' p' false).
Proof.
  intros Ha Hp Hpp row env scope Hs Hin. pose proof Hs as Hs'. cbn [supported negb andb] in Hs.
  apply andb_true_iff in Hs as [Hsa [[name ->]|(Hk & Hsp & Hr)]%member_cases].
  - patched Hpp. by apply (means_key a a' name).
  - unfold patchMember. rewrite (key_like_patched p p' Hpp Hk).
    destruct (predicate_patched p p' Hpp Hsp) as [Hi Ht]. rewrite (predicate_agrees p p' Hi Ht).
    cbn [feel]. replace (stringProperty p) with (@None string) by (destruct p as [| | | | |[]| | | | | | | | | | | | | |]; done).
    destruct (is_predicate p) eqn:Hip.
    + destruct row; [done|]. by apply means_filter.
    + apply means_index; try done. destruct row; [done|by apply supported_weaken].
Qed.

Lemma feel_all scope ns :
  (fix all (ns : list Node) : result (list BlValue) :=
     match ns with
     | [] => Ok []
     | m :: ns' => let! v := feel registered m scope in let! vs := all ns' in Ok (v :: vs)
     end) ns = sequence (map (fun n => feel registered n scope) ns).
Proof. induction ns as [|n ns IH]; [done|]. cbn. by rewrite IH. Qed.

Lemma means_all row env scope ns ms :
  Forall2 means ns ms -> forallb (supported row) ns = true -> in_scope row env scope ->
  Forall2 (fun a r => run env (resolved row a) ≈ bl_of r) ms (map (fun n => feel registered n scope) ns).
Proof.
  induction 1 as [|n m ns ms Hm _ IH]; cbn; [by constructor|]. intros [Hs Hss]%andb_true_iff Hin.
  constructor; [by apply Hm|by apply IH].
Qed.

Lemma means_function f ns ms : Forall2 means ns ms -> means (CallNode (IdentifierNode f) ns) (CallNode (IdentifierNode f) ms).
Proof.
  intros Hn row env scope Hs Hin. cbn [supported] in Hs.
  apply andb_true_iff in Hs as [[[b Hb]%bool_decide_eq_true Hf%bool_decide_eq_true]%andb_true_iff Hs].
  change (CallNode (IdentifierNode f) ms) with (call f ms). rewrite resolved_call. cbn [feel]. rewrite feel_all, Hb.
  rewrite (run_values env f b _ (map (fun n => feel registered n scope) ns)); [|done..|].
  - by destruct (sequence _).
  - apply Forall2_fmap_l. by apply means_all.
Qed.

Lemma means_array ns ms : Forall2 means ns ms -> means (ArrayNode ns) (call "__mklist" ms).
Proof.
  intros Hn row env scope Hs Hin. cbn [supported] in Hs. cbn [feel]. rewrite feel_all.
  etransitivity; [eapply (means_emitted row env "__mklist"); [reflexivity|not_native|by apply means_all]|].
  by destruct (sequence _).
Qed.

(** ** Dictionary literals *)

(** The patched pair of an identifier key. *)
Lemma patches_pair key v m :
  patches (PairNode (StringNode key) v) m -> exists v', patches v v' /\ m = PairNode (constNode (BlString key)) v'.
Proof.
  intros Hp. patched Hp. match goal with H : patches (StringNode key) _ |- _ => patched H end. eauto.
Qed.

(** The meaning of the entries from the [k]-th on. *)
Definition feel_entries : list Node -> Scope -> list (string * BlValue) -> result BlValue :=
  fix entries ps scope d :=
    match ps with
    | [] => Ok (BlDictionary d)
    | PairNode k v :: ps' =>
        match stringProperty k with
        | Some key => let! x := feel registered v scope in entries ps' (bind_name scope key x) (dict_set d key x)
        | None => entries ps' scope d
        end
    | _ :: ps' => entries ps' scope d
    end.

(** A pair of the source with an identifier key, and the entry [lowerMap] makes. *)
Definition entry_of (pair : Node) (entry : string * bool * Node) : Prop :=
  exists key v v', pair = PairNode (StringNode key) v /\ entry = (key, true, v') /\ means v v' /\
    supported false v = true /\ internal key = false.

Lemma sequence_ok {A} (l : list A) : sequence (map Ok l) = Ok l.
Proof. unfold sequence. induction l as [|x l IH]; [done|]. cbn [map result_map]. by rewrite IH. Qed.

Lemma mkDict_pairs (l : list (string * BlValue)) d :
  mkDict (concat (map (fun p => [BlString (fst p); snd p]) l)) d = Ok (fold_left (fun d p => dict_set d (fst p) (snd p)) l d).
Proof. revert d. induction l as [|[k v] l IH]; intros d; [done|]. cbn. apply IH. Qed.

(** The arguments of [__mkdict], for entries that are all bound. *)
Definition key_args (keys : list string) : list Node := concat (map (fun k => [constNode (BlString k); ident k]) keys).

Lemma run_mkdict env (l : list (string * BlValue)) :
  Forall (fun p => assoc (fst p) env = Some (HBl (snd p))) l ->
  run env (call "__mkdict" (key_args (map fst l))) ≈
    Ok (HBl (BlDictionary (fold_left (fun d p => dict_set d (fst p) (snd p)) l newDictionary))).
Proof.
  intros Hl.
  etransitivity; [eapply (run_emitted env "__mkdict" _ _ (map Ok (concat (map (fun p => [BlString (fst p); snd p]) l))));
    [reflexivity|not_native|]|].
  - induction Hl as [|[k v] l Hk _ IH]; cbn; [constructor|]. constructor; [apply run_constant|].
    constructor; [by apply run_identifier|]. apply IH.
  - rewrite sequence_ok. cbn [result_bind]. unfold apply_builtin. cbn [arity_ok fn_arities fn_impl mkDictFn].
    unfold mkDictFn. by rewrite mkDict_pairs.
Qed.

Definition bind_entries (entries : list (string * bool * Node)) (inner : Node) : Node :=
  fold_right (fun '(key, isIdent, value) inner =>
    if isIdent : bool then VariableDeclaratorNode key value inner else inner) inner entries.

Lemma run_entries pairs rest :
  Forall2 entry_of pairs rest -> forall done env scope,
  in_scope false env scope -> Forall (fun p => assoc (fst p) env = Some (HBl (snd p))) done ->
  NoDup (map fst done ++ map pair_key pairs) ->
  run env (bind_entries rest (call "__mkdict" (key_args (map fst done ++ map pair_key pairs)))) ≈
    bl_of (feel_entries pairs scope (fold_left (fun d p => dict_set d (fst p) (snd p)) done newDictionary)).
Proof.
  induction 1 as [|pair entry pairs rest (key & v & v' & -> & -> & Hv & Hsv & Hi) Hrest IH]; intros dn env scope Hin Hd Hn.
  { cbn [bind_entries fold_right feel_entries map]. rewrite app_nil_r. by apply run_mkdict. }
  cbn [bind_entries fold_right feel_entries stringProperty map pair_key]. rewrite run_let.
  specialize (Hv false env scope Hsv Hin). cbn [resolved] in Hv. rewrite Hv.
  destruct (feel registered v scope) as [x|]; [|done]. cbn [bl_of result_bind].
  assert (Hkeys : map fst dn ++ key :: map pair_key pairs = map fst (dn ++ [(key, x)]) ++ map pair_key pairs)
    by (rewrite map_app, <- app_assoc; done).
  cbn [map pair_key] in Hn. rewrite Hkeys in Hn |- *.
  specialize (IH (dn ++ [(key, x)]) ((key, HBl x) :: env) (bind_name scope key x) (in_scope_bind _ _ _ _ Hin)).
  rewrite fold_left_app in IH. apply IH; [|done]. apply Forall_app. split; [|by constructor; [rewrite assoc_cons_eq|constructor]].
  rewrite Forall_forall in Hd |- *. intros [k' y] Hp. cbn. rewrite assoc_cons_ne; [by apply (Hd _ Hp)|]. intros ->.
  rewrite map_app, <- app_assoc in Hn. apply NoDup_app in Hn as (_ & Hn & _). apply (Hn key); [|by left].
  apply list_elem_of_In in Hp. apply list_elem_of_In. by apply (in_map fst) in Hp.
Qed.

Lemma map_entries_patched pairs kids :
  Forall2 patches pairs kids ->
  Forall (fun pr => forall k v v', pr = PairNode k v -> patches v v' -> means v v') pairs ->
  forallb (fun pr =>
    match pr with
    | PairNode (StringNode key) v => validIdentifier key && negb (internal key) && supported false v
    | _ => false
    end) pairs = true ->
  Forall2 entry_of pairs (map_entries kids) /\ dict_args (map_entries kids) = key_args (map pair_key pairs).
Proof.
  induction 1 as [|pr m pairs kids Hp _ IH]; [by split; [constructor|]|]. cbn [forallb]. intros Hm [Hs Hss]%andb_true_iff. inv Hm.
  destruct (IH ltac:(done) Hss) as [IH1 IH2].
  destruct pr as [| | | | | | | | | | | | | | | | | |k v|]; try discriminate. destruct k as [| |key| | | | | | | | | | | | | | | | |]; try discriminate.
  apply andb_true_iff in Hs as [[Hv Hi%negb_true_iff]%andb_true_iff Hs].
  apply patches_pair in Hp as (v' & Hp & ->). unfold map_entries in *. cbn [omap list_omap stringProperty constNode fmap option_fmap option_map].
  rewrite Hv. split; [constructor; [|done]; exists key, v, v'; split_and!; try done; eauto|].
  unfold dict_args, key_args in *. cbn [map concat pair_key app]. by rewrite <- IH2.
Qed.

Lemma means_map pairs kids :
  Forall2 patches pairs kids ->
  Forall (fun pr => forall k v v', pr = PairNode k v -> patches v v' -> means v v') pairs ->
  means (MapNode pairs) (lowerMap kids).
Proof.
  intros Hp Hm row env scope Hs Hin. cbn [supported] in Hs.
  apply andb_true_iff in Hs as [[Hrow Hn%bool_decide_eq_true]%andb_true_iff Hs]. destruct row; [done|].
  destruct (map_entries_patched pairs kids Hp Hm Hs) as [He Ha]. unfold lowerMap. cbv zeta. rewrite Ha.
  apply (run_entries pairs (map_entries kids) He [] env scope); [done|constructor|done].
Qed.

(** ** The theorem *)

Lemma means_patches n : (forall m, patches n m -> means n m) /\ (forall k v, n = PairNode k v -> forall m, patches v m -> means v m).
Proof.
  induction n as [n IH] using Node_children_ind. split.
  2: { intros k v -> m Hm. cbn in IH. inv IH. match goal with H : Forall _ [_] |- _ => inv H end. naive_solver. }
  assert (IHs : forall ms, Forall2 patches (children n) ms -> Forall2 means (children n) ms).
  { intros ms Hms. induction Hms; inv IH; constructor; naive_solver. }
  intros m Hm. pose proof Hm as Hm'. apply patches_inv in Hm' as (c & kids & Hk & ->).
  pose proof (IHs kids Hk) as Hks.
  destruct n; cbn [children] in *; try (by intros row env scope Hs; discriminate);
    repeat match goal with
    | H : Forall2 _ [] _ |- _ => inv H
    | H : Forall2 _ (_ :: _) _ |- _ => inv H
    end; cbn [with_children Visit snd].
  all: try (by intros row env scope _ _; apply means_constant).
  - apply means_identifier.
  - by apply means_unary.
  - destruct (bool_decide (operator ∈ ["and"; "&&"; "or"; "||"]%string)) eqn:Hop.
    + apply bool_decide_eq_true in Hop. by apply means_logical.
    + intros row env scope Hs. pose proof Hs as Hs'. cbn [supported] in Hs. rewrite Hop in Hs.
      apply andb_true_iff in Hs as [[[f Hf]%bool_decide_eq_true _]%andb_true_iff _]. revert Hs'.
      by apply (means_operator c operator f).
  - by apply means_conditional.
  - destruct method; [by intros row env scope Hs|]. by apply means_member.
  - destruct n; try (by intros row env scope Hs; discriminate).
    match goal with H : patches (IdentifierNode _) _ |- _ => patched H end. by apply means_function.
  - by apply means_array.
  - apply means_map; [done|]. rewrite Forall_forall in IH |- *. intros pr Hpr k v v' E. by apply (proj2 (IH pr Hpr) k v E).
Qed.

(** C18. On the expressions of [supported], what [patch] makes of an expression
    computes the meaning of the expression: the machine's result on the rewritten
    tree is [feel] of the source, for every value of the variables, up to the text
    of errors.  These are the expressions built of literals, variables, operators,
    and, or, conditionals, lists, calls of registered functions, dictionary
    literals whose keys are distinct identifiers, properties, indexes that are not
    bare names, and brackets with a condition, inside which there is no and, no or,
    no dictionary literal and no further condition.  A condition reads its variables
    as columns of the row, the name env included.  Slices, loops and the methods of
    tables are left out, and what the rewriting makes of the other forms is not
    what is documented (logical_condition_is_an_index, columns_below_and_unresolved,
    variable_index_is_a_key, env_pronoun_is_a_column). *)
Theorem patch_preserves_meaning (n : Node) (env : list (string * HostValue)) (scope : Scope) :
  supported false n = true -> (forall x, internal x = false -> assoc x env = HBl <$> scope x) ->
  run env (patch n) ≈ bl_of (feel registered n scope).
Proof.
  intros Hs Hin. apply (proj1 (means_patches n) (patch n)) with (row := false); [|done..]. by exists 0.
Qed.

End Laws.

(** * The rewriting at concrete expressions

    A machine with the laws of [Machine], and what becomes of particular expressions: a dictionary literal with a short circuit,
    a filter, and the forms whose rewriting is not the documented one. *)

From Stdlib Require Import SpecFloat.
From S2P Require Import Registry.
Import Ast.

(** ** A machine *)

Section Vm.
Context {DO : DecimalOps} {DT : DecimalText DO} (registered : string -> option Builtin).

Definition lookup_name (env : list (string * HostValue)) (x : string) : result HostValue :=
  match assoc x env with Some v => Ok v | None => Err (ErrorText ("unknown name " +:+ x)) end.

Definition host_bool (h : HostValue) : result bool :=
  match h with HBool b => Ok b | _ => Err (TypeError "filter" "not a bool") end.

Fixpoint vm_run (env : list (string * HostValue)) (n : Node) : result HostValue :=
  match n with
  | ConstantNode v => Ok (HBl v)
  | IdentifierNode x => lookup_name env x
  | VariableDeclaratorNode x e b => let! v := vm_run env e in vm_run ((x, v) :: env) b
  | ConditionalNode _ c e1 e2 =>
      let! v := vm_run env c in
      match v with HBool b => if b then vm_run env e1 else vm_run env e2 | _ => Err (TypeError "conditional" "not a bool") end
  | CallNode (IdentifierNode f) args =>
      let! hs := (fix all (ns : list Node) : result (list HostValue) :=
        match ns with
        | [] => Ok []
        | m :: ns' => let! v := vm_run env m in let! vs := all ns' in Ok (v :: vs)
        end) args in
      match apply_function registered f hs with Some r => r | None => Err (ErrorText ("unknown name " +:+ f)) end
  | BuiltinNode _ [xs; PredicateNode (VariableDeclaratorNode x _ body)] =>
      let! s := vm_run env xs in
      match s with
      | HSlice items =>
          let! kept := result_filter (fun h => let! v := vm_run ((x, h) :: env) body in host_bool v) items in Ok (HSlice kept)
      | _ => Err (TypeError "filter" "not a slice")
      end
  | _ => Err (ErrorText "unsupported")
  end.

Lemma vm_run_call env f args :
  vm_run env (call f args) =
    let! hs := result_map (vm_run env) args in
    match apply_function registered f hs with Some r => r | None => Err (ErrorText ("unknown name " +:+ f)) end.
Proof.
  cbn. f_equal. induction args as [|a args IH]; [done|]. cbn. by rewrite IH.
Qed.

#[export] Instance vm_machine : Machine registered.
Proof.
  refine {| run := vm_run |}.
  - done.
  - intros env x v H. cbn. unfold lookup_name. by rewrite H.
  - intros env x H. cbn. unfold lookup_name. by rewrite H.
  - intros. cbn. reflexivity.
  - intros. cbn [vm_run]. apply result_bind_same; [reflexivity|]. intros []; try reflexivity. by destruct b.
  - intros env f args hs r Ha%same_ok Hr. rewrite vm_run_call, Ha. cbn. by rewrite Hr.
  - intros env f args Ha. rewrite vm_run_call. by destruct (result_map _ args).
  - intros. cbn [vm_run row_closure]. reflexivity.
Defined.

End Vm.

(** ** Sample expressions *)

#[local] Existing Instance tenDecimal.
#[local] Existing Instance tenText.
#[local] Existing Instance post_order_walker.

Definition sample_functions (name : string) : option Builtin :=
  List.find (fun b => String.eqb (fn_name b) name) emitted.
#[local] Existing Instance vm_machine.

Lemma sample_functions_emitted b : b ∈ emitted -> sample_functions (fn_name b) = Some b.
Proof.
  assert (H : Forall (fun b => sample_functions (fn_name b) = Some b) emitted).
  { unfold emitted, operatorRegistrations, booleanOptions, comprehensionOptions. cbn [app].
    repeat first [apply Forall_nil_2 | apply Forall_cons_2; [reflexivity|]]. }
  rewrite Forall_forall in H. apply H.
Qed.

(** The value of an expression on the sample machine. *)
Definition value_of (env : list (string * BlValue)) (n : Node) : result HostValue :=
  run (registered := sample_functions) (map (fun p => (fst p, HBl (snd p))) env) (patch n).

(** [{a: x, b: a > 1 and y}] *)
Definition sample_dict : Node :=
  MapNode [PairNode (StringNode "a") (ident "x");
           PairNode (StringNode "b")
             (BinaryNode "and" (BinaryNode ">" (ident "a") (IntegerNode 1)) (ident "y"))].
Definition sample_env : list (string * BlValue) := [("x", n_ 2); ("y", BlBoolean true)]%string.

(** A table with the columns [rate] and [qty]. *)
Definition rates : BlValue :=
  BlTable ["rate"; "qty"]%string [[("rate", n_ 12); ("qty", n_ 1)]; [("rate", n_ 3); ("qty", n_ 7)]]%string.
Definition over (column : string) (limit : Z) : Node := BinaryNode ">" (ident column) (IntegerNode limit).
(** [t.method(args)] *)
Definition method_call (t method : string) (args : list Node) : Node :=
  CallNode (MemberNode (ident t) (StringNode method) true) args.

Lemma patch_preserves_meaning_witness :
  supported (registered := sample_functions) false sample_dict = true /\
  value_of sample_env sample_dict ≈ Ok (HBl (BlDictionary [("a", n_ 2); ("b", BlBoolean true)]))%string.
Proof.
  split; [vm_compute; reflexivity|].
  change (Ok (HBl (BlDictionary [("a", n_ 2); ("b", BlBoolean true)]))%string) with
    (bl_of (feel sample_functions sample_dict (fun x => assoc x sample_env))).
  apply (patch_preserves_meaning sample_functions_emitted sample_dict
    (map (fun p => (fst p, HBl (snd p))) sample_env) (fun x => assoc x sample_env)); [vm_compute; reflexivity|].
  intros x _. unfold assoc, sample_env. cbn [map fst snd List.find].
  destruct (String.eqb "x" x); [reflexivity|]. by destruct (String.eqb "y" x).
Defined.

Lemma patch_bindings_unshadowed_witness :
  quiet sample_dict /\ forall e b, subterm (VariableDeclaratorNode (sc_name 1) e b) (patch sample_dict) -> ~ declares (sc_name 1) b.
Proof.
  assert (Hq : quiet sample_dict).
  { repeat (constructor; [vm_compute; try exact I; reflexivity|]; cbn [children]; foralls); constructor. }
  split; [exact Hq|]. intros e b H. exact (proj2 (proj2 (patch_bindings_unshadowed sample_dict 1 e b Hq H))).
Defined.

(** ** Forms whose rewriting is not the documented one *)

(** The filter of the documentation: [t[rate > 10]] keeps the rows of the table. *)
Example filter_by_column :
  value_of [("t"%string, rates)] (MemberNode (ident "t") (over "rate" 10) false) =
    Ok (HBl (BlTable ["rate"; "qty"]%string [[("rate", n_ 12); ("qty", n_ 1)]]%string)).
Proof. reflexivity. Qed.

(** A condition made with [and] or [or] is not recognised as one: the operator was
    already rewritten into a binding when the bracket is visited, so [t[p and q]]
    becomes an index by a boolean, which is null. *)
Theorem logical_condition_is_an_index :
  patch (MemberNode (ident "t") (BinaryNode "and" (ident "p") (ident "q")) false) =
    call "__index" [ident "t"; snd (lowerLogical 0 (ident "p") (ident "q") "__isFalse" "__blAnd")] /\
  value_of [("t", rates); ("rate", n_ 12); ("qty", n_ 7)]%string
    (MemberNode (ident "t") (BinaryNode "and" (over "rate" 10) (over "qty" 5)) false) = Ok (HBl BlNull).
Proof. split; reflexivity. Qed.

(** In the method form the columns below [and] and [or] are left as variables: the
    predicate reads the outer [rate], the same for every row, and where no such
    variable exists the expression fails. *)
Theorem columns_below_and_unresolved :
  value_of [("t", rates); ("rate", n_ 12); ("qty", n_ 7)]%string
    (method_call "t" "filter" [BinaryNode "and" (over "rate" 10) (over "qty" 5)]) = Ok (HBl rates) /\
  is_ok (value_of [("t"%string, rates)] (method_call "t" "filter" [BinaryNode "and" (over "rate" 10) (over "qty" 5)])) = false.
Proof. split; reflexivity. Qed.

(** A variable in a bracket is taken for a key: [xs[i]] reads the component [i] of
    the elements, whatever the value of [i]. *)
Theorem variable_index_is_a_key (xs i : string) :
  patch (MemberNode (ident xs) (ident i) false) = call "componentAccess" [ident xs; constNode (BlString i)] /\
  value_of [("xs", BlList [n_ 10; n_ 20]); ("i", n_ 2)]%string (MemberNode (ident "xs") (ident "i") false) =
    Ok (HBl (BlList [BlNull; BlNull])) /\
  value_of [("xs", BlList [n_ 10; n_ 20])]%string (MemberNode (ident "xs") (IntegerNode 2) false) = Ok (HBl (n_ 20)).
Proof. split_and!; reflexivity. Qed.

(** The pronoun [env] does not reach the variables outside a row expression: it is
    resolved as a column, so the comparison is with null and no row is kept. *)
Theorem env_pronoun_is_a_column :
  value_of [("t", rates); ("limit", n_ 10)]%string
    (MemberNode (ident "t") (BinaryNode ">" (ident "rate") (MemberNode (ident "env") (StringNode "limit") false)) false) =
    Ok (HBl (BlTable ["rate"; "qty"]%string [])).
Proof. reflexivity. Qed.
