(* ===== verification/NormaliseLaws.v ===== *)
(** * The rewriting of sources

    Scans end, whatever they rewrite; splitting at commas loses nothing; the
    first pass doubles single equals signs, keeps string literals, and panics on
    exactly the sources that end inside an escape of a literal. *)

From Stdlib Require Import Strings.Ascii.
From S2P Require Import Prelude Decimal GoText GoTime Values Lists Numbers Strings StringLaws Normalise.
#[global] Open Scope nat_scope.

(** ** Slices *)

Lemma get_None s i : String.get i s = None <-> String.length s <= i.
Proof. revert i. induction s as [|c s IH]; intros [|i]; cbn; [split; [lia|done]|split; [lia|done]|split; [done|lia]|]. rewrite IH. lia. Qed.

Lemma get_Some_lt s i c : String.get i s = Some c -> i < String.length s.
Proof. intros H. destruct (Nat.lt_ge_cases i (String.length s)) as [?|Hge]; [done|]. apply get_None in Hge. congruence. Qed.

Lemma substring_add s i a b : String.substring i (a + b) s = String.substring i a s +:+ String.substring (i + a) b s.
Proof.
  revert i a b. induction s as [|c s IH]; intros i a b; [by destruct i, a, b|]. destruct i as [|i].
  - destruct a as [|a]; [done|]. cbn. rewrite string_cons_app. f_equal. exact (IH 0 a b).
  - cbn. apply IH.
Qed.

Lemma slice_app s i j k : i <= j <= k -> slice s i j +:+ slice s j k = slice s i k.
Proof. intros H. unfold slice. replace (k - i) with ((j - i) + (k - j)) by lia. rewrite substring_add. by replace (i + (j - i)) with j by lia. Qed.

Lemma slice_all s : slice s 0 (String.length s) = s.
Proof. unfold slice. rewrite Nat.sub_0_r. induction s as [|c s IH]; cbn; [done|]. by rewrite IH. Qed.

Lemma slice_char s i c : String.get i s = Some c -> slice s i (S i) = String c "".
Proof.
  unfold slice. replace (S i - i) with 1 by lia. revert i. induction s as [|d s IH]; intros [|i]; cbn; try done.
  - intros [= ->]. by destruct s.
  - apply IH.
Qed.

(** ** Scans *)

Section ScanLaws.
Context {St R : Type} (s : string) (step : nat -> ascii -> St -> round St R) (final : nat -> St -> R).
Variable I : nat -> St -> Prop.
Variable Q : R -> Prop.
Hypothesis Hstep : forall i c st, I i st -> String.get i s = Some c ->
  match step i c st with Stop r => Q r | Go j st' => i < j /\ I j st' end.
Hypothesis Hfinal : forall i st, I i st -> String.length s <= i -> Q (final i st).

Lemma scan_from_inv fuel i st : String.length s < fuel + i -> I i st -> Q (scan_from fuel s i st step final).
Proof.
  revert i st. induction fuel as [|fuel IH]; intros i st Hf Hi; cbn; [apply Hfinal; [done|lia]|].
  destruct (String.get i s) as [c|] eqn:Ec; [|apply Hfinal; [done|by apply get_None]].
  specialize (Hstep i c st Hi Ec). destruct (step i c st) as [r|j st']; [done|]. destruct Hstep. apply IH; [lia|done].
Qed.

(** An invariant of the rounds gives the property of the result. *)
Lemma scan_inv from st : I from st -> Q (scan s from st step final).
Proof. apply scan_from_inv. lia. Qed.
End ScanLaws.

Lemma skip_while_ge f s i : i <= skip_while f s i.
Proof.
  unfold skip_while. apply (scan_inv s _ _ (fun j _ => i <= j)); [|done|lia].
  intros j c _ Hj _. destruct (f c); lia.
Qed.

Lemma skipString_gt s i : i < skipString s i.
Proof.
  unfold skipString. apply (scan_inv s _ _ (fun j _ => i < j)); [|done|lia].
  intros j c _ Hj _. destruct (Ascii.eqb c "\"); [lia|]. destruct (Ascii.eqb c quote_char); lia.
Qed.

Lemma code_scan_inv {St R} s from st (step : nat -> ascii -> St -> round St R) final (I : nat -> St -> Prop) (Q : R -> Prop) :
  (forall i st, I i st -> I (skipString s i) st) ->
  (forall i c st, I i st -> String.get i s = Some c -> c <> quote_char ->
     match step i c st with Stop r => Q r | Go j st' => i < j /\ I j st' end) ->
  (forall i st, I i st -> String.length s <= i -> Q (final i st)) ->
  I from st -> Q (code_scan s from st step final).
Proof.
  intros Hq Hs Hf Hi. unfold code_scan. apply (scan_inv s _ _ I); [|done|done].
  intros i c st' Hst Hc. destruct (Ascii.eqb_spec c quote_char) as [->|Hne]; [split; [apply skipString_gt|by apply Hq]|by apply Hs].
Qed.

(** ** Splitting at commas *)

Definition comma_parts (parts : list string) : string := concat_strings (map (fun p => p +:+ ",") parts).

Lemma comma_parts_cons p parts : comma_parts (p :: parts) = p +:+ "," +:+ comma_parts parts.
Proof. unfold comma_parts. cbn [map]. rewrite concat_cons. apply string_app_assoc. Qed.

Lemma join_snoc parts x : strings_Join (parts ++ [x]) "," = comma_parts parts +:+ x.
Proof.
  induction parts as [|p parts IH]; [done|]. rewrite comma_parts_cons, !string_app_assoc, <- IH. by destruct parts.
Qed.

Lemma comma_parts_snoc parts p : comma_parts (parts ++ [p]) = comma_parts parts +:+ p +:+ ",".
Proof.
  induction parts as [|q parts IH]; cbn [app]; rewrite !comma_parts_cons; [done|]. by rewrite IH, !string_app_assoc.
Qed.

(** Splitting a source at its top-level commas and joining the parts with commas
    gives the source back. *)
Theorem split_commas_join (s : string) : strings_Join (splitTopLevelCommas s) "," = s.
Proof.
  unfold splitTopLevelCommas.
  apply (code_scan_inv s 0 _ _ _ (fun i st => let '(_, start, parts) := st in start <= i /\ start <= String.length s /\ comma_parts parts = slice s 0 start)
           (fun parts => strings_Join parts "," = s)).
  - intros i [[depth start] parts] (H1 & H2 & H3). pose proof (skipString_gt s i). split_and!; [lia|done|done].
  - intros i c [[depth start] parts] (H1 & H2 & H3) Hc _. pose proof (get_Some_lt s i c Hc) as Hlt.
    destruct (is_open c || is_close c); [split_and!; [lia|lia|done|done]|].
    destruct (Ascii.eqb_spec c ",") as [->|_]; cbn [andb]; [|split_and!; [lia|lia|done|done]].
    destruct (depth =? 0)%Z; [|split_and!; [lia|lia|done|done]]. split_and!; [lia|lia|lia|].
    rewrite comma_parts_snoc, H3. rewrite <- (slice_char s i ",") by done. rewrite !slice_app by lia. done.
  - intros i [[depth start] parts] (H1 & H2 & H3) _. rewrite join_snoc, H3. unfold after. rewrite slice_app by lia. apply slice_all.
  - split_and!; [lia|lia|by destruct s].
Qed.

(** ** Termination of the rewriting loops *)

(** How often a byte is in a source. *)
Fixpoint occurrences (c : ascii) (s : string) : nat :=
  match s with EmptyString => 0 | String d s' => (if Ascii.eqb d c then 1 else 0) + occurrences c s' end.

Lemma occurrences_app c a b : occurrences c (a +:+ b) = occurrences c a + occurrences c b.
Proof. induction a as [|d a IH]; [done|]. rewrite string_cons_app. cbn. rewrite IH. lia. Qed.

Lemma occurrences_raw c ps : occurrences c (raw ps) = sum_list_with (fun p => occurrences c (snd p)) ps.
Proof. unfold raw. induction ps as [|p ps IH]; [done|]. cbn [map]. rewrite concat_cons, occurrences_app, IH. done. Qed.

Lemma drop_runes_sum f g ps : sum_list_with g (drop_runes f ps) <= sum_list_with g ps.
Proof. induction ps as [|p ps IH]; cbn; [lia|]. destruct (f (fst p)); cbn; lia. Qed.

Lemma sum_rev {A} (g : A -> nat) ps : sum_list_with g (rev ps) = sum_list_with g ps.
Proof. induction ps as [|p ps IH]; cbn; [done|]. rewrite sum_list_with_app, IH. cbn. lia. Qed.

Lemma occurrences_trim c s : occurrences c (strings_TrimSpace s) <= occurrences c s.
Proof.
  unfold strings_TrimSpace. rewrite occurrences_raw, sum_rev. etrans; [apply drop_runes_sum|]. rewrite sum_rev.
  etrans; [apply drop_runes_sum|]. rewrite <- occurrences_raw. unfold raw. by rewrite decode_concat.
Qed.

Lemma firstSequenceColon_char s i : firstSequenceColon s = Some i -> String.get i s = Some ":"%char.
Proof.
  revert i. unfold firstSequenceColon. apply (code_scan_inv s 0 _ _ _ (fun _ _ => True) (fun r => forall i, r = Some i -> String.get i s = Some ":"%char)); [done| |done|done].
  intros i c stack _ Hc _. destruct (Ascii.eqb_spec c ":") as [->|_]; [|split; [lia|done]].
  destruct stack as [|[k b] stack]; [by intros ? [= <-]|]. destruct (Ascii.eqb b "{"); [split; [lia|done]|by intros ? [= <-]].
Qed.

Lemma seqOperandRight_bounds s from : from <= String.length s -> from <= seqOperandRight s from <= String.length s.
Proof.
  intros H. unfold seqOperandRight. apply (code_scan_inv s from _ _ _ (fun i _ => from <= i) (fun r => from <= r <= String.length s)); [| |lia|lia].
  - intros i _ Hi. pose proof (skipString_gt s i). lia.
  - intros i c depth Hi Hc _. pose proof (get_Some_lt s i c Hc). destruct (is_open c); [lia|]. destruct (is_close c); [destruct (depth =? 0)%Z; lia|].
    destruct ((depth =? 0)%Z && _); [lia|]. destruct (depth =? 0)%Z; [destruct (seqKeywordAt s i); lia|lia].
Qed.

Lemma trim_end_bounds s lo j : lo <= j -> lo <= trim_end s lo j <= j.
Proof.
  induction j as [|j IH]; intros H; cbn [trim_end]; [lia|].
  destruct ((lo <? S j) && char_is is_blank s j) eqn:E; [|lia]. apply andb_prop in E as [E _]. apply Nat.ltb_lt in E. specialize (IH ltac:(lia)). lia.
Qed.

Lemma length_substring s i n : i + n <= String.length s -> String.length (String.substring i n s) = n.
Proof.
  revert i n. induction s as [|c s IH]; intros i n Hn; [destruct i, n; cbn in *; lia|].
  destruct i as [|i]; cbn in *; [|apply IH; lia]. destruct n as [|n]; [done|]. cbn. rewrite IH; lia.
Qed.

Lemma length_slice s i j : i <= j <= String.length s -> String.length (slice s i j) = j - i.
Proof. intros H. apply length_substring. lia. Qed.

Lemma indexTopLevelKeyword_bounds s kw from i :
  indexTopLevelKeyword s kw from = Some i -> from <= i /\ i + String.length kw <= String.length s.
Proof.
  revert i. unfold indexTopLevelKeyword.
  apply (code_scan_inv s from _ _ _ (fun i _ => from <= i) (fun r => forall i, r = Some i -> from <= i /\ i + String.length kw <= String.length s)); [| |done|lia].
  - intros i _ Hi. pose proof (skipString_gt s i). lia.
  - intros i c depth Hi Hc _. cbv zeta. destruct ((_ =? 0)%Z && matchKeyword s i kw) eqn:E; [|lia]. intros ? [= <-]. split; [lia|].
    apply andb_prop in E as [_ E]. unfold matchKeyword in E. cbv zeta in E. repeat (apply andb_prop in E as [E _]). by apply Nat.leb_le.
Qed.

Lemma index_call_bounds fuel s name from i :
  index_call fuel s name from = Some i -> from <= i /\ i + String.length name <= String.length s.
Proof.
  revert from. induction fuel as [|fuel IH]; intros from; cbn [index_call]; [done|].
  destruct (indexTopLevelKeyword s name from) as [idx|] eqn:E; [|done]. apply indexTopLevelKeyword_bounds in E.
  destruct (char_is _ _ _); [by intros [= <-]|]. intros H. apply IH in H. lia.
Qed.

Lemma matchGroupEnd_bounds s i j : matchGroupEnd s i = Some j -> i <= j < String.length s.
Proof.
  revert j. unfold matchGroupEnd. apply (code_scan_inv s i _ _ _ (fun k _ => i <= k) (fun r => forall j, r = Some j -> i <= j < String.length s)); [| |done|lia].
  - intros k _ Hk. pose proof (skipString_gt s k). lia.
  - intros k c depth Hk Hc _. pose proof (get_Some_lt s k c Hc). cbv zeta. destruct (is_close c && _); [intros ? [= <-]; lia|lia].
Qed.

(** The text after a rewritten call is shorter than the text the search had left. *)
Lemma rewrite_shorter s fn from idx j close repl :
  fn <> "" -> from <= idx -> idx + String.length fn <= j <= close -> close < String.length s ->
  String.length (slice s 0 idx +:+ repl +:+ after s (S close)) - (idx + String.length repl) < String.length s - from.
Proof.
  intros Hfn H1 H2 H3. unfold after. rewrite !length_app_string, !length_slice by lia.
  assert (0 < String.length fn) by (destruct fn; [done|cbn; lia]). lia.
Qed.

Lemma rewriteNamedCall_ends fuel s fn params from :
  fn <> "" -> String.length s - from < fuel -> exists r, rewriteNamedCall fuel s fn params from = Done r.
Proof.
  intros Hfn. assert (Hp : 0 < String.length fn) by (destruct fn; [done|cbn; lia]).
  revert s from. induction fuel as [|fuel IH]; intros s from Hf; [lia|]. cbn [rewriteNamedCall].
  destruct (indexTopLevelCallFrom s fn from) as [idx|] eqn:Ei; [|by eexists]. apply index_call_bounds in Ei.
  pose proof (skip_while_ge is_blank s (idx + String.length fn)) as Hj. fold (skip_blanks s) in Hj. cbv zeta.
  destruct (matchGroupEnd s _) as [close|] eqn:Ec; [|by eexists]. apply matchGroupEnd_bounds in Ec.
  destruct (named_args _ []) as [named|]; [|apply IH; lia]. destruct (_ =? length named); [|apply IH; lia].
  apply IH. eapply Nat.lt_le_trans; [eapply (rewrite_shorter s fn from); [done|lia|exact (conj Hj (proj1 Ec))|lia]|lia].
Qed.

Lemma lowerSequence_ends fuel s : occurrences ":" s < fuel -> exists r, lowerSequence fuel s = Done r /\ occurrences ":" r <= occurrences ":" s.
Proof.
  revert s. induction fuel as [|fuel IH]; intros s Hf; [lia|]. cbn [lowerSequence].
  destruct (firstSequenceColon s) as [colon|] eqn:Ec; [|by exists s]. apply firstSequenceColon_char in Ec. cbv zeta.
  pose proof (get_Some_lt s colon _ Ec) as Hlt. set (ls := Nat.min colon _). set (re := trim_end _ _ _).
  assert (Hre : S colon <= re <= String.length s).
  { pose proof (seqOperandRight_bounds s (S colon) ltac:(lia)). unfold re. pose proof (trim_end_bounds s (S colon) (seqOperandRight s (S colon)) ltac:(lia)). lia. }
  destruct (String.eqb _ "" || String.eqb _ ""); [by exists s|]. set (s' := _ +:+ _ +:+ _).
  assert (Hs' : occurrences ":" s' < occurrences ":" s).
  { unfold s', after. rewrite !occurrences_app. pose proof (occurrences_trim ":" (slice s ls colon)). pose proof (occurrences_trim ":" (slice s (S colon) re)).
    assert (Hc : occurrences ":" s = occurrences ":" (slice s 0 ls) + occurrences ":" (slice s ls colon) + 1 +
                 occurrences ":" (slice s (S colon) re) + occurrences ":" (slice s re (String.length s))).
    { rewrite <- (slice_all s) at 1. rewrite <- (slice_app s 0 ls), <- (slice_app s ls colon), <- (slice_app s colon (S colon)), <- (slice_app s (S colon) re) by (unfold ls; lia).
      rewrite !occurrences_app, (slice_char s colon ":") by done. change (occurrences ":" ":") with 1. lia. }
    change (occurrences ":" "seq(") with 0. change (occurrences ":" ", ") with 0. change (occurrences ":" ", 1)") with 0. lia. }
  destruct (IH s' ltac:(lia)) as (r & -> & Hr). exists r. split; [done|lia].
Qed.

(** C24. The sequence pass and the named-argument pass end: one round per colon, and
    one per byte, are enough. *)
Theorem rewriting_ends (fuel : nat) (s : string) :
  (occurrences ":" s < fuel -> exists r, lowerSequence fuel s = Done r /\ occurrences ":" r <= occurrences ":" s) /\
  (String.length s < fuel -> forall fn params, List.In (fn, params) namedArgParams ->
     exists r, rewriteNamedCall fuel s fn params 0 = Done r).
Proof.
  split; [apply lowerSequence_ends|]. intros Hf fn params Hin. apply rewriteNamedCall_ends; [|lia].
  intros ->. cbn in Hin. naive_solver.
Qed.

(** ** Equals signs *)

(** Where a position is: in code, in a literal, or after an escape in one. *)
Inductive mode : Type := Code | Literal | Escape.
Definition next_mode (m : mode) (c : ascii) : mode :=
  match m with
  | Code => if Ascii.eqb c quote_char then Literal else Code
  | Literal => if Ascii.eqb c "\" then Escape else if Ascii.eqb c quote_char then Code else Literal
  | Escape => Literal
  end.
Fixpoint mode_after (m : mode) (s : string) : mode :=
  match s with EmptyString => m | String c s' => mode_after (next_mode m c) s' end.

(** The source ends in an escape of a literal that is still open. *)
Definition dangling (s : string) : bool := match mode_after Code s with Escape => true | _ => false end.

Definition is_relation_or_eq (c : option ascii) : bool :=
  match c with Some p => Ascii.eqb p "<" || Ascii.eqb p ">" || Ascii.eqb p "!" || Ascii.eqb p "=" | None => false end.
Definition starts_eq (s : string) : bool := match s with String c _ => Ascii.eqb c "=" | EmptyString => false end.

(** The reference: an equals sign of the code is doubled unless the byte before
    it is a relation sign or the byte after it is another equals sign. *)
Fixpoint double_equals (prev : option ascii) (m : mode) (s : string) : string :=
  match s with
  | EmptyString => EmptyString
  | String c s' =>
      let rest := double_equals (Some c) (next_mode m c) s' in
      match m with
      | Code => if Ascii.eqb c "=" && negb (is_relation_or_eq prev) && negb (starts_eq s') then String c (String c rest) else String c rest
      | _ => String c rest
      end
  end.

Lemma get_app_r p t k : String.get (String.length p + k) (p +:+ t) = String.get k t.
Proof. induction p as [|c p IH]; [done|]. rewrite string_cons_app. cbn. exact IH. Qed.

Lemma get_app_0 p c t : String.get (String.length p) (p +:+ String c t) = Some c.
Proof. rewrite <- (Nat.add_0_r (String.length p)), get_app_r. done. Qed.

Lemma snoc_app p c t : p +:+ String c t = (p +:+ String c "") +:+ t.
Proof. by rewrite string_app_assoc. Qed.

Lemma length_snoc p c : String.length (p +:+ String c "") = S (String.length p).
Proof. rewrite length_app_string. cbn. lia. Qed.

(** How far a literal goes on in what follows its opening quote. *)
Fixpoint literal_length (u : string) : nat :=
  match u with
  | EmptyString => 0
  | String c u' =>
      if Ascii.eqb c "\" then match u' with EmptyString => 2 | String _ u'' => 2 + literal_length u'' end
      else if Ascii.eqb c quote_char then 1 else S (literal_length u')
  end.

Lemma string_ind2 (P : string -> Prop) :
  P "" -> (forall c, P (String c "")) -> (forall c d s, P s -> P (String d s) -> P (String c (String d s))) -> forall s, P s.
Proof.
  intros H0 H1 H2 s. enough (P s /\ forall c, P (String c s)) by tauto. induction s as [|d s [IH1 IH2]]; [done|]. split; [done|]. intros c. by apply H2.
Qed.

Lemma skip_scan fuel q u :
  String.length u < fuel ->
  scan_from fuel (q +:+ u) (String.length q) tt
    (fun i c _ => if Ascii.eqb c "\" then Go (i + 2) tt else if Ascii.eqb c quote_char then Stop (S i) else Go (S i) tt) (fun i _ => i)
  = String.length q + literal_length u.
Proof.
  revert fuel q. induction u as [|c|c d u IH1 IH2] using string_ind2; intros [|fuel] q Hf; try (cbn in Hf; lia); cbn [scan_from].
  - rewrite <- (Nat.add_0_r (String.length q)), get_app_r. done.
  - rewrite get_app_0. cbn [literal_length]. destruct (Ascii.eqb c "\"); [|destruct (Ascii.eqb c quote_char); [lia|]].
    + destruct fuel; [cbn in Hf; lia|]. cbn [scan_from]. rewrite get_app_r. done.
    + destruct fuel; [cbn in Hf; lia|]. cbn [scan_from]. replace (S (String.length q)) with (String.length q + 1) by lia. rewrite get_app_r. done.
  - rewrite get_app_0. cbn [literal_length]. destruct (Ascii.eqb c "\") eqn:Eb; [|destruct (Ascii.eqb c quote_char); [lia|]].
    + assert (E2 : String.length q + 2 = String.length ((q +:+ String c "") +:+ String d "")) by (rewrite !length_snoc; lia).
      rewrite E2, (snoc_app q), (snoc_app _ d), IH1 by (cbn in Hf; lia). rewrite !length_snoc. lia.
    + rewrite (snoc_app q), <- (length_snoc q c), IH2 by (cbn in Hf |- *; lia). rewrite length_snoc. cbn [literal_length]. lia.
Qed.

Lemma skipString_app p u : skipString (p +:+ String quote_char u) (String.length p) = S (String.length p) + literal_length u.
Proof.
  unfold skipString, scan. rewrite snoc_app. rewrite <- (length_snoc p quote_char). apply skip_scan. rewrite !length_app_string. cbn. lia.
Qed.

(** What follows an opening quote: an open literal, a literal and the code after
    it, or a literal that ends in an escape. *)
Lemma literal_cases u prev :
  (exists lit rest, u = lit +:+ String quote_char rest /\ literal_length u = S (String.length lit) /\
     mode_after Literal u = mode_after Code rest /\ double_equals prev Literal u = lit +:+ String quote_char (double_equals (Some quote_char) Code rest)) \/
  (literal_length u = String.length u /\ mode_after Literal u = Literal /\ double_equals prev Literal u = u) \/
  (literal_length u = S (String.length u) /\ mode_after Literal u = Escape).
Proof.
  revert prev. induction u as [|c|c d u IH1 IH2] using string_ind2; intros prev.
  - right; left. done.
  - cbn [literal_length]. destruct (Ascii.eqb_spec c "\") as [->|Hb]; [right; right; done|].
    destruct (Ascii.eqb_spec c quote_char) as [->|Hq]; [left; exists "", ""; split_and!; done|]. right; left.
    cbn. apply Ascii.eqb_neq in Hb, Hq. rewrite Hb, Hq. done.
  - destruct (Ascii.eqb_spec c "\") as [->|Hb].
    + assert (E0 : literal_length (String "\" (String d u)) = 2 + literal_length u) by done.
      assert (Em : mode_after Literal (String "\" (String d u)) = mode_after Literal u) by done.
      assert (Ed : double_equals prev Literal (String "\" (String d u)) = String "\" (String d (double_equals (Some d) Literal u))) by done.
      destruct (IH1 (Some d)) as [(lit & rest & -> & El & Hm & Hd)|[(El & Hm & Hd)|(El & Hm)]].
      * left. exists (String "\" (String d lit)), rest. rewrite E0, Em, Ed, El, Hm, Hd. split_and!; [done|cbn; lia|done|done].
      * right; left. rewrite E0, Em, Ed, El, Hm, Hd. split_and!; [cbn; lia|done|done].
      * right; right. rewrite E0, Em, El, Hm. split; [cbn; lia|done].
    + destruct (Ascii.eqb_spec c quote_char) as [->|Hq]; [left; exists "", (String d u); split_and!; done|].
      apply Ascii.eqb_neq in Hb, Hq. set (v := String d u) in *.
      assert (E0 : literal_length (String c v) = S (literal_length v)) by (unfold v; cbn [literal_length]; by rewrite Hb, Hq).
      assert (Em : mode_after Literal (String c v) = mode_after Literal v) by (cbn [mode_after next_mode]; by rewrite Hb, Hq).
      assert (Ed : double_equals prev Literal (String c v) = String c (double_equals (Some c) Literal v)) by (cbn [double_equals next_mode]; by rewrite Hb, Hq).
      destruct (IH2 (Some c)) as [(lit & rest & E & El & Hm & Hd)|[(El & Hm & Hd)|(El & Hm)]].
      * left. exists (String c lit), rest. rewrite E0, Em, Ed, El, Hm, Hd, E. split_and!; [done|cbn; lia|done|done].
      * right; left. rewrite E0, Em, Ed, El, Hm, Hd. split_and!; [cbn; lia|done|done].
      * right; right. rewrite E0, Em, El, Hm. split; [cbn; lia|done].
Qed.

(** The byte before a position. *)
Definition last_char (p : string) : option ascii := match String.length p with O => None | S n => String.get n p end.

Lemma last_char_snoc p c : last_char (p +:+ String c "") = Some c.
Proof. unfold last_char. rewrite length_snoc. apply get_app_0. Qed.

Lemma last_char_test f p t : (0 <? String.length p) && char_is f (p +:+ t) (String.length p - 1) = match last_char p with Some c => f c | None => false end.
Proof.
  unfold last_char. destruct (String.length p) as [|n] eqn:E; [done|]. cbn [Nat.ltb Nat.leb andb]. unfold char_is.
  replace (S n - 1) with n by lia. replace (String.get n (p +:+ t)) with (String.get n p); [done|].
  assert (Hn : n < String.length p) by lia. clear E. revert n Hn. induction p as [|c p IH]; intros n Hn; [cbn in Hn; lia|].
  rewrite string_cons_app. destruct n as [|n]; [done|]. cbn in *. apply IH. lia.
Qed.

Definition eq_result (out : string) (prev : option ascii) (t : string) : outcome string :=
  match mode_after Code t with Escape => Panics | _ => Done (out +:+ double_equals prev Code t) end.

Lemma slice_mid a b c : slice (a +:+ b +:+ c) (String.length a) (String.length a + String.length b) = b.
Proof.
  unfold slice. replace (String.length a + String.length b - String.length a) with (String.length b) by lia.
  induction a as [|x a IH]; [|rewrite string_cons_app; exact IH]. cbn [String.length].
  change ("" +:+ (b +:+ c)) with (b +:+ c). induction b as [|x b IH]; [by destruct c|]. rewrite string_cons_app. cbn. by rewrite IH.
Qed.

Lemma literal_done p l rest : literal_length (l +:+ rest) = String.length l ->
  literal (p +:+ String quote_char (l +:+ rest)) (String.length p) = Done (String quote_char l) /\
  skipString (p +:+ String quote_char (l +:+ rest)) (String.length p) = String.length (p +:+ String quote_char l).
Proof.
  intros H. unfold literal. cbv zeta. rewrite skipString_app, H.
  assert (El : String.length (p +:+ String quote_char l) = S (String.length p) + String.length l) by (rewrite length_app_string; cbn; lia).
  split; [|done]. rewrite (proj2 (Nat.leb_le _ _)) by (rewrite length_app_string; cbn; rewrite length_app_string; lia). f_equal.
  pose proof (slice_mid p (String quote_char l) rest) as Hs. rewrite string_cons_app in Hs. etrans; [|exact Hs]. f_equal. cbn. lia.
Qed.

Lemma literal_panics p u : literal_length u = S (String.length u) -> literal (p +:+ String quote_char u) (String.length p) = Panics.
Proof.
  intros H. unfold literal. cbv zeta. rewrite skipString_app, H. rewrite (proj2 (Nat.leb_gt _ _)); [done|]. rewrite length_app_string. cbn. lia.
Qed.

(** The round after one byte of code. *)
Lemma eq_one fuel p c t out
  (IH : forall p t out, String.length t < fuel ->
     scan_from fuel (p +:+ t) (String.length p) out (copy_round (p +:+ t) (eq_step (p +:+ t))) (fun _ out => Done out) = eq_result out (last_char p) t) :
  String.length t < fuel ->
  scan_from fuel (p +:+ String c t) (S (String.length p)) out (copy_round (p +:+ String c t) (eq_step (p +:+ String c t))) (fun _ out => Done out) =
  eq_result out (Some c) t.
Proof. intros Hf. rewrite snoc_app, <- (length_snoc p c), IH by done. by rewrite last_char_snoc. Qed.

(** The rounds of the first pass from a position on. *)
Lemma eq_scan fuel p t out :
  String.length t < fuel ->
  scan_from fuel (p +:+ t) (String.length p) out (copy_round (p +:+ t) (eq_step (p +:+ t))) (fun _ out => Done out) = eq_result out (last_char p) t.
Proof.
  revert p t out. induction fuel as [|fuel IH]; intros p t out Hf; [lia|]. cbn [scan_from]. destruct t as [|c t].
  { rewrite <- (Nat.add_0_r (String.length p)), get_app_r. unfold eq_result. cbn. by rewrite string_app_nil_r. }
  rewrite get_app_0. cbn in Hf. unfold copy_round at 1. destruct (Ascii.eqb_spec c quote_char) as [->|Hq].
  - destruct (literal_cases t (Some quote_char)) as [(lit & rest & -> & El & Hm & Hd)|[(El & Hm & Hd)|(El & Hm)]].
    + assert (El' : literal_length ((lit +:+ String quote_char "") +:+ rest) = String.length (lit +:+ String quote_char "")).
      { rewrite string_app_assoc. change (String quote_char "" +:+ rest) with (String quote_char rest). by rewrite El, length_snoc. }
      rewrite (snoc_app lit). destruct (literal_done p _ rest El') as [-> ->]. cbn [outcome_bind]. set (l := lit +:+ String quote_char "") in *.
      assert (Eq : p +:+ String quote_char (l +:+ rest) = (p +:+ String quote_char l) +:+ rest) by (by rewrite string_app_assoc).
      rewrite Eq, IH; [|cbn in Hf; unfold l; rewrite !length_app_string in *; cbn in Hf; lia].
      assert (Et : l +:+ rest = lit +:+ String quote_char rest) by (symmetry; apply snoc_app). rewrite Et.
      unfold eq_result. cbn [mode_after next_mode]. change (if Ascii.eqb quote_char quote_char then Literal else Code) with Literal. rewrite Hm.
      assert (Elast : last_char (p +:+ String quote_char l) = Some quote_char).
      { unfold l. replace (p +:+ String quote_char (lit +:+ String quote_char "")) with ((p +:+ String quote_char lit) +:+ String quote_char ""); [apply last_char_snoc|by rewrite string_app_assoc]. }
      rewrite Elast. destruct (mode_after Code rest); try done;
        (f_equal; rewrite string_app_assoc; f_equal; change (double_equals (last_char p) Code (String quote_char (lit +:+ String quote_char rest)))
           with (String quote_char (double_equals (Some quote_char) Literal (lit +:+ String quote_char rest))); rewrite Hd; unfold l; by rewrite string_cons_app, string_app_assoc).
    + rewrite <- (string_app_nil_r t) in El |- *. destruct (literal_done p t "" ltac:(by rewrite El, string_app_nil_r)) as [-> ->]. cbn [outcome_bind].
      assert (Eq : p +:+ String quote_char (t +:+ "") = (p +:+ String quote_char t) +:+ "") by (by rewrite string_app_assoc).
      rewrite Eq, IH by (cbn; lia). unfold eq_result. rewrite !string_app_nil_r. cbn [mode_after next_mode].
      change (if Ascii.eqb quote_char quote_char then Literal else Code) with Literal. rewrite Hm.
      change (double_equals (last_char p) Code (String quote_char t)) with (String quote_char (double_equals (Some quote_char) Literal t)). rewrite Hd.
      cbn. by rewrite ?string_app_nil_r.
    + rewrite literal_panics by done. cbn [outcome_bind]. unfold eq_result. cbn [mode_after next_mode].
      change (if Ascii.eqb quote_char quote_char then Literal else Code) with Literal. by rewrite Hm.
  - assert (Hnext : next_mode Code c = Code) by (cbn; by rewrite (proj2 (Ascii.eqb_neq _ _) Hq)).
    unfold eq_step. destruct (Ascii.eqb_spec c "=") as [->|He]; cbn [negb].
    + rewrite last_char_test. fold (is_relation_or_eq (last_char p)).
      assert (En : char_is (Ascii.eqb "=") (p +:+ String "=" t) (S (String.length p)) = starts_eq t).
      { unfold char_is. replace (S (String.length p)) with (String.length p + 1) by lia. rewrite get_app_r. destruct t as [|d t]; [done|]. cbn [String.get starts_eq]. apply Ascii.eqb_sym. }
      rewrite En. destruct (is_relation_or_eq (last_char p)) eqn:Er; [|destruct (starts_eq t) eqn:Es].
      * rewrite (eq_one fuel p "=" t _ IH) by (done || lia). unfold eq_result. cbn [mode_after double_equals]. rewrite Hnext, Er. cbn.
        destruct (mode_after Code t); try done; by rewrite string_app_assoc.
      * destruct t as [|d t]; [done|]. cbn in Es. apply Ascii.eqb_eq in Es as ->.
        assert (E2 : String.length p + 2 = String.length ((p +:+ String "=" "") +:+ String "=" "")) by (rewrite !length_snoc; lia).
        rewrite E2, (snoc_app p), (snoc_app _ "="), IH, last_char_snoc by (cbn in Hf; lia). unfold eq_result. cbn [mode_after double_equals]. rewrite Hnext.
        cbn [starts_eq]. rewrite Er. cbn. destruct (mode_after Code t); try done; by rewrite string_app_assoc.
      * rewrite (eq_one fuel p "=" t _ IH) by (done || lia). unfold eq_result. cbn [mode_after double_equals]. rewrite Hnext, Er, Es. cbn.
        destruct (mode_after Code t); try done; by rewrite string_app_assoc.
    + unfold byte. rewrite (eq_one fuel p c t _ IH) by (done || lia). unfold eq_result. cbn [mode_after double_equals]. rewrite Hnext.
      rewrite (proj2 (Ascii.eqb_neq _ _) He). cbn. destruct (mode_after Code t); try done; by rewrite string_app_assoc.
Qed.

Lemma eqNorm_eq s : eqNorm s = if dangling s then Panics else Done (double_equals None Code s).
Proof.
  unfold eqNorm, copy, scan. pose proof (eq_scan (S (String.length s)) "" s "" ltac:(lia)) as H.
  change ("" +:+ s) with s in H. change (String.length "") with 0 in H. rewrite H. unfold eq_result, dangling. by destruct (mode_after Code s).
Qed.

Lemma double_equals_starts prev m s : starts_eq (double_equals prev m s) = starts_eq s.
Proof. destruct s as [|c s]; [done|]. cbn. destruct m; try done. by destruct (_ && _). Qed.

Lemma double_equals_mode prev m s : mode_after m (double_equals prev m s) = mode_after m s.
Proof.
  revert prev m. induction s as [|c s IH]; intros prev m; [done|]. cbn [double_equals mode_after]. destruct m; cbn [mode_after]; try apply IH.
  destruct (Ascii.eqb_spec c "=") as [->|Hc]; cbn [andb]; [|apply IH]. destruct (_ && _); cbn [mode_after]; apply IH.
Qed.

Lemma double_equals_twice prev m s : double_equals prev m (double_equals prev m s) = double_equals prev m s.
Proof.
  revert prev m. induction s as [|c s IH]; intros prev m; [done|]. cbn [double_equals]. destruct m; cbn [double_equals]; try by rewrite IH.
  destruct (Ascii.eqb_spec c "=") as [->|Hc]; cbn [andb].
  - destruct (is_relation_or_eq prev) eqn:Er; cbn [negb andb double_equals].
    + rewrite Er. cbn [Ascii.eqb negb andb]. rewrite andb_false_r. cbn. by rewrite IH.
    + destruct (starts_eq s) eqn:Es; cbn [negb andb double_equals].
      * rewrite Er, double_equals_starts, Es. cbn. by rewrite IH.
      * rewrite Er. cbn [starts_eq is_relation_or_eq negb]. rewrite !andb_false_r. cbn. by rewrite IH.
  - cbn [double_equals]. rewrite (proj2 (Ascii.eqb_neq _ _) Hc). cbn [andb]. by rewrite IH.
Qed.

(** The first pass doubles the single equals signs of the code and keeps
    everything else, string literals included; it panics on exactly the sources
    that end in an escape of an open literal, and a second run changes nothing. *)
Theorem equals_normalised (s : string) :
  eqNorm s = (if dangling s then Panics else Done (double_equals None Code s)) /\
  (forall r, eqNorm s = Done r -> eqNorm r = Done r).
Proof.
  split; [apply eqNorm_eq|]. intros r. rewrite !eqNorm_eq. destruct (dangling s) eqn:Hd; [done|]. intros [= <-].
  unfold dangling in *. rewrite double_equals_mode, Hd. by rewrite double_equals_twice.
Qed.

(** * Sources that are rewritten

    The passes on the forms the documentation names, and on sources whose
    rewriting the engine cannot parse. *)

#[global] Open Scope nat_scope.

Definition rewrite_source (s : string) : outcome string := normalise 50 namedArgParams s.

(** ** The documented forms *)

Example sequence_form : rewrite_source "1 + 2:5 * 2" = Done "seq(1 + 2, 5 * 2, 1)".
Proof. vm_compute. reflexivity. Qed.
Example range_form : rewrite_source "x in [1..10)" = Done "x in newRange(1, 10, true, false)".
Proof. vm_compute. reflexivity. Qed.
Example between_form : rewrite_source "a and 5 between 1 and 10" = Done "a and(5 >= 1 and 5 <= 10)".
Proof. vm_compute. reflexivity. Qed.
Example named_form : rewrite_source "substring(startPosition: 2, string: name)" = Done "substring(name, 2)".
Proof. vm_compute. reflexivity. Qed.
Example for_form :
  rewrite_source "for x in xs, y in ys return x * y" =
  Done "flatten(__wraplist(map(__items(xs), let x = #; __wraplist(map(__items(ys), let y = #; x * y)))))".
Proof. vm_compute. reflexivity. Qed.
Example conditional_form :
  rewrite_source "if a = NULL then 1 else if b then 2 else 3" = Done "(if a == nil { 1 } else { (if b { 2 } else { 3 }) })".
Proof. vm_compute. reflexivity. Qed.
Example table_form : rewrite_source "t[1, 2].x" = Done "tableIndex(t, 1, 2).x".
Proof. vm_compute. reflexivity. Qed.
Example predicate_rewritten : rewrite_source "remove(l, function(i) i > 2)" = Done "(l)[not (item > 2)]".
Proof. vm_compute. reflexivity. Qed.

(** ** Sources that go wrong *)

(** A source that ends in an escape of an open literal panics, instead of giving
    the parse error a malformed source is to give. *)
Theorem open_escape_panics (fuel : nat) (order : list (string * list string)) (s : string) :
  dangling s = true -> normalise fuel order s = Panics.
Proof. intros H. unfold normalise. by rewrite eqNorm_eq, H. Qed.

Example open_escape : dangling (quote +:+ "abc\") = true.
Proof. reflexivity. Qed.

(** [between] binds tighter than a conditional, but its left operand is taken from
    the start of the source: the [if] goes into both comparisons. *)
Theorem between_in_conditional :
  rewrite_source "if x between 1 and 10 then 1 else 2" = Done "((if x >= 1 and if x <= 10 { 1 } else { 2 }))".
Proof. vm_compute. reflexivity. Qed.

(** Inside brackets [between] and [instance of] are not rewritten at all. *)
Theorem between_in_brackets :
  rewrite_source "not(x between 1 and 10)" = Done "not(x between 1 and 10)" /\
  rewrite_source "not(x instance of number)" = Done "not(x instance of number)".
Proof. split; vm_compute; reflexivity. Qed.

(** After [and], the call that [instance of] becomes is joined to the keyword. *)
Theorem instance_of_joined :
  rewrite_source "x instance of number and y instance of date" =
  Done ("__instanceOf(x, " +:+ quote +:+ "number" +:+ quote +:+ ") and__instanceOf(y, " +:+ quote +:+ "date" +:+ quote +:+ ")").
Proof. vm_compute. reflexivity. Qed.
