(* ===== verification/Messages.v ===== *)
(** * Broker messages

    Models the types of [core/message_broker.go] (requests, registrations,
    jobs, instance events) and [core/process_status.go], and the id generator
    [NewProcessInstanceID]. *)

From S2P Require Import Prelude Decimal GoTime Values Schema.
#[global] Open Scope Z_scope.

(** ** Process status ([process_status.go]) *)

Inductive ProcessStatus : Type :=
| ProcessStatusPending | ProcessStatusRunning | ProcessStatusSuspended
| ProcessStatusCompleted | ProcessStatusCancelled | ProcessStatusFailed.

#[global] Instance ProcessStatus_eq_dec : EqDecision ProcessStatus.
Proof. solve_decision. Defined.

Definition ProcessStatus_String (s : ProcessStatus) : string :=
  match s with
  | ProcessStatusPending => "Pending"
  | ProcessStatusRunning => "Running"
  | ProcessStatusSuspended => "Suspended"
  | ProcessStatusCompleted => "Completed"
  | ProcessStatusCancelled => "Cancelled"
  | ProcessStatusFailed => "Failed"
  end.

(** [Finished] *)
Definition Finished (s : ProcessStatus) : bool :=
  bool_decide (s = ProcessStatusCompleted) || bool_decide (s = ProcessStatusCancelled)
  || bool_decide (s = ProcessStatusFailed).

(** ** Error codes *)

Definition ErrCodeInstanceNotFound : string := "INSTANCE_NOT_FOUND".
Definition ErrCodeAlreadyFinished : string := "ALREADY_FINISHED".
Definition ErrCodeBackpressureDrop : string := "BACKPRESSURE_DROP".

(** ** Keys, requests and registrations *)

Record ProcessKey : Type := mkProcessKey {
  pk_Namespace : string;
  pk_ProcessID : string;
  pk_Version : string
}.

#[global] Instance ProcessKey_eq_dec : EqDecision ProcessKey.
Proof. solve_decision. Defined.

#[global] Instance ProcessKey_countable : Countable ProcessKey.
Proof.
  refine (inj_countable' (fun k => (pk_Namespace k, pk_ProcessID k, pk_Version k))
    (fun '(n, p, v) => mkProcessKey n p v) _). by intros [].
Defined.

(** The zero value of a [ProcessKey], the key of a record that no Submit made. *)
Definition zeroKey : ProcessKey := mkProcessKey "" "" "".

Record CancelRequest : Type := mkCancelRequest {
  cr_Namespace : string; cr_ProcessID : string; cr_Version : string;
  cr_InstanceID : string; cr_Reason : option string
}.
Definition CancelRequest_Key (r : CancelRequest) : ProcessKey :=
  mkProcessKey (cr_Namespace r) (cr_ProcessID r) (cr_Version r).

Record TerminateRequest : Type := mkTerminateRequest {
  tr_Namespace : string; tr_ProcessID : string; tr_Version : string;
  tr_InstanceID : string; tr_Reason : option string
}.
Definition TerminateRequest_Key (r : TerminateRequest) : ProcessKey :=
  mkProcessKey (tr_Namespace r) (tr_ProcessID r) (tr_Version r).

Record StartEventInfo : Type := mkStartEventInfo {
  se_Id : string; se_Name : string; se_InputContract : option InputContract
}.

Record EndEventInfo : Type := mkEndEventInfo {
  ee_Id : string; ee_Name : string; ee_Contract : option OutputContract
}.

Record ProcessRegistration : Type := mkProcessRegistration {
  pr_Namespace : string;
  pr_ProcessID : string;
  pr_Version : string;
  pr_Name : option string;
  pr_Description : option string;
  pr_StartEvents : list StartEventInfo;
  pr_EndEvents : list EndEventInfo;
  pr_AllowExternalCancel : bool;
  pr_AllowExternalTerminate : bool;
  pr_Markdown : string;
  pr_WorkerID : string;
  pr_RegisteredAt : Time;
  pr_LastHeartbeat : Time
}.

Definition ProcessRegistration_Key (r : ProcessRegistration) : ProcessKey :=
  mkProcessKey (pr_Namespace r) (pr_ProcessID r) (pr_Version r).

(** [r.LastHeartbeat = now] *)
Definition set_LastHeartbeat (now : Time) (r : ProcessRegistration) : ProcessRegistration :=
  mkProcessRegistration (pr_Namespace r) (pr_ProcessID r) (pr_Version r) (pr_Name r)
    (pr_Description r) (pr_StartEvents r) (pr_EndEvents r) (pr_AllowExternalCancel r)
    (pr_AllowExternalTerminate r) (pr_Markdown r) (pr_WorkerID r) (pr_RegisteredAt r) now.

(** [r.WorkerID = w; r.RegisteredAt = first; r.LastHeartbeat = now] *)
Definition stamp (w : string) (first now : Time) (r : ProcessRegistration) : ProcessRegistration :=
  mkProcessRegistration (pr_Namespace r) (pr_ProcessID r) (pr_Version r) (pr_Name r)
    (pr_Description r) (pr_StartEvents r) (pr_EndEvents r) (pr_AllowExternalCancel r)
    (pr_AllowExternalTerminate r) (pr_Markdown r) w first now.

(** [&w.regs[i]]: the address of a registration inside a worker's slice. *)
Record RegRef : Type := mkRegRef { rr_slice : nat; rr_index : nat }.

#[global] Instance RegRef_eq_dec : EqDecision RegRef.
Proof. solve_decision. Defined.

Inductive RegistryUpdateKind : Type :=
| RegistryUpdateSnapshot | RegistryUpdateSnapshotComplete | RegistryUpdateAdded
| RegistryUpdateRemoved | RegistryUpdateHeartbeatLost.

#[global] Instance RegistryUpdateKind_eq_dec : EqDecision RegistryUpdateKind.
Proof. solve_decision. Defined.

(** A registry update points at the registration it reports. *)
Record RegistryUpdate : Type := mkRegistryUpdate {
  ru_Kind : RegistryUpdateKind;
  ru_Registration : option RegRef
}.

(** [RegistryUpdate], with its registration. *)
Record RegUpdate : Type := mkRegUpdate {
  ru_kind : RegistryUpdateKind;
  ru_reg : option ProcessRegistration
}.

Section Messages.
Context {DO : DecimalOps}.

(** A Go [map[string]any]. *)
Abbreviation Vars := (list (string * HostValue)).

Record StartRequest : Type := mkStartRequest {
  sr_Namespace : string; sr_ProcessID : string; sr_Version : string;
  sr_StartID : string; sr_Input : Vars; sr_CorrelationKey : option string
}.
Definition StartRequest_Key (r : StartRequest) : ProcessKey :=
  mkProcessKey (sr_Namespace r) (sr_ProcessID r) (sr_Version r).

(** ** Jobs: a tagged union, one payload per kind *)

Inductive JobBody : Type :=
| JobStart (InstanceID StartID : string) (Input : Vars) (CorrelationKey : option string)
| JobRespondToInput (InstanceID RequestID : string) (Payload : Vars)
| JobCancel (InstanceID : string) (Reason : option string)
| JobTerminate (InstanceID : string) (Reason : option string)
| JobResume (InstanceID : string).

Record Job : Type := mkJob { job_Key : ProcessKey; job_body : JobBody }.

(** [Job.InstanceID] *)
Definition Job_InstanceID (j : Job) : string :=
  match job_body j with
  | JobStart i _ _ _ | JobRespondToInput i _ _ | JobCancel i _ | JobTerminate i _ | JobResume i => i
  end.

Definition is_start (j : Job) : bool :=
  match job_body j with JobStart _ _ _ _ => true | _ => false end.

(** ** Instance events: a tagged union *)

Record InstanceError : Type := mkInstanceError { ie_Code : string; ie_Message : string }.

Record EvaluationResult : Type := mkEvaluationResult {
  er_Status : ProcessStatus; er_Context : Vars
}.

Inductive EventBody : Type :=
| InstanceEventLifecycle (phase : ProcessStatus)
| InstanceEventInputRequest (NodeID RequestID : string) (Payload : Vars)
| InstanceEventNodeCompleted (NodeID NodeKind : string) (Outputs : Vars)
| InstanceEventError (err : InstanceError)
| InstanceEventResult (res : EvaluationResult).

Record InstanceEvent : Type := mkInstanceEvent {
  ev_InstanceID : string;
  ev_CorrelationKey : option string;
  ev_OccurredAt : Time;
  ev_body : EventBody
}.

End Messages.

(** ** Process instance ids *)

Definition hexDigit (n : Z) : Ascii.ascii :=
  Ascii.ascii_of_nat (Z.to_nat (if n <? 10 then 48 + n else 87 + n)).

(** [hex.Encode] on a slice of bytes. *)
Fixpoint hexEncode (bs : list Z) : string :=
  match bs with
  | [] => EmptyString
  | b :: bs' => String (hexDigit (b / 16)) (String (hexDigit (b mod 16)) (hexEncode bs'))
  end.

(** [byte(x)] *)
Definition to_byte (x : Z) : Z := x mod 256.

(** The sixteen bytes of [NewProcessInstanceID]: six of the millisecond clock
    [ms], then ten random bytes [r6 .. r15] with the version and variant bits
    forced. *)
Definition instanceIDBytes (ms : Z) (rnd : list Z) : list Z :=
  let ms := uint64 ms in
  let time := [to_byte (Z.shiftr ms 40); to_byte (Z.shiftr ms 32); to_byte (Z.shiftr ms 24);
               to_byte (Z.shiftr ms 16); to_byte (Z.shiftr ms 8); to_byte ms] in
  match rnd with
  | [r6; r7; r8; r9; r10; r11; r12; r13; r14; r15] =>
      time ++ [Z.lor (Z.land r6 15) 112; r7; Z.lor (Z.land r8 63) 128; r9;
               r10; r11; r12; r13; r14; r15]
  | _ => []
  end.

(** [NewProcessInstanceID] *)
Definition NewProcessInstanceID (ms : Z) (rnd : list Z) : string :=
  let b := instanceIDBytes ms rnd in
  let slice i j := hexEncode (firstn (j - i) (skipn i b)) in
  slice 0%nat 4%nat +:+ "-" +:+ slice 4%nat 6%nat +:+ "-" +:+ slice 6%nat 8%nat +:+ "-"
    +:+ slice 8%nat 10%nat +:+ "-" +:+ slice 10%nat 16%nat.

(** ** Instance ids are ordered by time *)

Definition is_byte (b : Z) : Prop := 0 <= b < 256.

(** The number a list of bytes spells, most significant first. *)
Definition be (bs : list Z) : Z := fold_right (fun b f acc => f (acc * 256 + b)) id bs 0.

Lemma be_acc bs acc :
  fold_right (fun b f acc => f (acc * 256 + b)) id bs acc = acc * 256 ^ Z.of_nat (length bs) + be bs.
Proof.
  unfold be. revert acc. induction bs as [|b bs IH]; intros acc; cbn [fold_right length].
  - unfold id. lia.
  - rewrite (IH (acc * 256 + b)), (IH (0 * 256 + b)), Nat2Z.inj_succ, Z.pow_succ_r by lia. ring.
Qed.

Lemma be_cons b bs : be (b :: bs) = b * 256 ^ Z.of_nat (length bs) + be bs.
Proof. unfold be at 1. cbn [fold_right]. rewrite be_acc. ring. Qed.

Lemma be_bound bs : Forall is_byte bs -> 0 <= be bs < 256 ^ Z.of_nat (length bs).
Proof.
  induction 1 as [|b bs Hb _ IH]; [unfold be; simpl; unfold id; lia|].
  rewrite be_cons. cbn [length]. rewrite Nat2Z.inj_succ, Z.pow_succ_r by lia.
  unfold is_byte in Hb. nia.
Qed.

Lemma string_compare_app a b x y :
  String.length a = String.length b ->
  String.compare (a +:+ x) (b +:+ y) =
  match String.compare a b with Eq => String.compare x y | c => c end.
Proof.
  revert b; induction a as [|c a IH]; intros [|d b]; simpl; try done.
  intros [= Hl]. rewrite IH by done. by destruct (Ascii.compare c d).
Qed.

Lemma hexDigit_compare m n :
  0 <= m < 16 -> 0 <= n < 16 -> Ascii.compare (hexDigit m) (hexDigit n) = (m ?= n).
Proof.
  intros Hm Hn.
  assert (Hall : forall i j, (i < 16)%nat -> (j < 16)%nat ->
    Ascii.compare (hexDigit (Z.of_nat i)) (hexDigit (Z.of_nat j)) = (Z.of_nat i ?= Z.of_nat j)).
  { intros i j Hi Hj. do 16 (destruct i as [|i]; [do 16 (destruct j as [|j]; [reflexivity|]); lia|]). lia. }
  specialize (Hall (Z.to_nat m) (Z.to_nat n)). rewrite !Z2Nat.id in Hall by lia. apply Hall; lia.
Qed.

Lemma hexEncode_length bs : String.length (hexEncode bs) = (2 * length bs)%nat.
Proof. induction bs; simpl; lia. Qed.

Lemma hexEncode_compare l1 l2 :
  Forall is_byte l1 -> Forall is_byte l2 -> length l1 = length l2 ->
  String.compare (hexEncode l1) (hexEncode l2) = (be l1 ?= be l2).
Proof.
  intros H1. revert l2. induction H1 as [|a l1 Ha H1 IH]; intros l2 H2 Hl.
  - by destruct l2.
  - destruct l2 as [|b l2]; [done|]. inversion H2 as [|? ? Hb H2']; subst.
    injection Hl as Hl. cbn [hexEncode String.compare].
    unfold is_byte in Ha, Hb.
    rewrite !hexDigit_compare, (IH l2) by (try apply Z.mod_pos_bound; done || (split; [apply Z.div_pos|apply Z.div_lt_upper_bound]; lia)).
    rewrite !be_cons, <- Hl. pose proof (be_bound _ H1). pose proof (be_bound _ H2').
    rewrite <- Hl in *. set (P := 256 ^ Z.of_nat (length l1)) in *.
    pose proof (Z.div_mod a 16). pose proof (Z.div_mod b 16).
    pose proof (Z.mod_pos_bound a 16). pose proof (Z.mod_pos_bound b 16).
    destruct (Z.compare_spec (a / 16) (b / 16)); [|symmetry; apply Z.compare_lt_iff; nia|symmetry; apply Z.compare_gt_iff; nia].
    destruct (Z.compare_spec (a mod 16) (b mod 16)); [|symmetry; apply Z.compare_lt_iff; nia|symmetry; apply Z.compare_gt_iff; nia].
    assert (a = b) as -> by lia. symmetry. apply Z.add_compare_mono_l.
Qed.

Definition wf_random (rnd : list Z) : Prop := length rnd = 10%nat /\ Forall is_byte rnd.

(** The six clock bytes spell the clock. *)
Lemma instanceIDBytes_time ms rnd :
  0 <= ms < 2 ^ 48 -> wf_random rnd ->
  exists b0 b1 b2 b3 b4 b5 rest,
    instanceIDBytes ms rnd = [b0; b1; b2; b3] ++ [b4; b5] ++ rest /\ length rest = 10%nat /\
    Forall is_byte [b0; b1; b2; b3] /\ Forall is_byte [b4; b5] /\
    be [b0; b1; b2; b3] * 65536 + be [b4; b5] = ms.
Proof.
  intros Hms [Hlen _]. do 10 (destruct rnd as [|? rnd]; [done|]). destruct rnd; [|done].
  unfold instanceIDBytes. rewrite (uint64_id ms) by lia. unfold to_byte. do 7 eexists.
  split; [reflexivity|]. split; [reflexivity|].
  assert (Hb : forall x, is_byte (x mod 256)) by (intros x; apply Z.mod_pos_bound; lia).
  split; [repeat constructor; apply Hb|]. split; [repeat constructor; apply Hb|].
  rewrite !be_cons, !Z.shiftr_div_pow2 by lia. unfold be. simpl. unfold id.
  rewrite !Z.mod_eq by lia.
  change (2 ^ 40) with (2 ^ 32 * 256). change (2 ^ 32) with (2 ^ 24 * 256).
  change (2 ^ 24) with (2 ^ 16 * 256). change (2 ^ 16) with (2 ^ 8 * 256).
  rewrite <- !Z.div_div by lia. change (2 ^ 8) with 256.
  assert (Htop : ms / 256 / 256 / 256 / 256 / 256 / 256 = 0).
  { rewrite !Z.div_div by lia. apply Z.div_small. lia. }
  rewrite Htop. lia.
Qed.

(** Instance ids sort by creation time: an id made in an earlier millisecond
    is byte-wise smaller, whatever the random bytes, as long as the clock fits
    in 48 bits (until the year 10889). *)
Theorem instance_id_time_ordered ms1 ms2 rnd1 rnd2 :
  0 <= ms1 < ms2 -> ms2 < 2 ^ 48 -> wf_random rnd1 -> wf_random rnd2 ->
  string_cmp (NewProcessInstanceID ms1 rnd1) (NewProcessInstanceID ms2 rnd2) = -1.
Proof.
  intros Hlt Hmax Hr1 Hr2. unfold NewProcessInstanceID, string_cmp.
  destruct (instanceIDBytes_time ms1 rnd1 ltac:(lia) Hr1)
    as (a0 & a1 & a2 & a3 & a4 & a5 & ra & -> & _ & Ha & Ha' & Hta).
  destruct (instanceIDBytes_time ms2 rnd2 ltac:(lia) Hr2)
    as (b0 & b1 & b2 & b3 & b4 & b5 & rb & -> & _ & Hb & Hb' & Htb).
  pose proof (be_bound _ Ha'). pose proof (be_bound _ Hb').
  cbn [app firstn skipn Nat.sub length] in *.
  rewrite (string_compare_app (hexEncode [a0; a1; a2; a3])) by done.
  rewrite (hexEncode_compare [a0; a1; a2; a3] [b0; b1; b2; b3]) by done.
  destruct (Z.compare_spec (be [a0; a1; a2; a3]) (be [b0; b1; b2; b3])); [|done|lia].
  rewrite (string_compare_app "-" "-") by done.
  change (String.compare "-" "-") with Eq. cbv iota.
  rewrite (string_compare_app (hexEncode [a4; a5]) (hexEncode [b4; b5])) by done.
  rewrite (hexEncode_compare [a4; a5] [b4; b5]) by done.
  destruct (Z.compare_spec (be [a4; a5]) (be [b4; b5])); [lia|done|lia].
Qed.

Lemma instance_id_time_ordered_witness :
  string_cmp (NewProcessInstanceID 1700000000000 (replicate 10 255))
             (NewProcessInstanceID 1700000000001 (replicate 10 0)) = -1.
Proof.
  apply instance_id_time_ordered; [lia|lia|..]; (split; [reflexivity|repeat constructor; lia]).
Defined.
