(* ===== verification/Wire.v ===== *)
(** * The broker wire format and payload encryption

    Models [core/message_broker_wire.go] (the versioned envelope) and
    [core/payload_cipher.go] (the payload cipher).  The CBOR library and the
    AES-GCM primitive are parameters, with the round trip each documents as a
    class of laws. *)

From Stdlib Require Import Strings.Byte.
From S2P Require Import Prelude Decimal GoTime Values Schema Messages.
#[global] Open Scope Z_scope.

Abbreviation bytes := (list Byte.byte).

(** ** The payload cipher ([payload_cipher.go]) *)

(** A run of [rand.Read]: the bytes it fills a buffer of a given size with. *)
Abbreviation Rand := (nat -> result bytes).

(** [PayloadCipher] *)
Record PayloadCipher : Type := mkPayloadCipher {
  KeyID : string;
  Encrypt : Rand -> bytes -> result (bytes * bytes);
  Decrypt : string -> bytes -> bytes -> result bytes
}.

(** [cipher.AEAD], with no additional data. *)
Record AEAD : Type := mkAEAD {
  NonceSize : nat;
  Seal : bytes -> bytes -> bytes;
  Open_ : bytes -> bytes -> result bytes
}.

(** [aesGCMPayloadCipher]: its [KeyID], [Encrypt] and [Decrypt] methods. *)
Definition aesGCM_Encrypt (aead : AEAD) (rand : Rand) (plaintext : bytes) : result (bytes * bytes) :=
  let! nonce := rand (NonceSize aead) in
  Ok (Seal aead nonce plaintext, nonce).

Definition aesGCM_Decrypt (keyID : string) (aead : AEAD) (kid : string) (nonce ciphertext : bytes)
  : result bytes :=
  if negb (String.eqb kid keyID) then Err (UnknownKeyIDError kid)
  else if negb (length nonce =? NonceSize aead)%nat
  then Err (ErrorText "payload cipher: bad nonce length")
  else Open_ aead nonce ciphertext.

Definition aesGCMPayloadCipher (keyID : string) (aead : AEAD) : PayloadCipher :=
  mkPayloadCipher keyID (aesGCM_Encrypt aead) (aesGCM_Decrypt keyID aead).

(** [NewAESGCMPayloadCipher]; [newGCM] is [aes.NewCipher] then [cipher.NewGCM]. *)
Definition NewAESGCMPayloadCipher (newGCM : bytes -> result AEAD) (keyID : string) (key : bytes)
  : result PayloadCipher :=
  if String.eqb keyID "" then Err (ErrorText "payload cipher: empty key id")
  else if negb (length key =? 32)%nat
  then Err (ErrorText "payload cipher: AES-256-GCM needs a 32-byte key")
  else let! aead := newGCM key in Ok (aesGCMPayloadCipher keyID aead).

(** ** The envelope ([message_broker_wire.go]) *)

Definition EnvelopeVersion : Z := 1.

Definition KindJobStart : string := "job.start".
Definition KindJobRespondToInput : string := "job.respond".
Definition KindJobCancel : string := "job.cancel".
Definition KindJobTerminate : string := "job.terminate".
Definition KindJobResume : string := "job.resume".
Definition KindInstanceEvent : string := "inst.event".
Definition KindRegistration : string := "registry.reg".
Definition KindRegistryUpdate : string := "registry.update".

(** [Envelope] *)
Record Envelope : Type := mkEnvelope {
  env_V : Z;
  env_Kind : string;
  env_InstanceID : string;
  env_CorrelationKey : option string;
  env_KeyID : option string;
  env_Nonce : bytes;
  env_Payload : bytes
}.

(** The CBOR library at a type: [cborEnc.Marshal] and [cborDec.Unmarshal]. *)
Class Cbor (A : Type) : Type := {
  Marshal : A -> result bytes;
  Unmarshal : bytes -> result A
}.

(** A type whose encoded values decode to themselves. *)
Class CborLaws (A : Type) `{!Cbor A} : Prop := {
  cbor_roundtrip (a : A) (d : bytes) : Marshal a = Ok d -> Unmarshal d = Ok a
}.

Section Envelopes.
Context `{!Cbor Envelope} {B : Type} `{!Cbor B}.

(** [fmt.Errorf("...: %w", err)] on the error of [r]. *)
Definition wrap_err {A} (text : string) (r : result A) : result A :=
  match r with
  | Ok a => Ok a
  | Err e => Err (WrapError text e)
  end.

(** The encryption step of [EncodeEnvelope]. *)
Definition seal_envelope (cipher : option PayloadCipher) (rand : Rand) (kind : string)
    (env : Envelope) : result Envelope :=
  match cipher with
  | None => Ok env
  | Some c =>
      let! cn := wrap_err ("message broker: encrypt " +:+ kind +:+ " payload")
                   (Encrypt c rand (env_Payload env)) in
      Ok (mkEnvelope (env_V env) (env_Kind env) (env_InstanceID env) (env_CorrelationKey env)
            (Some (KeyID c)) (snd cn) (fst cn))
  end.

(** [EncodeEnvelope] *)
Definition EncodeEnvelope (kind instanceID : string) (correlationKey : option string) (body : B)
    (cipher : option PayloadCipher) (rand : Rand) : result bytes :=
  let! payload := wrap_err ("message broker: encode " +:+ kind +:+ " payload") (Marshal body) in
  let! env := seal_envelope cipher rand kind
      (mkEnvelope EnvelopeVersion kind instanceID correlationKey None [] payload) in
  wrap_err "message broker: encode envelope" (Marshal env).

(** [DecodeEnvelope] *)
Definition DecodeEnvelope (data : bytes) (cipher : option PayloadCipher) : result Envelope :=
  let! env := wrap_err "message broker: decode envelope" (Unmarshal data) in
  if negb (env_V env =? EnvelopeVersion) then Err (UnknownEnvelopeVersionError (env_V env))
  else match env_KeyID env with
       | None => Ok env
       | Some kid =>
           match cipher with
           | None => Err (UnknownKeyIDError kid)
           | Some c =>
               let! plaintext := wrap_err "message broker: decrypt payload"
                                   (Decrypt c kid (env_Nonce env) (env_Payload env)) in
               Ok (mkEnvelope (env_V env) (env_Kind env) (env_InstanceID env)
                     (env_CorrelationKey env) None [] plaintext)
           end
       end.

(** [DecodePayload] *)
Definition DecodePayload (env : Envelope) : result B :=
  wrap_err ("message broker: decode " +:+ env_Kind env +:+ " payload") (Unmarshal (env_Payload env)).

End Envelopes.

(** ** Laws of the primitives *)

(** [rand.Read] fills the whole buffer or fails. *)
Definition fills (rand : Rand) : Prop := forall n b, rand n = Ok b -> length b = n.

(** A cipher whose [Decrypt] undoes its [Encrypt] and refuses other keys. *)
Class CipherLaws (c : PayloadCipher) : Prop := {
  cipher_roundtrip rand p ct nonce :
    fills rand -> Encrypt c rand p = Ok (ct, nonce) -> Decrypt c (KeyID c) nonce ct = Ok p;
  cipher_foreign_key kid nonce ct :
    kid <> KeyID c -> Decrypt c kid nonce ct = Err (UnknownKeyIDError kid)
}.

(** [cipher.AEAD]: opening what was sealed under the same nonce. *)
Class AEADLaws (a : AEAD) : Prop := {
  aead_roundtrip nonce p : length nonce = NonceSize a -> Open_ a nonce (Seal a nonce p) = Ok p
}.

(** The AES-GCM payload cipher keeps the promise of a [PayloadCipher]. *)
#[global] Instance aesGCM_laws keyID aead : AEADLaws aead -> CipherLaws (aesGCMPayloadCipher keyID aead).
Proof.
  intros Ha. constructor; simpl.
  - intros rand p ct nonce Hr. unfold aesGCM_Encrypt, aesGCM_Decrypt.
    destruct (rand _) as [n|] eqn:E; simpl; [|done]. intros [= <- <-].
    apply Hr in E. rewrite String.eqb_refl, E, Nat.eqb_refl. simpl. by apply aead_roundtrip.
  - intros kid nonce ct Hne. unfold aesGCM_Decrypt.
    by destruct (String.eqb_spec kid keyID).
Qed.

Section EnvelopeLaws.
Context `{!Cbor Envelope, !CborLaws Envelope} {B : Type} `{!Cbor B, !CborLaws B}.

Lemma wrap_err_ok {A} text (r : result A) a : wrap_err text r = Ok a <-> r = Ok a.
Proof. destruct r; simpl; split; congruence. Qed.

Lemma seal_envelope_ok cipher rand kind env env' :
  seal_envelope cipher rand kind env = Ok env' ->
  match cipher with
  | None => env' = env
  | Some c => exists ct nonce, Encrypt c rand (env_Payload env) = Ok (ct, nonce) /\
      env' = mkEnvelope (env_V env) (env_Kind env) (env_InstanceID env) (env_CorrelationKey env)
               (Some (KeyID c)) nonce ct
  end.
Proof.
  destruct cipher as [c|]; simpl; [|congruence].
  destruct (Encrypt c rand _) as [[ct nonce]|]; simpl; [|done]. intros [= <-]. eauto.
Qed.

Lemma EncodeEnvelope_ok kind inst corr (body : B) cipher rand d :
  EncodeEnvelope kind inst corr body cipher rand = Ok d ->
  exists payload env, Marshal body = Ok payload /\
    seal_envelope cipher rand kind (mkEnvelope EnvelopeVersion kind inst corr None [] payload) = Ok env /\
    Marshal env = Ok d.
Proof.
  unfold EncodeEnvelope. destruct (Marshal body) as [payload|]; simpl; [|done].
  destruct (seal_envelope _ _ _ _) as [env|] eqn:E; simpl; [|done].
  rewrite wrap_err_ok. eauto.
Qed.

Lemma DecodeEnvelope_encoded kind inst corr (body : B) cipher rand d :
  (forall c, cipher = Some c -> CipherLaws c) -> fills rand ->
  EncodeEnvelope kind inst corr body cipher rand = Ok d ->
  exists payload, Unmarshal payload = Ok body /\
    DecodeEnvelope d cipher = Ok (mkEnvelope EnvelopeVersion kind inst corr None [] payload).
Proof.
  intros Hc Hr He. apply EncodeEnvelope_ok in He as (payload & env & Hp & Hs & Hm).
  apply cbor_roundtrip in Hm. apply cbor_roundtrip in Hp. apply seal_envelope_ok in Hs.
  unfold DecodeEnvelope. rewrite Hm. destruct cipher as [c|]; simpl.
  - destruct Hs as (ct & nonce & He & ->). simpl in *.
    rewrite (@cipher_roundtrip c (Hc c eq_refl) _ _ _ _ Hr He). simpl. eauto.
  - subst env. simpl. eauto.
Qed.

(** C38. The wire format round trips: an envelope that encodes is decoded, under the
    same cipher or none, to its kind, instance id and correlation key, with the
    encryption fields cleared, and its payload decodes to the body. *)
Theorem envelope_roundtrip kind inst corr (body : B) cipher rand d :
  (forall c, cipher = Some c -> CipherLaws c) -> fills rand ->
  EncodeEnvelope kind inst corr body cipher rand = Ok d ->
  exists env, DecodeEnvelope d cipher = Ok env /\
    env_Kind env = kind /\ env_InstanceID env = inst /\ env_CorrelationKey env = corr /\
    env_KeyID env = None /\ env_Nonce env = [] /\
    DecodePayload env = Ok body.
Proof.
  intros Hc Hr He. destruct (DecodeEnvelope_encoded _ _ _ _ _ _ _ Hc Hr He) as (payload & Hp & ->).
  eexists. repeat split; simpl; try done. unfold DecodePayload. simpl. by rewrite Hp.
Qed.

(** A payload is processed only when it can be read: an envelope of another
    version is refused whatever the cipher, an encrypted one is refused without
    a cipher and under a cipher of another key, and in each case the error
    names the version or the key. *)
Theorem envelope_rejects_unreadable d env cipher :
  Unmarshal d = Ok env ->
  (env_V env <> EnvelopeVersion ->
     DecodeEnvelope d cipher = Err (UnknownEnvelopeVersionError (env_V env))) /\
  (forall kid, env_V env = EnvelopeVersion -> env_KeyID env = Some kid ->
     DecodeEnvelope d None = Err (UnknownKeyIDError kid) /\
     forall c, CipherLaws c -> KeyID c <> kid ->
       exists e, DecodeEnvelope d (Some c) = Err e /\ error_root e = UnknownKeyIDError kid).
Proof.
  intros Hu. unfold DecodeEnvelope. rewrite Hu. simpl. split.
  - intros Hv. by destruct (Z.eqb_spec (env_V env) EnvelopeVersion).
  - intros kid -> ->. simpl. split; [done|]. intros c Hc Hne.
    rewrite (@cipher_foreign_key c Hc) by done. simpl. eauto.
Qed.

End EnvelopeLaws.

(** ** A concrete codec and cipher *)

(** A serializer: a prefix-free code and its parser. *)
Class Ser (A : Type) : Type := {
  put : A -> bytes;
  get : bytes -> option (A * bytes);
  get_put a rest : get (put a ++ rest) = Some (a, rest)
}.

(** Bytes: each preceded by [x01], the whole ended by [x00]. *)
Fixpoint put_bytes (b : bytes) : bytes :=
  match b with
  | [] => [x00]
  | x :: b' => x01 :: x :: put_bytes b'
  end.

Fixpoint get_bytes (d : bytes) : option (bytes * bytes) :=
  match d with
  | x00 :: d' => Some ([], d')
  | x01 :: x :: d' => match get_bytes d' with Some (b, rest) => Some (x :: b, rest) | None => None end
  | _ => None
  end.

Lemma get_put_bytes b rest : get_bytes (put_bytes b ++ rest) = Some (b, rest).
Proof. induction b as [|x b IH]; simpl; [done|]. by rewrite IH. Qed.

#[global] Instance Ser_bytes : Ser bytes := {| put := put_bytes; get := get_bytes; get_put := get_put_bytes |}.

(** A type with an injection into a serializable one. *)
Definition Ser_inj {A B} `{!Ser A} (f : B -> A) (g : A -> option B) (Hgf : forall x, g (f x) = Some x) : Ser B.
Proof.
  refine {| put b := put (f b);
            get d := match get d with Some (a, rest) => option_map (fun b => (b, rest)) (g a) | None => None end |}.
  intros b rest. by rewrite get_put, Hgf.
Defined.

#[global] Instance Ser_string : Ser string :=
  Ser_inj String.list_byte_of_string (fun l => Some (String.string_of_list_byte l))
    (fun x => f_equal Some (String.string_of_list_byte_of_string x)).

(** Numbers: the binary digits of their code. *)
Fixpoint pos_bytes (p : positive) : bytes :=
  match p with
  | xH => []
  | xO p' => x00 :: pos_bytes p'
  | xI p' => x01 :: pos_bytes p'
  end.

Fixpoint bytes_pos (b : bytes) : positive :=
  match b with
  | [] => xH
  | x00 :: b' => xO (bytes_pos b')
  | _ :: b' => xI (bytes_pos b')
  end.

Lemma bytes_pos_bytes p : bytes_pos (pos_bytes p) = p.
Proof. induction p as [p IH|p IH|]; simpl; by rewrite ?IH. Qed.

#[global] Instance Ser_Z : Ser Z.
Proof.
  refine (Ser_inj (fun z => pos_bytes (encode z)) (fun b => decode (bytes_pos b)) _).
  intros z. by rewrite bytes_pos_bytes, decode_encode.
Defined.

#[global] Instance Ser_option {A} `{!Ser A} : Ser (option A).
Proof.
  refine {| put o := match o with Some a => x01 :: put a | None => [x00] end;
            get d := match d with
                     | x00 :: d' => Some (None, d')
                     | x01 :: d' => match get d' with Some (a, rest) => Some (Some a, rest) | None => None end
                     | _ => None
                     end |}.
  intros [a|] rest; simpl; [|done]. by rewrite get_put.
Defined.

#[global] Instance Ser_prod {A B} `{!Ser A, !Ser B} : Ser (A * B).
Proof.
  refine {| put p := put (fst p) ++ put (snd p);
            get d := match get d with
                     | Some (a, d') => match get d' with Some (b, rest) => Some ((a, b), rest) | None => None end
                     | None => None
                     end |}.
  intros [a b] rest. simpl. by rewrite <- app_assoc, !get_put.
Defined.

#[global] Instance Ser_Envelope : Ser Envelope.
Proof.
  refine (Ser_inj
    (fun e => (env_V e, env_Kind e, env_InstanceID e, env_CorrelationKey e,
               env_KeyID e, env_Nonce e, env_Payload e))
    (fun '(v, k, i, c, kid, n, p) => Some (mkEnvelope v k i c kid n p)) _). by intros [].
Defined.

(** Every serializer is a codec that round trips. *)
Definition ser_cbor (A : Type) `{!Ser A} : Cbor A := {|
  Marshal a := Ok (put a);
  Unmarshal d := match get d with
                 | Some (a, _) => Ok a
                 | None => Err (ErrorText "cbor: invalid")
                 end
|}.

Lemma ser_cbor_laws (A : Type) `{!Ser A} : @CborLaws A (ser_cbor A).
Proof.
  constructor. intros a d [= <-]. simpl. by rewrite <- (app_nil_r (put a)), get_put.
Qed.

#[global] Instance byte_eq_dec : EqDecision Byte.byte.
Proof. exact Byte.byte_eq_dec. Defined.

(** A toy AEAD, sealing by prefixing the nonce. *)
Definition prefixAEAD : AEAD := mkAEAD 2 (fun n p => n ++ p)
  (fun n ct => if bool_decide (firstn 2 ct = n) then Ok (skipn 2 ct) else Err (ErrorText "auth")).

Lemma prefixAEAD_laws : AEADLaws prefixAEAD.
Proof.
  constructor. intros nonce p. simpl. destruct nonce as [|a [|b [|]]]; try done. intros _. simpl.
  by rewrite bool_decide_true.
Qed.

Definition zeroRand : Rand := fun n => Ok (replicate n x00).

(** An encrypted start job sent and read back. *)
Lemma envelope_roundtrip_witness :
  exists d env,
  @EncodeEnvelope (ser_cbor Envelope) string (ser_cbor string)
    KindJobStart "i-1" (Some "corr"%string) "body"%string
    (Some (aesGCMPayloadCipher "k1" prefixAEAD)) zeroRand = Ok d /\
  @DecodeEnvelope (ser_cbor Envelope) d (Some (aesGCMPayloadCipher "k1" prefixAEAD)) = Ok env /\
  @DecodePayload string (ser_cbor string) env = Ok "body"%string.
Proof.
  destruct (@EncodeEnvelope (ser_cbor Envelope) string (ser_cbor string)
    KindJobStart "i-1" (Some "corr"%string) "body"%string
    (Some (aesGCMPayloadCipher "k1" prefixAEAD)) zeroRand) as [d|e] eqn:E; [|exfalso; by vm_compute in E].
  assert (Hc : forall c, Some (aesGCMPayloadCipher "k1" prefixAEAD) = Some c -> CipherLaws c).
  { intros c Hc. injection Hc as <-. exact (aesGCM_laws _ _ prefixAEAD_laws). }
  assert (Hr : fills zeroRand) by (intros n b [= <-]; apply length_replicate).
  destruct (@envelope_roundtrip (ser_cbor Envelope) (ser_cbor_laws Envelope) string
    (ser_cbor string) (ser_cbor_laws string) _ _ _ _ _ _ _ Hc Hr E) as (env & H1 & _ & _ & _ & _ & _ & H2).
  exists d, env. auto.
Defined.

(** An envelope sealed under key [k1], offered to a holder of key [k2]. *)
Lemma envelope_rejects_unreadable_witness :
  let env := mkEnvelope 1 KindJobStart "i-1" None (Some "k1"%string) [x00; x00] [x00; x00; x41] in
  let d := put env in
  @DecodeEnvelope (ser_cbor Envelope) d None = Err (UnknownKeyIDError "k1") /\
  exists e, @DecodeEnvelope (ser_cbor Envelope) d
              (Some (aesGCMPayloadCipher "k2" prefixAEAD)) = Err e /\
            error_root e = UnknownKeyIDError "k1".
Proof.
  intros env d.
  assert (Hu : @Unmarshal Envelope (ser_cbor Envelope) d = Ok env).
  { apply (@cbor_roundtrip Envelope _ (ser_cbor_laws Envelope)). reflexivity. }
  destruct (proj2 (@envelope_rejects_unreadable (ser_cbor Envelope) d env None Hu)
    "k1"%string eq_refl eq_refl) as [H1 H2].
  split; [exact H1|]. apply H2; [exact (aesGCM_laws _ _ prefixAEAD_laws)|done].
Defined.

(** ** Codecs of the sample runs *)

#[global] Instance sampleEnvelopeCbor : Cbor Envelope := ser_cbor Envelope.

#[global] Instance Ser_ProcessKey : Ser ProcessKey.
Proof.
  refine (Ser_inj (fun k => (pk_Namespace k, pk_ProcessID k, pk_Version k))
    (fun '(n, p, v) => Some (mkProcessKey n p v)) _). by intros [].
Defined.

Definition cbor_unsupported : GoError := ErrorText "cbor: unsupported type".

(** Codecs from a coding. *)
Definition coded {A C} `{!Ser C} (code : A -> option C) (decode : C -> A) : Cbor A := {|
  Marshal a := match code a with Some c => Ok (put c) | None => Err cbor_unsupported end;
  Unmarshal d := match get d with Some (c, _) => Ok (decode c) | None => Err cbor_unsupported end
|}.

(** Codes from which the value can be had again. *)
Lemma coded_laws {A C} `{!Ser C} (code : A -> option C) (decode : C -> A) :
  (forall a c, code a = Some c -> decode c = a) -> @CborLaws A (coded code decode).
Proof.
  intros H. constructor. intros a d. unfold Marshal, Unmarshal, coded. destruct (code a) as [c|] eqn:E; [|done]. intros [= <-].
  pose proof (get_put c []) as Hg. rewrite app_nil_r in Hg. rewrite Hg. by rewrite (H _ _ E).
Qed.

(** Registrations with one start event, and times in UTC. *)
Abbreviation RegCode := (ProcessKey * option string * option string * (string * string) * Z * string * string * (Z * Z) * (Z * Z))%type.
Definition reg_code (r : ProcessRegistration) : option RegCode :=
  match r with
  | mkProcessRegistration ns p v name desc [mkStartEventInfo i n None] [] cancel terminate md w (mkTime u1 n1 l1) (mkTime u2 n2 l2) =>
      if decide (l1 = UTC /\ l2 = UTC) then Some (mkProcessKey ns p v, name, desc, (i, n), (if cancel then 1 else 0) + (if terminate then 2 else 0), md, w, (u1, n1), (u2, n2)) else None
  | _ => None
  end.
Definition reg_decode (c : RegCode) : ProcessRegistration :=
  let '(k, name, desc, (i, n), flags, md, w, (u1, n1), (u2, n2)) := c in
  mkProcessRegistration (pk_Namespace k) (pk_ProcessID k) (pk_Version k) name desc [mkStartEventInfo i n None] []
    (Z.odd flags) (2 <=? flags) md w (mkTime u1 n1 UTC) (mkTime u2 n2 UTC).
#[global] Instance sampleRegCbor : Cbor ProcessRegistration := coded reg_code reg_decode.
#[global] Instance sampleRegCbor_laws : CborLaws ProcessRegistration.
Proof.
  apply coded_laws. intros [ns p v name desc [|[i n []] []] [] cancel terminate md w [u1 n1 l1] [u2 n2 l2]] c; try done.
  unfold reg_code. destruct (decide _) as [[-> ->]|]; [|done]. intros [= <-]. by destruct cancel, terminate.
Qed.

(** Lists: their length, and their elements. *)
Definition put_list {A} `{!Ser A} (l : list A) : bytes := put (Z.of_nat (length l)) ++ concat (map put l).
Fixpoint get_many {A} `{!Ser A} (n : nat) (d : bytes) : option (list A * bytes) :=
  match n with
  | O => Some ([], d)
  | S n => match get d with
           | Some (a, d) => match get_many n d with Some (l, d) => Some (a :: l, d) | None => None end
           | None => None
           end
  end.
Definition get_list {A} `{!Ser A} (d : bytes) : option (list A * bytes) :=
  match get d with Some (n, d) => get_many (Z.to_nat n) d | None => None end.

Lemma get_put_list {A} `{!Ser A} (l : list A) rest : get_list (put_list l ++ rest) = Some (l, rest).
Proof.
  unfold get_list, put_list. rewrite <- app_assoc, get_put, Nat2Z.id. induction l as [|a l IH]; [done|].
  cbn [length get_many map concat]. by rewrite <- app_assoc, get_put, IH.
Qed.
#[global] Instance Ser_list {A} `{!Ser A} : Ser (list A) := {| put := put_list; get := get_list; get_put := get_put_list |}.

#[global] Instance sampleRegsCbor : Cbor (list ProcessRegistration) := coded (mapM reg_code) (map reg_decode).
