(* ===== verification/Programs.v ===== *)
(** * Programs that share a server

    A process that works on a server in the network is a program ([Prog]) that
    sends requests; any number of processes run such programs, interleaved request
    by request, on a server that may drop a request or its reply, and their clients
    may repeat a request before they report on it ([step]).  [wp]
    is the logic in which programs are shown to keep an invariant of the server
    under any interleaving.  [exec] runs a program on its own, with faults.  The
    brokers on Redis and the registry stores use it. *)

From S2P Require Import Prelude GoTime Wire.
#[global] Open Scope Z_scope.

(** What a server does on a request, and what the clocks of the processes show. *)
Record Rules {Q R S : Type} : Type := mkRules {
  serves : Q -> S -> S -> R -> Prop;
  clock : Time -> Prop
}.
Arguments Rules : clear implicits.
Arguments mkRules {Q R S}.

(** Permits to change something that the server guards: what a program has earned
    and may still use, which is joined over the programs that run. *)
Class Permits (M : Type) : Type := {
  none : M;
  join : M -> M -> M;
  none_join : forall m, join none m = m;
  join_comm : forall m m', join m m' = join m' m;
  join_assoc : forall m m' m'', join m (join m' m'') = join (join m m') m''
}.

(** Permits that are counted. *)
#[export] Instance counted : Permits nat :=
  {| none := 0%nat; join := Nat.add; none_join := Nat.add_0_l; join_comm := Nat.add_comm; join_assoc := Nat.add_assoc |}.

Section Programs.
(** Requests, replies and states of the server; the state a process keeps under its
    lock, and the jobs it hands over. *)
Context {Q R S L J : Type}.

(** [Server] sends a request; [Local] changes the local state in one critical
    section and goes on with what it was; [Clock] and [Random] read the clock and
    the random source, [Fresh] makes an instance id; [Order] is the order in which
    a map of [n] entries is ranged over; [Hand] offers a job on a channel until it
    is taken or the context is done. *)
Inductive Prog (A : Type) : Type :=
| Ret (a : A)
| Server (q : Q) (k : result R -> Prog A)
| Local (f : L -> L) (k : L -> Prog A)
| Clock (k : Time -> Prog A)
| Random (k : Rand -> Prog A)
| Fresh (k : string -> Prog A)
| Order (n : nat) (k : list nat -> Prog A)
| Hand (j : J) (k : bool -> Prog A).

Fixpoint bind {A B} (p : Prog A) (f : A -> Prog B) : Prog B :=
  match p with
  | Ret _ a => f a
  | Server _ q k => Server B q (fun r => bind (k r) f)
  | Local _ g k => Local B g (fun l => bind (k l) f)
  | Clock _ k => Clock B (fun t => bind (k t) f)
  | Random _ k => Random B (fun r => bind (k r) f)
  | Fresh _ k => Fresh B (fun i => bind (k i) f)
  | Order _ n k => Order B n (fun l => bind (k l) f)
  | Hand _ j k => Hand B j (fun b => bind (k b) f)
  end.

(** [for _, x := range m], the entries of a map in the order of Go's choice. *)
Definition in_some_order {A} (l : list A) : Prog (list A) := Order _ (length l) (fun ix => Ret _ (omap (fun i => l !! i) ix)).

(** A list in the order of indices that are a permutation. *)
Lemma reordered {A} (l : list A) ix : ix ≡ₚ seq 0 (length l) -> omap (fun i => l !! i) ix ≡ₚ l.
Proof.
  intros H. transitivity (omap (fun i => l !! i) (seq 0 (length l))); [by rewrite H|]. clear H.
  induction l as [|x l IH]; [done|]. cbn [length seq omap list_omap lookup list_lookup]. 
  rewrite <- seq_shift. constructor. rewrite <- IH at 2. clear IH. generalize (seq 0 (length l)). intros ns.
  induction ns as [|n ns IH]; [done|]. cbn. destruct (l !! n); [by constructor|done].
Qed.

(** ** Interleavings *)

(** Processes with their local states and the programs they run, to their results. *)
Record World {X : Type} : Type := mkWorld {
  w_server : S;
  w_locals : gmap nat L;
  w_threads : list (nat * Prog X)
}.
Arguments World : clear implicits.

(** One step of a program, with what it does to the server and the local state.
    A request that fails may have been carried out, and the client may send it again
    when the reply is lost. *)
Inductive thread_step (rules : Rules Q R S) {A : Type} : Prog A -> S -> L -> Prog A -> S -> L -> Prop :=
| ts_reply q k s s' r l : serves rules q s s' r -> thread_step rules (Server _ q k) s l (k (Ok r)) s' l
| ts_lost q k s s' r l e : serves rules q s s' r -> thread_step rules (Server _ q k) s l (k (Err e)) s' l
| ts_again q k s s' r l : serves rules q s s' r -> thread_step rules (Server _ q k) s l (Server _ q k) s' l
| ts_failed q k s l e : thread_step rules (Server _ q k) s l (k (Err e)) s l
| ts_local f k s l : thread_step rules (Local _ f k) s l (k l) s (f l)
| ts_clock k s l t : clock rules t -> thread_step rules (Clock _ k) s l (k t) s l
| ts_random k s l r : thread_step rules (Random _ k) s l (k r) s l
| ts_fresh k s l i : thread_step rules (Fresh _ k) s l (k i) s l
| ts_order n k s l ix : ix ≡ₚ seq 0 n -> thread_step rules (Order _ n k) s l (k ix) s l
| ts_hand j k s l b : thread_step rules (Hand _ j k) s l (k b) s l.

Section Worlds.
(** The calls that processes make, a new process, and what happens to the server
    without a request. *)
Variable rules : Rules Q R S.
Context {X : Type}.
Variable calls : Prog X -> Prop.
Variable fresh_local : L -> Prop.
Variable tick : S -> S -> Prop.

Inductive step : World X -> World X -> Prop :=
| step_thread s ls pid l p t1 t2 p' s' l' :
    ls !! pid = Some l -> thread_step rules p s l p' s' l' ->
    step (mkWorld X s ls (t1 ++ (pid, p) :: t2)) (mkWorld X s' (<[pid := l']> ls) (t1 ++ (pid, p') :: t2))
| step_call s ls ts pid p : calls p -> step (mkWorld X s ls ts) (mkWorld X s ls ((pid, p) :: ts))
| step_start s ls ts pid l : ls !! pid = None -> fresh_local l -> step (mkWorld X s ls ts) (mkWorld X s (<[pid := l]> ls) ts)
| step_crash s ls ts pid :
    step (mkWorld X s ls ts) (mkWorld X s (delete pid ls) (List.filter (fun t => negb (fst t =? pid)%nat) ts))
| step_tick s ls ts s' : tick s s' -> step (mkWorld X s ls ts) (mkWorld X s' ls ts).

Definition reachable (s : S) : World X -> Prop := rtc step (mkWorld X s ∅ []).

End Worlds.

(** ** Invariants of the server under interleaving *)

Section Logic.
(** [I s m]: the invariant of the server when the programs hold the permits [m]
    between them; [LI]: the invariant of a local state. *)
Context {M : Type} `{!Permits M}.
Variable rules : Rules Q R S.
Variable I : S -> M -> Prop.
Variable LI : L -> Prop.

(** Permits [t] at [s] may be given for [t'] at [s']. *)
Definition becomes (s : S) (t : M) (s' : S) (t' : M) : Prop := forall m, I s (join t m) -> I s' (join t' m).

(** The program keeps the invariants, holding the permits [t], and ends with [P].
    Before a request is sent the permits may be changed for others, [t1], with which
    the request may be carried out any number of times. *)
Fixpoint wp {A} (p : Prog A) (t : M) (P : A -> M -> Prop) : Prop :=
  match p with
  | Ret _ a => P a t
  | Server _ q k =>
      exists t1, (forall s, becomes s t s t1) /\ (forall e, wp (k (Err e)) t1 P) /\
      forall s s' r, (exists m, I s (join t1 m)) -> serves rules q s s' r ->
        becomes s t1 s' t1 /\
        exists t', becomes s t1 s' t' /\ wp (k (Ok r)) t' P /\ forall e, wp (k (Err e)) t' P
  | Local _ f k => forall l, LI l -> LI (f l) /\ wp (k l) t P
  | Clock _ k => forall x, clock rules x -> wp (k x) t P
  | Random _ k => forall x, wp (k x) t P
  | Fresh _ k => forall x, wp (k x) t P
  | Order _ n k => forall ix, ix ≡ₚ seq 0 n -> wp (k ix) t P
  | Hand _ _ k => forall b, wp (k b) t P
  end.

(** A request that needs no other permits. *)
Lemma wp_server {A} q (k : result R -> Prog A) t (P : A -> M -> Prop) :
  (forall e, wp (k (Err e)) t P) ->
  (forall s s' r, (exists m, I s (join t m)) -> serves rules q s s' r ->
     becomes s t s' t /\ exists t', becomes s t s' t' /\ wp (k (Ok r)) t' P /\ forall e, wp (k (Err e)) t' P) ->
  wp (Server A q k) t P.
Proof. intros He Hq. exists t. split_and!; [by intros s m|done|exact Hq]. Qed.

Lemma wp_mono {A} (p : Prog A) t (P P' : A -> M -> Prop) :
  wp p t P -> (forall a t, P a t -> P' a t) -> wp p t P'.
Proof.
  intros H HQ. revert t H. induction p as [a|q k IH|g k IH|k IH|k IH|k IH|n k IH|j k IH]; intros t H; cbn [wp] in *; eauto.
  - destruct H as (t1 & Ht & He & H'). exists t1. split_and!; [done|eauto|]. intros s s' r Hi Hr.
    destruct (H' s s' r Hi Hr) as (H0 & t' & H1 & H2 & H3). split; [done|]. exists t'. split_and!; eauto.
  - intros l Hl. destruct (H l Hl). eauto.
Qed.

Lemma wp_bind {A B} (p : Prog A) (f : A -> Prog B) t P :
  wp p t (fun a t' => wp (f a) t' P) -> wp (bind p f) t P.
Proof.
  revert t. induction p as [a|q k IH|g k IH|k IH|k IH|k IH|n k IH|j k IH]; intros t H'; cbn [wp bind] in *; eauto.
  - destruct H' as (t1 & Ht & He & H'). exists t1. split_and!; [done|eauto|]. intros s s' r Hi Hr.
    destruct (H' s s' r Hi Hr) as (H0 & t' & H1 & H2 & H3). split; [done|]. exists t'. split_and!; eauto.
  - intros l Hl. destruct (H' l Hl). eauto.
Qed.

(** Programs whose requests are of one kind ([ok]), given replies that such
    requests have ([rep]), and their results. *)
Section Only.
Variable ok : Q -> Prop.
Variable rep : Q -> R -> Prop.

Fixpoint only {A} (p : Prog A) (K : A -> Prop) : Prop :=
  match p with
  | Ret _ a => K a
  | Server _ q k => ok q /\ (forall r, rep q r -> only (k (Ok r)) K) /\ forall e, only (k (Err e)) K
  | Local _ f k => forall l, only (k l) K
  | Clock _ k => forall x, clock rules x -> only (k x) K
  | Random _ k => forall x, only (k x) K
  | Fresh _ k => forall x, only (k x) K
  | Order _ n k => forall ix, ix ≡ₚ seq 0 n -> only (k ix) K
  | Hand _ _ k => forall b, only (k b) K
  end.

Lemma only_mono {A} (p : Prog A) (K K' : A -> Prop) : only p K -> (forall a, K a -> K' a) -> only p K'.
Proof. intros H HK. induction p as [a|q k IH|g k IH|k IH|k IH|k IH|n k IH|j k IH]; cbn [only] in *; naive_solver. Qed.

Lemma only_bind {A B} (p : Prog A) (f : A -> Prog B) K K' : only p K -> (forall a, K a -> only (f a) K') -> only (bind p f) K'.
Proof. intros H HK. induction p as [a|q k IH|g k IH|k IH|k IH|k IH|n k IH|j k IH]; cbn [only bind] in *; naive_solver. Qed.

Lemma only_wp {A} (p : Prog A) (K : A -> Prop) t (P : A -> M -> Prop) :
  (forall q s s' r n, ok q -> serves rules q s s' r -> I s n -> I s' n /\ rep q r) -> (forall l, LI l) ->
  only p K -> (forall a, K a -> P a t) -> wp p t P.
Proof.
  intros Hq Hl H HK. revert H. induction p as [a|q k IH|g k IH|k IH|k IH|k IH|n k IH|j k IH]; cbn [only wp]; intros H; auto.
  destruct H as (Ho & Hr & He). apply wp_server; [auto|]. intros s s' r [n Hi] Hs. destruct (Hq q s s' r _ Ho Hs Hi) as [_ Hrep].
  assert (Hb : becomes s t s' t) by (intros m Hm; by destruct (Hq q s s' r _ Ho Hs Hm)).
  split; [done|]. exists t. split_and!; auto.
Qed.

End Only.

(** The invariant does not need the permits, and time does not break it. *)
Context {X : Type}.
(** What a call has shown when it is over. *)
Variable Post : X -> M -> Prop.
Hypothesis I_drop : forall s t n, I s (join t n) -> I s n.
Variable calls : Prog X -> Prop.
Variable fresh_local : L -> Prop.
Variable tick : S -> S -> Prop.
Hypothesis calls_kept : forall p, calls p -> wp p none Post.
Hypothesis fresh_kept : forall l, fresh_local l -> LI l.
Hypothesis tick_kept : forall s s' n, tick s s' -> I s n -> I s' n.

Definition permits (ts : list M) : M := fold_right join none ts.

Lemma permits_app l l' : permits (l ++ l') = join (permits l) (permits l').
Proof. unfold permits. induction l as [|x l IH]; cbn [app fold_right]; [by rewrite none_join|]. by rewrite IH, join_assoc. Qed.

Lemma permits_middle l t l' : permits (l ++ t :: l') = join t (permits (l ++ l')).
Proof.
  rewrite !permits_app. cbn [permits fold_right]. fold (permits l'). rewrite !join_assoc. f_equal. apply join_comm.
Qed.

Definition world_ok (w : World X) : Prop :=
  exists ts, Forall2 (fun th t => wp (snd th) t Post) (w_threads w) ts /\
    map_Forall (fun _ l => LI l) (w_locals w) /\ I (w_server w) (permits ts).

Lemma thread_kept (p : Prog X) s l p' s' l' t n :
  thread_step rules p s l p' s' l' -> wp p t Post -> LI l -> I s (join t n) ->
  exists t', wp p' t' Post /\ LI l' /\ I s' (join t' n).
Proof.
  intros Hs Hw Hl Hi. destruct Hs; cbn [wp] in Hw; try (by exists t; eauto).
  - destruct Hw as (t1 & Ht%(fun f => f s n Hi) & _ & Hw). destruct (Hw s s' r (ex_intro _ n Ht) H) as (_ & t' & H1 & H2 & H3). exists t'. eauto.
  - destruct Hw as (t1 & Ht%(fun f => f s n Hi) & _ & Hw). destruct (Hw s s' r (ex_intro _ n Ht) H) as (_ & t' & H1 & H2 & H3). exists t'. eauto.
  - destruct Hw as (t1 & Ht%(fun f => f s n Hi) & He & Hw). exists t1. destruct (Hw s s' r (ex_intro _ n Ht) H) as [H0 _].
    split_and!; [|done|by apply H0]. by apply wp_server.
  - destruct Hw as (t1 & Ht%(fun f => f s n Hi) & He & _). exists t1. eauto.
  - destruct (Hw l Hl). exists t. eauto.
Qed.

Lemma filter_kept (f : nat * Prog X -> bool) ths ts s :
  Forall2 (fun th t => wp (snd th) t Post) ths ts -> I s (permits ts) ->
  exists ts', Forall2 (fun th t => wp (snd th) t Post) (List.filter f ths) ts' /\ I s (permits ts').
Proof.
  intros H. enough (Hg : exists ts' k, Forall2 (fun th t => wp (snd th) t Post) (List.filter f ths) ts' /\
    permits ts = join k (permits ts')).
  { destruct Hg as (ts' & k & H1 & E). intros Hi. exists ts'. split; [done|]. rewrite E in Hi. by eapply I_drop. }
  induction H as [|th t ths ts Hw _ (ts' & k & H1 & E)]; [by exists [], none; split; [constructor|rewrite none_join]|]. cbn [List.filter].
  destruct (f th); [exists (t :: ts'), k|exists ts', (join t k)]; (split; [by try constructor|unfold permits in *; cbn [fold_right]; rewrite E]).
  - rewrite !join_assoc. f_equal. apply join_comm.
  - by rewrite join_assoc.
Qed.

Lemma step_kept w w' : step rules calls fresh_local tick w w' -> world_ok w -> world_ok w'.
Proof.
  intros Hs (ts & Hts & Hl & Hi). destruct Hs; cbn [w_server w_locals w_threads] in *.
  - apply Forall2_app_inv_l in Hts as (ts1 & ts2 & H1 & H2 & ->). inversion H2 as [|? t ? ts3 Hw H3]; subst. cbn [snd] in Hw.
    rewrite permits_middle in Hi. destruct (thread_kept _ _ _ _ _ _ t _ H0 Hw (Hl _ _ H) Hi) as (t' & W & Lk & K).
    exists (ts1 ++ t' :: ts3). split_and!; cbn [w_server w_locals w_threads].
    + apply Forall2_app; [done|]. by constructor.
    + by apply map_Forall_insert_2.
    + by rewrite permits_middle.
  - exists (none :: ts). split_and!; [constructor; [by apply calls_kept|done]|done|]. cbn [permits fold_right]. by rewrite none_join.
  - exists ts. split_and!; [done| |done]. apply map_Forall_insert_2; [by apply fresh_kept|done].
  - destruct (filter_kept (fun t => negb (fst t =? pid)%nat) ts0 ts s Hts Hi) as (ts' & H1 & H2).
    exists ts'. split_and!; [done| |done]. by apply map_Forall_delete.
  - exists ts. split_and!; [done..|]. by eapply tick_kept.
Qed.

Lemma world_reachable s w : I s none -> reachable rules calls fresh_local tick s w -> world_ok w.
Proof.
  intros Hi Hr. assert (H0 : world_ok (mkWorld X s ∅ [])) by (exists []; split_and!; [constructor|apply map_Forall_empty|done]).
  revert H0. unfold reachable in Hr. induction Hr as [|w1 w2 w3 Hs _ IH]; [done|]. intros H0. by eapply IH, step_kept.
Qed.

(** The invariant holds in every reachable world. *)
Lemma invariant_reachable s w : I s none -> reachable rules calls fresh_local tick s w -> I (w_server w) none.
Proof.
  intros Hi Hr. destruct (world_reachable s w Hi Hr) as (ts & _ & _ & H).
  rewrite <- (none_join (permits ts)), join_comm in H. by eapply I_drop.
Qed.

(** The results of the calls that are over, and what they show together. *)
Definition results (w : World X) : list X := omap (fun th => match snd th with Ret _ a => Some a | _ => None end) (w_threads w).

Lemma post_reachable a s w : I s none -> reachable rules calls fresh_local tick s w -> a ∈ results w -> exists t, Post a t.
Proof.
  intros Hi Hr ([pid p] & Hin & E)%list_elem_of_omap. destruct (world_reachable s w Hi Hr) as (ts & Hts & _ & _).
  apply list_elem_of_lookup in Hin as [i Hl]. destruct (Forall2_lookup_l _ _ _ _ _ Hts Hl) as (t & _ & Hw). exists t. cbn [snd] in *.
  destruct p; try done. injection E as ->. exact Hw.
Qed.

Lemma results_reachable (earned : X -> M) s w :
  (forall a t, Post a t -> exists k, t = join k (earned a)) -> I s none -> reachable rules calls fresh_local tick s w ->
  I (w_server w) (permits (map earned (results w))).
Proof.
  intros Hc Hi Hr. destruct (world_reachable s w Hi Hr) as (ts & Hts & _ & H).
  assert (Hle : exists k, permits ts = join k (permits (map earned (results w)))).
  { unfold results. clear H. induction Hts as [|th t ths ts Hw _ [k IH]]; [by exists none; rewrite none_join|]. cbn [omap list_omap].
    destruct th as [pid []]; cbn [snd] in *; try (exists (join t k); unfold permits in *; cbn [fold_right]; by rewrite IH, join_assoc).
    cbn [wp] in Hw. apply Hc in Hw as [j ->]. exists (join j k). unfold permits in *. cbn [map fold_right]. rewrite IH, !join_assoc. f_equal.
    rewrite <- !join_assoc. f_equal. apply join_comm. }
  destruct Hle as [k E]. rewrite E in H. by eapply I_drop.
Qed.

End Logic.

(** ** Running a program *)

(** What a run reads: the clock, the random source, a fresh id, and whether the
    jobs it offers are taken. *)
Record Env : Type := mkEnv { en_now : Time; en_rand : Rand; en_id : string; en_taken : bool }.

Section Running.
(** A server. *)
Variable serve : Q -> S -> S * R.
Variable env : Env.

(** A run of a program on its own.  [faults] says what becomes of its requests:
    [None] is answered, [Some b] fails after ([b]) or before it was carried out.
    The jobs that were taken are the last result. *)
Fixpoint exec {A} (p : Prog A) (faults : list (option bool)) (s : S) (l : L)
  : A * list (option bool) * S * L * list J :=
  match p with
  | Ret _ a => (a, faults, s, l, [])
  | Server _ q k =>
      let '(s', r) := serve q s in
      match faults with
      | [] | None :: _ => exec (k (Ok r)) (tail faults) s' l
      | Some true :: fs => exec (k (Err (ErrorText "EOF"))) fs s' l
      | Some false :: fs => exec (k (Err (ErrorText "EOF"))) fs s l
      end
  | Local _ f k => exec (k l) faults s (f l)
  | Clock _ k => exec (k (en_now env)) faults s l
  | Random _ k => exec (k (en_rand env)) faults s l
  | Fresh _ k => exec (k (en_id env)) faults s l
  | Order _ n k => exec (k (seq 0 n)) faults s l
  | Hand _ j k =>
      let '(r, js) := exec (k (en_taken env)) faults s l in (r, if en_taken env then j :: js else js)
  end.

Lemma exec_bind {A B} (p : Prog A) (f : A -> Prog B) fs s l :
  exec (bind p f) fs s l =
  let '(a, fs1, s1, l1, js1) := exec p fs s l in let '(b, fs2, s2, l2, js2) := exec (f a) fs1 s1 l1 in (b, fs2, s2, l2, js1 ++ js2).
Proof.
  revert fs s l. induction p as [a|q k IH|g k IH|k IH|k IH|k IH|n k IH|j k IH]; intros fs s l; cbn [bind exec]; auto.
  - by destruct (exec (f a) fs s l) as [[[[? ?] ?] ?] ?].
  - destruct (serve q s) as [s' r]. destruct fs as [|[[]|] fs]; apply IH.
  - rewrite IH. destruct (exec (k _) fs s l) as [[[[a fs1] s1] l1] js1]. destruct (exec (f a) fs1 s1 l1) as [[[[? ?] ?] ?] ?].
    by destruct (en_taken env).
Qed.

Lemma exec_in_order {A} (l0 : list A) fs s l : exec (in_some_order l0) fs s l = (l0, fs, s, l, []).
Proof.
  unfold in_some_order. cbn [exec]. do 4 f_equal. induction l0 as [|x l0 IH]; [done|]. cbn [length seq omap list_omap lookup list_lookup].
  f_equal. rewrite <- seq_shift. rewrite <- IH at 2. clear IH. generalize (seq 0 (length l0)). intros ns.
  induction ns as [|n ns IH]; [done|]. cbn. destruct (l0 !! n); [by f_equal|done].
Qed.

(** The first [n] requests of a program, answered: what is left of it. *)
Fixpoint run_for {A} (n : nat) (p : Prog A) (s : S) (l : L) {struct p} : Prog A * S * L :=
  match p with
  | Ret _ a => (p, s, l)
  | Server _ q k =>
      match n with
      | O => (p, s, l)
      | Datatypes.S n' => let '(s', r) := serve q s in run_for n' (k (Ok r)) s' l
      end
  | Local _ f k => run_for n (k l) s (f l)
  | Clock _ k => run_for n (k (en_now env)) s l
  | Random _ k => run_for n (k (en_rand env)) s l
  | Fresh _ k => run_for n (k (en_id env)) s l
  | Order _ m k => run_for n (k (seq 0 m)) s l
  | Hand _ j k => run_for n (k (en_taken env)) s l
  end.

(** The server keeps the rules where [allowed] says so, and the clock does. *)
Variable rules : Rules Q R S.
Variable allowed : S -> S -> bool.
Hypothesis serve_ok : forall q s, allowed s (fst (serve q s)) = true -> serves rules q s (fst (serve q s)) (snd (serve q s)).
Hypothesis clock_ok : clock rules (en_now env).

(** The run without faults is allowed. *)
Fixpoint checked {A} (p : Prog A) (s : S) (l : L) : bool :=
  match p with
  | Ret _ _ => true
  | Server _ q k => let '(s', r) := serve q s in allowed s s' && checked (k (Ok r)) s' l
  | Local _ f k => checked (k l) s (f l)
  | Clock _ k => checked (k (en_now env)) s l
  | Random _ k => checked (k (en_rand env)) s l
  | Fresh _ k => checked (k (en_id env)) s l
  | Order _ n k => checked (k (seq 0 n)) s l
  | Hand _ j k => checked (k (en_taken env)) s l
  end.

(** Steps of one program. *)
Definition own_step {A} (x y : Prog A * S * L) : Prop :=
  thread_step rules (fst (fst x)) (snd (fst x)) (snd x) (fst (fst y)) (snd (fst y)) (snd y).

(** Runs are runs of the step relation. *)
Lemma checked_steps {A} (p : Prog A) s l : checked p s l = true ->
  let '(a, _, s', l', _) := exec p [] s l in rtc own_step (p, s, l) (Ret _ a, s', l').
Proof.
  revert s l. induction p as [a|q k IH|g k IH|k IH|k IH|k IH|n k IH|j k IH]; intros s l H; cbn [exec checked] in *.
  - done.
  - pose proof (serve_ok q s) as Hq. destruct (serve q s) as [s' r]. cbn [fst snd] in Hq. apply andb_prop in H as [H1 H2].
    specialize (IH (Ok r) s' l H2). cbn [tail]. destruct (exec _ _ _ _) as [[[[a f'] s2] l2] js].
    refine (rtc_l _ _ _ _ _ IH). constructor. by apply Hq.
  - specialize (IH l s (g l) H). destruct (exec _ _ _ _) as [[[[a f'] s2] l2] js]. refine (rtc_l _ _ _ _ _ IH). constructor.
  - specialize (IH _ s l H). destruct (exec _ _ _ _) as [[[[a f'] s2] l2] js]. refine (rtc_l _ _ _ _ _ IH). by constructor.
  - specialize (IH _ s l H). destruct (exec _ _ _ _) as [[[[a f'] s2] l2] js]. refine (rtc_l _ _ _ _ _ IH). constructor.
  - specialize (IH _ s l H). destruct (exec _ _ _ _) as [[[[a f'] s2] l2] js]. refine (rtc_l _ _ _ _ _ IH). constructor.
  - specialize (IH _ s l H). destruct (exec _ _ _ _) as [[[[a f'] s2] l2] js]. refine (rtc_l _ _ _ _ _ IH). by constructor.
  - specialize (IH _ s l H). destruct (exec _ _ _ _) as [[[[a f'] s2] l2] js]. refine (rtc_l _ _ _ _ _ IH). constructor.
Qed.

(** ** Runs in a world *)

Context {X : Type}.

(** A call of a process that runs to its end while the others wait. *)
Lemma checked_call calls fresh_local tick s0 (p : Prog X) s ls ts l pid :
  reachable rules calls fresh_local tick s0 (mkWorld X s ls ts) -> ls !! pid = Some l -> calls p -> checked p s l = true ->
  let '(a, _, s', l', _) := exec p [] s l in
  exists ls', ls' !! pid = Some l' /\ reachable rules calls fresh_local tick s0 (mkWorld X s' ls' ((pid, Ret _ a) :: ts)).
Proof.
  intros Hr Hl Hc H. apply checked_steps in H. destruct (exec p [] s l) as [[[[a f'] s'] l'] js].
  assert (H1 : reachable rules calls fresh_local tick s0 (mkWorld X s ls ((pid, p) :: ts))) by (eapply rtc_r; [exact Hr|by constructor]).
  clear Hr Hc. remember (p, s, l) as x eqn:Ex. remember (Ret X a, s', l') as y eqn:Ey. revert p s l ls Ex Hl H1.
  induction H as [x|x [[p1 s1] l1] z H _ IH]; intros p s l ls -> Hl H1.
  - injection Ey as -> -> ->. by exists ls.
  - apply (IH Ey p1 s1 l1 (<[pid := l1]> ls) eq_refl); [apply lookup_insert_eq|]. eapply rtc_r; [exact H1|].
    by apply (step_thread _ _ _ _ s ls pid l p [] ts p1 s1 l1).
Qed.

(** Calls one after the other. *)
Fixpoint exec_all (ps : list (Prog X)) (s : S) (l : L) : list X * S * L :=
  match ps with
  | [] => ([], s, l)
  | p :: ps' => let '(a, _, s', l', _) := exec p [] s l in let '(rs, s2, l2) := exec_all ps' s' l' in (a :: rs, s2, l2)
  end.
Fixpoint checked_all (ps : list (Prog X)) (s : S) (l : L) : bool :=
  match ps with
  | [] => true
  | p :: ps' => checked p s l && let '(_, _, s', l', _) := exec p [] s l in checked_all ps' s' l'
  end.

Definition server_of (x : list X * S * L) : S := snd (fst x).
Definition results_of (x : list X * S * L) : list X := fst (fst x).

Lemma checked_calls calls fresh_local tick s0 ps s ls ts l pid :
  reachable rules calls fresh_local tick s0 (mkWorld X s ls ts) -> ls !! pid = Some l -> Forall calls ps -> checked_all ps s l = true ->
  exists ls' ts', reachable rules calls fresh_local tick s0 (mkWorld X (server_of (exec_all ps s l)) ls' ts') /\
    ts' = rev (map (fun a => (pid, Ret _ a)) (results_of (exec_all ps s l))) ++ ts.
Proof.
  intros Hr Hl Hc. revert s ls ts l Hr Hl.
  induction Hc as [|p ps Hp _ IH]; intros s ls ts l Hr Hl H; cbn [exec_all checked_all] in *; [by exists ls, ts|].
  apply andb_prop in H as [H1 H2]. pose proof (checked_call _ _ _ _ p _ _ _ _ _ Hr Hl Hp H1) as Hn.
  destruct (exec p [] s l) as [[[[a f'] s'] l'] js]. destruct Hn as (ls' & Hl' & Hr').
  destruct (IH _ _ _ _ Hr' Hl' H2) as (ls2 & ts2 & Hr2 & ->). destruct (exec_all ps s' l') as [[rs s2] l2].
  exists ls2. eexists. split; [exact Hr2|]. unfold results_of. cbn [fst map rev]. by rewrite <- app_assoc.
Qed.

(** The first process. *)
Lemma first_process calls fresh_local tick s (l : L) : fresh_local l ->
  reachable rules calls fresh_local tick s (mkWorld X s {[0%nat := l]} []).
Proof. intros Hl. apply rtc_once. by apply step_start. Qed.

End Running.
End Programs.

Arguments Prog : clear implicits.
Arguments World : clear implicits.
Arguments Ret {Q R L J A}.
Arguments Server {Q R L J A}.
Arguments Local {Q R L J A}.
Arguments Clock {Q R L J A}.
Arguments Random {Q R L J A}.
Arguments Fresh {Q R L J A}.
Arguments Order {Q R L J A}.
Arguments Hand {Q R L J A}.
Arguments mkWorld {Q R S L J X}.
Arguments w_server {Q R S L J X}.

(** ** Programs that can fail *)

Section Fallible.
Context {Q R L J : Type}.
Abbreviation P A := (Prog Q R L J A).
Abbreviation M A := (Prog Q R L J (result A)).

Definition ret {A} (a : A) : M A := Ret (Ok a).
Definition fail {A} (e : GoError) : M A := Ret (Err e).
Definition bind_ok {A B} (m : M A) (f : A -> M B) : M B :=
  bind m (fun r => match r with Ok a => f a | Err e => fail e end).

(** [mu.Lock(); ...; mu.Unlock()] *)
Definition reading {A} (f : L -> A) : P A := Local (fun b => b) (fun b => Ret (f b)).

End Fallible.

Notation "'let~' x ':=' m 'in' k" := (bind m (fun x => k)) (at level 10, x pattern, m at level 100, k at level 200) : blkit_scope.
Notation "'let?' x ':=' m 'in' k" := (bind_ok m (fun x => k)) (at level 10, x pattern, m at level 100, k at level 200) : blkit_scope.

(** ** Going through a program *)

Section Through.
Context {Q R S L J : Type} (rules : Rules Q R S) (ok : Q -> Prop) (rep : Q -> R -> Prop).
Abbreviation only_ p := (only (L := L) (J := J) rules ok rep p (fun _ => True)).

Lemma only_seq {A B} (p : Prog Q R L J A) (f : A -> Prog Q R L J B) : only_ p -> (forall a, only_ (f a)) -> only_ (bind p f).
Proof. intros Hp Hf. by apply (only_bind rules (fun _ => True) ok rep p f (fun _ => True)). Qed.

Lemma only_seq_ok {A B} (p : Prog Q R L J (result A)) (f : A -> Prog Q R L J (result B)) :
  only_ p -> (forall a, only_ (f a)) -> only_ (bind_ok p f).
Proof. intros Hp Hf. apply only_seq; [done|]. intros [a|e]; [apply Hf|done]. Qed.

Lemma only_server {A} q (k : result R -> Prog Q R L J A) : ok q -> (forall r, only_ (k r)) -> only_ (Server q k).
Proof. intros Hq Hk. by split. Qed.

Lemma only_reading {A} (f : L -> A) : only_ (reading f).
Proof. done. Qed.

Lemma only_in_order {A} (l : list A) : only_ (in_some_order l).
Proof. done. Qed.

End Through.

Ltac only_step :=
  match goal with
  | |- forall _, _ => intro
  | |- only _ _ _ (ret _) _ => exact I
  | |- only _ _ _ (fail _) _ => exact I
  | |- only _ _ _ (Ret _) _ => exact I
  | |- only _ _ _ (reading _) _ => apply only_reading
  | |- only _ _ _ (in_some_order _) _ => apply only_in_order
  | |- only _ _ _ (bind _ _) _ => apply only_seq
  | |- only _ _ _ (bind_ok _ _) _ => apply only_seq_ok
  | |- only _ _ _ (Server _ _) _ => apply only_server
  | |- only _ _ _ (Local _ _) _ => intros ?
  | |- only _ _ _ (Clock _) _ => intros ? ?
  | |- only _ _ _ (Random _) _ => intros ?
  | |- only _ _ _ (Fresh _) _ => intros ?
  | |- only _ _ _ (Order _ _) _ => intros ? ?
  | |- only _ _ _ (Hand _ _) _ => intros ?
  | |- only _ _ _ (match ?x with _ => _ end) _ => destruct x
  | |- only _ _ _ (if ?x then _ else _) _ => destruct x
  | |- only _ _ _ (let _ := _ in _) _ => cbv zeta
  end.
Ltac only_all := repeat first [only_step | eassumption | solve [eauto]].
