(* ===== verification/KvStore.v ===== *)
(** * Ordered key-value stores

    What the embedded state stores ([stores/bbolt], [stores/badger],
    [stores/pebble]) have in common: the third-party engine, an ordered map from
    byte strings to byte strings ([OrderedKV], with its documented laws
    [OrderedKVLaws] and an instance on finite maps); the JSON encoding of their
    records ([StoreJson]); the fixed-width big-endian keys whose byte order is
    the replay order; and what such a store promises a client, stated against
    the log specification of [StateStoreLaws] ([RepresentsLog]). *)

From Stdlib Require Import Sorted Strings.Byte.
From S2P Require Import Prelude GoTime StateStore StateStoreLaws Wire.
#[global] Open Scope Z_scope.

(** ** Byte strings *)

Definition byte_val (b : Byte.byte) : Z := Z.of_N (Byte.to_N b).
Definition byte_of (z : Z) : Byte.byte := default x00 (Byte.of_N (Z.to_N z)).

Lemma byte_val_range b : 0 <= byte_val b < 256.
Proof. unfold byte_val. pose proof (Byte.to_N_bounded b). lia. Qed.

Lemma byte_val_of z : 0 <= z < 256 -> byte_val (byte_of z) = z.
Proof.
  intros H. unfold byte_val, byte_of. destruct (Byte.of_N (Z.to_N z)) as [b|] eqn:E; simpl.
  - apply Byte.to_of_N in E. lia.
  - apply Byte.of_N_None_iff in E. lia.
Qed.

Lemma byte_val_inj a b : byte_val a = byte_val b -> a = b.
Proof.
  unfold byte_val. intros H%N2Z.inj. pose proof (Byte.of_to_N a) as Ha. rewrite H, Byte.of_to_N in Ha. congruence.
Qed.

#[global] Instance byte_countable : Countable Byte.byte.
Proof.
  refine (inj_countable' byte_val byte_of _). intros b. apply byte_val_inj, byte_val_of, byte_val_range.
Defined.

(** [bytes.Compare(a, b) < 0] *)
Fixpoint bytes_ltb (a b : bytes) : bool :=
  match a, b with
  | _, [] => false
  | [], _ :: _ => true
  | x :: a', y :: b' => (byte_val x <? byte_val y) || ((byte_val x =? byte_val y) && bytes_ltb a' b')
  end.

Definition bytes_lt (a b : bytes) : Prop := bytes_ltb a b = true.

Lemma bytes_ltb_irrefl a : bytes_ltb a a = false.
Proof. induction a as [|x a IH]; simpl; [done|]. rewrite IH, Z.ltb_irrefl. by rewrite andb_false_r. Qed.

Lemma bytes_ltb_app p a b : bytes_ltb (p ++ a) (p ++ b) = bytes_ltb a b.
Proof. induction p as [|x p IH]; simpl; [done|]. by rewrite IH, Z.ltb_irrefl, Z.eqb_refl. Qed.

Lemma bytes_lt_trans a b c : bytes_lt a b -> bytes_lt b c -> bytes_lt a c.
Proof.
  unfold bytes_lt. revert b c. induction a as [|x a IH]; intros [|y b] [|z c]; simpl; try done.
  rewrite !orb_true_iff, !andb_true_iff, !Z.ltb_lt, !Z.eqb_eq.
  intros [?|[? ?]] [?|[? ?]]; [left; lia..|right; split; [lia|by eapply IH]].
Qed.

Lemma bytes_lt_total a b : bytes_lt a b \/ a = b \/ bytes_lt b a.
Proof.
  unfold bytes_lt. revert b. induction a as [|x a IH]; intros [|y b]; simpl; auto.
  rewrite !orb_true_iff, !andb_true_iff, !Z.ltb_lt, !Z.eqb_eq.
  destruct (Z.lt_trichotomy (byte_val x) (byte_val y)) as [?|[E|?]]; [auto| |auto].
  apply byte_val_inj in E as ->. destruct (IH b) as [?|[->|?]]; auto.
Qed.

#[global] Instance bytes_ltb_swo : StrictWeakOrder bytes_ltb.
Proof.
  split.
  - apply bytes_ltb_irrefl.
  - intros x y H. apply not_true_iff_false. intros H'.
    pose proof (bytes_lt_trans _ _ _ H H') as Hx. unfold bytes_lt in Hx. by rewrite bytes_ltb_irrefl in Hx.
  - intros x y z H1 H2. apply not_true_iff_false. intros H3.
    destruct (bytes_lt_total y z) as [H|[->|H]]; unfold bytes_lt in *; [congruence|congruence|].
    pose proof (bytes_lt_trans _ _ _ H3 H). unfold bytes_lt in *. congruence.
Qed.

(** ** The engine *)

(** The operations of an ordered store within a transaction.  [kv_scan m p] is
    what an iterator over the keys with prefix [p] yields, [kv_range m lo hi] what
    one over the keys from [lo] up to and without [hi] does. *)
Class OrderedKV (M : Type) : Type := {
  kv_empty : M;
  kv_get : M -> bytes -> option bytes;
  kv_put : M -> bytes -> bytes -> M;
  kv_delete : M -> bytes -> M;
  kv_scan : M -> bytes -> list (bytes * bytes);
  kv_range : M -> bytes -> option bytes -> list (bytes * bytes)
}.

Definition in_bounds (lo : bytes) (hi : option bytes) (k : bytes) : bool :=
  negb (bytes_ltb k lo) && match hi with None => true | Some h => bytes_ltb k h end.

(** Documented behaviour: a map, scanned in ascending byte order of the keys. *)
Class OrderedKVLaws (M : Type) `{!OrderedKV M} : Prop := {
  kv_get_empty k : kv_get kv_empty k = None;
  kv_get_put m k v k' : kv_get (kv_put m k v) k' = if bool_decide (k = k') then Some v else kv_get m k';
  kv_get_delete m k k' : kv_get (kv_delete m k) k' = if bool_decide (k = k') then None else kv_get m k';
  kv_scan_get m p k v : (k, v) ∈ kv_scan m p <-> kv_get m k = Some v /\ p `prefix_of` k;
  kv_scan_sorted m p : StronglySorted bytes_lt (map fst (kv_scan m p));
  kv_range_get m lo hi k v : (k, v) ∈ kv_range m lo hi <-> kv_get m k = Some v /\ in_bounds lo hi k = true;
  kv_range_sorted m lo hi : StronglySorted bytes_lt (map fst (kv_range m lo hi))
}.

(** A finite map, sorted on demand. *)
Abbreviation MapKV := (gmap bytes bytes).

Definition entry_less (a b : bytes * bytes) : bool := bytes_ltb (fst a) (fst b).

#[global] Instance entry_less_swo : StrictWeakOrder entry_less.
Proof.
  split; unfold entry_less; intros; [apply swo_irrefl|by apply swo_asym|by eapply swo_ntrans].
Qed.

Definition sorted_entries (m : MapKV) (P : bytes -> bool) : list (bytes * bytes) :=
  slice_stable entry_less (List.filter (fun e => P (fst e)) (map_to_list m)).

#[global] Instance mapKV : OrderedKV MapKV := {
  kv_empty := ∅;
  kv_get m k := m !! k;
  kv_put m k v := <[k := v]> m;
  kv_delete m k := delete k m;
  kv_scan m p := sorted_entries m (fun k => bool_decide (p `prefix_of` k));
  kv_range m lo hi := sorted_entries m (in_bounds lo hi)
}.

Lemma NoDup_map_filter {A B} (f : A -> B) (P : A -> bool) (l : list A) :
  NoDup (map f l) -> NoDup (map f (List.filter P l)).
Proof.
  induction l as [|x l IH]; simpl; [done|]. rewrite NoDup_cons. intros [Hx Hl].
  destruct (P x); simpl; [|by apply IH]. apply NoDup_cons. split; [|by apply IH].
  intros Hin. apply Hx. apply list_elem_of_fmap in Hin as (y & -> & Hy).
  apply list_elem_of_In, filter_In in Hy as [Hy _]. by apply list_elem_of_fmap_2, list_elem_of_In.
Qed.

Lemma sorted_strict_keys (l : list (bytes * bytes)) :
  sorted entry_less l -> NoDup (map fst l) -> StronglySorted bytes_lt (map fst l).
Proof.
  induction 1 as [|e l Hs IH Hall]; simpl; [constructor|]. rewrite NoDup_cons. intros [He Hl].
  constructor; [by apply IH|]. apply Forall_fmap, Forall_forall. intros e' He'. simpl.
  rewrite Forall_forall in Hall. specialize (Hall e' He'). unfold entry_less in Hall.
  destruct (bytes_lt_total (fst e) (fst e')) as [H|[H|H]]; [done| |unfold bytes_lt in H; congruence].
  exfalso. apply He. rewrite H. by apply list_elem_of_fmap_2.
Qed.

Lemma sorted_entries_get m P k v : (k, v) ∈ sorted_entries m P <-> m !! k = Some v /\ P k = true.
Proof.
  unfold sorted_entries. rewrite slice_stable_perm, list_elem_of_In, filter_In.
  by rewrite <- list_elem_of_In, elem_of_map_to_list.
Qed.

Lemma sorted_entries_sorted m P : StronglySorted bytes_lt (map fst (sorted_entries m P)).
Proof.
  apply sorted_strict_keys; [apply slice_stable_sorted, _|].
  eapply NoDup_Permutation_proper; [apply Permutation_map, slice_stable_perm|].
  apply NoDup_map_filter. apply NoDup_fst_map_to_list.
Qed.

#[global] Instance mapKV_laws : OrderedKVLaws MapKV.
Proof.
  split.
  - intros k. apply lookup_empty.
  - intros m k v k'. simpl. case_bool_decide as H; [subst; apply lookup_insert_eq|by apply lookup_insert_ne].
  - intros m k k'. simpl. case_bool_decide as H; [subst; apply lookup_delete_eq|by apply lookup_delete_ne].
  - intros m p k v. simpl. by rewrite sorted_entries_get, bool_decide_eq_true.
  - intros m p. apply sorted_entries_sorted.
  - intros m lo hi k v. apply sorted_entries_get.
  - intros m lo hi. apply sorted_entries_sorted.
Qed.

(** ** Big-endian keys *)

(** [binary.BigEndian.PutUint64] and [Uint64], on [n] bytes. *)
Fixpoint be_put (n : nat) (z : Z) : bytes :=
  match n with
  | O => []
  | S n' => byte_of (z / 256 ^ Z.of_nat n') :: be_put n' (z mod 256 ^ Z.of_nat n')
  end.

Fixpoint be_get (b : bytes) : Z :=
  match b with
  | [] => 0
  | x :: b' => byte_val x * 256 ^ Z.of_nat (length b') + be_get b'
  end.

Lemma length_be_put n z : length (be_put n z) = n.
Proof. revert z. induction n as [|n IH]; intros z; simpl; [done|]. by rewrite IH. Qed.

Lemma be_step n z :
  0 <= z < 256 ^ Z.of_nat (S n) ->
  0 <= z / 256 ^ Z.of_nat n < 256 /\ 0 <= z mod 256 ^ Z.of_nat n < 256 ^ Z.of_nat n.
Proof.
  rewrite Nat2Z.inj_succ, Z.pow_succ_r by lia. intros H.
  pose proof (Z.pow_pos_nonneg 256 (Z.of_nat n)) as Hp.
  split; [|apply Z.mod_pos_bound; lia]. split; [apply Z.div_pos; lia|apply Z.div_lt_upper_bound; lia].
Qed.

Lemma be_get_put n z : 0 <= z < 256 ^ Z.of_nat n -> be_get (be_put n z) = z.
Proof.
  revert z. induction n as [|n IH]; intros z Hz; [simpl in *; lia|]. apply be_step in Hz as [Hq Hr].
  cbn [be_put be_get]. rewrite length_be_put, byte_val_of, IH by done.
  pose proof (Z.div_mod z (256 ^ Z.of_nat n)). lia.
Qed.

(** Byte order of fixed-width big-endian numbers is numeric order. *)
Lemma be_put_ltb n x y a b :
  0 <= x < 256 ^ Z.of_nat n -> 0 <= y < 256 ^ Z.of_nat n ->
  bytes_ltb (be_put n x ++ a) (be_put n y ++ b) = (x <? y) || ((x =? y) && bytes_ltb a b).
Proof.
  revert x y. induction n as [|n IH]; intros x y Hx Hy.
  { simpl in *. replace x with y by lia. by rewrite Z.ltb_irrefl, Z.eqb_refl. }
  apply be_step in Hx as [Hqx Hrx], Hy as [Hqy Hry].
  cbn [be_put app bytes_ltb]. rewrite !byte_val_of, IH by done.
  pose proof (Z.pow_pos_nonneg 256 (Z.of_nat n)) as Hp.
  pose proof (Z.div_mod x (256 ^ Z.of_nat n)) as Ex. pose proof (Z.div_mod y (256 ^ Z.of_nat n)) as Ey.
  revert Hqx Hqy Hrx Hry Ex Ey Hp. generalize (256 ^ Z.of_nat n) as P. intros P.
  generalize (x / P), (x mod P), (y / P), (y mod P). intros qx rx qy ry Hqx Hqy Hrx Hry Ex Ey Hp.
  specialize (Ex ltac:(lia)). specialize (Ey ltac:(lia)).
  destruct (Z.lt_trichotomy qx qy) as [H|[->|H]].
  - replace (qx <? qy) with true by lia. replace (x <? y) with true by nia. done.
  - rewrite Z.ltb_irrefl, Z.eqb_refl. cbn [orb andb].
    replace (x <? y) with (rx <? ry) by (apply eq_true_iff_eq; lia).
    replace (x =? y) with (rx =? ry) by (apply eq_true_iff_eq; lia). done.
  - replace (qx <? qy) with false by lia. replace (qx =? qy) with false by lia.
    replace (x <? y) with false by nia. replace (x =? y) with false by nia. done.
Qed.

Lemma be_put_inj n x y :
  0 <= x < 256 ^ Z.of_nat n -> 0 <= y < 256 ^ Z.of_nat n -> be_put n x = be_put n y -> x = y.
Proof. intros Hx Hy H. rewrite <- (be_get_put n x), <- (be_get_put n y) by done. by rewrite H. Qed.

(** The suffix of every event key: eight bytes of Unix nanoseconds, eight bytes
    of arrival number. *)
Definition event_suffix (tsNanos seq : Z) : bytes := be_put 8 (uint64 tsNanos) ++ be_put 8 (uint64 seq).

Lemma length_event_suffix ts seq : length (event_suffix ts seq) = 16%nat.
Proof. unfold event_suffix. by rewrite length_app, !length_be_put. Qed.

(** [t.UTC().UnixNano()] *)
Definition UnixNano (t : Time) : Z := int64 (t_unix t * 10 ^ 9 + t_nsec t).
(** [time.Unix(0, n).UTC()] *)
Definition nanosToTime (n : Z) : Time := mkTime (n / 10 ^ 9) (n mod 10 ^ 9) UTC.

(** Instants from 1970 to 2262, whose nanoseconds are a non-negative [int64]. *)
Definition keyed_time (t : Time) : Prop :=
  wf_time t /\ 0 <= t_unix t * 10 ^ 9 + t_nsec t < 2 ^ 63.

Definition utc (t : Time) : Time := mkTime (t_unix t) (t_nsec t) UTC.

Lemma UnixNano_keyed t : keyed_time t -> UnixNano t = t_unix t * 10 ^ 9 + t_nsec t.
Proof. intros [_ H]. apply int64_id. lia. Qed.

Lemma nanosToTime_UnixNano t : keyed_time t -> nanosToTime (UnixNano t) = utc t.
Proof.
  intros H. rewrite UnixNano_keyed by done. destruct H as [Hw _]. unfold wf_time in Hw. unfold nanosToTime, utc.
  f_equal; [rewrite Z.div_add_l by lia; rewrite Z.div_small; lia|].
  rewrite Z.add_comm, Z.mod_add by lia. apply Z.mod_small. lia.
Qed.

Lemma keyed_utc t : keyed_time t -> keyed_time (utc t).
Proof. done. Qed.

(** On such instants and on arrival numbers below [2^64] the byte order of the
    suffixes is the replay order. *)
Lemma event_suffix_order t s t' s' :
  keyed_time t -> keyed_time t' -> 0 <= s < 2 ^ 64 -> 0 <= s' < 2 ^ 64 ->
  bytes_ltb (event_suffix (UnixNano t) s) (event_suffix (UnixNano t') s') = replay_less t s t' s'.
Proof.
  intros Ht Ht' Hs Hs'. unfold event_suffix. rewrite !UnixNano_keyed by done.
  destruct Ht as [Hw Hn], Ht' as [Hw' Hn']. unfold wf_time in *.
  rewrite !uint64_id by lia. rewrite be_put_ltb by (change (256 ^ Z.of_nat 8) with (2 ^ 64); lia).
  rewrite <- (app_nil_r (be_put 8 s)), <- (app_nil_r (be_put 8 s')), be_put_ltb
    by (change (256 ^ Z.of_nat 8) with (2 ^ 64); lia).
  simpl bytes_ltb. rewrite andb_false_r, orb_false_r.
  unfold replay_less, TimeBefore. rewrite TimeEqual_compare. unfold TimeCompare.
  apply eq_true_iff_eq. rewrite orb_true_iff, andb_true_iff, !Z.ltb_lt, Z.eqb_eq.
  destruct (Z.ltb_spec (t_unix t) (t_unix t')); [simpl; lia|].
  destruct (Z.ltb_spec (t_unix t') (t_unix t)); [simpl; lia|].
  destruct (Z.ltb_spec (t_nsec t) (t_nsec t')); [simpl; lia|].
  destruct (Z.ltb_spec (t_nsec t') (t_nsec t)); simpl; rewrite ?Z.ltb_lt; lia.
Qed.

Lemma event_suffix_inj ts s ts' s' :
  0 <= ts < 2 ^ 63 -> 0 <= ts' < 2 ^ 63 -> 0 <= s < 2 ^ 64 -> 0 <= s' < 2 ^ 64 ->
  event_suffix ts s = event_suffix ts' s' -> ts = ts' /\ s = s'.
Proof.
  unfold event_suffix. intros Ht Ht' Hs Hs' H. rewrite !uint64_id in H by lia.
  apply app_inj_1 in H as [H1 H2]; [|by rewrite !length_be_put].
  split; eapply be_put_inj; try eassumption; change (256 ^ Z.of_nat 8) with (2 ^ 64); lia.
Qed.

(** ** Records as JSON *)

(** [valueRec], [historyRec]: the same in the three stores. *)
Record valueRec : Type := mkValueRec {
  vrec_TaskID : string;
  vrec_ExecutionID : string;
  vrec_Field : string;
  vrec_Value : bytes;
  vrec_Status : string;
  vrec_TS : Z
}.

Record historyRec : Type := mkHistoryRec {
  hrec_Kind : string;
  hrec_NodeID : option string;
  hrec_ExecutionID : string;
  hrec_Payload : bytes;
  hrec_TS : Z
}.

Definition set_status (st : string) (r : valueRec) : valueRec :=
  mkValueRec (vrec_TaskID r) (vrec_ExecutionID r) (vrec_Field r) (vrec_Value r) st (vrec_TS r).

(** [encoding/json] at a type: [Marshal], [Unmarshal], and the values it
    represents exactly (valid UTF-8 in strings, compact JSON in raw messages,
    times in UTC). *)
Class Json (A : Type) : Type := {
  js_marshal : A -> result bytes;
  js_unmarshal : bytes -> result A;
  js_exact : A -> Prop
}.

Class StoreJson : Type := {
  json_value :: Json valueRec;
  json_history :: Json historyRec;
  json_meta :: Json RunMetadata
}.

Class JsonLaws (A : Type) `{!Json A} : Prop := {
  js_roundtrip a : js_exact a -> exists d, js_marshal a = Ok d /\ js_unmarshal d = Ok a
}.

Class StoreJsonLaws `{!StoreJson} : Prop := {
  json_value_laws :: JsonLaws valueRec;
  json_history_laws :: JsonLaws historyRec;
  json_meta_laws :: JsonLaws RunMetadata;
  json_status_exact r st : js_exact r -> js_exact (set_status (ValueStatus_String st) r)
}.

(** ** What a client of such a store observes *)

(** Times are kept as instants in UTC, and an empty history payload as the JSON
    text [null]. *)
Definition json_null : bytes := String.list_byte_of_string "null".

Definition kept_payload (p : bytes) : bytes := match p with [] => json_null | _ => p end.

Definition canon_write (w : ValueWrite) : ValueWrite :=
  mkValueWrite (vw_TaskID w) (vw_ExecutionID w) (vw_Field w) (vw_Value w) (utc (vw_Timestamp w)).
Definition canon_entry (h : HistoryEntry) : HistoryEntry :=
  mkHistoryEntry (he_Kind h) (he_NodeID h) (he_ExecutionID h) (kept_payload (he_Payload h)) (utc (he_Timestamp h)).

Definition canon_op (op : WriteOp) : WriteOp :=
  mkWriteOp (op_RunID op) (op_Kind op) (option_map canon_write (op_ValueWrite op)) (op_StatusFlip op)
    (option_map canon_entry (op_HistoryEntry op)).

Definition canon_call (c : Call) : Call :=
  match c with
  | CallWriteBatch ops => CallWriteBatch (map canon_op ops)
  | _ => c
  end.

Definition call_ops (c : Call) : nat := match c with CallWriteBatch ops => length ops | _ => 0 end.

(** Arrival numbers are the backend's own; only the order they give is shared. *)
Definition erase_value (v : ValueRecord) : ValueRecord :=
  mkValueRecord (vr_TaskID v) (vr_ExecutionID v) (vr_Field v) (vr_Value v) (vr_Status v) (vr_Timestamp v) 0.
Definition erase_history (h : HistoryRecord) : HistoryRecord :=
  mkHistoryRecord (hr_Kind h) (hr_NodeID h) (hr_ExecutionID h) (hr_Payload h) (hr_Timestamp h) 0.
Definition erase_full (fh : FullHistory) : FullHistory :=
  mkFullHistory (fh_Meta fh) (map erase_value (fh_Values fh)) (map erase_history (fh_History fh)).

(** The methods of a [StateStore] whose reads can fail. *)
Class LogBackend (St : Type) : Type := {
  lb_new : St;
  lb_save : St -> RunMetadata -> St * option GoError;
  lb_write : St -> list WriteOp -> St * option GoError;
  lb_flush : St -> string -> St * option GoError;
  lb_current : St -> string -> result (option CurrentVersion);
  lb_full : St -> string -> result (option FullHistory)
}.

Definition lb_call {St} `{!LogBackend St} (s : St) (c : Call) : St * option GoError :=
  match c with
  | CallSave m => lb_save s m
  | CallWriteBatch ops => lb_write s ops
  | CallFlush id => lb_flush s id
  end.

(** What such a store promises: after at most [n] operations of calls it admits
    its state represents an abstract log store; reads answer from the log for
    every run the store knows of ([lb_known]), under the ids it keeps apart
    ([lb_id]). *)
Class RepresentsLog (St : Type) `{!LogBackend St} : Type := {
  lb_admits : Call -> Prop;
  lb_id : string -> Prop;
  lb_known : option RunMetadata * list WriteOp -> bool;
  lb_refines : nat -> St -> AbsStore -> Prop;
  lb_refines_new : lb_refines 0 lb_new ∅;
  lb_refines_call n s a c :
    lb_refines n s a -> lb_admits c -> Z.of_nat (n + call_ops c) < 2 ^ 64 ->
    lb_refines (n + call_ops c) (fst (lb_call s c)) (fst (spec_call a (canon_call c))) /\
    snd (lb_call s c) = snd (spec_call a (canon_call c));
  lb_refines_current n s a id :
    lb_refines n s a -> lb_id id ->
    lb_current s id = Ok (if lb_known (abs_run a id) then spec_current a id else None);
  lb_refines_full n s a id :
    lb_refines n s a -> lb_id id ->
    exists fh, lb_full s id = Ok fh /\
      option_map erase_full fh = option_map erase_full (if lb_known (abs_run a id) then spec_full a id else None)
}.

Section Client.
Context {St : Type} `{HR : RepresentsLog St}.

Fixpoint calls_ops (cs : list Call) : nat := match cs with [] => 0 | c :: cs' => call_ops c + calls_ops cs' end.

Lemma run_calls_represents cs n s a :
  lb_refines n s a -> Forall lb_admits cs -> Z.of_nat (n + calls_ops cs) < 2 ^ 64 ->
  lb_refines (n + calls_ops cs) (fst (run_calls lb_call s cs)) (fst (run_calls spec_call a (map canon_call cs))) /\
  snd (run_calls lb_call s cs) = snd (run_calls spec_call a (map canon_call cs)).
Proof.
  revert n s a; induction cs as [|c cs IH]; intros n s a Hr Hc Hn; cbn [run_calls map calls_ops] in *.
  { by rewrite Nat.add_0_r. }
  apply Forall_cons in Hc as [Hc Hcs].
  destruct (lb_refines_call n s a c Hr Hc) as [Hr' He]; [lia|].
  destruct (lb_call s c) as [s' e], (spec_call a (canon_call c)) as [a' e']. simpl in Hr', He. subst e'.
  destruct (IH (n + call_ops c)%nat s' a' Hr' Hcs) as [Hr'' Hes]; [lia|].
  destruct (run_calls lb_call s' cs), (run_calls spec_call a' (map canon_call cs)). simpl in *.
  rewrite Nat.add_assoc. by subst.
Qed.

(** After any history of admitted calls the errors and both reads are those of
    the log specification. *)
Lemma log_observations cs id :
  Forall lb_admits cs -> lb_id id -> Z.of_nat (calls_ops cs) < 2 ^ 64 ->
  let s := run_calls lb_call lb_new cs in
  let a := run_calls spec_call ∅ (map canon_call cs) in
  snd s = snd a /\
  lb_current (fst s) id = Ok (if lb_known (abs_run (fst a) id) then spec_current (fst a) id else None) /\
  exists fh, lb_full (fst s) id = Ok fh /\
    option_map erase_full fh = option_map erase_full (if lb_known (abs_run (fst a) id) then spec_full (fst a) id else None).
Proof.
  intros Hc Hid Hn. destruct (run_calls_represents cs 0 lb_new ∅ lb_refines_new Hc Hn) as [Hr He].
  split_and!; [done|by eapply lb_refines_current|by eapply lb_refines_full].
Qed.

End Client.

(** ** Replay order without the arrival numbers *)

Section Sorts.
Context {A B : Type}.

Lemma slice_stable_map (f : A -> B) (less : A -> A -> bool) (less' : B -> B -> bool) l :
  (forall x y, less x y = less' (f x) (f y)) -> slice_stable less' (map f l) = map f (slice_stable less l).
Proof.
  intros Hf. unfold slice_stable.
  assert (Hins : forall x rp, go_insert less' (f x) (map f rp) = map f (go_insert less x rp)).
  { intros x rp. induction rp as [|p rp IH]; simpl; [done|]. rewrite <- Hf. destruct (less x p); [|done]. by rewrite IH. }
  assert (Hgen : forall rp, fold_left (fun rp x => go_insert less' x rp) (map f l) (map f rp)
    = map f (fold_left (fun rp x => go_insert less x rp) l rp)).
  { induction l as [|x l IH]; intros rp; simpl; [done|]. by rewrite Hins, IH. }
  unfold reverse. rewrite !rev_append_rev, !app_nil_r, map_rev. f_equal. exact (Hgen []).
Qed.

(** Lists of entries with ascending keys are determined by their members. *)
Lemma ascending_unique (l l' : list (bytes * bytes)) :
  StronglySorted bytes_lt (map fst l) -> StronglySorted bytes_lt (map fst l') ->
  (forall e, e ∈ l <-> e ∈ l') -> l = l'.
Proof.
  revert l'. induction l as [|e l IH]; intros [|e' l'] Hl Hl' H; [done| | |].
  - exfalso. apply (proj1 (elem_of_nil e')), H. set_solver.
  - exfalso. apply (proj1 (elem_of_nil e)), H. set_solver.
  - simpl in *. inversion_clear Hl as [|? ? Hs Ha]. inversion_clear Hl' as [|? ? Hs' Ha'].
    rewrite Forall_fmap, Forall_forall in Ha, Ha'. simpl in Ha, Ha'.
    assert (Hirr : forall x, ~ bytes_lt x x) by (intros x Hx; unfold bytes_lt in Hx; by rewrite bytes_ltb_irrefl in Hx).
    assert (e = e') as <-.
    { destruct (proj1 (elem_of_cons l' e e') (proj1 (H e) ltac:(set_solver))) as [?|He]; [done|].
      destruct (proj1 (elem_of_cons l e' e) (proj2 (H e') ltac:(set_solver))) as [?|He']; [done|].
      exfalso. apply (Hirr (fst e)). eapply bytes_lt_trans; [by apply Ha|by apply Ha']. }
    f_equal. apply IH; [done..|]. intros x. split; intros Hx.
    + destruct (proj1 (elem_of_cons l' x e) (proj1 (H x) ltac:(set_solver))) as [->|?]; [|done].
      exfalso. by apply (Hirr (fst e)), Ha.
    + destruct (proj1 (elem_of_cons l x e) (proj2 (H x) ltac:(set_solver))) as [->|?]; [|done].
      exfalso. by apply (Hirr (fst e)), Ha'.
Qed.

(** A scan whose entries are the encodings of some records lists them sorted. *)
Lemma scan_is_sorted (less : A -> A -> bool) `{!StrictWeakOrder less} (key enc : A -> bytes) (l : list A)
    (es : list (bytes * bytes)) :
  StronglySorted bytes_lt (map fst es) ->
  (forall k b, (k, b) ∈ es <-> exists x, x ∈ l /\ k = key x /\ b = enc x) ->
  (forall x y, x ∈ l -> y ∈ l -> bytes_ltb (key x) (key y) = less x y) ->
  NoDup (map key l) ->
  es = map (fun x => (key x, enc x)) (slice_stable less l).
Proof.
  intros Hs Hm Hlt Hnd. pose proof (slice_stable_perm less l) as Hp.
  apply ascending_unique; [done| |].
  - rewrite map_map. simpl.
    assert (Hnd' : NoDup (map key (slice_stable less l))) by (by rewrite (Permutation_map key Hp)).
    assert (Hin : forall x, x ∈ slice_stable less l -> x ∈ l) by (intros x; by rewrite Hp).
    clear Hp. pose proof (slice_stable_sorted less l) as Hsort. revert Hin Hnd'. induction Hsort as [|x xs Hxs IH Hall]; intros Hin Hnd'; simpl; [constructor|].
    simpl in Hnd'. apply NoDup_cons in Hnd' as [Hx Hnd'].
    constructor; [apply IH; [intros y Hy; apply Hin; set_solver|done]|].
    apply Forall_fmap, Forall_forall. intros y Hy. simpl. rewrite Forall_forall in Hall.
    specialize (Hall y Hy). simpl in Hall. rewrite <- Hlt in Hall by (apply Hin; set_solver).
    destruct (bytes_lt_total (key x) (key y)) as [?|[E|E]]; [done| |unfold bytes_lt in E; congruence].
    exfalso. apply Hx. rewrite E. by apply list_elem_of_fmap_2.
  - intros [k b]. rewrite Hm, list_elem_of_fmap. setoid_rewrite Hp. naive_solver.
Qed.

End Sorts.

Definition earlier {A} (ts : A -> Time) (a b : A) : bool := TimeBefore (ts a) (ts b).

(** With arrival numbers in order, replay order is stable order by time. *)
Lemma replay_sort_by_time {A} (ts : A -> Time) (sq : A -> Z) (l : list A) :
  StronglySorted (fun a b => sq a < sq b) l ->
  slice_stable (fun a b => replay_less (ts a) (sq a) (ts b) (sq b)) l = slice_stable (earlier ts) l.
Proof.
  intros H. apply slice_stable_ext. induction H as [|x l Hs IH Hall]; constructor; [done|].
  eapply Forall_impl; [exact Hall|]. intros y Hy. simpl in *. unfold replay_less, earlier, TimeBefore.
  rewrite TimeEqual_compare. destruct (Z.eqb_spec (TimeCompare (ts y) (ts x)) 0) as [E|]; simpl; [|done].
  rewrite E. simpl. lia.
Qed.

(** Two lists of records that differ in their arrival numbers only replay
    alike. *)
Lemma replay_values_alike vs vs' :
  StronglySorted (fun a b => vr_Seq a < vr_Seq b) vs -> StronglySorted (fun a b => vr_Seq a < vr_Seq b) vs' ->
  map erase_value vs = map erase_value vs' ->
  map erase_value (SortValueRecords vs) = map erase_value (SortValueRecords vs').
Proof.
  intros H H' E. unfold SortValueRecords. unfold value_less. rewrite !(replay_sort_by_time vr_Timestamp vr_Seq) by done.
  rewrite <- !(slice_stable_map erase_value _ (earlier vr_Timestamp)) by done. by rewrite E.
Qed.

Lemma replay_history_alike hs hs' :
  StronglySorted (fun a b => hr_Seq a < hr_Seq b) hs -> StronglySorted (fun a b => hr_Seq a < hr_Seq b) hs' ->
  map erase_history hs = map erase_history hs' ->
  map erase_history (SortHistoryRecords hs) = map erase_history (SortHistoryRecords hs').
Proof.
  intros H H' E. unfold SortHistoryRecords. unfold history_less. rewrite !(replay_sort_by_time hr_Timestamp hr_Seq) by done.
  rewrite <- !(slice_stable_map erase_history _ (earlier hr_Timestamp)) by done. by rewrite E.
Qed.

(** The fold of [CurrentVersion] does not look at arrival numbers. *)
Lemma fold_value_erase vs m : fold_left fold_value (map erase_value vs) m = fold_left fold_value vs m.
Proof. revert m. induction vs as [|v vs IH]; intros m; simpl; [done|]. by rewrite IH. Qed.
