(* ===== verification/KvIndex.v ===== *)
(** * The pending index of an ordered key-value store

    The content of a run in an embedded store, seen as partial functions from
    key suffixes: value records, pending index entries, history records.
    [run_rep] relates it to the run of the in-memory store that received the
    same operations; writes, flips and history entries preserve the relation,
    whatever the engine. *)

From Stdlib Require Import Sorted Strings.Byte.
From S2P Require Import Prelude GoTime StateStore StateStoreLaws Wire KvStore.
#[global] Open Scope Z_scope.

Definition text (s : string) : bytes := String.list_byte_of_string s.

Lemma text_inj s s' : text s = text s' -> s = s'.
Proof.
  unfold text. intros H. rewrite <- (String.string_of_list_byte_of_string s), <- (String.string_of_list_byte_of_string s').
  by rewrite H.
Qed.

Lemma elem_of_snoc {A} (x y : A) l : x ∈ l ++ [y] <-> x ∈ l \/ x = y.
Proof. by rewrite elem_of_app, list_elem_of_singleton. Qed.

(** A byte string is cut at the first separator in one way only. *)
Lemma sep_split_inj (sep : Byte.byte) (a a' b b' : bytes) :
  sep ∉ a -> sep ∉ a' -> a ++ sep :: b = a' ++ sep :: b' -> a = a' /\ b = b'.
Proof.
  revert a'. induction a as [|x a IH]; intros [|x' a'] Ha Ha' H; simpl in *.
  - by injection H.
  - injection H as -> _. set_solver.
  - injection H as -> _. set_solver.
  - injection H as -> H. destruct (IH a') as [-> ->]; [set_solver..|done|done].
Qed.

Section Index.
Context {SJ : StoreJson} {SJL : StoreJsonLaws}.
(** The byte that ends a task id in an index key, and how index entries refer
    to a value record. *)
Variable sep : Byte.byte.
Variable ref : bytes -> bytes.

(** ** Records and their encodings *)

Definition vrec_of (v : ValueRecord) : valueRec :=
  mkValueRec (vr_TaskID v) (vr_ExecutionID v) (vr_Field v) (vr_Value v) (ValueStatus_String (vr_Status v))
    (UnixNano (vr_Timestamp v)).
Definition hrec_of (h : HistoryRecord) : historyRec :=
  mkHistoryRec (hr_Kind h) (hr_NodeID h) (hr_ExecutionID h) (hr_Payload h) (UnixNano (hr_Timestamp h)).

Definition encoded {A} `{!Json A} (a : A) : bytes := match js_marshal a with Ok d => d | Err _ => [] end.

Lemma marshal_encoded {A} {JA : Json A} {JL : JsonLaws A} (a : A) : js_exact a -> js_marshal a = Ok (encoded a).
Proof. intros He. destruct (js_roundtrip a He) as (d & Hd & _). unfold encoded. by rewrite Hd. Qed.

Lemma unmarshal_encoded {A} {JA : Json A} {JL : JsonLaws A} (a : A) : js_exact a -> js_unmarshal (encoded a) = Ok a.
Proof. intros He. destruct (js_roundtrip a He) as (d & Hd & Hu). unfold encoded. by rewrite Hd. Qed.

Definition vkey (v : ValueRecord) : bytes := event_suffix (UnixNano (vr_Timestamp v)) (vr_Seq v).
Definition hkey (h : HistoryRecord) : bytes := event_suffix (UnixNano (hr_Timestamp h)) (hr_Seq h).
Definition pkey (v : ValueRecord) : bytes := text (vr_TaskID v) ++ sep :: vkey v.

Definition settled_status (s : ValueStatus) : Prop :=
  s = ValueStatusPending \/ s = ValueStatusCommitted \/ s = ValueStatusAborted.

(** Records such a store holds, with arrival numbers up to [n]. *)
Record good_value (n : Z) (v : ValueRecord) : Prop := {
  gv_exact : js_exact (vrec_of v);
  gv_time : keyed_time (vr_Timestamp v);
  gv_utc : utc (vr_Timestamp v) = vr_Timestamp v;
  gv_status : settled_status (vr_Status v);
  gv_task : sep ∉ text (vr_TaskID v);
  gv_seq : 0 <= vr_Seq v <= n
}.

Record good_history (n : Z) (h : HistoryRecord) : Prop := {
  gh_exact : js_exact (hrec_of h);
  gh_time : keyed_time (hr_Timestamp h);
  gh_utc : utc (hr_Timestamp h) = hr_Timestamp h;
  gh_seq : 0 <= hr_Seq h <= n
}.

Lemma vkey_order n v w :
  n < 2 ^ 64 -> good_value n v -> good_value n w -> bytes_ltb (vkey v) (vkey w) = value_less v w.
Proof. intros Hn [] []. apply event_suffix_order; (done || lia). Qed.

Lemma hkey_order n v w :
  n < 2 ^ 64 -> good_history n v -> good_history n w -> bytes_ltb (hkey v) (hkey w) = history_less v w.
Proof. intros Hn [] []. apply event_suffix_order; (done || lia). Qed.

Lemma UnixNano_range t : keyed_time t -> 0 <= UnixNano t < 2 ^ 63.
Proof. intros H. rewrite UnixNano_keyed by done. by destruct H. Qed.

Lemma vkey_seq n v w : n < 2 ^ 64 -> good_value n v -> good_value n w -> vkey v = vkey w -> vr_Seq v = vr_Seq w.
Proof.
  intros Hn [] [] H. eapply event_suffix_inj; [..|exact H]; [by apply UnixNano_range|by apply UnixNano_range|lia|lia].
Qed.

Lemma hkey_seq n v w : n < 2 ^ 64 -> good_history n v -> good_history n w -> hkey v = hkey w -> hr_Seq v = hr_Seq w.
Proof.
  intros Hn [] [] H. eapply event_suffix_inj; [..|exact H]; [by apply UnixNano_range|by apply UnixNano_range|lia|lia].
Qed.

Lemma pkey_vkey n v w : good_value n v -> good_value n w -> pkey v = pkey w -> vkey v = vkey w.
Proof. intros [] [] H. by apply sep_split_inj in H as [_ ?]. Qed.

(** The index entries of a task are those whose key starts with its id and the
    separator. *)
Lemma pkey_prefix n v task :
  good_value n v -> sep ∉ text task -> (text task ++ [sep]) `prefix_of` pkey v <-> vr_TaskID v = task.
Proof.
  intros [] Ht. split.
  - intros [k Hk]. unfold pkey in Hk. rewrite <- app_assoc in Hk. simpl in Hk.
    apply sep_split_inj in Hk as [Hk _]; [|done|done]. by apply text_inj.
  - intros <-. exists (vkey v). unfold pkey. by rewrite <- app_assoc.
Qed.

(** ** The contents of a run *)

Definition pending (v : ValueRecord) : Prop := vr_Status v = ValueStatusPending.

Record holds (Vc Pc Hc : bytes -> option bytes) (vs : list ValueRecord) (hs : list HistoryRecord) : Prop := {
  hold_v k b : Vc k = Some b <-> exists v, v ∈ vs /\ k = vkey v /\ b = encoded (vrec_of v);
  hold_p k b : Pc k = Some b <-> exists v, v ∈ vs /\ pending v /\ k = pkey v /\ b = ref (vkey v);
  hold_h k b : Hc k = Some b <-> exists h, h ∈ hs /\ k = hkey h /\ b = encoded (hrec_of h)
}.

Definition put_at (k b : bytes) (c c' : bytes -> option bytes) : Prop :=
  forall k', c' k' = if bool_decide (k = k') then Some b else c k'.

Lemma seq_unique {A} (sq : A -> Z) l a b :
  StronglySorted (fun a b => sq a < sq b) l -> a ∈ l -> b ∈ l -> sq a = sq b -> a = b.
Proof.
  induction 1 as [|x l Hs IH Hall]; [by intros []%elem_of_nil|]. rewrite Forall_forall in Hall.
  intros [->|Ha]%elem_of_cons [->|Hb]%elem_of_cons E; [done| | |by apply IH].
  - apply Hall in Hb. lia.
  - apply Hall in Ha. lia.
Qed.

(** Adding a record with a fresh arrival number. *)
Lemma holds_write n Vc Pc Hc Vc' Pc' vs hs v :
  n < 2 ^ 64 -> holds Vc Pc Hc vs hs -> Forall (good_value n) vs -> good_value n v -> pending v ->
  Forall (fun w => vr_Seq w < vr_Seq v) vs ->
  put_at (vkey v) (encoded (vrec_of v)) Vc Vc' -> put_at (pkey v) (ref (vkey v)) Pc Pc' ->
  holds Vc' Pc' Hc (vs ++ [v]) hs.
Proof.
  intros Hn [Hv Hp Hh] Hg Hgv Hpe Hlt HV HP. rewrite Forall_forall in Hg, Hlt.
  assert (Hfresh : forall w, w ∈ vs -> vkey w <> vkey v).
  { intros w Hw E. eapply vkey_seq in E; [|done|by apply Hg|done]. specialize (Hlt w Hw). lia. }
  split.
  - intros k b. rewrite HV. case_bool_decide as E.
    + subst k. split; [intros [= <-]; exists v; set_solver|].
      intros (w & Hw & Ek & ->). apply elem_of_snoc in Hw as [Hw| ->]; [|done].
      exfalso. by apply (Hfresh w Hw).
    + rewrite Hv. split; intros (w & Hw & Ek & Eb); [exists w; set_solver|].
      apply elem_of_snoc in Hw as [Hw| ->]; [by exists w|congruence].
  - intros k b. rewrite HP. case_bool_decide as E.
    + subst k. split; [intros [= <-]; exists v; set_solver|].
      intros (w & Hw & Hpw & Ek & ->). apply elem_of_snoc in Hw as [Hw| ->]; [|done].
      exfalso. apply (Hfresh w Hw). symmetry. eapply pkey_vkey; [done|by apply Hg|done].
    + rewrite Hp. split; intros (w & Hw & Hpw & Ek & Eb); [exists w; set_solver|].
      apply elem_of_snoc in Hw as [Hw| ->]; [by exists w|congruence].
  - done.
Qed.

Lemma holds_entry n Vc Pc Hc Hc' vs hs h :
  n < 2 ^ 64 -> holds Vc Pc Hc vs hs -> Forall (good_history n) hs -> good_history n h ->
  Forall (fun w => hr_Seq w < hr_Seq h) hs ->
  put_at (hkey h) (encoded (hrec_of h)) Hc Hc' -> holds Vc Pc Hc' vs (hs ++ [h]).
Proof.
  intros Hn [Hv Hp Hh] Hg Hgh Hlt HH. rewrite Forall_forall in Hg, Hlt. split; [done|done|].
  intros k b. rewrite HH. case_bool_decide as E.
  - subst k. split; [intros [= <-]; exists h; set_solver|].
    intros (w & Hw & Ek & ->). apply elem_of_snoc in Hw as [Hw| ->]; [|done].
    exfalso. symmetry in Ek. eapply hkey_seq in Ek; [|done|by apply Hg|done]. specialize (Hlt w Hw). lia.
  - rewrite Hh. split; intros (w & Hw & Ek & Eb); [exists w; set_solver|].
    apply elem_of_snoc in Hw as [Hw| ->]; [by exists w|congruence].
Qed.

(** ** Flips *)

Definition flipped (f : StatusFlip) (v : ValueRecord) : ValueRecord :=
  mkValueRecord (vr_TaskID v) (vr_ExecutionID v) (vr_Field v) (vr_Value v) (sf_NewStatus f) (vr_Timestamp v) (vr_Seq v).

(** What the loop of a flip does to the contents, for the records [us]. *)
Record flip_effect (f : StatusFlip) (us : list ValueRecord) (Vc Pc Vc' Pc' : bytes -> option bytes) : Prop := {
  fe_v_at u : u ∈ us -> Vc' (vkey u) = Some (encoded (vrec_of (flipped f u)));
  fe_v_off k : (forall u, u ∈ us -> k <> vkey u) -> Vc' k = Vc k;
  fe_p_at u : u ∈ us -> Pc' (pkey u) = None;
  fe_p_off k : (forall u, u ∈ us -> k <> pkey u) -> Pc' k = Pc k
}.

Definition to_flip (f : StatusFlip) (v : ValueRecord) : Prop := vr_TaskID v = sf_TaskID f /\ pending v.

Lemma flip_record_cases f v :
  (to_flip f v /\ flip_record f v = flipped f v) \/ (~ to_flip f v /\ flip_record f v = v).
Proof.
  unfold flip_record, to_flip, pending. destruct (String.eqb_spec (vr_TaskID v) (sf_TaskID f)); simpl; [|right; tauto].
  case_bool_decide; [left; done|right; tauto].
Qed.

Lemma flip_record_key f v : vkey (flip_record f v) = vkey v /\ pkey (flip_record f v) = pkey v.
Proof. destruct (flip_record_cases f v) as [[_ ->]|[_ ->]]; done. Qed.

Lemma good_flip n f v :
  sf_NewStatus f = ValueStatusCommitted \/ sf_NewStatus f = ValueStatusAborted ->
  good_value n v -> good_value n (flip_record f v).
Proof.
  intros Hs Hg. destruct (flip_record_cases f v) as [[_ ->]|[_ ->]]; [|done]. destruct Hg.
  split; try done; [|unfold settled_status; simpl; tauto].
  exact (json_status_exact (vrec_of v) (sf_NewStatus f) gv_exact0).
Qed.

(** A flip that reaches exactly the pending records of its task. *)
Lemma holds_flip n f us Vc Pc Hc Vc' Pc' vs hs :
  n < 2 ^ 64 -> holds Vc Pc Hc vs hs -> Forall (good_value n) vs ->
  StronglySorted (fun a b => vr_Seq a < vr_Seq b) vs ->
  sf_NewStatus f = ValueStatusCommitted \/ sf_NewStatus f = ValueStatusAborted ->
  (forall v, v ∈ us <-> v ∈ vs /\ to_flip f v) ->
  flip_effect f us Vc Pc Vc' Pc' -> holds Vc' Pc' Hc (map (flip_record f) vs) hs.
Proof.
  intros Hn [Hv Hp Hh] Hg Hs Hst Hus [Fv Fv' Fp Fp']. rewrite Forall_forall in Hg.
  assert (Hkey : forall v w, v ∈ vs -> w ∈ vs -> vkey v = vkey w -> v = w).
  { intros v w Hvv Hw E. eapply (seq_unique vr_Seq); [done..|]. eapply vkey_seq; [done|by apply Hg|by apply Hg|done]. }
  assert (Hpk : forall v w, v ∈ vs -> w ∈ vs -> pkey v = pkey w -> v = w).
  { intros v w Hvv Hw E. apply Hkey; [done..|]. eapply pkey_vkey; [by apply Hg|by apply Hg|done]. }
  assert (Hoff : forall v, v ∈ vs -> ~ to_flip f v -> forall u, u ∈ us -> vkey v <> vkey u /\ pkey v <> pkey u).
  { intros v Hvv Hnf u Hu. apply Hus in Hu as [Hu Hfu].
    split; intros E; [apply Hkey in E|apply Hpk in E]; try done; congruence. }
  split; [| |done].
  - intros k b. split.
    + intros Hk. destruct (decide (Exists (fun u => k = vkey u) us)) as [He|He].
      * apply Exists_exists in He as (u & Hu & ->). rewrite Fv in Hk by done. injection Hk as <-.
        apply Hus in Hu as [Hu Hfu]. exists (flip_record f u).
        destruct (flip_record_cases f u) as [[_ ->]|[? _]]; [|done]. split; [|done].
        apply list_elem_of_fmap. exists u. destruct (flip_record_cases f u) as [[_ ->]|[? _]]; done.
      * rewrite Fv' in Hk by (intros u Hu E; apply He, Exists_exists; eauto).
        apply Hv in Hk as (v & Hvv & -> & ->). exists (flip_record f v).
        destruct (flip_record_key f v) as [-> _]. split; [by apply list_elem_of_fmap_2|]. split; [done|].
        destruct (flip_record_cases f v) as [[Hf _]|[_ ->]]; [|done].
        exfalso. apply He, Exists_exists. exists v. split; [by apply Hus|done].
    + intros (w & Hw & -> & ->). apply list_elem_of_fmap in Hw as (v & -> & Hvv).
      destruct (flip_record_key f v) as [-> _].
      destruct (flip_record_cases f v) as [[Hf ->]|[Hf ->]]; [by apply Fv, Hus|].
      rewrite Fv' by (intros u Hu; by apply (Hoff v Hvv Hf)). apply Hv. by exists v.
  - intros k b. split.
    + intros Hk. destruct (decide (Exists (fun u => k = pkey u) us)) as [He|He].
      * apply Exists_exists in He as (u & Hu & ->). by rewrite Fp in Hk by done.
      * rewrite Fp' in Hk by (intros u Hu E; apply He, Exists_exists; eauto).
        apply Hp in Hk as (v & Hvv & Hpe & -> & ->).
        destruct (flip_record_cases f v) as [[Hf _]|[_ E]].
        { exfalso. apply He, Exists_exists. exists v. split; [by apply Hus|done]. }
        exists v. split_and!; [apply list_elem_of_fmap; by exists v|done..].
    + intros (w & Hw & Hpe & -> & ->). apply list_elem_of_fmap in Hw as (v & -> & Hvv).
      destruct (flip_record_cases f v) as [[_ E]|[Hf E]]; rewrite E in *.
      { unfold pending in Hpe. simpl in Hpe. destruct Hst; congruence. }
      rewrite Fp' by (intros u Hu; by apply (Hoff v Hvv Hf)). apply Hp. by exists v.
Qed.


Definition del_at (k : bytes) (c c' : bytes -> option bytes) : Prop :=
  forall k', c' k' = if bool_decide (k = k') then None else c k'.

(** The loop handles one record after the other. *)
Lemma flip_effect_nil f Vc Pc : flip_effect f [] Vc Pc Vc Pc.
Proof. split; try done; intros u []%elem_of_nil. Qed.

Lemma flip_effect_cons f u us Vc Pc V1 P1 V2 P2 :
  (forall w, w ∈ us -> vkey u <> vkey w) -> (forall w, w ∈ us -> pkey u <> pkey w) ->
  put_at (vkey u) (encoded (vrec_of (flipped f u))) Vc V1 -> del_at (pkey u) Pc P1 ->
  flip_effect f us V1 P1 V2 P2 -> flip_effect f (u :: us) Vc Pc V2 P2.
Proof.
  intros Hv Hp HV HP [Fv Fv' Fp Fp']. split.
  - intros w [->|Hw]%elem_of_cons; [|by apply Fv]. rewrite Fv' by done. rewrite HV. by rewrite bool_decide_true.
  - intros k Hk. rewrite Fv' by (intros w Hw; apply Hk; set_solver). rewrite HV.
    rewrite bool_decide_false; [done|]. intros <-. by apply (Hk u ltac:(set_solver)).
  - intros w [->|Hw]%elem_of_cons; [|by apply Fp]. rewrite Fp' by done. rewrite HP. by rewrite bool_decide_true.
  - intros k Hk. rewrite Fp' by (intros w Hw; apply Hk; set_solver). rewrite HP.
    rewrite bool_decide_false; [done|]. intros <-. by apply (Hk u ltac:(set_solver)).
Qed.

Lemma list_choice {A B} (P : A -> B -> Prop) (l : list A) :
  (forall a, a ∈ l -> exists b, P a b) -> exists l', Forall2 P l l'.
Proof.
  induction l as [|a l IH]; intros H; [by exists []|].
  destruct (H a ltac:(set_solver)) as [b Hb]. destruct IH as [l' Hl']; [intros; apply H; set_solver|].
  exists (b :: l'). by constructor.
Qed.

(** The scan of a flip finds the index entries of its task, each once. *)
Lemma scan_pending n f Vc Pc Hc vs hs es (pre : bytes) :
  n < 2 ^ 64 -> holds Vc Pc Hc vs hs -> Forall (good_value n) vs ->
  StronglySorted (fun a b => vr_Seq a < vr_Seq b) vs -> sep ∉ text (sf_TaskID f) ->
  StronglySorted bytes_lt (map fst es) ->
  (forall k b, (k, b) ∈ es <->
     exists k', k = pre ++ k' /\ Pc k' = Some b /\ (text (sf_TaskID f) ++ [sep]) `prefix_of` k') ->
  exists us, es = map (fun u => (pre ++ pkey u, ref (vkey u))) us /\ (forall v, v ∈ us <-> v ∈ vs /\ to_flip f v) /\
    NoDup us.
Proof.
  intros Hn [Hv Hp Hh] Hg Hs Hsep Hsort Hes. rewrite Forall_forall in Hg.
  destruct (list_choice (fun e u => u ∈ vs /\ to_flip f u /\ e = (pre ++ pkey u, ref (vkey u))) es) as [us Hus].
  { intros [k b] He. apply Hes in He as (k' & -> & Hk & Hpre). apply Hp in Hk as (v & Hvv & Hpe & -> & ->).
    exists v. split_and!; [done|split; [|done]|done].
    eapply pkey_prefix; [by apply Hg|exact Hsep|done]. }
  assert (Heq : es = map (fun u => (pre ++ pkey u, ref (vkey u))) us).
  { clear - Hus. induction Hus as [|e u es us (_ & _ & ->) _ IH]; simpl; congruence. }
  exists us. split_and!; [done| |].
  - intros v. split.
    + intros Hv'. clear - Hus Hv'. induction Hus as [|e u es us (H1 & H2 & _) _ IH]; [by apply elem_of_nil in Hv'|].
      apply elem_of_cons in Hv' as [->|?]; auto.
    + intros [Hvv Hf]. assert (He : (pre ++ pkey v, ref (vkey v)) ∈ es).
      { apply Hes. exists (pkey v). split_and!; [done| |eapply pkey_prefix; [by apply Hg|done|by apply Hf]].
        apply Hp. exists v. split_and!; try done. by apply Hf. }
      rewrite Heq in He. apply list_elem_of_fmap in He as (u & Hu & Hin). injection Hu as Hk _.
      apply app_inv_head in Hk. assert (Huv : u ∈ vs).
      { clear - Hus Hin. induction Hus as [|e w es us (H1 & _) _ IH]; [by apply elem_of_nil in Hin|].
        apply elem_of_cons in Hin as [->|?]; auto. }
      replace v with u; [done|]. eapply (seq_unique vr_Seq); [done..|].
      eapply vkey_seq; [done|by apply Hg|by apply Hg|]. symmetry. eapply pkey_vkey; [by apply Hg|by apply Hg|done].
  - rewrite Heq, map_map in Hsort. clear - Hsort. simpl in Hsort.
    induction us as [|u us IH]; [constructor|]. simpl in Hsort. inversion_clear Hsort as [|? ? Hs Ha].
    apply NoDup_cons. split; [|by apply IH]. intros Hin. rewrite Forall_fmap, Forall_forall in Ha.
    specialize (Ha u Hin). simpl in Ha. unfold bytes_lt in Ha. by rewrite bytes_ltb_irrefl in Ha.
Qed.

(** ** A run and its in-memory counterpart *)

Definition run_rep (nv nh : Z) (Vc Pc Hc : bytes -> option bytes) (r : inMemoryRun) : Prop :=
  exists vs hs, holds Vc Pc Hc vs hs /\ Forall (good_value nv) vs /\ Forall (good_history nh) hs /\
    StronglySorted (fun a b => vr_Seq a < vr_Seq b) vs /\ StronglySorted (fun a b => hr_Seq a < hr_Seq b) hs /\
    map erase_value vs = map erase_value (run_values r) /\ map erase_history hs = map erase_history (run_history r).

(** The operations the store keeps exactly. *)
Definition pending_rec (w : ValueWrite) : valueRec :=
  mkValueRec (vw_TaskID w) (vw_ExecutionID w) (vw_Field w) (vw_Value w) (ValueStatus_String ValueStatusPending)
    (UnixNano (vw_Timestamp w)).
Definition entry_rec (h : HistoryEntry) : historyRec :=
  mkHistoryRec (he_Kind h) (he_NodeID h) (he_ExecutionID h) (kept_payload (he_Payload h)) (UnixNano (he_Timestamp h)).

Definition storable_write (w : ValueWrite) : Prop :=
  js_exact (pending_rec w) /\ keyed_time (vw_Timestamp w) /\ sep ∉ text (vw_TaskID w).
Definition storable_entry (h : HistoryEntry) : Prop := js_exact (entry_rec h) /\ keyed_time (he_Timestamp h).

Definition storable (op : WriteOp) : Prop :=
  match op_Kind op, op_ValueWrite op, op_StatusFlip op, op_HistoryEntry op with
  | OpValueWrite, Some w, _, _ => storable_write w
  | OpStatusFlip, _, Some f, _ => sep ∉ text (sf_TaskID f)
  | OpHistoryEntry, _, _, Some h => storable_entry h
  | _, _, _, _ => True
  end.

Lemma good_value_mono n n' v : n <= n' -> good_value n v -> good_value n' v.
Proof. intros Hn []. split; (done || lia). Qed.
Lemma good_history_mono n n' h : n <= n' -> good_history n h -> good_history n' h.
Proof. intros Hn []. split; (done || lia). Qed.

Lemma run_rep_mono nv nv' nh nh' Vc Pc Hc r :
  nv <= nv' -> nh <= nh' -> run_rep nv nh Vc Pc Hc r -> run_rep nv' nh' Vc Pc Hc r.
Proof.
  intros Hv Hh (vs & hs & H1 & H2 & H3 & H4). exists vs, hs. split_and!; try apply H4; [done| |].
  - eapply Forall_impl; [exact H2|]. intros v. by apply good_value_mono.
  - eapply Forall_impl; [exact H3|]. intros h. by apply good_history_mono.
Qed.

Lemma run_rep_write nv nh Vc Pc Hc Vc' Pc' r w seq seq' :
  run_rep nv nh Vc Pc Hc r -> storable_write w -> -1 <= nv -> nv < seq -> seq < 2 ^ 64 ->
  let key := event_suffix (UnixNano (vw_Timestamp w)) seq in
  put_at key (encoded (pending_rec w)) Vc Vc' -> put_at (text (vw_TaskID w) ++ sep :: key) (ref key) Pc Pc' ->
  run_rep seq nh Vc' Pc' Hc
    (mkRun (run_meta r) (run_hasMeta r) (run_values r ++ [record_of_write (canon_write w) seq']) (run_history r) seq').
Proof.
  intros (vs & hs & Hh & Hgv & Hgh & Hsv & Hsh & Ev & Eh) (He & Ht & Hsep) H0 Hlt Hmax key HV HP.
  set (v := record_of_write (canon_write w) seq).
  assert (Hv : good_value seq v) by (split; try done; [by left|simpl; lia]).
  assert (Hall : Forall (fun u => vr_Seq u < vr_Seq v) vs).
  { eapply Forall_impl; [exact Hgv|]. intros u []. simpl. lia. }
  assert (Hgv' : Forall (good_value seq) vs).
  { eapply Forall_impl; [exact Hgv|]. intros u. apply good_value_mono. lia. }
  exists (vs ++ [v]), hs. split_and!; try done.
  - by apply (holds_write seq Vc Pc Hc Vc' Pc' vs hs v).
  - apply Forall_app. auto.
  - by apply StronglySorted_snoc.
  - simpl. rewrite !map_app, Ev. done.
Qed.

Lemma run_rep_entry nv nh Vc Pc Hc Hc' r h seq seq' :
  run_rep nv nh Vc Pc Hc r -> storable_entry h -> -1 <= nh -> nh < seq -> seq < 2 ^ 64 ->
  put_at (event_suffix (UnixNano (he_Timestamp h)) seq) (encoded (entry_rec h)) Hc Hc' ->
  run_rep nv seq Vc Pc Hc'
    (mkRun (run_meta r) (run_hasMeta r) (run_values r) (run_history r ++ [record_of_entry (canon_entry h) seq']) seq').
Proof.
  intros (vs & hs & Hh & Hgv & Hgh & Hsv & Hsh & Ev & Eh) (He & Ht) H0 Hlt Hmax HH.
  set (v := record_of_entry (canon_entry h) seq).
  assert (Hv : good_history seq v) by (split; try done; simpl; lia).
  assert (Hall : Forall (fun u => hr_Seq u < hr_Seq v) hs).
  { eapply Forall_impl; [exact Hgh|]. intros u []. simpl. lia. }
  assert (Hgh' : Forall (good_history seq) hs).
  { eapply Forall_impl; [exact Hgh|]. intros u. apply good_history_mono. lia. }
  exists vs, (hs ++ [v]). split_and!; try done.
  - by apply (holds_entry seq Vc Pc Hc Hc' vs hs v).
  - apply Forall_app. auto.
  - by apply StronglySorted_snoc.
  - simpl. rewrite !map_app, Eh. done.
Qed.

Lemma flip_record_erase f v : erase_value (flip_record f v) = flip_record f (erase_value v).
Proof.
  destruct v. unfold flip_record, erase_value. simpl. destruct (String.eqb _ _ && _); done.
Qed.

Lemma StronglySorted_map_rel {A B} (R : A -> A -> Prop) (S' : B -> B -> Prop) (g : A -> B) l :
  (forall a b, R a b -> S' (g a) (g b)) -> StronglySorted R l -> StronglySorted S' (map g l).
Proof.
  intros H. induction 1 as [|x l Hs IH Hall]; simpl; constructor; [done|].
  apply Forall_fmap. eapply Forall_impl; [exact Hall|]. intros y. apply H.
Qed.

Lemma flip_record_seq f v : vr_Seq (flip_record f v) = vr_Seq v.
Proof. destruct (flip_record_cases f v) as [[_ ->]|[_ ->]]; done. Qed.

(** A flip: any loop that has the effect on the records its scan found. *)
Lemma run_rep_flip nv nh Vc Pc Hc r f es pre :
  run_rep nv nh Vc Pc Hc r -> nv < 2 ^ 64 -> sep ∉ text (sf_TaskID f) ->
  sf_NewStatus f = ValueStatusCommitted \/ sf_NewStatus f = ValueStatusAborted ->
  StronglySorted bytes_lt (map fst es) ->
  (forall k b, (k, b) ∈ es <->
     exists k', k = pre ++ k' /\ Pc k' = Some b /\ (text (sf_TaskID f) ++ [sep]) `prefix_of` k') ->
  exists us, es = map (fun u => (pre ++ pkey u, ref (vkey u))) us /\ NoDup us /\
    (forall u w, u ∈ us -> w ∈ us -> vkey u = vkey w -> u = w) /\
    (forall u w, u ∈ us -> w ∈ us -> pkey u = pkey w -> u = w) /\
    (forall u, u ∈ us -> js_exact (vrec_of u) /\ Vc (vkey u) = Some (encoded (vrec_of u)) /\
       Pc (pkey u) = Some (ref (vkey u))) /\
    forall Vc' Pc', flip_effect f us Vc Pc Vc' Pc' ->
      run_rep nv nh Vc' Pc' Hc
        (mkRun (run_meta r) (run_hasMeta r) (map (flip_record f) (run_values r)) (run_history r) (run_seq r)).
Proof.
  intros (vs & hs & Hh & Hgv & Hgh & Hsv & Hsh & Ev & Eh) Hn Hsep Hst Hsort Hes.
  destruct (scan_pending nv f Vc Pc Hc vs hs es pre) as (us & Hus & Hin & Hnd); try done.
  assert (Hgood : forall u, u ∈ us -> good_value nv u /\ u ∈ vs /\ pending u).
  { intros u Hu. apply Hin in Hu as [Hu [_ Hp]]. rewrite Forall_forall in Hgv. split_and!; [by apply Hgv|done|done]. }
  exists us. split_and!; [done|done| | | |].
  - intros u w Hu Hw E. destruct (Hgood u Hu) as (Gu & Iu & _), (Hgood w Hw) as (Gw & Iw & _).
    eapply (seq_unique vr_Seq); [done..|]. by eapply vkey_seq.
  - intros u w Hu Hw E. destruct (Hgood u Hu) as (Gu & Iu & _), (Hgood w Hw) as (Gw & Iw & _).
    eapply (seq_unique vr_Seq); [done..|]. eapply vkey_seq; [done..|]. by eapply pkey_vkey.
  - intros u Hu. destruct (Hgood u Hu) as (Gu & Iu & Pu). split; [apply Gu|]. destruct Hh as [Hv Hp _].
    split; [apply Hv; by exists u|apply Hp; by exists u].
  - intros Vc' Pc' Hfe. exists (map (flip_record f) vs), hs. split_and!; try done.
    + by apply (holds_flip nv f us Vc Pc Hc Vc' Pc' vs hs).
    + apply Forall_fmap. eapply Forall_impl; [exact Hgv|]. intros v. by apply good_flip.
    + eapply StronglySorted_map_rel; [|exact Hsv]. intros a b. simpl. by rewrite !flip_record_seq.
    + simpl. rewrite !map_map. rewrite (map_ext _ (fun v => flip_record f (erase_value v))) by (intros; apply flip_record_erase).
      rewrite (map_ext (fun x => erase_value (flip_record f x)) (fun v => flip_record f (erase_value v)))
        by (intros; apply flip_record_erase).
      rewrite <- !(map_map erase_value (flip_record f)). by rewrite Ev.
Qed.


(** ** Reads *)

Lemma NoDup_keys {A} (sq : A -> Z) (key : A -> bytes) l :
  StronglySorted (fun a b => sq a < sq b) l -> (forall x y, x ∈ l -> y ∈ l -> key x = key y -> sq x = sq y) ->
  NoDup (map key l).
Proof.
  induction 1 as [|x l Hs IH Hall]; intros Hk; simpl; constructor.
  - intros Hin. apply list_elem_of_fmap in Hin as (y & E & Hy). rewrite Forall_forall in Hall. specialize (Hall y Hy).
    specialize (Hk x y ltac:(set_solver) ltac:(set_solver) E). lia.
  - apply IH. intros; apply Hk; set_solver.
Qed.

(** A scan of the value records, then of the history records, in replay order. *)
Lemma scan_values nv nh Vc Pc Hc r es pre :
  run_rep nv nh Vc Pc Hc r -> nv < 2 ^ 64 -> StronglySorted (fun a b => vr_Seq a < vr_Seq b) (run_values r) ->
  StronglySorted bytes_lt (map fst es) ->
  (forall k b, (k, b) ∈ es <-> exists k', k = pre ++ k' /\ Vc k' = Some b) ->
  exists vs, es = map (fun v => (pre ++ vkey v, encoded (vrec_of v))) vs /\ Forall (good_value nv) vs /\
    sorted value_less vs /\ map erase_value vs = map erase_value (SortValueRecords (run_values r)).
Proof.
  intros (vs & hs & [Hv _ _] & Hgv & _ & Hsv & _ & Ev & _) Hn Hr Hsort Hes. rewrite Forall_forall in Hgv.
  exists (SortValueRecords vs). split_and!.
  - apply (scan_is_sorted value_less (fun v => pre ++ vkey v) (fun v => encoded (vrec_of v)) vs es Hsort).
    + intros k b. rewrite Hes. split.
      * intros (k' & -> & Hk). apply Hv in Hk as (v & Hvv & -> & ->). by exists v.
      * intros (v & Hvv & -> & ->). exists (vkey v). split; [done|]. apply Hv. by exists v.
    + intros x y Hx Hy. rewrite bytes_ltb_app. eapply vkey_order; [done|by apply Hgv|by apply Hgv].
    + apply (NoDup_keys vr_Seq); [done|]. intros x y Hx Hy E%app_inv_head.
      eapply vkey_seq; [done|by apply Hgv|by apply Hgv|done].
  - apply Forall_forall. intros v Hvv. apply Hgv. unfold SortValueRecords in Hvv. by rewrite slice_stable_perm in Hvv.
  - apply slice_stable_sorted, _.
  - by apply replay_values_alike.
Qed.

Lemma scan_history nv nh Vc Pc Hc r es pre :
  run_rep nv nh Vc Pc Hc r -> nh < 2 ^ 64 -> StronglySorted (fun a b => hr_Seq a < hr_Seq b) (run_history r) ->
  StronglySorted bytes_lt (map fst es) ->
  (forall k b, (k, b) ∈ es <-> exists k', k = pre ++ k' /\ Hc k' = Some b) ->
  exists hs, es = map (fun h => (pre ++ hkey h, encoded (hrec_of h))) hs /\ Forall (good_history nh) hs /\
    sorted history_less hs /\ map erase_history hs = map erase_history (SortHistoryRecords (run_history r)).
Proof.
  intros (vs & hs & [_ _ Hh] & _ & Hgh & _ & Hsh & _ & Eh) Hn Hr Hsort Hes. rewrite Forall_forall in Hgh.
  exists (SortHistoryRecords hs). split_and!.
  - apply (scan_is_sorted history_less (fun v => pre ++ hkey v) (fun v => encoded (hrec_of v)) hs es Hsort).
    + intros k b. rewrite Hes. split.
      * intros (k' & -> & Hk). apply Hh in Hk as (v & Hvv & -> & ->). by exists v.
      * intros (v & Hvv & -> & ->). exists (hkey v). split; [done|]. apply Hh. by exists v.
    + intros x y Hx Hy. rewrite bytes_ltb_app. eapply hkey_order; [done|by apply Hgh|by apply Hgh].
    + apply (NoDup_keys hr_Seq); [done|]. intros x y Hx Hy E%app_inv_head.
      eapply hkey_seq; [done|by apply Hgh|by apply Hgh|done].
  - apply Forall_forall. intros v Hvv. apply Hgh. unfold SortHistoryRecords in Hvv. by rewrite slice_stable_perm in Hvv.
  - apply slice_stable_sorted, _.
  - by apply replay_history_alike.
Qed.

(** ** Key suffixes read back *)

Lemma event_suffix_split ts seq :
  0 <= ts < 2 ^ 63 -> 0 <= seq < 2 ^ 64 ->
  int64 (be_get (take 8 (event_suffix ts seq))) = ts /\ be_get (drop 8 (event_suffix ts seq)) = seq.
Proof.
  intros Ht Hs. unfold event_suffix. rewrite !uint64_id by lia.
  rewrite take_app_length', drop_app_length' by (by rewrite length_be_put).
  rewrite !be_get_put by (change (256 ^ Z.of_nat 8) with (2 ^ 64); lia). split; [apply int64_id; lia|done].
Qed.

Lemma vkey_split n v : n < 2 ^ 64 -> good_value n v ->
  nanosToTime (int64 (be_get (take 8 (vkey v)))) = vr_Timestamp v /\ be_get (drop 8 (vkey v)) = vr_Seq v.
Proof.
  intros Hn []. unfold vkey. destruct (event_suffix_split (UnixNano (vr_Timestamp v)) (vr_Seq v)) as [-> ->];
    [by apply UnixNano_range|lia|]. by rewrite nanosToTime_UnixNano.
Qed.

Lemma hkey_split n h : n < 2 ^ 64 -> good_history n h ->
  nanosToTime (int64 (be_get (take 8 (hkey h)))) = hr_Timestamp h /\ be_get (drop 8 (hkey h)) = hr_Seq h.
Proof.
  intros Hn []. unfold hkey. destruct (event_suffix_split (UnixNano (hr_Timestamp h)) (hr_Seq h)) as [-> ->];
    [by apply UnixNano_range|lia|]. by rewrite nanosToTime_UnixNano.
Qed.

Lemma good_status n v : good_value n v -> ParseValueStatus (ValueStatus_String (vr_Status v)) = Ok (vr_Status v).
Proof. intros []. by destruct gv_status0 as [->|[->| ->]]. Qed.

Lemma good_committed n v : good_value n v ->
  String.eqb (ValueStatus_String (vr_Status v)) (ValueStatus_String ValueStatusCommitted) =
  bool_decide (vr_Status v = ValueStatusCommitted).
Proof. intros []. by destruct gv_status0 as [->|[->| ->]]. Qed.

End Index.

(** ** Admitted calls *)

Section Admits.
Context {SJ : StoreJson}.
Variable sep : Byte.byte.

(** Metadata and operations the store keeps exactly; refused batches are free. *)
Definition admits (c : Call) : Prop :=
  match c with
  | CallSave m => js_exact m
  | CallWriteBatch ops => validate_all ops = None -> Forall (storable sep) ops
  | CallFlush _ => True
  end.

End Admits.

Lemma validate_canon op : ValidateWriteOp (canon_op op) = ValidateWriteOp op.
Proof.
  destruct op as [id [] w f h]; simpl; try done; unfold ValidateWriteOp; simpl.
  - by destruct w.
  - by destruct h.
Qed.

Lemma valid_canon op : valid (canon_op op) <-> valid op.
Proof. unfold valid. by rewrite validate_canon. Qed.

Lemma validate_all_canon ops : validate_all (map canon_op ops) = validate_all ops.
Proof. induction ops as [|op ops IH]; simpl; [done|]. by rewrite validate_canon, IH. Qed.

(** Arrival numbers of the history of a log. *)
Lemma spec_history_increasing log seq :
  0 <= seq -> seq + Z.of_nat (length log) < 2 ^ 64 ->
  StronglySorted (fun a b => hr_Seq a < hr_Seq b) (spec_history seq log).
Proof.
  revert seq; induction log as [|op log IH]; intros seq H0 Hlt; simpl; [constructor|].
  rewrite length_cons in Hlt. assert (Hu : uint64 (seq + 1) = seq + 1) by (apply uint64_id; lia).
  pose proof (IH (seq + 1) ltac:(lia) ltac:(lia)) as I1. pose proof (IH seq ltac:(lia) ltac:(lia)) as I0.
  destruct (op_Kind op), (op_ValueWrite op), (op_HistoryEntry op); rewrite ?Hu; try done;
    (constructor; [done|]; destruct (spec_seqs_above log (seq + 1)) as (_ & Hh & _); [lia..|];
     eapply Forall_impl; [exact Hh|]; simpl; lia).
Qed.

Lemma log_run_increasing id m log :
  Z.of_nat (length log) < 2 ^ 64 ->
  StronglySorted (fun a b => vr_Seq a < vr_Seq b) (run_values (log_run id m log)) /\
  StronglySorted (fun a b => hr_Seq a < hr_Seq b) (run_history (log_run id m log)).
Proof.
  intros H. simpl. split; [|by apply spec_history_increasing]. by destruct (spec_seqs_above log 0) as (_ & _ & _ & ?).
Qed.

(** The runs the stores without an index of runs know of: those with metadata, a
    value or a history record. *)
Definition known (r : option RunMetadata * list WriteOp) : bool :=
  match fst r with Some _ => true | None => false end ||
  match spec_values 0 (snd r) with [] => false | _ => true end ||
  match spec_history 0 (snd r) with [] => false | _ => true end.

Lemma known_some a id : known (abs_run a id) = true -> exists r, a !! id = Some r /\ abs_run a id = r.
Proof. unfold abs_run. destruct (a !! id) as [r|]; [by exists r|done]. Qed.

(** * A concrete record encoding

    A serializer in the place of [encoding/json], which represents every record
    exactly, and a few operations; the embedded stores are run on them. *)

From Stdlib Require Import Strings.Byte.

#[global] Instance Ser_valueRec : Ser valueRec.
Proof.
  refine (Ser_inj
    (fun r => (vrec_TaskID r, vrec_ExecutionID r, vrec_Field r, vrec_Value r, vrec_Status r, vrec_TS r))
    (fun '(t, e, f, v, s, n) => Some (mkValueRec t e f v s n)) _). by intros [].
Defined.

#[global] Instance Ser_historyRec : Ser historyRec.
Proof.
  refine (Ser_inj
    (fun r => (hrec_Kind r, hrec_NodeID r, hrec_ExecutionID r, hrec_Payload r, hrec_TS r))
    (fun '(k, i, e, p, n) => Some (mkHistoryRec k i e p n)) _). by intros [].
Defined.

(** Metadata without times. *)
Definition meta_code (m : RunMetadata) : string * string * string * string * Z :=
  (rm_RunID m, rm_ProcessID m, rm_ProcessVersion m, rm_Status m, rm_EvaluationCount m).
Definition meta_decode (c : string * string * string * string * Z) : RunMetadata :=
  let '(i, p, v, s, n) := c in mkRunMetadata i p v s None None None n.

Definition ser_json (A : Type) `{!Ser A} : Json A := {|
  js_marshal a := Ok (put a);
  js_unmarshal d := match get d with Some (a, _) => Ok a | None => Err (ErrorText "invalid") end;
  js_exact _ := True
|}.

#[global] Instance sampleJson : StoreJson := {|
  json_value := ser_json valueRec;
  json_history := ser_json historyRec;
  json_meta := {|
    js_marshal m := Ok (put (meta_code m));
    js_unmarshal d := match get d with Some (c, _) => Ok (meta_decode c) | None => Err (ErrorText "invalid") end;
    js_exact m := rm_PublishedAt m = None /\ rm_StartedAt m = None /\ rm_CompletedAt m = None
  |}
|}.

Lemma ser_get_put {A} `{!Ser A} (a : A) : get (put a) = Some (a, []).
Proof. rewrite <- (app_nil_r (put a)) at 1. apply get_put. Qed.

#[global] Instance sampleJson_laws : StoreJsonLaws.
Proof.
  split; [split..|].
  - intros r _. exists (put r). split; [done|].
    unfold js_unmarshal. cbn [sampleJson json_value json_history ser_json]. by rewrite ser_get_put.
  - intros r _. exists (put r). split; [done|].
    unfold js_unmarshal. cbn [sampleJson json_value json_history ser_json]. by rewrite ser_get_put.
  - intros m (H1 & H2 & H3). exists (put (meta_code m)). split; [done|].
    unfold js_unmarshal. cbn [sampleJson json_meta]. rewrite ser_get_put.
    destruct m. simpl in *. by subst.
  - done.
Qed.

(** Operations on one run. *)
Definition day1 : Time := goDate 2024 3 1 9 0 0 0 UTC.
Definition day2 : Time := goDate 2024 3 2 9 0 0 0 UTC.
Definition json_text (s : string) : bytes := String.list_byte_of_string s.

Definition put_op (task field value : string) (t : Time) : WriteOp :=
  mkWriteOp "run" OpValueWrite (Some (mkValueWrite task "e1" field (json_text value) t)) None None.
Definition flip_op (task : string) (st : ValueStatus) (t : Time) : WriteOp :=
  mkWriteOp "run" OpStatusFlip None (Some (mkStatusFlip task st t)) None.
Definition note_op (kind : string) (t : Time) : WriteOp :=
  mkWriteOp "run" OpHistoryEntry None None (Some (mkHistoryEntry kind None "e1" [] t)).

Definition sample_calls : list Call :=
  [CallSave (mkRunMetadata "run" "p" "1" "RUNNING" None None None 0);
   CallWriteBatch [put_op "screen" "Score" "7" day2; put_op "screen" "Score" "5" day1; note_op "NODE_STARTED" day1];
   CallWriteBatch [put_op "" "Score" "9" day2];
   CallWriteBatch [flip_op "screen" ValueStatusCommitted day2; put_op "check" "Ok" "true" day2]].

Lemma keyed_day1 : keyed_time day1.
Proof. vm_compute. intuition congruence. Qed.
Lemma keyed_day2 : keyed_time day2.
Proof. vm_compute. intuition congruence. Qed.
