(* ===== verification/Bbolt.v ===== *)
(** * The bbolt state store

    Models [stores/bbolt/store.go]: one bucket per run, holding the metadata, a
    bucket of value records and a bucket of history records keyed by replay
    order, and a pending index that status flips scan.  The engine is a
    parameter ([OrderedKV]); [db.Update] commits a function's result or, on an
    error, leaves the database as it was.  I/O failures and the engine's size
    limits on keys are not modelled. *)

From Stdlib Require Import Strings.Byte.
From S2P Require Import Prelude GoTime StateStore StateStoreLaws Wire KvStore.
#[global] Open Scope Z_scope.

Section Bbolt.
Context {M : Type} `{!OrderedKV M} `{!StoreJson}.

(** A bucket: its keys and its sequence counter. *)
Record bucket : Type := mkBucket {
  bk_kv : M;
  bk_seq : Z
}.

(** [NextSequence] *)
Definition NextSequence (b : bucket) : Z * bucket :=
  let seq := uint64 (bk_seq b + 1) in (seq, mkBucket (bk_kv b) seq).

(** The bucket of a run: the key [meta] and the buckets [values], [history] and
    [pending], which are created together. *)
Record runBucketT : Type := mkRunBucket {
  rb_meta : option bytes;
  rb_values : bucket;
  rb_history : bucket;
  rb_pending : bucket
}.

(** [Store]: the buckets of the bucket [runs]. *)
Abbreviation DB := (gmap string runBucketT).

(** [New], on a file without runs *)
Definition New : DB := ∅.

(** [eventKey], [splitEventKey] *)
Definition eventKey (tsNanos seq : Z) : bytes := event_suffix tsNanos seq.
Definition splitEventKey (k : bytes) : Z * Z := (int64 (be_get (take 8 k)), be_get (drop 8 k)).

(** [pendingKey] *)
Definition pendingKey (taskID : string) (event : bytes) : bytes :=
  String.list_byte_of_string taskID ++ x00 :: event.

(** [runBucket] with [create] set *)
Definition emptyBucket : bucket := mkBucket kv_empty 0.
Definition runBucket (db : DB) (runID : string) : runBucketT :=
  default (mkRunBucket None emptyBucket emptyBucket emptyBucket) (db !! runID).

(** [Save] *)
Definition Save (db : DB) (meta : RunMetadata) : DB * option GoError :=
  if String.eqb (rm_RunID meta) "" then (db, Some (ErrorText "save: empty RunID"))
  else match wrap_err "save: encode metadata" (js_marshal meta) with
       | Err e => (db, Some e)
       | Ok enc =>
           let rb := runBucket db (rm_RunID meta) in
           (<[rm_RunID meta := mkRunBucket (Some enc) (rb_values rb) (rb_history rb) (rb_pending rb)]> db, None)
       end.

(** [applyValueWrite] *)
Definition applyValueWrite (rb : runBucketT) (w : ValueWrite) : result runBucketT :=
  let '(seq, values) := NextSequence (rb_values rb) in
  let! rec := wrap_err "value write: encode"
    (js_marshal (mkValueRec (vw_TaskID w) (vw_ExecutionID w) (vw_Field w) (vw_Value w)
                   (ValueStatus_String ValueStatusPending) (UnixNano (vw_Timestamp w)))) in
  let key := eventKey (UnixNano (vw_Timestamp w)) seq in
  Ok (mkRunBucket (rb_meta rb) (mkBucket (kv_put (bk_kv values) key rec) (bk_seq values)) (rb_history rb)
        (mkBucket (kv_put (bk_kv (rb_pending rb)) (pendingKey (vw_TaskID w) key) key) (bk_seq (rb_pending rb)))).

(** The second loop of [applyStatusFlip]. *)
Fixpoint flip_pending (f : StatusFlip) (pendingKeys : list bytes) (values pending : M) : result (M * M) :=
  match pendingKeys with
  | [] => Ok (values, pending)
  | pk :: pendingKeys' =>
      let eventK := default [] (kv_get pending pk) in
      match kv_get values eventK with
      | None => Err (ErrorText ("status flip: dangling pending index for task " +:+ sf_TaskID f))
      | Some raw =>
          let! rec := wrap_err "status flip: decode" (js_unmarshal raw) in
          let! enc := js_marshal (set_status (ValueStatus_String (sf_NewStatus f)) rec) in
          flip_pending f pendingKeys' (kv_put values eventK enc) (kv_delete pending pk)
      end
  end.

(** [applyStatusFlip] *)
Definition applyStatusFlip (rb : runBucketT) (f : StatusFlip) : result runBucketT :=
  let prefix := String.list_byte_of_string (sf_TaskID f) ++ [x00] in
  let pendingKeys := map fst (kv_scan (bk_kv (rb_pending rb)) prefix) in
  let! vp := flip_pending f pendingKeys (bk_kv (rb_values rb)) (bk_kv (rb_pending rb)) in
  Ok (mkRunBucket (rb_meta rb) (mkBucket (fst vp) (bk_seq (rb_values rb))) (rb_history rb)
        (mkBucket (snd vp) (bk_seq (rb_pending rb)))).

(** [applyHistoryEntry] *)
Definition applyHistoryEntry (rb : runBucketT) (h : HistoryEntry) : result runBucketT :=
  let '(seq, history) := NextSequence (rb_history rb) in
  let payload := match he_Payload h with [] => json_null | _ => he_Payload h end in
  let! rec := wrap_err "history entry: encode"
    (js_marshal (mkHistoryRec (he_Kind h) (he_NodeID h) (he_ExecutionID h) payload (UnixNano (he_Timestamp h)))) in
  Ok (mkRunBucket (rb_meta rb) (rb_values rb)
        (mkBucket (kv_put (bk_kv history) (eventKey (UnixNano (he_Timestamp h)) seq) rec) (bk_seq history))
        (rb_pending rb)).

(** One iteration of the loop of [WriteBatch]. *)
Definition apply_run (rb : runBucketT) (op : WriteOp) : result runBucketT :=
  match op_Kind op, op_ValueWrite op, op_StatusFlip op, op_HistoryEntry op with
  | OpValueWrite, Some w, _, _ => applyValueWrite rb w
  | OpStatusFlip, _, Some f, _ => applyStatusFlip rb f
  | OpHistoryEntry, _, _, Some h => applyHistoryEntry rb h
  | _, _, _, _ => Ok rb
  end.

Fixpoint apply_ops (db : DB) (ops : list WriteOp) : result DB :=
  match ops with
  | [] => Ok db
  | op :: ops' =>
      let! rb := apply_run (runBucket db (op_RunID op)) op in
      apply_ops (<[op_RunID op := rb]> db) ops'
  end.

(** [WriteBatch] *)
Definition WriteBatch (db : DB) (ops : list WriteOp) : DB * option GoError :=
  match validate_all ops with
  | Some e => (db, Some e)
  | None =>
      match apply_ops db ops with
      | Ok db' => (db', None)
      | Err e => (db, Some e)
      end
  end.

(** [Flush] *)
Definition Flush (db : DB) (runID : string) : DB * option GoError := (db, None).

(** [loadMeta] *)
Definition loadMeta (rb : runBucketT) (runID : string) : result RunMetadata :=
  match rb_meta rb with
  | None => Ok (emptyMeta runID)
  | Some raw => wrap_err "decode metadata" (js_unmarshal raw)
  end.

(** The walk of [CurrentVersion] over the value records. *)
Fixpoint fold_current (es : list (bytes * bytes)) (m : gmap string (gmap string bytes))
  : result (gmap string (gmap string bytes)) :=
  match es with
  | [] => Ok m
  | (_, v) :: es' =>
      let! rec := wrap_err "decode value record" (js_unmarshal v) in
      fold_current es'
        (if negb (String.eqb (vrec_Status rec) (ValueStatus_String ValueStatusCommitted)) then m
         else <[vrec_TaskID rec := <[vrec_Field rec := vrec_Value rec]> (default ∅ (m !! vrec_TaskID rec))]> m)
  end.

(** [CurrentVersion] *)
Definition CurrentVersion (db : DB) (runID : string) : result (option CurrentVersion) :=
  match db !! runID with
  | None => Ok None
  | Some rb =>
      let! meta := loadMeta rb runID in
      let! values := fold_current (kv_scan (bk_kv (rb_values rb)) []) ∅ in
      Ok (Some (mkCurrentVersion meta values))
  end.

(** The records [FullHistory] builds from a key and its value. *)
Definition read_value (e : bytes * bytes) : result ValueRecord :=
  let! rec := wrap_err "decode value record" (js_unmarshal (snd e)) in
  let! status := ParseValueStatus (vrec_Status rec) in
  let '(tsNanos, seq) := splitEventKey (fst e) in
  Ok (mkValueRecord (vrec_TaskID rec) (vrec_ExecutionID rec) (vrec_Field rec) (vrec_Value rec) status
        (nanosToTime tsNanos) seq).

Definition read_history (e : bytes * bytes) : result HistoryRecord :=
  let! rec := wrap_err "decode history record" (js_unmarshal (snd e)) in
  let '(tsNanos, seq) := splitEventKey (fst e) in
  Ok (mkHistoryRecord (hrec_Kind rec) (hrec_NodeID rec) (hrec_ExecutionID rec) (hrec_Payload rec)
        (nanosToTime tsNanos) seq).

(** [FullHistory] *)
Definition FullHistory (db : DB) (runID : string) : result (option FullHistory) :=
  match db !! runID with
  | None => Ok None
  | Some rb =>
      let! meta := loadMeta rb runID in
      let! values := result_map read_value (kv_scan (bk_kv (rb_values rb)) []) in
      let! history := result_map read_history (kv_scan (bk_kv (rb_history rb)) []) in
      Ok (Some (mkFullHistory meta values history))
  end.

End Bbolt.
