(* ===== verification/BboltLaws.v ===== *)
(** * The bbolt store implements the log specification

    Every state of the bbolt store represents the logs of the operations its
    runs received ([run_sim]), so [RepresentsLog] holds of it.  The proof needs
    task ids without the separator byte and instants that fit the keys; the
    last section shows what happens otherwise. *)

From Stdlib Require Import Sorted Strings.Byte.
From S2P Require Import Prelude GoTime StateStore StateStoreLaws Wire KvStore KvIndex Bbolt.
#[global] Open Scope Z_scope.

Section Laws.
Context {M : Type} {KV : OrderedKV M} {KVL : OrderedKVLaws M} {SJ : StoreJson} {SJL : StoreJsonLaws}.

Abbreviation DB := (gmap string (@runBucketT M)).
Abbreviation rep := (run_rep x00 (fun k => k)).

(** The contents of a run bucket represent a log of at most [n] operations. *)
Record run_sim (n : nat) (id : string) (rb : @runBucketT M) (m : option RunMetadata) (log : list WriteOp) : Prop := {
  rs_rep : rep (bk_seq (rb_values rb)) (bk_seq (rb_history rb))
    (kv_get (bk_kv (rb_values rb))) (kv_get (bk_kv (rb_pending rb))) (kv_get (bk_kv (rb_history rb))) (log_run id m log);
  rs_values : 0 <= bk_seq (rb_values rb) <= Z.of_nat (length log);
  rs_history : 0 <= bk_seq (rb_history rb) <= Z.of_nat (length log);
  rs_meta : match m, rb_meta rb with
            | None, None => True
            | Some meta, Some raw => js_unmarshal raw = Ok meta
            | _, _ => False
            end;
  rs_valid : Forall valid log;
  rs_length : (length log <= n)%nat
}.

Definition db_sim (n : nat) (db : DB) (a : AbsStore) : Prop :=
  forall id,
    match db !! id, a !! id with
    | None, None => True
    | Some rb, Some (m, log) => run_sim n id rb m log
    | _, _ => False
    end.

Lemma kv_put_at (m : M) k v : put_at k v (kv_get m) (kv_get (kv_put m k v)).
Proof. intros k'. apply kv_get_put. Qed.
Lemma kv_delete_at (m : M) k : del_at k (kv_get m) (kv_get (kv_delete m k)).
Proof. intros k'. apply kv_get_delete. Qed.

Lemma run_sim_fresh n id : run_sim n id (mkRunBucket None emptyBucket emptyBucket emptyBucket) None [].
Proof.
  split; simpl; try done; try lia. exists [], []. split_and!; try done; try constructor.
  all: intros k b; rewrite kv_get_empty; split; [done|].
  - by intros (v & []%elem_of_nil & _).
  - by intros (v & []%elem_of_nil & _).
  - by intros (v & []%elem_of_nil & _).
Qed.

Lemma db_sim_get n db a id : db_sim n db a ->
  run_sim n id (runBucket db id) (fst (abs_run a id)) (snd (abs_run a id)).
Proof.
  intros H. specialize (H id). unfold runBucket, abs_run.
  destruct (db !! id), (a !! id) as [[m log]|]; simpl; try done. apply run_sim_fresh.
Qed.

Lemma run_sim_mono n n' id rb m log : (n <= n')%nat -> run_sim n id rb m log -> run_sim n' id rb m log.
Proof. intros Hn []. split; (done || lia). Qed.

Lemma db_sim_mono n n' db a : (n <= n')%nat -> db_sim n db a -> db_sim n' db a.
Proof.
  intros Hn H id. specialize (H id). destruct (db !! id), (a !! id) as [[m log]|]; try done. by eapply run_sim_mono.
Qed.

Lemma db_sim_insert n db a id rb m log :
  db_sim n db a -> run_sim n id rb m log -> db_sim n (<[id := rb]> db) (<[id := (m, log)]> a).
Proof.
  intros H Hr id'. destruct (decide (id = id')) as [->|Hne]; [by rewrite !lookup_insert_eq|].
  rewrite !lookup_insert_ne by done. apply H.
Qed.

(** ** One operation *)

(** The loop of a flip succeeds and has the effect on the records it reads. *)
Lemma flip_pending_effect f us V P :
  NoDup us -> (forall u w, u ∈ us -> w ∈ us -> vkey u = vkey w -> u = w) ->
  (forall u w, u ∈ us -> w ∈ us -> pkey x00 u = pkey x00 w -> u = w) ->
  (forall u, u ∈ us -> js_exact (vrec_of u) /\ kv_get V (vkey u) = Some (encoded (vrec_of u)) /\
     kv_get P (pkey x00 u) = Some (vkey u)) ->
  exists V' P', flip_pending f (map (pkey x00) us) V P = Ok (V', P') /\
    flip_effect x00 f us (kv_get V) (kv_get P) (kv_get V') (kv_get P').
Proof.
  revert V P. induction us as [|u us IH]; intros V P Hnd Hv Hp Hus; simpl.
  { exists V, P. split; [done|apply flip_effect_nil]. }
  apply NoDup_cons in Hnd as [Hu Hnd].
  assert (Hvu : forall w, w ∈ us -> vkey u <> vkey w) by (intros w Hw E; apply Hv in E as ->; [done|by left|by right]).
  assert (Hpu : forall w, w ∈ us -> pkey x00 u <> pkey x00 w) by (intros w Hw E; apply Hp in E as ->; [done|by left|by right]).
  destruct (Hus u ltac:(by left)) as (He & HV & HP). rewrite HP. simpl. rewrite HV, unmarshal_encoded by done. simpl.
  assert (Hex : js_exact (vrec_of (flipped f u))) by (exact (json_status_exact _ _ He)).
  change (set_status (ValueStatus_String (sf_NewStatus f)) (vrec_of u)) with (vrec_of (flipped f u)).
  rewrite marshal_encoded by done. simpl.
  destruct (IH (kv_put V (vkey u) (encoded (vrec_of (flipped f u)))) (kv_delete P (pkey x00 u))) as (V' & P' & Hr & Hfe).
  - done.
  - intros; apply Hv; [by right..|done].
  - intros; apply Hp; [by right..|done].
  - intros w Hw. destruct (Hus w ltac:(by right)) as (Hew & HVw & HPw).
    rewrite kv_get_put, kv_get_delete, !bool_decide_false by auto. done.
  - exists V', P'. split; [done|]. exact (flip_effect_cons x00 (fun k => k) f u us _ _ _ _ _ _ Hvu Hpu (kv_put_at _ _ _) (kv_delete_at _ _) Hfe).
Qed.

Lemma scan_all_entries (m : M) p k b :
  (k, b) ∈ kv_scan m p <-> exists k', k = [] ++ k' /\ kv_get m k' = Some b /\ p `prefix_of` k'.
Proof. rewrite kv_scan_get. simpl. naive_solver. Qed.

Lemma bucket_next (b : @bucket M) n :
  0 <= bk_seq b <= n -> n + 1 < 2 ^ 64 -> NextSequence b = (bk_seq b + 1, mkBucket (bk_kv b) (bk_seq b + 1)).
Proof. intros H Hn. unfold NextSequence. by rewrite uint64_id by lia. Qed.

(** Every operation of a valid batch keeps the representation. *)
Lemma apply_run_sim n id rb m log op :
  run_sim n id rb m log -> valid op -> storable x00 op -> Z.of_nat (S n) < 2 ^ 64 ->
  exists rb', apply_run rb op = Ok rb' /\ run_sim (S n) id rb' m (log ++ [canon_op op]).
Proof.
  intros [Hrep Hv Hh Hm Hval Hl] Hop Hst Hn.
  assert (Hlen : Z.of_nat (length (log ++ [canon_op op])) = Z.of_nat (length log) + 1) by (rewrite length_app; simpl; lia).
  assert (Hall : Forall valid (log ++ [canon_op op])) by (apply Forall_app; split; [done|by rewrite Forall_singleton, valid_canon]).
  assert (Hsame : forall rb', rep (bk_seq (rb_values rb')) (bk_seq (rb_history rb'))
      (kv_get (bk_kv (rb_values rb'))) (kv_get (bk_kv (rb_pending rb'))) (kv_get (bk_kv (rb_history rb')))
      (apply_op_run (log_run id m log) (canon_op op)) -> rb_meta rb' = rb_meta rb ->
      0 <= bk_seq (rb_values rb') <= Z.of_nat (length log) + 1 -> 0 <= bk_seq (rb_history rb') <= Z.of_nat (length log) + 1 ->
      run_sim (S n) id rb' m (log ++ [canon_op op])).
  { intros rb' Hr Hme H1 H2. split; rewrite ?Hlen; try done; [|by rewrite Hme|rewrite length_app; simpl; lia].
    rewrite log_run_snoc; [done|done|by apply valid_canon]. }
  unfold valid, ValidateWriteOp in Hop. unfold storable in Hst. unfold apply_run, apply_op_run in *.
  destruct op as [rid kind w f h]; simpl in *. destruct (String.eqb rid ""); [done|]. destruct kind; try done.
  - destruct w as [w|]; [|done]. unfold applyValueWrite. rewrite (bucket_next _ (Z.of_nat (length log))) by (done || lia).
    fold (pending_rec w). rewrite marshal_encoded by apply Hst. simpl. eexists. split; [done|]. apply Hsame; simpl; [|done|lia|lia].
    eapply (run_rep_write x00 (fun k => k) _ _ _ _ _ _ _ (log_run id m log) w);
      [exact Hrep|done|lia|lia|lia|apply kv_put_at|apply kv_put_at].
  - destruct f as [f|]; [|done]. unfold applyStatusFlip.
    destruct (run_rep_flip x00 (fun k => k) _ _ _ _ _ _ f
      (kv_scan (bk_kv (rb_pending rb)) (String.list_byte_of_string (sf_TaskID f) ++ [x00])) [] Hrep)
      as (us & Hes & Hnd & Hkv & Hkp & Hus & Hfe); [lia|done| |apply kv_scan_sorted|intros; apply scan_all_entries|].
    { destruct (decide (sf_NewStatus f = ValueStatusCommitted)); [by left|].
      destruct (decide (sf_NewStatus f = ValueStatusAborted)); [by right|].
      rewrite !bool_decide_false in Hop by done. by destruct (String.eqb (sf_TaskID f) ""). }
    destruct (flip_pending_effect f us _ _ Hnd Hkv Hkp Hus) as (V' & P' & Hloop & Hef).
    assert (Hkeys : map fst (map (fun u => ([] ++ pkey x00 u, vkey u)) us) = map (pkey x00) us) by (by rewrite map_map).
    rewrite Hes, Hkeys, Hloop. simpl.
    eexists. split; [done|]. apply Hsame; simpl; [|done|lia|lia]. by apply Hfe.
  - destruct h as [h|]; [|done]. unfold applyHistoryEntry. rewrite (bucket_next _ (Z.of_nat (length log))) by (done || lia).
    cbv zeta. fold (kept_payload (he_Payload h)). fold (entry_rec h). rewrite marshal_encoded by apply Hst. simpl.
    eexists. split; [done|]. apply Hsame; simpl; [|done|lia|lia].
    eapply (run_rep_entry x00 (fun k => k) _ _ _ _ _ _ (log_run id m log) h); [exact Hrep|done|lia|lia|lia|apply kv_put_at].
Qed.

Lemma apply_ops_sim n db a ops :
  db_sim n db a -> Forall valid ops -> Forall (storable x00) ops -> Z.of_nat (n + length ops) < 2 ^ 64 ->
  exists db', apply_ops db ops = Ok db' /\
    db_sim (n + length ops) db' (fold_left spec_append (map canon_op ops) a).
Proof.
  revert n db a. induction ops as [|op ops IH]; intros n db a H Hv Hs Hn; simpl.
  { exists db. split; [done|]. by rewrite Nat.add_0_r. }
  apply Forall_cons in Hv as [Hv Hvs]. apply Forall_cons in Hs as [Hs Hss]. simpl in Hn.
  destruct (apply_run_sim n (op_RunID op) (runBucket db (op_RunID op)) (fst (abs_run a (op_RunID op)))
    (snd (abs_run a (op_RunID op))) op) as (rb & -> & Hrb); [by apply db_sim_get|done|done|lia|]. simpl.
  destruct (IH (S n) (<[op_RunID op := rb]> db) (spec_append a (canon_op op))) as (db' & -> & Hdb); [|done|done|lia|].
  { unfold spec_append. simpl. destruct (abs_run a (op_RunID op)) as [m log]. simpl in *.
    apply db_sim_insert; [|done]. eapply db_sim_mono; [|exact H]. lia. }
  exists db'. split; [done|]. by replace (n + S (length ops))%nat with (S n + length ops)%nat by lia.
Qed.


(** ** Reads *)

Lemma fold_current_records nv vs m :
  nv < 2 ^ 64 -> Forall (good_value x00 nv) vs ->
  fold_current (map (fun v => ([] ++ vkey v, encoded (vrec_of v))) vs) m = Ok (fold_left fold_value vs m).
Proof.
  intros Hn Hg. revert m. induction Hg as [|v vs Hv _ IH]; intros m; cbn [map fold_current fold_left app]; [done|].
  rewrite unmarshal_encoded by apply Hv. cbn [wrap_err result_bind vrec_of vrec_Status vrec_TaskID vrec_Field vrec_Value].
  by rewrite (good_committed _ _ _ Hv), IH.
Qed.

Lemma read_values nv vs :
  nv < 2 ^ 64 -> Forall (good_value x00 nv) vs ->
  result_map read_value (map (fun v => ([] ++ vkey v, encoded (vrec_of v))) vs) = Ok vs.
Proof.
  intros Hn Hg. induction Hg as [|v vs Hv _ IH]; cbn [map result_map]; [done|]. rewrite IH.
  unfold read_value. cbn [fst snd app]. rewrite unmarshal_encoded by apply Hv.
  cbn [wrap_err result_bind vrec_of vrec_Status]. rewrite (good_status _ _ _ Hv). cbn [result_bind].
  unfold splitEventKey. destruct (vkey_split x00 nv v Hn Hv) as [-> ->]. by destruct v.
Qed.

Lemma read_histories nh hs :
  nh < 2 ^ 64 -> Forall (good_history nh) hs ->
  result_map read_history (map (fun h => ([] ++ hkey h, encoded (hrec_of h))) hs) = Ok hs.
Proof.
  intros Hn Hg. induction Hg as [|v vs Hv _ IH]; cbn [map result_map]; [done|]. rewrite IH.
  unfold read_history. cbn [fst snd app]. rewrite unmarshal_encoded by apply Hv. cbn [wrap_err result_bind].
  unfold splitEventKey. destruct (hkey_split nh v Hn Hv) as [-> ->]. by destruct v.
Qed.

Lemma scan_all (m : M) k b : (k, b) ∈ kv_scan m [] <-> exists k', k = [] ++ k' /\ kv_get m k' = Some b.
Proof. rewrite kv_scan_get. split; [intros [? _]; by exists k|]. intros (k' & -> & ?). split; [done|apply prefix_nil]. Qed.

Lemma loadMeta_sim n id rb m log : run_sim n id rb m log -> loadMeta rb id = Ok (default (emptyMeta id) m).
Proof.
  intros [_ _ _ Hm _ _]. unfold loadMeta. destruct m as [m|], (rb_meta rb) as [raw|]; try done. by rewrite Hm.
Qed.

Lemma read_current n id rb m log :
  Z.of_nat n < 2 ^ 64 -> run_sim n id rb m log ->
  fold_current (kv_scan (bk_kv (rb_values rb)) []) ∅ =
    Ok (fold_left fold_value (SortValueRecords (spec_values 0 log)) ∅).
Proof.
  intros Hn [Hrep Hv Hh Hm Hval Hl]. destruct (log_run_increasing id m log) as [Hi _]; [lia|].
  destruct (scan_values x00 (fun k => k) _ _ _ _ _ _ (kv_scan (bk_kv (rb_values rb)) []) [] Hrep) as (vs & -> & Hg & _ & E);
    [lia|done|apply kv_scan_sorted|intros; apply scan_all|].
  rewrite (fold_current_records (bk_seq (rb_values rb))) by (done || lia).
  rewrite <- (fold_value_erase vs), E, fold_value_erase. done.
Qed.

Lemma read_full n id rb m log :
  Z.of_nat n < 2 ^ 64 -> run_sim n id rb m log ->
  exists vs hs, result_map read_value (kv_scan (bk_kv (rb_values rb)) []) = Ok vs /\
    result_map read_history (kv_scan (bk_kv (rb_history rb)) []) = Ok hs /\
    map erase_value vs = map erase_value (SortValueRecords (spec_values 0 log)) /\
    map erase_history hs = map erase_history (SortHistoryRecords (spec_history 0 log)).
Proof.
  intros Hn [Hrep Hv Hh Hm Hval Hl]. destruct (log_run_increasing id m log) as [Hi Hi']; [lia|].
  destruct (scan_values x00 (fun k => k) _ _ _ _ _ _ (kv_scan (bk_kv (rb_values rb)) []) [] Hrep) as (vs & -> & Hg & _ & E);
    [lia|done|apply kv_scan_sorted|intros; apply scan_all|].
  destruct (scan_history x00 (fun k => k) _ _ _ _ _ _ (kv_scan (bk_kv (rb_history rb)) []) [] Hrep) as (hs & -> & Hg' & _ & E');
    [lia|done|apply kv_scan_sorted|intros; apply scan_all|].
  exists vs, hs. split_and!; [eapply read_values; [|exact Hg]; lia|eapply read_histories; [|exact Hg']; lia|done|done].
Qed.

(** ** The interface *)

#[global] Instance bboltBackend : LogBackend DB := {
  lb_new := New;
  lb_save := Bbolt.Save;
  lb_write := Bbolt.WriteBatch;
  lb_flush := Bbolt.Flush;
  lb_current := Bbolt.CurrentVersion;
  lb_full := Bbolt.FullHistory
}.

Lemma save_sim n db a m :
  db_sim n db a -> js_exact m ->
  db_sim n (fst (Bbolt.Save db m)) (fst (spec_save a m)) /\ snd (Bbolt.Save db m) = snd (spec_save a m).
Proof.
  intros H Hm. unfold Bbolt.Save, spec_save. destruct (String.eqb (rm_RunID m) ""); [done|].
  rewrite marshal_encoded by done. simpl. split; [|done]. apply db_sim_insert; [done|].
  destruct (db_sim_get n db a (rm_RunID m) H) as [Hrep Hv Hh _ Hval Hl]. split; simpl; try done.
  by apply unmarshal_encoded.
Qed.

Lemma write_sim n db a ops :
  db_sim n db a -> admits x00 (CallWriteBatch ops) -> Z.of_nat (n + length ops) < 2 ^ 64 ->
  db_sim (n + length ops) (fst (Bbolt.WriteBatch db ops)) (fst (spec_write a (map canon_op ops))) /\
  snd (Bbolt.WriteBatch db ops) = snd (spec_write a (map canon_op ops)).
Proof.
  intros H Ha Hn. unfold Bbolt.WriteBatch, spec_write. rewrite validate_all_canon. simpl in Ha.
  destruct (validate_all ops) eqn:E; [split; [|done]; eapply db_sim_mono; [|exact H]; lia|].
  destruct (apply_ops_sim n db a ops H) as (db' & -> & Hdb); [by apply validate_all_valid|by apply Ha|done|]. done.
Qed.

Lemma known_all n db a id :
  Z.of_nat n < 2 ^ 64 -> db_sim n db a -> Bbolt.CurrentVersion db id = Ok (spec_current a id).
Proof.
  intros Hn H. specialize (H id). unfold Bbolt.CurrentVersion, spec_current.
  destruct (db !! id) as [rb|], (a !! id) as [[m log]|]; try done.
  rewrite (loadMeta_sim _ _ _ _ _ H). simpl. by rewrite (read_current _ _ _ _ _ Hn H).
Qed.

Lemma full_all n db a id :
  Z.of_nat n < 2 ^ 64 -> db_sim n db a ->
  exists fh, Bbolt.FullHistory db id = Ok fh /\ option_map erase_full fh = option_map erase_full (spec_full a id).
Proof.
  intros Hn H. specialize (H id). unfold Bbolt.FullHistory, spec_full.
  destruct (db !! id) as [rb|], (a !! id) as [[m log]|]; try done; [|by exists None].
  rewrite (loadMeta_sim _ _ _ _ _ H). simpl. destruct (read_full _ _ _ _ _ Hn H) as (vs & hs & -> & -> & Ev & Eh).
  simpl. eexists. split; [done|]. unfold erase_full. simpl. by rewrite Ev, Eh.
Qed.

#[global, program] Instance bboltRepresents : RepresentsLog DB := {
  lb_admits := admits x00;
  lb_id _ := True;
  lb_known _ := true;
  lb_refines n db a := Z.of_nat n < 2 ^ 64 /\ db_sim n db a
}.
Next Obligation. split; [done|]. intros id. unfold New. by rewrite !lookup_empty. Qed.
Next Obligation.
  intros n db a c [Hn H] Hc Hb. destruct c as [m|ops|id]; simpl in *.
  - rewrite Nat.add_0_r. destruct (save_sim n db a m H Hc). by split.
  - destruct (write_sim n db a ops H Hc Hb). by split.
  - rewrite Nat.add_0_r. by split.
Qed.
Next Obligation. intros n db a id [Hn H] _. by eapply known_all. Qed.
Next Obligation. intros n db a id [Hn H] _. by eapply full_all. Qed.

(** C5. The bbolt store refines the log specification: after every history of calls
    whose records it can hold it has returned the same errors, and serves the
    same current version and, up to the arrival numbers, the same full history
    as the abstract logs. *)
Theorem bbolt_store_refines_log (cs : list Call) (id : string) :
  Forall (admits x00) cs -> Z.of_nat (calls_ops cs) < 2 ^ 64 ->
  let s := run_calls lb_call New cs in
  let a := run_calls spec_call ∅ (map canon_call cs) in
  snd s = snd a /\
  Bbolt.CurrentVersion (fst s) id = Ok (spec_current (fst a) id) /\
  exists fh, Bbolt.FullHistory (fst s) id = Ok fh /\
    option_map erase_full fh = option_map erase_full (spec_full (fst a) id).
Proof. intros Hc. exact (log_observations cs id Hc I). Qed.

End Laws.

(** ** Concrete histories *)

Abbreviation sampleDB := (gmap string (@runBucketT MapKV)).

Definition not_in (b : Byte.byte) (s : string) : bool := forallb (fun x => negb (Byte.eqb x b)) (text s).

Lemma not_in_spec b s : not_in b s = true -> b ∉ text s.
Proof.
  unfold not_in. rewrite forallb_forall. intros H Hin. apply list_elem_of_In, H in Hin.
  by rewrite (Byte.byte_dec_lb (eq_refl b)) in Hin.
Qed.

Lemma sample_admitted b :
  not_in b "screen" = true -> not_in b "check" = true -> Forall (admits b) sample_calls.
Proof.
  intros H1 H2. apply not_in_spec in H1, H2. repeat constructor; try done; try apply keyed_day1; try apply keyed_day2.
Qed.

Lemma bbolt_store_refines_log_witness :
  exists cv, Bbolt.CurrentVersion (fst (run_calls lb_call (New : sampleDB) sample_calls)) "run" = Ok (Some cv) /\
    cell (cv_Values cv) "screen" "Score" = Some (json_text "7") /\ cell (cv_Values cv) "check" "Ok" = None.
Proof.
  destruct (bbolt_store_refines_log (M := MapKV) sample_calls "run") as (_ & H & _);
    [by apply sample_admitted|simpl; lia|].
  eexists. split; [rewrite H; vm_compute; reflexivity|]. split; reflexivity.
Defined.

(** ** Outside the admitted calls *)

(** A task id may hold the separator: the flip of task [a] then settles the
    writes of a task whose id continues after it. *)
Definition nul_task : string := "a" +:+ String Ascii.zero "b".

Theorem bbolt_flip_crosses_tasks :
  let cs := [CallWriteBatch [put_op nul_task "F" "1" day1; flip_op "a" ValueStatusCommitted day2]] in
  option_map (fun cv => cell (cv_Values cv) nul_task "F")
    (spec_current (fst (run_calls spec_call ∅ (map canon_call cs))) "run") = Some None /\
  match Bbolt.CurrentVersion (fst (run_calls lb_call (New : sampleDB) cs)) "run" with
  | Ok (Some cv) => cell (cv_Values cv) nul_task "F" = Some (json_text "1")
  | _ => False
  end.
Proof. split; vm_compute; reflexivity. Qed.

(** An instant before 1970 has negative nanoseconds, whose key sorts after every
    later one: the older of two committed writes is served. *)
Definition old_day : Time := goDate 1969 7 20 20 17 0 0 UTC.

Theorem bbolt_old_instants_replay_last :
  let cs := [CallWriteBatch [put_op "t" "F" "1" old_day; put_op "t" "F" "2" day1; flip_op "t" ValueStatusCommitted day2]] in
  option_map (fun cv => cell (cv_Values cv) "t" "F")
    (spec_current (fst (run_calls spec_call ∅ (map canon_call cs))) "run") = Some (Some (json_text "2")) /\
  match Bbolt.CurrentVersion (fst (run_calls lb_call (New : sampleDB) cs)) "run" with
  | Ok (Some cv) => cell (cv_Values cv) "t" "F" = Some (json_text "1")
  | _ => False
  end.
Proof. split; vm_compute; reflexivity. Qed.
