(* ===== verification/PrefixStore.v ===== *)
(** * State stores with one key space

    The code [stores/badger/store.go] and [stores/pebble/store.go] share: all
    runs live in one ordered key space under the keys [m|run], [v|run|suffix],
    [h|run|suffix] and [p|run|task|suffix], the last one an index of the pending
    writes that holds the key of the value record.  The stores differ in how
    they iterate over the keys with a prefix ([PrefixIter]), in where arrival
    numbers come from ([Counter]) and in how a batch is committed. *)

From Stdlib Require Import Strings.Byte.
From S2P Require Import Prelude GoTime StateStore StateStoreLaws Wire KvStore KvIndex.
#[global] Open Scope Z_scope.

(** An iterator over the keys with a prefix. *)
Class PrefixIter (M : Type) : Type := prefix_iter : M -> bytes -> list (bytes * bytes).

Class PrefixIterLaws (M : Type) `{!OrderedKV M} `{!PrefixIter M} : Prop := {
  prefix_iter_get m p k v : (k, v) ∈ prefix_iter m p <-> kv_get m k = Some v /\ p `prefix_of` k;
  prefix_iter_sorted m p : Sorted.StronglySorted bytes_lt (map fst (prefix_iter m p))
}.

(** A source of arrival numbers, which hands out consecutive ones: [c_pos] is
    the next. *)
Class Counter (Q : Type) : Type := {
  c_next : Q -> result (Z * Q);
  c_pos : Q -> Z
}.

Class CounterLaws (Q : Type) `{!Counter Q} : Prop := {
  c_pos_nonneg q : 0 <= c_pos q;
  c_next_pos q : c_pos q < 2 ^ 64 -> exists q', c_next q = Ok (c_pos q, q') /\ c_pos q' = c_pos q + 1
}.

(** ** Keys *)

Definition bar : Byte.byte := x7c.
Definition kind_m : Byte.byte := x6d.
Definition kind_v : Byte.byte := x76.
Definition kind_h : Byte.byte := x68.
Definition kind_p : Byte.byte := x70.

Definition metaKey (runID : string) : bytes := kind_m :: bar :: text runID.

(** The keys of a run of one kind start with this. *)
Definition runPrefix (kind : Byte.byte) (runID : string) : bytes := kind :: bar :: text runID ++ [bar].

Definition eventKey (kind : Byte.byte) (runID : string) (tsNanos seq : Z) : bytes :=
  runPrefix kind runID ++ event_suffix tsNanos seq.

(** The last sixteen bytes of a key. *)
Definition key_suffix (k : bytes) : bytes := drop (length k - 16) k.

Definition pendingKey (runID taskID : string) (eventK : bytes) : bytes :=
  runPrefix kind_p runID ++ text taskID ++ bar :: key_suffix eventK.

Definition splitEventKey (k : bytes) : Z * Z :=
  let suffix := key_suffix k in (int64 (be_get (take 8 suffix)), be_get (drop 8 suffix)).

Section Ops.
Context {M : Type} {KV : OrderedKV M} {IT : PrefixIter M} {Q : Type} {CT : Counter Q} {SJ : StoreJson}.

(** ** Writes *)

(** The operations of a batch work on the contents and on the counter, which
    keeps its numbers when the batch fails. *)
Definition applyValueWrite (q : Q) (D : M) (runID : string) (w : ValueWrite) : Q * result M :=
  match c_next q with
  | Err e => (q, Err e)
  | Ok (seq, q') =>
      (q', let! rec := wrap_err "value write: encode"
             (js_marshal (mkValueRec (vw_TaskID w) (vw_ExecutionID w) (vw_Field w) (vw_Value w)
                            (ValueStatus_String ValueStatusPending) (UnixNano (vw_Timestamp w)))) in
           let key := eventKey kind_v runID (UnixNano (vw_Timestamp w)) seq in
           Ok (kv_put (kv_put D key rec) (pendingKey runID (vw_TaskID w) key) key))
  end.

(** The second loop of [applyStatusFlip]: the index entries the iterator found,
    with the value keys they hold. *)
Fixpoint flip_entries (f : StatusFlip) (es : list (bytes * bytes)) (D : M) : result M :=
  match es with
  | [] => Ok D
  | (pendingK, eventK) :: es' =>
      match kv_get D eventK with
      | None => Err (ErrorText ("status flip: dangling pending index for task " +:+ sf_TaskID f))
      | Some raw =>
          let! rec := wrap_err "status flip: decode" (js_unmarshal raw) in
          let! enc := js_marshal (set_status (ValueStatus_String (sf_NewStatus f)) rec) in
          flip_entries f es' (kv_delete (kv_put D eventK enc) pendingK)
      end
  end.

Definition applyStatusFlip (D : M) (runID : string) (f : StatusFlip) : result M :=
  flip_entries f (prefix_iter D (runPrefix kind_p runID ++ text (sf_TaskID f) ++ [bar])) D.

Definition applyHistoryEntry (q : Q) (D : M) (runID : string) (h : HistoryEntry) : Q * result M :=
  match c_next q with
  | Err e => (q, Err e)
  | Ok (seq, q') =>
      let payload := match he_Payload h with [] => json_null | _ => he_Payload h end in
      (q', let! rec := wrap_err "history entry: encode"
             (js_marshal (mkHistoryRec (he_Kind h) (he_NodeID h) (he_ExecutionID h) payload
                            (UnixNano (he_Timestamp h)))) in
           Ok (kv_put D (eventKey kind_h runID (UnixNano (he_Timestamp h)) seq) rec))
  end.

(** The loop of [WriteBatch]. *)
Definition apply_op (q : Q) (D : M) (op : WriteOp) : Q * result M :=
  match op_Kind op, op_ValueWrite op, op_StatusFlip op, op_HistoryEntry op with
  | OpValueWrite, Some w, _, _ => applyValueWrite q D (op_RunID op) w
  | OpStatusFlip, _, Some f, _ => (q, applyStatusFlip D (op_RunID op) f)
  | OpHistoryEntry, _, _, Some h => applyHistoryEntry q D (op_RunID op) h
  | _, _, _, _ => (q, Ok D)
  end.

Fixpoint apply_ops (q : Q) (D : M) (ops : list WriteOp) : Q * result M :=
  match ops with
  | [] => (q, Ok D)
  | op :: ops' =>
      match apply_op q D op with
      | (q', Ok D') => apply_ops q' D' ops'
      | (q', Err e) => (q', Err e)
      end
  end.

(** ** Reads *)

(** [runMeta]: a run is known by its metadata or by a value or history record. *)
Definition runMeta (D : M) (runID : string) : result (RunMetadata * bool) :=
  match kv_get D (metaKey runID) with
  | Some raw => let! meta := wrap_err "decode metadata" (js_unmarshal raw) in Ok (meta, true)
  | None =>
      Ok (emptyMeta runID,
          existsb (fun kind => match prefix_iter D (runPrefix kind runID) with [] => false | _ => true end)
            [kind_v; kind_h])
  end.

(** The walk of [CurrentVersion] over the value records. *)
Fixpoint fold_current (es : list (bytes * bytes)) (m : gmap string (gmap string bytes))
  : result (gmap string (gmap string bytes)) :=
  match es with
  | [] => Ok m
  | (_, v) :: es' =>
      let! rec := wrap_err "decode value record" (js_unmarshal v) in
      fold_current es'
        (if negb (String.eqb (vrec_Status rec) (ValueStatus_String ValueStatusCommitted)) then m
         else <[vrec_TaskID rec := <[vrec_Field rec := vrec_Value rec]> (default ∅ (m !! vrec_TaskID rec))]> m)
  end.

(** [CurrentVersion] *)
Definition read_current (D : M) (runID : string) : result (option CurrentVersion) :=
  let! me := runMeta D runID in
  if snd me then
    let! values := fold_current (prefix_iter D (runPrefix kind_v runID)) ∅ in
    Ok (Some (mkCurrentVersion (fst me) values))
  else Ok None.

(** The records [FullHistory] builds from a key and its value. *)
Definition read_value (e : bytes * bytes) : result ValueRecord :=
  let! rec := wrap_err "decode value record" (js_unmarshal (snd e)) in
  let! status := ParseValueStatus (vrec_Status rec) in
  let '(tsNanos, seq) := splitEventKey (fst e) in
  Ok (mkValueRecord (vrec_TaskID rec) (vrec_ExecutionID rec) (vrec_Field rec) (vrec_Value rec) status
        (nanosToTime tsNanos) seq).

Definition read_history (e : bytes * bytes) : result HistoryRecord :=
  let! rec := wrap_err "decode history record" (js_unmarshal (snd e)) in
  let '(tsNanos, seq) := splitEventKey (fst e) in
  Ok (mkHistoryRecord (hrec_Kind rec) (hrec_NodeID rec) (hrec_ExecutionID rec) (hrec_Payload rec)
        (nanosToTime tsNanos) seq).

(** [FullHistory] up to its last step, in which Badger sorts again. *)
Definition read_full (D : M) (runID : string) : result (option FullHistory) :=
  let! me := runMeta D runID in
  if snd me then
    let! values := result_map read_value (prefix_iter D (runPrefix kind_v runID)) in
    let! history := result_map read_history (prefix_iter D (runPrefix kind_h runID)) in
    Ok (Some (mkFullHistory (fst me) values history))
  else Ok None.

End Ops.

(** * Stores with one key space represent logs

    The contents of a run in the shared key space, as the partial functions
    [KvIndex] speaks of; a batch keeps the representation of every run
    ([space_sim]), and reads answer from it.  Run ids must not hold the byte
    ['|'], or the keys of two runs overlap. *)

From Stdlib Require Import Sorted Strings.Byte.

Definition plain_id (id : string) : Prop := bar ∉ text id.

(** ** Keys *)

Lemma runPrefix_inj kind kind' id id' s s' :
  plain_id id -> plain_id id' -> runPrefix kind id ++ s = runPrefix kind' id' ++ s' ->
  kind = kind' /\ id = id' /\ s = s'.
Proof.
  intros H H' E. unfold runPrefix in E. simpl in E. rewrite <- !app_assoc in E. simpl in E. injection E as -> E.
  apply sep_split_inj in E as [E ->]; [|done|done]. split_and!; [done|by apply text_inj|done].
Qed.

Lemma key_suffix_app p s : length s = 16%nat -> key_suffix (p ++ s) = s.
Proof. intros H. unfold key_suffix. rewrite length_app, H, Nat.add_sub. by rewrite drop_app_length. Qed.

Lemma key_suffix_event kind id ts seq : key_suffix (eventKey kind id ts seq) = event_suffix ts seq.
Proof. apply key_suffix_app, length_event_suffix. Qed.

Lemma pendingKey_event id task kind ts seq :
  pendingKey id task (eventKey kind id ts seq) = runPrefix kind_p id ++ text task ++ bar :: event_suffix ts seq.
Proof. unfold pendingKey. by rewrite key_suffix_event. Qed.

Section Laws.
Context {M : Type} {KV : OrderedKV M} {KVL : OrderedKVLaws M} {IT : PrefixIter M} {ITL : PrefixIterLaws M}.
Context {Q : Type} {CT : Counter Q} {CTL : CounterLaws Q} {SJ : StoreJson} {SJL : StoreJsonLaws}.

(** ** Contents of a run *)

Definition cont (D : M) (kind : Byte.byte) (id : string) (s : bytes) : option bytes :=
  kv_get D (runPrefix kind id ++ s).

(** The keys a run's records and index entries have. *)
Definition run_key (id : string) (k : bytes) : Prop :=
  exists kind s, (kind = kind_v \/ kind = kind_h \/ kind = kind_p) /\ k = runPrefix kind id ++ s.

Definition frame (id : string) (D D' : M) : Prop := forall k, ~ run_key id k -> kv_get D' k = kv_get D k.

Lemma frame_refl id D : frame id D D.
Proof. by intros k. Qed.
Lemma frame_trans id D1 D2 D3 : frame id D1 D2 -> frame id D2 D3 -> frame id D1 D3.
Proof. intros H1 H2 k Hk. by rewrite H2, H1. Qed.

Lemma run_key_intro kind id s : kind = kind_v \/ kind = kind_h \/ kind = kind_p -> run_key id (runPrefix kind id ++ s).
Proof. intros H. by exists kind, s. Qed.

Lemma frame_put id D k v : run_key id k -> frame id D (kv_put D k v).
Proof. intros H k' Hk'. rewrite kv_get_put, bool_decide_false; [done|]. by intros ->. Qed.
Lemma frame_delete id D k : run_key id k -> frame id D (kv_delete D k).
Proof. intros H k' Hk'. rewrite kv_get_delete, bool_decide_false; [done|]. by intros ->. Qed.

Lemma frame_cont id id' D D' kind s :
  plain_id id -> plain_id id' -> id <> id' -> frame id D D' -> cont D' kind id' s = cont D kind id' s.
Proof.
  intros Hi Hi' Hne H. apply H. intros (k' & s' & _ & E). apply runPrefix_inj in E as (_ & -> & _); done.
Qed.

Lemma frame_meta id id' D D' : frame id D D' -> kv_get D' (metaKey id') = kv_get D (metaKey id').
Proof.
  intros H. apply H. intros (k' & s' & Hk & E). injection E as E _. destruct Hk as [->|[->| ->]]; discriminate E.
Qed.

Lemma key_decide kind kind' id s s' :
  plain_id id ->
  bool_decide (runPrefix kind id ++ s = runPrefix kind' id ++ s') = bool_decide (kind = kind') && bool_decide (s = s').
Proof.
  intros H. apply eq_true_iff_eq. rewrite andb_true_iff, !bool_decide_eq_true. split.
  - intros E. by apply runPrefix_inj in E as (? & _ & ?).
  - by intros [-> ->].
Qed.

Lemma cont_put D kind kind' id s v s' :
  plain_id id ->
  cont (kv_put D (runPrefix kind id ++ s) v) kind' id s' =
    if bool_decide (kind = kind') && bool_decide (s = s') then Some v else cont D kind' id s'.
Proof. intros H. unfold cont. by rewrite kv_get_put, key_decide. Qed.

Lemma cont_delete D kind kind' id s s' :
  plain_id id ->
  cont (kv_delete D (runPrefix kind id ++ s)) kind' id s' =
    if bool_decide (kind = kind') && bool_decide (s = s') then None else cont D kind' id s'.
Proof. intros H. unfold cont. by rewrite kv_get_delete, key_decide. Qed.

(** What the iterator over a run's keys yields. *)
Lemma iter_run D kind id p k b :
  (k, b) ∈ prefix_iter D (runPrefix kind id ++ p) <->
  exists k', k = runPrefix kind id ++ k' /\ cont D kind id k' = Some b /\ p `prefix_of` k'.
Proof.
  rewrite prefix_iter_get. unfold cont. split.
  - intros [Hk [t ->]]. exists (p ++ t). rewrite <- app_assoc in *. split_and!; [done|done|by exists t].
  - intros (k' & -> & Hk & [t ->]). split; [done|]. exists t. by rewrite app_assoc.
Qed.

Lemma iter_run_all D kind id k b :
  (k, b) ∈ prefix_iter D (runPrefix kind id) <-> exists k', k = runPrefix kind id ++ k' /\ cont D kind id k' = Some b.
Proof.
  rewrite <- (app_nil_r (runPrefix kind id)) at 1. rewrite iter_run. split.
  - intros (k' & -> & ? & _). by exists k'.
  - intros (k' & -> & ?). exists k'. split_and!; [done|done|apply prefix_nil].
Qed.

(** ** One operation *)

Abbreviation vref id := (fun k => runPrefix kind_v id ++ k).
Abbreviation rep id := (run_rep bar (vref id)).

Lemma holds_ext (ref : bytes -> bytes) (V P H V' P' H' : bytes -> option bytes) vs hs :
  (forall k, V' k = V k) -> (forall k, P' k = P k) -> (forall k, H' k = H k) ->
  holds bar ref V P H vs hs -> holds bar ref V' P' H' vs hs.
Proof. intros EV EP EH [Hv Hp Hh]. split; intros k b; rewrite ?EV, ?EP, ?EH; auto. Qed.

Lemma rep_ext (ref : bytes -> bytes) nv nh (V P H V' P' H' : bytes -> option bytes) r :
  (forall k, V' k = V k) -> (forall k, P' k = P k) -> (forall k, H' k = H k) ->
  run_rep bar ref nv nh V P H r -> run_rep bar ref nv nh V' P' H' r.
Proof. intros EV EP EH (vs & hs & Hh & Hr). exists vs, hs. split; [by eapply holds_ext|done]. Qed.

Definition space_rep (n : Z) (D : M) (id : string) (r : inMemoryRun) : Prop :=
  rep id n n (cont D kind_v id) (cont D kind_p id) (cont D kind_h id) r.

(** The loop of a flip succeeds and has the effect on the records it reads. *)
Lemma flip_entries_effect f id us D :
  plain_id id -> NoDup us -> (forall u w, u ∈ us -> w ∈ us -> vkey u = vkey w -> u = w) ->
  (forall u w, u ∈ us -> w ∈ us -> pkey bar u = pkey bar w -> u = w) ->
  (forall u, u ∈ us -> js_exact (vrec_of u) /\ cont D kind_v id (vkey u) = Some (encoded (vrec_of u)) /\
     cont D kind_p id (pkey bar u) = Some (vref id (vkey u))) ->
  exists D', flip_entries f (map (fun u => (runPrefix kind_p id ++ pkey bar u, vref id (vkey u))) us) D = Ok D' /\
    frame id D D' /\ (forall s, cont D' kind_h id s = cont D kind_h id s) /\
    flip_effect bar f us (cont D kind_v id) (cont D kind_p id) (cont D' kind_v id) (cont D' kind_p id).
Proof.
  intros Hid. revert D. induction us as [|u us IH]; intros D Hnd Hv Hp Hus; cbn [map flip_entries].
  { exists D. split_and!; [done|apply frame_refl|done|apply flip_effect_nil]. }
  apply NoDup_cons in Hnd as [Hu Hnd].
  assert (Hvu : forall w, w ∈ us -> vkey u <> vkey w) by (intros w Hw E; apply Hv in E as ->; [done|by left|by right]).
  assert (Hpu : forall w, w ∈ us -> pkey bar u <> pkey bar w) by (intros w Hw E; apply Hp in E as ->; [done|by left|by right]).
  destruct (Hus u ltac:(by left)) as (He & HV & HP). unfold cont in HV. rewrite HV, unmarshal_encoded by done.
  cbn [wrap_err result_bind]. assert (Hex : js_exact (vrec_of (flipped f u))) by (exact (json_status_exact _ _ He)).
  change (set_status (ValueStatus_String (sf_NewStatus f)) (vrec_of u)) with (vrec_of (flipped f u)).
  rewrite marshal_encoded by done. cbn [result_bind].
  set (D1 := kv_delete (kv_put D (vref id (vkey u)) (encoded (vrec_of (flipped f u)))) (runPrefix kind_p id ++ pkey bar u)).
  assert (HV1 : put_at (vkey u) (encoded (vrec_of (flipped f u))) (cont D kind_v id) (cont D1 kind_v id)).
  { intros k'. unfold D1. by rewrite cont_delete, cont_put. }
  assert (HP1 : del_at (pkey bar u) (cont D kind_p id) (cont D1 kind_p id)).
  { intros k'. unfold D1. by rewrite cont_delete, cont_put. }
  destruct (IH D1) as (D' & Hr & Hf & Hh & Hfe); [done|by intros; apply Hv; [right..|]|by intros; apply Hp; [right..|]| |].
  { intros w Hw. destruct (Hus w ltac:(by right)) as (Hew & HVw & HPw).
    rewrite HV1, HP1, !bool_decide_false by auto. done. }
  exists D'. split_and!; [done| |intros s; rewrite Hh; unfold D1; by rewrite cont_delete, cont_put|].
  - eapply frame_trans; [|exact Hf].
    eapply frame_trans; [|apply frame_delete, run_key_intro; auto]. apply frame_put, run_key_intro; auto.
  - exact (flip_effect_cons bar (vref id) f u us _ _ _ _ _ _ Hvu Hpu HV1 HP1 Hfe).
Qed.

Definition space_storable (op : WriteOp) : Prop := storable bar op /\ plain_id (op_RunID op).

Lemma apply_op_rep q D op r :
  valid op -> space_storable op -> c_pos q < 2 ^ 64 -> space_rep (c_pos q - 1) D (op_RunID op) r ->
  exists q' D', apply_op q D op = (q', Ok D') /\ frame (op_RunID op) D D' /\ c_pos q <= c_pos q' <= c_pos q + 1 /\
    space_rep (c_pos q' - 1) D' (op_RunID op) (apply_op_run r (canon_op op)).
Proof.
  intros Hop [Hst Hid] Hq Hrep. pose proof (c_pos_nonneg q) as H0. destruct (c_next_pos q Hq) as (q' & Hn & Hq').
  unfold valid, ValidateWriteOp in Hop. unfold storable in Hst. unfold space_rep, apply_op, apply_op_run in *.
  destruct op as [rid kind w f h]; cbn [op_RunID op_Kind op_ValueWrite op_StatusFlip op_HistoryEntry canon_op option_map] in *.
  destruct (String.eqb rid ""); [done|]. destruct kind; try done.
  - destruct w as [w|]; [|done]. unfold applyValueWrite. rewrite Hn. fold (pending_rec w).
    rewrite marshal_encoded by apply Hst. cbn [wrap_err result_bind]. rewrite pendingKey_event. unfold eventKey.
    eexists q', _. split_and!; [done| |lia|lia|].
    { eapply frame_trans; [|apply frame_put, run_key_intro; auto]. apply frame_put, run_key_intro; auto. }
    replace (c_pos q' - 1) with (c_pos q) by lia.
    eapply (run_rep_mono bar (vref rid) (c_pos q) _ (c_pos q - 1)); [lia|lia|].
    eapply (run_rep_write bar (vref rid) (c_pos q - 1) _ (cont D kind_v rid) (cont D kind_p rid) _ _ _ r w (c_pos q));
      [|done|lia|lia|lia| |].
    + eapply rep_ext; [done|done| |exact Hrep]. intros k. by rewrite !cont_put.
    + intros k. by rewrite !cont_put.
    + intros k. by rewrite !cont_put.
  - destruct f as [f|]; [|done]. unfold applyStatusFlip.
    destruct (run_rep_flip bar (vref rid) _ _ _ _ _ r f
      (prefix_iter D (runPrefix kind_p rid ++ text (sf_TaskID f) ++ [bar])) (runPrefix kind_p rid) Hrep)
      as (us & Hes & Hnd & Hkv & Hkp & Hus & Hfe);
      [lia|done| |apply prefix_iter_sorted|intros; apply iter_run|].
    { destruct (decide (sf_NewStatus f = ValueStatusCommitted)); [by left|].
      destruct (decide (sf_NewStatus f = ValueStatusAborted)); [by right|].
      rewrite !bool_decide_false in Hop by done. by destruct (String.eqb (sf_TaskID f) ""). }
    destruct (flip_entries_effect f rid us D Hid Hnd Hkv Hkp Hus) as (D' & Hloop & Hf & Hh & Hef).
    rewrite Hes, Hloop. exists q, D'. split_and!; [done|done|lia|lia|].
    eapply rep_ext; [done|done|exact Hh|]. by apply Hfe.
  - destruct h as [h|]; [|done]. unfold applyHistoryEntry. rewrite Hn. cbv zeta.
    fold (kept_payload (he_Payload h)). fold (entry_rec h).
    rewrite marshal_encoded by apply Hst. cbn [wrap_err result_bind]. unfold eventKey.
    eexists q', _. split_and!; [done|apply frame_put, run_key_intro; auto|lia|lia|].
    replace (c_pos q' - 1) with (c_pos q) by lia.
    eapply (run_rep_mono bar (vref rid) (c_pos q - 1) _ (c_pos q)); [lia|lia|].
    eapply (run_rep_entry bar (vref rid) _ (c_pos q - 1) _ _ (cont D kind_h rid) _ r h (c_pos q));
      [|done|lia|lia|lia|].
    + eapply rep_ext; [| |done|exact Hrep]; intros k; by rewrite !cont_put.
    + intros k. by rewrite !cont_put.
Qed.

(** ** All runs *)

Record run_sim (n : nat) (q : Q) (D : M) (id : string) (m : option RunMetadata) (log : list WriteOp) : Prop := {
  rs_rep : space_rep (c_pos q - 1) D id (log_run id m log);
  rs_meta : match m, kv_get D (metaKey id) with
            | None, None => True
            | Some meta, Some raw => js_unmarshal raw = Ok meta
            | _, _ => False
            end;
  rs_valid : Forall valid log;
  rs_length : (length log <= n)%nat
}.

Definition space_sim (n : nat) (q : Q) (D : M) (a : AbsStore) : Prop :=
  c_pos q <= Z.of_nat n + 1 /\
  forall id, plain_id id -> run_sim n q D id (fst (abs_run a id)) (snd (abs_run a id)).

(** A run the batch does not touch. *)
Lemma run_sim_frame n n' q q' D D' id id' m log :
  plain_id id -> plain_id id' -> id <> id' -> (n <= n')%nat -> c_pos q <= c_pos q' -> frame id D D' ->
  run_sim n q D id' m log -> run_sim n' q' D' id' m log.
Proof.
  intros Hi Hi' Hne Hn Hq Hf [Hrep Hm Hv Hl]. split; [|by erewrite frame_meta|done|lia].
  unfold space_rep in *. eapply run_rep_mono; [| |eapply rep_ext; [..|exact Hrep]]; [lia|lia|..].
  all: intros k; by apply (frame_cont id).
Qed.

Lemma apply_op_sim n q D a op :
  space_sim n q D a -> valid op -> space_storable op -> Z.of_nat (S n) < 2 ^ 64 ->
  exists q' D', apply_op q D op = (q', Ok D') /\ frame (op_RunID op) D D' /\
    space_sim (S n) q' D' (spec_append a (canon_op op)).
Proof.
  intros [Hq H] Hv Hs Hn. destruct (H (op_RunID op) (proj2 Hs)) as [Hrep Hm Hval Hl].
  destruct (apply_op_rep q D op _ Hv Hs ltac:(lia) Hrep) as (q' & D' & -> & Hf & Hpos & Hrep').
  exists q', D'. split_and!; [done|done|]. split; [lia|]. intros id Hid.
  assert (Hvc : valid (canon_op op)) by (unfold valid; by rewrite validate_canon).
  unfold spec_append. change (op_RunID (canon_op op)) with (op_RunID op). rewrite (surjective_pairing (abs_run a (op_RunID op))).
  rewrite abs_run_insert. case_bool_decide as E.
  - subst id. cbn [fst snd]. split.
    + by rewrite log_run_snoc.
    + by rewrite (frame_meta _ _ _ _ Hf).
    + apply Forall_app. by rewrite Forall_singleton.
    + rewrite length_app. simpl. lia.
  - eapply run_sim_frame; [exact (proj2 Hs)|done|done| | |exact Hf|by apply H]; lia.
Qed.

Lemma prefix_apply_ops_sim n q D a ops :
  space_sim n q D a -> Forall valid ops -> Forall space_storable ops -> Z.of_nat (n + length ops) < 2 ^ 64 ->
  exists q' D', apply_ops q D ops = (q', Ok D') /\
    (forall k, (forall id, ~ run_key id k) -> kv_get D' k = kv_get D k) /\
    space_sim (n + length ops) q' D' (fold_left spec_append (map canon_op ops) a).
Proof.
  revert n q D a. induction ops as [|op ops IH]; intros n q D a H Hv Hs Hn; cbn [apply_ops map fold_left length] in *.
  { exists q, D. rewrite Nat.add_0_r. done. }
  apply Forall_cons in Hv as [Hv Hvs]. apply Forall_cons in Hs as [Hs Hss].
  destruct (apply_op_sim n q D a op H Hv Hs ltac:(lia)) as (q1 & D1 & -> & Hf & H1).
  destruct (IH (S n) q1 D1 _ H1 Hvs Hss ltac:(lia)) as (q' & D' & -> & Hfr & H').
  exists q', D'. split_and!; [done|intros k Hk; rewrite Hfr by done; by apply Hf|].
  by replace (n + S (length ops))%nat with (S n + length ops)%nat by lia.
Qed.

(** ** Metadata *)

Lemma put_other_cont D k v kind id s :
  (forall s', k <> runPrefix kind id ++ s') -> cont (kv_put D k v) kind id s = cont D kind id s.
Proof. intros H. unfold cont. rewrite kv_get_put, bool_decide_false; [done|]. intros E. by apply (H s). Qed.

(** A key outside the runs' records leaves the records alone. *)
Lemma rep_put_other n D k v id r : ~ run_key id k -> space_rep n D id r -> space_rep n (kv_put D k v) id r.
Proof.
  intros Hk. apply rep_ext; intros s; apply put_other_cont; intros s' ->; apply Hk; apply run_key_intro; auto.
Qed.

Lemma metaKey_not_run id id' : ~ run_key id (metaKey id').
Proof. intros (k & s & Hk & E). injection E as E _. destruct Hk as [->|[->| ->]]; discriminate E. Qed.

Lemma metaKey_inj id id' : metaKey id = metaKey id' -> id = id'.
Proof. intros E. injection E as E. by apply text_inj. Qed.

Lemma prefix_save_sim n q D a m :
  space_sim n q D a -> js_exact m ->
  space_sim n q (kv_put D (metaKey (rm_RunID m)) (encoded m))
    (<[rm_RunID m := (Some m, snd (abs_run a (rm_RunID m)))]> a).
Proof.
  intros [Hq H] Hm. split; [done|]. intros id Hid. destruct (H id Hid) as [Hrep Hme Hv Hl].
  rewrite abs_run_insert.
  assert (Hrep' : forall m', space_rep (c_pos q - 1) (kv_put D (metaKey (rm_RunID m)) (encoded m)) id
    (log_run id m' (snd (abs_run a id)))) by (intros m'; by apply rep_put_other; [apply metaKey_not_run|]).
  case_bool_decide as E.
  - subst id. split; try done. rewrite kv_get_put, bool_decide_true by done. by apply unmarshal_encoded.
  - split; try done. rewrite kv_get_put, bool_decide_false; [done|]. intros E'. by apply metaKey_inj in E'.
Qed.

(** ** Reads *)

Lemma prefix_fold_current_records n id vs m :
  n < 2 ^ 64 -> Forall (good_value bar n) vs ->
  fold_current (map (fun v => (runPrefix kind_v id ++ vkey v, encoded (vrec_of v))) vs) m = Ok (fold_left fold_value vs m).
Proof.
  intros Hn Hg. revert m. induction Hg as [|v vs Hv _ IH]; intros m; cbn [map fold_current fold_left]; [done|].
  rewrite unmarshal_encoded by apply Hv. cbn [wrap_err result_bind vrec_of vrec_Status vrec_TaskID vrec_Field vrec_Value].
  by rewrite (good_committed _ _ _ Hv), IH.
Qed.

Lemma prefix_read_values n id vs :
  n < 2 ^ 64 -> Forall (good_value bar n) vs ->
  result_map read_value (map (fun v => (runPrefix kind_v id ++ vkey v, encoded (vrec_of v))) vs) = Ok vs.
Proof.
  intros Hn Hg. induction Hg as [|v vs Hv _ IH]; cbn [map result_map]; [done|]. rewrite IH.
  unfold read_value. cbn [fst snd]. rewrite unmarshal_encoded by apply Hv.
  cbn [wrap_err result_bind vrec_of vrec_Status]. rewrite (good_status _ _ _ Hv). cbn [result_bind].
  unfold splitEventKey. rewrite key_suffix_app by apply length_event_suffix. cbv zeta.
  destruct (vkey_split bar n v Hn Hv) as [-> ->]. by destruct v.
Qed.

Lemma prefix_read_histories n id hs :
  n < 2 ^ 64 -> Forall (good_history n) hs ->
  result_map read_history (map (fun h => (runPrefix kind_h id ++ hkey h, encoded (hrec_of h))) hs) = Ok hs.
Proof.
  intros Hn Hg. induction Hg as [|v vs Hv _ IH]; cbn [map result_map]; [done|]. rewrite IH.
  unfold read_history. cbn [fst snd]. rewrite unmarshal_encoded by apply Hv. cbn [wrap_err result_bind].
  unfold splitEventKey. rewrite key_suffix_app by apply length_event_suffix. cbv zeta.
  destruct (hkey_split n v Hn Hv) as [-> ->]. by destruct v.
Qed.

(** What the two iterators of a run yield. *)
Record run_scans (D : M) (id : string) (log : list WriteOp) (vs : list ValueRecord) (hs : list HistoryRecord) : Prop := {
  sc_values : prefix_iter D (runPrefix kind_v id) =
    map (fun v => (runPrefix kind_v id ++ vkey v, encoded (vrec_of v))) vs;
  sc_history : prefix_iter D (runPrefix kind_h id) =
    map (fun h => (runPrefix kind_h id ++ hkey h, encoded (hrec_of h))) hs;
  sc_value_sorted : sorted value_less vs;
  sc_history_sorted : sorted history_less hs;
  sc_value_alike : map erase_value vs = map erase_value (SortValueRecords (spec_values 0 log));
  sc_history_alike : map erase_history hs = map erase_history (SortHistoryRecords (spec_history 0 log))
}.

Lemma run_sim_scans n q D id m log :
  Z.of_nat n < 2 ^ 64 -> c_pos q <= Z.of_nat n + 1 -> run_sim n q D id m log ->
  exists vs hs, run_scans D id log vs hs /\ Forall (good_value bar (Z.of_nat n)) vs /\ Forall (good_history (Z.of_nat n)) hs.
Proof.
  intros Hn Hq [Hrep Hm Hval Hl]. destruct (log_run_increasing id m log) as [Hi Hi']; [lia|].
  destruct (scan_values bar (vref id) _ _ _ _ _ _ (prefix_iter D (runPrefix kind_v id)) (runPrefix kind_v id) Hrep)
    as (vs & Ev & Hg & Hs & Ea); [lia|done|apply prefix_iter_sorted|intros; apply iter_run_all|].
  destruct (scan_history bar (vref id) _ _ _ _ _ _ (prefix_iter D (runPrefix kind_h id)) (runPrefix kind_h id) Hrep)
    as (hs & Eh & Hg' & Hs' & Ea'); [lia|done|apply prefix_iter_sorted|intros; apply iter_run_all|].
  exists vs, hs. split_and!; [done| |].
  - eapply Forall_impl; [exact Hg|]. intros v. apply good_value_mono. lia.
  - eapply Forall_impl; [exact Hg'|]. intros v. apply good_history_mono. lia.
Qed.

Lemma alike_nonempty {A B C} (f : A -> C) (g : B -> C) (l : list A) (l' : list B) :
  map f l = map g l' -> match l with [] => false | _ => true end = match l' with [] => false | _ => true end.
Proof. by destruct l, l'. Qed.

Lemma sort_nonempty {A} (less : A -> A -> bool) (l : list A) :
  match slice_stable less l with [] => false | _ => true end = match l with [] => false | _ => true end.
Proof.
  pose proof (slice_stable_perm less l) as H. destruct (slice_stable less l), l; try done.
  - by apply Permutation_nil_cons in H.
  - symmetry in H. by apply Permutation_nil_cons in H.
Qed.

Lemma map_nonempty {A B} (f : A -> B) (l : list A) :
  match map f l with [] => false | _ => true end = match l with [] => false | _ => true end.
Proof. by destruct l. Qed.

Lemma runMeta_sim n q D id m log vs hs :
  run_sim n q D id m log -> run_scans D id log vs hs ->
  runMeta D id = Ok (default (emptyMeta id) m, known (m, log)).
Proof.
  intros [_ Hm _ _] [Ev Eh _ _ Av Ah]. unfold runMeta, known. cbn [fst snd].
  destruct m as [m|], (kv_get D (metaKey id)) as [raw|]; try done; [by rewrite Hm|].
  cbn [existsb orb]. rewrite Ev, Eh, !map_nonempty, (alike_nonempty _ _ _ _ Av), (alike_nonempty _ _ _ _ Ah).
  unfold SortValueRecords, SortHistoryRecords. by rewrite !sort_nonempty, orb_false_r.
Qed.

Lemma current_sim n q D a id :
  Z.of_nat n < 2 ^ 64 -> space_sim n q D a -> plain_id id ->
  read_current D id = Ok (if known (abs_run a id) then spec_current a id else None).
Proof.
  intros Hn [Hq H] Hid. specialize (H id Hid). destruct (run_sim_scans n q D id _ _ Hn Hq H) as (vs & hs & Hsc & Hgv & _).
  unfold read_current. rewrite (runMeta_sim _ _ _ _ _ _ _ _ H Hsc), <- surjective_pairing. cbn [result_bind fst snd].
  destruct (known (abs_run a id)) eqn:Hk; [|done]. destruct (known_some a id Hk) as ([m log] & Ha & Er).
  destruct Hsc as [Ev _ _ _ Av _]. rewrite Er in *. cbn [fst snd] in *.
  rewrite Ev, (prefix_fold_current_records (Z.of_nat n)) by done. cbn [result_bind].
  rewrite <- (fold_value_erase vs), Av, fold_value_erase. unfold spec_current. by rewrite Ha.
Qed.

Lemma full_sim n q D a id :
  Z.of_nat n < 2 ^ 64 -> space_sim n q D a -> plain_id id ->
  exists fh, read_full D id = Ok fh /\
    (forall h, fh = Some h -> sorted value_less (fh_Values h) /\ sorted history_less (fh_History h)) /\
    option_map erase_full fh = option_map erase_full (if known (abs_run a id) then spec_full a id else None).
Proof.
  intros Hn [Hq H] Hid. specialize (H id Hid). destruct (run_sim_scans n q D id _ _ Hn Hq H) as (vs & hs & Hsc & Hgv & Hgh).
  unfold read_full. rewrite (runMeta_sim _ _ _ _ _ _ _ _ H Hsc), <- surjective_pairing. cbn [result_bind fst snd].
  destruct (known (abs_run a id)) eqn:Hk; [|by exists None]. destruct (known_some a id Hk) as ([m log] & Ha & Er).
  destruct Hsc as [Ev Eh Sv Sh Av Ah]. rewrite Er in *. cbn [fst snd] in *.
  rewrite Ev, Eh, (prefix_read_values (Z.of_nat n)), (prefix_read_histories (Z.of_nat n)) by done. cbn [result_bind].
  eexists. split; [done|]. split; [by intros h [= <-]|]. unfold spec_full. rewrite Ha. cbn [option_map].
  unfold erase_full. cbn [fh_Meta fh_Values fh_History]. by rewrite Av, Ah.
Qed.

(** A batch of admitted operations. *)
Lemma batch_sim n q D a ops :
  space_sim n q D a -> (validate_all ops = None -> Forall space_storable ops) -> Z.of_nat (n + length ops) < 2 ^ 64 ->
  match validate_all ops with
  | Some e => spec_write a (map canon_op ops) = (a, Some e)
  | None => exists q' D', apply_ops q D ops = (q', Ok D') /\
      (forall k, (forall id, ~ run_key id k) -> kv_get D' k = kv_get D k) /\
      snd (spec_write a (map canon_op ops)) = None /\
      space_sim (n + length ops) q' D' (fst (spec_write a (map canon_op ops)))
  end.
Proof.
  intros H Ha Hn. unfold spec_write. rewrite validate_all_canon. destruct (validate_all ops) eqn:E; [done|].
  destruct (prefix_apply_ops_sim n q D a ops H) as (q' & D' & He & Hf & Hs); [by apply validate_all_valid|by apply Ha|done|].
  by exists q', D'.
Qed.

Lemma space_sim_mono n n' q D a : (n <= n')%nat -> space_sim n q D a -> space_sim n' q D a.
Proof. intros Hn [Hq H]. split; [lia|]. intros id Hid. destruct (H id Hid). split; (done || lia). Qed.

Lemma space_sim_put n q D a k v :
  (forall id, ~ run_key id k) -> (forall id, k <> metaKey id) -> space_sim n q D a -> space_sim n q (kv_put D k v) a.
Proof.
  intros Hk Hm [Hq H]. split; [done|]. intros id Hid. destruct (H id Hid) as [Hrep Hme Hv Hl].
  split; [by apply rep_put_other| |done|done]. by rewrite kv_get_put, bool_decide_false.
Qed.

(** Metadata and operations the store keeps exactly, under ids it keeps apart. *)
Definition space_admits (c : Call) : Prop :=
  match c with
  | CallSave m => js_exact m
  | CallWriteBatch ops => validate_all ops = None -> Forall space_storable ops
  | CallFlush _ => True
  end.

(** An empty space represents the empty log store. *)
Lemma space_sim_empty q : c_pos q <= 1 -> space_sim 0 q kv_empty ∅.
Proof.
  intros Hq. split; [done|]. intros id _. unfold abs_run. rewrite lookup_empty.
  split; cbn [default fst snd]; [|by rewrite kv_get_empty|constructor|done].
  exists [], []. unfold cont. split_and!; try done; try constructor.
  all: intros k b; rewrite kv_get_empty; split; [done|].
  all: by intros (v & []%elem_of_nil & _).
Qed.

End Laws.

(** ** The sample calls *)

Lemma plain_spec s : forallb (fun x => negb (Byte.eqb x bar)) (text s) = true -> plain_id s.
Proof.
  unfold plain_id. rewrite forallb_forall. intros H Hin. apply list_elem_of_In, H in Hin.
  by rewrite (Byte.byte_dec_lb (eq_refl bar)) in Hin.
Qed.

Lemma sample_space_admitted : Forall space_admits sample_calls.
Proof.
  repeat constructor; try done; try apply keyed_day1; try apply keyed_day2; by apply plain_spec.
Qed.
