(* ===== verification/Badger.v ===== *)
(** * The Badger state store

    Models [stores/badger/store.go] on the shared code of [PrefixStore]:
    iteration is the engine's prefix iterator, arrival numbers come from the
    engine's [Sequence] (a parameter: it hands out consecutive numbers),
    [db.Update] commits a batch as a whole or not at all, and [FullHistory]
    sorts what it read once more.  The key [!seq] under which the engine keeps
    the sequence is its own; I/O failures are not modelled. *)

From Stdlib Require Import Sorted Strings.Byte.
From S2P Require Import Prelude GoTime StateStore StateStoreLaws Wire KvStore KvIndex PrefixStore.
#[global] Open Scope Z_scope.

Section Badger.
Context {M : Type} {KV : OrderedKV M} {Q : Type} {CT : Counter Q} {SJ : StoreJson}.

(** [txn.NewIterator] with a prefix *)
#[local] Instance badgerIter : PrefixIter M := kv_scan.

Record Store : Type := mkStore {
  st_db : M;
  st_seq : Q
}.

(** [New], on an empty directory; [seq] is what [db.GetSequence] returned. *)
Definition New (seq : Q) : Store := mkStore kv_empty seq.

Definition Save (s : Store) (meta : RunMetadata) : Store * option GoError :=
  if String.eqb (rm_RunID meta) "" then (s, Some (ErrorText "save: empty RunID"))
  else match wrap_err "save: encode metadata" (js_marshal meta) with
       | Err e => (s, Some e)
       | Ok enc => (mkStore (kv_put (st_db s) (metaKey (rm_RunID meta)) enc) (st_seq s), None)
       end.

(** A failed transaction is discarded; the numbers it drew are gone. *)
Definition WriteBatch (s : Store) (ops : list WriteOp) : Store * option GoError :=
  match validate_all ops with
  | Some e => (s, Some e)
  | None =>
      match apply_ops (st_seq s) (st_db s) ops with
      | (q, Ok D) => (mkStore D q, None)
      | (q, Err e) => (mkStore (st_db s) q, Some e)
      end
  end.

Definition Flush (s : Store) (runID : string) : Store * option GoError := (s, None).

Definition CurrentVersion (s : Store) (runID : string) : result (option CurrentVersion) :=
  read_current (st_db s) runID.

Definition FullHistory (s : Store) (runID : string) : result (option FullHistory) :=
  let! fh := read_full (st_db s) runID in
  Ok (option_map (fun fh => mkFullHistory (fh_Meta fh) (SortValueRecords (fh_Values fh))
                              (SortHistoryRecords (fh_History fh))) fh).

End Badger.

Section Laws.
Context {M : Type} {KV : OrderedKV M} {KVL : OrderedKVLaws M} {SJ : StoreJson} {SJL : StoreJsonLaws}.
Context {Q : Type} {CT : Counter Q} {CTL : CounterLaws Q}.
Variable seq0 : Q.
Hypothesis Hseq0 : c_pos seq0 = 0.

#[local] Existing Instance badgerIter.
#[local] Instance badgerIterLaws : PrefixIterLaws M.
Proof. split; [intros; apply kv_scan_get|intros; apply kv_scan_sorted]. Qed.

Definition badgerBackend : LogBackend (@Store M Q) := {|
  lb_new := New seq0;
  lb_save := Badger.Save;
  lb_write := Badger.WriteBatch;
  lb_flush := Badger.Flush;
  lb_current := Badger.CurrentVersion;
  lb_full := Badger.FullHistory
|}.
#[local] Existing Instance badgerBackend.

Definition badger_refines (n : nat) (s : @Store M Q) (a : AbsStore) : Prop :=
  Z.of_nat n < 2 ^ 64 /\ space_sim n (st_seq s) (st_db s) a.

Lemma badger_new : badger_refines 0 (New seq0) ∅.
Proof. split; [done|]. apply space_sim_empty. simpl. lia. Qed.

Lemma badger_save n s a m :
  badger_refines n s a -> js_exact m ->
  badger_refines n (fst (Badger.Save s m)) (fst (spec_save a m)) /\ snd (Badger.Save s m) = snd (spec_save a m).
Proof.
  intros [Hn H] Hm. unfold Badger.Save, spec_save. destruct (String.eqb (rm_RunID m) ""); [done|].
  rewrite marshal_encoded by done. cbn [wrap_err fst snd]. split; [|done]. split; [done|]. by apply prefix_save_sim.
Qed.

Lemma badger_write n s a ops :
  badger_refines n s a -> space_admits (CallWriteBatch ops) -> Z.of_nat (n + length ops) < 2 ^ 64 ->
  badger_refines (n + length ops) (fst (Badger.WriteBatch s ops)) (fst (spec_write a (map canon_op ops))) /\
  snd (Badger.WriteBatch s ops) = snd (spec_write a (map canon_op ops)).
Proof.
  intros [Hn H] Ha Hb. pose proof (batch_sim n (st_seq s) (st_db s) a ops H Ha Hb) as Hs. unfold Badger.WriteBatch.
  destruct (validate_all ops).
  - rewrite Hs. split; [|done]. split; [done|]. eapply space_sim_mono; [|exact H]. lia.
  - destruct Hs as (q' & D' & -> & _ & -> & Hs). by split.
Qed.

Lemma badger_full n s a id :
  badger_refines n s a -> plain_id id ->
  exists fh, Badger.FullHistory s id = Ok fh /\
    option_map erase_full fh = option_map erase_full (if known (abs_run a id) then spec_full a id else None).
Proof.
  intros [Hn H] Hid. destruct (full_sim n _ _ a id Hn H Hid) as (fh & E & Hs & Ha). unfold Badger.FullHistory.
  rewrite E. cbn [result_bind]. exists fh. split; [|done]. destruct fh as [fh|]; [|done]. destruct (Hs fh eq_refl) as [Hv Hh].
  cbn [option_map]. unfold SortValueRecords, SortHistoryRecords. rewrite !slice_stable_id by done. by destruct fh.
Qed.

#[local, program] Instance badgerRepresents : RepresentsLog (@Store M Q) := {
  lb_admits := space_admits;
  lb_id := plain_id;
  lb_known := known;
  lb_refines := badger_refines
}.
Next Obligation. apply badger_new. Qed.
Next Obligation.
  intros n s a c H Hc Hb. destruct c as [m|ops|id]; cbn [call_ops lb_call canon_call spec_call] in *.
  - rewrite Nat.add_0_r. by apply badger_save.
  - by apply badger_write.
  - rewrite Nat.add_0_r. by split.
Qed.
Next Obligation. intros n s a id [Hn H] Hid. by eapply current_sim. Qed.
Next Obligation. apply badger_full. Qed.

(** The Badger store refines the log specification: after every history of calls
    whose records and ids it can hold it has returned the same errors, and for
    every run with metadata, a value or a history record it serves the same
    current version and, up to the arrival numbers, the same full history. *)
Theorem badger_store_refines_log (cs : list Call) (id : string) :
  Forall space_admits cs -> plain_id id -> Z.of_nat (calls_ops cs) < 2 ^ 64 ->
  let s := run_calls lb_call (New seq0 : @Store M Q) cs in
  let a := run_calls spec_call ∅ (map canon_call cs) in
  snd s = snd a /\
  Badger.CurrentVersion (fst s) id = Ok (if known (abs_run (fst a) id) then spec_current (fst a) id else None) /\
  exists fh, Badger.FullHistory (fst s) id = Ok fh /\
    option_map erase_full fh = option_map erase_full (if known (abs_run (fst a) id) then spec_full (fst a) id else None).
Proof. intros Hc Hid. exact (log_observations cs id Hc Hid). Qed.

End Laws.

(** ** Concrete histories *)

(** A sequence that starts at zero. *)
#[global] Instance countUp : Counter N := {
  c_next q := Ok (Z.of_N q, N.succ q);
  c_pos := Z.of_N
}.
#[global] Instance countUp_laws : CounterLaws N.
Proof. split; [intros q; simpl; lia|]. intros q _. exists (N.succ q). split; [done|]. simpl. lia. Qed.

Definition sampleStore : @Store MapKV N := New 0%N.

Definition sample_call (s : @Store MapKV N) (c : Call) : @Store MapKV N * option GoError :=
  lb_call (LogBackend0 := badgerBackend 0%N) s c.

Lemma badger_store_refines_log_witness :
  exists cv, Badger.CurrentVersion (fst (run_calls sample_call sampleStore sample_calls)) "run" = Ok (Some cv) /\
    cell (cv_Values cv) "screen" "Score" = Some (json_text "7") /\ cell (cv_Values cv) "check" "Ok" = None.
Proof.
  destruct (badger_store_refines_log (M := MapKV) (CT := countUp) 0%N eq_refl sample_calls "run") as (_ & H & _);
    [apply sample_space_admitted|by apply plain_spec|simpl; lia|].
  eexists. split; [etransitivity; [exact H|vm_compute; reflexivity]|]. split; reflexivity.
Defined.

(** ** Outside the admitted calls *)

Definition on_run (id : string) (op : WriteOp) : WriteOp :=
  mkWriteOp id (op_Kind op) (op_ValueWrite op) (op_StatusFlip op) (op_HistoryEntry op).

(** Ids may hold the separator: the keys of run [a|b] then lie among those of
    run [a], which serves the other run's values. *)
Theorem badger_runs_overlap :
  let cs := [CallWriteBatch [on_run "a" (note_op "RUN_STARTED" day1); on_run "a|b" (put_op "t" "F" "1" day1);
                             on_run "a|b" (flip_op "t" ValueStatusCommitted day2)]] in
  option_map (fun cv => cell (cv_Values cv) "t" "F")
    (spec_current (fst (run_calls spec_call ∅ (map canon_call cs))) "a") = Some None /\
  match Badger.CurrentVersion (fst (run_calls sample_call sampleStore cs)) "a" with
  | Ok (Some cv) => cell (cv_Values cv) "t" "F" = Some (json_text "1")
  | _ => False
  end.
Proof. split; vm_compute; reflexivity. Qed.

(** A run that received a flip and nothing else is unknown to this store, while
    the in-memory store and bbolt serve an empty version of it. *)
Theorem badger_flip_only_run_unknown :
  let cs := [CallWriteBatch [flip_op "t" ValueStatusCommitted day2]] in
  option_map cv_Values (spec_current (fst (run_calls spec_call ∅ (map canon_call cs))) "run") = Some ∅ /\
  Badger.CurrentVersion (fst (run_calls sample_call sampleStore cs)) "run" = Ok None.
Proof. split; vm_compute; reflexivity. Qed.
