(* ===== verification/Pebble.v ===== *)
(** * The Pebble state store

    Models [stores/pebble/store.go] on the shared code of [PrefixStore]: a
    prefix is iterated as the key range up to [upperBound], the arrival counter
    is a field of the store that every batch persists under the key [!seq] and
    that [New] reads back, and a batch is applied as a whole.  The store-level
    mutex makes the write methods steps of one sequence; I/O failures are not
    modelled. *)

From Stdlib Require Import Sorted Strings.Byte.
From S2P Require Import Prelude GoTime StateStore StateStoreLaws Wire KvStore KvIndex PrefixStore.
#[global] Open Scope Z_scope.

(** The loop of [upperBound] from the last byte of the prefix. *)
Fixpoint bump (rev_ub : bytes) : option bytes :=
  match rev_ub with
  | [] => None
  | b :: rest => if byte_val b <? 255 then Some (byte_of (byte_val b + 1) :: rest) else bump rest
  end.

(** [upperBound]; [None] stands for no bound. *)
Definition upperBound (prefix : bytes) : option bytes := option_map (@rev _) (bump (rev prefix)).

(** [s.seq++] *)
#[global] Instance pebbleCounter : Counter Z := {
  c_next seq := let seq' := uint64 (seq + 1) in Ok (seq', seq');
  c_pos seq := uint64 seq + 1
}.

Section Pebble.
Context {M : Type} {KV : OrderedKV M} {SJ : StoreJson}.

(** [NewIter] with the bounds of a prefix *)
Definition pebbleIter : PrefixIter M := fun m p => kv_range m p (upperBound p).
#[local] Existing Instance pebbleIter.

Record Store : Type := mkStore {
  st_db : M;
  st_seq : Z
}.

Definition seqKey : bytes := text "!seq".

(** [New]: the counter of the last batch. *)
Definition New (db : M) : Store :=
  mkStore db (match kv_get db seqKey with Some raw => be_get raw | None => 0 end).

Definition Save (s : Store) (meta : RunMetadata) : Store * option GoError :=
  if String.eqb (rm_RunID meta) "" then (s, Some (ErrorText "save: empty RunID"))
  else match wrap_err "save: encode metadata" (js_marshal meta) with
       | Err e => (s, Some e)
       | Ok enc => (mkStore (kv_put (st_db s) (metaKey (rm_RunID meta)) enc) (st_seq s), None)
       end.

(** A failed batch is dropped; the counter stays where it was advanced to. *)
Definition WriteBatch (s : Store) (ops : list WriteOp) : Store * option GoError :=
  match validate_all ops with
  | Some e => (s, Some e)
  | None =>
      match apply_ops (st_seq s) (st_db s) ops with
      | (seq, Ok b) => (mkStore (kv_put b seqKey (be_put 8 seq)) seq, None)
      | (seq, Err e) => (mkStore (st_db s) seq, Some e)
      end
  end.

Definition Flush (s : Store) (runID : string) : Store * option GoError := (s, None).

Definition CurrentVersion (s : Store) (runID : string) : result (option CurrentVersion) :=
  read_current (st_db s) runID.

Definition FullHistory (s : Store) (runID : string) : result (option FullHistory) :=
  read_full (st_db s) runID.

End Pebble.

(** ** Ranges and prefixes *)

Lemma bytes_ltb_nil_r a : bytes_ltb a [] = false.
Proof. by destruct a. Qed.

Lemma prefix_not_less p k : p `prefix_of` k -> bytes_ltb k p = false.
Proof.
  intros [t ->]. induction p as [|x p IH]; simpl; [by destruct t|]. by rewrite Z.ltb_irrefl, Z.eqb_refl.
Qed.

(** Below a bound that bumps the byte after [p], keys not before [p ++ b :: ff…]
    continue [p] with [b]. *)
Lemma bump_spec p u : bump (rev p) = Some u ->
  exists q b r, p = q ++ b :: r /\ byte_val b < 255 /\ Forall (fun x => byte_val x = 255) r /\
    rev u = q ++ [byte_of (byte_val b + 1)].
Proof.
  revert u. induction p as [|b p IH] using rev_ind; intros u; [done|]. rewrite rev_app_distr. cbn [rev app bump].
  destruct (Z.ltb_spec (byte_val b) 255).
  - intros [= <-]. exists p, b, []. cbn [rev]. rewrite rev_involutive. split_and!; [done|done|constructor|done].
  - intros E. destruct (IH u E) as (q & b' & r & -> & Hb & Hr & Hu). exists q, b', (r ++ [b]).
    rewrite <- app_assoc. cbn [app]. split_and!; [done|done| |done]. apply Forall_app. split; [done|].
    constructor; [|constructor]. pose proof (byte_val_range b). lia.
Qed.

Lemma bump_none p : bump (rev p) = None -> Forall (fun x => byte_val x = 255) p.
Proof.
  induction p as [|b p IH] using rev_ind; intros E; [constructor|]. rewrite rev_app_distr in E. cbn [rev app bump] in E.
  destruct (Z.ltb_spec (byte_val b) 255); [done|]. apply Forall_app. split; [by apply IH|].
  constructor; [|constructor]. pose proof (byte_val_range b). lia.
Qed.

Lemma full_prefix r k : Forall (fun x => byte_val x = 255) r -> bytes_ltb k r = false -> r `prefix_of` k.
Proof.
  intros Hr. revert k. induction Hr as [|b r Hb Hr IH]; intros k H; [apply prefix_nil|].
  destruct k as [|x k]; [done|]. cbn [bytes_ltb] in H. pose proof (byte_val_range x) as Hx.
  apply orb_false_iff in H as [H1 H2]. apply Z.ltb_ge in H1.
  assert (E : byte_val x = byte_val b) by lia. rewrite E, Z.eqb_refl in H2. apply byte_val_inj in E as ->.
  apply prefix_cons. by apply IH.
Qed.

Lemma ltb_snoc_split q c k :
  bytes_ltb k (q ++ [c]) = true -> bytes_ltb k q = false ->
  exists x t, k = q ++ x :: t /\ byte_val x < byte_val c \/ k = q.
Proof.
  revert k. induction q as [|y q IH]; intros k H1 H2; cbn [app bytes_ltb] in *.
  - destruct k as [|x t]; [exists x00, []; by right|]. exists x, t. left. split; [done|].
    cbn [bytes_ltb] in H1. rewrite bytes_ltb_nil_r, andb_false_r, orb_false_r in H1. lia.
  - destruct k as [|x k]; [done|]. cbn [bytes_ltb] in *. apply orb_false_iff in H2 as [H2 H3].
    rewrite H2 in H1. cbn [orb] in H1. apply andb_true_iff in H1 as [H1 H4]. rewrite H1 in H3. cbn [andb] in H3.
    apply Z.eqb_eq, byte_val_inj in H1 as ->. destruct (IH k H4 H3) as (z & t & [[-> Hz]| ->]); exists z, t; [left|right]; done.
Qed.

(** The keys from a prefix up to [upperBound] of it are exactly the keys with
    the prefix. *)
Lemma upperBound_exact p k : in_bounds p (upperBound p) k = true <-> p `prefix_of` k.
Proof.
  unfold in_bounds, upperBound. rewrite andb_true_iff, negb_true_iff. split.
  - intros [Hlo Hhi]. destruct (bump (rev p)) as [u|] eqn:E; cbn [option_map] in Hhi.
    + apply bump_spec in E as (q & b & r & -> & Hb & Hr & Hu). rewrite Hu in Hhi.
      assert (Hq : bytes_ltb k q = false).
      { apply not_true_iff_false. intros Hq. rewrite <- not_true_iff_false in Hlo. apply Hlo.
        clear - Hq. revert k Hq. induction q as [|y q IH]; intros k Hq; [by rewrite bytes_ltb_nil_r in Hq|].
        destruct k as [|x k]; [done|]. cbn [app bytes_ltb] in *. apply orb_true_iff in Hq as [->|Hq]; [done|].
        apply andb_true_iff in Hq as [-> Hq]. by rewrite (IH _ Hq), orb_true_r. }
      destruct (ltb_snoc_split q _ k Hhi Hq) as (x & t & [[-> Hx]| ->]).
      * rewrite bytes_ltb_app in Hlo. cbn [bytes_ltb] in Hlo. apply orb_false_iff in Hlo as [H1 H2].
        rewrite byte_val_of in Hx by (pose proof (byte_val_range b); lia).
        assert (E : byte_val x = byte_val b) by lia. rewrite E, Z.eqb_refl in H2. apply byte_val_inj in E as ->.
        apply prefix_app, prefix_cons. by apply full_prefix.
      * rewrite <- (app_nil_r q) in Hlo at 1. rewrite bytes_ltb_app in Hlo. done.
    + apply bump_none in E. by apply full_prefix.
  - intros Hp. split; [by apply prefix_not_less|]. destruct (bump (rev p)) as [u|] eqn:E; [|done]. cbn [option_map].
    apply bump_spec in E as (q & b & r & -> & Hb & Hr & ->). destruct Hp as [t ->].
    rewrite <- !app_assoc, bytes_ltb_app. cbn [app bytes_ltb].
    rewrite byte_val_of by (pose proof (byte_val_range b); lia). by replace (byte_val b <? byte_val b + 1) with true by lia.
Qed.

#[global] Instance pebbleCounter_laws : CounterLaws Z.
Proof.
  split; cbn [c_pos pebbleCounter].
  - intros q. pose proof (uint64_range q). lia.
  - intros q Hq. exists (uint64 (q + 1)). cbn [c_next pebbleCounter]. pose proof (uint64_range q) as Hr.
    assert (E : uint64 (q + 1) = uint64 q + 1).
    { unfold uint64 in *. rewrite <- Zplus_mod_idemp_l. apply Z.mod_small. lia. }
    rewrite E. split; [done|]. by rewrite uint64_id by lia.
Qed.

Section Laws.
Context {M : Type} {KV : OrderedKV M} {KVL : OrderedKVLaws M} {SJ : StoreJson} {SJL : StoreJsonLaws}.
#[local] Existing Instance pebbleIter.

#[local] Instance pebbleIterLaws : PrefixIterLaws M.
Proof.
  split; unfold prefix_iter, pebbleIter; intros; [|apply kv_range_sorted].
  rewrite kv_range_get. by rewrite upperBound_exact.
Qed.

#[global] Instance pebbleBackend : LogBackend (@Store M) := {
  lb_new := New kv_empty;
  lb_save := Pebble.Save;
  lb_write := Pebble.WriteBatch;
  lb_flush := Pebble.Flush;
  lb_current := Pebble.CurrentVersion;
  lb_full := Pebble.FullHistory
}.

(** The persisted counter is the store's. *)
Definition persisted (s : @Store M) : Prop := 0 <= st_seq s < 2 ^ 64 /\ New (st_db s) = s.

Definition pebble_refines (n : nat) (s : @Store M) (a : AbsStore) : Prop :=
  Z.of_nat n < 2 ^ 64 /\ persisted s /\ space_sim n (st_seq s) (st_db s) a.

Lemma seqKey_not_run id : ~ run_key id seqKey.
Proof. intros (k & s & Hk & E). injection E as E _. destruct Hk as [->|[->| ->]]; discriminate E. Qed.
Lemma seqKey_not_meta id : seqKey <> metaKey id.
Proof. intros E. discriminate E. Qed.

Lemma pebble_new : pebble_refines 0 (New kv_empty) ∅.
Proof.
  unfold pebble_refines, persisted, New. cbn [st_seq st_db]. rewrite kv_get_empty. split_and!; try done.
  apply space_sim_empty. done.
Qed.

Lemma pebble_save n s a m :
  pebble_refines n s a -> js_exact m ->
  pebble_refines n (fst (Pebble.Save s m)) (fst (spec_save a m)) /\ snd (Pebble.Save s m) = snd (spec_save a m).
Proof.
  intros (Hn & [Hr Hp] & H) Hm. unfold Pebble.Save, spec_save. destruct (String.eqb (rm_RunID m) ""); [done|].
  rewrite marshal_encoded by done. cbn [wrap_err fst snd]. split; [|done]. split_and!; [done|split; [done|]|by apply prefix_save_sim].
  unfold New in *. cbn [st_db st_seq]. rewrite kv_get_put, bool_decide_false by (intros E; by apply (seqKey_not_meta (rm_RunID m))).
  f_equal. by apply (f_equal st_seq) in Hp.
Qed.

(** Batches leave the counter within its width. *)
Lemma apply_ops_seq ops seq (D : M) : 0 <= seq < 2 ^ 64 -> 0 <= fst (apply_ops seq D ops) < 2 ^ 64.
Proof.
  revert seq D. induction ops as [|op ops IH]; intros seq D H; cbn [apply_ops]; [done|].
  assert (Hs : 0 <= fst (apply_op seq D op) < 2 ^ 64).
  { pose proof (uint64_range (seq + 1)). unfold apply_op.
    destruct (op_Kind op), (op_ValueWrite op), (op_StatusFlip op), (op_HistoryEntry op); done. }
  destruct (apply_op seq D op) as [seq' [D'|e]]; [by apply IH|done].
Qed.

Lemma pebble_write n s a ops :
  pebble_refines n s a -> space_admits (CallWriteBatch ops) -> Z.of_nat (n + length ops) < 2 ^ 64 ->
  pebble_refines (n + length ops) (fst (Pebble.WriteBatch s ops)) (fst (spec_write a (map canon_op ops))) /\
  snd (Pebble.WriteBatch s ops) = snd (spec_write a (map canon_op ops)).
Proof.
  intros (Hn & [Hr Hp] & H) Ha Hb. pose proof (batch_sim n (st_seq s) (st_db s) a ops H Ha Hb) as Hs.
  pose proof (apply_ops_seq ops (st_seq s) (st_db s) Hr) as Hq. unfold Pebble.WriteBatch. destruct (validate_all ops).
  - rewrite Hs. split; [|done]. split_and!; [done|done|]. eapply space_sim_mono; [|exact H]. lia.
  - destruct Hs as (q' & D' & E & _ & -> & Hs). rewrite E in *. cbn [fst snd] in *. split; [|done].
    split_and!; [done|split; [done|]|].
    + unfold New. cbn [st_db st_seq]. rewrite kv_get_put, bool_decide_true by done. by rewrite be_get_put.
    + by apply space_sim_put; [apply seqKey_not_run|apply seqKey_not_meta|].
Qed.

#[global, program] Instance pebbleRepresents : RepresentsLog (@Store M) := {
  lb_admits := space_admits;
  lb_id := plain_id;
  lb_known := known;
  lb_refines := pebble_refines
}.
Next Obligation. apply pebble_new. Qed.
Next Obligation.
  intros n s a c H Hc Hb. destruct c as [m|ops|id]; cbn [call_ops lb_call canon_call spec_call] in *.
  - rewrite Nat.add_0_r. by apply pebble_save.
  - by apply pebble_write.
  - rewrite Nat.add_0_r. by split.
Qed.
Next Obligation. intros n s a id (Hn & _ & H) Hid. by eapply current_sim. Qed.
Next Obligation.
  intros n s a id (Hn & _ & H) Hid. destruct (full_sim n _ _ a id Hn H Hid) as (fh & E & _ & Ha). by exists fh.
Qed.

(** The Pebble store refines the log specification, and closing and reopening it
    between two calls changes nothing: the counter read back is the counter the
    store had, so that calls continue where they left off. *)
Theorem pebble_store_refines_log (cs : list Call) (id : string) :
  Forall space_admits cs -> plain_id id -> Z.of_nat (calls_ops cs) < 2 ^ 64 ->
  let s := run_calls lb_call (New kv_empty : @Store M) cs in
  let a := run_calls spec_call ∅ (map canon_call cs) in
  New (st_db (fst s)) = fst s /\ snd s = snd a /\
  Pebble.CurrentVersion (fst s) id = Ok (if known (abs_run (fst a) id) then spec_current (fst a) id else None) /\
  exists fh, Pebble.FullHistory (fst s) id = Ok fh /\
    option_map erase_full fh = option_map erase_full (if known (abs_run (fst a) id) then spec_full (fst a) id else None).
Proof.
  intros Hc Hid Hn s a. split; [|exact (log_observations cs id Hc Hid Hn)].
  destruct (run_calls_represents (HR := pebbleRepresents) cs 0 _ ∅ pebble_new Hc Hn) as [(_ & [_ Hp] & _) _]. exact Hp.
Qed.

End Laws.

Lemma pebble_store_refines_log_witness :
  let s := fst (run_calls lb_call (New kv_empty : @Store MapKV) sample_calls) in
  New (st_db s) = s /\
  exists cv, Pebble.CurrentVersion s "run" = Ok (Some cv) /\
    cell (cv_Values cv) "screen" "Score" = Some (json_text "7") /\ cell (cv_Values cv) "check" "Ok" = None.
Proof.
  destruct (pebble_store_refines_log (M := MapKV) sample_calls "run") as (H0 & _ & H & _);
    [apply sample_space_admitted|by apply plain_spec|simpl; lia|].
  split; [exact H0|]. eexists. split; [etransitivity; [exact H|vm_compute; reflexivity]|]. split; reflexivity.
Defined.
