(* ===== verification/Sql.v ===== *)
(** * SQL databases, as the SQL state stores use them

    The statements and queries of [stores/sqlite], [stores/turso],
    [stores/postgres], [stores/mysql], [stores/mariadb] and [stores/mssql] as
    syntax, with the meaning the SQL standard gives them on tables of rows.  An
    engine ([SqlEngine]) is a parameter: it executes statements and may fail at
    any of them.  [SqlLaws] states what such an engine documents: a statement
    that succeeds has its meaning, one that fails has it entirely or not at all,
    and a transaction takes effect at its commit.  Column types and collations
    are parameters too ([SqlTypes]).  [MemoryDb] is an executable engine. *)

From Stdlib Require Import Sorted.
From S2P Require Import Prelude GoTime StateStore KvStore.
#[global] Open Scope Z_scope.

(** ** Values, rows and tables *)

Inductive SqlVal : Type :=
| SNull
| SInt (n : Z)
| SText (s : string)
| STime (t : Time).

#[global] Instance SqlVal_eq_dec : EqDecision SqlVal.
Proof. solve_decision. Defined.

Abbreviation Row := (list (string * SqlVal)).

Fixpoint field_of (r : Row) (c : string) : option SqlVal :=
  match r with
  | [] => None
  | (c', v) :: r' => if String.eqb c c' then Some v else field_of r' c
  end.

Definition cell (r : Row) (c : string) : SqlVal := default SNull (field_of r c).

(** What follows the type in a column definition. *)
Inductive Constraint : Type :=
| PrimaryKey
| NotNull
| Default (v : SqlVal)
| Check (text : string).

Record Column : Type := mkColumn {
  c_name : string;
  c_type : string;
  c_constraints : list Constraint
}.

Record SqlTable : Type := mkSqlTable {
  tb_columns : list Column;
  tb_rows : list Row
}.

Abbreviation Tables := (gmap string SqlTable).

Definition is_key (c : Column) : bool := existsb (fun k => match k with PrimaryKey => true | _ => false end) (c_constraints c).
Definition is_required (c : Column) : bool :=
  existsb (fun k => match k with PrimaryKey | NotNull => true | _ => false end) (c_constraints c).
Definition default_of (c : Column) : SqlVal :=
  fold_right (fun k v => match k with Default d => d | _ => v end) SNull (c_constraints c).

(** ** Statements and queries *)

(** A conjunction of equations between columns and values. *)
Abbreviation Where := (list (string * SqlVal)).

(** [Upsert] inserts a row, or sets the other columns of the row that has its
    key. *)
Inductive Stmt : Type :=
| CreateTable (t : string) (cols : list Column)
| CreateIndex (name t : string) (cols : list string) (only : Where)
| Insert (t : string) (given : Row)
| Upsert (t key : string) (given : Row)
| Update (t : string) (sets : Row) (w : Where).

(** [Select] orders by the columns of [order]; [SelectLatest] keeps of the rows
    that agree on [per] the last in that order, which is what numbering them
    with [ROW_NUMBER() OVER (PARTITION BY per ORDER BY order DESC)] and
    [DISTINCT ON (per)] are used for; [CountRows] adds up the rows of tables. *)
Inductive Query : Type :=
| Select (cols : list string) (t : string) (w : Where) (order : list string)
| SelectLatest (cols : list string) (t : string) (w : Where) (per order : list string)
| CountRows (ts : list string) (w : Where).

(** What a database's column types, checks and collations do: the value a column
    of a type keeps of a value ([None]: the value is refused), the truth of a
    check, and whether [=] holds of two values; and what the driver's [Scan]
    makes of a value at the Go types the stores read. *)
Class SqlTypes : Type := {
  sql_store : string -> SqlVal -> option SqlVal;
  sql_check : string -> SqlVal -> bool;
  sql_same : SqlVal -> SqlVal -> bool;
  scan_string : SqlVal -> result string;
  scan_int64 : SqlVal -> result Z;
  scan_uint64 : SqlVal -> result Z;
  scan_time : SqlVal -> result Time
}.

(** [database/sql]: the nullable targets of [Scan]. *)
Definition scan_null {A} (scan : SqlVal -> result A) (v : SqlVal) : result (option A) :=
  match v with
  | SNull => Ok None
  | _ => let! x := scan v in Ok (Some x)
  end.

(** Columns compared by an [ORDER BY]. *)
Definition sql_compare (a b : SqlVal) : Z :=
  match a, b with
  | SInt x, SInt y => if x <? y then -1 else if y <? x then 1 else 0
  | STime x, STime y => TimeCompare x y
  | _, _ => 0
  end.

Fixpoint order_compare (cols : list string) (a b : Row) : Z :=
  match cols with
  | [] => 0
  | c :: cols' => let k := sql_compare (cell a c) (cell b c) in if k =? 0 then order_compare cols' a b else k
  end.

Definition project (cols : list string) (r : Row) : Row := map (fun c => (c, cell r c)) cols.

Section Meaning.
Context {ST : SqlTypes}.

Definition matches (r : Row) (w : Where) : bool := forallb (fun p => sql_same (cell r (fst p)) (snd p)) w.

(** The value a column keeps. *)
Definition keep (c : Column) (v : SqlVal) : option SqlVal :=
  match (match v with SNull => Some SNull | _ => sql_store (c_type c) v end) with
  | None => None
  | Some v' =>
      if is_required c && bool_decide (v' = SNull) then None
      else if forallb (fun k => match k with Check e => sql_check e v' | _ => true end) (c_constraints c)
      then Some v' else None
  end.

(** The row an insert makes; a key that is not given is numbered. *)
Fixpoint new_row (cols : list Column) (given : Row) (id : Z) : option Row :=
  match cols with
  | [] => Some []
  | c :: cols' =>
      match (match field_of given (c_name c) with
             | Some v => keep c v
             | None => if is_key c then Some (SInt id) else keep c (default_of c)
             end), new_row cols' given id with
      | Some v, Some r => Some ((c_name c, v) :: r)
      | _, _ => None
      end
  end.

Definition key_clash (tb : SqlTable) (r : Row) : bool :=
  existsb (fun c => is_key c && existsb (fun r' => sql_same (cell r' (c_name c)) (cell r (c_name c))) (tb_rows tb))
    (tb_columns tb).

Definition inserted (tb : SqlTable) (given : Row) (id : Z) : option SqlTable :=
  match new_row (tb_columns tb) given id with
  | Some r => if key_clash tb r then None else Some (mkSqlTable (tb_columns tb) (tb_rows tb ++ [r]))
  | None => None
  end.

Fixpoint set_field (r : Row) (c : string) (v : SqlVal) : Row :=
  match r with
  | [] => []
  | (c', v') :: r' => if String.eqb c c' then (c', v) :: r' else (c', v') :: set_field r' c v
  end.

Definition find_column (cols : list Column) (name : string) : option Column :=
  List.find (fun c => String.eqb (c_name c) name) cols.

Fixpoint set_fields (cols : list Column) (r : Row) (sets : Row) : option Row :=
  match sets with
  | [] => Some r
  | (c, v) :: sets' =>
      match find_column cols c with
      | None => None
      | Some col => match keep col v with Some v' => set_fields cols (set_field r c v') sets' | None => None end
      end
  end.

Fixpoint update_rows (cols : list Column) (sets : Row) (w : Where) (rows : list Row) : option (list Row) :=
  match rows with
  | [] => Some []
  | r :: rows' =>
      match (if matches r w then set_fields cols r sets else Some r), update_rows cols sets w rows' with
      | Some r', Some rs => Some (r' :: rs)
      | _, _ => None
      end
  end.

Definition updated (tb : SqlTable) (sets : Row) (w : Where) : option SqlTable :=
  option_map (mkSqlTable (tb_columns tb)) (update_rows (tb_columns tb) sets w (tb_rows tb)).

(** The condition that finds the row of an upsert. *)
Definition on_key (key : string) (given : Row) : Where := [(key, cell given key)].

(** An id above all that a table holds. *)
Definition fresh_id (tb : SqlTable) (id : Z) : Prop :=
  0 < id < 2 ^ 63 /\ forall r n, r ∈ tb_rows tb -> cell r "id" = SInt n -> n < id.

(** The meaning of a statement that succeeds, with the number of rows it
    reports. *)
Inductive sql_step : Stmt -> Tables -> Tables -> Z -> Prop :=
| step_create_table t cols T :
    T !! t = None -> sql_step (CreateTable t cols) T (<[t := mkSqlTable cols []]> T) 0
| step_create_existing t cols T tb : T !! t = Some tb -> sql_step (CreateTable t cols) T T 0
| step_create_index name t cols only T : sql_step (CreateIndex name t cols only) T T 0
| step_insert t given T tb id tb' :
    T !! t = Some tb -> fresh_id tb id -> inserted tb given id = Some tb' ->
    sql_step (Insert t given) T (<[t := tb']> T) 1
| step_upsert_new t key given T tb id tb' n :
    T !! t = Some tb -> existsb (fun r => matches r (on_key key given)) (tb_rows tb) = false ->
    fresh_id tb id -> inserted tb given id = Some tb' ->
    sql_step (Upsert t key given) T (<[t := tb']> T) n
| step_upsert_old t key given T tb tb' n :
    T !! t = Some tb -> existsb (fun r => matches r (on_key key given)) (tb_rows tb) = true ->
    updated tb (List.filter (fun p => negb (String.eqb (fst p) key)) given) (on_key key given) = Some tb' ->
    sql_step (Upsert t key given) T (<[t := tb']> T) n
| step_update t sets w T tb tb' :
    T !! t = Some tb -> updated tb sets w = Some tb' ->
    sql_step (Update t sets w) T (<[t := tb']> T) (Z.of_nat (length (List.filter (fun r => matches r w) (tb_rows tb)))).

(** A sequence of statements that all succeed. *)
Inductive sql_steps : list Stmt -> Tables -> Tables -> Prop :=
| steps_nil T : sql_steps [] T T
| steps_cons s ss T T' T'' n : sql_step s T T' n -> sql_steps ss T' T'' -> sql_steps (s :: ss) T T''.

Definition rows_where (T : Tables) (t : string) (w : Where) : list Row :=
  match T !! t with Some tb => List.filter (fun r => matches r w) (tb_rows tb) | None => [] end.

(** No row of [rows] that agrees with [r] on [per] is after it. *)
Definition is_latest (per order : list string) (rows : list Row) (r : Row) : bool :=
  forallb (fun r' => negb (forallb (fun c => sql_same (cell r c) (cell r' c)) per) || (order_compare order r' r <=? 0)) rows.

(** The answers to a query; rows come in any order that [ORDER BY] allows. *)
Definition sql_answer (q : Query) (T : Tables) (rows : list Row) : Prop :=
  match q with
  | Select cols t w order =>
      exists l, l ≡ₚ rows_where T t w /\ StronglySorted (fun a b => order_compare order a b <= 0) l /\ rows = map (project cols) l
  | SelectLatest cols t w per order =>
      let found := rows_where T t w in
      exists l, l ≡ₚ List.filter (is_latest per order found) found /\ rows = map (project cols) l
  | CountRows ts w => rows = [[("count", SInt (Z.of_nat (length (concat (map (fun t => rows_where T t w) ts)))))]]
  end.

End Meaning.

(** ** Engines *)

(** A connection to a database of type [D], and its transactions of type [X]:
    [sql.Open], [db.Exec], [db.Query], [db.Begin], [tx.Exec], [tx.Commit],
    [tx.Rollback] and [db.Close] of [database/sql]. *)
Class SqlEngine (D X : Type) : Type := {
  sql_open : string -> string -> D -> D * option GoError;
  db_exec : Stmt -> D -> D * result Z;
  db_query : Query -> D -> D * result (list Row);
  db_begin : D -> D * result X;
  tx_exec : Stmt -> X -> X * result Z;
  tx_commit : X -> D -> D * option GoError;
  tx_rollback : X -> D -> D;
  db_close : D -> D * option GoError
}.

(** What a transactional engine documents.  A statement outside a transaction, or
    a commit, that reports an error (a lost connection, say) has had its effect
    or not. *)
Class SqlLaws (D X : Type) `{!SqlEngine D X} {ST : SqlTypes} : Type := {
  contents : D -> Tables;
  pending : X -> Tables;
  open_law driver dsn d : contents (fst (sql_open driver dsn d)) = contents d;
  exec_law s d :
    match db_exec s d with
    | (d', Ok n) => sql_step s (contents d) (contents d') n
    | (d', Err _) => contents d' = contents d \/ exists n, sql_step s (contents d) (contents d') n
    end;
  query_law q d :
    contents (fst (db_query q d)) = contents d /\
    forall rows, snd (db_query q d) = Ok rows -> sql_answer q (contents d) rows;
  begin_law d :
    contents (fst (db_begin d)) = contents d /\ forall x, snd (db_begin d) = Ok x -> pending x = contents d;
  tx_exec_law s x x' n : tx_exec s x = (x', Ok n) -> sql_step s (pending x) (pending x') n;
  commit_law x d :
    match tx_commit x d with
    | (d', None) => contents d' = pending x
    | (d', Some _) => contents d' = contents d \/ contents d' = pending x
    end;
  rollback_law x d : contents (tx_rollback x d) = contents d;
  close_law d : contents (fst (db_close d)) = contents d
}.

(** Texts are equal only to themselves (a binary collation), null to nothing. *)
Class BinaryCollation (ST : SqlTypes) : Prop := {
  sql_same_spec a b : sql_same a b = true <-> a = b /\ a <> SNull
}.

(** The driver reads back what it wrote; an instant, in a location of its
    choice. *)
Class ScanLaws (ST : SqlTypes) : Prop := {
  scan_string_text s : scan_string (SText s) = Ok s;
  scan_int64_int n : - 2 ^ 63 <= n < 2 ^ 63 -> scan_int64 (SInt n) = Ok n;
  scan_uint64_int n : 0 <= n < 2 ^ 63 -> scan_uint64 (SInt n) = Ok n;
  scan_time_time t : exists t', scan_time (STime t) = Ok t' /\ utc t' = utc t
}.

(** A time passed to a statement is sent as an instant. *)
Definition sql_time (t : Time) : SqlVal := STime (utc t).

(** MariaDB's [INSERT ... RETURNING c], run with [tx.QueryRow]. *)
Class SqlReturning (X : Type) : Type := { tx_returning : Stmt -> string -> X -> X * result (list Row) }.

Class SqlReturningLaws (D X : Type) `{!SqlEngine D X} {ST : SqlTypes} `{!SqlLaws D X} `{!SqlReturning X} : Prop := {
  returning_law s c x x' rows :
    tx_returning s c x = (x', Ok rows) ->
    exists n id, sql_step s (pending x) (pending x') n /\ rows = [[(c, SInt id)]] /\ 0 < id < 2 ^ 63
}.

(** The batches of pgx: [tx.SendBatch] sends the statements at once; [br.Exec]
    reads their results in order, [br.Close] reports what is left. *)
Class PgxBatch (X : Type) : Type := { send_batch : list Stmt -> X -> X * (list (result Z) * option GoError) }.

Class PgxBatchLaws (D X : Type) `{!SqlEngine D X} {ST : SqlTypes} `{!SqlLaws D X} `{!PgxBatch X} : Prop := {
  batch_length ss x : length (fst (snd (send_batch ss x))) = length ss;
  batch_law ss x x' rs :
    send_batch ss x = (x', (rs, None)) -> Forall (fun r => is_ok r = true) rs -> sql_steps ss (pending x) (pending x')
}.

(** SQL Server's [sp_getapplock] in a transaction, with its return code, and the
    test of the driver's errors for number 1205, of a transaction that was rolled
    back to break a deadlock. *)
Class MssqlDriver (X : Type) : Type := {
  tx_applock : string -> X -> X * result Z;
  isDeadlock : GoError -> bool
}.

Class MssqlLaws (D X : Type) `{!SqlEngine D X} {ST : SqlTypes} `{!SqlLaws D X} `{!MssqlDriver X} : Prop := {
  applock_law r x x' rc : tx_applock r x = (x', Ok rc) -> pending x' = pending x;
  deadlock_law x d d' e : tx_commit x d = (d', Some e) -> isDeadlock e = true -> contents d' = contents d
}.

(** ** Programs over a connection *)

(** A method that threads a connection, or a store that holds one, and can
    return an error. *)
Definition Db (S A : Type) : Type := S -> S * result A.

Definition db_ret {S A} (a : A) : Db S A := fun s => (s, Ok a).
Definition db_fail {S A} (e : GoError) : Db S A := fun s => (s, Err e).
Definition db_of {S A} (r : result A) : Db S A := fun s => (s, r).
Definition db_bind {S A B} (m : Db S A) (f : A -> Db S B) : Db S B := fun s =>
  match m s with
  | (s', Ok a) => f a s'
  | (s', Err e) => (s', Err e)
  end.

Notation "'do!' x ':=' m 'in' k" := (db_bind m (fun x => k))
  (at level 10, x pattern, m at level 100, k at level 200) : blkit_scope.

(** The error of a method without a result. *)
Definition error_of {S A} (p : S * result A) : S * option GoError :=
  (fst p, match snd p with Ok _ => None | Err e => Some e end).

(** [for _, x := range xs { if err := f(x); err != nil { return err } }] *)
Fixpoint each {S A} (f : A -> Db S unit) (xs : list A) : Db S unit :=
  match xs with
  | [] => db_ret tt
  | x :: xs' => do! _ := f x in each f xs'
  end.

Section Programs.
Context {D X : Type} `{!SqlEngine D X}.

(** [if _, err := db.Exec(...); err != nil { return err }] *)
Definition exec (s : Stmt) : Db D unit := do! _ := db_exec s in db_ret tt.
Definition exec_in (s : Stmt) : Db X unit := do! _ := tx_exec s in db_ret tt.

(** [tx, err := db.Begin(); ...; defer tx.Rollback(); body; return tx.Commit()] *)
Definition in_tx (body : Db X unit) : Db D unit := fun d =>
  match db_begin d with
  | (d', Err e) => (d', Err e)
  | (d', Ok x) =>
      match body x with
      | (x', Err e) => (tx_rollback x' d', Err e)
      | (x', Ok _) => let '(d'', e) := tx_commit x' d' in (d'', match e with None => Ok tt | Some e => Err e end)
      end
  end.

End Programs.

(** [sql.ErrNoRows] *)
Definition ErrNoRows : GoError := ErrorText "sql: no rows in result set".

(** [prefixPattern]: [^[a-z_][a-z0-9_]*$] *)
Definition prefix_start (c : Ascii.ascii) : bool :=
  let n := Z.of_nat (Ascii.nat_of_ascii c) in ((97 <=? n) && (n <=? 122)) || (n =? 95).
Definition prefix_char (c : Ascii.ascii) : bool :=
  let n := Z.of_nat (Ascii.nat_of_ascii c) in prefix_start c || ((48 <=? n) && (n <=? 57)).
Definition prefixPattern (s : string) : bool :=
  match s with
  | EmptyString => false
  | String c s' => prefix_start c && forallb prefix_char (String.list_ascii_of_string s')
  end.

(** A store that creates its tables on first use: the connection, the connection
    string, the table prefix, and [schemaOnce] with [schemaErr] once it is done. *)
Record SqlStore (D : Type) : Type := mkSqlStore {
  st_db : D;
  st_dsn : string;
  st_prefix : string;
  st_schema : option (option GoError)
}.
Arguments mkSqlStore {D}.
Arguments st_db {D}.
Arguments st_dsn {D}.
Arguments st_prefix {D}.
Arguments st_schema {D}.

Definition set_db {D} (d : D) (s : SqlStore D) : SqlStore D := mkSqlStore d (st_dsn s) (st_prefix s) (st_schema s).
Definition set_schema {D} (e : option GoError) (s : SqlStore D) : SqlStore D :=
  mkSqlStore (st_db s) (st_dsn s) (st_prefix s) (Some e).

(** A method of the connection, as one of the store. *)
Definition on_db {D A} (m : Db D A) : Db (SqlStore D) A := fun s =>
  let '(d, r) := m (st_db s) in (set_db d s, r).

(** A method that names tables by the prefix of the store. *)
Definition with_prefix {D A} (m : string -> Db (SqlStore D) A) : Db (SqlStore D) A := fun s => m (st_prefix s) s.

(** [schemaOnce.Do(init); return schemaErr] *)
Definition schema_once {D} (init : string -> Db D unit) : Db (SqlStore D) unit := fun s =>
  match st_schema s with
  | Some None => (s, Ok tt)
  | Some (Some e) => (s, Err e)
  | None =>
      match init (st_prefix s) (st_db s) with
      | (d, Ok _) => (set_schema None (set_db d s), Ok tt)
      | (d, Err e) => (set_schema (Some e) (set_db d s), Err e)
      end
  end.

Definition wrap_db {S A} (text : string) (m : Db S A) : Db S A := fun s =>
  let '(s', r) := m s in (s', match r with Ok a => Ok a | Err e => Err (WrapError text e) end).

(** [timePtrToNanos], [nanosToTimePtr] of the stores that keep nanoseconds *)
Definition timePtrToNanos (t : option Time) : SqlVal :=
  match t with None => SNull | Some t => SInt (UnixNano t) end.
Definition nanosToTimePtr (n : option Z) : option Time := option_map nanosToTime n.

(** [utcPtr], [nullTimePtr] of the stores that keep times *)
Definition utcPtr (t : option Time) : SqlVal := match t with None => SNull | Some t => sql_time t end.
Definition nullTimePtr (t : option Time) : option Time := option_map utc t.

(** [string(b)], [[]byte(s)] *)
Definition text_of (b : bytes) : string := String.string_of_list_byte b.
Definition bytes_of (s : string) : bytes := String.list_byte_of_string s.

(** ** The loops of the reads, the same in every store up to the type of [ts] *)

Section Scans.
Context {ST : SqlTypes}.

(** [time.Unix(0, nanos).UTC()] of an integer column, [ts.UTC()] of a time column *)
Definition scan_nanos (v : SqlVal) : result Time := let! n := scan_int64 v in Ok (nanosToTime n).
Definition scan_utc (v : SqlVal) : result Time := let! t := scan_time v in Ok (utc t).

(** [row.Scan(&meta.ProcessID, ...)]; a null time stays nil. *)
Definition scan_meta (ts : SqlVal -> result Time) (runID : string) (r : Row) : result RunMetadata :=
  let! process := scan_string (cell r "process_id") in
  let! version := scan_string (cell r "process_version") in
  let! status := scan_string (cell r "status") in
  let! published := scan_null ts (cell r "published_at") in
  let! started := scan_null ts (cell r "started_at") in
  let! completed := scan_null ts (cell r "completed_at") in
  let! count := scan_int64 (cell r "evaluation_count") in
  Ok (mkRunMetadata runID process version status published started completed count).

(** The body of the loop over value rows of [FullHistory]. *)
Definition scan_value (ts : SqlVal -> result Time) (r : Row) : result ValueRecord :=
  let! seq := scan_uint64 (cell r "id") in
  let! task := scan_string (cell r "task_id") in
  let! execution := scan_string (cell r "execution_id") in
  let! field := scan_string (cell r "field") in
  let! value := scan_string (cell r "value") in
  let! status := scan_string (cell r "status") in
  let! at_ := ts (cell r "ts") in
  let! st := ParseValueStatus status in
  Ok (mkValueRecord task execution field (bytes_of value) st at_ seq).

(** The body of its loop over history rows. *)
Definition scan_history (ts : SqlVal -> result Time) (r : Row) : result HistoryRecord :=
  let! seq := scan_uint64 (cell r "id") in
  let! kind := scan_string (cell r "kind") in
  let! node := scan_null scan_string (cell r "node_id") in
  let! execution := scan_string (cell r "execution_id") in
  let! payload := scan_string (cell r "payload") in
  let! at_ := ts (cell r "ts") in
  Ok (mkHistoryRecord kind node execution (bytes_of payload) at_ seq).

(** The loop of [CurrentVersion]. *)
Fixpoint fold_rows (rows : list Row) (m : gmap string (gmap string bytes)) : result (gmap string (gmap string bytes)) :=
  match rows with
  | [] => Ok m
  | r :: rows' =>
      let! task := scan_string (cell r "task_id") in
      let! field := scan_string (cell r "field") in
      let! value := scan_string (cell r "value") in
      fold_rows rows' (<[task := <[field := bytes_of value]> (default ∅ (m !! task))]> m)
  end.

End Scans.

(** The columns the reads name. *)
Definition meta_columns : list string :=
  ["process_id"; "process_version"; "status"; "published_at"; "started_at"; "completed_at"; "evaluation_count"].
Definition value_columns : list string := ["id"; "task_id"; "execution_id"; "field"; "value"; "status"; "ts"].
Definition history_columns : list string := ["id"; "kind"; "node_id"; "execution_id"; "payload"; "ts"].
Definition latest_columns : list string := ["task_id"; "field"; "value"].
Definition of_run (runID : string) : Where := [("run_id", SText runID)].
Definition committed_of (runID : string) : Where := [("run_id", SText runID); ("status", SText "committed")].
Definition pending_of (runID taskID : string) : Where :=
  [("run_id", SText runID); ("task_id", SText taskID); ("status", SText "pending")].

(** [QueryRow(...).Scan(...)]: the first row, or [sql.ErrNoRows]. *)
Definition query_row {D X} `{!SqlEngine D X} (q : Query) : Db D (option Row) :=
  do! rows := db_query q in db_ret (hd_error rows).
