(* ===== verification/SqlLaws.v ===== *)
(** * What the tables of an SQL store hold

    A layout names the tables and columns of a store and how it encodes times.
    [rep] relates the tables of a layout to the abstract log store: the rows of a
    run are the encodings of the records its log leaves, numbered in order of
    arrival.  Every statement a store executes keeps the relation, and every
    query answers from it. *)

From Stdlib Require Import Sorted Strings.Byte.
From stdpp Require Import sorting.
From S2P Require Import Prelude GoTime StateStore StateStoreLaws KvStore KvIndex PrefixStore Sql.
#[global] Open Scope Z_scope.

Record Layout : Type := mkLayout {
  ly_runs : string;
  ly_values : string;
  ly_history : string;
  ly_rc : list Column;
  ly_vc : list Column;
  ly_hc : list Column;
  ly_enc : Time -> SqlVal;
  ly_dec : SqlVal -> result Time;
  ly_good : Time -> Prop
}.

Definition null_or {A} (f : A -> SqlVal) (x : option A) : SqlVal := match x with None => SNull | Some a => f a end.

(** The rows as a store passes them. *)
Section Rows.
Variable L : Layout.

Definition meta_row (m : RunMetadata) : Row :=
  [("run_id", SText (rm_RunID m)); ("process_id", SText (rm_ProcessID m));
   ("process_version", SText (rm_ProcessVersion m)); ("status", SText (rm_Status m));
   ("published_at", null_or (ly_enc L) (rm_PublishedAt m)); ("started_at", null_or (ly_enc L) (rm_StartedAt m));
   ("completed_at", null_or (ly_enc L) (rm_CompletedAt m)); ("evaluation_count", SInt (rm_EvaluationCount m))].

Definition value_given (runID : string) (w : ValueWrite) : Row :=
  [("run_id", SText runID); ("task_id", SText (vw_TaskID w)); ("execution_id", SText (vw_ExecutionID w));
   ("field", SText (vw_Field w)); ("value", SText (text_of (vw_Value w))); ("status", SText "pending");
   ("ts", ly_enc L (vw_Timestamp w))].

Definition history_given (runID : string) (h : HistoryEntry) : Row :=
  [("run_id", SText runID); ("kind", SText (he_Kind h)); ("node_id", null_or SText (he_NodeID h));
   ("execution_id", SText (he_ExecutionID h)); ("payload", SText (text_of (kept_payload (he_Payload h))));
   ("ts", ly_enc L (he_Timestamp h))].

Definition flip_given (st : ValueStatus) : Row := [("status", SText (ValueStatus_String st))].

(** The statement of an operation. *)
Definition op_stmt (op : WriteOp) : option Stmt :=
  match op_Kind op, op_ValueWrite op, op_StatusFlip op, op_HistoryEntry op with
  | OpValueWrite, Some w, _, _ => Some (Insert (ly_values L) (value_given (op_RunID op) w))
  | OpStatusFlip, _, Some f, _ => Some (Update (ly_values L) (flip_given (sf_NewStatus f)) (pending_of (op_RunID op) (sf_TaskID f)))
  | OpHistoryEntry, _, _, Some h => Some (Insert (ly_history L) (history_given (op_RunID op) h))
  | _, _, _, _ => None
  end.

(** The rows of records as they are stored. *)
Definition value_row (runID : string) (v : ValueRecord) : Row :=
  [("id", SInt (vr_Seq v)); ("run_id", SText runID); ("task_id", SText (vr_TaskID v)); ("execution_id", SText (vr_ExecutionID v));
   ("field", SText (vr_Field v)); ("value", SText (text_of (vr_Value v))); ("status", SText (ValueStatus_String (vr_Status v)));
   ("ts", ly_enc L (vr_Timestamp v))].

Definition history_row (runID : string) (h : HistoryRecord) : Row :=
  [("id", SInt (hr_Seq h)); ("run_id", SText runID); ("kind", SText (hr_Kind h)); ("node_id", null_or SText (hr_NodeID h));
   ("execution_id", SText (hr_ExecutionID h)); ("payload", SText (text_of (hr_Payload h)));
   ("ts", ly_enc L (hr_Timestamp h))].

End Rows.

(** What a layout has to satisfy: the column names in order, one key per table,
    and times that are read back and ordered. *)
Record layout_ok (L : Layout) : Prop := {
  lo_names : NoDup [ly_runs L; ly_values L; ly_history L];
  lo_rc : map (fun c => (c_name c, is_key c)) (ly_rc L) =
    [("run_id", true); ("process_id", false); ("process_version", false); ("status", false); ("published_at", false);
     ("started_at", false); ("completed_at", false); ("evaluation_count", false)];
  lo_vc : map (fun c => (c_name c, is_key c)) (ly_vc L) =
    [("id", true); ("run_id", false); ("task_id", false); ("execution_id", false); ("field", false); ("value", false);
     ("status", false); ("ts", false)];
  lo_hc : map (fun c => (c_name c, is_key c)) (ly_hc L) =
    [("id", true); ("run_id", false); ("kind", false); ("node_id", false); ("execution_id", false); ("payload", false);
     ("ts", false)];
  lo_enc_utc t : ly_enc L (utc t) = ly_enc L t;
  lo_enc_some t : ly_enc L t <> SNull;
  lo_dec t : ly_good L t -> ly_dec L (ly_enc L t) = Ok (utc t);
  lo_good_utc t : ly_good L t -> ly_good L (utc t);
  lo_order t t' : ly_good L t -> ly_good L t' -> sql_compare (ly_enc L t) (ly_enc L t') = TimeCompare t t'
}.

Section Laws.
Context {ST : SqlTypes} {BC : BinaryCollation ST} {SL : ScanLaws ST}.
Variable L : Layout.
Hypothesis HL : layout_ok L.

(** Rows whose columns keep what they are given. *)
Definition kept (cols : list Column) (given : Row) : Prop :=
  Forall (fun c => match field_of given (c_name c) with Some v => keep c v = Some v | None => True end) cols.

Definition kept_field (cols : list Column) (name : string) (v : SqlVal) : Prop :=
  match find_column cols name with Some c => keep c v = Some v | None => False end.

Lemma new_row_kept cols given id :
  kept cols given ->
  (forall c, c ∈ cols -> field_of given (c_name c) = None -> is_key c = true) ->
  new_row cols given id =
    Some (map (fun c => (c_name c, default (SInt id) (field_of given (c_name c)))) cols).
Proof.
  induction cols as [|c cols IH]; intros Hk Hn; [done|]. apply Forall_cons in Hk as [Hc Hk]. cbn [new_row map].
  rewrite IH; [|done|intros; apply Hn; [set_solver|done]].
  destruct (field_of given (c_name c)) eqn:E; [by rewrite Hc|]. by rewrite Hn by (set_solver || done).
Qed.

Lemma names_of (cols : list Column) spec :
  map (fun c => (c_name c, is_key c)) cols = spec ->
  map c_name cols = map fst spec /\ forall c, c ∈ cols -> (c_name c, is_key c) ∈ spec.
Proof.
  intros <-. split; [by rewrite map_map|]. intros c Hc. apply list_elem_of_fmap. by exists c.
Qed.

(** A new row has the given fields under the names of the columns. *)
Lemma new_row_named cols spec given id :
  map (fun c => (c_name c, is_key c)) cols = spec -> kept cols given ->
  (forall n k, (n, k) ∈ spec -> field_of given n = None -> k = true) ->
  new_row cols given id = Some (map (fun n => (n, default (SInt id) (field_of given n))) (map fst spec)).
Proof.
  intros Hs Hk Hn. destruct (names_of cols spec Hs) as [E Hin]. rewrite new_row_kept; [|done|].
  - by rewrite <- E, map_map.
  - intros c Hc. by apply Hn, Hin.
Qed.

Ltac named_fields := intros n k Hin Hf; repeat (apply elem_of_cons in Hin as [[= -> ->]|Hin]; [first [done|discriminate Hf]|]);
  by apply elem_of_nil in Hin.

Lemma new_row_value runID w id :
  kept (ly_vc L) (value_given L runID w) ->
  new_row (ly_vc L) (value_given L runID w) id = Some (value_row L runID (record_of_write (canon_write w) id)).
Proof.
  intros Hk. rewrite (new_row_named _ _ _ _ (lo_vc L HL) Hk); [|named_fields].
  unfold value_row. cbn. by rewrite (lo_enc_utc L HL).
Qed.

Lemma new_row_history runID h id :
  kept (ly_hc L) (history_given L runID h) ->
  new_row (ly_hc L) (history_given L runID h) id = Some (history_row L runID (record_of_entry (canon_entry h) id)).
Proof.
  intros Hk. rewrite (new_row_named _ _ _ _ (lo_hc L HL) Hk); [|named_fields].
  unfold history_row. cbn. by rewrite (lo_enc_utc L HL).
Qed.

Lemma new_row_meta m id :
  kept (ly_rc L) (meta_row L m) -> new_row (ly_rc L) (meta_row L m) id = Some (meta_row L m).
Proof. intros Hk. by rewrite (new_row_named _ _ _ _ (lo_rc L HL) Hk); [|named_fields]. Qed.

(** ** Rows of a run *)

Definition run_rows (runID : string) (rows : list Row) : list Row := List.filter (fun r => matches r (of_run runID)) rows.

Lemma same_text v s : sql_same v (SText s) = true <-> v = SText s.
Proof. rewrite sql_same_spec. naive_solver. Qed.

Lemma same_text_text s s' : sql_same (SText s) (SText s') = String.eqb s s'.
Proof. apply eq_true_iff_eq. rewrite same_text, String.eqb_eq. naive_solver. Qed.

Lemma run_row_iff runID r : matches r (of_run runID) = true <-> cell r "run_id" = SText runID.
Proof. unfold matches, of_run. cbn [forallb fst snd]. by rewrite andb_true_r, same_text. Qed.

Lemma run_rows_app runID rows r : run_rows runID (rows ++ [r]) = run_rows runID rows ++ run_rows runID [r].
Proof. apply List.filter_app. Qed.

Lemma run_rows_one runID runID' r :
  cell r "run_id" = SText runID' -> run_rows runID [r] = if String.eqb runID runID' then [r] else [].
Proof.
  intros E. unfold run_rows. cbn [List.filter]. destruct (matches r (of_run runID)) eqn:M.
  - apply run_row_iff in M. rewrite E in M. injection M as ->. by rewrite String.eqb_refl.
  - destruct (String.eqb_spec runID runID') as [->|]; [|done]. by rewrite (proj2 (run_row_iff runID' r) E) in M.
Qed.

(** An update changes the matching rows of a run in place. *)
Lemma update_rows_run cols sets w rows rows' :
  update_rows cols sets w rows = Some rows' ->
  (forall r r', matches r w = true -> set_fields cols r sets = Some r' -> cell r' "run_id" = cell r "run_id") ->
  forall runID, Forall2 (fun r r' => if matches r w then set_fields cols r sets = Some r' else r' = r)
    (run_rows runID rows) (run_rows runID rows').
Proof.
  revert rows'. induction rows as [|r rows IH]; intros rows' H Hk runID; cbn [update_rows] in H; [injection H as <-; constructor|].
  destruct (if matches r w then _ else _) as [r'|] eqn:E; [|done]. destruct (update_rows cols sets w rows) as [rs|]; [|done].
  injection H as <-. specialize (IH rs eq_refl Hk runID).
  assert (Hc : cell r' "run_id" = cell r "run_id") by (destruct (matches r w) eqn:M; [by apply (Hk r)|by injection E as ->]).
  assert (Hm : matches r' (of_run runID) = matches r (of_run runID)) by (apply eq_true_iff_eq; by rewrite !run_row_iff, Hc).
  unfold run_rows in *. cbn [List.filter]. rewrite Hm. destruct (matches r (of_run runID)); [|done]. constructor; [|done].
  destruct (matches r w); [done|]. by injection E.
Qed.

Lemma update_rows_none cols sets w rows rows' :
  update_rows cols sets w rows = Some rows' -> List.filter (fun r => matches r w) rows = [] -> rows' = rows.
Proof.
  revert rows'. induction rows as [|r rows IH]; intros rows' H Hf; cbn [update_rows List.filter] in *; [by injection H|].
  destruct (matches r w); [done|]. destruct (update_rows cols sets w rows) as [rs|]; [|done]. injection H as <-. f_equal. by apply IH.
Qed.

Lemma update_rows_other cols sets w rows rows' runID :
  update_rows cols sets w rows = Some rows' ->
  (forall r r', matches r w = true -> set_fields cols r sets = Some r' -> cell r' "run_id" = cell r "run_id") ->
  (forall r, matches r w = true -> cell r "run_id" <> SText runID) -> run_rows runID rows' = run_rows runID rows.
Proof.
  intros H Hk Hne. pose proof (update_rows_run _ _ _ _ _ H Hk runID) as F. symmetry.
  assert (Hall : Forall (fun r => cell r "run_id" = SText runID) (run_rows runID rows)).
  { apply Forall_forall. intros r Hr. apply list_elem_of_In, filter_In in Hr as [_ Hr]. by apply run_row_iff. }
  induction F as [|r r' l l' E F IH]; [done|]. apply Forall_cons in Hall as [Hr Hall]. f_equal; [|by apply IH].
  destruct (matches r w) eqn:M; [|done]. by destruct (Hne r M).
Qed.

(** ** The relation between tables and logs *)

Definition good_time (t : Time) : Prop := ly_good L t /\ utc t = t.
Definition settled_status (st : ValueStatus) : Prop :=
  st = ValueStatusPending \/ st = ValueStatusCommitted \/ st = ValueStatusAborted.

Definition good_value (v : ValueRecord) : Prop :=
  0 < vr_Seq v < 2 ^ 63 /\ good_time (vr_Timestamp v) /\ settled_status (vr_Status v).
Definition good_history (h : HistoryRecord) : Prop := 0 < hr_Seq h < 2 ^ 63 /\ good_time (hr_Timestamp h).
Definition good_meta (m : RunMetadata) : Prop :=
  Forall good_time (option_list (rm_PublishedAt m) ++ option_list (rm_StartedAt m) ++ option_list (rm_CompletedAt m)) /\
  - 2 ^ 63 <= rm_EvaluationCount m < 2 ^ 63.

Definition values_rep (runID : string) (rows : list Row) (vs : list ValueRecord) : Prop :=
  exists us, run_rows runID rows = map (value_row L runID) us /\ Forall good_value us /\
    StronglySorted (fun a b => vr_Seq a < vr_Seq b) us /\ map erase_value us = map erase_value vs.
Definition history_rep (runID : string) (rows : list Row) (hs : list HistoryRecord) : Prop :=
  exists us, run_rows runID rows = map (history_row L runID) us /\ Forall good_history us /\
    StronglySorted (fun a b => hr_Seq a < hr_Seq b) us /\ map erase_history us = map erase_history hs.

Definition run_meta_rows (runID : string) (rows : list Row) (m : option RunMetadata) : Prop :=
  run_rows runID rows = match m with Some m => [meta_row L m] | None => [] end /\
  forall m', m = Some m' -> rm_RunID m' = runID /\ good_meta m'.

Record rep (n : nat) (T : Tables) (a : AbsStore) : Prop := mkRep {
  rep_runs : exists rows, T !! ly_runs L = Some (mkSqlTable (ly_rc L) rows) /\
    forall id, run_meta_rows id rows (fst (abs_run a id));
  rep_values : exists rows, T !! ly_values L = Some (mkSqlTable (ly_vc L) rows) /\
    forall id, values_rep id rows (spec_values 0 (snd (abs_run a id)));
  rep_history : exists rows, T !! ly_history L = Some (mkSqlTable (ly_hc L) rows) /\
    forall id, history_rep id rows (spec_history 0 (snd (abs_run a id)));
  rep_log : forall id, Forall valid (snd (abs_run a id)) /\ (length (snd (abs_run a id)) <= n)%nat
}.

Lemma names_ne : ly_runs L <> ly_values L /\ ly_runs L <> ly_history L /\ ly_values L <> ly_history L.
Proof. pose proof (lo_names L HL) as H. rewrite !NoDup_cons in H. set_solver. Qed.

(** The columns that keep what an operation gives them. *)
Definition storable (op : WriteOp) : Prop :=
  match op_Kind op, op_ValueWrite op, op_StatusFlip op, op_HistoryEntry op with
  | OpValueWrite, Some w, _, _ => kept (ly_vc L) (value_given L (op_RunID op) w) /\ ly_good L (vw_Timestamp w)
  | OpStatusFlip, _, Some f, _ => kept_field (ly_vc L) "status" (SText (ValueStatus_String (sf_NewStatus f)))
  | OpHistoryEntry, _, _, Some h => kept (ly_hc L) (history_given L (op_RunID op) h) /\ ly_good L (he_Timestamp h)
  | _, _, _, _ => True
  end.

Lemma inserted_rows tb given id r tb' :
  inserted tb given id = Some tb' -> new_row (tb_columns tb) given id = Some r ->
  tb' = mkSqlTable (tb_columns tb) (tb_rows tb ++ [r]).
Proof. unfold inserted. intros H E. rewrite E in H. destruct (key_clash tb r); [done|]. by injection H. Qed.

Lemma run_row_in runID r rows : r ∈ run_rows runID rows -> r ∈ rows.
Proof. intros H. apply list_elem_of_In in H. apply list_elem_of_In. by eapply filter_In. Qed.

(** A new value record of a run. *)
Lemma values_rep_insert runID runID' w id rows vs seq :
  ly_good L (vw_Timestamp w) -> fresh_id (mkSqlTable (ly_vc L) rows) id ->
  values_rep runID rows vs ->
  values_rep runID (rows ++ [value_row L runID' (record_of_write (canon_write w) id)])
    (if String.eqb runID runID' then vs ++ [record_of_write (canon_write w) seq] else vs).
Proof.
  intros Hg [Hid Hfresh] (us & E & Hgood & Hsort & Her). set (v := record_of_write (canon_write w) id).
  unfold values_rep. rewrite run_rows_app, (run_rows_one runID runID') by done. destruct (String.eqb_spec runID runID') as [<-|].
  - exists (us ++ [v]). rewrite E, !map_app. split_and!; [done| | |].
    + apply Forall_app. split; [done|]. constructor; [|done]. split_and!; [cbn; lia|cbn; lia|split; [by apply (lo_good_utc L HL)|done]|by left].
    + apply StronglySorted_snoc; [done|]. apply Forall_forall. intros u Hu. cbn [v record_of_write vr_Seq].
      apply (Hfresh (value_row L runID u)); [|done]. apply (run_row_in runID). cbn [tb_rows]. rewrite E. by apply list_elem_of_fmap_2.
    + by rewrite Her.
  - exists us. rewrite app_nil_r. done.
Qed.

Lemma history_rep_insert runID runID' h id rows hs seq :
  ly_good L (he_Timestamp h) -> fresh_id (mkSqlTable (ly_hc L) rows) id ->
  history_rep runID rows hs ->
  history_rep runID (rows ++ [history_row L runID' (record_of_entry (canon_entry h) id)])
    (if String.eqb runID runID' then hs ++ [record_of_entry (canon_entry h) seq] else hs).
Proof.
  intros Hg [Hid Hfresh] (us & E & Hgood & Hsort & Her). set (v := record_of_entry (canon_entry h) id).
  unfold history_rep. rewrite run_rows_app, (run_rows_one runID runID') by done. destruct (String.eqb_spec runID runID') as [<-|].
  - exists (us ++ [v]). rewrite E, !map_app. split_and!; [done| | |].
    + apply Forall_app. split; [done|]. constructor; [|done]. split_and!; [cbn; lia|cbn; lia|split; [by apply (lo_good_utc L HL)|done]].
    + apply StronglySorted_snoc; [done|]. apply Forall_forall. intros u Hu. cbn [v record_of_entry hr_Seq].
      apply (Hfresh (history_row L runID u)); [|done]. apply (run_row_in runID). cbn [tb_rows]. rewrite E. by apply list_elem_of_fmap_2.
    + by rewrite Her.
  - exists us. rewrite app_nil_r. done.
Qed.

(** A status flip of a task of a run. *)
Lemma status_text st : settled_status st -> (ValueStatus_String st = "pending" <-> st = ValueStatusPending).
Proof. intros [->|[->| ->]]; done. Qed.

Lemma pending_row runID runID' task u :
  good_value u ->
  matches (value_row L runID u) (pending_of runID' task) =
    String.eqb runID runID' && String.eqb (vr_TaskID u) task && bool_decide (vr_Status u = ValueStatusPending).
Proof.
  intros (_ & _ & Hs).
  change (matches (value_row L runID u) (pending_of runID' task)) with
    (sql_same (SText runID) (SText runID') && (sql_same (SText (vr_TaskID u)) (SText task) &&
     (sql_same (SText (ValueStatus_String (vr_Status u))) (SText "pending") && true))). rewrite !same_text_text, andb_true_r, andb_assoc.
  f_equal. apply eq_true_iff_eq. rewrite String.eqb_eq, bool_decide_eq_true. by apply status_text.
Qed.

Lemma set_status_row runID u st r' :
  kept_field (ly_vc L) "status" (SText (ValueStatus_String st)) ->
  set_fields (ly_vc L) (value_row L runID u) (flip_given st) = Some r' ->
  r' = value_row L runID (mkValueRecord (vr_TaskID u) (vr_ExecutionID u) (vr_Field u) (vr_Value u) st (vr_Timestamp u) (vr_Seq u)).
Proof.
  unfold kept_field, flip_given. cbn [set_fields]. destruct (find_column (ly_vc L) "status") as [c|]; [|done].
  intros ->. by intros [= <-].
Qed.

Lemma cell_set_field r c c' v : c <> c' -> cell (set_field r c v) c' = cell r c'.
Proof.
  intros Hne. unfold cell. induction r as [|[n x] r IH]; [done|]. cbn [set_field]. destruct (String.eqb_spec c n) as [<-|].
  - cbn [field_of]. by rewrite (proj2 (String.eqb_neq c' c)).
  - cbn [field_of]. destruct (String.eqb c' n); [done|exact IH].
Qed.

Lemma set_fields_cell cols r sets r' c :
  Forall (fun p => fst p <> c) sets -> set_fields cols r sets = Some r' -> cell r' c = cell r c.
Proof.
  intros Hs. revert r. induction Hs as [|[n v] sets Hn _ IH]; intros r H; cbn [set_fields] in H; [by injection H as ->|].
  destruct (find_column cols n) as [col|]; [|done]. destruct (keep col v) as [v'|]; [|done].
  rewrite (IH _ H). by apply cell_set_field.
Qed.

Lemma set_status_run st r r' : set_fields (ly_vc L) r (flip_given st) = Some r' -> cell r' "run_id" = cell r "run_id".
Proof. apply set_fields_cell. by constructor. Qed.

Lemma values_rep_flip runID runID' f rows rows' vs :
  sf_NewStatus f = ValueStatusCommitted \/ sf_NewStatus f = ValueStatusAborted ->
  kept_field (ly_vc L) "status" (SText (ValueStatus_String (sf_NewStatus f))) ->
  update_rows (ly_vc L) (flip_given (sf_NewStatus f)) (pending_of runID' (sf_TaskID f)) rows = Some rows' ->
  values_rep runID rows vs ->
  values_rep runID rows' (if String.eqb runID runID' then map (flip_record f) vs else vs).
Proof.
  intros Hst Hk Hu (us & E & Hgood & Hsort & Her).
  pose proof (update_rows_run _ _ _ _ _ Hu (fun r r' _ => set_status_run _ r r') runID) as F. rewrite E in F.
  assert (Hrows : run_rows runID rows' = map (value_row L runID) (if String.eqb runID runID' then map (flip_record f) us else us)).
  { clear - F Hgood Hk BC. remember (map (value_row L runID) us) as l eqn:El. revert us Hgood El.
    induction F as [|r r' l l' H F IH]; intros [|u us] Hgood El; try discriminate El; [by destruct (String.eqb _ _)|].
    injection El as -> ->. apply Forall_cons in Hgood as [Hu Hgood]. rewrite (IH us Hgood eq_refl). rewrite pending_row in H by done.
    destruct (String.eqb runID runID') eqn:Ei; cbn [andb] in H; cbn [map]; f_equal; [|done].
    unfold flip_record. destruct (String.eqb (vr_TaskID u) (sf_TaskID f) && _); [by eapply set_status_row|done]. }
  destruct (String.eqb runID runID'); [|by exists us]. exists (map (flip_record f) us). split_and!; [done| | |].
  - apply Forall_fmap. eapply Forall_impl; [exact Hgood|]. intros u (H1 & H2 & H3). unfold compose, good_value.
    rewrite flip_record_seq. unfold flip_record. destruct (_ && _); [|done]. split_and!; [lia|lia|exact H2|].
    cbn [vr_Status]. unfold settled_status. naive_solver.
  - eapply StronglySorted_map_rel; [|exact Hsort]. intros a b. by rewrite !flip_record_seq.
  - rewrite !map_map. rewrite (map_ext _ (fun v => flip_record f (erase_value v))) by (intros; apply flip_record_erase).
    rewrite (map_ext (fun x => erase_value (flip_record f x)) (fun v => flip_record f (erase_value v))) by (intros; apply flip_record_erase).
    rewrite <- !(map_map erase_value (flip_record f)). by rewrite Her.
Qed.

(** The records of a log one operation longer. *)
Lemma spec_snoc log op :
  Forall valid log -> valid op ->
  spec_values 0 (log ++ [op]) = run_values (apply_op_run (log_run "" None log) op) /\
  spec_history 0 (log ++ [op]) = run_history (apply_op_run (log_run "" None log) op).
Proof. intros Hl Ho. by rewrite <- log_run_snoc. Qed.

Lemma abs_append a op id :
  abs_run (spec_append a op) id =
    if String.eqb id (op_RunID op) then (fst (abs_run a id), snd (abs_run a id) ++ [op]) else abs_run a id.
Proof.
  unfold spec_append. destruct (abs_run a (op_RunID op)) as [m log] eqn:E. rewrite abs_run_insert.
  destruct (String.eqb_spec id (op_RunID op)) as [->|Hne]; [|by rewrite bool_decide_false].
  by rewrite bool_decide_true, E.
Qed.

Lemma meta_same a op id : fst (abs_run (spec_append a op) id) = fst (abs_run a id).
Proof. rewrite abs_append. by destruct (String.eqb _ _). Qed.

Lemma rep_log_append n T a op :
  rep n T a -> valid op ->
  forall id, Forall valid (snd (abs_run (spec_append a op) id)) /\ (length (snd (abs_run (spec_append a op) id)) <= S n)%nat.
Proof.
  intros Hr Ho id. destruct (rep_log _ _ _ Hr id) as [Hv Hl]. rewrite abs_append. destruct (String.eqb _ _); cbn [snd]; [|auto with lia].
  rewrite Forall_app, length_app. split; [auto|]. cbn. lia.
Qed.

Lemma step_insert_inv t given T T' n tb :
  sql_step (Insert t given) T T' n -> T !! t = Some tb ->
  exists id tb', fresh_id tb id /\ inserted tb given id = Some tb' /\ T' = <[t := tb']> T.
Proof. inversion 1; subst. intros E. simplify_eq. eauto. Qed.

Lemma step_update_inv t sets w T T' n tb :
  sql_step (Update t sets w) T T' n -> T !! t = Some tb ->
  exists rows', update_rows (tb_columns tb) sets w (tb_rows tb) = Some rows' /\ T' = <[t := mkSqlTable (tb_columns tb) rows']> T /\
    n = Z.of_nat (length (List.filter (fun r => matches r w) (tb_rows tb))).
Proof.
  inversion 1 as [| | | | | |? ? ? ? ? tb' E1 E2]; subst. intros E. simplify_eq. unfold updated in E2.
  destruct (update_rows _ _ _ _) as [rows'|]; [|done]. injection E2 as <-. eauto.
Qed.

(** An operation that touches only the values, or only the history. *)
Lemma rep_new_values n T a op rows' :
  rep n T a -> valid op ->
  (forall id, values_rep id rows' (if String.eqb id (op_RunID op) then run_values (apply_op_run (log_run "" None (snd (abs_run a id))) op)
                                   else spec_values 0 (snd (abs_run a id)))) ->
  (forall r, run_history (apply_op_run r op) = run_history r) ->
  rep (S n) (<[ly_values L := mkSqlTable (ly_vc L) rows']> T) (spec_append a op).
Proof.
  intros Hr Ho Hv Hh. pose proof (rep_log_append n T a op Hr Ho) as Hlog. destruct names_ne as (N1 & N2 & N3).
  destruct Hr as [(rr & Er & Hrr) _ (rh & Eh & Hrh) Hl]. split; [| | |exact Hlog].
  - exists rr. rewrite lookup_insert_ne by done. split; [done|]. intros id. rewrite meta_same. apply Hrr.
  - exists rows'. rewrite lookup_insert_eq. split; [done|]. intros id. specialize (Hv id). rewrite abs_append.
    destruct (String.eqb id (op_RunID op)); [|done]. cbn [snd]. by rewrite (proj1 (spec_snoc _ _ (proj1 (Hl id)) Ho)).
  - exists rh. rewrite lookup_insert_ne by done. split; [done|]. intros id. rewrite abs_append.
    destruct (String.eqb id (op_RunID op)); [|done]. cbn [snd]. rewrite (proj2 (spec_snoc _ _ (proj1 (Hl id)) Ho)), Hh. apply Hrh.
Qed.

Lemma rep_new_history n T a op rows' :
  rep n T a -> valid op ->
  (forall id, history_rep id rows' (if String.eqb id (op_RunID op) then run_history (apply_op_run (log_run "" None (snd (abs_run a id))) op)
                                    else spec_history 0 (snd (abs_run a id)))) ->
  (forall r, run_values (apply_op_run r op) = run_values r) ->
  rep (S n) (<[ly_history L := mkSqlTable (ly_hc L) rows']> T) (spec_append a op).
Proof.
  intros Hr Ho Hh Hv. pose proof (rep_log_append n T a op Hr Ho) as Hlog. destruct names_ne as (N1 & N2 & N3).
  destruct Hr as [(rr & Er & Hrr) (rv & Ev & Hrv) _ Hl]. split; [| | |exact Hlog].
  - exists rr. rewrite lookup_insert_ne by done. split; [done|]. intros id. rewrite meta_same. apply Hrr.
  - exists rv. rewrite lookup_insert_ne by done. split; [done|]. intros id. rewrite abs_append.
    destruct (String.eqb id (op_RunID op)); [|done]. cbn [snd]. rewrite (proj1 (spec_snoc _ _ (proj1 (Hl id)) Ho)), Hv. apply Hrv.
  - exists rows'. rewrite lookup_insert_eq. split; [done|]. intros id. specialize (Hh id). rewrite abs_append.
    destruct (String.eqb id (op_RunID op)); [|done]. cbn [snd]. by rewrite (proj2 (spec_snoc _ _ (proj1 (Hl id)) Ho)).
Qed.

(** Every operation of a batch. *)
Lemma rep_op n T T' a op s k :
  rep n T a -> valid op -> storable op -> op_stmt L op = Some s -> sql_step s T T' k ->
  rep (S n) T' (spec_append a (canon_op op)).
Proof.
  intros Hr Ho Hs Hst Hstep. pose proof (proj2 (valid_canon op) Ho) as Hc.
  destruct (rep_values _ _ _ Hr) as (rv & Ev & Hrv), (rep_history _ _ _ Hr) as (rh & Eh & Hrh).
  destruct op as [runID kind w f h]. unfold op_stmt, storable in Hst, Hs. cbn [op_Kind op_ValueWrite op_StatusFlip op_HistoryEntry op_RunID] in *.
  destruct kind; [destruct w as [w|]|destruct f as [f|]|destruct h as [h|]|]; try done; injection Hst as <-.
  - destruct Hs as [Hk Hg]. destruct (step_insert_inv _ _ _ _ _ _ Hstep Ev) as (id & tb' & Hf & Hi & ->).
    rewrite (inserted_rows _ _ _ _ _ Hi (new_row_value _ _ _ Hk)). apply rep_new_values; [done|done| |done].
    intros id'. apply (values_rep_insert id' runID w id rv _ _ Hg Hf (Hrv id')).
  - destruct (step_update_inv _ _ _ _ _ _ _ Hstep Ev) as (rows' & Hu & -> & _). apply rep_new_values; [done|done| |done].
    intros id'. apply (values_rep_flip id' runID f rv rows' _); [by eapply valid_flip|exact Hs|exact Hu|apply Hrv].
  - destruct Hs as [Hk Hg]. destruct (step_insert_inv _ _ _ _ _ _ Hstep Eh) as (id & tb' & Hf & Hi & ->).
    rewrite (inserted_rows _ _ _ _ _ Hi (new_row_history _ _ _ Hk)). apply rep_new_history; [done|done| |done].
    intros id'. apply (history_rep_insert id' runID h id rh _ _ Hg Hf (Hrh id')).
Qed.

(** ** Metadata *)

Definition canon_meta (m : RunMetadata) : RunMetadata :=
  mkRunMetadata (rm_RunID m) (rm_ProcessID m) (rm_ProcessVersion m) (rm_Status m)
    (option_map utc (rm_PublishedAt m)) (option_map utc (rm_StartedAt m)) (option_map utc (rm_CompletedAt m)) (rm_EvaluationCount m).

Definition storable_meta (m : RunMetadata) : Prop :=
  kept (ly_rc L) (meta_row L m) /\
  Forall (ly_good L) (option_list (rm_PublishedAt m) ++ option_list (rm_StartedAt m) ++ option_list (rm_CompletedAt m)) /\
  - 2 ^ 63 <= rm_EvaluationCount m < 2 ^ 63.

Lemma null_or_utc t : null_or (ly_enc L) (option_map utc t) = null_or (ly_enc L) t.
Proof. destruct t; [apply (lo_enc_utc L HL)|done]. Qed.

Lemma meta_row_canon m : meta_row L (canon_meta m) = meta_row L m.
Proof. unfold meta_row. cbn [canon_meta rm_RunID rm_ProcessID rm_ProcessVersion rm_Status rm_PublishedAt rm_StartedAt rm_CompletedAt rm_EvaluationCount]. by rewrite !null_or_utc. Qed.

Lemma good_canon_meta m : storable_meta m -> good_meta (canon_meta m).
Proof.
  intros (_ & Ht & Hc). split; [|exact Hc].
  assert (H : forall t, Forall (ly_good L) (option_list t) -> Forall good_time (option_list (option_map utc t))).
  { intros [t|] H; [|constructor]. cbn in H |- *. apply Forall_cons in H as [H _]. constructor; [|constructor]. split; [by apply (lo_good_utc L HL)|done]. }
  rewrite !Forall_app in *. cbn [canon_meta rm_PublishedAt rm_StartedAt rm_CompletedAt]. naive_solver.
Qed.

(** The abstract store after a save. *)
Definition saved (a : AbsStore) (m : RunMetadata) : AbsStore := <[rm_RunID m := (Some m, snd (abs_run a (rm_RunID m)))]> a.

Lemma rep_new_meta n T a m rows' :
  rep n T a ->
  (forall id, run_meta_rows id rows' (if String.eqb id (rm_RunID m) then Some m else fst (abs_run a id))) ->
  rep n (<[ly_runs L := mkSqlTable (ly_rc L) rows']> T) (saved a m).
Proof.
  intros [_ (rv & Ev & Hrv) (rh & Eh & Hrh) Hl] Hm. destruct names_ne as (N1 & N2 & N3).
  assert (Ha : forall id, abs_run (saved a m) id = (if String.eqb id (rm_RunID m) then Some m else fst (abs_run a id), snd (abs_run a id))).
  { intros id. unfold saved. rewrite abs_run_insert. destruct (String.eqb_spec id (rm_RunID m)) as [->|]; [by rewrite bool_decide_true|].
    rewrite bool_decide_false by done. by destruct (abs_run a id). }
  split.
  - exists rows'. rewrite lookup_insert_eq. split; [done|]. intros id. rewrite Ha. apply Hm.
  - exists rv. rewrite lookup_insert_ne by done. split; [done|]. intros id. rewrite Ha. apply Hrv.
  - exists rh. rewrite lookup_insert_ne by done. split; [done|]. intros id. rewrite Ha. apply Hrh.
  - intros id. rewrite Ha. apply Hl.
Qed.

Lemma rep_insert_meta n T T' a m k rows :
  rep n T a -> storable_meta m -> T !! ly_runs L = Some (mkSqlTable (ly_rc L) rows) -> run_rows (rm_RunID m) rows = [] ->
  sql_step (Insert (ly_runs L) (meta_row L m)) T T' k -> rep n T' (saved a (canon_meta m)).
Proof.
  intros Hr Hs Er He Hstep. destruct (step_insert_inv _ _ _ _ _ _ Hstep Er) as (id & tb' & _ & Hi & ->).
  rewrite (inserted_rows _ _ _ _ _ Hi (new_row_meta _ _ (proj1 Hs))). cbn [tb_columns tb_rows]. apply rep_new_meta; [done|].
  destruct (rep_runs _ _ _ Hr) as (rr & Er' & Hrr). rewrite Er in Er'. injection Er' as <-.
  intros id'. unfold run_meta_rows. rewrite run_rows_app, (run_rows_one id' (rm_RunID m)) by done. cbn [canon_meta rm_RunID].
  destruct (String.eqb_spec id' (rm_RunID m)) as [->|]; [|rewrite app_nil_r; apply Hrr].
  rewrite He, meta_row_canon. split; [done|]. intros ? [= <-]. split; [done|by apply good_canon_meta].
Qed.

Lemma set_fields_kept cols r sets r' :
  (forall c v col, (c, v) ∈ sets -> find_column cols c = Some col -> keep col v = Some v) ->
  set_fields cols r sets = Some r' -> r' = fold_left (fun r p => set_field r (fst p) (snd p)) sets r.
Proof.
  revert r. induction sets as [|[c v] sets IH]; intros r Hk H; cbn [set_fields fold_left] in *; [by injection H|].
  destruct (find_column cols c) as [col|] eqn:E; [|done]. rewrite (Hk c v col) in H by (exact E || by apply elem_of_cons; left).
  apply IH; [|done]. intros c' v' col' Hin. apply Hk. apply elem_of_cons. by right.
Qed.

Lemma set_meta m0 m r' :
  kept (ly_rc L) (meta_row L m) -> rm_RunID m0 = rm_RunID m ->
  set_fields (ly_rc L) (meta_row L m0) (tl (meta_row L m)) = Some r' -> r' = meta_row L m.
Proof.
  intros Hk Hid H. apply set_fields_kept in H; [|].
  - rewrite H. unfold meta_row. rewrite Hid. reflexivity.
  - intros c v col Hin Hf. apply find_some in Hf as [Hcol Hname%String.eqb_eq]. subst c.
    unfold kept in Hk. rewrite Forall_forall in Hk. specialize (Hk col ltac:(by apply list_elem_of_In)).
    assert (E : field_of (meta_row L m) (c_name col) = Some v); [|by rewrite E in Hk].
    unfold meta_row in Hin. cbn [tl] in Hin.
    repeat (apply elem_of_cons in Hin as [[= -> ->]|Hin]; [reflexivity|]). by apply elem_of_nil in Hin.
Qed.

Lemma rep_update_meta n T T' a m k rows :
  rep n T a -> storable_meta m -> T !! ly_runs L = Some (mkSqlTable (ly_rc L) rows) -> run_rows (rm_RunID m) rows <> [] ->
  sql_step (Update (ly_runs L) (tl (meta_row L m)) (of_run (rm_RunID m))) T T' k -> rep n T' (saved a (canon_meta m)).
Proof.
  intros Hr Hs Er He Hstep. destruct (step_update_inv _ _ _ _ _ _ _ Hstep Er) as (rows' & Hu & -> & _). cbn [tb_columns tb_rows] in *.
  apply rep_new_meta; [done|]. destruct (rep_runs _ _ _ Hr) as (rr & Er' & Hrr). rewrite Er in Er'. injection Er' as <-.
  assert (Hrun : forall r r', matches r (of_run (rm_RunID m)) = true ->
    set_fields (ly_rc L) r (tl (meta_row L m)) = Some r' -> cell r' "run_id" = cell r "run_id").
  { intros r r' _. apply set_fields_cell. by repeat constructor. }
  intros id. cbn [canon_meta rm_RunID]. destruct (String.eqb_spec id (rm_RunID m)) as [->|Hne].
  - split; [|intros ? [= <-]; split; [done|by apply good_canon_meta]]. rewrite meta_row_canon.
    pose proof (update_rows_run _ _ _ _ _ Hu Hrun (rm_RunID m)) as F. destruct (Hrr (rm_RunID m)) as [E Hm].
    destruct (fst (abs_run a (rm_RunID m))) as [m0|] eqn:Em; [|by rewrite E in He]. rewrite E in F.
    inversion F as [|? r' ? l' H F' E1 E2]; subst. inversion F'; subst. destruct (Hm m0 eq_refl) as [Hid _].
    rewrite (proj2 (run_row_iff (rm_RunID m) (meta_row L m0))) in H by (cbn; congruence).
    by rewrite (set_meta m0 m r' (proj1 Hs) Hid H).
  - destruct (Hrr id) as [E Hm]. split; [|exact Hm].
    rewrite (update_rows_other _ _ _ _ _ id Hu Hrun); [exact E|]. intros r Hr1%run_row_iff Hr2. congruence.
Qed.

(** The statement of [Save] in the stores that can upsert. *)
Lemma rep_upsert n T T' a m k :
  rep n T a -> storable_meta m ->
  sql_step (Upsert (ly_runs L) "run_id" (meta_row L m)) T T' k -> rep n T' (saved a (canon_meta m)).
Proof.
  intros Hr Hs Hstep. destruct (rep_runs _ _ _ Hr) as (rr & Er & _).
  assert (Hw : on_key "run_id" (meta_row L m) = of_run (rm_RunID m)) by reflexivity.
  inversion Hstep as [| | | |t key given T0 tb id tb' n' E Hex Hf Hi|t key given T0 tb tb' n' E Hex Hu|]; subst;
    rewrite Er in E; injection E as <-; rewrite Hw in *; cbn [tb_rows] in *.
  - eapply (rep_insert_meta n T _ a m 1); [done|done|done| |by econstructor].
    unfold run_rows. destruct (List.filter _ rr) as [|r l] eqn:E; [done|]. exfalso.
    assert (Hin : List.In r (r :: l)) by (by left). rewrite <- E in Hin. apply filter_In in Hin as [Hin Hm].
    apply not_true_iff_false in Hex. apply Hex, existsb_exists. eauto.
  - eapply (rep_update_meta n T _ a m _); [done|done|done| |by econstructor].
    apply existsb_exists in Hex as (r & Hin & Hm). intros E.
    assert (H : List.In r (run_rows (rm_RunID m) rr)) by (by apply filter_In). by rewrite E in H.
Qed.

End Laws.

(** * What the queries of the SQL stores answer

    Under the relation of [SqlLaws] every query a store makes is answered from
    the log of the run: metadata, counts, records in replay order, and the latest
    committed value of every field. *)

From Stdlib Require Import Sorted.
From stdpp Require Import sorting.
#[global] Open Scope Z_scope.

(** [Scan] of the rows of a list. *)
Lemma result_map_rows {A B C} (f : B -> result C) (g : A -> B) (h : A -> C) l :
  Forall (fun x => f (g x) = Ok (h x)) l -> result_map f (map g l) = Ok (map h l).
Proof. induction 1 as [|x l Hx _ IH]; [done|]. cbn [map result_map]. rewrite Hx. cbn [result_bind]. by rewrite IH. Qed.

Lemma bytes_of_text b : bytes_of (text_of b) = b.
Proof. apply String.list_byte_of_string_of_list_byte. Qed.

Section Reads.
Context {ST : SqlTypes} {BC : BinaryCollation ST} {SL : ScanLaws ST}.
Variable L : Layout.
Hypothesis HL : layout_ok L.
Abbreviation rep := (rep L).

(** ** Rows are read back *)

Lemma scan_null_time t :
  Forall (good_time L) (option_list t) -> scan_null (ly_dec L) (null_or (ly_enc L) t) = Ok t.
Proof.
  destruct t as [t|]; [|done]. intros H. apply Forall_cons in H as [[Hg Hu] _]. cbn [null_or].
  pose proof (lo_enc_some L HL t) as Hn. unfold scan_null. rewrite (lo_dec L HL) by done. rewrite Hu. by destruct (ly_enc L t).
Qed.

Lemma scan_meta_row m : good_meta L m -> scan_meta (ly_dec L) (rm_RunID m) (project meta_columns (meta_row L m)) = Ok m.
Proof.
  intros [Ht Hc]. rewrite !Forall_app in Ht. destruct Ht as (H1 & H2 & H3).
  unfold scan_meta. change (cell (project meta_columns (meta_row L m)) "process_id") with (SText (rm_ProcessID m)).
  change (cell (project meta_columns (meta_row L m)) "process_version") with (SText (rm_ProcessVersion m)).
  change (cell (project meta_columns (meta_row L m)) "status") with (SText (rm_Status m)).
  change (cell (project meta_columns (meta_row L m)) "published_at") with (null_or (ly_enc L) (rm_PublishedAt m)).
  change (cell (project meta_columns (meta_row L m)) "started_at") with (null_or (ly_enc L) (rm_StartedAt m)).
  change (cell (project meta_columns (meta_row L m)) "completed_at") with (null_or (ly_enc L) (rm_CompletedAt m)).
  change (cell (project meta_columns (meta_row L m)) "evaluation_count") with (SInt (rm_EvaluationCount m)).
  rewrite !scan_string_text, !scan_null_time, scan_int64_int by done. cbn [result_bind]. by destruct m.
Qed.

Lemma parse_settled st : settled_status st -> ParseValueStatus (ValueStatus_String st) = Ok st.
Proof. intros [->|[->| ->]]; done. Qed.

Lemma scan_value_row runID v : good_value L v -> scan_value (ly_dec L) (project value_columns (value_row L runID v)) = Ok v.
Proof.
  intros (Hs & [Hg Hu] & Hst). unfold scan_value. set (r := project value_columns (value_row L runID v)).
  change (cell r "id") with (SInt (vr_Seq v)). change (cell r "task_id") with (SText (vr_TaskID v)).
  change (cell r "execution_id") with (SText (vr_ExecutionID v)). change (cell r "field") with (SText (vr_Field v)).
  change (cell r "value") with (SText (text_of (vr_Value v))). change (cell r "status") with (SText (ValueStatus_String (vr_Status v))).
  change (cell r "ts") with (ly_enc L (vr_Timestamp v)).
  rewrite scan_uint64_int by lia. rewrite !scan_string_text, (lo_dec L HL) by done. cbn [result_bind].
  rewrite parse_settled by done. cbn [result_bind]. rewrite bytes_of_text, Hu. by destruct v.
Qed.

Lemma scan_null_text s : scan_null scan_string (null_or SText s) = Ok s.
Proof. destruct s as [s|]; [|done]. cbn [null_or scan_null]. by rewrite scan_string_text. Qed.

Lemma scan_history_row runID h : good_history L h -> scan_history (ly_dec L) (project history_columns (history_row L runID h)) = Ok h.
Proof.
  intros (Hs & [Hg Hu]). unfold scan_history. set (r := project history_columns (history_row L runID h)).
  change (cell r "id") with (SInt (hr_Seq h)). change (cell r "kind") with (SText (hr_Kind h)).
  change (cell r "node_id") with (null_or SText (hr_NodeID h)). change (cell r "execution_id") with (SText (hr_ExecutionID h)).
  change (cell r "payload") with (SText (text_of (hr_Payload h))). change (cell r "ts") with (ly_enc L (hr_Timestamp h)).
  rewrite scan_uint64_int by lia. rewrite !scan_string_text, scan_null_text, (lo_dec L HL) by done. cbn [result_bind].
  rewrite bytes_of_text, Hu. by destruct h.
Qed.

(** ** Metadata and counts *)

Lemma rows_where_run T t tb runID : T !! t = Some tb -> rows_where T t (of_run runID) = run_rows runID (tb_rows tb).
Proof. intros E. unfold rows_where. by rewrite E. Qed.

Lemma answer_meta n T a id rows :
  rep n T a -> sql_answer (Select meta_columns (ly_runs L) (of_run id) []) T rows ->
  match fst (abs_run a id) with
  | Some m => exists r, rows = [r] /\ scan_meta (ly_dec L) id r = Ok m
  | None => rows = []
  end.
Proof.
  intros Hr (l & Hp & _ & ->). destruct (rep_runs _ _ _ _ Hr) as (rr & Er & Hrr). rewrite (rows_where_run _ _ _ _ Er) in Hp.
  destruct (Hrr id) as [E Hm]. cbn [tb_rows] in Hp. rewrite E in Hp. destruct (fst (abs_run a id)) as [m|].
  - apply Permutation_singleton_r in Hp as ->. destruct (Hm m eq_refl) as [<- Hg]. eexists. split; [done|]. by apply scan_meta_row.
  - by apply Permutation_nil_r in Hp as ->.
Qed.

Lemma spec_lengths log seq : (length (spec_values seq log) + length (spec_history seq log) <= length log)%nat.
Proof.
  revert seq. induction log as [|op log IH]; intros seq; cbn [spec_values spec_history length]; [lia|].
  pose proof (IH seq). pose proof (IH (uint64 (seq + 1))).
  destruct (op_Kind op), (op_ValueWrite op), (op_HistoryEntry op); cbn [length]; lia.
Qed.

Lemma answer_count n T a id rows :
  rep n T a -> Z.of_nat n < 2 ^ 63 -> fst (abs_run a id) = None ->
  sql_answer (CountRows [ly_values L; ly_history L] (of_run id)) T rows ->
  exists r k, rows = [r] /\ scan_int64 (cell r "count") = Ok k /\ (0 <? k) = known (abs_run a id).
Proof.
  intros Hr Hn Hm ->. destruct (rep_values _ _ _ _ Hr) as (rv & Ev & Hrv), (rep_history _ _ _ _ Hr) as (rh & Eh & Hrh).
  cbn [map concat]. rewrite (rows_where_run _ _ _ _ Ev), (rows_where_run _ _ _ _ Eh). cbn [tb_rows].
  destruct (Hrv id) as (us & -> & _ & _ & Eu%(f_equal length)), (Hrh id) as (hs & -> & _ & _ & Ehs%(f_equal length)).
  rewrite !length_map in Eu, Ehs. rewrite !length_app, !length_map. cbn [length]. rewrite Eu, Ehs, Nat.add_0_r.
  destruct (rep_log _ _ _ _ Hr id) as [_ Hl]. pose proof (spec_lengths (snd (abs_run a id)) 0) as Hlen.
  eexists _, _. split; [done|]. split; [apply scan_int64_int; lia|]. unfold known. rewrite Hm. cbn [orb].
  destruct (spec_values 0 _), (spec_history 0 _); cbn [length orb]; apply eq_true_iff_eq; rewrite ?Z.ltb_lt; try done; split; try done; lia.
Qed.

(** ** Replay order *)

Lemma value_order runID u v :
  good_value L u -> good_value L v ->
  (order_compare ["ts"; "id"] (value_row L runID u) (value_row L runID v) <= 0 <-> value_less v u = false).
Proof.
  intros (_ & [Hu _] & _) (_ & [Hv _] & _). cbn [order_compare].
  change (cell (value_row L runID u) "ts") with (ly_enc L (vr_Timestamp u)). change (cell (value_row L runID v) "ts") with (ly_enc L (vr_Timestamp v)).
  change (cell (value_row L runID u) "id") with (SInt (vr_Seq u)). change (cell (value_row L runID v) "id") with (SInt (vr_Seq v)).
  rewrite (lo_order L HL) by done. unfold value_less. rewrite <- not_true_iff_false, replay_less_true.
  pose proof (TimeCompare_antisym (vr_Timestamp u) (vr_Timestamp v)) as Ha. cbn [sql_compare].
  destruct (Z.eqb_spec (TimeCompare (vr_Timestamp u) (vr_Timestamp v)) 0); repeat (case_match; zbool); lia.
Qed.

Lemma history_order runID u v :
  good_history L u -> good_history L v ->
  (order_compare ["ts"; "id"] (history_row L runID u) (history_row L runID v) <= 0 <-> history_less v u = false).
Proof.
  intros (_ & [Hu _]) (_ & [Hv _]). cbn [order_compare].
  change (cell (history_row L runID u) "ts") with (ly_enc L (hr_Timestamp u)). change (cell (history_row L runID v) "ts") with (ly_enc L (hr_Timestamp v)).
  change (cell (history_row L runID u) "id") with (SInt (hr_Seq u)). change (cell (history_row L runID v) "id") with (SInt (hr_Seq v)).
  rewrite (lo_order L HL) by done. unfold history_less. rewrite <- not_true_iff_false, replay_less_true.
  pose proof (TimeCompare_antisym (hr_Timestamp u) (hr_Timestamp v)) as Ha. cbn [sql_compare].
  destruct (Z.eqb_spec (TimeCompare (hr_Timestamp u) (hr_Timestamp v)) 0); repeat (case_match; zbool); lia.
Qed.

(** A sorted answer lists the records in replay order. *)
Lemma answer_sorted {A} (row : A -> Row) (less : A -> A -> bool) `{!StrictWeakOrder less} (cols : list string) (l : list Row) (us : list A) :
  l ≡ₚ map row us -> StronglySorted (fun a b => order_compare cols a b <= 0) l ->
  (forall u v, u ∈ us -> v ∈ us -> (order_compare cols (row u) (row v) <= 0 <-> less v u = false)) ->
  (forall u v, u ∈ us -> v ∈ us -> less u v = false -> less v u = false -> u = v) ->
  l = map row (slice_stable less us).
Proof.
  intros Hp Hs Ho Hu. pose proof (slice_stable_perm less us) as Hq.
  assert (Hin : forall u, u ∈ slice_stable less us -> u ∈ us) by (intros u; by rewrite Hq).
  apply (StronglySorted_unique_strong (fun a b => order_compare cols a b <= 0)).
  - intros x y Hx Hy H1 H2. rewrite Hp in Hx. apply list_elem_of_fmap in Hx as (u & -> & Hx).
    apply list_elem_of_fmap in Hy as (v & -> & Hy). apply Hin in Hy. f_equal.
    apply Hu; [done|done|by apply Ho|by apply Ho].
  - done.
  - pose proof (slice_stable_sorted less us) as Hsort. revert Hin. clear - Hsort Ho.
    induction Hsort as [|u l Hl IH Hall]; intros Hin; cbn [map]; constructor; [apply IH; set_solver|].
    apply Forall_fmap. rewrite Forall_forall in Hall |- *. intros v Hv. apply Ho; [apply Hin; set_solver..|]. by apply Hall.
  - by rewrite Hp, Hq.
Qed.

Lemma value_ties us u v :
  StronglySorted (fun a b => vr_Seq a < vr_Seq b) us -> u ∈ us -> v ∈ us -> value_less u v = false -> value_less v u = false -> u = v.
Proof.
  intros Hs Hu Hv H1 H2. apply (seq_unique vr_Seq us); [done..|]. unfold value_less in *. rewrite <- not_true_iff_false, replay_less_true in H1, H2.
  pose proof (TimeCompare_antisym (vr_Timestamp u) (vr_Timestamp v)). lia.
Qed.

Lemma history_ties us u v :
  StronglySorted (fun a b => hr_Seq a < hr_Seq b) us -> u ∈ us -> v ∈ us -> history_less u v = false -> history_less v u = false -> u = v.
Proof.
  intros Hs Hu Hv H1 H2. apply (seq_unique hr_Seq us); [done..|]. unfold history_less in *. rewrite <- not_true_iff_false, replay_less_true in H1, H2.
  pose proof (TimeCompare_antisym (hr_Timestamp u) (hr_Timestamp v)). lia.
Qed.

Lemma spec_sorted n T a id :
  rep n T a -> Z.of_nat n < 2 ^ 63 ->
  StronglySorted (fun a b => vr_Seq a < vr_Seq b) (spec_values 0 (snd (abs_run a id))) /\
  StronglySorted (fun a b => hr_Seq a < hr_Seq b) (spec_history 0 (snd (abs_run a id))).
Proof.
  intros Hr Hn. destruct (rep_log _ _ _ _ Hr id) as [_ Hl]. 
  exact (log_run_increasing "" None (snd (abs_run a id)) ltac:(lia)).
Qed.

(** The value records a query finds, then the history records. *)
Lemma answer_values n T a id rows :
  rep n T a -> Z.of_nat n < 2 ^ 63 -> sql_answer (Select value_columns (ly_values L) (of_run id) ["ts"; "id"]) T rows ->
  exists vs, result_map (scan_value (ly_dec L)) rows = Ok vs /\
    map erase_value vs = map erase_value (SortValueRecords (spec_values 0 (snd (abs_run a id)))).
Proof.
  intros Hr Hn (l & Hp & Hs & ->). destruct (spec_sorted n T a id Hr Hn) as [Hsp _].
  destruct (rep_values _ _ _ _ Hr) as (rv & Ev & Hrv). rewrite (rows_where_run _ _ _ _ Ev) in Hp. cbn [tb_rows] in Hp.
  destruct (Hrv id) as (us & E & Hg & Hsort & Her). rewrite E in Hp. rewrite Forall_forall in Hg.
  rewrite (answer_sorted (value_row L id) value_less ["ts"; "id"] l us Hp Hs);
    [|intros u v Hu Hv; by apply value_order; apply Hg|intros u v; by apply value_ties].
  exists (slice_stable value_less us). split; [|by apply replay_values_alike].
  rewrite map_map. rewrite (result_map_rows _ _ (fun v => v)); [by rewrite map_id|].
  apply Forall_forall. intros v Hv. rewrite slice_stable_perm in Hv. by apply scan_value_row, Hg.
Qed.

Lemma answer_history n T a id rows :
  rep n T a -> Z.of_nat n < 2 ^ 63 -> sql_answer (Select history_columns (ly_history L) (of_run id) ["ts"; "id"]) T rows ->
  exists hs, result_map (scan_history (ly_dec L)) rows = Ok hs /\
    map erase_history hs = map erase_history (SortHistoryRecords (spec_history 0 (snd (abs_run a id)))).
Proof.
  intros Hr Hn (l & Hp & Hs & ->). destruct (spec_sorted n T a id Hr Hn) as [_ Hsp].
  destruct (rep_history _ _ _ _ Hr) as (rh & Eh & Hrh). rewrite (rows_where_run _ _ _ _ Eh) in Hp. cbn [tb_rows] in Hp.
  destruct (Hrh id) as (us & E & Hg & Hsort & Her). rewrite E in Hp. rewrite Forall_forall in Hg.
  rewrite (answer_sorted (history_row L id) history_less ["ts"; "id"] l us Hp Hs);
    [|intros u v Hu Hv; by apply history_order; apply Hg|intros u v; by apply history_ties].
  exists (slice_stable history_less us). split; [|by apply replay_history_alike].
  rewrite map_map. rewrite (result_map_rows _ _ (fun v => v)); [by rewrite map_id|].
  apply Forall_forall. intros v Hv. rewrite slice_stable_perm in Hv. by apply scan_history_row, Hg.
Qed.


(** ** The latest committed values *)

Definition put (m : gmap string (gmap string bytes)) (v : ValueRecord) : gmap string (gmap string bytes) :=
  <[vr_TaskID v := <[vr_Field v := vr_Value v]> (default ∅ (m !! vr_TaskID v))]> m.
Definition committed (v : ValueRecord) : bool := bool_decide (vr_Status v = ValueStatusCommitted).
Definition at_field (t f : string) (v : ValueRecord) : bool := String.eqb t (vr_TaskID v) && String.eqb f (vr_Field v).

Lemma fold_value_put vs m : fold_left fold_value vs m = fold_left put (List.filter committed vs) m.
Proof.
  revert m. induction vs as [|v vs IH]; intros m; [done|]. cbn [fold_left List.filter]. rewrite IH.
  unfold fold_value. fold (committed v). by destruct (committed v).
Qed.

Lemma fold_rows_put id us m :
  fold_rows (map (project latest_columns) (map (value_row L id) us)) m = Ok (fold_left put us m).
Proof.
  revert m. induction us as [|u us IH]; intros m; [done|]. cbn [map fold_rows fold_left].
  set (r := project latest_columns (value_row L id u)). change (cell r "task_id") with (SText (vr_TaskID u)).
  change (cell r "field") with (SText (vr_Field u)). change (cell r "value") with (SText (text_of (vr_Value u))).
  rewrite !scan_string_text. cbn [result_bind]. rewrite bytes_of_text. apply IH.
Qed.

Lemma find_rev_snoc {A} (P : A -> bool) l x : List.find P (rev (l ++ [x])) = if P x then Some x else List.find P (rev l).
Proof. by rewrite rev_app_distr. Qed.

Lemma put_get us m t f :
  fold_left put us m !! t ≫= (fun i => i !! f) =
    match List.find (at_field t f) (rev us) with Some v => Some (vr_Value v) | None => m !! t ≫= (fun i => i !! f) end.
Proof.
  induction us as [|v us IH] using rev_ind; [done|]. rewrite fold_left_app, find_rev_snoc. cbn [fold_left].
  set (m' := fold_left put us m) in *. unfold put, at_field. destruct (String.eqb_spec t (vr_TaskID v)) as [->|Hne]; cbn [andb].
  - rewrite lookup_insert_eq. cbn [mbind option_bind]. destruct (String.eqb_spec f (vr_Field v)) as [->|Hf]; [by rewrite lookup_insert_eq|].
    rewrite lookup_insert_ne by done. etransitivity; [|exact IH]. by destruct (m' !! vr_TaskID v).
  - by rewrite lookup_insert_ne.
Qed.

Definition filled (m : gmap string (gmap string bytes)) : Prop := forall t i, m !! t = Some i -> i <> ∅.

Lemma put_filled us m : filled m -> filled (fold_left put us m).
Proof.
  revert m. induction us as [|v us IH]; intros m Hm; [done|]. cbn [fold_left]. apply IH. intros t i. unfold put.
  destruct (decide (vr_TaskID v = t)) as [<-|Hne]; [rewrite lookup_insert_eq; intros [= <-]; apply insert_non_empty|].
  rewrite lookup_insert_ne by done. apply Hm.
Qed.

Lemma filled_ext m m' :
  filled m -> filled m' -> (forall t f, m !! t ≫= (fun i => i !! f) = m' !! t ≫= (fun i => i !! f)) -> m = m'.
Proof.
  intros Hm Hm' H. apply map_eq. intros t. specialize (H t).
  destruct (m !! t) as [i|] eqn:E, (m' !! t) as [i'|] eqn:E'; [|exfalso|exfalso|done]; cbn in H.
  - f_equal. by apply map_eq.
  - apply Hm in E. apply map_choose in E as (f & x & Hx). specialize (H f). by rewrite Hx in H.
  - apply Hm' in E'. apply map_choose in E' as (f & x & Hx). specialize (H f). by rewrite Hx in H.
Qed.

(** The last of the elements of a sorted list that satisfy a test. *)
Lemma find_last {A} (less : A -> A -> bool) `{!StrictWeakOrder less} (P : A -> bool) l x :
  sorted less l -> List.find P (rev l) = Some x ->
  x ∈ l /\ P x = true /\ forall y, y ∈ l -> P y = true -> less x y = false.
Proof.
  intros Hs. induction l as [|z l IH] using rev_ind; [done|]. rewrite find_rev_snoc.
  assert (Hl : sorted less l /\ forall y, y ∈ l -> less z y = false).
  { clear IH. induction l as [|y l IHl]; [split; [constructor|by intros ? ?%elem_of_nil]|].
    inversion_clear Hs as [|? ? Hs' Ha]. rewrite Forall_forall in Ha. destruct (IHl Hs') as [H1 H2]. split.
    - constructor; [done|]. apply Forall_forall. intros w Hw. apply Ha. set_solver.
    - intros w [->|Hw]%elem_of_cons; [apply Ha; set_solver|by apply H2]. }
  destruct Hl as [Hl Hz]. destruct (P z) eqn:E.
  - intros [= ->]. split_and!; [set_solver|done|]. intros y [Hy|Hy%list_elem_of_singleton]%elem_of_app _; [by apply Hz|]. subst. apply swo_irrefl.
  - intros H. destruct (IH Hl H) as (H1 & H2 & H3). split_and!; [set_solver|done|].
    intros y [Hy|Hy%list_elem_of_singleton]%elem_of_app HP; [by apply H3|]. subst. congruence.
Qed.

Lemma find_rev_none {A} (P : A -> bool) l : List.find P (rev l) = None <-> forall y, y ∈ l -> P y = false.
Proof.
  split.
  - intros H y Hy. apply (find_none _ _ H). apply in_rev. rewrite rev_involutive. by apply list_elem_of_In.
  - intros H. destruct (List.find P (rev l)) as [x|] eqn:E; [|done]. apply find_some in E as [Hin HP]. apply in_rev, list_elem_of_In, H in Hin. congruence.
Qed.

(** Folding the records that are last of their field, in any order, is folding
    all of them in replay order. *)
Lemma latest_fold us l :
  StronglySorted (fun a b => vr_Seq a < vr_Seq b) us ->
  (forall x, x ∈ l <-> x ∈ us /\ forall y, y ∈ us -> at_field (vr_TaskID x) (vr_Field x) y = true -> value_less x y = false) ->
  fold_left put l ∅ = fold_left put (slice_stable value_less us) ∅.
Proof.
  intros Hs Hl. apply filled_ext; [by apply put_filled..|]. intros t f. rewrite !put_get.
  assert (Hk : forall x y, at_field t f x = true -> at_field t f y = true -> at_field (vr_TaskID x) (vr_Field x) y = true).
  { intros x y. unfold at_field. rewrite !andb_true_iff, !String.eqb_eq. naive_solver. }
  destruct (List.find (at_field t f) (rev (slice_stable value_less us))) as [x|] eqn:E.
  - destruct (find_last value_less _ _ _ (slice_stable_sorted _ _) E) as (Hx & HPx & Hlast). rewrite slice_stable_perm in Hx.
    assert (Hxl : x ∈ l).
    { apply Hl. split; [done|]. intros y Hy Hyk. apply Hlast; [by rewrite slice_stable_perm|].
      revert HPx Hyk. unfold at_field. rewrite !andb_true_iff, !String.eqb_eq. naive_solver. }
    destruct (List.find (at_field t f) (rev l)) as [y|] eqn:E'; [|by rewrite (proj1 (find_rev_none _ _) E' x Hxl) in HPx].
    apply find_some in E' as [Hy HPy]. apply in_rev, list_elem_of_In, Hl in Hy as [Hy Hylast].
    replace y with x; [done|]. apply (value_ties us); [done..|by apply Hlast; [rewrite slice_stable_perm|]|by apply Hylast; [|apply Hk]].
  - pose proof (proj1 (find_rev_none _ _) E) as Hnone.
    rewrite (proj2 (find_rev_none (at_field t f) l)); [done|]. intros y [Hy _]%Hl. apply Hnone. by rewrite slice_stable_perm.
Qed.


Lemma filter_filter {A} (P Q : A -> bool) l : List.filter (fun x => P x && Q x) l = List.filter Q (List.filter P l).
Proof. induction l as [|x l IH]; [done|]. cbn [List.filter]. destruct (P x); cbn [andb List.filter]; by rewrite IH. Qed.

Lemma filter_map_row {A B} (f : A -> B) (P : B -> bool) (Q : A -> bool) l :
  Forall (fun x => P (f x) = Q x) l -> List.filter P (map f l) = map f (List.filter Q l).
Proof. induction 1 as [|x l Hx _ IH]; [done|]. cbn [map List.filter]. rewrite Hx, IH. by destruct (Q x). Qed.

(** The committed records of a run. *)
Lemma committed_rows n T a id :
  rep n T a ->
  exists us, rows_where T (ly_values L) (committed_of id) = map (value_row L id) (List.filter committed us) /\
    Forall (good_value L) us /\ StronglySorted (fun a b => vr_Seq a < vr_Seq b) us /\
    map erase_value us = map erase_value (spec_values 0 (snd (abs_run a id))).
Proof.
  intros Hr. destruct (rep_values _ _ _ _ Hr) as (rv & Ev & Hrv). destruct (Hrv id) as (us & E & Hg & Hs & Her).
  exists us. split_and!; [|done..]. unfold rows_where. rewrite Ev. cbn [tb_rows].
  rewrite (filter_ext _ (fun r => matches r (of_run id) && sql_same (cell r "status") (SText "committed"))).
  - rewrite filter_filter. fold (run_rows id rv). rewrite E. apply filter_map_row. eapply Forall_impl; [exact Hg|].
    intros v (_ & _ & Hst). change (cell (value_row L id v) "status") with (SText (ValueStatus_String (vr_Status v))).
    rewrite same_text_text. unfold committed. by destruct Hst as [->|[->| ->]].
  - intros r. unfold matches, committed_of, of_run. cbn [forallb fst snd]. by rewrite !andb_true_r.
Qed.

Lemma row_latest id us u :
  Forall (good_value L) us -> good_value L u ->
  is_latest ["task_id"; "field"] ["ts"; "id"] (map (value_row L id) us) (value_row L id u) =
    forallb (fun v => negb (at_field (vr_TaskID u) (vr_Field u) v) || negb (value_less u v)) us.
Proof.
  intros Hg Hu. unfold is_latest. set (after := fun r' : Row => negb _ || _). induction Hg as [|v us Hv _ IH]; [done|].
  cbn [map forallb]. rewrite IH. f_equal. unfold after. cbn [forallb].
  change (cell (value_row L id u) "task_id") with (SText (vr_TaskID u)). change (cell (value_row L id v) "task_id") with (SText (vr_TaskID v)).
  change (cell (value_row L id u) "field") with (SText (vr_Field u)). change (cell (value_row L id v) "field") with (SText (vr_Field v)).
  rewrite !same_text_text, andb_true_r. f_equal. apply eq_true_iff_eq. rewrite Z.leb_le, negb_true_iff. by apply value_order.
Qed.

(** Both ways of reading the current version. *)
Definition current_values (a : AbsStore) (id : string) : gmap string (gmap string bytes) :=
  fold_left fold_value (SortValueRecords (spec_values 0 (snd (abs_run a id)))) ∅.

Lemma current_of_records n T a id us :
  rep n T a -> Z.of_nat n < 2 ^ 63 -> StronglySorted (fun a b => vr_Seq a < vr_Seq b) us ->
  map erase_value us = map erase_value (spec_values 0 (snd (abs_run a id))) ->
  current_values a id = fold_left put (List.filter committed (slice_stable value_less us)) ∅.
Proof.
  intros Hr Hn Hs He. destruct (spec_sorted n T a id Hr Hn) as [Hsp _]. unfold current_values.
  rewrite <- fold_value_erase, <- (replay_values_alike us _ Hs Hsp He), fold_value_erase. apply fold_value_put.
Qed.

Lemma value_sorted_filter (P : ValueRecord -> bool) l : sorted value_less l -> sorted value_less (List.filter P l).
Proof.
  induction 1 as [|x l Hl IH Ha]; [constructor|]. cbn [List.filter]. destruct (P x); [|done]. constructor; [done|].
  rewrite Forall_forall in Ha |- *. intros y Hy. apply Ha. apply list_elem_of_In in Hy. apply list_elem_of_In. by eapply filter_In.
Qed.

Lemma increasing_filter (P : ValueRecord -> bool) l :
  StronglySorted (fun a b => vr_Seq a < vr_Seq b) l -> StronglySorted (fun a b => vr_Seq a < vr_Seq b) (List.filter P l).
Proof.
  induction 1 as [|x l Hl IH Ha]; [constructor|]. cbn [List.filter]. destruct (P x); [|done]. constructor; [done|].
  rewrite Forall_forall in Ha |- *. intros y Hy. apply Ha. apply list_elem_of_In in Hy. apply list_elem_of_In. by eapply filter_In.
Qed.

(** Sorting and selecting committed records commute. *)
Lemma sort_committed us :
  StronglySorted (fun a b => vr_Seq a < vr_Seq b) us ->
  slice_stable value_less (List.filter committed us) = List.filter committed (slice_stable value_less us).
Proof.
  intros Hs. apply (StronglySorted_unique_strong (fun a b => value_less b a = false)).
  - intros x y Hx Hy H1 H2. rewrite slice_stable_perm in Hx. apply list_elem_of_In, filter_In in Hx as [Hx _], Hy as [Hy _].
    apply list_elem_of_In in Hx, Hy. rewrite slice_stable_perm in Hy. by apply (value_ties us).
  - apply slice_stable_sorted, _.
  - apply value_sorted_filter, slice_stable_sorted, _.
  - rewrite slice_stable_perm. pose proof (slice_stable_perm value_less us) as Hp. symmetry. clear Hs.
    induction Hp as [| |x y l|]; cbn [List.filter]; [done|by destruct (committed x); [constructor|]| |by etrans].
    destruct (committed x), (committed y); [apply Permutation_swap|done..].
Qed.

Lemma answer_ordered n T a id rows :
  rep n T a -> Z.of_nat n < 2 ^ 63 -> sql_answer (Select latest_columns (ly_values L) (committed_of id) ["ts"; "id"]) T rows ->
  fold_rows rows ∅ = Ok (current_values a id).
Proof.
  intros Hr Hn (l & Hp & Hs & ->). destruct (committed_rows n T a id Hr) as (us & E & Hg & Hsort & Her). rewrite E in Hp.
  rewrite (current_of_records n T a id us Hr Hn Hsort Her), <- sort_committed by done. rewrite Forall_forall in Hg.
  assert (Hin : forall u, u ∈ List.filter committed us -> u ∈ us) by (intros u Hu; apply list_elem_of_In in Hu; apply list_elem_of_In; by eapply filter_In).
  rewrite (answer_sorted (value_row L id) value_less ["ts"; "id"] l _ Hp Hs).
  - apply fold_rows_put.
  - intros u v Hu Hv. apply value_order; by apply Hg, Hin.
  - intros u v Hu Hv. apply (value_ties us); [done|by apply Hin..].
Qed.

Lemma answer_latest n T a id rows :
  rep n T a -> Z.of_nat n < 2 ^ 63 ->
  sql_answer (SelectLatest latest_columns (ly_values L) (committed_of id) ["task_id"; "field"] ["ts"; "id"]) T rows ->
  fold_rows rows ∅ = Ok (current_values a id).
Proof.
  intros Hr Hn (l & Hp & ->). destruct (committed_rows n T a id Hr) as (us & E & Hg & Hsort & Her). rewrite E in Hp.
  set (cs := List.filter committed us) in *. pose proof (increasing_filter committed us Hsort) as Hcs. fold cs in Hcs.
  assert (Hgc : Forall (good_value L) cs).
  { rewrite Forall_forall in Hg |- *. intros u Hu. apply Hg. apply list_elem_of_In in Hu. apply list_elem_of_In. by eapply filter_In. }
  set (last u := forallb (fun v => negb (at_field (vr_TaskID u) (vr_Field u) v) || negb (value_less u v)) cs).
  rewrite (filter_map_row (value_row L id) _ last) in Hp by (eapply Forall_impl; [exact Hgc|]; intros u Hu; by apply row_latest).
  apply Permutation_map_inv in Hp as (us' & -> & Hus'). rewrite fold_rows_put.
  rewrite (current_of_records n T a id us Hr Hn Hsort Her), <- sort_committed by done. f_equal. fold cs.
  apply latest_fold; [done|]. intros x. rewrite <- Hus'. rewrite list_elem_of_In, filter_In, <- list_elem_of_In.
  unfold last. rewrite forallb_forall. setoid_rewrite <- list_elem_of_In. split; intros [Hx Hlast]; (split; [done|]); intros y Hy.
  - intros Hf. specialize (Hlast y Hy). rewrite Hf in Hlast. by apply negb_true_iff in Hlast.
  - destruct (at_field (vr_TaskID x) (vr_Field x) y) eqn:Hf; [|done]. cbn. apply negb_true_iff. by apply Hlast.
Qed.

End Reads.
