(* ===== verification/SqlBackend.v ===== *)
(** * State stores on engines that can fail

    [FaultyBackend] is the [StateStore] interface of a store whose engine may
    report an error at any statement, and [ExplainsLog] what such a store
    promises: a call that returns nil has taken effect, one that returns an error
    has taken effect entirely or not at all, every error is the specification's
    own or one the engine reported, and a read answers from the log or returns
    such an error.  The lemmas on programs over a connection reduce the promise to
    the statements of [SqlLaws]. *)

From S2P Require Import Prelude GoTime StateStore StateStoreLaws KvStore KvIndex Sql SqlLaws.
#[global] Open Scope Z_scope.

(** What a store keeps of a call: times as instants in UTC. *)
Definition canon_sql (c : Call) : Call := match c with CallSave m => CallSave (canon_meta m) | _ => canon_call c end.

Class FaultyBackend (St : Type) : Type := {
  fb_save : St -> RunMetadata -> St * option GoError;
  fb_write : St -> list WriteOp -> St * option GoError;
  fb_flush : St -> string -> St * option GoError;
  fb_current : string -> Db St (option CurrentVersion);
  fb_full : string -> Db St (option FullHistory)
}.

Definition fb_call {St} `{!FaultyBackend St} (s : St) (c : Call) : St * option GoError :=
  match c with
  | CallSave m => fb_save s m
  | CallWriteBatch ops => fb_write s ops
  | CallFlush id => fb_flush s id
  end.

(** The outcome of a call on a store that represents [a]. *)
Definition outcome {St} (fault : GoError -> Prop) (R : St -> AbsStore -> Prop) (a : AbsStore) (c : Call) (p : St * option GoError) : Prop :=
  match snd p with
  | None => snd (spec_call a (canon_sql c)) = None /\ R (fst p) (fst (spec_call a (canon_sql c)))
  | Some e =>
      match snd (spec_call a (canon_sql c)) with
      | Some e' => e = e' /\ R (fst p) a
      | None => fault e /\ (R (fst p) a \/ R (fst p) (fst (spec_call a (canon_sql c))))
      end
  end.

Class ExplainsLog (St : Type) `{!FaultyBackend St} : Type := {
  fb_admits : Call -> Prop;
  fb_fault : GoError -> Prop;
  fb_rep : nat -> St -> AbsStore -> Prop;
  fb_call_rep n s a c :
    fb_rep n s a -> fb_admits c -> outcome fb_fault (fb_rep (n + call_ops c)) a c (fb_call s c);
  fb_current_rep n s a id :
    fb_rep n s a -> Z.of_nat n < 2 ^ 63 ->
    match fb_current id s with
    | (s', Ok r) => fb_rep n s' a /\ r = (if known (abs_run a id) then spec_current a id else None)
    | (s', Err e) => fb_rep n s' a /\ fb_fault e
    end;
  fb_full_rep n s a id :
    fb_rep n s a -> Z.of_nat n < 2 ^ 63 ->
    match fb_full id s with
    | (s', Ok r) => fb_rep n s' a /\
        option_map erase_full r = option_map erase_full (if known (abs_run a id) then spec_full a id else None)
    | (s', Err e) => fb_rep n s' a /\ fb_fault e
    end
}.

(** A history of calls and the errors they returned, explained by an abstract
    store: the calls without an error, and some of those the engine failed, took
    effect in order. *)
Inductive explained (fault : GoError -> Prop) : list Call -> list (option GoError) -> AbsStore -> AbsStore -> Prop :=
| ex_nil a : explained fault [] [] a a
| ex_done c cs es a b :
    snd (spec_call a (canon_sql c)) = None ->
    explained fault cs es (fst (spec_call a (canon_sql c))) b -> explained fault (c :: cs) (None :: es) a b
| ex_refused c cs e es a b :
    snd (spec_call a (canon_sql c)) = Some e -> explained fault cs es a b -> explained fault (c :: cs) (Some e :: es) a b
| ex_failed c cs e es a b :
    fault e -> explained fault cs es a b -> explained fault (c :: cs) (Some e :: es) a b
| ex_unconfirmed c cs e es a b :
    fault e -> explained fault cs es (fst (spec_call a (canon_sql c))) b -> explained fault (c :: cs) (Some e :: es) a b.

Section Client.
Context {St : Type} `{HE : ExplainsLog St}.

Lemma run_calls_explained cs n s a :
  fb_rep n s a -> Forall fb_admits cs ->
  exists b, explained fb_fault cs (snd (run_calls fb_call s cs)) a b /\ fb_rep (n + calls_ops cs) (fst (run_calls fb_call s cs)) b.
Proof.
  revert n s a. induction cs as [|c cs IH]; intros n s a Hr Hc; cbn [run_calls calls_ops].
  { exists a. split; [constructor|]. by rewrite Nat.add_0_r. }
  apply Forall_cons in Hc as [Hc Hcs]. pose proof (fb_call_rep n s a c Hr Hc) as Ho.
  destruct (fb_call s c) as [s' e] eqn:Ec. unfold outcome in Ho. cbn [fst snd] in Ho.
  assert (Hnext : forall a', fb_rep (n + call_ops c) s' a' ->
    exists b, explained fb_fault cs (snd (run_calls fb_call s' cs)) a' b /\
      fb_rep (n + (call_ops c + calls_ops cs)) (fst (run_calls fb_call s' cs)) b).
  { intros a' Hr'. rewrite Nat.add_assoc. by apply IH. }
  destruct (run_calls fb_call s' cs) as [s'' es]. cbn [fst snd] in *. destruct e as [e|].
  - destruct (snd (spec_call a (canon_sql c))) as [e'|] eqn:Es.
    + destruct Ho as [-> Hr']. destruct (Hnext a Hr') as (b & He & Hb). exists b. split; [by apply ex_refused|done].
    + destruct Ho as [Hf [Hr'|Hr']]; destruct (Hnext _ Hr') as (b & He & Hb); exists b; (split; [|done]); [by apply ex_failed|by apply ex_unconfirmed].
  - destruct Ho as [Hn Hr']. destruct (Hnext _ Hr') as (b & He & Hb). exists b. split; [by apply ex_done|done].
Qed.

(** After any history the log of some store explains the errors and both reads. *)
Lemma explained_observations s0 cs :
  fb_rep 0 s0 ∅ -> Forall fb_admits cs -> Z.of_nat (calls_ops cs) < 2 ^ 63 ->
  let s := run_calls fb_call s0 cs in
  exists a, explained fb_fault cs (snd s) ∅ a /\ forall id,
    match snd (fb_current id (fst s)) with
    | Ok r => r = if known (abs_run a id) then spec_current a id else None
    | Err e => fb_fault e
    end /\
    match snd (fb_full id (fst s)) with
    | Ok r => option_map erase_full r = option_map erase_full (if known (abs_run a id) then spec_full a id else None)
    | Err e => fb_fault e
    end.
Proof.
  intros H0 Hc Hn s. destruct (run_calls_explained cs 0 s0 ∅ H0 Hc) as (a & He & Hr). fold s in He, Hr. exists a. split; [done|]. intros id. split.
  - pose proof (fb_current_rep _ _ _ id Hr Hn) as H. destruct (fb_current id (fst s)) as [? []]; apply H.
  - pose proof (fb_full_rep _ _ _ id Hr Hn) as H. destruct (fb_full id (fst s)) as [? []]; apply H.
Qed.

End Client.

(** ** Programs and the statements they execute *)

Section Programs.
Context {D X : Type} `{!SqlEngine D X} {ST : SqlTypes} `{HL : !SqlLaws D X}.

(** The errors an engine reports, wrapped or not. *)
Inductive reported : GoError -> Prop :=
| rep_open driver dsn d e : snd (sql_open driver dsn d) = Some e -> reported e
| rep_exec s d e : snd (db_exec s d) = Err e -> reported e
| rep_query q d e : snd (db_query q d) = Err e -> reported e
| rep_begin d e : snd (db_begin d) = Err e -> reported e
| rep_tx_exec s x e : snd (tx_exec s x) = Err e -> reported e
| rep_commit x d e : snd (tx_commit x d) = Some e -> reported e
| rep_wrapped text e : reported e -> reported (WrapError text e).

(** Inside a transaction: the statements of [ss], or an error. *)
Definition does (fault : GoError -> Prop) (m : Db X unit) (ss : list Stmt) : Prop :=
  forall x, match m x with
            | (x', Ok _) => sql_steps ss (pending x) (pending x')
            | (_, Err e) => fault e
            end.

(** On the connection: the statements of [ss], or an error and all or none of
    them. *)
Definition attempts (fault : GoError -> Prop) (m : Db D unit) (ss : list Stmt) : Prop :=
  forall d, match m d with
            | (d', Ok _) => sql_steps ss (contents d) (contents d')
            | (d', Err e) => fault e /\ (contents d' = contents d \/ sql_steps ss (contents d) (contents d'))
            end.

Lemma sql_steps_app ss ss' T T' T'' : sql_steps ss T T' -> sql_steps ss' T' T'' -> sql_steps (ss ++ ss') T T''.
Proof. induction 1 as [|s ss T T1 T2 n Hs _ IH]; [done|]. intros H. cbn [app]. econstructor; [done|by apply IH]. Qed.

Lemma does_ret (fault : GoError -> Prop) : does fault (db_ret tt) [].
Proof. intros x. constructor. Qed.

Lemma does_exec (fault : GoError -> Prop) s : (forall e, reported e -> fault e) -> does fault (exec_in s) [s].
Proof.
  intros Hf x. unfold exec_in, db_bind. destruct (tx_exec s x) as [x' [n|e]] eqn:E.
  - econstructor; [by eapply tx_exec_law|constructor].
  - apply Hf, (rep_tx_exec s x). by rewrite E.
Qed.

Lemma does_bind (fault : GoError -> Prop) m m' ss ss' : does fault m ss -> does fault m' ss' -> does fault (do! _ := m in m') (ss ++ ss').
Proof.
  intros Hm Hm' x. unfold db_bind. specialize (Hm x). destruct (m x) as [x' [u|e]]; [|done]. specialize (Hm' x').
  destruct (m' x') as [x'' [v|e]]; [|done]. by eapply sql_steps_app.
Qed.

Lemma does_each {A} (fault : GoError -> Prop) (f : A -> Db X unit) (g : A -> list Stmt) l :
  Forall (fun x => does fault (f x) (g x)) l -> does fault (each f l) (concat (map g l)).
Proof. induction 1 as [|x l Hx _ IH]; [apply does_ret|]. cbn [each map concat]. by apply does_bind. Qed.

Lemma attempts_exec (fault : GoError -> Prop) s : (forall e, reported e -> fault e) -> attempts fault (exec s) [s].
Proof.
  intros Hf d. unfold exec, db_bind. pose proof (exec_law s d) as H. destruct (db_exec s d) as [d' [n|e]] eqn:E; cbn.
  - by econstructor; [|constructor].
  - split; [apply Hf, (rep_exec s d); by rewrite E|]. destruct H as [H|[n H]]; [by left|right]. by econstructor; [|constructor].
Qed.

(** A transaction whose body establishes [Q] of what it commits. *)
Lemma tx_commits (fault : GoError -> Prop) (m : Db X unit) (Q : Tables -> Prop) d :
  (forall e, reported e -> fault e) ->
  (forall x, pending x = contents d -> match m x with (x', Ok _) => Q (pending x') | (_, Err e) => fault e end) ->
  match in_tx m d with
  | (d', Ok _) => Q (contents d')
  | (d', Err e) => fault e /\ (contents d' = contents d \/ Q (contents d'))
  end.
Proof.
  intros Hf Hm. unfold in_tx. destruct (begin_law d) as [Hb Hp]. destruct (db_begin d) as [d1 [x|e]] eqn:Eb; cbn [fst snd] in *.
  - specialize (Hm x (Hp x eq_refl)). destruct (m x) as [x' [u|e]].
    + pose proof (commit_law x' d1) as Hc. destruct (tx_commit x' d1) as [d2 [e|]] eqn:Ec.
      * split; [apply Hf, (rep_commit x' d1); by rewrite Ec|]. rewrite Hb in Hc. destruct Hc as [Hc|Hc]; [by left|right; by rewrite Hc].
      * by rewrite Hc.
    + split; [done|]. left. by rewrite rollback_law.
  - split; [|by left]. apply Hf, (rep_begin d). by rewrite Eb.
Qed.

Lemma attempts_tx (fault : GoError -> Prop) m ss : (forall e, reported e -> fault e) -> does fault m ss -> attempts fault (in_tx m) ss.
Proof.
  intros Hf Hm d. apply (tx_commits fault m (sql_steps ss (contents d)) d Hf). intros x <-. apply Hm.
Qed.

(** A query that succeeds is answered from the contents. *)
Lemma queries q d :
  match db_query q d with
  | (d', Ok rows) => contents d' = contents d /\ sql_answer q (contents d) rows
  | (d', Err e) => contents d' = contents d /\ reported e
  end.
Proof.
  destruct (query_law q d) as [Hc Ha]. destruct (db_query q d) as [d' [rows|e]] eqn:E; cbn [fst snd] in *; [by auto|].
  split; [done|]. apply (rep_query q d). by rewrite E.
Qed.

(** ** Batches and reads under the relation *)

Section Layouts.
Context {BC : BinaryCollation ST} {SC : ScanLaws ST}.
Variable L : Layout.
Hypothesis HLay : layout_ok L.

Lemma rep_mono n n' T a : (n <= n')%nat -> rep L n T a -> rep L n' T a.
Proof. intros Hn [H1 H2 H3 H4]. split; [done..|]. intros id. destruct (H4 id). split; [done|lia]. Qed.

Definition batch_stmts (ops : list WriteOp) : list Stmt := concat (map (fun op => option_list (op_stmt L op)) ops).

Lemma rep_batch ops n T T' a :
  rep L n T a -> Forall valid ops -> Forall (storable L) ops -> sql_steps (batch_stmts ops) T T' ->
  rep L (n + length ops) T' (fold_left spec_append (map canon_op ops) a).
Proof.
  revert n T a. induction ops as [|op ops IH]; intros n T a Hr Hv Hs Hst; cbn [length map fold_left].
  { inversion Hst; subst. by rewrite Nat.add_0_r. }
  apply Forall_cons in Hv as [Hv Hvs], Hs as [Hs Hss]. unfold batch_stmts in Hst. cbn [map concat] in Hst.
  destruct (op_stmt L op) as [s|] eqn:E.
  - cbn [option_list app] in Hst. inversion Hst as [|? ? ? T1 ? k H1 H2]; subst.
    rewrite <- Nat.add_succ_comm. eapply IH; [|done..]. by eapply rep_op.
  - exfalso. revert E Hv. unfold op_stmt, valid, ValidateWriteOp.
    destruct op as [rid [] [w|] [f|] [h|]]; cbn; destruct (String.eqb rid ""); done.
Qed.

(** The outcome of an attempt at a batch, and at a save. *)
Lemma batch_outcome {St} (fault : GoError -> Prop) (R : St -> AbsStore -> Prop) (abs : St -> Tables) n (p : St * result unit) T a ops :
  rep L n T a -> Forall (storable L) ops -> validate_all ops = None ->
  (forall s b, rep L (n + length ops) (abs s) b -> R s b) ->
  match p with
  | (s', Ok _) => sql_steps (batch_stmts ops) T (abs s')
  | (s', Err e) => fault e /\ (abs s' = T \/ sql_steps (batch_stmts ops) T (abs s'))
  end -> outcome fault R a (CallWriteBatch ops) (error_of p).
Proof.
  intros Hr Hs Hv HR Hp. unfold outcome, error_of. cbn [canon_sql canon_call spec_call]. unfold spec_write.
  rewrite validate_all_canon, Hv. apply validate_all_valid in Hv. destruct p as [s' [u|e]]; cbn [fst snd].
  - split; [done|]. apply HR. by eapply rep_batch.
  - destruct Hp as [Hf [E|E]]; (split; [done|]); [left|right]; apply HR; [rewrite E; eapply rep_mono; [|done]; lia|by eapply rep_batch].
Qed.

Lemma save_outcome {St} (fault : GoError -> Prop) (R : St -> AbsStore -> Prop) (abs : St -> Tables) n (p : St * result unit) T a m :
  rep L n T a -> rm_RunID m <> "" -> (forall s b, rep L n (abs s) b -> R s b) ->
  match p with
  | (s', Ok _) => rep L n (abs s') (saved a (canon_meta m))
  | (s', Err e) => fault e /\ (abs s' = T \/ rep L n (abs s') (saved a (canon_meta m)))
  end -> outcome fault R a (CallSave m) (error_of p).
Proof.
  intros Hr Hid HR Hp. unfold outcome, error_of. cbn [canon_sql spec_call]. unfold spec_save. cbn [rm_RunID canon_meta].
  rewrite (proj2 (String.eqb_neq (rm_RunID m) "")) by done. change (<[rm_RunID m := _]> a) with (saved a (canon_meta m)).
  destruct p as [s' [u|e]]; cbn [fst snd]; [by auto|]. destruct Hp as [Hf [E|E]]; (split; [done|]); [left|right]; apply HR; [by rewrite E|done].
Qed.

(** The save of the stores that can upsert. *)
Lemma upsert_attempt (fault : GoError -> Prop) m n d a :
  (forall e, reported e -> fault e) -> storable_meta L m -> rep L n (contents d) a ->
  match exec (Upsert (ly_runs L) "run_id" (meta_row L m)) d with
  | (d', Ok _) => rep L n (contents d') (saved a (canon_meta m))
  | (d', Err e) => fault e /\ (contents d' = contents d \/ rep L n (contents d') (saved a (canon_meta m)))
  end.
Proof.
  intros Hf Hm Hr. set (s := Upsert _ _ _). pose proof (attempts_exec fault s Hf d) as Ha.
  assert (Hone : forall T', sql_steps [s] (contents d) T' -> rep L n T' (saved a (canon_meta m))).
  { intros T' H. inversion H as [|? ? ? T1 ? k H1 H2]; subst. inversion H2; subst. by eapply (rep_upsert L HLay). }
  destruct (exec s d) as [d' [u|e]]; [by apply Hone|]. destruct Ha as [He [Ha|Ha]]; (split; [done|]); [by left|right; by apply Hone].
Qed.

(** The reads of every store, by its layout. *)
Definition read_meta (runID : string) : Db D (RunMetadata * bool) :=
  do! row := query_row (Select meta_columns (ly_runs L) (of_run runID) []) in
  match row with
  | Some r => do! meta := db_of (scan_meta (ly_dec L) runID r) in db_ret (meta, true)
  | None =>
      do! row := query_row (CountRows [ly_values L; ly_history L] (of_run runID)) in
      match row with
      | None => db_fail ErrNoRows
      | Some r => do! n := db_of (scan_int64 (cell r "count")) in db_ret (emptyMeta runID, 0 <? n)
      end
  end.

Definition read_current (latest : Query) (runID : string) : Db D (option CurrentVersion) :=
  do! (meta, exists_) := read_meta runID in
  if negb exists_ then db_ret None
  else
    do! rows := db_query latest in
    do! values := db_of (fold_rows rows ∅) in
    db_ret (Some (mkCurrentVersion meta values)).

Definition read_full (runID : string) : Db D (option FullHistory) :=
  do! (meta, exists_) := read_meta runID in
  if negb exists_ then db_ret None
  else
    do! rows := db_query (Select value_columns (ly_values L) (of_run runID) ["ts"; "id"]) in
    do! values := db_of (result_map (scan_value (ly_dec L)) rows) in
    do! hrows := db_query (Select history_columns (ly_history L) (of_run runID) ["ts"; "id"]) in
    do! history := db_of (result_map (scan_history (ly_dec L)) hrows) in
    db_ret (Some (mkFullHistory meta values history)).

(** What a read returns: its answer, or an error the engine reported. *)
Definition answers {A} (d : D) (p : D * result A) (Q : A -> Prop) : Prop :=
  contents (fst p) = contents d /\ match snd p with Ok r => Q r | Err e => reported e end.

Lemma answers_query {A} q d (f : list Row -> Db D A) (Q : A -> Prop) :
  (forall d' rows, contents d' = contents d -> sql_answer q (contents d) rows -> answers d' (f rows d') Q) ->
  answers d ((do! rows := db_query q in f rows) d) Q.
Proof.
  intros Hf. unfold db_bind. pose proof (queries q d) as H. destruct (db_query q d) as [d' [rows|e]]; destruct H as [Hc H]; [|by split].
  destruct (Hf d' rows Hc H) as [Hc' H']. split; [by rewrite Hc'|done].
Qed.

Lemma answers_ret {A} d (a : A) (Q : A -> Prop) : Q a -> answers d (db_ret a d) Q.
Proof. by split. Qed.

Lemma answers_of {A B} d (r : result B) b (f : B -> Db D A) (Q : A -> Prop) :
  r = Ok b -> answers d (f b d) Q -> answers d ((do! x := db_of r in f x) d) Q.
Proof. by intros ->. Qed.

Lemma answers_bind {A B} d (m : Db D B) (f : B -> Db D A) (P : B -> Prop) (Q : A -> Prop) :
  answers d (m d) P -> (forall d' b, contents d' = contents d -> P b -> answers d' (f b d') Q) ->
  answers d ((do! x := m in f x) d) Q.
Proof.
  intros [Hc Hm] Hf. unfold db_bind. destruct (m d) as [d' [b|e]]; cbn [fst snd] in *; [|by split].
  destruct (Hf d' b Hc Hm) as [Hc' H']. split; [by rewrite Hc'|done].
Qed.

Lemma answers_row q d :
  answers d (query_row q d) (fun row => exists rows, row = hd_error rows /\ sql_answer q (contents d) rows).
Proof. apply answers_query. intros d' rows Hc Ha. apply answers_ret. by exists rows. Qed.

Lemma read_meta_answers n d a id :
  rep L n (contents d) a -> Z.of_nat n < 2 ^ 63 ->
  answers d (read_meta id d) (fun p => p = (default (emptyMeta id) (fst (abs_run a id)), known (abs_run a id))).
Proof.
  intros Hr Hn. unfold read_meta.
  eapply answers_bind; [apply answers_row|]. intros d1 row Hc1 (rows & -> & Ha).
  apply (answer_meta L HLay n _ a id) in Ha; [|done]. unfold known. destruct (fst (abs_run a id)) as [m|] eqn:Em.
  - destruct Ha as (r & -> & Hs). cbn [hd_error]. eapply answers_of; [exact Hs|]. by apply answers_ret.
  - subst rows. cbn [hd_error]. eapply answers_bind; [apply answers_row|]. intros d2 row Hc2 (rows & -> & Ha). rewrite Hc1 in Ha.
    destruct (answer_count L n _ a id rows Hr Hn Em Ha) as (r & k & -> & Hk & Hknown).
    cbn [hd_error]. eapply answers_of; [exact Hk|]. apply answers_ret. rewrite Hknown. unfold known. by rewrite Em.
Qed.

(** The answer of [CurrentVersion], by either query. *)
Definition reads_latest (latest : Query) (id : string) : Prop :=
  forall n T a rows, rep L n T a -> Z.of_nat n < 2 ^ 63 -> sql_answer latest T rows -> fold_rows rows ∅ = Ok (current_values a id).

Lemma read_current_answers latest n d a id :
  reads_latest latest id -> rep L n (contents d) a -> Z.of_nat n < 2 ^ 63 ->
  answers d (read_current latest id d) (fun r => r = if known (abs_run a id) then spec_current a id else None).
Proof.
  intros Hq Hr Hn. unfold read_current. eapply answers_bind; [by apply (read_meta_answers n)|]. intros d1 p Hc1 ->.
  destruct (known (abs_run a id)) eqn:Hk; cbn [negb]; [|by apply answers_ret].
  apply answers_query. intros d2 rows Hc2 Ha. rewrite Hc1 in Ha. eapply answers_of; [by eapply Hq|]. apply answers_ret.
  destruct (known_some a id Hk) as ([m log] & E & Ea). unfold spec_current, current_values. by rewrite E, Ea.
Qed.

Lemma read_full_answers n d a id :
  rep L n (contents d) a -> Z.of_nat n < 2 ^ 63 ->
  answers d (read_full id d)
    (fun r => option_map erase_full r = option_map erase_full (if known (abs_run a id) then spec_full a id else None)).
Proof.
  intros Hr Hn. unfold read_full. eapply answers_bind; [by apply (read_meta_answers n)|]. intros d1 p Hc1 ->.
  destruct (known (abs_run a id)) eqn:Hk; cbn [negb]; [|by apply answers_ret].
  apply answers_query. intros d2 rows Hc2 Ha. rewrite Hc1 in Ha. destruct (answer_values L HLay n _ a id rows Hr Hn Ha) as (vs & Ev & Hvs).
  eapply answers_of; [exact Ev|]. apply answers_query. intros d3 hrows Hc3 Hh. rewrite Hc2, Hc1 in Hh.
  destruct (answer_history L HLay n _ a id hrows Hr Hn Hh) as (hs & Eh & Hhs). eapply answers_of; [exact Eh|]. apply answers_ret.
  destruct (known_some a id Hk) as ([m log] & E & Ea). unfold spec_full. rewrite E, Ea in *. cbn [option_map fst snd] in *.
  unfold erase_full. cbn [fh_Meta fh_Values fh_History]. by rewrite Hvs, Hhs.
Qed.

(** ** Creating the tables *)

Definition layout_tables : list (string * list Column) := [(ly_runs L, ly_rc L); (ly_values L, ly_vc L); (ly_history L, ly_hc L)].

(** Tables that do not exist yet, or are empty. *)
Definition blank (T : Tables) : Prop :=
  Forall (fun p => T !! fst p = None \/ T !! fst p = Some (mkSqlTable (snd p) [])) layout_tables.
Definition created (T : Tables) (p : string * list Column) : Prop := T !! fst p = Some (mkSqlTable (snd p) []).

Definition schema_stmt (s : Stmt) : Prop :=
  match s with
  | CreateTable t cols => (t, cols) ∈ layout_tables
  | CreateIndex _ _ _ _ => True
  | _ => False
  end.

Lemma table_unique t cols cols' : (t, cols) ∈ layout_tables -> (t, cols') ∈ layout_tables -> cols = cols'.
Proof.
  pose proof (names_ne L HLay). unfold layout_tables. rewrite !elem_of_cons. intros H1 H2. destruct_or? H1; destruct_or? H2; simplify_eq; try done; try (by apply elem_of_nil in H1); try (by apply elem_of_nil in H2); naive_solver.
Qed.

Lemma schema_step s T T' n :
  schema_stmt s -> sql_step s T T' n -> blank T ->
  blank T' /\ (forall p, created T p -> created T' p) /\ forall t cols, s = CreateTable t cols -> created T' (t, cols).
Proof.
  intros Hs Hstep Hb. unfold blank in *. rewrite Forall_forall in Hb.
  destruct Hstep as [t cols T Hnone|t cols T tb Hsome| | | | |]; cbn in Hs; try done.
  - split_and!.
    + apply Forall_forall. intros [t' cols'] Hin. cbn. destruct (decide (t = t')) as [<-|Hne].
      * right. rewrite lookup_insert_eq. by rewrite (table_unique t cols cols').
      * rewrite lookup_insert_ne by done. by apply (Hb (t', cols')).
    + intros [t' cols'] E. unfold created in *. cbn in *. rewrite lookup_insert_ne; [done|]. congruence.
    + intros ? ? [= <- <-]. unfold created. by rewrite lookup_insert_eq.
  - split_and!; [by apply Forall_forall|done|]. intros ? ? [= <- <-]. unfold created. cbn.
    destruct (Hb _ Hs) as [E|E]; cbn in E; [congruence|done].
  - split_and!; [by apply Forall_forall|done|done].
Qed.

Lemma schema_attempt ss d :
  Forall schema_stmt ss -> blank (contents d) ->
  match each exec ss d with
  | (d', Ok _) => blank (contents d') /\ (forall p, created (contents d) p -> created (contents d') p) /\
      forall t cols, CreateTable t cols ∈ ss -> created (contents d') (t, cols)
  | (d', Err e) => blank (contents d') /\ reported e
  end.
Proof.
  intros Hs. revert d. induction Hs as [|s ss Hs _ IH]; intros d Hb; cbn [each].
  { split_and!; [done|done|]. by intros ? ? ?%elem_of_nil. }
  unfold db_bind. pose proof (attempts_exec reported s (fun e H => H) d) as Ha. destruct (exec s d) as [d1 [u|e]].
  - inversion Ha as [|? ? ? T1 ? n H1 H2]; subst. inversion H2; subst. destruct (schema_step s _ _ n Hs H1 Hb) as (Hb1 & Hk1 & Hc1).
    specialize (IH d1 Hb1). destruct (each exec ss d1) as [d2 [v|e]]; [|done]. destruct IH as (Hb2 & Hk2 & Hc2).
    split_and!; [done|by auto|]. intros t cols [<-|Hin]%elem_of_cons; [by apply Hk2, Hc1|by apply Hc2].
  - destruct Ha as [He [E|Ha]]; (split; [|done]); [by rewrite E|]. inversion Ha as [|? ? ? T1 ? n H1 H2]; subst. inversion H2; subst.
    by apply (schema_step s _ _ n Hs H1 Hb).
Qed.

(** Empty tables hold nothing. *)
Lemma created_rep T : Forall (created T) layout_tables -> rep L 0 T ∅.
Proof.
  unfold layout_tables. rewrite !Forall_cons. intros (H1 & H2 & H3 & _). unfold created in *. cbn [fst snd] in *.
  assert (Ha : forall id, abs_run ∅ id = (None, [])) by (intros id; unfold abs_run; by rewrite lookup_empty). split.
  - exists []. split; [done|]. intros id. rewrite Ha. by split.
  - exists []. split; [done|]. intros id. rewrite Ha. exists []. split_and!; [done|constructor|constructor|done].
  - exists []. split; [done|]. intros id. rewrite Ha. exists []. split_and!; [done|constructor|constructor|done].
  - intros id. rewrite Ha. split; [constructor|done].
Qed.

(** A whole schema creates the tables. *)
Definition full_schema (ss : list Stmt) : Prop :=
  Forall schema_stmt ss /\ Forall (fun p => CreateTable (fst p) (snd p) ∈ ss) layout_tables.

Lemma full_schema_rep ss d :
  full_schema ss -> blank (contents d) ->
  match each exec ss d with
  | (d', Ok _) => rep L 0 (contents d') ∅
  | (d', Err e) => blank (contents d') /\ reported e
  end.
Proof.
  intros [Hs Hall] Hb. pose proof (schema_attempt ss d Hs Hb) as H. destruct (each exec ss d) as [d' [u|e]]; [|done].
  destruct H as (_ & _ & Hc). apply created_rep. eapply Forall_impl; [exact Hall|]. intros [t cols] Hin. by apply Hc.
Qed.

End Layouts.
End Programs.

(** ** Times as nanoseconds *)

Definition nano_time (t : Time) : Prop := wf_time t /\ - 2 ^ 63 <= t_unix t * 10 ^ 9 + t_nsec t < 2 ^ 63.

Lemma UnixNano_nano t : nano_time t -> UnixNano t = t_unix t * 10 ^ 9 + t_nsec t.
Proof. intros [_ H]. by apply int64_id. Qed.

Lemma nanos_utc t : nano_time t -> nanosToTime (UnixNano t) = utc t.
Proof.
  intros H. rewrite UnixNano_nano by done. destruct H as [Hw _]. unfold wf_time in Hw. unfold nanosToTime, utc.
  f_equal; [rewrite Z.div_add_l by lia; rewrite Z.div_small; lia|]. rewrite Z.add_comm, Z.mod_add by lia. apply Z.mod_small. lia.
Qed.

Lemma nanos_order t t' : nano_time t -> nano_time t' -> sql_compare (SInt (UnixNano t)) (SInt (UnixNano t')) = TimeCompare t t'.
Proof.
  intros H H'. cbn [sql_compare]. rewrite !UnixNano_nano by done. destruct H as [Hw _], H' as [Hw' _]. unfold wf_time in *. unfold TimeCompare.
  repeat (case_match; zbool); lia.
Qed.

Section NanoLayouts.
Context {ST : SqlTypes} {SC : ScanLaws ST}.

Lemma scan_nanos_utc t : nano_time t -> scan_nanos (SInt (UnixNano t)) = Ok (utc t).
Proof.
  intros H. unfold scan_nanos. rewrite scan_int64_int by (rewrite UnixNano_nano by done; apply H). cbn [result_bind]. by rewrite nanos_utc.
Qed.

Lemma scan_utc_utc t : scan_utc (sql_time t) = Ok (utc t).
Proof. unfold scan_utc, sql_time. destruct (scan_time_time (utc t)) as (t' & -> & E). cbn [result_bind]. by rewrite E. Qed.

End NanoLayouts.
