(* ===== verification/Sqlite.v ===== *)
(** * The SQLite state store

    Models [stores/sqlite/store.go].  The reading and the writing handle are
    connections to one database file, which the model threads as one state. *)

From S2P Require Import Prelude GoTime StateStore StateStoreLaws KvStore KvIndex Sql SqlLaws SqlBackend.
#[global] Open Scope Z_scope.

Section Sqlite.
Context {D X : Type} `{!SqlEngine D X} {ST : SqlTypes}.

(** The tables of [ensureSchema] *)
Definition runs_columns : list Column :=
  [mkColumn "run_id" "TEXT" [PrimaryKey];
   mkColumn "process_id" "TEXT" [NotNull];
   mkColumn "process_version" "TEXT" [NotNull];
   mkColumn "status" "TEXT" [NotNull];
   mkColumn "published_at" "INTEGER" [];
   mkColumn "started_at" "INTEGER" [];
   mkColumn "completed_at" "INTEGER" [];
   mkColumn "evaluation_count" "INTEGER" [NotNull; Default (SInt 0)]].
Definition values_columns : list Column :=
  [mkColumn "id" "INTEGER" [PrimaryKey];
   mkColumn "run_id" "TEXT" [NotNull];
   mkColumn "task_id" "TEXT" [NotNull];
   mkColumn "execution_id" "TEXT" [NotNull];
   mkColumn "field" "TEXT" [NotNull];
   mkColumn "value" "TEXT" [NotNull];
   mkColumn "status" "TEXT" [NotNull; Default (SText "pending")];
   mkColumn "ts" "INTEGER" [NotNull]].
Definition history_table_columns : list Column :=
  [mkColumn "id" "INTEGER" [PrimaryKey];
   mkColumn "run_id" "TEXT" [NotNull];
   mkColumn "kind" "TEXT" [NotNull];
   mkColumn "node_id" "TEXT" [];
   mkColumn "execution_id" "TEXT" [NotNull];
   mkColumn "payload" "TEXT" [NotNull];
   mkColumn "ts" "INTEGER" [NotNull]].

Definition schema : list Stmt :=
  [CreateTable "blkit_runs" runs_columns;
   CreateTable "blkit_values" values_columns;
   CreateIndex "blkit_values_replay" "blkit_values" ["run_id"; "ts"; "id"] [];
   CreateIndex "blkit_values_pending" "blkit_values" ["run_id"; "task_id"] [("status", SText "pending")];
   CreateTable "blkit_history" history_table_columns;
   CreateIndex "blkit_history_replay" "blkit_history" ["run_id"; "ts"; "id"] []].

(** [ensureSchema] *)
Definition ensureSchema : Db D unit := each exec schema.

(** [Close] closes the reading handle, then the writing one. *)
Definition Close (d : D) : D * option GoError :=
  let '(d, rerr) := db_close d in
  let '(d, werr) := db_close d in
  (d, match werr with Some _ => werr | None => rerr end).

(** [New]; [Err] is a panic with the error *)
Definition New (path : string) (d : D) : D * result unit :=
  if String.eqb path "" then (d, Err (ErrorText "sqlite state store: Path is required"))
  else
    let dsn := "file:" +:+ path +:+ "?_pragma=journal_mode(WAL)&_pragma=busy_timeout(5000)&_pragma=synchronous(FULL)" in
    let opened := "sqlite state store: open " +:+ path in
    match sql_open "sqlite" dsn d with
    | (d, Some e) => (d, Err (WrapError opened e))
    | (d, None) =>
        match sql_open "sqlite" dsn d with
        | (d, Some e) => (fst (db_close d), Err (WrapError opened e))
        | (d, None) =>
            match ensureSchema d with
            | (d, Err e) => (fst (Close d), Err (WrapError "sqlite state store: schema" e))
            | (d, Ok _) => (d, Ok tt)
            end
        end
    end.

(** [Save] *)
Definition meta_given (meta : RunMetadata) : Row :=
  [("run_id", SText (rm_RunID meta)); ("process_id", SText (rm_ProcessID meta));
   ("process_version", SText (rm_ProcessVersion meta)); ("status", SText (rm_Status meta));
   ("published_at", timePtrToNanos (rm_PublishedAt meta)); ("started_at", timePtrToNanos (rm_StartedAt meta));
   ("completed_at", timePtrToNanos (rm_CompletedAt meta)); ("evaluation_count", SInt (rm_EvaluationCount meta))].

Definition Save (d : D) (meta : RunMetadata) : D * option GoError :=
  if String.eqb (rm_RunID meta) "" then (d, Some (ErrorText "save: empty RunID"))
  else error_of (exec (Upsert "blkit_runs" "run_id" (meta_given meta)) d).

(** The body of the loop of [WriteBatch]. *)
Definition value_given (runID : string) (w : ValueWrite) : Row :=
  [("run_id", SText runID); ("task_id", SText (vw_TaskID w)); ("execution_id", SText (vw_ExecutionID w));
   ("field", SText (vw_Field w)); ("value", SText (text_of (vw_Value w))); ("status", SText "pending");
   ("ts", SInt (UnixNano (vw_Timestamp w)))].
Definition history_given (runID : string) (h : HistoryEntry) : Row :=
  let payload := match he_Payload h with [] => bytes_of "null" | _ => he_Payload h end in
  [("run_id", SText runID); ("kind", SText (he_Kind h)); ("node_id", match he_NodeID h with None => SNull | Some n => SText n end);
   ("execution_id", SText (he_ExecutionID h)); ("payload", SText (text_of payload)); ("ts", SInt (UnixNano (he_Timestamp h)))].

Definition write_op (op : WriteOp) : Db X unit :=
  match op_Kind op, op_ValueWrite op, op_StatusFlip op, op_HistoryEntry op with
  | OpValueWrite, Some w, _, _ => exec_in (Insert "blkit_values" (value_given (op_RunID op) w))
  | OpStatusFlip, _, Some f, _ =>
      exec_in (Update "blkit_values" [("status", SText (ValueStatus_String (sf_NewStatus f)))]
                 (pending_of (op_RunID op) (sf_TaskID f)))
  | OpHistoryEntry, _, _, Some h => exec_in (Insert "blkit_history" (history_given (op_RunID op) h))
  | _, _, _, _ => db_ret tt
  end.

(** [WriteBatch] *)
Definition WriteBatch (d : D) (ops : list WriteOp) : D * option GoError :=
  match validate_all ops with
  | Some e => (d, Some e)
  | None => error_of (in_tx (each write_op ops) d)
  end.

(** [Flush] *)
Definition Flush (d : D) (runID : string) : D * option GoError := (d, None).

(** [runMeta] *)
Definition runMeta (runID : string) : Db D (RunMetadata * bool) :=
  do! row := query_row (Select meta_columns "blkit_runs" (of_run runID) []) in
  match row with
  | Some r => do! meta := db_of (scan_meta scan_nanos runID r) in db_ret (meta, true)
  | None =>
      do! row := query_row (CountRows ["blkit_values"; "blkit_history"] (of_run runID)) in
      match row with
      | None => db_fail ErrNoRows
      | Some r => do! n := db_of (scan_int64 (cell r "count")) in db_ret (emptyMeta runID, 0 <? n)
      end
  end.

(** [CurrentVersion] *)
Definition CurrentVersion (runID : string) : Db D (option CurrentVersion) :=
  do! (meta, exists_) := runMeta runID in
  if negb exists_ then db_ret None
  else
    do! rows := db_query (SelectLatest latest_columns "blkit_values" (committed_of runID) ["task_id"; "field"] ["ts"; "id"]) in
    do! values := db_of (fold_rows rows ∅) in
    db_ret (Some (mkCurrentVersion meta values)).

(** [FullHistory] *)
Definition FullHistory (runID : string) : Db D (option FullHistory) :=
  do! (meta, exists_) := runMeta runID in
  if negb exists_ then db_ret None
  else
    do! rows := db_query (Select value_columns "blkit_values" (of_run runID) ["ts"; "id"]) in
    do! values := db_of (result_map (scan_value scan_nanos) rows) in
    do! hrows := db_query (Select history_columns "blkit_history" (of_run runID) ["ts"; "id"]) in
    do! history := db_of (result_map (scan_history scan_nanos) hrows) in
    db_ret (Some (mkFullHistory meta values history)).

(** [Config] *)
Definition Config : result (list (string * string)) := Err (ErrorText "sqlite state store cannot be shared across processes").

End Sqlite.

(** ** The store explains its log *)

Section SqliteLaws.
Context {D X : Type} `{!SqlEngine D X} {ST : SqlTypes} `{!SqlLaws D X} {BC : BinaryCollation ST} {SC : ScanLaws ST}.

Definition layout : Layout :=
  mkLayout "blkit_runs" "blkit_values" "blkit_history" runs_columns values_columns history_table_columns
    (fun t => SInt (UnixNano t)) scan_nanos nano_time.

Lemma sqlite_layout_good : layout_ok layout.
Proof.
  split; try done; [by repeat (constructor; [set_solver|]); constructor|apply scan_nanos_utc|apply nanos_order].
Qed.

(** The calls the columns keep exactly. *)
Definition admits (c : Call) : Prop :=
  match c with
  | CallSave m => storable_meta layout m
  | CallWriteBatch ops => Forall (storable layout) ops
  | CallFlush _ => True
  end.

Lemma sqlite_write_op_does op : does reported (write_op (D := D) op) (option_list (op_stmt layout op)).
Proof. destruct op as [rid [] [w|] [f|] [h|]]; try apply does_ret; apply does_exec; done. Qed.

#[global] Instance sqliteBackend : FaultyBackend D := {
  fb_save := Save; fb_write := WriteBatch; fb_flush := Flush; fb_current := CurrentVersion; fb_full := FullHistory
}.

Lemma sqlite_call_explained n d a c :
  rep layout n (contents d) a -> admits c ->
  outcome reported (fun d b => rep layout (n + call_ops c) (contents d) b) a c (fb_call d c).
Proof.
  intros Hr Hc. destruct c as [m|ops|id]; cbn [fb_call fb_save fb_write fb_flush sqliteBackend call_ops].
  - rewrite Nat.add_0_r. unfold Save. destruct (String.eqb_spec (rm_RunID m) "") as [E|E].
    { unfold outcome. cbn [fst snd canon_sql spec_call]. unfold spec_save. cbn [canon_meta rm_RunID]. by rewrite E. }
    eapply (save_outcome layout reported _ contents n); [done..|]. by apply (upsert_attempt layout sqlite_layout_good reported).
  - unfold WriteBatch. destruct (validate_all ops) as [e|] eqn:Hv.
    { unfold outcome. cbn [fst snd canon_sql canon_call spec_call]. unfold spec_write. rewrite validate_all_canon, Hv. cbn [fst snd].
      split; [done|]. eapply rep_mono; [|done]. lia. }
    eapply (batch_outcome layout sqlite_layout_good reported _ contents n); [done..|].
    apply (attempts_tx reported); [done|]. apply does_each. apply Forall_forall. intros op _. apply sqlite_write_op_does.
  - rewrite Nat.add_0_r. by split.
Qed.

#[global] Program Instance sqliteExplains : ExplainsLog D := {
  fb_admits := admits; fb_fault := reported; fb_rep n d a := rep layout n (contents d) a
}.
Next Obligation. intros. by apply sqlite_call_explained. Qed.
Next Obligation.
  intros n d a id Hr Hn. pose proof (read_current_answers layout sqlite_layout_good _ n d a id (fun n T a rows => answer_latest layout sqlite_layout_good n T a id rows) Hr Hn) as [Hc H].
  change (read_current _ _ id d) with (CurrentVersion id d) in *. cbn [fb_current sqliteBackend].
  destruct (CurrentVersion id d) as [d' [r|e]]; cbn [fst snd] in *; by rewrite Hc.
Qed.
Next Obligation.
  intros n d a id Hr Hn. pose proof (read_full_answers layout sqlite_layout_good n d a id Hr Hn) as [Hc H].
  change (read_full _ id d) with (FullHistory id d) in *. cbn [fb_full sqliteBackend].
  destruct (FullHistory id d) as [d' [r|e]]; cbn [fst snd] in *; by rewrite Hc.
Qed.

(** C14. The SQLite store, opened on a file without its tables, with fewer than 2^63
    writes and values and times that its columns keep: the calls that return
    nil have taken effect in order, a call that returns an error has done so
    entirely or not at all, every error is the specification's own or one the
    engine reported, and both reads answer from that log. *)
Theorem sqlite_store_refines_log (path : string) (d d0 : D) (cs : list Call) :
  blank layout (contents d) -> New path d = (d0, Ok tt) -> Forall admits cs -> Z.of_nat (calls_ops cs) < 2 ^ 63 ->
  let s := run_calls fb_call d0 cs in
  exists a, explained reported cs (snd s) ∅ a /\ forall id,
    match snd (CurrentVersion id (fst s)) with
    | Ok r => r = if known (abs_run a id) then spec_current a id else None
    | Err e => reported e
    end /\
    match snd (FullHistory id (fst s)) with
    | Ok r => option_map erase_full r = option_map erase_full (if known (abs_run a id) then spec_full a id else None)
    | Err e => reported e
    end.
Proof.
  intros Hb Hnew Hc Hn. refine (explained_observations (HE := sqliteExplains) d0 cs _ Hc Hn). revert Hnew. unfold New.
  destruct (String.eqb path ""); [done|]. pose proof (open_law "sqlite") as Ho.
  match goal with |- context [sql_open _ ?dsn d] => pose proof (Ho dsn d) as H1; destruct (sql_open "sqlite" dsn d) as [d1 [e|]]; [done|];
    pose proof (Ho dsn d1) as H2; destruct (sql_open "sqlite" dsn d1) as [d2 [e|]]; [done|] end. cbn [fst] in *.
  rewrite <- H1, <- H2 in Hb.
  assert (Hs : full_schema layout schema).
  { split; [unfold schema; repeat constructor; unfold schema_stmt, layout_tables; set_solver|].
    unfold layout_tables, schema. repeat constructor; cbn [fst snd layout ly_runs ly_values ly_history ly_rc ly_vc ly_hc]; set_solver. }
  pose proof (full_schema_rep layout sqlite_layout_good schema d2 Hs Hb) as H. change (each exec schema d2) with (ensureSchema d2) in H.
  destruct (ensureSchema d2) as [d3 [u|e]]; [|done]. by intros [= <-].
Qed.

End SqliteLaws.
