(* ===== verification/SqlOnce.v ===== *)
(** * SQL stores that create their tables on first use

    The Turso, PostgreSQL, MySQL, MariaDB and SQL Server stores guard every
    method with [ensureSchema], a [sync.Once] whose error sticks.  Such a store
    explains its log when its programs attempt the statements of its layout; the
    instances are in the files of the stores. *)

From S2P Require Import Prelude GoTime StateStore StateStoreLaws KvStore KvIndex Sql SqlLaws SqlBackend.
#[global] Open Scope Z_scope.

(** The tables of a store, by its prefix. *)
Definition runs_table (p : string) : string := p +:+ "runs".
Definition values_table (p : string) : string := p +:+ "values".
Definition history_table (p : string) : string := p +:+ "history".

Lemma tables_differ p : NoDup [runs_table p; values_table p; history_table p].
Proof.
  unfold runs_table, values_table, history_table.
  assert (H : forall s s', p +:+ s = p +:+ s' -> s = s') by (intros s s'; apply (inj (String.append p))).
  repeat constructor; rewrite ?elem_of_cons, ?elem_of_nil; intros Hin; destruct_or? Hin; by apply H in Hin.
Qed.

(** The layout of the stores whose columns hold times. *)
Definition time_layout {ST : SqlTypes} (p : string) (rc vc hc : list Column) : Layout :=
  mkLayout (runs_table p) (values_table p) (history_table p) rc vc hc sql_time scan_utc (fun _ => True).

Definition named_columns (rc vc hc : list Column) : Prop :=
  map (fun c => (c_name c, is_key c)) rc =
    [("run_id", true); ("process_id", false); ("process_version", false); ("status", false); ("published_at", false);
     ("started_at", false); ("completed_at", false); ("evaluation_count", false)] /\
  map (fun c => (c_name c, is_key c)) vc =
    [("id", true); ("run_id", false); ("task_id", false); ("execution_id", false); ("field", false); ("value", false);
     ("status", false); ("ts", false)] /\
  map (fun c => (c_name c, is_key c)) hc =
    [("id", true); ("run_id", false); ("kind", false); ("node_id", false); ("execution_id", false); ("payload", false);
     ("ts", false)].

Lemma time_layout_ok {ST : SqlTypes} {SC : ScanLaws ST} p rc vc hc : named_columns rc vc hc -> layout_ok (time_layout p rc vc hc).
Proof. intros (H1 & H2 & H3). split; try done; [apply tables_differ|intros; apply scan_utc_utc]. Qed.

Lemma nano_layout_ok {ST : SqlTypes} {SC : ScanLaws ST} p rc vc hc :
  named_columns rc vc hc ->
  layout_ok (mkLayout (runs_table p) (values_table p) (history_table p) rc vc hc (fun t => SInt (UnixNano t)) scan_nanos nano_time).
Proof. intros (H1 & H2 & H3). split; try done; [apply tables_differ|apply scan_nanos_utc|apply nanos_order]. Qed.

(** The test of the table prefix in [New]. *)
Definition table_prefix (name prefix : string) : result string :=
  let p := if String.eqb prefix "" then "blkit_" else prefix in
  if prefixPattern p then Ok p else Err (ErrorText (name +:+ " state store: invalid TablePrefix " +:+ quote prefix)).

Section Once.
Context {D X : Type} `{!SqlEngine D X} {ST : SqlTypes} `{!SqlLaws D X} {BC : BinaryCollation ST} {SC : ScanLaws ST}.

(** What a store is made of: layout and schema by prefix, the programs of its
    writes and the query of its current version. *)
Record Parts : Type := mkParts {
  pt_name : string;
  pt_layout : string -> Layout;
  pt_schema : string -> list Stmt;
  pt_save : string -> RunMetadata -> Db D unit;
  pt_write : string -> list WriteOp -> Db D unit;
  pt_latest : string -> string -> Query
}.

Record parts_ok (fault : GoError -> Prop) (P : Parts) : Prop := {
  po_reported e : reported e -> fault e;
  po_layout p : layout_ok (pt_layout P p);
  po_schema p : full_schema (pt_layout P p) (pt_schema P p);
  po_save p m n d a :
    storable_meta (pt_layout P p) m -> rep (pt_layout P p) n (contents d) a ->
    match pt_save P p m d with
    | (d', Ok _) => rep (pt_layout P p) n (contents d') (saved a (canon_meta m))
    | (d', Err e) => fault e /\ (contents d' = contents d \/ rep (pt_layout P p) n (contents d') (saved a (canon_meta m)))
    end;
  po_write p ops : validate_all ops = None -> attempts fault (pt_write P p ops) (batch_stmts (pt_layout P p) ops);
  po_latest p id : reads_latest (pt_layout P p) (pt_latest P p id) id
}.

Variable P : Parts.

Definition once_schema : Db (SqlStore D) unit :=
  schema_once (fun p => wrap_db (pt_name P +:+ " state store: schema") (each exec (pt_schema P p))).
Definition once_save (s : SqlStore D) (meta : RunMetadata) : SqlStore D * option GoError :=
  if String.eqb (rm_RunID meta) "" then (s, Some (ErrorText "save: empty RunID"))
  else error_of ((do! _ := once_schema in with_prefix (fun p => on_db (pt_save P p meta))) s).
Definition once_write (s : SqlStore D) (ops : list WriteOp) : SqlStore D * option GoError :=
  match validate_all ops with
  | Some e => (s, Some e)
  | None => error_of ((do! _ := once_schema in with_prefix (fun p => on_db (pt_write P p ops))) s)
  end.
Definition once_current (runID : string) : Db (SqlStore D) (option CurrentVersion) :=
  do! _ := once_schema in with_prefix (fun p => on_db (read_current (pt_layout P p) (pt_latest P p runID) runID)).
Definition once_full (runID : string) : Db (SqlStore D) (option FullHistory) :=
  do! _ := once_schema in with_prefix (fun p => on_db (read_full (pt_layout P p) runID)).

Variable fault : GoError -> Prop.
Hypothesis HP : parts_ok fault P.
Variable pre : string.
Abbreviation lay := (pt_layout P pre).

(** A store whose schema failed has taken no call. *)
Definition store_rep (n : nat) (s : SqlStore D) (a : AbsStore) : Prop :=
  st_prefix s = pre /\
  match st_schema s with
  | Some None => rep lay n (contents (st_db s)) a
  | Some (Some e) => fault e /\ a = ∅
  | None => blank lay (contents (st_db s)) /\ a = ∅
  end.

Lemma once_schema_rep n s a :
  store_rep n s a ->
  match once_schema s with
  | (s', Ok _) => st_prefix s' = pre /\ st_schema s' = Some None /\ rep lay n (contents (st_db s')) a
  | (s', Err e) => fault e /\ forall n', store_rep n' s' a
  end.
Proof.
  destruct s as [d dsn p o]. unfold store_rep, once_schema, schema_once. cbn [st_schema st_prefix st_db]. intros [-> H]. revert H.
  destruct o as [[e|]|]; [|done|].
  - intros [He ->]. split; [done|]. intros n'. by cbn.
  - intros [Hb ->]. unfold wrap_db. pose proof (full_schema_rep _ (po_layout _ _ HP pre) (pt_schema P pre) d (po_schema _ _ HP pre) Hb) as H.
    destruct (each exec (pt_schema P pre) d) as [d' [u|e]]; cbn.
    + split_and!; [done|done|]. eapply rep_mono; [|exact H]. lia.
    + destruct H as [Hb' He]. assert (Hw : fault (WrapError (pt_name P +:+ " state store: schema") e)) by (by apply (po_reported _ _ HP); constructor).
      split; [done|]. intros n'. by cbn.
Qed.

(** A guarded method: its program on a store with tables, or an error. *)
Lemma once_method {A} n s a (m : string -> Db D A) (Q : SqlStore D * result A -> Prop) :
  store_rep n s a ->
  (forall d dsn, rep lay n (contents d) a -> Q (let '(d', r) := m pre d in (mkSqlStore d' dsn pre (Some None), r))) ->
  (forall s' e, fault e -> (forall n', store_rep n' s' a) -> Q (s', Err e)) ->
  Q ((do! _ := once_schema in with_prefix (fun p => on_db (m p))) s).
Proof.
  intros Hr Hok Herr. pose proof (once_schema_rep n s a Hr) as H. unfold db_bind. destruct (once_schema s) as [[d dsn p o] [u|e]]; [|by apply Herr; apply H].
  destruct H as (Hp & Hs & Hrep). cbn in Hp, Hs, Hrep. subst p o. unfold with_prefix, on_db, set_db. cbn [st_prefix st_db st_dsn st_schema]. by apply Hok.
Qed.

Definition once_admits (c : Call) : Prop :=
  match c with
  | CallSave m => storable_meta lay m
  | CallWriteBatch ops => Forall (storable lay) ops
  | CallFlush _ => True
  end.

Instance onceBackend : FaultyBackend (SqlStore D) := {
  fb_save := once_save; fb_write := once_write; fb_flush s _ := (s, None); fb_current := once_current; fb_full := once_full
}.

Lemma save_explained n s a m :
  store_rep n s a -> storable_meta lay m -> outcome fault (store_rep n) a (CallSave m) (once_save s m).
Proof.
  intros Hr Hc. unfold once_save. destruct (String.eqb_spec (rm_RunID m) "") as [E|E].
  { unfold outcome. cbn [fst snd canon_sql spec_call]. unfold spec_save. cbn [canon_meta rm_RunID]. by rewrite E. }
  apply (once_method n s a (fun p => pt_save P p m) (fun q => outcome fault (store_rep n) a (CallSave m) (error_of q))); [done| |].
  - intros d dsn Hrep. pose proof (po_save _ _ HP pre m n d a Hc Hrep) as H. destruct (pt_save P pre m d) as [d' r].
    eapply (save_outcome lay fault (fun s b => store_rep n (mkSqlStore (st_db s) dsn pre (Some None)) b)
      (fun s => contents (st_db s)) n (mkSqlStore d' dsn pre (Some None), r)) in H; [exact H|done|done|]. intros s' b Hb. by split.
  - intros s' e He Hs'. unfold outcome, error_of. cbn [fst snd canon_sql spec_call]. unfold spec_save. cbn [canon_meta rm_RunID].
    rewrite (proj2 (String.eqb_neq _ _) E). cbn [snd]. auto.
Qed.

Lemma store_rep_mono n n' s a : (n <= n')%nat -> store_rep n s a -> store_rep n' s a.
Proof.
  intros Hn [Hp H]. split; [done|]. destruct (st_schema s) as [[e|]|]; [done| |done]. by eapply rep_mono.
Qed.

Lemma write_explained n s a ops :
  store_rep n s a -> Forall (storable lay) ops -> outcome fault (store_rep (n + length ops)) a (CallWriteBatch ops) (once_write s ops).
Proof.
  intros Hr Hc. unfold once_write. destruct (validate_all ops) as [e|] eqn:Hv.
  { unfold outcome. cbn [fst snd canon_sql canon_call spec_call]. unfold spec_write. rewrite validate_all_canon, Hv. cbn [fst snd].
    split; [done|]. eapply store_rep_mono; [|done]. lia. }
  apply (once_method n s a (fun p => pt_write P p ops) (fun q => outcome fault (store_rep (n + length ops)) a (CallWriteBatch ops) (error_of q))); [done| |].
  - intros d dsn Hrep. pose proof (po_write _ _ HP pre ops Hv d) as H. destruct (pt_write P pre ops d) as [d' r].
    eapply (batch_outcome lay (po_layout _ _ HP pre) fault (fun s b => store_rep (n + length ops) (mkSqlStore (st_db s) dsn pre (Some None)) b)
      (fun s => contents (st_db s)) n (mkSqlStore d' dsn pre (Some None), r)) in H; [exact H|done|done|done|]. intros s' b Hb. by split.
  - intros s' e He Hs'. unfold outcome, error_of. cbn [fst snd canon_sql canon_call spec_call]. unfold spec_write.
    rewrite validate_all_canon, Hv. cbn [fst snd]. auto.
Qed.

(** A guarded read. *)
Lemma read_explained {A} n s a (m : string -> Db D A) (Q : A -> Prop) :
  store_rep n s a -> (forall d, rep lay n (contents d) a -> answers d (m pre d) Q) ->
  match (do! _ := once_schema in with_prefix (fun p => on_db (m p))) s with
  | (s', Ok r) => store_rep n s' a /\ Q r
  | (s', Err e) => store_rep n s' a /\ fault e
  end.
Proof.
  intros Hr Hm. apply (once_method n s a m (fun q => match q with (s', Ok r) => store_rep n s' a /\ Q r | (s', Err e) => store_rep n s' a /\ fault e end)); [done| |].
  - intros d dsn Hrep. destruct (Hm d Hrep) as [Hc H]. destruct (m pre d) as [d' [r|e]]; cbn [fst snd] in *.
    + split; [|done]. split; [done|]. cbn. by rewrite Hc.
    + split; [|by apply (po_reported _ _ HP)]. split; [done|]. cbn. by rewrite Hc.
  - intros s' e He Hs'. by split.
Qed.

Program Definition onceExplains : ExplainsLog (SqlStore D) := {|
  fb_admits := once_admits; fb_fault := fault; fb_rep := store_rep
|}.
Next Obligation.
  intros n s a [m|ops|id] Hr Hc; cbn [fb_call onceBackend fb_save fb_write fb_flush call_ops].
  - rewrite Nat.add_0_r. by apply save_explained.
  - by apply write_explained.
  - rewrite Nat.add_0_r. by split.
Qed.
Next Obligation.
  intros n s a id Hr Hn. apply read_explained; [done|]. intros d Hrep.
  apply (read_current_answers _ (po_layout _ _ HP pre) _ n); [apply (po_latest _ _ HP)|done|done].
Qed.
Next Obligation.
  intros n s a id Hr Hn. apply read_explained; [done|]. intros d Hrep.
  by apply (read_full_answers _ (po_layout _ _ HP pre) n).
Qed.

(** After any history, from a store that has not created its tables. *)
Lemma once_observations d dsn cs :
  blank lay (contents d) -> Forall once_admits cs -> Z.of_nat (calls_ops cs) < 2 ^ 63 ->
  let s := run_calls fb_call (mkSqlStore d dsn pre None) cs in
  exists a, explained fault cs (snd s) ∅ a /\ forall id,
    match snd (once_current id (fst s)) with
    | Ok r => r = if known (abs_run a id) then spec_current a id else None
    | Err e => fault e
    end /\
    match snd (once_full id (fst s)) with
    | Ok r => option_map erase_full r = option_map erase_full (if known (abs_run a id) then spec_full a id else None)
    | Err e => fault e
    end.
Proof.
  intros Hb Hc Hn. exact (explained_observations (HE := onceExplains) (mkSqlStore d dsn pre None) cs (conj eq_refl (conj Hb eq_refl)) Hc Hn).
Qed.

(** The error of a failed schema sticks: the guarded methods return it from then
    on, whatever the engine would answer. *)
Lemma schema_error_sticks s e m ops id :
  st_schema s = Some (Some e) -> rm_RunID m <> "" -> validate_all ops = None ->
  once_save s m = (s, Some e) /\ once_write s ops = (s, Some e) /\ once_current id s = (s, Err e) /\ once_full id s = (s, Err e).
Proof.
  intros Hs Hm Hv. unfold once_save, once_write, once_current, once_full. rewrite (proj2 (String.eqb_neq _ _) Hm), Hv.
  unfold db_bind, once_schema, schema_once. rewrite Hs. by split_and!.
Qed.

End Once.
