(* ===== verification/Mariadb.v ===== *)
(** * The MariaDB state store

    Models [stores/mariadb/store.go]. *)

From S2P Require Import Prelude GoTime StateStore StateStoreLaws KvStore KvIndex Sql SqlLaws SqlBackend SqlOnce.
#[global] Open Scope Z_scope.

Section Mariadb.
Context {D X : Type} `{!SqlEngine D X} {ST : SqlTypes} `{!SqlReturning X}.

(** The driver's [ParseDSN] and [FormatDSN], with [ParseTime] and [Loc] set in
    between. *)
Variable utc_dsn : string -> result string.

(** [New]; [Err] is a panic with the error *)
Definition New (dsn prefix : string) (d : D) : result (SqlStore D) :=
  if String.eqb dsn "" then Err (ErrorText "mariadb state store: DSN is required")
  else
    let! p := table_prefix "mariadb" prefix in
    match utc_dsn dsn with
    | Err e => Err (WrapError "mariadb state store: parse DSN" e)
    | Ok formatted =>
        match sql_open "mysql" formatted d with
        | (_, Some e) => Err (WrapError "mariadb state store: open" e)
        | (d', None) => Ok (mkSqlStore d' dsn p None)
        end
    end.

(** The tables of [ensureSchema] *)
Definition runs_columns : list Column :=
  [mkColumn "run_id" "VARCHAR(255)" [PrimaryKey];
   mkColumn "process_id" "VARCHAR(255)" [NotNull];
   mkColumn "process_version" "VARCHAR(64)" [NotNull];
   mkColumn "status" "VARCHAR(32)" [NotNull];
   mkColumn "published_at" "DATETIME(6)" [];
   mkColumn "started_at" "DATETIME(6)" [];
   mkColumn "completed_at" "DATETIME(6)" [];
   mkColumn "evaluation_count" "INT" [NotNull; Default (SInt 0)]].
Definition values_columns : list Column :=
  [mkColumn "id" "BIGINT AUTO_INCREMENT" [PrimaryKey];
   mkColumn "run_id" "VARCHAR(255)" [NotNull];
   mkColumn "task_id" "VARCHAR(255)" [NotNull];
   mkColumn "execution_id" "VARCHAR(255)" [NotNull];
   mkColumn "field" "VARCHAR(255)" [NotNull];
   mkColumn "value" "LONGTEXT" [NotNull; Check "JSON_VALID(value)"];
   mkColumn "status" "VARCHAR(16)" [NotNull; Default (SText "pending")];
   mkColumn "ts" "DATETIME(6)" [NotNull]].
Definition history_columns_ : list Column :=
  [mkColumn "id" "BIGINT AUTO_INCREMENT" [PrimaryKey];
   mkColumn "run_id" "VARCHAR(255)" [NotNull];
   mkColumn "kind" "VARCHAR(64)" [NotNull];
   mkColumn "node_id" "VARCHAR(255)" [];
   mkColumn "execution_id" "VARCHAR(255)" [NotNull];
   mkColumn "payload" "LONGTEXT" [NotNull; Check "JSON_VALID(payload)"];
   mkColumn "ts" "DATETIME(6)" [NotNull]].

(** [table] *)
Definition table (p name : string) : string := p +:+ name.

(** The statements of [ensureSchema], without the [INDEX] clauses of the tables *)
Definition schema (p : string) : list Stmt :=
  [CreateTable (table p "runs") runs_columns;
   CreateTable (table p "values") values_columns;
   CreateTable (table p "history") history_columns_].

(** [ensureSchema] *)
Definition ensureSchema : Db (SqlStore D) unit :=
  schema_once (fun p => wrap_db "mariadb state store: schema" (each exec (schema p))).

(** [Save] *)
Definition meta_given (meta : RunMetadata) : Row :=
  [("run_id", SText (rm_RunID meta)); ("process_id", SText (rm_ProcessID meta));
   ("process_version", SText (rm_ProcessVersion meta)); ("status", SText (rm_Status meta));
   ("published_at", utcPtr (rm_PublishedAt meta)); ("started_at", utcPtr (rm_StartedAt meta));
   ("completed_at", utcPtr (rm_CompletedAt meta)); ("evaluation_count", SInt (rm_EvaluationCount meta))].

Definition Save (s : SqlStore D) (meta : RunMetadata) : SqlStore D * option GoError :=
  if String.eqb (rm_RunID meta) "" then (s, Some (ErrorText "save: empty RunID"))
  else error_of ((do! _ := ensureSchema in
                  with_prefix (fun p => on_db (exec (Upsert (table p "runs") "run_id" (meta_given meta))))) s).

(** [tx.QueryRow("INSERT ... RETURNING id").Scan(&id)] *)
Definition insert_returning (s : Stmt) : Db X unit :=
  do! rows := tx_returning s "id" in
  match rows with
  | [] => db_fail ErrNoRows
  | r :: _ => do! _ := db_of (scan_int64 (cell r "id")) in db_ret tt
  end.

(** The body of the loop of [WriteBatch]. *)
Definition value_given (runID : string) (w : ValueWrite) : Row :=
  [("run_id", SText runID); ("task_id", SText (vw_TaskID w)); ("execution_id", SText (vw_ExecutionID w));
   ("field", SText (vw_Field w)); ("value", SText (text_of (vw_Value w))); ("status", SText "pending");
   ("ts", sql_time (vw_Timestamp w))].
Definition history_given (runID : string) (h : HistoryEntry) : Row :=
  let payload := match he_Payload h with [] => bytes_of "null" | _ => he_Payload h end in
  [("run_id", SText runID); ("kind", SText (he_Kind h)); ("node_id", match he_NodeID h with None => SNull | Some n => SText n end);
   ("execution_id", SText (he_ExecutionID h)); ("payload", SText (text_of payload)); ("ts", sql_time (he_Timestamp h))].

Definition write_op (p : string) (op : WriteOp) : Db X unit :=
  match op_Kind op, op_ValueWrite op, op_StatusFlip op, op_HistoryEntry op with
  | OpValueWrite, Some w, _, _ => insert_returning (Insert (table p "values") (value_given (op_RunID op) w))
  | OpStatusFlip, _, Some f, _ =>
      exec_in (Update (table p "values") [("status", SText (ValueStatus_String (sf_NewStatus f)))]
                 (pending_of (op_RunID op) (sf_TaskID f)))
  | OpHistoryEntry, _, _, Some h => insert_returning (Insert (table p "history") (history_given (op_RunID op) h))
  | _, _, _, _ => db_ret tt
  end.

(** [WriteBatch] *)
Definition WriteBatch (s : SqlStore D) (ops : list WriteOp) : SqlStore D * option GoError :=
  match validate_all ops with
  | Some e => (s, Some e)
  | None => error_of ((do! _ := ensureSchema in with_prefix (fun p => on_db (in_tx (each (write_op p) ops)))) s)
  end.

(** [Flush] *)
Definition Flush (s : SqlStore D) (runID : string) : SqlStore D * option GoError := (s, None).

(** [runMeta] *)
Definition runMeta (p runID : string) : Db D (RunMetadata * bool) :=
  do! row := query_row (Select meta_columns (table p "runs") (of_run runID) []) in
  match row with
  | Some r => do! meta := db_of (scan_meta scan_utc runID r) in db_ret (meta, true)
  | None =>
      do! row := query_row (CountRows [table p "values"; table p "history"] (of_run runID)) in
      match row with
      | None => db_fail ErrNoRows
      | Some r => do! n := db_of (scan_int64 (cell r "count")) in db_ret (emptyMeta runID, 0 <? n)
      end
  end.

(** [CurrentVersion] *)
Definition CurrentVersion (runID : string) : Db (SqlStore D) (option CurrentVersion) :=
  do! _ := ensureSchema in
  with_prefix (fun p => on_db (
    do! (meta, exists_) := runMeta p runID in
    if negb exists_ then db_ret None
    else
      do! rows := db_query (SelectLatest latest_columns (table p "values") (committed_of runID) ["task_id"; "field"] ["ts"; "id"]) in
      do! values := db_of (fold_rows rows ∅) in
      db_ret (Some (mkCurrentVersion meta values)))).

(** [FullHistory] *)
Definition FullHistory (runID : string) : Db (SqlStore D) (option FullHistory) :=
  do! _ := ensureSchema in
  with_prefix (fun p => on_db (
    do! (meta, exists_) := runMeta p runID in
    if negb exists_ then db_ret None
    else
      do! rows := db_query (Select value_columns (table p "values") (of_run runID) ["ts"; "id"]) in
      do! values := db_of (result_map (scan_value scan_utc) rows) in
      do! hrows := db_query (Select history_columns (table p "history") (of_run runID) ["ts"; "id"]) in
      do! history := db_of (result_map (scan_history scan_utc) hrows) in
      db_ret (Some (mkFullHistory meta values history)))).

(** [Config] *)
Definition Config (s : SqlStore D) : list (string * string) := [("dsn", st_dsn s); ("table_prefix", st_prefix s)].

(** [Close] *)
Definition Close (s : SqlStore D) : SqlStore D * option GoError :=
  let '(d, e) := db_close (st_db s) in (set_db d s, e).

End Mariadb.

(** ** The store explains its log *)

Section MariadbLaws.
Context {D X : Type} `{!SqlEngine D X} {ST : SqlTypes} `{!SqlLaws D X} {BC : BinaryCollation ST} {SC : ScanLaws ST}.
Context `{!SqlReturning X} `{!SqlReturningLaws D X}.

(** An error of the engine, at an [INSERT ... RETURNING] too. *)
Definition mariadb_fault (e : GoError) : Prop := reported e \/ exists s c x, snd (tx_returning s c x) = Err e.

Definition layout (p : string) : Layout := time_layout p runs_columns values_columns history_columns_.

Definition parts : Parts (D := D) := {|
  pt_name := "mariadb"; pt_layout := layout; pt_schema := schema;
  pt_save p m := exec (Upsert (table p "runs") "run_id" (meta_given m));
  pt_write p ops := in_tx (each (write_op p) ops);
  pt_latest p id := SelectLatest latest_columns (table p "values") (committed_of id) ["task_id"; "field"] ["ts"; "id"]
|}.

Lemma mariadb_layout_good p : layout_ok (layout p).
Proof. by apply time_layout_ok. Qed.

Lemma mariadb_returning_does s : does mariadb_fault (insert_returning s) [s].
Proof.
  intros x. unfold insert_returning, db_bind. destruct (tx_returning s "id" x) as [x' [rows|e]] eqn:E; [|right; exists s, "id", x; by rewrite E].
  destruct (returning_law _ _ _ _ _ E) as (n & id & Hs & -> & Hid). cbn. rewrite scan_int64_int by lia. cbn.
  by econstructor; [|constructor].
Qed.

Lemma mariadb_write_op_does p op : does mariadb_fault (write_op p op) (option_list (op_stmt (layout p) op)).
Proof.
  destruct op as [rid [] [w|] [f|] [h|]]; try apply does_ret; try apply mariadb_returning_does; apply does_exec; by left.
Qed.

Lemma mariadb_schema_full p : full_schema (layout p) (schema p).
Proof.
  split; [unfold schema; repeat constructor; unfold schema_stmt, layout_tables; set_solver|].
  unfold layout_tables, schema. repeat constructor; cbn [fst snd layout ly_runs ly_values ly_history ly_rc ly_vc ly_hc]; set_solver.
Qed.

Lemma mariadb_parts_good : parts_ok mariadb_fault parts.
Proof.
  split; [by left|exact mariadb_layout_good|exact mariadb_schema_full| | |].
  - intros p m n d a Hm Hr. by apply (upsert_attempt (layout p) (mariadb_layout_good p) mariadb_fault); [by left|..].
  - intros p ops _. apply attempts_tx; [by left|]. apply does_each, Forall_forall. intros op _. apply mariadb_write_op_does.
  - intros p id n T a rows. apply (answer_latest (layout p) (mariadb_layout_good p)).
Qed.

#[global] Instance mariadbBackend : FaultyBackend (SqlStore D) := {
  fb_save := Save; fb_write := WriteBatch; fb_flush := Flush; fb_current := CurrentVersion; fb_full := FullHistory
}.

(** The MariaDB store with a binary collation, before it has created its tables:
    the calls that return nil have taken effect in order, a call that returns an
    error has done so entirely or not at all, every error is the specification's
    own or one the engine reported, and both reads answer from that log. *)
Theorem mariadb_store_refines_log (d : D) (dsn p : string) (cs : list Call) :
  blank (layout p) (contents d) -> Forall (once_admits parts p) cs -> Z.of_nat (calls_ops cs) < 2 ^ 63 ->
  let s := run_calls fb_call (mkSqlStore d dsn p None) cs in
  exists a, explained mariadb_fault cs (snd s) ∅ a /\ forall id,
    match snd (CurrentVersion id (fst s)) with
    | Ok r => r = if known (abs_run a id) then spec_current a id else None
    | Err e => mariadb_fault e
    end /\
    match snd (FullHistory id (fst s)) with
    | Ok r => option_map erase_full r = option_map erase_full (if known (abs_run a id) then spec_full a id else None)
    | Err e => mariadb_fault e
    end.
Proof. exact (once_observations parts mariadb_fault mariadb_parts_good p d dsn cs). Qed.

End MariadbLaws.
