(* ===== verification/Turso.v ===== *)
(** * The Turso state store

    Models [stores/turso/store.go]. *)

From S2P Require Import Prelude GoTime StateStore StateStoreLaws KvStore KvIndex Sql SqlLaws SqlBackend SqlOnce.
#[global] Open Scope Z_scope.

Section Turso.
Context {D X : Type} `{!SqlEngine D X} {ST : SqlTypes}.

(** [New]; [Err] is a panic with the error *)
Definition New (path prefix : string) (d : D) : result (SqlStore D) :=
  if String.eqb path "" then Err (ErrorText "turso state store: Path is required")
  else
    let! p := table_prefix "turso" prefix in
    match sql_open "turso" path d with
    | (_, Some e) => Err (WrapError ("turso state store: open " +:+ path) e)
    | (d', None) => Ok (mkSqlStore d' path p None)
    end.

(** The tables of [ensureSchema] *)
Definition runs_columns : list Column :=
  [mkColumn "run_id" "TEXT" [PrimaryKey];
   mkColumn "process_id" "TEXT" [NotNull];
   mkColumn "process_version" "TEXT" [NotNull];
   mkColumn "status" "TEXT" [NotNull];
   mkColumn "published_at" "INTEGER" [];
   mkColumn "started_at" "INTEGER" [];
   mkColumn "completed_at" "INTEGER" [];
   mkColumn "evaluation_count" "INTEGER" [NotNull; Default (SInt 0)]].
Definition values_columns : list Column :=
  [mkColumn "id" "INTEGER" [PrimaryKey];
   mkColumn "run_id" "TEXT" [NotNull];
   mkColumn "task_id" "TEXT" [NotNull];
   mkColumn "execution_id" "TEXT" [NotNull];
   mkColumn "field" "TEXT" [NotNull];
   mkColumn "value" "TEXT" [NotNull];
   mkColumn "status" "TEXT" [NotNull; Default (SText "pending")];
   mkColumn "ts" "INTEGER" [NotNull]].
Definition history_columns_ : list Column :=
  [mkColumn "id" "INTEGER" [PrimaryKey];
   mkColumn "run_id" "TEXT" [NotNull];
   mkColumn "kind" "TEXT" [NotNull];
   mkColumn "node_id" "TEXT" [];
   mkColumn "execution_id" "TEXT" [NotNull];
   mkColumn "payload" "TEXT" [NotNull];
   mkColumn "ts" "INTEGER" [NotNull]].

(** [table] *)
Definition table (p name : string) : string := p +:+ name.

(** The statements of [ensureSchema] *)
Definition schema (p : string) : list Stmt :=
  [CreateTable (table p "runs") runs_columns;
   CreateTable (table p "values") values_columns;
   CreateIndex (table p "values" +:+ "_replay") (table p "values") ["run_id"; "ts"; "id"] [];
   CreateIndex (table p "values" +:+ "_pending") (table p "values") ["run_id"; "task_id"; "status"] [];
   CreateTable (table p "history") history_columns_;
   CreateIndex (table p "history" +:+ "_replay") (table p "history") ["run_id"; "ts"; "id"] []].

(** [ensureSchema] *)
Definition ensureSchema : Db (SqlStore D) unit :=
  schema_once (fun p => wrap_db "turso state store: schema" (each exec (schema p))).

(** [Save]: an update and, when it finds no row, an insert *)
Definition meta_sets (meta : RunMetadata) : Row :=
  [("process_id", SText (rm_ProcessID meta));
   ("process_version", SText (rm_ProcessVersion meta)); ("status", SText (rm_Status meta));
   ("published_at", timePtrToNanos (rm_PublishedAt meta)); ("started_at", timePtrToNanos (rm_StartedAt meta));
   ("completed_at", timePtrToNanos (rm_CompletedAt meta)); ("evaluation_count", SInt (rm_EvaluationCount meta))].

Definition save_in (p : string) (meta : RunMetadata) : Db X unit :=
  do! n := tx_exec (Update (table p "runs") (meta_sets meta) (of_run (rm_RunID meta))) in
  if n =? 0 then exec_in (Insert (table p "runs") (("run_id", SText (rm_RunID meta)) :: meta_sets meta)) else db_ret tt.

Definition Save (s : SqlStore D) (meta : RunMetadata) : SqlStore D * option GoError :=
  if String.eqb (rm_RunID meta) "" then (s, Some (ErrorText "save: empty RunID"))
  else error_of ((do! _ := ensureSchema in with_prefix (fun p => on_db (in_tx (save_in p meta)))) s).

(** The body of the loop of [WriteBatch]. *)
Definition value_given (runID : string) (w : ValueWrite) : Row :=
  [("run_id", SText runID); ("task_id", SText (vw_TaskID w)); ("execution_id", SText (vw_ExecutionID w));
   ("field", SText (vw_Field w)); ("value", SText (text_of (vw_Value w))); ("status", SText "pending");
   ("ts", SInt (UnixNano (vw_Timestamp w)))].
Definition history_given (runID : string) (h : HistoryEntry) : Row :=
  let payload := match he_Payload h with [] => bytes_of "null" | _ => he_Payload h end in
  [("run_id", SText runID); ("kind", SText (he_Kind h)); ("node_id", match he_NodeID h with None => SNull | Some n => SText n end);
   ("execution_id", SText (he_ExecutionID h)); ("payload", SText (text_of payload)); ("ts", SInt (UnixNano (he_Timestamp h)))].

Definition write_op (p : string) (op : WriteOp) : Db X unit :=
  match op_Kind op, op_ValueWrite op, op_StatusFlip op, op_HistoryEntry op with
  | OpValueWrite, Some w, _, _ => exec_in (Insert (table p "values") (value_given (op_RunID op) w))
  | OpStatusFlip, _, Some f, _ =>
      exec_in (Update (table p "values") [("status", SText (ValueStatus_String (sf_NewStatus f)))]
                 (pending_of (op_RunID op) (sf_TaskID f)))
  | OpHistoryEntry, _, _, Some h => exec_in (Insert (table p "history") (history_given (op_RunID op) h))
  | _, _, _, _ => db_ret tt
  end.

(** [WriteBatch] *)
Definition WriteBatch (s : SqlStore D) (ops : list WriteOp) : SqlStore D * option GoError :=
  match validate_all ops with
  | Some e => (s, Some e)
  | None => error_of ((do! _ := ensureSchema in with_prefix (fun p => on_db (in_tx (each (write_op p) ops)))) s)
  end.

(** [Flush] *)
Definition Flush (s : SqlStore D) (runID : string) : SqlStore D * option GoError := (s, None).

(** [runMeta] *)
Definition runMeta (p runID : string) : Db D (RunMetadata * bool) :=
  do! row := query_row (Select meta_columns (table p "runs") (of_run runID) []) in
  match row with
  | Some r => do! meta := db_of (scan_meta scan_nanos runID r) in db_ret (meta, true)
  | None =>
      do! row := query_row (CountRows [table p "values"; table p "history"] (of_run runID)) in
      match row with
      | None => db_fail ErrNoRows
      | Some r => do! n := db_of (scan_int64 (cell r "count")) in db_ret (emptyMeta runID, 0 <? n)
      end
  end.

(** [CurrentVersion] *)
Definition CurrentVersion (runID : string) : Db (SqlStore D) (option CurrentVersion) :=
  do! _ := ensureSchema in
  with_prefix (fun p => on_db (
    do! (meta, exists_) := runMeta p runID in
    if negb exists_ then db_ret None
    else
      do! rows := db_query (Select latest_columns (table p "values") (committed_of runID) ["ts"; "id"]) in
      do! values := db_of (fold_rows rows ∅) in
      db_ret (Some (mkCurrentVersion meta values)))).

(** [FullHistory] *)
Definition FullHistory (runID : string) : Db (SqlStore D) (option FullHistory) :=
  do! _ := ensureSchema in
  with_prefix (fun p => on_db (
    do! (meta, exists_) := runMeta p runID in
    if negb exists_ then db_ret None
    else
      do! rows := db_query (Select value_columns (table p "values") (of_run runID) ["ts"; "id"]) in
      do! values := db_of (result_map (scan_value scan_nanos) rows) in
      do! hrows := db_query (Select history_columns (table p "history") (of_run runID) ["ts"; "id"]) in
      do! history := db_of (result_map (scan_history scan_nanos) hrows) in
      db_ret (Some (mkFullHistory meta values history)))).

(** [Config] *)
Definition Config : result (list (string * string)) := Err (ErrorText "turso state store cannot be shared across processes").

(** [Close] *)
Definition Close (s : SqlStore D) : SqlStore D * option GoError :=
  let '(d, e) := db_close (st_db s) in (set_db d s, e).

End Turso.

(** ** The store explains its log *)

Section TursoLaws.
Context {D X : Type} `{!SqlEngine D X} {ST : SqlTypes} `{!SqlLaws D X} {BC : BinaryCollation ST} {SC : ScanLaws ST}.

Definition layout (p : string) : Layout :=
  mkLayout (runs_table p) (values_table p) (history_table p) runs_columns values_columns history_columns_
    (fun t => SInt (UnixNano t)) scan_nanos nano_time.

Definition parts : Parts (D := D) := {|
  pt_name := "turso"; pt_layout := layout; pt_schema := schema;
  pt_save p m := in_tx (save_in (D := D) p m);
  pt_write p ops := in_tx (each (write_op (D := D) p) ops);
  pt_latest p id := Select latest_columns (table p "values") (committed_of id) ["ts"; "id"]
|}.

Lemma turso_layout_good p : layout_ok (layout p).
Proof. by apply nano_layout_ok. Qed.

Lemma turso_write_op_does p op : does reported (write_op (D := D) p op) (option_list (op_stmt (layout p) op)).
Proof. destruct op as [rid [] [w|] [f|] [h|]]; try apply does_ret; apply does_exec; done. Qed.

Lemma turso_schema_full p : full_schema (layout p) (schema p).
Proof.
  split; [unfold schema; repeat constructor; unfold schema_stmt, layout_tables; set_solver|].
  unfold layout_tables, schema. repeat constructor; cbn [fst snd layout ly_runs ly_values ly_history ly_rc ly_vc ly_hc]; set_solver.
Qed.

(** The update finds the row of a run that has one; otherwise the insert makes
    it. *)
Lemma turso_save_in p m n x a :
  storable_meta (layout p) m -> rep (layout p) n (pending x) a ->
  match save_in (D := D) p m x with
  | (x', Ok _) => rep (layout p) n (pending x') (saved a (canon_meta m))
  | (_, Err e) => reported e
  end.
Proof.
  intros Hm Hr. unfold save_in, db_bind. set (u := Update _ _ _). destruct (tx_exec u x) as [x1 [k|e]] eqn:Eu;
    [|apply (rep_tx_exec u x); by rewrite Eu].
  pose proof (tx_exec_law _ _ _ _ Eu) as Hu. destruct (rep_runs _ _ _ _ Hr) as (rows & Er & Hrr).
  destruct (step_update_inv _ _ _ _ _ _ _ Hu Er) as (rows' & Hrows & Ex & Hk). cbn [tb_columns tb_rows] in *.
  fold (run_rows (rm_RunID m) rows) in Hk. destruct (Z.eqb_spec k 0) as [E0|E0].
  - assert (He : run_rows (rm_RunID m) rows = []) by (destruct (run_rows (rm_RunID m) rows); [done|cbn in Hk; lia]).
    assert (Hsame : pending x1 = pending x).
    { rewrite Ex. rewrite (update_rows_none _ _ _ _ _ Hrows He). by apply insert_id. }
    pose proof (does_exec reported (Insert (table p "runs") (("run_id", SText (rm_RunID m)) :: meta_sets m)) (fun e H => H) x1) as Hi.
    destruct (exec_in _ x1) as [x2 [v|e]]; [|done]. rewrite Hsame in Hi. inversion Hi as [|? ? ? T1 ? j H1 H2]; subst. inversion H2; subst.
    by eapply (rep_insert_meta (layout p) (turso_layout_good p)).
  - cbn. eapply (rep_update_meta (layout p) (turso_layout_good p)); [done|done|done| |exact Hu].
    intros E. apply E0. rewrite Hk, E. done.
Qed.

Lemma turso_parts_good : parts_ok reported parts.
Proof.
  split; [done|exact turso_layout_good|exact turso_schema_full| | |].
  - intros p m n d a Hm Hr. apply (tx_commits reported _ (fun T => rep (layout p) n T (saved a (canon_meta m)))); [done|].
    intros x Hx. rewrite <- Hx in Hr. by apply turso_save_in.
  - intros p ops _. apply attempts_tx; [done|]. apply does_each, Forall_forall. intros op _. apply turso_write_op_does.
  - intros p id n T a rows. apply (answer_ordered (layout p) (turso_layout_good p)).
Qed.

#[global] Instance tursoBackend : FaultyBackend (SqlStore D) := {
  fb_save := Save; fb_write := WriteBatch; fb_flush := Flush; fb_current := CurrentVersion; fb_full := FullHistory
}.

(** The Turso store, before it has created its tables:
    the calls that return nil have taken effect in order, a call that returns an
    error has done so entirely or not at all, every error is the specification's
    own or one the engine reported, and both reads answer from that log. *)
Theorem turso_store_refines_log (d : D) (dsn p : string) (cs : list Call) :
  blank (layout p) (contents d) -> Forall (once_admits parts p) cs -> Z.of_nat (calls_ops cs) < 2 ^ 63 ->
  let s := run_calls fb_call (mkSqlStore d dsn p None) cs in
  exists a, explained reported cs (snd s) ∅ a /\ forall id,
    match snd (CurrentVersion id (fst s)) with
    | Ok r => r = if known (abs_run a id) then spec_current a id else None
    | Err e => reported e
    end /\
    match snd (FullHistory id (fst s)) with
    | Ok r => option_map erase_full r = option_map erase_full (if known (abs_run a id) then spec_full a id else None)
    | Err e => reported e
    end.
Proof. exact (once_observations parts reported turso_parts_good p d dsn cs). Qed.

End TursoLaws.
