(* ===== verification/Postgres.v ===== *)
(** * The PostgreSQL state store

    Models [stores/postgres/store.go]. *)

From S2P Require Import Prelude GoTime StateStore StateStoreLaws KvStore KvIndex Sql SqlLaws SqlBackend SqlOnce.
#[global] Open Scope Z_scope.

Section Postgres.
Context {D X : Type} `{!SqlEngine D X} {ST : SqlTypes} `{!PgxBatch X}.

(** [pgxpool.ParseConfig] *)
Variable parse_config : string -> option GoError.

(** [New]; [Err] is a panic with the error.  [sql_open] is
    [pgxpool.NewWithConfig]. *)
Definition New (dsn prefix : string) (d : D) : result (SqlStore D) :=
  if String.eqb dsn "" then Err (ErrorText "postgres state store: DSN is required")
  else
    let! p := table_prefix "postgres" prefix in
    match parse_config dsn with
    | Some e => Err (WrapError "postgres state store: parse DSN" e)
    | None =>
        match sql_open "pgx" dsn d with
        | (_, Some e) => Err (WrapError "postgres state store: pool" e)
        | (d', None) => Ok (mkSqlStore d' dsn p None)
        end
    end.

(** The tables of [ensureSchema] *)
Definition runs_columns : list Column :=
  [mkColumn "run_id" "TEXT" [PrimaryKey];
   mkColumn "process_id" "TEXT" [NotNull];
   mkColumn "process_version" "TEXT" [NotNull];
   mkColumn "status" "TEXT" [NotNull];
   mkColumn "published_at" "TIMESTAMPTZ" [];
   mkColumn "started_at" "TIMESTAMPTZ" [];
   mkColumn "completed_at" "TIMESTAMPTZ" [];
   mkColumn "evaluation_count" "INTEGER" [NotNull; Default (SInt 0)]].
Definition values_columns : list Column :=
  [mkColumn "id" "BIGSERIAL" [PrimaryKey];
   mkColumn "run_id" "TEXT" [NotNull];
   mkColumn "task_id" "TEXT" [NotNull];
   mkColumn "execution_id" "TEXT" [NotNull];
   mkColumn "field" "TEXT" [NotNull];
   mkColumn "value" "JSONB" [NotNull];
   mkColumn "status" "TEXT" [NotNull; Default (SText "pending")];
   mkColumn "ts" "TIMESTAMPTZ" [NotNull]].
Definition history_columns_ : list Column :=
  [mkColumn "id" "BIGSERIAL" [PrimaryKey];
   mkColumn "run_id" "TEXT" [NotNull];
   mkColumn "kind" "TEXT" [NotNull];
   mkColumn "node_id" "TEXT" [];
   mkColumn "execution_id" "TEXT" [NotNull];
   mkColumn "payload" "JSONB" [NotNull];
   mkColumn "ts" "TIMESTAMPTZ" [NotNull]].

(** [table] *)
Definition table (p name : string) : string := p +:+ name.

(** The statements of [ensureSchema] *)
Definition schema (p : string) : list Stmt :=
  [CreateTable (table p "runs") runs_columns;
   CreateTable (table p "values") values_columns;
   CreateIndex (table p "values" +:+ "_replay") (table p "values") ["run_id"; "ts"; "id"] [];
   CreateIndex (table p "values" +:+ "_pending") (table p "values") ["run_id"; "task_id"] [("status", SText "pending")];
   CreateTable (table p "history") history_columns_;
   CreateIndex (table p "history" +:+ "_replay") (table p "history") ["run_id"; "ts"; "id"] []].

(** [ensureSchema] *)
Definition ensureSchema : Db (SqlStore D) unit :=
  schema_once (fun p => wrap_db "postgres state store: schema" (each exec (schema p))).

(** [Save] *)
Definition meta_given (meta : RunMetadata) : Row :=
  [("run_id", SText (rm_RunID meta)); ("process_id", SText (rm_ProcessID meta));
   ("process_version", SText (rm_ProcessVersion meta)); ("status", SText (rm_Status meta));
   ("published_at", utcPtr (rm_PublishedAt meta)); ("started_at", utcPtr (rm_StartedAt meta));
   ("completed_at", utcPtr (rm_CompletedAt meta)); ("evaluation_count", SInt (rm_EvaluationCount meta))].

Definition Save (s : SqlStore D) (meta : RunMetadata) : SqlStore D * option GoError :=
  if String.eqb (rm_RunID meta) "" then (s, Some (ErrorText "save: empty RunID"))
  else error_of ((do! _ := ensureSchema in
                  with_prefix (fun p => on_db (exec (Upsert (table p "runs") "run_id" (meta_given meta))))) s).

(** The body of the loop of [WriteBatch]. *)
Definition value_given (runID : string) (w : ValueWrite) : Row :=
  [("run_id", SText runID); ("task_id", SText (vw_TaskID w)); ("execution_id", SText (vw_ExecutionID w));
   ("field", SText (vw_Field w)); ("value", SText (text_of (vw_Value w))); ("status", SText "pending");
   ("ts", sql_time (vw_Timestamp w))].
Definition history_given (runID : string) (h : HistoryEntry) : Row :=
  let payload := match he_Payload h with [] => bytes_of "null" | _ => he_Payload h end in
  [("run_id", SText runID); ("kind", SText (he_Kind h)); ("node_id", match he_NodeID h with None => SNull | Some n => SText n end);
   ("execution_id", SText (he_ExecutionID h)); ("payload", SText (text_of payload)); ("ts", sql_time (he_Timestamp h))].

(** The statement that [WriteBatch] queues for an operation. *)
Definition queue_op (p : string) (op : WriteOp) : list Stmt :=
  match op_Kind op, op_ValueWrite op, op_StatusFlip op, op_HistoryEntry op with
  | OpValueWrite, Some w, _, _ => [Insert (table p "values") (value_given (op_RunID op) w)]
  | OpStatusFlip, _, Some f, _ =>
      [Update (table p "values") [("status", SText (ValueStatus_String (sf_NewStatus f)))] (pending_of (op_RunID op) (sf_TaskID f))]
  | OpHistoryEntry, _, _, Some h => [Insert (table p "history") (history_given (op_RunID op) h)]
  | _, _, _, _ => []
  end.

(** [for range ops { if _, err := br.Exec(); err != nil { return err } }]; beyond
    the last result [br.Exec] fails. *)
Fixpoint read_results (ops : list WriteOp) (rs : list (result Z)) : option GoError :=
  match ops, rs with
  | [], _ => None
  | _ :: _, [] => Some (ErrorText "no more results in batch")
  | _ :: ops', r :: rs' => match r with Err e => Some e | Ok _ => read_results ops' rs' end
  end.

(** Sending the batch and reading its results. *)
Definition send_ops (p : string) (ops : list WriteOp) : Db X unit := fun x =>
  let '(x', (rs, closed)) := send_batch (concat (map (queue_op p) ops)) x in
  match read_results ops rs with
  | Some e => (x', Err e)
  | None => match closed with Some e => (x', Err e) | None => (x', Ok tt) end
  end.

(** [WriteBatch] *)
Definition WriteBatch (s : SqlStore D) (ops : list WriteOp) : SqlStore D * option GoError :=
  match validate_all ops with
  | Some e => (s, Some e)
  | None => error_of ((do! _ := ensureSchema in with_prefix (fun p => on_db (in_tx (send_ops p ops)))) s)
  end.

(** [Flush] *)
Definition Flush (s : SqlStore D) (runID : string) : SqlStore D * option GoError := (s, None).

(** [runMeta] *)
Definition runMeta (p runID : string) : Db D (RunMetadata * bool) :=
  do! row := query_row (Select meta_columns (table p "runs") (of_run runID) []) in
  match row with
  | Some r => do! meta := db_of (scan_meta scan_utc runID r) in db_ret (meta, true)
  | None =>
      do! row := query_row (CountRows [table p "values"; table p "history"] (of_run runID)) in
      match row with
      | None => db_fail ErrNoRows
      | Some r => do! n := db_of (scan_int64 (cell r "count")) in db_ret (emptyMeta runID, 0 <? n)
      end
  end.

(** [CurrentVersion] *)
Definition CurrentVersion (runID : string) : Db (SqlStore D) (option CurrentVersion) :=
  do! _ := ensureSchema in
  with_prefix (fun p => on_db (
    do! (meta, exists_) := runMeta p runID in
    if negb exists_ then db_ret None
    else
      do! rows := db_query (SelectLatest latest_columns (table p "values") (committed_of runID) ["task_id"; "field"] ["ts"; "id"]) in
      do! values := db_of (fold_rows rows ∅) in
      db_ret (Some (mkCurrentVersion meta values)))).

(** [FullHistory] *)
Definition FullHistory (runID : string) : Db (SqlStore D) (option FullHistory) :=
  do! _ := ensureSchema in
  with_prefix (fun p => on_db (
    do! (meta, exists_) := runMeta p runID in
    if negb exists_ then db_ret None
    else
      do! rows := db_query (Select value_columns (table p "values") (of_run runID) ["ts"; "id"]) in
      do! values := db_of (result_map (scan_value scan_utc) rows) in
      do! hrows := db_query (Select history_columns (table p "history") (of_run runID) ["ts"; "id"]) in
      do! history := db_of (result_map (scan_history scan_utc) hrows) in
      db_ret (Some (mkFullHistory meta values history)))).

(** [Config] *)
Definition Config (s : SqlStore D) : list (string * string) := [("dsn", st_dsn s); ("table_prefix", st_prefix s)].

(** [Close] *)
Definition Close (s : SqlStore D) : SqlStore D * option GoError := (set_db (fst (db_close (st_db s))) s, None).

End Postgres.

(** ** The store explains its log *)

Section PostgresLaws.
Context {D X : Type} `{!SqlEngine D X} {ST : SqlTypes} `{!SqlLaws D X} {BC : BinaryCollation ST} {SC : ScanLaws ST}.
Context `{!PgxBatch X} `{!PgxBatchLaws D X}.

(** An error of the engine, at a batch too. *)
Definition postgres_fault (e : GoError) : Prop :=
  reported e \/ exists ss x, Err e ∈ fst (snd (send_batch ss x)) \/ snd (snd (send_batch ss x)) = Some e.

Definition layout (p : string) : Layout := time_layout p runs_columns values_columns history_columns_.

Definition parts : Parts (D := D) := {|
  pt_name := "postgres"; pt_layout := layout; pt_schema := schema;
  pt_save p m := exec (Upsert (table p "runs") "run_id" (meta_given m));
  pt_write p ops := in_tx (send_ops p ops);
  pt_latest p id := SelectLatest latest_columns (table p "values") (committed_of id) ["task_id"; "field"] ["ts"; "id"]
|}.

Lemma postgres_layout_good p : layout_ok (layout p).
Proof. by apply time_layout_ok. Qed.

Lemma read_results_ok (ops : list WriteOp) (rs : list (result Z)) :
  length rs = length ops ->
  match read_results ops rs with
  | None => Forall (fun r => is_ok r = true) rs
  | Some e => Err e ∈ rs
  end.
Proof.
  revert rs. induction ops as [|op ops IH]; intros [|r rs] Hl; try discriminate Hl; [constructor|]. cbn [read_results]. destruct r as [n|e]; [|set_solver].
  injection Hl as Hl. specialize (IH rs Hl). destruct (read_results ops rs); [set_solver|by constructor].
Qed.

Lemma queue_op_stmt p ops : concat (map (queue_op p) ops) = batch_stmts (layout p) ops.
Proof. unfold batch_stmts. f_equal. apply map_ext. by intros [rid [] [w|] [f|] [h|]]. Qed.

Lemma queue_length p ops : validate_all ops = None -> length (concat (map (queue_op p) ops)) = length ops.
Proof.
  rewrite validate_all_valid. induction 1 as [|op ops Ho _ IH]; [done|]. cbn [map concat]. rewrite length_app, IH.
  unfold valid, ValidateWriteOp in Ho. destruct op as [rid [] [w|] [f|] [h|]]; cbn in *; destruct (String.eqb rid ""); done.
Qed.

Lemma send_ops_does p ops : validate_all ops = None -> does postgres_fault (send_ops p ops) (batch_stmts (layout p) ops).
Proof.
  intros Hv x. unfold send_ops. pose proof (batch_length (concat (map (queue_op p) ops)) x) as Hl. rewrite queue_length in Hl by done.
  destruct (send_batch (concat (map (queue_op p) ops)) x) as [x' [rs closed]] eqn:E. cbn [fst snd] in Hl.
  pose proof (read_results_ok ops rs Hl) as Hr. destruct (read_results ops rs) as [e|].
  - right. exists (concat (map (queue_op p) ops)), x. rewrite E. by left.
  - destruct closed as [e|]; [right; exists (concat (map (queue_op p) ops)), x; rewrite E; by right|].
    rewrite <- queue_op_stmt. by eapply batch_law.
Qed.

Lemma postgres_schema_full p : full_schema (layout p) (schema p).
Proof.
  split; [unfold schema; repeat constructor; unfold schema_stmt, layout_tables; set_solver|].
  unfold layout_tables, schema. repeat constructor; cbn [fst snd layout ly_runs ly_values ly_history ly_rc ly_vc ly_hc]; set_solver.
Qed.

Lemma postgres_parts_good : parts_ok postgres_fault parts.
Proof.
  split; [by left|exact postgres_layout_good|exact postgres_schema_full| | |].
  - intros p m n d a Hm Hr. by apply (upsert_attempt (layout p) (postgres_layout_good p) postgres_fault); [by left|..].
  - intros p ops Hv. apply attempts_tx; [by left|]. by apply send_ops_does.
  - intros p id n T a rows. apply (answer_latest (layout p) (postgres_layout_good p)).
Qed.

#[global] Instance postgresBackend : FaultyBackend (SqlStore D) := {
  fb_save := Save; fb_write := WriteBatch; fb_flush := Flush; fb_current := CurrentVersion; fb_full := FullHistory
}.

(** The PostgreSQL store with a binary collation, before it has created its tables:
    the calls that return nil have taken effect in order, a call that returns an
    error has done so entirely or not at all, every error is the specification's
    own or one the engine reported, and both reads answer from that log. *)
Theorem postgres_store_refines_log (d : D) (dsn p : string) (cs : list Call) :
  blank (layout p) (contents d) -> Forall (once_admits parts p) cs -> Z.of_nat (calls_ops cs) < 2 ^ 63 ->
  let s := run_calls fb_call (mkSqlStore d dsn p None) cs in
  exists a, explained postgres_fault cs (snd s) ∅ a /\ forall id,
    match snd (CurrentVersion id (fst s)) with
    | Ok r => r = if known (abs_run a id) then spec_current a id else None
    | Err e => postgres_fault e
    end /\
    match snd (FullHistory id (fst s)) with
    | Ok r => option_map erase_full r = option_map erase_full (if known (abs_run a id) then spec_full a id else None)
    | Err e => postgres_fault e
    end.
Proof. exact (once_observations parts postgres_fault postgres_parts_good p d dsn cs). Qed.

End PostgresLaws.
