(* ===== verification/Mssql.v ===== *)
(** * The SQL Server state store

    Models [stores/mssql/store.go]. *)

From S2P Require Import Prelude GoTime Values StateStore StateStoreLaws KvStore KvIndex Sql SqlLaws SqlBackend SqlOnce.
#[global] Open Scope Z_scope.

Section Mssql.
Context {D X : Type} `{!SqlEngine D X} {ST : SqlTypes} `{!MssqlDriver X}.

(** [New]; [Err] is a panic with the error *)
Definition New (dsn prefix : string) (d : D) : result (SqlStore D) :=
  if String.eqb dsn "" then Err (ErrorText "mssql state store: DSN is required")
  else
    let! p := table_prefix "mssql" prefix in
    match sql_open "sqlserver" dsn d with
    | (_, Some e) => Err (WrapError "mssql state store: open" e)
    | (d', None) => Ok (mkSqlStore d' dsn p None)
    end.

(** The tables of [ensureSchema] *)
Definition runs_columns : list Column :=
  [mkColumn "run_id" "NVARCHAR(255)" [PrimaryKey];
   mkColumn "process_id" "NVARCHAR(255)" [NotNull];
   mkColumn "process_version" "NVARCHAR(64)" [NotNull];
   mkColumn "status" "NVARCHAR(32)" [NotNull];
   mkColumn "published_at" "DATETIMEOFFSET(7)" [];
   mkColumn "started_at" "DATETIMEOFFSET(7)" [];
   mkColumn "completed_at" "DATETIMEOFFSET(7)" [];
   mkColumn "evaluation_count" "INT" [NotNull; Default (SInt 0)]].
Definition values_columns : list Column :=
  [mkColumn "id" "BIGINT IDENTITY(1,1)" [PrimaryKey];
   mkColumn "run_id" "NVARCHAR(255)" [NotNull];
   mkColumn "task_id" "NVARCHAR(255)" [NotNull];
   mkColumn "execution_id" "NVARCHAR(255)" [NotNull];
   mkColumn "field" "NVARCHAR(255)" [NotNull];
   mkColumn "value" "NVARCHAR(MAX)" [NotNull; Check "ISJSON(N'[' + value + N']') = 1"];
   mkColumn "status" "NVARCHAR(16)" [NotNull; Default (SText "pending")];
   mkColumn "ts" "DATETIMEOFFSET(7)" [NotNull]].
Definition history_columns_ : list Column :=
  [mkColumn "id" "BIGINT IDENTITY(1,1)" [PrimaryKey];
   mkColumn "run_id" "NVARCHAR(255)" [NotNull];
   mkColumn "kind" "NVARCHAR(64)" [NotNull];
   mkColumn "node_id" "NVARCHAR(255)" [];
   mkColumn "execution_id" "NVARCHAR(255)" [NotNull];
   mkColumn "payload" "NVARCHAR(MAX)" [NotNull; Check "ISJSON(N'[' + payload + N']') = 1"];
   mkColumn "ts" "DATETIMEOFFSET(7)" [NotNull]].

(** [table] *)
Definition table (p name : string) : string := p +:+ name.

(** The statements of [ensureSchema] *)
Definition schema (p : string) : list Stmt :=
  [CreateTable (table p "runs") runs_columns;
   CreateTable (table p "values") values_columns;
   CreateIndex (table p "values" +:+ "_replay") (table p "values") ["run_id"; "ts"; "id"] [];
   CreateIndex (table p "values" +:+ "_pending") (table p "values") ["run_id"; "task_id"] [("status", SText "pending")];
   CreateTable (table p "history") history_columns_;
   CreateIndex (table p "history" +:+ "_replay") (table p "history") ["run_id"; "ts"; "id"] []].

(** [ensureSchema] *)
Definition ensureSchema : Db (SqlStore D) unit :=
  schema_once (fun p => wrap_db "mssql state store: schema" (each exec (schema p))).

(** [Save] *)
Definition meta_given (meta : RunMetadata) : Row :=
  [("run_id", SText (rm_RunID meta)); ("process_id", SText (rm_ProcessID meta));
   ("process_version", SText (rm_ProcessVersion meta)); ("status", SText (rm_Status meta));
   ("published_at", utcPtr (rm_PublishedAt meta)); ("started_at", utcPtr (rm_StartedAt meta));
   ("completed_at", utcPtr (rm_CompletedAt meta)); ("evaluation_count", SInt (rm_EvaluationCount meta))].

Definition Save (s : SqlStore D) (meta : RunMetadata) : SqlStore D * option GoError :=
  if String.eqb (rm_RunID meta) "" then (s, Some (ErrorText "save: empty RunID"))
  else error_of ((do! _ := ensureSchema in
                  with_prefix (fun p => on_db (exec (Upsert (table p "runs") "run_id" (meta_given meta))))) s).

(** The body of the loop of [WriteBatch]. *)
Definition value_given (runID : string) (w : ValueWrite) : Row :=
  [("run_id", SText runID); ("task_id", SText (vw_TaskID w)); ("execution_id", SText (vw_ExecutionID w));
   ("field", SText (vw_Field w)); ("value", SText (text_of (vw_Value w))); ("status", SText "pending");
   ("ts", sql_time (vw_Timestamp w))].
Definition history_given (runID : string) (h : HistoryEntry) : Row :=
  let payload := match he_Payload h with [] => bytes_of "null" | _ => he_Payload h end in
  [("run_id", SText runID); ("kind", SText (he_Kind h)); ("node_id", match he_NodeID h with None => SNull | Some n => SText n end);
   ("execution_id", SText (he_ExecutionID h)); ("payload", SText (text_of payload)); ("ts", sql_time (he_Timestamp h))].

Definition write_op (p : string) (op : WriteOp) : Db X unit :=
  match op_Kind op, op_ValueWrite op, op_StatusFlip op, op_HistoryEntry op with
  | OpValueWrite, Some w, _, _ => exec_in (Insert (table p "values") (value_given (op_RunID op) w))
  | OpStatusFlip, _, Some f, _ =>
      exec_in (Update (table p "values") [("status", SText (ValueStatus_String (sf_NewStatus f)))]
                 (pending_of (op_RunID op) (sf_TaskID f)))
  | OpHistoryEntry, _, _, Some h => exec_in (Insert (table p "history") (history_given (op_RunID op) h))
  | _, _, _, _ => db_ret tt
  end.

(** [lockRuns]: the runs of a batch, each once, sorted, and their locks *)
Fixpoint distinct_runs (ops : list WriteOp) (seen : list string) : list string :=
  match ops with
  | [] => []
  | op :: ops' =>
      if negb (String.eqb (op_RunID op) "") && negb (existsb (String.eqb (op_RunID op)) seen)
      then op_RunID op :: distinct_runs ops' (op_RunID op :: seen)
      else distinct_runs ops' seen
  end.

Definition lock_run (p runID : string) : Db X unit :=
  do! rc := tx_applock (p +:+ runID) in
  if rc <? 0 then db_fail (ErrorText ("mssql state store: sp_getapplock(" +:+ quote runID +:+ ") returned " +:+ pretty rc))
  else db_ret tt.

Definition lockRuns (p : string) (ops : list WriteOp) : Db X unit :=
  each (lock_run p) (slice_stable (fun a b => string_cmp a b <? 0) (distinct_runs ops [])).

(** [writeBatchOnce] *)
Definition writeBatchOnce (p : string) (ops : list WriteOp) : Db D unit :=
  in_tx (do! _ := lockRuns p ops in each (write_op p) ops).

(** The loop of [WriteBatch] over the attempts that are left; the pause between
    two attempts has no effect on the store. *)
Fixpoint retry (attempts_left : nat) (m : Db D unit) : Db D unit := fun d =>
  match m d with
  | (d', Ok u) => (d', Ok u)
  | (d', Err e) =>
      if negb (isDeadlock e) then (d', Err e)
      else match attempts_left with O => (d', Err e) | S k => retry k m d' end
  end.

(** [maxWriteAttempts] *)
Definition maxWriteAttempts : nat := 8.

(** [WriteBatch] *)
Definition WriteBatch (s : SqlStore D) (ops : list WriteOp) : SqlStore D * option GoError :=
  match validate_all ops with
  | Some e => (s, Some e)
  | None =>
      error_of ((do! _ := ensureSchema in
                 with_prefix (fun p => on_db (retry (pred maxWriteAttempts) (writeBatchOnce p ops)))) s)
  end.

(** [Flush] *)
Definition Flush (s : SqlStore D) (runID : string) : SqlStore D * option GoError := (s, None).

(** [runMeta] *)
Definition runMeta (p runID : string) : Db D (RunMetadata * bool) :=
  do! row := query_row (Select meta_columns (table p "runs") (of_run runID) []) in
  match row with
  | Some r => do! meta := db_of (scan_meta scan_utc runID r) in db_ret (meta, true)
  | None =>
      do! row := query_row (CountRows [table p "values"; table p "history"] (of_run runID)) in
      match row with
      | None => db_fail ErrNoRows
      | Some r => do! n := db_of (scan_int64 (cell r "count")) in db_ret (emptyMeta runID, 0 <? n)
      end
  end.

(** [CurrentVersion] *)
Definition CurrentVersion (runID : string) : Db (SqlStore D) (option CurrentVersion) :=
  do! _ := ensureSchema in
  with_prefix (fun p => on_db (
    do! (meta, exists_) := runMeta p runID in
    if negb exists_ then db_ret None
    else
      do! rows := db_query (SelectLatest latest_columns (table p "values") (committed_of runID) ["task_id"; "field"] ["ts"; "id"]) in
      do! values := db_of (fold_rows rows ∅) in
      db_ret (Some (mkCurrentVersion meta values)))).

(** [FullHistory] *)
Definition FullHistory (runID : string) : Db (SqlStore D) (option FullHistory) :=
  do! _ := ensureSchema in
  with_prefix (fun p => on_db (
    do! (meta, exists_) := runMeta p runID in
    if negb exists_ then db_ret None
    else
      do! rows := db_query (Select value_columns (table p "values") (of_run runID) ["ts"; "id"]) in
      do! values := db_of (result_map (scan_value scan_utc) rows) in
      do! hrows := db_query (Select history_columns (table p "history") (of_run runID) ["ts"; "id"]) in
      do! history := db_of (result_map (scan_history scan_utc) hrows) in
      db_ret (Some (mkFullHistory meta values history)))).

(** [Config] *)
Definition Config (s : SqlStore D) : list (string * string) := [("dsn", st_dsn s); ("table_prefix", st_prefix s)].

(** [Close] *)
Definition Close (s : SqlStore D) : SqlStore D * option GoError :=
  let '(d, e) := db_close (st_db s) in (set_db d s, e).

End Mssql.

(** ** The store explains its log *)

Section MssqlLaws.
Context {D X : Type} `{!SqlEngine D X} {ST : SqlTypes} `{!SqlLaws D X} {BC : BinaryCollation ST} {SC : ScanLaws ST}.
Context `{!MssqlDriver X} `{!MssqlLaws D X}.

(** An error of the engine, at a lock too, or a lock that was refused. *)
Definition mssql_fault (e : GoError) : Prop :=
  reported e \/ (exists r x, snd (tx_applock r x) = Err e) \/
  exists r x rc, snd (tx_applock r x) = Ok rc /\ rc < 0 /\
    exists runID, e = ErrorText ("mssql state store: sp_getapplock(" +:+ quote runID +:+ ") returned " +:+ pretty rc).

Definition layout (p : string) : Layout := time_layout p runs_columns values_columns history_columns_.

Definition parts : Parts (D := D) := {|
  pt_name := "mssql"; pt_layout := layout; pt_schema := schema;
  pt_save p m := exec (Upsert (table p "runs") "run_id" (meta_given m));
  pt_write p ops := retry (pred maxWriteAttempts) (writeBatchOnce p ops);
  pt_latest p id := SelectLatest latest_columns (table p "values") (committed_of id) ["task_id"; "field"] ["ts"; "id"]
|}.

Lemma mssql_layout_good p : layout_ok (layout p).
Proof. by apply time_layout_ok. Qed.

Lemma mssql_write_op_does p op : does mssql_fault (write_op (D := D) p op) (option_list (op_stmt (layout p) op)).
Proof. destruct op as [rid [] [w|] [f|] [h|]]; try apply does_ret; apply does_exec; by left. Qed.

Lemma lock_does p runID : does mssql_fault (lock_run p runID) [].
Proof.
  intros x. unfold lock_run, db_bind. destruct (tx_applock (p +:+ runID) x) as [x' [rc|e]] eqn:E.
  - destruct (Z.ltb_spec rc 0) as [Hrc|_]; cbn.
    + right; right. exists (p +:+ runID), x, rc. rewrite E. split_and!; [done|done|by exists runID].
    + rewrite (applock_law _ _ _ _ E). constructor.
  - right; left. exists (p +:+ runID), x. by rewrite E.
Qed.

Lemma locks_does p ops : does mssql_fault (lockRuns p ops) [].
Proof.
  unfold lockRuns. set (l := slice_stable _ _). replace ([] : list Stmt) with (concat (map (fun _ : string => []) l) : list Stmt).
  - apply does_each, Forall_forall. intros runID _. apply lock_does.
  - clearbody l. by induction l.
Qed.

(** One transaction, which leaves nothing behind when it is the victim of a
    deadlock. *)
Lemma once_attempts p ops d :
  match writeBatchOnce p ops d with
  | (d', Ok _) => sql_steps (batch_stmts (layout p) ops) (contents d) (contents d')
  | (d', Err e) => mssql_fault e /\ (contents d' = contents d \/ sql_steps (batch_stmts (layout p) ops) (contents d) (contents d')) /\
      (isDeadlock e = true -> contents d' = contents d)
  end.
Proof.
  assert (Hbody : does mssql_fault (do! _ := lockRuns p ops in each (write_op (D := D) p) ops) (batch_stmts (layout p) ops)).
  { apply (does_bind mssql_fault _ _ [] (batch_stmts (layout p) ops)); [apply locks_does|]. apply does_each, Forall_forall.
    intros op _. apply mssql_write_op_does. }
  pose proof (attempts_tx mssql_fault _ _ (fun e H => or_introl H) Hbody d) as H. unfold writeBatchOnce in *.
  destruct (in_tx _ d) as [d' [u|e]] eqn:E; [done|]. destruct H as [Hf Hc]. split_and!; [done|done|]. intros Hd. revert E. unfold in_tx.
  destruct (begin_law d) as [Hb _]. destruct (db_begin d) as [d1 [x|e1]]; cbn [fst] in Hb; [|by intros [= <- <-]].
  destruct (db_bind _ _ x) as [x' [v|e2]]; [|intros [= <- <-]; by rewrite rollback_law].
  destruct (tx_commit x' d1) as [d2 [e3|]] eqn:Ec; [|done]. intros [= <- <-]. by rewrite (deadlock_law _ _ _ _ Ec Hd).
Qed.

(** However often a batch is retried, it is applied once. *)
Lemma retry_attempts k p ops : attempts mssql_fault (retry k (writeBatchOnce p ops)) (batch_stmts (layout p) ops).
Proof.
  induction k as [|k IH]; intros d; cbn [retry]; pose proof (once_attempts p ops d) as H;
    destruct (writeBatchOnce p ops d) as [d' [u|e]]; try done; destruct H as (Hf & Hc & Hd); destruct (isDeadlock e) eqn:E; cbn [negb]; try done.
  specialize (IH d'). rewrite (Hd eq_refl) in IH. exact IH.
Qed.

Lemma mssql_schema_full p : full_schema (layout p) (schema p).
Proof.
  split; [unfold schema; repeat constructor; unfold schema_stmt, layout_tables; set_solver|].
  unfold layout_tables, schema. repeat constructor; cbn [fst snd layout ly_runs ly_values ly_history ly_rc ly_vc ly_hc]; set_solver.
Qed.

Lemma mssql_parts_good : parts_ok mssql_fault parts.
Proof.
  split; [by left|exact mssql_layout_good|exact mssql_schema_full| | |].
  - intros p m n d a Hm Hr. by apply (upsert_attempt (layout p) (mssql_layout_good p) mssql_fault); [by left|..].
  - intros p ops _. apply retry_attempts.
  - intros p id n T a rows. apply (answer_latest (layout p) (mssql_layout_good p)).
Qed.

#[global] Instance mssqlBackend : FaultyBackend (SqlStore D) := {
  fb_save := Save; fb_write := WriteBatch; fb_flush := Flush; fb_current := CurrentVersion; fb_full := FullHistory
}.

(** The SQL Server store with a binary collation, before it has created its tables:
    the calls that return nil have taken effect in order, a call that returns an
    error has done so entirely or not at all, every error is the specification's
    own, one the engine reported or a refused lock, both reads answer from that
    log, and a batch that is retried after a deadlock is applied once. *)
Theorem mssql_store_refines_log (d : D) (dsn p : string) (cs : list Call) :
  blank (layout p) (contents d) -> Forall (once_admits parts p) cs -> Z.of_nat (calls_ops cs) < 2 ^ 63 ->
  let s := run_calls fb_call (mkSqlStore d dsn p None) cs in
  exists a, explained mssql_fault cs (snd s) ∅ a /\ forall id,
    match snd (CurrentVersion id (fst s)) with
    | Ok r => r = if known (abs_run a id) then spec_current a id else None
    | Err e => mssql_fault e
    end /\
    match snd (FullHistory id (fst s)) with
    | Ok r => option_map erase_full r = option_map erase_full (if known (abs_run a id) then spec_full a id else None)
    | Err e => mssql_fault e
    end.
Proof. exact (once_observations parts mssql_fault mssql_parts_good p d dsn cs). Qed.

End MssqlLaws.
