(* ===== verification/Nats.v ===== *)
(** * The NATS state store

    Models [stores/nats/store.go] on a JetStream key-value bucket whose calls can
    fail ([KvBucket]): records live under [run.meta], [run.v.ts.n] and
    [run.h.ts.n]; a status flip rewrites each pending record of the task under
    its own key; reads list the keys of the bucket, get each record and sort by
    time and revision.  Connecting and closing are the client library's. *)

From S2P Require Import Prelude GoTime GoText StateStore StateStoreLaws Wire KvStore KvIndex Sql.
#[global] Open Scope Z_scope.

(** A JetStream key-value bucket of history depth 1: [Put] returns the revision
    of the new entry, [Get] the value and revision of the latest one ([None]:
    [ErrKeyNotFound]), [ListKeys] the keys. *)
Class KvBucket (B : Type) : Type := {
  nk_Put : string -> bytes -> Db B Z;
  nk_Get : string -> Db B (option (bytes * Z));
  nk_ListKeys : Db B (list string)
}.

(** ** Keys *)

Fixpoint zeros (k : nat) : string := match k with O => EmptyString | S k' => String (Ascii.ascii_of_nat 48) (zeros k') end.

(** [fmt.Sprintf("%0wd", z)]: the sign, zeros up to the width, the digits. *)
Definition pad0 (w : nat) (z : Z) : string :=
  let digits := pretty (Z.to_N (Z.abs z)) in
  let sign := if z <? 0 then "-"%string else ""%string in
  sign +:+ zeros (w - String.length sign - String.length digits) +:+ digits.

Definition metaSuffix (runID : string) : string := runID +:+ ".meta".

(** [fmt.Sprintf("%s.%s.%020d.%012d", runID, kind, tsNanos, n)] *)
Definition event_key (kind runID : string) (tsNanos n : Z) : string :=
  runID +:+ "." +:+ kind +:+ "." +:+ pad0 20 tsNanos +:+ "." +:+ pad0 12 n.

Section Nats.
Context {B : Type} {KB : KvBucket B} {SJ : StoreJson}.

(** [Store]: the bucket, the connection details and the per-open counter. *)
Record Store : Type := mkStore {
  st_kv : B;
  st_url : string;
  st_bucket : string;
  st_n : Z
}.

(** [New] on a bucket that was created or bound: [None] is the panic on an
    incomplete config. *)
Definition New (url bucket : string) (kv : B) : option Store :=
  if String.eqb url "" || String.eqb bucket "" then None else Some (mkStore kv url bucket 0).

(** A call of the bucket. *)
Definition on_kv {A} (m : Db B A) : Db Store A := fun s =>
  let '(b, r) := m (st_kv s) in (mkStore b (st_url s) (st_bucket s) (st_n s), r).

(** [eventKey], which advances the counter. *)
Definition eventKey (kind runID : string) (tsNanos : Z) : Db Store string := fun s =>
  let n := uint64 (st_n s + 1) in
  (mkStore (st_kv s) (st_url s) (st_bucket s) n, Ok (event_key kind runID tsNanos n)).

(** [Save] *)
Definition save (meta : RunMetadata) : Db Store unit :=
  if String.eqb (rm_RunID meta) "" then db_fail (ErrorText "save: empty RunID")
  else
    do! enc := db_of (wrap_err "save: encode metadata" (js_marshal meta)) in
    do! _ := on_kv (nk_Put (metaSuffix (rm_RunID meta)) enc) in db_ret tt.
Definition Save (s : Store) (meta : RunMetadata) : Store * option GoError := error_of (save meta s).

Definition applyValueWrite (runID : string) (w : ValueWrite) : Db Store unit :=
  do! enc := db_of (wrap_err "value write: encode"
    (js_marshal (mkValueRec (vw_TaskID w) (vw_ExecutionID w) (vw_Field w) (vw_Value w)
       (ValueStatus_String ValueStatusPending) (UnixNano (vw_Timestamp w))))) in
  do! key := eventKey "v" runID (UnixNano (vw_Timestamp w)) in
  do! _ := on_kv (nk_Put key enc) in db_ret tt.

(** [runKeys] *)
Definition runKeys (prefix : string) : Db Store (list string) :=
  do! keys := on_kv nk_ListKeys in db_ret (List.filter (fun k => HasPrefix k prefix) keys).

(** [s.kv.Get]: a missing key is an error. *)
Definition ErrKeyNotFound : GoError := ErrorText "nats: key not found".
Definition get_entry (key : string) : Db Store (bytes * Z) :=
  do! e := on_kv (nk_Get key) in
  match e with Some x => db_ret x | None => db_fail ErrKeyNotFound end.

(** One round of the loop of [applyStatusFlip]. *)
Definition flip_key (f : StatusFlip) (key : string) : Db Store unit :=
  do! entry := get_entry key in
  do! rec := db_of (wrap_err ("status flip: decode " +:+ key) (js_unmarshal (fst entry))) in
  if negb (String.eqb (vrec_TaskID rec) (sf_TaskID f)) ||
     negb (String.eqb (vrec_Status rec) (ValueStatus_String ValueStatusPending))
  then db_ret tt
  else
    do! enc := db_of (js_marshal (set_status (ValueStatus_String (sf_NewStatus f)) rec)) in
    do! _ := on_kv (nk_Put key enc) in db_ret tt.

Definition applyStatusFlip (runID : string) (f : StatusFlip) : Db Store unit :=
  do! keys := runKeys (runID +:+ ".v.") in each (flip_key f) keys.

Definition applyHistoryEntry (runID : string) (h : HistoryEntry) : Db Store unit :=
  let payload := match he_Payload h with [] => json_null | _ => he_Payload h end in
  do! enc := db_of (wrap_err "history entry: encode"
    (js_marshal (mkHistoryRec (he_Kind h) (he_NodeID h) (he_ExecutionID h) payload (UnixNano (he_Timestamp h))))) in
  do! key := eventKey "h" runID (UnixNano (he_Timestamp h)) in
  do! _ := on_kv (nk_Put key enc) in db_ret tt.

(** One round of the second loop of [WriteBatch]. *)
Definition apply_op (op : WriteOp) : Db Store unit :=
  match op_Kind op, op_ValueWrite op, op_StatusFlip op, op_HistoryEntry op with
  | OpValueWrite, Some w, _, _ => applyValueWrite (op_RunID op) w
  | OpStatusFlip, _, Some f, _ => applyStatusFlip (op_RunID op) f
  | OpHistoryEntry, _, _, Some h => applyHistoryEntry (op_RunID op) h
  | _, _, _, _ => db_ret tt
  end.

(** [WriteBatch]: the ops one by one, up to the first error. *)
Definition WriteBatch (s : Store) (ops : list WriteOp) : Store * option GoError :=
  match validate_all ops with
  | Some e => (s, Some e)
  | None => error_of (each apply_op ops s)
  end.

Definition Flush (s : Store) (runID : string) : Store * option GoError := (s, None).

(** ** Reads *)

(** [runMeta]: the metadata and whether the run exists. *)
Definition runMeta (runID : string) : Db Store (RunMetadata * bool) :=
  do! e := on_kv (nk_Get (metaSuffix runID)) in
  match e with
  | Some (v, _) =>
      do! meta := db_of (wrap_err "decode metadata" (js_unmarshal v)) in db_ret (meta, true)
  | None =>
      do! keys := runKeys (runID +:+ ".") in db_ret (emptyMeta runID, negb (length keys =? 0)%nat)
  end.

(** [for _, key := range keys { x, err := read(key); if err != nil { return err }; xs = append(xs, x) }] *)
Fixpoint collect {A} (read : string -> Db Store A) (keys : list string) : Db Store (list A) :=
  match keys with
  | [] => db_ret []
  | k :: keys' => do! x := read k in do! xs := collect read keys' in db_ret (x :: xs)
  end.

Definition read_value (key : string) : Db Store ValueRecord :=
  do! entry := get_entry key in
  do! rec := db_of (wrap_err ("decode value record " +:+ key) (js_unmarshal (fst entry))) in
  do! status := db_of (ParseValueStatus (vrec_Status rec)) in
  db_ret (mkValueRecord (vrec_TaskID rec) (vrec_ExecutionID rec) (vrec_Field rec) (vrec_Value rec) status
            (nanosToTime (vrec_TS rec)) (snd entry)).

Definition loadValues (runID : string) : Db Store (list ValueRecord) :=
  do! keys := runKeys (runID +:+ ".v.") in
  do! recs := collect read_value keys in db_ret (SortValueRecords recs).

Definition CurrentVersion (runID : string) : Db Store (option CurrentVersion) :=
  do! m := runMeta runID in
  if negb (snd m) then db_ret None
  else
    do! values := loadValues runID in
    db_ret (Some (mkCurrentVersion (fst m) (fold_left fold_value values ∅))).

Definition read_history (key : string) : Db Store HistoryRecord :=
  do! entry := get_entry key in
  do! rec := db_of (wrap_err ("decode history record " +:+ key) (js_unmarshal (fst entry))) in
  db_ret (mkHistoryRecord (hrec_Kind rec) (hrec_NodeID rec) (hrec_ExecutionID rec) (hrec_Payload rec)
            (nanosToTime (hrec_TS rec)) (snd entry)).

Definition FullHistory (runID : string) : Db Store (option FullHistory) :=
  do! m := runMeta runID in
  if negb (snd m) then db_ret None
  else
    do! values := loadValues runID in
    do! keys := runKeys (runID +:+ ".h.") in
    do! history := collect read_history keys in
    db_ret (Some (mkFullHistory (fst m) values (SortHistoryRecords history))).

(** [Config] *)
Definition Config (s : Store) : list (string * string) := [("url", st_url s); ("bucket", st_bucket s)]%string.

End Nats.
