(* ===== verification/NatsLaws.v ===== *)
(** * What the NATS store keeps

    A JetStream bucket documents that its keys come in the order of their last
    revisions, and that a call that fails has had its effect or not
    ([KvBucketLaws]).  Each run of the bucket is related to the metadata, the
    values in order of arrival and the history of an abstract run; every
    operation has its effect on that run, and one that fails with an error of the
    bucket an initial part of it.  A flip moves a record to the end of the
    bucket, so the bucket order and the order of arrival differ; they agree on
    the pending and on the settled records of each task, which is what the reads
    depend on.  At the end, an executable bucket whose calls fail on a script, and
    the cases in which keys or revisions do not do what the store relies on. *)

From Stdlib Require Import Sorted Strings.Byte.
From stdpp Require Import sorting.
From S2P Require Import Prelude GoTime GoText TenDecimal StringLaws StateStore StateStoreLaws Wire KvStore KvIndex Sql Nats.
#[global] Open Scope Z_scope.

(** ** Keys *)

Definition dot : Byte.byte := x2e.
(** Run ids that the keys keep apart. *)
Definition plain (runID : string) : Prop := dot ∉ text runID.

Lemma text_cat s t : text (s +:+ t) = text s ++ text t.
Proof.
  induction s as [|c s IH]; [done|]. change (text (String c s +:+ t)) with (Ascii.byte_of_ascii c :: text (s +:+ t)).
  by rewrite IH.
Qed.

Lemma digits_val_pretty x s : digits_val 0 (pretty_N_go x s) = digits_val (Z.of_N x) s.
Proof.
  revert s. induction (N.lt_wf_0 x) as [x _ IH]; intros s. destruct (decide (x = 0)%N) as [->|Hx].
  - by rewrite pretty_N_go_0.
  - rewrite pretty_N_go_step, IH by (try apply N.div_lt; lia). cbn [digits_val]. f_equal.
    assert (Hd : digit_val (pretty_N_char (x mod 10)) = Z.of_N (x mod 10)).
    { pose proof (N.mod_lt x 10 ltac:(done)). destruct (x mod 10)%N as [|p]; [done|].
      do 9 (destruct p as [p|p|]; try done). all: lia. }
    rewrite Hd, N2Z.inj_div, N2Z.inj_mod. pose proof (Z.div_mod (Z.of_N x) 10). lia.
Qed.

Lemma digits_val_zeros k s : digits_val 0 (zeros k +:+ s) = digits_val 0 s.
Proof. induction k as [|k IH]; [done|]. exact IH. Qed.

Lemma pad0_value w z : 0 <= z -> digits_val 0 (pad0 w z) = z.
Proof.
  intros Hz. unfold pad0. destruct (Z.ltb_spec z 0); [lia|]. match goal with |- context ["" +:+ ?x] => change ("" +:+ x) with x end. rewrite digits_val_zeros.
  unfold pretty, pretty_N. case_decide as E.
  - change (0 = z). lia.
  - rewrite digits_val_pretty. change (Z.of_N (Z.to_N (Z.abs z)) = z). lia.
Qed.

Lemma pad0_inj w z z' : 0 <= z -> 0 <= z' -> pad0 w z = pad0 w z' -> z = z'.
Proof. intros H H' E. by rewrite <- (pad0_value w z H), <- (pad0_value w z' H'), E. Qed.

Lemma zeros_plain k : plain (zeros k).
Proof. unfold plain. induction k as [|k IH]; [set_solver|]. change (dot ∉ x30 :: text (zeros k)). set_solver. Qed.

Lemma pretty_go_plain x s : plain s -> plain (pretty_N_go x s).
Proof.
  revert s. induction (N.lt_wf_0 x) as [x _ IH]; intros s Hs. destruct (decide (x = 0)%N) as [->|Hx].
  - by rewrite pretty_N_go_0.
  - rewrite pretty_N_go_step by lia. apply IH; [apply N.div_lt; lia|].
    change (dot ∉ Ascii.byte_of_ascii (pretty_N_char (x mod 10)) :: text s).
    apply not_elem_of_cons. split; [|done]. unfold pretty_N_char. by repeat case_match.
Qed.

Lemma pad0_plain w z : plain (pad0 w z).
Proof.
  assert (Hp : forall n : N, plain (pretty n)).
  { intros n. unfold pretty, pretty_N. case_decide; [unfold plain; set_solver|]. apply pretty_go_plain. unfold plain. set_solver. }
  unfold pad0, plain. rewrite !text_cat, !not_elem_of_app. split_and!; [|apply zeros_plain|apply Hp].
  destruct (z <? 0)%Z; cbn; set_solver.
Qed.

(** A key names its run up to the first dot. *)
Lemma run_cut r r' a b : plain r -> plain r' -> r +:+ "." +:+ a = r' +:+ "." +:+ b -> r = r' /\ a = b.
Proof.
  intros Hr Hr' E. apply (f_equal text) in E. rewrite !text_cat in E. change (text ".") with [dot] in E.
  destruct (sep_split_inj dot (text r) (text r') (text a) (text b) Hr Hr' E) as [E1 E2]. split; by apply text_inj.
Qed.

Lemma event_key_cut kind r ts n : event_key kind r ts n = r +:+ "." +:+ (kind +:+ "." +:+ pad0 20 ts +:+ "." +:+ pad0 12 n).
Proof. done. Qed.

Lemma meta_key_cut r : metaSuffix r = r +:+ "." +:+ "meta".
Proof. done. Qed.

Lemma event_key_inj kind r ts n kind' r' ts' n' :
  plain r -> plain r' -> plain kind -> plain kind' -> 0 <= n -> 0 <= n' ->
  event_key kind r ts n = event_key kind' r' ts' n' -> r = r' /\ kind = kind' /\ n = n'.
Proof.
  intros Hr Hr' Hk Hk' Hn Hn' E. rewrite !event_key_cut in E. apply run_cut in E as [-> E]; [|done..].
  apply run_cut in E as [-> E]; [|done..]. apply run_cut in E as [_ E]; [|apply pad0_plain..].
  split_and!; [done..|]. by eapply pad0_inj.
Qed.

Lemma kinds_plain : plain "v" /\ plain "h" /\ plain "meta".
Proof. split_and!; unfold plain; cbn; set_solver. Qed.

Lemma meta_not_event kind r ts n r' : plain r -> plain r' -> plain kind -> metaSuffix r' <> event_key kind r ts n.
Proof.
  intros Hr Hr' Hk E. rewrite event_key_cut, meta_key_cut in E. apply run_cut in E as [_ E]; [|done..].
  apply (f_equal text) in E. rewrite !text_cat in E. assert (Hm : plain "meta") by apply kinds_plain.
  unfold plain in Hm. rewrite E in Hm. change (text ".") with [dot] in Hm. set_solver.
Qed.

(** Which keys the prefixes select. *)
Lemma run_prefix r r' rest : plain r -> plain r' -> HasPrefix (r +:+ "." +:+ rest) (r' +:+ ".") = String.eqb r r'.
Proof.
  intros Hr Hr'. destruct (String.eqb_spec r r') as [->|Hne].
  - apply HasPrefix_spec. exists rest. by rewrite string_app_assoc.
  - apply not_true_iff_false. intros [t E]%HasPrefix_spec. rewrite string_app_assoc in E.
    by apply run_cut in E as [? _].
Qed.

Lemma kind_prefix kind kind' r r' rest :
  plain r -> plain r' -> plain kind -> plain kind' ->
  HasPrefix (r +:+ "." +:+ kind +:+ "." +:+ rest) (r' +:+ "." +:+ kind' +:+ ".") = String.eqb r r' && String.eqb kind kind'.
Proof.
  intros Hr Hr' Hk Hk'. apply eq_true_iff_eq. rewrite andb_true_iff, !String.eqb_eq, HasPrefix_spec. split.
  - intros [t E]. rewrite !string_app_assoc in E. apply run_cut in E as [-> E]; [|done..].
    by apply run_cut in E as [-> _].
  - intros [-> ->]. exists rest. by rewrite !string_app_assoc.
Qed.

Lemma meta_prefix r r' kind : plain r -> plain r' -> HasPrefix (metaSuffix r) (r' +:+ "." +:+ kind +:+ ".") = false.
Proof.
  intros Hr Hr'. apply not_true_iff_false. intros [t E]%HasPrefix_spec. rewrite meta_key_cut, !string_app_assoc in E.
  apply run_cut in E as [_ E]; [|done..]. apply (f_equal text) in E. rewrite !text_cat in E.
  assert (Hm : plain "meta") by apply kinds_plain. unfold plain in Hm. rewrite E in Hm.
  change (text ".") with [dot] in Hm. set_solver.
Qed.

(** ** The bucket *)

(** The entries of a bucket, in the order of their last revisions. *)
Abbreviation Entries := (list (string * (bytes * Z))).

Definition kv_get (k : string) (es : Entries) : option (bytes * Z) :=
  option_map snd (List.find (fun e => String.eqb (fst e) k) es).
Definition kv_put (k : string) (v : bytes) (rev : Z) (es : Entries) : Entries :=
  List.filter (fun e => negb (String.eqb (fst e) k)) es ++ [(k, (v, rev))].

(** What a bucket documents: [kb_error] are the errors of its calls. *)
Class KvBucketLaws (B : Type) `{!KvBucket B} : Type := {
  kb_entries : B -> Entries;
  kb_error : GoError -> Prop;
  kb_revisions b : StronglySorted (fun x y => snd (snd x) < snd (snd y)) (kb_entries b);
  kb_keys b : NoDup (map fst (kb_entries b));
  kb_put_law k v b :
    match nk_Put k v b with
    | (b', Ok rev) => kb_entries b' = kv_put k v rev (kb_entries b)
    | (b', Err e) => kb_error e /\
        (kb_entries b' = kb_entries b \/ exists rev, kb_entries b' = kv_put k v rev (kb_entries b))
    end;
  kb_get_law k b :
    kb_entries (fst (nk_Get k b)) = kb_entries b /\
    match snd (nk_Get k b) with Ok e => e = kv_get k (kb_entries b) | Err e => kb_error e end;
  kb_list_law b :
    kb_entries (fst (nk_ListKeys b)) = kb_entries b /\
    match snd (nk_ListKeys b) with Ok ks => ks = map fst (kb_entries b) | Err e => kb_error e end
}.

(** ** The order of a task's records *)

Definition is_pending (v : ValueRecord) : bool := bool_decide (vr_Status v = ValueStatusPending).
Definition of_class (t : string) (p : bool) (v : ValueRecord) : bool :=
  String.eqb (vr_TaskID v) t && Bool.eqb (is_pending v) p.

(** No pending record of a task arrived before one that is settled. *)
Definition settled_first (a b : ValueRecord) : Prop :=
  vr_TaskID a = vr_TaskID b -> is_pending a = true -> is_pending b = true.

(** Records [bs] in bucket order and [vs] in the order of their arrival. *)
Record ordered (bs vs : list ValueRecord) : Prop := {
  od_perm : bs ≡ₚ vs;
  od_class t p : List.filter (of_class t p) bs = List.filter (of_class t p) vs;
  od_settled : StronglySorted settled_first vs
}.

Lemma ordered_nil : ordered [] [].
Proof. split; [done|done|constructor]. Qed.

Lemma ordered_arrival bs vs v : ordered bs vs -> is_pending v = true -> ordered (bs ++ [v]) (vs ++ [v]).
Proof.
  intros [Hp Hc Hs] Hv. split.
  - by rewrite Hp.
  - intros t p. by rewrite !List.filter_app, Hc.
  - apply StronglySorted_snoc; [done|]. apply Forall_forall. by intros a _ _ _.
Qed.

Lemma filter_first {A} (P : A -> bool) l x r :
  List.filter P l = x :: r -> exists l1 l2, l = l1 ++ x :: l2 /\ List.filter P l1 = [] /\ List.filter P l2 = r /\ P x = true.
Proof.
  induction l as [|y l IH]; [done|]. cbn [List.filter]. destruct (P y) eqn:E.
  - intros [= -> <-]. by exists [], l.
  - intros (l1 & l2 & -> & H1 & H2 & H3)%IH. exists (y :: l1), l2. cbn [List.filter]. by rewrite E.
Qed.

Lemma filter_nothing {A} (P : A -> bool) l : List.filter P l = [] <-> forall x, x ∈ l -> P x = false.
Proof.
  induction l as [|y l IH]; cbn [List.filter]; [split; [by intros _ x ?%elem_of_nil|done]|]. destruct (P y) eqn:E.
  - split; [done|]. intros H. specialize (H y ltac:(set_solver)). congruence.
  - rewrite IH. split; [intros H x [->|Hx]%elem_of_cons; auto|]. intros H x Hx. apply H. set_solver.
Qed.

(** The first pending record of the task of a flip, settled in place. *)
Inductive flip_first (f : StatusFlip) : list ValueRecord -> list ValueRecord -> Prop :=
| flip_first_intro l1 v l2 :
    List.filter (of_class (sf_TaskID f) true) l1 = [] -> of_class (sf_TaskID f) true v = true ->
    flip_first f (l1 ++ v :: l2) (l1 ++ flip_record f v :: l2).

Lemma class_flips f v : of_class (sf_TaskID f) true v = true <-> vr_TaskID v = sf_TaskID f /\ vr_Status v = ValueStatusPending.
Proof. unfold of_class, is_pending. rewrite andb_true_iff, String.eqb_eq, eqb_true_iff. by rewrite bool_decide_eq_true. Qed.

Lemma flip_record_class f v : of_class (sf_TaskID f) true v = true -> flip_record f v = flipped f v.
Proof. intros H%class_flips. destruct (flip_record_cases f v) as [[_ ?]|[[] _]]; done. Qed.

Lemma flip_record_off f v : of_class (sf_TaskID f) true v = false -> flip_record f v = v.
Proof.
  intros H. destruct (flip_record_cases f v) as [[Ht _]|[_ ?]]; [|done].
  by rewrite (proj2 (class_flips f v) Ht) in H.
Qed.

Definition final (f : StatusFlip) : Prop := sf_NewStatus f = ValueStatusCommitted \/ sf_NewStatus f = ValueStatusAborted.

Lemma flipped_settled f v : final f -> is_pending (flipped f v) = false.
Proof. unfold final, is_pending. cbn. by intros [->| ->]. Qed.

Lemma flip_record_twice f v : final f -> flip_record f (flip_record f v) = flip_record f v.
Proof.
  intros Hf. apply flip_record_off. destruct (of_class (sf_TaskID f) true v) eqn:E.
  - rewrite (flip_record_class f v E). unfold of_class. rewrite flipped_settled by done. apply andb_false_r.
  - by rewrite (flip_record_off f v E).
Qed.

(** Steps of a flip are steps towards the whole flip. *)
Lemma flip_steps_all f vs vs' : final f -> rtc (flip_first f) vs vs' -> map (flip_record f) vs' = map (flip_record f) vs.
Proof.
  intros Hf. induction 1 as [|vs1 vs2 vs3 [l1 v l2 _ _] _ IH]; [done|].
  by rewrite IH, !map_app, !map_cons, flip_record_twice.
Qed.

Lemma flip_steps_done f vs vs' :
  final f -> rtc (flip_first f) vs vs' -> List.filter (of_class (sf_TaskID f) true) vs' = [] -> vs' = map (flip_record f) vs.
Proof.
  intros Hf Hs He. rewrite <- (flip_steps_all f vs vs' Hf Hs). symmetry. rewrite <- (map_id vs') at 2.
  apply map_ext_in. intros v Hv%list_elem_of_In. apply flip_record_off. by apply (proj1 (filter_nothing _ _) He).
Qed.

Lemma StronglySorted_middle {A} (R : A -> A -> Prop) l1 x l2 :
  StronglySorted R (l1 ++ x :: l2) <->
  StronglySorted R (l1 ++ l2) /\ Forall (fun a => R a x) l1 /\ Forall (R x) l2.
Proof.
  induction l1 as [|a l1 IH]; cbn [app].
  - split; [intros H; inversion H; subst; split_and!; try done; constructor|]. intros (? & _ & ?). by constructor.
  - split.
    + intros H. inversion H as [|? ? Hs Ha]; subst. apply IH in Hs as (H1 & H2 & H3).
      apply Forall_app in Ha as [Ha1 Ha2]. apply Forall_cons in Ha2 as [Ha2 Ha3].
      split_and!; [constructor; [done|by apply Forall_app]|by constructor|done].
    + intros (H1 & H2 & H3). inversion H1 as [|? ? Hs Ha]; subst. apply Forall_cons in H2 as [Hx H2].
      constructor; [apply IH; by split_and!|]. apply Forall_app in Ha as [Ha1 Ha2]. apply Forall_app. split; [done|].
      by constructor.
Qed.

(** Moving the first pending record of a task to the end, settled, is a step of
    the flip on the records in order of arrival. *)
Lemma ordered_flip f l1 v l2 vs :
  ordered (l1 ++ v :: l2) vs -> final f -> List.filter (of_class (sf_TaskID f) true) l1 = [] ->
  of_class (sf_TaskID f) true v = true ->
  exists vs', flip_first f vs vs' /\ ordered (l1 ++ l2 ++ [flipped f v]) vs'.
Proof.
  intros [Hp Hc Hs] Hf H1 Hv. pose proof (Hc (sf_TaskID f) true) as Ec.
  rewrite List.filter_app, H1 in Ec. cbn [List.filter app] in Ec. rewrite Hv in Ec. symmetry in Ec.
  apply filter_first in Ec as (m1 & m2 & -> & Hm1 & Hm2 & _).
  exists (m1 ++ flip_record f v :: m2). split; [by constructor|]. rewrite flip_record_class by done.
  destruct (proj1 (class_flips f v) Hv) as [Ht Hst]. apply StronglySorted_middle in Hs as (Hs & Hb & Ha).
  assert (Hnew : forall t p, of_class t p (flipped f v) = String.eqb (sf_TaskID f) t && Bool.eqb false p).
  { intros t p. unfold of_class. rewrite flipped_settled by done. by rewrite <- Ht. }
  assert (Hold : forall t p, of_class t p v = String.eqb (sf_TaskID f) t && Bool.eqb true p).
  { intros t p. unfold of_class, is_pending. rewrite Hst, Ht. done. }
  split.
  - rewrite <- !Permutation_middle in Hp. apply Permutation_cons_inv in Hp.
    rewrite app_assoc, Hp, <- Permutation_cons_append. apply Permutation_middle.
  - intros t p. specialize (Hc t p). rewrite !List.filter_app in *. cbn [List.filter] in *. rewrite Hnew, Hold in *.
    destruct (String.eqb_spec (sf_TaskID f) t) as [<-|]; cbn [andb] in *; [|by rewrite app_nil_r].
    destruct p; cbn [Bool.eqb] in *.
    + rewrite H1, Hm1 in *. cbn [app] in *. injection Hc as Hc. by rewrite app_nil_r.
    + rewrite app_assoc, Hc. rewrite (proj2 (filter_nothing (of_class (sf_TaskID f) false) m2)); [by rewrite app_nil_r|].
      intros u Hu. rewrite Forall_forall in Ha. specialize (Ha u Hu). unfold of_class.
      destruct (String.eqb_spec (vr_TaskID u) (sf_TaskID f)) as [E|]; [|done].
      unfold settled_first in Ha. rewrite Ha; [done|congruence|]. unfold is_pending. by apply bool_decide_eq_true.
  - apply StronglySorted_middle. split_and!; [done| |].
    + apply Forall_forall. intros a Ha' E Hpa. pose proof (proj1 (filter_nothing _ _) Hm1 a Ha') as Hf'.
      unfold of_class in Hf'. rewrite Hpa in Hf'. cbn in E. rewrite E, Ht, String.eqb_refl in Hf'. done.
    + apply Forall_forall. intros a _ _ Hpa. by rewrite flipped_settled in Hpa.
Qed.

(** ** What the bucket holds *)

Section Laws.
Context {B : Type} {KB : KvBucket B} {KL : KvBucketLaws B} {SJ : StoreJson} {SJL : StoreJsonLaws}.

(** An entry of the bucket: metadata with its revision, or a record of a run with
    the number of its key; a record's [Seq] is its revision. *)
Inductive Item : Type :=
| IMeta (m : RunMetadata) (rev : Z)
| IVal (r : string) (n : Z) (v : ValueRecord)
| IHist (r : string) (n : Z) (h : HistoryRecord).

Definition item_run (i : Item) : string := match i with IMeta m _ => rm_RunID m | IVal r _ _ | IHist r _ _ => r end.
Definition item_rev (i : Item) : Z := match i with IMeta _ rev => rev | IVal _ _ v => vr_Seq v | IHist _ _ h => hr_Seq h end.
Definition item_key (i : Item) : string :=
  match i with
  | IMeta m _ => metaSuffix (rm_RunID m)
  | IVal r n v => event_key "v" r (UnixNano (vr_Timestamp v)) n
  | IHist r n h => event_key "h" r (UnixNano (hr_Timestamp h)) n
  end.
Definition item_bytes (i : Item) : bytes :=
  match i with
  | IMeta m _ => encoded m
  | IVal _ _ v => encoded (vrec_of v)
  | IHist _ _ h => encoded (hrec_of h)
  end.
Definition entry_of (i : Item) : string * (bytes * Z) := (item_key i, (item_bytes i, item_rev i)).

(** Entries whose keys were numbered up to [n]. *)
Definition good_item (n : Z) (i : Item) : Prop :=
  plain (item_run i) /\
  match i with
  | IMeta m _ => js_exact m
  | IVal _ k v =>
      0 < k <= n /\ js_exact (vrec_of v) /\ keyed_time (vr_Timestamp v) /\ utc (vr_Timestamp v) = vr_Timestamp v /\
      settled_status (vr_Status v)
  | IHist _ k h =>
      0 < k <= n /\ js_exact (hrec_of h) /\ keyed_time (hr_Timestamp h) /\ utc (hr_Timestamp h) = hr_Timestamp h
  end.

Definition metas (id : string) (its : list Item) : list RunMetadata :=
  omap (fun i => match i with IMeta m _ => if String.eqb (rm_RunID m) id then Some m else None | _ => None end) its.
Definition values (id : string) (its : list Item) : list ValueRecord :=
  omap (fun i => match i with IVal r _ v => if String.eqb r id then Some v else None | _ => None end) its.
Definition histories (id : string) (its : list Item) : list HistoryRecord :=
  omap (fun i => match i with IHist r _ h => if String.eqb r id then Some h else None | _ => None end) its.

(** A run: its metadata, its values and its history in order of arrival, without
    arrival numbers. *)
Record NRun : Type := mkNRun {
  nr_meta : option RunMetadata;
  nr_values : list ValueRecord;
  nr_history : list HistoryRecord
}.

Record run_holds (its : list Item) (id : string) (x : NRun) : Prop := {
  rh_meta : metas id its = option_list (nr_meta x);
  rh_values : ordered (map erase_value (values id its)) (nr_values x);
  rh_history : map erase_history (histories id its) = nr_history x
}.

(** The store [s] holds the items [its]. *)
Record store_holds (s : Store) (its : list Item) : Prop := {
  sh_entries : kb_entries (st_kv s) = map entry_of its;
  sh_items : Forall (good_item (st_n s)) its;
  sh_n : 0 <= st_n s
}.

Lemma good_item_mono n n' i : n <= n' -> good_item n i -> good_item n' i.
Proof. intros Hn. unfold good_item. destruct i; intuition lia. Qed.

(** Distinct entries have distinct keys. *)
Lemma items_keys s its : store_holds s its -> NoDup (map item_key its).
Proof. intros [He _ _]. pose proof (kb_keys (st_kv s)) as H. by rewrite He, map_map in H. Qed.

Lemma items_revisions s its : store_holds s its -> StronglySorted (fun a b => item_rev a < item_rev b) its.
Proof.
  intros [He _ _]. pose proof (kb_revisions (st_kv s)) as H. rewrite He in H. clear He.
  induction its as [|i its IH]; [constructor|]. inversion H as [|? ? Hs Ha]; subst. constructor; [by apply IH|].
  apply Forall_forall. intros j Hj. rewrite Forall_forall in Ha. apply (Ha (entry_of j)). by apply list_elem_of_fmap_2.
Qed.

Lemma kv_get_item i l1 l2 : NoDup (map item_key (l1 ++ i :: l2)) ->
  kv_get (item_key i) (map entry_of (l1 ++ i :: l2)) = Some (item_bytes i, item_rev i).
Proof.
  unfold kv_get. induction l1 as [|j l1 IH]; cbn [app map List.find fst entry_of].
  - by rewrite String.eqb_refl.
  - intros [Hn Hd]%NoDup_cons. destruct (String.eqb_spec (item_key j) (item_key i)) as [E|_]; [|by apply IH].
    exfalso. apply Hn. rewrite E. apply list_elem_of_fmap_2. set_solver.
Qed.

Lemma kv_get_none k its : k ∉ map item_key its -> kv_get k (map entry_of its) = None.
Proof.
  unfold kv_get. induction its as [|j its IH]; cbn [map List.find fst entry_of]; [done|]. intros [Hn Hk]%not_elem_of_cons.
  destruct (String.eqb_spec (item_key j) k) as [<-|_]; [done|by apply IH].
Qed.

Lemma filter_keys k its : k ∉ map item_key its ->
  List.filter (fun e => negb (String.eqb (fst e) k)) (map entry_of its) = map entry_of its.
Proof.
  induction its as [|j its IH]; cbn [map List.filter fst entry_of]; [done|]. intros [Hn Hk]%not_elem_of_cons.
  destruct (String.eqb_spec (item_key j) k) as [<-|_]; [done|]. cbn [negb]. by rewrite IH.
Qed.

Lemma kv_put_new i its : item_key i ∉ map item_key its ->
  kv_put (item_key i) (item_bytes i) (item_rev i) (map entry_of its) = map entry_of (its ++ [i]).
Proof. intros H. unfold kv_put. by rewrite filter_keys, map_app. Qed.

Lemma kv_put_old i j l1 l2 : NoDup (map item_key (l1 ++ j :: l2)) -> item_key i = item_key j ->
  kv_put (item_key i) (item_bytes i) (item_rev i) (map entry_of (l1 ++ j :: l2)) = map entry_of (l1 ++ l2 ++ [i]).
Proof.
  intros Hd E. unfold kv_put. rewrite map_app, map_cons in Hd. apply NoDup_app in Hd as (H1 & H2 & H3).
  apply NoDup_cons in H3 as [H3 _]. rewrite !map_app, map_cons, List.filter_app. cbn [List.filter fst entry_of].
  rewrite E, String.eqb_refl. cbn [negb]. rewrite !filter_keys.
  - by rewrite <- app_assoc, <- E.
  - done.
  - intros H. eapply H2; [exact H|]. set_solver.
Qed.

(** ** Calls of the bucket *)

Lemma on_kv_same {A} (m : Db B A) s s' r :
  on_kv m s = (s', r) -> st_n s' = st_n s /\ m (st_kv s) = (st_kv s', r).
Proof. unfold on_kv. destruct (m (st_kv s)). intros [= <- <-]. done. Qed.

(** A put that makes the items [its'] of [its]. *)
Lemma put_holds s its its' k v s' r :
  store_holds s its -> on_kv (nk_Put k v) s = (s', r) ->
  (forall rev, kv_put k v rev (map entry_of its) = map entry_of (its' rev) /\ Forall (good_item (st_n s)) (its' rev)) ->
  st_n s' = st_n s /\
  match r with
  | Ok rev => store_holds s' (its' rev)
  | Err e => kb_error e /\ (store_holds s' its \/ exists rev, store_holds s' (its' rev))
  end.
Proof.
  intros [He Hi Hn] H%on_kv_same Hput. destruct H as [En E]. pose proof (kb_put_law k v (st_kv s)) as L. rewrite E in L.
  split; [done|]. assert (Hok : forall rev, kb_entries (st_kv s') = kv_put k v rev (kb_entries (st_kv s)) -> store_holds s' (its' rev)).
  { intros rev Er. destruct (Hput rev) as [Hp Hg]. split; rewrite ?En; try done. by rewrite Er, He. }
  destruct r as [rev|e]; [auto|]. destruct L as [Hk [L|[rev L]]]; split; [done| |done|]; [left|right; eauto].
  split; rewrite ?En; try done. by rewrite L.
Qed.

Lemma reads_hold {A} (m : Db B A) s its s' r :
  kb_entries (fst (m (st_kv s))) = kb_entries (st_kv s) -> store_holds s its -> on_kv m s = (s', r) -> store_holds s' its.
Proof.
  intros Hm [He Hi Hn] H%on_kv_same. destruct H as [En E]. rewrite E in Hm. cbn in Hm.
  split; rewrite ?En, ?Hm; done.
Qed.

(** What [get_entry] and [runKeys] answer. *)
Lemma get_holds s its k s' r :
  store_holds s its -> on_kv (nk_Get k) s = (s', r) ->
  store_holds s' its /\ st_n s' = st_n s /\
  match r with Ok e => e = kv_get k (map entry_of its) | Err e => kb_error e end.
Proof.
  intros Hs H. destruct (kb_get_law k (st_kv s)) as [L1 L2]. pose proof (on_kv_same _ _ _ _ H) as [En E].
  split_and!; [by eapply reads_hold|done|]. rewrite E, (sh_entries s its Hs) in L2. by destruct r.
Qed.

Lemma get_entry_holds s its l1 i l2 s' r :
  store_holds s its -> its = l1 ++ i :: l2 -> get_entry (item_key i) s = (s', r) ->
  store_holds s' its /\ st_n s' = st_n s /\
  match r with Ok e => e = (item_bytes i, item_rev i) | Err e => kb_error e end.
Proof.
  intros Hs -> H. unfold get_entry, db_bind in H. destruct (on_kv (nk_Get (item_key i)) s) as [s1 r1] eqn:E.
  destruct (get_holds _ _ _ _ _ Hs E) as (H1 & H2 & H3). destruct r1 as [e|e].
  - subst e. rewrite kv_get_item in H by (by eapply items_keys). by injection H as <- <-.
  - by injection H as <- <-.
Qed.

Lemma runKeys_holds s its p s' r :
  store_holds s its -> runKeys p s = (s', r) ->
  store_holds s' its /\ st_n s' = st_n s /\
  match r with Ok ks => ks = List.filter (fun k => HasPrefix k p) (map item_key its) | Err e => kb_error e end.
Proof.
  intros Hs H. unfold runKeys, db_bind in H. destruct (on_kv nk_ListKeys s) as [s1 r1] eqn:E.
  pose proof (on_kv_same _ _ _ _ E) as [En E']. destruct (kb_list_law (st_kv s)) as [L1 L2].
  pose proof (reads_hold nk_ListKeys _ _ _ _ L1 Hs E) as Hs'. rewrite E', (sh_entries s its Hs) in L2. cbn [fst snd] in L2.
  destruct r1 as [ks|e]; injection H as <- <-; split_and!; try done. by rewrite L2, map_map.
Qed.

(** ** The keys of a run *)

Definition is_value (id : string) (i : Item) : bool := match i with IVal r _ _ => String.eqb r id | _ => false end.
Definition is_history (id : string) (i : Item) : bool := match i with IHist r _ _ => String.eqb r id | _ => false end.

Lemma value_prefix n i id : good_item n i -> plain id -> HasPrefix (item_key i) (id +:+ ".v.") = is_value id i.
Proof.
  intros [Hp _] Hid. destruct kinds_plain as (Hv & Hh & _). change (id +:+ ".v.") with (id +:+ "." +:+ "v" +:+ ".").
  destruct i as [m rev|r k v|r k h]; cbn [item_key is_value item_run] in *.
  - by apply meta_prefix.
  - rewrite event_key_cut. rewrite kind_prefix by done. by rewrite andb_true_r.
  - rewrite event_key_cut. rewrite kind_prefix by done. by rewrite andb_false_r.
Qed.

Lemma history_prefix n i id : good_item n i -> plain id -> HasPrefix (item_key i) (id +:+ ".h.") = is_history id i.
Proof.
  intros [Hp _] Hid. destruct kinds_plain as (Hv & Hh & _). change (id +:+ ".h.") with (id +:+ "." +:+ "h" +:+ ".").
  destruct i as [m rev|r k v|r k h]; cbn [item_key is_history item_run] in *.
  - by apply meta_prefix.
  - rewrite event_key_cut. rewrite kind_prefix by done. by rewrite andb_false_r.
  - rewrite event_key_cut. rewrite kind_prefix by done. by rewrite andb_true_r.
Qed.

Lemma item_prefix n i id : good_item n i -> plain id -> HasPrefix (item_key i) (id +:+ ".") = String.eqb (item_run i) id.
Proof. intros [Hp _] Hid. destruct i; cbn [item_key item_run] in *; by rewrite ?event_key_cut, ?meta_key_cut, run_prefix. Qed.

Lemma filter_map_keys (P : string -> bool) (Q : Item -> bool) its :
  Forall (fun i => P (item_key i) = Q i) its -> List.filter P (map item_key its) = map item_key (List.filter Q its).
Proof.
  induction 1 as [|i its Hi _ IH]; [done|]. cbn [map List.filter]. rewrite Hi, IH. by destruct (Q i).
Qed.

Lemma value_keys n its id : Forall (good_item n) its -> plain id ->
  List.filter (fun k => HasPrefix k (id +:+ ".v.")) (map item_key its) = map item_key (List.filter (is_value id) its).
Proof. intros Hg Hid. apply filter_map_keys. eapply Forall_impl; [exact Hg|]. intros i Hi. by eapply value_prefix. Qed.

Lemma history_keys n its id : Forall (good_item n) its -> plain id ->
  List.filter (fun k => HasPrefix k (id +:+ ".h.")) (map item_key its) = map item_key (List.filter (is_history id) its).
Proof. intros Hg Hid. apply filter_map_keys. eapply Forall_impl; [exact Hg|]. intros i Hi. by eapply history_prefix. Qed.

Lemma event_fresh kind r ts n its N :
  Forall (good_item N) its -> plain r -> kind = "v"%string \/ kind = "h"%string -> N < n -> 0 <= N ->
  event_key kind r ts n ∉ map item_key its.
Proof.
  intros Hg Hr Hk Hn HN (i & E & Hi)%list_elem_of_fmap. rewrite Forall_forall in Hg. specialize (Hg i Hi) as [Hp Hg].
  destruct kinds_plain as (Hv & Hh & _). assert (plain kind) by (by destruct Hk as [->| ->]).
  destruct i as [m rev|r' k v|r' k h]; cbn [item_key item_run] in *.
  - by apply eq_sym, meta_not_event in E.
  - apply event_key_inj in E as (_ & _ & ->); try done; lia.
  - apply event_key_inj in E as (_ & _ & ->); try done; lia.
Qed.

(** ** Items come and go *)

Lemma metas_app id l l' : metas id (l ++ l') = metas id l ++ metas id l'.
Proof. apply omap_app. Qed.
Lemma values_app id l l' : values id (l ++ l') = values id l ++ values id l'.
Proof. apply omap_app. Qed.
Lemma histories_app id l l' : histories id (l ++ l') = histories id l ++ histories id l'.
Proof. apply omap_app. Qed.

Lemma other_item id i : item_run i <> id -> metas id [i] = [] /\ values id [i] = [] /\ histories id [i] = [].
Proof.
  intros H. destruct i; cbn [item_run] in H; unfold metas, values, histories; cbn;
    match goal with |- context [String.eqb ?a id] => destruct (String.eqb_spec a id); done end.
Qed.

(** Another run does not see an item of this one. *)
Lemma holds_other its its' i j id x :
  item_run i <> id -> item_run j <> id ->
  its' = its ++ [i] \/ (exists l1 l2, its = l1 ++ j :: l2 /\ its' = l1 ++ l2 ++ [i]) ->
  run_holds its id x -> run_holds its' id x.
Proof.
  intros Hi Hj H [Hm Hv Hh]. destruct (other_item id i Hi) as (Mi & Vi & Xi). destruct (other_item id j Hj) as (Mj & Vj & Xj).
  destruct H as [->|(l1 & l2 & -> & ->)]; [|change (j :: l2) with ([j] ++ l2) in *];
    split; rewrite ?metas_app, ?values_app, ?histories_app in *;
    by rewrite ?Mi, ?Vi, ?Xi, ?Mj, ?Vj, ?Xj, ?app_nil_l, ?app_nil_r in *.
Qed.

(** ** The effect of an operation on its run *)

Definition op_values (op : WriteOp) (vs : list ValueRecord) : list ValueRecord :=
  match op_Kind op, op_ValueWrite op, op_StatusFlip op with
  | OpValueWrite, Some w, _ => vs ++ [record_of_write (canon_write w) 0]
  | OpStatusFlip, _, Some f => map (flip_record f) vs
  | _, _, _ => vs
  end.
Definition op_history (op : WriteOp) (hs : list HistoryRecord) : list HistoryRecord :=
  match op_Kind op, op_HistoryEntry op with
  | OpHistoryEntry, Some h => hs ++ [record_of_entry (canon_entry h) 0]
  | _, _ => hs
  end.
Definition op_effect (op : WriteOp) (x : NRun) : NRun :=
  mkNRun (nr_meta x) (op_values op (nr_values x)) (op_history op (nr_history x)).

(** What may be left of an operation that returned an error: nothing, all of it,
    or the first steps of a flip. *)
Inductive op_part (op : WriteOp) (x : NRun) : NRun -> Prop :=
| part_none : op_part op x x
| part_all : op_part op x (op_effect op x)
| part_flip f vs : op_Kind op = OpStatusFlip -> op_StatusFlip op = Some f -> rtc (flip_first f) (nr_values x) vs ->
    op_part op x (mkNRun (nr_meta x) vs (nr_history x)).

(** The operations the store keeps exactly. *)
Definition nats_storable (op : WriteOp) : Prop :=
  plain (op_RunID op) /\
  match op_Kind op, op_ValueWrite op, op_HistoryEntry op with
  | OpValueWrite, Some w, _ => js_exact (pending_rec w) /\ keyed_time (vw_Timestamp w)
  | OpHistoryEntry, _, Some h => storable_entry h
  | _, _, _ => True
  end.

(** The store [s] holds the runs [A]. *)
Definition represents (s : Store) (A : string -> NRun) : Prop :=
  exists its, store_holds s its /\ forall id, run_holds its id (A id).

Definition upd (r : string) (x : NRun) (A : string -> NRun) : string -> NRun :=
  fun id => if String.eqb id r then x else A id.

Lemma upd_same r A id : upd r (A r) A id = A id.
Proof. unfold upd. by destruct (String.eqb_spec id r) as [->|]. Qed.

Lemma represents_same s A r : represents s A -> represents s (upd r (A r) A).
Proof. intros (its & H1 & H2). exists its. split; [done|]. intros id. by rewrite upd_same. Qed.

(** A run changes and the others do not. *)
Lemma represents_upd s its' r x A its :
  store_holds s its' -> run_holds its' r x ->
  (forall id, id <> r -> run_holds its id (A id) -> run_holds its' id (A id)) ->
  (forall id, run_holds its id (A id)) -> represents s (upd r x A).
Proof.
  intros Hs Hr Ho HA. exists its'. split; [done|]. intros id. unfold upd.
  destruct (String.eqb_spec id r) as [->|]; [done|]. by apply Ho.
Qed.

Lemma counted s its n : store_holds s its -> st_n s <= n ->
  store_holds (mkStore (st_kv s) (st_url s) (st_bucket s) n) its.
Proof.
  intros [He Hi Hn] Hle. split; cbn; [done| |lia]. eapply Forall_impl; [exact Hi|]. intros i. by apply good_item_mono.
Qed.

(** An event under a fresh key. *)
Lemma event_sim s A r kind ts (i : Z -> Item) bs x' :
  represents s A -> plain r -> (kind = "v" \/ kind = "h")%string -> st_n s + 1 < 2 ^ 64 ->
  (forall rev, item_run (i rev) = r /\ item_rev (i rev) = rev /\ item_bytes (i rev) = bs /\
     item_key (i rev) = event_key kind r ts (st_n s + 1) /\ good_item (st_n s + 1) (i rev)) ->
  (forall its rev, run_holds its r (A r) -> run_holds (its ++ [i rev]) r x') ->
  forall s' res, (do! key := eventKey kind r ts in do! _ := on_kv (nk_Put key bs) in db_ret tt) s = (s', res) ->
  st_n s' = st_n s + 1 /\
  match res with
  | Ok _ => represents s' (upd r x' A)
  | Err e => kb_error e /\ (represents s' (upd r (A r) A) \/ represents s' (upd r x' A))
  end.
Proof.
  intros (its & Hs & HA) Hr Hk Hmax Hi Hx s' res H. pose proof (sh_n s its Hs) as Hn.
  unfold db_bind at 1, eventKey in H. rewrite uint64_id in H by lia. cbn zeta beta iota in H.
  set (s1 := mkStore (st_kv s) (st_url s) (st_bucket s) (st_n s + 1)) in *.
  assert (Hs1 : store_holds s1 its) by (apply counted; [done|lia]).
  unfold db_bind in H. destruct (on_kv _ s1) as [s2 r2] eqn:E.
  assert (Hnew : forall rev, kv_put (event_key kind r ts (st_n s + 1)) bs rev (map entry_of its) = map entry_of (its ++ [i rev]) /\
    Forall (good_item (st_n s1)) (its ++ [i rev])).
  { intros rev. destruct (Hi rev) as (_ & Erev & Eb & Ek & Hg). split.
    - replace (kv_put _ _ rev _) with (kv_put (item_key (i rev)) (item_bytes (i rev)) (item_rev (i rev)) (map entry_of its))
        by (by rewrite Ek, Eb, Erev).
      rewrite kv_put_new; [done|]. rewrite Ek.
      apply (event_fresh _ _ _ _ _ (st_n s)); try done; [apply (sh_items s its Hs)|lia].
    - apply Forall_app. split; [apply (sh_items s1 its Hs1)|by constructor]. }
  destruct (put_holds s1 its (fun rev => its ++ [i rev]) _ _ _ _ Hs1 E Hnew) as [En Hput].
  assert (Hup : forall rev, store_holds s2 (its ++ [i rev]) -> represents s2 (upd r x' A)).
  { intros rev Hh. eapply represents_upd; [exact Hh|by apply Hx| |exact HA]. intros id Hid.
    destruct (Hi rev) as (Er & _). apply (holds_other _ _ (i rev) (i rev)); [congruence..|by left]. }
  destruct r2 as [rev|e]; injection H as <- <-; (split; [done|]); [by eapply Hup|].
  destruct Hput as [He [Hh|[rev Hh]]]; (split; [done|]); [left|right; by eapply Hup].
  apply represents_same. by exists its.
Qed.

Lemma value_write_sim s A r w s' res :
  represents s A -> plain r -> js_exact (pending_rec w) -> keyed_time (vw_Timestamp w) -> st_n s + 1 < 2 ^ 64 ->
  applyValueWrite r w s = (s', res) ->
  let x' := mkNRun (nr_meta (A r)) (nr_values (A r) ++ [record_of_write (canon_write w) 0]) (nr_history (A r)) in
  st_n s' = st_n s + 1 /\
  match res with
  | Ok _ => represents s' (upd r x' A)
  | Err e => kb_error e /\ (represents s' (upd r (A r) A) \/ represents s' (upd r x' A))
  end.
Proof.
  intros HR Hr He Ht Hn H x'. assert (H0 : 0 <= st_n s) by (destruct HR as (its & [] & _); done).
  unfold applyValueWrite in H. fold (pending_rec w) in H. rewrite (marshal_encoded _ He) in H.
  refine (event_sim s A r "v" _ (fun rev => IVal r (st_n s + 1) (record_of_write (canon_write w) rev)) _ x'
            HR Hr (or_introl eq_refl) Hn _ _ s' res H).
  - intros rev. split_and!; try done. split; [done|]. cbn. split_and!; try done; [lia..|by left].
  - intros its rev [Hm Hv Hh]. split; rewrite ?metas_app, ?values_app, ?histories_app; cbn; rewrite ?app_nil_r, ?String.eqb_refl.
    + done.
    + rewrite map_app. by apply ordered_arrival.
    + done.
Qed.

Lemma history_entry_sim s A r h s' res :
  represents s A -> plain r -> storable_entry h -> st_n s + 1 < 2 ^ 64 ->
  applyHistoryEntry r h s = (s', res) ->
  let x' := mkNRun (nr_meta (A r)) (nr_values (A r)) (nr_history (A r) ++ [record_of_entry (canon_entry h) 0]) in
  st_n s' = st_n s + 1 /\
  match res with
  | Ok _ => represents s' (upd r x' A)
  | Err e => kb_error e /\ (represents s' (upd r (A r) A) \/ represents s' (upd r x' A))
  end.
Proof.
  intros HR Hr [He Ht] Hn H x'. assert (H0 : 0 <= st_n s) by (destruct HR as (its & [] & _); done).
  unfold applyHistoryEntry in H. cbv zeta in H. fold (kept_payload (he_Payload h)) in H. fold (entry_rec h) in H.
  rewrite (marshal_encoded _ He) in H.
  refine (event_sim s A r "h" _ (fun rev => IHist r (st_n s + 1) (record_of_entry (canon_entry h) rev)) _ x'
            HR Hr (or_intror eq_refl) Hn _ _ s' res H).
  - intros rev. split_and!; try done. split; [done|]. cbn. split_and!; try done; lia.
  - intros its rev [Hm Hv Hh]. split; rewrite ?metas_app, ?values_app, ?histories_app; cbn; rewrite ?app_nil_r, ?String.eqb_refl; try done.
    by rewrite map_app, Hh.
Qed.

(** ** Flips *)

Definition is_flip (f : StatusFlip) (r : string) (i : Item) : bool :=
  match i with IVal r' _ v => String.eqb r' r && of_class (sf_TaskID f) true v | _ => false end.

Definition with_rev (rev : Z) (v : ValueRecord) : ValueRecord :=
  mkValueRecord (vr_TaskID v) (vr_ExecutionID v) (vr_Field v) (vr_Value v) (vr_Status v) (vr_Timestamp v) rev.

Lemma flip_guard f v : settled_status (vr_Status v) ->
  negb (String.eqb (vr_TaskID v) (sf_TaskID f)) ||
  negb (String.eqb (ValueStatus_String (vr_Status v)) (ValueStatus_String ValueStatusPending)) =
  negb (of_class (sf_TaskID f) true v).
Proof.
  intros Hs. unfold of_class, is_pending. rewrite negb_andb. f_equal. by destruct Hs as [->|[->| ->]].
Qed.

(** One round of the loop. *)
Lemma flip_key_sim f s its l1 l2 r n v s' res :
  store_holds s its -> final f -> its = l1 ++ IVal r n v :: l2 -> flip_key f (item_key (IVal r n v)) s = (s', res) ->
  st_n s' = st_n s /\
  if of_class (sf_TaskID f) true v
  then match res with
       | Ok _ => exists rev, store_holds s' (l1 ++ l2 ++ [IVal r n (with_rev rev (flipped f v))])
       | Err e => kb_error e /\
           (store_holds s' its \/ exists rev, store_holds s' (l1 ++ l2 ++ [IVal r n (with_rev rev (flipped f v))]))
       end
  else store_holds s' its /\ match res with Ok _ => True | Err e => kb_error e end.
Proof.
  intros Hs Hf Ei H. unfold flip_key in H. unfold db_bind at 1 in H.
  destruct (get_entry (item_key (IVal r n v)) s) as [s1 r1] eqn:E.
  destruct (get_entry_holds s its l1 _ l2 _ _ Hs Ei E) as (Hs1 & En & He). rewrite <- En.
  destruct r1 as [e|e]; [subst e|injection H as <- <-; split; [done|]; destruct (of_class _ _ v); auto].
  pose proof (sh_items s its Hs) as Hg. rewrite Ei in Hg. pose proof Hg as Hg'.
  apply Forall_app in Hg as [G1 [G2 G3]%Forall_cons]. destruct G2 as (Hp & Hk & Hx & Ht & Hu & Hst).
  cbn [fst item_bytes] in H. rewrite (unmarshal_encoded _ Hx) in H. unfold db_bind at 1, db_of at 1, wrap_err in H.
  cbn [vrec_TaskID vrec_Status vrec_of] in H. rewrite flip_guard in H by done.
  destruct (of_class (sf_TaskID f) true v) eqn:Ec; cbn [negb] in H; [|by injection H as <- <-].
  change (set_status _ _) with (vrec_of (flipped f v)) in H.
  assert (Hx' : js_exact (vrec_of (flipped f v))) by exact (json_status_exact (vrec_of v) (sf_NewStatus f) Hx).
  rewrite (marshal_encoded _ Hx') in H. unfold db_bind at 1, db_of, db_bind in H.
  destruct (on_kv _ s1) as [s2 r2] eqn:E2.
  destruct (put_holds s1 its (fun rev => l1 ++ l2 ++ [IVal r n (with_rev rev (flipped f v))]) _ _ _ _ Hs1 E2) as [En2 Hput].
  { intros rev. split.
    - rewrite Ei. apply (kv_put_old (IVal r n (with_rev rev (flipped f v)))); [|done]. rewrite <- Ei. by eapply items_keys.
    - rewrite En. rewrite !Forall_app. split_and!; [done..|]. constructor; [|done]. split; [done|]. cbn.
      split_and!; try done; [apply Hk..|]. unfold settled_status. destruct Hf as [->| ->]; tauto. }
  destruct r2 as [rev|e]; injection H as <- <-; (split; [done|]); [by exists rev|done].
Qed.

Lemma flips_none f r its : List.filter (is_flip f r) its = [] ->
  List.filter (of_class (sf_TaskID f) true) (map erase_value (values r its)) = [].
Proof.
  intros H. apply filter_nothing. intros v (u & -> & Hu)%list_elem_of_fmap.
  apply list_elem_of_omap in Hu as (i & Hi & E). pose proof (proj1 (filter_nothing _ _) H i Hi) as Hf.
  destruct i as [| r' n v' |]; try done. cbn [is_flip] in Hf. destruct (String.eqb r' r); [|done]. by injection E as <-.
Qed.

(** A record of the run settled by the loop. *)
Lemma run_flip f r l1 n v l2 rev x :
  run_holds (l1 ++ IVal r n v :: l2) r x -> final f -> List.filter (is_flip f r) l1 = [] ->
  of_class (sf_TaskID f) true v = true ->
  exists vs, flip_first f (nr_values x) vs /\
    run_holds (l1 ++ l2 ++ [IVal r n (with_rev rev (flipped f v))]) r (mkNRun (nr_meta x) vs (nr_history x)).
Proof.
  intros [Hm Hv Hh] Hf H1 Hc. change (IVal r n v :: l2) with ([IVal r n v] ++ l2) in *.
  rewrite ?metas_app, ?values_app, ?histories_app in *.
  assert (E : forall v, values r [IVal r n v] = [v]) by (intros v'; unfold values; cbn; by rewrite String.eqb_refl).
  rewrite E, !map_app in Hv.
  destruct (ordered_flip f (map erase_value (values r l1)) (erase_value v) (map erase_value (values r l2)) (nr_values x) Hv Hf
    (flips_none f r l1 H1) Hc) as (vs & Hs & Ho).
  exists vs. split; [done|]. split; rewrite ?metas_app, ?values_app, ?histories_app; cbn [nr_meta nr_values nr_history].
  - rewrite <- Hm. cbn. by rewrite app_nil_r.
  - by rewrite E, !map_app.
  - rewrite <- Hh. cbn. by rewrite app_nil_r.
Qed.

Lemma filter_flip_value f r its : List.filter (is_flip f r) (List.filter (is_value r) its) = List.filter (is_flip f r) its.
Proof.
  induction its as [|i its IH]; [done|]. cbn [List.filter]. destruct (is_value r i) eqn:E; cbn [List.filter]; rewrite IH; [done|].
  destruct i; cbn [is_flip is_value] in *; by rewrite ?E.
Qed.

(** The loop over the items [js] that were listed: what is left of them to flip is
    what is left in the bucket. *)
Lemma flip_loop f r js s its x A s' res :
  final f -> store_holds s its -> run_holds its r x -> (forall id, id <> r -> run_holds its id (A id)) ->
  Forall (fun j => j ∈ its /\ is_value r j = true) js -> NoDup (map item_key js) ->
  List.filter (is_flip f r) js = List.filter (is_flip f r) its ->
  each (flip_key f) (map item_key js) s = (s', res) ->
  st_n s' = st_n s /\ exists vs, rtc (flip_first f) (nr_values x) vs /\
    represents s' (upd r (mkNRun (nr_meta x) vs (nr_history x)) A) /\
    match res with Ok _ => List.filter (of_class (sf_TaskID f) true) vs = [] | Err e => kb_error e end.
Proof.
  intros Hf. revert s its x. induction js as [|j js IH]; intros s its x Hs Hx HA Hj Hd Hfl H; cbn [map each] in H.
  { injection H as <- <-. split; [done|]. exists (nr_values x). split_and!; [done| |].
    - exists its. split; [done|]. intros id. unfold upd. destruct (String.eqb_spec id r) as [->|]; [|by apply HA]. by destruct x.
    - rewrite <- (od_class _ _ (rh_values _ _ _ Hx)). apply flips_none. by rewrite <- Hfl. }
  apply Forall_cons in Hj as [[Hin Hval] Hj]. cbn [map] in Hd. apply NoDup_cons in Hd as [Hnew Hd].
  destruct j as [|r' n v|]; try done. apply String.eqb_eq in Hval as ->.
  unfold db_bind in H. destruct (flip_key f (item_key (IVal r n v)) s) as [s1 r1] eqn:E1.
  cbn [List.filter is_flip] in Hfl. rewrite String.eqb_refl in Hfl. cbn [andb] in Hfl.
  destruct (of_class (sf_TaskID f) true v) eqn:Ec.
  - symmetry in Hfl. apply filter_first in Hfl as (l1 & l2 & Ei & Hl1 & Hl2 & _).
    destruct (flip_key_sim f s its l1 l2 r n v s1 r1 Hs Hf Ei E1) as [En Hk]. rewrite Ec in Hk. rewrite Ei in Hx.
    assert (Hstep : forall rev, store_holds s1 (l1 ++ l2 ++ [IVal r n (with_rev rev (flipped f v))]) ->
      exists vs, flip_first f (nr_values x) vs /\
        run_holds (l1 ++ l2 ++ [IVal r n (with_rev rev (flipped f v))]) r (mkNRun (nr_meta x) vs (nr_history x)) /\
        forall id, id <> r -> run_holds (l1 ++ l2 ++ [IVal r n (with_rev rev (flipped f v))]) id (A id)).
    { intros rev _. destruct (run_flip f r l1 n v l2 rev x Hx Hf Hl1 Ec) as (vs & H1 & H2). exists vs. split_and!; [done..|].
      intros id Hid. apply (holds_other its _ (IVal r n (with_rev rev (flipped f v))) (IVal r n v)); [done..| |by apply HA].
      right. by exists l1, l2. }
    destruct r1 as [u|e].
    + destruct Hk as [rev Hk]. destruct (Hstep rev Hk) as (vs & H1 & H2 & H3). rewrite <- En.
      destruct (IH s1 _ _ Hk H2 H3) as [En' (vs' & V1 & V2 & V3)]; try done.
      * apply Forall_forall. intros i Hi. rewrite Forall_forall in Hj. destruct (Hj i Hi) as [Hi1 Hi2]. split; [|done].
        rewrite Ei in Hi1. rewrite !elem_of_app, elem_of_cons in *. destruct Hi1 as [?|[->|?]]; [tauto| |tauto].
        exfalso. apply Hnew. by apply list_elem_of_fmap_2.
      * rewrite !List.filter_app, Hl1, Hl2. cbn [List.filter is_flip app]. unfold of_class.
        change (is_pending (with_rev rev (flipped f v))) with (is_pending (flipped f v)).
        rewrite flipped_settled by done. cbn [Bool.eqb]. by rewrite !andb_false_r, app_nil_r.
      * split; [done|]. exists vs'. split_and!; [by eapply rtc_l|done|done].
    + injection H as <- <-. split; [done|]. destruct Hk as [He [Hk|[rev Hk]]].
      * exists (nr_values x). split_and!; [done| |done]. exists its. split; [done|]. intros id. unfold upd.
        destruct (String.eqb_spec id r) as [->|]; [|by apply HA]. rewrite Ei. by destruct x.
      * destruct (Hstep rev Hk) as (vs & H1 & H2 & H3). exists vs. split_and!; [by apply rtc_once| |done].
        eexists. split; [exact Hk|]. intros id. unfold upd. destruct (String.eqb_spec id r) as [->|]; auto.
  - apply list_elem_of_split in Hin as (l1 & l2 & Ei).
    destruct (flip_key_sim f s its l1 l2 r n v s1 r1 Hs Hf Ei E1) as [En Hk]. rewrite Ec in Hk. destruct Hk as [Hs1 Hk].
    rewrite <- En. destruct r1 as [u|e]; [by apply (IH s1 its)|]. injection H as <- <-. split; [done|].
    exists (nr_values x). split_and!; [done| |done]. exists its. split; [done|]. intros id. unfold upd.
    destruct (String.eqb_spec id r) as [->|]; [|by apply HA]. by destruct x.
Qed.

Lemma represents_ext s A A' : represents s A -> (forall id, A id = A' id) -> represents s A'.
Proof. intros (its & H1 & H2) E. exists its. split; [done|]. intros id. by rewrite <- E. Qed.

Lemma status_flip_sim s A r f s' res :
  represents s A -> plain r -> final f -> applyStatusFlip r f s = (s', res) ->
  st_n s' = st_n s /\ exists vs, rtc (flip_first f) (nr_values (A r)) vs /\
    represents s' (upd r (mkNRun (nr_meta (A r)) vs (nr_history (A r))) A) /\
    match res with Ok _ => vs = map (flip_record f) (nr_values (A r)) | Err e => kb_error e end.
Proof.
  intros (its & Hs & HA) Hr Hf H. unfold applyStatusFlip, db_bind in H.
  destruct (runKeys (r +:+ ".v.") s) as [s1 r1] eqn:E. destruct (runKeys_holds _ _ _ _ _ Hs E) as (Hs1 & En & Hk).
  destruct r1 as [ks|e].
  - rewrite (value_keys (st_n s)) in Hk by (done || apply (sh_items s its Hs)). subst ks.
    destruct (flip_loop f r (List.filter (is_value r) its) s1 its (A r) A s' res) as [En' (vs & V1 & V2 & V3)]; try done.
    + apply Forall_forall. intros i Hi%list_elem_of_In%filter_In. destruct Hi as [Hi ?]. by apply list_elem_of_In in Hi.
    + apply NoDup_map_filter. by eapply items_keys.
    + apply filter_flip_value.
    + split; [congruence|]. exists vs. split_and!; [done..|]. destruct res; [|done]. by apply flip_steps_done.
  - injection H as <- <-. split; [done|]. exists (nr_values (A r)). split_and!; [done| |done].
    apply (represents_ext _ (upd r (A r) A)); [by apply represents_same; exists its|]. intros id. unfold upd. by destruct (A r).
Qed.

(** ** Operations and batches *)

Lemma op_effect_values op x : op_Kind op <> OpHistoryEntry -> op_effect op x = mkNRun (nr_meta x) (op_values op (nr_values x)) (nr_history x).
Proof. unfold op_effect, op_history. by destruct (op_Kind op). Qed.

Lemma op_sim s A op s' res :
  represents s A -> valid op -> nats_storable op -> st_n s + 1 < 2 ^ 64 -> apply_op op s = (s', res) ->
  st_n s <= st_n s' <= st_n s + 1 /\ exists x, represents s' (upd (op_RunID op) x A) /\
    match res with
    | Ok _ => x = op_effect op (A (op_RunID op))
    | Err e => kb_error e /\ op_part op (A (op_RunID op)) x
    end.
Proof.
  intros HR Hv [Hp Hst] Hn H. unfold apply_op in H.
  assert (Hnone : forall s' res, db_ret tt s = (s', res) -> op_effect op (A (op_RunID op)) = A (op_RunID op) ->
    st_n s <= st_n s' <= st_n s + 1 /\ exists x, represents s' (upd (op_RunID op) x A) /\
    match res with Ok _ => x = op_effect op (A (op_RunID op)) | Err e => kb_error e /\ op_part op (A (op_RunID op)) x end).
  { intros s2 res2 [= <- <-] E. split; [lia|]. eexists. split; [by apply represents_same|done]. }
  destruct (op_Kind op) eqn:Ek.
  - destruct (op_ValueWrite op) as [w|] eqn:Ew.
    + destruct Hst as [He Ht]. destruct (value_write_sim s A (op_RunID op) w s' res HR Hp He Ht Hn H) as [En Hw].
      split; [lia|]. replace (mkNRun _ _ _) with (op_effect op (A (op_RunID op))) in Hw
        by (unfold op_effect, op_values, op_history; by rewrite Ek, Ew).
      destruct res; [by eexists|]. destruct Hw as [He' [Hw|Hw]]; eexists; (split; [exact Hw|]); (split; [done|constructor]).
    + apply Hnone; [done|]. unfold op_effect, op_values, op_history. rewrite Ek, Ew. by destruct (A _).
  - destruct (op_StatusFlip op) as [f|] eqn:Ef.
    + pose proof (valid_flip op f Hv Ek Ef) as Hf.
      assert (H' : applyStatusFlip (op_RunID op) f s = (s', res)) by (by destruct (op_ValueWrite op)).
      destruct (status_flip_sim s A (op_RunID op) f s' res HR Hp Hf H') as [En (vs & V1 & V2 & V3)].
      split; [lia|]. eexists. split; [exact V2|]. destruct res; [|by split; [|eapply part_flip]].
      subst vs. unfold op_effect, op_values, op_history. by rewrite Ek, Ef.
    + apply Hnone; [by destruct (op_ValueWrite op)|]. unfold op_effect, op_values, op_history. rewrite Ek, Ef. destruct (A _), (op_ValueWrite op); done.
  - destruct (op_HistoryEntry op) as [h|] eqn:Eh.
    + assert (H' : applyHistoryEntry (op_RunID op) h s = (s', res)) by (by destruct (op_ValueWrite op), (op_StatusFlip op)).
      assert (Hst' : storable_entry h) by (by destruct (op_ValueWrite op)).
      destruct (history_entry_sim s A (op_RunID op) h s' res HR Hp Hst' Hn H') as [En Hw].
      split; [lia|]. replace (mkNRun _ _ _) with (op_effect op (A (op_RunID op))) in Hw
        by (unfold op_effect, op_values, op_history; rewrite Ek, Eh; by destruct (op_ValueWrite op)).
      destruct res; [by eexists|]. destruct Hw as [He' [Hw|Hw]]; eexists; (split; [exact Hw|]); (split; [done|constructor]).
    + apply Hnone; [by destruct (op_ValueWrite op), (op_StatusFlip op)|].
      unfold op_effect, op_values, op_history. rewrite Ek, Eh. destruct (A _), (op_ValueWrite op); done.
  - unfold valid, ValidateWriteOp in Hv. rewrite Ek in Hv. by destruct (String.eqb _ _).
Qed.

(** The runs after an operation. *)
Definition runs_effect (A : string -> NRun) (op : WriteOp) : string -> NRun :=
  upd (op_RunID op) (op_effect op (A (op_RunID op))) A.

(** What may be left of a batch that returned an error: the effect of its first
    operations and a part of the next. *)
Definition batch_part (ops : list WriteOp) (A A' : string -> NRun) : Prop :=
  exists done op rest x, ops = done ++ op :: rest /\
    let A1 := fold_left runs_effect done A in op_part op (A1 (op_RunID op)) x /\ A' = upd (op_RunID op) x A1.

Lemma batch_effect_sim ops s A s' res :
  represents s A -> Forall valid ops -> Forall nats_storable ops -> st_n s + Z.of_nat (length ops) < 2 ^ 64 ->
  each apply_op ops s = (s', res) ->
  st_n s <= st_n s' <= st_n s + Z.of_nat (length ops) /\
  match res with
  | Ok _ => represents s' (fold_left runs_effect ops A)
  | Err e => kb_error e /\ exists A', batch_part ops A A' /\ represents s' A'
  end.
Proof.
  revert s A. induction ops as [|op ops IH]; intros s A HR Hv Hst Hn H; cbn [each fold_left] in *.
  { injection H as <- <-. split; [cbn; lia|done]. }
  rewrite length_cons in *. apply Forall_cons in Hv as [Hv Hvs]. apply Forall_cons in Hst as [Hst Hsts].
  unfold db_bind in H. destruct (apply_op op s) as [s1 r1] eqn:E.
  destruct (op_sim s A op s1 r1 HR Hv Hst ltac:(lia) E) as [Hn1 (x & HR1 & Hx)]. destruct r1 as [u|e].
  - subst x. destruct (IH s1 _ HR1 Hvs Hsts ltac:(lia) H) as [Hn2 Hr]. split; [lia|]. destruct res as [|e]; [done|].
    destruct Hr as [He (A' & (dn & op' & rest & x & -> & Hp & ->) & HA')]. split; [done|]. eexists. split; [|exact HA'].
    by exists (op :: dn), op', rest, x.
  - injection H as <- <-. split; [lia|]. destruct Hx as [He Hx]. split; [done|]. eexists. split; [|exact HR1].
    by exists [], op, ops, x.
Qed.

(** ** Saving metadata *)

Lemma meta_item n i m : good_item n i -> plain (rm_RunID m) -> item_key i = metaSuffix (rm_RunID m) ->
  exists m' rev, i = IMeta m' rev /\ rm_RunID m' = rm_RunID m.
Proof.
  intros [Hp _] Hm E. destruct kinds_plain as (Hv & Hh & _).
  destruct i as [m' rev|r k v|r k h]; cbn [item_key item_run] in *; [|by apply eq_sym, meta_not_event in E..].
  exists m', rev. split; [done|]. rewrite !meta_key_cut in E. by apply run_cut in E as [? _].
Qed.

Definition set_meta (m : RunMetadata) (x : NRun) : NRun := mkNRun (Some m) (nr_values x) (nr_history x).

Lemma metas_new its id x m rev :
  run_holds its id x -> rm_RunID m = id -> metas id its = [] -> run_holds (its ++ [IMeta m rev]) id (set_meta m x).
Proof.
  intros [Hm Hv Hh] <- E. split; rewrite ?metas_app, ?values_app, ?histories_app; cbn; rewrite ?app_nil_r; try done.
  by rewrite E, String.eqb_refl.
Qed.

Lemma option_list_snoc {A} (o : option A) l1 x l2 : l1 ++ x :: l2 = option_list o -> l1 = [] /\ l2 = [].
Proof. destruct o as [y|]; cbn; [|by destruct l1]. destruct l1 as [|z l1]; [by intros [= _ ->]|]. by destruct l1. Qed.

Lemma metas_replaced l1 m' rev' l2 id x m rev :
  run_holds (l1 ++ IMeta m' rev' :: l2) id x -> rm_RunID m' = id -> rm_RunID m = id ->
  run_holds (l1 ++ l2 ++ [IMeta m rev]) id (set_meta m x).
Proof.
  intros [Hm Hv Hh] E' E. change (IMeta m' rev' :: l2) with ([IMeta m' rev'] ++ l2) in *.
  rewrite ?metas_app, ?values_app, ?histories_app in *.
  assert (Es : forall m rev, rm_RunID m = id -> metas id [IMeta m rev] = [m]).
  { intros m0 rev0 <-. unfold metas. cbn. by rewrite String.eqb_refl. }
  rewrite (Es _ _ E') in Hm. destruct (option_list_snoc _ _ _ _ Hm) as [M1 M2].
  split; rewrite ?metas_app, ?values_app, ?histories_app; cbn [set_meta nr_meta nr_values nr_history].
  - by rewrite M1, M2, (Es m rev E).
  - revert Hv. cbn. by rewrite app_nil_r.
  - revert Hh. cbn. by rewrite app_nil_r.
Qed.

Lemma save_holds s A m s' res :
  represents s A -> plain (rm_RunID m) -> js_exact m -> save m s = (s', res) -> rm_RunID m <> ""%string ->
  let x' := set_meta m (A (rm_RunID m)) in
  st_n s' = st_n s /\
  match res with
  | Ok _ => represents s' (upd (rm_RunID m) x' A)
  | Err e => kb_error e /\ (represents s' (upd (rm_RunID m) (A (rm_RunID m)) A) \/ represents s' (upd (rm_RunID m) x' A))
  end.
Proof.
  intros (its & Hs & HA) Hp Hx H Hne x'. unfold save in H. destruct (String.eqb_spec (rm_RunID m) ""); [done|].
  rewrite (marshal_encoded _ Hx) in H. unfold db_bind at 1, db_of, wrap_err, db_bind in H.
  destruct (on_kv _ s) as [s1 r1] eqn:E. pose proof (sh_items s its Hs) as Hg.
  assert (Hgm : forall rev, good_item (st_n s) (IMeta m rev)) by (intros rev; by split).
  assert (Hits : exists its' : Z -> list Item, forall rev,
    (kv_put (metaSuffix (rm_RunID m)) (encoded m) rev (map entry_of its) = map entry_of (its' rev) /\
     Forall (good_item (st_n s)) (its' rev)) /\
    run_holds (its' rev) (rm_RunID m) x' /\ forall id, id <> rm_RunID m -> run_holds (its' rev) id (A id)).
  { destruct (decide (metaSuffix (rm_RunID m) ∈ map item_key its)) as [Hin|Hout].
    - apply list_elem_of_fmap in Hin as (i & Ei & Hi). apply list_elem_of_split in Hi as (l1 & l2 & El).
      assert (Hgi : good_item (st_n s) i) by (rewrite Forall_forall in Hg; apply Hg; rewrite El; set_solver).
      destruct (meta_item _ _ m Hgi Hp (eq_sym Ei)) as (m' & rev' & -> & Em).
      exists (fun rev => l1 ++ l2 ++ [IMeta m rev]). intros rev. split_and!.
      + rewrite El. apply (kv_put_old (IMeta m rev)); [|done]. rewrite <- El. by eapply items_keys.
      + rewrite El in Hg. apply Forall_app in Hg as [? [_ ?]%Forall_cons]. rewrite !Forall_app. split_and!; auto.
      + eapply metas_replaced; [rewrite <- El; apply HA|done|done].
      + intros id Hid. apply (holds_other its _ (IMeta m rev) (IMeta m' rev')); cbn; [congruence..| |apply HA].
        right. by exists l1, l2.
    - exists (fun rev => its ++ [IMeta m rev]). intros rev. split_and!.
      + by apply (kv_put_new (IMeta m rev)).
      + rewrite Forall_app. auto.
      + apply metas_new; [apply HA|done|]. apply elem_of_nil_inv. intros m' Hm'.
        apply list_elem_of_omap in Hm' as (i & Hi & Ei). destruct i as [m0 rev0| |]; try done.
        destruct (String.eqb_spec (rm_RunID m0) (rm_RunID m)) as [E0|]; [|done]. apply Hout. rewrite <- E0.
        exact (list_elem_of_fmap_2 item_key its (IMeta m0 rev0) Hi).
      + intros id Hid. apply (holds_other its _ (IMeta m rev) (IMeta m rev)); cbn; [congruence..|by left|apply HA]. }
  destruct Hits as [its' Hits].
  destruct (put_holds s its its' _ _ _ _ Hs E (fun rev => proj1 (Hits rev))) as [En Hput].
  assert (Hup : forall rev, store_holds s1 (its' rev) -> represents s1 (upd (rm_RunID m) x' A)).
  { intros rev Hh. destruct (Hits rev) as (_ & Hr & Ho). eapply represents_upd; [exact Hh|exact Hr| |exact HA].
    intros id Hid _. by apply Ho. }
  destruct r1 as [rev|e]; injection H as <- <-; (split; [done|]); [by eapply Hup|].
  destruct Hput as [He [Hh|[rev Hh]]]; (split; [done|]); [left|right; by eapply Hup].
  apply represents_same. by exists its.
Qed.

(** ** Histories of calls *)

Definition nats_call (s : Store) (c : Call) : Store * option GoError :=
  match c with
  | CallSave m => Save s m
  | CallWriteBatch ops => WriteBatch s ops
  | CallFlush id => Flush s id
  end.

Definition call_effect (c : Call) (A : string -> NRun) : string -> NRun :=
  match c with
  | CallSave m => upd (rm_RunID m) (set_meta m (A (rm_RunID m))) A
  | CallWriteBatch ops => fold_left runs_effect ops A
  | CallFlush _ => A
  end.

(** What may be left of a call that returned an error of the bucket. *)
Definition call_part (c : Call) (A A' : string -> NRun) : Prop :=
  match c with
  | CallSave _ => A' = A \/ A' = call_effect c A
  | CallWriteBatch ops => batch_part ops A A'
  | CallFlush _ => False
  end.

(** The error a call is refused with. *)
Definition call_refused (c : Call) : option GoError :=
  match c with
  | CallSave m => if String.eqb (rm_RunID m) "" then Some (ErrorText "save: empty RunID") else None
  | CallWriteBatch ops => validate_all ops
  | CallFlush _ => None
  end.

(** What a call may return, and what it then did: a refused call nothing, a call
    without an error its effect, a call with an error of the bucket a part. *)
Inductive call_outcome (c : Call) (A : string -> NRun) : option GoError -> (string -> NRun) -> Prop :=
| outcome_refused e : call_refused c = Some e -> call_outcome c A (Some e) A
| outcome_done : call_refused c = None -> call_outcome c A None (call_effect c A)
| outcome_failed e A' : call_refused c = None -> kb_error e -> call_part c A A' -> call_outcome c A (Some e) A'.

Inductive outcomes : list Call -> (string -> NRun) -> list (option GoError) -> (string -> NRun) -> Prop :=
| outcomes_nil A : outcomes [] A [] A
| outcomes_cons c cs A e A1 es A2 : call_outcome c A e A1 -> outcomes cs A1 es A2 -> outcomes (c :: cs) A (e :: es) A2.

(** The calls whose data the store keeps exactly. *)
Definition nats_admits (c : Call) : Prop :=
  match c with
  | CallSave m => js_exact m /\ plain (rm_RunID m)
  | CallWriteBatch ops => validate_all ops = None -> Forall nats_storable ops
  | CallFlush _ => True
  end.

Lemma call_sim s A c :
  represents s A -> nats_admits c -> st_n s + Z.of_nat (call_ops c) < 2 ^ 64 ->
  st_n s <= st_n (fst (nats_call s c)) <= st_n s + Z.of_nat (call_ops c) /\
  exists A', call_outcome c A (snd (nats_call s c)) A' /\ represents (fst (nats_call s c)) A'.
Proof.
  intros HR Hc Hn. destruct c as [m|ops|id]; cbn [nats_call call_ops nats_admits] in *.
  - destruct Hc as [Hx Hp]. unfold Save. destruct (String.eqb (rm_RunID m) "") eqn:Ee.
    + unfold save. rewrite Ee. cbn. split; [lia|]. exists A. split; [|done]. constructor. cbn. by rewrite Ee.
    + destruct (save m s) as [s' res] eqn:E. destruct (save_holds s A m s' res HR Hp Hx E) as [En Hr].
      { by apply String.eqb_neq. }
      split; [cbn; lia|]. destruct res as [u|e]; cbn.
      * eexists. split; [|exact Hr]. apply outcome_done. cbn. by rewrite Ee.
      * destruct Hr as [He [Hr|Hr]].
        -- exists A. split; [|by eapply represents_ext; [exact Hr|intros id; by rewrite upd_same]].
           apply outcome_failed; [cbn; by rewrite Ee|done|by left].
        -- eexists. split; [|exact Hr]. apply outcome_failed; [cbn; by rewrite Ee|done|by right].
  - unfold WriteBatch. destruct (validate_all ops) as [e|] eqn:Ev.
    + split; [cbn; lia|]. exists A. split; [by constructor|done].
    + destruct (each apply_op ops s) as [s' res] eqn:E.
      destruct (batch_effect_sim ops s A s' res HR (proj1 (validate_all_valid ops) Ev) (Hc eq_refl) Hn E) as [En Hr].
      split; [done|]. destruct res as [u|e]; cbn.
      * eexists. split; [|exact Hr]. by apply outcome_done.
      * destruct Hr as [He (A' & Hb & Hr)]. exists A'. split; [by apply outcome_failed|done].
  - split; [cbn; lia|]. exists A. split; [by apply outcome_done|done].
Qed.

Lemma calls_sim cs s A :
  represents s A -> Forall nats_admits cs -> st_n s + Z.of_nat (calls_ops cs) < 2 ^ 64 ->
  exists A', outcomes cs A (snd (run_calls nats_call s cs)) A' /\ represents (fst (run_calls nats_call s cs)) A'.
Proof.
  revert s A. induction cs as [|c cs IH]; intros s A HR Hc Hn; cbn [run_calls calls_ops] in *.
  { exists A. split; [constructor|done]. }
  apply Forall_cons in Hc as [Hc Hcs]. destruct (call_sim s A c HR Hc ltac:(lia)) as [Hn1 (A1 & Ho & HR1)].
  destruct (nats_call s c) as [s1 e]. cbn [fst snd] in *.
  destruct (IH s1 A1 HR1 Hcs ltac:(lia)) as (A2 & Hos & HR2). destruct (run_calls nats_call s1 cs) as [s2 es].
  exists A2. split; [by econstructor|done].
Qed.

End Laws.

(** ** Reads of a sorted list *)

Lemma go_insert_filter_comm {A} (less : A -> A -> bool) `{!StrictWeakOrder less} (P : A -> bool) x rp :
  StronglySorted (fun a b => less a b = false) rp ->
  List.filter P (go_insert less x rp) = if P x then go_insert less x (List.filter P rp) else List.filter P rp.
Proof.
  induction 1 as [|p ps Hs IH Hall]; simpl; [by destruct (P x)|]. destruct (less x p) eqn:E; simpl.
  - rewrite IH. destruct (P p) eqn:Hp, (P x); simpl; rewrite ?E; done.
  - destruct (P p) eqn:Hp, (P x) eqn:Hx; simpl; rewrite ?E; try done.
    destruct (List.filter P ps) as [|q qs] eqn:Eq; [done|]. simpl.
    assert (Hq : q ∈ ps).
    { assert (q ∈ List.filter P ps) as Hin by (rewrite Eq; set_solver). by apply list_elem_of_In, filter_In in Hin as [?%list_elem_of_In _]. }
    rewrite Forall_forall in Hall. by rewrite (swo_ntrans x p q E (Hall q Hq)).
Qed.

(** Sorting commutes with filtering. *)
Lemma slice_stable_filter {A} (less : A -> A -> bool) `{!StrictWeakOrder less} (P : A -> bool) l :
  List.filter P (slice_stable less l) = slice_stable less (List.filter P l).
Proof.
  unfold slice_stable. rewrite filter_rev. f_equal.
  assert (H : forall rp, StronglySorted (fun a b => less a b = false) rp ->
    List.filter P (fold_left (fun rp x => go_insert less x rp) l rp) =
    fold_left (fun rp x => go_insert less x rp) (List.filter P l) (List.filter P rp)).
  { induction l as [|x l IH]; intros rp Hs; simpl; [done|]. rewrite IH by (by apply go_insert_sorted).
    rewrite go_insert_filter_comm by done. by destruct (P x). }
  apply (H []). constructor.
Qed.

#[global] Instance earlier_swo {A} (ts : A -> Time) : StrictWeakOrder (earlier ts).
Proof.
  assert (E : forall a b, earlier ts a b = replay_less (ts a) 0 (ts b) 0).
  { intros a b. unfold earlier, replay_less, TimeBefore. rewrite TimeEqual_compare.
    destruct (Z.eqb_spec (TimeCompare (ts a) (ts b)) 0) as [->|]; done. }
  destruct (replay_less_swo ts (fun _ => 0)) as [H1 H2 H3]. split; intros *; rewrite ?E; eauto.
Qed.

Definition committed_of (t : string) (v : ValueRecord) : bool :=
  String.eqb (vr_TaskID v) t && bool_decide (vr_Status v = ValueStatusCommitted).

(** What [CurrentVersion] says of a task depends on its committed records only. *)
Lemma fold_value_task t vs m m' :
  m !! t = m' !! t -> fold_left fold_value vs m !! t = fold_left fold_value (List.filter (committed_of t) vs) m' !! t.
Proof.
  revert m m'. induction vs as [|v vs IH]; intros m m' E; [done|]. cbn [fold_left List.filter].
  unfold committed_of at 1. destruct (bool_decide (vr_Status v = ValueStatusCommitted)) eqn:Ec.
  - destruct (String.eqb_spec (vr_TaskID v) t) as [<-|Hne]; cbn [andb fold_left]; apply IH; unfold fold_value; rewrite Ec; cbn [negb].
    + by rewrite !lookup_insert, E.
    + by rewrite lookup_insert_ne.
  - rewrite andb_false_r. apply IH. unfold fold_value. by rewrite Ec.
Qed.

Lemma fold_value_committed vs vs' :
  (forall t, List.filter (committed_of t) vs = List.filter (committed_of t) vs') ->
  fold_left fold_value vs ∅ = fold_left fold_value vs' ∅.
Proof.
  intros H. apply map_eq. intros t. rewrite (fold_value_task t vs ∅ ∅), (fold_value_task t vs' ∅ ∅) by done. by rewrite H.
Qed.

Lemma filter_of_filter {A} (P Q : A -> bool) l : List.filter P (List.filter Q l) = List.filter (fun x => Q x && P x) l.
Proof. induction l as [|x l IH]; [done|]. cbn [List.filter]. destruct (Q x); cbn [List.filter andb]; by rewrite IH. Qed.

Lemma ordered_committed bs vs t : ordered bs vs -> List.filter (committed_of t) bs = List.filter (committed_of t) vs.
Proof.
  intros Ho. assert (E : forall l, List.filter (committed_of t) l = List.filter (committed_of t) (List.filter (of_class t false) l)).
  { intros l. rewrite filter_of_filter. apply filter_ext. intros v. unfold committed_of, of_class, is_pending.
    destruct (String.eqb (vr_TaskID v) t); cbn [andb]; [|done]. destruct (vr_Status v); done. }
  rewrite E, (E vs). by rewrite (od_class _ _ Ho).
Qed.

(** ** Reads *)

Section Reads.
Context {B : Type} {KB : KvBucket B} {KL : KvBucketLaws B} {SJ : StoreJson} {SJL : StoreJsonLaws}.

(** The runs the store knows of. *)
Definition nr_known (x : NRun) : bool :=
  match nr_meta x with Some _ => true | None => false end ||
  match nr_values x with [] => false | _ => true end || match nr_history x with [] => false | _ => true end.

(** The answers, of a run in order of arrival. *)
Definition nr_current (id : string) (x : NRun) : option StateStore.CurrentVersion :=
  if nr_known x
  then Some (mkCurrentVersion (default (emptyMeta id) (nr_meta x))
               (fold_left fold_value (slice_stable (earlier vr_Timestamp) (nr_values x)) ∅))
  else None.

(** Values of the same time may come in another order: that in which they were
    last written. *)
Definition nr_full (id : string) (x : NRun) (fh : option StateStore.FullHistory) : Prop :=
  if nr_known x
  then exists meta vs hs, fh = Some (mkFullHistory meta vs hs) /\ meta = default (emptyMeta id) (nr_meta x) /\
    map erase_value vs ≡ₚ nr_values x /\ sorted (earlier vr_Timestamp) vs /\
    map erase_history hs = slice_stable (earlier hr_Timestamp) (nr_history x)
  else fh = None.

Lemma item_split (i : Item) its : i ∈ its -> exists l1 l2, its = l1 ++ i :: l2.
Proof. apply list_elem_of_split. Qed.

(** A loop that reads the records of listed items. *)
Lemma collect_holds {A} (read : string -> Db Store A) (g : Item -> option A) s its js s' res :
  store_holds s its -> Forall (fun j => j ∈ its) js ->
  (forall s0 j s1 r, j ∈ js -> store_holds s0 its -> read (item_key j) s0 = (s1, r) ->
     store_holds s1 its /\ st_n s1 = st_n s0 /\ match r with Ok a => g j = Some a | Err e => kb_error e end) ->
  collect read (map item_key js) s = (s', res) ->
  store_holds s' its /\ st_n s' = st_n s /\ match res with Ok l => l = omap g js | Err e => kb_error e end.
Proof.
  intros Hs Hj Hread. revert s s' res Hs. induction js as [|j js IH]; intros s s' res Hs H; cbn [map collect] in H.
  { by injection H as <- <-. }
  apply Forall_cons in Hj as [Hj Hjs]. unfold db_bind in H. destruct (read (item_key j) s) as [s1 r1] eqn:E1.
  destruct (Hread s j s1 r1 ltac:(set_solver) Hs E1) as (Hs1 & En1 & H1). destruct r1 as [a|e].
  - destruct (collect read (map item_key js) s1) as [s2 r2] eqn:E2.
    destruct (IH Hjs ltac:(intros; eapply Hread; [set_solver|done..]) s1 s2 r2 Hs1 E2) as (Hs2 & En2 & H2).
    destruct r2 as [l|e]; injection H as <- <-; (split_and!; [done|congruence|]); [|done]. cbn. by rewrite H1, H2.
  - by injection H as <- <-.
Qed.

Lemma omap_filtered {A} (g : Item -> option A) (P : Item -> bool) its :
  (forall i, P i = false -> g i = None) -> omap g (List.filter P its) = omap g its.
Proof.
  intros H. induction its as [|i its IH]; [done|]. cbn [List.filter]. destruct (P i) eqn:E; cbn; rewrite IH; [done|].
  by rewrite (H i E).
Qed.

Lemma filter_elem {A} (P : A -> bool) x l : x ∈ List.filter P l <-> x ∈ l /\ P x = true.
Proof. by rewrite !list_elem_of_In, filter_In. Qed.

Definition value_in (id : string) (i : Item) : option ValueRecord :=
  match i with IVal r _ v => if String.eqb r id then Some v else None | _ => None end.
Definition history_in (id : string) (i : Item) : option HistoryRecord :=
  match i with IHist r _ h => if String.eqb r id then Some h else None | _ => None end.

Lemma read_value_holds id s its j s' r :
  store_holds s its -> j ∈ its -> is_value id j = true -> read_value (item_key j) s = (s', r) ->
  store_holds s' its /\ st_n s' = st_n s /\ match r with Ok v => value_in id j = Some v | Err e => kb_error e end.
Proof.
  intros Hs Hj Hv H. destruct j as [|r' n v|]; try done. cbn [is_value] in Hv.
  pose proof (sh_items s its Hs) as Hg. rewrite Forall_forall in Hg. specialize (Hg _ Hj) as (_ & _ & Hx & Ht & Hu & Hst).
  destruct (item_split _ its Hj) as (l1 & l2 & Ei). unfold read_value in H. unfold db_bind at 1 in H.
  destruct (get_entry (item_key (IVal r' n v)) s) as [s1 r1] eqn:E.
  destruct (get_entry_holds s its l1 _ l2 _ _ Hs Ei E) as (Hs1 & En & He). destruct r1 as [e|e]; [subst e|by injection H as <- <-].
  cbn [fst snd item_bytes item_rev] in H. rewrite (unmarshal_encoded _ Hx) in H. unfold db_bind, db_of, wrap_err in H. cbn [vrec_of vrec_Status] in H.
  assert (Ep : ParseValueStatus (ValueStatus_String (vr_Status v)) = Ok (vr_Status v)) by (by destruct Hst as [->|[->| ->]]).
  rewrite Ep in H. cbn [vrec_of vrec_TaskID vrec_ExecutionID vrec_Field vrec_Value vrec_TS db_ret] in H.
  rewrite nanosToTime_UnixNano, Hu in H by done. injection H as <- <-. split_and!; try done. cbn. rewrite Hv. by destruct v.
Qed.

Lemma read_history_holds id s its j s' r :
  store_holds s its -> j ∈ its -> is_history id j = true -> read_history (item_key j) s = (s', r) ->
  store_holds s' its /\ st_n s' = st_n s /\ match r with Ok h => history_in id j = Some h | Err e => kb_error e end.
Proof.
  intros Hs Hj Hv H. destruct j as [| |r' n h]; try done. cbn [is_history] in Hv.
  pose proof (sh_items s its Hs) as Hg. rewrite Forall_forall in Hg. specialize (Hg _ Hj) as (_ & _ & Hx & Ht & Hu).
  destruct (item_split _ its Hj) as (l1 & l2 & Ei). unfold read_history in H. unfold db_bind at 1 in H.
  destruct (get_entry (item_key (IHist r' n h)) s) as [s1 r1] eqn:E.
  destruct (get_entry_holds s its l1 _ l2 _ _ Hs Ei E) as (Hs1 & En & He). destruct r1 as [e|e]; [subst e|by injection H as <- <-].
  cbn [fst snd item_bytes item_rev] in H. rewrite (unmarshal_encoded _ Hx) in H. unfold db_bind, db_of, wrap_err in H.
  cbn [hrec_of hrec_Kind hrec_NodeID hrec_ExecutionID hrec_Payload hrec_TS db_ret] in H.
  rewrite nanosToTime_UnixNano, Hu in H by done. injection H as <- <-. split_and!; try done. cbn. rewrite Hv. by destruct h.
Qed.

Lemma loadValues_holds id s its s' r :
  store_holds s its -> plain id -> loadValues id s = (s', r) ->
  store_holds s' its /\ st_n s' = st_n s /\ match r with Ok vs => vs = SortValueRecords (values id its) | Err e => kb_error e end.
Proof.
  intros Hs Hp H. unfold loadValues, db_bind in H. destruct (runKeys (id +:+ ".v.") s) as [s1 r1] eqn:E.
  destruct (runKeys_holds _ _ _ _ _ Hs E) as (Hs1 & En1 & Hk). destruct r1 as [ks|e]; [|by injection H as <- <-].
  rewrite (value_keys (st_n s)) in Hk by (done || apply (sh_items s its Hs)). subst ks.
  destruct (collect read_value _ s1) as [s2 r2] eqn:E2.
  destruct (collect_holds read_value (value_in id) s1 its (List.filter (is_value id) its) s2 r2 Hs1) as (Hs2 & En2 & H2); try done.
  - apply Forall_forall. by intros i [? _]%filter_elem.
  - intros s0 j s3 r0 [Hj Hv]%filter_elem Hs0 Hr. by eapply read_value_holds.
  - destruct r2 as [l|e]; injection H as <- <-; (split_and!; [done|congruence|]); [|done]. rewrite H2. f_equal.
    apply omap_filtered. intros i Hi. destruct i as [|r' n v|]; try done. cbn in *. by rewrite Hi.
Qed.

Lemma metas_elem id its m : m ∈ metas id its -> exists rev, IMeta m rev ∈ its /\ rm_RunID m = id.
Proof.
  intros (i & Hi & Ei)%list_elem_of_omap. destruct i as [m' rev| |]; try done.
  destruct (String.eqb_spec (rm_RunID m') id) as [E|]; [|done]. injection Ei as <-. by exists rev.
Qed.

Lemma meta_get s its id x : store_holds s its -> run_holds its id x -> plain id ->
  match nr_meta x with
  | Some m => js_exact m /\ exists rev, kv_get (metaSuffix id) (map entry_of its) = Some (encoded m, rev)
  | None => kv_get (metaSuffix id) (map entry_of its) = None
  end.
Proof.
  intros Hs [Hm _ _] Hp. destruct (nr_meta x) as [m|]; cbn in Hm.
  - destruct (metas_elem id its m) as (rev & Hi & <-); [rewrite Hm; set_solver|].
    pose proof (sh_items s its Hs) as Hg. rewrite Forall_forall in Hg. destruct (Hg _ Hi) as [_ Hx]. split; [done|].
    destruct (item_split _ its Hi) as (l1 & l2 & ->). exists rev.
    by rewrite (kv_get_item (IMeta m rev)) by (by eapply items_keys).
  - apply kv_get_none. intros (i & Ei & Hi)%list_elem_of_fmap.
    pose proof (sh_items s its Hs) as Hg. rewrite Forall_forall in Hg.
    destruct (meta_item _ i (emptyMeta id) (Hg i Hi) Hp (eq_sym Ei)) as (m & rev & -> & E).
    assert (Hin : m ∈ metas id its); [|rewrite Hm in Hin; by apply elem_of_nil in Hin].
    apply list_elem_of_omap. exists (IMeta m rev). split; [done|]. by rewrite E, String.eqb_refl.
Qed.

(** Without metadata, a run is known by the keys of its records. *)
Lemma run_keys_known its id x :
  run_holds its id x -> nr_meta x = None ->
  negb (length (List.filter (fun i => String.eqb (item_run i) id) its) =? 0)%nat = nr_known x.
Proof.
  intros [Hm Hv Hh] E. unfold nr_known. rewrite E in *. cbn [orb option_list] in *. apply eq_true_iff_eq.
  rewrite negb_true_iff, orb_true_iff, Nat.eqb_neq. pose proof (od_perm _ _ Hv) as Hp. rewrite <- Hh. split.
  - intros Hl. destruct (List.filter _ its) as [|i l] eqn:Ef; [done|].
    assert (Hi : i ∈ its /\ String.eqb (item_run i) id = true) by (apply (filter_elem (fun i => String.eqb (item_run i) id)); rewrite Ef; set_solver).
    destruct Hi as [Hi Hr]. destruct i as [m rev|r n v|r n h]; cbn [item_run] in Hr.
    + assert (Hin : m ∈ metas id its) by (apply list_elem_of_omap; exists (IMeta m rev); split; [done|by rewrite Hr]).
      rewrite Hm in Hin. by apply elem_of_nil in Hin.
    + left. assert (Hin : v ∈ values id its) by (apply list_elem_of_omap; exists (IVal r n v); split; [done|by rewrite Hr]).
      destruct (nr_values x); [|done]. apply Permutation_nil_r in Hp. apply map_eq_nil in Hp. rewrite Hp in Hin. by apply elem_of_nil in Hin.
    + right. assert (Hin : h ∈ histories id its) by (apply list_elem_of_omap; exists (IHist r n h); split; [done|by rewrite Hr]).
      destruct (histories id its); [by apply elem_of_nil in Hin|done].
  - intros Hk Hl. apply length_zero_iff_nil in Hl.
    assert (Hno : forall i, i ∈ its -> String.eqb (item_run i) id = false) by (by apply filter_nothing).
    destruct Hk as [Hk|Hk].
    + destruct (values id its) as [|v l] eqn:Ev; [cbn in Hp; apply Permutation_nil_l in Hp; by rewrite <- Hp in Hk|].
      assert (Hin : v ∈ values id its) by (rewrite Ev; set_solver). apply list_elem_of_omap in Hin as (i & Hi & Ei).
      specialize (Hno i Hi). destruct i; try done. cbn in *. by rewrite Hno in Ei.
    + destruct (histories id its) as [|h l] eqn:Ev; [done|].
      assert (Hin : h ∈ histories id its) by (rewrite Ev; set_solver). apply list_elem_of_omap in Hin as (i & Hi & Ei).
      specialize (Hno i Hi). destruct i; try done. cbn in *. by rewrite Hno in Ei.
Qed.

Lemma runMeta_holds s its id x s' r :
  store_holds s its -> run_holds its id x -> plain id -> runMeta id s = (s', r) ->
  store_holds s' its /\ st_n s' = st_n s /\
  match r with Ok m => m = (default (emptyMeta id) (nr_meta x), nr_known x) | Err e => kb_error e end.
Proof.
  intros Hs Hx Hp H. unfold runMeta in H. unfold db_bind at 1 in H.
  destruct (on_kv (nk_Get (metaSuffix id)) s) as [s1 r1] eqn:E. destruct (get_holds _ _ _ _ _ Hs E) as (Hs1 & En & Hg).
  destruct r1 as [e|e]; [|by injection H as <- <-]. pose proof (meta_get s its id x Hs Hx Hp) as Hm.
  destruct (nr_meta x) as [m|] eqn:Em.
  - destruct Hm as [He [rev Hm]]. rewrite Hg, Hm in H. unfold db_bind, db_of, wrap_err in H. rewrite (unmarshal_encoded _ He) in H.
    injection H as <- <-. split_and!; try done. unfold nr_known. by rewrite Em.
  - rewrite Hg, Hm in H. unfold db_bind in H. destruct (runKeys (id +:+ ".") s1) as [s2 r2] eqn:E2.
    destruct (runKeys_holds _ _ _ _ _ Hs1 E2) as (Hs2 & En2 & Hk). destruct r2 as [ks|e2]; injection H as <- <-;
      (split_and!; [done|congruence|]); [|done].
    rewrite Hk, (filter_map_keys _ (fun i => String.eqb (item_run i) id)), length_map.
    + f_equal. by eapply run_keys_known.
    + eapply Forall_impl; [apply (sh_items s its Hs)|]. intros i Hi. by eapply item_prefix.
Qed.

Lemma sorted_values s its id x : store_holds s its -> run_holds its id x ->
  SortValueRecords (values id its) = slice_stable (earlier vr_Timestamp) (values id its) /\
  SortHistoryRecords (histories id its) = slice_stable (earlier hr_Timestamp) (histories id its).
Proof.
  intros Hs _. pose proof (items_revisions s its Hs) as Hr.
  split; [apply (replay_sort_by_time vr_Timestamp vr_Seq)|apply (replay_sort_by_time hr_Timestamp hr_Seq)];
    (clear Hs; induction Hr as [|i its Hr IH Hall]; [constructor|]; rewrite Forall_forall in Hall; destruct i as [m rev|r n v|r n h];
     cbn; try done; destruct (String.eqb r id); try done; constructor; [done|]; apply Forall_forall;
     intros w (i & Hi & Ei)%list_elem_of_omap; specialize (Hall i Hi); destruct i; try done;
     destruct (String.eqb _ id); [|done]; by injection Ei as <-).
Qed.

(** The fold of [CurrentVersion] over the bucket is that over the arrivals. *)
Lemma current_of_arrivals bs vs :
  ordered (map erase_value bs) vs ->
  fold_left fold_value (slice_stable (earlier vr_Timestamp) bs) ∅ =
  fold_left fold_value (slice_stable (earlier vr_Timestamp) vs) ∅.
Proof.
  intros Ho. rewrite <- fold_value_erase, <- (slice_stable_map erase_value _ (earlier vr_Timestamp)) by done.
  apply fold_value_committed. intros t. rewrite !slice_stable_filter by apply _. by rewrite (ordered_committed _ _ t Ho).
Qed.

(** [CurrentVersion] answers from the arrivals, or with an error of the bucket. *)
Lemma nats_current_sim s A id s' r :
  represents s A -> plain id -> CurrentVersion id s = (s', r) ->
  represents s' A /\ st_n s' = st_n s /\ match r with Ok cv => cv = nr_current id (A id) | Err e => kb_error e end.
Proof.
  intros (its & Hs & HA) Hp H. unfold CurrentVersion in H. unfold db_bind at 1 in H.
  destruct (runMeta id s) as [s1 r1] eqn:E1. destruct (runMeta_holds s its id (A id) s1 r1 Hs (HA id) Hp E1) as (Hs1 & En1 & H1).
  destruct r1 as [m|e]; [|injection H as <- <-; split_and!; [by exists its|done|done]]. subst m. cbn [fst snd] in H.
  unfold nr_current. destruct (nr_known (A id)); cbn [negb] in H; [|injection H as <- <-; split_and!; [by exists its|done|done]].
  unfold db_bind in H. destruct (loadValues id s1) as [s2 r2] eqn:E2.
  destruct (loadValues_holds id s1 its s2 r2 Hs1 Hp E2) as (Hs2 & En2 & H2). destruct (sorted_values s its id _ Hs (HA id)) as [Esv _].
  destruct r2 as [vs|e]; injection H as <- <-; (split_and!; [by exists its|congruence|]); [|done].
  rewrite H2, Esv. do 2 f_equal. apply current_of_arrivals, (HA id).
Qed.

Lemma nats_full_sim s A id s' r :
  represents s A -> plain id -> FullHistory id s = (s', r) ->
  represents s' A /\ st_n s' = st_n s /\ match r with Ok fh => nr_full id (A id) fh | Err e => kb_error e end.
Proof.
  intros (its & Hs & HA) Hp H. unfold FullHistory in H. unfold db_bind at 1 in H.
  destruct (runMeta id s) as [s1 r1] eqn:E1. destruct (runMeta_holds s its id (A id) s1 r1 Hs (HA id) Hp E1) as (Hs1 & En1 & H1).
  destruct r1 as [m|e]; [|injection H as <- <-; split_and!; [by exists its|done|done]]. subst m. cbn [fst snd] in H.
  unfold nr_full. destruct (nr_known (A id)); cbn [negb] in H; [|injection H as <- <-; split_and!; [by exists its|done|done]].
  unfold db_bind at 1 in H. destruct (loadValues id s1) as [s2 r2] eqn:E2.
  destruct (loadValues_holds id s1 its s2 r2 Hs1 Hp E2) as (Hs2 & En2 & H2).
  destruct r2 as [vs|e]; [|injection H as <- <-; split_and!; [by exists its|congruence|done]].
  unfold db_bind at 1 in H. destruct (runKeys (id +:+ ".h.") s2) as [s3 r3] eqn:E3.
  destruct (runKeys_holds _ _ _ _ _ Hs2 E3) as (Hs3 & En3 & H3).
  destruct r3 as [ks|e]; [|injection H as <- <-; split_and!; [by exists its|congruence|done]].
  rewrite (history_keys (st_n s)) in H3 by (done || apply (sh_items s its Hs)). subst ks.
  unfold db_bind in H. destruct (collect read_history _ s3) as [s4 r4] eqn:E4.
  destruct (collect_holds read_history (history_in id) s3 its (List.filter (is_history id) its) s4 r4 Hs3) as (Hs4 & En4 & H4); try done.
  { apply Forall_forall. by intros i [? _]%filter_elem. }
  { intros s0 j s5 r0 [Hj Hv]%filter_elem Hs0 Hr. by eapply read_history_holds. }
  destruct (sorted_values s its id _ Hs (HA id)) as [Esv Esh].
  destruct r4 as [hs|e]; injection H as <- <-; (split_and!; [by exists its|congruence|]); [|done].
  rewrite omap_filtered in H4 by (intros [] Hi; try done; cbn in *; by rewrite Hi). eexists _, _, _. split; [done|].
  split_and!; [done| | |].
  - rewrite H2. unfold SortValueRecords. rewrite slice_stable_perm. apply (od_perm _ _ (rh_values _ _ _ (HA id))).
  - rewrite H2, Esv. apply slice_stable_sorted, _.
  - change (omap (history_in id) its) with (histories id its) in H4. rewrite H4, Esh, <- (rh_history _ _ _ (HA id)).
    symmetry. by apply slice_stable_map.
Qed.

(** ** Histories from an empty bucket *)

Definition nr_empty : NRun := mkNRun None [] [].

Lemma represents_new url bucket kv s :
  New url bucket kv = Some s -> kb_entries kv = [] -> represents s (fun _ => nr_empty) /\ st_n s = 0.
Proof.
  unfold New. destruct (_ || _); [done|]. intros [= <-] E. split; [|done]. exists []. split; [by split|].
  intros id. split; [done|apply ordered_nil|done].
Qed.

Lemma calls_observed url bucket kv s cs id :
  New url bucket kv = Some s -> kb_entries kv = [] -> Forall nats_admits cs -> Z.of_nat (calls_ops cs) < 2 ^ 64 -> plain id ->
  exists A, outcomes cs (fun _ => nr_empty) (snd (run_calls nats_call s cs)) A /\
    match snd (CurrentVersion id (fst (run_calls nats_call s cs))) with
    | Ok cv => cv = nr_current id (A id)
    | Err e => kb_error e
    end /\
    match snd (FullHistory id (fst (run_calls nats_call s cs))) with
    | Ok fh => nr_full id (A id) fh
    | Err e => kb_error e
    end.
Proof.
  intros Hs He Hc Hn Hp. destruct (represents_new _ _ _ _ Hs He) as [HR H0].
  destruct (calls_sim cs s _ HR Hc ltac:(lia)) as (A & Ho & HR').
  exists A. split; [done|]. split.
  - destruct (CurrentVersion id _) as [s1 r] eqn:E. by destruct (nats_current_sim _ A id s1 r HR' Hp E) as (_ & _ & ?).
  - destruct (FullHistory id _) as [s1 r] eqn:E. by destruct (nats_full_sim _ A id s1 r HR' Hp E) as (_ & _ & ?).
Qed.

(** ** The log *)

(** The runs that logs of at most [n] operations leave. *)
Definition log_runs (n : nat) (a : AbsStore) (A : string -> NRun) : Prop :=
  forall id, Forall valid (snd (abs_run a id)) /\ (length (snd (abs_run a id)) <= n)%nat /\
    A id = mkNRun (fst (abs_run a id)) (map erase_value (spec_values 0 (snd (abs_run a id))))
             (map erase_history (spec_history 0 (snd (abs_run a id)))).

Lemma op_effect_run op r :
  map erase_value (run_values (apply_op_run r (canon_op op))) = op_values op (map erase_value (run_values r)) /\
  map erase_history (run_history (apply_op_run r (canon_op op))) = op_history op (map erase_history (run_history r)).
Proof.
  unfold apply_op_run, op_values, op_history, canon_op. cbn [op_Kind op_ValueWrite op_StatusFlip op_HistoryEntry].
  destruct (op_Kind op); destruct (op_ValueWrite op), (op_StatusFlip op), (op_HistoryEntry op); cbn;
    rewrite ?map_app; try done; (split; [|done]); rewrite !map_map; apply map_ext; intros u; apply flip_record_erase.
Qed.

Lemma log_runs_op n a A op :
  log_runs n a A -> valid op -> log_runs (S n) (spec_append a (canon_op op)) (runs_effect A op).
Proof.
  intros H Hv id. unfold spec_append, runs_effect, upd. cbn [canon_op op_RunID].
  destruct (H (op_RunID op)) as (Hl & Hn & E). destruct (abs_run a (op_RunID op)) as [m log] eqn:Er. cbn [fst snd] in *.
  rewrite abs_run_insert. destruct (String.eqb_spec id (op_RunID op)) as [->|Hne];
    [rewrite bool_decide_eq_true_2 by done|rewrite bool_decide_eq_false_2 by congruence]; cbn [fst snd].
  - split_and!.
    + apply Forall_app. split; [done|]. constructor; [by apply valid_canon|done].
    + rewrite length_app. cbn. lia.
    + rewrite E. unfold op_effect. cbn [nr_meta nr_values nr_history].
      destruct (op_effect_run op (log_run (op_RunID op) m log)) as [E1 E2].
      assert (Es : log_run (op_RunID op) m (log ++ [canon_op op]) = apply_op_run (log_run (op_RunID op) m log) (canon_op op))
        by (apply log_run_snoc; [done|by apply valid_canon]).
      rewrite <- Es in E1, E2. unfold log_run in E1, E2. cbn [run_values run_history] in E1, E2. by rewrite E1, E2.
  - destruct (H id) as (Hl' & Hn' & E'). split_and!; [done|lia|done].
Qed.

Lemma log_runs_ops ops n a A :
  log_runs n a A -> Forall valid ops ->
  log_runs (n + length ops) (fold_left spec_append (map canon_op ops) a) (fold_left runs_effect ops A).
Proof.
  revert n a A. induction ops as [|op ops IH]; intros n a A H Hv; cbn [fold_left map length]; [by rewrite Nat.add_0_r|].
  apply Forall_cons in Hv as [Hv Hvs]. replace (n + S (length ops))%nat with (S n + length ops)%nat by lia.
  apply IH; [by apply log_runs_op|done].
Qed.

Hypothesis Hup : forall e : GoError, ~ kb_error e.

(** When the bucket does not fail, calls have the effect of the log. *)
Lemma outcome_log n a A c e A' :
  log_runs n a A -> call_outcome c A e A' ->
  e = snd (spec_call a (canon_call c)) /\ log_runs (n + call_ops c) (fst (spec_call a (canon_call c))) A'.
Proof.
  intros H Ho. assert (Hle : forall k, log_runs (n + k) a A).
  { intros k id. destruct (H id) as (? & ? & ?). split_and!; [done|lia|done]. }
  destruct Ho as [e He|He|e A' _ He _]; [| |by destruct (Hup e)]; destruct c as [m|ops|id];
    cbn [call_refused spec_call canon_call call_ops call_effect] in *; try done.
  - unfold spec_save. destruct (String.eqb (rm_RunID m) ""); [|done]. injection He as <-. split; [done|apply Hle].
  - unfold spec_write. rewrite validate_all_canon, He. split; [done|apply Hle].
  - unfold spec_save. destruct (String.eqb (rm_RunID m) ""); [done|]. split; [done|]. intros id. unfold upd.
    cbn [fst snd]. rewrite abs_run_insert. destruct (String.eqb_spec id (rm_RunID m)) as [->|Hne];
      [rewrite bool_decide_eq_true_2 by done|rewrite bool_decide_eq_false_2 by congruence; apply Hle].
    cbn [fst snd]. destruct (H (rm_RunID m)) as (H1 & H2 & H3). split_and!; [done|lia|]. unfold set_meta. by rewrite H3.
  - unfold spec_write. rewrite validate_all_canon, He. split; [done|]. apply log_runs_ops; [done|by apply validate_all_valid].
Qed.

Lemma outcomes_log cs n a A es A' :
  log_runs n a A -> outcomes cs A es A' ->
  es = snd (run_calls spec_call a (map canon_call cs)) /\
  log_runs (n + calls_ops cs) (fst (run_calls spec_call a (map canon_call cs))) A'.
Proof.
  intros H Ho. revert n a H. induction Ho as [A|c cs A e A1 es A2 Hc Ho IH]; intros n a H; cbn [map run_calls calls_ops].
  { by rewrite Nat.add_0_r. }
  destruct (outcome_log n a A c e A1 H Hc) as [He H1]. destruct (spec_call a (canon_call c)) as [a1 e1]. cbn [fst snd] in *.
  destruct (IH _ a1 H1) as [Hes H2]. destruct (run_calls spec_call a1 (map canon_call cs)) as [a2 es2]. cbn [fst snd] in *.
  rewrite Nat.add_assoc. by subst.
Qed.

Lemma known_log n a A id : log_runs n a A -> nr_known (A id) = known (abs_run a id).
Proof.
  intros H. destruct (H id) as (_ & _ & ->). unfold nr_known, known. cbn.
  by destruct (spec_values 0 _), (spec_history 0 _).
Qed.

Lemma current_log n a A id :
  log_runs n a A -> Z.of_nat n < 2 ^ 64 ->
  nr_current id (A id) = if known (abs_run a id) then spec_current a id else None.
Proof.
  intros H Hn. unfold nr_current. rewrite (known_log n a A id H). destruct (known (abs_run a id)) eqn:Ek; [|done].
  destruct (known_some a id Ek) as (r & Ea & Er). destruct (H id) as (_ & Hl & ->). rewrite Er in *. destruct r as [m log].
  unfold spec_current. rewrite Ea. cbn [nr_meta nr_values fst snd] in *. do 2 f_equal.
  destruct (log_run_increasing id m log ltac:(lia)) as [Hi _]. cbn in Hi.
  unfold SortValueRecords, value_less. rewrite (replay_sort_by_time vr_Timestamp vr_Seq) by done.
  rewrite (slice_stable_map erase_value (earlier vr_Timestamp)) by done. by rewrite fold_value_erase.
Qed.

Lemma full_log n a A id fh :
  log_runs n a A -> Z.of_nat n < 2 ^ 64 -> nr_full id (A id) fh ->
  match fh, (if known (abs_run a id) then spec_full a id else None) with
  | None, None => True
  | Some h, Some h' =>
      fh_Meta h = fh_Meta h' /\ map erase_value (fh_Values h) ≡ₚ map erase_value (fh_Values h') /\
      sorted (earlier vr_Timestamp) (fh_Values h) /\
      map erase_history (fh_History h) = map erase_history (fh_History h')
  | _, _ => False
  end.
Proof.
  intros H Hn. unfold nr_full. rewrite (known_log n a A id H). destruct (known (abs_run a id)) eqn:Ek; [|by intros ->].
  intros (meta & vs & hs & -> & Em & Hp & Hso & Hh).
  destruct (known_some a id Ek) as (r & Ea & Er). destruct (H id) as (_ & Hl & E). rewrite E, Er in *. destruct r as [m log].
  unfold spec_full. rewrite Ea. cbn [nr_meta nr_values nr_history fst snd fh_Meta fh_Values fh_History] in *.
  destruct (log_run_increasing id m log ltac:(lia)) as [Hi Hi']. cbn in Hi, Hi'. split_and!; [done| |done|].
  - rewrite Hp. unfold SortValueRecords. apply Permutation_map. by rewrite slice_stable_perm.
  - rewrite Hh. unfold SortHistoryRecords, history_less. rewrite (replay_sort_by_time hr_Timestamp hr_Seq) by done.
    by rewrite (slice_stable_map erase_history (earlier hr_Timestamp)).
Qed.

End Reads.

(** ** The store implements the log *)

Section Theorems.
Context {B : Type} {KB : KvBucket B} {KL : KvBucketLaws B} {SJ : StoreJson} {SJL : StoreJsonLaws}.

(** C13. Calls on a bucket whose calls can fail: take a store opened on an empty
    bucket, fewer than 2^64 writes, run ids without a dot, times the keys can hold, and records
    that JSON keeps exactly.  Whatever such calls were made and whatever errors they
    returned, there are runs that explain them: a refused call did nothing, a call
    that returned nil has all of its effect and one that returned an error of the
    bucket has a part of it (the first operations of the batch, and of the next one
    nothing, everything, or the first pending records of a flip); and both reads of
    a run answer from these runs, or return an error of the bucket.  A run whose id
    has a dot may overlap another (dotted_run_overlaps). *)
Theorem nats_store_explained (url bucket : string) (kv : B) (s : Store) (cs : list Call) (id : string) :
  New url bucket kv = Some s -> kb_entries kv = [] -> Forall nats_admits cs -> Z.of_nat (calls_ops cs) < 2 ^ 64 -> plain id ->
  exists A, outcomes cs (fun _ => nr_empty) (snd (run_calls nats_call s cs)) A /\
    match snd (CurrentVersion id (fst (run_calls nats_call s cs))) with
    | Ok cv => cv = nr_current id (A id)
    | Err e => kb_error e
    end /\
    match snd (FullHistory id (fst (run_calls nats_call s cs))) with
    | Ok fh => nr_full id (A id) fh
    | Err e => kb_error e
    end.
Proof. apply calls_observed. Qed.

(** On a bucket that does not fail, the errors of any history of calls
    and [CurrentVersion] are those of the log of accepted operations, although
    every flip moves records to the end of the bucket; [FullHistory] has the
    records of the log in order of time, the history in the order of the log. *)
Theorem nats_store_refines_log (url bucket : string) (kv : B) (s : Store) (cs : list Call) (id : string) :
  (forall e, ~ kb_error e) ->
  New url bucket kv = Some s -> kb_entries kv = [] -> Forall nats_admits cs -> Z.of_nat (calls_ops cs) < 2 ^ 64 -> plain id ->
  let a := run_calls spec_call ∅ (map canon_call cs) in
  let after := run_calls nats_call s cs in
  snd after = snd a /\
  snd (CurrentVersion id (fst after)) = Ok (if known (abs_run (fst a) id) then spec_current (fst a) id else None) /\
  exists fh, snd (FullHistory id (fst after)) = Ok fh /\
    match fh, (if known (abs_run (fst a) id) then spec_full (fst a) id else None) with
    | None, None => True
    | Some h, Some h' =>
        fh_Meta h = fh_Meta h' /\ map erase_value (fh_Values h) ≡ₚ map erase_value (fh_Values h') /\
        sorted (earlier vr_Timestamp) (fh_Values h) /\
        map erase_history (fh_History h) = map erase_history (fh_History h')
    | _, _ => False
    end.
Proof.
  intros Hup Hs He Hc Hn Hp a after. destruct (calls_observed url bucket kv s cs id Hs He Hc Hn Hp) as (A & Ho & Hcur & Hfull).
  destruct (outcomes_log Hup cs 0 ∅ _ _ A ltac:(intros i; split_and!; [constructor|done|done]) Ho) as [Hes Hl].
  split; [done|]. split.
  - destruct (snd (CurrentVersion id _)) as [cv|e]; [|by destruct (Hup e)]. subst cv. f_equal. by eapply current_log.
  - destruct (snd (FullHistory id _)) as [fh|e]; [|by destruct (Hup e)]. exists fh. split; [done|]. by eapply full_log.
Qed.

End Theorems.

(** ** A bucket *)

Definition bucket_ok (es : Entries) : Prop :=
  StronglySorted (fun x y => snd (snd x) < snd (snd y)) es /\ NoDup (map fst es).

(** Entries in memory, and what the next calls do: [None] succeeds, [Some b]
    fails with the effect ([b]) or without. *)
Record MemBucket : Type := mkMemBucket {
  mb_entries : Entries;
  mb_ok : bucket_ok mb_entries;
  mb_script : list (option bool)
}.

Definition last_rev (es : Entries) : Z := match last es with Some e => snd (snd e) | None => 0 end.

Lemma last_rev_max es e : bucket_ok es -> e ∈ es -> snd (snd e) <= last_rev es.
Proof.
  intros [Hs _] He. unfold last_rev. revert e He. induction Hs as [|x es Hs IH Hall]; intros e He; [by apply elem_of_nil in He|].
  destruct es as [|y es]; [apply list_elem_of_singleton in He as ->; cbn; lia|].
  change (last (x :: y :: es)) with (last (y :: es)). rewrite Forall_forall in Hall.
  apply elem_of_cons in He as [->|He]; [|by apply IH]. specialize (IH y ltac:(left)). specialize (Hall y ltac:(left)). lia.
Qed.

Lemma put_ok k v es : bucket_ok es -> bucket_ok (kv_put k v (last_rev es + 1) es).
Proof.
  intros Hok. pose proof Hok as [Hs Hd]. unfold kv_put. split.
  - apply StronglySorted_snoc.
    + clear Hd Hok. induction Hs as [|x es Hs IH Hall]; [constructor|]. cbn [List.filter]. destruct (negb _); [|done].
      constructor; [done|]. rewrite Forall_forall in *. intros y [Hy _]%filter_elem. by apply Hall.
    + apply Forall_forall. intros e [He _]%filter_elem. cbn. pose proof (last_rev_max es e Hok He). lia.
  - rewrite map_app. apply NoDup_app. split_and!; [by apply NoDup_map_filter| |by apply NoDup_singleton].
    intros k' (e & -> & [_ He]%filter_elem)%list_elem_of_fmap Hk%list_elem_of_singleton. cbn in Hk.
    by rewrite Hk, String.eqb_refl in He.
Qed.

Definition ErrTimeout : GoError := ErrorText "nats: timeout".

Definition mem_put (k : string) (v : bytes) : Db MemBucket Z := fun b =>
  let rev := last_rev (mb_entries b) + 1 in
  let done := mkMemBucket (kv_put k v rev (mb_entries b)) (put_ok k v _ (mb_ok b)) (tail (mb_script b)) in
  match mb_script b with
  | [] | None :: _ => (done, Ok rev)
  | Some true :: _ => (done, Err ErrTimeout)
  | Some false :: l => (mkMemBucket (mb_entries b) (mb_ok b) l, Err ErrTimeout)
  end.

Definition mem_read {A} (answer : Entries -> A) : Db MemBucket A := fun b =>
  let b' := mkMemBucket (mb_entries b) (mb_ok b) (tail (mb_script b)) in
  match mb_script b with
  | Some _ :: _ => (b', Err ErrTimeout)
  | _ => (b', Ok (answer (mb_entries b)))
  end.

#[global] Instance mem_bucket : KvBucket MemBucket := {|
  nk_Put := mem_put;
  nk_Get k := mem_read (kv_get k);
  nk_ListKeys := mem_read (map fst)
|}.

#[global] Instance mem_bucket_laws : KvBucketLaws MemBucket.
Proof.
  refine {| kb_entries := mb_entries; kb_error := fun e => e = ErrTimeout |}.
  - intros b. apply (mb_ok b).
  - intros b. apply (mb_ok b).
  - intros k v b. cbn. unfold mem_put. destruct (mb_script b) as [|[[]|] l]; cbn; try done.
    + split; [done|]. right. by eexists.
    + split; [done|by left].
  - intros k b. cbn. unfold mem_read. by destruct (mb_script b) as [|[[]|] l].
  - intros b. cbn. unfold mem_read. by destruct (mb_script b) as [|[[]|] l].
Defined.

(** A bucket that does not fail. *)
Record UpBucket : Type := mkUpBucket { ub_entries : Entries; ub_ok : bucket_ok ub_entries }.

#[global] Instance up_bucket : KvBucket UpBucket := {|
  nk_Put k v b := let rev := last_rev (ub_entries b) + 1 in
    (mkUpBucket (kv_put k v rev (ub_entries b)) (put_ok k v _ (ub_ok b)), Ok rev);
  nk_Get k b := (b, Ok (kv_get k (ub_entries b)));
  nk_ListKeys b := (b, Ok (map fst (ub_entries b)))
|}.

#[global] Instance up_bucket_laws : KvBucketLaws UpBucket.
Proof. by refine {| kb_entries := ub_entries; kb_error := fun _ => False |}; intros b; try done; apply (ub_ok b). Defined.

Definition no_entries : bucket_ok [].
Proof. split; constructor. Defined.

Definition fresh_bucket (script : list (option bool)) : MemBucket := mkMemBucket [] no_entries script.

Definition up_store : Store (B := UpBucket) := mkStore (mkUpBucket [] no_entries) "nats://a" "state" 0.
Definition faulty_store (script : list (option bool)) : Store (B := MemBucket) := mkStore (fresh_bucket script) "nats://a" "state" 0.

(** ** Witnesses *)

Lemma sample_kept : Forall nats_admits sample_calls.
Proof.
  repeat constructor; cbn; try (unfold plain; cbn; set_solver); try done; try apply keyed_day1; try apply keyed_day2.
Qed.

Lemma nats_store_refines_log_witness :
  snd (run_calls nats_call up_store sample_calls) = [None; None; Some (ErrorText "value write: TaskID, ExecutionID and Field are required"); None] /\
  snd (CurrentVersion "run" (fst (run_calls nats_call up_store sample_calls))) =
    Ok (spec_current (fst (run_calls spec_call ∅ (map canon_call sample_calls))) "run").
Proof.
  destruct (nats_store_refines_log "nats://a" "state" (mkUpBucket [] no_entries) up_store sample_calls "run") as (H1 & H2 & _).
  - intros e [].
  - reflexivity.
  - reflexivity.
  - exact sample_kept.
  - vm_compute. reflexivity.
  - unfold plain. cbn. set_solver.
  - split; [rewrite H1; vm_compute; reflexivity|]. rewrite H2. f_equal.
Defined.

(** A flip that fails on its second record: its first record is committed, and a
    flip sent again commits the rest. *)
Definition flip_calls : list Call :=
  [CallWriteBatch [put_op "screen" "Score" "5" day1; put_op "screen" "Grade" "A" day1];
   CallWriteBatch [flip_op "screen" ValueStatusCommitted day2];
   CallWriteBatch [flip_op "screen" ValueStatusCommitted day2]].

Definition flip_script : list (option bool) := [None; None; None; None; None; None; Some false].

Lemma flip_calls_kept : Forall nats_admits flip_calls.
Proof.
  repeat constructor; cbn; try (unfold plain; cbn; set_solver); try done; try apply keyed_day1; try apply keyed_day2.
Qed.

Lemma nats_store_explained_witness :
  exists A, outcomes (B := MemBucket) (firstn 2 flip_calls) (fun _ => nr_empty) [None; Some ErrTimeout] A /\
    nr_current "run" (A "run"%string) = Some (mkCurrentVersion (emptyMeta "run") {["screen" := {["Score" := json_text "5"]}]}).
Proof.
  destruct (nats_store_explained "nats://a" "state" (fresh_bucket flip_script) (faulty_store flip_script) (firstn 2 flip_calls) "run")
    as (A & Ho & Hc & _).
  - reflexivity.
  - reflexivity.
  - apply Forall_take, flip_calls_kept.
  - vm_compute. reflexivity.
  - unfold plain. cbn. set_solver.
  - exists A. split.
    + replace [None; Some ErrTimeout] with (snd (run_calls nats_call (faulty_store flip_script) (firstn 2 flip_calls)))
        by (vm_compute; reflexivity). exact Ho.
    + replace (snd (CurrentVersion "run" (fst (run_calls nats_call (faulty_store flip_script) (firstn 2 flip_calls)))))
        with (Ok (Some (mkCurrentVersion (emptyMeta "run") {["screen" := {["Score" := json_text "5"]}]}))) in Hc
        by (vm_compute; reflexivity). symmetry. exact Hc.
Defined.

(** The flip sent again completes it. *)
Example flip_sent_again :
  snd (CurrentVersion "run" (fst (run_calls nats_call (faulty_store flip_script) flip_calls))) =
    Ok (Some (mkCurrentVersion (emptyMeta "run") {["screen" := {["Score" := json_text "5"; "Grade" := json_text "A"]}]})).
Proof. vm_compute. reflexivity. Qed.

(** ** Where keys and revisions fall short *)

(** The counter is the store's own: two stores opened on one bucket give two
    writes of the same run and time the same key, and the second replaces the
    first, although both returned nil. *)
Theorem two_opens_overwrite :
  let w1 := [put_op "screen" "Score" "5" day1] in
  let w2 := [put_op "check" "Ok" "true" day1] in
  let '(s1, e1) := WriteBatch up_store w1 in
  let '(s2, e2) := WriteBatch (mkStore (st_kv s1) "nats://a" "state" 0) w2 in
  e1 = None /\ e2 = None /\
  exists fh, snd (FullHistory "run" s2) = Ok (Some fh) /\ map vr_TaskID (fh_Values fh) = ["check"%string].
Proof. vm_compute. repeat (split; [reflexivity|]). eexists. split; reflexivity. Qed.

(** The revision of a record changes when it is flipped: of two values of the same
    time the one that arrived first replays last when its task is settled later. *)
Theorem flips_reorder_replay :
  let ops := [put_op "screen" "Score" "5" day1; put_op "check" "Ok" "true" day1; flip_op "screen" ValueStatusCommitted day2] in
  let '(s1, e1) := WriteBatch up_store ops in
  e1 = None /\
  (exists fh, snd (FullHistory "run" s1) = Ok (Some fh) /\ map vr_TaskID (fh_Values fh) = ["check"; "screen"]%string) /\
  option_map (fun fh => map vr_TaskID (fh_Values fh)) (spec_full (fst (spec_write ∅ ops)) "run") = Some ["screen"; "check"]%string.
Proof. vm_compute. split; [reflexivity|]. split; [eexists; split; reflexivity|reflexivity]. Qed.

(** A run id that contains a dot can lie in the keys of another run: the key of a
    history entry of run [a.v] is among the value keys of run [a]. *)
Theorem dotted_run_overlaps :
  HasPrefix (event_key "h" "a.v" 0 1) ("a" +:+ ".v.") = true /\ ~ plain "a.v".
Proof. split; [vm_compute; reflexivity|]. unfold plain. cbn. set_solver. Qed.
