(* ===== verification/SqlSample.v ===== *)
(** * An SQL engine in memory

    An executable engine that keeps its tables in memory and fails where a
    schedule says so.  It satisfies the laws of [Sql], and the theorems on the
    SQL stores are instantiated with it. *)

From Stdlib Require Import Sorted.
From S2P Require Import Prelude GoTime StateStore StateStoreLaws KvStore KvIndex Sql SqlLaws SqlBackend Sqlite SqlOnce Mysql Mariadb Turso Postgres Mssql.
#[global] Open Scope Z_scope.

(** Columns that keep every value, and a binary collation. *)
#[global] Instance sampleTypes : SqlTypes := {
  sql_store _ v := Some v;
  sql_check _ _ := true;
  sql_same a b := bool_decide (a = b /\ a <> SNull);
  scan_string v := match v with SText s => Ok s | _ => Err (ErrorText "sql: Scan error") end;
  scan_int64 v := match v with SInt n => Ok n | _ => Err (ErrorText "sql: Scan error") end;
  scan_uint64 v := match v with SInt n => Ok n | _ => Err (ErrorText "sql: Scan error") end;
  scan_time v := match v with STime t => Ok t | _ => Err (ErrorText "sql: Scan error") end
}.

#[global] Instance sampleCollation : BinaryCollation sampleTypes.
Proof. split. intros a b. apply bool_decide_eq_true. Qed.

#[global] Instance sampleScans : ScanLaws sampleTypes.
Proof. split; try done. intros t. by exists t. Qed.

(** ** Statements *)

Section Memory.
Context {ST : SqlTypes}.

Definition next_id (tb : SqlTable) : Z :=
  1 + fold_right (fun r m => match cell r "id" with SInt n => Z.max n m | _ => m end) 0 (tb_rows tb).

Definition insert_in (T : Tables) (t : string) (given : Row) : option Tables :=
  match T !! t with
  | None => None
  | Some tb => if next_id tb <? 2 ^ 63 then option_map (fun tb' => <[t := tb']> T) (inserted tb given (next_id tb)) else None
  end.

Definition update_in (T : Tables) (t : string) (sets : Row) (w : Where) : option Tables :=
  match T !! t with
  | None => None
  | Some tb => option_map (fun tb' => <[t := tb']> T) (updated tb sets w)
  end.

Definition exec_stmt (s : Stmt) (T : Tables) : option (Tables * Z) :=
  match s with
  | CreateTable t cols => Some (match T !! t with None => <[t := mkSqlTable cols []]> T | Some _ => T end, 0)
  | CreateIndex _ _ _ _ => Some (T, 0)
  | Insert t given => option_map (fun T' => (T', 1)) (insert_in T t given)
  | Upsert t key given =>
      match T !! t with
      | None => None
      | Some tb =>
          option_map (fun T' => (T', 1))
            (if existsb (fun r => matches r (on_key key given)) (tb_rows tb)
             then update_in T t (List.filter (fun p => negb (String.eqb (fst p) key)) given) (on_key key given)
             else insert_in T t given)
      end
  | Update t sets w =>
      option_map (fun T' => (T', Z.of_nat (length (rows_where T t w)))) (update_in T t sets w)
  end.

Lemma next_id_fresh tb : next_id tb < 2 ^ 63 -> fresh_id tb (next_id tb).
Proof.
  intros H. unfold next_id in *. set (f := fun r m => _) in *. split.
  - split; [|done]. assert (0 <= fold_right f 0 (tb_rows tb)); [|lia]. clear. induction (tb_rows tb) as [|r l IH]; cbn; [lia|]. unfold f at 1. destruct (cell r "id"); lia.
  - intros r n Hr Hn. clear H. induction (tb_rows tb) as [|r' l IH]; [by apply elem_of_nil in Hr|]. cbn [fold_right].
    apply elem_of_cons in Hr as [<-|Hr]; [unfold f at 1; rewrite Hn; lia|]. specialize (IH Hr). unfold f at 1. destruct (cell r' "id"); lia.
Qed.

Lemma exec_stmt_sound s T T' n : exec_stmt s T = Some (T', n) -> sql_step s T T' n.
Proof.
  destruct s as [t cols|name t cols only|t given|t key given|t sets w]; cbn [exec_stmt].
  - intros [= <- <-]. destruct (T !! t) as [tb|] eqn:E; [by eapply step_create_existing|by apply step_create_table].
  - intros [= <- <-]. constructor.
  - unfold insert_in. destruct (T !! t) as [tb|] eqn:E; [|done]. destruct (Z.ltb_spec (next_id tb) (2 ^ 63)); [|done].
    destruct (inserted tb given (next_id tb)) as [tb'|] eqn:Ei; [|done]. intros [= <- <-]. eapply step_insert; [done|by apply next_id_fresh|done].
  - destruct (T !! t) as [tb|] eqn:E; [|done]. destruct (existsb _ (tb_rows tb)) eqn:Ex.
    + unfold update_in. rewrite E. destruct (updated _ _ _) as [tb'|] eqn:Eu; [|done]. intros [= <- <-]. by eapply step_upsert_old.
    + unfold insert_in. rewrite E. destruct (Z.ltb_spec (next_id tb) (2 ^ 63)); [|done].
      destruct (inserted tb given (next_id tb)) as [tb'|] eqn:Ei; [|done]. intros [= <- <-]. eapply step_upsert_new; [done|done|by apply next_id_fresh|done].
  - unfold update_in, rows_where. destruct (T !! t) as [tb|] eqn:E; [|done]. destruct (updated tb sets w) as [tb'|] eqn:Eu; [|done].
    intros [= <- <-]. by eapply step_update.
Qed.

(** ** Queries *)

Fixpoint in_order (order : list string) (l : list Row) : bool :=
  match l with [] => true | r :: l' => forallb (fun r' => order_compare order r r' <=? 0) l' && in_order order l' end.

Lemma in_order_sorted order l : in_order order l = true -> StronglySorted (fun a b => order_compare order a b <= 0) l.
Proof.
  induction l as [|r l IH]; cbn [in_order]; [constructor|]. intros [H1 H2]%andb_true_iff. constructor; [by apply IH|].
  apply Forall_forall. intros r' Hr'. rewrite forallb_forall in H1. apply Z.leb_le, H1. by apply list_elem_of_In.
Qed.

Definition run_query (q : Query) (T : Tables) : option (list Row) :=
  match q with
  | Select cols t w order =>
      let l := slice_stable (fun a b => order_compare order a b <? 0) (rows_where T t w) in
      if in_order order l then Some (map (project cols) l) else None
  | SelectLatest cols t w per order =>
      let found := rows_where T t w in Some (map (project cols) (List.filter (is_latest per order found) found))
  | CountRows ts w => Some [[("count", SInt (Z.of_nat (length (concat (map (fun t => rows_where T t w) ts)))))]]
  end.

Lemma run_query_sound q T rows : run_query q T = Some rows -> sql_answer q T rows.
Proof.
  destruct q as [cols t w order|cols t w per order|ts w]; cbn [run_query sql_answer].
  - set (l := slice_stable _ _). destruct (in_order order l) eqn:E; [|done]. intros [= <-]. exists l.
    split_and!; [apply slice_stable_perm|by apply in_order_sorted|done].
  - intros [= <-]. by eexists.
  - by intros [= <-].
Qed.

(** ** The engine *)

(** The tables and the schedule of faults: each call takes one entry, and fails
    without effect on [true]. *)
Record Mem : Type := mkMem { m_tables : Tables; m_faults : list bool }.

Definition lost : GoError := ErrorText "connection lost".
Definition refused : GoError := ErrorText "statement refused".

Definition with_faults {A} (ok : list bool -> Mem * A) (bad : Mem * A) (m : Mem) : Mem * A :=
  match m_faults m with
  | [] => ok []
  | true :: fs => (mkMem (m_tables (fst bad)) fs, snd bad)
  | false :: fs => ok fs
  end.

Definition mem_exec (s : Stmt) (m : Mem) : Mem * result Z :=
  with_faults (fun fs => match exec_stmt s (m_tables m) with
                         | Some (T, n) => (mkMem T fs, Ok n)
                         | None => (mkMem (m_tables m) fs, Err refused)
                         end) (m, Err lost) m.

#[global] Instance memEngine : SqlEngine Mem Mem := {
  sql_open _ _ m := (m, None);
  db_exec := mem_exec;
  db_query q m := with_faults (fun fs => (mkMem (m_tables m) fs, match run_query q (m_tables m) with Some rows => Ok rows | None => Err refused end)) (m, Err lost) m;
  db_begin m := with_faults (fun fs => (mkMem (m_tables m) fs, Ok (mkMem (m_tables m) fs))) (m, Err lost) m;
  tx_exec := mem_exec;
  tx_commit x m := with_faults (fun fs => (mkMem (m_tables x) fs, None)) (m, Some lost) x;
  tx_rollback x m := mkMem (m_tables m) (m_faults x);
  db_close m := (m, None)
}.

Lemma mem_exec_cases s m :
  match mem_exec s m with
  | (m', Ok n) => sql_step s (m_tables m) (m_tables m') n
  | (m', Err _) => m_tables m' = m_tables m
  end.
Proof.
  unfold mem_exec, with_faults. destruct (m_faults m) as [|[] fs]; [|done|]; destruct (exec_stmt s (m_tables m)) as [[T n]|] eqn:E; try done;
    by apply exec_stmt_sound.
Qed.

#[global] Program Instance memLaws : SqlLaws Mem Mem := { contents := m_tables; pending := m_tables }.
Next Obligation. done. Qed.
Next Obligation. intros s m. pose proof (mem_exec_cases s m) as H. cbn. destruct (mem_exec s m) as [m' [n|e]]; [done|by left]. Qed.
Next Obligation.
  intros q m. cbn. unfold with_faults. destruct (m_faults m) as [|[] fs]; cbn; (split; [done|]); intros rows; [| |]; try done;
    destruct (run_query q (m_tables m)) as [l|] eqn:E; try done; intros [= <-]; by apply run_query_sound.
Qed.
Next Obligation. intros m. cbn. unfold with_faults. destruct (m_faults m) as [|[] fs]; cbn; (split; [done|]); [by intros ? [= <-]|done|by intros ? [= <-]]. Qed.
Next Obligation. intros s x x' n E. pose proof (mem_exec_cases s x) as H. cbn in E. by rewrite E in H. Qed.
Next Obligation. intros x m. cbn. unfold with_faults. destruct (m_faults x) as [|[] fs]; cbn; [done|by left|done]. Qed.
Next Obligation. done. Qed.
Next Obligation. done. Qed.

(** [RETURNING], batches and locks. *)
#[global] Instance memReturning : SqlReturning Mem := {
  tx_returning s c x := match mem_exec s x with (x', Ok _) => (x', Ok [[(c, SInt 1)]]) | (x', Err e) => (x', Err e) end
}.

#[global] Instance memReturningLaws : SqlReturningLaws Mem Mem.
Proof.
  split. intros s c x x' rows. cbn. pose proof (mem_exec_cases s x) as H. destruct (mem_exec s x) as [x1 [n|e]]; [|done].
  intros [= <- <-]. exists n, 1. split_and!; done.
Qed.

Fixpoint mem_batch (ss : list Stmt) (x : Mem) : Mem * list (result Z) :=
  match ss with
  | [] => (x, [])
  | s :: ss' => let '(x', r) := mem_exec s x in let '(x'', rs) := mem_batch ss' x' in (x'', r :: rs)
  end.

#[global] Instance memBatch : PgxBatch Mem := { send_batch ss x := let '(x', rs) := mem_batch ss x in (x', (rs, None)) }.

#[global] Instance memBatchLaws : PgxBatchLaws Mem Mem.
Proof.
  assert (H : forall ss x, length (snd (mem_batch ss x)) = length ss /\
    (Forall (fun r => is_ok r = true) (snd (mem_batch ss x)) -> sql_steps ss (m_tables x) (m_tables (fst (mem_batch ss x))))).
  { induction ss as [|s ss IH]; intros x; cbn [mem_batch]; [split; [done|constructor]|]. pose proof (mem_exec_cases s x) as He.
    destruct (mem_exec s x) as [x1 r]. destruct (IH x1) as [Hl Hs]. destruct (mem_batch ss x1) as [x2 rs]. cbn [fst snd length] in *. split; [lia|].
    intros [Hr Hrs]%Forall_cons. destruct r as [n|]; [|done]. econstructor; [done|by apply Hs]. }
  split.
  - intros ss x. destruct (H ss x) as [Hl _]. cbn. by destruct (mem_batch ss x).
  - intros ss x x' rs. destruct (H ss x) as [_ Hs]. cbn. destruct (mem_batch ss x) as [x1 rs1]. intros [= <- <-]. exact Hs.
Qed.

#[global] Instance memDriver : MssqlDriver Mem := { tx_applock _ x := (x, Ok 0); isDeadlock e := bool_decide (e = lost) }.

#[global] Instance memMssqlLaws : MssqlLaws Mem Mem.
Proof.
  split; [by intros r x x' rc [= <- _]|]. intros x m m' e. cbn. unfold with_faults. destruct (m_faults x) as [|[] fs]; [done| |done]. by intros [= <- _].
Qed.

End Memory.

(** ** Concrete runs *)

(** A saved run, a batch that is lost at its commit and sent again, a refused
    batch, and a flip. *)
Definition sample_batch : list WriteOp := [put_op "screen" "Score" "7" day2; put_op "screen" "Score" "5" day1; note_op "NODE_STARTED" day1].
Definition sql_calls : list Call :=
  [CallSave (mkRunMetadata "run" "p" "1" "RUNNING" (Some day1) None None 0);
   CallWriteBatch sample_batch; CallWriteBatch sample_batch;
   CallWriteBatch [put_op "" "Score" "9" day2];
   CallWriteBatch [flip_op "screen" ValueStatusCommitted day2; put_op "check" "Ok" "true" day2]].

Lemma nano_days : nano_time day1 /\ nano_time day2.
Proof. split; (split; [apply keyed_day1 || apply keyed_day2|]); vm_compute; intuition congruence. Qed.

Ltac storable_ops := repeat constructor; try (vm_compute; intuition congruence); try apply nano_days.

(** Errors of the calls, and what the reads return. *)
Definition observed {St} `{!FaultyBackend St} (s0 : St) : list (option GoError) * option (option bytes) * option (nat * nat) :=
  let s := run_calls fb_call s0 sql_calls in
  (snd s,
   match snd (fb_current "run" (fst s)) with
   | Ok (Some cv) => Some (cv_Values cv !! "screen" ≫= (fun m => m !! "Score"))
   | _ => None
   end,
   match snd (fb_full "run" (fst s)) with
   | Ok (Some fh) => Some (length (fh_Values fh), length (fh_History fh))
   | _ => None
   end).

Definition invalid_write : GoError := ErrorText "value write: TaskID, ExecutionID and Field are required".

(** The store opens with six statements and saves with one; the commit of the
    first batch is the fifth call of the transaction. *)
Definition sqlite_mem : Mem := mkMem ∅ (repeat false 11 ++ [true]).

Lemma sqlite_store_refines_log_witness :
  let d0 := fst (Sqlite.New "run.db" sqlite_mem) in
  observed (FaultyBackend0 := sqliteBackend) d0 = ([None; Some lost; None; Some invalid_write; None], Some (Some (json_text "7")), Some (3, 1)%nat) /\
  exists a, explained reported sql_calls (snd (run_calls (fb_call (FaultyBackend0 := sqliteBackend)) d0 sql_calls)) ∅ a.
Proof.
  intros d0. split; [vm_compute; reflexivity|].
  destruct (sqlite_store_refines_log "run.db" sqlite_mem d0 sql_calls) as (a & Ha & _).
  - repeat constructor.
  - vm_compute. reflexivity.
  - storable_ops.
  - vm_compute. reflexivity.
  - exists a. exact Ha.
Defined.

Lemma turso_store_refines_log_witness :
  let s0 := mkSqlStore (mkMem ∅ (repeat false 14 ++ [true])) "run.db" "blkit_" None in
  observed (FaultyBackend0 := tursoBackend) s0 =
    ([None; Some lost; None; Some invalid_write; None], Some (Some (json_text "7")), Some (3, 1)%nat) /\
  exists a, explained reported sql_calls (snd (run_calls (fb_call (FaultyBackend0 := tursoBackend)) s0 sql_calls)) ∅ a.
Proof.
  intros s0. split; [vm_compute; reflexivity|].
  destruct (turso_store_refines_log (mkMem ∅ (repeat false 14 ++ [true])) "run.db" "blkit_" sql_calls) as (a & Ha & _);
    [repeat constructor|storable_ops|vm_compute; reflexivity|]. exists a. exact Ha.
Defined.

(** Here the second statement of the batch fails. *)
Lemma postgres_store_refines_log_witness :
  let s0 := mkSqlStore (mkMem ∅ (repeat false 9 ++ [true])) "postgres://db" "blkit_" None in
  observed (FaultyBackend0 := postgresBackend) s0 =
    ([None; Some lost; None; Some invalid_write; None], Some (Some (json_text "7")), Some (3, 1)%nat) /\
  exists a, explained postgres_fault sql_calls (snd (run_calls (fb_call (FaultyBackend0 := postgresBackend)) s0 sql_calls)) ∅ a.
Proof.
  intros s0. split; [vm_compute; reflexivity|].
  destruct (postgres_store_refines_log (mkMem ∅ (repeat false 9 ++ [true])) "postgres://db" "blkit_" sql_calls) as (a & Ha & _);
    [repeat constructor|storable_ops|vm_compute; reflexivity|]. exists a. exact Ha.
Defined.

(** Here the lost commit is a deadlock, and the batch is retried. *)
Lemma mssql_store_refines_log_witness :
  let s0 := mkSqlStore (mkMem ∅ (repeat false 11 ++ [true])) "sqlserver://db" "blkit_" None in
  observed (FaultyBackend0 := mssqlBackend) s0 =
    ([None; None; None; Some invalid_write; None], Some (Some (json_text "7")), Some (5, 2)%nat) /\
  exists a, explained mssql_fault sql_calls (snd (run_calls (fb_call (FaultyBackend0 := mssqlBackend)) s0 sql_calls)) ∅ a.
Proof.
  intros s0. split; [vm_compute; reflexivity|].
  destruct (mssql_store_refines_log (mkMem ∅ (repeat false 11 ++ [true])) "sqlserver://db" "blkit_" sql_calls) as (a & Ha & _);
    [repeat constructor|storable_ops|vm_compute; reflexivity|]. exists a. exact Ha.
Defined.

Lemma mysql_store_refines_log_witness :
  let s0 := mkSqlStore (mkMem ∅ (repeat false 8 ++ [true])) "user@tcp(db)/blkit" "blkit_" None in
  observed (FaultyBackend0 := mysqlBackend) s0 =
    ([None; Some lost; None; Some invalid_write; None], Some (Some (json_text "7")), Some (3, 1)%nat) /\
  exists a, explained reported sql_calls (snd (run_calls (fb_call (FaultyBackend0 := mysqlBackend)) s0 sql_calls)) ∅ a.
Proof.
  intros s0. split; [vm_compute; reflexivity|].
  destruct (mysql_store_refines_log (mkMem ∅ (repeat false 8 ++ [true])) "user@tcp(db)/blkit" "blkit_" sql_calls) as (a & Ha & _);
    [repeat constructor|storable_ops|vm_compute; reflexivity|]. exists a. exact Ha.
Defined.

Lemma mariadb_store_refines_log_witness :
  let s0 := mkSqlStore (mkMem ∅ (repeat false 8 ++ [true])) "user@tcp(db)/blkit" "blkit_" None in
  observed (FaultyBackend0 := mariadbBackend) s0 =
    ([None; Some lost; None; Some invalid_write; None], Some (Some (json_text "7")), Some (3, 1)%nat) /\
  exists a, explained mariadb_fault sql_calls (snd (run_calls (fb_call (FaultyBackend0 := mariadbBackend)) s0 sql_calls)) ∅ a.
Proof.
  intros s0. split; [vm_compute; reflexivity|].
  destruct (mariadb_store_refines_log (mkMem ∅ (repeat false 8 ++ [true])) "user@tcp(db)/blkit" "blkit_" sql_calls) as (a & Ha & _);
    [repeat constructor|storable_ops|vm_compute; reflexivity|]. exists a. exact Ha.
Defined.

(** ** Where the stores depart from the log *)

(** One fault while the tables are created disables the store for good: no later
    call reaches the engine, which would answer it. *)
Theorem first_failure_is_permanent :
  observed (FaultyBackend0 := mysqlBackend) (mkSqlStore (mkMem ∅ [true]) "user@tcp(db)/blkit" "blkit_" None) =
    (let e := WrapError "mysql state store: schema" lost in
     ([Some e; Some e; Some e; Some invalid_write; Some e], None, None)).
Proof. vm_compute. reflexivity. Qed.

(** A collation that ignores case. *)
Definition fold_case (s : string) : string :=
  String.string_of_list_ascii
    (map (fun c => let n := Ascii.nat_of_ascii c in if ((65 <=? n) && (n <=? 90))%nat then Ascii.ascii_of_nat (n + 32) else c)
       (String.list_ascii_of_string s)).

Definition foldedTypes : SqlTypes := {|
  sql_store _ v := Some v;
  sql_check _ _ := true;
  sql_same a b := match a, b with
                  | SText s, SText s' => String.eqb (fold_case s) (fold_case s')
                  | _, _ => bool_decide (a = b /\ a <> SNull)
                  end;
  scan_string := scan_string (SqlTypes := sampleTypes);
  scan_int64 := scan_int64 (SqlTypes := sampleTypes);
  scan_uint64 := scan_uint64 (SqlTypes := sampleTypes);
  scan_time := scan_time (SqlTypes := sampleTypes)
|}.

(** Ids are compared by the collation of their columns, which the schema does not
    name: under one that ignores case, a flip of task [a] settles task [A]. *)
Theorem collation_conflates_tasks :
  let s0 := mkSqlStore (mkMem ∅ []) "user@tcp(db)/blkit" "blkit_" None in
  let cs := [CallWriteBatch [put_op "A" "F" "1" day1; flip_op "a" ValueStatusCommitted day2]] in
  let committed_A (ST : SqlTypes) :=
    match snd (Mysql.CurrentVersion (D := Mem) (ST := ST) "run"
                 (fst (run_calls (fb_call (FaultyBackend0 := mysqlBackend (ST := ST))) s0 cs))) with
    | Ok (Some cv) => cv_Values cv !! "A" ≫= (fun m => m !! "F")
    | _ => None
    end in
  committed_A sampleTypes = None /\ committed_A foldedTypes = Some (json_text "1").
Proof. split; vm_compute; reflexivity. Qed.
