(* ===== verification/RegistryPump.v ===== *)
(** * The registry pump

    Models [registryPump] of [core/in_memory_message_broker.go]: an unbounded
    queue between the broker, which pushes under its own lock, and one watcher,
    drained by a goroutine.  The goroutine, a pusher between its two actions,
    the watcher and the stopper interleave as a step relation. *)

From stdpp Require Import relations.
From S2P Require Import Prelude Decimal GoTime Values Schema Messages.

(** ** State *)

(** [registryPump]: the queue, the one-slot [signal] channel, [done] closed. *)
Record registryPump : Type := mkPump {
  p_queue : list RegistryUpdate;
  p_signal : bool;
  p_done : bool
}.

(** [newRegistryPump] *)
Definition newRegistryPump : registryPump := mkPump [] false false.

(** [push]: append under the pump's lock, then a non-blocking send. *)
Definition push_append (u : RegistryUpdate) (p : registryPump) : registryPump :=
  mkPump (p_queue p ++ [u]) (p_signal p) (p_done p).
Definition push_signal (p : registryPump) : registryPump :=
  mkPump (p_queue p) true (p_done p).
Definition push (u : RegistryUpdate) (p : registryPump) : registryPump :=
  push_signal (push_append u p).

(** [stop] *)
Definition stop (p : registryPump) : registryPump :=
  mkPump (p_queue p) (p_signal p) true.

(** Where the goroutine [run] is: at the top of its loop, in the [select] on
    [signal], in the [select] on [out] holding an update, or returned (with
    [out] closed). *)
Inductive PumpPC : Type := PTop | PWait | PSend (u : RegistryUpdate) | PReturned.

(** One iteration of [run] up to its next blocking point; [None] when the
    goroutine is blocked.  [recv] says whether the watcher is receiving, [pick]
    how [select] chooses when both cases are ready.  An update handed to the
    watcher is returned. *)
Definition run_step (recv pick : bool) (pc : PumpPC) (p : registryPump)
  : option (PumpPC * registryPump * list RegistryUpdate) :=
  match pc with
  | PTop =>
      match p_queue p with
      | [] => Some (PWait, p, [])
      | u :: q => Some (PSend u, mkPump q (p_signal p) (p_done p), [])
      end
  | PWait =>
      if p_signal p && (pick || negb (p_done p))
      then Some (PTop, mkPump (p_queue p) false (p_done p), [])
      else if p_done p then Some (PReturned, p, []) else None
  | PSend u =>
      if recv && (pick || negb (p_done p)) then Some (PTop, p, [u])
      else if p_done p then Some (PReturned, p, []) else None
  | PReturned => None
  end.

(** ** The interleaved system *)

(** A pump with its goroutine, whether a pusher is between its two actions,
    and the history of pushes and deliveries. *)
Record PumpSys : Type := mkPumpSys {
  ps_pump : registryPump;
  ps_pc : PumpPC;
  ps_pushing : bool;
  ps_pushed : list RegistryUpdate;
  ps_delivered : list RegistryUpdate
}.

Definition init_pump : PumpSys := mkPumpSys newRegistryPump PTop false [] [].

Inductive pump_step : PumpSys -> PumpSys -> Prop :=
| ps_push_append p pc pushed del u :
    pump_step (mkPumpSys p pc false pushed del)
              (mkPumpSys (push_append u p) pc true (pushed ++ [u]) del)
| ps_push_signal p pc pushed del :
    pump_step (mkPumpSys p pc true pushed del) (mkPumpSys (push_signal p) pc false pushed del)
| ps_run recv pick p pc pushing pushed del pc' p' out :
    run_step recv pick pc p = Some (pc', p', out) ->
    pump_step (mkPumpSys p pc pushing pushed del) (mkPumpSys p' pc' pushing pushed (del ++ out))
| ps_stop p pc pushing pushed del :
    pump_step (mkPumpSys p pc pushing pushed del) (mkPumpSys (stop p) pc pushing pushed del).

(** The update the goroutine holds. *)
Definition in_hand (pc : PumpPC) : list RegistryUpdate :=
  match pc with PSend u => [u] | _ => [] end.

(** The invariant: until the goroutine returns, the updates pushed are those
    delivered, then the one in hand, then the queue; and when the goroutine
    waits with work queued a signal is there or about to be sent. *)
Definition pump_inv (s : PumpSys) : Prop :=
  (ps_pc s <> PReturned -> ps_pushed s = ps_delivered s ++ in_hand (ps_pc s) ++ p_queue (ps_pump s)) /\
  (exists rest, ps_pushed s = ps_delivered s ++ rest) /\
  (ps_pc s = PReturned -> p_done (ps_pump s) = true) /\
  (ps_pc s = PWait -> p_queue (ps_pump s) <> [] -> p_signal (ps_pump s) = true \/ ps_pushing s = true).

Lemma pump_inv_init : pump_inv init_pump.
Proof. repeat split; try done. by exists []. Qed.

Lemma pump_inv_step s s' : pump_step s s' -> pump_inv s -> pump_inv s'.
Proof.
  intros Hstep (Hq & [rest Hr] & Hd & Hw). destruct Hstep; unfold pump_inv in *; simpl in *.
  - repeat split.
    + intros Hpc. rewrite Hq by done. by rewrite <- !app_assoc.
    + exists (rest ++ [u]). by rewrite Hr, <- app_assoc.
    + done.
    + by right.
  - repeat split; eauto.
  - destruct pc as [| |v|]; simpl in *; [..|done].
    + destruct (p_queue p) as [|u q] eqn:E; inv H; simpl in *; rewrite ?E, ?app_nil_r in *.
      * repeat split; eauto; try done.
      * repeat split; eauto; try done.
    + destruct (p_signal p && (pick || negb (p_done p))) eqn:Es.
      * inv H. simpl. rewrite app_nil_r. repeat split; eauto; try done.
      * destruct (p_done p) eqn:Ed; inv H. rewrite app_nil_r. repeat split; eauto; try done.
    + destruct (recv && (pick || negb (p_done p))) eqn:Es.
      * inv H. simpl. repeat split; try done.
        -- intros _. rewrite Hq by done. by rewrite <- app_assoc.
        -- exists (p_queue p'). rewrite Hq by done. by rewrite <- app_assoc.
      * destruct (p_done p) eqn:Ed; inv H. rewrite app_nil_r. repeat split; eauto; try done.
  - repeat split; eauto.
Qed.

Definition pump_reachable (s : PumpSys) : Prop := rtc pump_step init_pump s.

Lemma pump_reachable_inv s : pump_reachable s -> pump_inv s.
Proof.
  unfold pump_reachable. intros H. remember init_pump as s0.
  assert (H0 : pump_inv s0) by (subst; apply pump_inv_init). clear Heqs0.
  induction H; eauto using pump_inv_step.
Qed.

Lemma run_deliver p u pushing pushed del :
  p_done p = false ->
  rtc pump_step (mkPumpSys p (PSend u) pushing pushed del) (mkPumpSys p PTop pushing pushed (del ++ [u])).
Proof.
  intros Hd. apply rtc_once. apply (ps_run true true). done.
Qed.

Lemma run_drain q sg pushing pushed del :
  exists p', rtc pump_step (mkPumpSys (mkPump q sg false) PTop pushing pushed del)
                 (mkPumpSys p' PTop pushing pushed (del ++ q)) /\ p_queue p' = [].
Proof.
  revert del. induction q as [|u q IH]; intros del.
  { rewrite app_nil_r. eexists. split; [apply rtc_refl|done]. }
  destruct (IH (del ++ [u])) as (p' & Hs & Hq). exists p'. split; [|done].
  eapply rtc_l; [apply (ps_run true true); reflexivity|].
  etrans; [rewrite app_nil_r; by apply run_deliver|].
  by rewrite <- app_assoc in Hs.
Qed.

(** ** Claims *)

(** C39. The pump loses and reorders nothing: in every interleaving of pushes, the
    goroutine, the watcher and a stop, what the watcher has received is a
    prefix of what was pushed, and as long as the pump has not returned the
    rest is the update in hand followed by the queue.  It only returns once it
    is stopped. *)
Theorem pump_lossless_fifo (s : PumpSys) :
  pump_reachable s ->
  (exists rest, ps_pushed s = ps_delivered s ++ rest) /\
  (ps_pc s <> PReturned -> ps_pushed s = ps_delivered s ++ in_hand (ps_pc s) ++ p_queue (ps_pump s)) /\
  (ps_pc s = PReturned -> p_done (ps_pump s) = true).
Proof. intros H. destruct (pump_reachable_inv s H) as (? & ? & ? & _). auto. Qed.

(** No wake-up is lost: from every reachable state in which the pump is not
    stopped and no push is half done, the goroutine and a receiving watcher
    alone bring it to a state where every update pushed has been delivered. *)
Theorem pump_delivers_all (s : PumpSys) :
  pump_reachable s -> p_done (ps_pump s) = false -> ps_pushing s = false ->
  exists s', rtc pump_step s s' /\ ps_pushed s' = ps_pushed s /\ ps_delivered s' = ps_pushed s.
Proof.
  intros Hr Hd Hp. destruct (pump_reachable_inv s Hr) as (Hq & _ & Hret & Hw).
  destruct s as [[q sg dn] pc pushing pushed del]; simpl in *; subst.
  assert (Hpc : pc <> PReturned) by (intros ->; by specialize (Hret eq_refl)).
  specialize (Hq Hpc). subst pushed.
  destruct pc as [| |u|]; simpl in *; [| | |done].
  - destruct (run_drain q sg false (del ++ q) del) as (p' & Hs & _).
    by exists (mkPumpSys p' PTop false (del ++ q) (del ++ q)).
  - destruct q as [|u q].
    { eexists. split; [apply rtc_refl|]. by rewrite app_nil_r. }
    destruct (Hw eq_refl ltac:(done)) as [->|?]; [|done].
    destruct (run_drain (u :: q) false false (del ++ u :: q) del) as (p' & Hs & _).
    exists (mkPumpSys p' PTop false (del ++ u :: q) (del ++ u :: q)). split; [|done].
    eapply rtc_l; [apply (ps_run true true); reflexivity|]. by rewrite app_nil_r.
  - destruct (run_drain q sg false (del ++ u :: q) (del ++ [u])) as (p' & Hs & _).
    exists (mkPumpSys p' PTop false (del ++ u :: q) (del ++ u :: q)). split; [|done].
    etrans; [by apply run_deliver|]. by rewrite <- app_assoc in Hs.
Qed.

(** A pump that was waiting when an update arrived. *)
Definition sample_update : RegistryUpdate := mkRegistryUpdate RegistryUpdateSnapshotComplete None.

Definition sample_pump : PumpSys :=
  mkPumpSys (mkPump [sample_update] true false) PWait false [sample_update] [].

Lemma sample_pump_reachable : pump_reachable sample_pump.
Proof.
  eapply rtc_l; [apply (ps_run true true); reflexivity|].
  eapply rtc_l; [apply ps_push_append with (u := sample_update)|].
  eapply rtc_l; [apply ps_push_signal|]. apply rtc_refl.
Qed.

Lemma pump_lossless_fifo_witness : [sample_update] = [] ++ in_hand PWait ++ [sample_update].
Proof.
  exact (proj1 (proj2 (pump_lossless_fifo sample_pump sample_pump_reachable)) ltac:(discriminate)).
Defined.

Lemma pump_delivers_all_witness :
  exists s', rtc pump_step sample_pump s' /\ ps_delivered s' = [sample_update].
Proof.
  destruct (pump_delivers_all sample_pump sample_pump_reachable eq_refl eq_refl)
    as (s' & H1 & _ & H2). by exists s'.
Defined.
