(* ===== verification/Broker.v ===== *)
(** * The in-memory message broker

    Models [core/in_memory_message_broker.go]: the broker's state and every
    critical section that changes it, each a function from the state.  The Go
    heap objects that are shared by pointer (queued jobs, subscriber channels,
    the registration slices registry updates point into) live in maps from
    addresses, so that aliasing is visible.

    What a critical section reads from outside comes in as an argument: the
    clock [now] (one reading per critical section), the random source, the fresh
    id of a [Submit] and the order in which Go ranges over the workers. *)

From S2P Require Import Prelude Decimal GoTime Values Schema Messages Wire RegistryPump.
#[global] Open Scope Z_scope.

Section Broker.
Context {DO : DecimalOps}.
Context `{!Cbor Envelope, !Cbor Job, !Cbor InstanceEvent}.

(** ** Configuration *)

Record inMemoryBrokerConfig : Type := mkConfig {
  eventBufferSize : Z;
  cfg_cipher : option PayloadCipher;
  registrationTTL : Z;
  inFlightTimeout : Z;
  eventRetention : Z
}.

(** The options of [NewInMemoryMessageBroker]. *)
Definition InMemoryBrokerOption : Type := inMemoryBrokerConfig -> inMemoryBrokerConfig.
Definition WithEventBufferSize (n : Z) : InMemoryBrokerOption := fun c =>
  mkConfig n (cfg_cipher c) (registrationTTL c) (inFlightTimeout c) (eventRetention c).
Definition WithPayloadCipher (cipher : option PayloadCipher) : InMemoryBrokerOption := fun c =>
  mkConfig (eventBufferSize c) cipher (registrationTTL c) (inFlightTimeout c) (eventRetention c).
Definition WithRegistrationTTL (d : Z) : InMemoryBrokerOption := fun c =>
  mkConfig (eventBufferSize c) (cfg_cipher c) d (inFlightTimeout c) (eventRetention c).
Definition WithInFlightTimeout (d : Z) : InMemoryBrokerOption := fun c =>
  mkConfig (eventBufferSize c) (cfg_cipher c) (registrationTTL c) d (eventRetention c).
Definition WithEventRetention (d : Z) : InMemoryBrokerOption := fun c =>
  mkConfig (eventBufferSize c) (cfg_cipher c) (registrationTTL c) (inFlightTimeout c) d.

Definition seconds (n : Z) : Z := n * 10 ^ 9.

(** ** State *)

(** [inMemWorker]; its [regs] slice is an address. *)
Record inMemWorker : Type := mkWorker {
  w_regs : nat;
  w_deadline : Time;
  w_firstReg : gmap ProcessKey Time
}.

(** [inMemJob]; [mj_timer] says whether its redelivery timer is armed. *)
Record inMemJob : Type := mkMemJob {
  mj_job : Job;
  mj_timer : bool;
  mj_settled : bool
}.

(** [inMemInstance]; its [subs] map subscription ids to subscriber addresses. *)
Record inMemInstance : Type := mkInstance {
  in_key : ProcessKey;
  in_correlationKey : option string;
  in_latestLifecycle : option InstanceEvent;
  in_terminal : option InstanceEvent;
  in_finished : bool;
  in_expiresAt : Time;
  in_subs : gmap nat nat
}.

(** [inMemSub]: a buffered channel's contents and capacity. *)
Record inMemSub : Type := mkSub {
  s_ch : list InstanceEvent;
  s_cap : nat;
  s_dropped : bool;
  s_closed : bool
}.

(** [InMemoryMessageBroker].  [b_notify] counts the replacements of the [notify]
    channel; [b_jobs], [b_subs] and [b_regs] are the heap, [b_alloc] the next
    free address. *)
Record Broker : Type := mkBroker {
  b_cfg : inMemoryBrokerConfig;
  b_closed : bool;
  b_notify : nat;
  b_workers : gmap string inMemWorker;
  b_queues : gmap ProcessKey (list nat);
  b_inFlight : gset nat;
  b_byInst : gmap string (list nat);
  b_insts : gmap string inMemInstance;
  b_regSubs : gmap nat registryPump;
  b_timers : gmap string Time;
  b_nextSub : nat;
  b_jobs : gmap nat inMemJob;
  b_subs : gmap nat inMemSub;
  b_regs : gmap nat (list ProcessRegistration);
  b_alloc : nat
}.


(** Assignments to one field. *)
Definition set_closed (v : bool) (b : Broker) : Broker :=
  mkBroker (b_cfg b) v (b_notify b) (b_workers b) (b_queues b) (b_inFlight b) (b_byInst b) (b_insts b) (b_regSubs b) (b_timers b) (b_nextSub b) (b_jobs b) (b_subs b) (b_regs b) (b_alloc b).
Definition set_notify (v : nat) (b : Broker) : Broker :=
  mkBroker (b_cfg b) (b_closed b) v (b_workers b) (b_queues b) (b_inFlight b) (b_byInst b) (b_insts b) (b_regSubs b) (b_timers b) (b_nextSub b) (b_jobs b) (b_subs b) (b_regs b) (b_alloc b).
Definition set_workers (v : gmap string inMemWorker) (b : Broker) : Broker :=
  mkBroker (b_cfg b) (b_closed b) (b_notify b) v (b_queues b) (b_inFlight b) (b_byInst b) (b_insts b) (b_regSubs b) (b_timers b) (b_nextSub b) (b_jobs b) (b_subs b) (b_regs b) (b_alloc b).
Definition set_queues (v : gmap ProcessKey (list nat)) (b : Broker) : Broker :=
  mkBroker (b_cfg b) (b_closed b) (b_notify b) (b_workers b) v (b_inFlight b) (b_byInst b) (b_insts b) (b_regSubs b) (b_timers b) (b_nextSub b) (b_jobs b) (b_subs b) (b_regs b) (b_alloc b).
Definition set_inFlight (v : gset nat) (b : Broker) : Broker :=
  mkBroker (b_cfg b) (b_closed b) (b_notify b) (b_workers b) (b_queues b) v (b_byInst b) (b_insts b) (b_regSubs b) (b_timers b) (b_nextSub b) (b_jobs b) (b_subs b) (b_regs b) (b_alloc b).
Definition set_byInst (v : gmap string (list nat)) (b : Broker) : Broker :=
  mkBroker (b_cfg b) (b_closed b) (b_notify b) (b_workers b) (b_queues b) (b_inFlight b) v (b_insts b) (b_regSubs b) (b_timers b) (b_nextSub b) (b_jobs b) (b_subs b) (b_regs b) (b_alloc b).
Definition set_insts (v : gmap string inMemInstance) (b : Broker) : Broker :=
  mkBroker (b_cfg b) (b_closed b) (b_notify b) (b_workers b) (b_queues b) (b_inFlight b) (b_byInst b) v (b_regSubs b) (b_timers b) (b_nextSub b) (b_jobs b) (b_subs b) (b_regs b) (b_alloc b).
Definition set_regSubs (v : gmap nat registryPump) (b : Broker) : Broker :=
  mkBroker (b_cfg b) (b_closed b) (b_notify b) (b_workers b) (b_queues b) (b_inFlight b) (b_byInst b) (b_insts b) v (b_timers b) (b_nextSub b) (b_jobs b) (b_subs b) (b_regs b) (b_alloc b).
Definition set_timers (v : gmap string Time) (b : Broker) : Broker :=
  mkBroker (b_cfg b) (b_closed b) (b_notify b) (b_workers b) (b_queues b) (b_inFlight b) (b_byInst b) (b_insts b) (b_regSubs b) v (b_nextSub b) (b_jobs b) (b_subs b) (b_regs b) (b_alloc b).
Definition set_nextSub (v : nat) (b : Broker) : Broker :=
  mkBroker (b_cfg b) (b_closed b) (b_notify b) (b_workers b) (b_queues b) (b_inFlight b) (b_byInst b) (b_insts b) (b_regSubs b) (b_timers b) v (b_jobs b) (b_subs b) (b_regs b) (b_alloc b).
Definition set_jobs (v : gmap nat inMemJob) (b : Broker) : Broker :=
  mkBroker (b_cfg b) (b_closed b) (b_notify b) (b_workers b) (b_queues b) (b_inFlight b) (b_byInst b) (b_insts b) (b_regSubs b) (b_timers b) (b_nextSub b) v (b_subs b) (b_regs b) (b_alloc b).
Definition set_subs (v : gmap nat inMemSub) (b : Broker) : Broker :=
  mkBroker (b_cfg b) (b_closed b) (b_notify b) (b_workers b) (b_queues b) (b_inFlight b) (b_byInst b) (b_insts b) (b_regSubs b) (b_timers b) (b_nextSub b) (b_jobs b) v (b_regs b) (b_alloc b).
Definition set_regs (v : gmap nat (list ProcessRegistration)) (b : Broker) : Broker :=
  mkBroker (b_cfg b) (b_closed b) (b_notify b) (b_workers b) (b_queues b) (b_inFlight b) (b_byInst b) (b_insts b) (b_regSubs b) (b_timers b) (b_nextSub b) (b_jobs b) (b_subs b) v (b_alloc b).
Definition set_alloc (v : nat) (b : Broker) : Broker :=
  mkBroker (b_cfg b) (b_closed b) (b_notify b) (b_workers b) (b_queues b) (b_inFlight b) (b_byInst b) (b_insts b) (b_regSubs b) (b_timers b) (b_nextSub b) (b_jobs b) (b_subs b) (b_regs b) v.

(** [NewInMemoryMessageBroker] *)
Definition NewInMemoryMessageBroker (opts : list InMemoryBrokerOption) : Broker :=
  let cfg := fold_left (fun c o => o c) opts
               (mkConfig 64 None (seconds 90) (seconds 150) (seconds 3600)) in
  mkBroker cfg false 0 ∅ ∅ ∅ ∅ ∅ ∅ ∅ 0 ∅ ∅ ∅ 0.

(** ** Subscribers *)

Definition synthetic_drop (instanceID : string) (now : Time) : InstanceEvent :=
  mkInstanceEvent instanceID None now
    (InstanceEventError (mkInstanceError ErrCodeBackpressureDrop
       "subscriber buffer overflowed; events were dropped")).

(** A non-blocking send on a buffered channel. *)
Definition try_send (s : inMemSub) (evt : InstanceEvent) : option inMemSub :=
  if (length (s_ch s) <? s_cap s)%nat
  then Some (mkSub (s_ch s ++ [evt]) (s_cap s) (s_dropped s) (s_closed s)) else None.

Definition set_dropped (d : bool) (s : inMemSub) : inMemSub :=
  mkSub (s_ch s) (s_cap s) d (s_closed s).

(** [inMemSub.send] *)
Definition send (now : Time) (evt : InstanceEvent) (instanceID : string) (s : inMemSub) : inMemSub :=
  if s_closed s then s
  else
    let send_evt s := match try_send s evt with Some s' => s' | None => set_dropped true s end in
    if s_dropped s
    then match try_send s (synthetic_drop instanceID now) with
         | Some s' => send_evt (set_dropped false s')
         | None => s
         end
    else send_evt s.

(** [inMemSub.close] *)
Definition sub_close (s : inMemSub) : inMemSub := mkSub (s_ch s) (s_cap s) (s_dropped s) true.

(** Apply a change to the subscriber at an address. *)
Definition with_sub (f : inMemSub -> inMemSub) (a : nat) (b : Broker) : Broker :=
  set_subs (alter f a (b_subs b)) b.

(** Apply a change to every subscriber of a record. *)
Definition each_sub (f : inMemSub -> inMemSub) (subs : gmap nat nat) (b : Broker) : Broker :=
  fold_left (fun b p => with_sub f (snd p) b) (map_to_list subs) b.

(** ** Helpers of the critical sections *)

(** [signalLocked]: close and replace the notify channel. *)
Definition signalLocked (b : Broker) : Broker := set_notify (S (b_notify b)) b.

(** [roundTripJob] *)
Definition job_kind (j : Job) : string :=
  match job_body j with
  | JobStart _ _ _ _ => KindJobStart
  | JobRespondToInput _ _ _ => KindJobRespondToInput
  | JobCancel _ _ => KindJobCancel
  | JobTerminate _ _ => KindJobTerminate
  | JobResume _ => KindJobResume
  end.

Definition roundTripJob (rand : Rand) (b : Broker) (job : Job) : result Job :=
  let! data := EncodeEnvelope (job_kind job) (Job_InstanceID job) None job (cfg_cipher (b_cfg b)) rand in
  let! env := DecodeEnvelope data (cfg_cipher (b_cfg b)) in
  DecodePayload env.

Definition queue_of (b : Broker) (k : ProcessKey) : list nat := default [] (b_queues b !! k).
Definition flight_of (b : Broker) (inst : string) : list nat := default [] (b_byInst b !! inst).

(** [enqueueLocked] *)
Definition enqueueLocked (rand : Rand) (job : Job) (b : Broker) : option GoError * Broker :=
  match roundTripJob rand b job with
  | Err e => (Some e, b)
  | Ok rt =>
      let a := b_alloc b in
      let b := set_jobs (<[a := mkMemJob rt false false]> (b_jobs b)) (set_alloc (S a) b) in
      let b := set_queues (<[job_Key rt := queue_of b (job_Key rt) ++ [a]]> (b_queues b)) b in
      (None, signalLocked b)
  end.

(** [recordLocked] *)
Definition empty_instance (key : ProcessKey) (corr : option string) : inMemInstance :=
  mkInstance key corr None None false zeroTime ∅.

Definition recordLocked (instanceID : string) (b : Broker) : inMemInstance * Broker :=
  match b_insts b !! instanceID with
  | Some rec => (rec, b)
  | None =>
      let rec := empty_instance zeroKey None in
      (rec, set_insts (<[instanceID := rec]> (b_insts b)) b)
  end.

(** What [publishLocked] retains of an event. *)
Definition retain (evt : InstanceEvent) (rec : inMemInstance) : inMemInstance :=
  match ev_body evt with
  | InstanceEventLifecycle _ =>
      mkInstance (in_key rec) (in_correlationKey rec) (Some evt) (in_terminal rec)
        (in_finished rec) (in_expiresAt rec) (in_subs rec)
  | InstanceEventResult _ =>
      mkInstance (in_key rec) (in_correlationKey rec) (in_latestLifecycle rec) (Some evt)
        (in_finished rec) (in_expiresAt rec) (in_subs rec)
  | InstanceEventError _ =>
      match in_latestLifecycle rec with
      | Some (mkInstanceEvent _ _ _ (InstanceEventLifecycle ProcessStatusFailed)) =>
          mkInstance (in_key rec) (in_correlationKey rec) (in_latestLifecycle rec) (Some evt)
            (in_finished rec) (in_expiresAt rec) (in_subs rec)
      | _ => rec
      end
  | InstanceEventInputRequest _ _ _ | InstanceEventNodeCompleted _ _ _ => rec
  end.

(** The wire round trip of an event; on any error the event is kept as it is. *)
Definition roundTripEvent (rand : Rand) (b : Broker) (evt : InstanceEvent) : InstanceEvent :=
  match (let! data := EncodeEnvelope KindInstanceEvent (ev_InstanceID evt) (ev_CorrelationKey evt)
                        evt (cfg_cipher (b_cfg b)) rand in
         let! env := DecodeEnvelope data (cfg_cipher (b_cfg b)) in
         DecodePayload env) with
  | Ok rt => rt
  | Err _ => evt
  end.

(** [publishLocked] *)
Definition publishLocked (now : Time) (rand : Rand) (instanceID : string) (body : EventBody)
    (b : Broker) : Broker :=
  let '(rec, b) := recordLocked instanceID b in
  let evt := mkInstanceEvent instanceID (in_correlationKey rec) now body in
  let evt := roundTripEvent rand b evt in
  let b := set_insts (<[instanceID := retain evt rec]> (b_insts b)) b in
  each_sub (send now evt instanceID) (in_subs rec) b.

(** [settleInstanceLocked] *)
Definition settle_job (j : inMemJob) : inMemJob := mkMemJob (mj_job j) false true.

Definition settleInstanceLocked (instanceID : string) (b : Broker) : Broker :=
  let js := flight_of b instanceID in
  let b := fold_left (fun b a =>
      set_inFlight (b_inFlight b ∖ {[a]}) (set_jobs (alter settle_job a (b_jobs b)) b)) js b in
  set_byInst (delete instanceID (b_byInst b)) b.

(** [finishLocked] *)
Definition finish_record (expires : Time) (rec : inMemInstance) : inMemInstance :=
  mkInstance (in_key rec) (in_correlationKey rec) (in_latestLifecycle rec) (in_terminal rec)
    true expires ∅.

Definition finishLocked (now : Time) (rand : Rand) (instanceID : string) (phase : ProcessStatus)
    (extra : option EventBody) (b : Broker) : Broker :=
  let b := settleInstanceLocked instanceID b in
  let b := set_timers (delete instanceID (b_timers b)) b in
  let '(rec, b) := recordLocked instanceID b in
  if in_finished rec then b
  else
    let b := publishLocked now rand instanceID (InstanceEventLifecycle phase) b in
    let b := match extra with
             | Some e => publishLocked now rand instanceID e b
             | None => b
             end in
    let b := set_insts (alter (finish_record (TimeAdd now (eventRetention (b_cfg b)))) instanceID
                          (b_insts b)) b in
    each_sub sub_close (in_subs rec) b.

(** [emitRegistryUpdateLocked] *)
Definition emitRegistryUpdateLocked (u : RegistryUpdate) (b : Broker) : Broker :=
  set_regSubs (push u <$> b_regSubs b) b.

(** [for i := range w.regs { b.emitRegistryUpdateLocked(kind, &w.regs[i]) }] *)
Definition regs_at (b : Broker) (a : nat) : list ProcessRegistration := default [] (b_regs b !! a).

Definition reg_updates (b : Broker) (kind : RegistryUpdateKind) (a : nat) : list RegistryUpdate :=
  map (fun i => mkRegistryUpdate kind (Some (mkRegRef a i))) (seq 0 (length (regs_at b a))).

Definition emit_all (kind : RegistryUpdateKind) (a : nat) (b : Broker) : Broker :=
  fold_left (fun b u => emitRegistryUpdateLocked u b) (reg_updates b kind a) b.

(** [liveRegistrationLocked]; [order] is the order Go ranges over the workers. *)
Definition live_in_worker (now : Time) (key : ProcessKey) (b : Broker) (id : string)
  : option ProcessRegistration :=
  match b_workers b !! id with
  | None => None
  | Some w =>
      if TimeAfter now (w_deadline w) then None
      else List.find (fun r => bool_decide (ProcessRegistration_Key r = key)) (regs_at b (w_regs w))
  end.

Fixpoint liveRegistrationLocked (order : list string) (now : Time) (key : ProcessKey) (b : Broker)
  : option ProcessRegistration :=
  match order with
  | [] => None
  | id :: order' =>
      match live_in_worker now key b id with
      | Some r => Some r
      | None => liveRegistrationLocked order' now key b
      end
  end.

(** [removeQueuedStartLocked] *)
Definition is_start_of (b : Broker) (instanceID : string) (a : nat) : bool :=
  match b_jobs b !! a with
  | Some j => is_start (mj_job j) && String.eqb (Job_InstanceID (mj_job j)) instanceID
  | None => false
  end.

Fixpoint remove_first {A} (P : A -> bool) (l : list A) : option (list A) :=
  match l with
  | [] => None
  | x :: l' => if P x then Some l' else option_map (cons x) (remove_first P l')
  end.

Definition removeQueuedStartLocked (key : ProcessKey) (instanceID : string) (b : Broker)
  : option Broker :=
  match remove_first (is_start_of b instanceID) (queue_of b key) with
  | Some q => Some (set_queues (<[key := q]> (b_queues b)) b)
  | None => None
  end.

(** ** Producer side *)

(** [ctx.Err()], then the lock, then the closed check. *)
Definition guarded {A} (ctx : option GoError) (b : Broker) (k : result A * Broker) : result A * Broker :=
  match ctx with
  | Some e => (Err e, b)
  | None => if b_closed b then (Err ErrBrokerClosed, b) else k
  end.

(** The error result of an operation. *)
Definition done_or (r : option GoError * Broker) : result unit * Broker :=
  (match fst r with Some e => Err e | None => Ok tt end, snd r).

(** [Submit]; [instanceID] is what [NewProcessInstanceID] returns. *)
Definition Submit (ctx : option GoError) (now : Time) (rand : Rand) (order : list string)
    (instanceID : string) (req : StartRequest) (b : Broker) : result string * Broker :=
  guarded ctx b
    (let key := StartRequest_Key req in
     match liveRegistrationLocked order now key b with
     | None => (Err ErrUnknownProcess, b)
     | Some reg =>
         match List.find (fun s => String.eqb (se_Id s) (sr_StartID req)) (pr_StartEvents reg) with
         | None => (Err ErrUnknownStartID, b)
         | Some start =>
             match match se_InputContract start with
                   | Some c => InputContract_Validate c (sr_Input req)
                   | None => None
                   end with
             | Some e => (Err e, b)
             | None =>
                 let b1 := set_insts (<[instanceID := empty_instance key (sr_CorrelationKey req)]>
                                        (b_insts b)) b in
                 let job := mkJob key (JobStart instanceID (sr_StartID req) (sr_Input req)
                                         (sr_CorrelationKey req)) in
                 match enqueueLocked rand job b1 with
                 | (Some e, b2) => (Err e, set_insts (delete instanceID (b_insts b2)) b2)
                 | (None, b2) =>
                     (Ok instanceID,
                      publishLocked now rand instanceID
                        (InstanceEventLifecycle ProcessStatusPending) b2)
                 end
             end
         end
     end).

(** [Cancel] *)
Definition Cancel (ctx : option GoError) (now : Time) (rand : Rand) (order : list string)
    (req : CancelRequest) (b : Broker) : result unit * Broker :=
  guarded ctx b
    (let key := CancelRequest_Key req in
     match liveRegistrationLocked order now key b with
     | None => (Err ErrUnknownProcess, b)
     | Some reg =>
         match removeQueuedStartLocked key (cr_InstanceID req) b with
         | Some b' => (Ok tt, finishLocked now rand (cr_InstanceID req) ProcessStatusCancelled None b')
         | None =>
             if negb (pr_AllowExternalCancel reg) then (Err ErrCancelNotAllowed, b)
             else done_or (enqueueLocked rand (mkJob key (JobCancel (cr_InstanceID req) (cr_Reason req))) b)
         end
     end).

(** [Terminate] *)
Definition Terminate (ctx : option GoError) (now : Time) (rand : Rand) (order : list string)
    (req : TerminateRequest) (b : Broker) : result unit * Broker :=
  guarded ctx b
    (let key := TerminateRequest_Key req in
     match liveRegistrationLocked order now key b with
     | None => (Err ErrUnknownProcess, b)
     | Some reg =>
         if negb (pr_AllowExternalTerminate reg) then (Err ErrTerminateNotAllowed, b)
         else done_or (enqueueLocked rand (mkJob key (JobTerminate (tr_InstanceID req) (tr_Reason req))) b)
     end).

(** [RespondToInputRequest] *)
Definition not_held_error (code : string) : EventBody :=
  InstanceEventError (mkInstanceError code
    "respond-to-input for an instance the broker does not hold").

Definition RespondToInputRequest (ctx : option GoError) (now : Time) (rand : Rand)
    (instanceID requestID : string) (payload : list (string * HostValue)) (b : Broker)
  : result unit * Broker :=
  guarded ctx b
    (match b_insts b !! instanceID with
     | None => (Ok tt, publishLocked now rand instanceID (not_held_error ErrCodeInstanceNotFound) b)
     | Some rec =>
         if in_finished rec
         then (Ok tt, publishLocked now rand instanceID (not_held_error ErrCodeAlreadyFinished) b)
         else done_or (enqueueLocked rand
                (mkJob (in_key rec) (JobRespondToInput instanceID requestID payload)) b)
     end).

(** [SubscribeToInstance]: returns the address of the subscriber. *)
Definition not_found_event (instanceID : string) (now : Time) : InstanceEvent :=
  mkInstanceEvent instanceID None now
    (InstanceEventError (mkInstanceError ErrCodeInstanceNotFound "no events visible for this instance")).

Definition option_list {A} (o : option A) : list A :=
  match o with Some x => [x] | None => [] end.

Definition add_sub (id a : nat) (rec : inMemInstance) : inMemInstance :=
  mkInstance (in_key rec) (in_correlationKey rec) (in_latestLifecycle rec) (in_terminal rec)
    (in_finished rec) (in_expiresAt rec) (<[id := a]> (in_subs rec)).

Definition SubscribeToInstance (now : Time) (instanceID : string) (b : Broker) : result nat * Broker :=
  if b_closed b then (Err ErrBrokerClosed, b)
  else
    let cap := Z.to_nat (Z.max (eventBufferSize (b_cfg b)) 2) in
    let a := b_alloc b in
    let register rec ch b :=
      let id := b_nextSub b in
      let b := set_subs (<[a := mkSub ch cap false false]> (b_subs b)) (set_alloc (S a) b) in
      let b := set_insts (<[instanceID := add_sub id a rec]> (b_insts b)) (set_nextSub (S id) b) in
      (Ok a, b) in
    match b_insts b !! instanceID with
    | None => register (empty_instance zeroKey None) [not_found_event instanceID now] b
    | Some rec =>
        let ch := option_list (in_latestLifecycle rec) ++ option_list (in_terminal rec) in
        if in_finished rec
        then (Ok a, set_subs (<[a := mkSub ch cap false true]> (b_subs b)) (set_alloc (S a) b))
        else register rec ch b
    end.

(** The goroutine of [SubscribeToInstance] when its context ends. *)
Definition drop_sub (id : nat) (rec : inMemInstance) : inMemInstance :=
  mkInstance (in_key rec) (in_correlationKey rec) (in_latestLifecycle rec) (in_terminal rec)
    (in_finished rec) (in_expiresAt rec) (delete id (in_subs rec)).

Definition cancelInstanceSub (instanceID : string) (id a : nat) (b : Broker) : Broker :=
  match b_insts b !! instanceID with
  | Some rec =>
      if bool_decide (in_subs rec !! id = Some a)
      then with_sub sub_close a (set_insts (<[instanceID := drop_sub id rec]> (b_insts b)) b)
      else b
  | None => b
  end.

(** [SubscribeToProcessRegistry]: returns the id of the pump. *)
Definition snapshot_updates (order : list string) (b : Broker) : list RegistryUpdate :=
  flat_map (fun id => match b_workers b !! id with
                      | Some w => reg_updates b RegistryUpdateSnapshot (w_regs w)
                      | None => []
                      end) order.

Definition SubscribeToProcessRegistry (order : list string) (b : Broker) : result nat * Broker :=
  if b_closed b then (Err ErrBrokerClosed, b)
  else
    let pump := fold_left (fun p u => push u p)
      (snapshot_updates order b ++ [mkRegistryUpdate RegistryUpdateSnapshotComplete None])
      newRegistryPump in
    let id := b_nextSub b in
    (Ok id, set_regSubs (<[id := pump]> (b_regSubs b)) (set_nextSub (S id) b)).

(** The goroutine of [SubscribeToProcessRegistry] when its context ends. *)
Definition cancelRegistrySub (id : nat) (b : Broker) : Broker :=
  set_regSubs (delete id (b_regSubs b)) b.

(** ** Worker side: registration *)

(** The stamping loop of [RegisterProcesses]. *)
Fixpoint stamp_regs (workerID : string) (now : Time) (firstReg : gmap ProcessKey Time)
    (regs : list ProcessRegistration) : gmap ProcessKey Time * list ProcessRegistration :=
  match regs with
  | [] => (firstReg, [])
  | r :: regs' =>
      let first := default now (firstReg !! ProcessRegistration_Key r) in
      let '(fr, rs) := stamp_regs workerID now (<[ProcessRegistration_Key r := first]> firstReg) regs' in
      (fr, stamp workerID first now r :: rs)
  end.

Definition RegisterProcesses (ctx : option GoError) (now : Time) (workerID : string)
    (regs : list ProcessRegistration) (b : Broker) : result unit * Broker :=
  guarded ctx b
    (let '(firstReg, b1) := match b_workers b !! workerID with
                            | None => (∅, b)
                            | Some w => (w_firstReg w, emit_all RegistryUpdateRemoved (w_regs w) b)
                            end in
     let '(firstReg, stamped) := stamp_regs workerID now firstReg regs in
     let a := b_alloc b1 in
     let b2 := set_regs (<[a := stamped]> (b_regs b1)) (set_alloc (S a) b1) in
     let w := mkWorker a (TimeAdd now (registrationTTL (b_cfg b))) firstReg in
     let b3 := set_workers (<[workerID := w]> (b_workers b2)) b2 in
     (Ok tt, emit_all RegistryUpdateAdded a b3)).

(** [Heartbeat]: the slice is updated in place. *)
Definition Heartbeat (ctx : option GoError) (now : Time) (workerID : string) (b : Broker)
  : result unit * Broker :=
  guarded ctx b
    (match b_workers b !! workerID with
     | None => (Err ErrUnknownWorker, b)
     | Some w =>
         let w' := mkWorker (w_regs w) (TimeAdd now (registrationTTL (b_cfg b))) (w_firstReg w) in
         let b := set_workers (<[workerID := w']> (b_workers b)) b in
         (Ok tt, set_regs (alter (map (set_LastHeartbeat now)) (w_regs w) (b_regs b)) b)
     end).

(** [Unregister] *)
Definition Unregister (ctx : option GoError) (workerID : string) (b : Broker) : result unit * Broker :=
  guarded ctx b
    (match b_workers b !! workerID with
     | None => (Err ErrUnknownWorker, b)
     | Some w =>
         (Ok tt, emit_all RegistryUpdateRemoved (w_regs w)
                   (set_workers (delete workerID (b_workers b)) b))
     end).

(** ** Worker side: job queue *)

(** [takePendingLocked]: returns the address of the job taken. *)
Fixpoint takePendingLocked (keys : list ProcessKey) (b : Broker) : option nat * Broker :=
  match keys with
  | [] => (None, b)
  | k :: keys' =>
      match queue_of b k with
      | [] => takePendingLocked keys' b
      | a :: q =>
          match b_jobs b !! a with
          | None => (None, b)
          | Some j =>
              let inst := Job_InstanceID (mj_job j) in
              let b := set_queues (<[k := q]> (b_queues b)) b in
              let b := set_jobs (<[a := mkMemJob (mj_job j) true false]> (b_jobs b)) b in
              let b := set_inFlight ({[a]} ∪ b_inFlight b) b in
              (Some a, set_byInst (<[inst := flight_of b inst ++ [a]]> (b_byInst b)) b)
          end
      end
  end.

(** [releaseLocked] *)
Definition releaseLocked (a : nat) (j : inMemJob) (b : Broker) : Broker :=
  let b := set_jobs (<[a := mkMemJob (mj_job j) false (mj_settled j)]> (b_jobs b)) b in
  let b := set_inFlight (b_inFlight b ∖ {[a]}) b in
  let inst := Job_InstanceID (mj_job j) in
  let l := default (flight_of b inst) (remove_first (Nat.eqb a) (flight_of b inst)) in
  match l with
  | [] => set_byInst (delete inst (b_byInst b)) b
  | _ => set_byInst (<[inst := l]> (b_byInst b)) b
  end.

(** [requeue] *)
Definition requeue (a : nat) (b : Broker) : Broker :=
  match b_jobs b !! a with
  | None => b
  | Some j =>
      if b_closed b || mj_settled j then b
      else if bool_decide (a ∈ b_inFlight b)
      then
        let b := releaseLocked a j b in
        let k := job_Key (mj_job j) in
        signalLocked (set_queues (<[k := a :: queue_of b k]> (b_queues b)) b)
      else b
  end.

(** ** Worker side: reports *)

(** [report] *)
Definition report (ctx : option GoError) (instanceID : string) (fn : Broker -> Broker) (b : Broker)
  : result unit * Broker :=
  match ctx with
  | Some e => (Err e, b)
  | None =>
      if String.eqb instanceID "" then (Err ErrUnknownProcess, b)
      else if b_closed b then (Err ErrBrokerClosed, b)
      else (Ok tt, fn b)
  end.

Definition ReportRunning (ctx : option GoError) (now : Time) (rand : Rand) (instanceID : string) :=
  report ctx instanceID
    (publishLocked now rand instanceID (InstanceEventLifecycle ProcessStatusRunning)).

(** [ReportSuspended]; a timer is recorded by the time it fires at. *)
Definition ReportSuspended (ctx : option GoError) (now : Time) (rand : Rand) (instanceID : string)
    (resumeAt : option Time) :=
  report ctx instanceID (fun b =>
    let b := publishLocked now rand instanceID (InstanceEventLifecycle ProcessStatusSuspended) b in
    let b := settleInstanceLocked instanceID b in
    match resumeAt with
    | None => b
    | Some t => set_timers (<[instanceID := t]> (b_timers b)) b
    end).

(** The callback of the resume timer. *)
Definition resumeTimer (rand : Rand) (instanceID : string) (b : Broker) : Broker :=
  let b := set_timers (delete instanceID (b_timers b)) b in
  match b_insts b !! instanceID with
  | None => b
  | Some rec =>
      if b_closed b || in_finished rec then b
      else snd (enqueueLocked rand (mkJob (in_key rec) (JobResume instanceID)) b)
  end.

Definition ReportCompleted (ctx : option GoError) (now : Time) (rand : Rand) (instanceID : string)
    (res : EvaluationResult) :=
  report ctx instanceID
    (finishLocked now rand instanceID ProcessStatusCompleted (Some (InstanceEventResult res))).

Definition ReportFailed (ctx : option GoError) (now : Time) (rand : Rand) (instanceID : string)
    (instErr : InstanceError) :=
  report ctx instanceID
    (finishLocked now rand instanceID ProcessStatusFailed (Some (InstanceEventError instErr))).

Definition ReportCancelled (ctx : option GoError) (now : Time) (rand : Rand) (instanceID : string) :=
  report ctx instanceID (finishLocked now rand instanceID ProcessStatusCancelled None).

Definition PostError (ctx : option GoError) (now : Time) (rand : Rand) (instanceID : string)
    (instErr : InstanceError) :=
  report ctx instanceID (publishLocked now rand instanceID (InstanceEventError instErr)).

Definition PostInputRequest (ctx : option GoError) (now : Time) (rand : Rand) (instanceID : string)
    (nodeID requestID : string) (payload : list (string * HostValue)) :=
  report ctx instanceID
    (publishLocked now rand instanceID (InstanceEventInputRequest nodeID requestID payload)).

Definition PostNodeCompleted (ctx : option GoError) (now : Time) (rand : Rand) (instanceID : string)
    (nodeID nodeKind : string) (outputs : list (string * HostValue)) :=
  report ctx instanceID
    (publishLocked now rand instanceID (InstanceEventNodeCompleted nodeID nodeKind outputs)).

(** ** Sweeping and closing *)

(** One tick of [sweep]. *)
Definition sweep_worker (now : Time) (b : Broker) (id : string) : Broker :=
  match b_workers b !! id with
  | Some w =>
      if TimeAfter now (w_deadline w)
      then emit_all RegistryUpdateHeartbeatLost (w_regs w)
             (set_workers (delete id (b_workers b)) b)
      else b
  | None => b
  end.

Definition expired (now : Time) (rec : inMemInstance) : bool :=
  in_finished rec && TimeAfter now (in_expiresAt rec) && bool_decide (in_subs rec = ∅).

Definition sweep (now : Time) (order : list string) (b : Broker) : Broker :=
  let b := fold_left (sweep_worker now) order b in
  set_insts (filter (fun p => expired now (snd p) = false) (b_insts b)) b.

(** [Close] *)
Definition clear_subs (rec : inMemInstance) : inMemInstance :=
  mkInstance (in_key rec) (in_correlationKey rec) (in_latestLifecycle rec) (in_terminal rec)
    (in_finished rec) (in_expiresAt rec) ∅.

(** Stopping the redelivery timer of an in-flight job. *)
Definition disarm (inFlight : gset nat) (a : nat) (j : inMemJob) : option inMemJob :=
  Some (if bool_decide (a ∈ inFlight) then mkMemJob (mj_job j) false (mj_settled j) else j).

Definition Close (b : Broker) : Broker :=
  if b_closed b then b
  else
    let b := signalLocked (set_closed true b) in
    let b := set_timers ∅ b in
    let b := set_jobs (map_imap (disarm (b_inFlight b)) (b_jobs b)) b in
    let b := fold_left (fun b p => each_sub sub_close (in_subs (snd p)) b) (map_to_list (b_insts b)) b in
    let b := set_insts (clear_subs <$> b_insts b) b in
    set_regSubs ∅ b.

(** ** The critical sections as one type of operations *)

(** Every critical section of the broker: the calls of [MessageBroker], the
    callbacks of its timers and goroutines, and a subscriber's receive. *)
Inductive Op : Type :=
| OSubmit (ctx : option GoError) (now : Time) (rand : Rand) (order : list string)
    (instanceID : string) (req : StartRequest)
| OCancel (ctx : option GoError) (now : Time) (rand : Rand) (order : list string) (req : CancelRequest)
| OTerminate (ctx : option GoError) (now : Time) (rand : Rand) (order : list string) (req : TerminateRequest)
| ORespond (ctx : option GoError) (now : Time) (rand : Rand) (instanceID requestID : string)
    (payload : list (string * HostValue))
| OSubscribe (now : Time) (instanceID : string)
| OCancelSub (instanceID : string) (id a : nat)
| OReceive (a : nat)
| OSubscribeRegistry (order : list string)
| OCancelRegistrySub (id : nat)
| ORegister (ctx : option GoError) (now : Time) (workerID : string) (regs : list ProcessRegistration)
| OHeartbeat (ctx : option GoError) (now : Time) (workerID : string)
| OUnregister (ctx : option GoError) (workerID : string)
| OTake (keys : list ProcessKey)
| ORequeue (a : nat)
| OReportRunning (ctx : option GoError) (now : Time) (rand : Rand) (instanceID : string)
| OReportSuspended (ctx : option GoError) (now : Time) (rand : Rand) (instanceID : string) (resumeAt : option Time)
| OResumeTimer (rand : Rand) (instanceID : string)
| OReportCompleted (ctx : option GoError) (now : Time) (rand : Rand) (instanceID : string) (res : EvaluationResult)
| OReportFailed (ctx : option GoError) (now : Time) (rand : Rand) (instanceID : string) (err : InstanceError)
| OReportCancelled (ctx : option GoError) (now : Time) (rand : Rand) (instanceID : string)
| OPostError (ctx : option GoError) (now : Time) (rand : Rand) (instanceID : string) (err : InstanceError)
| OPostInputRequest (ctx : option GoError) (now : Time) (rand : Rand) (instanceID nodeID requestID : string)
    (payload : list (string * HostValue))
| OPostNodeCompleted (ctx : option GoError) (now : Time) (rand : Rand) (instanceID nodeID nodeKind : string)
    (outputs : list (string * HostValue))
| OSweep (now : Time) (order : list string)
| OClose.

Definition err_of {A} (r : result A * Broker) : option GoError * Broker :=
  (match fst r with Ok _ => None | Err e => Some e end, snd r).

(** A subscriber's receive takes the oldest buffered event. *)
Definition receive (s : inMemSub) : inMemSub := mkSub (tail (s_ch s)) (s_cap s) (s_dropped s) (s_closed s).

Definition exec (op : Op) (b : Broker) : option GoError * Broker :=
  match op with
  | OSubmit ctx now rand order id req => err_of (Submit ctx now rand order id req b)
  | OCancel ctx now rand order req => err_of (Cancel ctx now rand order req b)
  | OTerminate ctx now rand order req => err_of (Terminate ctx now rand order req b)
  | ORespond ctx now rand i r p => err_of (RespondToInputRequest ctx now rand i r p b)
  | OSubscribe now i => err_of (SubscribeToInstance now i b)
  | OCancelSub i id a => (None, cancelInstanceSub i id a b)
  | OReceive a => (None, with_sub receive a b)
  | OSubscribeRegistry order => err_of (SubscribeToProcessRegistry order b)
  | OCancelRegistrySub id => (None, cancelRegistrySub id b)
  | ORegister ctx now w regs => err_of (RegisterProcesses ctx now w regs b)
  | OHeartbeat ctx now w => err_of (Heartbeat ctx now w b)
  | OUnregister ctx w => err_of (Unregister ctx w b)
  | OTake keys => (None, if b_closed b then b else snd (takePendingLocked keys b))
  | ORequeue a => (None, requeue a b)
  | OReportRunning ctx now rand i => err_of (ReportRunning ctx now rand i b)
  | OReportSuspended ctx now rand i t => err_of (ReportSuspended ctx now rand i t b)
  | OResumeTimer rand i => (None, resumeTimer rand i b)
  | OReportCompleted ctx now rand i res => err_of (ReportCompleted ctx now rand i res b)
  | OReportFailed ctx now rand i e => err_of (ReportFailed ctx now rand i e b)
  | OReportCancelled ctx now rand i => err_of (ReportCancelled ctx now rand i b)
  | OPostError ctx now rand i e => err_of (PostError ctx now rand i e b)
  | OPostInputRequest ctx now rand i n r p => err_of (PostInputRequest ctx now rand i n r p b)
  | OPostNodeCompleted ctx now rand i n k o => err_of (PostNodeCompleted ctx now rand i n k o b)
  | OSweep now order => (None, sweep now order b)
  | OClose => (None, Close b)
  end.

(** A run of the broker: any sequence of critical sections. *)
Definition run_ops (ops : list Op) (b : Broker) : Broker :=
  fold_left (fun b op => snd (exec op b)) ops b.

End Broker.

(** * A concrete broker

    A wire codec that is total enough to run the broker on, and a small run of
    it: one worker, one process, one submitted instance.  The theorems about the
    broker are instantiated at this run. *)

From Stdlib Require Import Strings.Byte.

#[global] Existing Instance QDecimal.

(** The codec of jobs handles the kinds whose payload is made of strings. *)
Definition job_code (j : Job) : option (ProcessKey * Z * string * string * option string) :=
  match job_body j with
  | JobStart i s [] c => Some (job_Key j, 0, i, s, c)
  | JobCancel i r => Some (job_Key j, 1, i, ""%string, r)
  | JobTerminate i r => Some (job_Key j, 2, i, ""%string, r)
  | JobResume i => Some (job_Key j, 3, i, ""%string, None)
  | JobRespondToInput i r [] => Some (job_Key j, 4, i, r, None)
  | _ => None
  end.

Definition job_decode (c : ProcessKey * Z * string * string * option string) : Job :=
  let '(k, n, i, s, r) := c in
  mkJob k (match n with
           | 0 => JobStart i s [] r
           | 1 => JobCancel i r
           | 2 => JobTerminate i r
           | 3 => JobResume i
           | _ => JobRespondToInput i s []
           end).

#[global] Instance sampleJobCbor : Cbor Job := {|
  Marshal j := match job_code j with
               | Some c => Ok (put c)
               | None => Err cbor_unsupported
               end;
  Unmarshal d := match get d with
                 | Some (c, _) => Ok (job_decode c)
                 | None => Err cbor_unsupported
                 end
|}.

Lemma sampleJobCbor_laws : CborLaws Job.
Proof.
  constructor. intros [k body] d. unfold Marshal, Unmarshal, sampleJobCbor.
  destruct (job_code _) as [c|] eqn:E; [|done]. intros Hd.
  assert (d = put c) as -> by congruence. clear Hd.
  pose proof (get_put c []) as ->%(eq_trans (f_equal get (eq_sym (app_nil_r (put c))))). f_equal.
  destruct body as [i s [|? ?] ?|i r [|? ?]| | |]; unfold job_code in E; simpl in E; simplify_eq; done.
Qed.

(** The codec of events handles lifecycle and error events, in UTC. *)
Definition phase_code (p : ProcessStatus) : Z :=
  match p with
  | ProcessStatusPending => 0 | ProcessStatusRunning => 1 | ProcessStatusSuspended => 2
  | ProcessStatusCompleted => 3 | ProcessStatusCancelled => 4 | ProcessStatusFailed => 5
  end.

Definition phase_decode (z : Z) : ProcessStatus :=
  match z with
  | 0 => ProcessStatusPending | 1 => ProcessStatusRunning | 2 => ProcessStatusSuspended
  | 3 => ProcessStatusCompleted | 4 => ProcessStatusCancelled | _ => ProcessStatusFailed
  end.

Definition event_code (e : InstanceEvent) : option (string * option string * Z * Z * Z * string * string) :=
  let header := (ev_InstanceID e, ev_CorrelationKey e, t_unix (ev_OccurredAt e), t_nsec (ev_OccurredAt e)) in
  match ev_body e with
  | InstanceEventLifecycle p => Some (header, phase_code p, ""%string, ""%string)
  | InstanceEventError err => Some (header, 6, ie_Code err, ie_Message err)
  | _ => None
  end.

Definition event_decode (c : string * option string * Z * Z * Z * string * string) : InstanceEvent :=
  let '(i, corr, u, n, tag, x, y) := c in
  mkInstanceEvent i corr (mkTime u n UTC)
    (if tag =? 6 then InstanceEventError (mkInstanceError x y) else InstanceEventLifecycle (phase_decode tag)).

#[global] Instance sampleEventCbor : Cbor InstanceEvent := {|
  Marshal e := match event_code e with
               | Some c => Ok (put c)
               | None => Err cbor_unsupported
               end;
  Unmarshal d := match get d with
                 | Some (c, _) => Ok (event_decode c)
                 | None => Err cbor_unsupported
                 end
|}.

(** One worker that runs process [p], which may be cancelled from outside. *)
Definition t0 : Time := mkTime 1700000000 0 UTC.
Definition t1 : Time := mkTime 1700000001 0 UTC.
Definition t_late : Time := mkTime 1700000200 0 UTC.

Definition sample_reg : ProcessRegistration :=
  mkProcessRegistration "ns" "p" "1" None None [mkStartEventInfo "start" "" None] []
    true false "" "" zeroTime zeroTime.

Definition sample_key : ProcessKey := mkProcessKey "ns" "p" "1".

Definition sample_request : StartRequest := mkStartRequest "ns" "p" "1" "start" [] (Some "corr"%string).

Definition sample_ops : list Op :=
  [ORegister None t0 "w1" [sample_reg]; OSubmit None t1 zeroRand ["w1"%string] "i-1" sample_request].

Definition sample_broker : Broker := run_ops sample_ops (NewInMemoryMessageBroker []).

(** The instance's start job is queued at address 1, after the registration
    slice at address 0. *)
Example sample_queue : queue_of sample_broker sample_key = [1%nat].
Proof. vm_eq. Qed.

Example sample_job :
  option_map mj_job (b_jobs sample_broker !! 1%nat) =
  Some (mkJob sample_key (JobStart "i-1" "start" [] (Some "corr"%string))).
Proof. vm_eq. Qed.
