(* ===== verification/BrokerJobs.v ===== *)
(** * The broker's job bookkeeping

    The invariant that ties the pending queues, the in-flight set and the
    per-instance index of the in-memory broker together, kept by every
    critical section, and what follows from it: no job is lost before it is
    settled, delivery is first in first out, redelivery goes to the front. *)

From stdpp Require Import relations.
From S2P Require Import Prelude Decimal GoTime Values Schema Messages Wire RegistryPump Broker.
#[global] Open Scope Z_scope.

Section BrokerJobs.
Context {DO : DecimalOps}.
Context `{!Cbor Envelope, !Cbor Job, !Cbor InstanceEvent}.

(** ** The part of the state that tracks jobs *)

(** [same_jobs b b']: [b'] has the job bookkeeping of [b]. *)
Definition same_jobs (b b' : Broker) : Prop :=
  b_queues b' = b_queues b /\ b_inFlight b' = b_inFlight b /\ b_byInst b' = b_byInst b /\
  b_jobs b' = b_jobs b /\ (b_alloc b <= b_alloc b')%nat /\ b_notify b' = b_notify b /\
  b_closed b' = b_closed b /\ b_cfg b' = b_cfg b.

#[local] Instance same_jobs_refl : Reflexive same_jobs.
Proof. intros b. repeat split; done. Qed.

#[local] Instance same_jobs_trans : Transitive same_jobs.
Proof.
  intros b1 b2 b3 (?&?&?&?&?&?&?&?) (?&?&?&?&?&?&?&?). repeat split; congruence || lia.
Qed.

Ltac sj := repeat split; simpl; done || lia.

Lemma same_jobs_fold {A} (f : Broker -> A -> Broker) l b :
  (forall b x, same_jobs b (f b x)) -> same_jobs b (fold_left f l b).
Proof.
  intros Hf. revert b. induction l as [|x l IH]; intros b; simpl; [done|].
  etrans; [apply Hf|apply IH].
Qed.

Lemma each_sub_same f subs b : same_jobs b (each_sub f subs b).
Proof. apply same_jobs_fold. intros b' x. sj. Qed.

Lemma emit_all_same kind a b : same_jobs b (emit_all kind a b).
Proof. apply same_jobs_fold. intros b' x. sj. Qed.

Lemma recordLocked_same i b : same_jobs b (snd (recordLocked i b)).
Proof. unfold recordLocked. destruct (b_insts b !! i); sj. Qed.

Lemma publishLocked_same now rand i body b : same_jobs b (publishLocked now rand i body b).
Proof.
  unfold publishLocked. pose proof (recordLocked_same i b) as Hr.
  destruct (recordLocked i b) as [rec b']. simpl in Hr.
  etrans; [exact Hr|]. etrans; [|apply each_sub_same]. sj.
Qed.

Lemma sweep_same now order b : same_jobs b (sweep now order b).
Proof.
  unfold sweep. etrans; [apply (same_jobs_fold (sweep_worker now) order)|sj].
  intros b' id. unfold sweep_worker. destruct (b_workers b' !! id) as [w|]; [|done].
  destruct (TimeAfter now (w_deadline w)); [|done].
  etrans; [|apply emit_all_same]. sj.
Qed.

Lemma SubscribeToInstance_same now i b : same_jobs b (snd (SubscribeToInstance now i b)).
Proof. unfold SubscribeToInstance. repeat dmatch; sj. Qed.

Lemma cancelInstanceSub_same i id a b : same_jobs b (cancelInstanceSub i id a b).
Proof. unfold cancelInstanceSub. repeat dmatch; sj. Qed.

Lemma SubscribeToProcessRegistry_same order b :
  same_jobs b (snd (SubscribeToProcessRegistry order b)).
Proof. unfold SubscribeToProcessRegistry. repeat dmatch; sj. Qed.

Lemma guarded_same {A} ctx b (k : result A * Broker) :
  same_jobs b (snd k) -> same_jobs b (snd (guarded ctx b k)).
Proof. unfold guarded. intros H. repeat dmatch; simpl; done. Qed.

Lemma RegisterProcesses_same ctx now w regs b :
  same_jobs b (snd (RegisterProcesses ctx now w regs b)).
Proof.
  apply guarded_same. destruct (b_workers b !! w) as [wk|].
  - destruct (stamp_regs w now (w_firstReg wk) regs) as [fr rs]. cbn [snd].
    etrans; [|apply emit_all_same]. etrans; [apply (emit_all_same RegistryUpdateRemoved (w_regs wk))|]. sj.
  - destruct (stamp_regs w now ∅ regs) as [fr rs]. cbn [snd]. etrans; [|apply emit_all_same]. sj.
Qed.

Lemma Heartbeat_same ctx now w b : same_jobs b (snd (Heartbeat ctx now w b)).
Proof. apply guarded_same. destruct (b_workers b !! w); sj. Qed.

Lemma Unregister_same ctx w b : same_jobs b (snd (Unregister ctx w b)).
Proof.
  apply guarded_same. destruct (b_workers b !! w) as [wk|]; [|sj]. simpl.
  etrans; [|apply emit_all_same]. sj.
Qed.

(** ** The invariant *)

Definition queued (b : Broker) (a : nat) : Prop := exists k, a ∈ queue_of b k.

Record wf_jobs (b : Broker) : Prop := {
  wf_fresh a j : b_jobs b !! a = Some j -> (a < b_alloc b)%nat;
  wf_queue_nodup k : NoDup (queue_of b k);
  wf_queue_job k a : a ∈ queue_of b k ->
    exists j, b_jobs b !! a = Some j /\ job_Key (mj_job j) = k /\ mj_settled j = false /\
              a ∉ b_inFlight b;
  wf_flight_set a : a ∈ b_inFlight b <-> exists inst, a ∈ flight_of b inst;
  wf_flight_nodup inst : NoDup (flight_of b inst);
  wf_flight_job inst a : a ∈ flight_of b inst ->
    exists j, b_jobs b !! a = Some j /\ Job_InstanceID (mj_job j) = inst /\ mj_settled j = false;
  wf_byInst_nonempty inst : b_byInst b !! inst <> Some []
}.

Lemma same_jobs_queue b b' k : same_jobs b b' -> queue_of b' k = queue_of b k.
Proof. intros (Hq & _). unfold queue_of. by rewrite Hq. Qed.

Lemma same_jobs_flight b b' i : same_jobs b b' -> flight_of b' i = flight_of b i.
Proof. intros (_ & _ & Hq & _). unfold flight_of. by rewrite Hq. Qed.

Lemma same_jobs_wf b b' : same_jobs b b' -> wf_jobs b -> wf_jobs b'.
Proof.
  intros Hs [H1 H2 H3 H4 H5 H6 H7].
  pose proof Hs as (Hq & Hf & Hb & Hj & Ha & _).
  split; intros.
  - rewrite Hj in *. apply H1 in H. lia.
  - rewrite (same_jobs_queue _ _ _ Hs). apply H2.
  - rewrite (same_jobs_queue _ _ _ Hs) in H. rewrite Hj, Hf. by apply H3.
  - rewrite Hf, H4. split; intros [i Hi]; exists i; [rewrite (same_jobs_flight _ _ _ Hs)|rewrite (same_jobs_flight _ _ _ Hs) in Hi]; done.
  - rewrite (same_jobs_flight _ _ _ Hs). apply H5.
  - rewrite (same_jobs_flight _ _ _ Hs) in H. rewrite Hj. by apply H6.
  - rewrite Hb. apply H7.
Qed.

Lemma wf_jobs_new opts : wf_jobs (NewInMemoryMessageBroker opts).
Proof.
  unfold NewInMemoryMessageBroker. split; unfold queue_of, flight_of; simpl; intros;
    rewrite ?lookup_empty in *; simpl in *; try done; try set_solver.
  all: first [constructor|split; [set_solver|intros [i Hi]; rewrite lookup_empty in Hi; set_solver]].
Qed.

Lemma lookup_insert_default {K V} `{Countable K} (m : gmap K (list V)) k v k' :
  default [] (<[k := v]> m !! k') = if decide (k = k') then v else default [] (m !! k').
Proof. rewrite lookup_insert. by destruct (decide (k = k')). Qed.

Lemma lookup_delete_default {K V} `{Countable K} (m : gmap K (list V)) k k' :
  default [] (delete k m !! k') = if decide (k = k') then [] else default [] (m !! k').
Proof. rewrite lookup_delete. by destruct (decide (k = k')). Qed.

Lemma wf_queued_lt b k a : wf_jobs b -> a ∈ queue_of b k -> (a < b_alloc b)%nat.
Proof. intros Hw Ha. destruct (wf_queue_job b Hw _ _ Ha) as (j & Hj & _). by eapply wf_fresh. Qed.

Lemma wf_flight_lt b a : wf_jobs b -> a ∈ b_inFlight b -> (a < b_alloc b)%nat.
Proof.
  intros Hw Ha. apply (wf_flight_set b Hw) in Ha as [i Hi].
  destruct (wf_flight_job b Hw _ _ Hi) as (j & Hj & _). by eapply wf_fresh.
Qed.

Lemma wf_queue_unique b k k' a :
  wf_jobs b -> a ∈ queue_of b k -> a ∈ queue_of b k' -> k = k'.
Proof.
  intros Hw H1 H2. destruct (wf_queue_job b Hw _ _ H1) as (j & Hj & <- & _).
  destruct (wf_queue_job b Hw _ _ H2) as (j' & Hj' & <- & _). congruence.
Qed.

Lemma wf_flight_unique b i i' a :
  wf_jobs b -> a ∈ flight_of b i -> a ∈ flight_of b i' -> i = i'.
Proof.
  intros Hw H1 H2. destruct (wf_flight_job b Hw _ _ H1) as (j & Hj & <- & _).
  destruct (wf_flight_job b Hw _ _ H2) as (j' & Hj' & <- & _). congruence.
Qed.

(** ** Enqueueing *)

Lemma enqueueLocked_wf rand job b : wf_jobs b -> wf_jobs (snd (enqueueLocked rand job b)).
Proof.
  intros Hw. unfold enqueueLocked. destruct (roundTripJob rand b job) as [rt|e]; [|done].
  cbn [snd]. set (a := b_alloc b).
  assert (Hnq : forall k, a ∉ queue_of b k) by (intros k Ha; apply wf_queued_lt in Ha; [unfold a in Ha; lia|done]).
  assert (Hnf : a ∉ b_inFlight b) by (intros Ha; apply wf_flight_lt in Ha; [unfold a in Ha; lia|done]).
  destruct Hw as [H1 H2 H3 H4 H5 H6 H7]. unfold queue_of, flight_of in *.
  split; simpl; unfold queue_of, flight_of; simpl; try done.
  - intros a' j. rewrite lookup_insert_Some. intros [[<- _]|[_ Hj]]; [lia|].
    apply H1 in Hj. unfold a. lia.
  - intros k. rewrite lookup_insert_default. destruct (decide (job_Key rt = k)); [|apply H2].
    apply NoDup_app. split; [apply H2|]. split; [|apply NoDup_singleton].
    intros x Hx ->%list_elem_of_singleton. by eapply Hnq.
  - intros k a'. rewrite lookup_insert_default. destruct (decide (job_Key rt = k)) as [<-|].
    + rewrite elem_of_app, list_elem_of_singleton. intros [Ha| ->].
      * destruct (H3 _ _ Ha) as (j & Hj & ?). exists j. rewrite lookup_insert_ne; [done|].
        intros <-. by eapply Hnq.
      * eexists. split; [by rewrite lookup_insert_eq|done].
    + intros Ha. destruct (H3 _ _ Ha) as (j & Hj & ?). exists j. rewrite lookup_insert_ne; [done|].
      intros <-. by eapply Hnq.
  - intros i a' Ha. destruct (H6 _ _ Ha) as (j & Hj & ?). exists j. rewrite lookup_insert_ne; [done|].
    intros <-. apply Hnf, H4. eauto.
Qed.

(** ** Taking *)

Lemma takePendingLocked_wf keys b : wf_jobs b -> wf_jobs (snd (takePendingLocked keys b)).
Proof.
  intros Hw. induction keys as [|k keys IH]; simpl; [done|].
  destruct (queue_of b k) as [|a q] eqn:Eq; [exact IH|].
  destruct (b_jobs b !! a) as [j|] eqn:Ej; [|done]. cbn [snd].
  set (inst := Job_InstanceID (mj_job j)).
  assert (Hin : a ∈ queue_of b k) by (rewrite Eq; set_solver).
  destruct (wf_queue_job b Hw _ _ Hin) as (j' & Hj' & Hk & Hset & Hnf).
  rewrite Ej in Hj'. injection Hj' as <-.
  assert (Hq : forall k' a', a' ∈ queue_of b k' -> k' <> k -> a' <> a).
  { intros k' a' Ha' Hne ->. exact (Hne (wf_queue_unique b k' k a Hw Ha' Hin)). }
  assert (Hnfi : forall i, a ∉ flight_of b i).
  { intros i Hi. apply Hnf. apply (wf_flight_set b Hw). eauto. }
  destruct Hw as [H1 H2 H3 H4 H5 H6 H7].
  pose proof (H2 k) as Hnd. rewrite Eq, NoDup_cons in Hnd. destruct Hnd as [Hna Hnd].
  unfold queue_of, flight_of in *. split; simpl; unfold queue_of, flight_of; simpl.
  - intros a' j'. rewrite lookup_insert_Some. intros [[<- _]|[_ Hj]]; eauto.
  - intros k'. rewrite lookup_insert_default. by destruct (decide (k = k')).
  - intros k' a'. rewrite lookup_insert_default. destruct (decide (k = k')) as [<-|Hne].
    + intros Ha'. assert (Hne : a' <> a) by (intros ->; done).
      destruct (H3 k a') as (j' & Hj' & ? & ? & ?); [rewrite Eq; set_solver|].
      exists j'. rewrite lookup_insert_ne by done. set_solver.
    + intros Ha'. pose proof (Hq _ _ Ha' (not_eq_sym Hne)).
      destruct (H3 _ _ Ha') as (j' & Hj' & ? & ? & ?). exists j'.
      rewrite lookup_insert_ne by done. set_solver.
  - intros a'. rewrite elem_of_union, elem_of_singleton, H4. split.
    + intros [->|[i Hi]].
      * exists inst. rewrite lookup_insert_default, decide_True by done. set_solver.
      * exists i. rewrite lookup_insert_default. destruct (decide (inst = i)) as [<-|]; set_solver.
    + intros [i Hi]. rewrite lookup_insert_default in Hi.
      destruct (decide (inst = i)) as [<-|]; set_solver.
  - intros i. rewrite lookup_insert_default. destruct (decide (inst = i)) as [<-|]; [|apply H5].
    apply NoDup_app. split; [apply H5|]. split; [|apply NoDup_singleton].
    intros x Hx ->%list_elem_of_singleton. by eapply Hnfi.
  - intros i a'. rewrite lookup_insert_default. destruct (decide (inst = i)) as [<-|].
    + rewrite elem_of_app, list_elem_of_singleton. intros [Ha'| ->].
      * destruct (H6 _ _ Ha') as (j' & ? & ?). exists j'. rewrite lookup_insert_ne; [done|].
        intros <-. by eapply Hnfi.
      * eexists. split; [by rewrite lookup_insert_eq|done].
    + intros Ha'. destruct (H6 _ _ Ha') as (j' & ? & ?). exists j'. rewrite lookup_insert_ne; [done|].
      intros <-. by eapply Hnfi.
  - intros i. rewrite lookup_insert. destruct (decide (inst = i)); [|apply H7].
    intros [= Hc]. by destruct (default [] (b_byInst b !! inst)).
Qed.

(** ** Requeueing *)

Lemma remove_first_Some {A} (P : A -> bool) l l' :
  remove_first P l = Some l' ->
  exists l1 x l2, l = l1 ++ x :: l2 /\ l' = l1 ++ l2 /\ P x = true.
Proof.
  revert l'; induction l as [|y l IH]; intros l'; simpl; [done|].
  destruct (P y) eqn:Ey.
  - intros [= <-]. by exists [], y, l.
  - destruct (remove_first P l) as [l''|]; simpl; [|done]. intros [= <-].
    destruct (IH _ eq_refl) as (l1 & x & l2 & -> & -> & ?). by exists (y :: l1), x, l2.
Qed.

Lemma remove_first_None {A} (P : A -> bool) l x :
  remove_first P l = None -> x ∈ l -> P x = false.
Proof.
  induction l as [|y l IH]; simpl; [set_solver|].
  destruct (P y) eqn:Ey; [done|]. destruct (remove_first P l); [done|]. intros _.
  rewrite elem_of_cons. intros [->|]; auto.
Qed.

(** Removing an address from a duplicate-free list. *)
Lemma remove_first_nat a l :
  NoDup l -> a ∈ l ->
  exists l', remove_first (Nat.eqb a) l = Some l' /\ NoDup l' /\ (forall x, x ∈ l' <-> x ∈ l /\ x <> a).
Proof.
  intros Hnd Ha. destruct (remove_first (Nat.eqb a) l) as [l'|] eqn:E.
  - exists l'. split; [done|]. apply remove_first_Some in E as (l1 & x & l2 & -> & -> & Hx).
    apply Nat.eqb_eq in Hx as <-. rewrite NoDup_app, NoDup_cons in Hnd.
    destruct Hnd as (H1 & H2 & H3 & H4). split; [|set_solver].
    apply NoDup_app. set_solver.
  - pose proof (remove_first_None _ _ _ E Ha) as Hf. by rewrite Nat.eqb_refl in Hf.
Qed.

Lemma releaseLocked_flight a j b i :
  wf_jobs b -> b_jobs b !! a = Some j -> a ∈ b_inFlight b ->
  NoDup (flight_of (releaseLocked a j b) i) /\
  b_byInst (releaseLocked a j b) !! i <> Some [] /\
  (forall x, x ∈ flight_of (releaseLocked a j b) i <-> x ∈ flight_of b i /\ x <> a).
Proof.
  intros Hw Hj Ha. apply (wf_flight_set b Hw) in Ha as [i0 Hi0].
  assert (Hinst : Job_InstanceID (mj_job j) = i0).
  { destruct (wf_flight_job b Hw _ _ Hi0) as (j' & Hj' & <- & _). congruence. }
  unfold releaseLocked. rewrite Hinst.
  assert (Hf : forall bb, b_byInst bb = b_byInst b -> flight_of bb i0 = flight_of b i0)
    by (intros bb E; unfold flight_of; by rewrite E).
  rewrite !Hf by done.
  destruct (remove_first_nat a _ (wf_flight_nodup b Hw i0) Hi0) as (l' & -> & Hnd & Hl).
  assert (Hother : i <> i0 -> forall x, x ∈ flight_of b i <-> x ∈ flight_of b i /\ x <> a).
  { intros Hne x. split; [|tauto]. intros Hx. split; [done|]. intros ->.
    apply Hne. exact (wf_flight_unique b i i0 a Hw Hx Hi0). }
  pose proof (wf_flight_nodup b Hw i). pose proof (wf_byInst_nonempty b Hw i).
  unfold flight_of in *. simpl. destruct l' as [|y l'']; simpl.
  - rewrite lookup_delete_default, lookup_delete. destruct (decide (i0 = i)) as [<-|].
    + split; [constructor|]. split; [done|]. intros x. rewrite <- Hl. set_solver.
    + auto.
  - rewrite lookup_insert_default, lookup_insert. destruct (decide (i0 = i)) as [<-|]; auto.
Qed.

Lemma releaseLocked_fields a j b :
  b_queues (releaseLocked a j b) = b_queues b /\
  b_inFlight (releaseLocked a j b) = b_inFlight b ∖ {[a]} /\
  b_jobs (releaseLocked a j b) = <[a := mkMemJob (mj_job j) false (mj_settled j)]> (b_jobs b) /\
  b_alloc (releaseLocked a j b) = b_alloc b.
Proof. unfold releaseLocked. by destruct (default _ _). Qed.

Lemma queue_of_insert b k q k' :
  queue_of (signalLocked (set_queues (<[k := q]> (b_queues b)) b)) k' =
  if decide (k = k') then q else queue_of b k'.
Proof. unfold queue_of. simpl. apply lookup_insert_default. Qed.

Lemma requeue_wf a b : wf_jobs b -> wf_jobs (requeue a b).
Proof.
  intros Hw. unfold requeue. destruct (b_jobs b !! a) as [j|] eqn:Ej; [|done].
  destruct (b_closed b || mj_settled j) eqn:Ec; [done|]. apply orb_false_iff in Ec as [_ Hset].
  case_bool_decide as Ha; [|done].
  pose proof (releaseLocked_fields a j b) as (Fq & Ff & Fj & Fa).
  pose proof (fun i => releaseLocked_flight a j b i Hw Ej Ha) as Hfl.
  assert (Hnq : forall k, a ∉ queue_of b k).
  { intros k Hk. by destruct (wf_queue_job b Hw _ _ Hk) as (_ & _ & _ & _ & ?). }
  set (b' := releaseLocked a j b) in *. destruct Hw as [H1 H2 H3 H4 H5 H6 H7].
  assert (Hq : forall k, queue_of b' k = queue_of b k) by (intros k; unfold queue_of; by rewrite Fq).
  split.
  - intros a' j'. simpl. rewrite Fj, Fa, lookup_insert_Some. intros [[<- _]|[_ ?]]; eauto.
  - intros k. rewrite queue_of_insert, !Hq.
    destruct (decide (_ = k)) as [<-|]; [|apply H2]. apply NoDup_cons. auto.
  - intros k a'. rewrite queue_of_insert, !Hq. simpl. rewrite Fj, Ff.
    assert (Hold : forall k, a' ∈ queue_of b k -> exists j', <[a := mkMemJob (mj_job j) false (mj_settled j)]> (b_jobs b) !! a' = Some j' /\
      job_Key (mj_job j') = k /\ mj_settled j' = false /\ a' ∉ b_inFlight b ∖ {[a]}).
    { intros k' Hk'. destruct (H3 _ _ Hk') as (j' & ? & ? & ? & ?). exists j'.
      rewrite lookup_insert_ne by (intros <-; by eapply Hnq). set_solver. }
    destruct (decide (_ = k)) as [<-|]; [|apply Hold]. rewrite elem_of_cons. intros [->|?]; [|auto].
    eexists. split; [by rewrite lookup_insert_eq|]. simpl. set_solver.
  - intros a'. simpl. rewrite Ff, elem_of_difference, elem_of_singleton, H4.
    unfold flight_of in *. simpl. split.
    + intros [[i Hi] Hne]. exists i. by apply (Hfl i).
    + intros [i Hi]. apply (Hfl i) in Hi as [? ?]. eauto.
  - intros i. apply (Hfl i).
  - intros i a' Ha'. apply (Hfl i) in Ha' as [Hi Hne]. simpl. rewrite Fj.
    destruct (H6 _ _ Hi) as (j' & ? & ?). exists j'. by rewrite lookup_insert_ne.
  - intros i. apply (Hfl i).
Qed.

(** ** Settling and removing *)

Lemma settle_fold js b :
  let b' := fold_left (fun b a =>
      set_inFlight (b_inFlight b ∖ {[a]}) (set_jobs (alter settle_job a (b_jobs b)) b)) js b in
  b_queues b' = b_queues b /\ b_byInst b' = b_byInst b /\ b_alloc b' = b_alloc b /\
  b_notify b' = b_notify b /\ b_closed b' = b_closed b /\ b_cfg b' = b_cfg b /\
  (forall a, a ∈ b_inFlight b' <-> a ∈ b_inFlight b /\ a ∉ js) /\
  (forall a, b_jobs b' !! a = if bool_decide (a ∈ js) then settle_job <$> b_jobs b !! a else b_jobs b !! a).
Proof.
  revert b. induction js as [|x js IH]; intros b; cbn [fold_left].
  - repeat split; try done; set_solver.
  - destruct (IH (set_inFlight (b_inFlight b ∖ {[x]}) (set_jobs (alter settle_job x (b_jobs b)) b)))
      as (-> & -> & -> & -> & -> & -> & Hf & Hj). repeat split; try done; simpl in *.
    + rewrite Hf in H. set_solver.
    + rewrite Hf in H. set_solver.
    + intros [? ?]. apply Hf. set_solver.
    + intros a. rewrite Hj. destruct (decide (a = x)) as [->|Hne].
      * rewrite lookup_alter_eq, (bool_decide_true (x ∈ x :: js)) by set_solver.
        case_bool_decide; [|done]. by destruct (b_jobs b !! x).
      * rewrite lookup_alter_ne by done. by rewrite (bool_decide_ext (a ∈ x :: js) (a ∈ js)) by set_solver.
Qed.

Lemma settle_fields i b :
  let b' := settleInstanceLocked i b in
  b_queues b' = b_queues b /\ b_alloc b' = b_alloc b /\ b_notify b' = b_notify b /\
  b_closed b' = b_closed b /\ b_cfg b' = b_cfg b /\
  b_byInst b' = delete i (b_byInst b) /\
  (forall a, a ∈ b_inFlight b' <-> a ∈ b_inFlight b /\ a ∉ flight_of b i) /\
  (forall a, b_jobs b' !! a =
     if bool_decide (a ∈ flight_of b i) then settle_job <$> b_jobs b !! a else b_jobs b !! a).
Proof.
  unfold settleInstanceLocked.
  destruct (settle_fold (flight_of b i) b) as (? & Hb & ? & ? & ? & ? & ? & ?).
  simpl. rewrite Hb. auto 10.
Qed.

Lemma settle_wf i b : wf_jobs b -> wf_jobs (settleInstanceLocked i b).
Proof.
  intros Hw. pose proof (settle_fields i b) as (Fq & Fa & _ & _ & _ & Fb & Ff & Fj).
  set (b' := settleInstanceLocked i b) in *.
  assert (Hnq : forall k a, a ∈ queue_of b k -> a ∉ flight_of b i).
  { intros k a Hk Hi. destruct (wf_queue_job b Hw _ _ Hk) as (_ & _ & _ & _ & Hn).
    apply Hn. apply (wf_flight_set b Hw). eauto. }
  assert (Hni : forall i' a, i <> i' -> a ∈ flight_of b i' -> a ∉ flight_of b i).
  { intros i' a Hne H1 H2. apply Hne. exact (wf_flight_unique b i i' a Hw H2 H1). }
  assert (Hq : forall k, queue_of b' k = queue_of b k) by (intros k; unfold queue_of; by rewrite Fq).
  assert (Hf : forall i', flight_of b' i' = if decide (i = i') then [] else flight_of b i')
    by (intros i'; unfold flight_of; by rewrite Fb, lookup_delete_default).
  destruct Hw as [H1 H2 H3 H4 H5 H6 H7]. split.
  - intros a j. rewrite Fj, Fa. case_bool_decide; [|apply H1].
    destruct (b_jobs b !! a) eqn:E; [|done]. intros _. by eapply H1.
  - intros k. rewrite Hq. apply H2.
  - intros k a. rewrite Hq. intros Hk. destruct (H3 _ _ Hk) as (j & ? & ? & ? & ?). exists j.
    rewrite Fj, bool_decide_false by eauto. rewrite Ff. tauto.
  - intros a. rewrite Ff, H4. split.
    + intros [[i' Hi'] Hn]. exists i'. rewrite Hf. destruct (decide (i = i')) as [<-|]; done.
    + intros [i' Hi']. rewrite Hf in Hi'. destruct (decide (i = i')); [set_solver|]. eauto.
  - intros i'. rewrite Hf. destruct (decide (i = i')); [constructor|apply H5].
  - intros i' a. rewrite Hf, Fj. destruct (decide (i = i')) as [|Hne]; [set_solver|].
    intros Ha. rewrite bool_decide_false by eauto. by apply H6.
  - intros i'. rewrite Fb, lookup_delete. destruct (decide (i = i')); [done|apply H7].
Qed.

Lemma remove_wf k i b b' :
  wf_jobs b -> removeQueuedStartLocked k i b = Some b' -> wf_jobs b'.
Proof.
  intros [H1 H2 H3 H4 H5 H6 H7]. unfold removeQueuedStartLocked.
  destruct (remove_first _ _) as [q|] eqn:E; [|done]. intros [= <-].
  apply remove_first_Some in E as (l1 & x & l2 & Hq & -> & _).
  pose proof (H2 k) as Hnd. rewrite Hq, NoDup_app, NoDup_cons in Hnd.
  unfold queue_of in *. split; simpl; unfold queue_of; simpl; try done.
  - intros k'. rewrite lookup_insert_default. destruct (decide (k = k')); [|apply H2].
    apply NoDup_app. set_solver.
  - intros k' a. rewrite lookup_insert_default. destruct (decide (k = k')) as [<-|]; [|apply H3].
    intros Ha. apply H3. rewrite Hq. set_solver.
Qed.

(** ** Every critical section keeps the invariant *)

Lemma Close_fold_same l b :
  same_jobs b (fold_left (fun b (p : string * inMemInstance) => each_sub sub_close (in_subs (snd p)) b) l b).
Proof. apply same_jobs_fold. intros b' x. apply each_sub_same. Qed.

(** What [each_sub] does to the subscribers. *)
Definition alter_all (f : inMemSub -> inMemSub) (l : list (nat * nat)) (m : gmap nat inMemSub) :=
  fold_left (fun m p => alter f (snd p) m) l m.

Lemma set_subs_id b : set_subs (b_subs b) b = b.
Proof. by destruct b. Qed.

Lemma each_sub_set f subs b :
  each_sub f subs b = set_subs (alter_all f (map_to_list subs) (b_subs b)) b.
Proof.
  unfold each_sub, alter_all. revert b. induction (map_to_list subs) as [|p l IH]; intros b; simpl.
  - by rewrite set_subs_id.
  - by rewrite IH.
Qed.

Lemma Close_subs_set l b :
  fold_left (fun b (p : string * inMemInstance) => each_sub sub_close (in_subs (snd p)) b) l b =
  set_subs (fold_left (fun m (p : string * inMemInstance) =>
    alter_all sub_close (map_to_list (in_subs (snd p))) m) l (b_subs b)) b.
Proof.
  revert b. induction l as [|p l IH]; intros b; simpl; [by rewrite set_subs_id|].
  by rewrite IH, each_sub_set.
Qed.

(** The bookkeeping after [Close]: only timers are disarmed. *)
Lemma Close_jobs b :
  b_closed b = false ->
  b_queues (Close b) = b_queues b /\ b_inFlight (Close b) = b_inFlight b /\
  b_byInst (Close b) = b_byInst b /\ b_alloc (Close b) = b_alloc b /\ b_closed (Close b) = true /\
  b_jobs (Close b) = map_imap (disarm (b_inFlight b)) (b_jobs b).
Proof.
  intros Hc. unfold Close. rewrite Hc. cbv zeta.
  match goal with |- context [fold_left ?f ?l ?b0] =>
    pose proof (Close_fold_same l b0) as (? & ? & ? & ? & Ha & ? & ? & _);
    assert (b_alloc (fold_left f l b0) = b_alloc b0) as Ha'
  end.
  { rewrite Close_subs_set. done. }
  simpl in *. repeat split; congruence.
Qed.

Lemma Close_wf b : wf_jobs b -> wf_jobs (Close b).
Proof.
  intros Hw. destruct (b_closed b) eqn:Hc; [unfold Close; by rewrite Hc|].
  destruct (Close_jobs b Hc) as (Fq & Ff & Fb & Fa & _ & Fj).
  assert (Hj : forall a j, b_jobs b !! a = Some j -> exists j', b_jobs (Close b) !! a = Some j' /\
    mj_job j' = mj_job j /\ mj_settled j' = mj_settled j).
  { intros a j Hj. rewrite Fj, map_lookup_imap, Hj. simpl. unfold disarm.
    case_bool_decide; eauto. }
  destruct Hw as [H1 H2 H3 H4 H5 H6 H7].
  split; unfold queue_of, flight_of in *; rewrite ?Fq, ?Ff, ?Fb; try done.
  - intros a j. rewrite Fj, Fa, map_lookup_imap.
    destruct (b_jobs b !! a) eqn:E; [|done]. intros _. by eapply H1.
  - intros k a Hk. destruct (H3 _ _ Hk) as (j & Hj1 & ? & ? & ?).
    destruct (Hj _ _ Hj1) as (j' & ? & ? & ?). exists j'. repeat split; congruence.
  - intros i a Hi. destruct (H6 _ _ Hi) as (j & Hj1 & ? & ?).
    destruct (Hj _ _ Hj1) as (j' & ? & ? & ?). exists j'. repeat split; congruence.
Qed.

(** ** Critical sections as sequences of bookkeeping steps *)

(** The instance whose in-flight jobs an operation settles. *)
Definition settling_instance (op : Op) : option string :=
  match op with
  | OCancel _ _ _ _ req => Some (cr_InstanceID req)
  | OReportSuspended _ _ _ i _ | OReportCompleted _ _ _ i _ | OReportFailed _ _ _ i _
  | OReportCancelled _ _ _ i => Some i
  | _ => None
  end.

Definition is_cancel (op : Op) : bool := match op with OCancel _ _ _ _ _ => true | _ => false end.

(** The steps an operation [op] is made of, as far as jobs are concerned. *)
Inductive prim (op : Op) : Broker -> Broker -> Prop :=
| prim_same b b' : same_jobs b b' -> prim op b b'
| prim_enqueue rand job b : prim op b (snd (enqueueLocked rand job b))
| prim_take keys b : prim op b (snd (takePendingLocked keys b))
| prim_requeue a b : op = ORequeue a -> prim op b (requeue a b)
| prim_settle i b : settling_instance op = Some i -> prim op b (settleInstanceLocked i b)
| prim_remove k i b b' :
    is_cancel op = true -> settling_instance op = Some i ->
    removeQueuedStartLocked k i b = Some b' -> prim op b b'
| prim_close b : op = OClose -> prim op b (Close b).

Lemma prims_same op b b' : same_jobs b b' -> rtc (prim op) b b'.
Proof. intros H. apply rtc_once. by constructor. Qed.

Lemma prims_publish op now rand i body b : rtc (prim op) b (publishLocked now rand i body b).
Proof. apply prims_same, publishLocked_same. Qed.

Lemma prims_enqueue op rand job b : rtc (prim op) b (snd (enqueueLocked rand job b)).
Proof. apply rtc_once, prim_enqueue. Qed.

Lemma prims_guarded {A} op ctx b (k : result A * Broker) :
  rtc (prim op) b (snd k) -> rtc (prim op) b (snd (guarded ctx b k)).
Proof. unfold guarded. intros. repeat dmatch; simpl; done. Qed.

Lemma prims_report op ctx i fn b : rtc (prim op) b (fn b) -> rtc (prim op) b (snd (report ctx i fn b)).
Proof. unfold report. intros. repeat dmatch; simpl; done. Qed.

(** What [finishLocked] does after settling leaves the bookkeeping alone. *)
Lemma finishLocked_same now rand i phase extra b :
  same_jobs (settleInstanceLocked i b) (finishLocked now rand i phase extra b).
Proof.
  unfold finishLocked.
  set (b1 := set_timers _ _). assert (Hs : same_jobs (settleInstanceLocked i b) b1) by sj.
  pose proof (recordLocked_same i b1) as Hr. destruct (recordLocked i b1) as [rec b2]. simpl in Hr.
  etrans; [exact Hs|]. etrans; [exact Hr|].
  destruct (in_finished rec); [done|]. etrans; [|apply each_sub_same].
  etrans; [apply (publishLocked_same now rand i (InstanceEventLifecycle phase))|].
  destruct extra; [etrans; [apply publishLocked_same|sj]|sj].
Qed.

Lemma prims_finish op now rand i phase extra b :
  settling_instance op = Some i -> rtc (prim op) b (finishLocked now rand i phase extra b).
Proof.
  intros Hi. eapply rtc_l; [by apply (prim_settle op i)|]. apply prims_same, finishLocked_same.
Qed.

Lemma prims_Submit op ctx now rand order id req b :
  rtc (prim op) b (snd (Submit ctx now rand order id req b)).
Proof.
  apply prims_guarded. cbv zeta.
  destruct (liveRegistrationLocked _ _ _ _) as [reg|]; [|done].
  destruct (List.find _ _) as [start|]; [|done].
  destruct (match se_InputContract start with Some _ => _ | None => _ end); [done|].
  set (b1 := set_insts _ b).
  pose proof (prims_enqueue op rand (mkJob (StartRequest_Key req)
    (JobStart id (sr_StartID req) (sr_Input req) (sr_CorrelationKey req))) b1) as Hk.
  etrans; [apply (prims_same op b b1); sj|].
  destruct (enqueueLocked _ _ b1) as [[e|] b2]; simpl in *; (etrans; [exact Hk|]);
    [apply prims_same; sj|apply prims_publish].
Qed.

Lemma exec_prims op b : rtc (prim op) b (snd (exec op b)).
Proof.
  destruct op; simpl; try (apply prims_same; sj).
  - apply prims_Submit.
  - apply prims_guarded. cbv zeta. destruct (liveRegistrationLocked _ _ _ _) as [reg|]; [|done].
    destruct (removeQueuedStartLocked _ _ b) as [b'|] eqn:Er; simpl.
    + eapply rtc_l; [|by apply prims_finish]. by eapply prim_remove.
    + destruct (pr_AllowExternalCancel reg); simpl; [apply prims_enqueue|done].
  - apply prims_guarded. cbv zeta. destruct (liveRegistrationLocked _ _ _ _) as [reg|]; [|done].
    destruct (pr_AllowExternalTerminate reg); simpl; [apply prims_enqueue|done].
  - apply prims_guarded. destruct (b_insts b !! instanceID) as [rec|]; [|apply prims_publish].
    destruct (in_finished rec); [apply prims_publish|apply prims_enqueue].
  - apply prims_same, SubscribeToInstance_same.
  - apply prims_same, cancelInstanceSub_same.
  - apply prims_same, SubscribeToProcessRegistry_same.
  - apply prims_same, RegisterProcesses_same.
  - apply prims_same, Heartbeat_same.
  - apply prims_same, Unregister_same.
  - destruct (b_closed b); [done|]. apply rtc_once, prim_take.
  - by apply rtc_once, prim_requeue.
  - apply prims_report, prims_publish.
  - apply prims_report. etrans; [apply (prims_publish _ now rand instanceID (InstanceEventLifecycle ProcessStatusSuspended))|].
    eapply rtc_l; [by apply (prim_settle _ instanceID)|]. destruct resumeAt; apply prims_same; sj.
  - unfold resumeTimer. simpl. etrans; [apply (prims_same _ b (set_timers (delete instanceID (b_timers b)) b)); sj|].
    destruct (b_insts b !! instanceID); [|done]. destruct (b_closed b || _); [done|]. apply prims_enqueue.
  - by apply prims_report, prims_finish.
  - by apply prims_report, prims_finish.
  - by apply prims_report, prims_finish.
  - apply prims_report, prims_publish.
  - apply prims_report, prims_publish.
  - apply prims_report, prims_publish.
  - apply prims_same, sweep_same.
  - by apply rtc_once, prim_close.
Qed.

Lemma prim_wf op b b' : prim op b b' -> wf_jobs b -> wf_jobs b'.
Proof.
  destruct 1; eauto using same_jobs_wf, enqueueLocked_wf, takePendingLocked_wf, requeue_wf,
    settle_wf, remove_wf, Close_wf.
Qed.

Lemma exec_wf op b : wf_jobs b -> wf_jobs (snd (exec op b)).
Proof. intros Hw. induction (exec_prims op b); eauto using prim_wf. Qed.

Lemma run_ops_wf ops b : wf_jobs b -> wf_jobs (run_ops ops b).
Proof.
  unfold run_ops. revert b. induction ops as [|op ops IH]; intros b Hw; simpl; [done|].
  by apply IH, exec_wf.
Qed.

(** ** What is kept *)

(** A job is live while it is queued or in flight. *)
Definition live (b : Broker) (a : nat) : Prop := queued b a \/ a ∈ b_inFlight b.
Definition job_at (b : Broker) (a : nat) : option Job := mj_job <$> b_jobs b !! a.

(** [keeps E b b']: every live job of [b] outside [E] is live in [b']. *)
Definition keeps (E : nat -> Prop) (b b' : Broker) : Prop :=
  forall a j, live b a -> job_at b a = Some j -> (live b' a /\ job_at b' a = Some j) \/ E a.

Lemma keeps_refl E b : keeps E b b.
Proof. intros a j ??. by left. Qed.

Lemma keeps_trans E b1 b2 b3 : keeps E b1 b2 -> keeps E b2 b3 -> keeps E b1 b3.
Proof. intros H1 H2 a j Hl Hj. destruct (H1 a j Hl Hj) as [[? ?]|?]; [by apply H2|by right]. Qed.

Lemma same_jobs_keeps E b b' : same_jobs b b' -> keeps E b b'.
Proof.
  intros Hs a j Hl Hj. left. pose proof Hs as (Hq & Hf & _ & Hj' & _).
  unfold live, job_at, queued. rewrite Hf, Hj'. split; [|done].
  destruct Hl as [[k Hk]|]; [left|by right]. exists k. by rewrite (same_jobs_queue _ _ _ Hs).
Qed.

Lemma enqueueLocked_keeps E rand job b :
  wf_jobs b -> keeps E b (snd (enqueueLocked rand job b)).
Proof.
  intros Hw. unfold enqueueLocked. destruct (roundTripJob rand b job) as [rt|e]; [|apply keeps_refl].
  cbn [snd]. intros a j Hl Hj. left.
  assert (Hlt : a <> b_alloc b).
  { destruct Hl as [[k Hk]|Hf]; [apply wf_queued_lt in Hk|apply wf_flight_lt in Hf]; done || lia. }
  unfold live, queued, job_at in *. split; [|simpl; by rewrite lookup_insert_ne by done].
  destruct Hl as [[k Hk]|?]; [left|by right]. exists k. rewrite queue_of_insert.
  destruct (decide _) as [<-|]; [|done]. apply elem_of_app. by left.
Qed.

Lemma takePendingLocked_keeps E keys b : keeps E b (snd (takePendingLocked keys b)).
Proof.
  induction keys as [|k keys IH]; simpl; [apply keeps_refl|].
  destruct (queue_of b k) as [|a q] eqn:Eq; [exact IH|].
  destruct (b_jobs b !! a) as [j|] eqn:Ej; [|apply keeps_refl]. cbn [snd].
  intros a' j' Hl Hj. left. unfold live, queued, job_at in *. simpl. destruct (decide (a' = a)) as [->|Hne].
  - rewrite lookup_insert_eq. rewrite Ej in Hj. split; [right; set_solver|done].
  - rewrite lookup_insert_ne by done. split; [|done].
    destruct Hl as [[k' Hk']|?]; [left|right; set_solver].
    exists k'. unfold queue_of in *. simpl. rewrite lookup_insert_default.
    destruct (decide (k = k')) as [<-|]; [|done]. rewrite Eq in Hk'. set_solver.
Qed.

Lemma requeue_keeps E a b : keeps E b (requeue a b).
Proof.
  unfold requeue. destruct (b_jobs b !! a) as [j|] eqn:Ej; [|apply keeps_refl].
  destruct (b_closed b || mj_settled j); [apply keeps_refl|].
  case_bool_decide as Ha; [|apply keeps_refl].
  pose proof (releaseLocked_fields a j b) as (Fq & Ff & Fj & Fa).
  intros a' j' Hl Hj. left. unfold live, queued, job_at in *.
  destruct (decide (a' = a)) as [->|Hne].
  - split; [left; exists (job_Key (mj_job j)); rewrite queue_of_insert, decide_True by done; set_solver|].
    simpl. rewrite Fj, lookup_insert_eq. by rewrite Ej in Hj.
  - split; [|simpl; by rewrite Fj, lookup_insert_ne by done].
    destruct Hl as [[k Hk]|?]; [left|right; simpl; rewrite Ff; set_solver]. exists k. rewrite queue_of_insert.
    unfold queue_of in *. rewrite Fq. destruct (decide _) as [<-|]; [set_solver|done].
Qed.

Lemma settle_keeps E i b :
  wf_jobs b -> (forall a, a ∈ b_inFlight b -> a ∈ flight_of b i -> E a) ->
  keeps E b (settleInstanceLocked i b).
Proof.
  intros Hw HE a j Hl Hj. destruct (settle_fields i b) as (Fq & _ & _ & _ & _ & _ & Ff & Fj).
  destruct (decide (a ∈ flight_of b i)) as [Hin|Hin].
  - right. apply HE; [|done]. apply (wf_flight_set b Hw). eauto.
  - left. unfold live, queued, job_at in *. rewrite Ff, Fj, bool_decide_false by done.
    split; [|done]. destruct Hl as [[k Hk]|?]; [left|by right]. exists k.
    unfold queue_of in *. by rewrite Fq.
Qed.

Lemma remove_first_find {A} (P : A -> bool) l l' :
  remove_first P l = Some l' ->
  exists l1 x l2, l = l1 ++ x :: l2 /\ l' = l1 ++ l2 /\ List.find P l = Some x.
Proof.
  revert l'. induction l as [|y l IH]; simpl; [done|]. intros l'. destruct (P y).
  - intros [= <-]. by exists [], y, l.
  - destruct (remove_first P l) as [q|]; [|done]. intros [= <-].
    destruct (IH q eq_refl) as (l1 & x & l2 & -> & -> & Hf). by exists (y :: l1), x, l2.
Qed.

Lemma removed_queued_start k i b b' :
  removeQueuedStartLocked k i b = Some b' -> exists s, List.find (is_start_of b i) (queue_of b k) = Some s.
Proof.
  unfold removeQueuedStartLocked. destruct (remove_first _ _) as [q|] eqn:Er; [|done]. intros _.
  apply remove_first_find in Er as (? & s & ? & _ & _ & ?). by exists s.
Qed.

Lemma remove_keeps E k i b b' :
  removeQueuedStartLocked k i b = Some b' ->
  (forall a, List.find (is_start_of b i) (queue_of b k) = Some a -> E a) -> keeps E b b'.
Proof.
  unfold removeQueuedStartLocked. destruct (remove_first _ _) as [q|] eqn:Er; [|done].
  intros [= <-] HE a j Hl Hj. apply remove_first_find in Er as (l1 & x & l2 & Hq & -> & Hx).
  destruct (decide (a = x)) as [->|Hne].
  - right. by apply HE.
  - left. unfold live, queued, job_at in *. simpl. split; [|done].
    destruct Hl as [[k' Hk']|?]; [left|by right]. exists k'. unfold queue_of in *. simpl.
    rewrite lookup_insert_default. destruct (decide (k = k')) as [<-|]; [|done].
    rewrite Hq in Hk'. set_solver.
Qed.

Lemma finishLocked_keeps E now rand i phase extra b :
  wf_jobs b -> (forall a, a ∈ b_inFlight b -> a ∈ flight_of b i -> E a) ->
  keeps E b (finishLocked now rand i phase extra b).
Proof.
  intros Hw HE. eapply keeps_trans; [apply (settle_keeps E i b Hw HE)|].
  apply same_jobs_keeps, finishLocked_same.
Qed.

Lemma guarded_keeps {A} E ctx b (k : result A * Broker) :
  (ctx = None -> b_closed b = false -> keeps E b (snd k)) -> keeps E b (snd (guarded ctx b k)).
Proof. unfold guarded. intros. repeat dmatch; simpl; try (by auto); apply keeps_refl. Qed.

Lemma report_keeps E ctx i fn b :
  (ctx = None -> b_closed b = false -> keeps E b (fn b)) -> keeps E b (snd (report ctx i fn b)).
Proof. unfold report. intros. repeat dmatch; simpl; try (by auto); apply keeps_refl. Qed.

Lemma Submit_keeps E ctx now rand order id req b :
  wf_jobs b -> keeps E b (snd (Submit ctx now rand order id req b)).
Proof.
  intros Hw. apply guarded_keeps. intros _ _. cbv zeta.
  destruct (liveRegistrationLocked _ _ _ _) as [reg|]; [|apply keeps_refl].
  destruct (List.find _ _) as [start|]; [|apply keeps_refl].
  destruct (match se_InputContract start with Some _ => _ | None => _ end); [apply keeps_refl|].
  set (b1 := set_insts _ b). assert (Hw1 : wf_jobs b1) by (eapply same_jobs_wf; [|exact Hw]; sj).
  pose proof (enqueueLocked_keeps E rand (mkJob (StartRequest_Key req)
    (JobStart id (sr_StartID req) (sr_Input req) (sr_CorrelationKey req))) b1 Hw1) as Hk.
  eapply keeps_trans; [apply (same_jobs_keeps E b b1); sj|].
  destruct (enqueueLocked _ _ b1) as [[e|] b2]; simpl in *; (eapply keeps_trans; [exact Hk|]);
    apply same_jobs_keeps; [sj|apply publishLocked_same].
Qed.

(** The jobs an operation may settle.  A terminal or suspending report settles
    the jobs in flight for its instance.  A Cancel settles nothing unless the
    instance's start is still queued under the requested process: then it
    removes that job and finishes the instance, which settles what is in flight
    for it. *)
Definition queued_start (b : Broker) (k : ProcessKey) (i : string) : option nat :=
  List.find (is_start_of b i) (queue_of b k).

Definition reported_instance (op : Op) : option string :=
  match op with
  | OReportSuspended None _ _ i _ | OReportCompleted None _ _ i _ | OReportFailed None _ _ i _
  | OReportCancelled None _ _ i => Some i
  | _ => None
  end.

Inductive settled_by (op : Op) (b : Broker) (a : nat) : Prop :=
| settled_report i :
    b_closed b = false -> reported_instance op = Some i ->
    a ∈ b_inFlight b -> a ∈ flight_of b i -> settled_by op b a
| settled_start now rand order req :
    b_closed b = false -> op = OCancel None now rand order req ->
    queued_start b (CancelRequest_Key req) (cr_InstanceID req) = Some a -> settled_by op b a
| settled_cancelled now rand order req s :
    b_closed b = false -> op = OCancel None now rand order req ->
    queued_start b (CancelRequest_Key req) (cr_InstanceID req) = Some s ->
    a ∈ b_inFlight b -> a ∈ flight_of b (cr_InstanceID req) -> settled_by op b a.

Lemma Cancel_keeps ctx now rand order req b :
  wf_jobs b ->
  keeps (settled_by (OCancel ctx now rand order req) b) b (snd (Cancel ctx now rand order req b)).
Proof.
  intros Hw. apply guarded_keeps. intros -> Hc. cbv zeta.
  destruct (liveRegistrationLocked _ _ _ _) as [reg|]; [|apply keeps_refl].
  destruct (removeQueuedStartLocked _ _ b) as [b'|] eqn:Er; simpl.
  - pose proof (remove_wf _ _ _ _ Hw Er) as Hw'.
    destruct (removed_queued_start _ _ _ _ Er) as [s Hs]. eapply keeps_trans.
    + eapply (remove_keeps _ _ _ _ _ Er). intros a Ha. by eapply settled_start.
    + apply finishLocked_keeps; [done|]. intros a Ha Hf. eapply settled_cancelled; [done..| |];
        unfold removeQueuedStartLocked in Er; (destruct (remove_first _ _); [|done]);
        by injection Er as <-.
  - destruct (pr_AllowExternalCancel reg); simpl; [|apply keeps_refl]. by apply enqueueLocked_keeps.
Qed.

Lemma terminal_report_keeps op ctx now rand i phase extra b :
  wf_jobs b -> (ctx = None -> reported_instance op = Some i) ->
  keeps (settled_by op b) b (snd (report ctx i (finishLocked now rand i phase extra) b)).
Proof.
  intros Hw Hop. apply report_keeps. intros Hx Hc. apply finishLocked_keeps; [done|].
  intros a Ha Hf. by apply (settled_report op b a i); auto.
Qed.

Lemma suspended_keeps ctx now rand i at_ b :
  wf_jobs b ->
  keeps (settled_by (OReportSuspended ctx now rand i at_) b) b
    (snd (ReportSuspended ctx now rand i at_ b)).
Proof.
  intros Hw. apply report_keeps. intros -> Hc. set (p := publishLocked _ _ _ _ b).
  assert (Hs : same_jobs b p) by apply publishLocked_same.
  eapply keeps_trans; [apply same_jobs_keeps, Hs|].
  eapply keeps_trans; [apply (settle_keeps _ i p (same_jobs_wf _ _ Hs Hw))|
                       destruct at_; apply same_jobs_keeps; sj].
  intros a Ha Hf. rewrite (same_jobs_flight _ _ _ Hs) in Hf.
  destruct Hs as (_ & Hfl & _). rewrite Hfl in Ha. by apply (settled_report _ b a i).
Qed.

Lemma exec_keeps op b : wf_jobs b -> keeps (settled_by op b) b (snd (exec op b)).
Proof.
  intros Hw.
  assert (Hpub : forall now rand i body, keeps (settled_by op b) b (publishLocked now rand i body b))
    by (intros; apply same_jobs_keeps, publishLocked_same).
  destruct op; simpl; try (apply same_jobs_keeps; sj).
  - by apply Submit_keeps.
  - by apply Cancel_keeps.
  - apply guarded_keeps. intros _ _. cbv zeta. destruct (liveRegistrationLocked _ _ _ _) as [reg|]; [|apply keeps_refl].
    destruct (pr_AllowExternalTerminate reg); simpl; [|apply keeps_refl]. by apply enqueueLocked_keeps.
  - apply guarded_keeps. intros _ _. destruct (b_insts b !! instanceID) as [rec|]; [|apply Hpub].
    destruct (in_finished rec); [apply Hpub|]. by apply enqueueLocked_keeps.
  - apply same_jobs_keeps, SubscribeToInstance_same.
  - apply same_jobs_keeps, cancelInstanceSub_same.
  - apply same_jobs_keeps, SubscribeToProcessRegistry_same.
  - apply same_jobs_keeps, RegisterProcesses_same.
  - apply same_jobs_keeps, Heartbeat_same.
  - apply same_jobs_keeps, Unregister_same.
  - destruct (b_closed b); [apply keeps_refl|apply takePendingLocked_keeps].
  - apply requeue_keeps.
  - apply report_keeps. intros _ _. apply Hpub.
  - by apply suspended_keeps.
  - unfold resumeTimer. simpl. set (b1 := set_timers _ b).
    assert (Hw1 : wf_jobs b1) by (eapply same_jobs_wf; [|exact Hw]; sj).
    apply keeps_trans with b1; [apply same_jobs_keeps; sj|].
    destruct (b_insts b !! instanceID); [|apply keeps_refl]. destruct (b_closed b || _); [apply keeps_refl|].
    by apply enqueueLocked_keeps.
  - apply terminal_report_keeps; [done|]. by intros ->.
  - apply terminal_report_keeps; [done|]. by intros ->.
  - apply terminal_report_keeps; [done|]. by intros ->.
  - apply report_keeps. intros _ _. apply Hpub.
  - apply report_keeps. intros _ _. apply Hpub.
  - apply report_keeps. intros _ _. apply Hpub.
  - apply same_jobs_keeps, sweep_same.
  - destruct (b_closed b) eqn:Hc; [unfold Close; rewrite Hc; apply keeps_refl|].
    destruct (Close_jobs b Hc) as (Fq & Ff & _ & _ & _ & Fj).
    intros a j Hl Hj. left. unfold live, queued, job_at, queue_of in *. rewrite Fq, Ff, Fj. split; [done|].
    rewrite map_lookup_imap. destruct (b_jobs b !! a); [|done]. simpl in *. unfold disarm.
    by case_bool_decide.
Qed.

(** ** Order of delivery *)

Lemma takePendingLocked_spec keys b :
  wf_jobs b ->
  match takePendingLocked keys b with
  | (None, b') => b' = b /\ forall k, k ∈ keys -> queue_of b k = []
  | (Some a, b') =>
      exists ks1 k ks2 q j, keys = ks1 ++ k :: ks2 /\ (forall k', k' ∈ ks1 -> queue_of b k' = []) /\
        queue_of b k = a :: q /\ b_jobs b !! a = Some j /\
        (forall k', queue_of b' k' = if decide (k = k') then q else queue_of b k') /\
        b_inFlight b' = {[a]} ∪ b_inFlight b /\
        (forall i, flight_of b' i = if decide (Job_InstanceID (mj_job j) = i)
                                    then flight_of b i ++ [a] else flight_of b i) /\
        b_jobs b' = <[a := mkMemJob (mj_job j) true false]> (b_jobs b) /\
        b_notify b' = b_notify b /\ b_closed b' = b_closed b /\ b_alloc b' = b_alloc b
  end.
Proof.
  intros Hw. induction keys as [|k keys IH]; cbn [takePendingLocked]; [set_solver|].
  destruct (queue_of b k) as [|a q] eqn:Eq.
  - destruct (takePendingLocked keys b) as [[a|] b'].
    + destruct IH as (ks1 & k1 & ks2 & q & j & -> & Hks & ?). exists (k :: ks1), k1, ks2, q, j.
      split; [done|]. split; [|done]. intros k' [->|]%elem_of_cons; auto.
    + destruct IH as [-> IH]. split; [done|]. intros k' [->|]%elem_of_cons; auto.
  - destruct (wf_queue_job b Hw k a) as (j & Hj & _); [rewrite Eq; set_solver|]. rewrite Hj.
    exists [], k, keys, q, j. repeat split; try done; [set_solver|..].
    + intros k'. unfold queue_of. simpl. apply lookup_insert_default.
    + intros i. unfold flight_of. simpl. rewrite lookup_insert_default. by destruct (decide _) as [->|].
Qed.

Lemma remove_first_last a l : a ∉ l -> remove_first (Nat.eqb a) (l ++ [a]) = Some l.
Proof.
  induction l as [|x l IH]; simpl; intros Ha; [by rewrite Nat.eqb_refl|].
  destruct (Nat.eqb_spec a x); [set_solver|]. rewrite IH by set_solver. done.
Qed.

(** Requeueing a job just taken restores the bookkeeping. *)
Lemma requeue_take keys b a b' :
  wf_jobs b -> b_closed b = false -> takePendingLocked keys b = (Some a, b') ->
  (forall k, queue_of (requeue a b') k = queue_of b k) /\
  b_inFlight (requeue a b') = b_inFlight b /\
  (forall i, flight_of (requeue a b') i = flight_of b i).
Proof.
  intros Hw Hc Ht. pose proof (takePendingLocked_spec keys b Hw) as Hs. rewrite Ht in Hs.
  destruct Hs as (ks1 & k & ks2 & q & j & _ & _ & Hq & Hj & Hq' & Hf & Hi & Hj' & _ & Hc' & _).
  destruct (wf_queue_job b Hw k a) as (j0 & Hj0 & Hk & _ & Hnf); [rewrite Hq; set_solver|].
  rewrite Hj in Hj0. injection Hj0 as <-.
  assert (Hnfi : forall i, a ∉ flight_of b i) by (intros i ?; apply Hnf, (wf_flight_set b Hw); eauto).
  unfold requeue. rewrite Hj', lookup_insert_eq. cbn [mj_settled mj_job].
  rewrite Hc', Hc. cbn [orb]. rewrite bool_decide_true by set_solver.
  set (j' := mkMemJob (mj_job j) true false). pose proof (releaseLocked_fields a j' b') as (Fq & Ff & _).
  split; [|split].
  - assert (Hrel : forall k', queue_of (releaseLocked a j' b') k' = queue_of b' k')
      by (intros k'; unfold queue_of; by rewrite Fq).
    intros k'. rewrite queue_of_insert, !Hrel, Hk, !Hq', (decide_True (P := k = k)) by done.
    destruct (decide (k = k')) as [<-|]; done.
  - simpl. rewrite Ff, Hf. set_solver.
  - intros i. change (flight_of (releaseLocked a j' b') i = flight_of b i).
    unfold releaseLocked. cbn [mj_job j']. set (inst := Job_InstanceID (mj_job j)) in *.
    change (flight_of (set_inFlight ?x ?y) inst) with (flight_of b' inst).
    rewrite Hi, decide_True by done. rewrite remove_first_last by done. cbn [default].
    specialize (Hi i). unfold flight_of in *. destruct (default [] (b_byInst b !! inst)) as [|y l] eqn:El; simpl.
    + rewrite lookup_delete_default. destruct (decide (inst = i)) as [<-|]; done.
    + rewrite lookup_insert_default. destruct (decide (inst = i)) as [<-|]; done.
Qed.

(** [fifo b b']: each queue of [b'] is what remains of the queue of [b], in
    order, followed by jobs that are new. *)
Definition fifo (b b' : Broker) : Prop :=
  (b_alloc b <= b_alloc b')%nat /\
  forall k, exists q new, queue_of b' k = q ++ new /\ q `sublist_of` queue_of b k /\
                          Forall (fun a => (b_alloc b <= a)%nat) new.

Lemma fifo_same_queues b b' :
  b_queues b' = b_queues b -> (b_alloc b <= b_alloc b')%nat -> fifo b b'.
Proof.
  intros Hq Ha. split; [done|]. intros k. exists (queue_of b k), []. rewrite app_nil_r.
  unfold queue_of. rewrite Hq. split; [done|]. split; [done|constructor].
Qed.

Lemma fifo_trans b1 b2 b3 : fifo b1 b2 -> fifo b2 b3 -> fifo b1 b3.
Proof.
  intros [Ha1 H1] [Ha2 H2]. split; [lia|]. intros k.
  destruct (H1 k) as (q1 & n1 & E1 & S1 & F1), (H2 k) as (q2 & n2 & E2 & S2 & F2).
  rewrite E1 in S2. apply sublist_app_r in S2 as (x & y & -> & Sx & Sy).
  exists x, (y ++ n2). rewrite E2, app_assoc. split; [done|]. split; [by etrans|].
  apply Forall_app. split.
  - rewrite Forall_forall in F1 |- *. eauto using elem_of_sublist.
  - eapply Forall_impl; [exact F2|]. simpl. lia.
Qed.

Lemma fifo_enqueue rand job b : fifo b (snd (enqueueLocked rand job b)).
Proof.
  unfold enqueueLocked. destruct (roundTripJob rand b job) as [rt|e]; [|by apply fifo_same_queues].
  cbn [snd]. split; [simpl; lia|]. intros k. rewrite queue_of_insert. destruct (decide _) as [<-|].
  - eexists (queue_of b (job_Key rt)), [b_alloc b]. split; [done|]. split; [done|]. by constructor.
  - exists (queue_of b k), []. rewrite app_nil_r. split; [done|]. split; [done|constructor].
Qed.

Lemma prim_fifo op b b' : (forall a, op <> ORequeue a) -> wf_jobs b -> prim op b b' -> fifo b b'.
Proof.
  intros Hop Hw Hp. destruct Hp as [b b' Hs|rand job b|keys b|a b Ho|i b _|k i b b' _ _ Hr|b _].
  - destruct Hs as (Hq & _ & _ & _ & Ha & _). by apply fifo_same_queues.
  - apply fifo_enqueue.
  - pose proof (takePendingLocked_spec keys b Hw) as Ht.
    destruct (takePendingLocked keys b) as [[a|] b']; simpl; [|destruct Ht as [-> _]; by apply fifo_same_queues].
    destruct Ht as (ks1 & k & ks2 & q & j & _ & _ & Hq & _ & Hq' & _ & _ & _ & _ & _ & Ha).
    split; [lia|]. intros k'. rewrite Hq'. exists (if decide (k = k') then q else queue_of b k'), [].
    rewrite app_nil_r. split; [done|]. split; [|constructor]. destruct (decide (k = k')) as [<-|]; [|done].
    rewrite Hq. by constructor.
  - by destruct (Hop a).
  - destruct (settle_fields i b) as (Hq & Ha & _). apply fifo_same_queues; [done|lia].
  - unfold removeQueuedStartLocked in Hr. destruct (remove_first _ _) as [q|] eqn:E; [|done].
    injection Hr as <-. split; [simpl; lia|]. intros k'. unfold queue_of at 1. simpl. rewrite lookup_insert_default.
    apply remove_first_Some in E as (l1 & x & l2 & Hq & -> & _).
    exists (if decide (k = k') then l1 ++ l2 else queue_of b k'), []. rewrite app_nil_r.
    split; [done|]. split; [|constructor]. destruct (decide (k = k')) as [<-|]; [|done].
    rewrite Hq. apply sublist_app; [done|]. by constructor.
  - destruct (b_closed b) eqn:Hc; [unfold Close; rewrite Hc; by apply fifo_same_queues|].
    destruct (Close_jobs b Hc) as (Hq & _ & _ & Ha & _). apply fifo_same_queues; [done|lia].
Qed.

(** ** Waking fetchers *)

(** [quiet b b']: work appears in an empty queue only with a signal. *)
Definition quiet (b b' : Broker) : Prop :=
  (b_notify b <= b_notify b')%nat /\
  (b_notify b' = b_notify b -> forall k, queue_of b k = [] -> queue_of b' k = []).

Lemma quiet_trans b1 b2 b3 : quiet b1 b2 -> quiet b2 b3 -> quiet b1 b3.
Proof.
  intros [H1 Q1] [H2 Q2]. split; [lia|]. intros He k Hk.
  apply Q2; [lia|]. apply Q1; [lia|done].
Qed.

Lemma quiet_queues b b' : b_queues b' = b_queues b -> (b_notify b <= b_notify b')%nat -> quiet b b'.
Proof. intros Hq Hn. split; [done|]. intros _ k. unfold queue_of. by rewrite Hq. Qed.

Lemma requeue_quiet a b : quiet b (requeue a b).
Proof.
  unfold requeue. destruct (b_jobs b !! a) as [j|]; [|by apply quiet_queues].
  destruct (b_closed b || mj_settled j); [by apply quiet_queues|].
  case_bool_decide; [|by apply quiet_queues].
  assert (Hn : b_notify (releaseLocked a j b) = b_notify b) by (unfold releaseLocked; by destruct (default _ _)).
  unfold quiet. simpl. rewrite Hn. split; lia.
Qed.

Lemma Close_quiet b : quiet b (Close b).
Proof.
  destruct (b_closed b) eqn:Hc; [unfold Close; rewrite Hc; by apply quiet_queues|].
  destruct (Close_jobs b Hc) as (Hq & _). apply quiet_queues; [done|].
  unfold Close. rewrite Hc. cbv zeta. rewrite Close_subs_set. simpl. lia.
Qed.

Lemma prim_quiet op b b' : wf_jobs b -> prim op b b' -> quiet b b'.
Proof.
  intros Hw Hp. destruct Hp as [b b' Hs|rand job b|keys b|a b Ho|i b _|k i b b' _ _ Hr|b _].
  - destruct Hs as (Hq & _ & _ & _ & _ & Hn & _). apply quiet_queues; [done|lia].
  - unfold enqueueLocked. destruct (roundTripJob rand b job) as [rt|e]; [|by apply quiet_queues].
    unfold quiet. simpl. split; lia.
  - pose proof (takePendingLocked_spec keys b Hw) as Ht.
    destruct (takePendingLocked keys b) as [[a|] b']; simpl; [|destruct Ht as [-> _]; by apply quiet_queues].
    destruct Ht as (ks1 & k & ks2 & q & j & _ & _ & Hq & _ & Hq' & _ & _ & _ & Hn & _).
    split; [lia|]. intros _ k' Hk'. rewrite Hq'. destruct (decide (k = k')) as [<-|]; congruence.
  - apply requeue_quiet.
  - destruct (settle_fields i b) as (Hq & _ & Hn & _). apply quiet_queues; [done|lia].
  - unfold removeQueuedStartLocked in Hr. destruct (remove_first _ _) as [q|] eqn:E; [|done].
    injection Hr as <-. split; [simpl; lia|]. intros _ k' Hk'. unfold queue_of. simpl.
    rewrite lookup_insert_default. destruct (decide (k = k')) as [<-|]; [|done].
    by rewrite Hk' in E.
  - apply Close_quiet.
Qed.

Lemma exec_quiet op b : wf_jobs b -> quiet b (snd (exec op b)).
Proof.
  intros Hw. induction (exec_prims op b) as [b|b b1 b2 Hp _ IH]; [by apply quiet_queues|].
  eapply quiet_trans; [by eapply prim_quiet|]. eauto using prim_wf.
Qed.

Lemma exec_fifo op b : (forall a, op <> ORequeue a) -> wf_jobs b -> fifo b (snd (exec op b)).
Proof.
  intros Hop Hw. induction (exec_prims op b) as [b|b b1 b2 Hp _ IH]; [by apply fifo_same_queues|].
  eapply fifo_trans; [by eapply prim_fifo|]. eauto using prim_wf.
Qed.

(** ** Claims *)

(** C16. In every run of the broker the three job indexes agree: a queued job sits
    in exactly one place of the queue of its own key, unsettled and not in
    flight; the in-flight set is the union of the per-instance lists, which
    are duplicate free, hold only unsettled jobs of their instance, and are
    removed when empty. *)
Theorem broker_job_indexes_consistent (opts : list InMemoryBrokerOption) (ops : list Op) :
  wf_jobs (run_ops ops (NewInMemoryMessageBroker opts)).
Proof. apply run_ops_wf, wf_jobs_new. Qed.

(** C1. At-least-once delivery: in every run, a job that is queued or in flight is
    still queued or in flight, unchanged, after any operation, with two
    exceptions on an open broker.  A terminal or suspending report settles the
    jobs in flight for its instance; and a Cancel that finds the start of its
    instance still queued under the process it names removes that job and,
    since the instance is then finished, settles what is in flight for it.  A
    Cancel that finds no queued start settles nothing, and a redelivery
    timeout, an expired fetch, a sweep or a close loses no job. *)
Theorem broker_no_job_lost (opts : list InMemoryBrokerOption) (ops : list Op) (op : Op) (a : nat) (j : Job) :
  let b := run_ops ops (NewInMemoryMessageBroker opts) in
  live b a -> job_at b a = Some j ->
  (live (snd (exec op b)) a /\ job_at (snd (exec op b)) a = Some j) \/ settled_by op b a.
Proof. intros b. apply exec_keeps, run_ops_wf, wf_jobs_new. Qed.

(** Delivery takes the oldest job of the first key that has one, moves it in
    flight under its instance and leaves the other queues alone; it yields
    nothing exactly when no key has work.  Requeueing the job just taken, as
    an abandoned fetch or the redelivery timer does, puts every queue and index
    back as it was. *)
Theorem take_oldest_requeue_restores (opts : list InMemoryBrokerOption) (ops : list Op) (keys : list ProcessKey) :
  let b := run_ops ops (NewInMemoryMessageBroker opts) in
  match takePendingLocked keys b with
  | (None, b') => b' = b /\ forall k, k ∈ keys -> queue_of b k = []
  | (Some a, b') =>
      (exists ks1 k ks2 q j, keys = ks1 ++ k :: ks2 /\ (forall k', k' ∈ ks1 -> queue_of b k' = []) /\
        queue_of b k = a :: q /\ job_at b a = Some j /\
        (forall k', queue_of b' k' = if decide (k = k') then q else queue_of b k') /\
        a ∈ b_inFlight b' /\ a ∈ flight_of b' (Job_InstanceID j)) /\
      (b_closed b = false ->
        (forall k, queue_of (requeue a b') k = queue_of b k) /\
        b_inFlight (requeue a b') = b_inFlight b /\
        (forall i, flight_of (requeue a b') i = flight_of b i))
  end.
Proof.
  intros b. assert (Hw : wf_jobs b) by apply run_ops_wf, wf_jobs_new.
  pose proof (takePendingLocked_spec keys b Hw) as Hs.
  destruct (takePendingLocked keys b) as [[a|] b'] eqn:Et; [|exact Hs]. split.
  - destruct Hs as (ks1 & k & ks2 & q & j & ? & ? & ? & Hj & ? & Hf & Hi & _).
    exists ks1, k, ks2, q, (mj_job j). repeat split; try done.
    + unfold job_at. by rewrite Hj.
    + set_solver.
    + rewrite Hi, decide_True by done. set_solver.
  - intros Hc. by eapply requeue_take.
Qed.

(** Queues are first in first out: any operation but a requeue leaves in each
    queue a part of what was there, in the same order, followed by jobs created
    by the operation. *)
Theorem broker_queues_fifo (opts : list InMemoryBrokerOption) (ops : list Op) (op : Op) :
  (forall a, op <> ORequeue a) ->
  fifo (run_ops ops (NewInMemoryMessageBroker opts))
       (run_ops (ops ++ [op]) (NewInMemoryMessageBroker opts)).
Proof.
  intros Hop. unfold run_ops at 2. rewrite fold_left_app.
  apply exec_fifo; [done|]. apply run_ops_wf, wf_jobs_new.
Qed.

End BrokerJobs.

(** The start job of the sample run survives being fetched. *)
Lemma broker_no_job_lost_witness :
  live (snd (exec (OTake [sample_key]) sample_broker)) 1 /\
  job_at (snd (exec (OTake [sample_key]) sample_broker)) 1 =
    Some (mkJob sample_key (JobStart "i-1" "start" [] (Some "corr"%string))).
Proof.
  destruct (broker_no_job_lost [] sample_ops (OTake [sample_key]) 1
    (mkJob sample_key (JobStart "i-1" "start" [] (Some "corr"%string)))) as [H|H].
  - left. exists sample_key. change (1%nat ∈ queue_of sample_broker sample_key).
    rewrite sample_queue. by constructor.
  - exact sample_job.
  - exact H.
  - destruct H; discriminate.
Defined.

(** A second submission joins the queue behind the first. *)
Lemma broker_queues_fifo_witness :
  fifo sample_broker
    (run_ops (sample_ops ++ [OSubmit None t1 zeroRand ["w1"%string] "i-2" sample_request])
       (NewInMemoryMessageBroker [])).
Proof. apply (broker_queues_fifo [] sample_ops). discriminate. Defined.
