(* ===== verification/BrokerEvents.v ===== *)
(** * The broker's instance topics

    What subscribers of the in-memory broker see: the invariant of records and
    subscriber channels, the accounting of a bounded channel, the wire trip of
    an event, and how an instance finishes. *)

From stdpp Require Import relations.
From S2P Require Import Prelude Decimal GoTime Values Schema Messages Wire RegistryPump Broker BrokerJobs.
#[global] Open Scope Z_scope.

(** ** One subscriber channel *)

Section Channel.
Context {DO : DecimalOps}.














End Channel.


(** ** Records and their subscribers *)

Section Topics.
Context {DO : DecimalOps}.
Context `{!Cbor Envelope, !Cbor Job, !Cbor InstanceEvent}.

(** [subscribed b i id a]: subscription [id] of instance [i] is the channel at [a]. *)
Definition subscribed (b : Broker) (i : string) (id a : nat) : Prop :=
  exists rec, b_insts b !! i = Some rec /\ in_subs rec !! id = Some a.

(** Channels are open while subscribed, belong to one subscription, have room
    for at least two events and never hold more than their room; a finished
    instance, and every instance of a closed broker, has no subscriber. *)
Record wf_subs (b : Broker) : Prop := {
  ws_open i id a : subscribed b i id a ->
    (id < b_nextSub b)%nat /\ exists s, b_subs b !! a = Some s /\ s_closed s = false;
  ws_inj i1 id1 i2 id2 a : subscribed b i1 id1 a -> subscribed b i2 id2 a -> i1 = i2 /\ id1 = id2;
  ws_finished i rec : b_insts b !! i = Some rec -> in_finished rec = true -> in_subs rec = ∅;
  ws_buffer a s : b_subs b !! a = Some s -> (2 <= s_cap s)%nat /\ (length (s_ch s) <= s_cap s)%nat;
  ws_fresh a s : b_subs b !! a = Some s -> (a < b_alloc b)%nat;
  ws_closed i id a : b_closed b = true -> ~ subscribed b i id a
}.

Lemma wf_subs_new opts : wf_subs (NewInMemoryMessageBroker opts).
Proof.
  split; simpl.
  - intros i id a (rec & H & _). simpl in H. by rewrite lookup_empty in H.
  - intros i1 id1 i2 id2 a (rec & H & _). simpl in H. by rewrite lookup_empty in H.
  - intros i rec H. by rewrite lookup_empty in H.
  - intros a s H. by rewrite lookup_empty in H.
  - intros a s H. by rewrite lookup_empty in H.
  - done.
Qed.

(** A step that keeps subscriptions: fewer of them, the same channels up to a
    change that keeps them open and bounded. *)
Definition tame (s s' : inMemSub) : Prop :=
  s_closed s' = s_closed s /\ s_cap s' = s_cap s /\
  ((length (s_ch s) <= s_cap s)%nat -> (length (s_ch s') <= s_cap s')%nat).

Lemma wf_subs_mono b b' :
  wf_subs b ->
  (forall i id a, subscribed b' i id a -> subscribed b i id a) ->
  (forall i rec, b_insts b' !! i = Some rec -> in_finished rec = true -> in_subs rec = ∅) ->
  (forall a s', b_subs b' !! a = Some s' -> exists s, b_subs b !! a = Some s /\ tame s s') ->
  (forall a s, b_subs b !! a = Some s -> is_Some (b_subs b' !! a)) ->
  (b_nextSub b <= b_nextSub b')%nat -> (b_alloc b <= b_alloc b')%nat -> b_closed b' = b_closed b ->
  wf_subs b'.
Proof.
  intros [H1 H2 H3 H4 H5 H6] Hsub Hfin Hs Hdom Hn Ha Hc. split; try done.
  - intros i id a Hi. destruct (H1 _ _ _ (Hsub _ _ _ Hi)) as [? (s & Hs1 & Hcl)]. split; [lia|].
    destruct (Hdom _ _ Hs1) as [s' Hs']. exists s'. split; [done|].
    destruct (Hs _ _ Hs') as (s0 & Hs0 & Ht & _). congruence.
  - eauto.
  - intros a s' Hs'. destruct (Hs _ _ Hs') as (s & Hs0 & Ht & Hcap & Hlen).
    destruct (H4 _ _ Hs0). rewrite Hcap in *. auto.
  - intros a s' Hs'. destruct (Hs _ _ Hs') as (s & Hs0 & _). apply H5 in Hs0. lia.
  - intros i id a Hcl Hi. rewrite Hc in Hcl. by eapply H6, Hsub.
Qed.

Lemma tame_refl s : tame s s.
Proof. by repeat split. Qed.

Lemma tame_trans s1 s2 s3 : tame s1 s2 -> tame s2 s3 -> tame s1 s3.
Proof. intros (?&?&?) (?&?&?). repeat split; try congruence. auto. Qed.

Lemma tame_send now evt i s : tame s (send now evt i s).
Proof.
  unfold send. destruct (s_closed s) eqn:Hc; [apply tame_refl|].
  unfold tame, try_send, set_dropped.
  repeat (dmatch; simplify_eq/=); zbool; repeat split; simpl; try done; rewrite ?length_app; simpl;
    repeat match goal with H : (_ <? _)%nat = true |- _ => apply Nat.ltb_lt in H end;
    rewrite ?length_app in *; simpl in *; intros; lia.
Qed.

Lemma alter_all_tame f l m a s' :
  (forall s, tame s (f s)) -> alter_all f l m !! a = Some s' -> exists s, m !! a = Some s /\ tame s s'.
Proof.
  intros Hf. unfold alter_all. revert m. induction l as [|p l IH]; intros m; simpl.
  - intros ?. exists s'. split; [done|apply tame_refl].
  - intros H. apply IH in H as (s & Hs & Ht). rewrite lookup_alter in Hs.
    destruct (decide (snd p = a)) as [<-|].
    + destruct (m !! snd p) as [s0|]; simpl in Hs; [|done]. injection Hs as <-.
      exists s0. split; [done|]. by eapply tame_trans.
    + eauto.
Qed.

Lemma alter_all_dom f l m a s : m !! a = Some s -> is_Some (alter_all f l m !! a).
Proof.
  unfold alter_all. revert m s. induction l as [|p l IH]; intros m s Hs; simpl; [by eexists|].
  destruct (decide (snd p = a)) as [<-|].
  - eapply IH. rewrite lookup_alter_eq, Hs. done.
  - eapply IH. rewrite lookup_alter_ne by done. exact Hs.
Qed.

(** Operations that touch neither records nor channels. *)
Definition same_topics (b b' : Broker) : Prop :=
  b_insts b' = b_insts b /\ b_subs b' = b_subs b /\ b_closed b' = b_closed b /\
  (b_nextSub b <= b_nextSub b')%nat /\ (b_alloc b <= b_alloc b')%nat.

Lemma same_topics_wf b b' : same_topics b b' -> wf_subs b -> wf_subs b'.
Proof.
  intros (Hi & Hs & Hc & Hn & Ha) Hw. eapply wf_subs_mono; try done.
  - unfold subscribed. by rewrite Hi.
  - rewrite Hi. apply (ws_finished b Hw).
  - rewrite Hs. eauto using tame_refl.
  - rewrite Hs. eauto.
Qed.

#[local] Instance same_topics_refl : Reflexive same_topics.
Proof. intros b. repeat split; lia. Qed.

#[local] Instance same_topics_trans : Transitive same_topics.
Proof. intros b1 b2 b3 (?&?&?&?&?) (?&?&?&?&?). repeat split; congruence || lia. Qed.

Lemma same_topics_fold {A} (f : Broker -> A -> Broker) l b :
  (forall b x, same_topics b (f b x)) -> same_topics b (fold_left f l b).
Proof.
  intros Hf. revert b. induction l as [|x l IH]; intros b; simpl; [done|]. etrans; [apply Hf|apply IH].
Qed.

Ltac st := repeat split; simpl; done || lia.

Lemma emit_all_topics kind a b : same_topics b (emit_all kind a b).
Proof. apply same_topics_fold. intros b' x. st. Qed.

Lemma enqueueLocked_topics rand job b : same_topics b (snd (enqueueLocked rand job b)).
Proof. unfold enqueueLocked. destruct (roundTripJob rand b job); st. Qed.

Lemma takePendingLocked_topics keys b : same_topics b (snd (takePendingLocked keys b)).
Proof. induction keys as [|k keys IH]; simpl; [done|]. repeat dmatch; simpl; done || st. Qed.

Lemma requeue_topics a b : same_topics b (requeue a b).
Proof. unfold requeue, releaseLocked. repeat dmatch; st. Qed.

Lemma settle_topics i b : same_topics b (settleInstanceLocked i b).
Proof.
  unfold settleInstanceLocked. etrans; [apply (same_topics_fold (fun b a =>
      set_inFlight (b_inFlight b ∖ {[a]}) (set_jobs (alter settle_job a (b_jobs b)) b)))|st].
  intros b' x. st.
Qed.

Lemma remove_topics k i b b' : removeQueuedStartLocked k i b = Some b' -> same_topics b b'.
Proof. unfold removeQueuedStartLocked. destruct (remove_first _ _); [|done]. intros [= <-]. st. Qed.

(** ** Publishing, in closed form *)

(** The record [recordLocked] finds or makes. *)
Definition record_of (b : Broker) (i : string) : inMemInstance :=
  default (empty_instance zeroKey None) (b_insts b !! i).

(** The event [publishLocked] retains and sends. *)
Definition published (now : Time) (rand : Rand) (b : Broker) (i : string) (body : EventBody) : InstanceEvent :=
  roundTripEvent rand b (mkInstanceEvent i (in_correlationKey (record_of b i)) now body).

Lemma publishLocked_eq now rand i body b :
  publishLocked now rand i body b =
  set_subs (alter_all (send now (published now rand b i body) i) (map_to_list (in_subs (record_of b i))) (b_subs b))
    (set_insts (<[i := retain (published now rand b i body) (record_of b i)]> (b_insts b)) b).
Proof.
  unfold publishLocked, recordLocked, published, record_of.
  destruct (b_insts b !! i) as [rec|]; simpl; rewrite each_sub_set; [done|].
  unfold set_insts, set_subs. simpl. by rewrite insert_insert_eq.
Qed.

Lemma retain_subs evt rec : in_subs (retain evt rec) = in_subs rec.
Proof. unfold retain. by repeat dmatch. Qed.

Lemma retain_finished evt rec : in_finished (retain evt rec) = in_finished rec.
Proof. unfold retain. by repeat dmatch. Qed.

Lemma retain_corr evt rec : in_correlationKey (retain evt rec) = in_correlationKey rec.
Proof. unfold retain. by repeat dmatch. Qed.

Lemma record_of_subscribed b i id a : in_subs (record_of b i) !! id = Some a -> subscribed b i id a.
Proof.
  unfold record_of, subscribed. destruct (b_insts b !! i) as [rec|]; simpl; [eauto|].
  by rewrite lookup_empty.
Qed.

Lemma record_of_finished b i :
  wf_subs b -> in_finished (record_of b i) = true -> in_subs (record_of b i) = ∅.
Proof.
  intros Hw. unfold record_of. destruct (b_insts b !! i) as [rec|] eqn:E; simpl; [|done].
  by eapply ws_finished.
Qed.

Lemma record_of_publish now rand i body b :
  record_of (publishLocked now rand i body b) i = retain (published now rand b i body) (record_of b i).
Proof. rewrite publishLocked_eq. unfold record_of at 1. simpl. by rewrite lookup_insert_eq. Qed.

Lemma publishLocked_subs_wf now rand i body b : wf_subs b -> wf_subs (publishLocked now rand i body b).
Proof.
  intros Hw. rewrite publishLocked_eq. eapply (wf_subs_mono b); simpl; try done.
  - intros i' id a (rec & Hr & Hs). simpl in Hr. rewrite lookup_insert in Hr.
    destruct (decide (i = i')) as [<-|]; [|by exists rec]. injection Hr as <-.
    rewrite retain_subs in Hs. by apply record_of_subscribed.
  - intros i' rec. rewrite lookup_insert. destruct (decide (i = i')) as [<-|]; [|apply (ws_finished b Hw)].
    intros [= <-]. rewrite retain_subs, retain_finished. by apply record_of_finished.
  - intros a s'. apply alter_all_tame. intros s. apply tame_send.
  - intros a s. apply alter_all_dom.
Qed.

(** ** Finishing, in closed form *)

Definition finish_events (phase : ProcessStatus) (extra : option EventBody) : list EventBody :=
  InstanceEventLifecycle phase :: option_list extra.

Definition publish_all (now : Time) (rand : Rand) (i : string) (bodies : list EventBody) (b : Broker) : Broker :=
  fold_left (fun b body => publishLocked now rand i body b) bodies b.

Lemma publish_all_record now rand i bodies b :
  in_subs (record_of (publish_all now rand i bodies b) i) = in_subs (record_of b i) /\
  in_finished (record_of (publish_all now rand i bodies b) i) = in_finished (record_of b i).
Proof.
  unfold publish_all. revert b. induction bodies as [|body bodies IH]; intros b; [done|]. cbn [fold_left].
  destruct (IH (publishLocked now rand i body b)) as [-> ->]. rewrite record_of_publish.
  by rewrite retain_subs, retain_finished.
Qed.

Lemma publish_all_wf now rand i bodies b : wf_subs b -> wf_subs (publish_all now rand i bodies b).
Proof.
  unfold publish_all. revert b. induction bodies; intros b Hw; [done|]. cbn [fold_left].
  by apply IHbodies, publishLocked_subs_wf.
Qed.

(** The state [finishLocked] starts publishing in. *)
Definition settled_state (i : string) (b : Broker) : Broker :=
  let b := settleInstanceLocked i b in
  snd (recordLocked i (set_timers (delete i (b_timers b)) b)).

Lemma settled_state_insts i b :
  b_insts (settled_state i b) = <[i := record_of b i]> (b_insts b) /\ b_subs (settled_state i b) = b_subs b /\
  b_cfg (settled_state i b) = b_cfg b /\ record_of (settled_state i b) i = record_of b i.
Proof.
  unfold settled_state. destruct (settle_topics i b) as (Hi & Hs & _).
  assert (Hcfg : b_cfg (settleInstanceLocked i b) = b_cfg b) by apply settle_fields.
  revert Hi Hs Hcfg. generalize (settleInstanceLocked i b) as b0. intros b0 Hi Hs Hcfg.
  unfold recordLocked, record_of in *. simpl. rewrite Hi.
  destruct (b_insts b !! i) as [rec|] eqn:E; simpl; rewrite ?Hi, ?E, ?Hs, ?lookup_insert_eq; simpl;
    repeat split; try done. by rewrite insert_id.
Qed.

Lemma recordLocked_settled i b :
  recordLocked i (set_timers (delete i (b_timers (settleInstanceLocked i b))) (settleInstanceLocked i b)) =
  (record_of b i, settled_state i b).
Proof.
  unfold settled_state. cbv zeta. set (b0 := set_timers _ _).
  assert (record_of b0 i = record_of b i) as <-.
  { unfold record_of. change (b_insts b0) with (b_insts (settleInstanceLocked i b)).
    by destruct (settle_topics i b) as (-> & _). }
  unfold recordLocked, record_of. by destruct (b_insts b0 !! i).
Qed.

Lemma finishLocked_eq now rand i phase extra b :
  in_finished (record_of b i) = false ->
  let b1 := publish_all now rand i (finish_events phase extra) (settled_state i b) in
  finishLocked now rand i phase extra b =
  set_subs (alter_all sub_close (map_to_list (in_subs (record_of b i))) (b_subs b1))
    (set_insts (alter (finish_record (TimeAdd now (eventRetention (b_cfg b1)))) i (b_insts b1)) b1).
Proof.
  intros Hf b1.
  unfold finishLocked. rewrite recordLocked_settled, Hf. rewrite each_sub_set. unfold b1, publish_all, finish_events.
  by destruct extra.
Qed.

Lemma finishLocked_again now rand i phase extra b :
  in_finished (record_of b i) = true ->
  finishLocked now rand i phase extra b = settled_state i b.
Proof.
  intros Hf. unfold finishLocked. by rewrite recordLocked_settled, Hf.
Qed.

(** ** Closing channels *)

Definition same_buffer (s s' : inMemSub) : Prop := s_cap s' = s_cap s /\ s_ch s' = s_ch s.

Lemma alter_all_close l m a s' :
  alter_all sub_close l m !! a = Some s' ->
  exists s, m !! a = Some s /\ same_buffer s s' /\ ((forall p, p ∈ l -> snd p <> a) -> s' = s).
Proof.
  unfold alter_all. revert m. induction l as [|p l IH]; intros m; simpl.
  - intros ?. by exists s'.
  - intros H. apply IH in H as (s & Hs & [Hb1 Hb2] & Hn). rewrite lookup_alter in Hs.
    destruct (decide (snd p = a)) as [Heq|Hne].
    + rewrite Heq in Hs. destruct (m !! a) as [s0|]; simpl in Hs; [|done].
      injection Hs as <-. exists s0. split; [done|]. split; [done|]. intros Hp. by destruct (Hp p); [set_solver|].
    + exists s. split; [done|]. split; [done|]. intros Hp. apply Hn. set_solver.
Qed.

(** Dropping subscriptions of one record and closing their channels. *)
Lemma close_some_wf i rec' l b :
  wf_subs b ->
  (forall id a, in_subs rec' !! id = Some a -> subscribed b i id a) ->
  (in_finished rec' = true -> in_subs rec' = ∅) ->
  (forall p, p ∈ l -> exists id, subscribed b i id (snd p) /\ in_subs rec' !! id = None) ->
  wf_subs (set_subs (alter_all sub_close l (b_subs b)) (set_insts (<[i := rec']> (b_insts b)) b)).
Proof.
  intros Hw Hrec Hfin Hl. set (b' := set_subs _ _).
  assert (Hsub : forall i' id a, subscribed b' i' id a -> subscribed b i' id a /\ forall p, p ∈ l -> snd p <> a).
  { intros i' id a (rec & Hr & Hs). simpl in Hr. rewrite lookup_insert in Hr.
    destruct (decide (i = i')) as [<-|Hne].
    - injection Hr as <-. split; [auto|]. intros p (id' & Hp & Hn)%Hl Heq. rewrite Heq in Hp.
      destruct (ws_inj b Hw _ _ _ _ _ (Hrec _ _ Hs) Hp) as [_ <-]. congruence.
    - assert (Hs' : subscribed b i' id a) by (by exists rec). split; [done|].
      intros p (id' & Hp & _)%Hl Heq. rewrite Heq in Hp. apply Hne. by destruct (ws_inj b Hw _ _ _ _ _ Hp Hs'). }
  pose proof Hw as [H1 H2 H3 H4 H5 H6]. split.
  - intros i' id a Hs. apply Hsub in Hs as [Hs Hout]. destruct (H1 _ _ _ Hs) as [? (s & Hs1 & Hc)].
    split; [done|]. destruct (alter_all_dom sub_close l _ _ _ Hs1) as [s' Hs'].
    exists s'. split; [done|]. destruct (alter_all_close _ _ _ _ Hs') as (s0 & Hs0 & _ & Heq).
    rewrite Heq by done. congruence.
  - intros i1 id1 i2 id2 a Ha1 Ha2. apply Hsub in Ha1 as [? _], Ha2 as [? _]. eauto.
  - intros i' rec. simpl. rewrite lookup_insert. destruct (decide (i = i')); [|apply H3]. by intros [= <-].
  - intros a s' Hs'. destruct (alter_all_close _ _ _ _ Hs') as (s & Hs & [-> ->] & _). eauto.
  - intros a s' Hs'. destruct (alter_all_close _ _ _ _ Hs') as (s & Hs & _). simpl. eauto.
  - intros i' id a Hc Hs. apply Hsub in Hs as [Hs _]. by eapply H6.
Qed.

Lemma settled_state_wf i b : wf_subs b -> wf_subs (settled_state i b).
Proof.
  intros Hw. destruct (settled_state_insts i b) as (Hi & Hs & _ & _).
  assert (Ht : b_closed (settled_state i b) = b_closed b /\ (b_nextSub b <= b_nextSub (settled_state i b))%nat /\
               (b_alloc b <= b_alloc (settled_state i b))%nat).
  { unfold settled_state, recordLocked. destruct (settle_topics i b) as (_ & _ & Hc & Hn & Ha). cbv zeta.
    destruct (_ !! i); repeat split; cbn [snd set_insts set_timers b_closed b_nextSub b_alloc]; done. }
  destruct Ht as (Hc & Hn & Ha). eapply (wf_subs_mono b); try done.
  - intros i' id a (rec & Hr & Hsu). rewrite Hi, lookup_insert in Hr.
    destruct (decide (i = i')) as [<-|]; [|by exists rec]. injection Hr as <-. by apply record_of_subscribed.
  - intros i' rec. rewrite Hi, lookup_insert. destruct (decide (i = i')); [|apply (ws_finished b Hw)].
    intros [= <-]. by apply record_of_finished.
  - rewrite Hs. eauto using tame_refl.
  - rewrite Hs. eauto.
Qed.

Lemma finishLocked_subs_wf now rand i phase extra b : wf_subs b -> wf_subs (finishLocked now rand i phase extra b).
Proof.
  intros Hw. destruct (in_finished (record_of b i)) eqn:Hf.
  - rewrite finishLocked_again by done. by apply settled_state_wf.
  - rewrite (finishLocked_eq now rand i phase extra b Hf). set (b1 := publish_all _ _ _ _ _).
    assert (Hw1 : wf_subs b1) by (by apply publish_all_wf, settled_state_wf).
    destruct (settled_state_insts i b) as (_ & _ & _ & Hr).
    assert (Hsub : in_subs (record_of b1 i) = in_subs (record_of b i)).
    { unfold b1. destruct (publish_all_record now rand i (finish_events phase extra) (settled_state i b)) as [-> _].
      by rewrite Hr. }
    rewrite <- Hsub.
    assert (Hb1 : exists rec, b_insts b1 !! i = Some rec).
    { unfold b1, publish_all, finish_events. destruct extra; simpl; rewrite !publishLocked_eq; simpl;
        rewrite lookup_insert_eq; eauto. }
    destruct Hb1 as [rec Hrec].
    assert (Halter : alter (finish_record (TimeAdd now (eventRetention (b_cfg b1)))) i (b_insts b1) =
      <[i := finish_record (TimeAdd now (eventRetention (b_cfg b1))) rec]> (b_insts b1)).
    { apply map_eq. intros i'. rewrite lookup_alter, lookup_insert.
      destruct (decide (i = i')) as [<-|]; [by rewrite Hrec|done]. }
    rewrite Halter. apply close_some_wf; [done|..].
    + intros id a. simpl. by rewrite lookup_empty.
    + done.
    + intros [id a] Hp. apply elem_of_map_to_list in Hp. exists id.
      split; [by apply record_of_subscribed|]. simpl. by rewrite lookup_empty.
Qed.

(** ** The other operations *)

Lemma insert_fresh_record_wf b i key corr : wf_subs b ->
  wf_subs (set_insts (<[i := empty_instance key corr]> (b_insts b)) b).
Proof.
  intros Hw. eapply (wf_subs_mono b); simpl; try done.
  - intros i' id a (rec & Hr & Hs). simpl in Hr. rewrite lookup_insert in Hr.
    destruct (decide (i = i')) as [<-|]; [|by exists rec]. injection Hr as <-. simpl in Hs. by rewrite lookup_empty in Hs.
  - intros i' rec. rewrite lookup_insert. destruct (decide (i = i')); [|apply (ws_finished b Hw)]. by intros [= <-].
  - eauto using tame_refl.
Qed.

(** Removing records. *)
Lemma shrink_records_wf b m :
  wf_subs b -> (forall i rec, m !! i = Some rec -> b_insts b !! i = Some rec) -> wf_subs (set_insts m b).
Proof.
  intros Hw Hm. eapply (wf_subs_mono b); simpl; try done.
  - intros i' id a (rec & Hr & Hs). exists rec. auto.
  - intros i' rec Hr. apply (ws_finished b Hw i'). auto.
  - eauto using tame_refl.
Qed.

Lemma SubscribeToInstance_wf now i b : wf_subs b -> wf_subs (snd (SubscribeToInstance now i b)).
Proof.
  intros Hw. unfold SubscribeToInstance. destruct (b_closed b) eqn:Hc; [done|]. cbv zeta.
  set (cap := Z.to_nat _). assert (Hcap : (2 <= cap)%nat) by (unfold cap; lia).
  set (a := b_alloc b).
  assert (Hfresh : forall i id a', subscribed b i id a' -> a' <> a).
  { intros i' id a' Hs ->. destruct (ws_open b Hw _ _ _ Hs) as (_ & s & Hs1 & _).
    apply (ws_fresh b Hw) in Hs1. unfold a in Hs1. lia. }
  assert (Hreg : forall ch, (length ch <= 2)%nat -> in_finished (record_of b i) = false ->
    wf_subs (set_insts (<[i := add_sub (b_nextSub b) a (record_of b i)]> (b_insts b))
      (set_nextSub (S (b_nextSub b)) (set_subs (<[a := mkSub ch cap false false]> (b_subs b)) (set_alloc (S a) b))))).
  { intros ch Hch Hfin. set (b' := set_insts _ _).
    assert (Hsub : forall i' id a', subscribed b' i' id a' ->
      subscribed b i' id a' \/ (i' = i /\ id = b_nextSub b /\ a' = a)).
    { intros i' id a' (rec & Hr & Hs). simpl in Hr. rewrite lookup_insert in Hr.
      destruct (decide (i = i')) as [<-|]; [|left; by exists rec]. injection Hr as <-. simpl in Hs.
      rewrite lookup_insert in Hs. destruct (decide _) as [<-|]; [right; by simplify_eq|].
      left. by apply record_of_subscribed. }
    destruct Hw as [H1 H2 H3 H4 H5 H6]. split; simpl.
    - intros i' id a' [Hs|(-> & -> & ->)]%Hsub.
      + destruct (H1 _ _ _ Hs) as [? (s & ? & ?)]. split; [lia|]. exists s.
        rewrite lookup_insert_ne; [done|]. intros Heq. by eapply Hfresh.
      + split; [lia|]. eexists. split; [by rewrite lookup_insert_eq|done].
    - intros i1 id1 i2 id2 a' [Ha1|(-> & -> & ->)]%Hsub [Ha2|(-> & -> & He)]%Hsub.
      + eauto.
      + subst a'. by destruct (Hfresh _ _ _ Ha1).
      + by destruct (Hfresh _ _ _ Ha2).
      + done.
    - intros i' rec. rewrite lookup_insert. destruct (decide (i = i')); [|apply H3].
      intros [= <-]. simpl. congruence.
    - intros a' s. rewrite lookup_insert_Some. intros [[_ <-]|[_ ?]]; [simpl; lia|eauto].
    - intros a' s. rewrite lookup_insert_Some. intros [[<- _]|[_ Hs]]; [lia|]. apply H5 in Hs. unfold a. lia.
    - congruence. }
  destruct (b_insts b !! i) as [rec|] eqn:E; cbn [snd].
  - assert (Hrec : record_of b i = rec) by (unfold record_of; by rewrite E).
    assert (Hch : (length (option_list (in_latestLifecycle rec) ++ option_list (in_terminal rec)) <= 2)%nat)
      by (destruct (in_latestLifecycle rec), (in_terminal rec); simpl; lia).
    destruct (in_finished rec) eqn:Hf; cbn [snd].
    + destruct Hw as [H1 H2 H3 H4 H5 H6]. split; simpl; try done.
      * intros i' id a' Hs. destruct (H1 _ _ _ Hs) as [? (s & ? & ?)]. split; [done|]. exists s.
        rewrite lookup_insert_ne; [done|]. intros Heq. by eapply Hfresh.
      * intros a' s. rewrite lookup_insert_Some. intros [[_ <-]|[_ ?]]; [simpl; lia|eauto].
      * intros a' s. rewrite lookup_insert_Some. intros [[<- _]|[_ Hs]]; [lia|]. apply H5 in Hs. unfold a. lia.
    + rewrite <- Hrec. apply Hreg; [by rewrite Hrec|congruence].
  - assert (Hrec : record_of b i = empty_instance zeroKey None) by (unfold record_of; by rewrite E).
    rewrite <- Hrec. apply Hreg; [simpl; lia|by rewrite Hrec].
Qed.

Lemma cancelInstanceSub_wf i id a b : wf_subs b -> wf_subs (cancelInstanceSub i id a b).
Proof.
  intros Hw. unfold cancelInstanceSub. destruct (b_insts b !! i) as [rec|] eqn:E; [|done].
  case_bool_decide as Hs; [|done].
  change (wf_subs (set_subs (alter_all sub_close [(id, a)] (b_subs b))
    (set_insts (<[i := drop_sub id rec]> (b_insts b)) b))).
  apply close_some_wf; [done|..]; simpl.
  - intros id' a'. rewrite lookup_delete. destruct (decide (id = id')); [done|]. intros ?. by exists rec.
  - intros Hf. apply (ws_finished b Hw _ _ E) in Hf. by rewrite Hf, delete_empty.
  - intros p ->%list_elem_of_singleton. exists id. split; [by exists rec|]. by rewrite lookup_delete_eq.
Qed.

Lemma close_all_buffers l m a s' :
  fold_left (fun m (p : string * inMemInstance) => alter_all sub_close (map_to_list (in_subs (snd p))) m) l m !! a
    = Some s' -> exists s, m !! a = Some s /\ same_buffer s s'.
Proof.
  revert m. induction l as [|p l IH]; intros m; simpl; [by exists s'|].
  intros (s & Hs & [Hc1 Hc2])%IH. destruct (alter_all_close _ _ _ _ Hs) as (s0 & ? & [Hd1 Hd2] & _).
  exists s0. split; [done|]. split; congruence.
Qed.

Lemma Close_subs_wf b : wf_subs b -> wf_subs (Close b).
Proof.
  intros Hw. destruct (b_closed b) eqn:Hc; [unfold Close; by rewrite Hc|].
  unfold Close. rewrite Hc. cbv zeta. rewrite Close_subs_set.
  set (b' := set_regSubs _ _).
  assert (Hno : forall i id a, ~ subscribed b' i id a).
  { intros i id a (rec & Hr & Hs). simpl in Hr. rewrite lookup_fmap in Hr.
    destruct (b_insts b !! i) as [rec0|]; simplify_eq/=. }
  split.
  - intros i id a Hs. by destruct (Hno i id a).
  - intros i1 id1 i2 id2 a Hs. by destruct (Hno i1 id1 a).
  - intros i rec. simpl. rewrite lookup_fmap. destruct (b_insts b !! i) as [rec0|]; [|done]. by intros [= <-].
  - intros a s' Hs'. simpl in Hs'. apply close_all_buffers in Hs' as (s & Hs & -> & ->). by apply (ws_buffer b Hw a).
  - intros a s' Hs'. simpl in *. apply close_all_buffers in Hs' as (s & Hs & _). by apply (ws_fresh b Hw a s).
  - intros i id a _. apply Hno.
Qed.

Lemma sweep_wf now order b : wf_subs b -> wf_subs (sweep now order b).
Proof.
  intros Hw. unfold sweep.
  assert (Hf : same_topics b (fold_left (sweep_worker now) order b)).
  { apply same_topics_fold. intros b' id. unfold sweep_worker. destruct (b_workers b' !! id); [|done].
    destruct (TimeAfter _ _); [|done]. etrans; [|apply emit_all_topics]. st. }
  apply shrink_records_wf; [by apply (same_topics_wf b)|].
  intros i rec Hr. by apply map_lookup_filter_Some in Hr as [? _].
Qed.

Lemma guarded_subs_wf {A} ctx b (k : result A * Broker) :
  wf_subs b -> wf_subs (snd k) -> wf_subs (snd (guarded ctx b k)).
Proof. unfold guarded. intros. repeat dmatch; simpl; done. Qed.

Lemma report_subs_wf ctx i fn b : wf_subs b -> wf_subs (fn b) -> wf_subs (snd (report ctx i fn b)).
Proof. unfold report. intros. repeat dmatch; simpl; done. Qed.

Lemma enqueueLocked_subs_wf rand job b : wf_subs b -> wf_subs (snd (enqueueLocked rand job b)).
Proof. apply same_topics_wf, enqueueLocked_topics. Qed.

Lemma Submit_subs_wf ctx now rand order id req b :
  wf_subs b -> wf_subs (snd (Submit ctx now rand order id req b)).
Proof.
  intros Hw. apply guarded_subs_wf; [done|]. cbv zeta.
  destruct (liveRegistrationLocked _ _ _ _) as [reg|]; [|done].
  destruct (List.find _ _) as [start|]; [|done].
  destruct (match se_InputContract start with Some _ => _ | None => _ end); [done|].
  set (b1 := set_insts _ b). assert (Hw1 : wf_subs b1) by (by apply insert_fresh_record_wf).
  pose proof (enqueueLocked_subs_wf rand (mkJob (StartRequest_Key req)
    (JobStart id (sr_StartID req) (sr_Input req) (sr_CorrelationKey req))) b1 Hw1) as Hw2.
  destruct (enqueueLocked _ _ b1) as [[e|] b2]; simpl in *; [|by apply publishLocked_subs_wf].
  apply shrink_records_wf; [done|]. intros i rec Hr. by apply lookup_delete_Some in Hr as [_ ?].
Qed.

Lemma RegisterProcesses_topics ctx now w regs b :
  same_topics b (snd (RegisterProcesses ctx now w regs b)).
Proof.
  unfold RegisterProcesses, guarded. destruct ctx; [done|]. destruct (b_closed b); [done|].
  destruct (b_workers b !! w) as [wk|].
  - destruct (stamp_regs w now (w_firstReg wk) regs) as [fr rs]. cbn [snd].
    etrans; [|apply emit_all_topics]. etrans; [apply (emit_all_topics RegistryUpdateRemoved (w_regs wk))|]. st.
  - destruct (stamp_regs w now ∅ regs) as [fr rs]. cbn [snd]. etrans; [|apply emit_all_topics]. st.
Qed.

Lemma exec_subs_wf op b : wf_subs b -> wf_subs (snd (exec op b)).
Proof.
  intros Hw. destruct op; simpl.
  - by apply Submit_subs_wf.
  - apply guarded_subs_wf; [done|]. cbv zeta. destruct (liveRegistrationLocked _ _ _ _) as [reg|]; [|done].
    destruct (removeQueuedStartLocked _ _ b) as [b'|] eqn:Er; simpl.
    + apply finishLocked_subs_wf. eapply same_topics_wf; [by eapply remove_topics|done].
    + destruct (pr_AllowExternalCancel reg); simpl; [by apply enqueueLocked_subs_wf|done].
  - apply guarded_subs_wf; [done|]. cbv zeta. destruct (liveRegistrationLocked _ _ _ _) as [reg|]; [|done].
    destruct (pr_AllowExternalTerminate reg); simpl; [by apply enqueueLocked_subs_wf|done].
  - apply guarded_subs_wf; [done|]. destruct (b_insts b !! instanceID) as [rec|]; [|by apply publishLocked_subs_wf].
    destruct (in_finished rec); [by apply publishLocked_subs_wf|by apply enqueueLocked_subs_wf].
  - by apply SubscribeToInstance_wf.
  - by apply cancelInstanceSub_wf.
  - eapply (wf_subs_mono b); simpl; try done; [apply (ws_finished b Hw)|..].
    + intros a' s'. rewrite lookup_alter. destruct (decide (a = a')) as [<-|]; [|eauto using tame_refl].
      destruct (b_subs b !! a) as [s|]; simpl; [|done]. intros [= <-]. exists s. split; [done|].
      repeat split; simpl; try done. destruct (s_ch s); simpl; lia.
    + intros a' s Hs. rewrite lookup_alter. destruct (decide (a = a')) as [<-|]; rewrite Hs; by eexists.
  - eapply same_topics_wf; [|exact Hw]. unfold SubscribeToProcessRegistry. destruct (b_closed b); st.
  - eapply same_topics_wf; [|exact Hw]. st.
  - eapply same_topics_wf; [apply RegisterProcesses_topics|done].
  - apply guarded_subs_wf; [done|]. destruct (b_workers b !! workerID); [|done]. eapply same_topics_wf; [|exact Hw]. st.
  - apply guarded_subs_wf; [done|]. destruct (b_workers b !! workerID) as [w|]; [|done].
    eapply same_topics_wf; [|exact Hw]. simpl. etrans; [|apply emit_all_topics]. st.
  - destruct (b_closed b); [done|]. eapply same_topics_wf; [apply takePendingLocked_topics|done].
  - eapply same_topics_wf; [apply requeue_topics|done].
  - by apply report_subs_wf, publishLocked_subs_wf.
  - apply report_subs_wf; [done|].
    pose proof (same_topics_wf _ _ (settle_topics instanceID _) (publishLocked_subs_wf now rand instanceID
      (InstanceEventLifecycle ProcessStatusSuspended) b Hw)) as H.
    destruct resumeAt; [|done]. eapply same_topics_wf; [|exact H]. st.
  - unfold resumeTimer. cbv zeta. set (b1 := set_timers _ b).
    assert (Hw1 : wf_subs b1) by (eapply same_topics_wf; [|exact Hw]; st).
    destruct (b_insts b1 !! instanceID); [|done]. destruct (b_closed b1 || _); [done|]. by apply enqueueLocked_subs_wf.
  - by apply report_subs_wf, finishLocked_subs_wf.
  - by apply report_subs_wf, finishLocked_subs_wf.
  - by apply report_subs_wf, finishLocked_subs_wf.
  - by apply report_subs_wf, publishLocked_subs_wf.
  - by apply report_subs_wf, publishLocked_subs_wf.
  - by apply report_subs_wf, publishLocked_subs_wf.
  - by apply sweep_wf.
  - by apply Close_subs_wf.
Qed.

Lemma run_ops_subs_wf ops b : wf_subs b -> wf_subs (run_ops ops b).
Proof.
  unfold run_ops. revert b. induction ops as [|op ops IH]; intros b Hw; simpl; [done|].
  by apply IH, exec_subs_wf.
Qed.

(** ** The wire trip of an event *)

(** What CBOR keeps of an event: everything but the shape of the host values in
    its payload and the zone of its time. *)
Definition body_equiv (x y : EventBody) : Prop :=
  match x, y with
  | InstanceEventLifecycle p, InstanceEventLifecycle p' => p = p'
  | InstanceEventInputRequest n r _, InstanceEventInputRequest n' r' _ => n = n' /\ r = r'
  | InstanceEventNodeCompleted n k _, InstanceEventNodeCompleted n' k' _ => n = n' /\ k = k'
  | InstanceEventError e, InstanceEventError e' => e = e'
  | InstanceEventResult r, InstanceEventResult r' => er_Status r = er_Status r'
  | _, _ => False
  end.

Definition wire_equiv (x y : InstanceEvent) : Prop :=
  ev_InstanceID y = ev_InstanceID x /\ ev_CorrelationKey y = ev_CorrelationKey x /\
  TimeCompare (ev_OccurredAt y) (ev_OccurredAt x) = 0 /\ body_equiv (ev_body x) (ev_body y).

(** What the broker relies on of the CBOR library for events. *)
Class EventWire : Prop :=
  event_wire e d e' : Marshal e = Ok d -> Unmarshal d = Ok e' -> wire_equiv e e'.

(** The wire is usable: envelopes round trip, the cipher undoes itself. *)
Definition wire_ok (b : Broker) (rand : Rand) : Prop :=
  CborLaws Envelope /\ (forall c, cfg_cipher (b_cfg b) = Some c -> CipherLaws c) /\ fills rand.

Lemma TimeCompare_refl t : TimeCompare t t = 0.
Proof. unfold TimeCompare. by rewrite !Z.ltb_irrefl. Qed.

Lemma wire_equiv_refl e : wire_equiv e e.
Proof.
  repeat split; [apply TimeCompare_refl|]. destruct (ev_body e); simpl; auto.
Qed.

(** Decoding an encoded body: the payload is what was marshalled. *)
Lemma envelope_trip {B} `{!Cbor B} kind i corr (body : B) cipher rand :
  CborLaws Envelope -> (forall c, cipher = Some c -> CipherLaws c) -> fills rand ->
  match (let! data := EncodeEnvelope kind i corr body cipher rand in
         let! env := DecodeEnvelope data cipher in DecodePayload (B := B) env) with
  | Ok body' => exists d, Marshal body = Ok d /\ Unmarshal d = Ok body'
  | Err _ => True
  end.
Proof.
  intros Hl Hc Hr. destruct (EncodeEnvelope kind i corr body cipher rand) as [data|e] eqn:E; simpl; [|done].
  apply EncodeEnvelope_ok in E as (payload & env & Hp & Hs & Hm).
  apply cbor_roundtrip in Hm. apply seal_envelope_ok in Hs. unfold DecodeEnvelope. rewrite Hm. simpl.
  destruct cipher as [c|].
  - destruct Hs as (ct & nonce & He & ->). simpl in *.
    rewrite (@cipher_roundtrip c (Hc c eq_refl) _ _ _ _ Hr He). simpl. unfold DecodePayload. simpl.
    destruct (Unmarshal payload) eqn:Eu; simpl; eauto.
  - subst env. simpl. unfold DecodePayload. simpl. destruct (Unmarshal payload) eqn:Eu; simpl; eauto.
Qed.

Lemma roundTripEvent_equiv `{!EventWire} rand b e :
  wire_ok b rand -> wire_equiv e (roundTripEvent rand b e).
Proof.
  intros (Hl & Hc & Hr). unfold roundTripEvent.
  pose proof (envelope_trip KindInstanceEvent (ev_InstanceID e) (ev_CorrelationKey e) e
    (cfg_cipher (b_cfg b)) rand Hl Hc Hr) as Ht.
  destruct (result_bind _ _) as [e'|]; [|apply wire_equiv_refl].
  destruct Ht as (d & Hm & Hu). by eapply event_wire.
Qed.

(** ** Outcomes *)

(** The three terminal reports. *)
Inductive Outcome : Type := Completed (res : EvaluationResult) | Failed (err : InstanceError) | Cancelled.

Definition outcome_phase (o : Outcome) : ProcessStatus :=
  match o with
  | Completed _ => ProcessStatusCompleted
  | Failed _ => ProcessStatusFailed
  | Cancelled => ProcessStatusCancelled
  end.

Definition outcome_extra (o : Outcome) : option EventBody :=
  match o with
  | Completed res => Some (InstanceEventResult res)
  | Failed err => Some (InstanceEventError err)
  | Cancelled => None
  end.

Definition report_outcome (now : Time) (rand : Rand) (i : string) (o : Outcome) : Broker -> result unit * Broker :=
  match o with
  | Completed res => ReportCompleted None now rand i res
  | Failed err => ReportFailed None now rand i err
  | Cancelled => ReportCancelled None now rand i
  end.

Lemma report_outcome_eq now rand i o b :
  i <> ""%string -> b_closed b = false ->
  report_outcome now rand i o b = (Ok tt, finishLocked now rand i (outcome_phase o) (outcome_extra o) b).
Proof.
  intros Hi Hc. destruct o; unfold report_outcome, ReportCompleted, ReportFailed, ReportCancelled, report;
    rewrite (proj2 (String.eqb_neq _ _) Hi), Hc; done.
Qed.

Lemma alter_all_lookup f l m a :
  NoDup (map snd l) -> alter_all f l m !! a = if bool_decide (a ∈ map snd l) then f <$> m !! a else m !! a.
Proof.
  unfold alter_all. revert m. induction l as [|p l IH]; intros m Hnd; cbn [fold_left map] in *.
  { by rewrite bool_decide_false by set_solver. }
  apply NoDup_cons in Hnd as [Hp Hnd]. rewrite IH by done.
  destruct (decide (snd p = a)) as [<-|Hne].
  - rewrite (bool_decide_false (snd p ∈ map snd l)) by done.
    rewrite (bool_decide_true (snd p ∈ snd p :: map snd l)) by set_solver. by rewrite lookup_alter_eq.
  - rewrite lookup_alter_ne by done.
    by rewrite (bool_decide_ext (a ∈ snd p :: map snd l) (a ∈ map snd l)) by set_solver.
Qed.

Lemma subs_nodup b i : wf_subs b -> NoDup (map snd (map_to_list (in_subs (record_of b i)))).
Proof.
  intros Hw. apply NoDup_fmap_2_strong; [|apply NoDup_map_to_list].
  intros [id1 a1] [id2 a2] H1 H2 Heq. simpl in Heq. subst a2.
  apply elem_of_map_to_list, record_of_subscribed in H1, H2.
  by destruct (ws_inj b Hw _ _ _ _ _ H1 H2) as [_ ->].
Qed.

Lemma subscribed_list b i id a :
  subscribed b i id a -> a ∈ map snd (map_to_list (in_subs (record_of b i))).
Proof.
  intros (rec & Hr & Hs). apply list_elem_of_fmap. exists (id, a). split; [done|].
  apply elem_of_map_to_list. unfold record_of. by rewrite Hr.
Qed.

(** The channel of a subscriber after a publication. *)
Lemma publish_channel now rand i body b id a s :
  wf_subs b -> subscribed b i id a -> b_subs b !! a = Some s ->
  b_subs (publishLocked now rand i body b) !! a = Some (send now (published now rand b i body) i s).
Proof.
  intros Hw Hs Ha. rewrite publishLocked_eq. simpl. rewrite alter_all_lookup by (by apply subs_nodup).
  rewrite bool_decide_true by (by eapply subscribed_list). by rewrite Ha.
Qed.

Lemma published_cfg now rand b b' i body :
  b_cfg b' = b_cfg b -> in_correlationKey (record_of b' i) = in_correlationKey (record_of b i) ->
  published now rand b' i body = published now rand b i body.
Proof. intros Hc Hr. unfold published, roundTripEvent. by rewrite Hc, Hr. Qed.

Lemma published_equiv `{!EventWire} now rand b i body :
  wire_ok b rand ->
  wire_equiv (mkInstanceEvent i (in_correlationKey (record_of b i)) now body) (published now rand b i body).
Proof. apply roundTripEvent_equiv. Qed.

(** What the record holds after the events of an outcome. *)
Lemma retain_outcome o l t rec :
  body_equiv (InstanceEventLifecycle (outcome_phase o)) (ev_body l) ->
  (forall body, outcome_extra o = Some body -> body_equiv body (ev_body t)) ->
  in_latestLifecycle (retain l rec) = Some l /\ in_terminal (retain l rec) = in_terminal rec /\
  (outcome_extra o <> None ->
    in_latestLifecycle (retain t (retain l rec)) = Some l /\ in_terminal (retain t (retain l rec)) = Some t).
Proof.
  intros Hl Ht. destruct l as [li lc lt lb]. simpl in Hl. destruct lb as [p| | | |]; try done. subst p.
  split; [done|]. split; [done|]. intros Ho.
  destruct o as [res|err|]; [| |done]; specialize (Ht _ eq_refl); unfold retain at 1 3; simpl;
    destruct (ev_body t); try done.
Qed.

Lemma publishLocked_timers now rand i body b : b_timers (publishLocked now rand i body b) = b_timers b.
Proof. by rewrite publishLocked_eq. Qed.

Lemma recordLocked_timers i b : b_timers (snd (recordLocked i b)) = b_timers b.
Proof. unfold recordLocked. by destruct (b_insts b !! i). Qed.

Lemma settled_state_timers i b : b_timers (settled_state i b) !! i = None.
Proof.
  unfold settled_state. cbv zeta. rewrite recordLocked_timers. cbn [set_timers b_timers].
  by rewrite lookup_delete_eq.
Qed.

(** The final state of an outcome, field by field. *)
Lemma outcome_state now rand i o b :
  wf_subs b -> in_finished (record_of b i) = false ->
  let b' := finishLocked now rand i (outcome_phase o) (outcome_extra o) b in
  let l := published now rand b i (InstanceEventLifecycle (outcome_phase o)) in
  let ts := map (published now rand b i) (option_list (outcome_extra o)) in
  b_insts b' !! i = Some (finish_record (TimeAdd now (eventRetention (b_cfg b)))
                            (fold_left (fun r e => retain e r) (l :: ts) (record_of b i))) /\
  b_timers b' !! i = None /\ flight_of b' i = [] /\ b_closed b' = b_closed b /\
  forall id a s, subscribed b i id a -> b_subs b !! a = Some s ->
    b_subs b' !! a = Some (sub_close (fold_left (fun s e => send now e i s) (l :: ts) s)).
Proof.
  intros Hw Hf b' l ts.
  assert (Hflight : flight_of b' i = []).
  { unfold b'. rewrite (same_jobs_flight _ _ _ (finishLocked_same now rand i (outcome_phase o) (outcome_extra o) b)).
    unfold flight_of. destruct (settle_fields i b) as (_ & _ & _ & _ & _ & -> & _). by rewrite lookup_delete_eq. }
  assert (Hclosed : b_closed b' = b_closed b).
  { unfold b'. destruct (finishLocked_same now rand i (outcome_phase o) (outcome_extra o) b) as (_&_&_&_&_&_& -> &_).
    by destruct (settle_fields i b) as (_&_&_& -> &_). }
  enough (Hgoal : b_insts b' !! i = Some (finish_record (TimeAdd now (eventRetention (b_cfg b)))
                            (fold_left (fun r e => retain e r) (l :: ts) (record_of b i))) /\
    b_timers b' !! i = None /\
    forall id a s, subscribed b i id a -> b_subs b !! a = Some s ->
      b_subs b' !! a = Some (sub_close (fold_left (fun s e => send now e i s) (l :: ts) s)))
    by (destruct Hgoal as (? & ? & ?); auto).
  clear Hflight Hclosed. unfold ts. clear ts.
  destruct (settled_state_insts i b) as (Hi0 & Hs0 & Hc0 & Hr0).
  pose proof (settled_state_wf i b Hw) as Hw0. pose proof (settled_state_timers i b) as Ht0.
  unfold b'. rewrite (finishLocked_eq now rand i _ _ b Hf). set (b0 := settled_state i b) in *.
  set (b1 := publishLocked now rand i (InstanceEventLifecycle (outcome_phase o)) b0).
  assert (Hl : published now rand b0 i (InstanceEventLifecycle (outcome_phase o)) = l)
    by (apply published_cfg; [done|by rewrite Hr0]).
  assert (Hb1 : b_insts b1 !! i = Some (retain l (record_of b i)) /\ b_cfg b1 = b_cfg b /\ b_timers b1 !! i = None).
  { unfold b1. rewrite publishLocked_eq. simpl. by rewrite lookup_insert_eq, Hl, Hr0. }
  destruct Hb1 as (Hb1 & Hcfg1 & Ht1).
  assert (Hch1 : forall id a s, subscribed b i id a -> b_subs b !! a = Some s ->
    subscribed b1 i id a /\ b_subs b1 !! a = Some (send now l i s)).
  { intros id a s (rec & Hrec & Hsub) Hs. assert (Hro : record_of b i = rec) by (unfold record_of; by rewrite Hrec).
    split.
    - exists (retain l (record_of b i)). split; [done|]. by rewrite retain_subs, Hro.
    - unfold b1. rewrite <- Hl. eapply publish_channel; [done| |by rewrite Hs0].
      exists rec. rewrite Hi0, lookup_insert_eq. by rewrite Hro. }
  assert (Hw1 : wf_subs b1) by (by apply publishLocked_subs_wf).
  assert (Hro1 : record_of b1 i = retain l (record_of b i)) by (unfold record_of; by rewrite Hb1).
  pose proof (subs_nodup b i Hw) as Hnd.
  destruct (outcome_extra o) as [body|] eqn:Eo; unfold finish_events, publish_all; cbn [option_list fold_left].
  - fold b1. set (b2 := publishLocked now rand i body b1).
    assert (Ht : published now rand b1 i body = published now rand b i body).
    { apply published_cfg; [done|]. by rewrite Hro1, retain_corr. }
    assert (Hb2 : b_insts b2 !! i = Some (retain (published now rand b i body) (retain l (record_of b i))) /\
                  b_cfg b2 = b_cfg b /\ b_timers b2 !! i = None).
    { unfold b2. rewrite publishLocked_eq. simpl. by rewrite lookup_insert_eq, Ht, Hro1. }
    destruct Hb2 as (Hb2 & Hcfg2 & Ht2). simpl. split; [by rewrite lookup_alter_eq, Hb2, Hcfg2|].
    split; [done|].
    intros id a s Hsub Hs. destruct (Hch1 _ _ _ Hsub Hs) as [Hsub1 Hs1].
    rewrite alter_all_lookup, bool_decide_true by (done || by eapply subscribed_list).
    unfold b2. rewrite (publish_channel now rand i body b1 id a _ Hw1 Hsub1 Hs1), Ht. done.
  - fold b1. simpl. split; [by rewrite lookup_alter_eq, Hb1, Hcfg1|].
    split; [done|].
    intros id a s Hsub Hs. destruct (Hch1 _ _ _ Hsub Hs) as [Hsub1 Hs1].
    rewrite alter_all_lookup, bool_decide_true by (done || by eapply subscribed_list). by rewrite Hs1.
Qed.

Lemma SubscribeToInstance_finished now i b rec :
  b_closed b = false -> b_insts b !! i = Some rec -> in_finished rec = true ->
  fst (SubscribeToInstance now i b) = Ok (b_alloc b) /\
  b_subs (snd (SubscribeToInstance now i b)) !! b_alloc b =
    Some (mkSub (option_list (in_latestLifecycle rec) ++ option_list (in_terminal rec))
            (Z.to_nat (Z.max (eventBufferSize (b_cfg b)) 2)) false true).
Proof.
  intros Hc Hi Hf. unfold SubscribeToInstance. rewrite Hc, Hi, Hf. simpl. by rewrite lookup_insert_eq.
Qed.

(** ** What leaves a finished record alone *)

(** The record of instance [i] is the same, and the broker as open. *)
Definition same_at (i : string) (b b' : Broker) : Prop :=
  b_insts b' !! i = b_insts b !! i /\ b_closed b' = b_closed b.

#[local] Instance same_at_refl i : Reflexive (same_at i).
Proof. by intros b. Qed.

#[local] Instance same_at_trans i : Transitive (same_at i).
Proof. intros b1 b2 b3 [??] [??]. split; congruence. Qed.

Lemma same_topics_at i b b' : same_topics b b' -> same_at i b b'.
Proof. intros (Hi & _ & Hc & _). split; [by rewrite Hi|done]. Qed.

Lemma publishLocked_at now rand j body b i : j <> i -> same_at i b (publishLocked now rand j body b).
Proof. intros Hj. rewrite publishLocked_eq. split; [|done]. simpl. by rewrite lookup_insert_ne. Qed.

Lemma recordLocked_at j b i : j <> i -> same_at i b (snd (recordLocked j b)).
Proof. intros Hj. unfold recordLocked. destruct (b_insts b !! j); [done|]. split; [|done]. simpl. by rewrite lookup_insert_ne. Qed.

(** Finishing another instance, or one that has finished. *)
Lemma finishLocked_at now rand j phase extra b i :
  j <> i \/ in_finished (record_of b j) = true -> same_at i b (finishLocked now rand j phase extra b).
Proof.
  intros Hj. unfold finishLocked. rewrite recordLocked_settled.
  assert (Hs : same_at i b (settled_state j b)).
  { destruct (settle_topics j b) as (Hi & _ & Hc & _). split.
    - destruct (settled_state_insts j b) as (-> & _). destruct (decide (j = i)) as [->|Hne].
      + destruct Hj as [|Hf]; [done|]. unfold record_of in *. rewrite lookup_insert_eq.
        destruct (b_insts b !! i); done.
      + by rewrite lookup_insert_ne.
    - unfold settled_state. rewrite <- Hc. unfold recordLocked. by repeat dmatch. }
  destruct (in_finished (record_of b j)) eqn:Hf; [done|]. destruct Hj as [Hj|]; [|done].
  rewrite each_sub_set. etrans; [exact Hs|].
  assert (Hp : forall b1, same_at i b1 (publishLocked now rand j (InstanceEventLifecycle phase) b1))
    by (intros; by apply publishLocked_at).
  etrans; [apply Hp|]. set (b1 := publishLocked _ _ _ _ _).
  destruct extra as [body|]; cbv zeta.
  - etrans; [by apply (publishLocked_at now rand j body b1)|]. split; [|done]. simpl. by rewrite lookup_alter_ne.
  - split; [|done]. simpl. by rewrite lookup_alter_ne.
Qed.

Lemma guarded_at {A} i ctx b (k : result A * Broker) :
  same_at i b (snd k) -> same_at i b (snd (guarded ctx b k)).
Proof. unfold guarded. intros. by repeat dmatch. Qed.

Lemma report_at i ctx j fn b : same_at i b (fn b) -> same_at i b (snd (report ctx j fn b)).
Proof. unfold report. intros. by repeat dmatch. Qed.

Lemma Submit_at i ctx now rand order id req b :
  id <> i -> same_at i b (snd (Submit ctx now rand order id req b)).
Proof.
  intros Hid. apply guarded_at. cbv zeta.
  destruct (liveRegistrationLocked _ _ _ _) as [reg|]; [|done].
  destruct (List.find _ _) as [start|]; [|done].
  destruct (match se_InputContract start with Some _ => _ | None => _ end); [done|].
  set (b1 := set_insts _ b). set (job := mkJob _ _).
  assert (Hb : same_at i b b1) by (split; [simpl; by rewrite lookup_insert_ne|done]).
  pose proof (same_topics_at i _ _ (enqueueLocked_topics rand job b1)) as Hk.
  destruct (enqueueLocked rand job b1) as [[e|] b2]; simpl in *; (etrans; [exact Hb|]); (etrans; [exact Hk|]).
  - split; [|done]. simpl. by rewrite lookup_delete_ne.
  - by apply publishLocked_at.
Qed.

(** Operations that put no event on the topic of instance [i] that was not
    offered before it finished: terminal reports and Cancel are allowed, a sweep
    only while the retention period lasts, closing the broker is not. *)
Definition quiet_for (i : string) (expires : Time) (op : Op) : bool :=
  match op with
  | OSubmit _ _ _ _ j _ | ORespond _ _ _ j _ _ | OReportRunning _ _ _ j | OReportSuspended _ _ _ j _
  | OPostError _ _ _ j _ | OPostInputRequest _ _ _ j _ _ _ | OPostNodeCompleted _ _ _ j _ _ _ =>
      negb (String.eqb j i)
  | OSweep now _ => negb (TimeAfter now expires)
  | OClose => false
  | _ => true
  end.

Lemma finish_at now rand j phase extra b i rec :
  b_insts b !! i = Some rec -> in_finished rec = true -> same_at i b (finishLocked now rand j phase extra b).
Proof.
  intros Hi Hf. apply finishLocked_at. destruct (decide (j = i)) as [->|]; [right|by left].
  unfold record_of. by rewrite Hi.
Qed.

Lemma Cancel_at ctx now rand order req b i rec :
  b_insts b !! i = Some rec -> in_finished rec = true -> same_at i b (snd (Cancel ctx now rand order req b)).
Proof.
  intros Hi Hf. apply guarded_at. cbv zeta.
  destruct (liveRegistrationLocked _ _ _ _) as [reg|]; [|done].
  destruct (removeQueuedStartLocked _ _ b) as [b'|] eqn:Er; simpl.
  - pose proof (remove_topics _ _ _ _ Er) as Ht. etrans; [by apply same_topics_at|].
    apply (finish_at _ _ _ _ _ _ _ rec); [|done]. destruct Ht as (-> & _). done.
  - destruct (pr_AllowExternalCancel reg); simpl; [|done]. apply same_topics_at, enqueueLocked_topics.
Qed.

Lemma SubscribeToInstance_at now j b i rec :
  b_insts b !! i = Some rec -> in_finished rec = true -> same_at i b (snd (SubscribeToInstance now j b)).
Proof.
  intros Hi Hf. unfold SubscribeToInstance. destruct (b_closed b); [done|]. destruct (decide (j = i)) as [->|Hj].
  - rewrite Hi, Hf. done.
  - destruct (b_insts b !! j) as [r|]; [destruct (in_finished r)|]; split; simpl; try done; by rewrite lookup_insert_ne.
Qed.

Lemma cancelInstanceSub_at j id a b i rec :
  b_insts b !! i = Some rec -> in_subs rec = ∅ -> same_at i b (cancelInstanceSub j id a b).
Proof.
  intros Hi Hs. unfold cancelInstanceSub. destruct (b_insts b !! j) as [r|] eqn:Hr; [|done].
  case_bool_decide as Hid; [|done]. destruct (decide (j = i)) as [->|Hj].
  - rewrite Hi in Hr. injection Hr as <-. by rewrite Hs, lookup_empty in Hid.
  - split; [|done]. simpl. by rewrite lookup_insert_ne.
Qed.

Lemma sweep_at now order b i rec :
  b_insts b !! i = Some rec -> TimeAfter now (in_expiresAt rec) = false -> same_at i b (sweep now order b).
Proof.
  intros Hi He. unfold sweep.
  assert (Hs : same_topics b (fold_left (sweep_worker now) order b)).
  { apply same_topics_fold. intros b' x. unfold sweep_worker. repeat dmatch; try done.
    etrans; [|apply emit_all_topics]. st. }
  destruct Hs as (Hb & _ & Hc & _). split; [|done]. simpl. rewrite Hb, Hi.
  apply map_lookup_filter_Some. split; [done|]. simpl. unfold expired. by rewrite He, andb_false_r.
Qed.

Lemma exec_at op b i rec :
  b_insts b !! i = Some rec -> in_finished rec = true -> in_subs rec = ∅ ->
  quiet_for i (in_expiresAt rec) op = true -> same_at i b (snd (exec op b)).
Proof.
  intros Hi Hf Hs Hq.
  assert (Hfin : forall now rand j phase extra, same_at i b (finishLocked now rand j phase extra b))
    by (intros; by eapply finish_at).
  destruct op; simpl in *;
    try (apply negb_true_iff, String.eqb_neq in Hq);
    try (by apply report_at, publishLocked_at); try (by apply report_at, Hfin);
    try (by apply same_topics_at; st); try done.
  - by apply Submit_at.
  - by eapply Cancel_at.
  - apply guarded_at. cbv zeta. destruct (liveRegistrationLocked _ _ _ _) as [reg|]; [|done].
    destruct (pr_AllowExternalTerminate reg); simpl; [|done]. apply same_topics_at, enqueueLocked_topics.
  - apply guarded_at. destruct (b_insts b !! instanceID) as [r|]; [|by apply publishLocked_at].
    destruct (in_finished r); [by apply publishLocked_at|]. apply same_topics_at, enqueueLocked_topics.
  - by eapply SubscribeToInstance_at.
  - by eapply cancelInstanceSub_at.
  - unfold SubscribeToProcessRegistry. destruct (b_closed b); [done|]. apply same_topics_at; st.
  - apply same_topics_at, RegisterProcesses_topics.
  - apply guarded_at. repeat dmatch; simpl; done || (apply same_topics_at; st).
  - apply guarded_at. repeat dmatch; simpl; [|done]. apply same_topics_at. etrans; [|apply emit_all_topics]. st.
  - destruct (b_closed b); [done|]. apply same_topics_at, takePendingLocked_topics.
  - apply same_topics_at, requeue_topics.
  - apply report_at. etrans; [by apply publishLocked_at|]. etrans; [apply same_topics_at, settle_topics|].
    destruct resumeAt; [|done]. apply same_topics_at; st.
  - unfold resumeTimer. repeat dmatch; simpl; try (apply same_topics_at; st).
    etrans; [|apply same_topics_at, enqueueLocked_topics]. apply same_topics_at; st.
  - eapply sweep_at; [done|]. by destruct (TimeAfter _ _).
Qed.

Lemma run_ops_at ops b i rec :
  b_insts b !! i = Some rec -> in_finished rec = true -> in_subs rec = ∅ ->
  Forall (fun op => quiet_for i (in_expiresAt rec) op = true) ops -> same_at i b (run_ops ops b).
Proof.
  intros Hi Hf Hs Hq. revert b Hi. induction Hq as [|op ops Hop _ IH]; intros b Hi; [done|].
  pose proof (exec_at op b i rec Hi Hf Hs Hop) as He. etrans; [exact He|].
  apply IH. destruct He as [-> _]. done.
Qed.

(** Offering an outcome of [i] once more. *)
Definition outcome_of (op : Op) : option string :=
  match op with
  | OCancel _ _ _ _ req => Some (cr_InstanceID req)
  | OReportCompleted _ _ _ i _ | OReportFailed _ _ _ i _ | OReportCancelled _ _ _ i => Some i
  | _ => None
  end.

Definition same_records (b b' : Broker) : Prop := b_insts b' = b_insts b /\ b_subs b' = b_subs b.

Lemma finish_again_records now rand i phase extra b :
  in_finished (record_of b i) = true -> same_records b (finishLocked now rand i phase extra b).
Proof.
  intros Hf. unfold same_records. rewrite finishLocked_again by done.
  destruct (settled_state_insts i b) as (-> & -> & _). split; [|done].
  unfold record_of in *. destruct (b_insts b !! i) as [rec|] eqn:E; [|done]. by apply insert_id.
Qed.

Lemma exec_outcome_records op i b :
  outcome_of op = Some i -> in_finished (record_of b i) = true -> same_records b (snd (exec op b)).
Proof.
  intros Ho Hf.
  assert (Hrep : forall ctx now rand phase extra,
    same_records b (snd (report ctx i (finishLocked now rand i phase extra) b))).
  { intros. unfold report. repeat dmatch; simpl; try done. by apply finish_again_records. }
  destruct op; try discriminate Ho; injection Ho as <-; try apply Hrep. unfold exec, Cancel, guarded. simpl.
  repeat dmatch; simpl; try done; cbn [snd].
  - pose proof (remove_topics _ _ _ _ Heqo1) as (Hi & Hs & _).
    destruct (finish_again_records now rand (cr_InstanceID req) ProcessStatusCancelled None b0) as [H1 H2];
      [unfold record_of in *; by rewrite Hi|]. split; congruence.
  - match goal with |- context [enqueueLocked ?r ?j b] => destruct (enqueueLocked_topics r j b) as (? & ? & _) end.
    done.
Qed.

(** ** Claims *)

(** In every run of the broker each subscriber channel has room for at least
    two events and never holds more than its room; while subscribed it is open
    and belongs to one subscription; a finished instance, and every instance of
    a closed broker, has no subscriber left. *)
Theorem broker_subscribers_consistent (opts : list InMemoryBrokerOption) (ops : list Op) :
  wf_subs (run_ops ops (NewInMemoryMessageBroker opts)).
Proof. apply run_ops_subs_wf, wf_subs_new. Qed.

(** C3. A terminal report finishes the instance exactly once and for all to see.
    In any run, reporting an outcome on an unfinished instance succeeds; it
    settles the instance's jobs and resume timer, retains the terminal lifecycle
    event and the result or error event, starts the retention period, sends
    both events in that order to every subscriber and then closes its channel.
    Whoever subscribes later gets a closed channel that replays them, after any
    operations in between other than closing the broker, a sweep after the
    retention period, and reports, posts or responses that put another event on
    this instance's topic. *)
Theorem outcome_delivered_and_closed `{!EventWire}
    (opts : list InMemoryBrokerOption) (ops : list Op) (now now' : Time) (rand : Rand) (i : string) (o : Outcome) :
  let b := run_ops ops (NewInMemoryMessageBroker opts) in
  wire_ok b rand -> i <> ""%string -> b_closed b = false -> in_finished (record_of b i) = false ->
  exists b' rec l ts,
    report_outcome now rand i o b = (Ok tt, b') /\
    b_insts b' !! i = Some rec /\ in_finished rec = true /\ in_subs rec = ∅ /\
    in_expiresAt rec = TimeAdd now (eventRetention (b_cfg b)) /\
    b_timers b' !! i = None /\ flight_of b' i = [] /\
    wire_equiv (mkInstanceEvent i (in_correlationKey (record_of b i)) now
                  (InstanceEventLifecycle (outcome_phase o))) l /\
    Forall2 (fun body t => wire_equiv (mkInstanceEvent i (in_correlationKey (record_of b i)) now body) t)
      (option_list (outcome_extra o)) ts /\
    in_latestLifecycle rec = Some l /\
    (outcome_extra o <> None -> option_list (in_terminal rec) = ts) /\
    (forall id a s, subscribed b i id a -> b_subs b !! a = Some s ->
       b_subs b' !! a = Some (sub_close (fold_left (fun s e => send now e i s) (l :: ts) s))) /\
    forall later, Forall (fun op => quiet_for i (in_expiresAt rec) op = true) later ->
    let b'' := run_ops later b' in
    fst (SubscribeToInstance now' i b'') = Ok (b_alloc b'') /\
    exists s', b_subs (snd (SubscribeToInstance now' i b'')) !! b_alloc b'' = Some s' /\
      s_closed s' = true /\ s_ch s' = l :: option_list (in_terminal rec).
Proof.
  intros b Hwire Hi Hc Hf. assert (Hw : wf_subs b) by apply run_ops_subs_wf, wf_subs_new.
  destruct (outcome_state now rand i o b Hw Hf) as (Hrec & Htim & Hfl & Hcl & Hch).
  set (b' := finishLocked now rand i (outcome_phase o) (outcome_extra o) b) in *.
  set (l := published now rand b i (InstanceEventLifecycle (outcome_phase o))) in *.
  assert (Hl : wire_equiv (mkInstanceEvent i (in_correlationKey (record_of b i)) now
                  (InstanceEventLifecycle (outcome_phase o))) l) by (by apply published_equiv).
  assert (Hlb : body_equiv (InstanceEventLifecycle (outcome_phase o)) (ev_body l)) by apply Hl.
  set (fin := finish_record (TimeAdd now (eventRetention (b_cfg b)))) in *.
  set (ts := map (published now rand b i) (option_list (outcome_extra o))) in *.
  assert (Hlast : in_latestLifecycle (fold_left (fun r e => retain e r) (l :: ts) (record_of b i)) = Some l /\
    (outcome_extra o <> None -> option_list (in_terminal (fold_left (fun r e => retain e r) (l :: ts) (record_of b i))) = ts)).
  { unfold ts. destruct (outcome_extra o) as [body|] eqn:Eo; simpl.
    - destruct (retain_outcome o l (published now rand b i body) (record_of b i) Hlb) as (_ & _ & Hro).
      { rewrite Eo. intros body' [= <-]. apply (published_equiv now rand b i body Hwire). }
      rewrite Eo in Hro. destruct (Hro ltac:(done)) as [-> ->]. done.
    - split; [|done]. destruct (retain_outcome o l l (record_of b i) Hlb) as (-> & _); [|done].
      rewrite Eo. done. }
  destruct Hlast as [Hlast Hterm].
  exists b', (fin (fold_left (fun r e => retain e r) (l :: ts) (record_of b i))), l, ts.
  split; [by apply report_outcome_eq|]. split; [done|]. split; [done|]. split; [done|]. split; [done|].
  split; [done|]. split; [done|]. split; [done|]. split.
  { unfold ts. destruct (outcome_extra o); simpl; [|constructor].
    constructor; [by apply published_equiv|constructor]. }
  split; [done|]. split; [done|]. split; [done|]. intros later Hq b''.
  destruct (run_ops_at later b' i _ Hrec eq_refl eq_refl Hq) as [Hrec' Hcl'].
  destruct (SubscribeToInstance_finished now' i b'' _ ltac:(unfold b''; by rewrite Hcl', Hcl) (eq_trans Hrec' Hrec) eq_refl) as [-> Hs].
  split; [done|]. rewrite Hs. eexists. split; [reflexivity|]. split; [done|].
  cbn [s_ch]. unfold fin, finish_record. cbn [in_latestLifecycle in_terminal]. by rewrite Hlast.
Qed.

(** C2. The first outcome wins: once an instance has finished, no sequence of
    further ReportCompleted, ReportFailed, ReportCancelled and Cancel calls for
    it changes a record or a subscriber's channel; every record and every
    channel of the broker stays as the first outcome left it. *)
Theorem first_outcome_wins (i : string) (later : list Op) (b : Broker) :
  in_finished (record_of b i) = true ->
  Forall (fun op => outcome_of op = Some i) later ->
  b_insts (run_ops later b) = b_insts b /\ b_subs (run_ops later b) = b_subs b.
Proof.
  intros Hf Hl. revert b Hf. induction Hl as [|op later Hop _ IH]; intros b Hf; [done|].
  destruct (exec_outcome_records op i b Hop Hf) as [Hi Hs].
  destruct (IH (snd (exec op b))) as [H1 H2]; [unfold record_of in *; by rewrite Hi|].
  split; [by rewrite <- Hi|by rewrite <- Hs].
Qed.

End Topics.

(** ** Instances of the claims *)

#[global] Instance sampleEventWire : EventWire.
Proof.
  intros e d e'. unfold Marshal, Unmarshal, sampleEventCbor.
  destruct (event_code e) as [c|] eqn:E; [|done]. intros Hd.
  assert (d = put c) as -> by congruence. clear Hd.
  pose proof (get_put c []) as ->%(eq_trans (f_equal get (eq_sym (app_nil_r (put c))))).
  intros [= <-]. destruct e as [i corr [u n loc] body]. unfold event_code in E. simpl in E.
  destruct body as [p| | |[x y]|]; simplify_eq.
  - repeat split; simpl; [unfold TimeCompare; simpl; by rewrite !Z.ltb_irrefl|]. by destruct p.
  - repeat split; simpl. unfold TimeCompare. simpl. by rewrite !Z.ltb_irrefl.
Qed.

Lemma sample_wire_ok b : cfg_cipher (b_cfg b) = None -> wire_ok b zeroRand.
Proof.
  intros Hc. split; [exact (ser_cbor_laws Envelope)|]. split; [by rewrite Hc|].
  intros n x [= <-]. apply length_replicate.
Qed.

(** The submitted sample instance fails with a watcher attached. *)
Definition watched_ops : list Op := sample_ops ++ [OSubscribe t1 "i-1"].
Definition sample_error : InstanceError := mkInstanceError "PROCESS_FAILED" "boom".

(** A late report, a late Cancel and a sweep come between the failure and the
    subscriber that is shown it. *)
Definition sample_later : list Op :=
  [OReportCompleted None t1 zeroRand "i-1" (mkEvaluationResult ProcessStatusCompleted []);
   OCancel None t1 zeroRand ["w1"%string] (mkCancelRequest "ns" "p" "1" "i-1" None);
   OReportRunning None t1 zeroRand "i-2"; OSweep t1 ["w1"%string]].

Lemma outcome_delivered_and_closed_witness :
  exists b' l rec, report_outcome t1 zeroRand "i-1" (Failed sample_error)
               (run_ops watched_ops (NewInMemoryMessageBroker [])) = (Ok tt, b') /\
  b_insts b' !! "i-1"%string = Some rec /\ in_finished rec = true /\
  let b'' := run_ops sample_later b' in
  exists s', b_subs (snd (SubscribeToInstance t1 "i-1" b'')) !! b_alloc b'' = Some s' /\
    s_closed s' = true /\ s_ch s' = l :: option_list (in_terminal rec).
Proof.
  destruct (outcome_delivered_and_closed [] watched_ops t1 t1 zeroRand "i-1" (Failed sample_error)
    (sample_wire_ok (run_ops watched_ops (NewInMemoryMessageBroker [])) ltac:(vm_eq)) ltac:(discriminate) ltac:(vm_eq) ltac:(vm_eq))
    as (b' & rec & l & ts & H1 & H2 & H3 & H4 & H5 & H6 & H7 & H8 & H9 & H10 & H11 & H12 & H13).
  exists b', l, rec. split; [exact H1|]. split; [exact H2|]. split; [exact H3|]. intros b''.
  apply (H13 sample_later). unfold sample_later. rewrite H5.
  repeat first [exact (Forall_nil_2 _) | apply Forall_cons_2; [vm_compute; reflexivity|]].
Defined.

(** The subscriber has room for two events; the instance fails while it is
    full.  Both terminal events are lost, the channel is closed, and no marker
    says that anything is missing. *)
Theorem final_gap_unmarked :
  let b := run_ops (watched_ops ++ [OReportRunning None t1 zeroRand "i-1"; OReportFailed None t1 zeroRand "i-1" sample_error])
             (NewInMemoryMessageBroker [WithEventBufferSize 1]) in
  option_map (fun s => (s_closed s, s_dropped s, map ev_body (s_ch s))) (b_subs b !! 2%nat) =
    Some (true, true, [InstanceEventLifecycle ProcessStatusPending; InstanceEventLifecycle ProcessStatusRunning]).
Proof. cbv zeta. vm_eq. Qed.

Lemma first_outcome_wins_witness :
  let b := run_ops (watched_ops ++ [OReportFailed None t1 zeroRand "i-1" sample_error])
             (NewInMemoryMessageBroker []) in
  let late := [OReportCancelled None t1 zeroRand "i-1";
               OCancel None t1 zeroRand ["w1"%string] (mkCancelRequest "ns" "p" "1" "i-1" None)] in
  b_insts (run_ops late b) = b_insts b.
Proof.
  intros b late. exact (proj1 (first_outcome_wins "i-1" late b ltac:(vm_eq) ltac:(repeat constructor))).
Defined.
