(* ===== verification/BrokerApi.v ===== *)
(** * The broker's calls

    What each call of the in-memory broker guarantees its caller: failures
    change nothing, a closed broker refuses, [Submit] enqueues exactly when the
    registry admits the request, registrations stay live until their deadline,
    and waiting fetchers are woken. *)

From stdpp Require Import relations.
From S2P Require Import Prelude Decimal GoTime Values Schema Messages Wire RegistryPump Broker BrokerJobs BrokerEvents.
#[global] Open Scope Z_scope.

Section Api.
Context {DO : DecimalOps}.
Context `{!Cbor Envelope, !Cbor Job, !Cbor InstanceEvent}.

(** ** Failures *)

Lemma enqueueLocked_error rand job b e : fst (enqueueLocked rand job b) = Some e -> snd (enqueueLocked rand job b) = b.
Proof. unfold enqueueLocked. by destruct (roundTripJob rand b job). Qed.

Lemma enqueue_call_error rand job b e :
  fst (err_of (done_or (enqueueLocked rand job b))) = Some e ->
  snd (err_of (done_or (enqueueLocked rand job b))) = b.
Proof. unfold enqueueLocked. by destruct (roundTripJob rand b job). Qed.

(** The id generator never repeats an id the broker holds. *)
Definition fresh_id (op : Op) (b : Broker) : Prop :=
  match op with
  | OSubmit _ _ _ _ id _ => b_insts b !! id = None
  | _ => True
  end.

Lemma Submit_error ctx now rand order id req b e :
  b_insts b !! id = None -> fst (Submit ctx now rand order id req b) = Err e ->
  snd (Submit ctx now rand order id req b) = b.
Proof.
  intros Hid. unfold Submit, guarded. destruct ctx; [done|]. destruct (b_closed b); [done|].
  destruct (liveRegistrationLocked _ _ _ _) as [reg|]; [|done].
  destruct (List.find _ _) as [start|]; [|done].
  destruct (match se_InputContract start with Some _ => _ | None => _ end); [done|].
  set (b1 := set_insts _ b). destruct (enqueueLocked _ _ b1) as [[e'|] b2] eqn:E; [|done]. intros _.
  pose proof (enqueueLocked_error rand (mkJob (StartRequest_Key req)
    (JobStart id (sr_StartID req) (sr_Input req) (sr_CorrelationKey req))) b1 e') as He.
  rewrite E in He. simpl in *. rewrite (He eq_refl). unfold b1. simpl.
  destruct b. unfold set_insts. simpl in *. f_equal. by rewrite delete_insert_id.
Qed.

(** C40. An operation that reports an error has no effect: whichever check fails
    (context, closed broker, unknown process, start id, worker or permission,
    contract violation, wire error), the broker is exactly as it was. *)
Theorem failed_operation_no_effect (op : Op) (b : Broker) (e : GoError) :
  fresh_id op b -> fst (exec op b) = Some e -> snd (exec op b) = b.
Proof.
  intros Hid. destruct op; simpl in *; try done.
  - pose proof (Submit_error ctx now rand order instanceID req b) as H.
    unfold err_of. destruct (Submit _ _ _ _ _ _ b) as [[id|e'] b']; simpl in *; [done|]. intros _. by apply (H e').
  - unfold Cancel, guarded. destruct ctx; [done|]. destruct (b_closed b); [done|].
    destruct (liveRegistrationLocked _ _ _ _) as [reg|]; [|done].
    destruct (removeQueuedStartLocked _ _ _); [done|].
    destruct (pr_AllowExternalCancel reg); [apply enqueue_call_error|done].
  - unfold Terminate, guarded. destruct ctx; [done|]. destruct (b_closed b); [done|].
    destruct (liveRegistrationLocked _ _ _ _) as [reg|]; [|done].
    destruct (pr_AllowExternalTerminate reg); [apply enqueue_call_error|done].
  - unfold RespondToInputRequest, guarded. destruct ctx; [done|]. destruct (b_closed b); [done|].
    destruct (b_insts b !! instanceID) as [rec|]; [|done].
    destruct (in_finished rec); [done|apply enqueue_call_error].
  - unfold SubscribeToInstance. repeat dmatch; simpl; done.
  - unfold SubscribeToProcessRegistry. repeat dmatch; simpl; done.
  - unfold RegisterProcesses, guarded. repeat dmatch; simpl; done.
  - unfold Heartbeat, guarded. repeat dmatch; simpl; done.
  - unfold Unregister, guarded. repeat dmatch; simpl; done.
  - unfold ReportRunning, report. repeat dmatch; simpl; done.
  - unfold ReportSuspended, report. repeat dmatch; simpl; done.
  - unfold ReportCompleted, report. repeat dmatch; simpl; done.
  - unfold ReportFailed, report. repeat dmatch; simpl; done.
  - unfold ReportCancelled, report. repeat dmatch; simpl; done.
  - unfold PostError, report. repeat dmatch; simpl; done.
  - unfold PostInputRequest, report. repeat dmatch; simpl; done.
  - unfold PostNodeCompleted, report. repeat dmatch; simpl; done.
Qed.

(** ** Closing *)

(** A call made with a live context (and, for a report, a named instance). *)
Definition live_call (op : Op) : Prop :=
  match op with
  | OSubmit ctx _ _ _ _ _ | OCancel ctx _ _ _ _ | OTerminate ctx _ _ _ _ | ORespond ctx _ _ _ _ _
  | ORegister ctx _ _ _ | OHeartbeat ctx _ _ | OUnregister ctx _ => ctx = None
  | OSubscribe _ _ | OSubscribeRegistry _ => True
  | OReportRunning ctx _ _ i | OReportSuspended ctx _ _ i _ | OReportCompleted ctx _ _ i _
  | OReportFailed ctx _ _ i _ | OReportCancelled ctx _ _ i | OPostError ctx _ _ i _
  | OPostInputRequest ctx _ _ i _ _ _ | OPostNodeCompleted ctx _ _ i _ _ _ => ctx = None /\ i <> ""%string
  | _ => False
  end.

Lemma report_closed i fn b :
  b_closed b = true -> i <> ""%string -> err_of (report None i fn b) = (Some ErrBrokerClosed, b).
Proof. intros Hc Hi. unfold report. by rewrite (proj2 (String.eqb_neq _ _) Hi), Hc. Qed.

Lemma exec_closed_jobs op b :
  b_closed b = true -> b_queues (snd (exec op b)) = b_queues b /\ b_inFlight (snd (exec op b)) = b_inFlight b /\
  b_closed (snd (exec op b)) = true.
Proof.
  intros Hc.
  assert (Hrep : forall ctx i fn, same_jobs b (snd (err_of (report ctx i fn b)))).
  { intros ctx i fn. unfold report. rewrite Hc. by repeat dmatch. }
  assert (Hgua : forall A ctx (k : result A * Broker), same_jobs b (snd (err_of (guarded ctx b k)))).
  { intros A ctx k. unfold guarded. rewrite Hc. by repeat dmatch. }
  enough (Hs : same_jobs b (snd (exec op b))).
  { destruct Hs as (-> & -> & _ & _ & _ & _ & -> & _). done. }
  destruct op; simpl; try apply Hrep; try apply Hgua; try (by repeat split; simpl; lia).
  - apply SubscribeToInstance_same.
  - apply cancelInstanceSub_same.
  - apply SubscribeToProcessRegistry_same.
  - by rewrite Hc.
  - unfold requeue. rewrite Hc. by destruct (b_jobs b !! a).
  - unfold resumeTimer. simpl. rewrite Hc. destruct (b_insts b !! instanceID); by repeat split.
  - apply sweep_same.
  - unfold Close. by rewrite Hc.
Qed.

(** Closing is final: every call on a closed broker fails with ErrBrokerClosed
    and changes nothing; no timer, fetcher or goroutine moves a job any more;
    and the broker stays closed. *)
Theorem closed_broker_refuses (op : Op) (b : Broker) :
  b_closed b = true ->
  (live_call op -> exec op b = (Some ErrBrokerClosed, b)) /\
  b_queues (snd (exec op b)) = b_queues b /\ b_inFlight (snd (exec op b)) = b_inFlight b /\
  b_closed (snd (exec op b)) = true.
Proof.
  intros Hc. split; [|by apply exec_closed_jobs].
  destruct op; simpl; try done;
    try (by intros [-> Hi]; apply report_closed);
    try (intros ->; unfold Submit, Cancel, Terminate, RespondToInputRequest, RegisterProcesses, Heartbeat,
           Unregister, guarded; by rewrite Hc);
    intros _; unfold SubscribeToInstance, SubscribeToProcessRegistry; by rewrite Hc.
Qed.

(** ** The registry *)

(** A registration the registry may answer a producer with. *)
Definition live_registration (order : list string) (now : Time) (key : ProcessKey) (b : Broker)
    (reg : ProcessRegistration) : Prop :=
  exists id w, id ∈ order /\ b_workers b !! id = Some w /\ TimeAfter now (w_deadline w) = false /\
    In reg (regs_at b (w_regs w)) /\ ProcessRegistration_Key reg = key.

Lemma liveRegistrationLocked_Some order now key b reg :
  liveRegistrationLocked order now key b = Some reg -> live_registration order now key b reg.
Proof.
  induction order as [|id order IH]; simpl; [done|].
  destruct (live_in_worker now key b id) as [r|] eqn:E.
  - intros [= <-]. unfold live_in_worker in E. destruct (b_workers b !! id) as [w|] eqn:Ew; [|done].
    destruct (TimeAfter now (w_deadline w)) eqn:Ed; [done|]. apply find_some in E as [Hin Hk].
    apply bool_decide_eq_true in Hk. exists id, w. split; [set_solver|done].
  - intros H. destruct (IH H) as (id' & w & ? & ?). exists id', w. set_solver.
Qed.

Lemma liveRegistrationLocked_None order now key b reg :
  liveRegistrationLocked order now key b = None -> ~ live_registration order now key b reg.
Proof.
  induction order as [|id order IH]; simpl; intros H (id' & w & Hin & Hw & Hd & Hr & Hk); [set_solver|].
  destruct (live_in_worker now key b id) as [r|] eqn:E; [done|].
  apply elem_of_cons in Hin as [->|Hin]; [|by apply IH; [|exists id', w]].
  unfold live_in_worker in E. rewrite Hw, Hd in E. pose proof (find_none _ _ E _ Hr) as Hn.
  by apply bool_decide_eq_false in Hn.
Qed.

Lemma emit_all_registry kind a b :
  b_workers (emit_all kind a b) = b_workers b /\ b_regs (emit_all kind a b) = b_regs b /\ b_cfg (emit_all kind a b) = b_cfg b.
Proof.
  unfold emit_all. generalize (reg_updates b kind a) as us. intros us. revert b.
  induction us as [|u us IH]; intros b; [done|]. cbn [fold_left]. by destruct (IH (emitRegistryUpdateLocked u b)) as (-> & -> & ->).
Qed.

Lemma stamp_regs_spec w now fr regs :
  let '(fr', rs) := stamp_regs w now fr regs in
  Forall2 (fun r r' => ProcessRegistration_Key r' = ProcessRegistration_Key r /\ pr_WorkerID r' = w /\
     pr_LastHeartbeat r' = now /\ fr' !! ProcessRegistration_Key r = Some (pr_RegisteredAt r') /\
     pr_StartEvents r' = pr_StartEvents r /\
     pr_AllowExternalCancel r' = pr_AllowExternalCancel r /\
     pr_AllowExternalTerminate r' = pr_AllowExternalTerminate r) regs rs /\
  (forall k t, fr !! k = Some t -> fr' !! k = Some t).
Proof.
  revert fr. induction regs as [|r regs IH]; intros fr; simpl; [by split; [constructor|]|].
  set (first := default now (fr !! ProcessRegistration_Key r)).
  specialize (IH (<[ProcessRegistration_Key r := first]> fr)).
  destruct (stamp_regs w now _ regs) as [fr' rs]. destruct IH as [IH1 IH2]. split.
  - constructor; [|done]. repeat split; simpl; try done. apply IH2. by rewrite lookup_insert_eq.
  - intros k t Hk. apply IH2. rewrite lookup_insert. destruct (decide _) as [<-|]; [|done].
    unfold first. by rewrite Hk.
Qed.

Lemma RegisterProcesses_state now w regs b :
  b_closed b = false ->
  let fr := match b_workers b !! w with Some wk => w_firstReg wk | None => ∅ end in
  let '(fr', stamped) := stamp_regs w now fr regs in
  exists a b', RegisterProcesses None now w regs b = (Ok tt, b') /\ b_cfg b' = b_cfg b /\
    b_workers b' !! w = Some (mkWorker a (TimeAdd now (registrationTTL (b_cfg b))) fr') /\
    regs_at b' a = stamped /\ (forall w', w' <> w -> b_workers b' !! w' = b_workers b !! w').
Proof.
  intros Hc fr. unfold RegisterProcesses, guarded. rewrite Hc.
  set (p := match b_workers b !! w with Some _ => _ | None => _ end).
  assert (Hp : fst p = fr /\ b_workers (snd p) = b_workers b /\ b_cfg (snd p) = b_cfg b).
  { unfold p, fr. destruct (b_workers b !! w) as [wk|]; [|done].
    destruct (emit_all_registry RegistryUpdateRemoved (w_regs wk) b) as (? & _ & ?). done. }
  destruct p as [fr0 b1]. simpl in Hp. destruct Hp as (-> & Hw & Hcfg). unfold fr.
  destruct (stamp_regs w now _ regs) as [fr' stamped]. exists (b_alloc b1). eexists. split; [reflexivity|].
  match goal with |- context [emit_all ?k ?a ?bb] => destruct (emit_all_registry k a bb) as (Ew & Er & Ec) end.
  rewrite Ew, Ec. unfold regs_at. rewrite Er. simpl. rewrite !lookup_insert_eq. split; [done|].
  split; [done|]. split; [done|]. intros w' Hne. rewrite lookup_insert_ne by done. by rewrite Hw.
Qed.

(** A registration keeps its promise to producers.  Registering succeeds on an
    open broker; from then until the deadline, a lookup of any of the keys,
    in whatever order Go ranges over the workers, finds a live registration.
    The stored registrations are the ones given, stamped with the worker, the
    heartbeat and the time the worker first registered the key, which
    re-registration preserves. *)
Theorem registration_live_and_stamped (now now' : Time) (w : string) (regs : list ProcessRegistration)
    (order : list string) (b : Broker) :
  b_closed b = false -> w ∈ order -> TimeAfter now' (TimeAdd now (registrationTTL (b_cfg b))) = false ->
  exists b' wk, RegisterProcesses None now w regs b = (Ok tt, b') /\ b_workers b' !! w = Some wk /\
    (forall r, In r regs -> exists reg, liveRegistrationLocked order now' (ProcessRegistration_Key r) b' = Some reg) /\
    Forall2 (fun r r' => ProcessRegistration_Key r' = ProcessRegistration_Key r /\ pr_WorkerID r' = w /\
       pr_LastHeartbeat r' = now /\ pr_StartEvents r' = pr_StartEvents r /\
       (forall wk0 t, b_workers b !! w = Some wk0 -> w_firstReg wk0 !! ProcessRegistration_Key r = Some t ->
          pr_RegisteredAt r' = t))
      regs (regs_at b' (w_regs wk)) /\
    (forall wk0 k t, b_workers b !! w = Some wk0 -> w_firstReg wk0 !! k = Some t -> w_firstReg wk !! k = Some t).
Proof.
  intros Hc Hin Hd. pose proof (RegisterProcesses_state now w regs b Hc) as Hs. cbv zeta in Hs.
  pose proof (stamp_regs_spec w now match b_workers b !! w with Some wk => w_firstReg wk | None => ∅ end regs) as Hst.
  destruct (stamp_regs w now _ regs) as [fr' stamped]. destruct Hst as [Hst Hfr].
  destruct Hs as (a & b' & Hr & Hcfg & Hw & Hregs & Hother). exists b', (mkWorker a (TimeAdd now (registrationTTL (b_cfg b))) fr').
  split; [done|]. split; [done|]. cbn [w_regs w_firstReg]. rewrite Hregs. split; [|split].
  - intros r Hrin. destruct (liveRegistrationLocked order now' (ProcessRegistration_Key r) b') as [reg|] eqn:E; [eauto|].
    exfalso. apply list_elem_of_In, list_elem_of_lookup in Hrin as [n Hn].
    destruct (Forall2_lookup_l _ _ _ _ _ Hst Hn) as (r' & Hn' & Hk & _).
    eapply (liveRegistrationLocked_None _ _ _ _ r' E). eexists w, _. split; [done|]. split; [exact Hw|].
    split; [done|]. split; [|done]. cbn [w_regs]. rewrite Hregs. apply list_elem_of_In. by eapply list_elem_of_lookup_2.
  - eapply Forall2_impl; [exact Hst|]. intros r r' (Hk & HW & Hh & Hf & Hse & _). repeat split; try done.
    intros wk0 t Hwk Ht. rewrite Hwk in Hfr. specialize (Hfr _ _ Ht). congruence.
  - intros wk0 k t Hwk Ht. rewrite Hwk in Hfr. by apply Hfr.
Qed.

(** ** Submitting *)

(** What the broker relies on of the CBOR library for jobs: the routing key,
    the instance and the kind survive. *)
Class JobWire : Prop :=
  job_wire j d j' : Marshal j = Ok d -> Unmarshal d = Ok j' ->
    job_Key j' = job_Key j /\ Job_InstanceID j' = Job_InstanceID j /\ is_start j' = is_start j.

Lemma roundTripJob_wire `{!JobWire} rand b j j' :
  wire_ok b rand -> roundTripJob rand b j = Ok j' ->
  job_Key j' = job_Key j /\ Job_InstanceID j' = Job_InstanceID j /\ is_start j' = is_start j.
Proof.
  intros (Hl & Hc & Hr) Hj. unfold roundTripJob in Hj.
  pose proof (envelope_trip (job_kind j) (Job_InstanceID j) None j (cfg_cipher (b_cfg b)) rand Hl Hc Hr) as Ht.
  rewrite Hj in Ht. destruct Ht as (d & Hm & Hu). by eapply job_wire.
Qed.

Lemma enqueueLocked_ok rand job b b2 :
  enqueueLocked rand job b = (None, b2) ->
  exists j, roundTripJob rand b job = Ok j /\
    (forall k, queue_of b2 k = if decide (job_Key j = k) then queue_of b k ++ [b_alloc b] else queue_of b k) /\
    job_at b2 (b_alloc b) = Some j /\ b_notify b2 = S (b_notify b) /\
    b_insts b2 = b_insts b /\ b_cfg b2 = b_cfg b.
Proof.
  unfold enqueueLocked. destruct (roundTripJob rand b job) as [j|]; [|done]. cbv zeta. intros Heq.
  assert (b2 = snd (None (A := GoError), b2)) as -> by done. rewrite <- Heq. cbn [snd].
  exists j. split; [done|]. split.
  - intros k. rewrite queue_of_insert. by destruct (decide _) as [<-|].
  - repeat split; try done. unfold job_at. simpl. by rewrite lookup_insert_eq.
Qed.

(** The start event a request resolves to under a registration. *)
Definition resolves (reg : ProcessRegistration) (req : StartRequest) : Prop :=
  exists start, List.find (fun s => String.eqb (se_Id s) (sr_StartID req)) (pr_StartEvents reg) = Some start /\
    (forall c, se_InputContract start = Some c -> InputContract_Validate c (sr_Input req) = None).

(** C17. [Submit] does what it says.  If it returns an id, a live registration
    admitted the request, its start event exists and the input met its
    contract; the instance's start job is the new last job of the process's
    queue, no other queue changed, fetchers were signalled, and the instance
    is on record, unfinished, under the request's key and correlation key, with
    Pending as its lifecycle.  If it returns an error nothing changed. *)
Theorem submit_enqueues_admitted `{!JobWire, !EventWire} (now : Time) (rand : Rand) (order : list string)
    (id : string) (req : StartRequest) (b : Broker) :
  wire_ok b rand -> b_insts b !! id = None ->
  match Submit None now rand order id req b with
  | (Err e, b') => b' = b
  | (Ok id', b') =>
      id' = id /\
      (exists reg, live_registration order now (StartRequest_Key req) b reg /\ resolves reg req) /\
      (forall k, queue_of b' k = if decide (StartRequest_Key req = k) then queue_of b k ++ [b_alloc b] else queue_of b k) /\
      (exists j, job_at b' (b_alloc b) = Some j /\ job_Key j = StartRequest_Key req /\
                 Job_InstanceID j = id /\ is_start j = true) /\
      (b_notify b < b_notify b')%nat /\
      exists rec l, b_insts b' !! id = Some rec /\ in_key rec = StartRequest_Key req /\
        in_correlationKey rec = sr_CorrelationKey req /\ in_finished rec = false /\
        in_latestLifecycle rec = Some l /\
        ev_body l = InstanceEventLifecycle ProcessStatusPending
  end.
Proof.
  intros Hwire Hid. pose proof (Submit_error None now rand order id req b) as Herr.
  destruct (Submit None now rand order id req b) as [[id'|e] b'] eqn:E; [|by eapply Herr].
  clear Herr. unfold Submit, guarded in E. destruct (b_closed b); [done|].
  destruct (liveRegistrationLocked _ _ _ _) as [reg|] eqn:Ereg; [|done].
  destruct (List.find _ _) as [start|] eqn:Est; [|done].
  destruct (match se_InputContract start with Some _ => _ | None => _ end) eqn:Econ; [done|].
  set (b1 := set_insts _ b) in E. set (job := mkJob _ _) in E.
  destruct (enqueueLocked rand job b1) as [[e|] b2] eqn:Eq; [done|]. injection E as <- <-.
  apply enqueueLocked_ok in Eq as (j & Ej & Hq & Hj & Hn & Hi2 & Hcfg2).
  destruct (roundTripJob_wire rand b1 job j Hwire Ej) as (Hk & Hi & Hst). simpl in Hk.
  set (k := StartRequest_Key req) in *.
  assert (Hwire2 : wire_ok b2 rand) by (unfold wire_ok in *; by rewrite Hcfg2).
  pose proof (publishLocked_same now rand id (InstanceEventLifecycle ProcessStatusPending) b2) as Hs.
  pose proof (publishLocked_eq now rand id (InstanceEventLifecycle ProcessStatusPending) b2) as Hp.
  pose proof (published_equiv now rand b2 id (InstanceEventLifecycle ProcessStatusPending) Hwire2) as Hpub.
  split; [done|]. split.
  { exists reg. split; [by apply liveRegistrationLocked_Some|]. exists start. split; [done|].
    intros c Hc. by rewrite Hc in Econ. }
  split. { intros k'. by rewrite (same_jobs_queue _ _ _ Hs), Hq, Hk. }
  split. { exists j. split; [|done]. unfold job_at in *. destruct Hs as (_ & _ & _ & -> & _). exact Hj. }
  split. { destruct Hs as (_ & _ & _ & _ & _ & -> & _). rewrite Hn. simpl. lia. }
  assert (Hro : record_of b2 id = empty_instance k (sr_CorrelationKey req)).
  { unfold record_of. rewrite Hi2. simpl. by rewrite lookup_insert_eq. }
  rewrite Hro in Hp. set (l := published now rand b2 id (InstanceEventLifecycle ProcessStatusPending)) in *.
  exists (retain l (empty_instance k (sr_CorrelationKey req))), l. rewrite Hp. cbn [set_subs set_insts b_insts].
  rewrite lookup_insert_eq. destruct Hpub as (_ & _ & _ & Hbody). simpl in Hbody. unfold retain.
  destruct (ev_body l) as [p| | | |]; try done. by subst p.
Qed.

(** ** Fetchers ([FetchJobs]) *)

(** Where the goroutine of [FetchJobs] is: at the top of its loop, waiting on
    the notify channel it read (by generation), offering a job to its worker,
    or returned with its channel closed. *)
Inductive FetchPC : Type := FTop | FWaiting (gen : nat) | FHolding (a : nat) | FDone.

Record Fetcher : Type := mkFetcher {
  f_keys : list ProcessKey;
  f_ctxDone : bool;
  f_pc : FetchPC
}.

Definition goto (f : Fetcher) (pc : FetchPC) : Fetcher := mkFetcher (f_keys f) (f_ctxDone f) pc.

(** [FetchJobs]: the call itself. *)
Definition FetchJobs (keys : list ProcessKey) (b : Broker) : result Fetcher :=
  if b_closed b then Err ErrBrokerClosed else Ok (mkFetcher keys false FTop).

(** The critical section at the top of the loop. *)
Definition fetch_top (f : Fetcher) (b : Broker) : Broker * Fetcher :=
  if b_closed b then (b, goto f FDone)
  else match takePendingLocked (f_keys f) b with
       | (Some a, b') => (b', goto f (FHolding a))
       | (None, b') => (b', goto f (FWaiting (b_notify b')))
       end.

(** The steps of the goroutine, one per branch of its loop. *)
Inductive fetch_step : Broker * Fetcher -> Broker * Fetcher -> Prop :=
| fs_top b f : f_pc f = FTop -> fetch_step (b, f) (fetch_top f b)
| fs_wake b f g : f_pc f = FWaiting g -> b_notify b <> g -> fetch_step (b, f) (b, goto f FTop)
| fs_wait_cancel b f g : f_pc f = FWaiting g -> f_ctxDone f = true -> fetch_step (b, f) (b, goto f FDone)
| fs_wait_closed b f g : f_pc f = FWaiting g -> b_closed b = true -> fetch_step (b, f) (b, goto f FDone)
| fs_deliver b f a : f_pc f = FHolding a -> fetch_step (b, f) (b, goto f FTop)
| fs_hold_cancel b f a : f_pc f = FHolding a -> f_ctxDone f = true -> fetch_step (b, f) (requeue a b, goto f FDone)
| fs_hold_closed b f a : f_pc f = FHolding a -> b_closed b = true -> fetch_step (b, f) (b, goto f FDone).

(** The broker with its fetchers, interleaved. *)
Record FetchSys : Type := mkFetchSys { fy_broker : Broker; fy_fetchers : gmap nat Fetcher }.

Inductive sys_step : FetchSys -> FetchSys -> Prop :=
| sys_op op b fs : sys_step (mkFetchSys b fs) (mkFetchSys (snd (exec op b)) fs)
| sys_fetch b fs n f b' f' :
    fs !! n = Some f -> fetch_step (b, f) (b', f') -> sys_step (mkFetchSys b fs) (mkFetchSys b' (<[n := f']> fs))
| sys_call b fs n keys f :
    fs !! n = None -> FetchJobs keys b = Ok f -> sys_step (mkFetchSys b fs) (mkFetchSys b (<[n := f]> fs))
| sys_cancel b fs n f :
    fs !! n = Some f -> sys_step (mkFetchSys b fs) (mkFetchSys b (<[n := mkFetcher (f_keys f) true (f_pc f)]> fs)).

(** A waiting fetcher whose notify channel is the current one has no work. *)
Definition fetcher_ok (b : Broker) (f : Fetcher) : Prop :=
  forall g, f_pc f = FWaiting g ->
    (g <= b_notify b)%nat /\ (g = b_notify b -> forall k, k ∈ f_keys f -> queue_of b k = []).

Definition sys_inv (s : FetchSys) : Prop :=
  wf_jobs (fy_broker s) /\ map_Forall (fun _ f => fetcher_ok (fy_broker s) f) (fy_fetchers s).

Lemma fetcher_ok_quiet b b' f : quiet b b' -> fetcher_ok b f -> fetcher_ok b' f.
Proof.
  intros [Hn Hq] Hf g Hg. destruct (Hf g Hg) as [Hle Hem]. split; [lia|].
  intros -> k Hk. apply Hq; [lia|]. apply Hem; [lia|done].
Qed.

Lemma fetch_step_inv b f b' f' :
  wf_jobs b -> fetch_step (b, f) (b', f') -> wf_jobs b' /\ quiet b b' /\ fetcher_ok b' f'.
Proof.
  intros Hw Hstep.
  assert (Hno : forall pc, (forall g, pc <> FWaiting g) -> fetcher_ok b' (goto f pc)).
  { intros pc Hpc g Hg. by destruct (Hpc g). }
  assert (Hq : quiet b b) by (by apply quiet_queues).
  inversion Hstep as [b0 f0 Hpc E|b0 f0 g Hpc Hg|b0 f0 g Hpc Hg|b0 f0 g Hpc Hg|b0 f0 a Hpc|b0 f0 a Hpc Hc|b0 f0 a Hpc Hc];
    subst; try (split; [done|split; [done|by apply Hno]]).
  - unfold fetch_top in *. destruct (b_closed b); [simplify_eq; split; [done|split; [done|by apply Hno]]|].
    pose proof (takePendingLocked_wf (f_keys f) b Hw) as Hw'.
    pose proof (takePendingLocked_spec (f_keys f) b Hw) as Hs.
    pose proof (prim_quiet OClose b _ Hw (prim_take OClose (f_keys f) b)) as Hq'.
    destruct (takePendingLocked (f_keys f) b) as [[a|] b1]; simplify_eq; simpl in *.
    + split; [done|]. split; [done|by apply Hno].
    + destruct Hs as [-> Hem]. split; [done|]. split; [done|]. intros g [= <-]. done.
  - split; [by apply requeue_wf|]. split; [apply requeue_quiet|by apply Hno].
Qed.

Lemma sys_inv_step s s' : sys_step s s' -> sys_inv s -> sys_inv s'.
Proof.
  intros Hstep [Hw Hf]. destruct Hstep as [op b fs|b fs n f b' f' Hn Hs|b fs n keys f Hn Hc|b fs n f Hn]; simpl in *.
  - split; simpl; [by apply exec_wf|]. eapply map_Forall_impl; [exact Hf|]. intros n f.
    apply fetcher_ok_quiet. by apply exec_quiet.
  - destruct (fetch_step_inv b f b' f' Hw Hs) as (Hw' & Hq & Hok). split; [done|]. simpl.
    apply map_Forall_insert_2; [done|]. eapply map_Forall_impl; [exact Hf|]. intros m g. by apply fetcher_ok_quiet.
  - split; [done|]. simpl. apply map_Forall_insert_2; [|done]. unfold FetchJobs in Hc.
    destruct (b_closed b); simplify_eq. done.
  - split; [done|]. simpl. apply map_Forall_insert_2; [|done]. intros g Hg. simpl in *. by apply (Hf n f Hn).
Qed.

Definition sys_reachable (opts : list InMemoryBrokerOption) (s : FetchSys) : Prop :=
  rtc sys_step (mkFetchSys (NewInMemoryMessageBroker opts) ∅) s.

Lemma sys_reachable_inv opts s : sys_reachable opts s -> sys_inv s.
Proof.
  unfold sys_reachable. intros H. remember (mkFetchSys (NewInMemoryMessageBroker opts) ∅) as s0.
  assert (H0 : sys_inv s0) by (subst; split; [apply wf_jobs_new|apply map_Forall_empty]). clear Heqs0.
  induction H; eauto using sys_inv_step.
Qed.

(** The two steps of a woken fetcher whose context is live. *)
Lemma woken_steps b f g s1 s2 :
  f_pc f = FWaiting g -> f_ctxDone f = false -> b_closed b = false ->
  fetch_step (b, f) s1 -> fetch_step s1 s2 -> s2 = fetch_top (goto f FTop) b.
Proof.
  intros Hpc Hx Hc Hs1. inversion Hs1; subst; try congruence. intros Hs2. by inversion Hs2.
Qed.

(** C11. No wake-up is lost.  In every interleaving of broker operations and
    fetchers, a fetcher that waits while one of its keys has pending work (and
    the broker is open) can run: the notify channel it waits on has been closed,
    and its next two steps bring it to hold the oldest job of the first of its
    keys that has one, taken out of that key's queue with every other queue left
    alone; unless its context has ended, it can do nothing else. *)
Theorem fetcher_no_lost_wakeup (opts : list InMemoryBrokerOption) (s : FetchSys) (n : nat) (f : Fetcher)
    (g : nat) (k : ProcessKey) :
  let b := fy_broker s in
  sys_reachable opts s -> fy_fetchers s !! n = Some f -> f_pc f = FWaiting g ->
  b_closed b = false -> k ∈ f_keys f -> queue_of b k <> [] ->
  (g < b_notify b)%nat /\
  exists ks1 k' ks2 a q b',
    f_keys f = ks1 ++ k' :: ks2 /\ (forall k'', k'' ∈ ks1 -> queue_of b k'' = []) /\
    queue_of b k' = a :: q /\
    fetch_step (b, f) (b, goto f FTop) /\ fetch_step (b, goto f FTop) (b', goto f (FHolding a)) /\
    (forall k'', queue_of b' k'' = if decide (k' = k'') then q else queue_of b k'') /\
    a ∈ b_inFlight b' /\
    (f_ctxDone f = false -> forall s1 s2,
       fetch_step (b, f) s1 -> fetch_step s1 s2 -> s2 = (b', goto f (FHolding a))).
Proof.
  intros b Hr Hn Hpc Hc Hk Hq. destruct (sys_reachable_inv opts s Hr) as [Hw Hf].
  destruct (Hf n f Hn g Hpc) as [Hle Hem]. fold b in Hw, Hle, Hem.
  assert (Hne : b_notify b <> g) by (intros <-; by apply Hq, Hem). split; [lia|].
  pose proof (takePendingLocked_spec (f_keys f) b Hw) as Hs.
  destruct (takePendingLocked (f_keys f) b) as [[a|] b'] eqn:Et.
  - destruct Hs as (ks1 & k' & ks2 & q & j & Hkeys & Hem' & Hq' & _ & Hqs & Hfl & _).
    assert (Htop : fetch_top (goto f FTop) b = (b', goto f (FHolding a))).
    { unfold fetch_top. rewrite Hc. simpl. by rewrite Et. }
    exists ks1, k', ks2, a, q, b'. repeat (split; [done|]). split; [by eapply fs_wake|].
    split; [rewrite <- Htop; by apply fs_top|]. split; [done|]. split; [set_solver|].
    intros Hx s1 s2 H1 H2. rewrite <- Htop. by eapply woken_steps.
  - destruct Hs as [_ Hs]. by destruct Hq; apply Hs.
Qed.

End Api.

(** ** Instances of the claims *)

#[global] Instance sampleJobWire : JobWire.
Proof.
  intros j d j' Hm Hu. rewrite (@cbor_roundtrip Job _ sampleJobCbor_laws _ _ Hm) in Hu. by injection Hu as <-.
Qed.

Lemma failed_operation_no_effect_witness :
  let op := OSubmit None t1 zeroRand ["w1"%string] "i-2" (mkStartRequest "ns" "p" "2" "start" [] None) in
  fst (exec op sample_broker) = Some ErrUnknownProcess /\ snd (exec op sample_broker) = sample_broker.
Proof.
  intros op. split; [vm_eq|].
  apply (failed_operation_no_effect op sample_broker ErrUnknownProcess); [|vm_eq].
  change (b_insts sample_broker !! "i-2"%string = None). vm_eq.
Defined.

Lemma closed_broker_refuses_witness :
  exec (OHeartbeat None t1 "w1") (Close sample_broker) = (Some ErrBrokerClosed, Close sample_broker).
Proof.
  exact (proj1 (closed_broker_refuses (OHeartbeat None t1 "w1") (Close sample_broker) ltac:(vm_eq)) eq_refl).
Defined.

Lemma registration_live_and_stamped_witness :
  exists b', RegisterProcesses None t1 "w1" [sample_reg] sample_broker = (Ok tt, b') /\
    exists reg, liveRegistrationLocked ["w1"%string] t1 (ProcessRegistration_Key sample_reg) b' = Some reg.
Proof.
  destruct (registration_live_and_stamped t1 t1 "w1" [sample_reg] ["w1"%string] sample_broker
    ltac:(vm_eq) ltac:(by constructor) ltac:(vm_eq)) as (b' & wk & H1 & _ & H2 & _).
  exists b'. split; [exact H1|]. apply (H2 sample_reg). by left.
Defined.

Lemma submit_enqueues_admitted_witness :
  let r := Submit None t1 zeroRand ["w1"%string] "i-2" sample_request sample_broker in
  fst r = Ok "i-2"%string /\ queue_of (snd r) sample_key = queue_of sample_broker sample_key ++ [b_alloc sample_broker].
Proof.
  intros r.
  assert (Hok : fst r = Ok "i-2"%string) by vm_eq. split; [exact Hok|].
  pose proof (submit_enqueues_admitted t1 zeroRand ["w1"%string] "i-2" sample_request sample_broker
    (sample_wire_ok sample_broker ltac:(vm_eq)) ltac:(vm_eq)) as H. fold r in H.
  destruct r as [[id|e] b']; [|discriminate Hok].
  destruct H as (_ & _ & H & _). exact (H sample_key).
Defined.

(** A fetcher that found nothing to do before the submission. *)
Definition waiting_sys : FetchSys :=
  mkFetchSys sample_broker {[0%nat := mkFetcher [sample_key] false (FWaiting 0)]}.

Lemma waiting_sys_reachable : sys_reachable [] waiting_sys.
Proof.
  set (b0 := NewInMemoryMessageBroker []).
  eapply rtc_l; [apply (sys_call b0 ∅ 0 [sample_key] (mkFetcher [sample_key] false FTop)); reflexivity|].
  eapply rtc_l; [eapply (sys_fetch b0 _ 0 _ b0 (mkFetcher [sample_key] false (FWaiting 0)));
    [by rewrite lookup_insert_eq|apply (fs_top b0 (mkFetcher [sample_key] false FTop) eq_refl)]|].
  rewrite insert_insert_eq.
  eapply rtc_l; [apply (sys_op (ORegister None t0 "w1" [sample_reg]))|].
  eapply rtc_l; [apply (sys_op (OSubmit None t1 zeroRand ["w1"%string] "i-1" sample_request))|].
  apply rtc_refl.
Qed.

Lemma fetcher_no_lost_wakeup_witness :
  exists b' a q, queue_of sample_broker sample_key = a :: q /\
    fetch_step (sample_broker, mkFetcher [sample_key] false FTop) (b', mkFetcher [sample_key] false (FHolding a)).
Proof.
  destruct (fetcher_no_lost_wakeup [] waiting_sys 0 (mkFetcher [sample_key] false (FWaiting 0)) 0 sample_key
    waiting_sys_reachable ltac:(reflexivity) eq_refl ltac:(vm_eq) ltac:(by constructor))
    as (_ & ks1 & k' & ks2 & a & q & b' & Hk & _ & Hq & _ & H & _).
  - change (queue_of sample_broker sample_key <> []). rewrite sample_queue. discriminate.
  - destruct ks1 as [|k1 ks1]; [|by destruct ks1]. injection Hk as <- _. exists b', a, q. exact (conj Hq H).
Defined.

(** ** Observed behaviour the interface does not promise *)

Definition terminal_code (b : Broker) (i : string) : option string :=
  match b_insts b !! i with
  | Some rec => match in_terminal rec with
                | Some (mkInstanceEvent _ _ _ (InstanceEventError e)) => Some (ie_Code e)
                | _ => None
                end
  | None => None
  end.

Definition lifecycle_phase (b : Broker) (i : string) : option ProcessStatus :=
  match b_insts b !! i with
  | Some rec => match in_latestLifecycle rec with
                | Some (mkInstanceEvent _ _ _ (InstanceEventLifecycle p)) => Some p
                | _ => None
                end
  | None => None
  end.

(** After a failure, a late non-terminal error replaces the retained terminal
    error, and a late running report replaces the retained Failed phase, so a
    late subscriber of the finished instance is shown an outcome it never had. *)
Theorem finished_record_overwritten :
  let failed := run_ops (sample_ops ++ [OReportFailed None t1 zeroRand "i-1" sample_error])
                  (NewInMemoryMessageBroker []) in
  terminal_code failed "i-1" = Some "PROCESS_FAILED"%string /\
  lifecycle_phase failed "i-1" = Some ProcessStatusFailed /\
  terminal_code (snd (exec (ORespond None t1 zeroRand "i-1" "r" []) failed)) "i-1" = Some ErrCodeAlreadyFinished /\
  lifecycle_phase (snd (exec (OReportRunning None t1 zeroRand "i-1") failed)) "i-1" = Some ProcessStatusRunning.
Proof. cbv zeta. repeat split; vm_eq. Qed.

(** The first response to an unknown instance reports INSTANCE_NOT_FOUND but
    also leaves an unfinished record behind, so the second is queued as a job
    of the empty process key, which no worker fetches. *)
Theorem unknown_instance_leaves_record :
  let b1 := snd (exec (ORespond None t1 zeroRand "ghost" "r" []) sample_broker) in
  let b2 := snd (exec (ORespond None t1 zeroRand "ghost" "r" []) b1) in
  queue_of sample_broker zeroKey = [] /\ queue_of b1 zeroKey = [] /\ queue_of b2 zeroKey = [2%nat] /\
  match b_insts (snd (exec (OSweep t_late ["w1"%string]) b2)) !! "ghost"%string with
  | Some rec => in_finished rec = false
  | None => False
  end.
Proof. cbv zeta. split; [vm_eq|]. split; [vm_eq|]. split; [vm_eq|]. vm_compute. reflexivity. Qed.

(** The registration an update points to. *)
Definition deref (b : Broker) (u : RegistryUpdate) : option ProcessRegistration :=
  match ru_Registration u with
  | Some r => regs_at b (rr_slice r) !! rr_index r
  | None => None
  end.

(** A registry update shares memory with the registry: a heartbeat changes the
    registration inside updates that were already pushed to a watcher. *)
Theorem registry_update_aliases_registry :
  let b := run_ops [OSubscribeRegistry []; ORegister None t0 "w1" [sample_reg]] (NewInMemoryMessageBroker []) in
  let b' := snd (exec (OHeartbeat None t1 "w1") b) in
  let u := mkRegistryUpdate RegistryUpdateAdded (Some (mkRegRef 0 0)) in
  (match b_regSubs b' !! 0%nat with Some p => tail (p_queue p) | None => [] end) = [u] /\
  option_map pr_LastHeartbeat (deref b u) = Some t0 /\ option_map pr_LastHeartbeat (deref b' u) = Some t1.
Proof. cbv zeta. repeat split; vm_eq. Qed.
