(* ===== verification/RedisServer.v ===== *)
(** * Redis, as the Redis broker uses it

    The commands of [brokers/redis/broker.go] with the meaning that the command
    documentation of Redis and Valkey gives them on hashes, streams with consumer
    groups, sorted sets and channels ([redis_step]; ids, trimming and orders that
    the documentation leaves open are open here); scripts and transactions, which
    run without interleaving ([redis_req]); programs that send commands, and their
    interleaving with those of other processes on a server that may drop a
    request or its reply, with a client that may repeat one ([step]).  [wp] is the
    logic in which programs are shown to keep an invariant of the server under any
    interleaving.  [mem_req] is an executable server. *)

From S2P Require Import Prelude GoTime GoText StringLaws Wire Programs.
#[global] Open Scope Z_scope.

(** ** The server's state *)

Abbreviation Fields := (gmap string string).

Record Entry : Type := mkEntry { e_id : Z; e_fields : Fields }.

(** A pending entry: delivered to a consumer at a time, not acknowledged. *)
Record Pending : Type := mkPending { p_id : Z; p_consumer : string; p_since : Z }.

Record Group : Type := mkGroup { g_last : Z; g_pending : list Pending }.

(** Entries in ascending order of their ids, and the last id that was given. *)
Record Stream : Type := mkStream { x_entries : list Entry; x_last : Z; x_groups : gmap string Group }.

(** [r_ttl] are the times at which keys expire; [r_feed] what was published. *)
Record RState : Type := mkRState {
  r_hashes : gmap string Fields;
  r_streams : gmap string Stream;
  r_zsets : gmap string (gmap string Z);
  r_ttl : gmap string Z;
  r_feed : list (string * string);
  r_now : Z
}.

Definition set_hashes h s := mkRState h (r_streams s) (r_zsets s) (r_ttl s) (r_feed s) (r_now s).
Definition set_streams x s := mkRState (r_hashes s) x (r_zsets s) (r_ttl s) (r_feed s) (r_now s).
Definition set_zsets z s := mkRState (r_hashes s) (r_streams s) z (r_ttl s) (r_feed s) (r_now s).
Definition set_ttl t s := mkRState (r_hashes s) (r_streams s) (r_zsets s) t (r_feed s) (r_now s).
Definition set_feed f s := mkRState (r_hashes s) (r_streams s) (r_zsets s) (r_ttl s) f (r_now s).

Definition empty_stream : Stream := mkStream [] 0 ∅.
Definition empty_server : RState := mkRState ∅ ∅ ∅ ∅ [] 0.

Definition hash_of (s : RState) (k : string) : Fields := default ∅ (r_hashes s !! k).
Definition stream_of (s : RState) (k : string) : Stream := default empty_stream (r_streams s !! k).
Definition zset_of (s : RState) (k : string) : gmap string Z := default ∅ (r_zsets s !! k).

Definition put_hash (k : string) (h : Fields) (s : RState) : RState := set_hashes (<[k := h]> (r_hashes s)) s.
Definition put_stream (k : string) (x : Stream) (s : RState) : RState := set_streams (<[k := x]> (r_streams s)) s.
Definition put_zset (k : string) (z : gmap string Z) (s : RState) : RState := set_zsets (<[k := z]> (r_zsets s)) s.

Definition remove_key (k : string) (s : RState) : RState :=
  mkRState (delete k (r_hashes s)) (delete k (r_streams s)) (delete k (r_zsets s)) (delete k (r_ttl s)) (r_feed s) (r_now s).

(** ** Commands *)

Inductive Cmd : Type :=
| HSet (k : string) (fs : Fields)
| HSetNX (k f v : string)
| HGet (k f : string)
| HGetAll (k : string)
| Exists (k : string)
| Del (k : string)
| XAdd (k : string) (maxlen : option Z) (fs : Fields)
| XRange (k : string)
| XRead (k : string) (after : Z) (count : nat)
| XGroupCreateMkStream (k g : string)
| XReadGroup (g consumer : string) (ks : list string) (count : nat)
| XAutoClaim (k g consumer : string) (minIdle : Z) (count : nat)
| XPending (k g : string) (id : Z)
| XAck (k g : string) (id : Z)
| XDel (k : string) (id : Z)
| ZAdd (k member : string) (score : Z)
| ZRem (k : string) (members : list string)
| ZRangeByScore (k : string) (max : Z) (limit : nat)
| PExpire (k : string) (ms : Z)
| Publish (channel payload : string)
| Scan (prefix : string)
| Subscribe (channel : string).

Inductive Reply : Type :=
| RNil
| RInt (n : Z)
| RText (v : string)
| RFields (fs : Fields)
| RTexts (vs : list string)
| REntries (es : list (string * Entry))
| RError (text : string).

(** Streams *)

Definition add_entry (id : Z) (fs : Fields) (x : Stream) : Stream :=
  mkStream (x_entries x ++ [mkEntry id fs]) id (x_groups x).

(** [MAXLEN ~ n] may remove entries from the front as long as [n] are left. *)
Definition trimmed (maxlen : option Z) (n : nat) (x : Stream) : Prop :=
  match maxlen with
  | None => n = O
  | Some m => n = O \/ m <= Z.of_nat (length (x_entries x) - n)
  end.
Definition trim (n : nat) (x : Stream) : Stream := mkStream (drop n (x_entries x)) (x_last x) (x_groups x).

Definition remove_entry (id : Z) (x : Stream) : Stream :=
  mkStream (List.filter (fun e => negb (e_id e =? id)) (x_entries x)) (x_last x) (x_groups x).

Definition set_group (g : string) (gr : Group) (x : Stream) : Stream :=
  mkStream (x_entries x) (x_last x) (<[g := gr]> (x_groups x)).

(** Delivery of new entries to a consumer of a group, at most [count]. *)
Definition new_entries (x : Stream) (gr : Group) (count : nat) : list Entry :=
  take count (List.filter (fun e => g_last gr <? e_id e) (x_entries x)).
Definition deliver (now : Z) (consumer : string) (es : list Entry) (gr : Group) : Group :=
  mkGroup (fold_left (fun _ e => e_id e) es (g_last gr))
    (g_pending gr ++ map (fun e => mkPending (e_id e) consumer now) es).

Fixpoint read_group (g consumer : string) (count : nat) (ks : list string) (s : RState)
  : option (list (string * Entry) * RState) :=
  match ks with
  | [] => Some ([], s)
  | k :: ks' =>
      match x_groups (stream_of s k) !! g with
      | None => None
      | Some gr =>
          let es := new_entries (stream_of s k) gr count in
          let s' := put_stream k (set_group g (deliver (r_now s) consumer es gr) (stream_of s k)) s in
          match read_group g consumer count ks' s' with
          | None => None
          | Some (rest, s'') => Some (map (pair k) es ++ rest, s'')
          end
      end
  end.

(** Pending entries that were idle long enough change hands; those that were
    deleted leave the list. *)
Definition find_entry (x : Stream) (id : Z) : option Entry := List.find (fun e => e_id e =? id) (x_entries x).
Definition idle (now minIdle : Z) (p : Pending) : bool := minIdle <=? now - p_since p.
Definition claimable (now minIdle : Z) (count : nat) (gr : Group) : list Z :=
  take count (map p_id (List.filter (idle now minIdle) (g_pending gr))).
Definition claim_one (now : Z) (consumer : string) (x : Stream) (ids : list Z) (p : Pending) : option Pending :=
  if bool_decide (p_id p ∈ ids)
  then match find_entry x (p_id p) with Some _ => Some (mkPending (p_id p) consumer now) | None => None end
  else Some p.
Definition claim (now : Z) (consumer : string) (x : Stream) (ids : list Z) (gr : Group) : Group :=
  mkGroup (g_last gr) (omap (claim_one now consumer x ids) (g_pending gr)).

Definition ack (id : Z) (gr : Group) : Group :=
  mkGroup (g_last gr) (List.filter (fun p => negb (p_id p =? id)) (g_pending gr)).

Definition ErrBusyGroup : string := "BUSYGROUP Consumer Group name already exists".
Definition ErrNoGroup : string := "NOGROUP No such key or consumer group".

(** [EXISTS]; a [Scan] goes through the keys in one step, a [Subscribe] replies
    with the number of messages published before it. *)
Definition exists_key (s : RState) (k : string) : bool :=
  match r_hashes s !! k, r_streams s !! k, r_zsets s !! k with None, None, None => false | _, _, _ => true end.

(** What a command may do: its effect and its reply. *)
Inductive redis_step : Cmd -> RState -> RState -> Reply -> Prop :=
| do_hset k fs s n : redis_step (HSet k fs) s (put_hash k (fs ∪ hash_of s k) s) (RInt n)
| do_hsetnx_new k f v s : hash_of s k !! f = None ->
    redis_step (HSetNX k f v) s (put_hash k (<[f := v]> (hash_of s k)) s) (RInt 1)
| do_hsetnx_old k f v s v' : hash_of s k !! f = Some v' -> redis_step (HSetNX k f v) s s (RInt 0)
| do_hget k f s : redis_step (HGet k f) s s (match hash_of s k !! f with Some v => RText v | None => RNil end)
| do_hgetall k s : redis_step (HGetAll k) s s (RFields (hash_of s k))
| do_exists k s : redis_step (Exists k) s s (RInt (if exists_key s k then 1 else 0))
| do_del k s n : redis_step (Del k) s (remove_key k s) (RInt n)
| do_xadd k maxlen fs s id n :
    x_last (stream_of s k) < id -> trimmed maxlen n (add_entry id fs (stream_of s k)) ->
    redis_step (XAdd k maxlen fs) s (put_stream k (trim n (add_entry id fs (stream_of s k))) s) (RInt id)
| do_xrange k s : redis_step (XRange k) s s (REntries (map (pair k) (x_entries (stream_of s k))))
| do_xread k after count s :
    redis_step (XRead k after count) s s
      (match take count (List.filter (fun e => after <? e_id e) (x_entries (stream_of s k))) with
       | [] => RNil
       | es => REntries (map (pair k) es)
       end)
| do_group_new k g s : x_groups (stream_of s k) !! g = None ->
    redis_step (XGroupCreateMkStream k g) s (put_stream k (set_group g (mkGroup 0 []) (stream_of s k)) s) (RText "OK")
| do_group_old k g s gr : x_groups (stream_of s k) !! g = Some gr ->
    redis_step (XGroupCreateMkStream k g) s s (RError ErrBusyGroup)
| do_read_group g c ks count s es s' : read_group g c count ks s = Some (es, s') ->
    redis_step (XReadGroup g c ks count) s s' (match es with [] => RNil | _ => REntries es end)
| do_read_no_group g c ks count s : read_group g c count ks s = None ->
    redis_step (XReadGroup g c ks count) s s (RError ErrNoGroup)
| do_autoclaim k g c minIdle count s gr ids : x_groups (stream_of s k) !! g = Some gr ->
    ids ⊆ map p_id (List.filter (idle (r_now s) minIdle) (g_pending gr)) -> (length ids <= count)%nat ->
    redis_step (XAutoClaim k g c minIdle count) s
      (put_stream k (set_group g (claim (r_now s) c (stream_of s k) ids gr) (stream_of s k)) s)
      (REntries (map (pair k) (omap (find_entry (stream_of s k)) ids)))
| do_claim_no_group k g c idle count s : x_groups (stream_of s k) !! g = None ->
    redis_step (XAutoClaim k g c idle count) s s (RError ErrNoGroup)
| do_xpending k g id s gr : x_groups (stream_of s k) !! g = Some gr ->
    redis_step (XPending k g id) s s
      (RTexts (map p_consumer (List.filter (fun p => p_id p =? id) (g_pending gr))))
| do_xpending_no_group k g id s : x_groups (stream_of s k) !! g = None ->
    redis_step (XPending k g id) s s (RError ErrNoGroup)
| do_xack k g id s gr n : x_groups (stream_of s k) !! g = Some gr ->
    redis_step (XAck k g id) s (put_stream k (set_group g (ack id gr) (stream_of s k)) s) (RInt n)
| do_xack_no_group k g id s : x_groups (stream_of s k) !! g = None -> redis_step (XAck k g id) s s (RInt 0)
| do_xdel k id s n : redis_step (XDel k id) s (if decide (is_Some (r_streams s !! k))
    then put_stream k (remove_entry id (stream_of s k)) s else s) (RInt n)
| do_zadd k m score s n : redis_step (ZAdd k m score) s (put_zset k (<[m := score]> (zset_of s k)) s) (RInt n)
| do_zrem k ms s n :
    redis_step (ZRem k ms) s (put_zset k (fold_left (fun z m => delete m z) ms (zset_of s k)) s) (RInt n)
| do_zrange k max limit s vs :
    NoDup vs -> (length vs <= limit)%nat ->
    (forall m, m ∈ vs -> exists score, zset_of s k !! m = Some score /\ score <= max) ->
    ((length vs < limit)%nat -> forall m score, zset_of s k !! m = Some score -> score <= max -> m ∈ vs) ->
    redis_step (ZRangeByScore k max limit) s s (RTexts vs)
| do_pexpire k ms s :
    redis_step (PExpire k ms) s (if exists_key s k then set_ttl (<[k := r_now s + ms]> (r_ttl s)) s else s)
      (RInt (if exists_key s k then 1 else 0))
| do_publish ch payload s n : redis_step (Publish ch payload) s (set_feed (r_feed s ++ [(ch, payload)]) s) (RInt n)
| do_scan prefix s ks :
    (forall k, k ∈ ks <-> exists_key s k = true /\ exists t, k = prefix +:+ t) ->
    redis_step (Scan prefix) s s (RTexts ks)
| do_subscribe ch s : redis_step (Subscribe ch) s s (RInt (Z.of_nat (length (r_feed s)))).

Lemma redis_scan_inv prefix s s' r : redis_step (Scan prefix) s s' r ->
  s' = s /\ exists ks, r = RTexts ks /\ forall k, k ∈ ks -> exists t, k = prefix +:+ t.
Proof.
  remember (Scan prefix) as c eqn:E. intros Hs. revert E. destruct Hs as []; intros E; try discriminate. injection E as ->. split; [done|].
  eexists. split; [done|]. intros k Hk. by apply H in Hk as [_ ?].
Qed.

Lemma xadd_inv k maxlen fs s s' r : redis_step (XAdd k maxlen fs) s s' r ->
  exists id n, x_last (stream_of s k) < id /\ trimmed maxlen n (add_entry id fs (stream_of s k)) /\
    s' = put_stream k (trim n (add_entry id fs (stream_of s k))) s /\ r = RInt id.
Proof. intros H. inversion H; subst. by exists id, n. Qed.

Lemma hsetnx_inv k f v s s' r : redis_step (HSetNX k f v) s s' r ->
  (hash_of s k !! f = None /\ s' = put_hash k (<[f := v]> (hash_of s k)) s /\ r = RInt 1) \/ (s' = s /\ r = RInt 0).
Proof. intros H. inversion H; subst; auto. Qed.

(** The clock advances and keys expire. *)
Definition expired (s : RState) (now : Z) (k : string) : Prop := exists t, r_ttl s !! k = Some t /\ t <= now.
Definition redis_tick (s s' : RState) : Prop :=
  exists ks, (forall k, k ∈ ks -> expired s (r_now s') k) /\ r_now s <= r_now s' /\
    s' = (let s0 := fold_left (fun s k => remove_key k s) ks s in
          mkRState (r_hashes s0) (r_streams s0) (r_zsets s0) (r_ttl s0) (r_feed s0) (r_now s')).

(** ** Scripts and transactions *)

(** A script is a program of commands that the server runs on its own. *)
Inductive Script : Type :=
| SReturn (r : Reply)
| SCall (c : Cmd) (k : Reply -> Script).

Inductive Req : Type :=
| One (c : Cmd)
| Eval (p : Script).

Inductive script_step : Script -> RState -> RState -> Reply -> Prop :=
| script_return r s : script_step (SReturn r) s s r
| script_call c k s s1 r1 s2 r2 :
    redis_step c s s1 r1 -> script_step (k r1) s1 s2 r2 -> script_step (SCall c k) s s2 r2.

Definition redis_req (q : Req) (s s' : RState) (r : Reply) : Prop :=
  match q with
  | One c => redis_step c s s' r
  | Eval p => script_step p s s' r
  end.

(** The server, when its state changes as [how] says. *)
Definition redis_rules (how : RState -> RState -> Prop) : Rules Req Reply RState :=
  mkRules (fun q s s' r => redis_req q s s' r /\ how s s') (fun _ => True).

(** ** A server in memory *)

Definition mem_do (c : Cmd) (s : RState) : RState * Reply :=
  match c with
  | HSet k fs => (put_hash k (fs ∪ hash_of s k) s, RInt 0)
  | HSetNX k f v =>
      match hash_of s k !! f with
      | None => (put_hash k (<[f := v]> (hash_of s k)) s, RInt 1)
      | Some _ => (s, RInt 0)
      end
  | HGet k f => (s, match hash_of s k !! f with Some v => RText v | None => RNil end)
  | HGetAll k => (s, RFields (hash_of s k))
  | Exists k => (s, RInt (if exists_key s k then 1 else 0))
  | Del k => (remove_key k s, RInt 1)
  | XAdd k maxlen fs =>
      let id := x_last (stream_of s k) + 1 in
      let x := add_entry id fs (stream_of s k) in
      let n := match maxlen with None => O | Some m => (length (x_entries x) - Z.to_nat m)%nat end in
      (put_stream k (trim n x) s, RInt id)
  | XRange k => (s, REntries (map (pair k) (x_entries (stream_of s k))))
  | XRead k after count =>
      (s, match take count (List.filter (fun e => after <? e_id e) (x_entries (stream_of s k))) with
          | [] => RNil
          | es => REntries (map (pair k) es)
          end)
  | XGroupCreateMkStream k g =>
      match x_groups (stream_of s k) !! g with
      | None => (put_stream k (set_group g (mkGroup 0 []) (stream_of s k)) s, RText "OK")
      | Some _ => (s, RError ErrBusyGroup)
      end
  | XReadGroup g c ks count =>
      match read_group g c count ks s with
      | Some (es, s') => (s', match es with [] => RNil | _ => REntries es end)
      | None => (s, RError ErrNoGroup)
      end
  | XAutoClaim k g c idle count =>
      match x_groups (stream_of s k) !! g with
      | Some gr =>
          let ids := claimable (r_now s) idle count gr in
          (put_stream k (set_group g (claim (r_now s) c (stream_of s k) ids gr) (stream_of s k)) s,
           REntries (map (pair k) (omap (find_entry (stream_of s k)) ids)))
      | None => (s, RError ErrNoGroup)
      end
  | XPending k g id =>
      (s, match x_groups (stream_of s k) !! g with
          | Some gr => RTexts (map p_consumer (List.filter (fun p => p_id p =? id) (g_pending gr)))
          | None => RError ErrNoGroup
          end)
  | XAck k g id =>
      match x_groups (stream_of s k) !! g with
      | Some gr => (put_stream k (set_group g (ack id gr) (stream_of s k)) s, RInt 1)
      | None => (s, RInt 0)
      end
  | XDel k id =>
      (if decide (is_Some (r_streams s !! k)) then put_stream k (remove_entry id (stream_of s k)) s else s, RInt 1)
  | ZAdd k m score => (put_zset k (<[m := score]> (zset_of s k)) s, RInt 1)
  | ZRem k ms => (put_zset k (fold_left (fun z m => delete m z) ms (zset_of s k)) s, RInt 1)
  | ZRangeByScore k max limit =>
      (s, RTexts (take limit (map fst (List.filter (fun p => snd p <=? max) (map_to_list (zset_of s k))))))
  | PExpire k ms =>
      (if exists_key s k then set_ttl (<[k := r_now s + ms]> (r_ttl s)) s else s, RInt (if exists_key s k then 1 else 0))
  | Publish ch payload => (set_feed (r_feed s ++ [(ch, payload)]) s, RInt 0)
  | Scan prefix =>
      (s, RTexts (List.filter (fun k => HasPrefix k prefix)
            (elements (dom (r_hashes s) ∪ dom (r_streams s) ∪ dom (r_zsets s) : gset string))))
  | Subscribe ch => (s, RInt (Z.of_nat (length (r_feed s))))
  end.

Fixpoint mem_script (p : Script) (s : RState) : RState * Reply :=
  match p with
  | SReturn r => (s, r)
  | SCall c k => let '(s', r) := mem_do c s in mem_script (k r) s'
  end.

Definition mem_req (q : Req) (s : RState) : RState * Reply :=
  match q with
  | One c => mem_do c s
  | Eval p => mem_script p s
  end.

Lemma mem_zrange (z : gmap string Z) max limit :
  let vs := take limit (map fst (List.filter (fun p => snd p <=? max) (map_to_list z))) in
  NoDup vs /\ (length vs <= limit)%nat /\
  (forall m, m ∈ vs -> exists score, z !! m = Some score /\ score <= max) /\
  ((length vs < limit)%nat -> forall m score, z !! m = Some score -> score <= max -> m ∈ vs).
Proof.
  intros vs. set (l := map fst (List.filter (fun p => snd p <=? max) (map_to_list z))) in *.
  assert (Hin : forall m, m ∈ l <-> exists score, z !! m = Some score /\ score <= max).
  { intros m. unfold l. rewrite list_elem_of_fmap. split.
    - intros ([m' score] & -> & Hp). apply list_elem_of_In, filter_In in Hp as [Hp Hs].
      apply list_elem_of_In, elem_of_map_to_list in Hp. exists score. cbn in *. split; [done|lia].
    - intros (score & Hz & Hs). exists (m, score). split; [done|]. apply list_elem_of_In, filter_In. split; [|cbn; lia].
      apply list_elem_of_In. by apply elem_of_map_to_list. }
  assert (Hd : NoDup l).
  { unfold l. pose proof (NoDup_fst_map_to_list z) as H. revert H. generalize (map_to_list z). intros ps.
    induction ps as [|p ps IH]; [done|]. cbn. rewrite NoDup_cons. intros [Hp Hps]. destruct (snd p <=? max); [|by apply IH].
    cbn. rewrite NoDup_cons. split; [|by apply IH]. intros (q & E & Hq)%list_elem_of_fmap. apply Hp.
    apply list_elem_of_fmap. exists q. split; [done|]. by apply list_elem_of_In, filter_In in Hq as [?%list_elem_of_In _]. }
  split_and!.
  - unfold vs. rewrite <- (take_drop limit l) in Hd. by apply NoDup_app in Hd as [? _].
  - unfold vs. rewrite length_take. lia.
  - intros m Hm. apply Hin. unfold vs in Hm. rewrite <- (take_drop limit l). apply elem_of_app. by left.
  - intros Hl m score Hz Hs. unfold vs in *. rewrite length_take in Hl. rewrite take_ge by lia. apply Hin. by exists score.
Qed.

Lemma mem_scan s prefix k :
  k ∈ List.filter (fun k => HasPrefix k prefix) (elements (dom (r_hashes s) ∪ dom (r_streams s) ∪ dom (r_zsets s) : gset string)) <->
  exists_key s k = true /\ exists t, k = prefix +:+ t.
Proof.
  rewrite list_elem_of_In, filter_In, <- list_elem_of_In, elem_of_elements, !elem_of_union, !elem_of_dom, HasPrefix_spec.
  unfold exists_key. destruct (r_hashes s !! k), (r_streams s !! k), (r_zsets s !! k); unfold is_Some; naive_solver.
Qed.

(** It is a server. *)
Lemma mem_do_step c s : redis_step c s (fst (mem_do c s)) (snd (mem_do c s)).
Proof.
  destruct c; cbn [mem_do]; try (by constructor).
  - destruct (hash_of s k !! f) eqn:E; [by econstructor|by constructor].
  - constructor; [lia|]. unfold trimmed. destruct maxlen; [|done]. lia.
  - destruct (x_groups (stream_of s k) !! g) eqn:E; [by econstructor|by constructor].
  - destruct (read_group g consumer count ks s) as [[es s']|] eqn:E; by constructor.
  - destruct (x_groups (stream_of s k) !! g) eqn:E; [|by constructor]. constructor; [done| |].
    + unfold claimable. intros id Hid. rewrite <- (take_drop count). apply elem_of_app. by left.
    + unfold claimable. rewrite length_take. lia.
  - destruct (x_groups (stream_of s k) !! g) eqn:E; by constructor.
  - destruct (x_groups (stream_of s k) !! g) eqn:E; by constructor.
  - destruct (mem_zrange (zset_of s k) max limit) as (H1 & H2 & H3 & H4). by constructor.
  - constructor. apply mem_scan.
Qed.

Lemma mem_req_step q s : redis_req q s (fst (mem_req q s)) (snd (mem_req q s)).
Proof.
  destruct q as [c|p]; cbn [mem_req redis_req]; [apply mem_do_step|]. revert s. induction p as [r|c k IH]; intros s; cbn [mem_script].
  - constructor.
  - pose proof (mem_do_step c s) as H. destruct (mem_do c s) as [s' r]. cbn [fst snd] in H. econstructor; [exact H|apply IH].
Qed.
