(* ===== verification/Redis.v ===== *)
(** * The Redis message broker

    Models [brokers/redis/broker.go]: the keys, the Lua scripts and every method,
    as programs over the server of [RedisServer].  The loops of the goroutines are
    modelled by their rounds.  The registry pump at the end of the file is that of
    the in-memory broker ([RegistryPump]). *)

From S2P Require Import Prelude Decimal GoTime GoText Values Schema Messages Wire KvStore Sql Programs RedisServer.
#[global] Open Scope Z_scope.

(** ** What the code uses of the standard library *)

(** [base64.RawURLEncoding] *)
Definition b64_char (n : Z) : Ascii.ascii :=
  Ascii.ascii_of_nat (Z.to_nat (
    if n <? 26 then 65 + n else if n <? 52 then 97 + (n - 26) else if n <? 62 then 48 + (n - 52)
    else if n =? 62 then 45 else 95)).
Definition b64_val (c : Ascii.ascii) : option Z :=
  let n := Z.of_nat (Ascii.nat_of_ascii c) in
  if (65 <=? n) && (n <=? 90) then Some (n - 65)
  else if (97 <=? n) && (n <=? 122) then Some (n - 97 + 26)
  else if (48 <=? n) && (n <=? 57) then Some (n - 48 + 52)
  else if n =? 45 then Some 62 else if n =? 95 then Some 63 else None.

Fixpoint b64_encode (bs : list Z) : string :=
  match bs with
  | [] => EmptyString
  | [a] => String (b64_char (a / 4)) (String (b64_char (a mod 4 * 16)) EmptyString)
  | [a; b] =>
      String (b64_char (a / 4)) (String (b64_char (a mod 4 * 16 + b / 16)) (String (b64_char (b mod 16 * 4)) EmptyString))
  | a :: b :: c :: bs' =>
      String (b64_char (a / 4)) (String (b64_char (a mod 4 * 16 + b / 16))
        (String (b64_char (b mod 16 * 4 + c / 64)) (String (b64_char (c mod 64)) (b64_encode bs'))))
  end.

(** The bytes of groups of four digits; the last may have two or three. *)
Fixpoint b64_groups (ds : list Z) : option (list Z) :=
  match ds with
  | [] => Some []
  | [_] => None
  | [a; b] => Some [a * 4 + b / 16]
  | [a; b; c] => Some [a * 4 + b / 16; b mod 16 * 16 + c / 4]
  | a :: b :: c :: d :: ds' =>
      match b64_groups ds' with
      | Some bs => Some (a * 4 + b / 16 :: b mod 16 * 16 + c / 4 :: c mod 4 * 64 + d :: bs)
      | None => None
      end
  end.

(** Line breaks are skipped. *)
Definition b64_decode (s : string) : option (list Z) :=
  let cs := List.filter (fun c => negb (Ascii.eqb c (Ascii.ascii_of_nat 10) || Ascii.eqb c (Ascii.ascii_of_nat 13))) (String.list_ascii_of_string s) in
  match mapM b64_val cs with Some ds => b64_groups ds | None => None end.

(** [strings.SplitN(s, sep, n)] with a separator of one character. *)
Fixpoint split_at (c : Ascii.ascii) (s : string) : string * option string :=
  match s with
  | EmptyString => (EmptyString, None)
  | String x s' => if Ascii.eqb x c then (EmptyString, Some s') else let '(a, b) := split_at c s' in (String x a, b)
  end.
Fixpoint SplitN (n : nat) (c : Ascii.ascii) (s : string) : list string :=
  match n with
  | O => []
  | S O => [s]
  | S n' => match split_at c s with (a, Some b) => a :: SplitN n' c b | (a, None) => [a] end
  end.

(** [strconv.ParseInt(s, 10, 64)] and [strconv.FormatInt] *)
Fixpoint parse_digits (acc : Z) (s : string) : option Z :=
  match s with
  | EmptyString => Some acc
  | String c s' =>
      let d := Z.of_nat (Ascii.nat_of_ascii c) - 48 in
      if (0 <=? d) && (d <=? 9) then parse_digits (acc * 10 + d) s' else None
  end.
Definition parse_nat (s : string) : option Z := match s with EmptyString => None | _ => parse_digits 0 s end.
Definition ParseInt (s : string) : option Z :=
  let v := match s with
           | String c s' =>
               if (Ascii.nat_of_ascii c =? 45)%nat then option_map Z.opp (parse_nat s')
               else if (Ascii.nat_of_ascii c =? 43)%nat then parse_nat s' else parse_nat s
           | EmptyString => None
           end in
  match v with Some n => if (- 2 ^ 63 <=? n) && (n <? 2 ^ 63) then Some n else None | None => None end.
Definition FormatInt (n : Z) : string := pretty n.

(** ** Messages *)

(** The values of the [ProcessStatus] constants. *)
Definition status_int (p : ProcessStatus) : Z :=
  match p with
  | ProcessStatusPending => 0 | ProcessStatusRunning => 1 | ProcessStatusSuspended => 2
  | ProcessStatusCompleted => 3 | ProcessStatusCancelled => 4 | ProcessStatusFailed => 5
  end.
Definition status_of (n : Z) : option ProcessStatus :=
  match n with
  | 0 => Some ProcessStatusPending | 1 => Some ProcessStatusRunning | 2 => Some ProcessStatusSuspended
  | 3 => Some ProcessStatusCompleted | 4 => Some ProcessStatusCancelled | 5 => Some ProcessStatusFailed
  | _ => None
  end.

Section Redis.
Context {DO : DecimalOps}.
Context `{!Cbor Envelope, !Cbor Job, !Cbor InstanceEvent, !Cbor ProcessRegistration, !Cbor RegUpdate}.
(** [time.Local] *)
Variable loc : Location.

(** ** State *)

Record Config : Type := mkConfig {
  cfg_Addr : string;
  cfg_KeyPrefix : string;
  cfg_Cipher : option PayloadCipher;
  cfg_RegistrationTTL : Z;
  cfg_InFlightTimeout : Z;
  cfg_EventRetention : Z
}.

Record delivery : Type := mkDelivery { d_stream : string; d_id : Z }.

(** [Broker] *)
Record Broker : Type := mkBroker {
  b_cfg : Config;
  b_closed : bool;
  b_groups : gset string;
  b_deliveries : gmap string (list delivery)
}.

Definition set_closed (v : bool) (b : Broker) : Broker := mkBroker (b_cfg b) v (b_groups b) (b_deliveries b).
Definition set_groups (v : gset string) (b : Broker) : Broker := mkBroker (b_cfg b) (b_closed b) v (b_deliveries b).
Definition set_deliveries (v : gmap string (list delivery)) (b : Broker) : Broker :=
  mkBroker (b_cfg b) (b_closed b) (b_groups b) v.

Definition jobsGroup : string := "workers".
Definition eventBufferSize : nat := 64.
Definition instStreamMaxLen : Z := 256.

Definition second : Z := 10 ^ 9.

(** [New]; [ping] is the error of the connection. *)
Definition New (cfg : Config) (ping : option GoError) : result Broker :=
  if String.eqb (cfg_Addr cfg) "" then Err (ErrorText "redis message broker: Config.Addr is required")
  else
    let cfg := mkConfig (cfg_Addr cfg)
      (if String.eqb (cfg_KeyPrefix cfg) "" then "blkit"%string else cfg_KeyPrefix cfg) (cfg_Cipher cfg)
      (if cfg_RegistrationTTL cfg <=? 0 then 90 * second else cfg_RegistrationTTL cfg)
      (if cfg_InFlightTimeout cfg <=? 0 then 150 * second else cfg_InFlightTimeout cfg)
      (if cfg_EventRetention cfg <=? 0 then 3600 * second else cfg_EventRetention cfg) in
    match ping with
    | Some e => Err (WrapError ("redis message broker: connect " +:+ cfg_Addr cfg) e)
    | None => Ok (mkBroker cfg false ∅ ∅)
    end.

(** ** Programs *)

Abbreviation P A := (Prog Req Reply Broker Job A).
Abbreviation M A := (Prog Req Reply Broker Job (result A)).

(** [client.Do(...).Result()]: an error reply is an error. *)
Definition send_req (q : Req) : M Reply :=
  Server q (fun r => Ret (match r with Ok (RError t) => Err (ErrorText t) | _ => r end)).
Definition call (c : Cmd) : M Reply := send_req (One c).

(** [goredis.Nil] and a reply of another type *)
Definition ErrNil : GoError := ErrorText "redis: nil".
Definition ErrReply : GoError := ErrorText "redis: unexpected reply".

Definition as_int (r : Reply) : M Z := match r with RInt n => ret n | _ => fail ErrReply end.
Definition as_text (r : Reply) : M string := match r with RText v => ret v | RNil => fail ErrNil | _ => fail ErrReply end.
Definition as_fields (r : Reply) : M Fields := match r with RFields fs => ret fs | RNil => fail ErrNil | _ => fail ErrReply end.
Definition as_texts (r : Reply) : M (list string) := match r with RTexts vs => ret vs | _ => fail ErrReply end.
Definition as_entries (r : Reply) : M (list (string * Entry)) :=
  match r with REntries es => ret es | RNil => fail ErrNil | _ => fail ErrReply end.

(** A command whose error is dropped. *)
Definition ignore (m : M Reply) : P unit := let~ _ := m in Ret tt.

(** [ctx.Err()] *)
Definition check_ctx (ctx : option GoError) : M unit := match ctx with Some e => fail e | None => ret tt end.

(** [checkOpen] *)
Definition checkOpen : M unit :=
  let~ closed := reading b_closed in if (closed : bool) then fail ErrBrokerClosed else ret tt.

(** [goRun]: whether the goroutine was started. *)
Definition goRun : P bool := reading (fun b => negb (b_closed b)).

(** [Close]: [true] when this call stopped the loops and closed the client. *)
Definition Close : P bool := Local (set_closed true) (fun b => Ret (negb (b_closed b))).

(** ** Keys *)

(** [k] *)
Definition k_ (cfg : Config) (parts : list string) : string := cfg_KeyPrefix cfg +:+ ":" +:+ String.concat ":" parts.

(** [encodeKey], [decodeKey] *)
Definition nul : Ascii.ascii := Ascii.ascii_of_nat 0.
Definition encodeKey (k : ProcessKey) : string :=
  b64_encode (map byte_val (bytes_of (pk_Namespace k +:+ String nul (pk_ProcessID k +:+ String nul (pk_Version k))))).
Definition decodeKey (s : string) : option ProcessKey :=
  match b64_decode s with
  | None => None
  | Some bs =>
      match SplitN 3 nul (text_of (map byte_of bs)) with
      | [n; p; v] => Some (mkProcessKey n p v)
      | _ => None
      end
  end.

Definition jobsKey (cfg : Config) (key : ProcessKey) : string := k_ cfg ["jobs"; encodeKey key].
Definition instKey (cfg : Config) (id : string) : string := k_ cfg ["inst"; id].
Definition metaKey (cfg : Config) (id : string) : string := k_ cfg ["instmeta"; id].
Definition regKey (cfg : Config) (workerID : string) : string := k_ cfg ["reg"; workerID].
Definition timersKey (cfg : Config) : string := k_ cfg ["timers"].
Definition feedChannel (cfg : Config) : string := k_ cfg ["reg-feed"].

(** [jobKindWire], [eventKindName] *)
Definition jobKindWire (j : JobBody) : string :=
  match j with
  | JobStart _ _ _ _ => KindJobStart
  | JobRespondToInput _ _ _ => KindJobRespondToInput
  | JobCancel _ _ => KindJobCancel
  | JobTerminate _ _ => KindJobTerminate
  | JobResume _ => KindJobResume
  end.
Definition eventKindName (e : EventBody) : string :=
  match e with
  | InstanceEventLifecycle _ => "lifecycle"
  | InstanceEventInputRequest _ _ _ => "input"
  | InstanceEventNodeCompleted _ _ _ => "node"
  | InstanceEventError _ => "error"
  | InstanceEventResult _ => "result"
  end.

(** ** Lua scripts *)

Definition lua_compare_nil : Reply := RError "attempt to compare nil with number".

(** [sweepScript] *)
Definition sweepScript (key : string) (now : Z) : Script :=
  SCall (HGet key "deadline") (fun d =>
  match d with
  | RText v =>
      match ParseInt v with
      | None => SReturn lua_compare_nil
      | Some dl =>
          if now <? dl then SReturn (RFields ∅)
          else SCall (HGetAll key) (fun all => SCall (Del key) (fun _ => SReturn all))
      end
  | _ => SReturn (RFields ∅)
  end).

(** [heartbeatScript] *)
Definition heartbeatScript (key : string) (deadline now : Z) : Script :=
  SCall (Exists key) (fun e =>
  match e with
  | RInt 0 => SReturn (RInt 0)
  | _ => SCall (HSet key (<["deadline" := FormatInt deadline]> {["hb" := FormatInt now]}))
           (fun _ => SReturn (RInt 1))
  end).

(** [unregisterScript] *)
Definition unregisterScript (key : string) : Script :=
  SCall (Exists key) (fun e =>
  match e with
  | RInt 0 => SReturn RNil
  | _ => SCall (HGetAll key) (fun all => SCall (Del key) (fun _ => SReturn all))
  end).

(** [dueTimersScript] *)
Definition dueTimersScript (key : string) (now : Z) : Script :=
  SCall (ZRangeByScore key now 16) (fun due =>
  match due with
  | RTexts [] => SReturn due
  | RTexts ms => SCall (ZRem key ms) (fun _ => SReturn due)
  | _ => SReturn due
  end).

(** [cancelQueuedScript]: the first start of the instance decides. *)
Definition is_start_entry (instanceID kind : string) (e : Entry) : bool :=
  bool_decide (e_fields e !! "kind" = Some kind) && bool_decide (e_fields e !! "instance" = Some instanceID).
Definition cancelQueuedScript (key instanceID kind group : string) : Script :=
  SCall (XRange key) (fun r =>
  match r with
  | REntries es =>
      match List.find (fun e => is_start_entry instanceID kind (snd e)) es with
      | Some (_, e) =>
          SCall (XPending key group (e_id e)) (fun pend =>
          match pend with
          | RTexts [] => SCall (XDel key (e_id e)) (fun _ => SReturn (RInt 1))
          | _ => SReturn (RInt 0)
          end)
      | None => SReturn (RInt 0)
      end
  | _ => SReturn (RInt 0)
  end).

(** [pipe.Del; pipe.HSet; pipe.Exec] *)
Definition replaceHash (key : string) (fs : Fields) : Script :=
  SCall (Del key) (fun _ => SCall (HSet key fs) (fun r => SReturn r)).

(** ** Instance events *)

(** [publishInstanceEvent] *)
Definition event_values (data : bytes) (body : EventBody) : Fields :=
  let values := <["env" := text_of data]> {["kind" := eventKindName body]} in
  match body with
  | InstanceEventLifecycle phase => <["phase" := FormatInt (status_int phase)]> values
  | _ => values
  end.

Definition publishInstanceEvent (instanceID : string) (body : EventBody) : M unit :=
  let~ cfg := reading b_cfg in
  let~ v := (let? r := call (HGet (metaKey cfg instanceID) "corr") in as_text r) in
  let corr := match v with Ok c => Some c | Err _ => None end in
  let~ now := Clock Ret in
  let~ rand := Random Ret in
  match EncodeEnvelope KindInstanceEvent instanceID corr (mkInstanceEvent instanceID corr now body) (cfg_Cipher cfg) rand with
  | Err e => fail e
  | Ok data => let? _ := call (XAdd (instKey cfg instanceID) (Some instStreamMaxLen) (event_values data body)) in ret tt
  end.

(** ** Jobs *)

(** [ensureGroup] *)
Definition ensureGroup (stream : string) : M unit :=
  let~ known := reading (fun b => bool_decide (stream ∈ b_groups b)) in
  if (known : bool) then ret tt
  else
    let~ r := call (XGroupCreateMkStream stream jobsGroup) in
    match r with
    | Err e =>
        if Contains (error_text e) "BUSYGROUP"
        then Local (fun b => set_groups ({[stream]} ∪ b_groups b) b) (fun _ => ret tt)
        else fail e
    | Ok _ => Local (fun b => set_groups ({[stream]} ∪ b_groups b) b) (fun _ => ret tt)
    end.

(** [addJob] *)
Definition job_values (data : bytes) (job : Job) : Fields :=
  <["env" := text_of data]> (<["kind" := jobKindWire (job_body job)]> {["instance" := Job_InstanceID job]}).

Definition addJob (stream : string) (job : Job) : M unit :=
  let~ cfg := reading b_cfg in
  let~ rand := Random Ret in
  match EncodeEnvelope (jobKindWire (job_body job)) (Job_InstanceID job) None job (cfg_Cipher cfg) rand with
  | Err e => fail e
  | Ok data => let? _ := call (XAdd stream None (job_values data job)) in ret tt
  end.

(** [settle] *)
Fixpoint settle_all (ds : list delivery) : P unit :=
  match ds with
  | [] => Ret tt
  | d :: ds' =>
      let~ _ := ignore (call (XAck (d_stream d) jobsGroup (d_id d))) in
      let~ _ := ignore (call (XDel (d_stream d) (d_id d))) in
      settle_all ds'
  end.
Definition deliveries_of (b : Broker) (instanceID : string) : list delivery := default [] (b_deliveries b !! instanceID).
Definition settle (instanceID : string) : P unit :=
  Local (fun b => set_deliveries (delete instanceID (b_deliveries b)) b)
    (fun b => settle_all (deliveries_of b instanceID)).

(** [deliverJob]: [false] when the context is done. *)
Definition decodeJob (cfg : Config) (m : Entry) : result Job :=
  let! env := DecodeEnvelope (bytes_of (default "" (e_fields m !! "env"))) (cfg_Cipher cfg) in DecodePayload env.

Definition deliverJob (stream : string) (m : Entry) : P bool :=
  let~ cfg := reading b_cfg in
  match decodeJob cfg m with
  | Err _ =>
      let~ _ := ignore (call (XAck stream jobsGroup (e_id m))) in
      let~ _ := ignore (call (XDel stream (e_id m))) in
      Ret true
  | Ok job =>
      let i := Job_InstanceID job in
      Local (fun b => set_deliveries (<[i := deliveries_of b i ++ [mkDelivery stream (e_id m)]]> (b_deliveries b)) b)
        (fun _ => Hand job Ret)
  end.

(** The loops over messages, up to a job that is not taken. *)
Fixpoint deliverAll (ms : list (string * Entry)) : P bool :=
  match ms with
  | [] => Ret true
  | (stream, m) :: ms' => let~ ok := deliverJob stream m in if (ok : bool) then deliverAll ms' else Ret false
  end.

Fixpoint claimAll (timeout : Z) (consumer : string) (streams : list string) : P bool :=
  match streams with
  | [] => Ret true
  | s :: streams' =>
      let~ r := (let? x := call (XAutoClaim s jobsGroup consumer timeout 16) in as_entries x) in
      match r with
      | Err _ => claimAll timeout consumer streams'
      | Ok msgs => let~ ok := deliverAll msgs in if (ok : bool) then claimAll timeout consumer streams' else Ret false
      end
  end.

(** A round of [fetchLoop]; [claim] when a pass over the pending entries is due.
    [false] ends the loop. *)
Definition fetchRound (ctx : option GoError) (claim : bool) (streams : list string) (consumer : string) : P bool :=
  match ctx with
  | Some _ => Ret false
  | None =>
      let~ cfg := reading b_cfg in
      let~ ok := (if claim then claimAll (cfg_InFlightTimeout cfg / 10 ^ 6) consumer streams else Ret true) in
      if (ok : bool) then
        let~ r := (let? x := call (XReadGroup jobsGroup consumer streams 16) in as_entries x) in
        match r with
        | Err _ => Ret true
        | Ok ms => deliverAll ms
        end
      else Ret false
  end.

(** [FetchJobs]: the streams and the consumer that the rounds use; [None] when the
    channel is closed at once. *)
Fixpoint ensureGroups (streams : list string) : M unit :=
  match streams with
  | [] => ret tt
  | s :: streams' => let? _ := ensureGroup s in ensureGroups streams'
  end.
Definition FetchJobs (keys : list ProcessKey) : M (option (list string * string)) :=
  let? _ := checkOpen in
  match keys with
  | [] => let~ ok := goRun in ret (if (ok : bool) then Some ([], EmptyString) else None)
  | _ =>
      let~ cfg := reading b_cfg in
      let streams := map (jobsKey cfg) keys in
      let? _ := ensureGroups streams in
      let~ id := Fresh Ret in
      let~ ok := goRun in
      ret (if (ok : bool) then Some (streams, "c-" +:+ id) else None)
  end.

(** ** Reports *)

(** [report] *)
Definition report (ctx : option GoError) (instanceID : string) : M unit :=
  let? _ := check_ctx ctx in
  if String.eqb instanceID "" then fail ErrUnknownProcess else checkOpen.

(** [finish] *)
Definition finish (instanceID : string) (phase : ProcessStatus) (extra : option EventBody) : M unit :=
  let~ cfg := reading b_cfg in
  let~ _ := settle instanceID in
  let~ _ := ignore (call (ZRem (timersKey cfg) [instanceID])) in
  let? set := (let? r := call (HSetNX (metaKey cfg instanceID) "finished" "1") in as_int r) in
  if negb (set =? 1) then ret tt
  else
    let? _ := publishInstanceEvent instanceID (InstanceEventLifecycle phase) in
    let? _ := match extra with Some e => publishInstanceEvent instanceID e | None => ret tt end in
    let~ _ := ignore (call (PExpire (metaKey cfg instanceID) (cfg_EventRetention cfg / 10 ^ 6))) in
    let~ _ := ignore (call (PExpire (instKey cfg instanceID) (cfg_EventRetention cfg / 10 ^ 6))) in
    ret tt.

Definition ReportRunning (ctx : option GoError) (instanceID : string) : M unit :=
  let? _ := report ctx instanceID in publishInstanceEvent instanceID (InstanceEventLifecycle ProcessStatusRunning).

Definition ReportSuspended (ctx : option GoError) (instanceID : string) (resumeAt : option Time) : M unit :=
  let? _ := report ctx instanceID in
  let? _ := publishInstanceEvent instanceID (InstanceEventLifecycle ProcessStatusSuspended) in
  let~ _ := settle instanceID in
  match resumeAt with
  | None => ret tt
  | Some t =>
      let~ cfg := reading b_cfg in
      let? _ := call (ZAdd (timersKey cfg) instanceID (UnixMilli t)) in ret tt
  end.

Definition ReportCompleted (ctx : option GoError) (instanceID : string) (result : EvaluationResult) : M unit :=
  let? _ := report ctx instanceID in finish instanceID ProcessStatusCompleted (Some (InstanceEventResult result)).

Definition ReportFailed (ctx : option GoError) (instanceID : string) (err : InstanceError) : M unit :=
  let? _ := report ctx instanceID in finish instanceID ProcessStatusFailed (Some (InstanceEventError err)).

Definition ReportCancelled (ctx : option GoError) (instanceID : string) : M unit :=
  let? _ := report ctx instanceID in finish instanceID ProcessStatusCancelled None.

Definition PostError (ctx : option GoError) (instanceID : string) (err : InstanceError) : M unit :=
  let? _ := report ctx instanceID in publishInstanceEvent instanceID (InstanceEventError err).

Definition PostInputRequest (ctx : option GoError) (instanceID nodeID requestID : string) (payload : list (string * HostValue)) : M unit :=
  let? _ := report ctx instanceID in publishInstanceEvent instanceID (InstanceEventInputRequest nodeID requestID payload).

Definition PostNodeCompleted (ctx : option GoError) (instanceID nodeID nodeKind : string) (outputs : list (string * HostValue)) : M unit :=
  let? _ := report ctx instanceID in publishInstanceEvent instanceID (InstanceEventNodeCompleted nodeID nodeKind outputs).

(** ** Timers *)

(** [fireTimer] *)
Definition fireTimer (instanceID : string) : P unit :=
  let~ cfg := reading b_cfg in
  let~ r := (let? x := call (HGetAll (metaKey cfg instanceID)) in as_fields x) in
  match r with
  | Err _ => Ret tt
  | Ok meta =>
      if bool_decide (meta = ∅) || bool_decide (meta !! "finished" = Some "1"%string) then Ret tt
      else
        match decodeKey (default "" (meta !! "key")) with
        | None => Ret tt
        | Some key =>
            let~ g := ensureGroup (jobsKey cfg key) in
            match g with
            | Err _ => Ret tt
            | Ok _ => let~ _ := addJob (jobsKey cfg key) (mkJob key (JobResume instanceID)) in Ret tt
            end
        end
  end.

Fixpoint fireAll (due : list string) : P unit :=
  match due with
  | [] => Ret tt
  | id :: due' => let~ _ := (if String.eqb id "" then Ret tt else fireTimer id) in fireAll due'
  end.

(** A round of [moveTimers]. *)
Definition moveTimersRound : P unit :=
  let~ cfg := reading b_cfg in
  let~ now := Clock Ret in
  let~ r := (let? x := send_req (Eval (dueTimersScript (timersKey cfg) (UnixMilli now))) in as_texts x) in
  match r with
  | Err _ => Ret tt
  | Ok due => fireAll due
  end.

(** ** Registrations *)

(** [decodeRegFields] *)
Definition decodeReg (cfg : Config) (hb : option Time) (fv : string * string) : option ProcessRegistration :=
  if negb (HasPrefix (fst fv) "reg:") then None
  else
    match DecodeEnvelope (bytes_of (snd fv)) (cfg_Cipher cfg) with
    | Err _ => None
    | Ok env =>
        match DecodePayload env with
        | Err _ => None
        | Ok r => Some (match hb with Some t => if IsZero t then r else set_LastHeartbeat t r | None => r end)
        end
    end.

Definition decodeRegFields (fields : Fields) : P (list ProcessRegistration) :=
  let~ cfg := reading b_cfg in
  let hb := option_map (of_milli loc) (ParseInt (default "" (fields !! "hb"))) in
  let~ fvs := in_some_order (map_to_list fields) in
  Ret (omap (decodeReg cfg hb) fvs).

(** [publishRegistryUpdate] *)
Definition publishRegistryUpdate (kind : RegistryUpdateKind) (reg : ProcessRegistration) : P unit :=
  let~ cfg := reading b_cfg in
  let~ rand := Random Ret in
  match EncodeEnvelope KindRegistryUpdate "" None (mkRegUpdate kind (Some reg)) (cfg_Cipher cfg) rand with
  | Err _ => Ret tt
  | Ok data => ignore (call (Publish (feedChannel cfg) (text_of data)))
  end.

Fixpoint publishAll (kind : RegistryUpdateKind) (regs : list ProcessRegistration) : P unit :=
  match regs with
  | [] => Ret tt
  | r :: regs' => let~ _ := publishRegistryUpdate kind r in publishAll kind regs'
  end.

(** [firsts]: the first registration of a key, as the old hash has it. *)
Definition first_of (existing : Fields) (enc : string) : option Time :=
  match existing !! ("first:" +:+ enc) with
  | Some v => option_map (of_milli loc) (ParseInt v)
  | None => None
  end.

(** The loop of [RegisterProcesses]: the fields and the stamped registrations. *)
Fixpoint stampAll (cfg : Config) (workerID : string) (now : Time) (existing : Fields) (regs : list ProcessRegistration)
    (fields : Fields) : M (Fields * list ProcessRegistration) :=
  match regs with
  | [] => ret (fields, [])
  | r :: regs' =>
      let enc := encodeKey (ProcessRegistration_Key r) in
      let first := default now (first_of existing enc) in
      let r := stamp workerID first now r in
      let~ rand := Random Ret in
      match EncodeEnvelope KindRegistration "" None r (cfg_Cipher cfg) rand with
      | Err e => fail e
      | Ok data =>
          let fields := <["first:" +:+ enc := FormatInt (UnixMilli first)]> (<["reg:" +:+ enc := text_of data]> fields) in
          let? p := stampAll cfg workerID now existing regs' fields in
          ret (fst p, r :: snd p)
      end
  end.

Definition RegisterProcesses (ctx : option GoError) (workerID : string) (regs : list ProcessRegistration) : M unit :=
  let? _ := check_ctx ctx in
  let? _ := checkOpen in
  let~ cfg := reading b_cfg in
  let? existing := (let? r := call (HGetAll (regKey cfg workerID)) in as_fields r) in
  let~ now := Clock Ret in
  let~ removed := decodeRegFields existing in
  let fields := <["deadline" := FormatInt (UnixMilli (TimeAdd now (cfg_RegistrationTTL cfg)))]>
                  {["hb" := FormatInt (UnixMilli now)]} in
  let? p := stampAll cfg workerID now existing regs fields in
  let? _ := send_req (Eval (replaceHash (regKey cfg workerID) (fst p))) in
  let~ _ := publishAll RegistryUpdateRemoved removed in
  let~ _ := publishAll RegistryUpdateAdded (snd p) in
  ret tt.

Definition Heartbeat (ctx : option GoError) (workerID : string) : M unit :=
  let? _ := check_ctx ctx in
  let? _ := checkOpen in
  let~ cfg := reading b_cfg in
  let~ now := Clock Ret in
  let? n := (let? r := send_req (Eval (heartbeatScript (regKey cfg workerID)
                 (UnixMilli (TimeAdd now (cfg_RegistrationTTL cfg))) (UnixMilli now))) in as_int r) in
  if n =? 0 then fail ErrUnknownWorker else ret tt.

Definition Unregister (ctx : option GoError) (workerID : string) : M unit :=
  let? _ := check_ctx ctx in
  let? _ := checkOpen in
  let~ cfg := reading b_cfg in
  let? res := send_req (Eval (unregisterScript (regKey cfg workerID))) in
  match res with
  | RNil => fail ErrUnknownWorker
  | _ =>
      let~ regs := decodeRegFields (match res with RFields fs => fs | _ => ∅ end) in
      let~ _ := publishAll RegistryUpdateRemoved regs in ret tt
  end.

(** The worker hashes. *)
Definition scanWorkers (cfg : Config) : M (list string) := let? r := call (Scan (k_ cfg ["reg"; ""])) in as_texts r.

(** A round of [sweepRegistry]. *)
Fixpoint sweepAll (ks : list string) : P unit :=
  match ks with
  | [] => Ret tt
  | k :: ks' =>
      let~ now := Clock Ret in
      let~ res := send_req (Eval (sweepScript k (UnixMilli now))) in
      let~ _ := match res with
                | Err _ => Ret tt
                | Ok r =>
                    let~ regs := decodeRegFields (match r with RFields fs => fs | _ => ∅ end) in
                    publishAll RegistryUpdateHeartbeatLost regs
                end in
      sweepAll ks'
  end.
Definition sweepRound : P unit :=
  let~ cfg := reading b_cfg in
  let~ ks := scanWorkers cfg in
  match ks with Ok ks => sweepAll ks | Err _ => Ret tt end.

(** [snapshotRegistrations] *)
Fixpoint snapshotAll (now : Z) (ks : list string) : M (list ProcessRegistration) :=
  match ks with
  | [] => ret []
  | k :: ks' =>
      let? fields := (let? r := call (HGetAll k) in as_fields r) in
      match ParseInt (default "" (fields !! "deadline")) with
      | Some deadline =>
          if deadline <? now then snapshotAll now ks'
          else
            let~ regs := decodeRegFields fields in
            let? rest := snapshotAll now ks' in ret (regs ++ rest)
      | None => snapshotAll now ks'
      end
  end.
Definition snapshotRegistrations : M (list ProcessRegistration) :=
  let~ cfg := reading b_cfg in
  let~ now := Clock Ret in
  let? ks := scanWorkers cfg in
  snapshotAll (UnixMilli now) ks.

(** [liveRegistration] *)
Definition liveRegistration (key : ProcessKey) : M (option ProcessRegistration) :=
  let? regs := snapshotRegistrations in
  ret (List.find (fun r => bool_decide (ProcessRegistration_Key r = key)) regs).

(** [SubscribeToProcessRegistry]: what the pump is given at first, and the place in
    the feed from which the relay goes on, or [None] when the pump was stopped. *)
Definition SubscribeToProcessRegistry : M (list RegUpdate * option Z) :=
  let? _ := checkOpen in
  let~ cfg := reading b_cfg in
  let? at_ := (let? r := call (Subscribe (feedChannel cfg)) in as_int r) in
  let? regs := snapshotRegistrations in
  let queue := map (fun r => mkRegUpdate RegistryUpdateSnapshot (Some r)) regs ++ [mkRegUpdate RegistryUpdateSnapshotComplete None] in
  let~ pumping := goRun in
  let~ relaying := (if (pumping : bool) then goRun else Ret false) in
  let~ watching := (if (relaying : bool) then goRun else Ret false) in
  ret (queue, if (watching : bool) then Some at_ else None).

(** One message of the relay. *)
Definition relay (cfg : Config) (msg : string) (queue : list RegUpdate) : list RegUpdate :=
  match (let! env := DecodeEnvelope (bytes_of msg) (cfg_Cipher cfg) in DecodePayload env) with
  | Ok u => queue ++ [u]
  | Err _ => queue
  end.

(** ** Producers *)

Definition Submit (ctx : option GoError) (req : StartRequest) : M string :=
  let? _ := check_ctx ctx in
  let? _ := checkOpen in
  let key := StartRequest_Key req in
  let? reg := liveRegistration key in
  match reg with
  | None => fail ErrUnknownProcess
  | Some reg =>
      match List.find (fun s => String.eqb (se_Id s) (sr_StartID req)) (pr_StartEvents reg) with
      | None => fail ErrUnknownStartID
      | Some start =>
          match (match se_InputContract start with Some c => InputContract_Validate c (sr_Input req) | None => None end) with
          | Some e => fail e
          | None =>
              let~ cfg := reading b_cfg in
              let~ instanceID := Fresh Ret in
              let meta := match sr_CorrelationKey req with
                          | Some c => <["corr" := c]> {["key" := encodeKey key]}
                          | None => {["key" := encodeKey key]}
                          end in
              let? _ := call (HSet (metaKey cfg instanceID) meta) in
              let? _ := ensureGroup (jobsKey cfg key) in
              let? _ := addJob (jobsKey cfg key)
                          (mkJob key (JobStart instanceID (sr_StartID req) (sr_Input req) (sr_CorrelationKey req))) in
              let? _ := publishInstanceEvent instanceID (InstanceEventLifecycle ProcessStatusPending) in
              ret instanceID
          end
      end
  end.

Definition Cancel (ctx : option GoError) (req : CancelRequest) : M unit :=
  let? _ := check_ctx ctx in
  let? _ := checkOpen in
  let key := CancelRequest_Key req in
  let? reg := liveRegistration key in
  match reg with
  | None => fail ErrUnknownProcess
  | Some reg =>
      let~ cfg := reading b_cfg in
      let? _ := ensureGroup (jobsKey cfg key) in
      let? res := send_req (Eval (cancelQueuedScript (jobsKey cfg key) (cr_InstanceID req) KindJobStart jobsGroup)) in
      if (match res with RInt 1 => true | _ => false end) then finish (cr_InstanceID req) ProcessStatusCancelled None
      else if negb (pr_AllowExternalCancel reg) then fail ErrCancelNotAllowed
      else addJob (jobsKey cfg key) (mkJob key (JobCancel (cr_InstanceID req) (cr_Reason req)))
  end.

Definition Terminate (ctx : option GoError) (req : TerminateRequest) : M unit :=
  let? _ := check_ctx ctx in
  let? _ := checkOpen in
  let key := TerminateRequest_Key req in
  let? reg := liveRegistration key in
  match reg with
  | None => fail ErrUnknownProcess
  | Some reg =>
      if negb (pr_AllowExternalTerminate reg) then fail ErrTerminateNotAllowed
      else
        let~ cfg := reading b_cfg in
        let? _ := ensureGroup (jobsKey cfg key) in
        addJob (jobsKey cfg key) (mkJob key (JobTerminate (tr_InstanceID req) (tr_Reason req)))
  end.

Definition RespondToInputRequest (ctx : option GoError) (instanceID requestID : string)
    (payload : list (string * HostValue)) : M unit :=
  let? _ := check_ctx ctx in
  let? _ := checkOpen in
  let~ cfg := reading b_cfg in
  let? meta := (let? r := call (HGetAll (metaKey cfg instanceID)) in as_fields r) in
  if bool_decide (meta = ∅) || bool_decide (meta !! "finished" = Some "1"%string) then
    publishInstanceEvent instanceID (InstanceEventError (mkInstanceError
      (if bool_decide (meta = ∅) then ErrCodeInstanceNotFound else ErrCodeAlreadyFinished)
      "respond-to-input for an instance the broker does not hold"))
  else
    match decodeKey (default "" (meta !! "key")) with
    | None => fail (ErrorText ("redis message broker: corrupt process key for instance " +:+ instanceID))
    | Some key =>
        let? _ := ensureGroup (jobsKey cfg key) in
        addJob (jobsKey cfg key) (mkJob key (JobRespondToInput instanceID requestID payload))
    end.

(** ** Subscribers *)

(** [instSub]: the contents of the channel. *)
Record instSub : Type := mkInstSub {
  s_ch : list InstanceEvent;
  s_dropped : bool;
  s_closed : bool
}.

Definition try_send (evt : InstanceEvent) (s : instSub) : option instSub :=
  if (length (s_ch s) <? eventBufferSize)%nat then Some (mkInstSub (s_ch s ++ [evt]) (s_dropped s) (s_closed s)) else None.

(** [instSub.send] *)
Definition send (now : Time) (evt : InstanceEvent) (s : instSub) : instSub :=
  let send_evt s := match try_send evt s with Some s' => s' | None => mkInstSub (s_ch s) true (s_closed s) end in
  if s_dropped s then
    match try_send (mkInstanceEvent (ev_InstanceID evt) None now (InstanceEventError
                      (mkInstanceError ErrCodeBackpressureDrop "subscriber buffer overflowed; events were dropped"))) s with
    | Some s' => send_evt (mkInstSub (s_ch s') false (s_closed s'))
    | None => s
    end
  else send_evt s.

(** [decodeInstanceEventEntry] *)
Definition decodeInstanceEventEntry (cfg : Config) (m : Entry) : option InstanceEvent :=
  let raw := default "" (e_fields m !! "env") in
  if String.eqb raw "" then None
  else
    match (let! env := DecodeEnvelope (bytes_of raw) (cfg_Cipher cfg) in DecodePayload env) with
    | Ok evt => Some evt
    | Err _ => None
    end.

(** The scan of [SubscribeToInstance]: the latest lifecycle entry, the terminal
    entry and the latest phase ([None]: [ProcessStatus(-1)] or an unknown one). *)
Record Replay : Type := mkReplay {
  rp_latest : option Entry;
  rp_terminal : option Entry;
  rp_phase : option ProcessStatus
}.

Definition replay_entry (r : Replay) (e : Entry) : Replay :=
  let kind := default "" (e_fields e !! "kind") in
  if String.eqb kind "lifecycle" then
    mkReplay (Some e) (rp_terminal r)
      (match e_fields e !! "phase" with
       | Some p => match ParseInt p with Some n => status_of n | None => rp_phase r end
       | None => rp_phase r
       end)
  else if String.eqb kind "result" then mkReplay (rp_latest r) (Some e) (rp_phase r)
  else if String.eqb kind "error" && bool_decide (rp_phase r = Some ProcessStatusFailed)
  then mkReplay (rp_latest r) (Some e) (rp_phase r)
  else r.
Definition replay (es : list Entry) : Replay := fold_left replay_entry es (mkReplay None None None).

(** A subscription: its channel, and where [followInstance] goes on with what it
    awaits; [None] when it was closed at once. *)
Record Following : Type := mkFollowing { fo_sub : instSub; fo_last : Z; fo_awaiting : option string }.

Definition notFound (instanceID : string) (now : Time) : InstanceEvent :=
  mkInstanceEvent instanceID None now
    (InstanceEventError (mkInstanceError ErrCodeInstanceNotFound "no events visible for this instance")).

Definition replayed (cfg : Config) (es : list Entry) : list InstanceEvent :=
  let r := replay es in
  let event o := match o with Some e => option_list (decodeInstanceEventEntry cfg e) | None => [] end in
  event (rp_latest r) ++ event (rp_terminal r).

Definition finished_phase (p : option ProcessStatus) : bool := match p with Some p => Finished p | None => false end.

(** The start of [followInstance]. *)
Definition started (sub : instSub) (lastID : Z) : M (instSub * option (Z * option string)) :=
  let~ ok := goRun in
  ret (if (ok : bool) then (sub, Some (lastID, None)) else (mkInstSub (s_ch sub) (s_dropped sub) true, None)).

Definition SubscribeToInstance (instanceID : string) : M (instSub * option (Z * option string)) :=
  let? _ := checkOpen in
  let~ cfg := reading b_cfg in
  let? es := (let? r := call (XRange (instKey cfg instanceID)) in as_entries r) in
  match map snd es with
  | [] =>
      let? n := (let? r := call (Exists (metaKey cfg instanceID)) in as_int r) in
      let~ now := Clock Ret in
      started (mkInstSub (if n =? 0 then [notFound instanceID now] else []) false false) 0
  | es =>
      let sub := mkInstSub (replayed cfg es) false false in
      if finished_phase (rp_phase (replay es)) then ret (mkInstSub (s_ch sub) false true, None)
      else started sub (match last es with Some e => e_id e | None => 0 end)
  end.

(** One message of [followInstance]: [fo_awaiting] is the kind of event after which
    the channel is closed. *)
Definition follow_message (cfg : Config) (now : Time) (f : Following) (m : Entry) : Following :=
  if s_closed (fo_sub f) then f
  else
    match decodeInstanceEventEntry cfg m with
    | None => mkFollowing (fo_sub f) (e_id m) (fo_awaiting f)
    | Some evt =>
        let sub := send now evt (fo_sub f) in
        let closed := mkFollowing (mkInstSub (s_ch sub) (s_dropped sub) true) (e_id m) (fo_awaiting f) in
        let awaits k := mkFollowing sub (e_id m) (Some k) in
        match ev_body evt with
        | InstanceEventLifecycle phase =>
            if Finished phase then
              match phase with
              | ProcessStatusCompleted => awaits "result"%string
              | ProcessStatusFailed => awaits "error"%string
              | _ => closed
              end
            else mkFollowing sub (e_id m) (fo_awaiting f)
        | body =>
            if bool_decide (fo_awaiting f = Some (eventKindName body)) then closed
            else mkFollowing sub (e_id m) (fo_awaiting f)
        end
    end.

(** A round of [followInstance]. *)
Definition followRound (ctx : option GoError) (instanceID : string) (f : Following) : P Following :=
  match ctx with
  | Some _ => Ret (mkFollowing (mkInstSub (s_ch (fo_sub f)) (s_dropped (fo_sub f)) true) (fo_last f) (fo_awaiting f))
  | None =>
      let~ cfg := reading b_cfg in
      let~ r := (let? x := call (XRead (instKey cfg instanceID) (fo_last f) eventBufferSize) in as_entries x) in
      match r with
      | Err _ => Ret f
      | Ok es => let~ now := Clock Ret in Ret (fold_left (follow_message cfg now) (map snd es) f)
      end
  end.

End Redis.
