(* ===== verification/RedisLaws.v ===== *)
(** * The Redis broker under interleaving

    Any number of processes run the broker's methods and goroutines on one
    server, interleaved request by request; requests fail, replies are lost, the
    client repeats requests, processes crash.  Whatever happens, the terminal
    lifecycle events of an instance are copies of one, and an accepted job stays queued or pending until its
    instance is reported on or cancelled.  Process keys survive their encoding.
    The last part shows what failures and races the broker does not survive. *)

From Stdlib Require Import Sorting.Sorted.
From S2P Require Import Prelude Decimal GoTime GoText StringLaws Values Schema Messages Wire KvStore KvIndex Sql SqlLaws Broker Programs RedisServer Redis.
#[global] Open Scope Z_scope.

(** ** Programs that keep an invariant *)

Section Keeps.
Context {L J : Type}.
Variable how : RState -> RState -> Prop.
Context {M : Type} `{!Permits M}.
Variable I : RState -> M -> Prop.
Variable LI : L -> Prop.

(** The program keeps the invariants without changing its permits, and returns
    something in [K]. *)
Definition keeps {A} (K : A -> Prop) (p : Prog Req Reply L J A) : Prop :=
  forall t (Q : A -> M -> Prop), (forall a, K a -> Q a t) -> wp (redis_rules how) I LI p t Q.

(** A request that keeps the invariant, with replies in [K]. *)
Definition quiet (q : Req) (K : Reply -> Prop) : Prop :=
  forall s s' r n, I s n -> redis_req q s s' r -> I s' n /\ K r.

(** The same, when the server's state changes as [how] says. *)
Definition calm (q : Req) (K : Reply -> Prop) : Prop :=
  forall s s' r n, I s n -> redis_req q s s' r -> how s s' -> I s' n /\ K r.

Lemma quiet_calm q K : quiet q K -> calm q K.
Proof. intros H s s' r n Hi Hr _. by eapply H. Qed.

Lemma keeps_ret {A} (K : A -> Prop) a : K a -> keeps K (Ret a).
Proof. intros H t Q HQ. cbn. auto. Qed.

Lemma keeps_weaken {A} (K K' : A -> Prop) p : keeps K p -> (forall a, K a -> K' a) -> keeps K' p.
Proof. intros H HK t Q HQ. apply H. auto. Qed.

Lemma keeps_bind {A B} (K : A -> Prop) (K' : B -> Prop) p f :
  keeps K p -> (forall a, K a -> keeps K' (f a)) -> keeps K' (bind p f).
Proof. intros Hp Hf t Q HQ. apply wp_bind, Hp. intros a Ha. by apply Hf. Qed.

Lemma keeps_server {A} (K : A -> Prop) q Kr k :
  calm q Kr -> (forall e, keeps K (k (Err e))) -> (forall r, Kr r -> keeps K (k (Ok r))) -> keeps K (Server q k).
Proof.
  intros Hq He Hk t Q HQ. apply wp_server; [intros e; by apply He|]. intros s s' r [n Hi] [Hr Hh].
  destruct (Hq s s' r _ Hi Hr Hh) as [_ HK]. assert (Hb : becomes I s t s' t) by (intros m Hm; by destruct (Hq s s' r _ Hm Hr Hh)).
  split; [done|]. exists t. split_and!; [done|by apply Hk|intros e; by apply He].
Qed.

Lemma keeps_local {A} (K : A -> Prop) f k :
  (forall l, LI l -> LI (f l) /\ keeps K (k l)) -> keeps K (Local f k).
Proof. intros H t Q HQ. cbn. intros l Hl. destruct (H l Hl) as [H1 H2]. split; [done|]. by apply H2. Qed.

Lemma keeps_clock {A} (K : A -> Prop) k : (forall x, keeps K (k x)) -> keeps K (Clock k).
Proof. intros H t Q HQ x _. by apply H. Qed.
Lemma keeps_random {A} (K : A -> Prop) k : (forall x, keeps K (k x)) -> keeps K (Random k).
Proof. intros H t Q HQ x. by apply H. Qed.
Lemma keeps_fresh {A} (K : A -> Prop) k : (forall x, keeps K (k x)) -> keeps K (Fresh k).
Proof. intros H t Q HQ x. by apply H. Qed.
Lemma keeps_order {A} (K : A -> Prop) n k : (forall l, keeps K (k l)) -> keeps K (Order n k).
Proof. intros H t Q HQ x _. by apply H. Qed.
Lemma keeps_hand {A} (K : A -> Prop) j k : (forall b, keeps K (k b)) -> keeps K (Hand j k).
Proof. intros H t Q HQ b. by apply H. Qed.

(** Scripts are quiet when their commands are. *)
Lemma quiet_return r (K : Reply -> Prop) : K r -> quiet (Eval (SReturn r)) K.
Proof. intros H s s' r' n Hi Hr. inversion Hr; subst. done. Qed.

Lemma quiet_call c k (K Kc : Reply -> Prop) :
  quiet (One c) Kc -> (forall r, Kc r -> quiet (Eval (k r)) K) -> quiet (Eval (SCall c k)) K.
Proof.
  intros Hc Hk s s' r n Hi Hr. inversion Hr as [|? ? ? s1 r1 ? ? H1 H2]; subst.
  destruct (Hc s s1 r1 n Hi H1) as [Hi1 HK]. by apply (Hk r1 HK s1 s' r n).
Qed.

Lemma quiet_weaken q (K K' : Reply -> Prop) : quiet q K -> (forall r, K r -> K' r) -> quiet q K'.
Proof. intros H HK s s' r n Hi Hr. destruct (H s s' r n Hi Hr). auto. Qed.

End Keeps.

Definition anything {A} (_ : A) : Prop := True.

Lemma anything_all {A} (K : A -> Prop) a : K a -> anything a.
Proof. done. Qed.

#[export] Hint Unfold anything : blkit.

(** ** The methods keep what their requests keep *)

Definition reads (c : Cmd) : Prop :=
  match c with
  | HGet _ _ | HGetAll _ | Exists _ | XRange _ | XRead _ _ _ | XPending _ _ _ | ZRangeByScore _ _ _ | Subscribe _ => True
  | _ => False
  end.

Definition terminal_body `{DecimalOps} (b : EventBody) : bool :=
  match b with InstanceEventLifecycle p => Finished p | _ => false end.

Definition on_ok {A} (K : A -> Prop) (r : result A) : Prop := match r with Ok a => K a | Err _ => True end.

Definition texts_in (K : string -> Prop) (r : Reply) : Prop := match r with RTexts vs => Forall K vs | _ => True end.
Definition entries_in (K : string -> Entry -> Prop) (r : Reply) : Prop :=
  match r with REntries es => Forall (fun p => K (fst p) (snd p)) es | _ => True end.

Definition reg_key (cfg : Config) (k : string) : Prop := exists w, k = regKey cfg w.

(** ** The calls of a process *)

Section Calls.
Context {DO : DecimalOps}.
Context `{!Cbor Envelope, !Cbor Job, !Cbor InstanceEvent, !Cbor ProcessRegistration, !Cbor RegUpdate}.
Variable loc : Location.
(** The instances on which reports that settle and cancellations are made. *)
Variable open_instance : string -> Prop.

Definition done {A} (p : Prog Req Reply Broker Job A) : Prog Req Reply Broker Job unit := bind p (fun _ => Ret tt).

(** Every method of the broker, and every round of its goroutines. *)
Inductive api : Prog Req Reply Broker Job unit -> Prop :=
| api_Submit ctx req : api (done (Submit loc ctx req))
| api_Cancel ctx req : open_instance (cr_InstanceID req) -> api (done (Cancel loc ctx req))
| api_Terminate ctx req : api (done (Terminate loc ctx req))
| api_RespondToInputRequest ctx i r p : api (done (RespondToInputRequest ctx i r p))
| api_SubscribeToInstance i : api (done (SubscribeToInstance i))
| api_followRound ctx i f : api (done (followRound ctx i f))
| api_SubscribeToProcessRegistry : api (done (SubscribeToProcessRegistry loc))
| api_RegisterProcesses ctx w regs : api (done (RegisterProcesses loc ctx w regs))
| api_Heartbeat ctx w : api (done (Heartbeat ctx w))
| api_Unregister ctx w : api (done (Unregister loc ctx w))
| api_sweepRound : api (done (sweepRound loc))
| api_FetchJobs keys : api (done (FetchJobs keys))
| api_fetchRound ctx cl ks c : api (done (fetchRound ctx cl ks c))
| api_moveTimersRound : api (done moveTimersRound)
| api_ReportRunning ctx i : api (done (ReportRunning ctx i))
| api_ReportSuspended ctx i t : open_instance i -> api (done (ReportSuspended ctx i t))
| api_ReportCompleted ctx i r : open_instance i -> api (done (ReportCompleted ctx i r))
| api_ReportFailed ctx i e : open_instance i -> api (done (ReportFailed ctx i e))
| api_ReportCancelled ctx i : open_instance i -> api (done (ReportCancelled ctx i))
| api_PostError ctx i e : api (done (PostError ctx i e))
| api_PostInputRequest ctx i n r p : api (done (PostInputRequest ctx i n r p))
| api_PostNodeCompleted ctx i n k o : api (done (PostNodeCompleted ctx i n k o))
| api_Close : api (done Close).

End Calls.

Section Methods.
Context {DO : DecimalOps}.
Context `{!Cbor Envelope, !Cbor Job, !Cbor InstanceEvent, !Cbor ProcessRegistration, !Cbor RegUpdate}.
Variable loc : Location.
Variable how : RState -> RState -> Prop.
Context {M : Type} `{!Permits M}.
Variable I : RState -> M -> Prop.
Variable LI : Broker -> Prop.
(** The configurations of the processes, the instances that may be settled and the
    entries that may be delivered. *)
Variable good : Config -> Prop.
Variable open_instance : string -> Prop.
Variable good_entry : string -> Entry -> Prop.

Local Abbreviation keep := (@keeps Broker Job how M _ I LI).

Hypothesis LI_cfg : forall l, LI l -> good (b_cfg l).
Hypothesis LI_closed : forall l, LI l -> LI (set_closed true l).
Hypothesis LI_groups : forall l v, LI l -> LI (set_groups v l).
Hypothesis q_reads : forall c, reads c -> quiet I (One c) anything.
Hypothesis q_scan : forall cfg, good cfg -> quiet I (One (Scan (k_ cfg ["reg"; ""]))) (texts_in (reg_key cfg)).
Hypothesis q_hset : forall k fs, quiet I (One (HSet k fs)) anything.
Hypothesis q_del : forall cfg w, good cfg -> quiet I (One (Del (regKey cfg w))) anything.
Hypothesis q_group : forall k g, quiet I (One (XGroupCreateMkStream k g)) anything.
Hypothesis q_zadd : forall k m x, quiet I (One (ZAdd k m x)) anything.
Hypothesis q_zrem : forall k ms, quiet I (One (ZRem k ms)) anything.
Hypothesis q_publish : forall ch p, quiet I (One (Publish ch p)) anything.
Hypothesis q_job : forall cfg key fs, good cfg -> calm how I (One (XAdd (jobsKey cfg key) None fs)) anything.
Hypothesis q_event : forall cfg i fs body, good cfg -> terminal_body body = false ->
  quiet I (One (XAdd (instKey cfg i) (Some instStreamMaxLen) (event_values fs body))) anything.
Hypothesis q_read_group : forall c ks n, quiet I (One (XReadGroup jobsGroup c ks n)) (entries_in good_entry).
Hypothesis q_claim : forall k c x n, quiet I (One (XAutoClaim k jobsGroup c x n)) (entries_in good_entry).
Hypothesis q_cancel : forall cfg key i, good cfg -> open_instance i ->
  quiet I (Eval (cancelQueuedScript (jobsKey cfg key) i KindJobStart jobsGroup)) anything.
Hypothesis settle_kept : forall i, open_instance i -> keep anything (settle i).
Hypothesis deliver_kept : forall k m, good_entry k m -> keep anything (deliverJob k m).
Hypothesis finish_kept : forall i phase extra, open_instance i -> Finished phase = true ->
  match extra with Some b => terminal_body b = false | None => True end ->
  wp (redis_rules how) I LI (finish i phase extra) none (fun _ _ => True).

Lemma keep_ret {A} (K : A -> Prop) a : K a -> keep K (Ret a).
Proof. apply keeps_ret. Qed.

Lemma keep_bind_ok {A B} (K : A -> Prop) (K' : result B -> Prop) (m : Prog Req Reply Broker Job (result A)) f :
  keep (on_ok K) m -> (forall e, K' (Err e)) -> (forall a, K a -> keep K' (f a)) -> keep K' (bind_ok m f).
Proof.
  intros Hm He Hf. apply (keeps_bind how I LI (on_ok K)); [done|]. intros [a|e] Ha; [by apply Hf|]. by apply keeps_ret.
Qed.

Lemma keep_send q Kr : calm how I q Kr -> keep (on_ok Kr) (send_req q).
Proof.
  intros Hq. apply (keeps_server how I LI _ q Kr); [done| |]; intros r; [|intros Hr]; apply keeps_ret; [done|].
  by destruct r.
Qed.

Lemma keep_reading_cfg : keep good (reading b_cfg).
Proof. apply keeps_local. intros l Hl. split; [done|]. apply keeps_ret. by apply LI_cfg. Qed.

Lemma keep_reading {A} (f : Broker -> A) : keep anything (reading f).
Proof. apply keeps_local. intros l Hl. split; [done|]. by apply keeps_ret. Qed.

Lemma keep_any {A} (K : A -> Prop) p : keep K p -> keep anything p.
Proof. intros H. by eapply keeps_weaken. Qed.

Lemma keep_ignore m : keep anything m -> keep anything (ignore m).
Proof. intros H. apply (keeps_bind how I LI anything); [done|]. intros. by apply keeps_ret. Qed.

(** Sequences whose results do not matter. *)
Lemma keep_seq {A B} (p : Prog Req Reply Broker Job A) (f : A -> Prog Req Reply Broker Job B) (K : B -> Prop) :
  keep anything p -> (forall a, keep K (f a)) -> keep K (bind p f).
Proof. intros Hp Hf. apply (keeps_bind how I LI anything); [done|]. intros a _. apply Hf. Qed.

Lemma keep_seq_ok {A B} (m : Prog Req Reply Broker Job (result A)) (f : A -> Prog Req Reply Broker Job (result B)) :
  keep anything m -> (forall a, keep anything (f a)) -> keep anything (bind_ok m f).
Proof. intros Hm Hf. apply (keep_bind_ok anything); [|done|auto]. eapply keeps_weaken; [exact Hm|]. by intros []. Qed.

Lemma keep_cfg {B} (f : Config -> Prog Req Reply Broker Job B) (K : B -> Prop) :
  (forall cfg, good cfg -> keep K (f cfg)) -> keep K (bind (reading b_cfg) f).
Proof. intros H. apply (keeps_bind how I LI good); [apply keep_reading_cfg|done]. Qed.

Lemma keep_calm c : calm how I (One c) anything -> keep anything (call c).
Proof. intros H. eapply keep_any, keep_send, H. Qed.

Lemma keep_call c : quiet I (One c) anything -> keep anything (call c).
Proof. intros H. by apply keep_calm, quiet_calm. Qed.

Lemma keep_as_int r : keep anything (as_int r).
Proof. destruct r; by apply keeps_ret. Qed.
Lemma keep_as_text r : keep anything (as_text r).
Proof. destruct r; by apply keeps_ret. Qed.
Lemma keep_as_fields r : keep anything (as_fields r).
Proof. destruct r; by apply keeps_ret. Qed.
Lemma keep_as_texts K r : texts_in K r -> keep (on_ok (Forall K)) (as_texts r).
Proof. intros H. destruct r; by apply keeps_ret. Qed.
Lemma keep_as_entries K r : entries_in K r -> keep (on_ok (Forall (fun p => K (fst p) (snd p)))) (as_entries r).
Proof. intros H. destruct r; by apply keeps_ret. Qed.

Lemma keep_fields c : quiet I (One c) anything -> keep anything (bind_ok (call c) as_fields).
Proof. intros H. apply keep_seq_ok; [by apply keep_call|apply keep_as_fields]. Qed.

Lemma keep_clock_ret : keep anything (Clock Ret).
Proof. apply keeps_clock. intros. by apply keeps_ret. Qed.
Lemma keep_random_ret : keep anything (Random Ret).
Proof. apply keeps_random. intros. by apply keeps_ret. Qed.
Lemma keep_fresh_ret : keep anything (Fresh Ret).
Proof. apply keeps_fresh. intros. by apply keeps_ret. Qed.
Lemma keep_some_order {A} (l : list A) : keep anything (in_some_order l).
Proof. apply keeps_order. intros. by apply keeps_ret. Qed.

Lemma keep_closed {A} (k : Broker -> Prog Req Reply Broker Job A) (K : A -> Prop) f :
  (forall l, LI l -> LI (f l)) -> (forall l, keep K (k l)) -> keep K (Local f k).
Proof. intros Hf Hk. apply keeps_local. auto. Qed.

Ltac keep_step :=
  match goal with
  | |- forall _, _ => intro
  | |- keeps _ _ _ _ (ret _) => by apply keep_ret
  | |- keeps _ _ _ _ (fail _) => by apply keep_ret
  | |- keeps _ _ _ _ (Ret _) => by apply keep_ret
  | |- keeps _ _ _ _ (bind (reading b_cfg) _) => apply keep_cfg
  | |- keeps _ _ _ _ (bind _ _) => apply keep_seq
  | |- keeps _ _ _ _ (bind_ok _ _) => apply keep_seq_ok
  | |- keeps _ _ _ _ (reading _) => apply keep_reading
  | |- keeps _ _ _ _ (ignore _) => apply keep_ignore
  | |- keeps _ _ _ _ (call (XAdd _ None _)) => apply keep_calm
  | |- keeps _ _ _ _ (call _) => apply keep_call
  | |- keeps _ _ _ _ (as_int _) => apply keep_as_int
  | |- keeps _ _ _ _ (as_text _) => apply keep_as_text
  | |- keeps _ _ _ _ (as_fields _) => apply keep_as_fields
  | |- keeps _ _ _ _ (Clock Ret) => apply keep_clock_ret
  | |- keeps _ _ _ _ (Random Ret) => apply keep_random_ret
  | |- keeps _ _ _ _ (Fresh Ret) => apply keep_fresh_ret
  | |- keeps _ _ _ _ (in_some_order _) => apply keep_some_order
  | |- quiet _ _ _ => eauto; by apply q_reads
  | |- keeps _ _ _ _ (match ?x with _ => _ end) => destruct x
  | |- keeps _ _ _ _ (if ?x then _ else _) => destruct x
  end.
Ltac keep_all := repeat first [progress keep_step | eassumption | solve [eauto]].

Lemma publish_kept i body : terminal_body body = false -> keep anything (publishInstanceEvent i body).
Proof. intros Hb. unfold publishInstanceEvent. keep_all. Qed.

Lemma ensureGroup_kept k : keep anything (ensureGroup k).
Proof.
  unfold ensureGroup. apply keep_seq; [apply keep_reading|]. intros [|]; [by apply keep_ret|]. apply keep_seq; [keep_all|].
  intros [r|e]; [|destruct (Contains _ _); [|by apply keep_ret]]; apply keep_closed; intros; [by apply LI_groups|by apply keep_ret..
    |by apply LI_groups|by apply keep_ret].
Qed.

Lemma addJob_kept cfg key job : good cfg -> keep anything (addJob (jobsKey cfg key) job).
Proof. intros Hc. unfold addJob. keep_all. Qed.

Lemma checkOpen_kept : keep anything checkOpen.
Proof. unfold checkOpen. keep_all. Qed.

Lemma check_ctx_kept ctx : keep anything (check_ctx ctx).
Proof. unfold check_ctx. keep_all. Qed.

Lemma report_kept ctx i : keep anything (report ctx i).
Proof. unfold report. apply keep_seq_ok; [apply check_ctx_kept|]. intros _. destruct (String.eqb i ""); [by apply keep_ret|apply checkOpen_kept]. Qed.

Lemma decodeRegFields_kept fs : keep anything (decodeRegFields loc fs).
Proof. unfold decodeRegFields. keep_all. Qed.

Lemma publishRegistryUpdate_kept kind reg : keep anything (publishRegistryUpdate kind reg).
Proof. unfold publishRegistryUpdate. keep_all. Qed.

Lemma publishAll_kept kind regs : keep anything (publishAll kind regs).
Proof.
  induction regs as [|r regs IH]; cbn [publishAll]; [by apply keep_ret|]. apply keep_seq; [apply publishRegistryUpdate_kept|done].
Qed.

Lemma stampAll_kept cfg w now ex regs fs : keep anything (stampAll loc cfg w now ex regs fs).
Proof.
  revert fs. induction regs as [|r regs IH]; intros fs; cbn [stampAll]; [by apply keep_ret|]. apply keep_seq; [apply keep_random_ret|].
  intros rand. destruct (EncodeEnvelope _ _ _ _ _ _); [|by apply keep_ret]. apply keep_seq_ok; [apply IH|]. intros. by apply keep_ret.
Qed.

Lemma q_replace cfg w fs : good cfg -> quiet I (Eval (replaceHash (regKey cfg w) fs)) anything.
Proof.
  intros Hc. unfold replaceHash. apply (quiet_call I _ _ anything anything); [by apply q_del|]. intros _ _.
  apply (quiet_call I _ _ anything anything); [apply q_hset|]. intros r _. by apply quiet_return.
Qed.

Lemma q_all_then_del cfg w : good cfg ->
  quiet I (Eval (SCall (HGetAll (regKey cfg w)) (fun all => SCall (Del (regKey cfg w)) (fun _ => SReturn all)))) anything.
Proof.
  intros Hc. apply (quiet_call I _ _ anything anything); [by apply q_reads|]. intros all _.
  apply (quiet_call I _ _ anything anything); [by apply q_del|]. intros r _. by apply quiet_return.
Qed.

Lemma q_sweep cfg w now : good cfg -> quiet I (Eval (sweepScript (regKey cfg w) now)) anything.
Proof.
  intros Hc. unfold sweepScript. apply (quiet_call I _ _ anything anything); [by apply q_reads|]. intros [] _; try (by apply quiet_return).
  destruct (ParseInt v); [|by apply quiet_return]. destruct (now <? z); [by apply quiet_return|by apply q_all_then_del].
Qed.

Lemma q_unregister cfg w : good cfg -> quiet I (Eval (unregisterScript (regKey cfg w))) anything.
Proof.
  intros Hc. unfold unregisterScript. apply (quiet_call I _ _ anything anything); [by apply q_reads|].
  intros [|[]| | | | |] _; try (by apply q_all_then_del). by apply quiet_return.
Qed.

Lemma q_heartbeat k a b : quiet I (Eval (heartbeatScript k a b)) anything.
Proof.
  unfold heartbeatScript. apply (quiet_call I _ _ anything anything); [by apply q_reads|].
  assert (Hset : quiet I (Eval (SCall (HSet k (<["deadline" := FormatInt a]> {["hb" := FormatInt b]})) (fun _ => SReturn (RInt 1)))) anything).
  { apply (quiet_call I _ _ anything anything); [apply q_hset|]. intros r _. by apply quiet_return. }
  intros [|[]| | | | |] _; try exact Hset. by apply quiet_return.
Qed.

Lemma q_timers k now : quiet I (Eval (dueTimersScript k now)) anything.
Proof.
  unfold dueTimersScript. apply (quiet_call I _ _ anything anything); [by apply q_reads|].
  intros [| | | |[|v vs]| |] _; try (by apply quiet_return).
  apply (quiet_call I _ _ anything anything); [apply q_zrem|]. intros r _. by apply quiet_return.
Qed.

Lemma keep_eval p : quiet I (Eval p) anything -> keep anything (send_req (Eval p)).
Proof. intros H. eapply keep_any, keep_send, quiet_calm, H. Qed.

Ltac guards := apply keep_seq_ok; [apply check_ctx_kept|intros _]; apply keep_seq_ok; [apply checkOpen_kept|intros _].

Lemma RegisterProcesses_kept ctx w regs : keep anything (RegisterProcesses loc ctx w regs).
Proof.
  unfold RegisterProcesses. guards. apply keep_cfg. intros cfg Hc. apply keep_seq_ok; [by apply keep_fields, q_reads|].
  intros existing. apply keep_seq; [apply keep_clock_ret|]. intros now. apply keep_seq; [apply decodeRegFields_kept|]. intros removed.
  apply keep_seq_ok; [apply stampAll_kept|]. intros p. apply keep_seq_ok; [by apply keep_eval, q_replace|]. intros _.
  apply keep_seq; [apply publishAll_kept|]. intros _. apply keep_seq; [apply publishAll_kept|]. intros _. by apply keep_ret.
Qed.

Lemma Heartbeat_kept ctx w : keep anything (Heartbeat ctx w).
Proof.
  unfold Heartbeat. guards. apply keep_cfg. intros cfg Hc. apply keep_seq; [apply keep_clock_ret|]. intros now.
  apply keep_seq_ok; [apply keep_seq_ok; [apply keep_eval, q_heartbeat|apply keep_as_int]|]. intros n. destruct (n =? 0); by apply keep_ret.
Qed.

Lemma Unregister_kept ctx w : keep anything (Unregister loc ctx w).
Proof.
  unfold Unregister. guards. apply keep_cfg. intros cfg Hc. apply keep_seq_ok; [by apply keep_eval, q_unregister|].
  intros res. destruct res; [by apply keep_ret|..];
    (apply keep_seq; [apply decodeRegFields_kept|intros regs; apply keep_seq; [apply publishAll_kept|intros; by apply keep_ret]]).
Qed.

Lemma scanWorkers_kept cfg : good cfg -> keep (on_ok (Forall (reg_key cfg))) (scanWorkers cfg).
Proof.
  intros Hc. unfold scanWorkers. apply (keep_bind_ok (texts_in (reg_key cfg))); [by apply keep_send, quiet_calm, q_scan|done|].
  intros r. apply keep_as_texts.
Qed.

Lemma sweepAll_kept cfg ks : good cfg -> Forall (reg_key cfg) ks -> keep anything (sweepAll loc ks).
Proof.
  intros Hc. induction 1 as [|k ks [w ->] _ IH]; cbn [sweepAll]; [by apply keep_ret|].
  apply keep_seq; [apply keep_clock_ret|]. intros now. apply keep_seq; [by apply keep_eval, q_sweep|]. intros res.
  apply keep_seq; [|done]. destruct res; [|by apply keep_ret]. apply keep_seq; [apply decodeRegFields_kept|intros; apply publishAll_kept].
Qed.

Lemma sweepRound_kept : keep anything (sweepRound loc).
Proof.
  unfold sweepRound. apply keep_cfg. intros cfg Hc. eapply (keeps_bind how I LI); [by apply scanWorkers_kept|].
  intros [ks|e] Hk; [by eapply sweepAll_kept|by apply keep_ret].
Qed.

Lemma snapshotAll_kept now ks : keep anything (snapshotAll loc now ks).
Proof.
  induction ks as [|k ks IH]; cbn [snapshotAll]; [by apply keep_ret|]. apply keep_seq_ok; [by apply keep_fields, q_reads|].
  intros fs. destruct (ParseInt _); [|done]. destruct (z <? now); [done|]. apply keep_seq; [apply decodeRegFields_kept|].
  intros regs. apply keep_seq_ok; [done|]. intros. by apply keep_ret.
Qed.

Lemma snapshot_kept : keep anything (snapshotRegistrations loc).
Proof.
  unfold snapshotRegistrations. apply keep_cfg. intros cfg Hc. apply keep_seq; [apply keep_clock_ret|]. intros now.
  apply keep_seq_ok; [by eapply keep_any, scanWorkers_kept|]. intros. apply snapshotAll_kept.
Qed.

Lemma liveRegistration_kept key : keep anything (liveRegistration loc key).
Proof. unfold liveRegistration. apply keep_seq_ok; [apply snapshot_kept|]. intros. by apply keep_ret. Qed.

Lemma registry_subscription_kept : keep anything (SubscribeToProcessRegistry loc).
Proof.
  unfold SubscribeToProcessRegistry. apply keep_seq_ok; [apply checkOpen_kept|]. intros _. apply keep_cfg. intros cfg Hc.
  apply keep_seq_ok; [keep_all|]. intros n. apply keep_seq_ok; [apply snapshot_kept|]. intros regs. cbv zeta.
  apply keep_seq; [apply keep_reading|]. intros p. apply keep_seq; [destruct p; [apply keep_reading|by apply keep_ret]|]. intros r.
  apply keep_seq; [destruct r; [apply keep_reading|by apply keep_ret]|]. intros. by apply keep_ret.
Qed.

Lemma Submit_kept ctx req : keep anything (Submit loc ctx req).
Proof.
  unfold Submit. guards. cbv zeta. apply keep_seq_ok; [apply liveRegistration_kept|]. intros [reg|]; [|by apply keep_ret].
  destruct (List.find _ _) as [st|]; [|by apply keep_ret]. destruct (match se_InputContract st with Some c => _ | None => _ end); [by apply keep_ret|].
  apply keep_cfg. intros cfg Hc. apply keep_seq; [apply keep_fresh_ret|]. intros id. apply keep_seq_ok; [keep_all|]. intros _.
  apply keep_seq_ok; [apply ensureGroup_kept|]. intros _. apply keep_seq_ok; [by apply addJob_kept|]. intros _.
  apply keep_seq_ok; [by apply publish_kept|]. intros. by apply keep_ret.
Qed.

Lemma Terminate_kept ctx req : keep anything (Terminate loc ctx req).
Proof.
  unfold Terminate. guards. cbv zeta. apply keep_seq_ok; [apply liveRegistration_kept|]. intros [reg|]; [|by apply keep_ret].
  destruct (negb _); [by apply keep_ret|]. apply keep_cfg. intros cfg Hc. apply keep_seq_ok; [apply ensureGroup_kept|].
  intros _. by apply addJob_kept.
Qed.

Lemma Respond_kept ctx i r p : keep anything (RespondToInputRequest ctx i r p).
Proof.
  unfold RespondToInputRequest. guards. apply keep_cfg. intros cfg Hc. apply keep_seq_ok; [by apply keep_fields, q_reads|].
  intros meta. destruct (_ || _); [by apply publish_kept|]. destruct (decodeKey _); [|by apply keep_ret].
  apply keep_seq_ok; [apply ensureGroup_kept|]. intros _. by apply addJob_kept.
Qed.

Lemma deliverAll_kept ms : Forall (fun p => good_entry (fst p) (snd p)) ms -> keep anything (deliverAll ms).
Proof.
  induction 1 as [|[k m] ms Hm _ IH]; cbn [deliverAll]; [by apply keep_ret|]. apply keep_seq; [by apply deliver_kept|].
  intros [|]; [done|by apply keep_ret].
Qed.

Lemma claimAll_kept x c ks : keep anything (claimAll x c ks).
Proof.
  induction ks as [|k ks IH]; cbn [claimAll]; [by apply keep_ret|].
  apply (keeps_bind how I LI (on_ok (Forall (fun p => good_entry (fst p) (snd p))))).
  { apply (keep_bind_ok (entries_in good_entry)); [by apply keep_send, quiet_calm, q_claim|done|]. intros r. apply keep_as_entries. }
  intros [ms|e] Hm; [|done]. apply keep_seq; [by apply deliverAll_kept|]. intros [|]; [done|by apply keep_ret].
Qed.

Lemma fetchRound_kept ctx cl ks c : keep anything (fetchRound ctx cl ks c).
Proof.
  unfold fetchRound. destruct ctx; [by apply keep_ret|]. apply keep_cfg. intros cfg Hc.
  apply keep_seq; [destruct cl; [apply claimAll_kept|by apply keep_ret]|]. intros [|]; [|by apply keep_ret].
  apply (keeps_bind how I LI (on_ok (Forall (fun p => good_entry (fst p) (snd p))))).
  { apply (keep_bind_ok (entries_in good_entry)); [by apply keep_send, quiet_calm, q_read_group|done|]. intros r. apply keep_as_entries. }
  intros [ms|e] Hm; [by apply deliverAll_kept|by apply keep_ret].
Qed.

Lemma ensureGroups_kept ks : keep anything (ensureGroups ks).
Proof. induction ks as [|k ks IH]; cbn [ensureGroups]; [by apply keep_ret|]. apply keep_seq_ok; [apply ensureGroup_kept|done]. Qed.

Lemma FetchJobs_kept keys : keep anything (FetchJobs keys).
Proof.
  unfold FetchJobs. apply keep_seq_ok; [apply checkOpen_kept|]. intros _.
  destruct keys; [apply keep_seq; [apply keep_reading|intros; by apply keep_ret]|]. apply keep_cfg. intros cfg Hc. apply keep_seq_ok; [apply ensureGroups_kept|]. intros _.
  apply keep_seq; [apply keep_fresh_ret|]. intros id. apply keep_seq; [apply keep_reading|]. intros. by apply keep_ret.
Qed.

Lemma fireTimer_kept i : keep anything (fireTimer i).
Proof.
  unfold fireTimer. apply keep_cfg. intros cfg Hc. apply keep_seq; [by apply keep_fields, q_reads|]. intros [meta|e]; [|by apply keep_ret].
  destruct (_ || _); [by apply keep_ret|]. destruct (decodeKey _); [|by apply keep_ret]. apply keep_seq; [apply ensureGroup_kept|].
  intros [u|e]; [|by apply keep_ret]. apply keep_seq; [by apply addJob_kept|]. intros. by apply keep_ret.
Qed.

Lemma fireAll_kept ids : keep anything (fireAll ids).
Proof.
  induction ids as [|i ids IH]; cbn [fireAll]; [by apply keep_ret|]. apply keep_seq; [|done].
  destruct (String.eqb i ""); [by apply keep_ret|apply fireTimer_kept].
Qed.

Lemma moveTimers_kept : keep anything moveTimersRound.
Proof.
  unfold moveTimersRound. apply keep_cfg. intros cfg Hc. apply keep_seq; [apply keep_clock_ret|]. intros now.
  apply keep_seq; [apply keep_seq_ok; [apply keep_eval, q_timers|]|].
  - intros r. eapply keep_any, (keep_as_texts anything). destruct r; try done. apply Forall_forall. done.
  - intros [due|e]; [apply fireAll_kept|by apply keep_ret].
Qed.

Lemma started_kept sub n : keep anything (started sub n).
Proof. apply keep_seq; [apply keep_reading|]. intros. by apply keep_ret. Qed.

Lemma subscription_kept i : keep anything (SubscribeToInstance i).
Proof.
  unfold SubscribeToInstance. apply keep_seq_ok; [apply checkOpen_kept|]. intros _. apply keep_cfg. intros cfg Hc.
  assert (He : forall r, keep anything (as_entries r)) by (intros []; by apply keep_ret).
  apply keep_seq_ok; [apply keep_seq_ok; [by apply keep_call, q_reads|done]|]. intros es. destruct (map snd es).
  - apply keep_seq_ok; [keep_all|]. intros n. apply keep_seq; [apply keep_clock_ret|]. intros. apply started_kept.
  - cbv zeta. destruct (finished_phase _); [by apply keep_ret|apply started_kept].
Qed.

Lemma followRound_kept ctx i f : keep anything (followRound ctx i f).
Proof.
  unfold followRound. destruct ctx; [by apply keep_ret|]. apply keep_cfg. intros cfg Hc.
  assert (He : forall r, keep anything (as_entries r)) by (intros []; by apply keep_ret).
  apply keep_seq; [apply keep_seq_ok; [by apply keep_call, q_reads|done]|]. intros [es|e]; [|by apply keep_ret].
  apply keep_seq; [apply keep_clock_ret|]. intros. by apply keep_ret.
Qed.

Lemma Close_kept : keep anything Close.
Proof. unfold Close. apply keep_closed; [done|]. intros. by apply keep_ret. Qed.

Lemma ReportSuspended_kept ctx i t : open_instance i -> keep anything (ReportSuspended ctx i t).
Proof.
  intros Hi. unfold ReportSuspended. apply keep_seq_ok; [apply report_kept|]. intros _. apply keep_seq_ok; [by apply publish_kept|].
  intros _. apply keep_seq; [by apply settle_kept|]. intros _. destruct t; [|by apply keep_ret]. keep_all.
Qed.

Lemma posted_kept ctx i body : terminal_body body = false -> keep anything (bind_ok (report ctx i) (fun _ => publishInstanceEvent i body)).
Proof. intros Hb. apply keep_seq_ok; [apply report_kept|]. intros _. by apply publish_kept. Qed.

(** Programs that end in [finish]. *)
Lemma reported_kept ctx i phase extra : open_instance i -> Finished phase = true ->
  match extra with Some b => terminal_body b = false | None => True end ->
  wp (redis_rules how) I LI (bind_ok (report ctx i) (fun _ => finish i phase extra)) none (fun _ _ => True).
Proof.
  intros Hi Hp He. apply wp_bind. apply (report_kept ctx i). intros [u|e] _; [|done]. by apply finish_kept.
Qed.

Lemma Cancel_kept ctx req : open_instance (cr_InstanceID req) -> wp (redis_rules how) I LI (Cancel loc ctx req) none (fun _ _ => True).
Proof.
  intros Hi. unfold Cancel. apply wp_bind. apply (check_ctx_kept ctx). intros [u|e] _; [|done].
  apply wp_bind. apply checkOpen_kept. intros [u2|e] _; [|done]. cbv zeta.
  apply wp_bind. apply liveRegistration_kept. intros [[reg|]|e] _; [|done..].
  apply wp_bind. apply keep_reading_cfg. intros cfg Hc. apply wp_bind. apply ensureGroup_kept. intros [u3|e] _; [|done].
  apply wp_bind. apply (keep_eval _ (q_cancel cfg _ _ Hc Hi)). intros [res|e] _; [|done].
  destruct (match res with RInt 1 => true | _ => false end); [by apply finish_kept|]. destruct (negb _); [done|].
  by apply (addJob_kept cfg).
Qed.

Lemma done_kept {A} (p : Prog Req Reply Broker Job A) : keep anything p -> wp (redis_rules how) I LI (done p) none (fun _ _ => True).
Proof. intros H. apply wp_bind. by apply H. Qed.

Lemma done_wp {A} (p : Prog Req Reply Broker Job A) : wp (redis_rules how) I LI p none (fun _ _ => True) -> wp (redis_rules how) I LI (done p) none (fun _ _ => True).
Proof. intros H. apply wp_bind. by eapply wp_mono. Qed.

(** Every call keeps the invariant. *)
Lemma api_kept p : api loc open_instance p -> wp (redis_rules how) I LI p none (fun _ _ => True).
Proof.
  intros [].
  - apply done_kept, Submit_kept.
  - by apply done_wp, Cancel_kept.
  - apply done_kept, Terminate_kept.
  - apply done_kept, Respond_kept.
  - apply done_kept, subscription_kept.
  - apply done_kept, followRound_kept.
  - apply done_kept, registry_subscription_kept.
  - apply done_kept, RegisterProcesses_kept.
  - apply done_kept, Heartbeat_kept.
  - apply done_kept, Unregister_kept.
  - apply done_kept, sweepRound_kept.
  - apply done_kept, FetchJobs_kept.
  - apply done_kept, fetchRound_kept.
  - apply done_kept, moveTimers_kept.
  - by apply done_kept, posted_kept.
  - by apply done_kept, ReportSuspended_kept.
  - by apply done_wp, reported_kept.
  - by apply done_wp, reported_kept.
  - by apply done_wp, reported_kept.
  - by apply done_kept, posted_kept.
  - by apply done_kept, posted_kept.
  - by apply done_kept, posted_kept.
  - apply done_kept, Close_kept.
Qed.

End Methods.

(** ** One outcome *)

Definition always (_ _ : RState) : Prop := True.

Section Outcome.
Context {DO : DecimalOps}.
Context `{!Cbor Envelope, !Cbor Job, !Cbor InstanceEvent, !Cbor ProcessRegistration, !Cbor RegUpdate}.
Variable loc : Location.
(** The key prefix of the deployment, and an instance. *)
Variable pre : string.
Variable id : string.

Definition pre_key (parts : list string) : string := pre +:+ ":" +:+ String.concat ":" parts.
Definition events_key : string := pre_key ["inst"; id].
Definition flag_key : string := pre_key ["instmeta"; id].

(** A terminal lifecycle event, by its routing fields. *)
Definition terminal_entry (e : Entry) : bool :=
  match e_fields e !! "phase" with
  | Some p => match ParseInt p with Some n => finished_phase (status_of n) | None => false end
  | None => false
  end.
Definition terminals (s : RState) : list Entry := List.filter terminal_entry (x_entries (stream_of s events_key)).
Definition flagged (s : RState) : Prop := is_Some (hash_of s flag_key !! "finished").

(** The permit to publish an outcome, which says what is published once that is
    decided: nobody holds it, one does, or (which never happens) several do. *)
Inductive Permit : Type :=
| Nobody
| Holder (published : option (gmap string string))
| Several.

Definition join_permits (m m' : Permit) : Permit := match m, m' with Nobody, x | x, Nobody => x | _, _ => Several end.

#[global] Instance outcome_permits : Permits Permit.
Proof. refine {| none := Nobody; join := join_permits |}; by repeat intros []. Defined.

(** The terminal events are copies of one, which is that of the permit's holder;
    without the flag there are none, and there is no holder. *)
Record one_outcome (s : RState) (m : Permit) : Prop := mkOneOutcome {
  oo_copies : forall e e', e ∈ terminals s -> e' ∈ terminals s -> e_fields e = e_fields e';
  oo_holder : forall o e, m = Holder o -> e ∈ terminals s -> o = Some (e_fields e);
  oo_single : m <> Several;
  oo_flag : flagged s \/ m = Nobody /\ terminals s = []
}.

Definition same_prefix (b : Broker) : Prop := cfg_KeyPrefix (b_cfg b) = pre.

(** Requests that add no terminal event and keep the flag. *)
Definition harmless (s s' : RState) : Prop := terminals s' ⊆ terminals s /\ (flagged s -> flagged s').

Lemma harmless_refl s : harmless s s.
Proof. done. Qed.

Lemma harmless_kept s s' m : harmless s s' -> one_outcome s m -> one_outcome s' m.
Proof.
  intros [Ht Hf] [H1 H2 H3 H4]. constructor; [by auto|eauto|done|].
  destruct H4 as [H4|[-> H4]]; [by auto|right]. split; [done|]. rewrite H4 in Ht. by apply list_nil_subseteq in Ht.
Qed.

Lemma quiet_harmless c K :
  (forall s s' r, redis_step c s s' r -> harmless s s' /\ K r) -> quiet one_outcome (One c) K.
Proof. intros H s s' r n Hi Hr. destruct (H s s' r Hr) as [Hh HK]. split; [|done]. by eapply harmless_kept. Qed.

Lemma harmless_streams s s' :
  r_hashes s' = r_hashes s -> x_entries (stream_of s' events_key) = x_entries (stream_of s events_key) -> harmless s s'.
Proof. unfold harmless, terminals, flagged, hash_of. by intros -> ->. Qed.

Lemma stream_of_put s k x k' : stream_of (put_stream k x s) k' = if String.eqb k' k then x else stream_of s k'.
Proof.
  unfold stream_of, put_stream. cbn. destruct (String.eqb_spec k' k) as [->|Hne]; [by rewrite lookup_insert_eq|by rewrite lookup_insert_ne].
Qed.

Lemma hash_of_put s k h k' : hash_of (put_hash k h s) k' = if String.eqb k' k then h else hash_of s k'.
Proof.
  unfold hash_of, put_hash. cbn. destruct (String.eqb_spec k' k) as [->|Hne]; [by rewrite lookup_insert_eq|by rewrite lookup_insert_ne].
Qed.

Lemma harmless_group s k g gr : harmless s (put_stream k (set_group g gr (stream_of s k)) s).
Proof.
  apply harmless_streams; [done|]. rewrite stream_of_put. by destruct (String.eqb_spec events_key k) as [<-|].
Qed.

Lemma harmless_trans s1 s2 s3 : harmless s1 s2 -> harmless s2 s3 -> harmless s1 s3.
Proof. intros [H1 H2] [H3 H4]. split; [by etransitivity|auto]. Qed.

Lemma harmless_read_group g c n ks s es s' : read_group g c n ks s = Some (es, s') -> harmless s s'.
Proof.
  revert s es. induction ks as [|k ks IH]; intros s es H; cbn [read_group] in H; [injection H as _ ->; apply harmless_refl|].
  destruct (x_groups _ !! g) as [gr|]; [|done]. destruct (read_group g c n ks _) as [[rest s2]|] eqn:E; [|done].
  injection H as _ <-. eapply harmless_trans; [apply harmless_group|by eapply IH].
Qed.

Lemma harmless_hash s k h : (hash_of s k !! "finished" = None \/ is_Some (h !! "finished")) ->
  harmless s (put_hash k h s).
Proof.
  intros H. split; [done|]. unfold flagged. rewrite hash_of_put. destruct (String.eqb_spec flag_key k) as [<-|]; [|done].
  destruct H as [->|H]; [by intros []|done].
Qed.

(** Requests other than these are harmless. *)
Definition harmful (c : Cmd) : Prop :=
  match c with
  | Del k => k = flag_key
  | XAdd k _ fs => k = events_key /\ terminal_entry (mkEntry 0 fs) = true
  | _ => False
  end.

Lemma filter_subset {A} (P : A -> bool) (l l' : list A) : l ⊆ l' -> List.filter P l ⊆ List.filter P l'.
Proof. intros H x. rewrite !list_elem_of_In, !filter_In, <- !list_elem_of_In. intros [Hx Hp]. auto. Qed.

Lemma filter_part {A} (P : A -> bool) (l : list A) : List.filter P l ⊆ l.
Proof. intros x. rewrite !list_elem_of_In, filter_In. by intros [Hx _]. Qed.

Lemma drop_part {A} n (l : list A) : drop n l ⊆ l.
Proof. intros x Hx. rewrite <- (take_drop n l). apply elem_of_app. by right. Qed.

(** What is added to a stream and survives its trimming. *)
Lemma added_terminals n eid fs x :
  List.filter terminal_entry (x_entries (trim n (add_entry eid fs x))) ⊆
  List.filter terminal_entry (x_entries x) ++ List.filter terminal_entry [mkEntry eid fs].
Proof. rewrite <- List.filter_app. apply filter_subset, drop_part. Qed.

Lemma step_harmless c s s' r : redis_step c s s' r -> ~ harmful c -> harmless s s'.
Proof.
  intros H Hc. destruct H; try apply harmless_refl; try apply harmless_group; try (split; done).
  - apply harmless_hash. destruct (hash_of s k !! "finished") as [v|] eqn:E; [right|by left].
    rewrite lookup_union. rewrite E. destruct (fs !! "finished"); eauto.
  - apply harmless_hash. destruct (hash_of s k !! "finished") as [v'|] eqn:E; [right|by left].
    destruct (decide (f = "finished"%string)) as [->|]; [rewrite lookup_insert_eq; eauto|rewrite lookup_insert_ne by done; eauto].
  - cbn [harmful] in Hc. unfold harmless, terminals, flagged, stream_of, hash_of, remove_key. cbn.
    rewrite (lookup_delete_ne (r_hashes s)) by congruence. split; [|done].
    destruct (decide (events_key = k)) as [<-|]; [rewrite lookup_delete_eq; apply list_subseteq_nil|by rewrite lookup_delete_ne].
  - cbn [harmful] in Hc. split; [|done]. unfold terminals. rewrite stream_of_put.
    destruct (String.eqb_spec events_key k) as [<-|]; [|done].
    etransitivity; [apply added_terminals|]. cbn [List.filter].
    replace (terminal_entry _) with (terminal_entry (mkEntry 0 fs)) by done.
    destruct (terminal_entry (mkEntry 0 fs)); [exfalso; by apply Hc|by rewrite app_nil_r].
  - by eapply harmless_read_group.
  - destruct (decide _); [|apply harmless_refl]. split; [|done]. unfold terminals. rewrite stream_of_put.
    destruct (String.eqb_spec events_key k) as [<-|]; [|done]. apply filter_subset, filter_part.
  - destruct (exists_key s k); [split; done|apply harmless_refl].
Qed.

Lemma q_harmless c : ~ harmful c -> quiet one_outcome (One c) anything.
Proof. intros Hc. apply quiet_harmless. intros s s' r H. split; [by eapply step_harmless|done]. Qed.


(** ** Keys *)

Lemma k_pre cfg parts : cfg_KeyPrefix cfg = pre -> k_ cfg parts = pre_key parts.
Proof. unfold k_, pre_key. by intros ->. Qed.

Lemma pre_key_inj parts parts' : pre_key parts = pre_key parts' -> String.concat ":" parts = String.concat ":" parts'.
Proof. unfold pre_key. intros E. apply (inj (String.append pre)) in E. by injection E. Qed.

Lemma jobs_not_events cfg key : cfg_KeyPrefix cfg = pre -> jobsKey cfg key <> events_key.
Proof. intros Hc E. unfold jobsKey in E. rewrite (k_pre cfg _ Hc) in E. by apply pre_key_inj in E. Qed.

Lemma reg_not_flag cfg w : cfg_KeyPrefix cfg = pre -> regKey cfg w <> flag_key.
Proof. intros Hc E. unfold regKey in E. rewrite (k_pre cfg _ Hc) in E. by apply pre_key_inj in E. Qed.

Lemma inst_key_inj cfg i : cfg_KeyPrefix cfg = pre -> instKey cfg i = events_key -> i = id.
Proof. intros Hc E. unfold instKey in E. rewrite (k_pre cfg _ Hc) in E. apply pre_key_inj in E. by injection E. Qed.

Lemma meta_key_inj cfg i : cfg_KeyPrefix cfg = pre -> metaKey cfg i = flag_key -> i = id.
Proof. intros Hc E. unfold metaKey in E. rewrite (k_pre cfg _ Hc) in E. apply pre_key_inj in E. by injection E. Qed.

Lemma reg_prefix cfg k t : k = k_ cfg ["reg"; ""] +:+ t -> reg_key cfg k.
Proof. intros ->. exists t. unfold regKey, k_. by rewrite !string_app_assoc. Qed.

(** ** The calls keep one outcome *)

Local Abbreviation keep1 := (@keeps Broker Job always Permit _ one_outcome same_prefix).

Lemma event_values_terminal data body : terminal_entry (mkEntry 0 (event_values data body)) = terminal_body body.
Proof.
  unfold terminal_entry, event_values. cbn [e_fields]. destruct body as [p| | | |]; cbn [terminal_body].
  - rewrite lookup_insert_eq. by destruct p.
  - rewrite lookup_insert_ne, lookup_singleton_ne by done. done.
  - rewrite lookup_insert_ne, lookup_singleton_ne by done. done.
  - rewrite lookup_insert_ne, lookup_singleton_ne by done. done.
  - rewrite lookup_insert_ne, lookup_singleton_ne by done. done.
Qed.

Lemma prefix_scan cfg : quiet one_outcome (One (Scan (k_ cfg ["reg"; ""]))) (texts_in (reg_key cfg)).
Proof.
  apply quiet_harmless. intros s s' r H. apply redis_scan_inv in H as (-> & ks & -> & Hks).
  split; [apply harmless_refl|]. cbn. apply Forall_forall. intros k Hk. apply Hks in Hk as [t E]. by eapply reg_prefix.
Qed.

Lemma cancel_harmless cfg key i :
  quiet one_outcome (Eval (cancelQueuedScript (jobsKey cfg key) i KindJobStart jobsGroup)) anything.
Proof.
  unfold cancelQueuedScript. apply (quiet_call _ _ _ anything anything); [by apply q_harmless; intros []|].
  intros r _. destruct r; try (by apply quiet_return). destruct (List.find _ es) as [[k e]|]; [|by apply quiet_return].
  apply (quiet_call _ _ _ anything anything); [by apply q_harmless; intros []|]. intros pend _. destruct pend; try (by apply quiet_return).
  destruct vs; [|by apply quiet_return]. apply (quiet_call _ _ _ anything anything); [by apply q_harmless; intros []|].
  intros r _. by apply quiet_return.
Qed.

Lemma harmless_call c : ~ harmful c -> keep1 anything (call c).
Proof. intros H. eapply keep_any, keep_send, quiet_calm, q_harmless, H. Qed.

Lemma settle_one i : keep1 anything (settle i).
Proof.
  unfold settle. apply keeps_local. intros l Hl. split; [done|]. generalize (deliveries_of l i). intros ds.
  induction ds as [|d ds IH]; cbn [settle_all]; [by apply keep_ret|].
  apply keep_seq; [apply keep_ignore, harmless_call; by intros []|]. intros _. apply keep_seq; [apply keep_ignore, harmless_call; by intros []|done].
Qed.

Lemma deliver_one k m : keep1 anything (deliverJob k m).
Proof.
  unfold deliverJob. apply keep_seq; [apply keep_reading|]. intros cfg. destruct (decodeJob cfg m) as [job|e].
  - cbv zeta. apply keeps_local. intros l Hl. split; [done|]. apply keeps_hand. intros b. by apply keeps_ret.
  - apply keep_seq; [apply keep_ignore, harmless_call; by intros []|]. intros _. apply keep_seq; [apply keep_ignore, harmless_call; by intros []|].
    intros _. by apply keep_ret.
Qed.

Lemma same_prefix_cfg : keep1 (fun cfg => cfg_KeyPrefix cfg = pre) (reading b_cfg).
Proof. apply keeps_local. intros l Hl. split; [done|]. by apply keeps_ret. Qed.

(** The flag is set once: who sets it may publish. *)
Lemma set_flag_permit cfg i : cfg_KeyPrefix cfg = pre ->
  wp (redis_rules always) one_outcome same_prefix (bind_ok (call (HSetNX (metaKey cfg i) "finished" "1")) as_int) Nobody
    (fun r t => r = Ok 1 -> i = id -> t = Holder None).
Proof.
  intros Hc. apply wp_server; [done|]. intros s s' r [n Hi] [Hr _].
  assert (Hq : becomes one_outcome s Nobody s' Nobody).
  { intros m Hm. eapply (q_harmless (HSetNX (metaKey cfg i) "finished" "1")); [by intros []|exact Hm|exact Hr]. }
  split; [exact Hq|]. apply hsetnx_inv in Hr as [(Hnew & -> & ->)|[-> ->]]; [|by exists Nobody].
  destruct (decide (i = id)) as [->|Hne]; [|exists Nobody; by split_and!; [|intros _ ?|]]. exists (Holder None). split_and!; [|done|done].
  assert (E : metaKey cfg id = flag_key) by (unfold metaKey; by apply k_pre). rewrite E in *.
  intros m Hm. change (join Nobody m) with m in Hm. destruct Hm as [H1 _ _ [[v Hv]|[-> Hn]]]; [congruence|]. unfold terminals in *. change (stream_of (put_hash _ _ s)) with (stream_of s) in *.
  constructor; cbn; [done| |done|].
  - intros o e _ He. unfold terminals in He. change (stream_of (put_hash _ _ s)) with (stream_of s) in He. rewrite Hn in He. by apply elem_of_nil in He.
  - left. unfold flagged. rewrite hash_of_put, String.eqb_refl, lookup_insert_eq. by eexists.
Qed.

(** The holder's event may be published any number of times. *)
Lemma publish_again s fs eid k :
  becomes one_outcome s (Holder (Some fs)) (put_stream events_key (trim k (add_entry eid fs (stream_of s events_key))) s) (Holder (Some fs)).
Proof.
  intros m [H1 H2 H3 H4]. assert (E : m = Nobody) by (destruct m; [done|by destruct H3..]). subst m. cbn in *.
  set (s' := put_stream _ _ _).
  assert (Ht : forall e, e ∈ terminals s' -> e_fields e = fs).
  { unfold terminals, s'. rewrite stream_of_put, String.eqb_refl. intros e He. apply added_terminals, elem_of_app in He as [He|He].
    - specialize (H2 _ e eq_refl He). congruence.
    - apply filter_part in He. by apply list_elem_of_singleton in He as ->. }
  constructor; [|intros o e [= <-] He; by rewrite (Ht e He)|done|].
  - intros e e' He He'. by rewrite (Ht e He), (Ht e' He').
  - left. by destruct H4 as [|[]].
Qed.

Lemma publish_permitted i phase t :
  (i = id -> t = Holder None) ->
  wp (redis_rules always) one_outcome same_prefix (publishInstanceEvent i (InstanceEventLifecycle phase)) t (fun _ _ => True).
Proof.
  intros Ht. unfold publishInstanceEvent. apply wp_bind. apply same_prefix_cfg. intros cfg Hc.
  apply wp_bind. eapply (keep_seq_ok always one_outcome same_prefix); [apply harmless_call; by intros []|intros; apply keep_as_text|]. intros v _.
  cbv zeta. cbn [bind wp]. intros now _ rand. destruct (EncodeEnvelope _ _ _ _ _ _) as [data|e]; [|done].
  destruct (decide (i = id)) as [->|Hne].
  - rewrite (Ht eq_refl). exists (Holder (Some (event_values data (InstanceEventLifecycle phase)))). split_and!; [|done|].
    { intros s m [H1 H2 H3 H4]. constructor; [done| |by destruct m|].
      - intros o e Ho He. destruct m; try done. cbn in *. by specialize (H2 None e eq_refl He).
      - destruct H4 as [|[E _]]; [by left|by destruct m]. }
    intros s s' r _ [Hr _]. apply xadd_inv in Hr as (eid & k & _ & _ & -> & _).
    assert (E : instKey cfg id = events_key) by (unfold instKey; by apply k_pre). rewrite E.
    split; [apply publish_again|]. eexists. split_and!; [apply publish_again|by destruct r|done].
  - apply wp_server; [done|]. intros s s' r _ [Hr _]. assert (Hb : becomes one_outcome s t s' t).
    { intros m Hm. eapply (q_harmless (XAdd (instKey cfg i) (Some instStreamMaxLen) (event_values data (InstanceEventLifecycle phase)))); [|done|done].
      intros [E _]. by apply (inst_key_inj cfg i Hc) in E. }
    split; [done|]. exists t. split_and!; [done|by destruct r|done].
Qed.

Lemma publish_one i body : terminal_body body = false -> keep1 anything (publishInstanceEvent i body).
Proof.
  intros Hb. apply (publish_kept always one_outcome same_prefix (fun cfg => cfg_KeyPrefix cfg = pre)).
  - done.
  - intros c Hc. apply q_harmless. destruct c; cbn in Hc |- *; tauto.
  - intros cfg j fs body' _ Hb'. apply q_harmless. intros [_ E]. by rewrite event_values_terminal, Hb' in E.
  - done.
Qed.

Lemma finish_one i phase extra : match extra with Some b => terminal_body b = false | None => True end ->
  wp (redis_rules always) one_outcome same_prefix (finish i phase extra) none (fun _ _ => True).
Proof.
  intros He. unfold finish. apply wp_bind. apply same_prefix_cfg. intros cfg Hc. apply wp_bind. apply settle_one. intros _ _.
  apply wp_bind. apply keep_ignore; [apply harmless_call; by intros []|]. intros _ _. apply wp_bind.
  eapply wp_mono; [by apply set_flag_permit|]. intros [n|e] t Ht; [|done]. destruct (Z.eqb_spec n 1) as [->|]; [|done]. cbn [negb].
  specialize (Ht eq_refl). apply wp_bind. eapply wp_mono; [by apply publish_permitted|]. intros [u|e] t' _; [|done].
  apply wp_bind. assert (Hex : keep1 anything (match extra with Some e => publishInstanceEvent i e | None => ret tt end)).
  { destruct extra; [by apply publish_one|by apply keep_ret]. }
  apply Hex. intros [u2|e] _; [|done]. apply wp_bind. apply keep_ignore; [apply harmless_call; by intros []|]. intros _ _.
  apply wp_bind. apply keep_ignore; [apply harmless_call; by intros []|]. done.
Qed.

(** Time passes, and the flag of the instance does not expire. *)
Definition tick_keeping_flag (s s' : RState) : Prop := redis_tick s s' /\ hash_of s' flag_key = hash_of s flag_key.

Lemma remove_keys_terminals ks s :
  terminals (fold_left (fun s k => remove_key k s) ks s) ⊆ terminals s.
Proof.
  revert s. induction ks as [|k ks IH]; intros s; [done|]. cbn [fold_left]. etransitivity; [apply IH|].
  unfold terminals, stream_of, remove_key. cbn. destruct (decide (events_key = k)) as [<-|]; [rewrite lookup_delete_eq; apply list_subseteq_nil|by rewrite lookup_delete_ne].
Qed.

Lemma tick_one s s' n : tick_keeping_flag s s' -> one_outcome s n -> one_outcome s' n.
Proof.
  intros [(ks & _ & _ & E) Hf]. apply harmless_kept. split; [|unfold flagged; by rewrite Hf].
  pose proof (remove_keys_terminals ks s) as Ht. rewrite E. exact Ht.
Qed.

Lemma api_one_outcome p : api loc anything p -> wp (redis_rules always) one_outcome same_prefix p none (fun _ _ => True).
Proof.
  apply (api_kept loc always one_outcome same_prefix (fun cfg => cfg_KeyPrefix cfg = pre) anything (fun _ _ => True)); try done;
    try solve [intros; apply q_harmless; intros []].
  - intros c Hc. apply q_harmless. destruct c; cbn in Hc |- *; tauto.
  - intros cfg _. apply prefix_scan.
  - intros cfg w Hc. apply q_harmless. cbn. by apply reg_not_flag.
  - intros cfg key fs Hc. apply quiet_calm, q_harmless. intros [E _]. by apply jobs_not_events in E.
  - intros cfg i fs body Hc Hb. apply q_harmless. intros [_ E]. by rewrite event_values_terminal, Hb in E.
  - intros. apply (quiet_weaken _ _ anything); [by apply q_harmless; intros []|]. intros [] _; cbn; try done. by apply Forall_true.
  - intros. apply (quiet_weaken _ _ anything); [by apply q_harmless; intros []|]. intros [] _; cbn; try done. by apply Forall_true.
  - intros. apply cancel_harmless.
  - intros. apply settle_one.
  - intros. apply deliver_one.
  - intros. by apply finish_one.
Qed.

(** C15. Whatever processes of one deployment do, in whatever interleaving, with
    requests that fail, replies that are lost, requests that the client then sends
    again, and processes that crash: while the flag of an instance does not expire,
    its event stream, if it held no outcome or one that is flagged, holds one.  All
    its terminal lifecycle events are copies of one event (a repeated [XADD] may
    leave more than one copy), so that no later report or cancellation is ever
    published beside the first. *)
Theorem redis_first_outcome s w :
  flagged s \/ terminals s = [] -> (forall e e', e ∈ terminals s -> e' ∈ terminals s -> e_fields e = e_fields e') ->
  reachable (redis_rules always) (api loc anything) same_prefix tick_keeping_flag s w ->
  forall e e', e ∈ terminals (w_server w) -> e' ∈ terminals (w_server w) -> e_fields e = e_fields e'.
Proof.
  intros Hf H0 Hr. apply (oo_copies (w_server w) none).
  eapply (invariant_reachable (redis_rules always) one_outcome same_prefix (fun _ _ => True)); [|apply api_one_outcome|done|apply tick_one| |exact Hr].
  - intros s1 t n [H1 H2 H3 H4]. destruct t, n; try done; constructor; try done; cbn in *; try (destruct H4 as [|[]]; by left).
  - constructor; [done|done|done|]. destruct Hf; [by left|by right].
Qed.

End Outcome.

(** ** Accepted jobs *)

Section Queue.
Context {DO : DecimalOps}.
Context `{!Cbor Envelope, !Cbor Job, !Cbor InstanceEvent, !Cbor ProcessRegistration, !Cbor RegUpdate}.
Variable loc : Location.
(** The key prefix and the cipher of the deployment; a job of an instance, as an
    entry of the stream of a process. *)
Variable pre : string.
Variable cipher : option PayloadCipher.
Variable key : ProcessKey.
Variable e0 : Entry.
Variable i0 : string.

Definition deployed (cfg : Config) : Prop := cfg_KeyPrefix cfg = pre /\ cfg_Cipher cfg = cipher.
Definition jobs_key : string := pre_key pre ["jobs"; encodeKey key].

(** The entry is a job of the instance that workers can decode. *)
Definition job_entry : Prop :=
  0 < e_id e0 /\ e_fields e0 !! "instance" = Some i0 /\
  forall cfg, deployed cfg -> exists job, decodeJob cfg e0 = Ok job /\ Job_InstanceID job = i0.

(** The entry is yet to be delivered, or pending: some worker will get it. *)
Definition will_be_delivered (gr : Group) : Prop := g_last gr < e_id e0 \/ e_id e0 ∈ map p_id (g_pending gr).

Definition earlier (a b : Entry) : Prop := e_id a < e_id b.

Definition group_ok (x : Stream) (gr : Group) : Prop :=
  (x_last x < e_id e0 -> g_last gr < e_id e0) /\ (e0 ∈ x_entries x -> will_be_delivered gr).

(** Once the ids of the stream have come to the entry's, it is there. *)
Record keeps_job (x : Stream) : Prop := mkKeepsJob {
  kj_sorted : StronglySorted earlier (x_entries x);
  kj_last : Forall (fun e => e_id e <= x_last x) (x_entries x);
  kj_in : x_last x < e_id e0 \/ e0 ∈ x_entries x;
  kj_group : forall gr, x_groups x !! jobsGroup = Some gr -> group_ok x gr
}.

(** The server gives the entry's id to the entry. *)
Definition accepting (s s' : RState) : Prop :=
  x_last (stream_of s jobs_key) < e_id e0 <= x_last (stream_of s' jobs_key) ->
  x_entries (stream_of s' jobs_key) = x_entries (stream_of s jobs_key) ++ [e0].

(** The server holds the job, or will. *)
Definition holds_job (s : RState) : Prop := keeps_job (stream_of s jobs_key) /\ r_ttl s !! jobs_key = None.

(** No other instance was handed this job in this process. *)
Definition own_deliveries (b : Broker) : Prop :=
  deployed (b_cfg b) /\ forall i d, i <> i0 -> d ∈ deliveries_of b i -> ~ (d_stream d = jobs_key /\ d_id d = e_id e0).

Definition other_instance (i : string) : Prop := i <> i0.
Definition own_entry (k : string) (m : Entry) : Prop := k = jobs_key -> e_id m = e_id e0 -> m = e0.

Lemma sorted_unique x m : keeps_job x -> m ∈ x_entries x -> e_id m = e_id e0 -> m = e0.
Proof.
  intros [Hs Hl [Hlt|Hin] _] Hm E; [rewrite Forall_forall in Hl; specialize (Hl m Hm); cbn in Hl; lia|].
  apply list_elem_of_lookup in Hin as [a Ha]. apply list_elem_of_lookup in Hm as [b Hb].
  assert (Hlt : forall a b m m', x_entries x !! a = Some m -> x_entries x !! b = Some m' -> (a < b)%nat -> e_id m < e_id m').
  { clear - Hs. induction Hs as [|y l Hs IH Hf]; intros a b m m' Ha Hb Hab; [done|]. destruct b as [|b]; [lia|].
    destruct a as [|a]; [|by apply (IH a b m m' Ha Hb); lia]. injection Ha as ->. cbn in Hb.
    rewrite Forall_forall in Hf. apply Hf. by eapply list_elem_of_lookup_2. }
  destruct (lt_eq_lt_dec a b) as [[H| ->]|H]; [|congruence|].
  - specialize (Hlt a b e0 m Ha Hb H). lia.
  - specialize (Hlt b a m e0 Hb Ha H). lia.
Qed.

Lemma entries_sorted_filter (P : Entry -> bool) l : StronglySorted earlier l -> StronglySorted earlier (List.filter P l).
Proof.
  induction 1 as [|y l Hs IH Hf]; [constructor|]. cbn. destruct (P y); [|done]. constructor; [done|].
  apply Forall_forall. intros m Hm. apply list_elem_of_In, filter_In in Hm as [Hm _]. rewrite Forall_forall in Hf.
  apply Hf. by apply list_elem_of_In.
Qed.

Lemma sorted_split (l1 l2 : list Entry) a b :
  StronglySorted earlier (l1 ++ l2) -> a ∈ l1 -> b ∈ l2 -> e_id a < e_id b.
Proof.
  induction l1 as [|y l1 IH]; intros Hs Ha Hb; [by apply elem_of_nil in Ha|]. inversion Hs as [|? ? Hs' Hf]; subst.
  apply elem_of_cons in Ha as [->|Ha]; [|by apply IH]. rewrite Forall_forall in Hf. apply Hf, elem_of_app. by right.
Qed.

Lemma sorted_snoc l e : StronglySorted earlier l -> Forall (fun m => e_id m < e_id e) l -> StronglySorted earlier (l ++ [e]).
Proof.
  induction 1 as [|y l Hs IH Hf]; intros Hl; [repeat constructor|]. inversion Hl as [|? ? Hy Hl']; subst. cbn. constructor; [auto|].
  apply Forall_app. split; [done|by constructor].
Qed.

Lemma fold_last es g : fold_left (fun _ e => e_id e) es g = g \/ exists e, e ∈ es /\ fold_left (fun _ e => e_id e) es g = e_id e.
Proof.
  revert g. induction es as [|e es IH]; intros g; [by left|]. right. cbn. destruct (IH (e_id e)) as [->|(m & Hm & ->)].
  - exists e. split; [apply elem_of_cons; by left|done].
  - exists m. split; [apply elem_of_cons; by right|done].
Qed.

(** Delivering, claiming and acknowledging other entries. *)
Lemma new_entries_in x gr n e : e ∈ new_entries x gr n -> e ∈ x_entries x.
Proof.
  intros He. apply list_elem_of_In. eapply (proj1 (filter_In _ _ _)). apply list_elem_of_In.
  rewrite <- (take_drop n). apply elem_of_app. left. exact He.
Qed.

Lemma deliver_kept x gr now c n : keeps_job x -> group_ok x gr -> group_ok x (deliver now c (new_entries x gr n) gr).
Proof.
  intros Hx [Hbefore Hafter]. split.
  - intros Hl. cbn. destruct (fold_last (new_entries x gr n) (g_last gr)) as [->|(e & Hin & ->)]; [auto|].
    apply new_entries_in in Hin. pose proof (kj_last x Hx) as Hf. rewrite Forall_forall in Hf. specialize (Hf e Hin). cbn in Hf. lia.
  - intros Hin. destruct (Hafter Hin) as [Hl|Hp]; [|right; cbn; rewrite map_app; apply elem_of_app; by left].
    set (l := List.filter (fun e => g_last gr <? e_id e) (x_entries x)).
    assert (He : e0 ∈ l) by (apply list_elem_of_In, filter_In; split; [by apply list_elem_of_In|lia]).
    assert (Hs : StronglySorted earlier l) by (apply entries_sorted_filter, Hx).
    rewrite <- (take_drop n l) in He, Hs. apply elem_of_app in He as [He|He].
    + right. cbn. rewrite map_app, map_map. apply elem_of_app. right. apply list_elem_of_fmap. by exists e0.
    + left. cbn. destruct (fold_last (new_entries x gr n) (g_last gr)) as [->|(e & Hin' & ->)]; [done|]. by eapply sorted_split.
Qed.

Lemma claim_kept x gr now c ids : group_ok x gr -> group_ok x (claim now c x ids gr).
Proof.
  intros [Hbefore Hafter]. split; [exact Hbefore|]. intros Hin. destruct (Hafter Hin) as [Hl|Hp]; [by left|right].
  cbn. apply list_elem_of_fmap in Hp as (p & E & Hp). apply list_elem_of_fmap.
  assert (Hf : exists m, find_entry x (p_id p) = Some m).
  { destruct (find_entry x (p_id p)) as [m|] eqn:Ef; [by exists m|]. unfold find_entry in Ef.
    eapply List.find_none in Ef; [|by apply list_elem_of_In]. lia. }
  destruct Hf as [m Hf]. destruct (claim_one now c x ids p) as [p'|] eqn:Ec.
  - exists p'. split; [|apply list_elem_of_omap; by exists p]. unfold claim_one in Ec. rewrite Hf in Ec.
    destruct (bool_decide _) in Ec; by injection Ec as <-.
  - unfold claim_one in Ec. rewrite Hf in Ec. by destruct (bool_decide _) in Ec.
Qed.

Lemma ack_kept x gr id : id <> e_id e0 -> group_ok x gr -> group_ok x (ack id gr).
Proof.
  intros Hne [Hbefore Hafter]. split; [exact Hbefore|]. intros Hin. destruct (Hafter Hin) as [Hl|Hp]; [by left|right].
  cbn. apply list_elem_of_fmap in Hp as (p & E & Hp). apply list_elem_of_fmap.
  exists p. split; [done|]. apply list_elem_of_In, filter_In. split; [by apply list_elem_of_In|]. lia.
Qed.

Lemma group_kept x g gr : keeps_job x -> (g = jobsGroup -> group_ok x gr) -> keeps_job (set_group g gr x).
Proof.
  intros [H1 H2 H3 H4] Hgr. constructor; [done..|]. cbn. intros gr' Hg. destruct (decide (g = jobsGroup)) as [->|Hne].
  - rewrite lookup_insert_eq in Hg. injection Hg as <-. by apply Hgr.
  - rewrite lookup_insert_ne in Hg by done. by apply H4.
Qed.

(** Commands that may lose the job. *)
Definition loses_job (c : Cmd) : Prop :=
  match c with
  | Del k => k = jobs_key
  | XAck k _ id | XDel k id => k = jobs_key /\ id = e_id e0
  | PExpire k _ => k = jobs_key
  | XAdd k _ _ => k = jobs_key
  | _ => False
  end.

Lemma holds_put s k x : holds_job s -> (k = jobs_key -> keeps_job (stream_of s k) -> keeps_job x) -> holds_job (put_stream k x s).
Proof.
  intros [Hs Ht] Hx. split; [|done]. rewrite stream_of_put. destruct (String.eqb_spec jobs_key k) as [<-|]; [by apply Hx|done].
Qed.

Lemma holds_read_group g c n ks s es s' : read_group g c n ks s = Some (es, s') -> holds_job s ->
  holds_job s' /\ Forall (fun p => own_entry (fst p) (snd p)) es.
Proof.
  revert s es. induction ks as [|k ks IH]; intros s es H Hh; cbn [read_group] in H; [injection H as <- ->; by split|].
  destruct (x_groups _ !! g) as [gr|] eqn:Hg; [|done]. destruct (read_group g c n ks _) as [[rest s2]|] eqn:E; [|done].
  injection H as <- <-. apply IH in E as [H1 H2].
  - split; [done|]. apply Forall_app. split; [|done]. apply Forall_forall. intros p Hp. apply list_elem_of_fmap in Hp as (m & -> & Hm).
    intros Ek Em. cbn in Ek, Em |- *. subst k. eapply sorted_unique; [apply Hh|by eapply new_entries_in|done].
  - apply holds_put; [done|]. intros -> Hx. apply group_kept; [done|]. intros ->. apply deliver_kept; [done|]. by apply Hx.
Qed.

(** An entry is added: another one, or this one. *)
Lemma add_entry_keeps x id fs : x_last x < id ->
  (x_last x < e_id e0 <= id -> x_entries (add_entry id fs x) = x_entries x ++ [e0]) -> keeps_job x -> keeps_job (add_entry id fs x).
Proof.
  intros Hid Hacc [H1 H2 H3 H4]. constructor; cbn [add_entry x_entries x_last x_groups] in *.
  - apply sorted_snoc; [done|]. eapply Forall_impl; [exact H2|]. cbn. lia.
  - apply Forall_app. split; [eapply Forall_impl; [exact H2|]; cbn; lia|by constructor; [cbn|]].
  - destruct H3 as [Hlt|Hin]; [|right; apply elem_of_app; by left]. destruct (Z.lt_ge_cases id (e_id e0)) as [|Hge]; [by left|].
    right. rewrite Hacc by done. apply elem_of_app. right. by apply list_elem_of_singleton.
  - intros gr Hg. destruct (H4 gr Hg) as [Hb Ha]. split; cbn [add_entry x_entries x_last]; [intros; apply Hb; lia|].
    intros Hin. destruct H3 as [Hlt|Hin']; [left; by apply Hb|by apply Ha].
Qed.

Lemma remove_entry_keeps x id : id <> e_id e0 -> keeps_job x -> keeps_job (remove_entry id x).
Proof.
  intros Hid [H1 H2 H3 H4]. constructor; cbn [remove_entry x_entries x_last x_groups].
  - by apply entries_sorted_filter.
  - apply Forall_forall. intros m Hm. apply list_elem_of_In, filter_In in Hm as [Hm _]. rewrite Forall_forall in H2.
    apply H2. by apply list_elem_of_In.
  - destruct H3 as [|Hin]; [by left|right]. apply list_elem_of_In, filter_In. split; [by apply list_elem_of_In|lia].
  - intros gr Hg. destruct (H4 gr Hg) as [Hb Ha]. split; [done|]. cbn. intros Hin. apply Ha.
    by apply list_elem_of_In, filter_In in Hin as [?%list_elem_of_In _].
Qed.

Lemma trim_none x : trim 0 x = x.
Proof. by destruct x. Qed.

Lemma step_holds c s s' r : 0 < e_id e0 -> redis_step c s s' r -> ~ loses_job c -> holds_job s -> holds_job s'.
Proof.
  intros Hpos H Hc Hh. destruct H; cbn [loses_job] in Hc; try exact Hh.
  - destruct Hh as [H1 H2]. split.
    + unfold stream_of, remove_key. cbn. by rewrite lookup_delete_ne by congruence.
    + unfold remove_key. cbn. by rewrite lookup_delete_ne by congruence.
  - by apply holds_put.
  - apply holds_put; [done|]. intros -> Hx. apply group_kept; [done|]. intros ->. split; [done|]. intros _. by left.
  - by eapply holds_read_group.
  - apply holds_put; [done|]. intros -> Hx. apply group_kept; [done|]. intros ->. apply claim_kept. by apply Hx.
  - apply holds_put; [done|]. intros -> Hx. apply group_kept; [done|]. intros ->. apply ack_kept; [|by apply Hx]. intros ->. by apply Hc.
  - destruct (decide _); [|done]. apply holds_put; [done|]. intros -> Hx. apply remove_entry_keeps; [|done]. intros ->. by apply Hc.
  - destruct (exists_key s k); [|done]. destruct Hh as [H1 H2]. split; [done|]. cbn. by rewrite lookup_insert_ne.
Qed.

(** ** The calls for other instances keep the job *)

Definition held (s : RState) (_ : nat) : Prop := holds_job s.
Hypothesis Hjob : job_entry.
Local Abbreviation keep2 := (@keeps Broker Job accepting nat _ held own_deliveries).

Lemma q_holds c : ~ loses_job c -> quiet held (One c) anything.
Proof. intros Hc s s' r n Hi Hr. split; [by eapply step_holds; [apply Hjob|..]|done]. Qed.

Lemma holds_call c : ~ loses_job c -> keep2 anything (call c).
Proof. intros H. eapply keep_any, keep_send, quiet_calm, q_holds, H. Qed.

Lemma reg_not_jobs cfg w : deployed cfg -> regKey cfg w <> jobs_key.
Proof. intros [Hc _] E. unfold regKey in E. rewrite (k_pre pre cfg _ Hc) in E. by apply pre_key_inj in E. Qed.
Lemma inst_not_jobs cfg i : deployed cfg -> instKey cfg i <> jobs_key.
Proof. intros [Hc _] E. unfold instKey in E. rewrite (k_pre pre cfg _ Hc) in E. by apply pre_key_inj in E. Qed.
Lemma meta_not_jobs cfg i : deployed cfg -> metaKey cfg i <> jobs_key.
Proof. intros [Hc _] E. unfold metaKey in E. rewrite (k_pre pre cfg _ Hc) in E. by apply pre_key_inj in E. Qed.

Lemma claim_replies k c x n : quiet held (One (XAutoClaim k jobsGroup c x n)) (entries_in own_entry).
Proof.
  intros s s' r m Hi Hr. split; [by eapply (step_holds _ _ _ _ (proj1 Hjob) Hr); [intros []|]|]. inversion Hr; subst; [|done].
  cbn. apply Forall_forall. intros p Hp. apply list_elem_of_fmap in Hp as (e & -> & He). intros Ek Em. cbn in Ek, Em |- *. subst k.
  apply list_elem_of_omap in He as (id & _ & Hf). apply List.find_some in Hf as [Hf _].
  eapply sorted_unique; [apply Hi|by apply list_elem_of_In|done].
Qed.

Lemma read_replies c ks n : quiet held (One (XReadGroup jobsGroup c ks n)) (entries_in own_entry).
Proof.
  intros s s' r m Hi Hr. split; [by eapply (step_holds _ _ _ _ (proj1 Hjob) Hr); [intros []|]|]. inversion Hr; subst; [|done].
  match goal with E : read_group _ _ _ _ _ = Some _ |- _ => destruct (holds_read_group _ _ _ _ _ _ _ E Hi) as [_ H] end. by destruct es.
Qed.

Lemma range_replies k : quiet held (One (XRange k)) (entries_in (fun _ m => own_entry k m)).
Proof.
  intros s s' r m Hi Hr. inversion Hr; subst. split; [done|]. cbn. apply Forall_forall. intros p Hp.
  apply list_elem_of_fmap in Hp as (e & -> & He). cbn. intros -> Em. by eapply sorted_unique; [apply Hi| |].
Qed.

Lemma cancel_holds k i : i <> i0 -> quiet held (Eval (cancelQueuedScript k i KindJobStart jobsGroup)) anything.
Proof.
  intros Hne. destruct Hjob as (_ & Hj & _). unfold cancelQueuedScript. apply (quiet_call _ _ _ _ _ (range_replies k)). intros r Hr.
  destruct r; try (by apply quiet_return). destruct (List.find _ es) as [[k' e]|] eqn:Ef; [|by apply quiet_return].
  apply List.find_some in Ef as [Hin Hs]. cbn in Hr. rewrite Forall_forall in Hr. apply list_elem_of_In, Hr in Hin. rename Hin into Ho. cbn in Ho.
  apply (quiet_call _ _ _ anything anything); [by apply q_holds; intros []|]. intros pend _.
  destruct pend as [| | | |[|]| |]; try (by apply quiet_return). apply (quiet_call _ _ _ anything anything); [|intros; by apply quiet_return].
  apply q_holds. intros [-> E]. rewrite (Ho eq_refl E) in Hs. unfold is_start_entry in Hs. cbn in Hs. rewrite Hj in Hs.
  apply andb_true_iff in Hs as [_ Hs]. apply bool_decide_eq_true in Hs. congruence.
Qed.

Lemma settle_deliveries ds : Forall (fun d => ~ (d_stream d = jobs_key /\ d_id d = e_id e0)) ds -> keep2 anything (settle_all ds).
Proof.
  induction 1 as [|d ds Hd _ IH]; cbn [settle_all]; [by apply keep_ret|].
  apply keep_seq; [by apply keep_ignore, holds_call|]. intros _. apply keep_seq; [by apply keep_ignore, holds_call|done].
Qed.

Lemma settle_holds i : i <> i0 -> keep2 anything (settle i).
Proof.
  intros Hne. unfold settle. apply keeps_local. intros l Hl. split.
  - split; [apply Hl|]. intros j d Hj Hd. apply (proj2 Hl j d Hj). unfold deliveries_of in *. cbn in Hd.
    destruct (decide (i = j)) as [->|]; [by rewrite lookup_delete_eq in Hd; apply elem_of_nil in Hd|by rewrite lookup_delete_ne in Hd].
  - apply settle_deliveries, Forall_forall. intros d Hd. by apply (proj2 Hl i).
Qed.

Lemma deployed_cfg {A} (f : Config -> Prog Req Reply Broker Job A) (K : A -> Prop) :
  (forall cfg, deployed cfg -> keep2 K (f cfg)) -> keep2 K (bind (reading b_cfg) f).
Proof. intros H. eapply keep_cfg; [|exact H]. by intros l [Hl _]. Qed.

Lemma deliver_holds k m : own_entry k m -> keep2 anything (deliverJob k m).
Proof.
  intros Ho. destruct Hjob as (_ & _ & Hj). unfold deliverJob. apply deployed_cfg. intros cfg Hc. destruct (decodeJob cfg m) as [job|e] eqn:E.
  - cbv zeta. apply keeps_local. intros l [Hl Hd]. split; [|apply keeps_hand; intros; by apply keeps_ret]. split; [done|].
    intros i d Hi Hin [Es Ed]. unfold deliveries_of in *. cbn in Hin. destruct (decide (Job_InstanceID job = i)) as [<-|Hne].
    + rewrite lookup_insert_eq in Hin. cbn in Hin. apply elem_of_app in Hin as [Hin|Hin]; [by eapply (Hd (Job_InstanceID job))|].
      apply list_elem_of_singleton in Hin as ->. cbn in Es, Ed. rewrite (Ho Es Ed) in E. destruct (Hj cfg Hc) as (job' & E' & Hi').
      congruence.
    + rewrite lookup_insert_ne in Hin by done. by eapply (Hd i).
  - assert (Hx : ~ (k = jobs_key /\ e_id m = e_id e0)).
    { intros [Ek Em]. rewrite (Ho Ek Em) in E. destruct (Hj cfg Hc) as (job' & E' & _). congruence. }
    apply keep_seq; [by apply keep_ignore, holds_call|]. intros _. apply keep_seq; [by apply keep_ignore, holds_call|].
    intros _. by apply keep_ret.
Qed.

Lemma publish_holds i body : keep2 anything (publishInstanceEvent i body).
Proof.
  unfold publishInstanceEvent. apply deployed_cfg. intros cfg Hc.
  apply keep_seq; [apply keep_seq_ok; [apply holds_call; by intros []|apply keep_as_text]|]. intros v. cbv zeta.
  apply keep_seq; [apply keep_clock_ret|]. intros now. apply keep_seq; [apply keep_random_ret|]. intros rand.
  destruct (EncodeEnvelope _ _ _ _ _ _) as [data|e]; [|by apply keep_ret].
  apply keep_seq_ok; [|intros; by apply keep_ret]. by apply holds_call, inst_not_jobs.
Qed.

Lemma finish_holds i phase extra : i <> i0 -> keep2 anything (finish i phase extra).
Proof.
  intros Hne. unfold finish. apply deployed_cfg. intros cfg Hc. apply keep_seq; [by apply settle_holds|]. intros _.
  apply keep_seq; [apply keep_ignore, holds_call; by intros []|]. intros _.
  apply keep_seq_ok; [apply keep_seq_ok; [apply holds_call; by intros []|apply keep_as_int]|]. intros n.
  destruct (negb (n =? 1)); [by apply keep_ret|]. apply keep_seq_ok; [apply publish_holds|]. intros _.
  apply keep_seq_ok; [destruct extra; [apply publish_holds|by apply keep_ret]|]. intros _.
  apply keep_seq; [by apply keep_ignore, holds_call, meta_not_jobs|]. intros _.
  apply keep_seq; [by apply keep_ignore, holds_call, inst_not_jobs|]. intros _. by apply keep_ret.
Qed.

Lemma remove_keys_holds ks s : jobs_key ∉ ks -> holds_job s -> holds_job (fold_left (fun s k => remove_key k s) ks s).
Proof.
  revert s. induction ks as [|k ks IH]; intros s Hk [H1 H2]; [done|]. cbn [fold_left]. apply not_elem_of_cons in Hk as [Hne Hk].
  apply IH; [done|]. split; unfold stream_of, remove_key; cbn; by rewrite lookup_delete_ne by done.
Qed.

(** Streams of jobs do not expire. *)
Lemma tick_holds s s' : redis_tick s s' -> holds_job s -> holds_job s'.
Proof.
  intros (ks & Hks & _ & E) H. assert (Hk : jobs_key ∉ ks).
  { intros Hin. apply Hks in Hin as (t & Ht & _). destruct H as [_ H]. congruence. }
  apply (remove_keys_holds ks s Hk) in H. rewrite E. exact H.
Qed.

Lemma add_job_holds cfg k fs : deployed cfg -> calm accepting held (One (XAdd (jobsKey cfg k) None fs)) anything.
Proof.
  intros _ s s' r n Hi Hr Hacc. split; [|done]. apply xadd_inv in Hr as (id & m & Hid & -> & -> & _). rewrite trim_none in *.
  apply holds_put; [done|]. intros E Hx. apply add_entry_keeps; [done| |done]. intros Hb. unfold accepting in Hacc.
  rewrite <- E, !stream_of_put, String.eqb_refl in Hacc. by apply Hacc.
Qed.

Lemma api_holds p : api loc other_instance p -> wp (redis_rules accepting) held own_deliveries p none (fun _ _ => True).
Proof.
  apply (api_kept loc accepting held own_deliveries deployed other_instance own_entry); try done;
    try solve [intros; apply q_holds; intros []].
  - by intros l [Hl _].
  - intros c Hc. apply q_holds. destruct c; cbn in Hc |- *; tauto.
  - intros cfg _ s s' r n Hi Hr. apply redis_scan_inv in Hr as (-> & ks & -> & Hks). split; [done|].
    cbn. apply Forall_forall. intros k Hk. apply Hks in Hk as [t E]. by eapply reg_prefix.
  - intros cfg w Hc. apply q_holds. cbn. by apply reg_not_jobs.
  - intros cfg k fs Hc. by apply add_job_holds.
  - intros cfg i fs body Hc Hb. apply q_holds. by apply inst_not_jobs.
  - apply read_replies.
  - apply claim_replies.
  - intros cfg k i _ Hi. by apply cancel_holds.
  - intros i Hi. by apply settle_holds.
  - intros k m Hm. by apply deliver_holds.
  - intros i phase extra Hi _ _. by apply finish_holds.
Qed.

Lemma empty_holds : holds_job empty_server.
Proof.
  destruct Hjob as [Hpos _]. split; [|done]. unfold stream_of. cbn. constructor; cbn; [constructor|constructor|by left|done].
Qed.

Lemma reachable_holds w :
  reachable (redis_rules accepting) (api loc other_instance) (fun b => deployed (b_cfg b) /\ b_deliveries b = ∅) redis_tick empty_server w ->
  holds_job (w_server w).
Proof.
  intros Hr.
  eapply (invariant_reachable (redis_rules accepting) held own_deliveries (fun _ _ => True)); [by intros ? ? ? H|apply api_holds| | |apply empty_holds|exact Hr].
  - intros l [Hl Hd]. split; [done|]. intros i d _ Hin. unfold deliveries_of in Hin. rewrite Hd in Hin. by apply elem_of_nil in Hin.
  - intros s1 s2 n Ht H. by eapply tick_holds.
Qed.

End Queue.

(** A job as [addJob] adds it is one that workers decode. *)
Lemma added_job_entry {DO : DecimalOps} `{!Cbor Envelope, !Cbor Job, !CborLaws Envelope, !CborLaws Job} pre cipher id job rand data :
  0 < id -> (forall c, cipher = Some c -> CipherLaws c) -> fills rand ->
  EncodeEnvelope (jobKindWire (job_body job)) (Job_InstanceID job) None job cipher rand = Ok data ->
  job_entry pre cipher (mkEntry id (job_values data job)) (Job_InstanceID job).
Proof.
  intros Hpos Hc Hf He. split_and!; [done|done|]. intros cfg [_ Hcfg]. exists job. split; [|done].
  destruct (DecodeEnvelope_encoded _ _ _ _ _ _ _ Hc Hf He) as (payload & Hp & Hd).
  unfold decodeJob, job_values. cbn [e_fields]. rewrite lookup_insert_eq. cbn [from_option Datatypes.id]. rewrite bytes_of_text, Hcfg, Hd.
  cbn. unfold DecodePayload. cbn. by rewrite Hp.
Qed.

(** C33. A job that [addJob] gave to the server (its entry got the id [id] of the
    stream of its process) is not lost: whatever processes do for other
    instances, in whatever interleaving, with requests that fail or are repeated,
    replies that are lost and workers that crash after they took the job, from then on it is in
    the stream, and, for the group of workers, yet to be delivered or pending, so
    that a read or a claim will deliver it. *)
Theorem redis_job_kept {DO : DecimalOps}
    `{!Cbor Envelope, !Cbor Job, !Cbor InstanceEvent, !Cbor ProcessRegistration, !Cbor RegUpdate, !CborLaws Envelope, !CborLaws Job}
    loc pre cipher key id job rand data w :
  0 < id -> (forall c, cipher = Some c -> CipherLaws c) -> fills rand ->
  EncodeEnvelope (jobKindWire (job_body job)) (Job_InstanceID job) None job cipher rand = Ok data ->
  let e := mkEntry id (job_values data job) in
  reachable (redis_rules (accepting pre key e)) (api loc (fun i => i <> Job_InstanceID job))
    (fun b => deployed pre cipher (b_cfg b) /\ b_deliveries b = ∅) redis_tick empty_server w ->
  let x := stream_of (w_server w) (jobs_key pre key) in
  id <= x_last x ->
  e ∈ x_entries x /\ forall gr, x_groups x !! jobsGroup = Some gr -> will_be_delivered e gr.
Proof.
  intros Hpos Hc Hf He e Hr x Hx.
  destruct (reachable_holds loc pre cipher key e (Job_InstanceID job) (added_job_entry _ _ _ _ _ _ Hpos Hc Hf He) w Hr) as [[_ _ [Hl|Hin] Hg] _].
  - cbn in Hl. unfold x in Hx. lia.
  - split; [done|]. intros gr Hgr. by apply (proj2 (Hg gr Hgr)).
Qed.

(** ** Process keys *)

Lemma digit_table : forallb (fun n => bool_decide (b64_val (b64_char (Z.of_nat n)) = Some (Z.of_nat n)) &&
  negb (Ascii.eqb (b64_char (Z.of_nat n)) (Ascii.ascii_of_nat 10) || Ascii.eqb (b64_char (Z.of_nat n)) (Ascii.ascii_of_nat 13))) (seq 0 64) = true.
Proof. vm_compute. reflexivity. Qed.

Definition digit (n : Z) : Prop := 0 <= n < 64.

Lemma digit_ok n : digit n -> b64_val (b64_char n) = Some n /\
  (Ascii.eqb (b64_char n) (Ascii.ascii_of_nat 10) || Ascii.eqb (b64_char n) (Ascii.ascii_of_nat 13)) = false.
Proof.
  intros H. pose proof digit_table as T. rewrite forallb_forall in T. specialize (T (Z.to_nat n)).
  rewrite Z2Nat.id in T by (unfold digit in H; lia). destruct (andb_prop _ _ (T ltac:(apply in_seq; unfold digit in H; lia))) as [H1 H2].
  apply bool_decide_eq_true in H1. by apply negb_true_iff in H2.
Qed.

(** The digits of a list of bytes. *)
Fixpoint b64_digits (bs : list Z) : list Z :=
  match bs with
  | [] => []
  | [a] => [a / 4; a mod 4 * 16]
  | [a; b] => [a / 4; a mod 4 * 16 + b / 16; b mod 16 * 4]
  | a :: b :: c :: bs' => a / 4 :: a mod 4 * 16 + b / 16 :: b mod 16 * 4 + c / 64 :: c mod 64 :: b64_digits bs'
  end.

Definition octet (a : Z) : Prop := 0 <= a < 256.

Ltac b64_arith := unfold digit, octet in *; Z.div_mod_to_equations; lia.

(** By threes. *)
Lemma threes_ind (P : list Z -> Prop) :
  P [] -> (forall a, P [a]) -> (forall a b, P [a; b]) -> (forall a b c l, P l -> P (a :: b :: c :: l)) -> forall l, P l.
Proof. intros H0 H1 H2 H3. fix IH 1. intros [|a [|b [|c l]]]; [exact H0|apply H1|apply H2|apply H3, IH]. Qed.

Lemma b64_digits_spec bs : Forall octet bs ->
  String.list_ascii_of_string (b64_encode bs) = map b64_char (b64_digits bs) /\ Forall digit (b64_digits bs) /\
  b64_groups (b64_digits bs) = Some bs.
Proof.
  induction bs as [|a|a b|a b c bs IH] using threes_ind; intros H; repeat (rewrite Forall_cons in H; destruct H as [? H]).
  - by split_and!.
  - split_and!; [done|repeat constructor; b64_arith|]. cbn. do 2 f_equal. b64_arith.
  - split_and!; [done|repeat constructor; b64_arith|]. cbn. repeat f_equal; b64_arith.
  - destruct (IH H) as (E & F & G). split_and!.
    + cbn [b64_encode String.list_ascii_of_string b64_digits map]. by rewrite E.
    + cbn [b64_digits]. repeat (constructor; [b64_arith|]). done.
    + cbn [b64_digits b64_groups]. rewrite G. repeat f_equal; b64_arith.
Qed.

Lemma b64_roundtrip bs : Forall octet bs -> b64_decode (b64_encode bs) = Some bs.
Proof.
  intros H. destruct (b64_digits_spec bs H) as (E & F & G). unfold b64_decode. rewrite E.
  assert (Hf : forall ds, Forall digit ds -> List.filter (fun c => negb (Ascii.eqb c (Ascii.ascii_of_nat 10) || Ascii.eqb c (Ascii.ascii_of_nat 13)))
    (map b64_char ds) = map b64_char ds /\ mapM b64_val (map b64_char ds) = Some ds).
  { induction 1 as [|d ds Hd _ [IH1 IH2]]; [done|]. destruct (digit_ok d Hd) as [H1 H2]. cbn [map List.filter]. rewrite H2, IH1.
    split; [done|]. cbn [mapM]. by rewrite H1, IH2. }
  destruct (Hf _ F) as [-> ->]. done.
Qed.

Definition no_nul (s : string) : Prop := nul ∉ String.list_ascii_of_string s.

Lemma split_at_app s t : no_nul s -> split_at nul (s +:+ String nul t) = (s, Some t).
Proof.
  unfold no_nul. induction s as [|c s IH]; [done|]. cbn [String.list_ascii_of_string]. rewrite not_elem_of_cons. intros [Hc Hs].
  change (String c s +:+ String nul t) with (String c (s +:+ String nul t)). cbn [split_at]. destruct (Ascii.eqb_spec c nul); [congruence|]. by rewrite (IH Hs).
Qed.

(** The key of a process comes back from its encoding (as part of the name of its
    stream and as a field of its instances), when the namespace and the process id
    hold no NUL byte. *)
Theorem redis_key_roundtrip k : no_nul (pk_Namespace k) -> no_nul (pk_ProcessID k) -> decodeKey (encodeKey k) = Some k.
Proof.
  intros Hn Hp. unfold decodeKey, encodeKey. rewrite b64_roundtrip.
  2:{ apply Forall_forall. intros z Hz. apply list_elem_of_fmap in Hz as (b & -> & _). apply byte_val_range. }
  rewrite map_map. erewrite map_ext; [rewrite map_id|intros b; apply byte_val_inj, byte_val_of, byte_val_range].
  unfold text_of, bytes_of. rewrite String.string_of_list_byte_of_string.
  cbn [SplitN]. rewrite !split_at_app by done. by destruct k.
Qed.

(** ** A concrete deployment

    Codecs that are total enough to run the broker on, the server in memory, and
    one process with one worker: [start1] was submitted as instance [i-1]. *)

(** Events as the in-memory broker's sample codec has them, and results without a context. *)
Definition outcome_code (e : InstanceEvent) : option (string * option string * Z * Z * Z * string * string) :=
  match ev_body e with
  | InstanceEventResult (mkEvaluationResult p []) =>
      Some (ev_InstanceID e, ev_CorrelationKey e, t_unix (ev_OccurredAt e), t_nsec (ev_OccurredAt e), 7, FormatInt (status_int p), ""%string)
  | _ => event_code e
  end.
Definition outcome_decode (c : string * option string * Z * Z * Z * string * string) : InstanceEvent :=
  let '(i, corr, u, n, tag, x, y) := c in
  if tag =? 7
  then mkInstanceEvent i corr (mkTime u n UTC) (InstanceEventResult (mkEvaluationResult
         (default ProcessStatusPending (match ParseInt x with Some n => status_of n | None => None end)) []))
  else event_decode c.
#[global] Instance redisEventCbor : Cbor InstanceEvent := coded outcome_code outcome_decode.

#[global] Instance redisUpdateCbor : Cbor RegUpdate :=
  coded (fun u => match ru_kind u, ru_reg u with RegistryUpdateAdded, Some r => reg_code r | _, _ => None end)
    (fun c => mkRegUpdate RegistryUpdateAdded (Some (reg_decode c))).

Definition redis_env : Env := mkEnv t0 zeroRand "i-1" true.
Definition redis_cfg : Config := mkConfig "localhost:6379" "blkit" None (90 * second) (150 * second) (3600 * second).
Definition redis_broker : Broker := mkBroker redis_cfg false ∅ ∅.

(** A call on its own, with faults: its result, the server, the process and the jobs that were taken. *)
Definition run_call {A} (p : Prog Req Reply Broker Job A) (faults : list (option bool)) (s : RState) (b : Broker) : A * RState * Broker * list Job :=
  let '(a, _, s', b', js) := exec mem_req redis_env p faults s b in (a, s', b', js).

Definition registered : RState := snd (fst (fst (run_call (RegisterProcesses UTC None "w1" [sample_reg]) [] empty_server redis_broker))).
Definition submitted : result string * RState * Broker * list Job := run_call (Submit UTC None sample_request) [] registered redis_broker.
Definition s_submitted : RState := snd (fst (fst submitted)).
Definition sample_stream : string := jobsKey redis_cfg sample_key.
Definition fetched : bool * RState * Broker * list Job :=
  run_call (fetchRound None false [sample_stream] "c-1") [] s_submitted redis_broker.
Definition s_fetched : RState := snd (fst (fst fetched)).
Definition b_fetched : Broker := snd (fst fetched).

(** What the events of the instance are. *)
Definition events_in (s : RState) : list EventBody :=
  omap (fun e => option_map ev_body (decodeInstanceEventEntry redis_cfg e)) (x_entries (stream_of s (instKey redis_cfg "i-1"))).
Definition res_of {A} (x : A * RState * Broker * list Job) : A := fst (fst (fst x)).
Definition srv_of {A} (x : A * RState * Broker * list Job) : RState := snd (fst (fst x)).
Definition brk_of {A} (x : A * RState * Broker * list Job) : Broker := snd (fst x).

Example sample_submit : res_of submitted = Ok "i-1"%string /\ events_in s_submitted = [InstanceEventLifecycle ProcessStatusPending].
Proof. split; vm_eq. Qed.
Example sample_fetch : snd fetched = [mkJob sample_key (JobStart "i-1" "start" [] (Some "corr"%string))].
Proof. vm_eq. Qed.

(** One process that runs its calls in turn. *)
Definition sample_result : EvaluationResult := mkEvaluationResult ProcessStatusCompleted [].

Lemma mem_allowed how allowed : (forall s s', allowed s s' = true -> how s s') ->
  forall q s, allowed s (fst (mem_req q s)) = true -> serves (redis_rules how) q s (fst (mem_req q s)) (snd (mem_req q s)).
Proof. intros H q s Ha. split; [apply mem_req_step|auto]. Qed.

Lemma redis_first_outcome_witness :
  exists w : World Req Reply RState Broker Job unit,
    length (terminals "blkit" "i-1" (w_server w)) = 1%nat /\
    forall e e', e ∈ terminals "blkit" "i-1" (w_server w) -> e' ∈ terminals "blkit" "i-1" (w_server w) -> e_fields e = e_fields e'.
Proof.
  set (ps := [done (ReportCompleted None "i-1" sample_result); done (ReportCancelled None "i-1")]).
  pose proof (first_process (redis_rules always) (api UTC anything) (same_prefix "blkit") (tick_keeping_flag "blkit" "i-1") empty_server
    redis_broker eq_refl) as H.
  destruct (checked_calls mem_req redis_env (redis_rules always) (fun _ _ => true) (mem_allowed _ _ (fun _ _ _ => I)) I
    _ _ _ _ ps _ _ _ redis_broker 0%nat H (lookup_singleton_eq _ _)) as (ls & ts & Hr & _).
  - exact (Forall_cons_2 _ _ _ (api_ReportCompleted UTC anything None "i-1" sample_result I)
      (Forall_cons_2 _ _ _ (api_ReportCancelled UTC anything None "i-1" I) (Forall_nil_2 _))).
  - vm_eq.
  - assert (E : length (terminals "blkit" "i-1" (server_of (exec_all mem_req redis_env ps empty_server redis_broker))) = 1%nat) by vm_eq.
    revert E Hr. generalize (server_of (exec_all mem_req redis_env ps empty_server redis_broker)). intros s' E Hr.
    exists (mkWorld s' ls ts). split; [exact E|]. apply (redis_first_outcome UTC "blkit" "i-1" empty_server); [by right| |exact Hr].
    by intros e e' He%elem_of_nil.
Defined.

(** The entry of the start of [i-1]. *)
Definition sample_start : Job := mkJob sample_key (JobStart "i-1" "start" [] (Some "corr"%string)).
Definition sample_data : bytes :=
  match EncodeEnvelope KindJobStart "i-1" None sample_start None zeroRand with Ok d => d | Err _ => [] end.
Definition sample_entry : Entry := mkEntry 1 (job_values sample_data sample_start).

#[global] Instance Entry_eq_dec : EqDecision Entry.
Proof. solve_decision. Defined.

Definition accepting_dec (s s' : RState) : bool :=
  negb ((x_last (stream_of s sample_stream) <? 1) && (1 <=? x_last (stream_of s' sample_stream))) ||
  bool_decide (x_entries (stream_of s' sample_stream) = x_entries (stream_of s sample_stream) ++ [sample_entry]).

Lemma accepting_dec_ok s s' : accepting_dec s s' = true -> accepting "blkit" sample_key sample_entry s s'.
Proof.
  unfold accepting_dec, accepting. intros H Hb. change (jobs_key "blkit" sample_key) with sample_stream in *. cbn [e_id sample_entry] in Hb.
  apply orb_prop in H as [H|H]; [exfalso; apply negb_true_iff in H; lia|]. by apply bool_decide_eq_true in H.
Qed.

Lemma redis_job_kept_witness :
  exists w : World Req Reply RState Broker Job unit, let x := stream_of (w_server w) sample_stream in
    1 <= x_last x /\ sample_entry ∈ x_entries x /\ forall gr, x_groups x !! jobsGroup = Some gr -> will_be_delivered sample_entry gr.
Proof.
  set (ps := [done (RegisterProcesses UTC None "w1" [sample_reg]); done (Submit UTC None sample_request);
    done (fetchRound None false [sample_stream] "c-1"); done (ReportCompleted None "i-2" sample_result)]).
  set (rules := redis_rules (accepting "blkit" sample_key sample_entry)).
  pose proof (first_process rules (api UTC (fun i => i <> Job_InstanceID sample_start))
    (fun b => deployed "blkit" None (b_cfg b) /\ b_deliveries b = ∅) redis_tick empty_server redis_broker (conj (conj eq_refl eq_refl) eq_refl)) as H0.
  destruct (checked_calls mem_req redis_env rules accepting_dec (mem_allowed _ _ accepting_dec_ok) I _ _ _ _ ps _ _ _ redis_broker 0%nat
    H0 (lookup_singleton_eq _ _)) as (ls & ts & Hr & _).
  - repeat apply Forall_cons_2; [apply api_RegisterProcesses|apply api_Submit|apply api_fetchRound| |apply Forall_nil_2].
    by apply (api_ReportCompleted UTC _ None "i-2" sample_result).
  - vm_eq.
  - assert (Hx : 1 <= x_last (stream_of (server_of (exec_all mem_req redis_env ps empty_server redis_broker)) sample_stream)) by (apply Z.leb_le; vm_eq).
    revert Hx Hr. generalize (server_of (exec_all mem_req redis_env ps empty_server redis_broker)). intros s' Hx Hr.
    exists (mkWorld s' ls ts). split; [exact Hx|].
    apply (@redis_job_kept _ _ _ _ _ _ (ser_cbor_laws Envelope) sampleJobCbor_laws UTC "blkit" None sample_key 1 sample_start zeroRand sample_data _
      ltac:(lia) ltac:(done) ltac:(intros n b [= <-]; apply length_replicate) ltac:(vm_eq) Hr Hx).
Defined.

Lemma redis_key_roundtrip_witness : decodeKey (encodeKey sample_key) = Some sample_key.
Proof. apply redis_key_roundtrip; unfold no_nul; by apply (bool_decide_unpack _). Defined.

(** ** What failures and races the broker does not survive *)

Definition completing : Prog Req Reply Broker Job (result unit) := ReportCompleted None "i-1" sample_result.
Definition resume_now : Prog Req Reply Broker Job (result unit) := ReportSuspended None "i-1" (Some t0).
Definition jobs_in (s : RState) : nat := length (x_entries (stream_of s sample_stream)).
Definition timers_in (s : RState) : nat := size (zset_of s (timersKey redis_cfg)).
(** A call on the instance after its first [n] requests: what is left, the server and the process. *)
Definition after_requests (n : nat) (p : Prog Req Reply Broker Job (result unit)) : Prog Req Reply Broker Job (result unit) * RState * Broker :=
  run_for mem_req redis_env n p s_fetched b_fetched.
Definition rest_of (x : Prog Req Reply Broker Job (result unit) * RState * Broker) (s : RState) : result unit * RState * Broker * list Job :=
  run_call (fst (fst x)) [] s (snd x).
Definition eof : GoError := ErrorText "EOF".
(** The request that comes next is carried out, its reply is lost, and the client
    sends it again. *)
Definition resent (x : Prog Req Reply Broker Job (result unit) * RState * Broker) : Prog Req Reply Broker Job (result unit) * RState * Broker :=
  match fst (fst x) with Server q _ => (fst (fst x), fst (mem_req q (snd (fst x))), snd x) | _ => x end.

Lemma resent_step x : resent x = x \/ own_step (redis_rules always) x (resent x).
Proof.
  destruct x as [[p s] l]. unfold resent. cbn [fst snd]. destruct p as [|q k| | | | | |]; try (by left). right.
  apply (ts_again (redis_rules always) q k s _ (snd (mem_req q s))). by split; [apply mem_req_step|].
Qed.

(** Without failures the result is published. *)
Example completed_run :
  let r := run_call completing [] s_fetched b_fetched in
  res_of r = Ok tt /\
  events_in (srv_of r) = [InstanceEventLifecycle ProcessStatusPending; InstanceEventLifecycle ProcessStatusCompleted; InstanceEventResult sample_result].
Proof. split; vm_eq. Qed.

(** The flag is set before the outcome is published.  When publishing fails
    [finish] returns the error; the retry finds the flag, returns [nil], and the
    outcome is never published. *)
Example retried_outcome_lost :
  let failed := run_call completing (repeat None 5 ++ [Some false]) s_fetched b_fetched in
  let retried := run_call completing [] (srv_of failed) (brk_of failed) in
  res_of failed = Err eof /\ res_of retried = Ok tt /\
  events_in (srv_of retried) = [InstanceEventLifecycle ProcessStatusPending] /\ jobs_in (srv_of retried) = 0%nat.
Proof. split_and!; vm_eq. Qed.

(** The client repeats a request whose reply was lost.  The repeated [HSETNX] finds
    the flag that the first one set: [finish] returns [nil], and the outcome is
    never published. *)
Example resent_flag_unpublished :
  let x := resent (after_requests 3 completing) in let r := rest_of x (snd (fst x)) in
  res_of r = Ok tt /\ events_in (srv_of r) = [InstanceEventLifecycle ProcessStatusPending] /\ jobs_in (srv_of r) = 0%nat.
Proof. split_and!; vm_eq. Qed.

(** The repeated [XADD] publishes the outcome twice. *)
Example resent_outcome_copied :
  let x := resent (after_requests 5 completing) in let r := rest_of x (snd (fst x)) in
  res_of r = Ok tt /\
  events_in (srv_of r) = [InstanceEventLifecycle ProcessStatusPending; InstanceEventLifecycle ProcessStatusCompleted;
    InstanceEventLifecycle ProcessStatusCompleted; InstanceEventResult sample_result].
Proof. split; vm_eq. Qed.

(** [settle] acknowledges the start before it deletes it.  A [Cancel] in between
    takes it for one that is still queued: the instance, which ran to its end, is
    published as cancelled and its result is dropped, and both calls return [nil]. *)
Example cancel_races_settle :
  let acked := after_requests 1 completing in
  let cancelled := run_call (Cancel UTC None (mkCancelRequest "ns" "p" "1" "i-1" None)) [] (snd (fst acked)) redis_broker in
  let completed := rest_of acked (srv_of cancelled) in
  res_of cancelled = Ok tt /\ res_of completed = Ok tt /\
  events_in (srv_of completed) = [InstanceEventLifecycle ProcessStatusPending; InstanceEventLifecycle ProcessStatusCancelled].
Proof. split_and!; vm_eq. Qed.

(** The terminal lifecycle event and the result are two requests.  A subscription
    in between is closed after the lifecycle event, without the result. *)
Example subscription_misses_result :
  let between := after_requests 6 completing in
  let subscribed := run_call (SubscribeToInstance "i-1") [] (snd (fst between)) redis_broker in
  option_map (fun p => (map ev_body (s_ch (fst p)), s_closed (fst p), snd p)) (match res_of subscribed with Ok p => Some p | Err _ => None end) =
    Some ([InstanceEventLifecycle ProcessStatusCompleted], true, None) /\
  last (events_in (srv_of (rest_of between (snd (fst between))))) = Some (InstanceEventResult sample_result).
Proof. split; vm_eq. Qed.

(** [dueTimersScript] removes the timers it returns.  When reading the metadata of
    the instance then fails, the timer is gone and no resume job is queued. *)
Example fired_timer_lost :
  let suspended := run_call resume_now [] s_fetched b_fetched in
  let moved := run_call moveTimersRound [] (srv_of suspended) redis_broker in
  let lost := run_call moveTimersRound [None; Some false] (srv_of suspended) redis_broker in
  timers_in (srv_of suspended) = 1%nat /\
  (timers_in (srv_of moved), jobs_in (srv_of moved)) = (0%nat, 1%nat) /\
  (timers_in (srv_of lost), jobs_in (srv_of lost)) = (0%nat, 0%nat).
Proof. split_and!; vm_eq. Qed.

(** [ReportSuspended] settles the job before it adds the timer: a worker that
    crashes in between leaves neither. *)
Example suspended_instance_lost :
  let s1 := snd (fst (after_requests 4 resume_now)) in
  events_in s1 = [InstanceEventLifecycle ProcessStatusPending; InstanceEventLifecycle ProcessStatusSuspended] /\
  (timers_in s1, jobs_in s1) = (0%nat, 0%nat).
Proof. split; vm_eq. Qed.

(** The stream of events is trimmed whatever its entries are.  After 256 events of
    other kinds a subscription replays no lifecycle event. *)
Definition post_error : Prog Req Reply Broker Job (result unit) := PostError None "i-1" (mkInstanceError "E" "again").
Definition noisy : RState := Nat.iter 256 (fun s => srv_of (run_call post_error [] s redis_broker)) s_submitted.
Example trimmed_lifecycle_lost :
  let subscribed := run_call (SubscribeToInstance "i-1") [] noisy redis_broker in
  option_map (fun p => (s_ch (fst p), s_closed (fst p))) (match res_of subscribed with Ok p => Some p | Err _ => None end) = Some ([], false) /\
  length (events_in noisy) = 256%nat.
Proof. split; vm_eq. Qed.
