(* ===== verification/Documents.v ===== *)
(** * Tables of documents

    The registry stores of the AWS, Google and Azure brokers keep their records in
    a managed table: DynamoDB, Firestore, Table Storage.  What they use of it is
    modelled here: documents under a partition and a row key, conditional writes
    and deletions that the service carries out in one step, and listings (a
    listing reads its pages in one step).  [doc_step] is the service, [doc_do] one
    that lists in the order of its keys.  Then what the stores have in common: the
    registration updates that a watcher is sent, and the view they describe; the
    invariants that a record is taken at most once and that a record stays. *)

From S2P Require Import Prelude GoTime GoText Messages Wire Programs.
#[global] Open Scope Z_scope.

(** ** The service *)

Section Documents.
Context {V : Type}.

Abbreviation Key := (string * string)%type.

(** A document and its version tag. *)
Record Doc : Type := mkDoc { d_tag : Z; d_body : V }.

(** [next_tag] is a tag that no document has had. *)
Record Table : Type := mkTable { docs : gmap Key Doc; next_tag : Z }.
Definition empty_table : Table := mkTable ∅ 1.

(** [Change] writes what it makes of the document, [Remove] deletes it, when the
    condition holds (else the document is told as it was read); [Listing] selects
    documents of a partition. *)
Inductive DocReq : Type :=
| Read (k : Key)
| Change (k : Key) (cond : option Doc -> bool) (upd : option V -> V)
| Remove (k : Key) (cond : option Doc -> bool)
| Listing (partition : string) (sel : string -> V -> bool).

Inductive DocReply : Type :=
| Found (d : option Doc)
| Done (v : option V)
| Refused (d : option Doc)
| Listed (l : list (string * Doc)).

(** An unconditional write. *)
Definition always_write (_ : option Doc) : bool := true.
Definition Write (k : Key) (v : V) : DocReq := Change k always_write (fun _ => v).
Definition exists_doc (d : option Doc) : bool := match d with Some _ => true | None => false end.
Definition if_match (tag : Z) (d : option Doc) : bool := match d with Some d => d_tag d =? tag | None => false end.

Definition put_doc (k : Key) (v : V) (s : Table) : Table :=
  mkTable (<[k := mkDoc (next_tag s) v]> (docs s)) (next_tag s + 1).
Definition drop_doc (k : Key) (s : Table) : Table := mkTable (delete k (docs s)) (next_tag s).

Definition selected (partition : string) (sel : string -> V -> bool) (s : Table) : list (string * Doc) :=
  omap (fun p => if String.eqb (fst (fst p)) partition && sel (snd (fst p)) (d_body (snd p))
                 then Some (snd (fst p), snd p) else None) (map_to_list (docs s)).

Definition doc_do (q : DocReq) (s : Table) : Table * DocReply :=
  match q with
  | Read k => (s, Found (docs s !! k))
  | Change k cond upd =>
      if cond (docs s !! k)
      then let v := upd (option_map d_body (docs s !! k)) in (put_doc k v s, Done (Some v))
      else (s, Refused (docs s !! k))
  | Remove k cond => if cond (docs s !! k) then (drop_doc k s, Done None) else (s, Refused (docs s !! k))
  | Listing partition sel => (s, Listed (selected partition sel s))
  end.

(** The order of a listing is the service's. *)
Definition doc_step (q : DocReq) (s s' : Table) (r : DocReply) : Prop :=
  match q with
  | Listing partition sel => s' = s /\ exists l, l ≡ₚ selected partition sel s /\ r = Listed l
  | _ => (s', r) = doc_do q s
  end.

Lemma doc_do_step q s : doc_step q s (fst (doc_do q s)) (snd (doc_do q s)).
Proof. destruct q; cbn [doc_step]; try by destruct (doc_do _ _). cbn. split; [done|]. by eexists. Qed.

Lemma selected_in partition sel s k d :
  (k, d) ∈ selected partition sel s -> docs s !! (partition, k) = Some d /\ sel k (d_body d) = true.
Proof.
  unfold selected. intros ([[p k'] d'] & Hin & E)%list_elem_of_omap. cbn in E.
  destruct (String.eqb_spec p partition) as [->|]; [|done]. cbn in E. destruct (sel k' (d_body d')) eqn:Es; [|done].
  injection E as <- <-. by apply elem_of_map_to_list in Hin.
Qed.

End Documents.

Arguments Doc : clear implicits.
Arguments Table : clear implicits.
Arguments DocReq : clear implicits.
Arguments DocReply : clear implicits.

(** ** What the stores do *)

Section Calls.
Context {V L : Type}.
Abbreviation P A := (Prog (DocReq V) (DocReply V) L RegUpdate A).
Abbreviation M A := (Prog (DocReq V) (DocReply V) L RegUpdate (result A)).

(** A request; a condition that failed is the reply [Refused]. *)
Definition request (q : DocReq V) : M (DocReply V) := Server q (fun r => Ret r).
(** A request whose error gets a text. *)
Definition wrapped {A} (text : string) (m : M A) : M A :=
  let~ r := m in match r with Err e => fail (WrapError text e) | Ok r => ret r end.

(** The updates that a watcher is sent; [false] when the watch is over. *)
Fixpoint sendAll (us : list RegUpdate) : P bool :=
  match us with
  | [] => Ret true
  | u :: us' => Hand u (fun ok => if (ok : bool) then sendAll us' else Ret false)
  end.

(** The loop that claims due timers, by deletions that are refused when the timer is
    no longer as it was listed ([unread]: an error in what was read instead): the ids
    that were claimed, also when an error ended it. *)
Fixpoint claim_each {C} (name : C -> string) (claim : C -> DocReq V) (unread : option (Doc V) -> option GoError) (wrap : C -> GoError -> GoError)
    (cs : list C) (claimed : list string) : P (list string * option GoError) :=
  match cs with
  | [] => Ret (claimed, None)
  | c :: cs' =>
      Server (claim c) (fun r => match r with
        | Ok (Refused d) =>
            match unread d with
            | Some e => Ret (claimed, Some (wrap c e))
            | None => claim_each name claim unread wrap cs' claimed
            end
        | Err e => Ret (claimed, Some (wrap c e))
        | Ok _ => claim_each name claim unread wrap cs' (claimed ++ [name c])
        end)
  end.

(** A call that does not tell. *)
Definition quietly {A B} (b : B) (p : P A) : P B := let~ _ := p in Ret b.

Lemma sendAll_exec serve env us fs s (l : L) : en_taken env = true ->
  exec (S := Table V) serve env (sendAll us) fs s l = (true, fs, s, l, us).
Proof. intros Ht. induction us as [|u us IH]; [done|]. cbn [sendAll exec]. by rewrite Ht, IH. Qed.

(** Which requests the calls make. *)
Variable rules : Rules (DocReq V) (DocReply V) (Table V).
Variable ok : DocReq V -> Prop.
Variable rep : DocReq V -> DocReply V -> Prop.
Abbreviation only_ p := (only rules ok rep p (fun _ => True)).

Lemma only_request q : ok q -> only_ (request q).
Proof. intros H. by split. Qed.

Lemma only_wrapped {A} text (m : M A) : only_ m -> only_ (wrapped text m).
Proof. intros H. unfold wrapped. only_all. Qed.

Lemma only_wrapped_request text q : ok q -> only_ (wrapped text (request q)).
Proof. intros H. by apply only_wrapped, only_request. Qed.

Lemma only_sendAll us : only_ (sendAll us).
Proof. induction us as [|u us IH]; cbn [sendAll]; only_all. Qed.

Lemma only_claim_each {C} (name : C -> string) claim unread wrap cs claimed :
  (forall c, c ∈ cs -> ok (claim c)) -> only_ (claim_each name claim unread wrap cs claimed).
Proof.
  revert claimed. induction cs as [|c cs IH]; intros claimed H; cbn [claim_each]; [done|].
  assert (Hcs : forall claimed, only_ (claim_each name claim unread wrap cs claimed)) by (intros; apply IH; intros c' Hc; apply H, elem_of_cons; by right).
  apply only_server; [apply H, elem_of_cons; by left|]. intros [[| |d|]|e]; try apply Hcs; [|done]. destruct (unread d); [done|apply Hcs].
Qed.

Lemma only_quietly {A B} (b : B) (p : P A) : only_ p -> only_ (quietly b p).
Proof. intros H. unfold quietly. only_all. Qed.

End Calls.

(** ** What a watcher knows *)

(** The registrations, by worker and process. *)
Abbreviation View := (gset (string * ProcessKey)).

Definition reg_id (r : ProcessRegistration) : string * ProcessKey := (pr_WorkerID r, ProcessRegistration_Key r).

Definition observe (v : View) (u : RegUpdate) : View :=
  match ru_reg u with
  | None => v
  | Some r =>
      match ru_kind u with
      | RegistryUpdateSnapshot | RegistryUpdateAdded => {[reg_id r]} ∪ v
      | RegistryUpdateRemoved | RegistryUpdateHeartbeatLost => v ∖ {[reg_id r]}
      | RegistryUpdateSnapshotComplete => v
      end
  end.
Definition observed (us : list RegUpdate) (v : View) : View := fold_left observe us v.

Definition adds (u : RegUpdate) (x : string * ProcessKey) : Prop :=
  (ru_kind u = RegistryUpdateSnapshot \/ ru_kind u = RegistryUpdateAdded) /\ exists r, ru_reg u = Some r /\ reg_id r = x.
Definition removes (u : RegUpdate) (x : string * ProcessKey) : Prop :=
  (ru_kind u = RegistryUpdateRemoved \/ ru_kind u = RegistryUpdateHeartbeatLost) /\ exists r, ru_reg u = Some r /\ reg_id r = x.

Lemma observe_spec v u x : x ∈ observe v u <-> adds u x \/ (x ∈ v /\ ~ removes u x).
Proof.
  unfold observe, adds, removes. destruct u as [k [r|]]; cbn [ru_kind ru_reg].
  - destruct k; rewrite ?elem_of_union, ?elem_of_difference, ?elem_of_singleton; naive_solver.
  - naive_solver.
Qed.

Lemma observed_app us us' v : observed (us ++ us') v = observed us' (observed us v).
Proof. apply fold_left_app. Qed.

Lemma observed_local us v v' x : (x ∈ v <-> x ∈ v') -> x ∈ observed us v <-> x ∈ observed us v'.
Proof.
  revert v v'. induction us as [|u us IH]; intros v v' H; [done|]. cbn [observed fold_left]. apply IH. rewrite !observe_spec. by rewrite H.
Qed.

(** Updates of which none adds what one removes. *)
Lemma observed_spec us v x :
  (forall u u', u ∈ us -> u' ∈ us -> adds u x -> ~ removes u' x) ->
  x ∈ observed us v <-> (exists u, u ∈ us /\ adds u x) \/ (x ∈ v /\ forall u, u ∈ us -> ~ removes u x).
Proof.
  revert v. induction us as [|u us IH]; intros v Hx; cbn [observed fold_left].
  - split; [right; split; [done|]; intros u Hu; by apply elem_of_nil in Hu|]. intros [(u & Hu & _)|[H _]]; [by apply elem_of_nil in Hu|done].
  - fold (observed us (observe v u)). rewrite IH; [|intros a b Ha Hb; apply (Hx a b); apply elem_of_cons; by right]. rewrite observe_spec.
    split.
    + intros [(u' & Hu & Ha)|[[Ha|[Hv Hr]] Hno]]; [left; exists u'; split; [apply elem_of_cons; by right|done]|left; exists u; split; [apply elem_of_cons; by left|done]|].
      right. split; [done|]. intros u' [->|Hu']%elem_of_cons; [done|by apply Hno].
    + intros [(u' & [->|Hu]%elem_of_cons & Ha)|[Hv Hno]].
      * right. split; [by left|]. intros u'' Hu'' Hr. eapply (Hx u u''); [apply elem_of_cons; by left|apply elem_of_cons; by right|done|done].
      * left. by exists u'.
      * right. split; [right; split; [done|apply Hno, elem_of_cons; by left]|]. intros u' Hu'. apply Hno, elem_of_cons. by right.
Qed.

(** The same update for all of a worker's registrations. *)
Definition emit (kind : RegistryUpdateKind) (regs : list ProcessRegistration) : list RegUpdate :=
  map (fun r => mkRegUpdate kind (Some r)) regs.

Definition ids_in (regs : list ProcessRegistration) : View := list_to_set (map reg_id regs).

Lemma emit_adds kind regs v : kind = RegistryUpdateSnapshot \/ kind = RegistryUpdateAdded ->
  observed (emit kind regs) v = ids_in regs ∪ v.
Proof.
  intros Hk. revert v. induction regs as [|r regs IH]; intros v; [unfold ids_in; cbn; set_solver|].
  cbn [emit map observed fold_left]. fold (emit kind regs). fold (observed (emit kind regs) (observe v (mkRegUpdate kind (Some r)))).
  rewrite IH. unfold ids_in. cbn. destruct Hk as [-> | ->]; set_solver.
Qed.

Lemma emit_removes kind regs v : kind = RegistryUpdateRemoved \/ kind = RegistryUpdateHeartbeatLost ->
  observed (emit kind regs) v = v ∖ ids_in regs.
Proof.
  intros Hk. revert v. induction regs as [|r regs IH]; intros v; [unfold ids_in; cbn; set_solver|].
  cbn [emit map observed fold_left]. fold (emit kind regs). fold (observed (emit kind regs) (observe v (mkRegUpdate kind (Some r)))).
  rewrite IH. unfold ids_in. cbn. destruct Hk as [-> | ->]; set_solver.
Qed.

(** Updates that leave it open whether [x] is offered. *)
Definition untouched (us : list RegUpdate) (x : string * ProcessKey) : Prop := forall v, x ∈ observed us v <-> x ∈ v.

Lemma untouched_app us us' x : untouched us x -> untouched us' x -> untouched (us ++ us') x.
Proof. intros H H' v. by rewrite observed_app, (H' _), (H _). Qed.

Lemma untouched_concat {A} (f : A -> list RegUpdate) l x : (forall a, a ∈ l -> untouched (f a) x) -> untouched (concat (map f l)) x.
Proof.
  induction l as [|a l IH]; intros H; [done|]. cbn [map concat]. apply untouched_app; [apply H, elem_of_cons; by left|].
  apply IH. intros b Hb. apply H, elem_of_cons. by right.
Qed.

Lemma emit_untouched kind regs x : kind <> RegistryUpdateSnapshotComplete -> x ∉ ids_in regs -> untouched (emit kind regs) x.
Proof. intros Hk Hx v. destruct kind; try done; first [rewrite emit_adds by auto|rewrite emit_removes by auto]; set_solver. Qed.

Lemma untouched_nil x : untouched [] x.
Proof. done. Qed.

(** The updates of one worker, among those of all. *)
Lemma observed_loop {W} (K : string * W -> list RegUpdate -> Prop) ps uss x :
  Forall2 K ps uss -> NoDup (map fst ps) -> (forall p us, p ∈ ps -> K p us -> fst p <> fst x -> untouched us x) ->
  (forall w, (fst x, w) ∈ ps -> exists us, K (fst x, w) us /\ forall v, x ∈ observed (concat uss) v <-> x ∈ observed us v) /\
  (fst x ∉ map fst ps -> untouched (concat uss) x).
Proof.
  induction 1 as [|p us ps uss Hk Hf IH]; intros Hn Hu; [split; [intros w H; by apply elem_of_nil in H|done]|].
  cbn [map] in Hn. apply NoDup_cons in Hn as [Hp Hn]. cbn [concat map].
  destruct (IH Hn (fun q us' Hq => Hu q us' (proj2 (elem_of_cons ps q p) (or_intror Hq)))) as [IH1 IH2]. clear IH. split.
  - intros w [E|Hin]%elem_of_cons.
    + subst p. exists us. split; [done|]. intros v. rewrite observed_app. by apply IH2.
    + destruct (IH1 w Hin) as (us' & Hk' & Hv). exists us'. split; [done|]. intros v. rewrite observed_app, Hv. apply observed_local.
      apply (Hu p us); [apply elem_of_cons; by left|done|]. intros E. apply Hp. rewrite E. apply list_elem_of_fmap. by exists (fst x, w).
  - intros Hx. rewrite elem_of_cons in Hx. apply untouched_app; [|apply IH2; tauto]. apply (Hu p us); [apply elem_of_cons; by left|done|].
    intros E. apply Hx. by left.
Qed.

Lemma observed_one {W} (f : string * W -> list RegUpdate) (m : gmap string W) ps w x v :
  ps ≡ₚ map_to_list m -> m !! fst x = Some w -> (forall j w', m !! j = Some w' -> j <> fst x -> untouched (f (j, w')) x) ->
  x ∈ observed (concat (map f ps)) v <-> x ∈ observed (f (fst x, w)) v.
Proof.
  intros Hp Hi Hu. destruct (observed_loop (fun p us => us = f p) ps (map f ps) x) as [H _].
  - by apply Forall2_fmap_r, Forall_Forall2_diag, Forall_true.
  - rewrite Hp. apply NoDup_fst_map_to_list.
  - intros [j w'] us Hin -> Hj. apply Hu; [|done]. rewrite Hp in Hin. by apply elem_of_map_to_list in Hin.
  - destruct (H w) as (us & -> & Hv); [rewrite Hp; by apply elem_of_map_to_list|]. apply Hv.
Qed.

(** ** A record is taken once, a record stays *)

(** How often an id is in a list. *)
Abbreviation times_in id ids := (length (List.filter (String.eqb id) ids)).

Section Invariants.
Context {V L : Type}.
Variable clk : Time -> Prop.
Variable k0 : string * string.

Definition doc_rules : Rules (DocReq V) (DocReply V) (Table V) := mkRules doc_step clk.

(** Documents that expire: any of them, or any but one. *)
Definition expiring (s s' : Table V) : Prop := docs s' ⊆ docs s /\ next_tag s' = next_tag s.

(** The record is there at most once, and a permit stands for taking it. *)
Definition present (s : Table V) : nat := match docs s !! k0 with Some _ => 1 | None => 0 end.
Definition taken_once (s : Table V) (n : nat) : Prop := (present s + n <= 1)%nat.

(** Requests that do not make the record. *)
Definition spares (q : DocReq V) : Prop := match q with Change k _ _ => k <> k0 | _ => True end.

Lemma present_delete s k : (present (drop_doc k s) <= present s)%nat.
Proof.
  unfold present. cbn. destruct (decide (k = k0)) as [->|]; [rewrite lookup_delete_eq; lia|by rewrite lookup_delete_ne].
Qed.

Lemma spares_kept q s s' r n : spares q -> doc_step q s s' r -> taken_once s n -> taken_once s' n.
Proof.
  unfold taken_once. destruct q as [k|k cond upd|k cond|partition sel]; cbn [spares doc_step doc_do]; intros Hs Hq Hi.
  - by injection Hq as -> _.
  - destruct (cond _); injection Hq as -> _; [|done]. unfold present in *. cbn. by rewrite lookup_insert_ne.
  - destruct (cond _); injection Hq as -> _; [|done]. pose proof (present_delete s k). lia.
  - by destruct Hq as [-> _].
Qed.

Lemma expiring_taken s s' n : expiring s s' -> taken_once s n -> taken_once s' n.
Proof.
  intros [Hsub _] H. unfold taken_once, present in *. destruct (docs s' !! k0) eqn:E; [|lia].
  by rewrite (lookup_weaken _ _ _ _ E Hsub) in H.
Qed.

Abbreviation spare p := (only doc_rules spares (fun _ _ => True) p (fun _ => True)).

Lemma spare_wp {A} (p : Prog (DocReq V) (DocReply V) L RegUpdate A) t (Q : A -> nat -> Prop) :
  spare p -> (forall a, Q a t) -> wp doc_rules taken_once (fun _ => True) p t Q.
Proof.
  intros Hp HQ. apply (only_wp doc_rules taken_once (fun _ => True) spares (fun _ _ => True) p (fun _ => True)); [|done|exact Hp|auto].
  intros q s s' r n Hs Hq Hi. split; [|done]. exact (spares_kept q s s' r n Hs Hq Hi).
Qed.

Lemma spare_request_wp {A} q (k : result (DocReply V) -> Prog (DocReq V) (DocReply V) L RegUpdate A) t (Q : A -> nat -> Prop) :
  spares q -> (forall r, wp doc_rules taken_once (fun _ => True) (k r) t Q) ->
  wp doc_rules taken_once (fun _ => True) (Server q k) t Q.
Proof.
  intros Hq Hk. apply wp_server; [done|]. intros s s' r _ Hs.
  assert (Hb : becomes taken_once s t s' t) by (intros n Hi; exact (spares_kept q s s' r _ Hq Hs Hi)).
  split; [done|]. by exists t.
Qed.

(** Taking the record, which fails when it is not there, earns a permit. *)
Lemma take_wp {A} cond (k : result (DocReply V) -> Prog (DocReq V) (DocReply V) L RegUpdate A) t (Q : A -> nat -> Prop) :
  cond None = false ->
  (forall d, wp doc_rules taken_once (fun _ => True) (k (Ok (Refused d))) t Q) ->
  wp doc_rules taken_once (fun _ => True) (k (Ok (Done None))) (Datatypes.S t) Q ->
  (forall e, wp doc_rules taken_once (fun _ => True) (k (Err e)) t Q) ->
  (forall e, wp doc_rules taken_once (fun _ => True) (k (Err e)) (Datatypes.S t) Q) ->
  wp doc_rules taken_once (fun _ => True) (Server (Remove k0 cond) k) t Q.
Proof.
  intros Hc Hr Hd He He'. apply wp_server; [done|]. intros s s' r _ Hq. cbn [serves doc_rules doc_step doc_do] in Hq.
  destruct (cond (docs s !! k0)) eqn:Ec; injection Hq as -> ->; [|split; [by intros n|exists t; split_and!; auto; by intros n]].
  destruct (docs s !! k0) as [d|] eqn:Ed; [|congruence].
  split; [|exists (Datatypes.S t); split_and!; [|done|done]]; intros n; unfold taken_once, present; cbn; rewrite Ed, lookup_delete_eq; lia.
Qed.

(** A loop that claims, by the ids that name its documents. *)
Lemma claim_each_wp {C} (name : C -> string) claim unread wrap cs claimed t id :
  (forall c, name c = id -> exists cond, claim c = Remove k0 cond /\ cond None = false) -> (forall c, spares (claim c)) ->
  (times_in id claimed <= t)%nat ->
  wp doc_rules taken_once (fun _ => True) (claim_each (L := L) name claim unread wrap cs claimed) t (fun r t => (times_in id (fst r) <= t)%nat).
Proof.
  intros Hc Hs. revert claimed t. induction cs as [|c cs IH]; intros claimed t H; cbn [claim_each]; [done|].
  assert (Hm : (times_in id (claimed ++ [name c]) <= times_in id claimed + if String.eqb id (name c) then 1 else 0)%nat).
  { rewrite List.filter_app, length_app. cbn. destruct (String.eqb _ _); cbn; lia. }
  destruct (String.eqb_spec id (name c)) as [E|Hne].
  - destruct (Hc c (eq_sym E)) as (cond & -> & Hn).
    apply take_wp; [done|intros d; destruct (unread d); [cbn; lia|by apply IH]| |intros e; cbn; lia..]. apply IH. lia.
  - apply spare_request_wp; [apply Hs|]. intros [[| |d|]|e]; try (apply IH; lia); [|exact H]. destruct (unread d); [exact H|apply IH; lia].
Qed.

Lemma quietly_wp {A} (p : Prog (DocReq V) (DocReply V) L RegUpdate A) id :
  spare p -> wp doc_rules taken_once (fun _ => True) (quietly [] p) none (fun ids t => (times_in id ids <= t)%nat).
Proof. intros H. apply wp_bind, spare_wp; [done|]. intros a. cbn. lia. Qed.

(** ** A document that no request changes *)

Variable d0 : Doc V.
Definition stays (s : Table V) (_ : nat) : Prop := docs s !! k0 = Some d0.

Definition harmless_to (q : DocReq V) : Prop :=
  match q with
  | Change k _ _ => k <> k0
  | Remove k cond => k = k0 -> cond (Some d0) = false
  | _ => True
  end.
(** The replies show the document as it is. *)
Definition shows (q : DocReq V) (r : DocReply V) : Prop :=
  match q, r with
  | Read k, Found o => k = k0 -> o = Some d0
  | Listing partition sel, Listed l =>
      partition = fst k0 -> (sel (snd k0) (d_body d0) = true -> (snd k0, d0) ∈ l) /\
      (forall d, (snd k0, d) ∈ l -> d = d0 /\ sel (snd k0) (d_body d0) = true)
  | Listing _ _, _ => False
  | _, _ => True
  end.

Lemma stays_kept q s s' r n : harmless_to q -> doc_step q s s' r -> stays s n -> stays s' n /\ shows q r.
Proof.
  unfold stays. destruct q as [k|k cond upd|k cond|partition sel]; cbn [harmless_to doc_step doc_do shows]; intros Hs Hq Hi.
  - injection Hq as -> ->. split; [done|]. by intros ->.
  - destruct (cond _); injection Hq as -> ->; [|done]. cbn. by rewrite lookup_insert_ne.
  - destruct (cond (docs s !! k)) eqn:Ec; injection Hq as -> ->; [|done]. cbn. split; [|done]. rewrite lookup_delete_ne; [done|].
    intros ->. rewrite Hi, Hs in Ec; done.
  - destruct Hq as (-> & l & Hl & ->). split; [done|]. intros ->. setoid_rewrite Hl. split.
    + intros Hsel. apply list_elem_of_omap. exists (k0, d0). split; [by apply elem_of_map_to_list|]. cbn. by rewrite String.eqb_refl, Hsel.
    + intros d Hd. apply selected_in in Hd as [Hd Hsel]. rewrite <- surjective_pairing, Hi in Hd. by injection Hd as <-.
Qed.

(** Calls that are harmless to the document keep it, and their results show it. *)
Abbreviation harmless p K := (only doc_rules harmless_to shows p K).

Lemma harmless_wp {X} (p : Prog (DocReq V) (DocReply V) L RegUpdate X) K t :
  harmless p K -> wp doc_rules stays (fun _ => True) p t (fun a _ => K a).
Proof.
  intros Hp. apply (only_wp doc_rules stays (fun _ => True) harmless_to shows p K); [|done|exact Hp|done].
  intros q s1 s2 r n Ho Hq Hi. exact (stays_kept q s1 s2 r n Ho Hq Hi).
Qed.

Lemma stays_reachable {X} (K : X -> Prop) (calls : Prog (DocReq V) (DocReply V) L RegUpdate X -> Prop) fresh_local tick s w :
  (forall p, calls p -> harmless p K) -> (forall s s', tick s s' -> stays s 0 -> stays s' 0) ->
  stays s 0 -> reachable doc_rules calls fresh_local tick s w ->
  stays (w_server w) 0 /\ forall a, a ∈ results w -> K a.
Proof.
  intros Hc Ht Hs Hr.
  assert (Hk : forall p, calls p -> wp doc_rules stays (fun _ => True) p none (fun a _ => K a)) by (intros p Hp; by apply harmless_wp, Hc).
  assert (Hn : forall s1 s2 (n : nat), tick s1 s2 -> stays s1 n -> stays s2 n) by (intros s1 s2 n H1 H2; by apply (Ht s1 s2)).
  split.
  - eapply (invariant_reachable doc_rules stays (fun _ => True) (fun a _ => K a)); [..|exact Hs|exact Hr]; done.
  - intros a Ha. assert (H : exists t : nat, K a); [|by destruct H].
    eapply (post_reachable doc_rules stays (fun _ => True) (fun a _ => K a)); [..|exact Hs|exact Hr|exact Ha]; done.
Qed.

(** Calls of which each earns a permit per id it returns. *)
Lemma taken_reachable (id : string) (calls : Prog (DocReq V) (DocReply V) L RegUpdate (list string) -> Prop) fresh_local tick s w :
  (forall p, calls p -> wp doc_rules taken_once (fun _ => True) p none (fun ids t => (times_in id ids <= t)%nat)) ->
  (forall s s', tick s s' -> expiring s s') ->
  reachable doc_rules calls fresh_local tick s w ->
  (length (List.filter (String.eqb id) (concat (results w))) <= 1)%nat.
Proof.
  intros Hc Ht Hr. set (count := fun ids => length (List.filter (String.eqb id) ids)).
  assert (H : taken_once (w_server w) (permits (map count (results w)))).
  { eapply (results_reachable doc_rules taken_once (fun _ => True) (fun ids t => (count ids <= t)%nat)); [|exact Hc|done| | | |exact Hr].
    - unfold taken_once. cbn. intros. lia.
    - intros s1 s2 n H1 H2. eapply expiring_taken; [by apply Ht|done].
    - intros ids t Hle. exists (t - count ids)%nat. cbn. unfold count in *. lia.
    - unfold taken_once, present. cbn. destruct (docs s !! k0); lia. }
  enough (E : length (List.filter (String.eqb id) (concat (results w))) = permits (map count (results w))) by (unfold taken_once in H; lia).
  clear. induction (results w) as [|ids l IH]; [done|]. cbn [concat map permits fold_right]. rewrite List.filter_app, length_app, IH. done.
Qed.

End Invariants.
