(* ===== verification/Dynamo.v ===== *)
(** * The registry store on DynamoDB

    Models [brokers/aws-sqs-sns/registrystore.go]: workers, timers and the last
    events of instances as items of one table ([Documents]), with the condition
    and update expressions of the code as syntax, and the rounds of the sweeper
    and of a watcher.  Numbers are attribute values ([strconv] there and back).
    Connecting and creating the table are calls of the client library.  Then its
    theorems. *)

From S2P Require Import Prelude Decimal GoTime GoText Values Schema Messages Wire Programs Documents.
#[global] Open Scope Z_scope.

(** ** Items and expressions *)

Inductive AttributeValue : Type :=
| AvS (v : string)
| AvN (n : Z)
| AvB (b : bytes)
| AvBool (b : bool)
| AvL (l : list AttributeValue).

Abbreviation Item := (gmap string AttributeValue).

Definition workerKeyPrefix : string := "worker#".
Definition timerKeyPrefix : string := "timer#".
Definition instKeyPrefix : string := "inst#".

Definition dynAttrPK : string := "pk".
Definition dynAttrWorkerID : string := "workerId".
Definition dynAttrDeadline : string := "deadline".
Definition dynAttrBeat : string := "beat".
Definition dynAttrRegs : string := "regs".
Definition dynAttrExpiresAt : string := "expiresAt".
Definition dynAttrFireAt : string := "fireAt".
Definition dynAttrNamespace : string := "ns".
Definition dynAttrProcessID : string := "proc".
Definition dynAttrVersion : string := "ver".
Definition dynAttrCorr : string := "corr".
Definition dynAttrSeq : string := "seq".
Definition dynAttrLatest : string := "latest".
Definition dynAttrTerminal : string := "terminal".
Definition dynAttrFinished : string := "finished".

(** [itemS], [itemN], [itemB] *)
Definition itemS (item : Item) (name : string) : string := match item !! name with Some (AvS v) => v | _ => EmptyString end.
Definition itemN (item : Item) (name : string) : Z := match item !! name with Some (AvN n) => n | _ => 0 end.
Definition itemB (item : Item) (name : string) : bytes := match item !! name with Some (AvB b) => b | _ => [] end.

(** Condition expressions; a comparison with an attribute that is missing fails. *)
Inductive Cond : Type :=
| attribute_exists (a : string)
| AttrGt (a : string) (n : Z)
| AttrEq (a : string) (n : Z)
| AttrLe (a : string) (n : Z)
| And (c d : Cond).

Fixpoint holds (c : Cond) (item : Item) : bool :=
  match c with
  | attribute_exists a => match item !! a with Some _ => true | None => false end
  | AttrGt a n => match item !! a with Some (AvN m) => n <? m | _ => false end
  | AttrEq a n => match item !! a with Some (AvN m) => m =? n | _ => false end
  | AttrLe a n => match item !! a with Some (AvN m) => m <=? n | _ => false end
  | And c d => holds c item && holds d item
  end.
Definition condition (c : Cond) (d : option (Doc Item)) : bool := holds c (match d with Some d => d_body d | None => ∅ end).

(** Update expressions: [SET] and [ADD] clauses. *)
Inductive Action : Type :=
| SetAttr (a : string) (v : AttributeValue)
| AddAttr (a : string) (n : Z).

Definition act (item : Item) (x : Action) : Item :=
  match x with
  | SetAttr a v => <[a := v]> item
  | AddAttr a n => <[a := AvN (itemN item a + n)]> item
  end.
(** An update creates the item with its key. *)
Definition apply_update (pk : string) (xs : list Action) (v : option Item) : Item :=
  fold_left act xs (default {[dynAttrPK := AvS pk]} v).

Abbreviation watchKey := (string * ProcessKey)%type.
Abbreviation LiveView := (gmap watchKey ProcessRegistration).
Abbreviation Deadlines := (gmap string Time).

Section Store.
Context `{!Cbor Envelope, !Cbor ProcessRegistration}.
(** [time.Local] *)
Variable loc : Location.

Record DynamoRegistryStoreConfig : Type := mkStoreConfig {
  TableName : string;
  Cipher : option PayloadCipher;
  PollInterval : Z;
  SweepInterval : Z
}.
Variable cfg : DynamoRegistryStoreConfig.

Definition hour : Z := 3600 * 10 ^ 9.
Definition nativeTTLSlack : Z := 24 * hour.

(** The local state is [closed]; a watcher hands updates over. *)
Abbreviation P A := (Prog (DocReq Item) (DocReply Item) bool RegUpdate A).
Abbreviation M A := (Prog (DocReq Item) (DocReply Item) bool RegUpdate (result A)).

Definition item_key (pk : string) : string * string := (TableName cfg, pk).

Definition PutItem (pk : string) (item : Item) : DocReq Item := Write (item_key pk) (<[dynAttrPK := AvS pk]> item).
Definition UpdateItem (pk : string) (cond : option Cond) (xs : list Action) : DocReq Item :=
  Change (item_key pk) (match cond with Some c => condition c | None => always_write end) (apply_update pk xs).
Definition DeleteItem (pk : string) (cond : option Cond) : DocReq Item :=
  Remove (item_key pk) (match cond with Some c => condition c | None => always_write end).
Definition Scan (prefix : string) (cond : option Cond) : DocReq Item :=
  Listing (TableName cfg) (fun k item => HasPrefix k prefix && match cond with Some c => holds c item | None => true end).

(** [Close]: [true] when this call stopped the sweeper. *)
Definition Close : P bool := Local (fun _ => true) (fun closed => Ret (negb closed)).

(** ** Workers *)

(** The loop of [PutRegistrations] *)
Fixpoint encodeRegs (regs : list ProcessRegistration) : M (list AttributeValue) :=
  match regs with
  | [] => ret []
  | r :: regs' =>
      let~ rand := Random Ret in
      match EncodeEnvelope KindRegistration "" None r (Cipher cfg) rand with
      | Err e => fail e
      | Ok data => let? l := encodeRegs regs' in ret (AvB data :: l)
      end
  end.

(** [deadline.Add(nativeTTLSlack).Unix()] *)
Definition expiry (t : Time) : Z := t_unix (TimeAdd t nativeTTLSlack).

Definition PutRegistrations (workerID : string) (regs : list ProcessRegistration) (ttl : Z) : M unit :=
  let~ now := Clock Ret in
  let? l := encodeRegs regs in
  let deadline := TimeAdd now ttl in
  let? _ := wrapped ("awssqssns: put registrations for " +:+ workerID) (request (PutItem (workerKeyPrefix +:+ workerID)
              (<[dynAttrWorkerID := AvS workerID]> (<[dynAttrDeadline := AvN (UnixMilli deadline)]>
              (<[dynAttrBeat := AvN (UnixMilli now)]> (<[dynAttrRegs := AvL l]>
              {[dynAttrExpiresAt := AvN (expiry deadline)]})))))) in
  ret tt.

Definition live_cond (now : Time) : Cond := And (attribute_exists dynAttrPK) (AttrGt dynAttrDeadline (UnixMilli now)).

Definition Touch (workerID : string) (ttl : Z) : M unit :=
  let~ now := Clock Ret in
  let deadline := TimeAdd now ttl in
  let? r := wrapped ("awssqssns: touch " +:+ workerID) (request (UpdateItem (workerKeyPrefix +:+ workerID) (Some (live_cond now))
              [SetAttr dynAttrDeadline (AvN (UnixMilli deadline)); SetAttr dynAttrBeat (AvN (UnixMilli now));
               SetAttr dynAttrExpiresAt (AvN (expiry deadline))])) in
  match r with Refused _ => fail ErrUnknownWorker | _ => ret tt end.

Definition Delete (workerID : string) : M unit :=
  let~ now := Clock Ret in
  let? r := wrapped ("awssqssns: delete " +:+ workerID) (request (DeleteItem (workerKeyPrefix +:+ workerID) (Some (live_cond now)))) in
  match r with Refused _ => fail ErrUnknownWorker | _ => ret tt end.

Record workerItem : Type := mkWorkerItem {
  wi_workerID : string;
  wi_deadline : Time;
  wi_beat : Time;
  wi_regs : list ProcessRegistration
}.

(** [parseWorkerItem] *)
Fixpoint parseRegs (workerID : string) (beat : Time) (l : list AttributeValue) : result (list ProcessRegistration) :=
  match l with
  | [] => Ok []
  | AvB b :: l' =>
      let! env := wrap_err ("awssqssns: decode registration for " +:+ workerID) (DecodeEnvelope b (Cipher cfg)) in
      let! reg := DecodePayload env in
      let! rest := parseRegs workerID beat l' in
      Ok (set_LastHeartbeat beat reg :: rest)
  | _ :: l' => parseRegs workerID beat l'
  end.
Definition parseWorkerItem (item : Item) : result workerItem :=
  let workerID := itemS item dynAttrWorkerID in
  let beat := of_milli loc (itemN item dynAttrBeat) in
  let! regs := parseRegs workerID beat (match item !! dynAttrRegs with Some (AvL l) => l | _ => [] end) in
  Ok (mkWorkerItem workerID (of_milli loc (itemN item dynAttrDeadline)) beat regs).

Fixpoint parseAll (items : list (string * Doc Item)) : result (list workerItem) :=
  match items with
  | [] => Ok []
  | p :: items' => let! it := parseWorkerItem (d_body (snd p)) in let! rest := parseAll items' in Ok (it :: rest)
  end.

Definition scanWorkers : M (list workerItem) :=
  let? r := wrapped "awssqssns: scan workers" (request (Scan workerKeyPrefix None)) in
  Ret (parseAll (match r with Listed l => l | _ => [] end)).

Definition live (now : Time) (it : workerItem) : bool := TimeAfter (wi_deadline it) now.

Definition Snapshot : M (list ProcessRegistration) :=
  let? items := scanWorkers in
  let~ now := Clock Ret in
  ret (concat (map wi_regs (List.filter (live now) items))).

(** A round of [sweep]. *)
Fixpoint sweepAll (now : Time) (items : list workerItem) : P unit :=
  match items with
  | [] => Ret tt
  | it :: items' =>
      let~ _ := (if live now it then Ret tt
                 else let~ _ := request (DeleteItem (workerKeyPrefix +:+ wi_workerID it)
                                  (Some (AttrEq dynAttrDeadline (UnixMilli (wi_deadline it))))) in Ret tt) in
      sweepAll now items'
  end.
Definition sweepRound : P unit :=
  let~ items := scanWorkers in
  match items with
  | Err _ => Ret tt
  | Ok items => let~ now := Clock Ret in sweepAll now items
  end.

(** ** Watching *)

(** [liveView] *)
Definition liveView (items : list workerItem) (now : Time) : LiveView * Deadlines :=
  fold_left (fun acc it =>
    let '(view, deadlines) := acc in
    let deadlines := <[wi_workerID it := wi_deadline it]> deadlines in
    if live now it
    then (fold_left (fun v r => <[(wi_workerID it, ProcessRegistration_Key r) := r]> v) (wi_regs it) view, deadlines)
    else (view, deadlines)) items (∅, ∅).

Definition snapshot_updates (prev : list (watchKey * ProcessRegistration)) : list RegUpdate :=
  map (fun p => mkRegUpdate RegistryUpdateSnapshot (Some (snd p))) prev ++ [mkRegUpdate RegistryUpdateSnapshotComplete None].

(** The start of [watch]: the view it goes on with. *)
Definition watchStart : P (option (LiveView * Deadlines)) :=
  let~ items := scanWorkers in
  match items with
  | Err _ => Ret None
  | Ok items =>
      let~ now := Clock Ret in
      let prev := liveView items now in
      let~ ps := in_some_order (map_to_list (fst prev)) in
      let~ ok := sendAll (snapshot_updates ps) in
      Ret (if (ok : bool) then Some prev else None)
  end.

(** The updates of a poll; [ns] and [os] are the entries of both views in the
    orders in which they are ranged over. *)
Definition added (prev : LiveView) (ns : list (watchKey * ProcessRegistration)) : list RegUpdate :=
  omap (fun p => match prev !! fst p with
                 | Some _ => None
                 | None => Some (mkRegUpdate RegistryUpdateAdded (Some (snd p)))
                 end) ns.
Definition gone (now : Time) (cur : LiveView) (prevDeadlines curDeadlines : Deadlines)
    (os : list (watchKey * ProcessRegistration)) : list RegUpdate :=
  omap (fun p => match cur !! fst p with
                 | Some _ => None
                 | None =>
                     let deadline := match curDeadlines !! fst (fst p) with
                                     | Some d => d
                                     | None => default zeroTime (prevDeadlines !! fst (fst p))
                                     end in
                     Some (mkRegUpdate (if TimeAfter deadline now then RegistryUpdateRemoved else RegistryUpdateHeartbeatLost) (Some (snd p)))
                 end) os.

(** A round of [watch]: the view it goes on with, [None] when the watch is over. *)
Definition watchRound (prev : LiveView * Deadlines) : P (option (LiveView * Deadlines)) :=
  let~ items := scanWorkers in
  match items with
  | Err _ => Ret (Some prev)
  | Ok items =>
      let~ now := Clock Ret in
      let cur := liveView items now in
      let~ ns := in_some_order (map_to_list (fst cur)) in
      let~ ok := sendAll (added (fst prev) ns) in
      if (ok : bool) then
        let~ os := in_some_order (map_to_list (fst prev)) in
        let~ ok := sendAll (gone now (fst cur) (snd prev) (snd cur) os) in
        Ret (if (ok : bool) then Some cur else None)
      else Ret None
  end.

(** [Watch] *)
Definition Watch : M unit := let~ closed := reading (fun b => b) in if (closed : bool) then fail ErrBrokerClosed else ret tt.

(** ** Timers *)

Definition PutTimer (instanceID : string) (fireAt : Time) : M unit :=
  let? _ := wrapped ("awssqssns: put timer for " +:+ instanceID) (request (PutItem (timerKeyPrefix +:+ instanceID)
              (<[dynAttrFireAt := AvN (UnixMilli fireAt)]> {[dynAttrExpiresAt := AvN (expiry fireAt)]}))) in
  ret tt.

(** [DueTimers]: the ids that were claimed, also when an error ended the claiming. *)
Record candidate : Type := mkCandidate { cd_instanceID : string; cd_fireAt : Z }.
Definition candidate_of (p : string * Doc Item) : candidate :=
  mkCandidate (String.substring (String.length timerKeyPrefix) (String.length (itemS (d_body (snd p)) dynAttrPK) - String.length timerKeyPrefix)
    (itemS (d_body (snd p)) dynAttrPK)) (itemN (d_body (snd p)) dynAttrFireAt).

Definition claim (c : candidate) : DocReq Item :=
  DeleteItem (timerKeyPrefix +:+ cd_instanceID c) (Some (And (attribute_exists dynAttrPK) (AttrEq dynAttrFireAt (cd_fireAt c)))).
Definition claimAll (cs : list candidate) : P (list string * option GoError) :=
  claim_each cd_instanceID claim (fun _ => None) (fun c => WrapError ("awssqssns: claim timer for " +:+ cd_instanceID c)) cs [].

Definition DueTimers (now : Time) : P (list string * option GoError) :=
  let~ r := wrapped "awssqssns: scan timers" (request (Scan timerKeyPrefix (Some (AttrLe dynAttrFireAt (UnixMilli now))))) in
  match r with
  | Err e => Ret ([], Some e)
  | Ok r => claimAll (map candidate_of (match r with Listed l => l | _ => [] end))
  end.

Definition DeleteTimer (instanceID : string) : M unit :=
  let? _ := wrapped ("awssqssns: delete timer for " +:+ instanceID) (request (DeleteItem (timerKeyPrefix +:+ instanceID) None)) in ret tt.

(** ** Last events of instances *)

Record LastEventRecord : Type := mkLastEventRecord {
  le_InstanceID : string;
  le_Key : ProcessKey;
  le_CorrelationKey : option string;
  le_Seq : Z;
  le_LatestLifecycle : bytes;
  le_Terminal : bytes;
  le_Finished : bool
}.

Definition InitInstance (instanceID : string) (key : ProcessKey) (correlationKey : option string) (retention : Z) : M unit :=
  let~ now := Clock Ret in
  let? _ := wrapped ("awssqssns: init instance " +:+ instanceID) (request (UpdateItem (instKeyPrefix +:+ instanceID) None
              ([SetAttr dynAttrNamespace (AvS (pk_Namespace key)); SetAttr dynAttrProcessID (AvS (pk_ProcessID key));
                SetAttr dynAttrVersion (AvS (pk_Version key)); SetAttr dynAttrExpiresAt (AvN (t_unix (TimeAdd now retention)))] ++
               match correlationKey with Some c => [SetAttr dynAttrCorr (AvS c)] | None => [] end))) in
  ret tt.

Definition UpdateLastEvent (instanceID : string) (latest terminal : option bytes) (finish : bool) (retention : Z) : M Z :=
  let~ now := Clock Ret in
  let? r := wrapped ("awssqssns: update last event for " +:+ instanceID) (request (UpdateItem (instKeyPrefix +:+ instanceID) None
              ([SetAttr dynAttrExpiresAt (AvN (t_unix (TimeAdd now retention)))] ++
               match latest with Some d => [SetAttr dynAttrLatest (AvB d)] | None => [] end ++
               match terminal with Some d => [SetAttr dynAttrTerminal (AvB d)] | None => [] end ++
               (if finish then [SetAttr dynAttrFinished (AvBool true)] else []) ++ [AddAttr dynAttrSeq 1]))) in
  ret (match r with Done (Some item) => itemN item dynAttrSeq | _ => 0 end).

Definition record_of (instanceID : string) (item : Item) : LastEventRecord :=
  mkLastEventRecord instanceID
    (mkProcessKey (itemS item dynAttrNamespace) (itemS item dynAttrProcessID) (itemS item dynAttrVersion))
    (match item !! dynAttrCorr with Some (AvS c) => Some c | _ => None end)
    (itemN item dynAttrSeq) (itemB item dynAttrLatest) (itemB item dynAttrTerminal)
    (match item !! dynAttrFinished with Some (AvBool f) => f | _ => false end).

Definition GetLastEvent (instanceID : string) : M (option LastEventRecord) :=
  let? r := wrapped ("awssqssns: get last event for " +:+ instanceID) (request (Read (item_key (instKeyPrefix +:+ instanceID)))) in
  ret (match r with Found (Some d) => Some (record_of instanceID (d_body d)) | _ => None end).

End Store.

(** ** The feed of a watcher *)

Definition stamped (items : list workerItem) : Prop :=
  Forall (fun it => Forall (fun r => pr_WorkerID r = wi_workerID it) (wi_regs it)) items.

Definition named (view : LiveView) : Prop := forall k r, view !! k = Some r -> reg_id r = k.

Lemma liveView_named items now : stamped items -> named (fst (liveView items now)).
Proof.
  unfold liveView. intros H.
  enough (Hg : forall acc, named (fst acc) -> named (fst (fold_left (fun acc it => let '(view, deadlines) := acc in
    let deadlines := <[wi_workerID it := wi_deadline it]> deadlines in
    if live now it then (fold_left (fun v r => <[(wi_workerID it, ProcessRegistration_Key r) := r]> v) (wi_regs it) view, deadlines)
    else (view, deadlines)) items acc))) by (apply (Hg (∅, ∅)); by intros k r).
  induction H as [|it items Hit _ IH]; intros [view dl] Hacc; [done|]. cbn [fold_left]. apply IH. destruct (live now it); [|exact Hacc].
  cbn [fst] in *. revert view Hacc. induction Hit as [|r rs Hr _ IHr]; intros view Hacc; [done|]. cbn [fold_left]. apply IHr.
  intros k r' Hk. destruct (decide (k = (wi_workerID it, ProcessRegistration_Key r))) as [->|Hne].
  - rewrite lookup_insert_eq in Hk. injection Hk as <-. unfold reg_id. by rewrite Hr.
  - rewrite lookup_insert_ne in Hk by done. by apply Hacc.
Qed.

Lemma added_spec prev cur ns x : named cur -> ns ≡ₚ map_to_list cur ->
  (exists u, u ∈ added prev ns /\ adds u x) <-> x ∈ dom cur /\ x ∉ dom prev.
Proof.
  intros Hn Hp. rewrite elem_of_dom, not_elem_of_dom. split.
  - intros (u & ([k r] & Hin & E)%list_elem_of_omap & _ & r' & Hr & Hx). cbn in E. destruct (prev !! k) eqn:Ek; [done|].
    injection E as <-. cbn in Hr. injection Hr as <-. rewrite Hp in Hin. apply elem_of_map_to_list in Hin.
    rewrite (Hn _ _ Hin) in Hx. subst. eauto.
  - intros [[r Hr] Hx]. exists (mkRegUpdate RegistryUpdateAdded (Some r)). split.
    + apply list_elem_of_omap. exists (x, r). split; [rewrite Hp; by apply elem_of_map_to_list|]. cbn. by rewrite Hx.
    + split; [by right|]. exists r. split; [done|]. by apply Hn.
Qed.

Lemma gone_spec now cur prev pd cd os x : named prev -> os ≡ₚ map_to_list prev ->
  (exists u, u ∈ gone now cur pd cd os /\ removes u x) <-> x ∈ dom prev /\ x ∉ dom cur.
Proof.
  intros Hn Hp. rewrite elem_of_dom, not_elem_of_dom. split.
  - intros (u & ([k r] & Hin & E)%list_elem_of_omap & _ & r' & Hr & Hx). cbn in E. destruct (cur !! k) eqn:Ek; [done|].
    injection E as <-. cbn in Hr. injection Hr as <-. rewrite Hp in Hin. apply elem_of_map_to_list in Hin.
    rewrite (Hn _ _ Hin) in Hx. subst. eauto.
  - intros [[r Hr] Hx]. eexists. split.
    + apply list_elem_of_omap. exists (x, r). split; [rewrite Hp; by apply elem_of_map_to_list|]. cbn. rewrite Hx. reflexivity.
    + split; [cbn; destruct (TimeAfter _ _); auto|]. exists r. split; [done|]. by apply Hn.
Qed.

Lemma added_adds prev ns u x : u ∈ added prev ns -> ~ removes u x.
Proof.
  intros ([k r] & _ & E)%list_elem_of_omap [[H|H] _]; cbn in E; destruct (prev !! k); try done; injection E as <-; done.
Qed.

Lemma gone_removes now cur pd cd os u x : u ∈ gone now cur pd cd os -> ~ adds u x.
Proof.
  intros ([k r] & _ & E)%list_elem_of_omap [[H|H] _]; cbn in E; destruct (cur !! k); try done; injection E as <-; cbn in H;
    destruct (TimeAfter _ _); done.
Qed.

(** The updates of a watcher from its start to a poll, and the view of that poll. *)
Inductive feed : LiveView * Deadlines -> list RegUpdate -> Prop :=
| feed_start items now ps :
    stamped items -> ps ≡ₚ map_to_list (fst (liveView items now)) -> feed (liveView items now) (snapshot_updates ps)
| feed_round prev us items now ns os :
    feed prev us -> stamped items -> let cur := liveView items now in
    ns ≡ₚ map_to_list (fst cur) -> os ≡ₚ map_to_list (fst prev) ->
    feed cur (us ++ added (fst prev) ns ++ gone now (fst cur) (snd prev) (snd cur) os).

Lemma feed_named v us : feed v us -> named (fst v).
Proof. intros []; by apply liveView_named. Qed.

(** A watcher that applies the updates it is sent knows, after every poll, which
    worker offers which process: those whose items were live at that poll. *)
Theorem dynamo_watch_tracks v us : feed v us -> observed us ∅ = dom (fst v).
Proof.
  induction 1 as [items now ps Hs Hp|prev us items now ns os Hf IH Hs cur Hn Ho].
  - pose proof (liveView_named items now Hs) as Hn. apply set_eq. intros x. unfold snapshot_updates.
    rewrite observed_app. cbn [observed fold_left observe ru_reg].
    rewrite observed_spec by (intros u u' Hu Hu' _ [[H|H] _]; apply list_elem_of_fmap in Hu' as (p & -> & _); done).
    rewrite elem_of_dom. split.
    + intros [(u & Hu & _ & r & Hr & Hx)|[Hx _]]; [|by apply elem_of_empty in Hx].
      apply list_elem_of_fmap in Hu as ([k r'] & -> & Hin). cbn in Hr. injection Hr as ->. rewrite Hp in Hin.
      apply elem_of_map_to_list in Hin. rewrite (Hn _ _ Hin) in Hx. subst. eauto.
    + intros [r Hr]. left. exists (mkRegUpdate RegistryUpdateSnapshot (Some r)). split.
      * apply list_elem_of_fmap. exists (x, r). split; [done|]. rewrite Hp. by apply elem_of_map_to_list.
      * split; [by left|]. exists r. split; [done|]. by apply Hn.
  - pose proof (feed_named _ _ Hf) as Hprev. pose proof (liveView_named items now Hs) as Hcur. fold cur in Hcur.
    rewrite observed_app, IH. apply set_eq. intros x.
    pose proof (added_spec (fst prev) (fst cur) ns x Hcur Hn) as Ha.
    pose proof (gone_spec now (fst cur) (fst prev) (snd prev) (snd cur) os x Hprev Ho) as Hg.
    assert (Hor : forall P : RegUpdate -> Prop, (exists u, u ∈ added (fst prev) ns ++ gone now (fst cur) (snd prev) (snd cur) os /\ P u) <->
      (exists u, u ∈ added (fst prev) ns /\ P u) \/ (exists u, u ∈ gone now (fst cur) (snd prev) (snd cur) os /\ P u)).
    { intros P. setoid_rewrite elem_of_app. naive_solver. }
    rewrite observed_spec.
    + rewrite Hor, Ha. assert (H1 : ~ exists u, u ∈ gone now (fst cur) (snd prev) (snd cur) os /\ adds u x) by (intros (u & Hu & Hx); by eapply gone_removes).
      assert (H2 : (forall u, u ∈ added (fst prev) ns ++ gone now (fst cur) (snd prev) (snd cur) os -> ~ removes u x) <->
        ~ (x ∈ dom (fst prev) /\ x ∉ dom (fst cur))).
      { rewrite <- Hg. setoid_rewrite elem_of_app. split; [naive_solver|]. intros Hno u [Hu|Hu] Hr; [by eapply added_adds|naive_solver]. }
      rewrite H2. destruct (decide (x ∈ dom (fst prev))), (decide (x ∈ dom (fst cur))); naive_solver.
    + intros u u' Hu Hu' Hx Hx'. apply elem_of_app in Hu as [Hu|Hu]; [|by eapply gone_removes].
      apply elem_of_app in Hu' as [Hu'|Hu']; [by eapply added_adds|].
      assert (H1 : x ∈ dom (fst cur) /\ x ∉ dom (fst prev)) by (apply Ha; eauto).
      assert (H2 : x ∈ dom (fst prev) /\ x ∉ dom (fst cur)) by (apply Hg; eauto). naive_solver.
Qed.

(** What a round hands over, when the channel takes it. *)
Abbreviation Service := (DocReq Item -> Table Item -> Table Item * DocReply Item).

Section Laws.
Context `{!Cbor Envelope, !Cbor ProcessRegistration}.
Variable loc : Location.
Variable cfg : DynamoRegistryStoreConfig.

Lemma dynamo_watchRound_sends (serve : Service) env prev items fs fs' s s' l : en_taken env = true ->
  exec serve env (scanWorkers loc cfg) fs s l = (Ok items, fs', s', l, []) ->
  let cur := liveView items (en_now env) in
  exec serve env (watchRound loc cfg prev) fs s l =
    (Some cur, fs', s', l, added (fst prev) (map_to_list (fst cur)) ++ gone (en_now env) (fst cur) (snd prev) (snd cur) (map_to_list (fst prev))).
Proof.
  intros Ht Hs cur. unfold watchRound. rewrite exec_bind, Hs. cbn [exec bind]. rewrite exec_bind, exec_in_order, exec_bind, sendAll_exec by done.
  rewrite exec_bind, exec_in_order, exec_bind, sendAll_exec by done. cbn [exec]. by rewrite !app_nil_r.
Qed.

(** ** What is stored is read *)

Section Stored.
Context {HE : CborLaws Envelope} {HR : CborLaws ProcessRegistration}.
Variable env : Env.
Hypothesis random_fills : fills (en_rand env).
Hypothesis cipher_ok : forall c, Cipher cfg = Some c -> CipherLaws c.

Lemma dynamo_encodeRegs_read (serve : Service) regs s b w beat :
  let '(r, fs, s', b', us) := exec serve env (encodeRegs cfg regs) [] s b in
  fs = [] /\ s' = s /\ b' = b /\ us = [] /\
  forall l, r = Ok l -> parseRegs cfg w beat l = Ok (map (set_LastHeartbeat beat) regs).
Proof.
  induction regs as [|r regs IH]; cbn [encodeRegs exec bind ret]; [by split_and!; try intros l [= <-]|].
  destruct (EncodeEnvelope _ _ _ _ _ _) as [data|e] eqn:Ee; [|by split_and!].
  unfold bind_ok. rewrite exec_bind. destruct (exec serve env (encodeRegs cfg regs) [] s b) as [[[[r' fs] s'] b'] us].
  destruct IH as (-> & -> & -> & -> & IH). destruct r' as [l|e]; cbn [exec ret fail]; [|by split_and!].
  split_and!; try done. intros l' [= <-]. cbn [parseRegs map].
  destruct (DecodeEnvelope_encoded _ _ _ _ _ _ _ cipher_ok random_fills Ee) as (payload & Hp & ->).
  unfold DecodePayload. cbn [wrap_err result_bind env_Payload]. rewrite Hp. cbn [wrap_err result_bind]. rewrite (IH l eq_refl). done.
Qed.

(** What a worker registers, encrypted or not, is what the store reads back: the
    registrations in their order, with the heartbeat and the deadline to the millisecond. *)
Theorem dynamo_registrations_roundtrip w regs ttl s b fs' s' b' us :
  exec doc_do env (PutRegistrations cfg w regs ttl) [] s b = (Ok tt, fs', s', b', us) ->
  let beat := of_milli loc (UnixMilli (en_now env)) in
  exists d, docs s' !! item_key cfg (workerKeyPrefix +:+ w) = Some d /\
    parseWorkerItem loc cfg (d_body d) =
      Ok (mkWorkerItem w (of_milli loc (UnixMilli (TimeAdd (en_now env) ttl))) beat (map (set_LastHeartbeat beat) regs)).
Proof.
  intros H beat. revert H. unfold PutRegistrations, bind_ok. cbn [bind exec]. rewrite exec_bind.
  pose proof (dynamo_encodeRegs_read doc_do regs s b w beat) as He.
  destruct (exec doc_do env (encodeRegs cfg regs) [] s b) as [[[[r fs] s1] b1] us1]. destruct He as (-> & -> & -> & -> & He).
  destruct r as [l|e]; cbn [exec bind ret fail wrapped request PutItem Write doc_do always_write]; [|done].
  intros [= <- <- <- <-]. eexists. split; [apply lookup_insert_eq|]. cbn [d_body]. unfold parseWorkerItem, itemS, itemN.
  repeat first [rewrite lookup_insert_eq | rewrite lookup_insert_ne by done]. fold beat. by rewrite (He l eq_refl).
Qed.

End Stored.

(** ** Timers *)

(** The calls of the processes that share a table, other than putting the timer of
    one instance, with the ids that were claimed. *)
Inductive timer_calls (id : string) : Prog (DocReq Item) (DocReply Item) bool RegUpdate (list string) -> Prop :=
| tc_DueTimers now : timer_calls id (let~ r := DueTimers cfg now in Ret (fst r))
| tc_PutTimer i t : i <> id -> timer_calls id (quietly [] (PutTimer cfg i t))
| tc_DeleteTimer i : timer_calls id (quietly [] (DeleteTimer cfg i))
| tc_PutRegistrations w regs ttl : timer_calls id (quietly [] (PutRegistrations cfg w regs ttl))
| tc_Touch w ttl : timer_calls id (quietly [] (Touch cfg w ttl))
| tc_Delete w : timer_calls id (quietly [] (Delete cfg w))
| tc_Snapshot : timer_calls id (quietly [] (Snapshot loc cfg))
| tc_sweepRound : timer_calls id (quietly [] (sweepRound loc cfg))
| tc_watchStart : timer_calls id (quietly [] (watchStart loc cfg))
| tc_watchRound prev : timer_calls id (quietly [] (watchRound loc cfg prev))
| tc_InitInstance i k c r : timer_calls id (quietly [] (InitInstance cfg i k c r))
| tc_UpdateLastEvent i a b f r : timer_calls id (quietly [] (UpdateLastEvent cfg i a b f r))
| tc_GetLastEvent i : timer_calls id (quietly [] (GetLastEvent cfg i))
| tc_Close : timer_calls id (quietly [] Close).

Lemma item_key_inj a b : item_key cfg a = item_key cfg b -> a = b.
Proof. unfold item_key. congruence. Qed.

Lemma timer_key_ne i id : i <> id -> item_key cfg (timerKeyPrefix +:+ i) <> item_key cfg (timerKeyPrefix +:+ id).
Proof. intros Hne E%item_key_inj. apply Hne. by apply (inj (String.append timerKeyPrefix)) in E. Qed.

Section Kinds.
Variable rules : Rules (DocReq Item) (DocReply Item) (Table Item).
Variable ok : DocReq Item -> Prop.
Variable rep : DocReq Item -> DocReply Item -> Prop.
Abbreviation only_ p := (only rules ok rep p (fun _ => True)).
(** What the requests of the calls below are; reads and listings are free. *)
Hypothesis ok_read : forall k, ok (Read k).
Hypothesis ok_listing : forall p sel, ok (Listing p sel).

Lemma dynamo_only_encodeRegs regs : only_ (encodeRegs cfg regs).
Proof. induction regs as [|r regs IH]; cbn [encodeRegs]; only_all. Qed.

Lemma only_scan : only_ (scanWorkers loc cfg).
Proof. unfold scanWorkers. only_all. apply only_wrapped_request, ok_listing. Qed.

Lemma dynamo_only_PutRegistrations w regs ttl :
  (forall item, ok (PutItem cfg (workerKeyPrefix +:+ w) item)) -> only_ (PutRegistrations cfg w regs ttl).
Proof. intros H. unfold PutRegistrations. only_all; [apply dynamo_only_encodeRegs|]. by apply only_wrapped_request. Qed.

Lemma dynamo_only_Touch w ttl :
  (forall c xs, ok (UpdateItem cfg (workerKeyPrefix +:+ w) c xs)) -> only_ (Touch cfg w ttl).
Proof. intros H. unfold Touch. only_all. by apply only_wrapped_request. Qed.

Lemma dynamo_only_Delete w : (forall c, ok (DeleteItem cfg (workerKeyPrefix +:+ w) c)) -> only_ (Delete cfg w).
Proof. intros H. unfold Delete. only_all. by apply only_wrapped_request. Qed.

Lemma dynamo_only_Snapshot : only_ (Snapshot loc cfg).
Proof. unfold Snapshot. only_all. apply only_scan. Qed.

(** The deadlines that are read are of milliseconds. *)
Definition in_milli (it : workerItem) : Prop := exists m, wi_deadline it = of_milli loc m.

Lemma parseAll_milli items its : parseAll loc cfg items = Ok its -> Forall in_milli its.
Proof.
  revert its. induction items as [|p items IH]; cbn [parseAll]; intros its; [by intros [= <-]|].
  unfold parseWorkerItem. destruct (parseRegs _ _ _ _) as [regs|e]; [|done]. cbn [result_bind].
  destruct (parseAll _ _ _) as [rest|e]; [|done]. cbn [result_bind]. intros [= <-].
  constructor; [by eexists|by apply IH].
Qed.

Lemma only_scan_milli : only rules ok rep (scanWorkers loc cfg) (fun r => forall its, r = Ok its -> Forall in_milli its).
Proof.
  unfold scanWorkers. apply (only_bind rules (fun _ => True) ok rep _ _ (fun _ => True)); [apply only_wrapped_request, ok_listing|].
  intros [r|e] _; cbn; [|done]. intros its. apply parseAll_milli.
Qed.

(** The sweeper deletes on the condition that the deadline is one that has lapsed. *)
Lemma dynamo_only_sweepRound :
  (forall w m now, clock rules now -> TimeAfter (of_milli loc m) now = false ->
     ok (DeleteItem cfg (workerKeyPrefix +:+ w) (Some (AttrEq dynAttrDeadline m)))) ->
  only_ (sweepRound loc cfg).
Proof.
  intros H. unfold sweepRound. eapply (only_bind rules (fun _ => True) ok rep); [apply only_scan_milli|].
  intros [its|e] Hm; [|done]. specialize (Hm its eq_refl). cbn [bind]. intros now Hnow.
  induction Hm as [|it its [m Hd] _ IH]; cbn [sweepAll]; [done|]. apply only_seq; [|by intros _].
  unfold live. rewrite Hd, UnixMilli_of_milli. destruct (TimeAfter _ _) eqn:Hl; [done|]. only_all. apply only_request. by eapply H.
Qed.

Lemma only_watchStart : only_ (watchStart loc cfg).
Proof. unfold watchStart. only_all; [apply only_scan|apply only_sendAll]. Qed.

Lemma dynamo_only_watchRound prev : only_ (watchRound loc cfg prev).
Proof. unfold watchRound. only_all; [apply only_scan|apply only_sendAll..]. Qed.

Lemma dynamo_only_PutTimer i t : (forall item, ok (PutItem cfg (timerKeyPrefix +:+ i) item)) -> only_ (PutTimer cfg i t).
Proof. intros H. unfold PutTimer. only_all. by apply only_wrapped_request. Qed.

Lemma dynamo_only_DeleteTimer i : (forall c, ok (DeleteItem cfg (timerKeyPrefix +:+ i) c)) -> only_ (DeleteTimer cfg i).
Proof. intros H. unfold DeleteTimer. only_all. by apply only_wrapped_request. Qed.

Lemma dynamo_only_DueTimers now : (forall i c, ok (DeleteItem cfg (timerKeyPrefix +:+ i) c)) -> only_ (DueTimers cfg now).
Proof. intros H. unfold DueTimers. only_all; [apply only_wrapped_request, ok_listing|apply only_claim_each; intros c Hc; apply H]. Qed.

Lemma only_InitInstance i k c r :
  (forall c xs, ok (UpdateItem cfg (instKeyPrefix +:+ i) c xs)) -> only_ (InitInstance cfg i k c r).
Proof. intros H. unfold InitInstance. only_all. by apply only_wrapped_request. Qed.

Lemma only_UpdateLastEvent i a b f r :
  (forall c xs, ok (UpdateItem cfg (instKeyPrefix +:+ i) c xs)) -> only_ (UpdateLastEvent cfg i a b f r).
Proof. intros H. unfold UpdateLastEvent. only_all. by apply only_wrapped_request. Qed.

Lemma only_GetLastEvent i : only_ (GetLastEvent cfg i).
Proof. unfold GetLastEvent. only_all. apply only_wrapped_request, ok_read. Qed.

End Kinds.

(** ** A timer is claimed once *)

Section Claiming.
Variable clk : Time -> Prop.
Variable id : string.
Abbreviation key := (item_key cfg (timerKeyPrefix +:+ id)).
Abbreviation keeps p t Q := (wp (doc_rules clk) (taken_once key) (fun _ => True) p t Q).

Lemma dynamo_DueTimers_keeps now : keeps (let~ r := DueTimers cfg now in Ret (fst r)) none (fun ids t => (times_in id ids <= t)%nat).
Proof.
  apply wp_bind. unfold DueTimers, wrapped, request. cbn [bind]. apply spare_request_wp; [done|].
  intros [r|e]; cbn [bind]; [|cbn; lia]. apply claim_each_wp; [|done|cbn; lia]. intros c <-. by eexists.
Qed.

Lemma dynamo_timer_calls_keep p : timer_calls id p -> keeps p none (fun ids t => (times_in id ids <= t)%nat).
Proof.
  assert (Hw : forall i w, item_key cfg (workerKeyPrefix +:+ i) <> item_key cfg (timerKeyPrefix +:+ w)) by (by intros i w E%item_key_inj).
  assert (Hi : forall i w, item_key cfg (instKeyPrefix +:+ i) <> item_key cfg (timerKeyPrefix +:+ w)) by (by intros i w E%item_key_inj).
  intros [now|i t Hne|i|w regs ttl|w ttl|w| | | |prev|i k c r|i a b f r|i|]; try apply quietly_wp.
  - apply dynamo_DueTimers_keeps.
  - apply dynamo_only_PutTimer. intros item. by apply timer_key_ne.
  - by apply dynamo_only_DeleteTimer.
  - apply dynamo_only_PutRegistrations. intros item. apply Hw.
  - apply dynamo_only_Touch. intros c xs. apply Hw.
  - by apply dynamo_only_Delete.
  - by apply dynamo_only_Snapshot.
  - apply dynamo_only_sweepRound; [done|]. done.
  - by apply only_watchStart.
  - by apply dynamo_only_watchRound.
  - apply only_InitInstance. intros c' xs. apply Hi.
  - apply only_UpdateLastEvent. intros c xs. apply Hi.
  - by apply only_GetLastEvent.
  - unfold Close. only_all.
Qed.

End Claiming.

(** Of all the ids that [DueTimers] returns, to any of the workers that share a
    table, an instance is named at most once per timer: whatever the calls between
    them, and whichever requests, replies and processes are lost. *)
Theorem dynamo_timer_claimed_once clk id fresh_local tick s w :
  (forall s s', tick s s' -> expiring s s') ->
  reachable (doc_rules clk) (timer_calls id) fresh_local tick s w ->
  (length (List.filter (String.eqb id) (concat (results w))) <= 1)%nat.
Proof. intros Ht. apply taken_reachable with (k0 := item_key cfg (timerKeyPrefix +:+ id)); [|done]. apply dynamo_timer_calls_keep. Qed.

(** ** A live worker stays registered *)

(** The calls of the processes that share a table, other than those for one worker,
    with what a snapshot returned. *)
Abbreviation Seen := (option (result (list ProcessRegistration))).
Inductive worker_calls (w : string) : Prog (DocReq Item) (DocReply Item) bool RegUpdate Seen -> Prop :=
| wc_Snapshot : worker_calls w (let~ r := Snapshot loc cfg in Ret (Some r))
| wc_PutRegistrations v regs ttl : v <> w -> worker_calls w (quietly None (PutRegistrations cfg v regs ttl))
| wc_Touch v ttl : v <> w -> worker_calls w (quietly None (Touch cfg v ttl))
| wc_Delete v : v <> w -> worker_calls w (quietly None (Delete cfg v))
| wc_sweepRound : worker_calls w (quietly None (sweepRound loc cfg))
| wc_watchStart : worker_calls w (quietly None (watchStart loc cfg))
| wc_watchRound prev : worker_calls w (quietly None (watchRound loc cfg prev))
| wc_PutTimer i t : worker_calls w (quietly None (PutTimer cfg i t))
| wc_DueTimers now : worker_calls w (quietly None (DueTimers cfg now))
| wc_DeleteTimer i : worker_calls w (quietly None (DeleteTimer cfg i))
| wc_InitInstance i k c r : worker_calls w (quietly None (InitInstance cfg i k c r))
| wc_UpdateLastEvent i a b f r : worker_calls w (quietly None (UpdateLastEvent cfg i a b f r))
| wc_GetLastEvent i : worker_calls w (quietly None (GetLastEvent cfg i))
| wc_Close : worker_calls w (quietly None Close).

Section Serving.
Variable clk : Time -> Prop.
Variable w : string.
Variable d0 : Doc Item.
Variable it0 : workerItem.
Hypothesis parses : parseWorkerItem loc cfg (d_body d0) = Ok it0.
Hypothesis is_live : forall t, clk t -> live t it0 = true.
Abbreviation key := (item_key cfg (workerKeyPrefix +:+ w)).
Abbreviation harmless p K := (only (doc_rules clk) (harmless_to key d0) (shows key d0) p K).

Definition lists_it (a : Seen) : Prop := forall regs, a = Some (Ok regs) -> forall r, r ∈ wi_regs it0 -> r ∈ regs.

Lemma parseAll_in items its row : parseAll loc cfg items = Ok its -> (row, d0) ∈ items -> it0 ∈ its.
Proof.
  revert its. induction items as [|p items IH]; intros its H Hin; [by apply elem_of_nil in Hin|]. cbn [parseAll] in H.
  apply elem_of_cons in Hin as [<-|Hin].
  - cbn [snd] in H. rewrite parses in H. cbn [result_bind] in H. destruct (parseAll _ _ _); [|done]. injection H as <-. apply elem_of_cons. by left.
  - destruct (parseWorkerItem loc cfg (d_body (snd p))); [|done]. cbn [result_bind] in H. destruct (parseAll loc cfg items) as [rest|]; [|done].
    injection H as <-. apply elem_of_cons. right. by apply IH.
Qed.

Lemma dynamo_Snapshot_lists : harmless (let~ r := Snapshot loc cfg in Ret (Some r)) lists_it.
Proof.
  unfold Snapshot, scanWorkers, wrapped, request, bind_ok. cbn [bind ret fail only]. split; [done|]. split; [|done].
  intros r Hr. cbn [bind ret fail only]. destruct r as [| | |l]; [done..|].
  cbn [shows fst snd] in Hr. destruct (Hr eq_refl) as [Hrow _]. specialize (Hrow eq_refl).
  cbn [bind ret fail only]. destruct (parseAll loc cfg l) as [its|e] eqn:Ep; [|by intros regs].
  cbn [bind ret fail only]. intros now Hnow regs [= <-] r Hin. pose proof (parseAll_in _ _ _ Ep Hrow) as Hit.
  apply list_elem_of_In, in_concat. exists (wi_regs it0). split; [|by apply list_elem_of_In].
  apply in_map, filter_In. split; [by apply list_elem_of_In|]. by apply is_live.
Qed.

Lemma dynamo_quietly_harmless {A} (p : Prog (DocReq Item) (DocReply Item) bool RegUpdate A) :
  harmless p (fun _ => True) -> harmless (quietly None p) lists_it.
Proof. intros H. by apply (only_bind _ (fun _ => True) _ _ _ _ (fun _ => True)). Qed.

Lemma swept_spared v m now : clk now -> TimeAfter (of_milli loc m) now = false ->
  harmless_to key d0 (DeleteItem cfg (workerKeyPrefix +:+ v) (Some (AttrEq dynAttrDeadline m))).
Proof.
  intros Hn Hl _. cbn [condition holds]. pose proof (is_live now Hn) as Hlive. unfold live in Hlive.
  revert parses. unfold parseWorkerItem. destruct (parseRegs _ _ _ _); [|done]. cbn [result_bind]. intros [= <-]. cbn [wi_deadline] in Hlive.
  unfold itemN in Hlive. destruct (d_body d0 !! dynAttrDeadline) as [[]|]; try done. apply Z.eqb_neq. intros ->. congruence.
Qed.

Lemma dynamo_worker_calls_harmless p : worker_calls w p -> harmless p lists_it.
Proof.
  assert (Hne : forall v, v <> w -> item_key cfg (workerKeyPrefix +:+ v) <> key).
  { intros v Hv E%item_key_inj. apply Hv. by apply (inj (String.append workerKeyPrefix)) in E. }
  assert (Ht : forall i, item_key cfg (timerKeyPrefix +:+ i) <> key) by (by intros i E%item_key_inj).
  assert (Hi : forall i, item_key cfg (instKeyPrefix +:+ i) <> key) by (by intros i E%item_key_inj).
  intros [|v regs ttl Hv|v ttl Hv|v Hv| | |prev|i t|now|i|i k c r|i a b f r|i|]; [apply dynamo_Snapshot_lists|apply dynamo_quietly_harmless..].
  - apply dynamo_only_PutRegistrations. intros item. by apply Hne.
  - apply dynamo_only_Touch. intros c xs. by apply Hne.
  - apply dynamo_only_Delete. intros c E. by apply Hne in E.
  - apply dynamo_only_sweepRound; [done|]. intros v m now. apply swept_spared.
  - by apply only_watchStart.
  - by apply dynamo_only_watchRound.
  - apply dynamo_only_PutTimer. intros item. apply Ht.
  - apply dynamo_only_DueTimers; [done|]. intros i c E. by apply Ht in E.
  - apply dynamo_only_DeleteTimer. intros c E. by apply Ht in E.
  - apply only_InitInstance. intros c' xs. apply Hi.
  - apply only_UpdateLastEvent. intros c xs. apply Hi.
  - by apply only_GetLastEvent.
  - unfold Close. only_all.
Qed.

End Serving.

(** C34. A worker whose deadline no clock has reached stays registered, whatever the
    other workers, their sweepers and their watchers do, and whichever requests and
    replies are lost: every snapshot that succeeds has its registrations. *)
Theorem dynamo_live_worker_served clk w d0 it0 fresh_local tick s wd :
  let k := item_key cfg (workerKeyPrefix +:+ w) in
  docs s !! k = Some d0 -> parseWorkerItem loc cfg (d_body d0) = Ok it0 -> (forall t, clk t -> live t it0 = true) ->
  (forall s1 s2, tick s1 s2 -> docs s1 !! k = Some d0 -> docs s2 !! k = Some d0) ->
  reachable (doc_rules clk) (worker_calls w) fresh_local tick s wd ->
  docs (w_server wd) !! k = Some d0 /\
  forall regs, Some (Ok regs) ∈ results wd -> forall r, r ∈ wi_regs it0 -> r ∈ regs.
Proof.
  intros k Hs Hp Hl Ht Hr.
  destruct (stays_reachable clk k d0 (lists_it it0) (worker_calls w) fresh_local tick s wd) as [H1 H2]; [|done..|].
  - intros p Hc. by apply dynamo_worker_calls_harmless.
  - split; [done|]. intros regs Ha. by apply (H2 _ Ha).
Qed.

End Laws.

(** ** A concrete table

    One worker that offers process [p], a timer, and the store's calls on them. *)

Definition stored_reg : ProcessRegistration :=
  mkProcessRegistration "ns" "p" "1" None None [mkStartEventInfo "start" "" None] [] true false "" "w1" zeroTime zeroTime.
Definition at_second (n : Z) : Time := mkTime (1700000000 + n) 0 UTC.
Definition dynamo_env (now : Time) : Env := mkEnv now zeroRand "i-1" true.
Definition dynamo_cfg : DynamoRegistryStoreConfig := mkStoreConfig "blkit-registry" None (200 * 10 ^ 6) (10 ^ 9).

(** A call on its own at [now], with faults: its result, the table and what was handed over. *)
Definition dynamo_call {A} (now : Time) (p : Prog (DocReq Item) (DocReply Item) bool RegUpdate A) (faults : list (option bool)) (s : Table Item)
  : A * Table Item * list RegUpdate :=
  let '(a, _, s', _, us) := exec doc_do (dynamo_env now) p faults s false in (a, s', us).
Definition table_after {A} (x : A * Table Item * list RegUpdate) : Table Item := snd (fst x).
Definition answer {A} (x : A * Table Item * list RegUpdate) : A := fst (fst x).

Definition with_worker : Table Item :=
  table_after (dynamo_call (at_second 0) (PutRegistrations dynamo_cfg "w1" [stored_reg] (30 * 10 ^ 9)) [] empty_table).
Definition with_timer : Table Item := table_after (dynamo_call (at_second 0) (PutTimer dynamo_cfg "i-1" (at_second 1)) [] empty_table).
Definition with_timers : Table Item := table_after (dynamo_call (at_second 0) (PutTimer dynamo_cfg "i-2" (at_second 1)) [] with_timer).

(** Any clock, and no expiry by the service. *)
Definition any_clock (_ : Time) : Prop := True.
Definition no_tick (_ _ : Table Item) : Prop := False.
Definition opened (closed : bool) : Prop := closed = false.

Lemma dynamo_timer_claimed_once_witness :
  exists wd : World (DocReq Item) (DocReply Item) (Table Item) bool RegUpdate (list string),
    concat (results wd) = ["i-1"%string] /\ (length (List.filter (String.eqb "i-1") (concat (results wd))) <= 1)%nat.
Proof.
  set (ps := [(let~ r := DueTimers dynamo_cfg (at_second 2) in Ret (fst r)); (let~ r := DueTimers dynamo_cfg (at_second 2) in Ret (fst r))]).
  set (rules := doc_rules (V := Item) any_clock).
  pose proof (first_process rules (timer_calls UTC dynamo_cfg "i-1") opened no_tick with_timer false eq_refl) as H0.
  destruct (checked_calls doc_do (dynamo_env (at_second 2)) rules (fun _ _ => true) (fun q s _ => doc_do_step q s) I _ _ _ _ ps _ _ _ false 0%nat
    H0 (lookup_singleton_eq _ _)) as (ls & ts & Hr & Hts); [repeat constructor|vm_eq|].
  assert (E : results_of (exec_all doc_do (dynamo_env (at_second 2)) ps with_timer false) = [["i-1"%string]; []]) by vm_eq.
  rewrite E in Hts. revert Hr. generalize (server_of (exec_all doc_do (dynamo_env (at_second 2)) ps with_timer false)). intros s' Hr.
  exists (mkWorld s' ls ts). split; [by rewrite Hts|].
  refine (dynamo_timer_claimed_once UTC dynamo_cfg any_clock "i-1" opened no_tick with_timer (mkWorld s' ls ts) _ Hr). intros s1 s2 [].
Defined.

(** The clocks are before the deadline of the worker. *)
Definition before_deadline (t : Time) : Prop := TimeBefore t (at_second 30) = true.
Definition worker_doc : Doc Item := mkDoc 1 (default ∅ (option_map d_body (docs with_worker !! item_key dynamo_cfg "worker#w1"))).
Definition worker_w1 : workerItem := mkWorkerItem "w1" (at_second 30) (at_second 0) [set_LastHeartbeat (at_second 0) stored_reg].

Lemma dynamo_live_worker_served_witness :
  exists wd : World (DocReq Item) (DocReply Item) (Table Item) bool RegUpdate (option (result (list ProcessRegistration))),
    Some (Ok [set_LastHeartbeat (at_second 0) stored_reg]) ∈ results wd /\ docs (w_server wd) !! item_key dynamo_cfg "worker#w1" = Some worker_doc.
Proof.
  set (ps := [quietly None (sweepRound UTC dynamo_cfg); (let~ r := Snapshot UTC dynamo_cfg in Ret (Some r))]).
  set (rules := doc_rules (V := Item) before_deadline).
  pose proof (first_process rules (worker_calls UTC dynamo_cfg "w1") opened no_tick with_worker false eq_refl) as H0.
  destruct (checked_calls doc_do (dynamo_env (at_second 2)) rules (fun _ _ => true) (fun q s _ => doc_do_step q s) eq_refl _ _ _ _ ps _ _ _ false 0%nat
    H0 (lookup_singleton_eq _ _)) as (ls & ts & Hr & Hts); [repeat constructor|vm_eq|].
  assert (E : results_of (exec_all doc_do (dynamo_env (at_second 2)) ps with_worker false) =
    [None; Some (Ok [set_LastHeartbeat (at_second 0) stored_reg])]) by vm_eq.
  rewrite E in Hts. revert Hr. generalize (server_of (exec_all doc_do (dynamo_env (at_second 2)) ps with_worker false)). intros s' Hr.
  exists (mkWorld s' ls ts). split; [rewrite Hts; apply elem_of_cons; by left|].
  refine (proj1 (dynamo_live_worker_served UTC dynamo_cfg before_deadline "w1" worker_doc worker_w1 opened no_tick with_worker (mkWorld s' ls ts) _ _ _ _ Hr)).
  - vm_eq.
  - vm_eq.
  - intros t Ht. unfold live, worker_w1. cbn [wi_deadline]. unfold before_deadline in Ht. revert Ht. unfold TimeBefore, TimeAfter.
    rewrite (TimeCompare_antisym (at_second 30) t). rewrite Z.ltb_lt, Z.ltb_lt. lia.
  - intros s1 s2 [].
Defined.

Lemma dynamo_registrations_roundtrip_witness :
  exists d, docs with_worker !! item_key dynamo_cfg "worker#w1" = Some d /\ parseWorkerItem UTC dynamo_cfg (d_body d) = Ok worker_w1.
Proof.
  pose proof (@dynamo_registrations_roundtrip _ _ UTC dynamo_cfg (ser_cbor_laws Envelope) _ (dynamo_env (at_second 0))
    ltac:(intros n b [= <-]; apply length_replicate) ltac:(done) "w1" [stored_reg] (30 * 10 ^ 9) empty_table false [] with_worker false [] ltac:(vm_eq)) as (d & H1 & H2).
  exists d. split; [exact H1|]. refine (eq_trans H2 _). vm_eq.
Defined.

(** ** What is lost *)

(** An error while the second of two timers is claimed: the first was claimed, and
    its record is gone, but the scheduler drops the ids that come with an error. *)
Example claimed_timer_dropped :
  let x := dynamo_call (at_second 2) (DueTimers dynamo_cfg (at_second 2)) [None; None; Some false] with_timers in
  answer x = (["i-1"%string], Some (WrapError "awssqssns: claim timer for i-2" (ErrorText "EOF"))) /\
  option_map d_tag (docs with_timers !! item_key dynamo_cfg (timerKeyPrefix +:+ "i-1")) = Some 1 /\
  docs (table_after x) !! item_key dynamo_cfg (timerKeyPrefix +:+ "i-1") = None.
Proof. split_and!; vm_eq. Qed.

(** The reply of a claim is lost: no caller learns of the timer. *)
Example claim_without_reply :
  let x := dynamo_call (at_second 2) (DueTimers dynamo_cfg (at_second 2)) [None; Some true] with_timer in
  fst (answer x) = [] /\ docs (table_after x) !! item_key dynamo_cfg (timerKeyPrefix +:+ "i-1") = None.
Proof. split; vm_eq. Qed.

(** A worker that registers the same process again, with other properties: the
    watcher is sent nothing. *)
Example changed_registration_unnoticed :
  let other := mkProcessRegistration "ns" "p" "1" None None [mkStartEventInfo "go" "" None] [] false false "" "w1" zeroTime zeroTime in
  let again := table_after (dynamo_call (at_second 1) (PutRegistrations dynamo_cfg "w1" [other] (30 * 10 ^ 9)) [] with_worker) in
  let started := answer (dynamo_call (at_second 1) (watchStart UTC dynamo_cfg) [] with_worker) in
  option_map (fun prev => (length (map_to_list (fst prev)), snd (dynamo_call (at_second 2) (watchRound UTC dynamo_cfg prev) [] again))) started
  = Some (1%nat, []).
Proof. cbv zeta. vm_eq. Qed.
