(* ===== verification/Firestore.v ===== *)
(** * The registry store on Firestore

    Models [brokers/google-pubsub/registrystore.go]: workers, timers and last-event
    records as documents of three collections ([Documents], a collection is a
    partition), the rounds of the janitor and of a watcher.  A document has the
    type of its collection; a time is stored to the microsecond, in UTC.
    Connecting is a call of the client library.  Then its theorems. *)

From S2P Require Import Prelude Decimal GoTime GoText Values Schema Messages Wire Programs Documents.
#[global] Open Scope Z_scope.

(** ** Documents *)

Record workerDoc : Type := mkWorkerDoc {
  wd_Deadline : Time;
  wd_Heartbeat : Time;
  wd_Regs : list bytes;
  wd_Rev : string
}.

Record instanceDoc : Type := mkInstanceDoc {
  id_Namespace : string;
  id_ProcessID : string;
  id_Version : string;
  id_Corr : string;
  id_CorrSet : bool;
  id_LatestID : string;
  id_Latest : bytes;
  id_TerminalID : string;
  id_Terminal : bytes;
  id_Finished : bool;
  id_UpdatedAt : Time
}.
Definition zeroInstanceDoc : instanceDoc := mkInstanceDoc "" "" "" "" false "" [] "" [] false zeroTime.

Inductive FsDoc : Type :=
| FsWorker (d : workerDoc)
| FsTimer (fireAt : Time)
| FsInstance (d : instanceDoc).

(** A time as the service has it. *)
Definition stored (t : Time) : Time := mkTime (t_unix t) (t_nsec t / 1000 * 1000) UTC.

(** [snap.DataTo(&doc)] *)
Definition as_worker (d : FsDoc) : option workerDoc := match d with FsWorker d => Some d | _ => None end.
Definition as_timer (d : FsDoc) : option Time := match d with FsTimer t => Some t | _ => None end.
Definition as_instance (d : FsDoc) : option instanceDoc := match d with FsInstance d => Some d | _ => None end.

Record StoredEvent : Type := mkStoredEvent { se_EventID : string; se_Data : bytes }.

Record InstanceRecord : Type := mkInstanceRecord {
  ir_InstanceID : string;
  ir_Key : ProcessKey;
  ir_CorrelationKey : option string;
  ir_Latest : option StoredEvent;
  ir_Terminal : option StoredEvent;
  ir_Finished : bool;
  ir_UpdatedAt : Time
}.

Record FirestoreConfig : Type := mkFirestoreConfig {
  CollectionPrefix : string;
  Cipher : option PayloadCipher;
  PollInterval : Z;
  EventRetention : Z
}.
(** The defaults that [NewFirestoreRegistryStore] fills in. *)
Definition with_defaults (cfg : FirestoreConfig) : FirestoreConfig :=
  mkFirestoreConfig (if String.eqb (CollectionPrefix cfg) "" then "blkit" else CollectionPrefix cfg) (Cipher cfg)
    (if PollInterval cfg <=? 0 then 200 * 10 ^ 6 else PollInterval cfg)
    (if EventRetention cfg <=? 0 then 3600 * 10 ^ 9 else EventRetention cfg).

(** The worker that a watcher has seen. *)
Record watchedWorker : Type := mkWatchedWorker {
  ww_deadline : Time;
  ww_rev : string;
  ww_regs : list ProcessRegistration
}.
Abbreviation Watched := (gmap string watchedWorker).

Section Store.
Context `{!Cbor Envelope, !Cbor ProcessRegistration}.
Variable cfg : FirestoreConfig.

Abbreviation P A := (Prog (DocReq FsDoc) (DocReply FsDoc) bool RegUpdate A).
Abbreviation M A := (Prog (DocReq FsDoc) (DocReply FsDoc) bool RegUpdate (result A)).

Definition workers : string := CollectionPrefix cfg +:+ "-workers".
Definition timers : string := CollectionPrefix cfg +:+ "-timers".
Definition instances : string := CollectionPrefix cfg +:+ "-instances".

(** [ref.Get], [None] for a document that is not there *)
Definition get (collection id : string) : M (option FsDoc) :=
  let? r := request (Read (collection, id)) in ret (match r with Found (Some d) => Some (d_body d) | _ => None end).
Definition mistyped : GoError := ErrorText "firestore: cannot set type".

(** [Close]: [true] when this call stopped the janitor. *)
Definition Close : P bool := Local (fun _ => true) (fun closed => Ret (negb closed)).

(** ** Workers *)

Definition decodeRegs (doc : workerDoc) : list ProcessRegistration :=
  omap (fun data => match DecodeEnvelope data (Cipher cfg) with
                    | Ok env => match DecodePayload env with Ok reg => Some (set_LastHeartbeat (wd_Heartbeat doc) reg) | Err _ => None end
                    | Err _ => None
                    end) (wd_Regs doc).

(** The registration as it is stored, given the first registrations by process. *)
Definition stamp_first (workerID : string) (now : Time) (firstReg : gmap ProcessKey Time) (r : ProcessRegistration) : ProcessRegistration :=
  mkProcessRegistration (pr_Namespace r) (pr_ProcessID r) (pr_Version r) (pr_Name r) (pr_Description r)
    (pr_StartEvents r) (pr_EndEvents r) (pr_AllowExternalCancel r) (pr_AllowExternalTerminate r) (pr_Markdown r)
    workerID (default now (firstReg !! ProcessRegistration_Key r)) now.

Definition first_regs (prior : list ProcessRegistration) : gmap ProcessKey Time :=
  fold_left (fun m p => <[ProcessRegistration_Key p := pr_RegisteredAt p]> m) prior ∅.

Fixpoint encodeRegs (workerID : string) (now : Time) (firstReg : gmap ProcessKey Time) (regs : list ProcessRegistration) : M (list bytes) :=
  match regs with
  | [] => ret []
  | r :: regs' =>
      let~ rand := Random Ret in
      match EncodeEnvelope KindRegistration "" None (stamp_first workerID now firstReg r) (Cipher cfg) rand with
      | Err e => fail e
      | Ok data => let? l := encodeRegs workerID now firstReg regs' in ret (data :: l)
      end
  end.

(** What the document that was read has; a failure to read it is not noticed. *)
Definition prior_firsts (snap : result (option FsDoc)) : gmap ProcessKey Time :=
  match snap with
  | Ok (Some d) => match as_worker d with Some doc => first_regs (decodeRegs doc) | None => ∅ end
  | _ => ∅
  end.

(** [randomID] is a fresh id. *)
Definition PutRegistrations (workerID : string) (regs : list ProcessRegistration) (ttl : Z) : M unit :=
  let~ now := Clock Ret in
  let~ snap := get workers workerID in
  let firstReg := prior_firsts snap in
  let? encoded := encodeRegs workerID now firstReg regs in
  let~ rev := Fresh Ret in
  let? _ := wrapped "gpubsub: put registrations" (request (Write (workers, workerID)
              (FsWorker (mkWorkerDoc (stored (TimeAdd now ttl)) (stored now) encoded rev)))) in
  ret tt.

Definition touched (deadline heartbeat : Time) (v : option FsDoc) : FsDoc :=
  match v with
  | Some (FsWorker d) => FsWorker (mkWorkerDoc deadline heartbeat (wd_Regs d) (wd_Rev d))
  | _ => FsWorker (mkWorkerDoc deadline heartbeat [] "")
  end.

Definition Touch (workerID : string) (ttl : Z) : M unit :=
  let~ snap := get workers workerID in
  match snap with
  | Ok None => fail ErrUnknownWorker
  | Err e => fail (WrapError "gpubsub: touch" e)
  | Ok (Some d) =>
      match as_worker d with
      | None => fail (WrapError "gpubsub: touch" mistyped)
      | Some doc =>
          let~ now := Clock Ret in
          if TimeAfter now (wd_Deadline doc) then fail ErrUnknownWorker
          else
            let? r := wrapped "gpubsub: touch" (request (Change (workers, workerID) exists_doc (touched (stored (TimeAdd now ttl)) (stored now)))) in
            match r with Refused _ => fail (WrapError "gpubsub: touch" (ErrorText "NotFound")) | _ => ret tt end
      end
  end.

Definition Delete (workerID : string) : M unit :=
  let~ snap := get workers workerID in
  match snap with
  | Ok None => fail ErrUnknownWorker
  | Err e => fail (WrapError "gpubsub: delete worker" e)
  | Ok (Some d) =>
      match as_worker d with
      | None => fail (WrapError "gpubsub: delete worker" mistyped)
      | Some doc =>
          let~ now := Clock Ret in
          if TimeAfter now (wd_Deadline doc)
          then let~ _ := request (Remove (workers, workerID) always_write) in fail ErrUnknownWorker
          else let? _ := wrapped "gpubsub: delete worker" (request (Remove (workers, workerID) always_write)) in ret tt
      end
  end.

Definition watched_of (now : Time) (docs : list (string * Doc FsDoc)) : Watched :=
  fold_left (fun out p => match as_worker (d_body (snd p)) with
                          | None => out
                          | Some doc =>
                              if TimeAfter now (wd_Deadline doc) then out
                              else <[fst p := mkWatchedWorker (wd_Deadline doc) (wd_Rev doc) (decodeRegs doc)]> out
                          end) docs ∅.

Definition all_docs (_ : string) (_ : FsDoc) : bool := true.

Definition readWorkers : M Watched :=
  let~ now := Clock Ret in
  let? r := wrapped "gpubsub: read workers" (request (Listing workers all_docs)) in
  ret (watched_of now (match r with Listed l => l | _ => [] end)).

Definition Snapshot : M (list ProcessRegistration) :=
  let? ws := readWorkers in
  let~ l := in_some_order (map_to_list ws) in
  ret (concat (map (fun p => ww_regs (snd p)) l)).

(** ** Watching *)

Definition snapshot_updates (ws : list (string * watchedWorker)) : list RegUpdate :=
  concat (map (fun p => emit RegistryUpdateSnapshot (ww_regs (snd p))) ws) ++ [mkRegUpdate RegistryUpdateSnapshotComplete None].

Definition old_updates (now : Time) (cur : Watched) (p : string * watchedWorker) : list RegUpdate :=
  match cur !! fst p with
  | None => emit (if TimeAfter now (ww_deadline (snd p)) then RegistryUpdateHeartbeatLost else RegistryUpdateRemoved) (ww_regs (snd p))
  | Some cw =>
      if String.eqb (ww_rev cw) (ww_rev (snd p)) then []
      else emit RegistryUpdateRemoved (ww_regs (snd p)) ++ emit RegistryUpdateAdded (ww_regs cw)
  end.
Definition new_updates (prev : Watched) (p : string * watchedWorker) : list RegUpdate :=
  match prev !! fst p with Some _ => [] | None => emit RegistryUpdateAdded (ww_regs (snd p)) end.

(** The updates of a poll, the entries of both views in the orders in which they are
    ranged over. *)
Definition poll_updates (now : Time) (prev cur : Watched) (os ns : list (string * watchedWorker)) : list RegUpdate :=
  concat (map (old_updates now cur) os) ++ concat (map (new_updates prev) ns).

(** A round of the loop of [Watch], from the view of the last one ([None] at first):
    the view to go on with, [None] when the watch is over. *)
Definition watchRound (prev : option Watched) : P (option (option Watched)) :=
  let~ now := Clock Ret in
  let~ cur := readWorkers in
  match cur, prev with
  | Err _, _ => Ret (Some prev)
  | Ok cur, None =>
      let~ ws := in_some_order (map_to_list cur) in
      let~ ok := sendAll (snapshot_updates ws) in
      Ret (if (ok : bool) then Some (Some cur) else None)
  | Ok cur, Some prev =>
      let~ os := in_some_order (map_to_list prev) in
      let~ ns := in_some_order (map_to_list cur) in
      let~ ok := sendAll (poll_updates now prev cur os ns) in
      Ret (if (ok : bool) then Some (Some cur) else None)
  end.

(** [Watch] *)
Definition Watch : M unit :=
  let~ closed := reading (fun b => b) in
  if (closed : bool) then fail (ErrorText "gpubsub: registry store closed") else ret tt.

(** ** Timers *)

Definition PutTimer (instanceID : string) (fireAt : Time) : M unit :=
  let? _ := wrapped "gpubsub: put timer" (request (Write (timers, instanceID) (FsTimer (stored fireAt)))) in ret tt.

(** The transaction that claims a timer: it deletes the document that it read, if
    that is due.  A document that is gone or was put off is [errTimerGone]; one that
    cannot be decoded ends the claims. *)
Definition due (now : Time) (d : FsDoc) : bool := match as_timer d with Some t => negb (TimeAfter t now) | None => false end.
Definition claimable (now : Time) (d : option (Doc FsDoc)) : bool := match d with Some d => due now (d_body d) | None => false end.

Definition claim (now : Time) (ref : string) : DocReq FsDoc := Remove (timers, ref) (claimable now).
Definition undecoded (d : option (Doc FsDoc)) : option GoError :=
  match d with Some d => match as_timer (d_body d) with Some _ => None | None => Some mistyped end | None => None end.
Definition claimAll (now : Time) (refs : list string) : P (list string * option GoError) :=
  claim_each (fun ref => ref) (claim now) undecoded (fun _ => WrapError "gpubsub: claim timer") refs [].

Definition DueTimers (now : Time) : P (list string * option GoError) :=
  let~ r := wrapped "gpubsub: due timers" (request (Listing timers (fun _ => due now))) in
  match r with
  | Err e => Ret ([], Some e)
  | Ok r => claimAll now (map fst (match r with Listed l => l | _ => [] end))
  end.

Definition DeleteTimer (instanceID : string) : M unit :=
  let? _ := wrapped "gpubsub: delete timer" (request (Remove (timers, instanceID) always_write)) in ret tt.

(** ** Last-event records *)

Definition instance_doc (rec : InstanceRecord) (now : Time) : instanceDoc :=
  mkInstanceDoc (pk_Namespace (ir_Key rec)) (pk_ProcessID (ir_Key rec)) (pk_Version (ir_Key rec))
    (default EmptyString (ir_CorrelationKey rec)) (match ir_CorrelationKey rec with Some _ => true | None => false end)
    (match ir_Latest rec with Some e => se_EventID e | None => EmptyString end) (match ir_Latest rec with Some e => se_Data e | None => [] end)
    (match ir_Terminal rec with Some e => se_EventID e | None => EmptyString end) (match ir_Terminal rec with Some e => se_Data e | None => [] end)
    (ir_Finished rec) (stored now).

Definition PutInstance (rec : InstanceRecord) : M unit :=
  let~ now := Clock Ret in
  let? _ := wrapped "gpubsub: put instance" (request (Write (instances, ir_InstanceID rec) (FsInstance (instance_doc rec now)))) in ret tt.

(** The fields that [UpdateInstance] merges. *)
Definition merged (now : Time) (latest terminal : option StoredEvent) (finished : bool) (v : option FsDoc) : FsDoc :=
  let d := default zeroInstanceDoc (v ≫= as_instance) in
  FsInstance (mkInstanceDoc (id_Namespace d) (id_ProcessID d) (id_Version d) (id_Corr d) (id_CorrSet d)
    (match latest with Some e => se_EventID e | None => id_LatestID d end) (match latest with Some e => se_Data e | None => id_Latest d end)
    (match terminal with Some e => se_EventID e | None => id_TerminalID d end) (match terminal with Some e => se_Data e | None => id_Terminal d end)
    (if finished then true else id_Finished d) (stored now)).

Definition UpdateInstance (instanceID : string) (latest terminal : option StoredEvent) (finished : bool) : M unit :=
  let~ now := Clock Ret in
  let? _ := wrapped "gpubsub: update instance" (request (Change (instances, instanceID) always_write (merged now latest terminal finished))) in ret tt.

Definition event_of (id : string) (data : bytes) : option StoredEvent := match data with [] => None | _ => Some (mkStoredEvent id data) end.
Definition record_of (instanceID : string) (doc : instanceDoc) : InstanceRecord :=
  mkInstanceRecord instanceID (mkProcessKey (id_Namespace doc) (id_ProcessID doc) (id_Version doc))
    (if id_CorrSet doc then Some (id_Corr doc) else None) (event_of (id_LatestID doc) (id_Latest doc))
    (event_of (id_TerminalID doc) (id_Terminal doc)) (id_Finished doc) (id_UpdatedAt doc).

Definition GetInstance (instanceID : string) : M (option InstanceRecord) :=
  let~ snap := get instances instanceID in
  match snap with
  | Ok None => ret None
  | Err e => fail (WrapError "gpubsub: get instance" e)
  | Ok (Some d) =>
      match as_instance d with
      | None => fail (WrapError "gpubsub: get instance" mistyped)
      | Some doc => ret (Some (record_of instanceID doc))
      end
  end.

(** ** The janitor *)

Fixpoint deleteAll (collection : string) (ids : list string) : P unit :=
  match ids with
  | [] => Ret tt
  | id :: ids' => let~ _ := request (Remove (collection, id) always_write) in deleteAll collection ids'
  end.

Definition lapsed (cutoff : Time) (_ : string) (d : FsDoc) : bool :=
  match as_worker d with Some doc => TimeBefore (wd_Deadline doc) cutoff | None => false end.
Definition sweepWorkers : P unit :=
  let~ now := Clock Ret in
  let~ r := request (Listing workers (lapsed (TimeAdd now (-2 * PollInterval cfg)))) in
  match r with Ok (Listed l) => deleteAll workers (map fst l) | _ => Ret tt end.

Definition idle (cutoff : Time) (_ : string) (d : FsDoc) : bool :=
  match as_instance d with Some doc => TimeBefore (id_UpdatedAt doc) cutoff | None => false end.
Definition finished_doc (p : string * Doc FsDoc) : bool :=
  match as_instance (d_body (snd p)) with Some doc => id_Finished doc | None => false end.
Definition sweepInstances : P unit :=
  let~ now := Clock Ret in
  let~ r := request (Listing instances (idle (TimeAdd now (- EventRetention cfg)))) in
  match r with Ok (Listed l) => deleteAll instances (map fst (List.filter finished_doc l)) | _ => Ret tt end.

(** A round of [janitor] *)
Definition janitorRound : P unit := let~ _ := sweepWorkers in sweepInstances.

End Store.

(** ** What the calls ask of the service *)

Section Laws.
Context `{!Cbor Envelope, !Cbor ProcessRegistration}.
Variable cfg : FirestoreConfig.

Section Kinds.
Variable rules : Rules (DocReq FsDoc) (DocReply FsDoc) (Table FsDoc).
Variable ok : DocReq FsDoc -> Prop.
Variable rep : DocReq FsDoc -> DocReply FsDoc -> Prop.
Abbreviation only_ p := (only rules ok rep p (fun _ => True)).
Hypothesis ok_read : forall k, ok (Read k).
Hypothesis ok_listing : forall p sel, ok (Listing p sel).

Lemma only_get collection id : only_ (get collection id).
Proof. unfold get. only_all. by apply only_request. Qed.

Lemma fs_only_encodeRegs w now firstReg regs : only_ (encodeRegs cfg w now firstReg regs).
Proof. induction regs as [|r regs IH]; cbn [encodeRegs]; only_all. Qed.

Lemma fs_only_PutRegistrations w regs ttl : (forall v, ok (Write (workers cfg, w) v)) -> only_ (PutRegistrations cfg w regs ttl).
Proof. intros H. unfold PutRegistrations. only_all; [apply only_get|apply fs_only_encodeRegs|]. by apply only_wrapped_request. Qed.

Lemma fs_only_Touch w ttl : (forall upd, ok (Change (workers cfg, w) exists_doc upd)) -> only_ (Touch cfg w ttl).
Proof. intros H. unfold Touch. only_all; [apply only_get|]. by apply only_wrapped_request. Qed.

Lemma fs_only_Delete w : ok (Remove (workers cfg, w) always_write) -> only_ (Delete cfg w).
Proof. intros H. unfold Delete. only_all; [apply only_get|by apply only_request|by apply only_wrapped_request]. Qed.

Lemma only_readWorkers : only_ (readWorkers cfg).
Proof. unfold readWorkers. only_all. by apply only_wrapped_request. Qed.

Lemma fs_only_Snapshot : only_ (Snapshot cfg).
Proof. unfold Snapshot. only_all. apply only_readWorkers. Qed.

Lemma fs_only_watchRound prev : only_ (watchRound cfg prev).
Proof. unfold watchRound. only_all; try apply only_readWorkers; apply only_sendAll. Qed.

Lemma fs_only_PutTimer i t : (forall v, ok (Write (timers cfg, i) v)) -> only_ (PutTimer cfg i t).
Proof. intros H. unfold PutTimer. only_all. by apply only_wrapped_request. Qed.

Lemma fs_only_DueTimers now : (forall i, ok (Remove (timers cfg, i) (claimable now))) -> only_ (DueTimers cfg now).
Proof. intros H. unfold DueTimers. only_all; [by apply only_wrapped_request|]. apply only_claim_each. intros c _. apply H. Qed.

Lemma fs_only_DeleteTimer i : ok (Remove (timers cfg, i) always_write) -> only_ (DeleteTimer cfg i).
Proof. intros H. unfold DeleteTimer. only_all. by apply only_wrapped_request. Qed.

Lemma only_PutInstance r : (forall v, ok (Write (instances cfg, ir_InstanceID r) v)) -> only_ (PutInstance cfg r).
Proof. intros H. unfold PutInstance. only_all. by apply only_wrapped_request. Qed.

Lemma only_UpdateInstance i a b f :
  (forall upd, ok (Change (instances cfg, i) always_write upd)) -> only_ (UpdateInstance cfg i a b f).
Proof. intros H. unfold UpdateInstance. only_all. by apply only_wrapped_request. Qed.

Lemma only_GetInstance i : only_ (GetInstance cfg i).
Proof. unfold GetInstance. only_all. apply only_get. Qed.

Lemma only_deleteAll collection ids : (forall id, id ∈ ids -> ok (Remove (collection, id) always_write)) -> only_ (deleteAll collection ids).
Proof.
  induction ids as [|id ids IH]; intros H; cbn [deleteAll]; [done|]. apply only_seq.
  - apply only_request, H, elem_of_cons. by left.
  - intros _. apply IH. intros i Hi. apply H, elem_of_cons. by right.
Qed.

(** What the janitor deletes is what its queries found. *)
Lemma only_janitorRound :
  (forall now l id, clock rules now -> rep (Listing (workers cfg) (lapsed (TimeAdd now (-2 * PollInterval cfg)))) (Listed l) ->
     id ∈ map fst l -> ok (Remove (workers cfg, id) always_write)) ->
  (forall id, ok (Remove (instances cfg, id) always_write)) -> only_ (janitorRound cfg).
Proof.
  intros Hw Hi. unfold janitorRound. apply only_seq; [|intros _].
  - unfold sweepWorkers. cbn [bind only request]. intros now Hn. split; [apply ok_listing|]. split; [|by intros e].
    intros r Hr. destruct r as [| | |l]; try done. apply only_deleteAll. intros id. by apply (Hw now l).
  - unfold sweepInstances. cbn [bind only request]. intros now Hn. split; [apply ok_listing|]. split; [|by intros e].
    intros r Hr. destruct r as [| | |l]; try done. apply only_deleteAll. intros id _. apply Hi.
Qed.

End Kinds.

(** ** What is stored is read *)

Section Stored.
Context {HE : CborLaws Envelope} {HR : CborLaws ProcessRegistration}.
Abbreviation Service := (DocReq FsDoc -> Table FsDoc -> Table FsDoc * DocReply FsDoc).
Variable env : Env.
Hypothesis random_fills : fills (en_rand env).
Hypothesis cipher_ok : forall c, Cipher cfg = Some c -> CipherLaws c.

Lemma fs_encodeRegs_read (serve : Service) regs s b w now firstReg :
  let '(r, fs, s', b', us) := exec serve env (encodeRegs cfg w now firstReg regs) [] s b in
  fs = [] /\ s' = s /\ b' = b /\ us = [] /\
  forall l, r = Ok l -> forall deadline beat rev,
    decodeRegs cfg (mkWorkerDoc deadline beat l rev) = map (fun r => set_LastHeartbeat beat (stamp_first w now firstReg r)) regs.
Proof.
  induction regs as [|r regs IH]; cbn [encodeRegs exec bind ret]; [by split_and!; try intros l [= <-]|].
  destruct (EncodeEnvelope _ _ _ _ _ _) as [data|e] eqn:Ee; [|by split_and!].
  unfold bind_ok. rewrite exec_bind. destruct (exec serve env (encodeRegs _ _ _ _ regs) [] s b) as [[[[r' fs] s'] b'] us].
  destruct IH as (-> & -> & -> & -> & IH). destruct r' as [l|e]; cbn [exec ret fail]; [|by split_and!].
  split_and!; try done. intros l' [= <-] deadline beat rev. specialize (IH l eq_refl deadline beat rev).
  destruct (DecodeEnvelope_encoded _ _ _ _ _ _ _ cipher_ok random_fills Ee) as (payload & Hp & Hd).
  unfold decodeRegs in *. cbn [wd_Regs wd_Heartbeat omap list_omap map] in *. rewrite Hd. unfold DecodePayload. cbn [env_Payload].
  rewrite Hp. cbn [wrap_err]. by f_equal.
Qed.

(** The registrations that the store has for a worker. *)
Definition registrations_of (s : Table FsDoc) (w : string) : list ProcessRegistration :=
  match docs s !! (workers cfg, w) with
  | Some d => match as_worker (d_body d) with Some doc => decodeRegs cfg doc | None => [] end
  | None => []
  end.

(** A worker that registers, encrypted or not, is read back as it registered, with the
    time of this registration or, where it registered the process before, of the
    first one, and the deadline to the microsecond. *)
Theorem firestore_registrations_roundtrip w regs ttl s b fs' s' b' us :
  exec doc_do env (PutRegistrations cfg w regs ttl) [] s b = (Ok tt, fs', s', b', us) ->
  let now := en_now env in
  registrations_of s' w =
    map (fun r => set_LastHeartbeat (stored now) (stamp_first w now (first_regs (registrations_of s w)) r)) regs /\
  exists d doc, docs s' !! (workers cfg, w) = Some d /\ as_worker (d_body d) = Some doc /\ wd_Deadline doc = stored (TimeAdd now ttl).
Proof.
  intros H now. revert H. unfold PutRegistrations, get, request, bind_ok. cbn [bind exec doc_do tail ret].
  set (firstReg := prior_firsts cfg _).
  assert (E : firstReg = first_regs (registrations_of s w)).
  { unfold firstReg, registrations_of, prior_firsts. destruct (docs s !! (workers cfg, w)) as [d|]; [|done]. by destruct (as_worker (d_body d)). }
  rewrite exec_bind. pose proof (fs_encodeRegs_read doc_do regs s b w now firstReg) as He. unfold now in *.
  destruct (exec doc_do env (encodeRegs _ _ _ _ _) [] s b) as [[[[r fs] s1] b1] us1]. destruct He as (-> & -> & -> & -> & He).
  destruct r as [l|e]; cbn [exec bind ret fail wrapped request Write doc_do always_write]; [|done].
  intros [= <- <- <- <-]. rewrite <- E. unfold registrations_of. cbn. rewrite lookup_insert_eq. split; [apply He, eq_refl|].
  eexists _, _. split; [reflexivity|]. split; reflexivity.
Qed.

End Stored.

(** ** A timer is claimed once *)

(** The calls of the processes that share a database, other than putting the timer
    of one instance, with the ids that were claimed. *)
Inductive timer_calls (id : string) : Prog (DocReq FsDoc) (DocReply FsDoc) bool RegUpdate (list string) -> Prop :=
| tc_DueTimers now : timer_calls id (let~ r := DueTimers cfg now in Ret (fst r))
| tc_PutTimer i t : i <> id -> timer_calls id (quietly [] (PutTimer cfg i t))
| tc_DeleteTimer i : timer_calls id (quietly [] (DeleteTimer cfg i))
| tc_PutRegistrations w regs ttl : timer_calls id (quietly [] (PutRegistrations cfg w regs ttl))
| tc_Touch w ttl : timer_calls id (quietly [] (Touch cfg w ttl))
| tc_Delete w : timer_calls id (quietly [] (Delete cfg w))
| tc_Snapshot : timer_calls id (quietly [] (Snapshot cfg))
| tc_watchRound prev : timer_calls id (quietly [] (watchRound cfg prev))
| tc_PutInstance r : timer_calls id (quietly [] (PutInstance cfg r))
| tc_UpdateInstance i a b f : timer_calls id (quietly [] (UpdateInstance cfg i a b f))
| tc_GetInstance i : timer_calls id (quietly [] (GetInstance cfg i))
| tc_janitorRound : timer_calls id (quietly [] (janitorRound cfg))
| tc_Close : timer_calls id (quietly [] Close).

Lemma collections_differ : workers cfg <> timers cfg /\ instances cfg <> timers cfg /\ instances cfg <> workers cfg.
Proof. unfold workers, timers, instances. split_and!; by intros E%(inj (String.append _)). Qed.

Section Claiming.
Variable clk : Time -> Prop.
Variable id : string.
Abbreviation key := (timers cfg, id).
Abbreviation keeps p t Q := (wp (doc_rules clk) (taken_once key) (fun _ => True) p t Q).

Lemma fs_DueTimers_keeps now : keeps (let~ r := DueTimers cfg now in Ret (fst r)) none (fun ids t => (times_in id ids <= t)%nat).
Proof.
  apply wp_bind. unfold DueTimers, wrapped, request. cbn [bind]. apply spare_request_wp; [done|].
  intros [r|e]; cbn [bind]; [|cbn; lia]. apply claim_each_wp; [|done|cbn; lia]. intros c ->. by eexists.
Qed.

Lemma fs_timer_calls_keep p : timer_calls id p -> keeps p none (fun ids t => (times_in id ids <= t)%nat).
Proof.
  destruct collections_differ as (Hw & Hi & _).
  intros [now|i t Hne|i|w regs ttl|w ttl|w| |prev|r|i a b f|i| |]; try apply quietly_wp.
  - apply fs_DueTimers_keeps.
  - apply fs_only_PutTimer. intros v [= E]. done.
  - by apply fs_only_DeleteTimer.
  - apply fs_only_PutRegistrations; [done|]. intros v [= E _]. done.
  - apply fs_only_Touch; [done|]. intros v [= E _]. done.
  - by apply fs_only_Delete.
  - by apply fs_only_Snapshot.
  - by apply fs_only_watchRound.
  - apply only_PutInstance. intros v [= E _]. done.
  - apply only_UpdateInstance. intros v [= E _]. done.
  - by apply only_GetInstance.
  - by apply only_janitorRound.
  - unfold Close. only_all.
Qed.

End Claiming.

(** C35. The transactions of [DueTimers] claim a timer for one caller, under any
    interleaving and whatever is lost. *)
Theorem firestore_timer_claimed_once clk id fresh_local tick s w :
  (forall s s', tick s s' -> expiring s s') ->
  reachable (doc_rules clk) (timer_calls id) fresh_local tick s w ->
  (times_in id (concat (results w)) <= 1)%nat.
Proof. intros Ht. apply taken_reachable with (k0 := (timers cfg, id)); [|done]. apply fs_timer_calls_keep. Qed.

(** ** A live worker stays registered *)

(** The calls of the processes that share a database, other than those for one
    worker, with what a snapshot returned. *)
Abbreviation Seen := (option (result (list ProcessRegistration))).

Inductive worker_calls (w : string) : Prog (DocReq FsDoc) (DocReply FsDoc) bool RegUpdate Seen -> Prop :=
| wc_Snapshot : worker_calls w (let~ r := Snapshot cfg in Ret (Some r))
| wc_PutRegistrations v regs ttl : v <> w -> worker_calls w (quietly None (PutRegistrations cfg v regs ttl))
| wc_Touch v ttl : v <> w -> worker_calls w (quietly None (Touch cfg v ttl))
| wc_Delete v : v <> w -> worker_calls w (quietly None (Delete cfg v))
| wc_watchRound prev : worker_calls w (quietly None (watchRound cfg prev))
| wc_PutTimer i t : worker_calls w (quietly None (PutTimer cfg i t))
| wc_DueTimers now : worker_calls w (quietly None (DueTimers cfg now))
| wc_DeleteTimer i : worker_calls w (quietly None (DeleteTimer cfg i))
| wc_PutInstance r : worker_calls w (quietly None (PutInstance cfg r))
| wc_UpdateInstance i a b f : worker_calls w (quietly None (UpdateInstance cfg i a b f))
| wc_GetInstance i : worker_calls w (quietly None (GetInstance cfg i))
| wc_janitorRound : worker_calls w (quietly None (janitorRound cfg))
| wc_Close : worker_calls w (quietly None Close).

Section Serving.
Variable clk : Time -> Prop.
Variable w : string.
Variable d0 : Doc FsDoc.
Variable doc0 : workerDoc.
Hypothesis typed : as_worker (d_body d0) = Some doc0.
Hypothesis polls : 0 <= PollInterval cfg.
Hypothesis is_live : forall t, clk t -> 0 <= t_nsec t < 10 ^ 9 /\ TimeAfter t (wd_Deadline doc0) = false.
Abbreviation key := (workers cfg, w).
Abbreviation harmless p K := (only (doc_rules clk) (harmless_to key d0) (shows key d0) p K).

Definition lists_it (a : Seen) : Prop := forall regs, a = Some (Ok regs) -> forall r, r ∈ decodeRegs cfg doc0 -> r ∈ regs.

(** What is listed once is in the view, if all that is listed of the worker is the document. *)
Lemma watched_of_in now l : (w, d0) ∈ l -> (forall d, (w, d) ∈ l -> d = d0) -> clk now ->
  watched_of cfg now l !! w = Some (mkWatchedWorker (wd_Deadline doc0) (wd_Rev doc0) (decodeRegs cfg doc0)).
Proof.
  intros Hin Ho Hn. unfold watched_of. apply is_live in Hn as [_ Hn].
  induction l as [|p l IH] using rev_ind; [by apply elem_of_nil in Hin|]. rewrite fold_left_app. cbn [fold_left].
  setoid_rewrite elem_of_app in Ho. setoid_rewrite list_elem_of_singleton in Ho.
  apply elem_of_app in Hin. rewrite list_elem_of_singleton in Hin. destruct p as [id d]. cbn [fst snd].
  destruct (decide (id = w)) as [->|Hne].
  - rewrite (Ho d (or_intror eq_refl)), typed, Hn. by rewrite lookup_insert_eq.
  - destruct Hin as [Hin|[= E _]]; [|congruence]. specialize (IH Hin (fun d Hd => Ho d (or_introl Hd))).
    destruct (as_worker (d_body d)) as [doc|]; [|done]. destruct (TimeAfter now (wd_Deadline doc)); [done|]. by rewrite lookup_insert_ne.
Qed.

Lemma fs_Snapshot_lists : harmless (let~ r := Snapshot cfg in Ret (Some r)) lists_it.
Proof.
  unfold Snapshot, readWorkers, wrapped, request, bind_ok, in_some_order. cbn [bind ret fail only].
  intros now Hnow. split; [done|]. split; [|done]. intros r Hr. destruct r as [| | |l]; [done..|].
  cbn [shows fst snd] in Hr. destruct (Hr eq_refl) as [Hrow Honly]. specialize (Hrow eq_refl).
  cbn [bind ret fail only]. intros ix Hix. apply reordered in Hix. intros regs [= <-] r Hin.
  pose proof (watched_of_in now l Hrow (fun d Hd => proj1 (Honly d Hd)) Hnow) as Hw.
  apply elem_of_map_to_list in Hw. rewrite <- Hix in Hw.
  apply list_elem_of_In, in_concat. exists (decodeRegs cfg doc0). split; [|by apply list_elem_of_In].
  apply in_map_iff. eexists. split; [|by apply list_elem_of_In, Hw]. done.
Qed.

Lemma fs_quietly_harmless {A} (p : Prog (DocReq FsDoc) (DocReply FsDoc) bool RegUpdate A) :
  harmless p (fun _ => True) -> harmless (quietly None p) lists_it.
Proof. intros H. by apply (only_bind _ (fun _ => True) _ _ _ _ (fun _ => True)). Qed.

(** The janitor's query does not find the worker. *)
Lemma not_lapsed now : clk now -> lapsed (TimeAdd now (-2 * PollInterval cfg)) w (d_body d0) = false.
Proof.
  intros Hn. apply is_live in Hn as [Hns Ha]. unfold lapsed. rewrite typed. unfold TimeAfter, TimeBefore in *.
  apply Z.ltb_ge in Ha. apply Z.ltb_ge. pose proof (TimeAdd_earlier now (-2 * PollInterval cfg) Hns ltac:(lia)) as He.
  rewrite TimeCompare_antisym. pose proof (TimeCompare_trans _ _ _ He Ha). lia.
Qed.

Lemma fs_worker_calls_harmless p : worker_calls w p -> harmless p lists_it.
Proof.
  destruct (collections_differ) as (Ht & Hi & Hiw).
  assert (Hne : forall v, v <> w -> (workers cfg, v) <> key) by congruence.
  intros [|v regs ttl Hv|v ttl Hv|v Hv|prev|i t|now|i|r|i a b f|i| |]; [apply fs_Snapshot_lists|apply fs_quietly_harmless..].
  - apply fs_only_PutRegistrations; [done|]. intros v'. by apply Hne.
  - apply fs_only_Touch; [done|]. intros upd. by apply Hne.
  - apply fs_only_Delete; [done|]. intros E. by apply Hne in E.
  - by apply fs_only_watchRound.
  - apply fs_only_PutTimer. intros v [= E _]. done.
  - apply fs_only_DueTimers; [done|]. intros i [= E _]. done.
  - apply fs_only_DeleteTimer. intros [= E _]. done.
  - apply only_PutInstance. intros v [= E _]. done.
  - apply only_UpdateInstance. intros v [= E _]. done.
  - by apply only_GetInstance.
  - apply only_janitorRound; [done| |intros id [= E _]; done].
    intros now l id Hn Hr Hid [= E]. subst id. cbn [shows fst snd] in Hr. destruct (Hr eq_refl) as [_ Ho].
    apply list_elem_of_fmap in Hid as ([id d] & E & Hd). cbn [fst] in E. subst id. destruct (Ho d Hd) as [_ Hl]. by rewrite not_lapsed in Hl.
  - unfold Close. only_all.
Qed.

End Serving.

(** A worker whose deadline no clock has passed stays registered, whatever the other
    workers, the janitors and the watchers do, and whichever requests and replies
    are lost: every snapshot that succeeds has its registrations. *)
Theorem firestore_live_worker_served clk w d0 doc0 fresh_local tick s wd :
  let k := (workers cfg, w) in
  docs s !! k = Some d0 -> as_worker (d_body d0) = Some doc0 -> 0 <= PollInterval cfg ->
  (forall t, clk t -> 0 <= t_nsec t < 10 ^ 9 /\ TimeAfter t (wd_Deadline doc0) = false) ->
  (forall s1 s2, tick s1 s2 -> docs s1 !! k = Some d0 -> docs s2 !! k = Some d0) ->
  reachable (doc_rules clk) (worker_calls w) fresh_local tick s wd ->
  docs (w_server wd) !! k = Some d0 /\
  forall regs, Some (Ok regs) ∈ results wd -> forall r, r ∈ decodeRegs cfg doc0 -> r ∈ regs.
Proof.
  intros k Hs Hp Hi Hl Ht Hr.
  destruct (stays_reachable clk k d0 (lists_it doc0) (worker_calls w) fresh_local tick s wd) as [H1 H2]; [|done..|].
  - intros p Hc. by apply fs_worker_calls_harmless.
  - split; [done|]. intros regs Ha. by apply (H2 _ Ha).
Qed.

End Laws.

(** ** The feed of a watcher *)

Definition stamped (ws : Watched) : Prop := forall i w, ws !! i = Some w -> Forall (fun r => pr_WorkerID r = i) (ww_regs w).

(** Documents of one revision offer the same processes. *)
Definition rev_tells (prev cur : Watched) : Prop :=
  forall i p c, prev !! i = Some p -> cur !! i = Some c -> ww_rev c = ww_rev p -> ids_in (ww_regs c) = ids_in (ww_regs p).

(** Whether a view has a registration. *)
Definition offers (ws : Watched) (x : string * ProcessKey) : Prop := exists w, ws !! fst x = Some w /\ x ∈ ids_in (ww_regs w).

Lemma stamped_ids ws i w x : stamped ws -> ws !! i = Some w -> x ∈ ids_in (ww_regs w) -> fst x = i.
Proof.
  intros Hs Hi Hx. unfold ids_in in Hx. apply elem_of_list_to_set, list_elem_of_fmap in Hx as (r & -> & Hr).
  specialize (Hs i w Hi). rewrite Forall_forall in Hs. by apply Hs.
Qed.

Lemma emit_others ws kind i w x : stamped ws -> kind <> RegistryUpdateSnapshotComplete -> ws !! i = Some w -> i <> fst x ->
  untouched (emit kind (ww_regs w)) x.
Proof. intros Hs Hk Hi Hne. apply emit_untouched; [done|]. intros Hx. apply Hne. symmetry. by apply (stamped_ids ws i w x). Qed.

Lemma offers_ids ws i w x : stamped ws -> ws !! i = Some w -> fst x = i -> offers ws x <-> x ∈ ids_in (ww_regs w).
Proof. intros Hs Hi <-. unfold offers. split; [|by exists w]. intros (w' & Hw & Hx). congruence. Qed.

(** What a watcher learns from the first poll. *)
Lemma snapshot_offers cur ws x : stamped cur -> ws ≡ₚ map_to_list cur -> x ∈ observed (snapshot_updates ws) ∅ <-> offers cur x.
Proof.
  intros Hs Hp. unfold snapshot_updates. rewrite observed_app. cbn [observed fold_left observe ru_reg].
  set (f := fun p => emit RegistryUpdateSnapshot (ww_regs (snd p))).
  assert (Hu : forall j w, cur !! j = Some w -> j <> fst x -> untouched (f (j, w)) x).
  { intros j w Hj Hne. exact (emit_others cur RegistryUpdateSnapshot j w x Hs ltac:(done) Hj Hne). }
  destruct (cur !! fst x) as [w|] eqn:Hw.
  - pose proof (observed_one f cur ws w x ∅ Hp Hw Hu) as H. etransitivity; [exact H|].
    unfold f. rewrite emit_adds by auto. rewrite (offers_ids cur (fst x) w x Hs Hw eq_refl). set_solver.
  - assert (H : untouched (concat (map f ws)) x).
    { apply untouched_concat. intros [j w] Hj. rewrite Hp in Hj. apply elem_of_map_to_list in Hj. apply Hu; congruence. }
    etransitivity; [apply (H ∅)|]. unfold offers. rewrite Hw. split; [set_solver|by intros (w & ? & _)].
Qed.

(** The updates of a poll lead from one view to the next. *)
Lemma poll_offers now prev cur os ns x v :
  stamped prev -> stamped cur -> rev_tells prev cur -> os ≡ₚ map_to_list prev -> ns ≡ₚ map_to_list cur ->
  (x ∈ v <-> offers prev x) -> x ∈ observed (poll_updates now prev cur os ns) v <-> offers cur x.
Proof.
  intros Hsp Hsc Hr Hos Hns Hv. unfold poll_updates. rewrite observed_app.
  assert (Huo : forall j w, prev !! j = Some w -> j <> fst x -> untouched (old_updates now cur (j, w)) x).
  { intros j w Hj Hne. unfold old_updates. cbn [fst snd]. destruct (cur !! j) as [cw|] eqn:Hc.
    - destruct (String.eqb _ _); [done|]. apply untouched_app; [by apply (emit_others prev _ j)|by apply (emit_others cur _ j)].
    - destruct (TimeAfter _ _); by apply (emit_others prev _ j). }
  assert (Hun : forall j w, cur !! j = Some w -> j <> fst x -> untouched (new_updates prev (j, w)) x).
  { intros j w Hj Hne. unfold new_updates. cbn [fst snd]. destruct (prev !! j); [done|]. by apply (emit_others cur _ j). }
  destruct (prev !! fst x) as [pw|] eqn:Hp.
  - assert (Hnone : untouched (concat (map (new_updates prev) ns)) x).
    { apply untouched_concat. intros [j w] Hj. rewrite Hns in Hj. apply elem_of_map_to_list in Hj.
      destruct (decide (j = fst x)) as [->|]; [|by apply Hun]. unfold new_updates. cbn [fst]. by rewrite Hp. }
    rewrite (Hnone _). rewrite (observed_one _ prev os pw x v Hos Hp Huo). rewrite (offers_ids prev _ pw x Hsp Hp eq_refl) in Hv.
    unfold old_updates. cbn [fst snd]. destruct (cur !! fst x) as [cw|] eqn:Hc.
    + rewrite (offers_ids cur _ cw x Hsc Hc eq_refl). destruct (String.eqb_spec (ww_rev cw) (ww_rev pw)) as [E|].
      * cbn [observed fold_left]. by rewrite Hv, (Hr _ _ _ Hp Hc E).
      * rewrite observed_app, emit_adds, emit_removes by auto. set_solver.
    + unfold offers. rewrite Hc. assert (H : x ∉ v ∖ ids_in (ww_regs pw)) by set_solver.
      destruct (TimeAfter _ _); rewrite emit_removes by auto; split; [done|by intros (w & ? & _)|done|by intros (w & ? & _)].
  - assert (Hnone : untouched (concat (map (old_updates now cur) os)) x).
    { apply untouched_concat. intros [j w] Hj. rewrite Hos in Hj. apply elem_of_map_to_list in Hj. apply Huo; congruence. }
    assert (Hx : x ∉ v) by (rewrite Hv; unfold offers; rewrite Hp; by intros (w & ? & _)).
    destruct (cur !! fst x) as [cw|] eqn:Hc.
    + rewrite (observed_one _ cur ns cw x _ Hns Hc Hun). unfold new_updates. cbn [fst snd]. rewrite Hp, emit_adds by auto.
      rewrite (offers_ids cur _ cw x Hsc Hc eq_refl). rewrite elem_of_union, (Hnone v). naive_solver.
    + assert (Hn2 : untouched (concat (map (new_updates prev) ns)) x).
      { apply untouched_concat. intros [j w] Hj. rewrite Hns in Hj. apply elem_of_map_to_list in Hj. apply Hun; congruence. }
      rewrite (Hn2 _), (Hnone v). unfold offers. rewrite Hc. split; [done|by intros (w & ? & _)].
Qed.

(** The updates of a watcher up to a poll, and the view of that poll. *)
Inductive feed : Watched -> list RegUpdate -> Prop :=
| feed_start cur ws : stamped cur -> ws ≡ₚ map_to_list cur -> feed cur (snapshot_updates ws)
| feed_round prev us now cur os ns :
    feed prev us -> stamped cur -> rev_tells prev cur -> os ≡ₚ map_to_list prev -> ns ≡ₚ map_to_list cur ->
    feed cur (us ++ poll_updates now prev cur os ns).

(** A watcher that applies its updates knows after every poll which worker offers
    which process: those of the documents that were live when they were read. *)
Theorem firestore_watch_tracks ws us x : feed ws us -> x ∈ observed us ∅ <-> offers ws x.
Proof.
  intros H. revert x. induction H as [cur ws Hs Hp|prev us now cur os ns Hf IH Hs Hr Ho Hn]; intros x; [by apply snapshot_offers|].
  rewrite observed_app. apply poll_offers with (v := observed us ∅); try done. by destruct Hf.
Qed.

(** What a round hands over, when the channel takes it, is what a feed goes on with. *)
Lemma fs_watchRound_sends `{!Cbor Envelope, !Cbor ProcessRegistration} (serve : DocReq FsDoc -> Table FsDoc -> Table FsDoc * DocReply FsDoc)
    cfg env prev cur fs fs' s s' l :
  en_taken env = true -> exec serve env (readWorkers cfg) fs s l = (Ok cur, fs', s', l, []) ->
  exec serve env (watchRound cfg prev) fs s l =
    (Some (Some cur), fs', s', l,
     match prev with
     | None => snapshot_updates (map_to_list cur)
     | Some prev => poll_updates (en_now env) prev cur (map_to_list prev) (map_to_list cur)
     end).
Proof.
  intros Ht Hs. unfold watchRound. cbn [bind exec]. rewrite exec_bind, Hs. destruct prev as [prev|].
  - rewrite exec_bind, exec_in_order, exec_bind, exec_in_order, exec_bind, sendAll_exec by done. cbn [exec]. by rewrite !app_nil_r.
  - rewrite exec_bind, exec_in_order, exec_bind, sendAll_exec by done. cbn [exec]. by rewrite !app_nil_r.
Qed.

(** The record of an instance is read as it was put, with the time of the change. *)
Lemma record_roundtrip rec now : (forall e, ir_Latest rec = Some e \/ ir_Terminal rec = Some e -> se_Data e <> []) ->
  record_of (ir_InstanceID rec) (instance_doc rec now) =
    mkInstanceRecord (ir_InstanceID rec) (ir_Key rec) (ir_CorrelationKey rec) (ir_Latest rec) (ir_Terminal rec) (ir_Finished rec) (stored now).
Proof.
  intros H. destruct rec as [i [ns p v] corr latest terminal fin upd]. cbn in *. unfold record_of, instance_doc. cbn.
  assert (He : forall o, (forall e, o = Some e -> se_Data e <> []) ->
    event_of (match o with Some e => se_EventID e | None => EmptyString end) (match o with Some e => se_Data e | None => [] end) = o).
  { intros [[id data]|] Ho; [|done]. cbn. destruct data; [by destruct (Ho _ eq_refl)|done]. }
  rewrite !He by (intros e ->; apply H; auto). by destruct corr.
Qed.

(** Merging raises [finished] and never clears it, and keeps what it is not given. *)
Lemma merged_finished now latest terminal finished d :
  exists d', merged now latest terminal finished (Some (FsInstance d)) = FsInstance d' /\
    (id_Finished d = true -> id_Finished d' = true) /\ (latest = None -> id_Latest d' = id_Latest d) /\ (terminal = None -> id_Terminal d' = id_Terminal d).
Proof. eexists. split; [reflexivity|]. cbn. split_and!; [by intros ->; destruct finished|by intros ->|by intros ->]. Qed.

(** ** A concrete database *)

Definition fs_reg : ProcessRegistration :=
  mkProcessRegistration "ns" "p" "1" None None [mkStartEventInfo "start" "" None] [] true false "" "w1" zeroTime zeroTime.
Definition fs_second (n : Z) : Time := mkTime (1700000000 + n) 0 UTC.
Definition fs_env (now : Time) : Env := mkEnv now zeroRand "rev-1" true.
Definition fs_cfg : FirestoreConfig := mkFirestoreConfig "blkit" None (200 * 10 ^ 6) (3600 * 10 ^ 9).

(** A call on its own at [now], with faults: its result, the database and what was handed over. *)
Definition fs_call {A} (now : Time) (p : Prog (DocReq FsDoc) (DocReply FsDoc) bool RegUpdate A) (faults : list (option bool)) (s : Table FsDoc)
  : A * Table FsDoc * list RegUpdate :=
  let '(a, _, s', _, us) := exec doc_do (fs_env now) p faults s false in (a, s', us).
Definition fs_after {A} (x : A * Table FsDoc * list RegUpdate) : Table FsDoc := snd (fst x).
Definition fs_answer {A} (x : A * Table FsDoc * list RegUpdate) : A := fst (fst x).

Definition fs_register (t : Time) (s : Table FsDoc) : Table FsDoc :=
  fs_after (fs_call t (PutRegistrations fs_cfg "w1" [fs_reg] (30 * 10 ^ 9)) [] s).
Definition fs_worker : Table FsDoc := fs_register (fs_second 0) empty_table.
Definition fs_timer : Table FsDoc := fs_after (fs_call (fs_second 0) (PutTimer fs_cfg "i-1" (fs_second 1)) [] empty_table).
Definition fs_timers : Table FsDoc := fs_after (fs_call (fs_second 0) (PutTimer fs_cfg "i-2" (fs_second 1)) [] fs_timer).

(** Any clock, and no expiry by the service. *)
Definition fs_clock (_ : Time) : Prop := True.
Definition fs_tick (_ _ : Table FsDoc) : Prop := False.
Definition fs_open (closed : bool) : Prop := closed = false.

Lemma firestore_timer_claimed_once_witness :
  exists wd : World (DocReq FsDoc) (DocReply FsDoc) (Table FsDoc) bool RegUpdate (list string),
    concat (results wd) = ["i-1"%string] /\ (times_in "i-1" (concat (results wd)) <= 1)%nat.
Proof.
  set (ps := [(let~ r := DueTimers fs_cfg (fs_second 2) in Ret (fst r)); (let~ r := DueTimers fs_cfg (fs_second 2) in Ret (fst r))]).
  set (rules := doc_rules (V := FsDoc) fs_clock).
  pose proof (first_process rules (timer_calls fs_cfg "i-1") fs_open fs_tick fs_timer false eq_refl) as H0.
  destruct (checked_calls doc_do (fs_env (fs_second 2)) rules (fun _ _ => true) (fun q s _ => doc_do_step q s) I _ _ _ _ ps _ _ _ false 0%nat
    H0 (lookup_singleton_eq _ _)) as (ls & ts & Hr & Hts); [repeat constructor|vm_eq|].
  assert (E : results_of (exec_all doc_do (fs_env (fs_second 2)) ps fs_timer false) = [["i-1"%string]; []]) by vm_eq.
  rewrite E in Hts. revert Hr. generalize (server_of (exec_all doc_do (fs_env (fs_second 2)) ps fs_timer false)). intros s' Hr.
  exists (mkWorld s' ls ts). split; [by rewrite Hts|].
  refine (firestore_timer_claimed_once fs_cfg fs_clock "i-1" fs_open fs_tick fs_timer (mkWorld s' ls ts) _ Hr). intros s1 s2 [].
Defined.

Definition fs_stored_reg : ProcessRegistration := set_LastHeartbeat (fs_second 0) (stamp_first "w1" (fs_second 0) ∅ fs_reg).
Definition fs_worker_doc : workerDoc :=
  match docs fs_worker !! (workers fs_cfg, "w1"%string) with
  | Some d => default (mkWorkerDoc zeroTime zeroTime [] "") (as_worker (d_body d))
  | None => mkWorkerDoc zeroTime zeroTime [] ""
  end.

Definition fs_ticking (t : Time) : Prop := 0 <= t_nsec t < 10 ^ 9 /\ TimeAfter t (fs_second 30) = false.

Lemma firestore_live_worker_served_witness :
  exists wd : World (DocReq FsDoc) (DocReply FsDoc) (Table FsDoc) bool RegUpdate (option (result (list ProcessRegistration))),
    Some (Ok [fs_stored_reg]) ∈ results wd /\
    docs (w_server wd) !! (workers fs_cfg, "w1"%string) = Some (mkDoc 1 (FsWorker fs_worker_doc)).
Proof.
  set (ps := [quietly None (janitorRound fs_cfg); (let~ r := Snapshot fs_cfg in Ret (Some r))]).
  set (rules := doc_rules (V := FsDoc) fs_ticking).
  pose proof (first_process rules (worker_calls fs_cfg "w1") fs_open fs_tick fs_worker false eq_refl) as H0.
  destruct (checked_calls doc_do (fs_env (fs_second 2)) rules (fun _ _ => true) (fun q s _ => doc_do_step q s) ltac:(split; [cbn; lia|vm_eq]) _ _ _ _ ps _ _ _ false 0%nat
    H0 (lookup_singleton_eq _ _)) as (ls & ts & Hr & Hts); [repeat constructor|vm_eq|].
  assert (E : results_of (exec_all doc_do (fs_env (fs_second 2)) ps fs_worker false) = [None; Some (Ok [fs_stored_reg])]) by vm_eq.
  rewrite E in Hts. revert Hr. generalize (server_of (exec_all doc_do (fs_env (fs_second 2)) ps fs_worker false)). intros s' Hr.
  exists (mkWorld s' ls ts). split; [rewrite Hts; apply elem_of_cons; by left|].
  refine (proj1 (firestore_live_worker_served fs_cfg fs_ticking "w1" (mkDoc 1 (FsWorker fs_worker_doc)) fs_worker_doc fs_open fs_tick fs_worker
    (mkWorld s' ls ts) _ eq_refl _ _ _ Hr)).
  - vm_eq.
  - cbn. lia.
  - intros t [H1 H2]. split; [exact H1|]. assert (Ed : wd_Deadline fs_worker_doc = fs_second 30) by vm_eq. by rewrite Ed.
  - intros s1 s2 [].
Defined.

Lemma firestore_registrations_roundtrip_witness :
  registrations_of fs_cfg (fs_register (fs_second 5) fs_worker) "w1" = [set_LastHeartbeat (fs_second 5) (set_LastHeartbeat (fs_second 0) fs_stored_reg)].
Proof.
  assert (Hok : fs_answer (fs_call (fs_second 5) (PutRegistrations fs_cfg "w1" [fs_reg] (30 * 10 ^ 9)) [] fs_worker) = Ok tt) by vm_eq.
  unfold fs_register. revert Hok. unfold fs_call.
  destruct (exec doc_do (fs_env (fs_second 5)) (PutRegistrations fs_cfg "w1" [fs_reg] (30 * 10 ^ 9)) [] fs_worker false) as [[[[r fs'] s'] b'] us] eqn:E.
  intros Hok. unfold fs_answer in Hok. cbn [fst snd] in Hok. subst r. unfold fs_after. cbn [fst snd].
  refine (eq_trans (proj1 (@firestore_registrations_roundtrip _ _ fs_cfg (ser_cbor_laws Envelope) _ (fs_env (fs_second 5))
    ltac:(intros n b [= <-]; apply length_replicate) ltac:(done) _ _ _ _ _ _ _ _ _ E)) _).
  vm_eq.
Defined.

Lemma firestore_watch_tracks_witness :
  exists us, ("w1"%string, ProcessRegistration_Key fs_reg) ∈ observed us ∅ /\ length us = 2%nat.
Proof.
  set (ws := {[ "w1"%string := mkWatchedWorker (fs_second 30) "rev-1" [fs_stored_reg] ]} : Watched).
  exists (snapshot_updates (map_to_list ws)). split; [|vm_eq].
  apply (firestore_watch_tracks ws).
  - apply feed_start; [|done]. intros i w. unfold ws. rewrite lookup_singleton_Some. intros [<- <-]. by repeat constructor.
  - exists (mkWatchedWorker (fs_second 30) "rev-1" [fs_stored_reg]). split; [vm_eq|]. unfold ids_in. cbn. set_solver.
Defined.

(** ** What is lost *)

(** A worker whose deadline passed registers again after the janitor's query and
    before its deletion: the new registration is deleted. *)
Example swept_registration_lost :
  let late := fs_second 60 in
  let '(rest, s, _) := run_for doc_do (fs_env late) 1 (sweepWorkers fs_cfg) fs_worker false in
  let again := fs_register late s in
  registrations_of fs_cfg again "w1" <> [] /\ registrations_of fs_cfg (fs_after (fs_call late rest [] again)) "w1" = [].
Proof. cbv zeta. vm_compute. by split. Qed.

(** A worker whose deadline passes between the reading of the clock in [Watch] and
    that in [readWorkers]: its heartbeats have stopped, and it is reported as removed. *)
Example expired_reported_removed :
  let w := mkWatchedWorker (fs_second 30) "rev-1" [fs_stored_reg] in
  let cur := watched_of fs_cfg (fs_second 31) [("w1"%string, mkDoc 1 (FsWorker fs_worker_doc))] in
  poll_updates (fs_second 30) {[ "w1"%string := w ]} cur [("w1"%string, w)] [] = emit RegistryUpdateRemoved [fs_stored_reg].
Proof. cbv zeta. vm_eq. Qed.

(** A worker that is unregistered between the read and the update of its heartbeat:
    the error does not say that the worker is unknown. *)
Example touch_of_deleted_worker :
  let '(rest, s, _) := run_for doc_do (fs_env (fs_second 1)) 1 (Touch fs_cfg "w1" (30 * 10 ^ 9)) fs_worker false in
  let gone := fs_after (fs_call (fs_second 1) (Delete fs_cfg "w1") [] s) in
  exists e, fs_answer (fs_call (fs_second 1) rest [] gone) = Err e /\ error_root e <> ErrUnknownWorker.
Proof. vm_compute. eexists. by split. Qed.

(** An error while the second of two timers is claimed: the first is gone. *)
Example claimed_with_error :
  let x := fs_call (fs_second 2) (DueTimers fs_cfg (fs_second 2)) [None; None; Some false] fs_timers in
  length (fst (fs_answer x)) = 1%nat /\ snd (fs_answer x) <> None /\ map_size (docs (fs_after x)) = 1%nat.
Proof. vm_compute. by split_and!. Qed.
