(* ===== verification/AzureTables.v ===== *)
(** * The registry store on Table Storage

    Models [brokers/azure-service-bus/registrystore.go]: workers, timers and
    last-event records as entities of three partitions ([Documents]), deletions on
    the condition of an ETag, the diff of two polls and the rounds of the sweeper.
    An entity has the data of its partition (the code stores JSON, which is read as
    it was written; times come back as the same instant).  Opening the table is a
    call of the client library, and the queue of a watcher is the one of
    [RegistryPump].  Then its theorems. *)

From S2P Require Import Prelude Decimal GoTime GoText Values Schema Messages Wire Programs Documents.
#[global] Open Scope Z_scope.

(** ** Entities *)

Record InstanceRecord : Type := mkInstanceRecord {
  ir_Key : ProcessKey;
  ir_CorrelationKey : option string;
  ir_Latest : bytes;
  ir_Terminal : bytes;
  ir_Finished : bool;
  ir_ExpiresAt : Time
}.

Record workerEntityData : Type := mkWorkerEntityData { we_Deadline : Time; we_Regs : bytes }.

Inductive Entity : Type :=
| WorkerEntity (d : workerEntityData)
| TimerEntity (fireAt : Time)
| InstanceEntity (r : InstanceRecord).

(** [json.Unmarshal] into the type of the partition *)
Definition as_worker (d : Entity) : option workerEntityData := match d with WorkerEntity d => Some d | _ => None end.
Definition as_timer (d : Entity) : option Time := match d with TimerEntity t => Some t | _ => None end.
Definition as_instance (d : Entity) : option InstanceRecord := match d with InstanceEntity r => Some r | _ => None end.

Definition partitionWorkers : string := "worker".
Definition partitionTimers : string := "timer".
Definition partitionInstances : string := "inst".

Record TableRegistryStoreConfig : Type := mkTableConfig {
  Cipher : option PayloadCipher;
  PollInterval : Z;
  SweepInterval : Z;
  SweepGrace : Z
}.
(** The defaults that [NewTableRegistryStore] fills in. *)
Definition with_defaults (cfg : TableRegistryStoreConfig) : TableRegistryStoreConfig :=
  mkTableConfig (Cipher cfg) (if PollInterval cfg <=? 0 then 200 * 10 ^ 6 else PollInterval cfg)
    (if SweepInterval cfg <=? 0 then 500 * 10 ^ 6 else SweepInterval cfg) (if SweepGrace cfg <=? 0 then 2 * 10 ^ 9 else SweepGrace cfg).

(** What a poll has seen of a worker. *)
Record workerView : Type := mkWorkerView { wv_live : bool; wv_regs : gmap ProcessKey ProcessRegistration }.
Abbreviation Views := (gmap string workerView).

Section Store.
Context `{!Cbor Envelope, !Cbor ProcessRegistration, !Cbor (list ProcessRegistration)}.
Variable cfg : TableRegistryStoreConfig.

Abbreviation P A := (Prog (DocReq Entity) (DocReply Entity) bool RegUpdate A).
Abbreviation M A := (Prog (DocReq Entity) (DocReply Entity) bool RegUpdate (result A)).

Definition decode_failed : GoError := ErrorText "azuresb: decode entity data".

Definition putEntity (pk rk : string) (data : Entity) : M unit :=
  let? _ := wrapped ("azuresb: upsert " +:+ pk +:+ "/" +:+ rk) (request (Write (pk, rk) data)) in ret tt.

(** [getEntity]: [None] for a missing entity. *)
Definition getEntity {A} (pk rk : string) (into : Entity -> option A) : M (option A) :=
  let? r := wrapped ("azuresb: get " +:+ pk +:+ "/" +:+ rk) (request (Read (pk, rk))) in
  match r with
  | Found (Some d) => match into (d_body d) with Some a => ret (Some a) | None => fail decode_failed end
  | _ => ret None
  end.

Definition all_rows (_ : string) (_ : Entity) : bool := true.
Definition listEntities (pk : string) : M (list (string * Doc Entity)) :=
  let? r := wrapped ("azuresb: list " +:+ pk +:+ " entities") (request (Listing pk all_rows)) in
  ret (match r with Listed l => l | _ => [] end).

(** [Close]: [true] when this call stopped the sweeper. *)
Definition Close : P bool := Local (fun _ => true) (fun closed => Ret (negb closed)).

(** ** Workers *)

Definition decodeRegs (envData : bytes) : result (list ProcessRegistration) :=
  let! env := DecodeEnvelope envData (Cipher cfg) in DecodePayload env.
Definition encode_regs (regs : list ProcessRegistration) : M bytes :=
  let~ rand := Random Ret in Ret (EncodeEnvelope KindRegistration "" None regs (Cipher cfg) rand).

Definition first_regs (prior : list ProcessRegistration) : gmap ProcessKey Time :=
  fold_left (fun m p => <[ProcessRegistration_Key p := pr_RegisteredAt p]> m) prior ∅.
Definition keep_first (firstReg : gmap ProcessKey Time) (r : ProcessRegistration) : ProcessRegistration :=
  match firstReg !! ProcessRegistration_Key r with
  | Some first =>
      if TimeEqual first zeroTime then r
      else mkProcessRegistration (pr_Namespace r) (pr_ProcessID r) (pr_Version r) (pr_Name r) (pr_Description r)
             (pr_StartEvents r) (pr_EndEvents r) (pr_AllowExternalCancel r) (pr_AllowExternalTerminate r) (pr_Markdown r)
             (pr_WorkerID r) first (pr_LastHeartbeat r)
  | None => r
  end.

(** What the entity that was read has; a failure to read it is not noticed. *)
Definition prior_firsts (existing : result (option workerEntityData)) : gmap ProcessKey Time :=
  match existing with
  | Ok (Some d) => match decodeRegs (we_Regs d) with Ok old => first_regs old | Err _ => ∅ end
  | _ => ∅
  end.

Definition PutRegistrations (workerID : string) (regs : list ProcessRegistration) (ttl : Z) : M unit :=
  let~ existing := getEntity partitionWorkers workerID as_worker in
  let? env := encode_regs (map (keep_first (prior_firsts existing)) regs) in
  let~ now := Clock Ret in
  putEntity partitionWorkers workerID (WorkerEntity (mkWorkerEntityData (TimeAdd now ttl) env)).

Definition Touch (workerID : string) (ttl : Z) : M unit :=
  let? found := getEntity partitionWorkers workerID as_worker in
  match found with
  | None => fail ErrUnknownWorker
  | Some data =>
      match decodeRegs (we_Regs data) with
      | Err e => fail e
      | Ok regs =>
          let~ now := Clock Ret in
          let? env := encode_regs (map (set_LastHeartbeat now) regs) in
          putEntity partitionWorkers workerID (WorkerEntity (mkWorkerEntityData (TimeAdd now ttl) env))
      end
  end.

(** A deletion without an ETag; [Refused] is a 404. *)
Definition Delete (workerID : string) : M unit :=
  let? r := wrapped ("azuresb: delete worker " +:+ workerID) (request (Remove (partitionWorkers, workerID) exists_doc)) in
  match r with Refused _ => fail ErrUnknownWorker | _ => ret tt end.

Fixpoint regs_of_rows (rows : list (string * Doc Entity)) : result (list ProcessRegistration) :=
  match rows with
  | [] => Ok []
  | row :: rows' =>
      match as_worker (d_body (snd row)) with
      | None => regs_of_rows rows'
      | Some data => let! regs := decodeRegs (we_Regs data) in let! rest := regs_of_rows rows' in Ok (regs ++ rest)
      end
  end.
Definition Snapshot : M (list ProcessRegistration) :=
  let? rows := listEntities partitionWorkers in Ret (regs_of_rows rows).

(** ** Watching *)

Definition view_of (now : Time) (data : workerEntityData) (regs : list ProcessRegistration) : workerView :=
  mkWorkerView (TimeBefore now (we_Deadline data)) (fold_left (fun m r => <[ProcessRegistration_Key r := r]> m) regs ∅).
Definition views_of (now : Time) (rows : list (string * Doc Entity)) : Views :=
  fold_left (fun views row => match as_worker (d_body (snd row)) with
                              | None => views
                              | Some data => match decodeRegs (we_Regs data) with
                                             | Err _ => views
                                             | Ok regs => <[fst row := view_of now data regs]> views
                                             end
                              end) rows ∅.

Definition pollWorkers : M Views :=
  let? rows := listEntities partitionWorkers in
  let~ now := Clock Ret in
  ret (views_of now rows).

(** The updates of a loop. *)
Fixpoint for_each {A} (f : A -> P (list RegUpdate)) (l : list A) : P (list RegUpdate) :=
  match l with
  | [] => Ret []
  | a :: l' => let~ us := f a in let~ rest := for_each f l' in Ret (us ++ rest)
  end.

Definition emitAll (kind : RegistryUpdateKind) (regs : gmap ProcessKey ProcessRegistration) : P (list RegUpdate) :=
  let~ l := in_some_order (map_to_list regs) in Ret (emit kind (map snd l)).
(** The registrations under keys that the other map does not have. *)
Definition emitMissing (kind : RegistryUpdateKind) (regs other : gmap ProcessKey ProcessRegistration) : P (list RegUpdate) :=
  let~ l := in_some_order (map_to_list regs) in
  Ret (emit kind (omap (fun p => match other !! fst p with Some _ => None | None => Some (snd p) end) l)).

Definition diff_old (cur : Views) (p : string * workerView) : P (list RegUpdate) :=
  let was := snd p in
  match cur !! fst p with
  | None => if wv_live was then emitAll RegistryUpdateRemoved (wv_regs was) else Ret []
  | Some now =>
      if negb (wv_live now) then if wv_live was then emitAll RegistryUpdateHeartbeatLost (wv_regs was) else Ret []
      else if negb (wv_live was) then emitAll RegistryUpdateAdded (wv_regs now)
      else
        let~ a := emitMissing RegistryUpdateAdded (wv_regs now) (wv_regs was) in
        let~ r := emitMissing RegistryUpdateRemoved (wv_regs was) (wv_regs now) in
        Ret (a ++ r)
  end.
Definition diff_new (prev : Views) (p : string * workerView) : P (list RegUpdate) :=
  match prev !! fst p with
  | Some _ => Ret []
  | None => if wv_live (snd p) then emitAll RegistryUpdateAdded (wv_regs (snd p)) else Ret []
  end.
Definition diffWorkerViews (prev cur : Views) : P (list RegUpdate) :=
  let~ os := in_some_order (map_to_list prev) in
  let~ a := for_each (diff_old cur) os in
  let~ ns := in_some_order (map_to_list cur) in
  let~ b := for_each (diff_new prev) ns in
  Ret (a ++ b).

(** [Watch] polls for its baseline; a round of its loop: the view to go on with, and
    what was pushed. *)
Definition Watch : M Views := pollWorkers.
Definition watchRound (prev : Views) : P (Views * list RegUpdate) :=
  let~ cur := pollWorkers in
  match cur with
  | Err _ => Ret (prev, [])
  | Ok cur => let~ us := diffWorkerViews prev cur in Ret (cur, us)
  end.

(** ** Timers *)

Definition PutTimer (instanceID : string) (fireAt : Time) : M unit := putEntity partitionTimers instanceID (TimerEntity fireAt).

Definition due (now : Time) (row : string * Doc Entity) : bool :=
  match as_timer (d_body (snd row)) with Some t => negb (TimeAfter t now) | None => false end.
(** The deletion of a row on its ETag; [Refused] is a 404 or a 412. *)
Definition claim (row : string * Doc Entity) : DocReq Entity := Remove (partitionTimers, fst row) (if_match (d_tag (snd row))).

Definition DueTimers (now : Time) : P (list string * option GoError) :=
  let~ rows := listEntities partitionTimers in
  match rows with
  | Err e => Ret ([], Some e)
  | Ok rows => claim_each fst claim (fun _ => None) (fun row => WrapError ("azuresb: claim timer " +:+ fst row)) (List.filter (due now) rows) []
  end.

Definition DeleteTimer (instanceID : string) : M unit :=
  let? _ := wrapped ("azuresb: delete timer " +:+ instanceID) (request (Remove (partitionTimers, instanceID) exists_doc)) in ret tt.

(** ** Last-event records *)

Definition PutInstanceRecord (instanceID : string) (rec : InstanceRecord) : M unit := putEntity partitionInstances instanceID (InstanceEntity rec).

(** Finished, and past its retention deadline *)
Definition retired (now : Time) (rec : InstanceRecord) : bool :=
  ir_Finished rec && negb (TimeEqual (ir_ExpiresAt rec) zeroTime) && TimeAfter now (ir_ExpiresAt rec).

Definition GetInstanceRecord (instanceID : string) : M (option InstanceRecord) :=
  let? found := getEntity partitionInstances instanceID as_instance in
  match found with
  | None => ret None
  | Some rec => let~ now := Clock Ret in ret (if retired now rec then None else Some rec)
  end.

(** [memRecordStore], a map under its lock *)
Definition mem_Put (instanceID : string) (rec : InstanceRecord) (recs : gmap string InstanceRecord) : gmap string InstanceRecord :=
  <[instanceID := rec]> recs.
Definition mem_Get (now : Time) (instanceID : string) (recs : gmap string InstanceRecord) : option InstanceRecord :=
  match recs !! instanceID with
  | None => None
  | Some rec => if retired now rec then None else Some rec
  end.

(** ** The sweeper *)

Fixpoint deleteRows (q : string * Doc Entity -> DocReq Entity) (rows : list (string * Doc Entity)) : P unit :=
  match rows with
  | [] => Ret tt
  | row :: rows' => let~ _ := request (q row) in deleteRows q rows'
  end.

Definition lapsed (now : Time) (row : string * Doc Entity) : bool :=
  match as_worker (d_body (snd row)) with Some data => TimeAfter now (TimeAdd (we_Deadline data) (SweepGrace cfg)) | None => false end.
Definition expired (now : Time) (row : string * Doc Entity) : bool :=
  match as_instance (d_body (snd row)) with Some rec => retired now rec | None => false end.

Definition sweepOnce (now : Time) : P unit :=
  let~ ws := listEntities partitionWorkers in
  let~ _ := (match ws with
             | Ok rows => deleteRows (fun row => Remove (partitionWorkers, fst row) (if_match (d_tag (snd row)))) (List.filter (lapsed now) rows)
             | Err _ => Ret tt
             end) in
  let~ recs := listEntities partitionInstances in
  match recs with
  | Ok rows => deleteRows (fun row => Remove (partitionInstances, fst row) exists_doc) (List.filter (expired now) rows)
  | Err _ => Ret tt
  end.
(** A round of [sweep] *)
Definition sweepRound : P unit := let~ now := Clock Ret in sweepOnce now.

End Store.

(** ** What the calls ask of the service *)

Section Laws.
Context `{!Cbor Envelope, !Cbor ProcessRegistration, !Cbor (list ProcessRegistration)}.
Variable cfg : TableRegistryStoreConfig.

Section Kinds.
Variable rules : Rules (DocReq Entity) (DocReply Entity) (Table Entity).
Variable ok : DocReq Entity -> Prop.
Variable rep : DocReq Entity -> DocReply Entity -> Prop.
Abbreviation only_ p := (only rules ok rep p (fun _ => True)).
Hypothesis ok_read : forall k, ok (Read k).
Hypothesis ok_listing : forall p sel, ok (Listing p sel).

Lemma only_getEntity {A} pk rk (into : Entity -> option A) : only_ (getEntity pk rk into).
Proof. unfold getEntity. only_all. by apply only_wrapped_request. Qed.

Lemma only_putEntity pk rk data : ok (Write (pk, rk) data) -> only_ (putEntity pk rk data).
Proof. intros H. unfold putEntity. only_all. by apply only_wrapped_request. Qed.

Lemma only_listEntities pk : only_ (listEntities pk).
Proof. unfold listEntities. only_all. by apply only_wrapped_request. Qed.

(** What is listed is what the reply has. *)
Lemma listEntities_rows pk :
  only rules ok rep (listEntities pk) (fun r => forall rows, r = Ok rows -> rep (Listing pk all_rows) (Listed rows) \/ rows = []).
Proof.
  unfold listEntities, wrapped, request, bind_ok. cbn [bind ret fail only]. split; [apply ok_listing|]. split; [|by intros e rows].
  intros r Hr. cbn [bind ret fail only]. intros rows [= <-]. destruct r; auto.
Qed.

Lemma only_encode_regs regs : only_ (encode_regs cfg regs).
Proof. unfold encode_regs. only_all. Qed.

Lemma az_only_PutRegistrations w regs ttl :
  (forall v, ok (Write (partitionWorkers, w) v)) -> only_ (PutRegistrations cfg w regs ttl).
Proof. intros H. unfold PutRegistrations. only_all; [apply only_getEntity|apply only_encode_regs|by apply only_putEntity]. Qed.

Lemma az_only_Touch w ttl : (forall v, ok (Write (partitionWorkers, w) v)) -> only_ (Touch cfg w ttl).
Proof. intros H. unfold Touch. only_all; [apply only_getEntity|apply only_encode_regs|by apply only_putEntity]. Qed.

Lemma az_only_Delete w : ok (Remove (partitionWorkers, w) exists_doc) -> only_ (Delete w).
Proof. intros H. unfold Delete. only_all. by apply only_wrapped_request. Qed.

Lemma az_only_Snapshot : only_ (Snapshot cfg).
Proof. unfold Snapshot. only_all. apply only_listEntities. Qed.

Lemma only_pollWorkers : only_ (pollWorkers cfg).
Proof. unfold pollWorkers. only_all. apply only_listEntities. Qed.

Lemma only_for_each {A} (f : A -> Prog (DocReq Entity) (DocReply Entity) bool RegUpdate (list RegUpdate)) l :
  (forall a, only_ (f a)) -> only_ (for_each f l).
Proof. intros H. induction l as [|a l IH]; cbn [for_each]; only_all. Qed.

Lemma only_diffWorkerViews prev cur : only_ (diffWorkerViews prev cur).
Proof.
  unfold diffWorkerViews. only_all; apply only_for_each; intros p; unfold diff_old, diff_new, emitAll, emitMissing; only_all.
Qed.

Lemma az_only_watchRound prev : only_ (watchRound cfg prev).
Proof. unfold watchRound. only_all; [apply only_pollWorkers|apply only_diffWorkerViews]. Qed.

Lemma az_only_PutTimer i t : (forall v, ok (Write (partitionTimers, i) v)) -> only_ (PutTimer i t).
Proof. intros H. apply only_putEntity, H. Qed.

Lemma az_only_DueTimers now : (forall row, ok (claim row)) -> only_ (DueTimers now).
Proof. intros H. unfold DueTimers. only_all; [apply only_listEntities|]. apply only_claim_each. intros c _. apply H. Qed.

Lemma az_only_DeleteTimer i : ok (Remove (partitionTimers, i) exists_doc) -> only_ (DeleteTimer i).
Proof. intros H. unfold DeleteTimer. only_all. by apply only_wrapped_request. Qed.

Lemma only_PutInstanceRecord i r : (forall v, ok (Write (partitionInstances, i) v)) -> only_ (PutInstanceRecord i r).
Proof. intros H. apply only_putEntity, H. Qed.

Lemma only_GetInstanceRecord i : only_ (GetInstanceRecord i).
Proof. unfold GetInstanceRecord. only_all. apply only_getEntity. Qed.

Lemma only_deleteRows q rows : (forall row, row ∈ rows -> ok (q row)) -> only_ (deleteRows q rows).
Proof.
  induction rows as [|row rows IH]; intros H; cbn [deleteRows]; [done|]. apply only_seq.
  - apply only_request, H, elem_of_cons. by left.
  - intros _. apply IH. intros r Hr. apply H, elem_of_cons. by right.
Qed.

(** What the sweeper deletes is what it listed, if that had lapsed. *)
Lemma az_only_sweepRound :
  (forall now rows row, clock rules now -> rep (Listing partitionWorkers all_rows) (Listed rows) -> row ∈ rows -> lapsed cfg now row = true ->
     ok (Remove (partitionWorkers, fst row) (if_match (d_tag (snd row))))) ->
  (forall id, ok (Remove (partitionInstances, id) exists_doc)) -> only_ (sweepRound cfg).
Proof.
  intros Hw Hi. unfold sweepRound, sweepOnce. cbn [bind only]. intros now Hn.
  eapply (only_bind rules (fun _ => True) ok rep); [apply listEntities_rows|]. intros ws Hws. apply only_seq.
  - destruct ws as [rows|e]; [|done]. apply only_deleteRows. intros row [Hin Hl]%list_elem_of_In%filter_In. apply list_elem_of_In in Hin.
    destruct (Hws rows eq_refl) as [Hr| ->]; [by apply (Hw now rows)|by apply elem_of_nil in Hin].
  - intros _. apply only_seq; [apply only_listEntities|]. intros [rows|e]; [|done]. apply only_deleteRows. intros row _. apply Hi.
Qed.

End Kinds.

(** ** A timer is claimed once *)

(** The calls of the processes that share a table, other than putting the timer of
    one instance, with the ids that were claimed. *)
Inductive timer_calls (id : string) : Prog (DocReq Entity) (DocReply Entity) bool RegUpdate (list string) -> Prop :=
| tc_DueTimers now : timer_calls id (let~ r := DueTimers now in Ret (fst r))
| tc_PutTimer i t : i <> id -> timer_calls id (quietly [] (PutTimer i t))
| tc_DeleteTimer i : timer_calls id (quietly [] (DeleteTimer i))
| tc_PutRegistrations w regs ttl : timer_calls id (quietly [] (PutRegistrations cfg w regs ttl))
| tc_Touch w ttl : timer_calls id (quietly [] (Touch cfg w ttl))
| tc_Delete w : timer_calls id (quietly [] (Delete w))
| tc_Snapshot : timer_calls id (quietly [] (Snapshot cfg))
| tc_Watch : timer_calls id (quietly [] (Watch cfg))
| tc_watchRound prev : timer_calls id (quietly [] (watchRound cfg prev))
| tc_PutInstanceRecord i r : timer_calls id (quietly [] (PutInstanceRecord i r))
| tc_GetInstanceRecord i : timer_calls id (quietly [] (GetInstanceRecord i))
| tc_sweepRound : timer_calls id (quietly [] (sweepRound cfg))
| tc_Close : timer_calls id (quietly [] Close).

Section Claiming.
Variable clk : Time -> Prop.
Variable id : string.
Abbreviation key := (partitionTimers, id).
Abbreviation keeps p t Q := (wp (doc_rules clk) (taken_once key) (fun _ => True) p t Q).

Lemma az_DueTimers_keeps now : keeps (let~ r := DueTimers now in Ret (fst r)) none (fun ids t => (times_in id ids <= t)%nat).
Proof.
  apply wp_bind. unfold DueTimers, listEntities, wrapped, request, bind_ok. cbn [bind]. apply spare_request_wp; [done|].
  intros [r|e]; cbn [bind ret fail]; [|cbn; lia]. apply claim_each_wp; [|done|cbn; lia]. intros c <-. by eexists.
Qed.

Lemma az_timer_calls_keep p : timer_calls id p -> keeps p none (fun ids t => (times_in id ids <= t)%nat).
Proof.
  intros [now|i t Hne|i|w regs ttl|w ttl|w| | |prev|i r|i| |]; try apply quietly_wp.
  - apply az_DueTimers_keeps.
  - apply az_only_PutTimer. intros v [= E]. done.
  - by apply az_only_DeleteTimer.
  - by apply az_only_PutRegistrations.
  - by apply az_only_Touch.
  - by apply az_only_Delete.
  - by apply az_only_Snapshot.
  - by apply only_pollWorkers.
  - by apply az_only_watchRound.
  - by apply only_PutInstanceRecord.
  - by apply only_GetInstanceRecord.
  - by apply az_only_sweepRound.
  - unfold Close. only_all.
Qed.

End Claiming.

(** The deletions on an ETag claim a timer for one caller, under any interleaving and
    whatever is lost. *)
Theorem azure_timer_claimed_once clk id fresh_local tick s w :
  (forall s s', tick s s' -> expiring s s') ->
  reachable (doc_rules clk) (timer_calls id) fresh_local tick s w ->
  (times_in id (concat (results w)) <= 1)%nat.
Proof. intros Ht. apply taken_reachable with (k0 := (partitionTimers, id)); [|done]. apply az_timer_calls_keep. Qed.

End Laws.

(** ** The feed of a watcher *)

Section Feed.
(** No requests are made. *)
Variable clk : Time -> Prop.
Abbreviation yields p K := (only (doc_rules clk) (fun _ => False) (fun _ _ => True) p K).

(** Every registration is of the worker under which it is seen, under its own key. *)
Definition stamped (i : string) (w : workerView) : Prop := forall k r, wv_regs w !! k = Some r -> reg_id r = (i, k).
Definition all_stamped (ws : Views) : Prop := forall i w, ws !! i = Some w -> stamped i w.

Definition has (w : workerView) (x : string * ProcessKey) : Prop := wv_live w = true /\ is_Some (wv_regs w !! snd x).
Definition offers (ws : Views) (x : string * ProcessKey) : Prop := exists w, ws !! fst x = Some w /\ has w x.

Lemma ids_of_regs i w l x : stamped i w -> l ≡ₚ map_to_list (wv_regs w) ->
  x ∈ ids_in (map snd l) <-> fst x = i /\ is_Some (wv_regs w !! snd x).
Proof.
  intros Hs Hp. unfold ids_in. rewrite elem_of_list_to_set, map_map. split.
  - intros ([k r] & -> & Hin)%list_elem_of_fmap. rewrite Hp in Hin. apply elem_of_map_to_list in Hin. cbn beta. cbn [snd]. rewrite (Hs k r Hin). cbn. eauto.
  - intros [<- [r Hr]]. apply list_elem_of_fmap. exists (snd x, r). cbn beta. cbn [snd]. rewrite (Hs _ _ Hr). split; [by destruct x|].
    rewrite Hp. by apply elem_of_map_to_list.
Qed.

Lemma ids_of_missing i w other l x : stamped i w -> l ≡ₚ map_to_list (wv_regs w) ->
  x ∈ ids_in (omap (fun p => match other !! fst p with Some _ => None | None => Some (snd p) end) l) <->
  fst x = i /\ is_Some (wv_regs w !! snd x) /\ (other : gmap ProcessKey ProcessRegistration) !! snd x = None.
Proof.
  intros Hs Hp. unfold ids_in. rewrite elem_of_list_to_set. split.
  - intros (r & -> & ([k r'] & Hin & E)%list_elem_of_omap)%list_elem_of_fmap. cbn in E. destruct (other !! k) eqn:Ho; [done|]. injection E as ->.
    rewrite Hp in Hin. apply elem_of_map_to_list in Hin. rewrite (Hs k r Hin). cbn. eauto.
  - intros (<- & [r Hr] & Ho). apply list_elem_of_fmap. exists r. rewrite (Hs _ _ Hr). split; [by destruct x|].
    apply list_elem_of_omap. exists (snd x, r). cbn. rewrite Ho. split; [|done]. rewrite Hp. by apply elem_of_map_to_list.
Qed.

(** What the updates of a worker do to a watcher who knew [old] of it. *)
Definition leads (i : string) (old new : string * ProcessKey -> Prop) (us : list RegUpdate) : Prop :=
  forall x, (i <> fst x -> untouched us x) /\ (i = fst x -> forall v, (x ∈ v <-> old x) -> x ∈ observed us v <-> new x).

Lemma leads_nil i (old new : string * ProcessKey -> Prop) : (forall x, i = fst x -> old x <-> new x) -> leads i old new [].
Proof. intros H x. split; [done|]. intros E v Hv. cbn. by rewrite Hv, H. Qed.

Lemma emitAll_leads i w kind (old new : string * ProcessKey -> Prop) :
  stamped i w -> kind <> RegistryUpdateSnapshotComplete ->
  (forall x, i = fst x -> if bool_decide (kind = RegistryUpdateRemoved \/ kind = RegistryUpdateHeartbeatLost)
     then old x /\ ~ is_Some (wv_regs w !! snd x) <-> new x else old x \/ is_Some (wv_regs w !! snd x) <-> new x) ->
  yields (emitAll kind (wv_regs w)) (leads i old new).
Proof.
  intros Hs Hk H. unfold emitAll, in_some_order. cbn [bind only]. intros ix Hix. apply reordered in Hix. intros x. split.
  - intros Hne. apply emit_untouched; [done|]. rewrite (ids_of_regs i w _ x Hs Hix). by intros [E _].
  - intros E v Hv. specialize (H x E). case_bool_decide as Hd.
    + rewrite emit_removes by done. rewrite elem_of_difference, (ids_of_regs i w _ x Hs Hix). naive_solver.
    + rewrite emit_adds by (destruct kind; naive_solver). rewrite elem_of_union, (ids_of_regs i w _ x Hs Hix). naive_solver.
Qed.

Lemma for_each_yields {A} (f : A -> Prog (DocReq Entity) (DocReply Entity) bool RegUpdate (list RegUpdate)) K l :
  (forall a, a ∈ l -> yields (f a) (K a)) -> yields (for_each f l) (fun us => exists uss, us = concat uss /\ Forall2 K l uss).
Proof.
  induction l as [|a l IH]; intros H; cbn [for_each]; [by exists []|].
  eapply (only_bind _ (fun _ => True)); [apply H, elem_of_cons; by left|]. intros us Hus.
  eapply (only_bind _ (fun _ => True)); [apply IH; intros b Hb; apply H, elem_of_cons; by right|]. intros rest (uss & -> & Hf).
  exists (us :: uss). split; [done|]. by constructor.
Qed.

Lemma diff_old_leads cur i w : stamped i w -> all_stamped cur ->
  yields (diff_old cur (i, w)) (leads i (has w) (fun x => exists w', cur !! i = Some w' /\ has w' x)).
Proof.
  intros Hs Hc. unfold diff_old. cbn [fst snd]. destruct (cur !! i) as [w'|] eqn:Hi.
  - pose proof (Hc i w' Hi) as Hs'. destruct (wv_live w') eqn:Hl'; cbn [negb].
    + destruct (wv_live w) eqn:Hl; cbn [negb].
      * unfold emitMissing, in_some_order. cbn [bind only]. intros ix Hix. apply reordered in Hix. cbn [bind only].
        intros ix' Hix'. apply reordered in Hix'. intros x. split.
        -- intros Hne. apply untouched_app; (apply emit_untouched; [done|]).
           ++ rewrite (ids_of_missing i w' _ _ x Hs' Hix). by intros [E _].
           ++ rewrite (ids_of_missing i w _ _ x Hs Hix'). by intros [E _].
        -- intros E v Hv. rewrite observed_app, emit_removes, emit_adds by auto.
           rewrite elem_of_difference, elem_of_union, (ids_of_missing i w' _ _ x Hs' Hix), (ids_of_missing i w _ _ x Hs Hix'), Hv.
           unfold has. rewrite Hl. rewrite <- !not_eq_None_Some.
           split.
           ++ intros [[(_ & H & _)|[_ H]] Hno]; exists w'; (split; [done|]); (split; [done|]); apply not_eq_None_Some; [done|].
              intros H'. by apply Hno.
           ++ intros (w2 & [= <-] & _ & H%not_eq_None_Some). split; [|by intros (_ & _ & H')].
              destruct (wv_regs w !! snd x); [by right|by left].
      * apply emitAll_leads; [done|done|]. intros x E. rewrite bool_decide_false by naive_solver. unfold has. rewrite Hl. naive_solver.
    + destruct (wv_live w) eqn:Hl.
      * apply emitAll_leads; [done|done|]. intros x E. rewrite bool_decide_true by auto. unfold has.
        split; [by intros [[_ H] H']|]. intros (w2 & [= <-] & H & _). congruence.
      * apply leads_nil. unfold has. intros x E. split; [intros [H _]; congruence|]. intros (w2 & [= <-] & H & _). congruence.
  - destruct (wv_live w) eqn:Hl.
    + apply emitAll_leads; [done|done|]. intros x E. rewrite bool_decide_true by auto. unfold has.
      split; [by intros [[_ H] H']|]. by intros (w2 & ? & _).
    + apply leads_nil. unfold has. intros x E. split; [intros [H _]; congruence|]. by intros (w2 & ? & _).
Qed.

Lemma diff_new_leads prev i w : stamped i w ->
  yields (diff_new prev (i, w)) (leads i (fun x => is_Some (prev !! i) /\ has w x) (has w)).
Proof.
  intros Hs. unfold diff_new. cbn [fst snd]. destruct (prev !! i) eqn:Hi.
  - apply leads_nil. intros x E. split; [by intros [_ H]|]. intros H. split; [by eexists|done].
  - destruct (wv_live w) eqn:Hl.
    + apply emitAll_leads; [done|done|]. intros x E. rewrite bool_decide_false by naive_solver. unfold has. rewrite Hl. split; [|naive_solver].
      intros [[[? ?] _]|H]; done.
    + apply leads_nil. unfold has. intros x E. rewrite Hl. split; [naive_solver|]. by intros [? _].
Qed.

Lemma offers_view ws w x : ws !! fst x = Some w -> offers ws x <-> has w x.
Proof. intros Hw. unfold offers. rewrite Hw. split; [by intros (w' & [= <-] & H)|]. by exists w. Qed.

(** A loop over a view leads where its updates lead for the worker in question. *)
Lemma loop_leads ws ps uss (old new : string -> workerView -> string * ProcessKey -> Prop) x :
  ps ≡ₚ map_to_list ws -> Forall2 (fun p us => leads (fst p) (old (fst p) (snd p)) (new (fst p) (snd p)) us) ps uss ->
  match ws !! fst x with
  | Some w => forall v, (x ∈ v <-> old (fst x) w x) -> x ∈ observed (concat uss) v <-> new (fst x) w x
  | None => untouched (concat uss) x
  end.
Proof.
  intros Hp Hf. destruct (observed_loop _ ps uss x Hf) as [H1 H2]; [rewrite Hp; apply NoDup_fst_map_to_list| |].
  - intros p us _ Hl. by apply Hl.
  - destruct (ws !! fst x) as [w|] eqn:Hw.
    + destruct (H1 w) as (us & Hl & Hv); [rewrite Hp; by apply elem_of_map_to_list|]. intros v Hx. rewrite Hv. by apply Hl.
    + apply H2. intros ([i w] & E & Hin)%list_elem_of_fmap. rewrite Hp in Hin. apply elem_of_map_to_list in Hin. cbn in E. congruence.
Qed.

Lemma in_order_yields {A B} (l : list A) (f : list A -> Prog (DocReq Entity) (DocReply Entity) bool RegUpdate B) K :
  (forall l', l' ≡ₚ l -> yields (f l') K) -> yields (let~ l' := in_some_order l in f l') K.
Proof. intros H. unfold in_some_order. cbn [bind only]. intros ix Hix. by apply H, reordered. Qed.

(** C36. The updates of a diff turn what a watcher knows from one view into the other,
    in whichever orders the maps are ranged over: a worker who is live offers its
    processes, one who is past its deadline or gone does not. *)
Theorem azure_diff_tracks prev cur : all_stamped prev -> all_stamped cur ->
  yields (diffWorkerViews prev cur) (fun us => forall v, (forall x, x ∈ v <-> offers prev x) -> forall x, x ∈ observed us v <-> offers cur x).
Proof.
  intros Hp Hc. unfold diffWorkerViews. apply in_order_yields. intros os Hos.
  eapply (only_bind _ (fun _ => True)).
  { apply for_each_yields with (K := fun p => leads (fst p) (has (snd p)) (fun x => exists w', cur !! fst p = Some w' /\ has w' x)).
    intros [i w] Hin. rewrite Hos in Hin. apply elem_of_map_to_list in Hin. exact (diff_old_leads cur i w (Hp i w Hin) Hc). }
  intros a (ua & -> & Ha). apply in_order_yields. intros ns Hns. eapply (only_bind _ (fun _ => True)).
  { apply for_each_yields with (K := fun p => leads (fst p) (fun x => is_Some (prev !! fst p) /\ has (snd p) x) (has (snd p))).
    intros [i w] Hin. rewrite Hns in Hin. apply elem_of_map_to_list in Hin. exact (diff_new_leads prev i w (Hc i w Hin)). }
  intros b (ub & -> & Hb). cbn [only]. intros v Hv x. rewrite observed_app.
  pose proof (loop_leads prev os ua (fun _ w => has w) (fun i _ x => exists w', cur !! i = Some w' /\ has w' x) x Hos Ha) as H1.
  pose proof (loop_leads cur ns ub (fun i w x => is_Some (prev !! i) /\ has w x) (fun _ w => has w) x Hns Hb) as H2.
  specialize (Hv x). destruct (prev !! fst x) as [pw|] eqn:Epw.
  - rewrite (offers_view prev pw x Epw) in Hv. specialize (H1 v Hv). destruct (cur !! fst x) as [cw|] eqn:Ecw.
    + rewrite (offers_view cur cw x Ecw). apply H2. rewrite H1. split; [intros (w & [= <-] & H); by split|]. intros [_ H]. by exists cw.
    + rewrite (H2 _), H1. unfold offers. by rewrite Ecw.
  - assert (Hx : x ∉ v) by (rewrite Hv; unfold offers; rewrite Epw; by intros (w & ? & _)).
    destruct (cur !! fst x) as [cw|] eqn:Ecw.
    + rewrite (offers_view cur cw x Ecw). apply H2. rewrite (H1 v). split; [done|]. intros [[? ?] _]. congruence.
    + rewrite (H2 _), (H1 v). unfold offers. rewrite Ecw. split; [done|]. by intros (w & ? & _).
Qed.

End Feed.

(** ** A live worker stays registered *)

Section Kept.
Context `{!Cbor Envelope, !Cbor ProcessRegistration, !Cbor (list ProcessRegistration)}.
Variable cfg : TableRegistryStoreConfig.

(** The calls of the processes that share a table, other than those for one worker,
    with what a snapshot returned. *)
Abbreviation Seen := (option (result (list ProcessRegistration))).

Inductive worker_calls (w : string) : Prog (DocReq Entity) (DocReply Entity) bool RegUpdate Seen -> Prop :=
| wc_Snapshot : worker_calls w (let~ r := Snapshot cfg in Ret (Some r))
| wc_PutRegistrations v regs ttl : v <> w -> worker_calls w (quietly None (PutRegistrations cfg v regs ttl))
| wc_Touch v ttl : v <> w -> worker_calls w (quietly None (Touch cfg v ttl))
| wc_Delete v : v <> w -> worker_calls w (quietly None (Delete v))
| wc_Watch : worker_calls w (quietly None (Watch cfg))
| wc_watchRound prev : worker_calls w (quietly None (watchRound cfg prev))
| wc_PutTimer i t : worker_calls w (quietly None (PutTimer i t))
| wc_DueTimers now : worker_calls w (quietly None (DueTimers now))
| wc_DeleteTimer i : worker_calls w (quietly None (DeleteTimer i))
| wc_PutInstanceRecord i r : worker_calls w (quietly None (PutInstanceRecord i r))
| wc_GetInstanceRecord i : worker_calls w (quietly None (GetInstanceRecord i))
| wc_sweepRound : worker_calls w (quietly None (sweepRound cfg))
| wc_Close : worker_calls w (quietly None Close).

Section Serving.
Variable clk : Time -> Prop.
Variable w : string.
Variable d0 : Doc Entity.
Variable data0 : workerEntityData.
Variable regs0 : list ProcessRegistration.
Hypothesis typed : as_worker (d_body d0) = Some data0.
Hypothesis decodes : decodeRegs cfg (we_Regs data0) = Ok regs0.
Hypothesis not_swept : forall t, clk t -> TimeAfter t (TimeAdd (we_Deadline data0) (SweepGrace cfg)) = false.
Abbreviation key := (partitionWorkers, w).
Abbreviation harmless p K := (only (doc_rules clk) (harmless_to key d0) (shows key d0) p K).

Definition lists_it (a : Seen) : Prop := forall regs, a = Some (Ok regs) -> forall r, r ∈ regs0 -> r ∈ regs.

Lemma regs_of_rows_in rows row regs : regs_of_rows cfg rows = Ok regs -> (row, d0) ∈ rows -> forall r, r ∈ regs0 -> r ∈ regs.
Proof.
  revert regs. induction rows as [|p rows IH]; intros regs H Hin r Hr; [by apply elem_of_nil in Hin|]. cbn [regs_of_rows] in H.
  apply elem_of_cons in Hin as [<-|Hin].
  - cbn [snd] in H. rewrite typed, decodes in H. cbn [result_bind] in H. destruct (regs_of_rows cfg rows); [|done]. injection H as <-.
    apply elem_of_app. by left.
  - destruct (as_worker (d_body (snd p))) as [data|]; [|by apply IH]. destruct (decodeRegs cfg (we_Regs data)); [|done]. cbn [result_bind] in H.
    destruct (regs_of_rows cfg rows); [|done]. injection H as <-. apply elem_of_app. right. by apply IH.
Qed.

Lemma az_Snapshot_lists : harmless (let~ r := Snapshot cfg in Ret (Some r)) lists_it.
Proof.
  unfold Snapshot, listEntities, wrapped, request, bind_ok. cbn [bind ret fail only]. split; [done|]. split; [|done].
  intros r Hr. destruct r as [| | |l]; [done..|]. cbn [shows fst snd] in Hr. destruct (Hr eq_refl) as [Hrow _]. specialize (Hrow eq_refl).
  cbn [bind ret fail only]. intros regs [= E]. by apply (regs_of_rows_in l w).
Qed.

Lemma az_worker_calls_harmless p : worker_calls w p -> harmless p lists_it.
Proof.
  assert (Hq : forall A (p : Prog (DocReq Entity) (DocReply Entity) bool RegUpdate A), harmless p (fun _ => True) -> harmless (quietly None p) lists_it).
  { intros A q H. by apply (only_bind _ (fun _ => True) _ _ _ _ (fun _ => True)). }
  assert (Hne : forall v, v <> w -> (partitionWorkers, v) <> key) by congruence.
  intros [|v regs ttl Hv|v ttl Hv|v Hv| |prev|i t|now|i|i r|i| |]; [apply az_Snapshot_lists|apply Hq..].
  - apply az_only_PutRegistrations; [done|]. intros v'. by apply Hne.
  - apply az_only_Touch; [done|]. intros v'. by apply Hne.
  - apply az_only_Delete. intros E. by apply Hne in E.
  - by apply only_pollWorkers.
  - by apply az_only_watchRound.
  - by apply az_only_PutTimer.
  - by apply az_only_DueTimers.
  - by apply az_only_DeleteTimer.
  - by apply only_PutInstanceRecord.
  - by apply only_GetInstanceRecord.
  - apply az_only_sweepRound; [done| |by intros id].
    intros now rows [id d] Hn Hr Hin Hl [= E]. cbn [fst] in E. subst id. destruct (Hr eq_refl) as [_ Ho].
    destruct (Ho d Hin) as [-> _]. unfold lapsed in Hl. cbn [snd] in Hl. by rewrite typed, not_swept in Hl.
  - unfold Close. only_all.
Qed.

End Serving.

(** A worker stays registered until a clock has passed its deadline and the grace,
    whatever the other workers, the sweepers and the watchers do, and whichever
    requests and replies are lost: every snapshot that succeeds has its registrations. *)
Theorem azure_live_worker_served clk w d0 data0 regs0 fresh_local tick s wd :
  let k := (partitionWorkers, w) in
  docs s !! k = Some d0 -> as_worker (d_body d0) = Some data0 -> decodeRegs cfg (we_Regs data0) = Ok regs0 ->
  (forall t, clk t -> TimeAfter t (TimeAdd (we_Deadline data0) (SweepGrace cfg)) = false) ->
  (forall s1 s2, tick s1 s2 -> docs s1 !! k = Some d0 -> docs s2 !! k = Some d0) ->
  reachable (doc_rules clk) (worker_calls w) fresh_local tick s wd ->
  docs (w_server wd) !! k = Some d0 /\
  forall regs, Some (Ok regs) ∈ results wd -> forall r, r ∈ regs0 -> r ∈ regs.
Proof.
  intros k Hs Hp Hd Hl Ht Hr.
  destruct (stays_reachable clk k d0 (lists_it regs0) (worker_calls w) fresh_local tick s wd) as [H1 H2]; [|done..|].
  - intros p Hc. by apply (az_worker_calls_harmless clk w d0 data0).
  - split; [done|]. intros regs Ha. by apply (H2 _ Ha).
Qed.

End Kept.

(** ** A concrete table *)

Definition az_reg : ProcessRegistration :=
  mkProcessRegistration "ns" "p" "1" None None [mkStartEventInfo "start" "" None] [] true false "" "w1" zeroTime zeroTime.
Definition az_other : ProcessRegistration :=
  mkProcessRegistration "ns" "p" "1" None None [mkStartEventInfo "go" "" None] [] false false "" "w1" zeroTime zeroTime.
Definition az_second (n : Z) : Time := mkTime (1700000000 + n) 0 UTC.
Definition az_env (now : Time) : Env := mkEnv now zeroRand "" true.
Definition az_cfg : TableRegistryStoreConfig := with_defaults (mkTableConfig None 0 0 0).

(** A call on its own at [now], with faults: its result, and the table. *)
Definition az_call {A} (now : Time) (p : Prog (DocReq Entity) (DocReply Entity) bool RegUpdate A) (faults : list (option bool)) (s : Table Entity)
  : A * Table Entity :=
  let '(a, _, s', _, _) := exec doc_do (az_env now) p faults s false in (a, s').

Definition az_register (t : Time) (regs : list ProcessRegistration) (s : Table Entity) : Table Entity :=
  snd (az_call t (PutRegistrations az_cfg "w1" regs (30 * 10 ^ 9)) [] s).
Definition az_worker : Table Entity := az_register (az_second 0) [az_reg] empty_table.
Definition az_timer : Table Entity := snd (az_call (az_second 0) (PutTimer "i-1" (az_second 1)) [] empty_table).
Definition az_timers : Table Entity := snd (az_call (az_second 0) (PutTimer "i-2" (az_second 1)) [] az_timer).

(** Any clock, and no expiry by the service. *)
Definition az_clock (_ : Time) : Prop := True.
Definition az_tick (_ _ : Table Entity) : Prop := False.
Definition az_open (closed : bool) : Prop := closed = false.

Lemma azure_timer_claimed_once_witness :
  exists wd : World (DocReq Entity) (DocReply Entity) (Table Entity) bool RegUpdate (list string),
    concat (results wd) = ["i-1"%string] /\ (times_in "i-1" (concat (results wd)) <= 1)%nat.
Proof.
  set (ps := [(let~ r := DueTimers (az_second 2) in Ret (fst r)); (let~ r := DueTimers (az_second 2) in Ret (fst r))]).
  set (rules := doc_rules (V := Entity) az_clock).
  pose proof (first_process rules (timer_calls az_cfg "i-1") az_open az_tick az_timer false eq_refl) as H0.
  destruct (checked_calls doc_do (az_env (az_second 2)) rules (fun _ _ => true) (fun q s _ => doc_do_step q s) I _ _ _ _ ps _ _ _ false 0%nat
    H0 (lookup_singleton_eq _ _)) as (ls & ts & Hr & Hts); [repeat constructor|vm_eq|].
  assert (E : results_of (exec_all doc_do (az_env (az_second 2)) ps az_timer false) = [["i-1"%string]; []]) by vm_eq.
  rewrite E in Hts. revert Hr. generalize (server_of (exec_all doc_do (az_env (az_second 2)) ps az_timer false)). intros s' Hr.
  exists (mkWorld s' ls ts). split; [by rewrite Hts|].
  refine (azure_timer_claimed_once az_cfg az_clock "i-1" az_open az_tick az_timer (mkWorld s' ls ts) _ Hr). intros s1 s2 [].
Defined.

Definition az_worker_data : workerEntityData :=
  match docs az_worker !! (partitionWorkers, "w1"%string) with
  | Some d => default (mkWorkerEntityData zeroTime []) (as_worker (d_body d))
  | None => mkWorkerEntityData zeroTime []
  end.
Definition az_ticking (t : Time) : Prop := TimeAfter t (az_second 32) = false.

Lemma azure_live_worker_served_witness :
  exists wd : World (DocReq Entity) (DocReply Entity) (Table Entity) bool RegUpdate (option (result (list ProcessRegistration))),
    Some (Ok [az_reg]) ∈ results wd /\
    docs (w_server wd) !! (partitionWorkers, "w1"%string) = Some (mkDoc 1 (WorkerEntity az_worker_data)).
Proof.
  set (ps := [quietly None (sweepRound az_cfg); (let~ r := Snapshot az_cfg in Ret (Some r))]).
  set (rules := doc_rules (V := Entity) az_ticking).
  pose proof (first_process rules (worker_calls az_cfg "w1") az_open az_tick az_worker false eq_refl) as H0.
  destruct (checked_calls doc_do (az_env (az_second 31)) rules (fun _ _ => true) (fun q s _ => doc_do_step q s) eq_refl _ _ _ _ ps _ _ _ false 0%nat
    H0 (lookup_singleton_eq _ _)) as (ls & ts & Hr & Hts); [repeat constructor|vm_eq|].
  assert (E : results_of (exec_all doc_do (az_env (az_second 31)) ps az_worker false) = [None; Some (Ok [az_reg])]) by vm_eq.
  rewrite E in Hts. revert Hr. generalize (server_of (exec_all doc_do (az_env (az_second 31)) ps az_worker false)). intros s' Hr.
  exists (mkWorld s' ls ts). split; [rewrite Hts; apply elem_of_cons; by left|].
  refine (proj1 (azure_live_worker_served az_cfg az_ticking "w1" (mkDoc 1 (WorkerEntity az_worker_data)) az_worker_data [az_reg] az_open az_tick az_worker
    (mkWorld s' ls ts) _ eq_refl _ _ _ Hr)).
  - vm_eq.
  - vm_eq.
  - intros t Ht. assert (Ed : TimeAdd (we_Deadline az_worker_data) (SweepGrace az_cfg) = az_second 32) by vm_eq. by rewrite Ed.
  - intros s1 s2 [].
Defined.

(** The worker is there, and then past its deadline. *)
Definition az_view (live : bool) : Views := {[ "w1"%string := mkWorkerView live {[ ProcessRegistration_Key az_reg := az_reg ]} ]}.

Lemma azure_diff_tracks_witness :
  only (doc_rules (V := Entity) az_clock) (fun _ => False) (fun _ _ => True)
    (diffWorkerViews (az_view true) (az_view false) : Prog (DocReq Entity) (DocReply Entity) bool RegUpdate (list RegUpdate))
    (fun us => forall v, (forall x, x ∈ v <-> offers (az_view true) x) -> forall x, x ∈ observed us v <-> offers (az_view false) x).
Proof.
  assert (H : forall live, all_stamped (az_view live)).
  { intros live i w Hi k r Hk. unfold az_view in Hi. apply lookup_singleton_Some in Hi as [<- <-]. cbn in Hk. apply lookup_singleton_Some in Hk as [<- <-]. done. }
  exact (azure_diff_tracks az_clock (az_view true) (az_view false) (H true) (H false)).
Defined.

(** ** What is lost *)

Definition az_snapshot (t : Time) (s : Table Entity) : result (list ProcessRegistration) := fst (az_call t (Snapshot az_cfg) [] s).

(** A worker that is unregistered between the read and the write of its heartbeat is
    registered again. *)
Example touch_resurrects :
  let '(rest, s, _) := run_for doc_do (az_env (az_second 1)) 1 (Touch az_cfg "w1" (30 * 10 ^ 9)) az_worker false in
  let gone := snd (az_call (az_second 1) (Delete "w1") [] s) in
  az_snapshot (az_second 1) gone = Ok [] /\
  az_snapshot (az_second 1) (snd (az_call (az_second 1) rest [] gone)) = Ok [set_LastHeartbeat (az_second 1) az_reg].
Proof. vm_compute. by split. Qed.

(** What a worker registers in between is replaced by what it had registered before. *)
Example touch_overwrites_registration :
  let '(rest, s, _) := run_for doc_do (az_env (az_second 1)) 1 (Touch az_cfg "w1" (30 * 10 ^ 9)) az_worker false in
  let again := az_register (az_second 1) [az_other] s in
  az_snapshot (az_second 1) again = Ok [az_other] /\
  az_snapshot (az_second 1) (snd (az_call (az_second 1) rest [] again)) = Ok [set_LastHeartbeat (az_second 1) az_reg].
Proof. vm_compute. by split. Qed.

(** A worker past its deadline, which the watchers have been told is lost, is live
    again after a heartbeat. *)
Example touch_revives_expired :
  let s := snd (az_call (az_second 31) (Touch az_cfg "w1" (30 * 10 ^ 9)) [] az_worker) in
  fst (az_call (az_second 31) (Touch az_cfg "w1" (30 * 10 ^ 9)) [] az_worker) = Ok tt /\
  (match fst (az_call (az_second 31) (pollWorkers az_cfg) [] az_worker) with Ok v => option_map wv_live (v !! "w1"%string) | Err _ => None end) = Some false /\
  (match fst (az_call (az_second 31) (pollWorkers az_cfg) [] s) with Ok v => option_map wv_live (v !! "w1"%string) | Err _ => None end) = Some true.
Proof. vm_compute. by split_and!. Qed.

(** A worker that registers a process again, with other properties: a watcher is sent nothing. *)
Example changed_registration_unseen :
  let v1 := fst (az_call (az_second 1) (pollWorkers az_cfg) [] az_worker) in
  let v2 := fst (az_call (az_second 1) (pollWorkers az_cfg) [] (az_register (az_second 1) [az_other] az_worker)) in
  match v1, v2 with Ok a, Ok b => fst (az_call (az_second 1) (diffWorkerViews a b) [] az_worker) = [] | _, _ => False end.
Proof. vm_compute. done. Qed.

(** An error while the second of two timers is claimed: the first is gone. *)
Example claimed_before_error :
  let x := az_call (az_second 2) (DueTimers (az_second 2)) [None; None; Some false] az_timers in
  length (fst (fst x)) = 1%nat /\ snd (fst x) <> None /\ map_size (docs (snd x)) = 1%nat.
Proof. vm_compute. by split_and!. Qed.
