(* ===== verification/DecisionNode.v ===== *)
(** * Decision nodes

    Models [core/decision_node.go] (typed handles, contracts, the erased view of
    a node) and [core/decision_native_fn.go].  A contract struct is a list of
    field descriptions; a value of it maps the variables whose handle is set to
    their values.  Compiled expressions belong to the expression library and are
    functions from an environment to a result. *)

From S2P Require Import Prelude Decimal GoTime Values.
#[global] Open Scope Z_scope.

(** ** Go types of values *)

(** The concrete Go type of a [BlValue]: the [T] of a [Handle[T]]. *)
Inductive GoType : Type :=
| GNull | GBoolean | GNumber | GString | GDate | GTime | GDateTime | GDaysTimeDuration
| GYearsMonthsDuration | GList | GDictionary | GRange | GTable | GCalendarEntry | GCalendar
| GRegex | GFunc | GSortKey.

#[global] Instance GoType_eq_dec : EqDecision GoType.
Proof. solve_decision. Defined.

(** [z.Type()] of a zero value. *)
Definition blType (t : GoType) : Ty :=
  match t with
  | GNull => TypeNull
  | GBoolean => TypeBoolean
  | GNumber => TypeNumber
  | GString => TypeString
  | GDate => TypeDate
  | GTime => TypeTime
  | GDateTime => TypeDateTime
  | GDaysTimeDuration => TypeDaysTimeDuration
  | GYearsMonthsDuration => TypeYearsMonthsDuration
  | GList => TypeList
  | GDictionary => TypeDictionary
  | GRange => TypeRange
  | GTable => TypeTable
  | GCalendarEntry => TypeAny
  | GCalendar => TypeCalendar
  | GRegex => TypeRegex
  | GFunc => TypeAny
  | GSortKey => TypeSortKey
  end.

(** ** Contracts *)

(** [decisionVar]: a variable and the [T] of its handle. *)
Record decisionVar : Type := mkVar { v_name : string; v_elem : GoType }.

(** A Go struct field: its name, whether it is exported, its [expr] tag, and
    the [T] when its type is a [Handle[T]]. *)
Record StructField : Type := mkStructField {
  sf_Name : string;
  sf_exported : bool;
  sf_tag : string;
  sf_handle : option GoType
}.

(** [isIdentByte], [isIdentifier] ([normalise.go]) *)
Definition in_range (lo hi : Z) (c : Ascii.ascii) : bool :=
  let n := Z.of_nat (Ascii.nat_of_ascii c) in (lo <=? n) && (n <=? hi).
Definition isIdentByte (c : Ascii.ascii) : bool :=
  in_range 97 122 c || in_range 65 90 c || in_range 48 57 c || in_range 95 95 c.

Fixpoint all_bytes (P : Ascii.ascii -> bool) (s : string) : bool :=
  match s with
  | EmptyString => true
  | String c s' => P c && all_bytes P s'
  end.

Definition isIdentifier (s : string) : bool :=
  match s with
  | EmptyString => false
  | String c _ => if in_range 48 57 c then false else all_bytes isIdentByte s
  end.

(** The problems a contract can have. *)
Inductive ContractProblem : Type :=
| NotAStruct
| UnexportedField (field : string)
| ExcludedField (field : string)
| BadIdentifier (name field : string)
| NotAHandle (name : string)
| DuplicateVariable (name : string).

(** [decisionFieldName] ([decision_expression.go]) *)
Definition decisionFieldName (f : StructField) : string + ContractProblem :=
  if negb (sf_exported f) then inr (UnexportedField (sf_Name f))
  else if String.eqb (sf_tag f) "-" then inr (ExcludedField (sf_Name f))
  else
    let name := if String.eqb (sf_tag f) "" then sf_Name f else sf_tag f in
    if negb (isIdentifier name) then inr (BadIdentifier name (sf_Name f)) else inl name.

(** [reflectContract]; [None] is a type that is not a struct. *)
Fixpoint reflect_fields (seen : list string) (fs : list StructField)
  : list decisionVar * list ContractProblem :=
  match fs with
  | [] => ([], [])
  | f :: fs' =>
      match decisionFieldName f with
      | inr p => let '(vs, ps) := reflect_fields seen fs' in (vs, p :: ps)
      | inl name =>
          match sf_handle f with
          | None => let '(vs, ps) := reflect_fields seen fs' in (vs, NotAHandle name :: ps)
          | Some t =>
              if bool_decide (name ∈ seen)
              then let '(vs, ps) := reflect_fields seen fs' in (vs, DuplicateVariable name :: ps)
              else let '(vs, ps) := reflect_fields (name :: seen) fs' in (mkVar name t :: vs, ps)
          end
      end
  end.

Definition reflectContract (t : option (list StructField)) : list decisionVar * list ContractProblem :=
  match t with
  | None => ([], [NotAStruct])
  | Some fs => reflect_fields [] fs
  end.

(** [nodeLabel] *)
Definition nodeLabel (id name fallback : string) : string :=
  if negb (String.eqb id "") then id else if negb (String.eqb name "") then name else fallback.

Section DecisionNode.
Context {DO : DecimalOps}.

Definition go_type (v : BlValue) : GoType :=
  match v with
  | BlNull => GNull
  | BlBoolean _ => GBoolean
  | BlNumber _ => GNumber
  | BlString _ => GString
  | BlDate _ _ => GDate
  | BlTime _ _ => GTime
  | BlDateTime _ _ => GDateTime
  | BlDaysTimeDuration _ => GDaysTimeDuration
  | BlYearsMonthsDuration _ => GYearsMonthsDuration
  | BlList _ => GList
  | BlDictionary _ => GDictionary
  | BlRange _ _ _ _ => GRange
  | BlTable _ _ => GTable
  | BlCalendarEntry _ _ => GCalendarEntry
  | BlCalendar _ _ _ => GCalendar
  | BlRegex _ => GRegex
  | BlFunc _ _ => GFunc
  | BlSortKey _ _ _ => GSortKey
  end.

(** A value of a contract struct: the handles that are set. *)
Abbreviation Struct := (gmap string BlValue).

(** [Handle.getValue] *)
Definition getValue (s : Struct) (name : string) : BlValue := default BlNull (s !! name).

(** [Handle.setValue]; a nil interface is [None].  [field] is the stamped name of
    the handle, empty in a fresh struct. *)
Definition setValue (v : decisionVar) (field : string) (val : option BlValue) (s : Struct) : result Struct :=
  let x := default BlNull val in
  if bool_decide (go_type x = v_elem v /\ val <> None)
  then Ok (<[v_name v := x]> s)
  else Err (TypeError "evaluate" ("field " +:+ quote field +:+ ": cannot assign " +:+ typeName (type_of x)
              +:+ " to " +:+ typeName (blType (v_elem v)))).

(** [inputFromMap] *)
Fixpoint inputFromMap (vars : list decisionVar) (vals : gmap string (option BlValue)) (s : Struct)
  : result Struct :=
  match vars with
  | [] => Ok s
  | v :: vars' =>
      match vals !! v_name v with
      | None => inputFromMap vars' vals s
      | Some val => let! s' := setValue v "" val s in inputFromMap vars' vals s'
      end
  end.

(** [outputToMap] *)
Definition outputToMap (out : Struct) (vars : list decisionVar) : gmap string (option BlValue) :=
  list_to_map (map (fun v => (v_name v, Some (getValue out (v_name v)))) vars).

(** A field of the env an expression runs in: set, or the zero value of its Go
    type. *)
Inductive EnvVal : Type := Bound (v : BlValue) | ZeroOf (t : GoType).

Abbreviation Env := (list (string * EnvVal)).

(** [makeEnv] *)
Definition makeEnv (vars : list decisionVar) (vals : gmap string BlValue) : Env :=
  map (fun v =>
    (v_name v,
     match vals !! v_name v with
     | Some val => if bool_decide (go_type val = v_elem v) then Bound val else ZeroOf (v_elem v)
     | None => ZeroOf (v_elem v)
     end)) vars.

(** A compiled program of the expression library, run by [expr.Run]. *)
Definition Program : Type := Env -> result HostValue.

(** [expr.Run] with its error turned into a [TypeError], then [asBl]. *)
Definition run_program (p : Program) (env : Env) : result BlValue :=
  match p env with
  | Ok raw => Ok (asBl raw)
  | Err e => Err (TypeError "evaluate" (error_text e))
  end.

(** ** The erased view of a node *)

(** [decisionNode]; [n_uid] is the node's address. *)
Record Node : Type := mkNode {
  n_uid : nat;
  n_id : string;
  n_in : list decisionVar;
  n_out : list decisionVar;
  n_run : gmap string (option BlValue) -> result (gmap string (option BlValue))
}.

(** [runErased], the same for every kind of node given its [Evaluate]. *)
Definition runErased (ivars ovars : list decisionVar) (Evaluate : Struct -> result Struct)
    (vals : gmap string (option BlValue)) : result (gmap string (option BlValue)) :=
  let! input := inputFromMap ivars vals ∅ in
  let! out := Evaluate input in
  Ok (outputToMap out ovars).

(** ** Native functions ([decision_native_fn.go]) *)

(** A Go function: it returns a value and an error, or panics. *)
Inductive GoCall : Type := Returned (out : Struct) (err : option GoError) | Panicked (text : string).

(** [attempt], [Evaluate] *)
Definition attempt (fn : Struct -> GoCall) (input : Struct) : result Struct :=
  match fn input with
  | Returned out None => Ok out
  | Returned _ (Some e) => Err e
  | Panicked text => Err (ErrorText ("panic in native function: " +:+ text))
  end.

Definition NativeFunction_Evaluate (id name : string) (fn : Struct -> GoCall) (input : Struct) : result Struct :=
  match attempt fn input with
  | Ok out => Ok out
  | Err e => Err (WrapError (nodeLabel id name "DecisionNativeFunction") e)
  end.

(** [NewDecisionNativeFunction]: the node, or the problems of its contracts.  The
    flag says whether the Go function is nil. *)
Definition NewDecisionNativeFunction (uid : nat) (id name : string) (i o : option (list StructField))
    (fn : option (Struct -> GoCall)) : Node + (list ContractProblem * list ContractProblem * bool * bool) :=
  let '(ivars, ip) := reflectContract i in
  let '(ovars, op) := reflectContract o in
  match ip, op, ovars, fn with
  | [], [], _ :: _, Some f =>
      inl (mkNode uid id ivars ovars (runErased ivars ovars (NativeFunction_Evaluate id name f)))
  | _, _, _, _ => inr (ip, op, bool_decide (ovars = []), bool_decide (is_Some (const () <$> fn)))
  end.

(** ** Laws of contracts *)

Lemma reflect_fields_fresh seen fs v :
  In v (fst (reflect_fields seen fs)) -> v_name v ∉ seen /\ isIdentifier (v_name v) = true.
Proof.
  revert seen. induction fs as [|f fs IH]; intros seen; simpl; [done|].
  destruct (decisionFieldName f) as [name|p] eqn:En; [|destruct (reflect_fields seen fs) eqn:E; specialize (IH seen); rewrite E in IH; exact IH].
  destruct (sf_handle f) as [t|]; [|destruct (reflect_fields seen fs) eqn:E; specialize (IH seen); rewrite E in IH; exact IH].
  case_bool_decide as Hs; [destruct (reflect_fields seen fs) eqn:E; specialize (IH seen); rewrite E in IH; exact IH|].
  specialize (IH (name :: seen)). destruct (reflect_fields (name :: seen) fs) as [vs ps]. simpl in *.
  intros [<-|Hin].
  - simpl. split; [done|]. unfold decisionFieldName in En.
    destruct (sf_exported f); [|done]. simpl in En. destruct (String.eqb (sf_tag f) "-"); [done|].
    destruct (isIdentifier _) eqn:Ei in En; simpl in En; [|done]. by injection En as <-.
  - destruct (IH Hin) as [Hn Hi]. split; [set_solver|done].
Qed.

Lemma reflect_fields_nodup seen fs : NoDup (map v_name (fst (reflect_fields seen fs))).
Proof.
  revert seen. induction fs as [|f fs IH]; intros seen; simpl; [constructor|].
  destruct (decisionFieldName f) as [name|p]; [|specialize (IH seen); by destruct (reflect_fields seen fs)].
  destruct (sf_handle f) as [t|]; [|specialize (IH seen); by destruct (reflect_fields seen fs)].
  case_bool_decide; [specialize (IH seen); by destruct (reflect_fields seen fs)|].
  specialize (IH (name :: seen)). pose proof (reflect_fields_fresh (name :: seen) fs) as Hf.
  destruct (reflect_fields (name :: seen) fs) as [vs ps]. simpl in *. apply NoDup_cons. split; [|done].
  intros Hin. apply list_elem_of_fmap in Hin as (v & -> & Hv). apply list_elem_of_In in Hv.
  destruct (Hf v Hv) as [Hn _]. set_solver.
Qed.

Lemma setValue_ok v field val s s' :
  setValue v field val s = Ok s' -> exists x, val = Some x /\ go_type x = v_elem v /\ s' = <[v_name v := x]> s.
Proof.
  unfold setValue. case_bool_decide as H; [|done]. destruct H as [Ht Hn]. intros [= <-].
  destruct val as [x|]; [|done]. eauto.
Qed.

End DecisionNode.

(** * Topological sorting

    The loop shared by [topoSortNodes] ([core/decision_task.go]) and
    [topoSortEntries] ([core/decision_expression.go]): Kahn's algorithm over a
    map of in-degrees and a map of successors.  Its correctness is proved once
    here, against the graph the two maps were built from. *)

From stdpp Require Import relations.
#[global] Open Scope Z_scope.

#[local] Arguments bool_decide : simpl never.

(** ** The algorithm *)

(** [indeg[m]++] and [adj[k] = append(adj[k], m)], on maps with zero values. *)
Definition incr (k : string) (m : gmap string Z) : gmap string Z := <[k := default 0 (m !! k) + 1]> m.
Definition append_to (k v : string) (m : gmap string (list string)) : gmap string (list string) :=
  <[k := default [] (m !! k) ++ [v]]> m.

(** [for _, m := range adj[id] { indeg[m]--; if indeg[m] == 0 { queue = append(queue, m) } }] *)
Fixpoint relax (ms : list string) (indeg : gmap string Z) (queue : list string)
  : gmap string Z * list string :=
  match ms with
  | [] => (indeg, queue)
  | m :: ms' =>
      let d := default 0 (indeg !! m) - 1 in
      relax ms' (<[m := d]> indeg) (if d =? 0 then queue ++ [m] else queue)
  end.

(** [for len(queue) > 0 { ... }]: the order and what is left of the queue. *)
Fixpoint kahn_loop (fuel : nat) (adj : gmap string (list string)) (indeg : gmap string Z)
    (queue : list string) : list string * list string :=
  match fuel with
  | O => ([], queue)
  | S fuel' =>
      match queue with
      | [] => ([], [])
      | id :: q =>
          let '(indeg', q') := relax (default [] (adj !! id)) indeg q in
          let '(order, rest) := kahn_loop fuel' adj indeg' q' in
          (id :: order, rest)
      end
  end.

(** Each id enters the queue once, at the start or when an edge is consumed. *)
Definition kahn_fuel (edges : nat) (queue : list string) : nat := length queue + edges.

(** ** Correctness *)

Section Kahn.
Context (N : list string) (E : list (string * string)).
Context (HN : NoDup N) (HE : NoDup E).
Context (Hends : forall u v, (u, v) ∈ E -> u ∈ N /\ v ∈ N).

(** The maps of the algorithm describe the graph. *)
Definition describes (adj : gmap string (list string)) (indeg : gmap string Z) : Prop :=
  (forall u, default [] (adj !! u) = map snd (List.filter (fun e => bool_decide (fst e = u)) E)) /\
  (forall m, m ∈ N -> indeg !! m = Some (Z.of_nat (length (List.filter (fun e => bool_decide (snd e = m)) E)))).

Definition edge_rel (u v : string) : Prop := (u, v) ∈ E.

(** The edges into [m] from sources not yet processed. *)
Definition pending (P : list string) (m : string) : list (string * string) :=
  List.filter (fun e => bool_decide (snd e = m) && bool_decide (fst e ∉ P)) E.

Definition topo (P : list string) : Prop :=
  forall l1 v l2, P = l1 ++ v :: l2 -> forall u, (u, v) ∈ E -> u ∈ l1.

Record kahn_inv (P Q : list string) (indeg : gmap string Z) : Prop := {
  ki_nodup : NoDup (P ++ Q);
  ki_sub m : m ∈ P ++ Q -> m ∈ N;
  ki_indeg m : m ∈ N -> indeg !! m = Some (Z.of_nat (length (pending P m)));
  ki_ready m : m ∈ N -> m ∈ P ++ Q <-> pending P m = [];
  ki_topo : topo P
}.

Lemma elem_of_filterb {A} (f : A -> bool) (l : list A) x : x ∈ List.filter f l <-> x ∈ l /\ f x = true.
Proof. rewrite !list_elem_of_In. apply filter_In. Qed.

Lemma pending_nil P m u : pending P m = [] -> (u, m) ∈ E -> u ∈ P.
Proof.
  intros Hp He. destruct (decide (u ∈ P)) as [|Hn]; [done|]. exfalso.
  assert (Hin : (u, m) ∈ pending P m).
  { apply elem_of_filterb. split; [done|]. simpl. by rewrite !bool_decide_true. }
  rewrite Hp in Hin. set_solver.
Qed.

Lemma pending_cons P m : pending P m <> [] -> exists u, (u, m) ∈ E /\ u ∉ P.
Proof.
  intros Hp. destruct (pending P m) as [|[u v] l] eqn:E0; [done|].
  assert (Hin : (u, v) ∈ pending P m) by (rewrite E0; set_solver).
  apply elem_of_filterb in Hin as [Hin Hb]. simpl in Hb. apply andb_true_iff in Hb as [H1 H2].
  apply bool_decide_eq_true in H1, H2. subst v. eauto.
Qed.

(** Processing [id] removes the edge from [id] from the pending edges of [m]. *)
Lemma pending_snoc P id m :
  id ∉ P ->
  length (pending P m) = (length (pending (P ++ [id]) m) + if bool_decide ((id, m) ∈ E) then 1 else 0)%nat.
Proof.
  unfold pending. intros HP. revert HE. generalize E as l. induction l as [|[u v] l IH]; intros Hnd;
    cbn [List.filter length fst snd].
  { by rewrite bool_decide_false by set_solver. }
  apply NoDup_cons in Hnd as [Hn Hnd]. specialize (IH Hnd).
  destruct (decide (v = m)) as [->|Hv].
  - rewrite (bool_decide_true (m = m)) by done. simpl.
    destruct (decide (u = id)) as [->|Hu].
    + rewrite (bool_decide_true (id ∉ P)), (bool_decide_false (id ∉ P ++ [id])) by set_solver. cbn [length].
      rewrite (bool_decide_true ((id, m) ∈ (id, m) :: l)) by set_solver.
      rewrite (bool_decide_false ((id, m) ∈ l)) in IH by done. lia.
    + rewrite (bool_decide_ext ((id, m) ∈ (u, m) :: l) ((id, m) ∈ l)) by set_solver.
      rewrite (bool_decide_ext (u ∉ P ++ [id]) (u ∉ P)) by set_solver.
      destruct (bool_decide (u ∉ P)); cbn [length]; lia.
  - rewrite (bool_decide_false (v = m)) by done. cbn [andb].
    rewrite (bool_decide_ext ((id, m) ∈ (u, v) :: l) ((id, m) ∈ l)) by set_solver. done.
Qed.

(** The effect of the inner loop. *)
Lemma relax_spec ms indeg q :
  NoDup ms ->
  let '(indeg', q') := relax ms indeg q in
  (forall m, default 0 (indeg' !! m) = default 0 (indeg !! m) - if bool_decide (m ∈ ms) then 1 else 0) /\
  (forall m, is_Some (indeg !! m) -> is_Some (indeg' !! m)) /\
  q' = q ++ List.filter (fun m => default 0 (indeg !! m) =? 1) ms.
Proof.
  revert indeg q. induction ms as [|x ms IH]; intros indeg q Hnd; cbn [relax List.filter].
  { split; [|split; [done|by rewrite app_nil_r]]. intros m. rewrite bool_decide_false by set_solver. lia. }
  apply NoDup_cons in Hnd as [Hx Hnd].
  set (d := default 0 (indeg !! x) - 1).
  specialize (IH (<[x := d]> indeg) (if d =? 0 then q ++ [x] else q) Hnd).
  destruct (relax ms (<[x := d]> indeg) _) as [indeg' q']. destruct IH as (H1 & H2 & ->). split; [|split].
  - intros m. rewrite H1, lookup_insert. destruct (decide (x = m)) as [<-|Hne]; cbn [from_option]; try change (id d) with d.
    + rewrite (bool_decide_false (x ∈ ms)), (bool_decide_true (x ∈ x :: ms)) by set_solver. unfold d. lia.
    + by rewrite (bool_decide_ext (m ∈ x :: ms) (m ∈ ms)) by set_solver.
  - intros m Hm. apply H2. rewrite lookup_insert. by destruct (decide (x = m)).
  - assert (Hf : List.filter (fun m => default 0 (<[x := d]> indeg !! m) =? 1) ms =
                 List.filter (fun m => default 0 (indeg !! m) =? 1) ms).
    { apply List.filter_ext_in. intros m Hm. rewrite lookup_insert_ne; [done|].
      intros ->. by apply Hx, list_elem_of_In. }
    rewrite Hf. assert (Hd : (d =? 0) = (default 0 (indeg !! x) =? 1)).
    { unfold d. destruct (Z.eqb_spec (default 0 (indeg !! x)) 1), (Z.eqb_spec (default 0 (indeg !! x) - 1) 0); lia. }
    rewrite Hd. destruct (default 0 (indeg !! x) =? 1); simpl; [by rewrite <- app_assoc|done].
Qed.

Lemma succs_spec u m : m ∈ map snd (List.filter (fun e => bool_decide (fst e = u)) E) <-> (u, m) ∈ E.
Proof.
  rewrite list_elem_of_fmap. split.
  - intros ([u' v] & -> & Hin). apply elem_of_filterb in Hin as [? Hb]. apply bool_decide_eq_true in Hb.
    simpl in *. by subst.
  - intros He. exists (u, m). split; [done|]. apply elem_of_filterb. split; [done|]. by apply bool_decide_eq_true.
Qed.

Lemma succs_nodup u : NoDup (map snd (List.filter (fun e => bool_decide (fst e = u)) E)).
Proof.
  apply NoDup_fmap_2_strong.
  - intros [u1 v1] [u2 v2] H1 H2 Heq. apply elem_of_filterb in H1 as [_ H1], H2 as [_ H2].
    apply bool_decide_eq_true in H1, H2. simpl in *. congruence.
  - apply NoDup_ListNoDup, List.NoDup_filter. by apply NoDup_ListNoDup.
Qed.

(** One turn of the outer loop. *)
Lemma kahn_inv_step P id Q indeg (adj : gmap string (list string)) :
  (forall u, default [] (adj !! u) = map snd (List.filter (fun e => bool_decide (fst e = u)) E)) ->
  kahn_inv P (id :: Q) indeg ->
  let '(indeg', Q') := relax (default [] (adj !! id)) indeg Q in kahn_inv (P ++ [id]) Q' indeg'.
Proof.
  intros Hadj [H1 H2 H3 H4 H5]. rewrite Hadj. set (ms := map snd _).
  assert (HidP : id ∉ P) by (apply NoDup_app in H1 as (_ & Hd & _); intros Hin; by apply (Hd id Hin); set_solver).
  pose proof (relax_spec ms indeg Q (succs_nodup id)) as Hr.
  destruct (relax ms indeg Q) as [indeg' Q']. destruct Hr as (Hin & Hdom & HQ).
  assert (Hms : forall m, m ∈ ms <-> (id, m) ∈ E) by (intros m; apply succs_spec).
  assert (Hpos : forall m, m ∈ ms -> m ∉ P ++ id :: Q).
  { intros m Hm Hq. apply Hms in Hm. assert (Hm0 : m ∈ N) by (by eapply Hends).
    apply (H4 m Hm0) in Hq. apply HidP. by eapply pending_nil. }
  assert (Hnew : forall m, m ∈ Q' <-> m ∈ Q \/ (m ∈ ms /\ default 0 (indeg !! m) = 1)).
  { intros m. rewrite HQ, elem_of_app, elem_of_filterb, Z.eqb_eq. done. }
  assert (Hcnt : forall m, m ∈ N -> indeg' !! m = Some (Z.of_nat (length (pending (P ++ [id]) m)))).
  { intros m Hm. destruct (Hdom m) as [d Hd]; [rewrite (H3 m Hm); by eexists|].
    specialize (Hin m). rewrite Hd, (H3 m Hm) in Hin. simpl in Hin. rewrite Hd. f_equal.
    pose proof (pending_snoc P id m HidP) as Hs.
    rewrite (bool_decide_ext (m ∈ ms) ((id, m) ∈ E)) in Hin by apply Hms.
    destruct (bool_decide ((id, m) ∈ E)); lia. }
  split.
  - rewrite HQ, <- app_assoc. simpl. rewrite (app_comm_cons Q), app_assoc.
    apply NoDup_app. split; [done|]. split.
    + intros m Hm Hf. apply elem_of_filterb in Hf as [Hf _]. by eapply Hpos.
    + apply NoDup_ListNoDup, List.NoDup_filter, NoDup_ListNoDup, succs_nodup.
  - intros m. rewrite !elem_of_app, list_elem_of_singleton. intros [[Hm| ->]|Hm].
    + apply H2. set_solver.
    + apply H2. set_solver.
    + apply Hnew in Hm as [Hm|[Hm _]]; [apply H2; set_solver|]. apply Hms in Hm. by eapply Hends.
  - exact Hcnt.
  - intros m Hm. specialize (H3 m Hm). pose proof (pending_snoc P id m HidP) as Hs.
    rewrite !elem_of_app, list_elem_of_singleton, Hnew, H3. simpl. rewrite Hms.
    assert (Hlen : forall l : list (string * string), length l = 0%nat <-> l = []) by (intros []; split; done).
    rewrite <- Hlen. specialize (H4 m Hm). rewrite <- Hlen in H4.
    destruct (decide ((id, m) ∈ E)) as [He|He].
    + rewrite bool_decide_true in Hs by done. assert (Hm' : m ∈ ms) by (by apply Hms).
      specialize (Hpos m Hm'). split.
      * intros [[?| ->]|[?|[_ ?]]]; [set_solver..|lia].
      * intros H0. right. right. split; [done|lia].
    + rewrite bool_decide_false, Nat.add_0_r in Hs by done.
      rewrite <- Hs, <- H4, elem_of_app, elem_of_cons. tauto.
  - intros l1 v l2 Heq u Hu. destruct l2 as [|w l2 _] using rev_ind.
    + apply app_inj_tail in Heq as [<- <-]. eapply pending_nil; [|done].
      assert (Hid : id ∈ N) by (apply H2; set_solver). apply (H4 id Hid). set_solver.
    + rewrite app_comm_cons, app_assoc in Heq. apply app_inj_tail in Heq as [-> _]. by eapply H5.
Qed.

(** The edges the loop has still to consume. *)
Definition unconsumed (P : list string) : nat :=
  length (List.filter (fun e => bool_decide (fst e ∉ P)) E).

Lemma unconsumed_snoc P id :
  id ∉ P ->
  unconsumed P = (unconsumed (P ++ [id]) + length (map snd (List.filter (fun e => bool_decide (fst e = id)) E)))%nat.
Proof.
  intros HP. unfold unconsumed. rewrite length_map. generalize E as l.
  induction l as [|[u v] l IH]; [done|]. cbn [List.filter fst].
  destruct (decide (u = id)) as [->|Hne].
  - rewrite (bool_decide_true (id ∉ P)), (bool_decide_false (id ∉ P ++ [id])), (bool_decide_true (id = id)) by set_solver.
    cbn [length]. lia.
  - rewrite (bool_decide_ext (u ∉ P ++ [id]) (u ∉ P)) by set_solver.
    rewrite (bool_decide_false (u = id)) by done. destruct (bool_decide (u ∉ P)); cbn [length]; lia.
Qed.

Lemma relax_length ms indeg q : (length (snd (relax ms indeg q)) <= length q + length ms)%nat.
Proof.
  revert indeg q. induction ms as [|m ms IH]; intros indeg q; cbn [relax length snd]; [lia|].
  specialize (IH (<[m := default 0 (indeg !! m) - 1]> indeg)
    (if default 0 (indeg !! m) - 1 =? 0 then q ++ [m] else q)).
  destruct (default 0 (indeg !! m) - 1 =? 0); rewrite ?length_app in IH; cbn [length] in IH; lia.
Qed.

Lemma kahn_loop_inv fuel (adj : gmap string (list string)) indeg P Q :
  (forall u, default [] (adj !! u) = map snd (List.filter (fun e => bool_decide (fst e = u)) E)) ->
  kahn_inv P Q indeg -> (length Q + unconsumed P <= fuel)%nat ->
  let '(order, rest) := kahn_loop fuel adj indeg Q in
  rest = [] /\ exists indeg', kahn_inv (P ++ order) [] indeg'.
Proof.
  intros Hadj. revert indeg P Q. induction fuel as [|fuel IH]; intros indeg P Q Hinv Hf; cbn [kahn_loop].
  - destruct Q; [|simpl in Hf; lia]. rewrite app_nil_r. eauto.
  - destruct Q as [|id Q]; [rewrite app_nil_r; eauto|].
    assert (HidP : id ∉ P).
    { pose proof (ki_nodup _ _ _ Hinv) as Hnd. apply NoDup_app in Hnd as (_ & Hd & _).
      intros Hin. by apply (Hd id Hin); set_solver. }
    pose proof (kahn_inv_step P id Q indeg adj Hadj Hinv) as Hstep.
    pose proof (relax_length (default [] (adj !! id)) indeg Q) as Hlen.
    pose proof (unconsumed_snoc P id HidP) as Hu. rewrite <- Hadj in Hu.
    destruct (relax (default [] (adj !! id)) indeg Q) as [indeg1 Q1]. cbn [snd length] in *.
    specialize (IH indeg1 (P ++ [id]) Q1 Hstep ltac:(lia)).
    destruct (kahn_loop fuel adj indeg1 Q1) as [order rest]. by rewrite <- app_assoc in IH.
Qed.

(** [before l u v]: [u] comes before the first [v] of [l]. *)
Definition before (l : list string) (u v : string) : Prop := exists l1 l2, l = l1 ++ v :: l2 /\ u ∈ l1.

Lemma before_trans l u v w : NoDup l -> before l u v -> before l v w -> before l u w.
Proof.
  intros Hnd (l1 & l2 & -> & Hu) (l3 & l4 & Heq & Hv). exists l3, l4. split; [done|].
  apply list_elem_of_split in Hv as (x & y & ->). rewrite <- app_assoc in Heq. simpl in Heq.
  assert (l1 = x) as <-.
  { clear Hu. revert x Heq. induction l1 as [|a l1 IH]; intros [|b x] Heq; simpl in *; simplify_eq; [done|..].
    - apply NoDup_cons in Hnd as [Hnd _]. destruct Hnd. set_solver.
    - apply NoDup_cons in Hnd as [Hnd _]. destruct Hnd. set_solver.
    - f_equal. apply NoDup_cons in Hnd as [_ Hnd]. by apply IH. }
  set_solver.
Qed.

Lemma before_irrefl l u : NoDup l -> ~ before l u u.
Proof. intros Hnd (l1 & l2 & -> & Hu). apply NoDup_app in Hnd as (_ & Hd & _). apply (Hd u Hu). set_solver. Qed.

(** A finite set in which everything has a predecessor holds a cycle. *)
Lemma pred_closed_cycle (X : list string) :
  X <> [] -> (forall m, m ∈ X -> exists u, u ∈ X /\ edge_rel u m) -> exists x, tc edge_rel x x.
Proof.
  intros Hne Hpred.
  assert (Hchain : forall n, (exists x, tc edge_rel x x) \/
    exists l, length l = S n /\ NoDup l /\ (forall x, x ∈ l -> x ∈ X) /\
      exists h t, l = h :: t /\ forall x, x ∈ t -> tc edge_rel h x).
  { induction n as [|n [Hc|(l & Hlen & Hnd & Hsub & h & t & -> & Ht)]].
    - right. destruct X as [|m X']; [done|]. exists [m]. split; [done|]. split; [apply NoDup_singleton|].
      split; [set_solver|]. exists m, []. split; [done|]. set_solver.
    - by left.
    - destruct (Hpred h) as (u & Hu & Hr); [set_solver|].
      destruct (decide (u ∈ h :: t)) as [Hin|Hin].
      + left. exists u. apply elem_of_cons in Hin as [->|Hin]; [by apply tc_once|].
        eapply tc_l; [exact Hr|]. by apply Ht.
      + right. exists (u :: h :: t). split; [simpl in *; lia|]. split; [by apply NoDup_cons|].
        split; [set_solver|]. exists u, (h :: t). split; [done|]. intros x Hx.
        apply elem_of_cons in Hx as [->|Hx]; [by apply tc_once|]. eapply tc_l; [exact Hr|]. by apply Ht. }
  destruct (Hchain (length X)) as [Hc|(l & Hlen & Hnd & Hsub & _)]; [done|].
  assert (Hle : (length l <= length X)%nat) by (apply submseteq_length, NoDup_submseteq; done). lia.
Qed.

(** The loop started from the nodes of in-degree zero, in any order, sorts the
    graph: the result has no duplicates, lists nodes only, puts the source of
    every edge before its target, and lists every node exactly when the graph
    has no cycle. *)
Lemma kahn_correct (adj : gmap string (list string)) indeg Q :
  describes adj indeg -> NoDup Q ->
  (forall m, m ∈ Q <-> m ∈ N /\ List.filter (fun e => bool_decide (snd e = m)) E = []) ->
  let '(order, rest) := kahn_loop (kahn_fuel (length E) Q) adj indeg Q in
  rest = [] /\ NoDup order /\ (forall m, m ∈ order -> m ∈ N) /\
  (forall u v, (u, v) ∈ E -> v ∈ order -> before order u v) /\
  (length order = length N <-> forall x, ~ tc edge_rel x x).
Proof.
  intros [Hadj Hindeg] HQnd HQ.
  assert (Hpend : forall m, pending [] m = List.filter (fun e => bool_decide (snd e = m)) E).
  { intros m. apply List.filter_ext. intros e. rewrite (bool_decide_true (fst e ∉ [])) by set_solver.
    by rewrite andb_true_r. }
  assert (Hinv : kahn_inv [] Q indeg).
  { split; simpl; try done.
    - intros m Hm. by apply HQ in Hm as [? _].
    - intros m Hm. rewrite Hpend. by apply Hindeg.
    - intros m Hm. rewrite Hpend, HQ. tauto.
    - intros l1 v l2 Heq. by destruct l1. }
  assert (Hfuel : (length Q + unconsumed [] <= kahn_fuel (length E) Q)%nat).
  { unfold kahn_fuel, unconsumed. pose proof (filter_length_le (fun e => bool_decide (fst e ∉ [])) E). lia. }
  pose proof (kahn_loop_inv _ adj indeg [] Q Hadj Hinv Hfuel) as Hl.
  destruct (kahn_loop _ adj indeg Q) as [order rest]. destruct Hl as (-> & indeg' & [K1 K2 K3 K4 K5]).
  simpl in *. rewrite app_nil_r in *. split; [done|]. split; [done|]. split; [done|].
  assert (Hbefore : forall u v, (u, v) ∈ E -> v ∈ order -> before order u v).
  { intros u v He Hv. apply list_elem_of_split in Hv as (l1 & l2 & ->). exists l1, l2. split; [done|]. by eapply K5. }
  split; [done|]. split.
  - intros Hlen.
    assert (Hall : forall m, m ∈ N -> m ∈ order).
    { intros m Hm. assert (Hperm : order ≡ₚ N).
      { apply submseteq_length_Permutation; [by apply NoDup_submseteq|lia]. }
      by rewrite Hperm. }
    assert (Htc : forall x y, tc edge_rel x y -> before order x y).
    { intros x y Ht. induction Ht as [x y He|x y z He _ IH].
      - apply Hbefore; [done|]. apply Hall. by eapply Hends.
      - eapply before_trans; [done| |exact IH]. apply Hbefore; [done|]. apply Hall. by eapply Hends. }
    intros x Hx. by apply (before_irrefl order x K1), Htc.
  - intros Hac. destruct (decide (length order = length N)) as [|Hne]; [done|]. exfalso.
    set (X := List.filter (fun m => bool_decide (m ∉ order)) N).
    assert (HS : forall m, m ∈ X <-> m ∈ N /\ m ∉ order).
    { intros m. unfold X. by rewrite elem_of_filterb, bool_decide_eq_true. }
    destruct (pred_closed_cycle X) as [x Hx]; [| |by eapply Hac].
    + intros Hnil. apply Hne. apply Nat.le_antisymm.
      * by apply submseteq_length, NoDup_submseteq.
      * apply submseteq_length, NoDup_submseteq; [done|]. intros m Hm.
        destruct (decide (m ∈ order)) as [|Hn]; [done|].
        assert (m ∈ X) as Hm' by (by apply HS). rewrite Hnil in Hm'. set_solver.
    + intros m [Hm Hn]%HS. assert (Hp : pending order m <> []) by (intros Hp; by apply Hn, K4).
      destruct (pending_cons _ _ Hp) as (u & He & Hu). exists u. split; [|done].
      apply HS. split; [exact (proj1 (Hends _ _ He))|done].
Qed.

End Kahn.

(** Counting one more edge keeps the maps describing the graph. *)
Lemma describes_snoc N E (adj : gmap string (list string)) indeg u v :
  describes N E adj indeg -> describes N (E ++ [(u, v)]) (append_to u v adj) (incr v indeg).
Proof.
  intros [Hadj Hin]. split.
  - intros w. unfold append_to. rewrite List.filter_app, map_app, lookup_insert. simpl.
    case_decide as Hu.
    + rewrite bool_decide_true by done. simpl. by rewrite <- Hadj, Hu.
    + rewrite bool_decide_false by done. simpl. by rewrite app_nil_r, <- Hadj.
  - intros m Hm. unfold incr. rewrite List.filter_app, length_app, lookup_insert. simpl.
    case_decide as Hu.
    + rewrite bool_decide_true by done. simpl. rewrite Hu, (Hin m Hm). simpl. f_equal. lia.
    + rewrite bool_decide_false by done. simpl. rewrite (Hin m Hm). f_equal. lia.
Qed.

(** The maps before any edge is counted. *)
Lemma describes_nil {A} (key : A -> string) (l : list A) :
  NoDup (map key l) -> describes (map key l) [] ∅ (list_to_map (map (fun x => (key x, 0)) l)).
Proof.
  intros Hnd. split; [intros u; by rewrite lookup_empty|]. intros m Hm. simpl.
  apply elem_of_list_to_map_1; [by rewrite map_map|].
  apply list_elem_of_fmap in Hm as (x & -> & Hx). apply list_elem_of_fmap. by exists x.
Qed.

(** The ids to start from: those the map of in-degrees has zero for. *)
Lemma start_queue N E (adj : gmap string (list string)) (indeg : gmap string Z) ids :
  describes N E adj indeg -> (forall m, m ∈ ids <-> m ∈ N) ->
  forall m, m ∈ List.filter (fun id => default 0 (indeg !! id) =? 0) ids <->
    m ∈ N /\ List.filter (fun e => bool_decide (snd e = m)) E = [].
Proof.
  intros [_ Hin] Hids m. rewrite elem_of_filterb, Hids. split; intros [Hm H]; (split; [done|]);
    rewrite (Hin m Hm) in *; simpl in *.
  - apply Z.eqb_eq in H. destruct (List.filter _ E); [done|simpl in H; lia].
  - by rewrite H.
Qed.

Lemma NoDup_filterb {A} (f : A -> bool) (l : list A) : NoDup l -> NoDup (List.filter f l).
Proof. intros H. by apply NoDup_ListNoDup, List.NoDup_filter, NoDup_ListNoDup. Qed.

(** Looking the names of a list up in a map that knows them gives their entries
    in order. *)
Lemma omap_named {A} (key : A -> string) (m : gmap string A) (l : list string) :
  (forall k x, m !! k = Some x -> key x = k) -> (forall k, k ∈ l -> is_Some (m !! k)) ->
  map key (omap (fun k => m !! k) l) = l.
Proof.
  intros Hid. induction l as [|k l IH]; intros Hl; [done|].
  destruct (Hl k) as [x Hx]; [set_solver|]. simpl. rewrite Hx. simpl. rewrite (Hid _ _ Hx). f_equal. apply IH. set_solver.
Qed.

(** The part of a duplicate-free list before one of its elements is unique. *)
Lemma app_cons_unique {A} (l1 l2 a b : list A) x :
  NoDup (l1 ++ x :: l2) -> l1 ++ x :: l2 = a ++ x :: b -> a = l1.
Proof.
  revert l1. induction a as [|y a IH]; intros [|z l1] Hnd Heq; simplify_eq/=; try done.
  - apply NoDup_cons in Hnd as [Hz _]. set_solver.
  - apply NoDup_cons in Hnd as [Hz _]. set_solver.
  - apply NoDup_cons in Hnd as [_ Hnd]. f_equal. by apply IH.
Qed.
