(* ===== verification/UnaryTest.v ===== *)
(** * Unary tests

    Models [core/unarytest.go] and [splitTopLevelCommas] ([comprehensions.go]):
    the rewriting of a decision-table cell into an ordinary expression over the
    implicit input. *)

From S2P Require Import Prelude Decimal GoText GoTime Values DecisionNode.
#[global] Open Scope Z_scope.

(** ** Splitting ([comprehensions.go]) *)

(** The scan of [splitTopLevelCommas]: [cur] is the part being read, [instr] and
    [esc] follow [skipString] through a string literal. *)
Fixpoint split_scan (s : string) (depth : Z) (instr esc : bool) (cur : string) : list string :=
  match s with
  | EmptyString => [cur]
  | String c s' =>
      let cur' := cur +:+ String c EmptyString in
      if instr then
        if esc then split_scan s' depth true false cur'
        else if Ascii.eqb c char_backslash then split_scan s' depth true true cur'
        else split_scan s' depth (negb (Ascii.eqb c char_quote)) false cur'
      else if Ascii.eqb c char_quote then split_scan s' depth true false cur'
      else if is_char c 40 || is_char c 91 || is_char c 123 then split_scan s' (depth + 1) false false cur'
      else if is_char c 41 || is_char c 93 || is_char c 125 then split_scan s' (depth - 1) false false cur'
      else if is_char c 44 && (depth =? 0) then cur :: split_scan s' depth false false EmptyString
      else split_scan s' depth false false cur'
  end.

(** [splitTopLevelCommas] *)
Definition splitTopLevelCommas (s : string) : list string := split_scan s 0 false false EmptyString.

(** ** Rewriting ([unarytest.go]) *)

Definition inputPlaceholder : string := "__input".

(** [startsWithComparison] *)
Definition startsWithComparison (p : string) : bool :=
  existsb (HasPrefix p) ["<="; ">="; "!="; "<"; ">"; "="]%string.

(** [strings.HasPrefix(p, "not(") && strings.HasSuffix(p, ")")], and the text inside. *)
Definition not_inner (p : string) : option string :=
  match strip_prefix "not(" p with
  | Some rest =>
      match strip_last rest with
      | Some (inner, c) => if is_char c 41 then Some inner else None
      | None => None
      end
  | None => None
  end.

(** [normaliseUnaryPart], given [normaliseUnaryTest] for the inside of a [not]. *)
Definition normalise_part (test : string -> string) (p : string) : string :=
  if String.eqb p "-" then "true"
  else if Contains p "?" then ReplaceAll p "?" inputPlaceholder
  else match not_inner p with
       | Some inner => "not(" +:+ test inner +:+ ")"
       | None =>
           if startsWithComparison p then inputPlaceholder +:+ " " +:+ p
           else if HasPrefix p "." then inputPlaceholder +:+ p
           else if HasPrefix p "[" || HasPrefix p "(" then inputPlaceholder +:+ " in " +:+ p
           else inputPlaceholder +:+ " = " +:+ p
       end.

(** [normaliseUnaryTest], with fuel for the nesting of [not]. *)
Fixpoint normalise_test (fuel : nat) (source : string) : string :=
  match fuel with
  | O => source
  | S fuel' =>
      match map (fun p => normalise_part (normalise_test fuel') (TrimSpace p)) (splitTopLevelCommas source) with
      | [r] => r
      | rs => "(" +:+ strings_Join rs " or " +:+ ")"
      end
  end.

Definition normaliseUnaryTest (source : string) : string := normalise_test (S (String.length source)) source.

(** ** Laws *)

Lemma split_scan_nonempty s d i e cur : split_scan s d i e cur <> [].
Proof.
  revert d i e cur. induction s as [|c s IH]; intros d i e cur; simpl; [done|].
  repeat dmatch; try apply IH; done.
Qed.

Lemma strings_Join_cons x xs sep : xs <> [] -> strings_Join (x :: xs) sep = x +:+ sep +:+ strings_Join xs sep.
Proof. by destruct xs. Qed.

Lemma is_char_eq c n : (n < 256)%nat -> is_char c n = true -> c = Ascii.ascii_of_nat n.
Proof.
  unfold is_char. intros Hn Hc. apply Nat.eqb_eq in Hc. by rewrite <- Hc, Ascii.ascii_nat_embedding.
Qed.

Lemma split_scan_join s d i e cur : strings_Join (split_scan s d i e cur) "," = cur +:+ s.
Proof.
  revert d i e cur. induction s as [|c s IH]; intros d i e cur; cbn [split_scan].
  { by rewrite string_app_nil_r. }
  repeat match goal with |- context [if ?b then _ else _] => destruct b eqn:? end;
    try (rewrite IH, string_app_assoc; reflexivity).
  rewrite strings_Join_cons by apply split_scan_nonempty. rewrite IH. f_equal.
  match goal with H : (_ && _)%bool = true |- _ => apply andb_true_iff in H as [H _] end.
  match goal with H : is_char c 44 = true |- _ => apply is_char_eq in H as ->; [|lia] end. reflexivity.
Qed.

(** Splitting a cell at its top-level commas loses nothing: joining the parts
    with commas gives the cell back.  There is always at least one part. *)
Theorem split_join_roundtrip (s : string) :
  strings_Join (splitTopLevelCommas s) "," = s /\ splitTopLevelCommas s <> [].
Proof. split; [apply split_scan_join|apply split_scan_nonempty]. Qed.

Lemma string_length_app (a b : string) : String.length (a +:+ b) = (String.length a + String.length b)%nat.
Proof. induction a as [|x a IH]; [done|]. exact (f_equal S IH). Qed.

Lemma split_scan_length s d i e cur p :
  In p (split_scan s d i e cur) -> (String.length p <= String.length cur + String.length s)%nat.
Proof.
  revert d i e cur. induction s as [|c s IH]; intros d i e cur; cbn [split_scan String.length].
  { intros [<-|[]]. lia. }
  assert (Hcur : String.length (cur +:+ String c EmptyString) = S (String.length cur))
    by (rewrite string_length_app; simpl; lia).
  repeat match goal with |- context [if ?b then _ else _] => destruct b end;
    try (intros H; apply IH in H; rewrite Hcur in H; lia).
  intros [<-|H]; [lia|]. apply IH in H. simpl in H. lia.
Qed.

Lemma strip_prefix_length p s r : strip_prefix p s = Some r -> String.length s = (String.length p + String.length r)%nat.
Proof.
  revert s. induction p as [|a p IH]; intros [|b s]; simpl; try done; try (by intros [= <-]).
  destruct (Ascii.eqb a b); [|done]. intros H. by rewrite (IH _ H).
Qed.

Lemma strip_last_length s t c : strip_last s = Some (t, c) -> String.length s = S (String.length t).
Proof.
  revert t. induction s as [|a s IH]; intros t; simpl; [done|].
  destruct (strip_last s) as [[t' d]|] eqn:E.
  - intros [= <- <-]. simpl. f_equal. by apply IH.
  - intros [= <- <-]. destruct s as [|x s]; [done|]. simpl in E. by destruct (strip_last s) as [[? ?]|].
Qed.

Lemma not_inner_length p inner : not_inner p = Some inner -> (String.length inner < String.length p)%nat.
Proof.
  unfold not_inner. destruct (strip_prefix "not(" p) as [rest|] eqn:E; [|done].
  destruct (strip_last rest) as [[t c]|] eqn:El; [|done]. destruct (is_char c 41); [|done].
  intros [= <-]. apply strip_prefix_length in E. apply strip_last_length in El. simpl in E. lia.
Qed.

Lemma normalise_test_fuel f f' s :
  (String.length s < f)%nat -> (String.length s < f')%nat -> normalise_test f s = normalise_test f' s.
Proof.
  revert f' s. induction f as [|f IH]; intros [|f'] s Hf Hf'; try lia. cbn [normalise_test].
  assert (Hmap : map (fun p => normalise_part (normalise_test f) (TrimSpace p)) (splitTopLevelCommas s) =
                 map (fun p => normalise_part (normalise_test f') (TrimSpace p)) (splitTopLevelCommas s)).
  { apply map_ext_in. intros p Hp. unfold splitTopLevelCommas in Hp. apply split_scan_length in Hp.
    simpl in Hp. pose proof (TrimSpace_length p). unfold normalise_part.
    destruct (String.eqb (TrimSpace p) "-"); [done|]. destruct (Contains (TrimSpace p) "?"); [done|].
    destruct (not_inner (TrimSpace p)) as [inner|] eqn:E; [|done]. apply not_inner_length in E.
    by rewrite (IH f' inner) by lia. }
  by rewrite Hmap.
Qed.

(** [normaliseUnaryTest] satisfies the recursive equation of the code: a single
    part is rewritten on its own, several are the disjunction of their
    rewritings, and a [not(...)] part is rewritten inside out. *)
Theorem normaliseUnaryTest_equation (source : string) :
  normaliseUnaryTest source =
  match map (fun p => normalise_part normaliseUnaryTest (TrimSpace p)) (splitTopLevelCommas source) with
  | [r] => r
  | rs => "(" +:+ strings_Join rs " or " +:+ ")"
  end.
Proof.
  unfold normaliseUnaryTest at 1. cbn [normalise_test].
  assert (Hmap : map (fun p => normalise_part (normalise_test (String.length source)) (TrimSpace p)) (splitTopLevelCommas source) =
                 map (fun p => normalise_part normaliseUnaryTest (TrimSpace p)) (splitTopLevelCommas source)).
  { apply map_ext_in. intros p Hp. unfold splitTopLevelCommas in Hp. apply split_scan_length in Hp.
    simpl in Hp. pose proof (TrimSpace_length p). unfold normalise_part.
    destruct (String.eqb (TrimSpace p) "-"); [done|]. destruct (Contains (TrimSpace p) "?"); [done|].
    destruct (not_inner (TrimSpace p)) as [inner|] eqn:E; [|done]. apply not_inner_length in E.
    unfold normaliseUnaryTest. by rewrite (normalise_test_fuel (String.length source) (S (String.length inner)) inner) by lia. }
  by rewrite Hmap.
Qed.

(** A question mark inside a string literal is rewritten too: the cell that
    should compare the input with the text [ok?] becomes the text itself with
    the placeholder in it. *)
Theorem question_mark_in_literal :
  normaliseUnaryTest (quote "ok?") = quote "ok__input" /\
  normaliseUnaryTest (quote "ok") = "__input = " +:+ quote "ok".
Proof. split; vm_compute; reflexivity. Qed.
