(* ===== verification/DecisionTable.v ===== *)
(** * Decision tables

    Models [core/decision_table.go]: construction (layout, compilation of every
    cell, the checks of the hit policy) and evaluation (matching, hit policies,
    aggregation).  [compile] is the expression compiler over the table's
    inputs. *)

From S2P Require Import Prelude Decimal GoText GoTime Values DecisionNode UnaryTest.
#[global] Open Scope Z_scope.

(** [HitPolicy] is an int: [HitPolicyOther] is any value outside the constants. *)
Inductive HitPolicy : Type :=
| HitPolicyUnique | HitPolicyFirst | HitPolicyPriority | HitPolicyAny | HitPolicyCollect
| HitPolicyRuleOrder | HitPolicyOutputOrder
| HitPolicyOther (n : Z).

#[global] Instance HitPolicy_eq_dec : EqDecision HitPolicy.
Proof. solve_decision. Defined.

Inductive Aggregation : Type := AggregationSum | AggregationMin | AggregationMax | AggregationCount.

#[global] Instance Aggregation_eq_dec : EqDecision Aggregation.
Proof. solve_decision. Defined.

Record Column : Type := mkColumn { c_Label : string; c_Expr : string; c_Type : Ty }.

Abbreviation Rule := (list string).

Record DecisionTableConfig : Type := mkTableConfig {
  dc_Id : string;
  dc_Name : string;
  dc_HitPolicy : HitPolicy;
  dc_Aggregation : option Aggregation;
  dc_Columns : list Column;
  dc_Rules : list Rule;
  dc_Descriptions : list (string * string)
}.

(** [ruleLayout]: whether rows carry an id, and whether their width is consistent. *)
Definition ruleLayout (rules : list Rule) (expected : nat) : bool * bool :=
  match rules with
  | [] => (false, true)
  | _ =>
      if forallb (fun r => Nat.eqb (length r) expected) rules then (false, true)
      else if forallb (fun r => Nat.eqb (length r) (expected + 1)) rules then (true, true)
      else (false, false)
  end.

(** [isComparableType] *)
Definition isComparableType (t : Ty) : bool :=
  match t with
  | TypeNumber | TypeString | TypeDate | TypeTime | TypeDateTime | TypeDaysTimeDuration
  | TypeYearsMonthsDuration => true
  | _ => false
  end.

(** [cellNeedsComparable] *)
Definition cellNeedsComparable (cell : string) : bool :=
  existsb (fun p =>
    let p := TrimSpace p in
    if String.eqb p "" || String.eqb p "-" || Contains p "?" || HasPrefix p "not(" then false
    else HasPrefix p "<" || HasPrefix p ">" || HasPrefix p "[" || HasPrefix p "(")
    (splitTopLevelCommas cell).

(** The problems [NewDecisionTable] reports. *)
Inductive TableProblem : Type :=
| TInput (p : ContractProblem)
| TOutput (p : ContractProblem)
| TNoOutput
| TColumn (index : nat) (label : string) (err : GoError)
| TOutputNotList (name : string)
| TOutputNotNumeric (name : string)
| TWidth (expected : nat)
| TDuplicateRuleId (id : string)
| TInputCell (rule : nat) (label : string) (err : GoError)
| TOutputCell (rule : nat) (output : string) (err : GoError)
| TOutputUnset (name : string)
| TUnknownDescription (key : string).

Section DecisionTable.
Context {DO : DecimalOps}.

Abbreviation Env := (list (string * EnvVal)).

(** [compiledRule]; a missing input program is a wildcard, a missing output
    program an empty cell. *)
Record compiledRule : Type := mkRule {
  cr_id : string;
  cr_inputs : list (option Program);
  cr_outputs : list (option Program)
}.

Record DecisionTable : Type := mkTable {
  d_id : string;
  d_name : string;
  d_hitPolicy : HitPolicy;
  d_agg : option Aggregation;
  d_ivars : list decisionVar;
  d_ovars : list decisionVar;
  d_compiled : list compiledRule
}.

(** [compileInputCell] *)
Definition compileInputCell (compile : string -> result Program) (cell : string) (col : Column)
  : result (option Program) :=
  if String.eqb cell "-" then Ok None
  else if String.eqb (TrimSpace cell) "" then Err (ErrorText "empty input cell; write - for a wildcard")
  else if cellNeedsComparable cell && negb (isComparableType (c_Type col))
  then Err (ErrorText ("an ordering/interval test requires a comparable column type, not " +:+ typeName (c_Type col)))
  else
    let! p := compile (ReplaceAll (normaliseUnaryTest cell) inputPlaceholder ("(" +:+ c_Expr col +:+ ")")) in
    Ok (Some p).

(** The compilation of a rule's input cells: the programs and the problems. *)
Fixpoint compile_inputs (compile : string -> result Program) (ri : nat) (cols : list Column) (cells : list string)
  : list (option Program) * list TableProblem :=
  match cols with
  | [] => ([], [])
  | col :: cols' =>
      let '(ps, qs) := compile_inputs compile ri cols' (tail cells) in
      match compileInputCell compile (default EmptyString (head cells)) col with
      | Ok p => (p :: ps, qs)
      | Err e => (None :: ps, TInputCell (S ri) (c_Label col) e :: qs)
      end
  end.

(** The compilation of a rule's output cells. *)
Fixpoint compile_outputs (compile : string -> result Program) (ri : nat) (ovars : list decisionVar) (cells : list string)
  : list (option Program) * list TableProblem :=
  match ovars with
  | [] => ([], [])
  | v :: ovars' =>
      let '(ps, qs) := compile_outputs compile ri ovars' (tail cells) in
      let cell := default EmptyString (head cells) in
      if String.eqb (TrimSpace cell) "" then (None :: ps, qs)
      else match compile cell with
           | Ok p => (Some p :: ps, qs)
           | Err e => (None :: ps, TOutputCell (S ri) (v_name v) e :: qs)
           end
  end.

(** The loop over the rules. *)
Fixpoint compile_rules (compile : string -> result Program) (cols : list Column) (ovars : list decisionVar)
    (hasID : bool) (ri : nat) (seen : list string) (rules : list Rule)
  : list compiledRule * list string * list TableProblem :=
  match rules with
  | [] => ([], seen, [])
  | rule :: rules' =>
      let id := if hasID then default EmptyString (head rule) else EmptyString in
      let cells := if hasID then tail rule else rule in
      let dup := if hasID && negb (String.eqb id "") && bool_decide (id ∈ seen)
                 then [TDuplicateRuleId id] else [] in
      let seen' := if hasID && negb (String.eqb id "") then id :: seen else seen in
      let '(ins, ip) := compile_inputs compile ri cols cells in
      let '(outs, op) := compile_outputs compile ri ovars (skipn (length cols) cells) in
      let '(rest, seen'', ps) := compile_rules compile cols ovars hasID (S ri) seen' rules' in
      (mkRule id ins outs :: rest, seen'', dup ++ ip ++ op ++ ps)
  end.

(** Whether some rule has text in the cell of output [oi]. *)
Definition output_set (cols : nat) (hasID : bool) (rules : list Rule) (oi : nat) : bool :=
  existsb (fun rule =>
    match ((if hasID then tail rule else rule) !! (cols + oi)%nat) with
    | Some cell => negb (String.eqb (TrimSpace cell) "")
    | None => false
    end) rules.

Definition list_policy (cfg : DecisionTableConfig) : bool :=
  bool_decide (dc_HitPolicy cfg = HitPolicyRuleOrder) || bool_decide (dc_HitPolicy cfg = HitPolicyOutputOrder) ||
  (bool_decide (dc_HitPolicy cfg = HitPolicyCollect) && bool_decide (dc_Aggregation cfg = None)).

(** The checks of the hit policy on the outputs. *)
Definition policy_problems (cfg : DecisionTableConfig) (ovars : list decisionVar) : list TableProblem :=
  (if list_policy cfg
   then omap (fun v => if Ty_eqb (blType (v_elem v)) TypeList then None else Some (TOutputNotList (v_name v))) ovars
   else []) ++
  match dc_HitPolicy cfg, dc_Aggregation cfg with
  | HitPolicyCollect, Some (AggregationSum | AggregationMin | AggregationMax) =>
      omap (fun v => if Ty_eqb (blType (v_elem v)) TypeNumber then None else Some (TOutputNotNumeric (v_name v))) ovars
  | _, _ => []
  end.

Definition column_problems (compile : string -> result Program) (cols : list Column) : list TableProblem :=
  omap (fun '(i, col) => match compile (c_Expr col) with
                         | Ok _ => None
                         | Err e => Some (TColumn (S i) (c_Label col) e)
                         end) (imap pair cols).

(** [NewDecisionTable]: the table, or every problem found. *)
Definition NewDecisionTable (compile : string -> result Program) (i o : option (list StructField))
    (cfg : DecisionTableConfig) : DecisionTable + list TableProblem :=
  let '(ivars, ip) := reflectContract i in
  let '(ovars, op) := reflectContract o in
  match map TInput ip ++ map TOutput op ++ (match ovars with [] => [TNoOutput] | _ => [] end) with
  | p :: ps => inr (p :: ps)
  | [] =>
      let cols := dc_Columns cfg in
      let expected := (length cols + length ovars)%nat in
      let early := column_problems compile cols ++ policy_problems cfg ovars in
      match ruleLayout (dc_Rules cfg) expected with
      | (_, false) => inr (early ++ [TWidth expected])
      | (hasID, true) =>
          let '(compiled, seen, ps) := compile_rules compile cols ovars hasID 0 [] (dc_Rules cfg) in
          let unset := omap (fun '(oi, v) => if output_set (length cols) hasID (dc_Rules cfg) oi then None
                                             else Some (TOutputUnset (v_name v))) (imap pair ovars) in
          let descs := omap (fun '(k, _) => if bool_decide (k ∈ seen) then None
                                            else Some (TUnknownDescription k)) (dc_Descriptions cfg) in
          match early ++ ps ++ unset ++ descs with
          | [] => inl (mkTable (dc_Id cfg) (dc_Name cfg) (dc_HitPolicy cfg) (dc_Aggregation cfg) ivars ovars compiled)
          | q => inr q
          end
      end
  end.

(** ** Evaluation *)

(** [ruleMatches] *)
Fixpoint inputs_match (env : Env) (ps : list (option Program)) : result bool :=
  match ps with
  | [] => Ok true
  | None :: ps' => inputs_match env ps'
  | Some p :: ps' =>
      let! v := run_program p env in
      match v with
      | BlBoolean true => inputs_match env ps'
      | BlBoolean false => Ok false
      | BlNull => Ok false
      | _ => Err (TypeError "evaluate" "input predicate did not yield a boolean")
      end
  end.
Definition ruleMatches (cr : compiledRule) (env : Env) : result bool := inputs_match env (cr_inputs cr).

(** The matching rules, in rule order. *)
Fixpoint matching (env : Env) (rules : list compiledRule) : result (list compiledRule) :=
  match rules with
  | [] => Ok []
  | r :: rules' =>
      let! ok := ruleMatches r env in
      let! ms := matching env rules' in
      Ok (if ok then r :: ms else ms)
  end.

(** The closure [eval] of [combineOutput]. *)
Definition eval_output (env : Env) (oi : nat) (r : compiledRule) : result BlValue :=
  match cr_outputs r !! oi with
  | Some (Some p) => run_program p env
  | _ => Ok BlNull
  end.

(** [evalAll] *)
Definition evalAll (eval : compiledRule -> result BlValue) (ms : list compiledRule) : result (list BlValue) :=
  result_map eval ms.

(** [aggregate]; the loop carries the sum and the best value so far. *)
Fixpoint aggregate_loop (agg : Aggregation) (first : bool) (acc best : Decimal) (values : list BlValue)
  : result (Decimal * Decimal) :=
  match values with
  | [] => Ok (acc, best)
  | BlNumber d :: values' =>
      match agg with
      | AggregationSum => aggregate_loop agg false (dAdd acc d) best values'
      | AggregationMin => aggregate_loop agg false acc (if first || dLessThan d best then d else best) values'
      | AggregationMax => aggregate_loop agg false acc (if first || dGreaterThan d best then d else best) values'
      | AggregationCount => aggregate_loop agg false acc best values'
      end
  | _ :: _ => Err (TypeError "aggregate" "non-numeric value in Sum/Min/Max aggregation")
  end.

Definition aggregate (values : list BlValue) (agg : Aggregation) : result BlValue :=
  match agg with
  | AggregationCount => Ok (BlNumber (dNewFromInt (Z.of_nat (length values))))
  | _ =>
      match values with
      | [] => Ok (BlNumber (dNewFromInt 0))
      | _ =>
          let! ab := aggregate_loop agg true (dNewFromInt 0) (dNewFromInt 0) values in
          Ok (BlNumber (if bool_decide (agg = AggregationSum) then fst ab else snd ab))
      end
  end.

(** The comparison loop of the Any policy. *)
Fixpoint all_equal (d : DecisionTable) (eval : compiledRule -> result BlValue) (first : BlValue)
    (ms : list compiledRule) : result BlValue :=
  match ms with
  | [] => Ok first
  | m :: ms' =>
      let! v := eval m in
      if eqTrue (Equal first v) then all_equal d eval first ms'
      else Err (ErrorText (nodeLabel (d_id d) (d_name d) "DecisionTable" +:+
                           ": any hit policy but matching rules produced different outputs"))
  end.

(** [combineOutput] *)
Definition combineOutput (d : DecisionTable) (env : Env) (oi : nat) (ms : list compiledRule) : result BlValue :=
  let eval := eval_output env oi in
  match d_hitPolicy d with
  | HitPolicyUnique | HitPolicyFirst | HitPolicyPriority =>
      match ms with
      | [] => Ok BlNull
      | m :: _ => eval m
      end
  | HitPolicyAny =>
      match ms with
      | [] => Ok BlNull
      | m :: ms' => let! first := eval m in all_equal d eval first ms'
      end
  | HitPolicyCollect =>
      let! values := evalAll eval ms in
      match d_agg d with
      | None => Ok (BlList values)
      | Some agg => aggregate values agg
      end
  | HitPolicyRuleOrder | HitPolicyOutputOrder =>
      let! values := evalAll eval ms in Ok (BlList values)
  | HitPolicyOther _ => Ok BlNull
  end.

(** The loop that writes the outputs. *)
Fixpoint write_outputs (d : DecisionTable) (env : Env) (ms : list compiledRule) (oi : nat)
    (ovars : list decisionVar) (out : gmap string BlValue) : result (gmap string BlValue) :=
  match ovars with
  | [] => Ok out
  | v :: ovars' =>
      let! value := combineOutput d env oi ms in
      let! out' := setValue v "" (Some value) out in
      write_outputs d env ms (S oi) ovars' out'
  end.

(** The env of an evaluation: every input handle's value under its name. *)
Definition table_env (d : DecisionTable) (input : gmap string BlValue) : Env :=
  makeEnv (d_ivars d) (list_to_map (map (fun v => (v_name v, getValue input (v_name v))) (d_ivars d))).

(** [Evaluate] *)
Definition Evaluate (d : DecisionTable) (input : gmap string BlValue) : result (gmap string BlValue) :=
  let env := table_env d input in
  let! ms := matching env (d_compiled d) in
  if bool_decide (d_hitPolicy d = HitPolicyUnique) && (1 <? length ms)%nat
  then Err (ErrorText (nodeLabel (d_id d) (d_name d) "DecisionTable" +:+ ": " +:+
              pretty (length ms) +:+ " rules matched under a unique hit policy"))
  else write_outputs d env ms 0 (d_ovars d) ∅.

End DecisionTable.
