(* ===== verification/DecisionTableLaws.v ===== *)
(** * Laws of decision tables

    What a decision table means ([outcome], the hit policies as a relation) and
    that [Evaluate] computes exactly it; what a definition must satisfy
    ([defined]) and that [NewDecisionTable] accepts exactly those. *)

From Stdlib Require Import Lqa.
From S2P Require Import Prelude Decimal GoText GoTime Values DecisionNode UnaryTest NumberLaws DecisionTable.
#[global] Open Scope Z_scope.

Section Evaluation.
Context {DO : DecimalOps} {DL : DecimalLaws DO}.

Abbreviation Env := (list (string * EnvVal)).

(** ** Matching *)

(** A rule holds when every predicate of its row is true. *)
Definition rule_holds (env : Env) (r : compiledRule) : Prop :=
  Forall (fun c => forall p, c = Some p -> run_program p env = Ok (BlBoolean true)) (cr_inputs r).

(** A rule is refuted by the first predicate that is not true: false or null. *)
Definition rule_refuted (env : Env) (r : compiledRule) : Prop :=
  exists before p after, cr_inputs r = before ++ Some p :: after /\
    Forall (fun c => forall p, c = Some p -> run_program p env = Ok (BlBoolean true)) before /\
    (run_program p env = Ok (BlBoolean false) \/ run_program p env = Ok BlNull).

Lemma ruleMatches_true env r : ruleMatches r env = Ok true <-> rule_holds env r.
Proof.
  unfold ruleMatches, rule_holds. induction (cr_inputs r) as [|[p|] ps IH]; simpl.
  - by split.
  - rewrite Forall_cons. destruct (run_program p env) as [v|e] eqn:E; simpl.
    + rewrite <- IH. split.
      * destruct v as [|[]| | | | | | | | | | | | | | | |]; try done. intros H. split; [|done]. by intros q [= <-].
      * intros [Hp H]. specialize (Hp p eq_refl). rewrite E in Hp. by injection Hp as ->.
    + split; [done|]. intros [Hp _]. specialize (Hp p eq_refl). congruence.
  - rewrite Forall_cons, IH. split; [|by intros []]. intros H. by split.
Qed.

Lemma ruleMatches_false env r : ruleMatches r env = Ok false <-> rule_refuted env r.
Proof.
  unfold ruleMatches, rule_refuted. induction (cr_inputs r) as [|[p|] ps IH]; simpl.
  - split; [done|]. by intros (b & p & a & Hb & _); destruct b.
  - split.
    + destruct (run_program p env) as [v|e] eqn:E; simpl; [|done].
      destruct v as [|[]| | | | | | | | | | | | | | | |]; try done; intros H.
      * exists [], p, ps. eauto.
      * apply IH in H as (b & q & a & -> & Hb & Hq). exists (Some p :: b), q, a. split_and!; try done.
        constructor; [|done]. by intros ? [= <-].
      * exists [], p, ps. eauto.
    + intros (b & q & a & Heq & Hb & Hq). destruct b as [|c b]; simplify_eq/=.
      * by destruct Hq as [-> | ->].
      * apply Forall_cons in Hb as [Hp Hb]. rewrite (Hp p eq_refl). simpl. apply IH. eauto 10.
  - rewrite IH. split.
    + intros (b & q & a & -> & Hb & Hq). exists (None :: b), q, a. split_and!; try done. by constructor.
    + intros (b & q & a & Heq & Hb & Hq). destruct b as [|c b]; simplify_eq/=.
      apply Forall_cons in Hb as [_ Hb]. eauto 10.
Qed.

(** The rules that hold, in rule order, when every rule either holds or is refuted. *)
Inductive selected (env : Env) : list compiledRule -> list compiledRule -> Prop :=
| selected_nil : selected env [] []
| selected_hit r rs ms : rule_holds env r -> selected env rs ms -> selected env (r :: rs) (r :: ms)
| selected_miss r rs ms : rule_refuted env r -> selected env rs ms -> selected env (r :: rs) ms.

Lemma matching_selected env rs ms : matching env rs = Ok ms <-> selected env rs ms.
Proof.
  revert ms. induction rs as [|r rs IH]; intros ms; simpl.
  - split; [intros [= <-]; constructor|]. by inversion 1.
  - split.
    + destruct (ruleMatches r env) as [b|e] eqn:E; simpl; [|done].
      destruct (matching env rs) as [ms'|e] eqn:E'; simpl; [|done]. intros [= <-].
      assert (selected env rs ms') by (by apply IH). destruct b.
      * constructor; [by apply ruleMatches_true|done].
      * apply selected_miss; [by apply ruleMatches_false|done].
    + inversion 1 as [|? ? ms' Hr Hs|? ? ms' Hr Hs]; subst; apply IH in Hs; rewrite Hs.
      * apply ruleMatches_true in Hr. by rewrite Hr.
      * apply ruleMatches_false in Hr. by rewrite Hr.
Qed.

(** ** Aggregation *)

(** [d] is the first least element of [ds]. *)
Definition first_least (ds : list Decimal) (d : Decimal) : Prop :=
  exists a b, ds = a ++ d :: b /\ Forall (fun x => dval d < dval x)%Q a /\ Forall (fun x => dval d <= dval x)%Q b.
(** [d] is the first greatest element of [ds]. *)
Definition first_greatest (ds : list Decimal) (d : Decimal) : Prop :=
  exists a b, ds = a ++ d :: b /\ Forall (fun x => dval x < dval d)%Q a /\ Forall (fun x => dval x <= dval d)%Q b.

Lemma first_least_unique ds d e : first_least ds d -> first_least ds e -> d = e.
Proof.
  intros (a & b & Hd & Ha & Hb) (a' & b' & He & Ha' & Hb'). rewrite Hd in He. clear Hd ds. revert a' Ha' He.
  induction a as [|x a IH]; intros [|x' a'] Ha' He; simplify_eq/=; [done| | |].
  - apply Forall_cons in Ha' as [Hx _].
    assert (He' : e ∈ a' ++ e :: b') by set_solver. rewrite Forall_forall in Hb. apply Hb in He'. lra.
  - apply Forall_cons in Ha as [Hx _].
    assert (Hd' : d ∈ a ++ d :: b) by set_solver. rewrite Forall_forall in Hb'. apply Hb' in Hd'. lra.
  - apply Forall_cons in Ha as [_ Ha]. apply Forall_cons in Ha' as [_ Ha']. eauto.
Qed.

Lemma first_greatest_unique ds d e : first_greatest ds d -> first_greatest ds e -> d = e.
Proof.
  intros (a & b & Hd & Ha & Hb) (a' & b' & He & Ha' & Hb'). rewrite Hd in He. clear Hd ds. revert a' Ha' He.
  induction a as [|x a IH]; intros [|x' a'] Ha' He; simplify_eq/=; [done| | |].
  - apply Forall_cons in Ha' as [Hx _].
    assert (He' : e ∈ a' ++ e :: b') by set_solver. rewrite Forall_forall in Hb. apply Hb in He'. lra.
  - apply Forall_cons in Ha as [Hx _].
    assert (Hd' : d ∈ a ++ d :: b) by set_solver. rewrite Forall_forall in Hb'. apply Hb' in Hd'. lra.
  - apply Forall_cons in Ha as [_ Ha]. apply Forall_cons in Ha' as [_ Ha']. eauto.
Qed.

Lemma first_least_snoc ds d x :
  first_least ds d -> first_least (ds ++ [x]) (if dLessThan x d then x else d).
Proof.
  intros (a & b & -> & Ha & Hb). destruct (dLessThan x d) eqn:E.
  - apply dLessThan_true in E. exists (a ++ d :: b), []. split_and!; [done| |constructor].
    rewrite Forall_app, Forall_cons.
    split_and!; [eapply Forall_impl; [exact Ha|]; simpl; intros; lra|done|eapply Forall_impl; [exact Hb|]; simpl; intros; lra].
  - exists a, (b ++ [x]). split_and!; [by rewrite <- app_assoc|done|].
    apply Forall_app. split; [done|]. constructor; [|constructor].
    apply Qnot_lt_le. intros H. apply dLessThan_true in H. congruence.
Qed.

Lemma first_greatest_snoc ds d x :
  first_greatest ds d -> first_greatest (ds ++ [x]) (if dGreaterThan x d then x else d).
Proof.
  intros (a & b & -> & Ha & Hb). destruct (dGreaterThan x d) eqn:E.
  - apply dGreaterThan_true in E. exists (a ++ d :: b), []. split_and!; [done| |constructor].
    rewrite Forall_app, Forall_cons.
    split_and!; [eapply Forall_impl; [exact Ha|]; simpl; intros; lra|done|eapply Forall_impl; [exact Hb|]; simpl; intros; lra].
  - exists a, (b ++ [x]). split_and!; [by rewrite <- app_assoc|done|].
    apply Forall_app. split; [done|]. constructor; [|constructor].
    apply Qnot_lt_le. intros H. apply dGreaterThan_true in H. congruence.
Qed.

Lemma aggregate_loop_numbers agg first acc best values p :
  aggregate_loop agg first acc best values = Ok p -> exists ds, values = map BlNumber ds.
Proof.
  revert first acc best. induction values as [|v values IH]; intros first acc best; simpl.
  - by exists [].
  - destruct v; try done. intros H.
    assert (exists ds, values = map BlNumber ds) as [ds ->]; [|by exists (d :: ds)].
    destruct agg; eauto.
Qed.

Lemma aggregate_sum ds first acc best :
  aggregate_loop AggregationSum first acc best (map BlNumber ds) = Ok (fold_left dAdd ds acc, best).
Proof. revert first acc. induction ds; intros; simpl; auto. Qed.

Lemma aggregate_min ds seen acc best :
  first_least seen best ->
  exists m, aggregate_loop AggregationMin false acc best (map BlNumber ds) = Ok (acc, m) /\ first_least (seen ++ ds) m.
Proof.
  revert seen best. induction ds as [|d ds IH]; intros seen best Hb; simpl.
  - exists best. by rewrite app_nil_r.
  - apply (first_least_snoc _ _ d) in Hb. apply IH in Hb as (m & -> & Hm).
    exists m. by rewrite <- app_assoc in Hm.
Qed.

Lemma aggregate_max ds seen acc best :
  first_greatest seen best ->
  exists m, aggregate_loop AggregationMax false acc best (map BlNumber ds) = Ok (acc, m) /\ first_greatest (seen ++ ds) m.
Proof.
  revert seen best. induction ds as [|d ds IH]; intros seen best Hb; simpl.
  - exists best. by rewrite app_nil_r.
  - apply (first_greatest_snoc _ _ d) in Hb. apply IH in Hb as (m & -> & Hm).
    exists m. by rewrite <- app_assoc in Hm.
Qed.

Lemma first_least_one d : first_least [d] d.
Proof. exists [], []. split_and!; constructor. Qed.
Lemma first_greatest_one d : first_greatest [d] d.
Proof. exists [], []. split_and!; constructor. Qed.

(** What the aggregation of a Collect table computes from the values its
    matching rules give. *)
Inductive aggregated : Aggregation -> list BlValue -> BlValue -> Prop :=
| agg_count vs : aggregated AggregationCount vs (BlNumber (dNewFromInt (Z.of_nat (length vs))))
| agg_empty agg : agg <> AggregationCount -> aggregated agg [] (BlNumber (dNewFromInt 0))
| agg_sum d ds : aggregated AggregationSum (map BlNumber (d :: ds)) (BlNumber (fold_left dAdd (d :: ds) (dNewFromInt 0)))
| agg_min ds m : first_least ds m -> aggregated AggregationMin (map BlNumber ds) (BlNumber m)
| agg_max ds m : first_greatest ds m -> aggregated AggregationMax (map BlNumber ds) (BlNumber m).

Lemma aggregate_spec values agg x : aggregate values agg = Ok x <-> aggregated agg values x.
Proof.
  split.
  - unfold aggregate. destruct agg; [| | |by intros [= <-]; constructor];
      (destruct values as [|v values]; [by intros [= <-]; constructor|]);
      destruct (aggregate_loop _ _ _ _ _) as [p|e] eqn:E; simpl; try done;
      destruct (aggregate_loop_numbers _ _ _ _ _ _ E) as [[|d ds] Hds]; try done; rewrite Hds in *; intros [= <-].
    + rewrite aggregate_sum in E. injection E as <-. constructor.
    + simpl in E. destruct (aggregate_min ds [d] (dNewFromInt 0) d (first_least_one d)) as (m & Hm & Hl).
      rewrite Hm in E. injection E as <-. by apply agg_min.
    + simpl in E. destruct (aggregate_max ds [d] (dNewFromInt 0) d (first_greatest_one d)) as (m & Hm & Hl).
      rewrite Hm in E. injection E as <-. by apply agg_max.
  - destruct 1 as [vs|agg Hn|d ds|ds m Hm|ds m Hm]; unfold aggregate.
    + done.
    + by destruct agg.
    + by rewrite aggregate_sum.
    + destruct ds as [|d ds]; [by destruct Hm as ([|??] & ? & ? & _)|]. simpl.
      destruct (aggregate_min ds [d] (dNewFromInt 0) d (first_least_one d)) as (m' & -> & Hl). simpl.
      by rewrite (first_least_unique _ _ _ Hm Hl).
    + destruct ds as [|d ds]; [by destruct Hm as ([|??] & ? & ? & _)|]. simpl.
      destruct (aggregate_max ds [d] (dNewFromInt 0) d (first_greatest_one d)) as (m' & -> & Hl). simpl.
      by rewrite (first_greatest_unique _ _ _ Hm Hl).
Qed.

(** ** Hit policies *)

Definition single_hit (p : HitPolicy) : Prop :=
  p = HitPolicyUnique \/ p = HitPolicyFirst \/ p = HitPolicyPriority \/ p = HitPolicyAny.
Definition listing (d : DecisionTable) : Prop :=
  d_hitPolicy d = HitPolicyRuleOrder \/ d_hitPolicy d = HitPolicyOutputOrder \/
  (d_hitPolicy d = HitPolicyCollect /\ d_agg d = None).

(** The value output [oi] takes when exactly the rules [ms] match. *)
Inductive outcome (d : DecisionTable) (env : Env) (oi : nat) : list compiledRule -> BlValue -> Prop :=
| no_hit : single_hit (d_hitPolicy d) -> outcome d env oi [] BlNull
| unique_hit m x :
    d_hitPolicy d = HitPolicyUnique -> eval_output env oi m = Ok x -> outcome d env oi [m] x
| first_hit m ms x :
    d_hitPolicy d = HitPolicyFirst \/ d_hitPolicy d = HitPolicyPriority ->
    eval_output env oi m = Ok x -> outcome d env oi (m :: ms) x
| agreeing_hits m ms x :
    d_hitPolicy d = HitPolicyAny -> eval_output env oi m = Ok x ->
    Forall (fun m' => exists y, eval_output env oi m' = Ok y /\ Equal x y = BlBoolean true) ms ->
    outcome d env oi (m :: ms) x
| listed_hits ms vs :
    listing d -> Forall2 (fun m v => eval_output env oi m = Ok v) ms vs -> outcome d env oi ms (BlList vs)
| aggregated_hits ms vs agg x :
    d_hitPolicy d = HitPolicyCollect -> d_agg d = Some agg ->
    Forall2 (fun m v => eval_output env oi m = Ok v) ms vs -> aggregated agg vs x -> outcome d env oi ms x
| unknown_policy n ms : d_hitPolicy d = HitPolicyOther n -> outcome d env oi ms BlNull.

Lemma eqTrue_true v : eqTrue v = true <-> v = BlBoolean true.
Proof. destruct v as [|[]| | | | | | | | | | | | | | | |]; by split. Qed.

Lemma all_equal_spec d eval first ms x :
  all_equal d eval first ms = Ok x <->
  x = first /\ Forall (fun m => exists y, eval m = Ok y /\ Equal first y = BlBoolean true) ms.
Proof.
  induction ms as [|m ms IH]; simpl.
  - split; [intros [= <-]; by split|by intros [-> _]].
  - rewrite Forall_cons. destruct (eval m) as [y|e]; simpl.
    + destruct (eqTrue (Equal first y)) eqn:E.
      * apply eqTrue_true in E. rewrite IH. naive_solver.
      * split; [done|]. intros (_ & (z & [= <-] & Hz) & _). apply eqTrue_true in Hz. congruence.
    + split; [done|]. by intros (_ & (z & ? & _) & _).
Qed.

Lemma combineOutput_spec d env oi ms x :
  (d_hitPolicy d = HitPolicyUnique -> (length ms <= 1)%nat) ->
  combineOutput d env oi ms = Ok x <-> outcome d env oi ms x.
Proof.
  intros Hu. unfold combineOutput, evalAll. split.
  - destruct (d_hitPolicy d) eqn:Hp.
    + specialize (Hu eq_refl). destruct ms as [|m [|? ?]]; simpl in Hu; [| |lia].
      * intros [= <-]. apply no_hit. unfold single_hit. auto.
      * by apply unique_hit.
    + destruct ms as [|m ms]; [intros [= <-]; apply no_hit; unfold single_hit; auto|]. apply first_hit; auto.
    + destruct ms as [|m ms]; [intros [= <-]; apply no_hit; unfold single_hit; auto|]. apply first_hit; auto.
    + destruct ms as [|m ms]; [intros [= <-]; apply no_hit; unfold single_hit; auto|].
      destruct (eval_output env oi m) as [y|e] eqn:E; simpl; [|done].
      intros H. apply all_equal_spec in H as [-> H]. by apply agreeing_hits.
    + destruct (result_map _ ms) as [vs|e] eqn:E; simpl; [|done]. apply result_map_ok in E.
      destruct (d_agg d) as [agg|] eqn:Ha; [|intros [= <-]; apply listed_hits; unfold listing; auto].
      intros H. apply aggregate_spec in H. by eapply aggregated_hits.
    + destruct (result_map _ ms) as [vs|e] eqn:E; simpl; [|done]. apply result_map_ok in E.
      intros [= <-]. apply listed_hits; unfold listing; auto.
    + destruct (result_map _ ms) as [vs|e] eqn:E; simpl; [|done]. apply result_map_ok in E.
      intros [= <-]. apply listed_hits; unfold listing; auto.
    + intros [= <-]. by eapply unknown_policy.
  - destruct 1 as [[Hp|[Hp|[Hp|Hp]]]|m x Hp He|m ms x [Hp|Hp] He|m ms x Hp He Hf
      |ms vs [Hp|[Hp|[Hp Ha]]] Hf|ms vs agg x Hp Ha Hf Hg|n ms Hp]; rewrite Hp; try done.
    + rewrite He. by apply all_equal_spec.
    + apply result_map_ok in Hf. by rewrite Hf.
    + apply result_map_ok in Hf. by rewrite Hf.
    + apply result_map_ok in Hf. by rewrite Hf, Ha.
    + apply result_map_ok in Hf. rewrite Hf, Ha. simpl. by apply aggregate_spec.
Qed.

(** The loop that writes the outputs succeeds exactly when every output has a
    value of its handle's type, and writes those. *)
Lemma write_outputs_spec d env ms oi ovars out0 out :
  NoDup (map v_name ovars) ->
  write_outputs d env ms oi ovars out0 = Ok out <->
  exists vs, length vs = length ovars /\
    (forall i v x, ovars !! i = Some v -> vs !! i = Some x ->
       combineOutput d env (oi + i) ms = Ok x /\ go_type x = v_elem v) /\
    out = list_to_map (zip (map v_name ovars) vs) ∪ out0.
Proof.
  revert oi out0. induction ovars as [|v ovars IH]; intros oi out0 Hnd; simpl.
  - split.
    + intros [= <-]. exists []. split_and!; [done|done|]. by rewrite (left_id_L ∅ (∪)).
    + intros ([|? ?] & Hl & _ & ->); [|done]. by rewrite (left_id_L ∅ (∪)).
  - apply NoDup_cons in Hnd as [Hv Hnd]. split.
    + destruct (combineOutput d env oi ms) as [x|e] eqn:Ec; simpl; [|done].
      destruct (setValue v "" (Some x) out0) as [out1|e] eqn:Es; simpl; [|done].
      apply setValue_ok in Es as (x' & [= <-] & Ht & ->). intros H.
      apply IH in H as (vs & Hl & Hvs & ->); [|done]. exists (x :: vs). split_and!; [by simpl; f_equal| |].
      * intros [|i] w y Hw Hy; simplify_eq/=; [by rewrite Nat.add_0_r|].
        rewrite <- Nat.add_succ_comm. by apply Hvs.
      * simpl. rewrite <- insert_union_l. rewrite insert_union_r; [done|].
        apply not_elem_of_list_to_map_1. rewrite fst_zip; [done|]. rewrite length_map. lia.
    + intros ([|x vs] & Hl & Hvs & ->); simplify_eq/=.
      destruct (Hvs 0%nat v x eq_refl eq_refl) as [Hc Ht]. rewrite Nat.add_0_r in Hc. rewrite Hc. simpl.
      unfold setValue. rewrite bool_decide_true by (by split). simpl. apply IH; [done|].
      exists vs. split_and!; [done| |].
      * intros i w y Hw Hy. rewrite Nat.add_succ_comm. by apply (Hvs (S i)).
      * rewrite <- insert_union_l. rewrite insert_union_r; [done|].
        apply not_elem_of_list_to_map_1. rewrite fst_zip; [done|]. rewrite length_map. lia.
Qed.

(** C6. [Evaluate] computes the meaning of the table: it returns [out] exactly when
    every rule can be decided on the inputs, at most one rule matches a Unique
    table, every output has an outcome under the hit policy from the rules that
    match, of its handle's type, and [out] sets each output to its outcome.
    Priority takes the first rule that matches and OutputOrder lists the matches
    in rule order, as the comments of the code say; the specification orders both
    by declared output values (priority_is_rule_order). *)
Theorem table_evaluates_hit_policy (d : DecisionTable) (input out : gmap string BlValue) :
  NoDup (map v_name (d_ovars d)) ->
  let env := table_env d input in
  Evaluate d input = Ok out <->
  exists ms vs, selected env (d_compiled d) ms /\
    (d_hitPolicy d = HitPolicyUnique -> (length ms <= 1)%nat) /\
    length vs = length (d_ovars d) /\
    (forall oi v x, d_ovars d !! oi = Some v -> vs !! oi = Some x ->
       outcome d env oi ms x /\ go_type x = v_elem v) /\
    out = list_to_map (zip (map v_name (d_ovars d)) vs).
Proof.
  intros Hnd env. unfold Evaluate. fold env.
  assert (Hw : forall ms, write_outputs d env ms 0 (d_ovars d) ∅ = Ok out <-> _) by
    (intros ms; apply (write_outputs_spec d env ms 0 (d_ovars d) ∅ out Hnd)).
  split.
  - destruct (matching env (d_compiled d)) as [ms|e] eqn:Em; simpl; [|done]. apply matching_selected in Em.
    destruct (bool_decide _ && _) eqn:Eu; [done|]. intros H. apply Hw in H as (vs & Hl & Hvs & ->).
    assert (Hu : d_hitPolicy d = HitPolicyUnique -> (length ms <= 1)%nat).
    { intros Hp. rewrite bool_decide_true in Eu by done. simpl in Eu. apply Nat.ltb_ge in Eu. done. }
    exists ms, vs. split_and!; try done; [|by rewrite (right_id_L ∅ (∪))].
    intros oi v x Hv Hx. destruct (Hvs oi v x Hv Hx) as [Hc Ht]. split; [|done]. by apply combineOutput_spec.
  - intros (ms & vs & Hm & Hu & Hl & Hvs & ->). apply matching_selected in Hm. rewrite Hm. simpl.
    assert (Eu : bool_decide (d_hitPolicy d = HitPolicyUnique) && (1 <? length ms)%nat = false).
    { case_bool_decide as Hp; [|done]. simpl. apply Nat.ltb_ge. by apply Hu. }
    rewrite Eu. apply Hw. exists vs. split_and!; [done| |by rewrite (right_id_L ∅ (∪))].
    intros oi v x Hv Hx. destruct (Hvs oi v x Hv Hx) as [Hc Ht]. split; [|done]. by apply combineOutput_spec.
Qed.

End Evaluation.

(** ** Definitions *)

Section Definitions.
Context {DO : DecimalOps}.
Variable compile : string -> result Program.

(** The cells of a row, and its id. *)
Definition row_cells (hasID : bool) (rule : Rule) : list string := if hasID then tail rule else rule.
Definition row_id (hasID : bool) (rule : Rule) : string := if hasID then default EmptyString (head rule) else EmptyString.
Definition row_ids (hasID : bool) (rules : list Rule) : list string :=
  filter (fun s => s <> EmptyString) (map (row_id hasID) rules).

Definition blank (cell : string) : bool := String.eqb (TrimSpace cell) "".

Definition input_compiled (cc : Column * string) (p : option Program) : Prop :=
  compileInputCell compile cc.2 cc.1 = Ok p.
Definition output_compiled (cell : string) (q : option Program) : Prop :=
  if blank cell then q = None else exists p, compile cell = Ok p /\ q = Some p.

(** A compiled rule is its row, every cell compiled on its own. *)
Definition row_compiled (cols : list Column) (hasID : bool) (rule : Rule) (cr : compiledRule) : Prop :=
  cr_id cr = row_id hasID rule /\
  Forall2 input_compiled (zip cols (row_cells hasID rule)) (cr_inputs cr) /\
  Forall2 output_compiled (drop (length cols) (row_cells hasID rule)) (cr_outputs cr).

Definition numeric_policy (cfg : DecisionTableConfig) : Prop :=
  dc_HitPolicy cfg = HitPolicyCollect /\
  (dc_Aggregation cfg = Some AggregationSum \/ dc_Aggregation cfg = Some AggregationMin \/
   dc_Aggregation cfg = Some AggregationMax).

(** Every row has the declared width, or every row carries an id in front of it. *)
Definition laid_out (hasID : bool) (rules : list Rule) (n : nat) : Prop :=
  Forall (fun r => length r = if hasID then S n else n) rules.

Lemma compile_inputs_spec ri cols cells ps :
  (length cols <= length cells)%nat ->
  compile_inputs compile ri cols cells = (ps, []) <-> Forall2 input_compiled (zip cols cells) ps.
Proof.
  revert cells ps. induction cols as [|col cols IH]; intros cells ps Hl; simpl.
  - split; [intros [= <-]; constructor|]. intros H. by inversion H.
  - destruct cells as [|cell cells]; simpl in *; [lia|].
    destruct (compile_inputs compile ri cols cells) as [qs' prs] eqn:E.
    specialize (IH cells). rewrite E in IH. split.
    + destruct (compileInputCell compile cell col) as [q|e] eqn:Ec; [|done]. intros [= <- ->].
      constructor; [done|]. apply IH; [lia|done].
    + intros H. inversion H as [|? q ? qs Hq Hqs]; subst. unfold input_compiled in Hq. simpl in Hq. rewrite Hq.
      apply IH in Hqs; [|lia]. by injection Hqs as -> ->.
Qed.

Lemma compile_outputs_spec ri ovars cells ps :
  length cells = length ovars ->
  compile_outputs compile ri ovars cells = (ps, []) <-> Forall2 output_compiled cells ps.
Proof.
  revert cells ps. induction ovars as [|v ovars IH]; intros cells ps Hl; simpl.
  - destruct cells; [|done]. split; [intros [= <-]; constructor|]. intros H. by inversion H.
  - destruct cells as [|cell cells]; simpl in *; [done|].
    destruct (compile_outputs compile ri ovars cells) as [qs' prs] eqn:E.
    specialize (IH cells). rewrite E in IH. fold (blank cell). split.
    + intros H. destruct (blank cell) eqn:Eb.
      * injection H as <- ->. constructor; [by unfold output_compiled; rewrite Eb|]. apply IH; [lia|done].
      * destruct (compile cell) as [q|e] eqn:Ec; [|done]. injection H as <- ->.
        constructor; [unfold output_compiled; rewrite Eb; by eauto|]. apply IH; [lia|done].
    + intros H. inversion H as [|? q ? qs Hq Hqs]; subst. unfold output_compiled in Hq.
      apply IH in Hqs; [|lia]. injection Hqs as -> ->. destruct (blank cell).
      * by subst.
      * destruct Hq as (p & -> & ->). done.
Qed.

Lemma compile_rules_seen cols ovars hasID ri seen rules :
  (compile_rules compile cols ovars hasID ri seen rules).1.2 = reverse (row_ids hasID rules) ++ seen.
Proof.
  revert ri seen. induction rules as [|rule rules IH]; intros ri seen; simpl; [done|].
  destruct (compile_inputs _ _ _ _) as [ins ip]. destruct (compile_outputs _ _ _ _) as [outs op].
  match goal with |- context [compile_rules _ _ _ _ _ ?s rules] => specialize (IH (S ri) s) end.
  destruct (compile_rules _ _ _ _ _ _ _) as [[rest seen''] ps]. simpl in *. rewrite IH. clear IH.
  unfold row_ids. simpl. destruct hasID; simpl.
  - destruct (String.eqb_spec (default EmptyString (head rule)) "") as [He|He]; simpl.
    + rewrite filter_cons_False by (intros H; apply H; exact He). done.
    + rewrite filter_cons_True by exact He. rewrite reverse_cons, <- app_assoc. done.
  - rewrite filter_cons_False by (intros H; by apply H). done.
Qed.

(** The duplicate check of one row against the ids seen so far. *)
Lemma fresh_ids_cons (id : string) (seen ids : list string) :
  (NoDup (if decide (id <> EmptyString) then id :: ids else ids) /\
   forall x, x ∈ (if decide (id <> EmptyString) then id :: ids else ids) -> x ∉ seen) <->
  (if bool_decide (id <> EmptyString) && bool_decide (id ∈ seen) then [TDuplicateRuleId id] else []) = [] /\
  NoDup ids /\ (forall x, x ∈ ids -> x ∉ if bool_decide (id <> EmptyString) then id :: seen else seen).
Proof.
  case_decide as Hne; [rewrite bool_decide_true by done|rewrite bool_decide_false by (intros H; by apply H); naive_solver].
  rewrite NoDup_cons. cbn [andb]. split.
  - intros [[Hx Hnd] Hs]. rewrite bool_decide_false by (apply Hs; set_solver).
    split_and!; [done|done|]. intros x Hx'. rewrite elem_of_cons. intros [->|Hsx]; [done|]. apply (Hs x); set_solver.
  - intros (Hd & Hnd & Hs). case_bool_decide as Hd'; [done|]. split_and!; [|done|].
    + intros Hx. apply Hs in Hx. set_solver.
    + intros x Hx. apply elem_of_cons in Hx as [->|Hx]; [done|]. apply Hs in Hx. set_solver.
Qed.

Lemma row_id_flag hasID rule :
  hasID && negb (String.eqb (row_id hasID rule) "") = bool_decide (row_id hasID rule <> EmptyString).
Proof.
  destruct hasID; cbn [andb].
  - destruct (String.eqb_spec (row_id true rule) ""); cbn [negb]; by case_bool_decide.
  - symmetry. apply bool_decide_eq_false. intros H. by apply H.
Qed.

Lemma row_ids_cons hasID rule rules :
  row_ids hasID (rule :: rules) =
  if decide (row_id hasID rule <> EmptyString) then row_id hasID rule :: row_ids hasID rules
  else row_ids hasID rules.
Proof. done. Qed.

Lemma row_compiled_eq (cols : list Column) (ovars : list decisionVar) (hasID : bool) (ri : nat) (rule : Rule) (cr : compiledRule) :
  length rule = (if hasID then S (length cols + length ovars) else length cols + length ovars)%nat ->
  (exists ins outs, cr = mkRule (row_id hasID rule) ins outs /\
     compile_inputs compile ri cols (row_cells hasID rule) = (ins, []) /\
     compile_outputs compile ri ovars (drop (length cols) (row_cells hasID rule)) = (outs, [])) <->
  row_compiled cols hasID rule cr.
Proof.
  intros Hlen.
  assert (Hcells : length (row_cells hasID rule) = (length cols + length ovars)%nat).
  { unfold row_cells. destruct hasID; [|done]. destruct rule; simpl in *; lia. }
  unfold row_compiled. split.
  - intros (ins & outs & -> & Hi & Ho). apply compile_inputs_spec in Hi; [|lia].
    apply compile_outputs_spec in Ho; [done|rewrite length_drop; lia].
  - intros (Hid & Hi & Ho). destruct cr as [cid ins outs]. simpl in *. subst cid.
    apply (compile_inputs_spec ri) in Hi; [|lia].
    apply (compile_outputs_spec ri ovars) in Ho; [|rewrite length_drop; lia]. eauto.
Qed.

Lemma compile_rules_spec (cols : list Column) (ovars : list decisionVar) hasID ri seen rules crs :
  laid_out hasID rules (length cols + length ovars) ->
  (exists seen', compile_rules compile cols ovars hasID ri seen rules = (crs, seen', [])) <->
  Forall2 (row_compiled cols hasID) rules crs /\ NoDup (row_ids hasID rules) /\
  (forall x, x ∈ row_ids hasID rules -> x ∉ seen).
Proof.
  revert ri seen crs. induction rules as [|rule rules IH]; intros ri seen crs Hl.
  - split; [intros [? [= <- <-]]; split_and!; [constructor|constructor|set_solver]|].
    intros (H & _). inversion H. eauto using eq_refl.
  - apply Forall_cons in Hl as [Hlen Hl]. cbn [compile_rules].
    fold (row_cells hasID rule). fold (row_id hasID rule).
    pose proof (row_compiled_eq cols ovars hasID ri rule) as Hrow.
    rewrite row_ids_cons, fresh_ids_cons, row_id_flag.
    destruct (compile_inputs _ _ _ _) as [ins ip]. destruct (compile_outputs _ _ _ _) as [outs op].
    match goal with |- context [compile_rules _ _ _ _ _ ?s rules] => specialize (IH (S ri) s) end.
    destruct (compile_rules _ _ _ _ _ _ _) as [[rest seen''] ps]. split.
    + intros [? Heq]. injection Heq as <- <- Hps.
      apply app_eq_nil in Hps as [Hd Hps]. apply app_eq_nil in Hps as [-> Hps].
      apply app_eq_nil in Hps as [-> ->].
      destruct (proj1 (IH rest Hl)) as (HF & Hfresh); [by eexists|].
      split; [|done]. constructor; [|done]. apply (Hrow _ Hlen). eauto.
    + intros (HF & Hd & Hfresh). inversion HF as [|? cr ? crs' Hr HF']; subst.
      apply (Hrow _ Hlen) in Hr as (ins' & outs' & -> & [= -> ->] & [= -> ->]).
      destruct (proj2 (IH crs' Hl)) as [? [= -> _ ->]]; [done|]. exists seen''. by rewrite Hd.
Qed.

Lemma omap_nil {A B} (f : A -> option B) (l : list A) : omap f l = [] <-> Forall (fun x => f x = None) l.
Proof.
  induction l as [|x l IH]; simpl; [by split; [constructor|]|].
  rewrite Forall_cons, <- IH. destruct (f x); split; [done|naive_solver|done|naive_solver].
Qed.

Lemma Forall_imap_pair {A} (P : nat * A -> Prop) (l : list A) :
  Forall P (imap pair l) <-> forall i x, l !! i = Some x -> P (i, x).
Proof.
  rewrite Forall_lookup. setoid_rewrite list_lookup_imap. split.
  - intros H i x Hx. apply (H i). by rewrite Hx.
  - intros H i [j x]. destruct (l !! i) as [y|] eqn:E; [|done]. intros [= <- <-]. by apply H.
Qed.

Lemma column_problems_nil cols :
  column_problems compile cols = [] <-> Forall (fun col => exists p, compile (c_Expr col) = Ok p) cols.
Proof.
  unfold column_problems. rewrite omap_nil, Forall_imap_pair, Forall_lookup.
  apply forall_proper. intros i. apply forall_proper. intros col. apply forall_proper. intros _.
  destruct (compile (c_Expr col)); split; [eauto|done|done|]. by intros [? ?].
Qed.

Lemma blType_list t : Ty_eqb (blType t) TypeList = true <-> t = GList.
Proof. by destruct t; split. Qed.
Lemma blType_number t : Ty_eqb (blType t) TypeNumber = true <-> t = GNumber.
Proof. by destruct t; split. Qed.

Lemma policy_problems_nil cfg ovars :
  policy_problems cfg ovars = [] <->
  (list_policy cfg = true -> Forall (fun v => v_elem v = GList) ovars) /\
  (numeric_policy cfg -> Forall (fun v => v_elem v = GNumber) ovars).
Proof.
  assert (Hl : forall vs, omap (fun v => if Ty_eqb (blType (v_elem v)) TypeList then None else Some (TOutputNotList (v_name v))) vs = [] <->
               Forall (fun v => v_elem v = GList) vs).
  { intros vs. rewrite omap_nil. apply Forall_iff. intros v. rewrite <- blType_list. by destruct (Ty_eqb _ _). }
  assert (Hn : forall vs, omap (fun v => if Ty_eqb (blType (v_elem v)) TypeNumber then None else Some (TOutputNotNumeric (v_name v))) vs = [] <->
               Forall (fun v => v_elem v = GNumber) vs).
  { intros vs. rewrite omap_nil. apply Forall_iff. intros v. rewrite <- blType_number. by destruct (Ty_eqb _ _). }
  unfold policy_problems, numeric_policy. rewrite app_nil. apply Morphisms_Prop.and_iff_morphism.
  - destruct (list_policy cfg); [rewrite Hl; naive_solver|naive_solver].
  - assert (Hoff : forall P, ~ P -> ([] : list TableProblem) = [] <-> (P -> Forall (fun v => v_elem v = GNumber) ovars)) by
      (intros P HP; by split).
    destruct (dc_HitPolicy cfg); try (apply Hoff; by intros [? _]).
    destruct (dc_Aggregation cfg) as [[]|]; try (apply Hoff; intros [_ [?|[?|?]]]; congruence);
      rewrite Hn; (split; [done|]; intros H; apply H; auto).
Qed.

Lemma output_set_spec cols hasID rules oi :
  output_set cols hasID rules oi = true <->
  exists rule cell, rule ∈ rules /\ row_cells hasID rule !! (cols + oi)%nat = Some cell /\ blank cell = false.
Proof.
  unfold output_set. rewrite existsb_exists. split.
  - intros (rule & Hin & H). fold (row_cells hasID rule) in H. apply list_elem_of_In in Hin.
    destruct (row_cells hasID rule !! (cols + oi)%nat) as [cell|] eqn:E; [|done].
    exists rule, cell. split_and!; [done|done|]. unfold blank. by apply Bool.negb_true_iff.
  - intros (rule & cell & Hin & Hc & Hb). exists rule. split; [by apply list_elem_of_In|].
    fold (row_cells hasID rule). rewrite Hc. unfold blank in Hb. by rewrite Hb.
Qed.

Lemma ruleLayout_spec rules n hasID :
  rules <> [] -> ruleLayout rules n = (hasID, true) <-> laid_out hasID rules n.
Proof.
  intros Hne. unfold ruleLayout, laid_out.
  assert (Hf : forall m, forallb (fun r : Rule => Nat.eqb (length r) m) rules = true <-> Forall (fun r => length r = m) rules).
  { intros m. rewrite forallb_forall, Forall_forall. setoid_rewrite Nat.eqb_eq. by setoid_rewrite list_elem_of_In. }
  assert (Hexcl : Forall (fun r : Rule => length r = n) rules -> Forall (fun r : Rule => length r = S n) rules -> False).
  { destruct rules as [|r rs]; [done|]. rewrite !Forall_cons. lia. }
  pose proof (Hf n) as H0. pose proof (Hf (n + 1)%nat) as H1. rewrite Nat.add_1_r in H1.
  destruct rules as [|r rs]; [done|]. rewrite Nat.add_1_r.
  destruct (forallb _ (r :: rs)).
  - destruct hasID; [split; [done|]; intros; exfalso; naive_solver|naive_solver].
  - destruct (forallb _ (r :: rs)); destruct hasID; naive_solver.
Qed.

(** The definition [cfg] over the contracts [i] and [o] is in order and [d] is
    its table. *)
Record defined (i o : option (list StructField)) (cfg : DecisionTableConfig) (hasID : bool) (d : DecisionTable) : Prop :=
  mkDefined {
    def_inputs : reflectContract i = (d_ivars d, []);
    def_outputs : reflectContract o = (d_ovars d, []);
    def_some_output : d_ovars d <> [];
    def_columns : Forall (fun col => exists p, compile (c_Expr col) = Ok p) (dc_Columns cfg);
    def_lists : list_policy cfg = true -> Forall (fun v => v_elem v = GList) (d_ovars d);
    def_numbers : numeric_policy cfg -> Forall (fun v => v_elem v = GNumber) (d_ovars d);
    def_widths : laid_out hasID (dc_Rules cfg) (length (dc_Columns cfg) + length (d_ovars d));
    def_rows : Forall2 (row_compiled (dc_Columns cfg) hasID) (dc_Rules cfg) (d_compiled d);
    def_ids : NoDup (row_ids hasID (dc_Rules cfg));
    def_set : forall oi v, d_ovars d !! oi = Some v ->
      exists rule cell, rule ∈ dc_Rules cfg /\
        row_cells hasID rule !! (length (dc_Columns cfg) + oi)%nat = Some cell /\ blank cell = false;
    def_descriptions : forall k text, (k, text) ∈ dc_Descriptions cfg -> k ∈ row_ids hasID (dc_Rules cfg);
    def_id : d_id d = dc_Id cfg;
    def_name : d_name d = dc_Name cfg;
    def_policy : d_hitPolicy d = dc_HitPolicy cfg;
    def_agg : d_agg d = dc_Aggregation cfg
  }.

Lemma unset_nil cols hasID rules (ovars : list decisionVar) :
  omap (fun '(oi, v) => if output_set cols hasID rules oi then None else Some (TOutputUnset (v_name v))) (imap pair ovars) = [] <->
  forall oi v, ovars !! oi = Some v ->
    exists rule cell, rule ∈ rules /\ row_cells hasID rule !! (cols + oi)%nat = Some cell /\ blank cell = false.
Proof.
  rewrite omap_nil, Forall_imap_pair.
  apply forall_proper. intros oi. apply forall_proper. intros v. apply forall_proper. intros _.
  rewrite <- output_set_spec. by destruct (output_set _ _ _ _).
Qed.

Lemma descriptions_nil (seen : list string) (descs : list (string * string)) :
  omap (fun '(k, _) => if bool_decide (k ∈ seen) then None else Some (TUnknownDescription k)) descs = [] <->
  forall k text, (k, text) ∈ descs -> k ∈ seen.
Proof.
  rewrite omap_nil, Forall_forall. split.
  - intros H k text Hin. specialize (H _ Hin). simpl in H. by case_bool_decide.
  - intros H [k text] Hin. rewrite bool_decide_true; [done|]. by eapply H.
Qed.

(** A table without rules is never accepted. *)
Theorem ruleless_table_rejected (i o : option (list StructField)) (cfg : DecisionTableConfig) (d : DecisionTable) :
  NewDecisionTable compile i o cfg = inl d -> dc_Rules cfg <> [].
Proof.
  unfold NewDecisionTable. intros H E. rewrite E in H. cbn [ruleLayout compile_rules] in H. revert H.
  destruct (reflectContract i) as [ivars [|? ?]]; destruct (reflectContract o) as [ovars [|? ?]]; try done.
  destruct ovars as [|v ovars]; [done|]. cbn [map app].
  destruct (_ ++ _) eqn:Hp; [|done]. intros _.
  rewrite !app_nil, unset_nil in Hp. destruct Hp as (_ & Hset & _).
  destruct (Hset 0%nat v eq_refl) as (r & c & Hr & _). by apply elem_of_nil in Hr.
Qed.

(** C12. [NewDecisionTable] accepts exactly the definitions that are in order, and
    builds the table whose rules are the rows, cell by cell: the contracts have
    no problem and there is an output; every column and cell compiles; the hit
    policy fits the output types; the rows have one width; rule ids are unique;
    some rule sets each output; every description names a rule.  In particular a
    table without rules is refused, as the specification says of an output that
    no rule sets, although it also gives such tables a meaning
    (ruleless_table_rejected). *)
Theorem table_accepted_iff_defined (i o : option (list StructField)) (cfg : DecisionTableConfig) (d : DecisionTable) :
  NewDecisionTable compile i o cfg = inl d <-> exists hasID, defined i o cfg hasID d.
Proof.
  unfold NewDecisionTable. split.
  - destruct (reflectContract i) as [ivars [|? ?]] eqn:Hi; destruct (reflectContract o) as [ovars [|? ?]] eqn:Ho; try done.
    destruct ovars as [|v ovars']; [done|]. set (ovars := v :: ovars') in *. cbn [map app].
    destruct (ruleLayout _ _) as [hasID []] eqn:Hlay; [|done].
    destruct (compile_rules _ _ _ _ _ _ _) as [[crs seen] ps] eqn:Hc.
    destruct (_ ++ ps ++ _) eqn:Hp; [|done]. intros [= <-].
    rewrite !app_nil, column_problems_nil, policy_problems_nil, unset_nil, descriptions_nil in Hp.
    destruct Hp as ([Hcol [Hlist Hnum]] & -> & Hset & Hdesc).
    assert (Hne : dc_Rules cfg <> []).
    { intros E. destruct (Hset 0%nat v eq_refl) as (r & c & Hr & _). rewrite E in Hr. by apply elem_of_nil in Hr. }
    apply ruleLayout_spec in Hlay; [|done].
    assert (Hseen : seen = reverse (row_ids hasID (dc_Rules cfg))).
    { pose proof (compile_rules_seen (dc_Columns cfg) ovars hasID 0 [] (dc_Rules cfg)) as H.
      rewrite Hc, app_nil_r in H. done. }
    destruct (proj1 (compile_rules_spec _ _ _ 0 [] _ crs Hlay)) as (HF & Hnd & _); [eauto|].
    exists hasID. constructor; simpl; try done.
    intros k text Hk. apply Hdesc in Hk. by rewrite Hseen, elem_of_reverse in Hk.
  - intros [hasID [Hi Ho Hne Hcol Hlist Hnum Hlay HF Hnd Hset Hdesc Hid Hname Hpol Hagg]].
    destruct d as [did dname dpol dagg ivars ovars crs]. simpl in *. rewrite Hi, Ho. subst did dname dpol dagg.
    destruct ovars as [|v ovars']; [done|]. set (ovars := v :: ovars') in *. cbn [map app].
    assert (Hrne : dc_Rules cfg <> []).
    { intros E. destruct (Hset 0%nat v eq_refl) as (r & c & Hr & _). rewrite E in Hr. by apply elem_of_nil in Hr. }
    rewrite (proj2 (ruleLayout_spec _ _ hasID Hrne) Hlay).
    destruct (proj2 (compile_rules_spec _ ovars hasID 0 [] _ crs Hlay)) as [seen Hc]; [split_and!; [done|done|set_solver]|].
    pose proof (compile_rules_seen (dc_Columns cfg) ovars hasID 0 [] (dc_Rules cfg)) as Hseen.
    rewrite Hc, app_nil_r in Hseen. simpl in Hseen. rewrite Hc.
    rewrite (proj2 (column_problems_nil _) Hcol), (proj2 (policy_problems_nil _ ovars) (conj Hlist Hnum)).
    rewrite (proj2 (unset_nil _ _ _ ovars) Hset). cbn [app].
    rewrite (proj2 (descriptions_nil _ _)); [done|]. intros k text Hk. rewrite Hseen. apply elem_of_reverse. by eapply Hdesc.
Qed.

End Definitions.

(** ** Where the outputs of a table are not what its specification says *)

Section Nulls.
Context {DO : DecimalOps}.

(** [decision-table.spec.md] (Evaluation, step 4): when no rule matches a Unique,
    First, Priority or Any table, every output field is null.  The code returns an
    error instead: the null it computes cannot be assigned to a typed handle. *)
Theorem table_no_match_is_type_error (d : DecisionTable) (input : gmap string BlValue) v ovars :
  single_hit (d_hitPolicy d) -> d_ovars d = v :: ovars -> v_elem v <> GNull ->
  selected (table_env d input) (d_compiled d) [] ->
  Evaluate d input = Err (TypeError "evaluate" ("field " +:+ quote "" +:+ ": cannot assign " +:+ typeName TypeNull
                                                +:+ " to " +:+ typeName (blType (v_elem v)))).
Proof.
  intros Hp Ho Hv Hs. apply matching_selected in Hs. unfold Evaluate. rewrite Hs, Ho. cbn [result_bind length].
  replace (1 <? 0)%nat with false by done. rewrite Bool.andb_false_r. cbn [write_outputs].
  assert (Hc : combineOutput d (table_env d input) 0 [] = Ok BlNull).
  { unfold combineOutput. by destruct Hp as [-> | [-> | [-> | ->]]]. }
  rewrite Hc. cbn [result_bind]. unfold setValue. rewrite bool_decide_false; [done|]. by intros [? _].
Qed.

(** Two rules of an Any table that agree on an empty (null) output are reported
    as producing different outputs: null does not equal null. *)
Theorem any_policy_rejects_equal_nulls (d : DecisionTable) (env : list (string * EnvVal)) (oi : nat) m1 m2 :
  d_hitPolicy d = HitPolicyAny -> eval_output env oi m1 = Ok BlNull -> eval_output env oi m2 = Ok BlNull ->
  combineOutput d env oi [m1; m2] =
  Err (ErrorText (nodeLabel (d_id d) (d_name d) "DecisionTable" +:+
                  ": any hit policy but matching rules produced different outputs")).
Proof. intros Hp H1 H2. unfold combineOutput. rewrite Hp, H1. cbn [result_bind all_equal]. by rewrite H2. Qed.

(** The same table under another hit policy. *)
Definition with_policy (p : HitPolicy) (d : DecisionTable) : DecisionTable :=
  mkTable (d_id d) (d_name d) p (d_agg d) (d_ivars d) (d_ovars d) (d_compiled d).

(** [decision-table.spec.md] (Hit Policy Semantics): Priority selects, and
    OutputOrder sorts, by the declared order of output values.  The code has no
    such order: Priority is First and OutputOrder is RuleOrder. *)
Theorem priority_is_rule_order (d : DecisionTable) (input : gmap string BlValue) :
  Evaluate (with_policy HitPolicyPriority d) input = Evaluate (with_policy HitPolicyFirst d) input /\
  Evaluate (with_policy HitPolicyOutputOrder d) input = Evaluate (with_policy HitPolicyRuleOrder d) input.
Proof.
  assert (Hw : forall p q env ms,
    (forall oi, combineOutput (with_policy p d) env oi ms = combineOutput (with_policy q d) env oi ms) ->
    forall ovars oi out, write_outputs (with_policy p d) env ms oi ovars out =
                         write_outputs (with_policy q d) env ms oi ovars out).
  { intros p q env ms Hc ovars. induction ovars as [|v ovars IH]; intros oi out; [done|].
    cbn [write_outputs]. rewrite Hc. destruct (combineOutput _ _ _ _); [|done]. cbn [result_bind].
    destruct (setValue _ _ _ _); [|done]. cbn [result_bind]. apply IH. }
  unfold Evaluate. cbn [with_policy d_hitPolicy d_compiled d_ovars].
  split; (destruct (matching _ _) as [ms|e]; [|done]); cbn [result_bind]; rewrite !bool_decide_false by done; by apply Hw.
Qed.

End Nulls.

(** ** A sample table *)

(** The programs of the sample: [age] is the only input. *)
Definition age_is (P : Q -> bool) : @Program QDecimal := fun env =>
  match env with
  | (_, Bound (BlNumber q)) :: _ => Ok (HBool (P q))
  | _ => Err (ErrorText "no age")
  end.
Definition constant (s : string) : @Program QDecimal := fun _ => Ok (HString s).

Definition sample_table : @DecisionTable QDecimal :=
  mkTable "band" "Age band" HitPolicyFirst None [mkVar "age" GNumber] [mkVar "band" GString]
    [mkRule "child" [Some (age_is (fun q => negb (Qle_bool 18 q)))] [Some (constant "child")];
     mkRule "any" [None] [Some (constant "adult")]].

Definition sample_input (n : Z) : gmap string (@BlValue QDecimal) := {["age" := BlNumber (inject_Z n)]}.

Lemma table_evaluates_hit_policy_witness :
  NoDup (map v_name (d_ovars sample_table)) /\
  Evaluate sample_table (sample_input 7) = Ok {["band" := BlString "child"]} /\
  exists ms (vs : list (@BlValue QDecimal)), selected (table_env sample_table (sample_input 7)) (d_compiled sample_table) ms /\
    length vs = length (d_ovars sample_table).
Proof.
  assert (Hnd : NoDup (map v_name (d_ovars sample_table))) by (repeat constructor; set_solver).
  assert (He : Evaluate sample_table (sample_input 7) = Ok {["band" := BlString "child"]}) by vm_eq.
  split; [exact Hnd|split; [exact He|]].
  destruct (proj1 (table_evaluates_hit_policy sample_table (sample_input 7) _ Hnd) He) as (ms & vs & Hm & _ & Hl & _).
  exact (ex_intro _ ms (ex_intro _ vs (conj Hm Hl))).
Defined.
