(* ===== verification/DecisionTask.v ===== *)
(** * Decision tasks

    Models [core/decision_task.go] and the value sources of
    [core/reference_data.go]: the wiring of a graph of decision nodes, its
    topological order and its evaluation.  A Go map is ranged over in an
    arbitrary order: the order of the node ids is an argument ([ids]), any
    listing of the keys. *)

From stdpp Require Import relations.
From S2P Require Import Prelude Decimal GoTime Values DecisionNode.
#[global] Open Scope Z_scope.

Section DecisionTask.
Context {DO : DecimalOps}.

(** ** Handles and edges *)

(** What a handle is stamped with as its owner: a node (a task is one too), a
    reference-data source, or nothing. *)
Inductive Owner : Type :=
| ONode (n : Node)
| ORef (id : string) (value : BlValue)
| ONone.

(** The identity of a handle: its owner, the owner's id and the field name. *)
Record Handle : Type := mkHandle { h_own : Owner; h_node : string; h_field : string }.

(** One handle of the surface [stampSurface] builds. *)
Definition stampSurface (owner : Owner) (nodeID : string) (vars : list decisionVar) : list Handle :=
  map (fun v => mkHandle owner nodeID (v_name v)) vars.

Record edge : Type := mkEdge {
  e_srcOwner : Owner;
  e_srcNode : string;
  e_srcField : string;
  e_dstOwner : Owner;
  e_dstNode : string;
  e_dstField : string
}.

(** [Edge] *)
Definition Edge (src dst : Handle) : edge :=
  mkEdge (h_own src) (h_node src) (h_field src) (h_own dst) (h_node dst) (h_field dst).

(** [referenceField], [NewReferenceData]: the source's handle, or the problem. *)
Definition referenceField : string := "$value".
Definition NewReferenceData (id : string) (value : option BlValue) : Handle + list string :=
  match (if String.eqb id "" then ["reference data requires a non-empty Id"] else []) ++
        (match value with None => ["reference data requires a non-nil Value"] | Some _ => [] end), value with
  | [], Some v => inl (mkHandle (ORef id v) id referenceField)
  | ps, _ => inr ps
  end.

(** ** The task *)

(** [handleKey] *)
Abbreviation handleKey := (string * string)%type.

Record DecisionTask : Type := mkTask {
  t_uid : nat;
  t_id : string;
  t_name : string;
  t_boundaryID : string;
  t_invars : list decisionVar;
  t_outvars : list decisionVar;
  t_wired : bool;
  t_order : list Node;
  t_dstSrc : gmap handleKey handleKey;
  t_refVals : gmap handleKey BlValue
}.

(** [NewDecisionTask] *)
Definition NewDecisionTask (uid : nat) (id name : string) (i o : option (list StructField))
  : DecisionTask + (list ContractProblem * list ContractProblem * bool) :=
  let '(invars, ip) := reflectContract i in
  let '(outvars, op) := reflectContract o in
  match ip, op, outvars with
  | [], [], _ :: _ => inl (mkTask uid id name id invars outvars false [] ∅ ∅)
  | _, _, _ => inr (ip, op, bool_decide (outvars = []))
  end.

(** [owner.(decisionNode)] for an owner other than the task itself. *)
Definition other_node (self : nat) (o : Owner) : option Node :=
  match o with
  | ONode n => if Nat.eqb (n_uid n) self then None else Some n
  | _ => None
  end.

Inductive GraphProblem : Type :=
| PAlready
| PWiredTwice (node field : string)
| PNoNodes
| PEmptyId
| PInputUnwired (id field : string)
| POutputUnwired (field : string)
| PCycle.

Record Wiring : Type := mkWiring {
  w_nodes : gmap string Node;
  w_dstSrc : gmap handleKey handleKey;
  w_refVals : gmap handleKey BlValue;
  w_problems : list GraphProblem
}.

(** [nodes[n.GetId()] = n] *)
Definition note_node (self : nat) (o : Owner) (nodes : gmap string Node) : gmap string Node :=
  match other_node self o with
  | Some n => <[n_id n := n]> nodes
  | None => nodes
  end.

(** One iteration of the loop over the edges. *)
Definition wire (self : nat) (w : Wiring) (e : edge) : Wiring :=
  let dk := (e_dstNode e, e_dstField e) in
  mkWiring
    (note_node self (e_dstOwner e) (note_node self (e_srcOwner e) (w_nodes w)))
    (<[dk := (e_srcNode e, e_srcField e)]> (w_dstSrc w))
    (match e_srcOwner e with
     | ORef _ v => <[(e_srcNode e, e_srcField e) := v]> (w_refVals w)
     | _ => w_refVals w
     end)
    (w_problems w ++ match w_dstSrc w !! dk with
                     | Some _ => [PWiredTwice (e_dstNode e) (e_dstField e)]
                     | None => []
                     end).

(** ** The topological sort *)

(** The two maps of [topoSortNodes], and the pairs of ids already counted. *)
Record SortMaps : Type := mkSortMaps {
  s_indeg : gmap string Z;
  s_adj : gmap string (list string);
  s_seen : list (string * string)
}.

(** One iteration of the loop over the edges of [topoSortNodes]. *)
Definition count_edge (self : nat) (s : SortMaps) (e : edge) : SortMaps :=
  match other_node self (e_srcOwner e), other_node self (e_dstOwner e) with
  | Some _, Some _ =>
      let key := (e_srcNode e, e_dstNode e) in
      if bool_decide (key ∈ s_seen s) then s
      else mkSortMaps (incr (e_dstNode e) (s_indeg s)) (append_to (e_srcNode e) (e_dstNode e) (s_adj s))
             (s_seen s ++ [key])
  | _, _ => s
  end.

(** [topoSortNodes]: the order and whether a cycle was found. *)
Definition topoSortNodes (ids : list string) (nodes : gmap string Node) (edges : list edge) (self : nat)
  : list Node * bool :=
  let s := fold_left (count_edge self) edges
             (mkSortMaps (list_to_map (map (fun id => (id, 0)) ids)) ∅ []) in
  let queue := List.filter (fun id => default 0 (s_indeg s !! id) =? 0) ids in
  let order := fst (kahn_loop (kahn_fuel (length (s_seen s)) queue) (s_adj s) (s_indeg s) queue) in
  (omap (fun id => nodes !! id) order, negb (Nat.eqb (length order) (size nodes))).

(** ** Wiring *)

Definition node_problems (dstSrc : gmap handleKey handleKey) (id : string) (n : Node) : list GraphProblem :=
  (if String.eqb id "" then [PEmptyId] else []) ++
  omap (fun v => match dstSrc !! (id, v_name v) with
                 | Some _ => None
                 | None => Some (PInputUnwired id (v_name v))
                 end) (n_in n).

(** [Graph]: the wired task, or every problem found. *)
Definition Graph (ids : list string) (d : DecisionTask) (edges : list edge) : DecisionTask + list GraphProblem :=
  if t_wired d then inr [PAlready]
  else
    let w := fold_left (wire (t_uid d)) edges (mkWiring ∅ ∅ ∅ []) in
    let unwired := concat (map (fun id => match w_nodes w !! id with
                                          | Some n => node_problems (w_dstSrc w) id n
                                          | None => []
                                          end) ids) in
    let outs := omap (fun v => match w_dstSrc w !! (t_boundaryID d, v_name v) with
                               | Some _ => None
                               | None => Some (POutputUnwired (v_name v))
                               end) (t_outvars d) in
    let '(order, cyclic) := topoSortNodes ids (w_nodes w) edges (t_uid d) in
    match w_problems w ++ (if Nat.eqb (size (w_nodes w)) 0 then [PNoNodes] else []) ++ unwired ++ outs ++
          (if cyclic then [PCycle] else []) with
    | [] => inl (mkTask (t_uid d) (t_id d) (t_name d) (t_boundaryID d) (t_invars d) (t_outvars d)
                   true order (w_dstSrc w) (w_refVals w))
    | ps => inr ps
    end.

(** The nodes an edge list mentions, as [Graph] collects them. *)
Definition graph_nodes (self : nat) (edges : list edge) : gmap string Node :=
  w_nodes (fold_left (wire self) edges (mkWiring ∅ ∅ ∅ [])).

(** ** Evaluation *)

Abbreviation HandleEnv := (gmap (string * string) (option BlValue)).

(** The environment before any node runs. *)
Definition initial_env (d : DecisionTask) (input : gmap string BlValue) : HandleEnv :=
  fold_left (fun env v => <[(t_boundaryID d, v_name v) := Some (getValue input (v_name v))]> env)
    (t_invars d) (Some <$> t_refVals d).

(** A nil destination has the zero source. *)
Definition source_of (d : DecisionTask) (k : handleKey) : handleKey :=
  default (EmptyString, EmptyString) (t_dstSrc d !! k).

(** [inMap] *)
Definition gather (d : DecisionTask) (env : HandleEnv) (n : Node) : gmap string (option BlValue) :=
  fold_left (fun m v => match env !! source_of d (n_id n, v_name v) with
                        | Some val => <[v_name v := val]> m
                        | None => m
                        end) (n_in n) ∅.

(** The outputs of a node written to the environment; a missing one is nil. *)
Definition publish (n : Node) (outMap : gmap string (option BlValue)) (env : HandleEnv) : HandleEnv :=
  fold_left (fun env v => <[(n_id n, v_name v) := default None (outMap !! v_name v)]> env) (n_out n) env.

Fixpoint run_nodes (d : DecisionTask) (order : list Node) (env : HandleEnv) : result HandleEnv :=
  match order with
  | [] => Ok env
  | n :: order' =>
      let! outMap := n_run n (gather d env n) in
      run_nodes d order' (publish n outMap env)
  end.

Fixpoint write_task_outputs (d : DecisionTask) (env : HandleEnv) (vars : list decisionVar)
    (out : gmap string BlValue) : result (gmap string BlValue) :=
  match vars with
  | [] => Ok out
  | v :: vars' =>
      let val := default BlNull (default None (env !! source_of d (t_boundaryID d, v_name v))) in
      let! out' := setValue v "" (Some val) out in
      write_task_outputs d env vars' out'
  end.

(** [Evaluate] *)
Definition Evaluate (d : DecisionTask) (input : gmap string BlValue) : result (gmap string BlValue) :=
  if negb (t_wired d)
  then Err (ErrorText (nodeLabel (t_id d) (t_name d) "DecisionTask" +:+ ": task has no graph (call Graph)"))
  else
    let! env := run_nodes d (t_order d) (initial_env d input) in
    write_task_outputs d env (t_outvars d) ∅.

(** A task as a node of a larger one. *)
Definition task_node (d : DecisionTask) : Node :=
  mkNode (t_uid d) (t_id d) (t_invars d) (t_outvars d) (runErased (t_invars d) (t_outvars d) (Evaluate d)).

(** [Clone]: the same wiring under another identity. *)
Definition Clone (uid : nat) (id name : string) (d : DecisionTask) : DecisionTask :=
  mkTask uid id name (t_boundaryID d) (t_invars d) (t_outvars d) (t_wired d) (t_order d) (t_dstSrc d) (t_refVals d).

End DecisionTask.
