(* ===== verification/DecisionTaskLaws.v ===== *)
(** * Laws of decision tasks

    The order [Graph] computes is topological and covers the graph exactly when
    it has no cycle, and [Evaluate] computes the solution of the equations the
    wiring states, whatever order the maps are ranged over in. *)

From stdpp Require Import relations.
From S2P Require Import Prelude Decimal GoTime Values DecisionNode DecisionTask.
#[global] Open Scope Z_scope.

#[local] Arguments bool_decide : simpl never.

Section TaskLaws.
Context {DO : DecimalOps}.

(** ** Stamps *)

(** The node id a handle of the owner is stamped with. *)
Definition stamped (boundary : string) (self : nat) (o : Owner) (node : string) : Prop :=
  match o with
  | ONode n => node = if Nat.eqb (n_uid n) self then boundary else n_id n
  | ORef id _ => node = id
  | ONone => node = EmptyString
  end.

Definition well_stamped (d : DecisionTask) (edges : list edge) : Prop :=
  Forall (fun e => stamped (t_boundaryID d) (t_uid d) (e_srcOwner e) (e_srcNode e) /\
                   stamped (t_boundaryID d) (t_uid d) (e_dstOwner e) (e_dstNode e)) edges.

(** Node [u] feeds node [v]. *)
Definition feeds (self : nat) (edges : list edge) (u v : string) : Prop :=
  exists e, e ∈ edges /\ is_Some (other_node self (e_srcOwner e)) /\ is_Some (other_node self (e_dstOwner e)) /\
    e_srcNode e = u /\ e_dstNode e = v.

(** [n] owns an end of an edge. *)
Definition wired_node (self : nat) (edges : list edge) (n : Node) : Prop :=
  exists e, e ∈ edges /\ (other_node self (e_srcOwner e) = Some n \/ other_node self (e_dstOwner e) = Some n).

(** ** The loop over the edges *)

Lemma note_node_lookup self o nodes id :
  note_node self o nodes !! id =
  match other_node self o with
  | Some n => if decide (n_id n = id) then Some n else nodes !! id
  | None => nodes !! id
  end.
Proof. unfold note_node. destruct (other_node self o) as [n|]; [|done]. by rewrite lookup_insert. Qed.

Lemma wire_nodes_sound self edges w id n :
  (forall id n, w_nodes w !! id = Some n -> n_id n = id) ->
  w_nodes (fold_left (wire self) edges w) !! id = Some n ->
  n_id n = id /\ (w_nodes w !! id = Some n \/ wired_node self edges n).
Proof.
  revert w. induction edges as [|e edges IH]; intros w Hw; simpl; [eauto|]. intros H. apply IH in H.
  - destruct H as [Hid [H|(e' & He' & H)]]; (split; [done|]); [|right; exists e'; split; [set_solver|done]].
    cbn [wire w_nodes] in H. rewrite !note_node_lookup in H.
    destruct (other_node self (e_dstOwner e)) as [m|] eqn:Ed; [case_decide|].
    + injection H as ->. right. exists e. split; [set_solver|eauto].
    + destruct (other_node self (e_srcOwner e)) as [m'|] eqn:Es; [case_decide|eauto]; [|eauto].
      injection H as ->. right. exists e. split; [set_solver|eauto].
    + destruct (other_node self (e_srcOwner e)) as [m'|] eqn:Es; [case_decide|eauto]; [|eauto].
      injection H as ->. right. exists e. split; [set_solver|eauto].
  - intros id' n'. cbn [wire w_nodes]. rewrite !note_node_lookup.
    destruct (other_node self (e_dstOwner e)); [case_decide; [naive_solver|]|];
      (destruct (other_node self (e_srcOwner e)); [case_decide; [naive_solver|eauto]|eauto]).
Qed.

Lemma wire_nodes_grow self edges w id :
  is_Some (w_nodes w !! id) -> is_Some (w_nodes (fold_left (wire self) edges w) !! id).
Proof.
  revert w. induction edges as [|e edges IH]; intros w Hw; [done|]. simpl. apply IH.
  cbn [wire w_nodes]. rewrite !note_node_lookup.
  repeat (destruct (other_node _ _); [case_decide; [by eexists|]|]); done.
Qed.

Lemma wire_nodes_complete self edges w n :
  wired_node self edges n -> is_Some (w_nodes (fold_left (wire self) edges w) !! n_id n).
Proof.
  intros (e & He & Hn). revert w. induction edges as [|e' edges IH]; intros w; [by apply elem_of_nil in He|].
  apply elem_of_cons in He as [->|He]; [|by apply IH]. simpl. apply wire_nodes_grow.
  cbn [wire w_nodes]. rewrite !note_node_lookup. destruct Hn as [-> | ->].
  - destruct (other_node self (e_dstOwner e')); [case_decide; [by eexists|]|]; by rewrite decide_True.
  - by rewrite decide_True.
Qed.

Lemma graph_nodes_id self edges id n :
  graph_nodes self edges !! id = Some n -> n_id n = id /\ wired_node self edges n.
Proof.
  intros H. apply wire_nodes_sound in H; [|done]. destruct H as [Hid [H|H]]; [|done].
  cbn [w_nodes] in H. by apply lookup_empty_Some in H.
Qed.

Lemma graph_nodes_wired self edges n :
  wired_node self edges n -> is_Some (graph_nodes self edges !! n_id n).
Proof. apply wire_nodes_complete. Qed.

(** Every wired destination has the source of some edge; one not in [w] comes
    from an edge. *)
Lemma wire_dstSrc_sound self edges w dk sk :
  w_dstSrc (fold_left (wire self) edges w) !! dk = Some sk ->
  w_dstSrc w !! dk = Some sk \/
  exists e, e ∈ edges /\ dk = (e_dstNode e, e_dstField e) /\ sk = (e_srcNode e, e_srcField e).
Proof.
  revert w. induction edges as [|e edges IH]; intros w; simpl; [eauto|]. intros H. apply IH in H as [H|(e' & He & H)].
  - cbn [wire w_dstSrc] in H. rewrite lookup_insert in H. case_decide as Hd; [|eauto].
    injection H as <-. right. exists e. split; [set_solver|done].
  - right. exists e'. split; [set_solver|done].
Qed.

Lemma wire_refVals_sound self edges w k v :
  w_refVals (fold_left (wire self) edges w) !! k = Some v ->
  w_refVals w !! k = Some v \/
  exists e id, e ∈ edges /\ e_srcOwner e = ORef id v /\ k = (e_srcNode e, e_srcField e).
Proof.
  revert w. induction edges as [|e edges IH]; intros w; simpl; [eauto|]. intros H.
  apply IH in H as [H|(e' & id & He & H)]; [|right; exists e', id; split; [set_solver|done]].
  cbn [wire w_refVals] in H. destruct (e_srcOwner e) as [n|id u|] eqn:Eo; [eauto| |eauto].
  rewrite lookup_insert in H. case_decide; [|eauto]. injection H as <-.
  right. exists e, id. split; [set_solver|done].
Qed.

(** ** The topological sort *)

(** An edge that the sort counts. *)
Definition counted (self : nat) (e : edge) : Prop :=
  is_Some (other_node self (e_srcOwner e)) /\ is_Some (other_node self (e_dstOwner e)).

Lemma count_edge_describes ids self s e :
  (counted self e -> e_dstNode e ∈ ids) ->
  NoDup (s_seen s) -> describes ids (s_seen s) (s_adj s) (s_indeg s) ->
  NoDup (s_seen (count_edge self s e)) /\
  describes ids (s_seen (count_edge self s e)) (s_adj (count_edge self s e)) (s_indeg (count_edge self s e)).
Proof.
  intros Hdst Hnd Hd. unfold count_edge.
  destruct (other_node self (e_srcOwner e)); [|done]. destruct (other_node self (e_dstOwner e)); [|done].
  case_bool_decide as Hs; [done|]. cbn [s_seen s_adj s_indeg].
  split; [apply NoDup_app; split_and!; [done|set_solver|apply NoDup_singleton]|]. by apply describes_snoc.
Qed.

Lemma count_edges_describes ids self edges s :
  (forall e, e ∈ edges -> counted self e -> e_dstNode e ∈ ids) ->
  NoDup (s_seen s) -> describes ids (s_seen s) (s_adj s) (s_indeg s) ->
  let s' := fold_left (count_edge self) edges s in
  NoDup (s_seen s') /\ describes ids (s_seen s') (s_adj s') (s_indeg s') /\
  (forall p, p ∈ s_seen s' <-> p ∈ s_seen s \/ feeds self edges (fst p) (snd p)).
Proof.
  revert s. induction edges as [|e edges IH]; intros s Hdst Hnd Hd; simpl.
  - split_and!; [done|done|]. intros p. split; [by left|]. intros [H|(e & He & _)]; [done|by apply elem_of_nil in He].
  - destruct (count_edge_describes ids self s e) as [Hnd' Hd']; [apply Hdst; set_solver|done|done|].
    destruct (IH (count_edge self s e)) as (Hnd'' & Hd'' & Hp); [intros; apply Hdst; set_solver|done|done|].
    split_and!; [done|done|]. intros p. rewrite Hp.
    assert (He : p ∈ s_seen (count_edge self s e) <-> p ∈ s_seen s \/ counted self e /\ p = (e_srcNode e, e_dstNode e)).
    { unfold count_edge, counted. destruct (other_node self (e_srcOwner e)); [|split; [by left|by intros [?|[[[? ?] ?] ?]]]].
      destruct (other_node self (e_dstOwner e)); [|split; [by left|by intros [?|[[? [? ?]] ?]]]].
      case_bool_decide; cbn [s_seen]; [|rewrite elem_of_app, list_elem_of_singleton]; naive_solver eauto. }
    rewrite He. unfold feeds, counted. destruct p as [u v]. simpl. setoid_rewrite elem_of_cons. naive_solver.
Qed.

(** A listing of the ids of the graph's nodes, as ranging over the map gives. *)
Definition lists_nodes (ids : list string) (self : nat) (edges : list edge) : Prop :=
  NoDup ids /\ forall id, id ∈ ids <-> is_Some (graph_nodes self edges !! id).

Lemma other_node_stamped boundary self o node n :
  other_node self o = Some n -> stamped boundary self o node -> node = n_id n.
Proof.
  destruct o as [m| |]; try done. simpl. destruct (Nat.eqb (n_uid m) self); [done|]. by intros [= ->].
Qed.

Lemma feeds_nodes d edges u v :
  well_stamped d edges -> feeds (t_uid d) edges u v ->
  is_Some (graph_nodes (t_uid d) edges !! u) /\ is_Some (graph_nodes (t_uid d) edges !! v).
Proof.
  intros Hw (e & He & [a Ha] & [b Hb] & <- & <-).
  pose proof (proj1 (Forall_forall _ _) Hw e He) as [Hs Hd].
  rewrite (other_node_stamped _ _ _ _ _ Ha Hs), (other_node_stamped _ _ _ _ _ Hb Hd).
  split; apply graph_nodes_wired; exists e; auto.
Qed.

Lemma topoSortNodes_correct d edges ids order cyclic :
  well_stamped d edges -> lists_nodes ids (t_uid d) edges ->
  topoSortNodes ids (graph_nodes (t_uid d) edges) edges (t_uid d) = (order, cyclic) ->
  NoDup (map n_id order) /\
  (forall n, n ∈ order -> graph_nodes (t_uid d) edges !! n_id n = Some n) /\
  (forall u v, feeds (t_uid d) edges u v -> v ∈ map n_id order -> before (map n_id order) u v) /\
  (cyclic = false <-> forall id, ~ tc (feeds (t_uid d) edges) id id) /\
  (cyclic = false -> forall id n, graph_nodes (t_uid d) edges !! id = Some n -> n ∈ order).
Proof.
  intros Hw [Hnd Hids]. unfold topoSortNodes. set (nodes := graph_nodes (t_uid d) edges) in *.
  set (s0 := mkSortMaps _ _ _).
  destruct (count_edges_describes ids (t_uid d) edges s0) as (Hnds & Hdesc & Hseen).
  { intros e He [[a Ha] [b Hb]]. apply Hids. eapply feeds_nodes; [done|]. exists e. by eauto 8. }
  { constructor. }
  { cbn [s0 s_adj s_seen s_indeg]. pose proof (describes_nil (fun id => id) ids) as Hd. rewrite map_id in Hd. by apply Hd. }
  set (s := fold_left (count_edge (t_uid d)) edges s0) in *.
  assert (Hfeeds : forall u v, (u, v) ∈ s_seen s <-> feeds (t_uid d) edges u v).
  { intros u v. rewrite Hseen. simpl. split; [intros [H|H]; [by apply elem_of_nil in H|done]|by right]. }
  set (queue := List.filter _ ids).
  assert (Hends : forall u v, (u, v) ∈ s_seen s -> u ∈ ids /\ v ∈ ids).
  { intros u v H. apply Hfeeds in H. rewrite !Hids. by eapply feeds_nodes. }
  assert (Hq : forall m, m ∈ queue <-> m ∈ ids /\ List.filter (fun e => bool_decide (snd e = m)) (s_seen s) = []).
  { by apply (start_queue ids (s_seen s) (s_adj s) (s_indeg s)). }
  pose proof (kahn_correct ids (s_seen s) Hnd Hnds Hends (s_adj s) (s_indeg s) queue Hdesc
                (NoDup_filterb _ _ Hnd) Hq) as Hk.
  destruct (kahn_loop _ _ _ _) as [l rest]. destruct Hk as (_ & Hlnd & Hsub & Hbef & Hac). cbn [fst].
  intros [= <- <-].
  assert (Hmap : map n_id (omap (fun id => nodes !! id) l) = l).
  { apply omap_named; [intros id n H; by apply graph_nodes_id in H as [? _]|]. intros id H. by apply Hids, Hsub. }
  assert (Hsize : length ids = size nodes).
  { rewrite <- (length_map_to_list nodes), <- (length_map fst).
    apply Permutation_length, NoDup_Permutation; [done|apply NoDup_fst_map_to_list|].
    intros id. rewrite Hids, list_elem_of_fmap. split.
    - intros [n Hn]. exists (id, n). split; [done|]. by apply elem_of_map_to_list.
    - intros ([id' n] & -> & H). apply elem_of_map_to_list in H. by exists n. }
  rewrite Hmap, <- Hsize. split_and!.
  - done.
  - intros n Hn. apply list_elem_of_omap in Hn as (id & _ & Hn). by destruct (graph_nodes_id _ _ _ _ Hn) as [-> _].
  - intros u v H. apply Hbef. by apply Hfeeds.
  - rewrite Bool.negb_false_iff, Nat.eqb_eq, Hac. split; intros H x Hx; apply (H x); revert Hx;
      apply tc_congruence with (f := id); intros a b Hab; by apply Hfeeds.
  - rewrite Bool.negb_false_iff, Nat.eqb_eq. intros Hlen id n Hn. apply list_elem_of_omap. exists id. split; [|done].
    assert (Hperm : l ≡ₚ ids) by (apply submseteq_length_Permutation; [by apply NoDup_submseteq|lia]).
    rewrite Hperm. apply Hids. by exists n.
Qed.

(** ** What an accepted graph guarantees *)

(** Node ids do not collide with the task's boundary or with reference data. *)
Definition distinct_ids (d : DecisionTask) (edges : list edge) : Prop :=
  graph_nodes (t_uid d) edges !! t_boundaryID d = None /\
  forall e o rid v, e ∈ edges -> o = e_srcOwner e \/ o = e_dstOwner e -> o = ORef rid v ->
    graph_nodes (t_uid d) edges !! rid = None.

Lemma omap_None_elem {A B} (f : A -> option B) (l : list A) x : omap f l = [] -> x ∈ l -> f x = None.
Proof.
  induction l as [|y l IH]; simpl; [intros _ H; by apply elem_of_nil in H|].
  destruct (f y) eqn:E; [done|]. intros Hl Hx. apply elem_of_cons in Hx as [->|Hx]; eauto.
Qed.

Record accepted (ids : list string) (d : DecisionTask) (edges : list edge) (d' : DecisionTask) : Prop := {
  ac_unwired : t_wired d = false;
  ac_uid : t_uid d' = t_uid d;
  ac_boundary : t_boundaryID d' = t_boundaryID d;
  ac_invars : t_invars d' = t_invars d;
  ac_outvars : t_outvars d' = t_outvars d;
  ac_wired : t_wired d' = true;
  ac_order : topoSortNodes ids (graph_nodes (t_uid d) edges) edges (t_uid d) = (t_order d', false);
  ac_dst dk sk : t_dstSrc d' !! dk = Some sk ->
    exists e, e ∈ edges /\ dk = (e_dstNode e, e_dstField e) /\ sk = (e_srcNode e, e_srcField e);
  ac_ref k v : t_refVals d' !! k = Some v ->
    exists e id, e ∈ edges /\ e_srcOwner e = ORef id v /\ k = (e_srcNode e, e_srcField e);
  ac_inputs id n v : id ∈ ids -> graph_nodes (t_uid d) edges !! id = Some n -> v ∈ n_in n ->
    is_Some (t_dstSrc d' !! (id, v_name v));
  ac_ids id : id ∈ ids -> is_Some (graph_nodes (t_uid d) edges !! id) -> id <> EmptyString
}.

Lemma Graph_accepted ids d edges d' : Graph ids d edges = inl d' -> accepted ids d edges d'.
Proof.
  unfold Graph. destruct (t_wired d) eqn:Hwd; [done|].
  destruct (topoSortNodes ids _ edges (t_uid d)) as [order cyclic] eqn:Ht.
  destruct (_ ++ _) eqn:Hp; [|done]. intros [= <-].
  repeat (apply app_eq_nil in Hp as [? Hp]). destruct cyclic; [done|].
  assert (Hnode : forall id n, id ∈ ids -> graph_nodes (t_uid d) edges !! id = Some n ->
            node_problems (w_dstSrc (fold_left (wire (t_uid d)) edges (mkWiring ∅ ∅ ∅ []))) id n = []).
  { intros id n Hid Hn. apply (concat_nil_Forall) in H1. rewrite Forall_forall in H1. apply H1.
    apply list_elem_of_fmap. exists id. split; [|done]. unfold graph_nodes in Hn. by rewrite Hn. }
  constructor; cbn [t_uid t_boundaryID t_invars t_outvars t_wired t_order t_dstSrc t_refVals]; try done.
  - intros dk sk Hk. apply wire_dstSrc_sound in Hk as [Hk|Hk]; [cbn in Hk; by rewrite lookup_empty in Hk|done].
  - intros k v Hk. apply wire_refVals_sound in Hk as [Hk|Hk]; [cbn in Hk; by rewrite lookup_empty in Hk|done].
  - intros id n v Hid Hn Hv. specialize (Hnode id n Hid Hn). apply app_eq_nil in Hnode as [_ Hnode].
    apply (omap_None_elem _ _ v) in Hnode; [|done]. cbn beta in Hnode.
    destruct (w_dstSrc _ !! (id, v_name v)); [by eexists|done].
  - intros id Hid [n Hn] ->. specialize (Hnode _ n Hid Hn). by apply app_eq_nil in Hnode as [? _].
Qed.

(** A node input whose source is a node is fed by it. *)
Lemma source_feeds ids d edges d' n v :
  well_stamped d edges -> distinct_ids d edges -> lists_nodes ids (t_uid d) edges -> accepted ids d edges d' ->
  graph_nodes (t_uid d) edges !! n_id n = Some n -> v ∈ n_in n ->
  is_Some (graph_nodes (t_uid d) edges !! fst (source_of d' (n_id n, v_name v))) ->
  feeds (t_uid d) edges (fst (source_of d' (n_id n, v_name v))) (n_id n).
Proof.
  intros Hw [Hb Hr] [_ Hids] Ha Hn Hv Hs.
  destruct (ac_inputs _ _ _ _ Ha (n_id n) n v) as [sk Hsk]; [by apply Hids; eexists|done|done|].
  unfold source_of in *. rewrite Hsk in *. simpl in *.
  destruct (ac_dst _ _ _ _ Ha _ _ Hsk) as (e & He & [= Hdst _] & ->). simpl in *.
  pose proof (proj1 (Forall_forall _ _) Hw e He) as [Hss Hsd].
  assert (Hother : forall o node, o = e_srcOwner e \/ o = e_dstOwner e -> stamped (t_boundaryID d) (t_uid d) o node ->
            is_Some (graph_nodes (t_uid d) edges !! node) -> is_Some (other_node (t_uid d) o)).
  { intros o node Ho Hst Hin. destruct o as [m|rid rv|]; simpl in *.
    - destruct (Nat.eqb (n_uid m) (t_uid d)); [|by eexists]. subst node. rewrite Hb in Hin. by destruct Hin.
    - subst node. rewrite (Hr e _ rid rv He Ho eq_refl) in Hin. by destruct Hin.
    - exfalso. eapply (ac_ids _ _ _ _ Ha node); [by apply Hids|done|done]. }
  exists e. split_and!; [done| | |done|done].
  - eapply Hother; [by left|exact Hss|done].
  - eapply Hother; [by right|exact Hsd|]. rewrite <- Hdst. by eexists.
Qed.

(** ** Evaluation *)

Abbreviation HandleEnv := (gmap (string * string) (option BlValue)).

(** The equations the wiring states: handles that belong to no node have the
    task's inputs and the reference data; a node's output handles have what the
    node computes from its sources; its other handles have nothing. *)
Record solves (d : DecisionTask) (nodes : gmap string Node) (input : gmap string BlValue) (env : HandleEnv) : Prop := {
  sol_base k : nodes !! fst k = None -> env !! k = initial_env d input !! k;
  sol_node id n : nodes !! id = Some n ->
    exists outMap, n_run n (gather d env n) = Ok outMap /\
      (forall v, v ∈ n_out n -> env !! (id, v_name v) = Some (default None (outMap !! v_name v))) /\
      (forall f, f ∉ map v_name (n_out n) -> env !! (id, f) = None)
}.

Lemma publish_lookup n outMap env k :
  publish n outMap env !! k =
  if bool_decide (fst k = n_id n) && bool_decide (snd k ∈ map v_name (n_out n))
  then Some (default None (outMap !! snd k)) else env !! k.
Proof.
  unfold publish. revert env. induction (n_out n) as [|v vs IH]; intros env; simpl.
  - rewrite (bool_decide_false (snd k ∈ [])) by set_solver. by rewrite andb_false_r.
  - rewrite IH. clear IH. destruct k as [a b]. simpl. rewrite lookup_insert.
    destruct (decide (a = n_id n)) as [->|Hne].
    + rewrite (bool_decide_true (n_id n = n_id n)) by done. simpl.
      destruct (decide (b ∈ map v_name vs)) as [Hb|Hb].
      * rewrite !bool_decide_true by set_solver. done.
      * rewrite (bool_decide_false (b ∈ map v_name vs)) by done. case_decide as Hd.
        -- assert (b = v_name v) as -> by congruence. by rewrite bool_decide_true by set_solver.
        -- rewrite bool_decide_false; [done|]. rewrite elem_of_cons. intros [->|?]; [by apply Hd|done].
    + rewrite !(bool_decide_false (a = n_id n)) by done. simpl. rewrite decide_False by congruence. done.
Qed.

Lemma gather_ext d env env' n :
  (forall v, v ∈ n_in n -> env !! source_of d (n_id n, v_name v) = env' !! source_of d (n_id n, v_name v)) ->
  gather d env n = gather d env' n.
Proof.
  unfold gather. generalize (∅ : gmap string (option BlValue)). induction (n_in n) as [|v vs IH]; intros m H; [done|].
  simpl. rewrite (H v) by set_solver. apply IH. intros w Hw. apply H. set_solver.
Qed.

Lemma run_nodes_frame d l env env' k :
  run_nodes d l env = Ok env' -> fst k ∉ map n_id l -> env' !! k = env !! k.
Proof.
  revert env. induction l as [|n l IH]; intros env; simpl; [by intros [= ->]|].
  destruct (n_run n (gather d env n)) as [outMap|e]; simpl; [|done]. intros H Hk.
  rewrite (IH _ H) by set_solver. rewrite publish_lookup, bool_decide_false; [done|set_solver].
Qed.

Lemma run_nodes_app d l1 l2 env :
  run_nodes d (l1 ++ l2) env = let! env1 := run_nodes d l1 env in run_nodes d l2 env1.
Proof.
  revert env. induction l1 as [|n l1 IH]; intros env; simpl; [done|].
  destruct (n_run n (gather d env n)); simpl; [apply IH|done].
Qed.

Lemma initial_env_base d input k :
  fst k <> t_boundaryID d -> initial_env d input !! k = Some <$> t_refVals d !! k.
Proof.
  intros Hk. unfold initial_env. rewrite <- lookup_fmap. generalize (Some <$> t_refVals d).
  induction (t_invars d) as [|v vs IH]; intros env; simpl; [done|]. rewrite IH.
  rewrite lookup_insert_ne; [done|]. intros <-. by apply Hk.
Qed.

(** ** Evaluation solves the wiring *)

Section Solution.
Variables (ids : list string) (d : DecisionTask) (edges : list edge) (d' : DecisionTask).
Hypothesis Hstamp : well_stamped d edges.
Hypothesis Hdist : distinct_ids d edges.
Hypothesis Hids : lists_nodes ids (t_uid d) edges.
Hypothesis Hgraph : Graph ids d edges = inl d'.

Let nodes := graph_nodes (t_uid d) edges.

Lemma order_facts :
  NoDup (map n_id (t_order d')) /\
  (forall n, n ∈ t_order d' -> nodes !! n_id n = Some n) /\
  (forall u v, feeds (t_uid d) edges u v -> v ∈ map n_id (t_order d') -> before (map n_id (t_order d')) u v) /\
  (forall id n, nodes !! id = Some n -> n ∈ t_order d' /\ n_id n = id).
Proof.
  pose proof (Graph_accepted _ _ _ _ Hgraph) as Ha.
  destruct (topoSortNodes_correct _ _ _ _ _ Hstamp Hids (ac_order _ _ _ _ Ha)) as (H1 & H2 & H3 & _ & H5).
  split_and!; [done|done|done|]. intros id n Hn. split; [by apply (H5 eq_refl id)|]. by apply graph_nodes_id in Hn as [? _].
Qed.

(** No handle of a node has a value before the nodes run. *)
Lemma initial_env_nodes input k : is_Some (nodes !! fst k) -> initial_env d' input !! k = None.
Proof.
  intros Hk. pose proof (Graph_accepted _ _ _ _ Hgraph) as Ha. destruct Hdist as [Hb Hr].
  rewrite initial_env_base.
  - destruct (t_refVals d' !! k) as [v|] eqn:E; [|done].
    apply (ac_ref _ _ _ _ Ha) in E as (e & rid & He & Ho & ->). simpl in Hk.
    pose proof (proj1 (Forall_forall _ _) Hstamp e He) as [Hss _]. rewrite Ho in Hss. simpl in Hss. subst rid.
    unfold nodes in Hk. rewrite (Hr e _ _ v He (or_introl eq_refl) Ho) in Hk. by destruct Hk.
  - rewrite (ac_boundary _ _ _ _ Ha). intros Heq. unfold nodes in Hk. rewrite Heq, Hb in Hk. by destruct Hk.
Qed.

(** A node reads nothing that it or a later node of the order writes. *)
Lemma gather_stable l1 n l2 env env' :
  t_order d' = l1 ++ n :: l2 ->
  (forall k, fst k ∉ map n_id (n :: l2) -> env !! k = env' !! k) ->
  gather d' env n = gather d' env' n.
Proof.
  intros Ho Hk. apply gather_ext. intros v Hv. apply Hk. intros Hin.
  destruct order_facts as (Hnd & Hn & Hbef & Hall).
  assert (Hord : n ∈ t_order d') by (rewrite Ho; set_solver).
  set (s := source_of d' (n_id n, v_name v)) in *.
  assert (Hs : is_Some (nodes !! fst s)).
  { apply list_elem_of_fmap in Hin as (m & -> & Hm). exists m. apply Hn. rewrite Ho. set_solver. }
  pose proof (source_feeds _ _ _ _ _ _ Hstamp Hdist Hids (Graph_accepted _ _ _ _ Hgraph) (Hn n Hord) Hv Hs) as Hf.
  apply Hbef in Hf; [|apply list_elem_of_fmap; by exists n]. destruct Hf as (a & b & Heq & Ha).
  rewrite Ho, map_app in Heq, Hnd. simpl in Heq, Hnd.
  assert (a = map n_id l1) as ->.
  { eapply app_cons_unique; [exact Hnd|exact Heq]. }
  apply NoDup_app in Hnd as (_ & Hdis & _). by eapply Hdis.
Qed.

Lemma run_solves input env :
  run_nodes d' (t_order d') (initial_env d' input) = Ok env -> solves d' nodes input env.
Proof.
  destruct order_facts as (Hnd & Hn & Hbef & Hall). intros Hrun. split.
  - intros k Hk. eapply run_nodes_frame; [exact Hrun|]. intros Hin.
    apply list_elem_of_fmap in Hin as (m & Hm & Hin). rewrite Hm, (Hn m Hin) in Hk. done.
  - intros id n Hid. destruct (Hall id n Hid) as [Hin <-]. apply list_elem_of_split in Hin as (l1 & l2 & Ho).
    assert (Hl : n_id n ∉ map n_id l2 /\ n_id n ∉ map n_id l1).
    { rewrite Ho, map_app in Hnd. simpl in Hnd. apply NoDup_app in Hnd as (_ & Hd1 & Hd2).
      apply NoDup_cons in Hd2 as [? _]. split; [done|]. intros Hin1. apply (Hd1 _ Hin1). apply elem_of_cons. by left. }
    rewrite Ho, run_nodes_app in Hrun.
    destruct (run_nodes d' l1 (initial_env d' input)) as [env1|e] eqn:E1; simpl in Hrun; [|done].
    destruct (n_run n (gather d' env1 n)) as [outMap|e] eqn:En; simpl in Hrun; [|done].
    assert (Hkeys : forall f, env !! (n_id n, f) = publish n outMap env1 !! (n_id n, f)).
    { intros f. apply (run_nodes_frame _ _ _ _ _ Hrun). apply Hl. }
    exists outMap. split_and!.
    + rewrite <- En. f_equal. symmetry. apply (gather_stable l1 n l2 _ _ Ho). intros k Hk.
      rewrite (run_nodes_frame _ _ _ _ k Hrun) by set_solver.
      rewrite publish_lookup, bool_decide_false; [done|set_solver].
    + intros v Hv. rewrite Hkeys, publish_lookup. simpl.
      by rewrite !bool_decide_true by (try done; apply list_elem_of_fmap; by exists v).
    + intros f Hf. rewrite Hkeys, publish_lookup. simpl. rewrite (bool_decide_false _ Hf), andb_false_r.
      rewrite (run_nodes_frame _ _ _ _ (n_id n, f) E1) by (by apply Hl). apply initial_env_nodes. eauto.
Qed.

(** From a state that agrees with the solution outside the nodes still to run,
    the run ends in the solution. *)
Lemma solves_run_from input env l1 l2 env1 :
  solves d' nodes input env -> t_order d' = l1 ++ l2 ->
  (forall k, fst k ∉ map n_id l2 -> env1 !! k = env !! k) ->
  (forall k, fst k ∈ map n_id l2 -> env1 !! k = None) ->
  run_nodes d' l2 env1 = Ok env.
Proof.
  intros Hsol. destruct order_facts as (Hnd & Hn & _ & _).
  revert l1 env1. induction l2 as [|n l2 IH]; intros l1 env1 Ho Hag Hno; simpl.
  - f_equal. apply map_eq. intros k. apply Hag. set_solver.
  - assert (Hord : n ∈ t_order d') by (rewrite Ho; set_solver).
    assert (Hl2 : n_id n ∉ map n_id l2).
    { rewrite Ho, map_app in Hnd. simpl in Hnd. apply NoDup_app in Hnd as (_ & _ & Hnd).
      by apply NoDup_cons in Hnd as [? _]. }
    destruct (sol_node _ _ _ _ Hsol (n_id n) n (Hn n Hord)) as (outMap & Hrun & Hout & Hnone).
    rewrite (gather_stable l1 n l2 env1 env Ho Hag), Hrun. simpl.
    apply (IH (l1 ++ [n])); [by rewrite <- app_assoc| |].
    + intros [id f] Hk. rewrite publish_lookup. simpl in *. destruct (decide (id = n_id n)) as [->|Hne].
      * rewrite (bool_decide_true (n_id n = n_id n)) by done. simpl. case_bool_decide as Hf.
        -- apply list_elem_of_fmap in Hf as (v & -> & Hv). by rewrite (Hout v Hv).
        -- rewrite (Hnone f Hf). apply Hno. set_solver.
      * rewrite bool_decide_false by done. simpl. apply Hag. set_solver.
    + intros [id f] Hk. rewrite publish_lookup. simpl in *. rewrite (bool_decide_false (id = n_id n)) by congruence.
      simpl. apply Hno. set_solver.
Qed.

Lemma solves_run input env :
  solves d' nodes input env -> run_nodes d' (t_order d') (initial_env d' input) = Ok env.
Proof.
  intros Hsol. destruct order_facts as (Hnd & Hn & _ & Hall).
  apply (solves_run_from input env [] (t_order d')); [done|done| |].
  - intros k Hk. symmetry. apply (sol_base _ _ _ _ Hsol). destruct (nodes !! fst k) as [n|] eqn:E; [|done].
    destruct Hk. destruct (Hall _ _ E) as [Hin <-]. apply list_elem_of_fmap. by exists n.
  - intros k Hk. apply initial_env_nodes. apply list_elem_of_fmap in Hk as (n & -> & Hin). eauto.
Qed.

End Solution.

(** ** The theorems *)

(** [topoSortNodes] is a topological sort of the graph the edges draw, whatever
    order the node map is ranged over in: it lists nodes of the graph, none
    twice, each after the nodes that feed it; it reports a cycle exactly when
    some node feeds itself, directly or not; and without a cycle it lists every
    node. *)
Theorem task_order_topological (d : DecisionTask) (edges : list edge) (ids : list string) order cyclic :
  well_stamped d edges -> lists_nodes ids (t_uid d) edges ->
  topoSortNodes ids (graph_nodes (t_uid d) edges) edges (t_uid d) = (order, cyclic) ->
  NoDup (map n_id order) /\
  (forall n, n ∈ order -> graph_nodes (t_uid d) edges !! n_id n = Some n) /\
  (forall u v, feeds (t_uid d) edges u v -> v ∈ map n_id order -> before (map n_id order) u v) /\
  (cyclic = false <-> forall id, ~ tc (feeds (t_uid d) edges) id id) /\
  (cyclic = false -> forall id n, graph_nodes (t_uid d) edges !! id = Some n -> n ∈ order).
Proof. apply topoSortNodes_correct. Qed.

Lemma Evaluate_solution ids d edges d' input out :
  well_stamped d edges -> distinct_ids d edges -> lists_nodes ids (t_uid d) edges -> Graph ids d edges = inl d' ->
  Evaluate d' input = Ok out <->
  exists env, solves d' (graph_nodes (t_uid d) edges) input env /\ write_task_outputs d' env (t_outvars d') ∅ = Ok out.
Proof.
  intros Hw Hd Hi Hg. unfold Evaluate. rewrite (ac_wired _ _ _ _ (Graph_accepted _ _ _ _ Hg)). simpl. split.
  - destruct (run_nodes _ _ _) as [env|e] eqn:E; simpl; [|done]. intros Hout. exists env. split; [|done].
    by apply (run_solves ids d edges d' Hw Hd Hi Hg).
  - intros (env & Hs & Hout). apply (solves_run ids d edges d' Hw Hd Hi Hg) in Hs. by rewrite Hs.
Qed.

(** C7. Take a task whose wiring [Graph] accepted, with every edge's ends stamped
    with the ids of their owners, and no node's id equal to the task's own id or
    to that of a reference value.  Whatever the order in which the node map was
    ranged over, its [Evaluate] returns [out] exactly when the equations of the
    wiring have a solution whose values at the sources of the task outputs are
    [out]: every node runs on the final values of its sources.  [Graph] does not
    check the condition on ids, and without it the result may depend on that
    order (boundary_id_collision_order_dependent). *)
Theorem task_evaluation_solves_wiring (ids : list string) (d : DecisionTask) (edges : list edge) (d' : DecisionTask)
    (input out : gmap string BlValue) :
  well_stamped d edges -> distinct_ids d edges -> lists_nodes ids (t_uid d) edges -> Graph ids d edges = inl d' ->
  Evaluate d' input = Ok out <->
  exists env, solves d' (graph_nodes (t_uid d) edges) input env /\ write_task_outputs d' env (t_outvars d') ∅ = Ok out.
Proof. apply Evaluate_solution. Qed.

Lemma Graph_fields ids d edges d' :
  Graph ids d edges = inl d' ->
  t_dstSrc d' = w_dstSrc (fold_left (wire (t_uid d)) edges (mkWiring ∅ ∅ ∅ [])) /\
  t_refVals d' = w_refVals (fold_left (wire (t_uid d)) edges (mkWiring ∅ ∅ ∅ [])).
Proof.
  unfold Graph. destruct (t_wired d); [done|]. destruct (topoSortNodes _ _ _ _).
  destruct (_ ++ _); [|done]. by intros [= <-].
Qed.

Lemma solves_ext d1 d2 nodes input env :
  t_boundaryID d1 = t_boundaryID d2 -> t_invars d1 = t_invars d2 -> t_dstSrc d1 = t_dstSrc d2 -> t_refVals d1 = t_refVals d2 ->
  solves d1 nodes input env -> solves d2 nodes input env.
Proof.
  intros Hb Hi Hd Hr [Hbase Hnode].
  assert (Hg : forall n, gather d2 env n = gather d1 env n) by (intros n; unfold gather, source_of; by rewrite Hd).
  split.
  - intros k Hk. rewrite (Hbase k Hk). unfold initial_env. by rewrite Hb, Hi, Hr.
  - intros id n Hn. rewrite Hg. by apply Hnode.
Qed.

Lemma write_task_outputs_ext d1 d2 env vars out :
  t_boundaryID d1 = t_boundaryID d2 -> t_dstSrc d1 = t_dstSrc d2 ->
  write_task_outputs d1 env vars out = write_task_outputs d2 env vars out.
Proof.
  intros Hb Hd. revert out. induction vars as [|v vars IH]; intros out; simpl; [done|].
  unfold source_of. rewrite Hb, Hd. destruct (setValue _ _ _ _); simpl; [apply IH|done].
Qed.

Lemma concat_map_nil {A B} (f : A -> list B) (l : list A) : concat (map f l) = [] <-> forall x, x ∈ l -> f x = [].
Proof. rewrite List.concat_nil_Forall, Forall_map, Forall_forall. done. Qed.

(** Whether the wiring is accepted does not depend on the listing. *)
Lemma Graph_listing ids1 ids2 d edges d1 :
  well_stamped d edges -> lists_nodes ids1 (t_uid d) edges -> lists_nodes ids2 (t_uid d) edges ->
  Graph ids1 d edges = inl d1 -> exists d2, Graph ids2 d edges = inl d2.
Proof.
  intros Hw H1 H2. unfold Graph. destruct (t_wired d); [done|].
  destruct (topoSortNodes ids1 _ _ _) as [o1 c1] eqn:E1. destruct (topoSortNodes ids2 _ _ _) as [o2 c2] eqn:E2.
  destruct (topoSortNodes_correct _ _ _ _ _ Hw H1 E1) as (_ & _ & _ & Hc1 & _).
  destruct (topoSortNodes_correct _ _ _ _ _ Hw H2 E2) as (_ & _ & _ & Hc2 & _).
  assert (c1 = c2) as -> by (destruct c1, c2; naive_solver).
  destruct (_ ++ _) eqn:Hp; [|done]. intros _. repeat (apply app_eq_nil in Hp as [? Hp]).
  destruct c2; [done|].
  destruct H1 as [_ H1], H2 as [_ H2].
  match goal with H : concat (map ?f ids1) = [] |- _ =>
    assert (Hu : concat (map f ids2) = []) by
      (apply concat_map_nil; intros id Hid; apply (proj1 (concat_map_nil f ids1) H); by apply H1, H2) end.
  rewrite Hu. repeat match goal with H : _ = [] |- _ => rewrite H; clear H end. simpl. eauto.
Qed.

(** Ranging over the node map in another order changes neither whether a wiring
    is accepted nor what the task computes. *)
Theorem task_evaluation_order_irrelevant (ids1 ids2 : list string) (d : DecisionTask) (edges : list edge) (d1 : DecisionTask) :
  well_stamped d edges -> distinct_ids d edges ->
  lists_nodes ids1 (t_uid d) edges -> lists_nodes ids2 (t_uid d) edges -> Graph ids1 d edges = inl d1 ->
  exists d2, Graph ids2 d edges = inl d2 /\
    forall input out, Evaluate d1 input = Ok out <-> Evaluate d2 input = Ok out.
Proof.
  intros Hw Hd H1 H2 Hg1. destruct (Graph_listing _ _ _ _ _ Hw H1 H2 Hg1) as [d2 Hg2]. exists d2. split; [done|].
  intros input out. rewrite (Evaluate_solution _ _ _ _ _ _ Hw Hd H1 Hg1), (Evaluate_solution _ _ _ _ _ _ Hw Hd H2 Hg2).
  pose proof (Graph_accepted _ _ _ _ Hg1) as A1. pose proof (Graph_accepted _ _ _ _ Hg2) as A2.
  destruct (Graph_fields _ _ _ _ Hg1) as [Hs1 Hr1]. destruct (Graph_fields _ _ _ _ Hg2) as [Hs2 Hr2].
  destruct A1, A2.
  split; intros (env & Hs & Ho); exists env; (split; [eapply solves_ext; [..|exact Hs]; congruence|]);
    rewrite <- Ho; rewrite ac_outvars0, ac_outvars1; apply write_task_outputs_ext; congruence.
Qed.

End TaskLaws.

(** ** A sample task: two nodes in a row *)

Abbreviation QValue := (@BlValue QDecimal).

(** A native function of one number. *)
Definition on_number (f : Q -> Q) (s : gmap string QValue) : @GoCall QDecimal :=
  match s !! "a" with
  | Some (BlNumber q) => Returned {["r" := BlNumber (f q)]} None
  | _ => Returned ∅ (Some (ErrorText "no number"))
  end.

Definition sample_node (uid : nat) (id : string) (f : Q -> Q) : @Node QDecimal :=
  mkNode uid id [mkVar "a" GNumber] [mkVar "r" GNumber]
    (runErased [mkVar "a" GNumber] [mkVar "r" GNumber] (NativeFunction_Evaluate id "" (on_number f))).

Definition double : @Node QDecimal := sample_node 1 "double" (fun q => (q * 2)%Q).
Definition succ : @Node QDecimal := sample_node 2 "succ" (fun q => (q + 1)%Q).

Definition sample_task : @DecisionTask QDecimal :=
  mkTask 0 "task" "" "task" [mkVar "x" GNumber] [mkVar "y" GNumber] false [] ∅ ∅.

Definition port (n : @Node QDecimal) (field : string) : @Handle QDecimal := mkHandle (ONode n) (n_id n) field.

Definition sample_edges : list (@edge QDecimal) :=
  [Edge (port (task_node sample_task) "x") (port double "a");
   Edge (port double "r") (port succ "a");
   Edge (port succ "r") (port (task_node sample_task) "y")].

Definition sample_nodes : gmap string (@Node QDecimal) := <["succ" := succ]> (<["double" := double]> ∅).

Lemma sample_graph_nodes : graph_nodes 0 sample_edges = sample_nodes.
Proof. vm_eq. Qed.

Lemma sample_stamped : well_stamped sample_task sample_edges.
Proof. repeat constructor. Qed.

Lemma sample_lists (ids : list string) : ids ≡ₚ ["succ"; "double"] -> lists_nodes ids 0 sample_edges.
Proof.
  intros Hp. split; [rewrite Hp; repeat constructor; set_solver|]. intros id.
  rewrite Hp, sample_graph_nodes. unfold sample_nodes. rewrite !lookup_insert, !elem_of_cons.
  repeat (case_decide; [split; [by eexists|auto]|]). rewrite lookup_empty.
  split; [|by intros []]. intros [->|[->|Hx]]; [done|done|by apply elem_of_nil in Hx].
Qed.

Lemma sample_distinct : distinct_ids sample_task sample_edges.
Proof.
  split; [change (t_uid sample_task) with 0%nat; by rewrite sample_graph_nodes|].
  intros e o rid v He Ho ->. unfold sample_edges in He.
  rewrite !elem_of_cons in He. destruct He as [->|[->|[->|He]]]; [| | |by apply elem_of_nil in He];
    by destruct Ho.
Qed.

Definition sample_wired (ids : list string) : @DecisionTask QDecimal :=
  match Graph ids sample_task sample_edges with inl d => d | inr _ => sample_task end.

Lemma task_order_topological_witness :
  well_stamped sample_task sample_edges /\ lists_nodes ["succ"; "double"] 0 sample_edges /\
  topoSortNodes ["succ"; "double"] (graph_nodes 0 sample_edges) sample_edges 0 = ([double; succ], false) /\
  (forall id, ~ tc (feeds 0 sample_edges) id id).
Proof.
  assert (Ht : topoSortNodes ["succ"; "double"] (graph_nodes 0 sample_edges) sample_edges 0 = ([double; succ], false)) by vm_eq.
  assert (Hl : lists_nodes ["succ"; "double"] 0 sample_edges) by (apply sample_lists; reflexivity).
  refine (conj sample_stamped (conj Hl (conj Ht _))).
  destruct (task_order_topological sample_task sample_edges ["succ"; "double"] _ _ sample_stamped Hl Ht)
    as (_ & _ & _ & Hc & _).
  exact (proj1 Hc eq_refl).
Defined.

Lemma task_evaluation_solves_wiring_witness :
  Graph ["succ"; "double"] sample_task sample_edges = inl (sample_wired ["succ"; "double"]) /\
  Evaluate (sample_wired ["succ"; "double"]) {["x" := BlNumber (inject_Z 20)]} = Ok {["y" := BlNumber (inject_Z 41)]} /\
  exists env, solves (sample_wired ["succ"; "double"]) (graph_nodes 0 sample_edges) {["x" := BlNumber (inject_Z 20)]} env.
Proof.
  assert (Hg : Graph ["succ"; "double"] sample_task sample_edges = inl (sample_wired ["succ"; "double"])) by vm_eq.
  assert (He : Evaluate (sample_wired ["succ"; "double"]) {["x" := BlNumber (inject_Z 20)]} =
               Ok {["y" := BlNumber (inject_Z 41)]}) by vm_eq.
  refine (conj Hg (conj He _)).
  assert (Hl : lists_nodes ["succ"; "double"] 0 sample_edges) by (apply sample_lists; reflexivity).
  destruct (proj1 (task_evaluation_solves_wiring ["succ"; "double"] sample_task sample_edges _ _ _
    sample_stamped sample_distinct Hl Hg) He) as (env & Hs & _).
  exact (ex_intro _ env Hs).
Defined.

Lemma task_evaluation_order_irrelevant_witness :
  exists d2, Graph ["double"; "succ"] sample_task sample_edges = inl d2 /\
    forall input out, Evaluate (sample_wired ["succ"; "double"]) input = Ok out <-> Evaluate d2 input = Ok out.
Proof.
  refine (task_evaluation_order_irrelevant ["succ"; "double"] ["double"; "succ"] sample_task sample_edges _
            sample_stamped sample_distinct _ _ _).
  - apply sample_lists; reflexivity.
  - apply sample_lists. apply perm_swap.
  - vm_eq.
Defined.

(** ** Where wiring is not what its specification says *)

(** A node that shares its id with [double]. *)
Definition double' : @Node QDecimal := sample_node 3 "double" (fun q => (q * 3)%Q).

(** [decision-task.spec.md] (Wiring) says that duplicate node ids are rejected.
    [Graph] accepts them: the later node replaces the earlier one, whose
    function never runs. *)
Theorem duplicate_node_ids_accepted :
  let edges := [Edge (port (task_node sample_task) "x") (port double "a");
                Edge (port double' "r") (port (task_node sample_task) "y")] in
  exists d, Graph ["double"] sample_task edges = inl d /\ t_order d = [double'] /\
    Evaluate d {["x" := BlNumber (inject_Z 5)]} = Ok {["y" := BlNumber (inject_Z 15)]}.
Proof.
  intros edges. exists (match Graph ["double"] sample_task edges with inl d => d | inr _ => sample_task end).
  split; [vm_eq|split; [vm_eq|vm_eq]].
Qed.

(** A node that carries the id of its task and an output of the name of the
    task's input. *)
Definition shadow : @Node QDecimal :=
  mkNode 4 "task" [mkVar "a" GNumber] [mkVar "x" GNumber]
    (runErased [mkVar "a" GNumber] [mkVar "x" GNumber]
       (NativeFunction_Evaluate "task" "" (fun s =>
          match s !! "a" with
          | Some (BlNumber q) => Returned {["x" := BlNumber (q * 100)%Q]} None
          | _ => Returned ∅ (Some (ErrorText "no number"))
          end))).

Definition shadow_edges : list (@edge QDecimal) :=
  [Edge (port (task_node sample_task) "x") (port shadow "a");
   Edge (port (task_node sample_task) "x") (port succ "a");
   Edge (port succ "r") (port (task_node sample_task) "y")].

Definition shadow_wired (ids : list string) : @DecisionTask QDecimal :=
  match Graph ids sample_task shadow_edges with inl d => d | inr _ => sample_task end.

(** [Graph] accepts a node with the id of its task.  The node's output
    overwrites the task's input under the same handle, so what the task computes
    depends on the order in which Go ranges over the node map. *)
Theorem boundary_id_collision_order_dependent :
  let input : gmap string QValue := {["x" := BlNumber (inject_Z 5)]} in
  Graph ["succ"; "task"] sample_task shadow_edges = inl (shadow_wired ["succ"; "task"]) /\
  Graph ["task"; "succ"] sample_task shadow_edges = inl (shadow_wired ["task"; "succ"]) /\
  Evaluate (shadow_wired ["succ"; "task"]) input = Ok {["y" := BlNumber (inject_Z 6)]} /\
  Evaluate (shadow_wired ["task"; "succ"]) input = Ok {["y" := BlNumber (inject_Z 501)]}.
Proof. intros input. split; [vm_eq|]. split; [vm_eq|]. split; vm_eq. Qed.
