(* ===== verification/DecisionExpression.v ===== *)
(** * Decision expressions

    Models [core/decision_expression.go] and the walk over free identifiers of
    [core/check.go]: named entries over the inputs and each other, sorted by
    dependency at construction and evaluated in that order.  The compiler and
    the parser of the expression library are arguments ([compile], [parse]). *)

From S2P Require Import Prelude Decimal GoTime Values DecisionNode.
#[global] Open Scope Z_scope.

(** ** Free identifiers ([check.go]) *)

(** The syntax trees of the expression library, as far as [freeIdents] looks at
    them.  A dictionary pair has the name [stringProperty] finds for its key. *)
Inductive AstNode : Type :=
| IdentifierNode (value : string)
| UnaryNode (n : AstNode)
| BinaryNode (left right : AstNode)
| MemberNode (n property : AstNode)
| ChainNode (n : AstNode)
| SliceNode (n : AstNode) (from to : option AstNode)
| CallNode (callee : AstNode) (arguments : list AstNode)
| BuiltinNode (arguments : list AstNode)
| ConditionalNode (cond exp1 exp2 : AstNode)
| VariableDeclaratorNode (name : string) (value expr : AstNode)
| ArrayNode (nodes : list AstNode)
| MapNode (pairs : list (option string * AstNode))
| OtherNode.

(** [freeIdents]: the names collected in [out], for the set [bound]. *)
Fixpoint freeIdents (node : AstNode) (bound : list string) : list string :=
  let all := fix all (ns : list AstNode) (bound : list string) : list string :=
    match ns with
    | [] => []
    | n :: ns' => freeIdents n bound ++ all ns' bound
    end in
  let opt (o : option AstNode) := match o with Some n => freeIdents n bound | None => [] end in
  match node with
  | IdentifierNode v => if bool_decide (v ∈ bound) then [] else [v]
  | UnaryNode n => freeIdents n bound
  | BinaryNode l r => freeIdents l bound ++ freeIdents r bound
  | MemberNode n _ => freeIdents n bound
  | ChainNode n => freeIdents n bound
  | SliceNode n from to => freeIdents n bound ++ opt from ++ opt to
  | CallNode (IdentifierNode _) args => all args bound
  | CallNode callee _ => freeIdents callee bound
  | BuiltinNode args => all args bound
  | ConditionalNode c e1 e2 => freeIdents c bound ++ freeIdents e1 bound ++ freeIdents e2 bound
  | VariableDeclaratorNode name value expr => freeIdents value bound ++ freeIdents expr (name :: bound)
  | ArrayNode ns => all ns bound
  | MapNode pairs =>
      let inner := omap fst pairs ++ bound in
      (fix values (ps : list (option string * AstNode)) : list string :=
         match ps with
         | [] => []
         | (_, v) :: ps' => freeIdents v inner ++ values ps'
         end) pairs
  | OtherNode => []
  end.

(** [firstUndefined]: a free name that is not declared; a source that does not
    parse is left to the compiler.  Go picks the name by the iteration order of
    a map, here the first occurrence is taken. *)
Definition firstUndefined (parse : string -> result AstNode) (source : string) (declared : list string)
  : option string :=
  match parse source with
  | Err _ => None
  | Ok tree => List.find (fun name => negb (bool_decide (name ∈ declared))) (freeIdents tree [])
  end.

(** ** The node *)

Inductive ExprProblem : Type :=
| EInput (p : ContractProblem)
| EOutput (p : ContractProblem)
| ENoOutput
| ECollision (name : string)
| EUnmatchedEntry (key : string)
| EMissingEntry (name : string)
| EDuplicateFunc (name : string)
| EEntry (name : string) (err : GoError)
| EPlan (err : GoError).

Section DecisionExpression.
Context {DO : DecimalOps}.

Abbreviation Env := (list (string * EnvVal)).

(** [compiledEntry]; [ce_elem] is the type of the env field [envField]. *)
Record compiledEntry : Type := mkEntry {
  ce_output : string;
  ce_elem : GoType;
  ce_program : Program;
  ce_deps : list string
}.

Record DecisionExpression : Type := mkExpression {
  x_id : string;
  x_name : string;
  x_ivars : list decisionVar;
  x_ovars : list decisionVar;
  x_evalPlan : list compiledEntry
}.

(** [siblingDeps] *)
Definition siblingDeps (parse : string -> result AstNode) (source : string) (outputs : list string)
  : result (list string) :=
  let! tree := parse source in
  Ok (remove_dups (List.filter (fun name => bool_decide (name ∈ outputs)) (freeIdents tree []))).

(** The loop over the dependencies of one entry. *)
Fixpoint count_deps (output : string) (deps seen : list string) (indeg : gmap string Z)
    (dependents : gmap string (list string)) : result (gmap string Z * gmap string (list string)) :=
  match deps with
  | [] => Ok (indeg, dependents)
  | d :: deps' =>
      if String.eqb d output then Err (ErrorText ("entry " +:+ quote output +:+ " references itself"))
      else if bool_decide (d ∈ seen) then count_deps output deps' seen indeg dependents
      else count_deps output deps' (d :: seen) (incr output indeg) (append_to d output dependents)
  end.

(** The dependencies that loop counts, for the bound on the sort. *)
Fixpoint fresh_deps (seen deps : list string) : list string :=
  match deps with
  | [] => []
  | d :: deps' => if bool_decide (d ∈ seen) then fresh_deps seen deps' else d :: fresh_deps (d :: seen) deps'
  end.

(** The loop over the entries. *)
Fixpoint count_entries (entries : list compiledEntry) (indeg : gmap string Z)
    (dependents : gmap string (list string)) : result (gmap string Z * gmap string (list string)) :=
  match entries with
  | [] => Ok (indeg, dependents)
  | e :: entries' =>
      let! p := count_deps (ce_output e) (ce_deps e) [] indeg dependents in
      count_entries entries' (fst p) (snd p)
  end.

(** [topoSortEntries] *)
Definition topoSortEntries (entries : list compiledEntry) (order : list string) : result (list compiledEntry) :=
  let byName : gmap string compiledEntry := list_to_map (map (fun e => (ce_output e, e)) (reverse entries)) in
  let! p := count_entries entries (list_to_map (map (fun e => (ce_output e, 0)) entries)) ∅ in
  let '(indeg, dependents) := p in
  let queue := List.filter (fun name => default 0 (indeg !! name) =? 0) order in
  let edges := sum_list (map (fun e => length (fresh_deps [] (ce_deps e))) entries) in
  let out := fst (kahn_loop (kahn_fuel edges queue) dependents indeg queue) in
  if Nat.eqb (length out) (length entries) then Ok (omap (fun n => byName !! n) out)
  else Err (ErrorText "dependency cycle among entries").

(** [udfOptions]: the first function name that occurs twice. *)
Fixpoint udfOptions (seen names : list string) : option string :=
  match names with
  | [] => None
  | n :: names' => if bool_decide (n ∈ seen) then Some n else udfOptions (n :: seen) names'
  end.

(** The loop that compiles the entries. *)
Fixpoint compile_entries (compile : string -> result Program) (parse : string -> result AstNode)
    (sources : gmap string string) (outputs : list string) (ovars : list decisionVar)
  : list compiledEntry * list ExprProblem :=
  match ovars with
  | [] => ([], [])
  | v :: ovars' =>
      let '(es, ps) := compile_entries compile parse sources outputs ovars' in
      let src := default EmptyString (sources !! v_name v) in
      match compile src with
      | Err e => (es, EEntry (v_name v) e :: ps)
      | Ok program =>
          match siblingDeps parse src outputs with
          | Err e => (es, EEntry (v_name v) e :: ps)
          | Ok deps => (mkEntry (v_name v) (v_elem v) program deps :: es, ps)
          end
      end
  end.

(** [NewDecisionExpression]; [funcs] are the names of the user functions, which
    [compile] knows. *)
Definition NewDecisionExpression (compile : string -> result Program) (parse : string -> result AstNode)
    (id name : string) (i o : option (list StructField)) (sources : gmap string string) (funcs : list string)
  : DecisionExpression + list ExprProblem :=
  let '(ivars, ip) := reflectContract i in
  let '(ovars, op) := reflectContract o in
  let inNames := map v_name ivars in
  let outNames := map v_name ovars in
  match map EInput ip ++ map EOutput op ++ (match ovars with [] => [ENoOutput] | _ => [] end) ++
        map ECollision (List.filter (fun n => bool_decide (n ∈ inNames)) outNames) with
  | _ :: _ as ps => inr ps
  | [] =>
      match map EUnmatchedEntry (List.filter (fun k => negb (bool_decide (k ∈ outNames))) (map fst (map_to_list sources))) ++
            map EMissingEntry (List.filter (fun n => negb (bool_decide (is_Some (sources !! n)))) outNames) with
      | _ :: _ as ps => inr ps
      | [] =>
          match udfOptions [] funcs with
          | Some f => inr [EDuplicateFunc f]
          | None =>
              let '(entries, ps) := compile_entries compile parse sources outNames ovars in
              match ps with
              | _ :: _ => inr ps
              | [] =>
                  match topoSortEntries entries outNames with
                  | Err e => inr [EPlan e]
                  | Ok plan => inl (mkExpression id name ivars ovars plan)
                  end
              end
          end
      end
  end.

(** ** Evaluation *)

(** [setBlField] on the env field of a name. *)
Definition setBlField (name : string) (elem : GoType) (v : BlValue) (env : Env) : result Env :=
  if bool_decide (go_type v = elem)
  then Ok (map (fun f => if String.eqb (fst f) name then (name, Bound v) else f) env)
  else Err (TypeError "evaluate" "output type mismatch").

(** The env before the first step. *)
Definition expression_env (d : DecisionExpression) (input : gmap string BlValue) : Env :=
  map (fun v => let val := getValue input (v_name v) in
                (v_name v, if bool_decide (go_type val = v_elem v) then Bound val else ZeroOf (v_elem v)))
    (x_ivars d) ++
  map (fun v => (v_name v, ZeroOf (v_elem v))) (x_ovars d).

(** The steps of the plan. *)
Fixpoint run_plan (plan : list compiledEntry) (env : Env) : result Env :=
  match plan with
  | [] => Ok env
  | step :: plan' =>
      let! v := run_program (ce_program step) env in
      let! env' := setBlField (ce_output step) (ce_elem step) v env in
      run_plan plan' env'
  end.

(** The outputs read from the env.  An output that no step has set cannot occur
    in a plan that covers them all. *)
Fixpoint read_outputs (env : Env) (ovars : list decisionVar) (out : gmap string BlValue)
  : result (gmap string BlValue) :=
  match ovars with
  | [] => Ok out
  | v :: ovars' =>
      match assoc (v_name v) env with
      | Some (Bound x) => let! out' := setValue v "" (Some x) out in read_outputs env ovars' out'
      | _ => Err (ErrorText "output has no step")
      end
  end.

(** [Evaluate] *)
Definition Evaluate (d : DecisionExpression) (input : gmap string BlValue) : result (gmap string BlValue) :=
  let! env := run_plan (x_evalPlan d) (expression_env d input) in
  read_outputs env (x_ovars d) ∅.

End DecisionExpression.
