(* ===== verification/DecisionExpressionLaws.v ===== *)
(** * Laws of decision expressions

    The evaluation plan lists every entry after the entries it depends on and
    exists exactly when the dependencies have no cycle; evaluating it solves the
    equations the entries state, provided each program reads only the inputs and
    the dependencies recorded for it.  A last section shows an entry for which
    the recorded dependencies miss a name. *)

From stdpp Require Import relations.
From S2P Require Import Prelude Decimal GoTime Values DecisionNode DecisionExpression.
#[global] Open Scope Z_scope.

#[local] Arguments bool_decide : simpl never.

Section ExpressionLaws.
Context {DO : DecimalOps}.

Abbreviation Env := (list (string * EnvVal)).

(** ** Counting *)

(** Entry [v] depends on entry [u]. *)
Definition depends (entries : list compiledEntry) (u v : string) : Prop :=
  exists e, e ∈ entries /\ ce_output e = v /\ u ∈ ce_deps e.

Definition entry_edges (e : compiledEntry) : list (string * string) :=
  map (fun d => (d, ce_output e)) (fresh_deps [] (ce_deps e)).
Definition dep_edges (entries : list compiledEntry) : list (string * string) := mjoin (map entry_edges entries).

Lemma fresh_deps_spec seen deps d : d ∈ fresh_deps seen deps <-> d ∈ deps /\ d ∉ seen.
Proof.
  revert seen. induction deps as [|x deps IH]; intros seen; simpl; [set_solver|].
  case_bool_decide as Hx; [rewrite IH; set_solver|]. rewrite !elem_of_cons, IH.
  destruct (decide (d = x)); set_solver.
Qed.

Lemma fresh_deps_nodup seen deps : NoDup (fresh_deps seen deps).
Proof.
  revert seen. induction deps as [|x deps IH]; intros seen; simpl; [constructor|].
  case_bool_decide; [done|]. constructor; [rewrite fresh_deps_spec; set_solver|done].
Qed.

Lemma dep_edges_spec entries u v : (u, v) ∈ dep_edges entries <-> depends entries u v.
Proof.
  unfold dep_edges, depends. rewrite list_elem_of_join. split.
  - intros (l & Huv & Hl). apply list_elem_of_fmap in Hl as (e & -> & He).
    apply list_elem_of_fmap in Huv as (d & [= -> ->] & Hd). apply fresh_deps_spec in Hd as [Hd _]. eauto.
  - intros (e & He & <- & Hu). exists (entry_edges e). split.
    + apply list_elem_of_fmap. exists u. split; [done|]. apply fresh_deps_spec. set_solver.
    + apply list_elem_of_fmap. by exists e.
Qed.

Lemma dep_edges_nodup entries : NoDup (map ce_output entries) -> NoDup (dep_edges entries).
Proof.
  induction entries as [|e entries IH]; intros Hnd; [constructor|]. simpl in Hnd.
  apply NoDup_cons in Hnd as [He Hnd]. apply NoDup_app. split_and!; [| |by apply IH].
  - apply NoDup_fmap; [intros ? ? [= ?]; done|apply fresh_deps_nodup].
  - intros [u v] Huv Hin. apply list_elem_of_fmap in Huv as (d & [= _ ->] & _).
    apply dep_edges_spec in Hin as (e' & He' & Heq & _). apply He. rewrite <- Heq. apply list_elem_of_fmap. by exists e'.
Qed.

Lemma count_deps_spec N output deps seen E indeg (adj : gmap string (list string)) :
  output ∉ deps -> describes N E adj indeg ->
  exists indeg' adj', count_deps output deps seen indeg adj = Ok (indeg', adj') /\
    describes N (E ++ map (fun d => (d, output)) (fresh_deps seen deps)) adj' indeg'.
Proof.
  revert seen E indeg adj. induction deps as [|d deps IH]; intros seen E indeg adj Ho Hd; simpl.
  - exists indeg, adj. by rewrite app_nil_r.
  - apply not_elem_of_cons in Ho as [Hne Ho]. rewrite (proj2 (String.eqb_neq d output)) by done.
    case_bool_decide; [by apply IH|].
    destruct (IH (d :: seen) (E ++ [(d, output)]) (incr output indeg) (append_to d output adj)) as (i' & a' & Heq & Hd');
      [done|by apply describes_snoc|]. exists i', a'. split; [done|]. by rewrite <- app_assoc in Hd'.
Qed.

Lemma count_deps_self output deps seen indeg adj :
  output ∈ deps -> exists e, count_deps output deps seen indeg adj = Err e.
Proof.
  revert seen indeg adj. induction deps as [|d deps IH]; intros seen indeg adj Hin; [by apply elem_of_nil in Hin|].
  simpl. destruct (String.eqb_spec d output) as [->|Hne]; [eauto|]. apply elem_of_cons in Hin as [->|Hin]; [done|].
  case_bool_decide; by apply IH.
Qed.

Lemma count_entries_spec N entries E indeg (adj : gmap string (list string)) :
  (forall e, e ∈ entries -> ce_output e ∉ ce_deps e) -> describes N E adj indeg ->
  exists indeg' adj', count_entries entries indeg adj = Ok (indeg', adj') /\
    describes N (E ++ dep_edges entries) adj' indeg'.
Proof.
  revert E indeg adj. induction entries as [|e entries IH]; intros E indeg adj Hs Hd; simpl.
  - exists indeg, adj. by rewrite app_nil_r.
  - destruct (count_deps_spec N (ce_output e) (ce_deps e) [] E indeg adj) as (i & a & -> & Hd'); [apply Hs; set_solver|done|].
    cbn [result_bind fst snd].
    destruct (IH _ i a (fun e' He' => Hs e' (proj2 (elem_of_cons _ _ _) (or_intror He'))) Hd') as (i' & a' & -> & Hd'').
    exists i', a'. split; [done|]. by rewrite <- app_assoc in Hd''.
Qed.

Lemma count_entries_self entries indeg adj :
  (exists e, e ∈ entries /\ ce_output e ∈ ce_deps e) -> exists err, count_entries entries indeg adj = Err err.
Proof.
  intros (e & He & Hd). revert indeg adj. induction entries as [|x entries IH]; intros indeg adj; [by apply elem_of_nil in He|].
  simpl. apply elem_of_cons in He as [<-|He].
  - destruct (count_deps_self (ce_output e) (ce_deps e) [] indeg adj Hd) as [err ->]. by exists err.
  - destruct (count_deps _ _ _ _ _) as [p|err]; simpl; [by apply IH|by exists err].
Qed.

(** ** The plan *)

Definition closed_deps (entries : list compiledEntry) : Prop :=
  forall e d, e ∈ entries -> d ∈ ce_deps e -> d ∈ map ce_output entries.

Lemma self_dep entries e : e ∈ entries -> ce_output e ∈ ce_deps e -> tc (depends entries) (ce_output e) (ce_output e).
Proof. intros He Hd. apply tc_once. by exists e. Qed.

Lemma by_name_lookup entries n e :
  NoDup (map ce_output entries) ->
  (list_to_map (map (fun e => (ce_output e, e)) (reverse entries)) : gmap string compiledEntry) !! n = Some e <->
  e ∈ entries /\ ce_output e = n.
Proof.
  intros Hnd. rewrite <- elem_of_list_to_map.
  - rewrite list_elem_of_fmap. split.
    + intros (e' & [= -> ->] & He'). by rewrite elem_of_reverse in He'.
    + intros [He <-]. exists e. split; [done|]. by rewrite elem_of_reverse.
  - rewrite map_map. simpl. rewrite (Permutation_map _ (reverse_Permutation entries)). done.
Qed.

Lemma dep_edges_length entries :
  length (dep_edges entries) = sum_list (map (fun e => length (fresh_deps [] (ce_deps e))) entries).
Proof.
  induction entries as [|e entries IH]; [done|]. unfold dep_edges in *. simpl.
  rewrite length_app, IH. unfold entry_edges. by rewrite length_map.
Qed.

Lemma topoSortEntries_spec entries order :
  NoDup (map ce_output entries) -> closed_deps entries -> order ≡ₚ map ce_output entries ->
  (forall plan, topoSortEntries entries order = Ok plan ->
     plan ≡ₚ entries /\ forall e d, e ∈ plan -> d ∈ ce_deps e -> before (map ce_output plan) d (ce_output e)) /\
  ((exists plan, topoSortEntries entries order = Ok plan) <-> forall x, ~ tc (depends entries) x x).
Proof.
  intros Hnd Hcl Hord. unfold topoSortEntries.
  destruct (decide (Exists (fun e => ce_output e ∈ ce_deps e) entries)) as [Hself|Hself].
  { apply Exists_exists in Hself. destruct (count_entries_self entries (list_to_map (map (fun e => (ce_output e, 0)) entries)) ∅ Hself) as [err ->].
    split; [done|]. split; [by intros [? ?]|]. intros Hac. destruct Hself as (e & He & Hd). exfalso. by eapply Hac, self_dep. }
  assert (Hns : forall e, e ∈ entries -> ce_output e ∉ ce_deps e).
  { intros e He Hd. apply Hself, Exists_exists. eauto. }
  destruct (count_entries_spec (map ce_output entries) entries [] _ ∅ Hns (describes_nil ce_output entries Hnd))
    as (indeg & adj & -> & Hdesc). cbn [result_bind app] in *.
  set (E := dep_edges entries) in *. set (queue := List.filter _ order).
  assert (Hends : forall u v, (u, v) ∈ E -> u ∈ map ce_output entries /\ v ∈ map ce_output entries).
  { intros u v H. apply dep_edges_spec in H as (e & He & <- & Hu). split; [by eapply Hcl|]. apply list_elem_of_fmap. by exists e. }
  assert (Hqnd : NoDup queue) by (apply NoDup_filterb; by rewrite Hord).
  pose proof (kahn_correct _ E Hnd (dep_edges_nodup _ Hnd) Hends adj indeg queue Hdesc Hqnd
                (start_queue _ _ _ _ order Hdesc (fun m => elem_of_Permutation_proper m _ _ Hord))) as Hk.
  rewrite <- dep_edges_length. fold E. destruct (kahn_loop _ _ _ _) as [l rest]. cbn [fst].
  destruct Hk as (_ & Hlnd & Hsub & Hbef & Hac). rewrite length_map in Hac.
  assert (Htc : (forall x, ~ tc (edge_rel E) x x) <-> forall x, ~ tc (depends entries) x x).
  { split; intros H x Hx; apply (H x); revert Hx; apply tc_congruence with (f := id); intros a b; apply dep_edges_spec. }
  split.
  - intros plan. destruct (Nat.eqb_spec (length l) (length entries)) as [Hlen|]; [|done]. intros [= <-].
    assert (Hmap : map ce_output (omap (fun n => (list_to_map (map (fun e => (ce_output e, e)) (reverse entries)) : gmap string compiledEntry) !! n) l) = l).
    { apply omap_named; [intros k x Hx; by apply by_name_lookup in Hx as [_ ?]|]. intros k Hk. apply Hsub, list_elem_of_fmap in Hk as (e & -> & He).
      exists e. by apply by_name_lookup. }
    split.
    + apply NoDup_Permutation;
        [apply (NoDup_fmap_1 ce_output); exact (eq_ind_r (fun z => NoDup z) Hlnd Hmap)|by apply (NoDup_fmap_1 ce_output)|].
      intros e. rewrite list_elem_of_omap. setoid_rewrite by_name_lookup; [|done]. split; [by intros (n & _ & ? & _)|].
      intros He. exists (ce_output e). split; [|done].
      assert (Hp : l ≡ₚ map ce_output entries).
      { apply submseteq_length_Permutation; [by apply NoDup_submseteq|]. rewrite length_map. lia. }
      rewrite Hp. apply list_elem_of_fmap. by exists e.
    + intros e d He Hd. rewrite Hmap. apply list_elem_of_omap in He as (n & Hn & He). apply by_name_lookup in He as [He <-]; [|done].
      apply Hbef; [|done]. apply dep_edges_spec. by exists e.
  - rewrite <- Htc, <- Hac. destruct (Nat.eqb_spec (length l) (length entries)); split; [done|eauto|by intros [? ?]|done].
Qed.

(** ** Environments *)

Lemma assoc_cons {V} (k : string) (x : string * V) (l : list (string * V)) :
  assoc k (x :: l) = if String.eqb (fst x) k then Some (snd x) else assoc k l.
Proof. unfold assoc. simpl. by destruct (String.eqb (fst x) k). Qed.

Lemma assoc_names {V} (k : string) (l l' : list (string * V)) :
  map fst l = map fst l' -> is_Some (assoc k l) -> is_Some (assoc k l').
Proof.
  intros Hm [v Hv]. destruct (assoc k l') as [v'|] eqn:E; [by eexists|].
  apply assoc_None in E. destruct E. rewrite <- Hm. by eapply assoc_In_fst.
Qed.

Lemma assoc_ext {V} (l l' : list (string * V)) :
  NoDup (map fst l) -> map fst l = map fst l' -> (forall k, assoc k l = assoc k l') -> l = l'.
Proof.
  revert l'. induction l as [|[k v] l IH]; intros [|[k' v'] l'] Hnd Hm Ha; try done.
  simpl in Hnd, Hm. injection Hm as <- Hm. apply NoDup_cons in Hnd as [Hk Hnd].
  pose proof (Ha k) as Hkv. rewrite !assoc_cons in Hkv. simpl in Hkv. rewrite String.eqb_refl in Hkv. injection Hkv as <-.
  f_equal. apply IH; [done|done|]. intros n. specialize (Ha n). rewrite !assoc_cons in Ha. simpl in Ha.
  destruct (String.eqb_spec k n) as [Hn|Hn]; [|done]. subst n.
  rewrite (proj2 (assoc_None k l)), (proj2 (assoc_None k l')); [done| |];
    rewrite <- list_elem_of_In; [by rewrite <- Hm|done].
Qed.

Lemma setBlField_ok name elem v (env env' : Env) :
  setBlField name elem v env = Ok env' ->
  go_type v = elem /\ map fst env' = map fst env /\
  forall n, assoc n env' = if bool_decide (n = name) then (const (Bound v) <$> assoc n env) else assoc n env.
Proof.
  unfold setBlField. case_bool_decide as Ht; [|done]. intros [= <-]. split_and!; [done| |].
  - rewrite map_map. apply map_ext. intros [k w]. simpl. by destruct (String.eqb_spec k name) as [->|].
  - intros n. induction env as [|[k w] env IH]; [by destruct (bool_decide _)|]. cbn [map]. rewrite !assoc_cons, IH. simpl.
    destruct (String.eqb_spec k name) as [->|Hk]; simpl.
    + destruct (String.eqb_spec name n) as [->|Hn]; [by rewrite bool_decide_true by done|done].
    + destruct (String.eqb_spec k n) as [->|Hn]; [by rewrite bool_decide_false by done|done].
Qed.

Lemma run_plan_frame plan (env env' : Env) :
  run_plan plan env = Ok env' ->
  map fst env' = map fst env /\ forall n, n ∉ map ce_output plan -> assoc n env' = assoc n env.
Proof.
  revert env. induction plan as [|e plan IH]; intros env; simpl; [by intros [= ->]|].
  destruct (run_program (ce_program e) env) as [v|]; simpl; [|done].
  destruct (setBlField _ _ v env) as [env1|] eqn:Es; simpl; [|done]. apply setBlField_ok in Es as (_ & Hm & Ha).
  intros H. apply IH in H as [Hm' Ha']. split; [congruence|]. intros n Hn. apply not_elem_of_cons in Hn as [Hn Hn'].
  rewrite Ha', Ha by done. by rewrite bool_decide_false by done.
Qed.

Lemma run_plan_app l1 l2 (env : Env) :
  run_plan (l1 ++ l2) env = let! env1 := run_plan l1 env in run_plan l2 env1.
Proof.
  revert env. induction l1 as [|e l1 IH]; intros env; simpl; [done|].
  destruct (run_program _ env) as [v|]; simpl; [|done]. destruct (setBlField _ _ v env); simpl; [apply IH|done].
Qed.

(** ** What construction guarantees *)

(** A program reads nothing but the given names. *)
Definition program_reads (p : Program) (names : list string) : Prop :=
  forall env1 env2 : Env, map fst env1 = map fst env2 ->
    (forall n, n ∈ names -> assoc n env1 = assoc n env2) -> p env1 = p env2.

Record well_planned (d : DecisionExpression) : Prop := {
  wp_names : NoDup (map v_name (x_ivars d) ++ map v_name (x_ovars d));
  wp_outputs : map ce_output (x_evalPlan d) ≡ₚ map v_name (x_ovars d);
  wp_order e n : e ∈ x_evalPlan d -> n ∈ ce_deps e -> before (map ce_output (x_evalPlan d)) n (ce_output e)
}.

Lemma compile_entries_ok compile parse sources outputs ovars es :
  compile_entries compile parse sources outputs ovars = (es, []) ->
  map ce_output es = map v_name ovars /\ forall e n, e ∈ es -> n ∈ ce_deps e -> n ∈ outputs.
Proof.
  revert es. induction ovars as [|v ovars IH]; intros es; simpl.
  - intros [= <-]. split; [done|]. intros e n He. by apply elem_of_nil in He.
  - destruct (compile_entries _ _ _ _ ovars) as [es' ps]. destruct (compile _) as [p|]; [|done].
    destruct (siblingDeps parse _ outputs) as [deps|] eqn:Hd; [|done]. intros [= <- ->].
    destruct (IH es' eq_refl) as [Hm Hdeps]. split; [by simpl; f_equal|].
    intros e n He Hn. apply elem_of_cons in He as [->|He]; [|by eapply Hdeps]. simpl in Hn.
    unfold siblingDeps in Hd. destruct (parse _) as [tree|]; simpl in Hd; [|done]. injection Hd as <-.
    rewrite elem_of_remove_dups, elem_of_filterb, bool_decide_eq_true in Hn. by destruct Hn.
Qed.

Lemma NewDecisionExpression_planned compile parse id name i o sources funcs d :
  NewDecisionExpression compile parse id name i o sources funcs = inl d -> well_planned d.
Proof.
  unfold NewDecisionExpression.
  destruct (reflectContract i) as [ivars ip] eqn:Hi. destruct (reflectContract o) as [ovars op] eqn:Ho.
  destruct (_ ++ _) eqn:Hp; [|done]. destruct (_ ++ _) eqn:Hq in |- *; [|done].
  destruct (udfOptions [] funcs); [done|].
  destruct (compile_entries _ _ _ _ ovars) as [es [|? ?]] eqn:He; [|done].
  destruct (topoSortEntries es _) as [plan|] eqn:Ht; [|done]. intros [= <-].
  apply compile_entries_ok in He as [Hm Hdeps].
  assert (Hnames : forall t vs ps, reflectContract t = (vs, ps) -> NoDup (map v_name vs)).
  { intros [fs|] vs ps; simpl; [|intros [= <- _]; constructor]. intros H.
    pose proof (reflect_fields_nodup [] fs) as Hn. by rewrite H in Hn. }
  assert (Hdis : forall n, n ∈ map v_name ivars -> n ∉ map v_name ovars).
  { intros n Hn Hn'. do 3 (apply app_eq_nil in Hp as [_ Hp]). apply map_eq_nil in Hp.
    assert (n ∈ List.filter (fun n => bool_decide (n ∈ map v_name ivars)) (map v_name ovars)) as Hin.
    { apply elem_of_filterb. split; [done|]. by apply bool_decide_eq_true. }
    rewrite Hp in Hin. by apply elem_of_nil in Hin. }
  destruct (topoSortEntries_spec es (map v_name ovars)) as [Hplan _].
  { rewrite Hm. by eapply Hnames. }
  { intros e n He Hn. rewrite Hm. by eapply Hdeps. }
  { by rewrite Hm. }
  destruct (Hplan plan Ht) as [Hperm Hbef]. constructor; simpl.
  - apply NoDup_app. split_and!; [by eapply Hnames|done|by eapply Hnames].
  - rewrite <- Hm. by apply Permutation_map.
  - done.
Qed.

(** ** Evaluation solves the entries *)

(** The equations of the entries: the inputs have their values and every output
    has the value of its entry's program in that same environment. *)
Record solves_entries (d : DecisionExpression) (input : gmap string BlValue) (env : Env) : Prop := {
  se_fields : map fst env = map fst (expression_env d input);
  se_inputs v : v ∈ x_ivars d -> assoc (v_name v) env = assoc (v_name v) (expression_env d input);
  se_entry e : e ∈ x_evalPlan d ->
    exists v, run_program (ce_program e) env = Ok v /\ go_type v = ce_elem e /\
      assoc (ce_output e) env = Some (Bound v)
}.

Section Solution.
Variables (d : DecisionExpression) (input : gmap string BlValue).
Hypothesis Hwp : well_planned d.
Hypothesis Hreads : forall e, e ∈ x_evalPlan d ->
  program_reads (ce_program e) (map v_name (x_ivars d) ++ ce_deps e).

Lemma expression_env_names :
  map fst (expression_env d input) = map v_name (x_ivars d) ++ map v_name (x_ovars d).
Proof. unfold expression_env. by rewrite map_app, !map_map. Qed.

Lemma plan_nodup : NoDup (map ce_output (x_evalPlan d)).
Proof. rewrite (wp_outputs _ Hwp). by destruct (proj1 (NoDup_app _ _) (wp_names _ Hwp)) as (_ & _ & ?). Qed.

Lemma input_not_output n : n ∈ map v_name (x_ivars d) -> n ∉ map ce_output (x_evalPlan d).
Proof.
  rewrite (wp_outputs _ Hwp). destruct (proj1 (NoDup_app _ _) (wp_names _ Hwp)) as (_ & Hd & _). apply Hd.
Qed.

(** A step's program reads nothing that it or a later step writes. *)
Lemma program_stable l1 e l2 (env env' : Env) :
  x_evalPlan d = l1 ++ e :: l2 -> map fst env = map fst env' ->
  (forall n, n ∉ map ce_output (e :: l2) -> assoc n env = assoc n env') ->
  run_program (ce_program e) env = run_program (ce_program e) env'.
Proof.
  intros Hp Hm Ha. unfold run_program. f_equal.
  assert (He : e ∈ x_evalPlan d) by (rewrite Hp; set_solver).
  rewrite (Hreads e He env env'); [done|done|]. intros n Hn. apply Ha. intros Hin.
  pose proof plan_nodup as Hnd. apply elem_of_app in Hn as [Hn|Hn].
  - apply (input_not_output n Hn). rewrite Hp, map_app. apply elem_of_app. by right.
  - pose proof (wp_order _ Hwp e n He Hn) as (a & b & Heq & Hna). rewrite Hp, map_app in Heq, Hnd. simpl in Heq, Hnd.
    assert (a = map ce_output l1) as -> by (by eapply app_cons_unique).
    apply NoDup_app in Hnd as (_ & Hd & _). by eapply Hd.
Qed.

Lemma run_solves_entries env :
  run_plan (x_evalPlan d) (expression_env d input) = Ok env -> solves_entries d input env.
Proof.
  intros Hrun. pose proof (run_plan_frame _ _ _ Hrun) as [Hm Ha]. split; [done| |].
  - intros v Hv. apply Ha, input_not_output. apply list_elem_of_fmap. by exists v.
  - intros e He. pose proof plan_nodup as Hnd. apply list_elem_of_split in He as (l1 & l2 & Hp).
    rewrite Hp in Hrun, Hnd. rewrite run_plan_app in Hrun.
    destruct (run_plan l1 _) as [env1|] eqn:E1; simpl in Hrun; [|done].
    destruct (run_program (ce_program e) env1) as [v|] eqn:Er; simpl in Hrun; [|done].
    destruct (setBlField _ _ v env1) as [env2|] eqn:Es; simpl in Hrun; [|done].
    apply setBlField_ok in Es as (Ht & Hm2 & Ha2). apply run_plan_frame in Hrun as [Hm3 Ha3].
    apply run_plan_frame in E1 as [Hm1 _]. rewrite map_app in Hnd. simpl in Hnd.
    apply NoDup_app in Hnd as (_ & _ & Hnd). apply NoDup_cons in Hnd as [Hl2 _].
    exists v. split_and!; [|done|].
    + rewrite <- Er. apply (program_stable l1 e l2 env env1 Hp); [congruence|]. intros n Hn.
      apply not_elem_of_cons in Hn as [Hn Hn']. rewrite Ha3, Ha2 by done. by rewrite bool_decide_false by done.
    + rewrite Ha3, Ha2 by done. rewrite bool_decide_true by done.
      assert (is_Some (assoc (ce_output e) env1)) as [w ->]; [|done].
      destruct (assoc (ce_output e) env1) eqn:En; [by eexists|]. apply assoc_None in En. destruct En.
      apply list_elem_of_In. rewrite Hm1, expression_env_names. apply elem_of_app. right.
      rewrite <- (wp_outputs _ Hwp), Hp, map_app. apply elem_of_app. right. apply elem_of_cons. by left.
Qed.

Lemma solves_entries_run_from env l1 l2 env1 :
  solves_entries d input env -> x_evalPlan d = l1 ++ l2 -> map fst env1 = map fst env ->
  (forall n, n ∉ map ce_output l2 -> assoc n env1 = assoc n env) ->
  run_plan l2 env1 = Ok env.
Proof.
  intros Hsol. revert l1 env1. induction l2 as [|e l2 IH]; intros l1 env1 Hp Hm Ha; simpl.
  - f_equal. apply assoc_ext; [|done|intros k; apply Ha; set_solver].
    rewrite Hm, (se_fields _ _ _ Hsol), expression_env_names. apply (wp_names _ Hwp).
  - assert (He : e ∈ x_evalPlan d) by (rewrite Hp; set_solver).
    destruct (se_entry _ _ _ Hsol e He) as (v & Hr & Ht & Hv).
    rewrite (program_stable l1 e l2 env1 env Hp Hm Ha), Hr. simpl.
    destruct (setBlField (ce_output e) (ce_elem e) v env1) as [env2|] eqn:Es.
    + apply setBlField_ok in Es as (_ & Hm2 & Ha2). simpl. apply (IH (l1 ++ [e])); [by rewrite <- app_assoc|congruence|].
      intros n Hn. rewrite Ha2. case_bool_decide as Hne.
      * subst n. assert (is_Some (assoc (ce_output e) env1)) as [w ->]; [|by rewrite Hv].
        apply (assoc_names _ env env1); [done|by eexists].
      * apply Ha. by apply not_elem_of_cons.
    + unfold setBlField in Es. by rewrite bool_decide_true in Es by done.
Qed.

Lemma solves_entries_run env :
  solves_entries d input env -> run_plan (x_evalPlan d) (expression_env d input) = Ok env.
Proof.
  intros Hsol. apply (solves_entries_run_from env []); [done|done|by rewrite (se_fields _ _ _ Hsol)|].
  intros n Hn. destruct (decide (n ∈ map v_name (x_ivars d))) as [Hi|Hi].
  - apply list_elem_of_fmap in Hi as (v & -> & Hv). symmetry. by apply (se_inputs _ _ _ Hsol).
  - assert (Hno : forall env' : Env, map fst env' = map fst (expression_env d input) -> assoc n env' = None).
    { intros env' Hm. apply assoc_None. rewrite <- list_elem_of_In, Hm, expression_env_names, elem_of_app.
      rewrite <- (wp_outputs _ Hwp). by intros [?|?]. }
    rewrite !Hno; [done|apply (se_fields _ _ _ Hsol)|done].
Qed.

End Solution.

(** [topoSortEntries] gives a plan exactly when no entry depends on itself,
    directly or through others; the plan has every entry once, each after the
    entries it depends on, whatever order the dependencies are listed in. *)
Theorem expression_plan_topological (entries : list compiledEntry) (order : list string) :
  NoDup (map ce_output entries) -> closed_deps entries -> order ≡ₚ map ce_output entries ->
  (forall plan, topoSortEntries entries order = Ok plan ->
     plan ≡ₚ entries /\ forall e d, e ∈ plan -> d ∈ ce_deps e -> before (map ce_output plan) d (ce_output e)) /\
  ((exists plan, topoSortEntries entries order = Ok plan) <-> forall x, ~ tc (depends entries) x x).
Proof. apply topoSortEntries_spec. Qed.

(** C8. A constructed decision expression whose programs read only the inputs and
    the dependencies found for them returns [out] exactly when the equations of
    its entries have a solution with those outputs. *)
Theorem expression_evaluation_solves_entries compile parse id name i o (sources : gmap string string) (funcs : list string)
    (d : DecisionExpression) (input out : gmap string BlValue) :
  NewDecisionExpression compile parse id name i o sources funcs = inl d ->
  (forall e, e ∈ x_evalPlan d -> program_reads (ce_program e) (map v_name (x_ivars d) ++ ce_deps e)) ->
  Evaluate d input = Ok out <->
  exists env, solves_entries d input env /\ read_outputs env (x_ovars d) ∅ = Ok out.
Proof.
  intros Hnew Hreads. apply NewDecisionExpression_planned in Hnew. unfold Evaluate. split.
  - destruct (run_plan _ _) as [env|] eqn:E; simpl; [|done]. intros Hout. exists env. split; [|done].
    by apply run_solves_entries.
  - intros (env & Hs & Hout). rewrite (solves_entries_run d input Hnew Hreads env Hs). done.
Qed.

End ExpressionLaws.

(** ** A sample expression *)

(** The number a name has in the env; an unset number field is zero. *)
Definition number_of (n : string) (env : list (string * @EnvVal QDecimal)) : Q :=
  match assoc n env with
  | Some (Bound (BlNumber q)) => q
  | _ => inject_Z 0
  end.

(** Two entries, declared in the order [total], [fee]. *)
Definition total_program : @Program QDecimal := fun env => Ok (HBl (BlNumber (number_of "x" env + number_of "fee" env)%Q)).
Definition fee_program : @Program QDecimal := fun _ => Ok (HBl (BlNumber (inject_Z 2))).

Definition sample_compile (source : string) : result (@Program QDecimal) :=
  if String.eqb source "2" then Ok fee_program else Ok total_program.
Definition sample_parse (source : string) : result AstNode :=
  if String.eqb source "2" then Ok OtherNode
  else if String.eqb source "x + fee" then Ok (BinaryNode (IdentifierNode "x") (IdentifierNode "fee"))
  else Ok (CallNode (MemberNode (IdentifierNode "x") (IdentifierNode "add")) [IdentifierNode "fee"]).

Definition number_field (name : string) : StructField := mkStructField name true "" (Some GNumber).

Definition sample_expression (total : string) : @DecisionExpression QDecimal + list ExprProblem :=
  NewDecisionExpression sample_compile sample_parse "bill" "" (Some [number_field "x"])
    (Some [number_field "total"; number_field "fee"]) {["total" := total; "fee" := "2"]} [].

Definition sample_plan : list (@compiledEntry QDecimal) :=
  [mkEntry "fee" GNumber fee_program []; mkEntry "total" GNumber total_program ["fee"]].
Definition sample_built : @DecisionExpression QDecimal :=
  mkExpression "bill" "" [mkVar "x" GNumber] [mkVar "total" GNumber; mkVar "fee" GNumber] sample_plan.

Lemma sample_reads e :
  e ∈ x_evalPlan sample_built -> program_reads (ce_program e) (map v_name (x_ivars sample_built) ++ ce_deps e).
Proof.
  intros He env1 env2 _ Ha. apply elem_of_cons in He as [->|He]; [done|]. apply list_elem_of_singleton in He as ->.
  simpl. unfold total_program, number_of. rewrite (Ha "x"), (Ha "fee") by (simpl; set_solver). done.
Qed.

Lemma expression_plan_topological_witness :
  topoSortEntries (reverse sample_plan) ["total"; "fee"] = Ok sample_plan /\
  forall x, ~ tc (depends (reverse sample_plan)) x x.
Proof.
  assert (Ht : topoSortEntries (reverse sample_plan) ["total"; "fee"] = Ok sample_plan) by vm_eq.
  split; [exact Ht|].
  refine (proj1 (proj2 (expression_plan_topological (reverse sample_plan) ["total"; "fee"] _ _ _)) (ex_intro _ _ Ht)).
  - repeat constructor; set_solver.
  - intros e n He Hn. rewrite elem_of_reverse in He. apply elem_of_cons in He as [->|He]; [by apply elem_of_nil in Hn|].
    apply list_elem_of_singleton in He as ->. apply list_elem_of_singleton in Hn as ->. apply elem_of_cons. right. apply elem_of_cons. by left.
  - reflexivity.
Defined.

Lemma expression_evaluation_solves_entries_witness :
  sample_expression "x + fee" = inl sample_built /\
  Evaluate sample_built {["x" := BlNumber (inject_Z 40)]} =
    Ok {["total" := BlNumber (inject_Z 42); "fee" := BlNumber (inject_Z 2)]} /\
  exists env, solves_entries sample_built {["x" := BlNumber (inject_Z 40)]} env.
Proof.
  assert (Hn : sample_expression "x + fee" = inl sample_built) by vm_eq.
  assert (He : Evaluate sample_built {["x" := BlNumber (inject_Z 40)]} =
    Ok {["total" := BlNumber (inject_Z 42); "fee" := BlNumber (inject_Z 2)]}) by vm_eq.
  refine (conj Hn (conj He _)).
  destruct (proj1 (expression_evaluation_solves_entries _ _ _ _ _ _ _ _ sample_built _ _ Hn sample_reads) He) as (env & Hs & _).
  exact (ex_intro _ env Hs).
Defined.

(** ** A dependency that is missed *)

(** [decision-expression.spec.md] (Evaluation) says that a step never reads an
    output that is not yet produced.  [freeIdents] does not look into the
    arguments of a method call, so for [total] written as [x.add(fee)] the
    dependency on [fee] is missed: the plan keeps the declaration order and
    [total] is computed with a zero [fee]. *)
Theorem method_argument_dependency_missed :
  exists d, sample_expression "x.add(fee)" = inl d /\ map ce_output (x_evalPlan d) = ["total"; "fee"] /\
    Evaluate d {["x" := BlNumber (inject_Z 40)]} =
      Ok {["total" := BlNumber (inject_Z 40); "fee" := BlNumber (inject_Z 2)]}.
Proof.
  exists (match sample_expression "x.add(fee)" with inl d => d | inr _ => sample_built end).
  split; [vm_eq|split; [vm_eq|vm_eq]].
Qed.
