(* ===== verification/Engine.v ===== *)
(** * Compiling and evaluating expressions

    Models [core/engine.go], [core/udf.go] and the compilation of unary tests of
    [core/unarytest.go]: a source is normalised, its names are checked, it is
    parsed, rewritten by the patcher, type-checked and compiled; a function of
    the host is such a compiled body with typed parameters and a typed result.
    The parser, the type checker and the machine of the expression library are
    parameters. *)

From Stdlib Require Import SpecFloat.
From S2P Require Import Prelude Decimal GoText GoTime Values ValueLaws Lists Ranges Numbers GoTimeText Durations Temporal Dictionaries Strings Tables Calendars Operators TenDecimal NumberText TemporalText TableJoin Registry Normalise Patch Lowering LoweringLaws DecisionNode UnaryTest DecisionExpression.
Import Ast.
#[global] Open Scope Z_scope.

(** ** Struct types *)

(** The Go type of a field: a concrete value type, the interface [BlValue], or a
    type that does not implement it. *)
Inductive FieldType : Type :=
| Concrete (t : GoType)
| AnyValue
| NotValue (go_name : string).

(** A field of an env or parameter struct. *)
Record Field : Type := mkField {
  f_Name : string;
  f_exported : bool;
  f_tag : string;
  f_type : FieldType
}.

(** [exprTagName] *)
Definition exprTagName (f : Field) : option string :=
  if String.eqb (f_tag f) "-" then None
  else if String.eqb (f_tag f) "" then Some (f_Name f)
  else Some (f_tag f).

(** [envFieldNames]; [None] is a type that is not a struct. *)
Definition envFieldNames (t : option (list Field)) : list string :=
  match t with
  | None => []
  | Some fs => omap (fun f => if f_exported f then exprTagName f else None) fs
  end.

Section Engine.
Context {DO : DecimalOps} {DT : DecimalText DO} {TZ : TimeZones} {GU : GoUnicode} {GM : GoMath} {RX : Regexp} {W : Walker}.

(** Does [field.Set] accept the value? *)
Definition assignable (t : FieldType) (v : BlValue) : bool :=
  match t with
  | Concrete g => bool_decide (go_type v = g)
  | AnyValue => true
  | NotValue _ => false
  end.

(** [setBlField] on a field of a type: the value it holds afterwards. *)
Definition set_field (t : FieldType) (v : BlValue) : result BlValue :=
  if assignable t v then Ok v else Err (TypeError "evaluate" "output type mismatch").

(** ** The expression library *)

(** A compiled program: the run of a tree against named values. *)
Definition Compiled : Type := list (string * HostValue) -> result HostValue.

(** [parser.Parse] of a normalised source, with the library's own builtins. *)
Variable PlainParse : string -> result Node.
(** The parser of [expr.Compile], configured by the fields of the env and the
    signatures of the functions: a name of theirs is not read as a builtin. *)
Variable Parse : option (list Field) -> list (string * list FieldType * FieldType) -> string -> result Node.
(** The checks of [expr.Compile] on a rewritten tree, against the fields of the
    env (none: any name is allowed) and the signatures of the functions. *)
Variable Check : option (list Field) -> list (string * list FieldType * FieldType) -> Node -> option GoError.
(** [expr.Run] of a tree; the flag says whether undefined names are nil. *)
Variable Run : bool -> (string -> option Builtin) -> list (string * HostValue) -> Node -> result HostValue.
(** [compileDynamic] and [runDynamic] as the functions of the registry call them. *)
Variable evaluate : string -> list (string * BlValue) -> result BlValue.
Variables (fuel : nat) (nil_items : bool).

(** ** Functions of the host *)

(** [BlUDF]: [u_params] are the bound fields of the parameter struct, with their
    names in the body. *)
Record BlUDF : Type := mkUDF {
  u_name : string;
  u_body : string;
  u_program : Compiled;
  u_params : list (string * FieldType);
  u_ret : FieldType
}.

(** [udfParams] *)
Definition udfParams (u : BlUDF) : list string := map fst (u_params u).

(** [run]: the program's result as a value of the return type. *)
Definition udf_run (u : BlUDF) (env : list (string * HostValue)) : result BlValue :=
  match u_program u env with
  | Err e => Err (TypeError (u_name u) (error_text e))
  | Ok raw =>
      match set_field (u_ret u) (asBl raw) with
      | Err _ => Err (TypeError (u_name u) "return type mismatch")
      | Ok out => Ok out
      end
  end.

(** The loop of [impl] that sets the parameters. *)
Fixpoint bind_args (params : list (string * FieldType)) (args : list HostValue) : result (list (string * HostValue)) :=
  match params, args with
  | (x, t) :: params', a :: args' =>
      let! v := set_field t (asBl a) in
      let! env := bind_args params' args' in
      Ok ((x, HBl v) :: env)
  | _, _ => Ok []
  end.

(** [impl] *)
Definition udf_impl (u : BlUDF) (args : list HostValue) : result BlValue :=
  if negb (length args =? length (u_params u))%nat then Err (TypeError (u_name u) "argument count mismatch")
  else match bind_args (u_params u) args with
       | Err _ => Err (TypeError (u_name u) "argument type mismatch")
       | Ok env => udf_run u env
       end.

(** [Call]: the fields of the struct in the order of the parameters. *)
Definition udf_Call (u : BlUDF) (fields : list BlValue) : result BlValue :=
  udf_run u (combine (udfParams u) (map HBl fields)).

(** [udfOption]: the registration under the name. *)
Definition udfOption (u : BlUDF) : Builtin :=
  mkBuiltin (u_name u) [] (fun vs => udf_impl u (map HBl vs)).

(** The prototype [reflect.FuncOf(paramTypes, R)]. *)
Definition udf_signature (u : BlUDF) : string * list FieldType * FieldType :=
  (u_name u, map snd (u_params u), u_ret u).

(** ** Compilation *)

(** The functions of values: a later registration of a name replaces an earlier
    one, and those of the host come last. *)
Definition engine_functions (name : string) : option Builtin :=
  List.find (fun b => String.eqb (fn_name b) name)
    (Registry.baseOptions evaluate fuel nil_items ++ [mkBuiltin "__mkdict" [] mkDictFn]).
Definition functions_with (udfs : list BlUDF) (name : string) : option Builtin :=
  match List.find (fun u => String.eqb (u_name u) name) udfs with
  | Some u => Some (udfOption u)
  | None => engine_functions name
  end.

(** The tree as [freeIdents] reads it. *)
Fixpoint ast_of (n : Node) : AstNode :=
  match n with
  | Ast.IdentifierNode x => DecisionExpression.IdentifierNode x
  | Ast.UnaryNode _ a => DecisionExpression.UnaryNode (ast_of a)
  | Ast.BinaryNode _ l r => DecisionExpression.BinaryNode (ast_of l) (ast_of r)
  | Ast.MemberNode a p _ => DecisionExpression.MemberNode (ast_of a) (ast_of p)
  | Ast.CallNode f args => DecisionExpression.CallNode (ast_of f) (map ast_of args)
  | Ast.BuiltinNode _ args => DecisionExpression.BuiltinNode (map ast_of args)
  | Ast.ConditionalNode _ c a b => DecisionExpression.ConditionalNode (ast_of c) (ast_of a) (ast_of b)
  | Ast.VariableDeclaratorNode x e b => DecisionExpression.VariableDeclaratorNode x (ast_of e) (ast_of b)
  | Ast.ArrayNode ns => DecisionExpression.ArrayNode (map ast_of ns)
  | Ast.MapNode pairs =>
      DecisionExpression.MapNode
        ((fix values (ps : list Node) : list (option string * AstNode) :=
            match ps with
            | [] => []
            | Ast.PairNode k v :: ps' => (stringProperty k, ast_of v) :: values ps'
            | _ :: ps' => values ps'
            end) pairs)
  | _ => DecisionExpression.OtherNode
  end.

(** [expr.Compile] with the options of [buildOptionsEnv] and the functions. *)
Definition expr_Compile (fields : option (list Field)) (udfs : list BlUDF) (src : string) : result Compiled :=
  let! tree := Parse fields (map udf_signature udfs) src in
  let tree' := patch tree in
  match Check fields (map udf_signature udfs) tree' with
  | Some e => Err e
  | None => Ok (fun env => Run (bool_decide (fields = None)) (functions_with udfs) env tree')
  end.

(** [compileWithEnv] *)
Definition compileWithEnv (source : string) (fields : list Field) (declared : list string) (udfs : list BlUDF)
  : outcome (result Compiled) :=
  let? src := normalise fuel namedArgParams source in
  Done match firstUndefined (fun s => let! t := PlainParse s in Ok (ast_of t)) src declared with
       | Some name => Err (ErrorText ("unknown name " +:+ name))
       | None => expr_Compile (Some fields) udfs src
       end.

(** The caller's wrapping of a compilation error. *)
Definition parse_error {A} (source : string) (r : result A) : result A :=
  match r with
  | Ok a => Ok a
  | Err e => Err (ParseError source (error_text e))
  end.

(** [udfOptions] on the functions themselves. *)
Definition check_udfs (udfs : list BlUDF) : result () :=
  match udfOptions [] (map u_name udfs) with
  | Some name => Err (ErrorText ("duplicate function " +:+ Prelude.quote name))
  | None => Ok tt
  end.

(** ** Expressions *)

Definition errEmptySource : string := "empty source string".

(** [BlExpr] *)
Record BlExpr : Type := mkExpr { e_source : string; e_program : Compiled }.

(** [Expr]; [fields] is the env struct. *)
Definition Expr (fields : list Field) (source : string) (udfs : list BlUDF) : outcome (result BlExpr) :=
  if String.eqb source "" then Done (Err (ParseError source errEmptySource))
  else match check_udfs udfs with
       | Err e => Done (Err (ParseError source (error_text e)))
       | Ok _ =>
           let? r := compileWithEnv source fields (envFieldNames (Some fields)) udfs in
           Done (let! program := parse_error source r in Ok (mkExpr source program))
       end.

(** [ExprNoEnv] *)
Definition ExprNoEnv (source : string) (udfs : list BlUDF) : outcome (result BlExpr) := Expr [] source udfs.

(** The run of a program, its error a [TypeError]. *)
Definition run_compiled (p : Compiled) (env : list (string * HostValue)) : result BlValue :=
  match p env with
  | Ok raw => Ok (asBl raw)
  | Err e => Err (TypeError "evaluate" (error_text e))
  end.

(** [BlExpr.Evaluate] *)
Definition Expr_Evaluate (e : BlExpr) (env : list (string * HostValue)) : result BlValue := run_compiled (e_program e) env.

(** ** Defining a function *)

(** The loop of [Func] over the fields of the parameter struct. *)
Fixpoint udf_fields (body : string) (fs : list Field) : result (list (string * FieldType)) :=
  match fs with
  | [] => Ok []
  | f :: fs' =>
      if negb (f_exported f) then udf_fields body fs'
      else match exprTagName f with
           | None => udf_fields body fs'
           | Some x =>
               match f_type f with
               | NotValue go_name =>
                   Err (ParseError body ("parameter " +:+ f_Name f +:+ ": type " +:+ go_name +:+ " does not implement BlValue"))
               | t => let! ps := udf_fields body fs' in Ok ((x, t) :: ps)
               end
           end
  end.

(** [Func]; [P] is the parameter struct, or the name of a type that is none. *)
Definition Func (name body : string) (P : string + list Field) (R : FieldType) (deps : list BlUDF) : outcome (result BlUDF) :=
  if String.eqb name "" then Done (Err (ParseError body "empty function name"))
  else match P with
       | inl go_name => Done (Err (ParseError body ("parameter type " +:+ go_name +:+ " is not a struct")))
       | inr fields =>
           match udf_fields body fields with
           | Err e => Done (Err e)
           | Ok params =>
               match check_udfs deps with
               | Err e => Done (Err (ParseError body (error_text e)))
               | Ok _ =>
                   let? r := compileWithEnv body fields (envFieldNames (Some fields)) deps in
                   Done (let! program := parse_error body r in Ok (mkUDF name body program params R))
               end
           end
       end.

(** ** Unary tests *)

(** [BlUnaryTest] *)
Record BlUnaryTest : Type := mkUnaryTest { t_source : string; t_program : Compiled }.

(** [unaryEnv] *)
Definition unaryEnv (t : FieldType) : list Field := [mkField "Input" true inputPlaceholder t].

(** [UnaryTest] *)
Definition UnaryTest (t : FieldType) (source : string) : outcome (result BlUnaryTest) :=
  if String.eqb (TrimSpace source) "" then Done (Err (ParseError source errEmptySource))
  else
    let? r := compileWithEnv (normaliseUnaryTest source) (unaryEnv t) [inputPlaceholder] [] in
    Done (let! program := parse_error source r in Ok (mkUnaryTest source program)).

(** [BlUnaryTest.Evaluate] *)
Definition UnaryTest_Evaluate (u : BlUnaryTest) (input : BlValue) : result BlValue :=
  run_compiled (t_program u) [(inputPlaceholder, HBl input)].

(** ** Bodies of function values *)

(** [compileDynamic] *)
Definition compileDynamic (source : string) : outcome (result Compiled) :=
  let? src := normalise fuel namedArgParams source in
  Done (parse_error source (expr_Compile None [] src)).

(** [runDynamic] *)
Definition runDynamic (p : Compiled) (vars : list (string * BlValue)) : result BlValue :=
  run_compiled p (map (fun v => (fst v, HBl (snd v))) vars).

End Engine.

(** * Compiled expressions and functions of the host

    When a source compiles, what evaluating it computes, and what calling a
    function of the host from an expression or from Go computes: the meaning of
    its body with the parameters bound, as a value of the declared type. *)

Import Ast.

(** ** Typed calls *)

Section Typed.
Context {DO : DecimalOps}.

Lemma set_field_ok t v w : set_field t v = Ok w -> w = v /\ assignable t v = true.
Proof. unfold set_field. destruct (assignable t v); [by intros [= <-]|discriminate]. Qed.

Lemma bind_args_ok params args env :
  bind_args params args = Ok env -> length args = length params ->
  Forall2 (fun p a => assignable (snd p) (asBl a) = true) params args /\
  env = zip_with (fun p a => (fst p, HBl (asBl a))) params args.
Proof.
  revert args env. induction params as [|[x t] params IH]; intros [|a args] env; try discriminate.
  { intros [= <-] _. split; [constructor|done]. }
  cbn [bind_args]. destruct (set_field t (asBl a)) as [v|] eqn:Es; [|discriminate]. apply set_field_ok in Es as [-> Ht].
  cbn [result_bind]. destruct (bind_args params args) as [env'|] eqn:Eb; [|discriminate]. intros [= <-] [= Hl].
  destruct (IH args env' Eb Hl) as [H1 ->]. split; [by constructor|done].
Qed.

Lemma bind_args_assignable params args :
  Forall2 (fun p a => assignable (snd p) (asBl a) = true) params args ->
  bind_args params args = Ok (zip_with (fun p a => (fst p, HBl (asBl a))) params args).
Proof.
  induction 1 as [|[x t] a params args Ha _ IH]; [done|]. cbn. unfold set_field. cbn in Ha. rewrite Ha. cbn. by rewrite IH.
Qed.

(** A call of a host function is typed whatever its body does: it answers only
    where there are as many arguments as parameters, each of the parameter's type,
    with a value of the declared type; every other outcome is a [TypeError] that
    names the function. *)
Theorem udf_call_typed (u : BlUDF) (args : list HostValue) :
  match udf_impl u args with
  | Ok v =>
      Forall2 (fun p a => assignable (snd p) (asBl a) = true) (u_params u) args /\ assignable (u_ret u) v = true
  | Err e => exists detail, e = TypeError (u_name u) detail
  end.
Proof.
  unfold udf_impl. destruct (length args =? length (u_params u))%nat eqn:El; cbn [negb]; [|by eexists].
  apply Nat.eqb_eq in El. destruct (bind_args (u_params u) args) as [env|] eqn:Eb; [|by eexists].
  apply bind_args_ok in Eb as [Ha _]; [|done]. unfold udf_run. destruct (u_program u env) as [raw|]; [|by eexists].
  destruct (set_field (u_ret u) (asBl raw)) as [v|] eqn:Es; [|by eexists]. apply set_field_ok in Es as [-> Hr]. done.
Qed.

(** Calling a function from an expression and from Go is the same: with arguments
    of the parameters' types, the registered function runs the stored program
    against the struct [Call] takes. *)
Theorem udf_call_agrees (u : BlUDF) (vs : list BlValue) :
  Forall2 (fun p v => assignable (snd p) v = true) (u_params u) vs ->
  udf_impl u (map HBl vs) = udf_Call u vs.
Proof.
  intros Ha. pose proof (Forall2_length _ _ _ Ha) as Hl. unfold udf_impl, udf_Call, udfParams.
  rewrite length_map, Hl, Nat.eqb_refl. cbn [negb].
  rewrite bind_args_assignable by (apply Forall2_fmap_r; done).
  f_equal. clear Hl. induction Ha as [|[x t] v params vs _ _ IH]; [done|]. cbn. by rewrite IH.
Qed.

End Typed.

Section Compile.
Context {DO : DecimalOps} {DT : DecimalText DO} {TZ : TimeZones} {GU : GoUnicode} {GM : GoMath} {RX : Regexp} {W : Walker}.
Variable PlainParse : string -> result Node.
Variable Parse : option (list Field) -> list (string * list FieldType * FieldType) -> string -> result Node.
Variable Check : option (list Field) -> list (string * list FieldType * FieldType) -> Node -> option GoError.
Variable Run : bool -> (string -> option Builtin) -> list (string * HostValue) -> Node -> result HostValue.
Variable evaluate : string -> list (string * BlValue) -> result BlValue.
Variables (fuel : nat) (nil_items : bool).

Abbreviation functions := (functions_with evaluate fuel nil_items).
Abbreviation NewExpr := (Expr PlainParse Parse Check Run evaluate fuel nil_items).
Abbreviation NewFunc := (Func PlainParse Parse Check Run evaluate fuel nil_items).
Abbreviation NewUnaryTest := (UnaryTest PlainParse Parse Check Run evaluate fuel nil_items).

(** ** When a source compiles *)









(** ** What evaluation computes *)

(** The library's machine obeys the laws, whatever functions are registered. *)
Variable machine : forall registered, Machine registered.
Hypothesis Run_machine : forall registered env n, Run false registered env n = run (Machine := machine registered) env n.

(** The registry has every function the rewriting emits. *)
Lemma engine_functions_emitted b : b ∈ emitted -> engine_functions evaluate fuel nil_items (fn_name b) = Some b.
Proof.
  assert (H : Forall (fun b => engine_functions evaluate fuel nil_items (fn_name b) = Some b) emitted).
  { unfold emitted, operatorRegistrations, booleanOptions, comprehensionOptions. cbn [app].
    repeat first [apply Forall_nil_2 | apply Forall_cons_2; [reflexivity|]]. }
  rewrite Forall_forall in H. apply H.
Qed.

(** No function of the host takes the name of one the rewriting emits. *)
Definition no_clash (udfs : list BlUDF) : bool :=
  forallb (fun u => negb (bool_decide (u_name u ∈ map fn_name emitted))) udfs.

Lemma functions_emitted udfs b : no_clash udfs = true -> b ∈ emitted -> functions udfs (fn_name b) = Some b.
Proof.
  intros Hc Hb. unfold functions_with.
  destruct (List.find _ udfs) as [u|] eqn:Ef; [|by apply engine_functions_emitted].
  apply List.find_some in Ef as [Hu En]. apply String.eqb_eq in En. unfold no_clash in Hc. rewrite forallb_forall in Hc.
  apply Hc, negb_true_iff, bool_decide_eq_false in Hu. destruct Hu. rewrite En. apply list_elem_of_In, in_map. by apply list_elem_of_In.
Qed.

(** The tree a source stands for, given the env and the functions. *)
Definition reads (fields : option (list Field)) (udfs : list BlUDF) (source : string) (n : Node) : Prop :=
  exists src, normalise fuel namedArgParams source = Done src /\ Parse fields (map udf_signature udfs) src = Ok n.

(** A compiled source runs the rewritten tree, and so computes its meaning. *)
Lemma compiled_meaning source fields declared udfs n p env scope :
  compileWithEnv PlainParse Parse Check Run evaluate fuel nil_items source fields declared udfs = Done (Ok p) ->
  reads (Some fields) udfs source n -> no_clash udfs = true -> supported (registered := functions udfs) false n = true ->
  (forall x, internal x = false -> assoc x env = HBl <$> scope x) ->
  p env ≈ bl_of (feel (functions udfs) n scope).
Proof.
  intros Hp (src & Hs & Hn) Hc Hsup Henv. unfold compileWithEnv in Hp. rewrite Hs in Hp. cbn [outcome_bind] in Hp.
  destruct (firstUndefined _ src declared); [discriminate|]. unfold expr_Compile in Hp. rewrite Hn in Hp. cbn [result_bind] in Hp.
  destruct (Check _ _ (patch n)); [discriminate|]. injection Hp as <-. cbn beta.
  rewrite Run_machine. apply (patch_preserves_meaning (M := machine (functions udfs))); [|done..].
  intros b. by apply functions_emitted.
Qed.

Lemma run_compiled_meaning (p : Compiled) env r : p env ≈ bl_of r -> run_compiled p env ≈ r.
Proof. unfold run_compiled. destruct (p env) as [raw|], r as [v|]; cbn; try done. by intros ->. Qed.

(** Evaluating a compiled expression computes the meaning of its source, with the
    fields of the env for its variables and the functions of the host for the
    names it calls. *)
Theorem expr_evaluates_meaning (fields : list Field) (source : string) (udfs : list BlUDF) (e : BlExpr) (n : Node)
    (env : list (string * HostValue)) (scope : Scope) :
  NewExpr fields source udfs = Done (Ok e) -> reads (Some fields) udfs source n -> no_clash udfs = true ->
  supported (registered := functions udfs) false n = true ->
  (forall x, internal x = false -> assoc x env = HBl <$> scope x) ->
  Expr_Evaluate e env ≈ feel (functions udfs) n scope.
Proof.
  intros He Hr Hc Hs Henv. unfold Expr in He. destruct (String.eqb source ""); [discriminate|].
  destruct (check_udfs udfs); [|discriminate]. destruct (compileWithEnv _ _ _ _ _ _ _ _ _ _ _) as [r| |] eqn:Ep; try discriminate.
  cbn [outcome_bind] in He. destruct r as [p|]; [|discriminate]. injection He as <-.
  apply run_compiled_meaning. by eapply compiled_meaning.
Qed.

(** A unary test evaluates the meaning of the rewritten cell at its input. *)
Theorem unary_test_meaning (t : FieldType) (source : string) (u : BlUnaryTest) (n : Node) (input : BlValue) :
  NewUnaryTest t source = Done (Ok u) -> reads (Some (unaryEnv t)) [] (normaliseUnaryTest source) n ->
  supported (registered := functions []) false n = true ->
  UnaryTest_Evaluate u input ≈ feel (functions []) n (fun x => if String.eqb inputPlaceholder x then Some input else None).
Proof.
  intros He Hr Hs. unfold UnaryTest in He. destruct (String.eqb (TrimSpace source) ""); [discriminate|].
  destruct (compileWithEnv _ _ _ _ _ _ _ _ _ _ _) as [r| |] eqn:Ep; try discriminate.
  cbn [outcome_bind] in He. destruct r as [p|]; [|discriminate]. injection He as <-.
  apply run_compiled_meaning. eapply compiled_meaning; [done..|]. intros x _. unfold assoc. cbn [List.find fst].
  by destruct (String.eqb inputPlaceholder x).
Qed.

(** ** Functions of the host *)

(** The scope of a body: its parameters. *)
Definition param_scope (params : list (string * FieldType)) (vs : list BlValue) : Scope :=
  fun x => assoc x (zip_with (fun p v => (fst p, v)) params vs).

Lemma param_scope_env params vs x :
  assoc x (zip_with (fun p a => (fst p, HBl (asBl a))) params (map HBl vs)) = HBl <$> param_scope params vs x.
Proof.
  unfold param_scope. revert vs. induction params as [|[y t] params IH]; intros [|v vs]; try done.
  cbn. unfold assoc in *. cbn. destruct (String.eqb y x); [done|]. apply IH.
Qed.

(** C20. A call of a host function with arguments of its types computes the meaning of
    its body with the parameters bound to them, and the functions it depends on;
    a result that is not of the declared type is an error.  The body is one of the
    fragment on which [patch] keeps the meaning (patch_preserves_meaning), and none
    of the functions it depends on has the name of a function that [patch] emits. *)
Theorem udf_computes_body (name body : string) (fields : list Field) (R : FieldType) (deps : list BlUDF)
    (u : BlUDF) (n : Node) (vs : list BlValue) :
  NewFunc name body (inr fields) R deps = Done (Ok u) -> reads (Some fields) deps body n -> no_clash deps = true ->
  supported (registered := functions deps) false n = true ->
  Forall2 (fun p v => assignable (snd p) v = true) (u_params u) vs ->
  apply_builtin (udfOption u) vs ≈
    let! v := feel (functions deps) n (param_scope (u_params u) vs) in set_field R v.
Proof.
  intros He Hr Hc Hs Ha. unfold Func in He. destruct (String.eqb name ""); [discriminate|].
  destruct (udf_fields body fields) as [params|]; [|discriminate]. destruct (check_udfs deps); [|discriminate].
  destruct (compileWithEnv _ _ _ _ _ _ _ _ _ _ _) as [r| |] eqn:Ep; try discriminate.
  cbn [outcome_bind] in He. destruct r as [p|]; [|discriminate]. injection He as <-. cbn [u_params] in *.
  unfold apply_builtin, udfOption. cbn [arity_ok fn_arities fn_impl]. unfold udf_impl. cbn [u_params u_name].
  rewrite length_map, (Forall2_length _ _ _ Ha), Nat.eqb_refl. cbn [negb].
  rewrite bind_args_assignable by (apply Forall2_fmap_r; done).
  pose proof (compiled_meaning _ _ _ _ _ _ _ (param_scope params vs) Ep Hr Hc Hs (fun x _ => param_scope_env params vs x)) as Hm.
  unfold udf_run. cbn [u_program u_ret u_name].
  destruct (p _) as [raw|], (feel (functions deps) n (param_scope params vs)) as [v|]; cbn in Hm |- *; try done. subst raw.
  cbn [asBl]. unfold set_field. by destruct (assignable R v).
Qed.

End Compile.

(** * Compiling and calling at concrete sources

    A function [addTax] of the host, an expression and a decision-table cell that
    use it, with a parser that knows these sources, a checker that accepts every
    tree, and the machine of the samples. *)

Import Ast.

#[local] Existing Instance tenDecimal.
#[local] Existing Instance tenText.
#[local] Existing Instance post_order_walker.
#[local] Existing Instance sampleZones.
#[local] Existing Instance vm_machine.
#[local] Instance plainUnicode : GoUnicode := {| unicode_ToUpper r := r; unicode_ToLower r := r |}.
#[local] Instance noRegexp : Regexp := {|
  Re := Empty_set; re_Compile _ := None; re_MatchString _ _ := false; re_ReplaceAllString _ s _ := s; re_FindAllString _ _ := []
|}.

(** [amount * 2], [addTax(base) + 5] and [__input > 3] *)
Definition tax_tree : Node := BinaryNode "*" (ident "amount") (IntegerNode 2).
Definition price_tree : Node := BinaryNode "+" (CallNode (ident "addTax") [ident "base"]) (IntegerNode 5).
Definition cell_tree : Node := BinaryNode ">" (ident "__input") (IntegerNode 3).

Definition sample_plain (src : string) : result Node :=
  match assoc src [("amount * 2", tax_tree); ("addTax(base) + 5", price_tree); ("__input > 3", cell_tree)]%string with
  | Some n => Ok n
  | None => Err (ErrorText "syntax error")
  end.
Definition sample_parse (fields : option (list Field)) (sigs : list (string * list FieldType * FieldType)) : string -> result Node :=
  sample_plain.
Definition accept (fields : option (list Field)) (sigs : list (string * list FieldType * FieldType)) (n : Node) : option GoError := None.
Definition sample_run (lenient : bool) (registered : string -> option Builtin) (env : list (string * HostValue)) (n : Node)
  : result HostValue := run (Machine := vm_machine registered) env n.
Definition no_bodies (body : string) (vars : list (string * BlValue)) : result BlValue := Err (ErrorText "not called").

Abbreviation sample_functions_with := (functions_with no_bodies 20 false).
Abbreviation sample_expr := (Expr sample_plain sample_parse accept sample_run no_bodies 20 false).
Abbreviation sample_func := (Func sample_plain sample_parse accept sample_run no_bodies 20 false).
Abbreviation sample_test := (UnaryTest sample_plain sample_parse accept sample_run no_bodies 20 false).

Definition tax_fields : list Field := [mkField "Amount" true "amount" (Concrete GNumber); mkField "note" false "" (NotValue "string")].
Definition price_fields : list Field := [mkField "Base" true "base" (Concrete GNumber)].

(** The function and the expression, as the constructors return them. *)
Definition addTax : BlUDF :=
  mkUDF "addTax" "amount * 2" (fun env => sample_run false (sample_functions_with []) env (patch tax_tree))
    [("amount", Concrete GNumber)]%string (Concrete GNumber).
Definition price : BlExpr :=
  mkExpr "addTax(base) + 5" (fun env => sample_run false (sample_functions_with [addTax]) env (patch price_tree)).
Definition over_three : BlUnaryTest :=
  mkUnaryTest "> 3" (fun env => sample_run false (sample_functions_with []) env (patch cell_tree)).

Lemma addTax_built : sample_func "addTax" "amount * 2" (inr tax_fields) (Concrete GNumber) [] = Done (Ok addTax).
Proof. reflexivity. Qed.
Lemma price_built : sample_expr price_fields "addTax(base) + 5" [addTax] = Done (Ok price).
Proof. reflexivity. Qed.
Lemma over_three_built : sample_test (Concrete GNumber) "> 3" = Done (Ok over_three).
Proof. reflexivity. Qed.
Lemma tax_reads : reads sample_parse 20 (Some tax_fields) [] "amount * 2" tax_tree.
Proof. exists "amount * 2"%string. split; reflexivity. Qed.
Lemma price_reads : reads sample_parse 20 (Some price_fields) [addTax] "addTax(base) + 5" price_tree.
Proof. exists "addTax(base) + 5"%string. split; reflexivity. Qed.
Lemma cell_reads : reads sample_parse 20 (Some (unaryEnv (Concrete GNumber))) [] (normaliseUnaryTest "> 3") cell_tree.
Proof. exists "__input > 3"%string. split; reflexivity. Qed.

Definition base_scope : Scope := fun x => if String.eqb "base" x then Some (n_ 100) else None.

Lemma expr_evaluates_meaning_witness : Expr_Evaluate price [("base"%string, HBl (n_ 100))] ≈ Ok (n_ 205).
Proof.
  change (Ok (n_ 205)) with (feel (sample_functions_with [addTax]) price_tree base_scope).
  apply (expr_evaluates_meaning sample_plain sample_parse accept sample_run no_bodies 20 false (fun r => vm_machine r) (fun _ _ _ => eq_refl)
    price_fields "addTax(base) + 5" [addTax] price price_tree [("base"%string, HBl (n_ 100))] base_scope
    price_built price_reads); [reflexivity..|].
  intros x _. unfold assoc, base_scope. cbn [List.find fst]. by destruct (String.eqb "base" x).
Defined.

Lemma udf_computes_body_witness : apply_builtin (udfOption addTax) [n_ 100] ≈ Ok (n_ 200).
Proof.
  change (Ok (n_ 200)) with
    (let! v := feel (sample_functions_with []) tax_tree (param_scope (u_params addTax) [n_ 100]) in set_field (Concrete GNumber) v).
  apply (udf_computes_body sample_plain sample_parse accept sample_run no_bodies 20 false (fun r => vm_machine r) (fun _ _ _ => eq_refl)
    "addTax" "amount * 2" tax_fields (Concrete GNumber) [] addTax tax_tree [n_ 100] addTax_built tax_reads); [reflexivity..|].
  constructor; [reflexivity|constructor].
Defined.

Lemma unary_test_meaning_witness : UnaryTest_Evaluate over_three (n_ 4) ≈ Ok (BlBoolean true).
Proof.
  change (Ok (BlBoolean true)) with
    (feel (sample_functions_with []) cell_tree (fun x => if String.eqb inputPlaceholder x then Some (n_ 4) else None)).
  apply (unary_test_meaning sample_plain sample_parse accept sample_run no_bodies 20 false (fun r => vm_machine r) (fun _ _ _ => eq_refl)
    (Concrete GNumber) "> 3" over_three cell_tree (n_ 4) over_three_built cell_reads). reflexivity.
Defined.

Lemma udf_call_agrees_witness : udf_impl addTax [HBl (n_ 100)] = udf_Call addTax [n_ 100].
Proof. apply (udf_call_agrees addTax [n_ 100]). constructor; [reflexivity|constructor]. Defined.


(** A parameter needs no tag: an exported field without one is a parameter under
    its Go name. *)
Theorem untagged_field_is_parameter (body name : string) (t : GoType) :
  udf_fields body [mkField name true "" (Concrete t)] = Ok [(name, Concrete t)].
Proof. reflexivity. Qed.
